(* ===== verification/_CoqProject ===== *)
-Q . S2P
Prelude.v
Bits.v
Data.v
Adler.v
Checksum.v
StringTools.v
MemFile.v
FileList.v
Glob.v
Midl.v
MidlSort.v
BlockHash.v
Md5.v
Sha2.v
TreeHash.v
TreeRoot.v
TreeSpec.v
TreeTheorems.v
TcpStack.v
ExtentIter.v
PatchWriter.v
ChunkPatcher.v
PatchApply.v
PatchLoop.v
PatchBuild.v
PatchHash.v
PatchRound.v
PatchLimits.v
ChunkHasher.v
ChunkSpec.v
ChunkLoop.v
ChunkTheorems.v
ChunkInplace.v
TreeNode.v
TreeReader.v
TreeDiff.v
TreeLex.v
TreeOutcome.v
TreeForest.v
TreeBuild.v
TreeDiffSpec.v
TreeMarks.v
TreeDiffLoop.v
TreeDiffRoot.v
TreeDiffPaths.v
TreeDiffMapped.v
TreeDiffTheorems.v
FileBackup.v
FileBackupTheorems.v
MemCache.v
CompressedFile.v
MemCacheSpec.v
CompSpec.v
CompFill.v
CompOps.v
CompClose.v
CompThreads.v
CompTheorems.v
VhdFormat.v
VhdFile.v
VhdSpec.v
VhdSteps.v
VhdRead.v
VhdWrite.v
VhdTable.v
VhdOps.v
VhdImage.v
VhdReopen.v
VhdDisk.v
VhdTheorems.v
VhdBackup.v
ZipBase.v
ZipSort.v
ZipReader.v
ZipSafety.v
ZipWriter.v
ZipTheorems.v
