(* ===== verification/Prelude.v ===== *)
(** UrBackup: a verification library for the data-handling core of the backup
    server and client.

    * The program

    UrBackup is a client/server backup system in C++ with some C.  A client sends
    its list of files and, for every file that changed, either the file or a
    patch against the version the server already has; the server hashes what it
    received, looks the hash up in a file index kept in a key-value store, and
    links to an existing file or builds the new one.  Backups are listed and
    downloaded over a web interface, as ZIP archives for directories.  Around this
    stand long-running threads, sockets, SQLite and operating-system snapshots.
    Volumes are backed up as images.

    The library models the parts of this in which the program's own algorithms
    are: its formats, its hashes and checksums, the patch machinery, the ID lists
    of the key-value store, and the archives.  They meet as follows.

    - [TcpStack.v] frames the messages of the protocol; their contents are
      written and read with [Data.v], or are parameter strings of
      [StringTools.v]; the framing's checksum is [Md5.v].
    - [FileList.v] is the list of files of a backup; which files get there is
      decided with the patterns of [Glob.v].
    - The lists of the last backup and of the new one are read into trees
      ([TreeReader.v], over the nodes of [TreeNode.v]) and compared ([TreeDiff.v]);
      the lines that this yields say what is loaded and what is taken over, and
      [FileBackup.v] computes from them how much that is.
    - A changed file arrives as a patch ([PatchWriter.v]), with its sparse extents
      beside it ([ExtentIter.v]).  [ChunkPatcher.v] merges patch, extents and old
      version; [PatchApply.v] has its two clients, one hashing the new file while
      the patch is applied and one building it.  All files are behind the class
      [IFile] of [MemFile.v].
    - Hashes are [Sha2.v] and [Md5.v], over the common [BlockHash.v]; rolling and
      archive checksums are [Adler.v] and [Checksum.v].  Files are compared by the
      tree hash of [TreeHash.v], made of these, which can be computed from a file's
      contents or from the chunk hashes that [ChunkHasher.v] writes while it copies
      a file, to a new place or onto an older version.
    - A volume is backed up into an image, [VhdFile.v] (with the headers of
      [VhdFormat.v]), whose file is again behind [IFile]; an incremental image has
      the last one as its parent, behind the class [IVHDParent].  The file below can
      be a compressed one, [CompressedFile.v] with the cache of [MemCache.v].
    - The key-value store keeps sets of page numbers in the lists of [Midl.v].
    - Archives are read with [ZipReader.v] and written with [ZipWriter.v].

    * The files and what they model

    Generic: [Prelude.v] (machine integers, bytes, lists, their
    lemmas, the hint database [ub] and the tactics), [Bits.v] (a reflective
    decision procedure for bit expressions).

    - [Data.v]: [common/data.cpp]. [CWData] is the byte list written so far,
      [CRData] a record of buffer, length and position; one definition per method.
    - [Adler.v]: [common/adler32.cpp].  [Checksum.v]: [mz_adler32] and [mz_crc32]
      of [common/miniz.c].
    - [StringTools.v]: [stringtools.cpp], strings as lists of characters.
    - [MemFile.v]: the interface [Interface/File.h] as the class [IFile] with its
      laws [FileLaws], and the implementation [file_memory.cpp].
    - [FileList.v]: [urbackupcommon/filelist_utils.cpp], writer and the parser's
      state machine.
    - [Glob.v]: [urbackupcommon/glob.cpp].
    - [TreeNode.v], [TreeReader.v], [TreeDiff.v]: the files of the same names in
      [urbackupserver/treediff].  A tree is the array of its nodes and a pointer an
      index into it; nodes are updated in place.  Outcomes are a value, [return
      false], a failed [assert], an access outside an array or the top of an empty
      stack, and running out of fuel.
    - [FileBackup.v]: [hasChange] and [getIncrementalSize] of
      [urbackupserver/FileBackup.cpp].
    - [Midl.v], [MidlSort.v]: [urbackupserver/lmdb/midl.c] on the whole allocation
      of a list; [None] is an access outside of it.
    - [Md5.v]: [md5.cpp]; [Sha2.v]: [urbackupcommon/sha2/sha2.cpp].
    - [TcpStack.v]: [urbackupcommon/fileclient/tcpstack.cpp] and
      [urbackupcommon/escape.cpp].
    - [ExtentIter.v]: [urbackupcommon/ExtentIterator.cpp].
    - [PatchWriter.v]: the patch file functions of
      [urbackupcommon/fileclient/FileClientChunked.cpp].
    - [ChunkPatcher.v]: [urbackupserver/ChunkPatcher.cpp], a state monad over the
      patcher's members, the three files and the callback's state; its outcomes
      are a value, [return false], a failed [assert], an access outside a buffer
      and running out of fuel.
    - [PatchApply.v]: [hash_sha], [hash_with_patch] and the callback of
      [urbackupserver/server_prepare_hash.cpp]; [patchFile], its callback, the
      punching of holes and the repeated writes of
      [urbackupserver/server_hash.cpp].
    - [TreeHash.v]: [urbackupcommon/TreeHash.cpp], the class with its levels and its
      block in progress, and the flat hashes of the same interface.
    - [ChunkHasher.v]: [build_chunk_hashs] and [writeFileRepeatTries] of
      [urbackupcommon/chunk_hasher.cpp], cut at the source's loops; the outcomes are
      a state, [return false], and a failed [assert].
    - [VhdFormat.v], [VhdFile.v]: [fsimageplugin/vhdfile.h] and
      [fsimageplugin/vhdfile.cpp], the headers as records with their bytes, the class
      as a record of its members over a file and a parent, a definition for each
      method and for each loop in it.  The outcomes are a value, an access outside
      an array or a division by zero, and not ending.
    - [MemCache.v]: [fsimageplugin/LRUMemCache.cpp], the cache over a client that it
      hands blocks to (the class [ICacheEvictionCallback]), with the queue and the
      steps of its threads.  [CompressedFile.v]: [fsimageplugin/CompressedFile.cpp];
      the outcomes are a value, a failed [assert], an access outside a buffer,
      waiting for a thread, and running out of rounds.
    - [ZipBase.v] (with weakest preconditions), [ZipSort.v], [ZipReader.v],
      [ZipWriter.v]: the archive functions
      of [common/miniz.c] and the streaming write function of
      [urbackupserver/serverinterface/create_zip.cpp].

    The remaining files are proofs: [PatchLoop.v] (the patcher for any
    callback), [PatchBuild.v], [PatchHash.v], [PatchRound.v], [PatchLimits.v],
    [TreeRoot.v], [TreeSpec.v], [TreeTheorems.v], [ChunkSpec.v] (a chunk),
    [ChunkLoop.v] (all chunks), [ChunkTheorems.v], [ChunkInplace.v],
    [TreeLex.v] (the lines of any file, read in pieces),
    [TreeOutcome.v], [TreeForest.v] (lists as forests), [TreeBuild.v],
    [TreeDiffSpec.v] (the difference without pointers), [TreeMarks.v],
    [TreeDiffLoop.v], [TreeDiffRoot.v] (the code computes it), [TreeDiffPaths.v],
    [TreeDiffMapped.v] (the same in terms of paths), [TreeDiffTheorems.v],
    [FileBackupTheorems.v],
    [VhdSpec.v] (the disk of an image and its invariant), [VhdSteps.v], [VhdRead.v],
    [VhdWrite.v], [VhdTable.v] (the steps of the calls),
    [VhdOps.v] (the calls; an image is a parent), [VhdImage.v]
    (new images), [VhdReopen.v], [VhdDisk.v] (sequences of calls), [VhdTheorems.v],
    [VhdBackup.v] (create, write, finish, open, read), [MemCacheSpec.v] (the cache and any client with the laws [EvictionLaws]),
    [CompSpec.v] (a compressed file is such a client), [CompFill.v], [CompOps.v] (reading
    and writing), [CompClose.v] (finishing and opening), [CompThreads.v],
    [CompTheorems.v], [ZipSafety.v], [ZipTheorems.v].

    * What is proved

    Formats.  Messages, variable-length integers, file lists, parameter strings,
    base64, hexadecimal and decimal numbers are read back as they were written,
    for all inputs within the stated widths; readers never leave their buffer.
    Framing delivers exactly the messages sent, however the stream is cut into fragments
    for which the receive buffer has room.

    Hashes and checksums.  The streaming objects compute the hash of the whole
    message for every way it is cut, against a definition of the padded message
    and a compression function that is not the code's: SHA-2 with the standard's full
    message schedule, MD5 ([Md5.md5_compress]) with one step for all rounds and its
    parameters as the RFC gives them.  The checksums,
    unrolled and with deferred reductions, equal the textbook sums and the
    bit-by-bit CRC.  The tree hash is a function of a file's blocks and extents
    ([TreeSpec.treehash_spec]), whichever way each block was given.

    Chunk hashes.  [build_chunk_hashs] writes the chunk hashes of the file
    ([ChunkSpec.chunk_hash_file]), makes the copy hold the file's contents and gives
    the hash function what hashing the file gives it, for new copies, copies over
    an older file with holes or zeros for the extents, and incremental copies that
    write exactly the small blocks that are not the older version's.  The tree hash
    that it leaves is that of hashing the contents.  An example shows that a file which
    lost a small block makes the incremental copy fail, and files of zeros to have one tree
    hash whatever their size.

    Patches.  [PatchLoop.patches] says when a patch describes a new file against an
    old one.  For such a patch the patcher ends and hands over the new file in
    order, to any callback that satisfies the class [Emitter]; so [patchFile]
    builds the new file, and hashing during the patch hashes what hashing the
    new file would.  The patch files that the transfer writes satisfy it, given
    up blocks and all.  A truncated patch is shown to hang the patcher.

    Differences of file lists.  [TreeForest.forest] is what a list says.  Reading a
    list gives the node array of its forest ([TreeForest.tree_nodes]); on any other
    file the reader ends, in bounds, with an outcome that is stated exactly.  For two
    forests the difference is refined in two steps: the loop over nodes, with its
    jumps among unsorted roots and its marks, computes [TreeDiffSpec.spec], which looks
    every entry up; and that is a set of lines described by the paths of the entries
    ([new_or_changed], [gone_from], [dir_changed]).  The size of an incremental backup
    is the sum over the files so described, and a directory that is reported as
    unchanged has nothing new or changed in it at any depth.  Deletions at its end are
    shown to be reported, but to leave it unchanged.

    Images.  The contents of an image are the function [VhdSpec.disk] of its state: the
    sectors that its bitmaps and its table name, the parent behind them.  The
    invariant [VhdSpec.inv] says that blocks lie apart in the file, that the bitmap
    in memory is that of the current block, and what is zero behind it.  Every call
    keeps it and changes the disk like the same call on a byte array, so that a new
    image, not in fast mode, is a flat disk under any sequence of calls, also over a
    parent; an image satisfies what it asks of a parent, so that chains of any length
    are covered.  The reads of these sequences lie in one block each ([VhdDisk.op_ok]):
    reading across blocks, or in fast mode before the data is in the file, can fail or
    not end, and a single read has [VhdTheorems.readable] for that.  Closing an image and
    opening it again from the bytes of its file gives the same disk, with the fast mode's
    delayed writes; with this a whole backup is covered, from the creation in fast mode
    over any writes to the reading of the finished image ([VhdBackup.v]).  Three theorems say where a read fails
    or never ends and that the used size is not counted.

    Compressed files.  What the cache, its queue and the client hold of a block together
    ([MemCacheSpec.view]) is never lost, by a call or by a step of a thread.  Without
    threads a compressed file is a plain file for reads and writes inside it or at its
    end, and closing and opening it gives the same bytes.  It is shown that with threads
    a block can be nowhere to be found for a while, that reading behind the end leaves
    the cache, and that files opened again for writing cannot be finished.  (Because of
    the first and of what new buffers hold, the laws [FileLaws] that images ask of the
    file below are not claimed of a compressed file.)

    ID lists.  Every operation refines the operation on lists or sets, within its
    allocation; the sort with its explicit stack is correct and never overflows
    the stack.

    Archives.  Opening any block of memory, and every lookup afterwards, is
    memory safe and ends; an opened archive satisfies an invariant that the binary
    search relies on, and lookup is complete.  Extraction is memory safe for compressed
    sizes below 2^63; that it is not for larger ones is shown.

    Termination is always part of the statement.  Several theorems state where
    the code does not do what it means to.

    * Widths, bounds and fuel

    A C integer is a [Z]; casts are the functions [w8] .. [w64], [s32], [s64] of
    [Prelude.v] and written where the code has them.  [size_t] has 64 bits and
    the host is little-endian.  A loop without an evident measure has fuel; its
    theorem states that the fuel the definition computes from its input is
    enough: the fuel of the patcher counts bytes that remain in the two files
    ([PatchLoop.v] shows each round consumes one), the fuel of the sort counts
    the steps of the quicksort, the backward scan of an archive is bounded by
    the 64 KiB it searches, the loops of an image take a round per byte of the
    call at most, a list is read in one round per buffer and one more, and
    the difference of two trees takes a round for every pair of nodes at most.  Running out of fuel is an outcome of its own
    ([NoFuel], [Bad], [Endless], [None]), never a result.

    * Code that is not under src

    The compressor and decompressor used by the archives (in the source, but not
    yet modelled) are the classes [Inflator] and [Deflator], zstd and zlib below compressed files the
    class [ICodec] with the laws [CodecLaws]; the hash function
    object of the preparation thread is the class [IHashFunc]; hole punching,
    which the file systems implement, is a class with the laws [PunchLaws], of
    which the in-memory file is an instance.  Files that are read and written have the
    laws [FileLaws]: [Read] yields what was asked for unless the file ends, and nothing
    fails; short reads and read errors are in the definitions and outside these
    theorems.  Where an image opens its parent by name, what
    opening yields is an argument; clock and random numbers are as well.  Hypotheses on a [Write] that may be
    cut short are stated with the theorem.

    * Not modelled

    - Third-party code: SQLite, Lua, zstd, the btrfs tools, the AWS SDK.
    - The LMDB B-tree ([urbackupserver/lmdb/mdb.c]): a memory-mapped tree whose
      pages are cast to structs; only the ID lists are modelled.
    - Threads, sockets, TLS, the database layer and the operating-system layer:
      what they do is in the calls they make.
    - The protocol of the chunked transfer around the patch file, and the sender.
    - Of the backup itself ([FullFileBackup.cpp], [IncrFileBackup.cpp]) what is done
      with the difference: threads, database and file system.
    - Of the images [makeFull] and the UTF-16 names of parents in
      [vhdfile.cpp] (the names are a parameter of the creation), and the files
      [vhdxfile.cpp] and [cowfile.cpp].
    - How the threads of the cache interleave inside a call: their steps are taken
      between calls.
    - The branch of [build_chunk_hashs] that takes chunk hashes from the client's
      changed-block tracking.
    - Text pages of the web interface.
    - In modelled files: logging, locks, [strftime] and floating-point
      conversions, the stdio front ends of the archives. *)
From Stdlib Require Export ZArith Lia Ascii String.
From stdpp Require Export base list numbers sorting.
#[global] Open Scope Z_scope.

(** * Machine integers

    A C integer of width [w] is a [Z]; the casts write the wrap-around out.
    [w8] .. [w64] are the conversions to the unsigned types, [s32] and [s64]
    the (two's complement) conversions to the signed ones. *)

Definition w8 (x : Z) : Z := x mod 2 ^ 8.
Definition w16 (x : Z) : Z := x mod 2 ^ 16.
Definition w32 (x : Z) : Z := x mod 2 ^ 32.
Definition w64 (x : Z) : Z := x mod 2 ^ 64.
Definition s32 (x : Z) : Z := (x + 2 ^ 31) mod 2 ^ 32 - 2 ^ 31.
Definition s64 (x : Z) : Z := (x + 2 ^ 63) mod 2 ^ 64 - 2 ^ 63.

Definition UINT_MAX : Z := 2 ^ 32 - 1.

Lemma w32_id x : 0 <= x < 2 ^ 32 -> w32 x = x.
Proof. intros. unfold w32. by rewrite Z.mod_small. Qed.
Lemma w64_id x : 0 <= x < 2 ^ 64 -> w64 x = x.
Proof. intros. unfold w64. by rewrite Z.mod_small. Qed.
Lemma w32_range x : 0 <= w32 x < 2 ^ 32.
Proof. apply Z.mod_pos_bound. lia. Qed.
Lemma w64_range x : 0 <= w64 x < 2 ^ 64.
Proof. apply Z.mod_pos_bound. lia. Qed.
Lemma s32_id x : - 2 ^ 31 <= x < 2 ^ 31 -> s32 x = x.
Proof. intros. unfold s32. rewrite Z.mod_small; lia. Qed.
Lemma s64_id x : - 2 ^ 63 <= x < 2 ^ 63 -> s64 x = x.
Proof. intros. unfold s64. rewrite Z.mod_small; lia. Qed.
Lemma s32_w32 x : - 2 ^ 31 <= x < 2 ^ 31 -> s32 (w32 x) = x.
Proof.
  intros. unfold s32, w32. rewrite Zplus_mod_idemp_l, Z.mod_small; lia.
Qed.
Lemma s64_w64 x : - 2 ^ 63 <= x < 2 ^ 63 -> s64 (w64 x) = x.
Proof.
  intros. unfold s64, w64. rewrite Zplus_mod_idemp_l, Z.mod_small; lia.
Qed.

(** * Characters and byte strings

    A [char] of the source (8 bits) is an [ascii]; a [std::string], a
    [std::vector<char>] and a [char*] buffer are lists of them.  [u8] reads one
    as [unsigned char], [chr] is the conversion back (modulo 256). *)

Abbreviation char := ascii.
Abbreviation bytes := (list ascii).

Definition u8 (c : char) : Z := Z.of_N (N_of_ascii c).
Definition chr (x : Z) : char := ascii_of_N (Z.to_N (x mod 256)).
Definition nul : char := Ascii.zero.

(** A string literal as a byte string. *)
Definition str (s : string) : bytes := list_ascii_of_string s.

Lemma u8_range c : 0 <= u8 c < 256.
Proof.
  unfold u8. pose proof (N_ascii_bounded c). lia.
Qed.
Lemma u8_chr x : u8 (chr x) = x mod 256.
Proof.
  unfold u8, chr. pose proof (Z.mod_pos_bound x 256 ltac:(lia)).
  rewrite N_ascii_embedding by lia. lia.
Qed.
Lemma chr_u8 c : chr (u8 c) = c.
Proof.
  unfold chr. rewrite Z.mod_small by apply u8_range.
  unfold u8. rewrite N2Z.id. apply ascii_N_embedding.
Qed.
Lemma u8_inj a b : u8 a = u8 b -> a = b.
Proof. intros H. by rewrite <- (chr_u8 a), <- (chr_u8 b), H. Qed.
Lemma u8_chr_small x : 0 <= x < 256 -> u8 (chr x) = x.
Proof. intros. by rewrite u8_chr, Z.mod_small. Qed.

#[global] Instance ascii_eq_dec' : EqDecision char := ascii_dec.

(** The comparison [a == b] of two [char]s. *)
Definition ceq (a b : char) : bool := Ascii.eqb a b.

Lemma ceq_spec a b : Bool.reflect (a = b) (ceq a b).
Proof. apply Ascii.eqb_spec. Qed.
Lemma ceq_refl a : ceq a a = true.
Proof. apply Ascii.eqb_refl. Qed.
Lemma ceq_ne a b : a <> b -> ceq a b = false.
Proof. intros H. by destruct (ceq_spec a b). Qed.

(** * Z-indexed views of lists *)

Definition zlen {A} (l : list A) : Z := Z.of_nat (length l).
Definition ztake {A} (n : Z) (l : list A) : list A := take (Z.to_nat n) l.
Definition zdrop {A} (n : Z) (l : list A) : list A := drop (Z.to_nat n) l.
(** [&data[pos]], [n] elements of it. *)
Definition zsub {A} (pos n : Z) (l : list A) : list A := ztake n (zdrop pos l).
(** [l[i]], with a default for an index the caller keeps in range. *)
Definition znth {A} (d : A) (l : list A) (i : Z) : A := nth (Z.to_nat i) l d.
(** [l[i] = x] inside the bounds. *)
Definition zset {A} (l : list A) (i : Z) (x : A) : list A := <[Z.to_nat i := x]> l.
(** [memcpy(&l[pos], src, |src|)] inside the bounds. *)
Definition zsplice {A} (pos : Z) (src l : list A) : list A :=
  ztake pos l ++ src ++ zdrop (pos + zlen src) l.
(** [v.resize(n)] with the fill value [d]. *)
Definition zresize {A} (d : A) (n : Z) (l : list A) : list A :=
  ztake n l ++ replicate (Z.to_nat (n - zlen l)) d.

Section ZLists.
Context {A : Type}.
Implicit Types (l k : list A) (n m i : Z).

Lemma zlen_nonneg l : 0 <= zlen l.
Proof. unfold zlen. lia. Qed.
Lemma zlen_nil : zlen (@nil A) = 0.
Proof. done. Qed.
Lemma zlen_cons (x : A) l : zlen (x :: l) = zlen l + 1.
Proof. unfold zlen. cbn [length]. lia. Qed.
Lemma zlen_app l k : zlen (l ++ k) = zlen l + zlen k.
Proof. unfold zlen. rewrite length_app. lia. Qed.
Lemma zlen_ztake n l : 0 <= n -> zlen (ztake n l) = Z.min n (zlen l).
Proof. intros. unfold zlen, ztake. rewrite length_take. lia. Qed.
Lemma zlen_zdrop n l : 0 <= n -> zlen (zdrop n l) = Z.max 0 (zlen l - n).
Proof. intros. unfold zlen, zdrop. rewrite length_drop. lia. Qed.
Lemma zlen_zsub i n l : 0 <= i -> 0 <= n -> i + n <= zlen l -> zlen (zsub i n l) = n.
Proof. intros. unfold zsub. rewrite zlen_ztake, zlen_zdrop; lia. Qed.
Lemma zlen_zset l i x : zlen (zset l i x) = zlen l.
Proof. unfold zlen, zset. by rewrite length_insert. Qed.
Lemma zlen_replicate (x : A) n : 0 <= n -> zlen (replicate (Z.to_nat n) x) = n.
Proof. intros. unfold zlen. rewrite length_replicate. lia. Qed.
Lemma zlen_zresize d n l : 0 <= n -> zlen (zresize d n l) = n.
Proof.
  intros. unfold zresize. rewrite zlen_app, zlen_ztake by done.
  unfold zlen. rewrite length_replicate. lia.
Qed.
Lemma zlen_zsplice i k l :
  0 <= i -> i + zlen k <= zlen l -> zlen (zsplice i k l) = zlen l.
Proof.
  intros. unfold zsplice. pose proof (zlen_nonneg k).
  rewrite !zlen_app, zlen_ztake, zlen_zdrop; lia.
Qed.

Lemma ztake_app_zlen l k : ztake (zlen l) (l ++ k) = l.
Proof. unfold ztake, zlen. rewrite Nat2Z.id. apply take_app_length. Qed.
Lemma zdrop_app_zlen l k : zdrop (zlen l) (l ++ k) = k.
Proof. unfold zdrop, zlen. rewrite Nat2Z.id. apply drop_app_length. Qed.
Lemma ztake_ge n l : zlen l <= n -> ztake n l = l.
Proof. unfold ztake, zlen. intros. apply take_ge. lia. Qed.
Lemma zdrop_ge n l : zlen l <= n -> zdrop n l = [].
Proof. unfold zdrop, zlen. intros. apply drop_ge. lia. Qed.
Lemma ztake_0 l : ztake 0 l = [].
Proof. done. Qed.
Lemma zdrop_0 l : zdrop 0 l = l.
Proof. done. Qed.
Lemma ztake_zdrop n l : ztake n l ++ zdrop n l = l.
Proof. apply take_drop. Qed.
Lemma zdrop_zdrop n m l : 0 <= n -> 0 <= m -> zdrop n (zdrop m l) = zdrop (m + n) l.
Proof. intros. unfold zdrop. rewrite drop_drop. f_equal. lia. Qed.
Lemma ztake_ztake n m l : ztake n (ztake m l) = ztake (Z.min n m) l.
Proof. unfold ztake. rewrite take_take. f_equal. lia. Qed.
Lemma ztake_app_le n l k : n <= zlen l -> ztake n (l ++ k) = ztake n l.
Proof. unfold ztake, zlen. intros. apply take_app_le. lia. Qed.
Lemma zdrop_app_le n l k : n <= zlen l -> zdrop n (l ++ k) = zdrop n l ++ k.
Proof. unfold zdrop, zlen. intros. apply drop_app_le. lia. Qed.
Lemma ztake_app_ge n l k :
  zlen l <= n -> ztake n (l ++ k) = l ++ ztake (n - zlen l) k.
Proof.
  unfold ztake, zlen. intros. rewrite take_app_ge by lia. do 2 f_equal. lia.
Qed.
Lemma zdrop_app_ge n l k :
  zlen l <= n -> zdrop n (l ++ k) = zdrop (n - zlen l) k.
Proof.
  unfold zdrop, zlen. intros. rewrite drop_app_ge by lia. f_equal. lia.
Qed.
Lemma zsub_app_zlen i n l k (r : list A) :
  i = zlen l -> n = zlen k -> zsub i n (l ++ k ++ r) = k.
Proof.
  intros -> ->. unfold zsub. by rewrite zdrop_app_zlen, ztake_app_zlen.
Qed.
Lemma ztake_add n m l :
  0 <= n -> 0 <= m -> ztake (n + m) l = ztake n l ++ zsub n m l.
Proof.
  intros. unfold zsub, ztake, zdrop.
  replace (Z.to_nat (n + m)) with (Z.to_nat n + Z.to_nat m)%nat by lia.
  by rewrite take_take_drop.
Qed.
Lemma zsub_split i n m l :
  0 <= i -> 0 <= n -> 0 <= m -> zsub i (n + m) l = zsub i n l ++ zsub (i + n) m l.
Proof.
  intros. unfold zsub at 1. rewrite ztake_add by done.
  unfold zsub. by rewrite zdrop_zdrop by lia.
Qed.
Lemma zsub_zsub p n o m l : 0 <= p -> 0 <= o -> 0 <= m -> o + m <= n -> zsub o m (zsub p n l) = zsub (p + o) m l.
Proof.
  intros. unfold zsub, ztake, zdrop. rewrite skipn_firstn_comm, firstn_firstn, skipn_skipn.
  f_equal; [lia|]. f_equal. lia.
Qed.
Lemma zsub_all l : zsub 0 (zlen l) l = l.
Proof. unfold zsub. rewrite zdrop_0. by apply ztake_ge. Qed.
Lemma zsub_zero i l : zsub i 0 l = [].
Proof. done. Qed.

Lemma znth_zset_eq d l i x : 0 <= i < zlen l -> znth d (zset l i x) i = x.
Proof.
  unfold znth, zset, zlen. intros. rewrite nth_lookup.
  by rewrite list_lookup_insert_eq by lia.
Qed.
Lemma znth_zset_ne d l i j x :
  0 <= i -> 0 <= j -> i <> j -> znth d (zset l i x) j = znth d l j.
Proof.
  unfold znth, zset. intros. rewrite !nth_lookup.
  by rewrite list_lookup_insert_ne by lia.
Qed.
Lemma znth_lookup d l i x :
  0 <= i -> l !! Z.to_nat i = Some x -> znth d l i = x.
Proof. intros _ H. unfold znth. by rewrite nth_lookup, H. Qed.
Lemma lookup_znth d l i :
  0 <= i < zlen l -> l !! Z.to_nat i = Some (znth d l i).
Proof.
  unfold zlen, znth. intros. rewrite nth_lookup.
  destruct (lookup_lt_is_Some_2 l (Z.to_nat i)) as [x Hx]; [lia|].
  by rewrite Hx.
Qed.
Lemma znth_app_l d l k i : 0 <= i < zlen l -> znth d (l ++ k) i = znth d l i.
Proof. unfold znth, zlen. intros. apply app_nth1. lia. Qed.
Lemma znth_app_r d l k i :
  zlen l <= i -> znth d (l ++ k) i = znth d k (i - zlen l).
Proof.
  unfold znth, zlen. intros. rewrite app_nth2 by lia. f_equal. lia.
Qed.
Lemma znth_cons_0 d (x : A) l : znth d (x :: l) 0 = x.
Proof. done. Qed.
Lemma zset_cons_0 (x y : A) l : zset (x :: l) 0 y = y :: l.
Proof. done. Qed.
Lemma znth_cons_S d (x : A) l i : 0 < i -> znth d (x :: l) i = znth d l (i - 1).
Proof.
  intros. unfold znth. replace (Z.to_nat i) with (S (Z.to_nat (i - 1))) by lia.
  done.
Qed.
Lemma list_eq_znth d l k :
  zlen l = zlen k -> (forall i, 0 <= i < zlen l -> znth d l i = znth d k i) -> l = k.
Proof.
  unfold zlen, znth. intros Hl H. apply (nth_ext _ _ d d); [lia|].
  intros n Hn. specialize (H (Z.of_nat n)). rewrite Nat2Z.id in H. apply H. lia.
Qed.
End ZLists.

Section ZLists2.
Context {A : Type} (d : A).
Implicit Types (l k : list A) (n i j : Z).

Lemma znth_zdrop l n i : 0 <= n -> 0 <= i -> znth d (zdrop n l) i = znth d l (n + i).
Proof.
  intros. unfold znth, zdrop. rewrite !nth_lookup, lookup_drop. do 2 f_equal. lia.
Qed.
Lemma znth_ztake l n i : 0 <= i < n -> znth d (ztake n l) i = znth d l i.
Proof. intros. unfold znth, ztake. rewrite !nth_lookup, lookup_take_lt by lia. done. Qed.
Lemma znth_zsub l p n i : 0 <= p -> 0 <= i < n -> znth d (zsub p n l) i = znth d l (p + i).
Proof. intros. unfold zsub. rewrite znth_ztake, znth_zdrop by lia. done. Qed.
Lemma zsplit3 l p n :
  0 <= p -> 0 <= n -> l = ztake p l ++ zsub p n l ++ zdrop (p + n) l.
Proof.
  intros. rewrite <- (ztake_zdrop p l) at 1. f_equal.
  rewrite <- (ztake_zdrop n (zdrop p l)) at 1. unfold zsub. f_equal. by rewrite zdrop_zdrop.
Qed.
Lemma ztake_ext l k n :
  0 <= n -> zlen l = zlen k -> (forall i, 0 <= i < n -> i < zlen l -> znth d l i = znth d k i) ->
  ztake n l = ztake n k.
Proof.
  intros Hn Hl H. apply (list_eq_znth d); rewrite !zlen_ztake by done; [lia|].
  intros i Hi. rewrite !znth_ztake by lia. apply H; lia.
Qed.
Lemma zdrop_ext l k n :
  0 <= n -> zlen l = zlen k -> (forall i, n <= i < zlen l -> znth d l i = znth d k i) ->
  zdrop n l = zdrop n k.
Proof.
  intros Hn Hl H. apply (list_eq_znth d); rewrite !zlen_zdrop by done; [lia|].
  intros i Hi. rewrite !znth_zdrop by lia. apply H; lia.
Qed.
Lemma sorted_znth (R : A -> A -> Prop) l :
  (forall p q, 0 <= p < q -> q < zlen l -> R (znth d l p) (znth d l q)) -> StronglySorted R l.
Proof.
  induction l as [|x l IH]; intros H; constructor.
  - apply IH. intros p q Hp Hq. specialize (H (p + 1) (q + 1)). rewrite zlen_cons in H.
    rewrite !znth_cons_S in H by lia.
    replace (p + 1 - 1) with p in H by lia. replace (q + 1 - 1) with q in H by lia.
    apply H; lia.
  - apply List.Forall_forall. intros y (i & Hi & Hy)%(In_nth _ _ d).
    specialize (H 0 (Z.of_nat i + 1)). rewrite zlen_cons in H. unfold zlen in H.
    rewrite znth_cons_0, znth_cons_S in H by lia. unfold znth in H.
    replace (Z.to_nat (Z.of_nat i + 1 - 1)) with i in H by lia. rewrite Hy in H. apply H; lia.
Qed.
Lemma znth_sorted (R : A -> A -> Prop) l p q :
  StronglySorted R l -> 0 <= p < q -> q < zlen l -> R (znth d l p) (znth d l q).
Proof.
  intros Hs. revert p q. induction Hs as [|x l Hs IH Hf]; intros p q Hp Hq.
  { change (zlen (@nil A)) with 0 in Hq. lia. }
  rewrite zlen_cons in Hq. rewrite (znth_cons_S d x l q) by lia.
  destruct (decide (p = 0)) as [->|].
  - rewrite znth_cons_0. apply (proj1 (List.Forall_forall _ _) Hf).
    unfold znth, zlen in *. apply nth_In. lia.
  - rewrite znth_cons_S by lia. apply IH; lia.
Qed.
End ZLists2.

Lemma zset_mid {A} (l : list A) x r y i : i = zlen l -> zset (l ++ x :: r) i y = l ++ y :: r.
Proof.
  intros ->. unfold zset, zlen. rewrite Nat2Z.id, <- (Nat.add_0_r (length l)).
  by rewrite insert_app_r.
Qed.

(** The live prefix after a [memcpy] into the buffer. *)
Lemma ztake_zsplice {A} (p : Z) (src l : list A) :
  0 <= p <= zlen l -> ztake (p + zlen src) (zsplice p src l) = ztake p l ++ src.
Proof.
  intros Hp. unfold zsplice. pose proof (zlen_nonneg src).
  rewrite app_assoc, ztake_app_le.
  - apply ztake_ge. rewrite zlen_app, zlen_ztake by lia. lia.
  - rewrite zlen_app, zlen_ztake by lia. lia.
Qed.
Lemma zsplice_fill {A} (p : Z) (src l : list A) :
  0 <= p <= zlen l -> p + zlen src = zlen l -> zsplice p src l = ztake p l ++ src.
Proof.
  intros Hp Hs. rewrite <- ztake_zsplice by done. symmetry. apply ztake_ge.
  rewrite zlen_zsplice by lia. lia.
Qed.

Create HintDb ub.
#[export] Hint Rewrite @zlen_app @zlen_cons @zlen_nil @zlen_zset : ub.
#[export] Hint Resolve zlen_nonneg u8_range : ub.

(** * Little-endian encoding *)

Fixpoint le_bytes (n : nat) (v : Z) : bytes :=
  match n with
  | O => []
  | S k => chr v :: le_bytes k (v / 256)
  end.

Fixpoint le_val (l : bytes) : Z :=
  match l with
  | [] => 0
  | c :: t => u8 c + 256 * le_val t
  end.

Lemma length_le_bytes n v : length (le_bytes n v) = n.
Proof. revert v. induction n; intros; cbn [le_bytes length]; auto. Qed.
Lemma zlen_le_bytes n v : zlen (le_bytes n v) = Z.of_nat n.
Proof. unfold zlen. by rewrite length_le_bytes. Qed.
Lemma le_val_le_bytes n v : le_val (le_bytes n v) = v mod 256 ^ Z.of_nat n.
Proof.
  revert v. induction n as [|n IH]; intros; cbn [le_bytes le_val].
  - by rewrite Z.mod_1_r.
  - rewrite IH, u8_chr, Nat2Z.inj_succ, Z.pow_succ_r by lia.
    assert (0 < 256 ^ Z.of_nat n) by (apply Z.pow_pos_nonneg; lia).
    rewrite Z.rem_mul_r by lia. lia.
Qed.
Lemma le_val_range l : 0 <= le_val l < 256 ^ zlen l.
Proof.
  induction l as [|c l IH]; [by vm_compute|]. cbn [le_val]. rewrite zlen_cons.
  pose proof (u8_range c). pose proof (zlen_nonneg l).
  rewrite Z.pow_add_r, Z.pow_1_r by lia. lia.
Qed.
Lemma le_bytes_le_val l : le_bytes (length l) (le_val l) = l.
Proof.
  induction l as [|c l IH]; [done|]. cbn [length le_bytes le_val].
  pose proof (u8_range c) as Hc.
  assert (E : (u8 c + 256 * le_val l) / 256 = le_val l).
  { rewrite (Z.mul_comm 256), Z.div_add, Z.div_small; lia. }
  rewrite E, IH. f_equal. apply u8_inj.
  rewrite u8_chr, (Z.mul_comm 256), Z.mod_add, Z.mod_small; lia.
Qed.

Lemma le_bytes_app n k v :
  le_bytes (n + k) v = le_bytes n v ++ le_bytes k (v / 256 ^ Z.of_nat n).
Proof.
  revert v. induction n as [|n IH]; intros v; cbn [le_bytes Nat.add app].
  - by rewrite Z.div_1_r.
  - rewrite IH. do 3 f_equal. rewrite Z.div_div by lia. f_equal.
    rewrite Nat2Z.inj_succ, Z.pow_succ_r by lia. done.
Qed.
Lemma le_bytes_mod n v : le_bytes n (v mod 256 ^ Z.of_nat n) = le_bytes n v.
Proof.
  revert v. induction n as [|n IH]; intros v; [done|]. cbn [le_bytes].
  rewrite Nat2Z.inj_succ, Z.pow_succ_r by lia.
  assert (0 < 256 ^ Z.of_nat n) by (apply Z.pow_pos_nonneg; lia).
  f_equal.
  - apply u8_inj. rewrite !u8_chr, Z.rem_mul_r by lia.
    by rewrite (Z.mul_comm 256), Z.mod_add, Z.mod_mod by lia.
  - rewrite <- (IH (v / 256)). f_equal. rewrite Z.rem_mul_r by lia.
    rewrite (Z.mul_comm 256), Z.div_add, Z.div_small by (try lia; apply Z.mod_pos_bound; lia). lia.
Qed.

(** * Bits *)

Lemma land_bit_test a k :
  0 <= k -> (Z.land a (2 ^ k) =? 0) = negb (Z.testbit a k).
Proof.
  intros Hk. destruct (Z.eqb_spec (Z.land a (2 ^ k)) 0) as [E|E].
  - assert (T : Z.testbit (Z.land a (2 ^ k)) k = false) by (rewrite E; apply Z.bits_0).
    rewrite Z.land_spec, Z.pow2_bits_true, andb_true_r in T by done. by rewrite T.
  - destruct (Z.testbit a k) eqn:T; [done|]. exfalso. apply E.
    apply Z.bits_inj'. intros n Hn. rewrite Z.land_spec, Z.bits_0.
    destruct (decide (k = n)) as [<-|Hne]; [by rewrite T|].
    rewrite Z.pow2_bits_false by lia. apply andb_false_r.
Qed.

Lemma testbit_small a n k : 0 <= a < 2 ^ k -> k <= n -> Z.testbit a n = false.
Proof.
  intros Ha Hn. destruct (decide (a = 0)) as [->|Hz]; [apply Z.bits_0|].
  apply Z.bits_above_log2; [lia|].
  assert (0 <= k) by (destruct (decide (0 <= k)); [done|]; rewrite Z.pow_neg_r in Ha; lia).
  apply Z.log2_lt_pow2; [lia|].
  apply Z.lt_le_trans with (2 ^ k); [lia|]. apply Z.pow_le_mono_r; lia.
Qed.

Lemma lor_shiftl_add a b k :
  0 <= k -> 0 <= b < 2 ^ k -> Z.lor (Z.shiftl a k) b = a * 2 ^ k + b.
Proof.
  intros Hk Hb. rewrite <- Z.shiftl_mul_pow2 by done.
  rewrite Z.add_nocarry_lxor.
  - symmetry. rewrite Z.lxor_lor; [done|].
    apply Z.bits_inj'. intros n Hn. rewrite Z.land_spec, Z.bits_0.
    destruct (decide (n < k)).
    + by rewrite Z.shiftl_spec_low.
    + rewrite (testbit_small b n k) by lia. apply andb_false_r.
  - apply Z.bits_inj'. intros n Hn. rewrite Z.land_spec, Z.bits_0.
    destruct (decide (n < k)).
    + by rewrite Z.shiftl_spec_low.
    + rewrite (testbit_small b n k) by lia. apply andb_false_r.
Qed.

Lemma land_mask a k : 0 <= k -> Z.land a (2 ^ k - 1) = a mod 2 ^ k.
Proof. intros. rewrite <- Z.land_ones by done. by rewrite Z.ones_equiv, Z.sub_1_r. Qed.

(** Clearing the low [k] bits of a [w]-bit word. *)
Lemma land_high x k w :
  0 <= k <= w -> 0 <= x < 2 ^ w -> Z.land x (2 ^ w - 2 ^ k) = x - x mod 2 ^ k.
Proof.
  intros Hk Hx. assert (0 < 2 ^ k) by (apply Z.pow_pos_nonneg; lia).
  replace (x - x mod 2 ^ k) with (Z.shiftl (Z.shiftr x k) k)
    by (rewrite Z.shiftl_mul_pow2, Z.shiftr_div_pow2, (Z.mod_eq x) by lia; lia).
  replace (2 ^ w - 2 ^ k) with (Z.shiftl (Z.ones (w - k)) k)
    by (rewrite Z.shiftl_mul_pow2, Z.ones_equiv, Z.mul_pred_l, <- Z.pow_add_r by lia;
        do 2 f_equal; lia).
  apply Z.bits_inj'. intros n Hn. rewrite Z.land_spec. destruct (decide (n < k)).
  - rewrite !Z.shiftl_spec_low by lia. apply andb_false_r.
  - rewrite !Z.shiftl_spec_high, Z.shiftr_spec by lia. replace (n - k + k) with n by lia.
    destruct (decide (n < w)).
    + rewrite Z.ones_spec_low by lia. apply andb_true_r.
    + by rewrite (testbit_small x n w) by lia.
Qed.

(** * Tactics *)

(** Case analysis on the boolean comparison a goal or hypothesis branches on. *)
Ltac zcase :=
  match goal with
  | |- context [Z.ltb ?a ?b] => destruct (Z.ltb_spec a b)
  | |- context [Z.leb ?a ?b] => destruct (Z.leb_spec a b)
  | |- context [Z.eqb ?a ?b] => destruct (Z.eqb_spec a b)
  | |- context [ceq ?a ?b] => destruct (ceq_spec a b)
  | H : context [Z.ltb ?a ?b] |- _ => destruct (Z.ltb_spec a b)
  | H : context [Z.leb ?a ?b] |- _ => destruct (Z.leb_spec a b)
  | H : context [Z.eqb ?a ?b] |- _ => destruct (Z.eqb_spec a b)
  | H : context [ceq ?a ?b] |- _ => destruct (ceq_spec a b)
  end.

(** Lengths of list expressions, then linear arithmetic. *)
Ltac zl := autorewrite with ub in *; try lia.
