(* ===== verification/Bits.v ===== *)
(** A decision procedure for equations between shifts, masks and truncations of
    one bounded integer.

    The codecs of the program (variable-length integers, base64, hexadecimal,
    packed headers) move the bits of a machine word around with [<<], [>>],
    [&], [|] and casts.  [bexp] is the syntax of such expressions over a single
    variable, [denote] their value, [bit] the symbolic value of one bit;
    [bexp_eq] compares two of them bit by bit by computation.  The tactics
    [bit_eq] and [bit_test] reify a goal and discharge it with the checker. *)
From S2P Require Import Prelude.

Inductive bexp :=
| EV
| EC (c : Z)
| ELor (a b : bexp)
| ELand (a b : bexp)
| EShl (a : bexp) (n : Z)
| EShr (a : bexp) (n : Z)
| EMod (a : bexp) (n : Z).

Fixpoint denote (v : Z) (e : bexp) : Z :=
  match e with
  | EV => v
  | EC c => c
  | ELor a b => Z.lor (denote v a) (denote v b)
  | ELand a b => Z.land (denote v a) (denote v b)
  | EShl a n => Z.shiftl (denote v a) n
  | EShr a n => Z.shiftr (denote v a) n
  | EMod a n => denote v a mod 2 ^ n
  end.

(** The value of a bit: constant, or bit [i] of the variable. *)
Inductive sbit := SF | ST | SV (i : Z).

#[global] Instance sbit_eq_dec : EqDecision sbit.
Proof. solve_decision. Defined.

Definition sem (v : Z) (s : sbit) : bool :=
  match s with SF => false | ST => true | SV i => Z.testbit v i end.

Definition sor (a b : option sbit) : option sbit :=
  match a, b with
  | Some SF, r => r
  | r, Some SF => r
  | Some ST, Some _ => Some ST
  | Some _, Some ST => Some ST
  | Some (SV i), Some (SV j) => if i =? j then Some (SV i) else None
  | _, _ => None
  end.

Definition sand (a b : option sbit) : option sbit :=
  match a, b with
  | Some SF, Some _ => Some SF
  | Some _, Some SF => Some SF
  | Some ST, r => r
  | r, Some ST => r
  | Some (SV i), Some (SV j) => if i =? j then Some (SV i) else None
  | _, _ => None
  end.

(** Bit [i] (non-negative) of an expression whose variable is below [2^k]. *)
Fixpoint bit (k : Z) (e : bexp) (i : Z) : option sbit :=
  match e with
  | EV => Some (if i <? k then SV i else SF)
  | EC c => Some (if Z.testbit c i then ST else SF)
  | ELor a b => sor (bit k a i) (bit k b i)
  | ELand a b => sand (bit k a i) (bit k b i)
  | EShl a n => if i - n <? 0 then Some SF else bit k a (i - n)
  | EShr a n => if n <? 0 then None else bit k a (i + n)
  | EMod a n => if n <? 0 then None else if i <? n then bit k a i else Some SF
  end.

(** A bound above which every bit is 0. *)
Fixpoint top (k : Z) (e : bexp) : option Z :=
  match e with
  | EV => Some k
  | EC c => if c <? 0 then None else Some (Z.log2 c + 1)
  | ELor a b => match top k a, top k b with
                | Some x, Some y => Some (Z.max x y) | _, _ => None end
  | ELand a b => match top k a, top k b with
                 | Some x, Some y => Some (Z.min x y)
                 | Some x, None => Some x
                 | None, r => r end
  | EShl a n => match top k a with
                | Some x => Some (Z.max 0 (x + n)) | None => None end
  | EShr a n => if n <? 0 then None else
                match top k a with
                | Some x => Some (Z.max 0 (x - n)) | None => None end
  | EMod a n => if n <? 0 then None else Some n
  end.

Section Soundness.
Context (k v : Z) (Hk : 0 <= k) (Hv : 0 <= v < 2 ^ k).

Lemma sor_sound a b s x y :
  sor a b = Some s ->
  (forall r, a = Some r -> x = sem v r) -> (forall r, b = Some r -> y = sem v r) ->
  x || y = sem v s.
Proof.
  destruct a as [[| |i]|], b as [[| |j]|]; cbn; intros E Ha Hb; simplify_eq;
    rewrite ?(Ha _ eq_refl), ?(Hb _ eq_refl); cbn;
    rewrite ?orb_false_r, ?orb_true_r; try done.
  destruct (Z.eqb_spec i j); simplify_eq. apply orb_diag.
Qed.

Lemma sand_sound a b s x y :
  sand a b = Some s ->
  (forall r, a = Some r -> x = sem v r) -> (forall r, b = Some r -> y = sem v r) ->
  x && y = sem v s.
Proof.
  destruct a as [[| |i]|], b as [[| |j]|]; cbn; intros E Ha Hb; simplify_eq;
    rewrite ?(Ha _ eq_refl), ?(Hb _ eq_refl); cbn;
    rewrite ?andb_false_r, ?andb_true_r; try done.
  destruct (Z.eqb_spec i j); simplify_eq. apply andb_diag.
Qed.

Lemma bit_sound e i s :
  0 <= i -> bit k e i = Some s -> Z.testbit (denote v e) i = sem v s.
Proof.
  revert i s. induction e as [|c|a IHa b IHb|a IHa b IHb|a IH n|a IH n|a IH n];
    intros i s Hi H; cbn [bit denote] in *.
  - simplify_eq. destruct (Z.ltb_spec i k); [done|].
    by rewrite (testbit_small v i k).
  - simplify_eq. by destruct (Z.testbit c i).
  - rewrite Z.lor_spec. eapply sor_sound; eauto.
  - rewrite Z.land_spec. eapply sand_sound; eauto.
  - rewrite Z.shiftl_spec by done. destruct (Z.ltb_spec (i - n) 0).
    + simplify_eq. by rewrite Z.testbit_neg_r.
    + by apply IH.
  - destruct (Z.ltb_spec n 0); [done|]. rewrite Z.shiftr_spec by done.
    apply IH; [lia|done].
  - destruct (Z.ltb_spec n 0); [done|]. destruct (Z.ltb_spec i n).
    + rewrite Z.mod_pow2_bits_low by lia. by apply IH.
    + simplify_eq. by rewrite Z.mod_pow2_bits_high by lia.
Qed.

Lemma top_sound e t i :
  top k e = Some t -> 0 <= i -> t <= i -> Z.testbit (denote v e) i = false.
Proof.
  revert t i. induction e as [|c|a IHa b IHb|a IHa b IHb|a IH n|a IH n|a IH n];
    intros t i H Hi Ht; cbn [top denote] in *.
  - simplify_eq. by apply (testbit_small v i t).
  - destruct (Z.ltb_spec c 0); simplify_eq.
    destruct (decide (c = 0)) as [->|]; [apply Z.bits_0|].
    apply Z.bits_above_log2; lia.
  - destruct (top k a) as [x|], (top k b) as [y|]; simplify_eq.
    rewrite Z.lor_spec, (IHa x), (IHb y); auto; lia.
  - rewrite Z.land_spec.
    destruct (top k a) as [x|], (top k b) as [y|]; simplify_eq.
    + destruct (Z.le_gt_cases x i).
      * by rewrite (IHa x).
      * rewrite (IHb y); [apply andb_false_r|done..|lia].
    + by rewrite (IHa t).
    + rewrite (IHb t); auto. apply andb_false_r.
  - destruct (top k a) as [x|]; simplify_eq. rewrite Z.shiftl_spec by done.
    destruct (Z.lt_ge_cases (i - n) 0); [by apply Z.testbit_neg_r|].
    apply (IH x); [done|lia..].
  - destruct (Z.ltb_spec n 0); [done|]. destruct (top k a) as [x|]; simplify_eq.
    rewrite Z.shiftr_spec by done. apply (IH x); [done|lia..].
  - destruct (Z.ltb_spec n 0); [done|]. simplify_eq.
    by rewrite Z.mod_pow2_bits_high by lia.
Qed.
End Soundness.

(** All bits below [n] agree (and are determined). *)
Definition same_bits (k : Z) (a b : bexp) (n : Z) : bool :=
  forallb (fun i => match bit k a (Z.of_nat i), bit k b (Z.of_nat i) with
                    | Some x, Some y => bool_decide (x = y)
                    | _, _ => false end) (seq 0 (Z.to_nat n)).

Definition bexp_eq (k : Z) (a b : bexp) : bool :=
  match top k a, top k b with
  | Some x, Some y => same_bits k a b (Z.max x y)
  | _, _ => false
  end.

Theorem bexp_eq_sound k v a b :
  0 <= k -> 0 <= v < 2 ^ k -> bexp_eq k a b = true -> denote v a = denote v b.
Proof.
  intros Hk Hv H. unfold bexp_eq in H.
  destruct (top k a) as [x|] eqn:Ea, (top k b) as [y|] eqn:Eb; try done.
  apply Z.bits_inj'. intros i Hi. destruct (Z.lt_ge_cases i (Z.max x y)) as [Hlt|Hge].
  - unfold same_bits in H. rewrite forallb_forall in H.
    specialize (H (Z.to_nat i)). rewrite Z2Nat.id in H by done.
    destruct (bit k a i) as [p|] eqn:Ba, (bit k b i) as [q|] eqn:Bb;
      try (exfalso; specialize (H ltac:(apply in_seq; lia)); done).
    rewrite (bit_sound k v Hk Hv a i p), (bit_sound k v Hk Hv b i q) by done.
    specialize (H ltac:(apply in_seq; lia)). apply bool_decide_eq_true in H. by subst.
  - by rewrite (top_sound k v Hk Hv a x), (top_sound k v Hk Hv b y) by (done || lia).
Qed.

(** A single bit test [(e & 2^j) == 0]. *)
Theorem bit_test_sound k v e j s :
  0 <= k -> 0 <= v < 2 ^ k -> 0 <= j -> bit k e j = Some s -> s <> SV j ->
  (Z.land (denote v e) (2 ^ j) =? 0) = negb (sem v s).
Proof.
  intros Hk Hv Hj Hb _. rewrite land_bit_test by done.
  by rewrite (bit_sound k v Hk Hv e j s).
Qed.

(** ** Reification *)

Ltac reify v t :=
  match t with
  | v => constr:(EV)
  | Z.lor ?a ?b => let x := reify v a in let y := reify v b in constr:(ELor x y)
  | Z.land ?a ?b => let x := reify v a in let y := reify v b in constr:(ELand x y)
  | Z.shiftl ?a ?n => let x := reify v a in constr:(EShl x n)
  | Z.shiftr ?a ?n => let x := reify v a in constr:(EShr x n)
  | w8 ?a => let x := reify v a in constr:(EMod x 8)
  | w16 ?a => let x := reify v a in constr:(EMod x 16)
  | w32 ?a => let x := reify v a in constr:(EMod x 32)
  | w64 ?a => let x := reify v a in constr:(EMod x 64)
  | ?a mod 256 => let x := reify v a in constr:(EMod x 8)
  | ?a mod (2 ^ ?n) => let x := reify v a in constr:(EMod x n)
  | _ => constr:(EC t)
  end.

(** Proves [a = b] for two expressions over [v], where [0 <= v < 2^k]. *)
Ltac bit_eq v k :=
  lazymatch goal with
  | |- ?a = ?b =>
      let x := reify v a in let y := reify v b in
      change (denote v x = denote v y);
      apply (bexp_eq_sound k v x y); [done | first [assumption | lia] | vm_compute; reflexivity]
  end.

(** Rewrites every determined test [(e & 0x80) == 0] of the goal. *)
Ltac bit_test v k :=
  match goal with
  | |- context [Z.land ?a 128 =? 0] =>
      let x := reify v a in
      let s := eval vm_compute in (bit k x 7) in
      lazymatch s with
      | Some ?r =>
          let H := fresh in
          assert (H : (Z.land a 128 =? 0) = negb (sem v r));
          [ apply (bit_test_sound k v x 7 r);
            [done | first [assumption | lia] | done | vm_compute; reflexivity | discriminate]
          | rewrite H; clear H; cbn [sem negb] ]
      end
  end.
