(* ===== verification/Data.v ===== *)
(** Binary message serialisation: [common/data.cpp] and [common/data.h].

    [CWData] appends fields to a byte string, [CRData] reads them back from a
    buffer with a read position.  The variable-length integers are SQLite's,
    copied into data.cpp with an additional bound on the bytes available.

    A [float]/[double] is carried as its bit pattern (the code only copies its
    representation); [void*] is the 64-bit representation of an LP64 target.
    [little_endian] makes the byte order of the wire little-endian on every
    host, which is what [le_bytes]/[le_val] state. *)
From S2P Require Import Prelude Bits.

(** ** Variable-length integers *)

Definition shl32 (a n : Z) : Z := w32 (Z.shiftl a n).

Fixpoint varintLen_loop (fuel : nat) (i v : Z) : Z :=
  match fuel with
  | O => i
  | S k => let v := Z.shiftr v 7 in
           if v =? 0 then i else varintLen_loop k (i + 1) v
  end.

(** The loop runs at most 9 times on a 64-bit value. *)
Definition sqlite3VarintLen (v : Z) : Z :=
  let i := varintLen_loop 10 1 v in
  if i =? 10 then 9 else i.

Definition SLOT_2_0 : Z := 0x001fc07f.
Definition SLOT_4_2_0 : Z := 0xf01fc07f.

(** [Some (n, v)]: [n] bytes read, [*v] assigned; [None]: 0 returned, [*v]
    untouched. *)
Definition sqlite3GetVarint (p : bytes) (max_length : Z) : option (Z * Z) :=
  let pb (i : Z) : Z := u8 (znth nul p i) in
  if max_length =? 0 then None else
  let a := pb 0 in
  if Z.land a 0x80 =? 0 then Some (1, a) else
  if max_length <=? 1 then None else
  let b := pb 1 in
  if Z.land b 0x80 =? 0 then
    let a := Z.land a 0x7f in
    let a := shl32 a 7 in
    let a := Z.lor a b in
    Some (2, a) else
  if max_length <=? 2 then None else
  let a := shl32 a 14 in
  let a := Z.lor a (pb 2) in
  if Z.land a 0x80 =? 0 then
    let a := Z.land a SLOT_2_0 in
    let b := Z.land b 0x7f in
    let b := shl32 b 7 in
    let a := Z.lor a b in
    Some (3, a) else
  let a := Z.land a SLOT_2_0 in
  if max_length <=? 3 then None else
  let b := shl32 b 14 in
  let b := Z.lor b (pb 3) in
  if Z.land b 0x80 =? 0 then
    let b := Z.land b SLOT_2_0 in
    let a := shl32 a 7 in
    let a := Z.lor a b in
    Some (4, a) else
  let b := Z.land b SLOT_2_0 in
  let s := a in
  if max_length <=? 4 then None else
  let a := shl32 a 14 in
  let a := Z.lor a (pb 4) in
  if Z.land a 0x80 =? 0 then
    let b := shl32 b 7 in
    let a := Z.lor a b in
    let s := Z.shiftr s 18 in
    Some (5, Z.lor (w64 (Z.shiftl s 32)) a) else
  let s := shl32 s 7 in
  let s := Z.lor s b in
  if max_length <=? 5 then None else
  let b := shl32 b 14 in
  let b := Z.lor b (pb 5) in
  if Z.land b 0x80 =? 0 then
    let a := Z.land a SLOT_2_0 in
    let a := shl32 a 7 in
    let a := Z.lor a b in
    let s := Z.shiftr s 18 in
    Some (6, Z.lor (w64 (Z.shiftl s 32)) a) else
  if max_length <=? 6 then None else
  let a := shl32 a 14 in
  let a := Z.lor a (pb 6) in
  if Z.land a 0x80 =? 0 then
    let a := Z.land a SLOT_4_2_0 in
    let b := Z.land b SLOT_2_0 in
    let b := shl32 b 7 in
    let a := Z.lor a b in
    let s := Z.shiftr s 11 in
    Some (7, Z.lor (w64 (Z.shiftl s 32)) a) else
  let a := Z.land a SLOT_2_0 in
  if max_length <=? 7 then None else
  let b := shl32 b 14 in
  let b := Z.lor b (pb 7) in
  if Z.land b 0x80 =? 0 then
    let b := Z.land b SLOT_4_2_0 in
    let a := shl32 a 7 in
    let a := Z.lor a b in
    let s := Z.shiftr s 4 in
    Some (8, Z.lor (w64 (Z.shiftl s 32)) a) else
  if max_length <=? 8 then None else
  let a := shl32 a 15 in
  let a := Z.lor a (pb 8) in
  let b := Z.land b SLOT_2_0 in
  let b := shl32 b 8 in
  let a := Z.lor a b in
  let s := shl32 s 4 in
  let b := pb 4 in
  let b := Z.land b 0x7f in
  let b := Z.shiftr b 3 in
  let s := Z.lor s b in
  Some (9, Z.lor (w64 (Z.shiftl s 32)) a).

(** [p[i] = (u8)((v & 0x7f) | 0x80); v >>= 7] for [n] descending positions,
    in front of the bytes already stored. *)
Fixpoint put_high (n : nat) (v : Z) (p : bytes) : bytes :=
  match n with
  | O => p
  | S k => put_high k (Z.shiftr v 7) (chr (Z.lor (Z.land v 0x7f) 0x80) :: p)
  end.

(** The [do .. while (v != 0)] loop filling [buf]; a 64-bit [v] needs at most
    10 rounds. *)
Fixpoint put_low (fuel : nat) (v : Z) (buf : bytes) : bytes :=
  match fuel with
  | O => buf
  | S k => let buf := buf ++ [chr (Z.lor (Z.land v 0x7f) 0x80)] in
           let v := Z.shiftr v 7 in
           if v =? 0 then buf else put_low k v buf
  end.

Definition putVarint64 (v : Z) : bytes :=
  if negb (Z.land v (Z.shiftl 0xff000000 32) =? 0)
  then put_high 8 (Z.shiftr v 8) [chr v]
  else
    let buf := put_low 10 v [] in
    let buf := zset buf 0 (chr (Z.land (u8 (znth nul buf 0)) 0x7f)) in
    reverse buf.

Definition sqlite3PutVarint (v : Z) : bytes :=
  if v <=? 0x7f then [chr (Z.land v 0x7f)]
  else if v <=? 0x3fff then
    [chr (Z.lor (Z.land (Z.shiftr v 7) 0x7f) 0x80); chr (Z.land v 0x7f)]
  else putVarint64 v.

(** ** [CWData]: the writer *)

Module CWData.
(** The member [std::string data]. *)
Abbreviation t := (list ascii).

Definition addUInt (d : t) (ta : Z) : t := d ++ le_bytes 4 ta.
Definition addInt (d : t) (ta : Z) : t := d ++ le_bytes 4 (w32 ta).
Definition addInt64 (d : t) (ta : Z) : t := d ++ le_bytes 8 (w64 ta).
Definition addUInt64 (d : t) (ta : Z) : t := d ++ le_bytes 8 ta.
Definition addFloat (d : t) (bits : Z) : t := d ++ le_bytes 4 bits.
Definition addDouble (d : t) (bits : Z) : t := d ++ le_bytes 8 bits.
Definition addUShort (d : t) (ta : Z) : t := d ++ le_bytes 2 ta.
Definition addString (d : t) (ta : bytes) : t :=
  let d := addUInt d (w32 (zlen ta)) in
  match ta with [] => d | _ => d ++ ta end.
Definition addVarInt (d : t) (ta : Z) : t :=
  let cpos := zlen d in
  let needed_bytes := sqlite3VarintLen (w64 ta) in
  let d := zresize nul (cpos + needed_bytes) d in
  zsplice cpos (sqlite3PutVarint (w64 ta)) d.
Definition addString2 (d : t) (ta : bytes) : t :=
  let d := addVarInt d (zlen ta) in
  match ta with [] => d | _ => d ++ ta end.
Definition addChar (d : t) (ta : char) : t := d ++ [ta].
Definition addUChar (d : t) (ta : Z) : t := d ++ [chr ta].
Definition addVoidPtr (d : t) (ta : Z) : t := d ++ le_bytes 8 ta.
Definition addBuffer (d : t) (buffer : bytes) (bsize : Z) : t := d ++ ztake bsize buffer.
Definition clear (d : t) : t := [].
Definition resize (d : t) (count : Z) : t := zresize nul count d.
Definition getDataSize (d : t) : Z := zlen d.
End CWData.

(** ** [CRData]: the reader *)

Module CRData.
Record t := mk { data : bytes; streampos : Z; datalen : Z }.

Definition max_datalen : Z := 100 * 1024 * 1024.

(** [set] with [datalength] bytes at [c]; the copy made for [pCopy] holds the
    same bytes. *)
Definition set (c : bytes) (datalength : Z) : t :=
  mk c 0 (Z.min max_datalen datalength).
(** The constructor from a [std::string]. *)
Definition of_string (s : bytes) : t := set s (zlen s).

Definition with_pos (r : t) (p : Z) : t := mk (data r) p (datalen r).

(** A getter returns [bool] and writes its out parameter when it is [true]:
    [Some] of the value, and the reader afterwards. *)
Abbreviation getter A := (t -> option A * t).

(** The common body of the fixed-size getters: [size] bytes at the position. *)
Definition getFixed (size : Z) (r : t) : option bytes * t :=
  if datalen r <? streampos r + size then (None, r)
  else (Some (zsub (streampos r) size (data r)), with_pos r (streampos r + size)).

Definition omap {A B} (f : A -> B) (x : option A * t) : option B * t :=
  (option_map f (fst x), snd x).

Definition getInt : getter Z := fun r => omap (fun b => s32 (le_val b)) (getFixed 4 r).
Definition getInt64 : getter Z := fun r => omap (fun b => s64 (le_val b)) (getFixed 8 r).
Definition getUInt : getter Z := fun r => omap le_val (getFixed 4 r).
Definition getFloat : getter Z := fun r => omap le_val (getFixed 4 r).
Definition getDouble : getter Z := fun r => omap le_val (getFixed 8 r).
Definition getUShort : getter Z := fun r => omap le_val (getFixed 2 r).
Definition getVoidPtr : getter Z := fun r => omap le_val (getFixed 8 r).

Definition getStr : getter bytes := fun r =>
  match getUInt r with
  | (None, r) => (None, r)
  | (Some strlen, r) =>
      if 10 * 1024 * 1024 <? strlen then (None, r)
      else if datalen r <? streampos r + strlen then (None, r)
      else
        let ret := if 0 <? strlen then zsub (streampos r) strlen (data r) else [] in
        (Some ret, with_pos r (streampos r + strlen))
  end.

Definition getSize (r : t) : Z := w32 (datalen r).
Definition getLeft (r : t) : Z := w32 (datalen r - streampos r).
Definition getStreampos (r : t) : Z := w32 (streampos r).

Definition getVarInt : getter Z := fun r =>
  match sqlite3GetVarint (zdrop (streampos r) (data r)) (getLeft r) with
  | None => (None, r)
  | Some (b, v) => (Some (s64 v), with_pos r (streampos r + b))
  end.

Definition getStr2 : getter bytes := fun r =>
  match getVarInt r with
  | (None, r) => (None, r)
  | (Some strlen, r) =>
      if (10 * 1024 * 1024 <? strlen) || (strlen <? 0) then (None, r)
      else if datalen r <? streampos r + strlen then (None, r)
      else
        let ret := if 0 <? strlen then zsub (streampos r) strlen (data r) else [] in
        (Some ret, with_pos r (streampos r + strlen))
  end.

Definition getChar : getter char := fun r =>
  if datalen r <? streampos r + 1 then (None, r)
  else (Some (znth nul (data r) (streampos r)), with_pos r (streampos r + 1)).

Definition getUChar : getter Z := fun r =>
  if datalen r <? streampos r + 1 then (None, r)
  else (Some (u8 (znth nul (data r) (streampos r))), with_pos r (streampos r + 1)).

Definition getCurrDataPtr (r : t) : bytes := zdrop (streampos r) (data r).

Definition setStreampos (spos : Z) (r : t) : t :=
  if spos <=? datalen r then with_pos r spos else r.

Definition incrementPtr (amount : Z) (r : t) : bool * t :=
  if getLeft r <? amount then (false, r)
  else (true, with_pos r (streampos r + amount)).
End CRData.

(** ** Properties of the variable-length integers *)

Lemma shiftr_zero v k : 0 <= v < 2 ^ k -> 0 <= k -> (Z.shiftr v k =? 0) = true.
Proof.
  intros. rewrite Z.shiftr_div_pow2 by done. by rewrite Z.div_small by lia.
Qed.
Lemma shiftr_nonzero v k : 0 <= k -> 2 ^ k <= v -> (Z.shiftr v k =? 0) = false.
Proof.
  intros. rewrite Z.shiftr_div_pow2 by done. apply Z.eqb_neq.
  assert (0 < 2 ^ k) by (apply Z.pow_pos_nonneg; lia).
  assert (0 < v / 2 ^ k) by (apply Z.div_str_pos; lia). lia.
Qed.

(** Byte [i] (7 bits) of a varint with the continuation bit. *)
Definition vbyte (v i : Z) : char := chr (Z.lor (Z.land (Z.shiftr v (7 * i)) 0x7f) 0x80).
(** The last byte of a varint. *)
Definition vlast (v : Z) : char := chr (Z.land v 0x7f).
Definition vlist (n : nat) (v : Z) : bytes :=
  map (fun i => vbyte v (Z.of_nat i)) (rev (seq 1 n)) ++ [vlast v].

Lemma shr7_step m w :
  2 ^ (7 * Z.of_nat (S m)) <= w < 2 ^ (7 * (Z.of_nat (S m) + 1)) ->
  (Z.shiftr w 7 =? 0) = false /\
  2 ^ (7 * Z.of_nat m) <= Z.shiftr w 7 /\
  0 <= Z.shiftr w 7 < 2 ^ (7 * (Z.of_nat m + 1)).
Proof.
  assert (E : 2 ^ (7 * Z.of_nat (S m)) = 2 ^ 7 * 2 ^ (7 * Z.of_nat m))
    by (rewrite <- Z.pow_add_r by lia; f_equal; lia).
  assert (E' : 2 ^ (7 * (Z.of_nat (S m) + 1)) = 2 ^ 7 * 2 ^ (7 * (Z.of_nat m + 1)))
    by (rewrite <- Z.pow_add_r by lia; f_equal; lia).
  assert (0 < 2 ^ (7 * Z.of_nat m)) by (apply Z.pow_pos_nonneg; lia).
  intros Hw. split; [apply shiftr_nonzero; lia|].
  rewrite Z.shiftr_div_pow2 by lia. split; [apply Z.div_le_lower_bound; lia|].
  split; [apply Z.div_pos; lia|]. apply Z.div_lt_upper_bound; lia.
Qed.

Lemma put_low_spec m : forall fuel w buf,
  (m < fuel)%nat -> (m = 0%nat \/ 2 ^ (7 * Z.of_nat m) <= w) ->
  0 <= w < 2 ^ (7 * (Z.of_nat m + 1)) ->
  put_low fuel w buf = buf ++ map (fun i => vbyte w (Z.of_nat i)) (seq 0 (S m)).
Proof.
  induction m as [|m IH]; intros [|fuel] w buf Hf Hlo Hhi; try lia; cbn [put_low].
  - rewrite shiftr_zero by (done || lia). cbn [seq map]. unfold vbyte.
    by rewrite Z.mul_0_r, Z.shiftr_0_r.
  - destruct Hlo as [?|Hlo]; [done|].
    destruct (shr7_step m w) as (Hnz & Hl & Hh); [lia..|]. rewrite Hnz.
    rewrite IH; [|lia| |].
    + change (seq 0 (S (S m))) with (0%nat :: seq 1 (S m)). cbn [map].
      rewrite <- app_assoc. cbn [app]. f_equal. f_equal.
      rewrite <- (seq_shift (S m)), map_map. apply map_ext. intros i. unfold vbyte.
      rewrite Z.shiftr_shiftr by lia. do 4 f_equal. lia.
    + by right.
    + done.
Qed.

Lemma vbyte_flag v : 0 <= Z.lor (Z.land v 0x7f) 0x80 < 256.
Proof.
  pose proof (land_mask v 7 ltac:(lia)) as E. pose proof (Z.mod_pos_bound v (2 ^ 7) ltac:(lia)).
  change (2 ^ 7 - 1) with 0x7f in E. rewrite E, Z.lor_comm.
  change 0x80 with (Z.shiftl 1 7). rewrite lor_shiftl_add; lia.
Qed.

Lemma land_vbyte v : chr (Z.land (u8 (vbyte v 0)) 0x7f) = vlast v.
Proof.
  unfold vbyte, vlast. rewrite Z.mul_0_r, Z.shiftr_0_r, u8_chr_small by apply vbyte_flag.
  rewrite Z.land_lor_distr_l, <- Z.land_assoc. change (Z.land 128 127) with 0.
  by rewrite Z.lor_0_r.
Qed.

Lemma put_spec n v :
  (n < 8)%nat -> (n = 0%nat \/ 2 ^ (7 * Z.of_nat n) <= v) ->
  0 <= v < 2 ^ (7 * (Z.of_nat n + 1)) ->
  sqlite3PutVarint v = vlist n v.
Proof.
  intros Hn Hlo Hhi. unfold sqlite3PutVarint, putVarint64.
  assert (v < 2 ^ 56).
  { apply Z.lt_le_trans with (1 := proj2 Hhi), Z.pow_le_mono_r; lia. }
  replace (Z.land v (Z.shiftl 0xff000000 32)) with 0 by (bit_eq v 56).
  cbn [Z.eqb negb].
  destruct (Z.leb_spec v 0x7f); [|destruct (Z.leb_spec v 0x3fff)].
  - destruct n as [|n]; [done|]. exfalso. destruct Hlo as [?|Hlo]; [done|].
    assert (2 ^ 7 <= 2 ^ (7 * Z.of_nat (S n))) by (apply Z.pow_le_mono_r; lia). lia.
  - destruct n as [|[|n]]; [cbn in Hhi; lia|done|]. exfalso. destruct Hlo as [?|Hlo]; [done|].
    assert (2 ^ 14 <= 2 ^ (7 * Z.of_nat (S (S n)))) by (apply Z.pow_le_mono_r; lia). lia.
  - rewrite (put_low_spec n) by (done || lia). cbn [app seq map].
    rewrite znth_cons_0, zset_cons_0. change (Z.of_nat 0) with 0.
    rewrite land_vbyte, reverse_cons. unfold vlist. f_equal.
    unfold reverse. by rewrite rev_append_rev, app_nil_r, map_rev.
Qed.
Lemma get_vlist n v rest max :
  (n < 8)%nat -> 0 <= v < 2 ^ (7 * (Z.of_nat n + 1)) -> Z.of_nat n < max ->
  sqlite3GetVarint (vlist n v ++ rest) max = Some (Z.of_nat n + 1, v).
Proof.
  intros Hn Hv Hmax. unfold sqlite3GetVarint.
  rewrite (proj2 (Z.eqb_neq max 0)) by lia.
  destruct n as [|[|[|[|[|[|[|[|n]]]]]]]]; [.. | lia].
  all: cbv [vlist seq rev map app vbyte vlast znth Z.to_nat Pos.to_nat Pos.iter_op Nat.add nth shl32 SLOT_2_0 SLOT_4_2_0].
  all: rewrite ?u8_chr.
  all: cbn [Z.of_nat Pos.of_succ_nat Pos.succ Z.mul Z.add Pos.add Pos.mul] in *.
  all: cbv zeta.
  1: bit_test v 7.
  all: repeat (rewrite (proj2 (Z.leb_gt max _)) by lia).
  1: { f_equal. f_equal. bit_eq v 7. }
  1: { repeat bit_test v 14. f_equal. f_equal. bit_eq v 14. }
  1: { repeat bit_test v 21. f_equal. f_equal. bit_eq v 21. }
  1: { repeat bit_test v 28. f_equal. f_equal. bit_eq v 28. }
  1: { repeat bit_test v 35. f_equal. f_equal. bit_eq v 35. }
  1: { repeat bit_test v 42. f_equal. f_equal. bit_eq v 42. }
  1: { repeat bit_test v 49. f_equal. f_equal. bit_eq v 49. }
  1: { repeat bit_test v 56. f_equal. f_equal. bit_eq v 56. }
Qed.

Lemma put_big v :
  2 ^ 56 <= v < 2 ^ 64 -> sqlite3PutVarint v = put_high 8 (Z.shiftr v 8) [chr v].
Proof.
  intros Hv. unfold sqlite3PutVarint, putVarint64.
  destruct (Z.leb_spec v 0x7f); [lia|]. destruct (Z.leb_spec v 0x3fff); [lia|].
  destruct (Z.eqb_spec (Z.land v (Z.shiftl 0xff000000 32)) 0) as [E|E]; [|done].
  exfalso. assert (F : Z.shiftr v 56 = Z.shiftr (Z.land v (Z.shiftl 0xff000000 32)) 56)
    by (bit_eq v 64).
  rewrite E, Z.shiftr_div_pow2 in F by lia. change (Z.shiftr 0 56) with 0 in F.
  assert (0 < v / 2 ^ 56) by (apply Z.div_str_pos; lia). lia.
Qed.

Lemma get_big v rest max :
  2 ^ 56 <= v < 2 ^ 64 -> 9 <= max ->
  sqlite3GetVarint (put_high 8 (Z.shiftr v 8) [chr v] ++ rest) max = Some (9, v).
Proof.
  intros Hv Hmax. unfold sqlite3GetVarint.
  rewrite (proj2 (Z.eqb_neq max 0)) by lia.
  cbv [put_high app znth Z.to_nat Pos.to_nat Pos.iter_op Nat.add nth shl32 SLOT_2_0 SLOT_4_2_0].
  rewrite ?u8_chr. cbv zeta.
  repeat (rewrite (proj2 (Z.leb_gt max _)) by lia).
  repeat bit_test v 64. f_equal. f_equal. bit_eq v 64.
Qed.

(** The number of 7-bit groups above the first. *)
Lemma varint_cases v :
  0 <= v < 2 ^ 64 ->
  2 ^ 56 <= v \/
  exists n, (n < 8)%nat /\ (n = 0%nat \/ 2 ^ (7 * Z.of_nat n) <= v) /\
            0 <= v < 2 ^ (7 * (Z.of_nat n + 1)).
Proof.
  intros Hv. destruct (Z.lt_ge_cases v (2 ^ 56)); [right|by left].
  destruct (decide (v = 0)) as [->|Hz]; [exists 0%nat; split_and!; [lia|by left|lia|done]|].
  assert (0 <= Z.log2 v / 7) by (apply Z.div_pos; [apply Z.log2_nonneg|lia]).
  exists (Z.to_nat (Z.log2 v / 7)). rewrite Z2Nat.id by done.
  pose proof (Z.log2_spec v ltac:(lia)) as [L1 L2].
  pose proof (Z.div_mod (Z.log2 v) 7 ltac:(lia)) as D.
  pose proof (Z.mod_pos_bound (Z.log2 v) 7 ltac:(lia)).
  assert (Z.log2 v < 56) by (apply Z.log2_lt_pow2; lia).
  split; [|split; [right|]].
  - lia.
  - apply Z.le_trans with (2 := L1), Z.pow_le_mono_r; lia.
  - split; [lia|]. apply Z.lt_le_trans with (1 := L2), Z.pow_le_mono_r; lia.
Qed.

Lemma zlen_vlist n v : zlen (vlist n v) = Z.of_nat n + 1.
Proof.
  unfold vlist. rewrite zlen_app. unfold zlen. rewrite length_map, length_rev, length_seq.
  cbn [length]. lia.
Qed.

Lemma varint_get_put v rest max :
  0 <= v < 2 ^ 64 -> zlen (sqlite3PutVarint v) <= max ->
  sqlite3GetVarint (sqlite3PutVarint v ++ rest) max = Some (zlen (sqlite3PutVarint v), v).
Proof.
  intros Hv. destruct (varint_cases v Hv) as [Hb|(n & Hn & Hlo & Hhi)].
  - rewrite put_big by lia. change (zlen _) with 9. intros. apply get_big; lia.
  - rewrite (put_spec n) by done. rewrite zlen_vlist. intros.
    apply get_vlist; [done..|lia].
Qed.

Lemma varintLen_loop_spec m : forall fuel i w,
  (m < fuel)%nat -> (m = 0%nat \/ 2 ^ (7 * Z.of_nat m) <= w) ->
  0 <= w < 2 ^ (7 * (Z.of_nat m + 1)) ->
  varintLen_loop fuel i w = i + Z.of_nat m.
Proof.
  induction m as [|m IH]; intros [|fuel] i w Hf Hlo Hhi; try lia; cbn [varintLen_loop].
  - rewrite shiftr_zero by (done || lia). lia.
  - destruct Hlo as [?|Hlo]; [done|].
    destruct (shr7_step m w) as (Hnz & Hl & Hh); [lia..|].
    rewrite Hnz, IH; [lia|lia|by right|done].
Qed.

Lemma varintLen_put v :
  0 <= v < 2 ^ 64 -> sqlite3VarintLen v = zlen (sqlite3PutVarint v).
Proof.
  intros Hv. unfold sqlite3VarintLen.
  destruct (varint_cases v Hv) as [Hb|(n & Hn & Hlo & Hhi)].
  - rewrite put_big by lia. change (zlen _) with 9.
    destruct (Z.lt_ge_cases v (2 ^ 63)).
    + rewrite (varintLen_loop_spec 8) by lia. done.
    + rewrite (varintLen_loop_spec 9) by lia. done.
  - rewrite (varintLen_loop_spec n) by (done || lia). rewrite (put_spec n) by done.
    rewrite zlen_vlist. destruct (Z.eqb_spec (1 + Z.of_nat n) 10); lia.
Qed.

Lemma zlen_put_range v : 0 <= v < 2 ^ 64 -> 1 <= zlen (sqlite3PutVarint v) <= 9.
Proof.
  intros Hv. destruct (varint_cases v Hv) as [Hb|(n & Hn & Hlo & Hhi)].
  - rewrite put_big by lia. change (zlen _) with 9. lia.
  - rewrite (put_spec n) by done. rewrite zlen_vlist. lia.
Qed.

Ltac case_leb m :=
  match goal with
  | |- (if m <=? ?k then _ else _) = _ => destruct (Z.leb_spec m k); [done|]
  end.

(** A varint cut short is refused. *)
Lemma varint_get_truncated v rest max :
  0 <= v < 2 ^ 64 -> 0 <= max < zlen (sqlite3PutVarint v) ->
  sqlite3GetVarint (sqlite3PutVarint v ++ rest) max = None.
Proof.
  intros Hv Hmax. unfold sqlite3GetVarint.
  destruct (Z.eqb_spec max 0) as [?|H0]; [done|].
  destruct (varint_cases v Hv) as [Hb|(n & Hn & Hlo & Hhi)].
  - rewrite put_big in * by lia. change (zlen _) with 9 in Hmax.
    cbv [put_high app znth Z.to_nat Pos.to_nat Pos.iter_op Nat.add nth shl32 SLOT_2_0 SLOT_4_2_0].
    rewrite ?u8_chr. cbv zeta. repeat bit_test v 64.
    repeat (case_leb max). lia.
  - rewrite (put_spec n) in * by done. rewrite zlen_vlist in Hmax. clear Hlo.
    destruct n as [|[|[|[|[|[|[|[|n]]]]]]]]; [lia|..|lia].
    all: cbv [vlist seq rev map app vbyte vlast znth Z.to_nat Pos.to_nat Pos.iter_op
              Nat.add nth shl32 SLOT_2_0 SLOT_4_2_0].
    all: rewrite ?u8_chr.
    all: cbn [Z.of_nat Pos.of_succ_nat Pos.succ Z.mul Z.add Pos.add Pos.mul] in *.
    all: cbv zeta; repeat bit_test v 64.
    all: repeat (case_leb max); lia.
Qed.

(** ** Reading back what was written *)

Import CRData.

(** [get] reads [a] from the bytes [payload], wherever they stand. *)
Definition reads {A} (get : getter A) (payload : bytes) (a : A) : Prop :=
  forall pre suf dl,
    zlen pre + zlen payload <= dl <= max_datalen ->
    get (mk (pre ++ payload ++ suf) (zlen pre) dl) =
    (Some a, mk (pre ++ payload ++ suf) (zlen pre + zlen payload) dl).

Lemma getFixed_reads payload n : zlen payload = n -> reads (getFixed n) payload payload.
Proof.
  intros <- pre suf dl H. unfold getFixed; cbn [datalen streampos data].
  rewrite (proj2 (Z.ltb_ge dl _)) by lia.
  by rewrite (zsub_app_zlen (zlen pre) (zlen payload)).
Qed.

Lemma omap_reads {A B} (get : getter A) p (f : A -> B) a b :
  reads get p a -> f a = b -> reads (fun r => omap f (get r)) p b.
Proof. intros H <- pre suf dl Hd. by rewrite (H pre suf dl Hd). Qed.

Lemma le_fixed_reads n v (f : bytes -> Z) :
  f (le_bytes n v) = v -> reads (fun r => omap f (getFixed (Z.of_nat n) r)) (le_bytes n v) v.
Proof.
  intros Hf. apply (omap_reads (getFixed (Z.of_nat n)) _ f (le_bytes n v)); [|done].
  apply getFixed_reads, zlen_le_bytes.
Qed.

Lemma getUInt_reads v : 0 <= v < 2 ^ 32 -> reads getUInt (le_bytes 4 v) v.
Proof.
  intros. apply (le_fixed_reads 4 v le_val). rewrite le_val_le_bytes.
  by apply Z.mod_small.
Qed.
Lemma getFloat_reads v : 0 <= v < 2 ^ 32 -> reads getFloat (le_bytes 4 v) v.
Proof. apply getUInt_reads. Qed.
Lemma getUShort_reads v : 0 <= v < 2 ^ 16 -> reads getUShort (le_bytes 2 v) v.
Proof.
  intros. apply (le_fixed_reads 2 v le_val). rewrite le_val_le_bytes.
  by apply Z.mod_small.
Qed.
Lemma getDouble_reads v : 0 <= v < 2 ^ 64 -> reads getDouble (le_bytes 8 v) v.
Proof.
  intros. apply (le_fixed_reads 8 v le_val). rewrite le_val_le_bytes.
  by apply Z.mod_small.
Qed.
Lemma getInt_reads v : - 2 ^ 31 <= v < 2 ^ 31 -> reads getInt (le_bytes 4 (w32 v)) v.
Proof.
  intros. apply (omap_reads (getFixed 4) _ (fun b => s32 (le_val b)) (le_bytes 4 (w32 v))).
  - apply getFixed_reads, zlen_le_bytes.
  - rewrite le_val_le_bytes. change (256 ^ Z.of_nat 4) with (2 ^ 32).
    rewrite Z.mod_small by apply w32_range. by apply s32_w32.
Qed.
Lemma getInt64_reads v : - 2 ^ 63 <= v < 2 ^ 63 -> reads getInt64 (le_bytes 8 (w64 v)) v.
Proof.
  intros. apply (omap_reads (getFixed 8) _ (fun b => s64 (le_val b)) (le_bytes 8 (w64 v))).
  - apply getFixed_reads, zlen_le_bytes.
  - rewrite le_val_le_bytes. change (256 ^ Z.of_nat 8) with (2 ^ 64).
    rewrite Z.mod_small by apply w64_range. by apply s64_w64.
Qed.
Lemma getVarInt_reads v :
  - 2 ^ 63 <= v < 2 ^ 63 -> reads getVarInt (sqlite3PutVarint (w64 v)) v.
Proof.
  intros Hv pre suf dl H. unfold getVarInt, getLeft; cbn [datalen streampos data].
  rewrite zdrop_app_zlen. pose proof (zlen_nonneg pre).
  pose proof (zlen_nonneg (sqlite3PutVarint (w64 v))). unfold max_datalen in H.
  rewrite w32_id by lia. rewrite varint_get_put by (apply w64_range || lia).
  by rewrite s64_w64.
Qed.
Lemma getChar_reads c : reads getChar [c] c.
Proof.
  intros pre suf dl H. unfold getChar; cbn [datalen streampos data].
  change (zlen [c]) with 1 in H. rewrite (proj2 (Z.ltb_ge dl _)) by lia.
  pose proof (zlen_nonneg pre).
  rewrite znth_app_r by lia. by rewrite Z.sub_diag.
Qed.
Lemma getUChar_reads v : 0 <= v < 256 -> reads getUChar [chr v] v.
Proof.
  intros Hv pre suf dl H. unfold getUChar; cbn [datalen streampos data].
  change (zlen [chr v]) with 1 in H. rewrite (proj2 (Z.ltb_ge dl _)) by lia.
  pose proof (zlen_nonneg pre).
  rewrite znth_app_r by lia. rewrite Z.sub_diag. cbn [app].
  by rewrite znth_cons_0, u8_chr_small.
Qed.

(** The tail shared by [getStr] and [getStr2]: the characters after the length. *)
Lemma string_tail (pre s suf : bytes) dl :
  zlen pre + zlen s <= dl ->
  (dl <? zlen pre + zlen s) = false /\
  (if 0 <? zlen s then zsub (zlen pre) (zlen s) (pre ++ s ++ suf) else []) = s.
Proof.
  intros H. split; [by apply Z.ltb_ge|].
  rewrite (zsub_app_zlen (zlen pre) (zlen s)) by done.
  destruct s; [done|]. unfold zlen. by destruct (Z.ltb_spec 0 (Z.of_nat (length (a :: s)))).
Qed.

Definition max_strlen : Z := 10 * 1024 * 1024.

Lemma getStr_reads s :
  zlen s <= max_strlen -> reads getStr (le_bytes 4 (zlen s) ++ s) s.
Proof.
  intros Hs pre suf dl H. unfold getStr. rewrite <- app_assoc.
  pose proof (zlen_nonneg s). unfold max_strlen in Hs. rewrite zlen_app in H.
  rewrite (getUInt_reads (zlen s)) by lia.
  rewrite (proj2 (Z.ltb_ge _ (zlen s))) by lia. cbn [datalen streampos data].
  rewrite app_assoc, <- zlen_app.
  destruct (string_tail (pre ++ le_bytes 4 (zlen s)) s suf dl) as [-> E].
  { rewrite zlen_app. lia. }
  rewrite E. unfold with_pos; cbn [data datalen]. rewrite <- app_assoc. f_equal.
  f_equal. rewrite !zlen_app. lia.
Qed.

Lemma getStr2_reads s :
  zlen s <= max_strlen -> reads getStr2 (sqlite3PutVarint (zlen s) ++ s) s.
Proof.
  intros Hs pre suf dl H. unfold getStr2. rewrite <- app_assoc.
  pose proof (zlen_nonneg s). unfold max_strlen in Hs. rewrite zlen_app in H.
  pose proof (getVarInt_reads (zlen s) ltac:(lia)) as R. rewrite w64_id in R by lia.
  rewrite (R pre _ dl) by lia.
  rewrite (proj2 (Z.ltb_ge _ (zlen s))) by lia. cbn [orb datalen streampos data].
  rewrite (proj2 (Z.ltb_ge (zlen s) 0)) by lia.
  rewrite app_assoc, <- zlen_app.
  destruct (string_tail (pre ++ sqlite3PutVarint (zlen s)) s suf dl) as [-> E].
  { rewrite zlen_app. lia. }
  rewrite E. unfold with_pos; cbn [data datalen]. rewrite <- app_assoc. f_equal.
  f_equal. rewrite !zlen_app. lia.
Qed.

(** ** Messages: any sequence of fields *)

Inductive field :=
| FInt (v : Z) | FUInt (v : Z) | FInt64 (v : Z) | FFloat (v : Z) | FDouble (v : Z)
| FUShort (v : Z) | FString (s : bytes) | FString2 (s : bytes) | FChar (c : char)
| FUChar (v : Z) | FVarInt (v : Z) | FVoidPtr (v : Z).

(** The values the C++ parameter types can take; strings within the limit the
    reader accepts. *)
Definition field_ok (f : field) : Prop :=
  match f with
  | FInt v => - 2 ^ 31 <= v < 2 ^ 31
  | FUInt v | FFloat v => 0 <= v < 2 ^ 32
  | FInt64 v | FVarInt v => - 2 ^ 63 <= v < 2 ^ 63
  | FDouble v | FVoidPtr v => 0 <= v < 2 ^ 64
  | FUShort v => 0 <= v < 2 ^ 16
  | FString s | FString2 s => zlen s <= max_strlen
  | FChar _ => True
  | FUChar v => 0 <= v < 256
  end.

Definition add_field (d : CWData.t) (f : field) : CWData.t :=
  match f with
  | FInt v => CWData.addInt d v
  | FUInt v => CWData.addUInt d v
  | FInt64 v => CWData.addInt64 d v
  | FFloat v => CWData.addFloat d v
  | FDouble v => CWData.addDouble d v
  | FUShort v => CWData.addUShort d v
  | FString s => CWData.addString d s
  | FString2 s => CWData.addString2 d s
  | FChar c => CWData.addChar d c
  | FUChar v => CWData.addUChar d v
  | FVarInt v => CWData.addVarInt d v
  | FVoidPtr v => CWData.addVoidPtr d v
  end.

(** Reading a field of the same type as [f]. *)
Definition get_field (f : field) (r : CRData.t) : option field * CRData.t :=
  match f with
  | FInt _ => omap FInt (getInt r)
  | FUInt _ => omap FUInt (getUInt r)
  | FInt64 _ => omap FInt64 (getInt64 r)
  | FFloat _ => omap FFloat (getFloat r)
  | FDouble _ => omap FDouble (getDouble r)
  | FUShort _ => omap FUShort (getUShort r)
  | FString _ => omap FString (getStr r)
  | FString2 _ => omap FString2 (getStr2 r)
  | FChar _ => omap FChar (getChar r)
  | FUChar _ => omap FUChar (getUChar r)
  | FVarInt _ => omap FVarInt (getVarInt r)
  | FVoidPtr _ => omap FVoidPtr (getVoidPtr r)
  end.

Definition write_fields (d : CWData.t) (fs : list field) : CWData.t :=
  foldl add_field d fs.

Fixpoint read_fields (fs : list field) (r : CRData.t) : option (list field) * CRData.t :=
  match fs with
  | [] => (Some [], r)
  | f :: fs =>
      match get_field f r with
      | (Some g, r) => omap (cons g) (read_fields fs r)
      | (None, r) => (None, r)
      end
  end.

Definition payload (f : field) : bytes :=
  match f with
  | FInt v => le_bytes 4 (w32 v)
  | FUInt v | FFloat v => le_bytes 4 v
  | FInt64 v => le_bytes 8 (w64 v)
  | FDouble v | FVoidPtr v => le_bytes 8 v
  | FUShort v => le_bytes 2 v
  | FString s => le_bytes 4 (zlen s) ++ s
  | FString2 s => sqlite3PutVarint (zlen s) ++ s
  | FChar c => [c]
  | FUChar v => [chr v]
  | FVarInt v => sqlite3PutVarint (w64 v)
  end.

Lemma addVarInt_app d v : CWData.addVarInt d v = d ++ sqlite3PutVarint (w64 v).
Proof.
  unfold CWData.addVarInt. rewrite varintLen_put by apply w64_range.
  set (p := sqlite3PutVarint (w64 v)). pose proof (zlen_nonneg d). pose proof (zlen_nonneg p).
  unfold zsplice, zresize. rewrite (ztake_ge _ d) by lia.
  rewrite ztake_app_zlen, zdrop_ge, app_nil_r; [done|].
  rewrite zlen_app, zlen_replicate; lia.
Qed.

Lemma add_field_app d f : field_ok f -> add_field d f = d ++ payload f.
Proof.
  destruct f as [| | | | | |s|s| | | |]; cbn [field_ok add_field payload]; intros Hf; try done.
  - unfold CWData.addString, CWData.addUInt. pose proof (zlen_nonneg s).
    unfold max_strlen in Hf. rewrite w32_id by lia.
    destruct s; [by rewrite app_nil_r|]. by rewrite app_assoc.
  - unfold CWData.addString2. rewrite addVarInt_app. pose proof (zlen_nonneg s).
    unfold max_strlen in Hf. rewrite w64_id by lia.
    destruct s; [by rewrite app_nil_r|]. by rewrite app_assoc.
  - apply addVarInt_app.
Qed.

Lemma get_field_reads f : field_ok f -> reads (get_field f) (payload f) f.
Proof.
  destruct f; cbn [field_ok payload]; intros Hf pre suf dl Hd; unfold get_field.
  - by rewrite (getInt_reads v).
  - by rewrite (getUInt_reads v).
  - by rewrite (getInt64_reads v).
  - by rewrite (getFloat_reads v).
  - by rewrite (getDouble_reads v).
  - by rewrite (getUShort_reads v).
  - by rewrite (getStr_reads s).
  - by rewrite (getStr2_reads s).
  - by rewrite (getChar_reads c).
  - by rewrite (getUChar_reads v).
  - by rewrite (getVarInt_reads v).
  - by rewrite (getDouble_reads v Hf : reads getVoidPtr _ _).
Qed.

Lemma write_fields_app fs : forall d,
  Forall field_ok fs -> write_fields d fs = d ++ concat (map payload fs).
Proof.
  induction fs as [|f fs IH]; intros d H; cbn.
  - by rewrite app_nil_r.
  - inversion_clear H. rewrite add_field_app by done. unfold write_fields in IH.
    rewrite IH by done. by rewrite app_assoc.
Qed.

Lemma read_fields_spec fs : forall pre suf dl,
  Forall field_ok fs ->
  zlen pre + zlen (concat (map payload fs)) <= dl <= max_datalen ->
  let d := pre ++ concat (map payload fs) ++ suf in
  read_fields fs (mk d (zlen pre) dl) =
  (Some fs, mk d (zlen pre + zlen (concat (map payload fs))) dl).
Proof.
  induction fs as [|f fs IH]; intros pre suf dl H Hd; cbn [read_fields map concat].
  - change (zlen (concat [])) with 0. by rewrite Z.add_0_r.
  - inversion_clear H. cbn [map concat] in Hd. rewrite zlen_app in Hd.
    pose proof (zlen_nonneg (concat (map payload fs))).
    rewrite <- app_assoc, (get_field_reads f) by (done || lia).
    rewrite app_assoc, <- zlen_app.
    rewrite (IH (pre ++ payload f) suf) by (done || (rewrite ?zlen_app; lia)).
    unfold omap; cbn [fst snd option_map]. do 2 f_equal. rewrite !zlen_app. lia.
Qed.

(** C22: every message written field by field with [CWData] (up to the reader's 100 MiB,
    its values in the range of their types and its strings up to the reader's 10 MiB,
    [field_ok]) is read back by [CRData] field by field to the same values, and the
    reader then stands exactly at the end of the message, whatever follows it in the
    buffer. *)
Theorem message_roundtrip (fs : list field) (suf : bytes) :
  Forall field_ok fs ->
  zlen (write_fields [] fs) <= max_datalen ->
  let msg := write_fields [] fs in
  read_fields fs (CRData.set (msg ++ suf) (zlen msg)) =
  (Some fs, CRData.mk (msg ++ suf) (zlen msg) (zlen msg)).
Proof.
  intros Hok. rewrite (write_fields_app fs []) by done. cbn [app]. intros Hlen.
  unfold CRData.set. rewrite Z.min_r by lia.
  apply (read_fields_spec fs [] suf); [done|]. rewrite zlen_nil. lia.
Qed.

Lemma message_roundtrip_witness :
  let fs := [FInt (-5); FString (str "abc"); FVarInt 70000; FString2 (str "x"); FUShort 513] in
  read_fields fs (CRData.set (write_fields [] fs ++ str "tail") (zlen (write_fields [] fs)))
  = (Some fs, CRData.mk (write_fields [] fs ++ str "tail") 18 18).
Proof.
  apply (message_roundtrip
           [FInt (-5); FString (str "abc"); FVarInt 70000; FString2 (str "x"); FUShort 513]
           (str "tail")).
  - repeat (apply Forall_cons_2; [first [done | by vm_compute]|]). apply Forall_nil_2.
  - by vm_compute.
Defined.

(** SQLite's varint as data.cpp uses it: the length computed beforehand is
    the number of bytes written (1 to 9), decoding gives the value back with
    that many bytes consumed whatever follows, and a prefix that is too short
    is refused without a value. *)
Theorem varint_codec (v max : Z) (rest : bytes) :
  0 <= v < 2 ^ 64 -> 0 <= max ->
  let p := sqlite3PutVarint v in
  sqlite3VarintLen v = zlen p /\ 1 <= zlen p <= 9 /\
  sqlite3GetVarint (p ++ rest) max = (if zlen p <=? max then Some (zlen p, v) else None).
Proof.
  intros Hv Hmax. cbv zeta.
  split; [by apply varintLen_put|]. split; [by apply zlen_put_range|].
  destruct (Z.leb_spec (zlen (sqlite3PutVarint v)) max).
  - by apply varint_get_put.
  - apply varint_get_truncated; [done|lia].
Qed.

Lemma varint_codec_witness :
  sqlite3GetVarint (sqlite3PutVarint (2 ^ 63 + 12345) ++ str "xy") 9 = Some (9, 2 ^ 63 + 12345).
Proof. apply (varint_codec (2 ^ 63 + 12345) 9 (str "xy")); lia. Defined.

(** ** The reader never leaves its buffer *)

(** Every call a client can make on a [CRData]. *)
Inductive rd_op :=
| RGet (f : field)          (* the getter of the field's type *)
| RSetStreampos (spos : Z)
| RIncrementPtr (amount : Z).

(** [unsigned int] parameters. *)
Definition rd_op_ok (o : rd_op) : Prop :=
  match o with
  | RGet _ => True
  | RSetStreampos x | RIncrementPtr x => 0 <= x < 2 ^ 32
  end.

Definition rd_run (o : rd_op) (r : CRData.t) : CRData.t :=
  match o with
  | RGet f => snd (get_field f r)
  | RSetStreampos x => setStreampos x r
  | RIncrementPtr x => snd (incrementPtr x r)
  end.

(** The read position is inside the announced length, which is inside the
    buffer and below the limit. *)
Definition rd_inv (buf : bytes) (r : CRData.t) : Prop :=
  data r = buf /\ 0 <= streampos r <= datalen r /\
  datalen r <= zlen buf /\ datalen r <= max_datalen.

Lemma with_pos_inv buf r p :
  rd_inv buf r -> 0 <= p <= datalen r -> rd_inv buf (with_pos r p).
Proof. unfold rd_inv. destruct r; cbn. intros (? & ? & ? & ?) ?. split_and!; done || lia. Qed.

Lemma getFixed_inv buf n r : 0 <= n -> rd_inv buf r -> rd_inv buf (snd (getFixed n r)).
Proof.
  intros Hn H. unfold getFixed. destruct (Z.ltb_spec (datalen r) (streampos r + n)); [done|].
  apply with_pos_inv; [done|]. unfold rd_inv in H. lia.
Qed.

Lemma get_varint_bytes p max n v :
  0 <= max -> sqlite3GetVarint p max = Some (n, v) -> 1 <= n <= Z.min 9 max.
Proof.
  intros Hmax. unfold sqlite3GetVarint. cbv zeta.
  destruct (Z.eqb_spec max 0); [done|].
  repeat match goal with
  | |- (if ?b then _ else _) = _ -> _ =>
      lazymatch b with
      | max <=? ?k => destruct (Z.leb_spec max k); [done|]
      | _ => destruct b; [intros [= <- <-]; lia|]
      end
  end.
  intros [= <- <-]. lia.
Qed.

Lemma getVarInt_inv buf r : rd_inv buf r -> rd_inv buf (snd (getVarInt r)).
Proof.
  intros H. unfold getVarInt.
  destruct (sqlite3GetVarint _ _) as [[b v]|] eqn:E; [|done].
  apply get_varint_bytes in E; [|apply w32_range].
  apply with_pos_inv; [done|]. unfold rd_inv, max_datalen in H. unfold getLeft in E.
  rewrite w32_id in E; lia.
Qed.

Lemma string_tail_inv {A} buf (a : A) (b : bool) r n :
  0 <= n -> rd_inv buf r ->
  rd_inv buf (snd (if b then (@None A, r) else
                   if datalen r <? streampos r + n then (None, r)
                   else (Some a, with_pos r (streampos r + n)))).
Proof.
  intros Hn H. destruct b; [done|].
  destruct (Z.ltb_spec (datalen r) (streampos r + n)); [done|].
  apply with_pos_inv; [done|]. unfold rd_inv in H. lia.
Qed.

Lemma getStr_inv buf r : rd_inv buf r -> rd_inv buf (snd (getStr r)).
Proof.
  intros H. unfold getStr. pose proof (getFixed_inv buf 4 r ltac:(lia) H) as H4.
  unfold getUInt, omap in *. destruct (getFixed 4 r) as [[x|] r']; cbn in *; [|done].
  apply string_tail_inv; [|done]. apply le_val_range.
Qed.

Lemma getStr2_inv buf r : rd_inv buf r -> rd_inv buf (snd (getStr2 r)).
Proof.
  intros H. unfold getStr2. pose proof (getVarInt_inv buf r H) as H1.
  destruct (getVarInt r) as [[n|] r']; cbn in *; [|done].
  destruct (Z.ltb_spec n 0); [by rewrite orb_true_r|].
  by apply string_tail_inv.
Qed.

Lemma get_field_inv buf f r : rd_inv buf r -> rd_inv buf (snd (get_field f r)).
Proof.
  intros H. destruct f; cbn [get_field]; unfold omap; cbn [snd];
    try (apply getFixed_inv; [lia|done]).
  - by apply getStr_inv.
  - by apply getStr2_inv.
  - unfold getChar. destruct (Z.ltb_spec (datalen r) (streampos r + 1)); [done|].
    apply with_pos_inv; [done|]. unfold rd_inv in H. lia.
  - unfold getUChar. destruct (Z.ltb_spec (datalen r) (streampos r + 1)); [done|].
    apply with_pos_inv; [done|]. unfold rd_inv in H. lia.
  - by apply getVarInt_inv.
Qed.

Lemma rd_run_inv buf o r : rd_op_ok o -> rd_inv buf r -> rd_inv buf (rd_run o r).
Proof.
  intros Ho H. destruct o as [f|x|x]; cbn [rd_run rd_op_ok] in *.
  - by apply get_field_inv.
  - unfold setStreampos. destruct (Z.leb_spec x (datalen r)); [|done].
    apply with_pos_inv; [done|lia].
  - assert (P := H). unfold rd_inv, max_datalen in P.
    unfold incrementPtr, getLeft. rewrite w32_id by lia.
    destruct (Z.ltb_spec (datalen r - streampos r) x); [done|].
    apply with_pos_inv; [done|lia].
Qed.

(** Memory safety of the reader.  Started on any buffer, after any sequence
    of getters, [setStreampos] and [incrementPtr] calls (successful or not) the
    position is between 0 and the announced length, which stays inside the
    buffer, so no getter dereferences outside it. *)
Theorem reader_in_bounds (buf : bytes) (n : Z) (ops : list rd_op) :
  0 <= n <= zlen buf -> Forall rd_op_ok ops ->
  rd_inv buf (foldl (fun r o => rd_run o r) (CRData.set buf n) ops).
Proof.
  intros Hn Hops.
  assert (H : rd_inv buf (CRData.set buf n)).
  { unfold rd_inv, CRData.set, max_datalen; cbn. split_and!; done || lia. }
  revert H. generalize (CRData.set buf n). induction Hops as [|o ops Ho Hops IH]; intros r H; cbn.
  - done.
  - by apply IH, rd_run_inv.
Qed.

Lemma reader_in_bounds_witness :
  rd_inv (str "abcd")
    (foldl (fun r o => rd_run o r) (CRData.set (str "abcd") 4)
       [RGet (FUShort 0); RIncrementPtr 5; RGet (FString []); RSetStreampos 3; RGet (FVarInt 0)]).
Proof.
  apply (reader_in_bounds (str "abcd") 4).
  - by vm_compute.
  - repeat (apply Forall_cons_2; [by vm_compute|]). apply Forall_nil_2.
Defined.
