(* ===== verification/Adler.v ===== *)
(** The rolling checksum: [common/adler32.cpp].

    [urb_adler32] (zlib's algorithm with its deferred reductions) and
    [urb_adler32_combine], on 32-bit unsigned arithmetic; both are shown to
    implement the textbook Adler-32 sums. *)
From S2P Require Import Prelude.

Definition BASE : Z := 65521.
Definition NMAX : Z := 5552.

(** The running pair ([adler], [sum2]). *)
Definition sums : Type := Z * Z.

(** [DO1]: [adler += b; sum2 += adler], on [unsigned int]. *)
Definition DO1 (s : sums) (c : char) : sums :=
  let adler := w32 (fst s + u8 c) in
  let sum2 := w32 (snd s + adler) in
  (adler, sum2).

(** [n] successive [DO1]s on the bytes at the front of [buf]; [DO16] is [DOn 16]
    and [DO1] unrolled [n] times in the [while (len--)] loops. *)
Definition DOn (n : Z) (s : sums) (buf : bytes) : sums := foldl DO1 s (ztake n buf).

(** The [do .. while (--n)] loop of [n] unrolled blocks of 16. *)
Fixpoint do16_blocks (n : nat) (s : sums) (buf : bytes) : sums * bytes :=
  match n with
  | O => (s, buf)
  | S k => do16_blocks k (DOn 16 s buf) (zdrop 16 buf)
  end.

(** [while (len >= NMAX)]; each round consumes NMAX bytes. *)
Fixpoint nmax_loop (fuel : nat) (s : sums) (buf : bytes) (len : Z) : sums * bytes * Z :=
  match fuel with
  | O => (s, buf, len)
  | S k =>
      if NMAX <=? len then
        let len := len - NMAX in
        let '(s, buf) := do16_blocks (Z.to_nat (NMAX / 16)) s buf in
        let s := (fst s mod BASE, snd s mod BASE) in
        nmax_loop k s buf len
      else (s, buf, len)
  end.

(** [while (len >= 16)]. *)
Fixpoint rem16_loop (fuel : nat) (s : sums) (buf : bytes) (len : Z) : sums * bytes * Z :=
  match fuel with
  | O => (s, buf, len)
  | S k =>
      if 16 <=? len then rem16_loop k (DOn 16 s buf) (zdrop 16 buf) (len - 16)
      else (s, buf, len)
  end.

(** [buf = None] is the null pointer. *)
Definition urb_adler32 (adler : Z) (pbuf : option bytes) (len : Z) : Z :=
  let sum2 := Z.land (Z.shiftr adler 16) 0xffff in
  let adler := Z.land adler 0xffff in
  let buf := match pbuf with Some b => b | None => [] end in
  if len =? 1 then
    let adler := w32 (adler + u8 (znth nul buf 0)) in
    let adler := if BASE <=? adler then adler - BASE else adler in
    let sum2 := w32 (sum2 + adler) in
    let sum2 := if BASE <=? sum2 then sum2 - BASE else sum2 in
    Z.lor adler (w32 (Z.shiftl sum2 16))
  else
  match pbuf with
  | None => 1
  | Some buf =>
      if len <? 16 then
        let '(adler, sum2) := DOn len (adler, sum2) buf in
        let adler := if BASE <=? adler then adler - BASE else adler in
        let sum2 := sum2 mod BASE in
        Z.lor adler (w32 (Z.shiftl sum2 16))
      else
        let fuel := S (Z.to_nat len) in
        let '(s, buf, len) := nmax_loop fuel (adler, sum2) buf len in
        let s :=
          if negb (len =? 0) then
            let '(s, buf, len) := rem16_loop fuel s buf len in
            let s := DOn len s buf in
            (fst s mod BASE, snd s mod BASE)
          else s in
        Z.lor (fst s) (w32 (Z.shiftl (snd s) 16))
  end.

(** [unsigned long] is 64 bits wide, [rem] and the arguments 32. *)
Definition urb_adler32_combine (adler1 adler2 len2 : Z) : Z :=
  let len2 := len2 mod BASE in
  let rem := len2 in
  let sum1 := Z.land adler1 0xffff in
  let sum2 := w64 (rem * sum1) in
  let sum2 := sum2 mod BASE in
  let sum1 := w64 (sum1 + w32 (w32 (Z.land adler2 0xffff + BASE) - 1)) in
  let sum2 := w64 (sum2 + w32 (w32 (w32 (Z.land (Z.shiftr adler1 16) 0xffff
                              + Z.land (Z.shiftr adler2 16) 0xffff) + BASE) - rem)) in
  let sum1 := if BASE <=? sum1 then sum1 - BASE else sum1 in
  let sum1 := if BASE <=? sum1 then sum1 - BASE else sum1 in
  let sum2 := if Z.shiftl BASE 1 <=? sum2 then sum2 - Z.shiftl BASE 1 else sum2 in
  let sum2 := if BASE <=? sum2 then sum2 - BASE else sum2 in
  w32 (Z.lor sum1 (w64 (Z.shiftl sum2 16))).

(** ** The specification *)

(** The textbook sums, reduced at every byte. *)
Definition spec_step (s : sums) (c : char) : sums :=
  let a := (fst s + u8 c) mod BASE in (a, (snd s + a) mod BASE).
Definition spec_sums (s : sums) (buf : bytes) : sums := foldl spec_step s buf.
Definition pack (s : sums) : Z := fst s + 65536 * snd s.
Definition adler_spec (s : sums) (buf : bytes) : Z := pack (spec_sums s buf).
Definition reduced (s : sums) : Prop := 0 <= fst s < BASE /\ 0 <= snd s < BASE.

(** ** Exact sums *)

(** The sums over the integers, without reduction. *)
Definition ex_step (s : sums) (c : char) : sums := (fst s + u8 c, snd s + (fst s + u8 c)).
Definition ex (s : sums) (buf : bytes) : sums := foldl ex_step s buf.

Lemma ex_linear l : forall a b,
  ex (a, b) l = (a + fst (ex (0, 0) l), b + zlen l * a + snd (ex (0, 0) l)).
Proof.
  unfold ex. induction l as [|c l IH]; intros a b; cbn [foldl].
  - change (zlen (@nil ascii)) with 0. cbn. f_equal; lia.
  - change (ex_step (a, b) c) with (a + u8 c, b + (a + u8 c)).
    change (ex_step (0, 0) c) with (0 + u8 c, 0 + (0 + u8 c)). rewrite IH, (IH (0 + u8 c)). cbn [fst snd].
    rewrite zlen_cons. f_equal; lia.
Qed.

(** No [unsigned int] overflow: the [DO1]s compute the exact sums. *)
Lemma DO_exact l : forall a b,
  0 <= a -> 0 <= b -> 2 * b + 2 * (zlen l * a) + 255 * (zlen l * (zlen l + 1)) < 2 ^ 33 ->
  a + 255 * zlen l < 2 ^ 32 ->
  foldl DO1 (a, b) l = ex (a, b) l.
Proof.
  unfold ex. induction l as [|c l IH]; intros a b Ha Hb H Ha'; cbn [foldl]; [done|].
  rewrite zlen_cons in H, Ha'. pose proof (zlen_nonneg l). pose proof (u8_range c).
  unfold DO1 at 2, ex_step at 2; cbn [fst snd].
  rewrite (w32_id (a + u8 c)) by lia. rewrite w32_id by nia.
  apply IH; nia.
Qed.

Lemma ex_bounds l : forall a b,
  0 <= a -> 0 <= b ->
  0 <= fst (ex (a, b) l) <= a + 255 * zlen l /\ 0 <= snd (ex (a, b) l).
Proof.
  unfold ex. induction l as [|c l IH]; intros a b Ha Hb; cbn [foldl].
  - change (zlen (@nil ascii)) with 0. cbn. lia.
  - pose proof (u8_range c). change (ex_step (a, b) c) with (a + u8 c, b + (a + u8 c)).
    destruct (IH (a + u8 c) (b + (a + u8 c))) as [P Q]; [lia..|].
    rewrite zlen_cons. lia.
Qed.

Definition reduce (s : sums) : sums := (fst s mod BASE, snd s mod BASE).

Lemma reduce_reduced s : reduced (reduce s).
Proof. split; apply Z.mod_pos_bound; done. Qed.
Lemma reduced_id s : reduced s -> reduce s = s.
Proof.
  destruct s as [a b]. intros [Ha Hb]. unfold reduce. cbn [fst snd] in *.
  by rewrite !Z.mod_small.
Qed.

Lemma spec_ex l : forall s, spec_sums (reduce s) l = reduce (ex s l).
Proof.
  unfold spec_sums, ex. induction l as [|c l IH]; intros s; cbn [foldl]; [done|].
  rewrite <- IH. f_equal. unfold spec_step, ex_step, reduce; cbn [fst snd]. f_equal.
  - by rewrite Zplus_mod_idemp_l.
  - by rewrite (Zplus_mod_idemp_l (fst s)), Zplus_mod_idemp_l, Zplus_mod_idemp_r.
Qed.

Lemma spec_sums_ex s l : reduced s -> spec_sums s l = reduce (ex s l).
Proof. intros H. rewrite <- (reduced_id s H) at 1. apply spec_ex. Qed.
Lemma spec_sums_app s l k : spec_sums s (l ++ k) = spec_sums (spec_sums s l) k.
Proof. unfold spec_sums. apply foldl_app. Qed.
Lemma spec_sums_reduced s l : reduced s -> reduced (spec_sums s l).
Proof. intros. rewrite spec_sums_ex by done. apply reduce_reduced. Qed.

(** From reduced sums, up to NMAX bytes do not overflow. *)
Lemma DO_nmax s l :
  reduced s -> zlen l <= NMAX -> reduce (foldl DO1 s l) = spec_sums s l.
Proof.
  intros Hs Hl. rewrite spec_sums_ex by done. destruct s as [a b], Hs as [Ha Hb].
  cbn [fst snd] in *. unfold BASE, NMAX in *. pose proof (zlen_nonneg l).
  rewrite DO_exact; [done|lia|lia| |lia].
  assert (zlen l * a <= 5552 * 65520) by nia.
  assert (zlen l * (zlen l + 1) <= 5552 * 5553) by nia. lia.
Qed.

(** ** The loops *)

Lemma do16_blocks_spec n : forall s buf,
  do16_blocks n s buf =
  (foldl DO1 s (ztake (16 * Z.of_nat n) buf), zdrop (16 * Z.of_nat n) buf).
Proof.
  induction n as [|n IH]; intros s buf; cbn [do16_blocks]; [done|].
  rewrite IH. replace (16 * Z.of_nat (S n)) with (16 + 16 * Z.of_nat n) by lia.
  rewrite zdrop_zdrop, ztake_add by lia. unfold DOn, zsub. by rewrite foldl_app.
Qed.

Lemma nmax_loop_spec fuel : forall s buf len,
  reduced s -> 0 <= len <= zlen buf -> len < Z.of_nat fuel ->
  exists k, 0 <= k <= len /\ len - k < NMAX /\
    nmax_loop fuel s buf len = (spec_sums s (ztake k buf), zdrop k buf, len - k).
Proof.
  induction fuel as [|fuel IH]; intros s buf len Hs Hlen Hf; [lia|]. cbn [nmax_loop].
  destruct (Z.leb_spec NMAX len) as [Hn|Hn].
  - rewrite do16_blocks_spec. change (16 * Z.of_nat (Z.to_nat (NMAX / 16))) with NMAX.
    assert (El : zlen (ztake NMAX buf) = NMAX) by (rewrite zlen_ztake; unfold NMAX in *; lia).
    change (fst _ mod BASE, snd _ mod BASE) with (reduce (foldl DO1 s (ztake NMAX buf))).
    rewrite DO_nmax by (done || lia).
    destruct (IH (spec_sums s (ztake NMAX buf)) (zdrop NMAX buf) (len - NMAX))
      as (k & Hk & Hm & E).
    + by apply spec_sums_reduced.
    + rewrite zlen_zdrop by done. unfold NMAX in *. lia.
    + unfold NMAX in *. lia.
    + exists (NMAX + k). split; [unfold NMAX in *; lia|]. split; [lia|].
      rewrite E, <- spec_sums_app, zdrop_zdrop by (unfold NMAX; lia).
      rewrite ztake_add by (unfold NMAX; lia). unfold zsub. f_equal. lia.
  - exists 0. split; [lia|]. split; [lia|]. by rewrite ztake_0, zdrop_0, Z.sub_0_r.
Qed.

Lemma rem16_loop_spec fuel : forall s buf len,
  0 <= len <= zlen buf -> len < Z.of_nat fuel ->
  exists k, 0 <= k <= len /\
    rem16_loop fuel s buf len = (foldl DO1 s (ztake k buf), zdrop k buf, len - k).
Proof.
  induction fuel as [|fuel IH]; intros s buf len Hlen Hf; [lia|]. cbn [rem16_loop].
  destruct (Z.leb_spec 16 len) as [Hn|Hn].
  - destruct (IH (DOn 16 s buf) (zdrop 16 buf) (len - 16)) as (k & Hk & E).
    + rewrite zlen_zdrop by done. lia.
    + lia.
    + exists (16 + k). split; [lia|].
      rewrite E, zdrop_zdrop, ztake_add by lia. unfold DOn, zsub.
      rewrite foldl_app. f_equal. lia.
  - exists 0. split; [lia|]. by rewrite ztake_0, zdrop_0, Z.sub_0_r.
Qed.

(** ** Packing *)

Lemma pack_lor a b :
  0 <= a < 65536 -> 0 <= b < 65536 -> Z.lor a (w32 (Z.shiftl b 16)) = pack (a, b).
Proof.
  intros. rewrite w32_id by (rewrite Z.shiftl_mul_pow2; lia).
  rewrite Z.lor_comm, lor_shiftl_add by lia. unfold pack; cbn [fst snd]. lia.
Qed.
Lemma unpack_low a b : 0 <= a < 65536 -> Z.land (pack (a, b)) 0xffff = a.
Proof.
  intros. change 0xffff with (2 ^ 16 - 1). rewrite land_mask by lia.
  unfold pack; cbn [fst snd]. rewrite (Z.mul_comm 65536), Z.mod_add, Z.mod_small; lia.
Qed.
Lemma unpack_high a b :
  0 <= a < 65536 -> 0 <= b < 65536 -> Z.land (Z.shiftr (pack (a, b)) 16) 0xffff = b.
Proof.
  intros. rewrite Z.shiftr_div_pow2 by lia. change 0xffff with (2 ^ 16 - 1).
  rewrite land_mask by lia. unfold pack; cbn [fst snd].
  rewrite (Z.mul_comm 65536), Z.div_add, Z.div_small, Z.add_0_l by lia.
  apply Z.mod_small; lia.
Qed.
Lemma pack_lor_reduced s : reduced s -> Z.lor (fst s) (w32 (Z.shiftl (snd s) 16)) = pack s.
Proof. destruct s as [a b]. intros [Ha Hb]. unfold BASE in *. apply pack_lor; cbn in *; lia. Qed.

(** Subtracting BASE once reduces a value below [2 * BASE]. *)
Lemma cond_sub x : 0 <= x < 2 * BASE -> (if BASE <=? x then x - BASE else x) = x mod BASE.
Proof.
  intros. destruct (Z.leb_spec BASE x).
  - rewrite <- (Z.mod_small (x - BASE) BASE) by lia.
    rewrite <- (Z.mod_add (x - BASE) 1 BASE) by done. f_equal. lia.
  - symmetry. apply Z.mod_small. lia.
Qed.
Lemma cond_sub_twice x :
  0 <= x < 3 * BASE ->
  (if BASE <=? (if BASE <=? x then x - BASE else x)
   then (if BASE <=? x then x - BASE else x) - BASE
   else (if BASE <=? x then x - BASE else x)) = x mod BASE.
Proof.
  intros. destruct (Z.leb_spec BASE x).
  - rewrite cond_sub by lia. rewrite <- (Z.mod_add (x - BASE) 1 BASE) by done. f_equal. lia.
  - apply cond_sub. unfold BASE in *. lia.
Qed.
Lemma cond_sub_four x :
  0 <= x < 4 * BASE ->
  let y := if Z.shiftl BASE 1 <=? x then x - Z.shiftl BASE 1 else x in
  (if BASE <=? y then y - BASE else y) = x mod BASE.
Proof.
  intros. subst y. change (Z.shiftl BASE 1) with (2 * BASE).
  destruct (Z.leb_spec (2 * BASE) x).
  - rewrite cond_sub by lia. rewrite <- (Z.mod_add (x - 2 * BASE) 2 BASE) by done. f_equal. lia.
  - apply cond_sub. lia.
Qed.

Lemma urb_adler32_spec (s : sums) (buf : bytes) (len : Z) :
  reduced s -> 0 <= len <= zlen buf -> len < 2 ^ 32 ->
  urb_adler32 (pack s) (Some buf) len = adler_spec s (ztake len buf).
Proof.
  intros Hs Hlen H32. destruct s as [a b]. pose proof Hs as [Ha Hb]; cbn [fst snd] in *.
  assert (HB : BASE <= 65536) by done. unfold urb_adler32, adler_spec.
  rewrite unpack_low, unpack_high by lia.
  destruct (Z.eqb_spec len 1) as [->|H1].
  { destruct buf as [|c buf]; [change (zlen (@nil ascii)) with 0 in Hlen; lia|]. rewrite znth_cons_0.
    change (ztake 1 (c :: buf)) with [c].
    pose proof (u8_range c). unfold BASE in *. rewrite w32_id by lia. fold BASE.
    rewrite (cond_sub (a + u8 c)) by (unfold BASE; lia).
    pose proof (Z.mod_pos_bound (a + u8 c) BASE ltac:(done)).
    rewrite (w32_id (b + _)) by (unfold BASE in *; lia).
    rewrite cond_sub by (unfold BASE in *; lia).
    exact (pack_lor_reduced (spec_step (a, b) c)
             ltac:(split; apply Z.mod_pos_bound; done)). }
  destruct (Z.ltb_spec len 16) as [H16|H16].
  { unfold DOn. assert (El : zlen (ztake len buf) = len) by (rewrite zlen_ztake; lia).
    pose proof (DO_nmax (a, b) (ztake len buf) Hs ltac:(unfold NMAX; lia)) as E.
    assert (Ef : fst (foldl DO1 (a, b) (ztake len buf)) < 2 * BASE /\
                 0 <= fst (foldl DO1 (a, b) (ztake len buf))).
    { unfold BASE in *. rewrite DO_exact by (rewrite ?El; nia).
      pose proof (ex_bounds (ztake len buf) a b). rewrite El in *. lia. }
    rewrite <- E. destruct (foldl DO1 (a, b) (ztake len buf)) as [a' b']. cbn [fst snd] in *.
    rewrite cond_sub by lia.
    exact (pack_lor_reduced (reduce (a', b')) (reduce_reduced _)). }
  destruct (nmax_loop_spec (S (Z.to_nat len)) (a, b) buf len Hs Hlen ltac:(lia))
    as (k & Hk & Hm & E). rewrite E. clear E.
  pose proof (spec_sums_reduced (a, b) (ztake k buf) Hs) as Hr.
  destruct (Z.eqb_spec (len - k) 0) as [Hz|Hz]; cbn [negb].
  { rewrite pack_lor_reduced by done. do 3 f_equal. lia. }
  destruct (rem16_loop_spec (S (Z.to_nat len)) (spec_sums (a, b) (ztake k buf))
              (zdrop k buf) (len - k)) as (j & Hj & E).
  { rewrite zlen_zdrop by lia. lia. }
  { lia. }
  rewrite E. clear E. unfold DOn. rewrite <- foldl_app.
  change (ztake (len - k - j) (zdrop j (zdrop k buf)))
    with (zsub j (len - k - j) (zdrop k buf)).
  rewrite <- ztake_add by lia. replace (j + (len - k - j)) with (len - k) by lia.
  match goal with |- context [(fst ?s mod BASE, snd ?s mod BASE)] =>
    change (fst s mod BASE, snd s mod BASE) with (reduce s) end.
  rewrite DO_nmax; [|done|rewrite zlen_ztake, zlen_zdrop by lia; lia].
  rewrite <- spec_sums_app. change (ztake (len - k) (zdrop k buf)) with (zsub k (len - k) buf).
  rewrite <- ztake_add by lia. replace (k + (len - k)) with len by lia.
  by apply pack_lor_reduced, spec_sums_reduced.
Qed.

Lemma urb_adler32_combine_spec (x y : bytes) :
  zlen y < 2 ^ 32 ->
  urb_adler32_combine (adler_spec (1, 0) x) (adler_spec (1, 0) y) (zlen y)
  = adler_spec (1, 0) (x ++ y).
Proof.
  intros Hy. unfold adler_spec. rewrite spec_sums_app.
  assert (R1 : reduced (1, 0)) by (split; done).
  pose proof (spec_sums_reduced (1, 0) x R1) as Hx.
  destruct (spec_sums (1, 0) x) as [a1 b1]. pose proof Hx as [Ha1 Hb1]; cbn [fst snd] in *.
  rewrite (spec_sums_ex (1, 0) y), (spec_sums_ex (a1, b1) y) by done.
  rewrite (ex_linear y 1 0), (ex_linear y a1 b1).
  set (S := fst (ex (0, 0) y)). set (T := snd (ex (0, 0) y)). set (n := zlen y).
  unfold reduce; cbn [fst snd].
  pose proof (Z.mod_pos_bound (1 + S) BASE ltac:(done)) as HS.
  pose proof (Z.mod_pos_bound (0 + n * 1 + T) BASE ltac:(done)) as HT.
  pose proof (Z.mod_pos_bound n BASE ltac:(done)) as Hn.
  assert (HB : BASE <= 65536) by done.
  unfold urb_adler32_combine. rewrite !unpack_low, !unpack_high by lia.
  pose proof (Z.mod_pos_bound (n mod BASE * a1) BASE ltac:(done)) as HP.
  assert (0 <= n mod BASE * a1 < 2 ^ 64) by (unfold BASE in *; nia).
  rewrite (w64_id (n mod BASE * a1)) by done.
  rewrite (w32_id ((1 + S) mod BASE + BASE)), (w32_id ((1 + S) mod BASE + BASE - 1)),
    (w32_id (b1 + _)), (w32_id (b1 + _ + BASE)), (w32_id (b1 + _ + BASE - _)),
    (w64_id (a1 + _)), (w64_id (n mod BASE * a1 mod BASE + _)) by (unfold BASE in *; lia).
  rewrite cond_sub_twice by (unfold BASE in *; lia).
  rewrite cond_sub_four by (unfold BASE in *; lia).
  pose proof (Z.mod_pos_bound (a1 + ((1 + S) mod BASE + BASE - 1)) BASE ltac:(done)).
  set (Y := n mod BASE * a1 mod BASE + _).
  pose proof (Z.mod_pos_bound Y BASE ltac:(done)).
  rewrite w64_id by (rewrite Z.shiftl_mul_pow2; lia).
  rewrite Z.lor_comm, lor_shiftl_add by lia. rewrite w32_id by lia.
  unfold pack; cbn [fst snd]. rewrite Z.add_comm, (Z.mul_comm 65536).
  change (2 ^ 16) with 65536. f_equal; [|f_equal]; subst Y.
  - rewrite <- (Z.mod_add (a1 + S) 1 BASE) by done.
    replace (a1 + ((1 + S) mod BASE + BASE - 1)) with ((a1 + BASE - 1) + (1 + S) mod BASE) by lia.
    rewrite Zplus_mod_idemp_r. f_equal. lia.
  - replace (n mod BASE * a1 mod BASE + (b1 + (0 + n * 1 + T) mod BASE + BASE - n mod BASE))
      with ((n mod BASE * a1 mod BASE + (b1 + BASE - n mod BASE)) + (0 + n * 1 + T) mod BASE) by lia.
    rewrite Zplus_mod_idemp_r, <- Z.add_assoc, Zplus_mod_idemp_l.
    replace (n mod BASE * a1 + (b1 + BASE - n mod BASE + (0 + n * 1 + T)))
      with ((b1 + n * a1 + T) + (n / BASE * (1 - a1) + 1) * BASE).
    + apply Z.mod_add. done.
    + pose proof (Z.div_mod n BASE ltac:(done)). nia.
Qed.

(** ** Main results *)

(** [urb_adler32], with its sums reduced only every NMAX bytes and its
    special cases for one byte and for fewer than 16, computes Adler-32:
    started from the packed sums [s] it returns the packed sums after the [len]
    bytes at [buf], no 32-bit addition having wrapped on the way. *)
Theorem urb_adler32_correct (s : sums) (buf : bytes) (len : Z) :
  reduced s -> 0 <= len <= zlen buf -> len < 2 ^ 32 ->
  urb_adler32 (pack s) (Some buf) len = adler_spec s (ztake len buf).
Proof. apply urb_adler32_spec. Qed.

Lemma urb_adler32_correct_witness :
  urb_adler32 1 (Some (str "Wikipedia")) 9 = adler_spec (1, 0) (str "Wikipedia")
  /\ adler_spec (1, 0) (str "Wikipedia") = 0x11E60398.
Proof.
  split; [|by vm_compute].
  apply (urb_adler32_correct (1, 0) (str "Wikipedia") 9);
    [by vm_compute | by vm_compute | lia].
Defined.

(** [urb_adler32_combine] computes the checksum of a concatenation from the
    checksums of the parts and the length of the second part alone. *)
Theorem urb_adler32_combine_correct (x y : bytes) :
  zlen y < 2 ^ 32 ->
  urb_adler32_combine (adler_spec (1, 0) x) (adler_spec (1, 0) y) (zlen y)
  = adler_spec (1, 0) (x ++ y).
Proof. apply urb_adler32_combine_spec. Qed.

Lemma urb_adler32_combine_correct_witness :
  urb_adler32_combine (adler_spec (1, 0) (str "Wiki")) (adler_spec (1, 0) (str "pedia")) 5
  = adler_spec (1, 0) (str "Wikipedia").
Proof. apply (urb_adler32_combine_correct (str "Wiki") (str "pedia")); by vm_compute. Defined.
