(* ===== verification/Checksum.v ===== *)
(** The checksums of [common/miniz.c]: [mz_adler32] and [mz_crc32].

    [mz_adler32] defers its reductions block by block and is shown to compute
    the Adler-32 sums of Adler.v; [mz_crc32] with its 256-entry table is shown
    to compute the bit-by-bit CRC-32 with the reflected polynomial
    0xEDB88320, also when it is continued over several buffers. *)
From S2P Require Import Prelude Adler.

Definition MZ_ADLER32_INIT : Z := 1.
Definition MZ_CRC32_INIT : Z := 0.

(** ** [mz_adler32] *)

(** [for (i = 0; i + 7 < block_len; i += 8, ptr += 8)]: eight bytes a round. *)
Fixpoint adler_by8 (fuel : nat) (i block_len : Z) (s : sums) (ptr : bytes) : Z * sums * bytes :=
  match fuel with
  | O => (i, s, ptr)
  | S k =>
      if w32 (i + 7) <? block_len then adler_by8 k (w32 (i + 8)) block_len (DOn 8 s ptr) (zdrop 8 ptr)
      else (i, s, ptr)
  end.

(** [while (buf_len)]: a block of [block_len] bytes, then the reduction. *)
Fixpoint adler_blocks (fuel : nat) (block_len buf_len : Z) (s : sums) (ptr : bytes) : sums :=
  match fuel with
  | O => s
  | S k =>
      if buf_len =? 0 then s
      else
        let '(i, s, ptr) := adler_by8 (S (Z.to_nat block_len)) 0 block_len s ptr in
        let s := DOn (block_len - i) s ptr in
        let ptr := zdrop (block_len - i) ptr in
        let s := (fst s mod 65521, snd s mod 65521) in
        adler_blocks k 5552 (buf_len - block_len) s ptr
  end.

(** [ptr = None] is the null pointer. *)
Definition mz_adler32 (adler : Z) (ptr : option bytes) (buf_len : Z) : Z :=
  let s1 := w32 (Z.land adler 0xffff) in
  let s2 := w32 (Z.shiftr adler 16) in
  let block_len := buf_len mod 5552 in
  match ptr with
  | None => MZ_ADLER32_INIT
  | Some ptr =>
      let s := adler_blocks (S (S (Z.to_nat buf_len))) block_len buf_len (s1, s2) ptr in
      w32 (w32 (Z.shiftl (snd s) 16) + fst s)
  end.

(** ** [mz_crc32] *)

Definition s_crc_table : list Z :=
  [0x00000000; 0x77073096; 0xee0e612c; 0x990951ba; 0x076dc419; 0x706af48f; 0xe963a535; 0x9e6495a3;
   0x0edb8832; 0x79dcb8a4; 0xe0d5e91e; 0x97d2d988; 0x09b64c2b; 0x7eb17cbd; 0xe7b82d07; 0x90bf1d91;
   0x1db71064; 0x6ab020f2; 0xf3b97148; 0x84be41de; 0x1adad47d; 0x6ddde4eb; 0xf4d4b551; 0x83d385c7;
   0x136c9856; 0x646ba8c0; 0xfd62f97a; 0x8a65c9ec; 0x14015c4f; 0x63066cd9; 0xfa0f3d63; 0x8d080df5;
   0x3b6e20c8; 0x4c69105e; 0xd56041e4; 0xa2677172; 0x3c03e4d1; 0x4b04d447; 0xd20d85fd; 0xa50ab56b;
   0x35b5a8fa; 0x42b2986c; 0xdbbbc9d6; 0xacbcf940; 0x32d86ce3; 0x45df5c75; 0xdcd60dcf; 0xabd13d59;
   0x26d930ac; 0x51de003a; 0xc8d75180; 0xbfd06116; 0x21b4f4b5; 0x56b3c423; 0xcfba9599; 0xb8bda50f;
   0x2802b89e; 0x5f058808; 0xc60cd9b2; 0xb10be924; 0x2f6f7c87; 0x58684c11; 0xc1611dab; 0xb6662d3d;
   0x76dc4190; 0x01db7106; 0x98d220bc; 0xefd5102a; 0x71b18589; 0x06b6b51f; 0x9fbfe4a5; 0xe8b8d433;
   0x7807c9a2; 0x0f00f934; 0x9609a88e; 0xe10e9818; 0x7f6a0dbb; 0x086d3d2d; 0x91646c97; 0xe6635c01;
   0x6b6b51f4; 0x1c6c6162; 0x856530d8; 0xf262004e; 0x6c0695ed; 0x1b01a57b; 0x8208f4c1; 0xf50fc457;
   0x65b0d9c6; 0x12b7e950; 0x8bbeb8ea; 0xfcb9887c; 0x62dd1ddf; 0x15da2d49; 0x8cd37cf3; 0xfbd44c65;
   0x4db26158; 0x3ab551ce; 0xa3bc0074; 0xd4bb30e2; 0x4adfa541; 0x3dd895d7; 0xa4d1c46d; 0xd3d6f4fb;
   0x4369e96a; 0x346ed9fc; 0xad678846; 0xda60b8d0; 0x44042d73; 0x33031de5; 0xaa0a4c5f; 0xdd0d7cc9;
   0x5005713c; 0x270241aa; 0xbe0b1010; 0xc90c2086; 0x5768b525; 0x206f85b3; 0xb966d409; 0xce61e49f;
   0x5edef90e; 0x29d9c998; 0xb0d09822; 0xc7d7a8b4; 0x59b33d17; 0x2eb40d81; 0xb7bd5c3b; 0xc0ba6cad;
   0xedb88320; 0x9abfb3b6; 0x03b6e20c; 0x74b1d29a; 0xead54739; 0x9dd277af; 0x04db2615; 0x73dc1683;
   0xe3630b12; 0x94643b84; 0x0d6d6a3e; 0x7a6a5aa8; 0xe40ecf0b; 0x9309ff9d; 0x0a00ae27; 0x7d079eb1;
   0xf00f9344; 0x8708a3d2; 0x1e01f268; 0x6906c2fe; 0xf762575d; 0x806567cb; 0x196c3671; 0x6e6b06e7;
   0xfed41b76; 0x89d32be0; 0x10da7a5a; 0x67dd4acc; 0xf9b9df6f; 0x8ebeeff9; 0x17b7be43; 0x60b08ed5;
   0xd6d6a3e8; 0xa1d1937e; 0x38d8c2c4; 0x4fdff252; 0xd1bb67f1; 0xa6bc5767; 0x3fb506dd; 0x48b2364b;
   0xd80d2bda; 0xaf0a1b4c; 0x36034af6; 0x41047a60; 0xdf60efc3; 0xa867df55; 0x316e8eef; 0x4669be79;
   0xcb61b38c; 0xbc66831a; 0x256fd2a0; 0x5268e236; 0xcc0c7795; 0xbb0b4703; 0x220216b9; 0x5505262f;
   0xc5ba3bbe; 0xb2bd0b28; 0x2bb45a92; 0x5cb36a04; 0xc2d7ffa7; 0xb5d0cf31; 0x2cd99e8b; 0x5bdeae1d;
   0x9b64c2b0; 0xec63f226; 0x756aa39c; 0x026d930a; 0x9c0906a9; 0xeb0e363f; 0x72076785; 0x05005713;
   0x95bf4a82; 0xe2b87a14; 0x7bb12bae; 0x0cb61b38; 0x92d28e9b; 0xe5d5be0d; 0x7cdcefb7; 0x0bdbdf21;
   0x86d3d2d4; 0xf1d4e242; 0x68ddb3f8; 0x1fda836e; 0x81be16cd; 0xf6b9265b; 0x6fb077e1; 0x18b74777;
   0x88085ae6; 0xff0f6a70; 0x66063bca; 0x11010b5c; 0x8f659eff; 0xf862ae69; 0x616bffd3; 0x166ccf45;
   0xa00ae278; 0xd70dd2ee; 0x4e048354; 0x3903b3c2; 0xa7672661; 0xd06016f7; 0x4969474d; 0x3e6e77db;
   0xaed16a4a; 0xd9d65adc; 0x40df0b66; 0x37d83bf0; 0xa9bcae53; 0xdebb9ec5; 0x47b2cf7f; 0x30b5ffe9;
   0xbdbdf21c; 0xcabac28a; 0x53b39330; 0x24b4a3a6; 0xbad03605; 0xcdd70693; 0x54de5729; 0x23d967bf;
   0xb3667a2e; 0xc4614ab8; 0x5d681b02; 0x2a6f2b94; 0xb40bbe37; 0xc30c8ea1; 0x5a05df1b; 0x2d02ef8d].

(** [crc32 = (crc32 >> 8) ^ s_crc_table[(crc32 ^ byte) & 0xFF]]. *)
Definition crc_table_step (crc : Z) (c : char) : Z :=
  Z.lxor (Z.shiftr crc 8) (znth 0 s_crc_table (Z.land (Z.lxor crc (u8 c)) 0xff)).

(** [while (buf_len >= 4)]: four bytes a round. *)
Fixpoint crc_by4 (crc : Z) (p : bytes) : Z * bytes :=
  match p with
  | a :: b :: c :: d :: p' =>
      crc_by4 (crc_table_step (crc_table_step (crc_table_step (crc_table_step crc a) b) c) d) p'
  | _ => (crc, p)
  end.

(** The buffer [ptr] with [buf_len] its length; the final [~crc32] is taken on
    32 bits. *)
Definition mz_crc32 (crc : Z) (ptr : bytes) : Z :=
  let crc32 := Z.lxor (w32 crc) 0xffffffff in
  let '(crc32, rest) := crc_by4 crc32 ptr in
  let crc32 := foldl crc_table_step crc32 rest in
  Z.lxor crc32 0xffffffff.

(** ** The specification of the CRC *)

Definition crc_poly : Z := 0xedb88320.
(** One bit: shift out, and subtract the polynomial when the bit was set. *)
Definition crc_bit (c : Z) : Z := Z.lxor (Z.shiftr c 1) (if Z.odd c then crc_poly else 0).
Definition crc_byte (crc : Z) (c : char) : Z := Nat.iter 8 crc_bit (Z.lxor crc (u8 c)).
(** The CRC-32 of [l], continued from the CRC [c]. *)
Definition crc32_spec (c : Z) (l : bytes) : Z :=
  Z.lxor (foldl crc_byte (Z.lxor c 0xffffffff) l) 0xffffffff.
(** ** Adler-32 *)

Lemma adler_by8_spec fuel : forall i block_len s ptr,
  0 <= i <= block_len -> block_len <= 5552 -> block_len - i <= zlen ptr -> block_len - i < Z.of_nat fuel ->
  exists k, 0 <= k <= block_len - i /\
    adler_by8 fuel i block_len s ptr = (i + k, foldl DO1 s (ztake k ptr), zdrop k ptr).
Proof.
  induction fuel as [|fuel IH]; intros i n s ptr Hi Hn Hp Hf; [lia|]. cbn [adler_by8].
  rewrite !w32_id by lia. destruct (Z.ltb_spec (i + 7) n) as [H|H].
  - destruct (IH (i + 8) n (DOn 8 s ptr) (zdrop 8 ptr)) as (k & Hk & E); [lia|lia| |lia|].
    { rewrite zlen_zdrop by lia. lia. }
    exists (8 + k). split; [lia|]. rewrite E, zdrop_zdrop, ztake_add by lia.
    unfold DOn, zsub. rewrite foldl_app. do 2 f_equal. lia.
  - exists 0. split; [lia|]. by rewrite Z.add_0_r, ztake_0, zdrop_0.
Qed.

Lemma adler_block_spec (block_len : Z) s ptr :
  reduced s -> 0 <= block_len <= 5552 -> block_len <= zlen ptr ->
  let '(i, s', ptr') := adler_by8 (S (Z.to_nat block_len)) 0 block_len s ptr in
  reduce (DOn (block_len - i) s' ptr') = spec_sums s (ztake block_len ptr) /\
  zdrop (block_len - i) ptr' = zdrop block_len ptr.
Proof.
  intros Hs Hb Hp. destruct (adler_by8_spec (S (Z.to_nat block_len)) 0 block_len s ptr)
    as (k & Hk & ->); [lia..|]. rewrite Z.sub_0_r in Hk. rewrite Z.add_0_l.
  rewrite zdrop_zdrop by lia. replace (k + (block_len - k)) with block_len by lia.
  split; [|done]. unfold DOn.
  rewrite <- foldl_app. change (ztake (block_len - k) (zdrop k ptr)) with (zsub k (block_len - k) ptr).
  rewrite <- ztake_add by lia. replace (k + (block_len - k)) with block_len by lia.
  apply DO_nmax; [done|]. rewrite zlen_ztake by lia. unfold NMAX. lia.
Qed.

Lemma adler_blocks_spec fuel : forall block_len buf_len s ptr,
  reduced s -> 0 <= block_len <= buf_len -> block_len <= 5552 -> (5552 | buf_len - block_len) ->
  buf_len <= zlen ptr -> buf_len + (if block_len =? 5552 then 0 else 1) < Z.of_nat fuel ->
  adler_blocks fuel block_len buf_len s ptr = spec_sums s (ztake buf_len ptr).
Proof.
  induction fuel as [|fuel IH]; intros bl n s ptr Hs Hb Hb' [q Hq] Hp Hf; [by zcase; lia|].
  cbn [adler_blocks]. destruct (Z.eqb_spec n 0) as [->|Hn]; [by rewrite ztake_0|].
  pose proof (adler_block_spec bl s ptr Hs) as B.
  destruct (adler_by8 _ _ _ _ _) as [[i s'] ptr'].
  destruct B as [B1 B2]; [lia..|]. unfold reduce, BASE in B1. rewrite B1, B2.
  destruct (decide (n = bl)) as [->|Hne].
  - rewrite Z.sub_diag. destruct fuel; [|done]. cbn [adler_blocks]. done.
  - rewrite IH.
    + rewrite <- spec_sums_app. change (ztake (n - bl) (zdrop bl ptr)) with (zsub bl (n - bl) ptr).
      rewrite <- ztake_add by lia. do 2 f_equal. lia.
    + by apply spec_sums_reduced.
    + nia.
    + lia.
    + exists (q - 1). lia.
    + rewrite zlen_zdrop by lia. lia.
    + cbn [Z.eqb Pos.eqb]. revert Hf. zcase; lia.
Qed.

Lemma pack_sum (s : sums) : reduced s -> w32 (w32 (Z.shiftl (snd s) 16) + fst s) = pack s.
Proof.
  destruct s as [a b]. intros [Ha Hb]. unfold BASE, pack in *. cbn [fst snd] in *.
  rewrite Z.shiftl_mul_pow2 by lia. rewrite (w32_id (b * _)) by lia. rewrite w32_id by lia. lia.
Qed.

Lemma mz_adler32_spec (s : sums) (buf : bytes) :
  reduced s -> mz_adler32 (pack s) (Some buf) (zlen buf) = adler_spec s buf.
Proof.
  intros Hs. pose proof (zlen_nonneg buf). unfold mz_adler32.
  assert (E1 : w32 (Z.land (pack s) 0xffff) = fst s).
  { destruct s as [a b], Hs as [Ha Hb]. unfold BASE in *. cbn [fst snd] in *.
    rewrite unpack_low by lia. apply w32_id. lia. }
  assert (E2 : w32 (Z.shiftr (pack s) 16) = snd s).
  { destruct s as [a b], Hs as [Ha Hb]. unfold BASE, pack in *. cbn [fst snd] in *.
    rewrite Z.shiftr_div_pow2 by lia. change (2 ^ 16) with 65536.
    rewrite (Z.mul_comm 65536), Z.div_add, Z.div_small, Z.add_0_l by lia. apply w32_id. lia. }
  rewrite E1, E2. rewrite <- surjective_pairing.
  assert (B : 0 <= zlen buf mod 5552 < 5552) by (apply Z.mod_pos_bound; lia).
  rewrite adler_blocks_spec.
  - rewrite ztake_ge by lia. apply pack_sum. by apply spec_sums_reduced.
  - done.
  - split; [lia|]. apply Z.mod_le; lia.
  - lia.
  - exists (zlen buf / 5552). pose proof (Z.div_mod (zlen buf) 5552). lia.
  - lia.
  - zcase; lia.
Qed.

(** ** CRC-32 *)

Lemma crc_bit_lxor x y : crc_bit (Z.lxor x y) = Z.lxor (crc_bit x) (crc_bit y).
Proof.
  unfold crc_bit. rewrite Z.shiftr_lxor, <- !Z.bit0_odd, Z.lxor_spec.
  apply Z.bits_inj'. intros n Hn. rewrite !Z.lxor_spec.
  destruct (Z.testbit x 0), (Z.testbit y 0); cbn [xorb]; rewrite ?Z.bits_0;
    destruct (Z.testbit (Z.shiftr x 1) n), (Z.testbit (Z.shiftr y 1) n), (Z.testbit crc_poly n); done.
Qed.
Lemma crc_bits_lxor k x y :
  Nat.iter k crc_bit (Z.lxor x y) = Z.lxor (Nat.iter k crc_bit x) (Nat.iter k crc_bit y).
Proof. induction k as [|k IH]; [done|]. rewrite !Nat.iter_succ, IH. apply crc_bit_lxor. Qed.

Lemma crc_bits_shiftl k : forall x, Nat.iter k crc_bit (Z.shiftl x (Z.of_nat k)) = x.
Proof.
  induction k as [|k IH]; intros x; [by rewrite Z.shiftl_0_r|]. rewrite Nat.iter_succ.
  replace (Z.of_nat (S k)) with (1 + Z.of_nat k) by lia. rewrite <- Z.shiftl_shiftl, IH by lia.
  unfold crc_bit. rewrite Z.shiftl_mul_pow2 by lia. change (2 ^ 1) with 2.
  rewrite Z.mul_comm, Z.odd_mul. cbn [Z.odd andb]. rewrite Z.lxor_0_r, Z.shiftr_div_pow2 by lia.
  rewrite Z.mul_comm. apply Z.div_mul. lia.
Qed.

(** Every entry of the table is the CRC of its index. *)
Lemma crc_table_ok i : 0 <= i < 256 -> znth 0 s_crc_table i = Nat.iter 8 crc_bit i.
Proof.
  intros Hi.
  assert (F : forallb (fun k => znth 0 s_crc_table (Z.of_nat k) =? Nat.iter 8 crc_bit (Z.of_nat k))
                (seq 0 256) = true) by (vm_compute; reflexivity).
  rewrite forallb_forall in F. specialize (F (Z.to_nat i)). rewrite Z2Nat.id in F by lia.
  apply Z.eqb_eq, F, in_seq. lia.
Qed.

Lemma low_high_lxor x : x = Z.lxor (Z.shiftl (Z.shiftr x 8) 8) (Z.land x 0xff).
Proof.
  apply Z.bits_inj'. intros n Hn. rewrite Z.lxor_spec, Z.land_spec.
  change 0xff with (Z.ones 8). destruct (Z.lt_ge_cases n 8).
  - rewrite Z.shiftl_spec_low, Z.ones_spec_low by lia. cbn [xorb]. by rewrite andb_true_r; destruct (Z.testbit x n).
  - rewrite Z.shiftl_spec_high, Z.shiftr_spec, Z.ones_spec_high, andb_false_r by lia.
    rewrite xorb_false_r. f_equal. lia.
Qed.

Lemma crc_table_step_spec crc c : crc_table_step crc c = crc_byte crc c.
Proof.
  unfold crc_table_step, crc_byte. set (x := Z.lxor crc (u8 c)).
  assert (E : Z.shiftr crc 8 = Z.shiftr x 8).
  { unfold x. rewrite Z.shiftr_lxor, (Z.shiftr_div_pow2 (u8 c)) by lia.
    pose proof (u8_range c). rewrite (Z.div_small (u8 c)) by lia. by rewrite Z.lxor_0_r. }
  rewrite E, crc_table_ok.
  - rewrite (low_high_lxor x) at 3. rewrite crc_bits_lxor. f_equal. symmetry. apply (crc_bits_shiftl 8).
  - change 0xff with (2 ^ 8 - 1). rewrite land_mask by lia. apply Z.mod_pos_bound. lia.
Qed.

Lemma crc_fold_spec l crc : foldl crc_table_step crc l = foldl crc_byte crc l.
Proof. revert crc. induction l as [|c l IH]; intros crc; cbn [foldl]; [done|]. by rewrite crc_table_step_spec. Qed.

Lemma crc_by4_spec n : forall p crc, (length p < n)%nat ->
  let '(crc', rest) := crc_by4 crc p in foldl crc_table_step crc' rest = foldl crc_table_step crc p.
Proof.
  induction n as [|n IH]; intros p crc H; [lia|].
  destruct p as [|a [|b [|c [|d p]]]]; try done. cbn [crc_by4 foldl].
  apply (IH p). cbn [length] in H. lia.
Qed.

Lemma mz_crc32_eq crc ptr : 0 <= crc < 2 ^ 32 -> mz_crc32 crc ptr = crc32_spec crc ptr.
Proof.
  intros H. unfold mz_crc32, crc32_spec. rewrite w32_id by done.
  pose proof (crc_by4_spec (S (length ptr)) ptr (Z.lxor crc 0xffffffff)) as E.
  destruct (crc_by4 _ _) as [crc' rest]. rewrite E, crc_fold_spec by lia. done.
Qed.

Lemma crc32_spec_app c a b : crc32_spec (crc32_spec c a) b = crc32_spec c (a ++ b).
Proof.
  unfold crc32_spec. rewrite Z.lxor_assoc, Z.lxor_nilpotent, Z.lxor_0_r. by rewrite foldl_app.
Qed.

Lemma log2_lt_width a k : 0 < k -> 0 <= a < 2 ^ k -> Z.log2 a < k.
Proof. intros Hk Ha. destruct (decide (a = 0)) as [->|]; [done|]. apply Z.log2_lt_pow2; lia. Qed.
Lemma lxor_range a b k : 0 < k -> 0 <= a < 2 ^ k -> 0 <= b < 2 ^ k -> 0 <= Z.lxor a b < 2 ^ k.
Proof.
  intros Hk Ha Hb. split; [apply Z.lxor_nonneg; lia|].
  destruct (Z.eq_dec (Z.lxor a b) 0) as [->|Hn]; [lia|].
  assert (0 < Z.lxor a b) by (pose proof (proj2 (Z.lxor_nonneg a b)); lia).
  apply Z.log2_lt_pow2; [done|]. pose proof (Z.log2_lxor a b).
  pose proof (log2_lt_width a k). pose proof (log2_lt_width b k). lia.
Qed.

Lemma crc_bit_range c : 0 <= c < 2 ^ 32 -> 0 <= crc_bit c < 2 ^ 32.
Proof.
  intros H. unfold crc_bit. apply lxor_range; [lia| |].
  - rewrite Z.shiftr_div_pow2 by lia. change (2 ^ 1) with 2. split; [apply Z.div_pos; lia|].
    apply Z.le_lt_trans with c; [|lia]. apply Z.div_le_upper_bound; lia.
  - destruct (Z.odd c); vm_compute; split; congruence.
Qed.
Lemma crc_byte_range crc c : 0 <= crc < 2 ^ 32 -> 0 <= crc_byte crc c < 2 ^ 32.
Proof.
  intros H. unfold crc_byte. assert (H0 : 0 <= Z.lxor crc (u8 c) < 2 ^ 32).
  { apply lxor_range; [lia|done|]. pose proof (u8_range c). lia. }
  revert H0. generalize (Z.lxor crc (u8 c)). generalize 8%nat as k.
  induction k as [|k IH]; intros z Hz; [done|]. rewrite Nat.iter_succ. by apply crc_bit_range, IH.
Qed.
Lemma crc32_spec_range c l : 0 <= c < 2 ^ 32 -> 0 <= crc32_spec c l < 2 ^ 32.
Proof.
  intros H. unfold crc32_spec. apply lxor_range; [lia| |lia].
  assert (H0 : 0 <= Z.lxor c 0xffffffff < 2 ^ 32) by (apply lxor_range; lia).
  revert H0. generalize (Z.lxor c 0xffffffff).
  induction l as [|x l IH]; intros z Hz; cbn [foldl]; [done|]. by apply IH, crc_byte_range.
Qed.
Lemma mz_crc32_range c l : 0 <= c < 2 ^ 32 -> 0 <= mz_crc32 c l < 2 ^ 32.
Proof. intros. rewrite mz_crc32_eq by done. by apply crc32_spec_range. Qed.

(** Known values: the check string of the standard, and the empty string. *)
Example crc32_check : mz_crc32 0 (str "123456789") = 0xcbf43926 /\ mz_crc32 0 [] = 0.
Proof. by vm_compute. Qed.

(** C29: miniz's checksums.  [mz_adler32] started from packed sums computes the
    Adler-32 sums of the buffer, and [mz_crc32] the bit-by-bit CRC-32; both can
    be continued: the result for the first part of a buffer, given as the start
    value for the second part, yields the result for the whole. *)
Theorem mz_checksums_correct (s : sums) (crc : Z) (a b : bytes) :
  reduced s -> 0 <= crc < 2 ^ 32 ->
  mz_adler32 (pack s) (Some a) (zlen a) = adler_spec s a /\
  mz_crc32 crc a = crc32_spec crc a /\
  mz_adler32 (mz_adler32 (pack s) (Some a) (zlen a)) (Some b) (zlen b)
    = mz_adler32 (pack s) (Some (a ++ b)) (zlen (a ++ b)) /\
  mz_crc32 (mz_crc32 crc a) b = mz_crc32 crc (a ++ b).
Proof.
  intros Hs Hc. split; [by apply mz_adler32_spec|]. split; [by apply mz_crc32_eq|]. split.
  - rewrite (mz_adler32_spec s a), (mz_adler32_spec s (a ++ b)) by done. unfold adler_spec.
    rewrite mz_adler32_spec by by apply spec_sums_reduced. unfold adler_spec. by rewrite spec_sums_app.
  - rewrite !mz_crc32_eq, crc32_spec_app; try done. by apply mz_crc32_range.
Qed.
Lemma mz_checksums_correct_witness :
  mz_crc32 (mz_crc32 0 (str "1234")) (str "56789") = 0xcbf43926 /\
  mz_adler32 (pack (1, 0)) (Some (str "Wikipedia")) 9 = 0x11e60398.
Proof.
  destruct (mz_checksums_correct (1, 0) 0 (str "1234") (str "56789")) as (_ & _ & _ & E); [done|done|].
  split; [rewrite E; by vm_compute|]. by vm_compute.
Defined.
