(* ===== verification/StringTools.v ===== *)
(** String helpers: [stringtools.cpp].

    [std::string] is a list of characters; [std::string::npos] is [npos].  The
    conversions of numbers ([ostringstream << i], [atoll], [strtoll]) are the
    decimal printing and the C library parsing of 64-bit integers.  Positions the
    source keeps in [int] assume strings shorter than 2^31. *)
From stdpp Require Import gmap strings.
From S2P Require Import Prelude Bits.

Definition npos : Z := 2 ^ 64 - 1.

(** [next(pData, doff, pStr)]: does [pStr] stand at [doff]? *)
Fixpoint starts_with (pData pStr : bytes) : bool :=
  match pStr, pData with
  | [], _ => true
  | _ :: _, [] => false
  | p :: ps, d :: ds => ceq d p && starts_with ds ps
  end.
Definition next (pData : bytes) (doff : Z) (pStr : bytes) : bool :=
  starts_with (zdrop doff pData) pStr.

(** [data.find(str, off)]. *)
Fixpoint find_from (s data : bytes) (off : Z) : Z :=
  if starts_with data s then off
  else match data with
       | [] => npos
       | _ :: d => find_from s d (off + 1)
       end.
Definition find (data s : bytes) (off : Z) : Z :=
  if zlen data <? off then npos else find_from s (zdrop off data) off.

Definition getafterinc (s data : bytes) : bytes :=
  let pos := find data s 0 in
  if negb (pos =? npos) then zdrop pos data else [].

Definition getafter (s data : bytes) : bytes := zdrop (zlen s) (getafterinc s data).

Definition getbetween (s1 s2 data : bytes) : bytes :=
  let off1 := find data s1 0 in
  if off1 =? npos then [] else
  let off1 := off1 + zlen s1 in
  let off2 := find data s2 off1 in
  let off2 :=
    if bool_decide (s2 = ["010"%char]) then
      let off3 := find data ["013"%char; "010"%char] off1 in
      if off3 <? off2 then off3 else off2
    else off2 in
  if off2 =? npos then [] else zsub off1 (off2 - off1) data.

Definition strdelete (s data : bytes) : bytes :=
  let off := find data s 0 in
  if off =? npos then data else ztake off data ++ zdrop (off + zlen s) data.

Definition getuntil (s data : bytes) : bytes :=
  let off := find data s 0 in
  if off =? npos then [] else ztake off data.

Definition getuntilinc (s data : bytes) : bytes :=
  let off := find data s 0 in
  if off =? npos then [] else ztake (off + zlen s) data.

(** The loop of [getline]: [num] lines passed so far, [tl] collected. *)
Fixpoint getline_loop (line num : Z) (tl s : bytes) : bytes :=
  match s with
  | [] => tl
  | c :: s =>
      if ceq c "010"%char && (num =? line) then tl
      else
        let num := if ceq c "010"%char then num + 1 else num in
        let tl := if negb (ceq c "010"%char) && negb (ceq c "013"%char) && (num =? line)
                  then tl ++ [c] else tl in
        getline_loop line num tl s
  end.
Definition getline (line : Z) (s : bytes) : bytes := getline_loop line 0 [] s.

Fixpoint linecount_loop (s : bytes) (lines : Z) : Z :=
  match s with
  | [] => lines
  | c :: s => linecount_loop s (if ceq c "010"%char then lines + 1 else lines)
  end.
Definition linecount (s : bytes) : Z := linecount_loop s 0 + 1.

Definition mem (c : char) (s : bytes) : bool := existsb (ceq c) s.

(** The loop of [ExtractFileName] from the last character backwards; [last] is
    [i == length - 1]. *)
Fixpoint extract_name_loop (separators : bytes) (rfulln : bytes) (last : bool) (filename : bytes)
  : bytes :=
  match rfulln with
  | [] => filename
  | c :: r =>
      let separator := mem c separators in
      if separator && negb last then filename
      else
        let filename := if negb (ceq c nul) && negb separator then c :: filename else filename in
        extract_name_loop separators r false filename
  end.
Definition ExtractFileName (fulln separators : bytes) : bytes :=
  extract_name_loop separators (rev fulln) true [].

Fixpoint extract_path_loop (separators : bytes) (r : bytes) (inn : bool) (path : bytes) : bytes :=
  match r with
  | [] => path
  | c :: r =>
      if mem c separators && negb inn then extract_path_loop separators r true path
      else if inn then extract_path_loop separators r inn (c :: path)
      else extract_path_loop separators r inn path
  end.
(** The loop starts at [length - 2]. *)
Definition ExtractFilePath (fulln separators : bytes) : bytes :=
  extract_path_loop separators (tail (rev fulln)) false [].

Definition convert_bool (b : bool) : bytes := if b then str "true" else str "false".

(** [ostringstream << i]: 20 digits hold every 64-bit value. *)
Fixpoint dec_digits (fuel : nat) (n : Z) (acc : bytes) : bytes :=
  match fuel with
  | O => acc
  | S k => let acc := chr (48 + n mod 10) :: acc in
           if n / 10 =? 0 then acc else dec_digits k (n / 10) acc
  end.
Definition convert (i : Z) : bytes :=
  if i <? 0 then "-"%char :: dec_digits 20 (- i) [] else dec_digits 20 i [].

(** C's [isspace] in the "C" locale. *)
Definition isspace (c : char) : bool := ceq c " "%char || ((9 <=? u8 c) && (u8 c <=? 13)).
Definition isdigit (c : char) : bool := (48 <=? u8 c) && (u8 c <=? 57).
Fixpoint skip_space (s : bytes) : bytes :=
  match s with c :: t => if isspace c then skip_space t else s | [] => [] end.
Fixpoint dec_val (s : bytes) (acc : Z) : Z :=
  match s with
  | c :: t => if isdigit c then dec_val t (acc * 10 + (u8 c - 48)) else acc
  | [] => acc
  end.
(** [strtoll(s, NULL, 10)] / [atoll], saturating at the ends of the type. *)
Definition clamp64 (x : Z) : Z := Z.max (- 2 ^ 63) (Z.min (2 ^ 63 - 1) x).
Definition watoi64 (s : bytes) : Z :=
  match skip_space s with
  | c :: t =>
      if ceq c "-"%char then clamp64 (- dec_val t 0)
      else if ceq c "+"%char then clamp64 (dec_val t 0)
      else clamp64 (dec_val (c :: t) 0)
  | [] => 0
  end.

Fixpoint findextension_loop (r : bytes) (temp : bytes) : bytes :=
  match r with
  | [] => temp
  | c :: r => if negb (ceq c "."%char) then findextension_loop r (temp ++ [c]) else temp
  end.
Definition findextension (s : bytes) : bytes := rev (findextension_loop (rev s) []).

Definition replaceonce (tor tin data : bytes) : bytes :=
  let off := find data tor 0 in
  if negb (off =? npos) then ztake off data ++ tin ++ zdrop (off + zlen tor) data else data.

(** [str.find_first_of(seps, pos)]. *)
Fixpoint find_first_of_from (seps s : bytes) (off : Z) : Z :=
  match s with
  | [] => npos
  | c :: s => if mem c seps then off else find_first_of_from seps s (off + 1)
  end.
Definition find_first_of (s seps : bytes) (pos : Z) : Z :=
  find_first_of_from seps (zdrop pos s) pos.

Fixpoint tokenize_loop (fuel : nat) (s seps : bytes) (pos0 : Z) (tokens : list bytes)
  : list bytes :=
  match fuel with
  | O => tokens
  | S k =>
      let pos1 := find_first_of s seps pos0 in
      if pos1 =? npos then
        let nt := zdrop pos0 s in
        match nt with [] => tokens | _ => tokens ++ [nt] end
      else
        let tokens :=
          if pos1 =? pos0 then tokens ++ [[]] else tokens ++ [zsub pos0 (pos1 - pos0) s] in
        tokenize_loop k s seps (pos1 + 1) tokens
  end.
(** One round per separator, then the rest. *)
Definition Tokenize (s seps : bytes) : list bytes :=
  tokenize_loop (S (length s)) s seps 0 [].

Definition str_isnumber (ch : char) : bool := (48 <=? u8 ch) && (u8 ch <=? 57).

(** [toupper]/[tolower] on 7-bit characters. *)
Definition toupper (c : char) : char :=
  if (97 <=? u8 c) && (u8 c <=? 122) then chr (u8 c - 32) else c.
Definition tolower (c : char) : char :=
  if (65 <=? u8 c) && (u8 c <=? 90) then chr (u8 c + 32) else c.
Definition isletter (ch : char) : bool :=
  let ch := toupper ch in (u8 ch <=? 90) && (65 <=? u8 ch).

(** The scan of [greplace]: after a replacement the scan goes on behind the
    inserted text, so only the suffix not yet scanned matters. *)
Fixpoint greplace_loop (fuel : nat) (tor tin data : bytes) : bytes :=
  match fuel, data with
  | O, _ => data
  | _, [] => []
  | S k, c :: d =>
      if starts_with data tor then tin ++ greplace_loop k tor tin (zdrop (zlen tor) data)
      else c :: greplace_loop k tor tin d
  end.
Definition greplace (tor tin data : bytes) : bytes := greplace_loop (length data) tor tin data.

(** ** SQL, parameter and HTML escaping *)

Fixpoint EscapeSQLString (s : bytes) : bytes :=
  match s with
  | [] => []
  | c :: s => if ceq c "'"%char then "'"%char :: "'"%char :: EscapeSQLString s
              else c :: EscapeSQLString s
  end.

(** The scan with [++i] inside the first branch. *)
Fixpoint UnescapeSQLString (s : bytes) : bytes :=
  match s with
  | [] => []
  | c :: t =>
      match t with
      | d :: t' => if ceq c "'"%char && ceq d "'"%char then "'"%char :: UnescapeSQLString t'
                   else c :: UnescapeSQLString t
      | [] => [c]
      end
  end.

Definition escape_param_char (c : char) : bytes :=
  if ceq c "%"%char then str "%25"
  else if ceq c "&"%char then str "%26"
  else if ceq c "$"%char then str "%24"
  else if ceq c "/"%char then str "%2F"
  else if ceq c " "%char then str "%20"
  else if ceq c "#"%char then str "%23"
  else if ceq c "+"%char then str "%2B"
  else if ceq c "010"%char then str "%0A"
  else if ceq c "013"%char then str "%0D"
  else [c].
Fixpoint EscapeParamString (s : bytes) : bytes :=
  match s with [] => [] | c :: s => escape_param_char c ++ EscapeParamString s end.

Definition escape_path_char (c : char) : bytes :=
  if ceq c "%"%char then str "%25"
  else if ceq c "/"%char then str "%2F"
  else if ceq c "|"%char then str "%7C"
  else if ceq c ";"%char then str "%3B"
  else [c].
Fixpoint EscapePathParamString (s : bytes) : bytes :=
  match s with [] => [] | c :: s => escape_path_char c ++ EscapePathParamString s end.

(** [EscapeCh]: a [ch] is inserted in front of every [ch]. *)
Fixpoint EscapeCh (s : bytes) (ch : char) : bytes :=
  match s with
  | [] => []
  | c :: s => if ceq c ch then ch :: c :: EscapeCh s ch else c :: EscapeCh s ch
  end.

Definition hexnum_array : bytes := str "0123456789abcdef".

(** The inner loop of [hexToULong] over the 16 digits. *)
Fixpoint hex_digit_loop (c : char) (js : bytes) (j ret : Z) : Z :=
  match js with
  | [] => ret
  | h :: js => hex_digit_loop c js (j + 1) (if ceq c h then w64 (ret * 16 + j) else ret)
  end.

Definition byteToHex (ch : Z) : bytes :=
  [znth nul hexnum_array (ch / 16); znth nul hexnum_array (ch mod 16)].
Definition bytesToHex (b : bytes) : bytes := concat (map (fun c => byteToHex (u8 c)) b).

Definition IsHex (s : bytes) : bool := forallb (fun c => mem c hexnum_array) s.

(** [std::map<std::string, std::string>]. *)
Abbreviation str_map := (gmap (list ascii) (list ascii)).

Section Hex.
(** [strlower_utf8] (the UTF-8 case mapping of the C library's locale) is used
    on strings with a byte above 127 only. *)
Variable strlower_utf8 : bytes -> bytes.

Definition strlower (s : bytes) : bytes :=
  if existsb (fun c => 128 <=? u8 c) s then strlower_utf8 s else map tolower s.

Definition hexToULong (data : bytes) : Z :=
  foldl (fun ret c => hex_digit_loop c hexnum_array 0 ret) 0 (strlower data).

(** [ret[i/2] = hexToULong(data.substr(i, 2))] for [i = 0, 2, ..]; on a string
    of odd length the last write is past the end of [ret] (the terminator). *)
Fixpoint hexToBytes (data : bytes) : bytes :=
  match data with
  | a :: b :: data => chr (hexToULong [a; b]) :: hexToBytes data
  | _ => []
  end.

Fixpoint UnescapeParamString (s : bytes) : bytes :=
  match s with
  | [] => []
  | c :: t =>
      match t with
      | a :: b :: t' =>
          if ceq c "%"%char then
            let ch := chr (hexToULong [a; b]) in
            if negb (ceq ch nul) then ch :: UnescapeParamString t' else UnescapeParamString t'
          else c :: UnescapeParamString t
      | _ => c :: UnescapeParamString t
      end
  end.

(** [htmldecode(str, html=false, xc)]. *)
Fixpoint htmldecode (s : bytes) (xc : char) : bytes :=
  match s with
  | [] => []
  | c :: t =>
      let other := (if ceq c "+"%char then " "%char else c) :: htmldecode t xc in
      match t with
      | a :: b :: t' =>
          if ceq c xc then
            let ch := chr (hexToULong [a; b]) in
            if negb (ceq ch nul) then ch :: htmldecode t' xc else htmldecode t' xc
          else other
      | _ => other
      end
  end.

(** [std::map::insert] leaves an existing key alone. *)
Definition map_insert (m : str_map) (k v : bytes) : str_map :=
  match m !! k with Some _ => m | None => <[k := v]> m end.

Definition param_value (value : bytes) (escape_params : bool) : bytes :=
  let wv := htmldecode value "%"%char in
  if escape_params then EscapeSQLString wv else wv.

Fixpoint parse_params_loop (s : bytes) (pos : bool) (key value : bytes) (m : str_map)
         (escape_params : bool) : str_map :=
  match s with
  | [] =>
      if (0 <? zlen value) || (0 <? zlen key)
      then map_insert m key (param_value value escape_params) else m
  | ch :: s =>
      if ceq ch "="%char && negb pos then
        parse_params_loop s true key value m escape_params
      else if (ceq ch "&"%char || ceq ch "$"%char) && pos then
        parse_params_loop s false [] []
          (map_insert m key (param_value value escape_params)) escape_params
      else if negb pos then
        parse_params_loop s pos (key ++ [ch]) value m escape_params
      else parse_params_loop s pos key (value ++ [ch]) m escape_params
  end.
Definition ParseParamStrHttp (s : bytes) (m : str_map) (escape_params : bool) : str_map :=
  parse_params_loop s false [] [] m escape_params.
End Hex.

Definition checkhtml (s : bytes) : bool :=
  forallb (fun ch => negb (ceq ch "<"%char || ceq ch ">"%char || ceq ch "&"%char)) s.

Definition checkStringHTML (s : bytes) : bool :=
  forallb (fun ch =>
    let ch := u8 ch in
    ((48 <=? ch) && (ch <=? 57)) || ((65 <=? ch) && (ch <=? 90)) ||
    ((97 <=? ch) && (ch <=? 122)) || ((ch =? 95) || (ch =? 46) || (ch =? 45))) s.

Definition ReplaceChar (s : bytes) (tr ch : char) : bytes :=
  map (fun c => if ceq c tr then ch else c) s.

Fixpoint striptags_loop (s : bytes) (inn : bool) : bytes :=
  match s with
  | [] => []
  | c :: s =>
      let inn := if ceq c "<"%char then true else inn in
      if ceq c ">"%char then striptags_loop s false
      else if negb inn then c :: striptags_loop s inn
      else striptags_loop s inn
  end.
Definition striptags (html : bytes) : bytes := striptags_loop html false.

Fixpoint EscapeHTML (html : bytes) : bytes :=
  match html with
  | [] => []
  | c :: s =>
      (if ceq c "<"%char then str "&lt;"
       else if ceq c ">"%char then str "&gt;"
       else if ceq c "&"%char then str "&amp;"
       else if ceq c "034"%char then str "&quot;"
       else if ceq c "'"%char then str "&#x27;"
       else if ceq c "/"%char then str "&#x2F;"
       else [c]) ++ EscapeHTML s
  end.

Definition UnescapeHTML (html : bytes) : bytes :=
  let ret := greplace (str "&amp;") (str "&") html in
  let ret := greplace (str "&lt;") (str "<") ret in
  let ret := greplace (str "&gt;") (str ">") ret in
  let ret := greplace (str "&quot;") ["034"%char] ret in
  let ret := greplace (str "&#x27;") (str "'") ret in
  greplace (str "&#x2F;") (str "/") ret.

Definition CheckForIllegalChars (s : bytes) : bool := forallb (fun c => negb (ceq c nul)) s.

(** [trim]: between the first and the last character not in [ \r\n\t]. *)
Definition blank (c : char) : bool :=
  ceq c " "%char || ceq c "013"%char || ceq c "010"%char || ceq c "009"%char.
Fixpoint drop_blank (s : bytes) : bytes :=
  match s with c :: t => if blank c then drop_blank t else s | [] => [] end.
Definition trim (s : bytes) : bytes := rev (drop_blank (rev (drop_blank s))).

Definition replaceNonAlphaNumeric (s : bytes) (rch : char) : bytes :=
  map (fun c => if negb (isletter c) && negb (str_isnumber c) then rch else c) s.

Definition conv_filename (fn : bytes) : bytes :=
  map (fun ch => if mem ch (str ":|&\/?*" ++ ["034"%char] ++ str "<>") then "_"%char else ch) fn.

(** ** Base64 *)

Definition base64_chars : bytes :=
  str "ABCDEFGHIJKLMNOPQRSTUVWXYZabcdefghijklmnopqrstuvwxyz0123456789+/".

Definition isalnum (c : char) : bool :=
  ((48 <=? u8 c) && (u8 c <=? 57)) || ((65 <=? u8 c) && (u8 c <=? 90)) ||
  ((97 <=? u8 c) && (u8 c <=? 122)).
Definition is_base64 (c : char) : bool := isalnum c || ceq c "+"%char || ceq c "/"%char.

(** [char_array_4] from [char_array_3]. *)
Definition b64_group (a b c : Z) : list Z :=
  [Z.shiftr (Z.land a 0xfc) 2;
   Z.shiftl (Z.land a 0x03) 4 + Z.shiftr (Z.land b 0xf0) 4;
   Z.shiftl (Z.land b 0x0f) 2 + Z.shiftr (Z.land c 0xc0) 6;
   Z.land c 0x3f].
Definition b64_char (i : Z) : char := znth nul base64_chars i.

Fixpoint base64_encode_loop (s : bytes) (arr3 : list Z) (ret : bytes) : list Z * bytes :=
  match s with
  | [] => (arr3, ret)
  | c :: s =>
      let arr3 := arr3 ++ [u8 c] in
      if zlen arr3 =? 3 then
        let ret := ret ++ map b64_char (b64_group (znth 0 arr3 0) (znth 0 arr3 1) (znth 0 arr3 2)) in
        base64_encode_loop s [] ret
      else base64_encode_loop s arr3 ret
  end.
Definition base64_encode (s : bytes) : bytes :=
  let '(arr3, ret) := base64_encode_loop s [] [] in
  let i := zlen arr3 in
  if negb (i =? 0) then
    let arr3 := arr3 ++ replicate (Z.to_nat (3 - i)) 0 in
    let arr4 := b64_group (znth 0 arr3 0) (znth 0 arr3 1) (znth 0 arr3 2) in
    ret ++ map b64_char (ztake (i + 1) arr4) ++ replicate (Z.to_nat (3 - i)) "="%char
  else ret.

(** [(unsigned char)base64_chars.find(c)]: 255 when [c] is not in the alphabet. *)
Definition b64_index (c : char) : Z := w8 (find base64_chars [c] 0).
Definition b64_ungroup (x : list Z) : bytes :=
  let x0 := znth 0 x 0 in let x1 := znth 0 x 1 in
  let x2 := znth 0 x 2 in let x3 := znth 0 x 3 in
  [chr (Z.shiftl x0 2 + Z.shiftr (Z.land x1 0x30) 4);
   chr (Z.shiftl (Z.land x1 0xf) 4 + Z.shiftr (Z.land x2 0x3c) 2);
   chr (Z.shiftl (Z.land x2 0x3) 6 + x3)].

Fixpoint base64_decode_loop (s : bytes) (arr4 : bytes) (ret : bytes) : bytes * bytes :=
  match s with
  | [] => (arr4, ret)
  | c :: s =>
      if negb (ceq c "="%char) && is_base64 c then
        let arr4 := arr4 ++ [c] in
        if zlen arr4 =? 4 then
          base64_decode_loop s [] (ret ++ b64_ungroup (map b64_index arr4))
        else base64_decode_loop s arr4 ret
      else (arr4, ret)
  end.
Definition base64_decode (s : bytes) : bytes :=
  let '(arr4, ret) := base64_decode_loop s [] [] in
  let i := zlen arr4 in
  if negb (i =? 0) then
    let arr4 := arr4 ++ replicate (Z.to_nat (4 - i)) nul in
    ret ++ ztake (i - 1) (b64_ungroup (map b64_index arr4))
  else ret.

Definition base64_encode_dash (data : bytes) : bytes :=
  map (fun c => if ceq c "="%char then "-"%char else c) (base64_encode data).
Definition base64_decode_dash (s : bytes) : bytes :=
  base64_decode (map (fun c => if ceq c "-"%char then "="%char
                               else if ceq c " "%char then "+"%char else c) s).

(** ** Round trips of the escapings *)

Lemma unescape_sql_other c t :
  c <> "'"%char -> UnescapeSQLString (c :: t) = c :: UnescapeSQLString t.
Proof. intros H. cbn. destruct t as [|d t]; [done|]. by rewrite ceq_ne. Qed.

Lemma unescape_escape_sql s : UnescapeSQLString (EscapeSQLString s) = s.
Proof.
  induction s as [|c s IH]; [done|]. cbn [EscapeSQLString].
  destruct (ceq_spec c "'"%char) as [->|Hc].
  - change (UnescapeSQLString ("'"%char :: "'"%char :: EscapeSQLString s))
      with ("'"%char :: UnescapeSQLString (EscapeSQLString s)). by rewrite IH.
  - by rewrite unescape_sql_other, IH.
Qed.

Section Params.
Context (lower : bytes -> bytes).

Lemma unescape_param_other c t :
  c <> "%"%char -> UnescapeParamString lower (c :: t) = c :: UnescapeParamString lower t.
Proof. intros H. destruct t as [|a [|b t]]; [done..|]. cbn. by rewrite (ceq_ne c). Qed.

Lemma htmldecode_other c t :
  c <> "%"%char -> c <> "+"%char ->
  htmldecode lower (c :: t) "%"%char = c :: htmldecode lower t "%"%char.
Proof.
  intros H H'. destruct t as [|a [|b t]]; cbn; rewrite !(ceq_ne c) by done; done.
Qed.

Lemma unescape_param_char c r :
  UnescapeParamString lower (escape_param_char c ++ r) = c :: UnescapeParamString lower r.
Proof.
  unfold escape_param_char. repeat (zcase; [subst; reflexivity|]).
  by apply unescape_param_other.
Qed.
Lemma unescape_path_char c r :
  UnescapeParamString lower (escape_path_char c ++ r) = c :: UnescapeParamString lower r.
Proof.
  unfold escape_path_char. repeat (zcase; [subst; reflexivity|]).
  by apply unescape_param_other.
Qed.
Lemma htmldecode_param_char c r :
  htmldecode lower (escape_param_char c ++ r) "%"%char = c :: htmldecode lower r "%"%char.
Proof.
  unfold escape_param_char. repeat (zcase; [subst; reflexivity|]).
  by apply htmldecode_other.
Qed.

Lemma htmldecode_escape s : htmldecode lower (EscapeParamString s) "%"%char = s.
Proof.
  induction s as [|c s IH]; [done|]. cbn [EscapeParamString].
  by rewrite htmldecode_param_char, IH.
Qed.

(** [k1=v1&k2=v2..] as the senders of parameters build it. *)
Fixpoint join_params (kvs : list (bytes * bytes)) : bytes :=
  match kvs with
  | [] => []
  | [(k, v)] => k ++ "="%char :: EscapeParamString v
  | (k, v) :: kvs => k ++ "="%char :: EscapeParamString v ++ "&"%char :: join_params kvs
  end.

Lemma parse_key k r key m e :
  Forall (fun c => c <> "="%char) k ->
  parse_params_loop lower (k ++ r) false key [] m e =
  parse_params_loop lower r false (key ++ k) [] m e.
Proof.
  intros H. revert key. induction H as [|c k Hc H IH]; intros key; cbn; [by rewrite app_nil_r|].
  rewrite (ceq_ne c) by done. cbn. rewrite andb_false_r, IH. by rewrite <- app_assoc.
Qed.

Lemma escape_param_safe v :
  Forall (fun c => c <> "&"%char /\ c <> "$"%char) (EscapeParamString v).
Proof.
  induction v as [|c v IH]; cbn; [constructor|]. apply Forall_app. split; [|done].
  unfold escape_param_char.
  repeat (zcase; [repeat constructor; discriminate|]). by repeat constructor.
Qed.

Lemma parse_value v r key value m e :
  Forall (fun c => c <> "&"%char /\ c <> "$"%char) v ->
  parse_params_loop lower (v ++ r) true key value m e =
  parse_params_loop lower r true key (value ++ v) m e.
Proof.
  intros H. revert value. induction H as [|c v [Hc Hc'] H IH]; intros value; cbn.
  - by rewrite app_nil_r.
  - rewrite andb_false_r, (ceq_ne c "&"), (ceq_ne c "$") by done. cbn.
    rewrite IH. by rewrite <- app_assoc.
Qed.

Lemma map_insert_fresh (m : str_map) k v : m !! k = None -> map_insert m k v = <[k := v]> m.
Proof. intros H. unfold map_insert. by rewrite H. Qed.

Lemma parse_join kvs : forall m : str_map,
  NoDup (map fst kvs) -> Forall (fun kv => m !! fst kv = None) kvs ->
  Forall (fun kv => fst kv <> [] /\ Forall (fun c => c <> "="%char) (fst kv)) kvs ->
  ParseParamStrHttp lower (join_params kvs) m false
  = foldl (fun m kv => <[fst kv := snd kv]> m) m kvs.
Proof.
  unfold ParseParamStrHttp.
  induction kvs as [|[k v] kvs IH]; intros m Hnd Hf Hk; [done|].
  inversion_clear Hnd as [|? ? Hn Hnd']. inversion_clear Hf as [|? ? Hm Hf'].
  inversion_clear Hk as [|? ? [Hne Hk1] Hk']. cbn [fst snd] in *.
  assert (Es : forall w r, parse_params_loop lower (k ++ "="%char :: w ++ r) false [] [] m false
          = parse_params_loop lower (w ++ r) true k [] m false).
  { intros w r. rewrite parse_key by done. done. }
  assert (Ev : param_value lower (EscapeParamString v) false = v) by apply htmldecode_escape.
  destruct kvs as [|kv kvs].
  - cbn [join_params foldl fst snd]. rewrite <- (app_nil_r (EscapeParamString v)), Es.
    rewrite parse_value by apply escape_param_safe. cbn [app parse_params_loop].
    rewrite Ev, map_insert_fresh by done.
    destruct k; [done|]. cbn [zlen]. unfold zlen. cbn [length].
    by rewrite (proj2 (Z.ltb_lt 0 (Z.of_nat (S (length k))))), orb_true_r by lia.
  - change (join_params ((k, v) :: kv :: kvs)) with
      (k ++ "="%char :: EscapeParamString v ++ "&"%char :: join_params (kv :: kvs)).
    rewrite Es, parse_value by apply escape_param_safe. cbn [app parse_params_loop].
    cbn [ceq orb andb negb]. change (ceq "&" "=") with false. change (ceq "&" "&") with true.
    cbn [orb andb negb]. rewrite Ev, map_insert_fresh by done.
    cbn [foldl fst snd]. apply IH; [done| |done].
    apply List.Forall_forall. intros [k' v'] Hin. cbn [fst].
    rewrite lookup_insert_ne.
    + rewrite List.Forall_forall in Hf'. exact (Hf' (k', v') Hin).
    + intros ->. apply Hn. apply list_elem_of_In, in_map_iff. by exists (k', v').
Qed.
End Params.

(** ** Hexadecimal *)

(** Decoding the two digits of a byte: checked on the 256 bytes. *)
Lemma hex_byte lower c : chr (hexToULong lower (byteToHex (u8 c))) = c.
Proof. destruct c as [[] [] [] [] [] [] [] []]; reflexivity. Qed.

Lemma hexToBytes_bytesToHex lower b : hexToBytes lower (bytesToHex b) = b.
Proof.
  induction b as [|c b IH]; [done|]. unfold bytesToHex in *. cbn [map concat].
  change (byteToHex (u8 c) ++ ?r) with
    (znth nul hexnum_array (u8 c / 16) :: znth nul hexnum_array (u8 c mod 16) :: r).
  cbn [hexToBytes]. rewrite IH. f_equal. apply hex_byte.
Qed.

(** ** Decimal numbers *)

Lemma isdigit_digit n : isdigit (chr (48 + n mod 10)) = true.
Proof.
  unfold isdigit. pose proof (Z.mod_pos_bound n 10 ltac:(lia)).
  rewrite u8_chr_small by lia. lia.
Qed.

Lemma dec_val_app s acc : forall x,
  Forall (fun c => isdigit c = true) s ->
  dec_val (s ++ acc) x = dec_val acc (dec_val s x).
Proof.
  induction s as [|c s IH]; intros x H; [done|]. inversion_clear H as [|? ? Hc Hs].
  cbn [app dec_val]. rewrite Hc. by apply IH.
Qed.

(** The digits produced in front of [acc], most significant first. *)
Lemma dec_digits_spec fuel : forall n acc,
  0 <= n < 10 ^ Z.of_nat fuel -> (0 < fuel)%nat ->
  exists ds, dec_digits fuel n acc = ds ++ acc /\ ds <> [] /\
    Forall (fun c => isdigit c = true) ds /\ forall x, dec_val ds x = x * 10 ^ zlen ds + n.
Proof.
  induction fuel as [|fuel IH]; intros n acc Hn Hf; [lia|]. cbn [dec_digits].
  pose proof (Z.mod_pos_bound n 10 ltac:(lia)) as Hm.
  pose proof (Z.div_mod n 10 ltac:(lia)) as Hd.
  destruct (Z.eqb_spec (n / 10) 0) as [Hz|Hz].
  - exists [chr (48 + n mod 10)]. split; [done|]. split; [done|]. split.
    + apply Forall_singleton, isdigit_digit.
    + intros x. cbn [dec_val]. rewrite isdigit_digit, u8_chr_small by lia.
      change (zlen [_]) with 1. lia.
  - rewrite Nat2Z.inj_succ, Z.pow_succ_r in Hn by lia.
    assert (Hlt : 0 <= n / 10 < 10 ^ Z.of_nat fuel).
    { split; [apply Z.div_pos; lia|]. apply Z.div_lt_upper_bound; lia. }
    destruct (IH (n / 10) (chr (48 + n mod 10) :: acc)) as (ds & E & Hne & Hds & Hv).
    { done. } { destruct fuel; [cbn in Hlt; lia|lia]. }
    exists (ds ++ [chr (48 + n mod 10)]). split; [by rewrite E, <- app_assoc|].
    split; [by destruct ds|]. split.
    + apply Forall_app. split; [done|]. apply Forall_singleton, isdigit_digit.
    + intros x. rewrite dec_val_app, Hv by done. cbn [dec_val].
      rewrite isdigit_digit, u8_chr_small by lia. rewrite zlen_app.
      change (zlen [_]) with 1. pose proof (zlen_nonneg ds).
      rewrite Z.pow_add_r by lia. lia.
Qed.

Lemma digit_head c : isdigit c = true ->
  isspace c = false /\ ceq c "-"%char = false /\ ceq c "+"%char = false.
Proof. destruct c as [[] [] [] [] [] [] [] []]; by vm_compute. Qed.

(** Printing gives digits, possibly behind a minus sign, ... *)
Lemma convert_chars i :
  - 2 ^ 63 <= i < 2 ^ 63 -> Forall (fun c => isdigit c = true \/ c = "-"%char) (convert i).
Proof.
  intros Hi. unfold convert. destruct (Z.ltb_spec i 0).
  - destruct (dec_digits_spec 20 (- i) []) as (ds & -> & _ & Hd & _); [cbn; lia|lia|].
    rewrite app_nil_r. apply Forall_cons_2; [by right|]. eapply List.Forall_impl; [|exact Hd]. cbn. tauto.
  - destruct (dec_digits_spec 20 i []) as (ds & -> & _ & Hd & _); [cbn; lia|lia|].
    rewrite app_nil_r. eapply List.Forall_impl; [|exact Hd]. cbn. tauto.
Qed.

(** ... and parsing them gives the number back, whatever follows them but a digit. *)
Definition no_digit (x : bytes) : Prop := match x with c :: _ => isdigit c = false | [] => True end.

Lemma dec_val_stop s x a :
  Forall (fun c => isdigit c = true) s -> no_digit x -> dec_val (s ++ x) a = dec_val s a.
Proof.
  intros Hs Hx. rewrite dec_val_app by done. destruct x as [|c x]; [done|]. cbn in Hx |- *. by rewrite Hx.
Qed.

Lemma watoi64_convert_app i x : - 2 ^ 63 <= i < 2 ^ 63 -> no_digit x -> watoi64 (convert i ++ x) = i.
Proof.
  intros Hi Hx. unfold convert. destruct (Z.ltb_spec i 0).
  - destruct (dec_digits_spec 20 (- i) []) as (ds & -> & _ & Hd & Hv); [cbn; lia|lia|].
    rewrite app_nil_r. change (watoi64 (("-"%char :: ds) ++ x)) with (clamp64 (- dec_val (ds ++ x) 0)).
    rewrite dec_val_stop, Hv by done. unfold clamp64. lia.
  - destruct (dec_digits_spec 20 i []) as (ds & -> & Hne & Hd & Hv); [cbn; lia|lia|].
    rewrite app_nil_r. destruct ds as [|c ds]; [done|]. pose proof (dec_val_stop _ x 0 Hd Hx) as Hs.
    inversion_clear Hd as [|? ? Hc Hds]. destruct (digit_head c Hc) as (E1 & E2 & E3).
    unfold watoi64. cbn [skip_space app] in Hs |- *. rewrite E1, E2, E3, Hs, Hv. unfold clamp64. lia.
Qed.

Lemma watoi64_convert i : - 2 ^ 63 <= i < 2 ^ 63 -> watoi64 (convert i) = i.
Proof. intros Hi. rewrite <- (app_nil_r (convert i)). by apply watoi64_convert_app. Qed.

(** Text split at its first separator character. *)
Lemma find_from_char c a b off :
  Forall (fun x => ceq x c = false) a -> find_from [c] (a ++ c :: b) off = off + zlen a.
Proof.
  intros H. revert off. induction H as [|x a Hx H IH]; intros off; cbn [app find_from starts_with].
  - assert (Hb : starts_with b [] = true) by (by destruct b). rewrite ceq_refl, Hb, zlen_nil. cbn [andb]. lia.
  - rewrite Hx. cbn [andb]. rewrite IH, zlen_cons. lia.
Qed.

Lemma getuntil_char c a b :
  Forall (fun x => ceq x c = false) a -> zlen a < npos -> getuntil [c] (a ++ c :: b) = a.
Proof.
  intros H Ha. unfold getuntil, find. pose proof (zlen_nonneg (a ++ c :: b)). pose proof (zlen_nonneg a).
  rewrite (proj2 (Z.ltb_ge _ _)), zdrop_0, find_from_char, Z.add_0_l, (proj2 (Z.eqb_neq _ _)) by (done || lia).
  apply ztake_app_zlen.
Qed.
Lemma getafter_char c a b :
  Forall (fun x => ceq x c = false) a -> zlen a < npos -> getafter [c] (a ++ c :: b) = b.
Proof.
  intros H Ha. unfold getafter, getafterinc, find. pose proof (zlen_nonneg (a ++ c :: b)). pose proof (zlen_nonneg a).
  rewrite (proj2 (Z.ltb_ge _ _)), zdrop_0, find_from_char, Z.add_0_l, (proj2 (Z.eqb_neq _ _)) by (done || lia).
  cbn [negb]. by rewrite zdrop_app_zlen.
Qed.

Lemma length_dec_digits fuel : forall n acc, (length (dec_digits fuel n acc) <= fuel + length acc)%nat.
Proof.
  induction fuel as [|k IH]; intros n acc; cbn [dec_digits]; [lia|].
  destruct (_ =? 0); cbn; [lia|]. specialize (IH (n / 10) (chr (48 + n mod 10) :: acc)). cbn in IH. lia.
Qed.
Lemma zlen_convert i : zlen (convert i) < npos.
Proof.
  unfold zlen, convert, npos. pose proof (length_dec_digits 20 (- i) []). pose proof (length_dec_digits 20 i []).
  destruct (i <? 0); cbn [length] in *; lia.
Qed.

(** ** Base64 *)

Lemma b64_char_ok i :
  0 <= i < 64 ->
  b64_index (b64_char i) = i /\ is_base64 (b64_char i) = true /\ ceq (b64_char i) "="%char = false.
Proof.
  intros Hi.
  assert (H : forallb (fun n =>
      let c := b64_char (Z.of_nat n) in
      (b64_index c =? Z.of_nat n) && is_base64 c && negb (ceq c "="%char)) (seq 0 64) = true)
    by (vm_compute; reflexivity).
  rewrite forallb_forall in H. specialize (H (Z.to_nat i)). rewrite Z2Nat.id in H by lia.
  specialize (H ltac:(apply in_seq; lia)). apply andb_prop in H as [H H3].
  apply andb_prop in H as [H1 H2]. apply Z.eqb_eq in H1. by destruct (ceq _ _).
Qed.

Lemma div4 a : 0 <= a < 256 -> Z.shiftr (Z.land a 0xfc) 2 = a / 4.
Proof. intros. change 4 with (2 ^ 2). rewrite <- Z.shiftr_div_pow2 by lia. bit_eq a 8. Qed.
Lemma div16 a : 0 <= a < 256 -> Z.shiftr (Z.land a 0xf0) 4 = a / 16.
Proof. intros. change 16 with (2 ^ 4). rewrite <- Z.shiftr_div_pow2 by lia. bit_eq a 8. Qed.
Lemma div64 a : 0 <= a < 256 -> Z.shiftr (Z.land a 0xc0) 6 = a / 64.
Proof. intros. change 64 with (2 ^ 6). rewrite <- Z.shiftr_div_pow2 by lia. bit_eq a 8. Qed.

(** The four 6-bit values of three bytes. *)
Lemma b64_group_arith a b c :
  0 <= a < 256 -> 0 <= b < 256 -> 0 <= c < 256 ->
  b64_group a b c = [a / 4; a mod 4 * 16 + b / 16; b mod 16 * 4 + c / 64; c mod 64].
Proof.
  intros. unfold b64_group. rewrite div4, div16, div64 by done.
  change 0x03 with (2 ^ 2 - 1). change 0x0f with (2 ^ 4 - 1). change 0x3f with (2 ^ 6 - 1).
  rewrite !land_mask by lia. by rewrite !Z.shiftl_mul_pow2 by lia.
Qed.

Lemma b64_ungroup_arith x0 x1 x2 x3 :
  0 <= x1 < 256 -> 0 <= x2 < 256 ->
  b64_ungroup [x0; x1; x2; x3]
  = [chr (x0 * 4 + x1 / 16 mod 4); chr (x1 mod 16 * 16 + x2 / 4 mod 16); chr (x2 mod 4 * 64 + x3)].
Proof.
  intros. unfold b64_ungroup. cbv [znth Z.to_nat Pos.to_nat Pos.iter_op Nat.add nth].
  assert (E1 : Z.shiftr (Z.land x1 0x30) 4 = Z.land (Z.shiftr x1 4) 3) by (bit_eq x1 8).
  assert (E2 : Z.shiftr (Z.land x2 0x3c) 2 = Z.land (Z.shiftr x2 2) 0xf) by (bit_eq x2 8).
  rewrite E1, E2. change 3 with (2 ^ 2 - 1). change 0xf with (2 ^ 4 - 1).
  rewrite !land_mask by lia.
  rewrite !Z.shiftl_mul_pow2, !Z.shiftr_div_pow2 by lia. done.
Qed.

Ltac div_lia := Z.to_euclidean_division_equations; lia.

Lemma b64_group_range a b c :
  0 <= a < 256 -> 0 <= b < 256 -> 0 <= c < 256 ->
  Forall (fun x => 0 <= x < 64) (b64_group a b c).
Proof.
  intros. rewrite b64_group_arith by done.
  repeat (apply Forall_cons_2; [div_lia|]). apply Forall_nil_2.
Qed.

Lemma b64_ungroup_group a b c :
  b64_ungroup (b64_group (u8 a) (u8 b) (u8 c)) = [a; b; c].
Proof.
  pose proof (u8_range a). pose proof (u8_range b). pose proof (u8_range c).
  rewrite b64_group_arith by done. rewrite b64_ungroup_arith by div_lia.
  assert (chr_eq : forall x d, x = u8 d -> chr x = d) by (intros x d ->; apply chr_u8).
  f_equal; [apply chr_eq; div_lia|]. f_equal; [apply chr_eq; div_lia|].
  f_equal. apply chr_eq. div_lia.
Qed.

(** One full group, in the middle of a string. *)
Lemma encode_loop_group a b c s ret :
  base64_encode_loop (a :: b :: c :: s) [] ret
  = base64_encode_loop s [] (ret ++ map b64_char (b64_group (u8 a) (u8 b) (u8 c))).
Proof. done. Qed.

Lemma decode_loop_chars (xs : list Z) s arr ret :
  Forall (fun x => 0 <= x < 64) xs -> zlen arr + zlen xs < 4 ->
  base64_decode_loop (map b64_char xs ++ s) arr ret
  = base64_decode_loop s (arr ++ map b64_char xs) ret.
Proof.
  intros H. revert arr. induction H as [|x xs Hx Hxs IH]; intros arr Hlen; cbn [map app].
  - by rewrite app_nil_r.
  - cbn [base64_decode_loop]. destruct (b64_char_ok x Hx) as (_ & -> & ->). cbn [negb andb].
    pose proof (zlen_nonneg xs). pose proof (zlen_nonneg arr). rewrite zlen_cons in Hlen.
    destruct (Z.eqb_spec (zlen (arr ++ [b64_char x])) 4) as [E|E].
    { rewrite zlen_app in E. change (zlen [_]) with 1 in E. lia. }
    rewrite IH; [by rewrite <- app_assoc|]. rewrite zlen_app. change (zlen [_]) with 1. lia.
Qed.

Lemma b64_index_chars xs :
  Forall (fun x => 0 <= x < 64) xs -> map b64_index (map b64_char xs) = xs.
Proof.
  induction 1 as [|x xs Hx Hxs IH]; [done|]. cbn [map]. rewrite IH. f_equal.
  by apply b64_char_ok.
Qed.

Lemma decode_loop_four x0 x1 x2 x3 s ret :
  Forall (fun x => 0 <= x < 64) [x0; x1; x2; x3] ->
  base64_decode_loop (map b64_char [x0; x1; x2; x3] ++ s) [] ret
  = base64_decode_loop s [] (ret ++ b64_ungroup [x0; x1; x2; x3]).
Proof.
  intros R. pose proof (b64_index_chars _ R) as E.
  change (map b64_char [x0; x1; x2; x3]) with (map b64_char [x0; x1; x2] ++ [b64_char x3]).
  assert (R' : Forall (fun x => 0 <= x < 64) [x0; x1; x2] /\ 0 <= x3 < 64).
  { inversion_clear R as [|? ? ? R']. inversion_clear R' as [|? ? ? R''].
    inversion_clear R'' as [|? ? ? R3]. inversion_clear R3.
    split; [|done]. repeat (apply Forall_cons_2; [done|]). apply Forall_nil_2. }
  rewrite <- app_assoc, decode_loop_chars by (apply R' || done).
  cbn [map app base64_decode_loop].
  destruct (b64_char_ok x3 (proj2 R')) as (_ & -> & ->). cbn [negb andb].
  change (zlen _ =? 4) with true. cbn [map] in E. cbn [app map]. by rewrite E.
Qed.

(** The full groups of a string: what the encoder emits for them is decoded to
    them, and at most two bytes are left over. *)
Lemma base64_groups n : forall s, (length s <= n)%nat -> forall ret0,
  exists body arr enc,
    s = body ++ arr /\ zlen arr < 3 /\
    base64_encode_loop s [] ret0 = (map u8 arr, ret0 ++ enc) /\
    forall rest ret, base64_decode_loop (enc ++ rest) [] ret
                     = base64_decode_loop rest [] (ret ++ body).
Proof.
  induction n as [|n IH]; intros s Hs ret0.
  { destruct s; [|cbn in Hs; lia]. exists [], [], []. split; [done|]. split; [done|].
    split; [by rewrite app_nil_r|]. intros. by rewrite app_nil_r. }
  destruct s as [|a [|b [|c s]]].
  - exists [], [], []. split; [done|]. split; [done|].
    split; [by rewrite app_nil_r|]. intros. by rewrite app_nil_r.
  - exists [], [a], []. split; [done|]. split; [done|].
    split; [by rewrite app_nil_r|]. intros. by rewrite app_nil_r.
  - exists [], [a; b], []. split; [done|]. split; [done|].
    split; [by rewrite app_nil_r|]. intros. by rewrite app_nil_r.
  - rewrite encode_loop_group. cbn [length] in Hs.
    set (g := b64_group (u8 a) (u8 b) (u8 c)).
    destruct (IH s ltac:(lia) (ret0 ++ map b64_char g)) as (body & arr & enc & -> & Harr & -> & Hd).
    exists (a :: b :: c :: body), arr, (map b64_char g ++ enc).
    split; [done|]. split; [done|]. split; [by rewrite <- app_assoc|].
    intros rest ret. rewrite <- app_assoc. subst g.
    pose proof (b64_group_range (u8 a) (u8 b) (u8 c) (u8_range a) (u8_range b) (u8_range c)) as R.
    pose proof (b64_ungroup_group a b c) as U. unfold b64_group in *.
    rewrite decode_loop_four, Hd, U by done. by rewrite <- app_assoc.
Qed.

(** The padded tail of one or two bytes left over is decoded to them. *)
Definition tail_ok (arr ret : bytes) : Prop :=
  let arr3 := map u8 arr ++ replicate (Z.to_nat (3 - zlen arr)) 0 in
  let arr4 := b64_group (znth 0 arr3 0) (znth 0 arr3 1) (znth 0 arr3 2) in
  let '(a4, r) := base64_decode_loop
     (map b64_char (ztake (zlen arr + 1) arr4) ++ replicate (Z.to_nat (3 - zlen arr)) "="%char) [] ret in
  zlen a4 <> 0 /\
  r ++ ztake (zlen a4 - 1) (b64_ungroup (map b64_index (a4 ++ replicate (Z.to_nat (4 - zlen a4)) nul)))
  = ret ++ arr.

Lemma base64_tail1 a ret : tail_ok [a] ret.
Proof.
  unfold tail_ok.
  change (zlen [a]) with 1. cbn [Z.sub Z.add Z.opp Z.to_nat Pos.to_nat map replicate app].
  change (Z.to_nat (3 - 1)) with 2%nat. cbn [replicate app].
  change (znth 0 [u8 a; 0; 0] 0) with (u8 a). change (znth 0 [u8 a; 0; 0] 1) with 0.
  change (znth 0 [u8 a; 0; 0] 2) with 0. pose proof (u8_range a).
  rewrite b64_group_arith by lia.
  change (ztake (1 + 1) ?l) with (take 2 l). cbn [take].
  assert (R : Forall (fun x => 0 <= x < 64) [u8 a / 4; u8 a mod 4 * 16 + 0 / 16])
    by (repeat (apply Forall_cons_2; [div_lia|]); apply Forall_nil_2).
  rewrite decode_loop_chars by done. cbn [app base64_decode_loop].
  change (negb (ceq "=" "=") && _) with false. cbn [andb].
  split; [by vm_compute|]. f_equal.
  pose proof (b64_index_chars _ R) as E.
  change (4 - zlen (map b64_char [_; _])) with 2.
  rewrite map_app, E. change (map b64_index (replicate (Z.to_nat 2) nul)) with [255; 255].
  cbn [app]. rewrite b64_ungroup_arith by div_lia.
  change (ztake (zlen (map b64_char [_; _]) - 1) ?l) with (take 1 l). cbn [take].
  f_equal. transitivity (chr (u8 a)); [f_equal; div_lia|apply chr_u8].
Qed.

Lemma base64_tail2 a b ret : tail_ok [a; b] ret.
Proof.
  unfold tail_ok.
  change (zlen [a; b]) with 2. cbn [map].
  change (Z.to_nat (3 - 2)) with 1%nat. cbn [replicate app].
  change (znth 0 [u8 a; u8 b; 0] 0) with (u8 a). change (znth 0 [u8 a; u8 b; 0] 1) with (u8 b).
  change (znth 0 [u8 a; u8 b; 0] 2) with 0. pose proof (u8_range a). pose proof (u8_range b).
  rewrite b64_group_arith by lia.
  change (ztake (2 + 1) ?l) with (take 3 l). cbn [take].
  assert (R : Forall (fun x => 0 <= x < 64)
      [u8 a / 4; u8 a mod 4 * 16 + u8 b / 16; u8 b mod 16 * 4 + 0 / 64])
    by (repeat (apply Forall_cons_2; [div_lia|]); apply Forall_nil_2).
  rewrite decode_loop_chars by done. cbn [app base64_decode_loop].
  change (negb (ceq "=" "=") && _) with false. cbn [andb].
  split; [by vm_compute|]. f_equal.
  pose proof (b64_index_chars _ R) as E.
  change (4 - zlen (map b64_char [_; _; _])) with 1.
  rewrite map_app, E. change (map b64_index (replicate (Z.to_nat 1) nul)) with [255].
  cbn [app]. rewrite b64_ungroup_arith by div_lia.
  change (ztake (zlen (map b64_char [_; _; _]) - 1) ?l) with (take 2 l). cbn [take].
  f_equal; [|f_equal].
  - transitivity (chr (u8 a)); [f_equal; div_lia|apply chr_u8].
  - transitivity (chr (u8 b)); [f_equal; div_lia|apply chr_u8].
Qed.

Lemma base64_tail arr ret : zlen arr < 3 -> arr <> [] -> tail_ok arr ret.
Proof.
  intros Hlen Hne. destruct arr as [|a [|b [|c arr]]]; [done|..|].
  - apply base64_tail1.
  - apply base64_tail2.
  - exfalso. pose proof (zlen_nonneg arr). rewrite !zlen_cons in Hlen. lia.
Qed.

Lemma base64_decode_encode s : base64_decode (base64_encode s) = s.
Proof.
  unfold base64_encode.
  destruct (base64_groups (length s) s (le_n _) []) as (body & arr & enc & -> & Harr & -> & Hd).
  cbn [app]. replace (zlen (map u8 arr)) with (zlen arr) by (unfold zlen; by rewrite length_map).
  destruct (Z.eqb_spec (zlen arr) 0) as [E|E]; cbn [negb].
  - assert (arr = []) as -> by (destruct arr; [done|rewrite zlen_cons in E; pose proof (zlen_nonneg arr); lia]).
    unfold base64_decode. specialize (Hd [] []). rewrite app_nil_r in Hd.
    rewrite Hd. cbn [base64_decode_loop app]. change (zlen (@nil ascii) =? 0) with true.
    symmetry. apply app_nil_r.
  - unfold base64_decode. rewrite Hd. cbn [app].
    pose proof (base64_tail arr body Harr ltac:(by intros ->)) as T. unfold tail_ok in T. cbv zeta in T.
    destruct (base64_decode_loop _ [] body) as [a4 r]. destruct T as [Hz T].
    by rewrite (proj2 (Z.eqb_neq (zlen a4) 0)).
Qed.

(** The URL-safe variant replaces the padding character only. *)
Definition b64_plain (c : char) : Prop := c <> "-"%char /\ c <> " "%char.

Lemma b64_char_plain i : b64_plain (b64_char i).
Proof.
  assert (H : forallb (fun c => negb (ceq c "-"%char) && negb (ceq c " "%char)) (nul :: base64_chars) = true)
    by (vm_compute; reflexivity).
  rewrite forallb_forall in H.
  assert (Hin : In (b64_char i) (nul :: base64_chars)).
  { unfold b64_char, znth. destruct (nth_in_or_default (Z.to_nat i) base64_chars nul) as [|E]; [by right|].
    left. by rewrite E. }
  specialize (H _ Hin). split; intros E; rewrite E in H; by vm_compute in H.
Qed.

Lemma map_b64_plain xs : Forall b64_plain (map b64_char xs).
Proof. apply List.Forall_forall. intros c (x & <- & _)%in_map_iff. apply b64_char_plain. Qed.

Lemma encode_loop_plain s : forall arr ret,
  Forall b64_plain ret -> Forall b64_plain (snd (base64_encode_loop s arr ret)).
Proof.
  induction s as [|c s IH]; intros arr ret H; [done|]. cbn [base64_encode_loop].
  destruct (_ =? 3); apply IH; [|done]. apply Forall_app. split; [done|]. apply map_b64_plain.
Qed.

Lemma base64_encode_plain s : Forall b64_plain (base64_encode s).
Proof.
  unfold base64_encode. pose proof (encode_loop_plain s [] [] (Forall_nil_2 _)) as H.
  destruct (base64_encode_loop s [] []) as [arr ret]. cbn [snd] in H.
  destruct (negb _); [|done]. apply Forall_app. split; [done|]. apply Forall_app.
  split; [apply map_b64_plain|]. apply Forall_replicate; split; discriminate.
Qed.

(** Base64.  Decoding an encoded byte string gives it back, for every
    length modulo 3, with the standard padding and with the URL-safe one. *)
Theorem base64_roundtrip (s : bytes) :
  base64_decode (base64_encode s) = s /\ base64_decode_dash (base64_encode_dash s) = s.
Proof.
  split; [apply base64_decode_encode|].
  unfold base64_decode_dash, base64_encode_dash. rewrite map_map.
  rewrite <- (base64_decode_encode s) at 2. f_equal.
  pose proof (base64_encode_plain s) as H. rewrite <- map_id. apply map_ext_Forall.
  eapply List.Forall_impl; [|exact H]. intros c [H1 H2]. cbn.
  destruct (ceq_spec c "="%char) as [->|]; [done|].
  by rewrite (ceq_ne c "-"), (ceq_ne c " ") by done.
Qed.

(** Parameters.  A list of distinct non-empty keys (without [=]) and
    arbitrary values, joined as [k=v&k=v..] with [EscapeParamString] on the
    values, is parsed by [ParseParamStrHttp] to exactly that map; hexadecimal,
    SQL and path escaping are inverted on every string. *)
Theorem param_roundtrip (lower : bytes -> bytes) (kvs : list (bytes * bytes)) (s : bytes) :
  NoDup (map fst kvs) ->
  Forall (fun kv => fst kv <> [] /\ Forall (fun c => c <> "="%char) (fst kv)) kvs ->
  (ParseParamStrHttp lower (join_params kvs) ∅ false
   = foldl (fun m kv => <[fst kv := snd kv]> m) ∅ kvs) /\
  UnescapeParamString lower (EscapeParamString s) = s /\
  UnescapeParamString lower (EscapePathParamString s) = s /\
  hexToBytes lower (bytesToHex s) = s /\
  UnescapeSQLString (EscapeSQLString s) = s.
Proof.
  intros Hnd Hk. split_and!.
  - apply parse_join; [done| |done]. apply List.Forall_forall. intros kv _. apply lookup_empty.
  - induction s as [|c s IH]; [done|]. cbn. by rewrite unescape_param_char, IH.
  - induction s as [|c s IH]; [done|]. cbn. by rewrite unescape_path_char, IH.
  - apply hexToBytes_bytesToHex.
  - apply unescape_escape_sql.
Qed.

Lemma param_roundtrip_witness :
  ParseParamStrHttp (fun x => x) (join_params [(str "a", str "1 & 2"); (str "b", str "%")]) ∅ false
  = <[str "b" := str "%"]> (<[str "a" := str "1 & 2"]> ∅).
Proof.
  apply (param_roundtrip (fun x => x) [(str "a", str "1 & 2"); (str "b", str "%")] []).
  - apply NoDup_cons_2; [|apply NoDup_singleton]. cbn. by intros ?%list_elem_of_singleton.
  - repeat (apply Forall_cons_2; [split; [done|]; repeat (apply Forall_cons_2; [done|]); apply Forall_nil_2|]).
    apply Forall_nil_2.
Defined.

(** [convert] followed by [watoi64] is the identity on 64-bit integers. *)
Theorem decimal_roundtrip (i : Z) : - 2 ^ 63 <= i < 2 ^ 63 -> watoi64 (convert i) = i.
Proof. apply watoi64_convert. Qed.

Lemma decimal_roundtrip_witness : watoi64 (convert (- 2 ^ 63)) = - 2 ^ 63.
Proof. apply (decimal_roundtrip (- 2 ^ 63)). lia. Defined.

(** [UnescapeHTML] does not undo [EscapeHTML]: [&amp;] is replaced first, so
    a literal entity in the text comes back as the character it names. *)
Theorem UnescapeHTML_not_inverse :
  exists s, EscapeHTML s = str "&amp;lt;" /\ UnescapeHTML (EscapeHTML s) = str "<" /\ s <> str "<".
Proof. exists (str "&lt;"). by vm_compute. Qed.
