(* ===== verification/MemFile.v ===== *)
(** Files: the interface [IFile] of [Interface/File.h] and its in-memory
    implementation [CMemoryFile] of [file_memory.cpp].

    [IFile] carries the operations the other components call; [FileLaws] is what
    they rely on, proved for [CMemoryFile]: a byte sequence with a position, where
    [Read] yields as many bytes as were asked for unless the file ends, and nothing
    fails.  The definitions of the components say what the code does on short reads,
    short writes and errors, but the theorems that ask for [FileLaws] do not cover
    them.  Locks, page protection ([mprotect], [mlock]) and the file
    name are not part of the model. *)
From S2P Require Import Prelude.

(** [Read] returns the bytes read (fewer at the end of the file) and whether
    [*has_error] was set; [Write] the number of bytes written. *)
Class IFile (F : Type) := {
  Read : F -> Z -> (bytes * bool) * F;
  Write : F -> bytes -> (Z * bool) * F;
  Seek : F -> Z -> bool * F;
  Size : F -> Z;
  Resize : F -> Z -> bool * F }.

(** The abstract file: contents and position. *)
Definition file_read (d : bytes) (pos n : Z) : bytes := zsub pos n d.
Definition file_write (d : bytes) (pos : Z) (b : bytes) : bytes :=
  zsplice pos b (zresize nul (Z.max (zlen d) (pos + zlen b)) d).

Class FileLaws (F : Type) `{IFile F} := {
  contents : F -> bytes;
  fpos : F -> Z;
  fpos_nonneg : forall f, 0 <= fpos f;
  read_law : forall f n, 0 <= n ->
    Read f n = ((file_read (contents f) (fpos f) n, false), snd (Read f n)) /\
    contents (snd (Read f n)) = contents f /\
    fpos (snd (Read f n)) = fpos f + zlen (file_read (contents f) (fpos f) n);
  write_law : forall f b,
    fst (Write f b) = (zlen b, false) /\
    contents (snd (Write f b)) = file_write (contents f) (fpos f) b /\
    fpos (snd (Write f b)) = fpos f + zlen b;
  seek_law : forall f p, 0 <= p ->
    fst (Seek f p) = true /\ contents (snd (Seek f p)) = contents f /\
    fpos (snd (Seek f p)) = p;
  size_law : forall f, Size f = zlen (contents f);
  resize_law : forall f n, 0 <= n ->
    fst (Resize f n) = true /\
    contents (snd (Resize f n)) = zresize nul n (contents f) /\
    fpos (snd (Resize f n)) = fpos f }.

Module CMemoryFile.
(** [size_t pos] *)
Record t := mk_t { data : bytes; upos : N }.
Definition pos (f : t) : Z := Z.of_N (upos f).
Definition mk (d : bytes) (p : Z) : t := mk_t d (Z.to_N p).

Definition init : t := mk [] 0.

(** [Read(spos, ..)]: both overloads. *)
Definition ReadAt (f : t) (spos bsize : Z) : bytes :=
  if zlen (data f) <=? spos then []
  else
    let rtr := Z.min bsize (zlen (data f) - spos) in
    zsub spos rtr (data f).

(** [Write(spos, ..)] *)
Definition WriteAt (f : t) (spos : Z) (buffer : bytes) : Z * t :=
  let bsize := zlen buffer in
  if zlen (data f) <? spos + bsize then
    let d := zresize nul (spos + bsize) (data f) in
    (bsize, mk (zsplice spos buffer d) (pos f))
  else
    (bsize, mk (zsplice spos buffer (data f)) (pos f)).

Definition read (f : t) (bsize : Z) : bytes * t :=
  let ret := ReadAt f (pos f) bsize in
  (ret, mk (data f) (pos f + zlen ret)).

Definition write (f : t) (buffer : bytes) : Z * t :=
  let '(written, f) := WriteAt f (pos f) buffer in
  (written, mk (data f) (pos f + written)).

Definition seek (f : t) (spos : Z) : bool * t :=
  if 0 <=? spos then (true, mk (data f) spos) else (false, f).

Definition size (f : t) : Z := zlen (data f).

Definition resize (f : t) (new_size : Z) : bool * t :=
  if new_size <? 0 then (false, f)
  else (true, mk (zresize nul new_size (data f)) (pos f)).

Definition PunchHole (f : t) (spos size : Z) : bool := false.
Definition Sync (f : t) : bool := false.
End CMemoryFile.

#[global] Instance memory_file : IFile CMemoryFile.t := {|
  Read f n := let '(b, f) := CMemoryFile.read f n in ((b, false), f);
  Write f b := let '(n, f) := CMemoryFile.write f b in ((n, false), f);
  Seek f p := CMemoryFile.seek f p;
  Size f := CMemoryFile.size f;
  Resize f n := CMemoryFile.resize f n |}.

Section FileLemmas.
Context (d : bytes).

Lemma zlen_file_write pos b :
  0 <= pos -> zlen (file_write d pos b) = Z.max (zlen d) (pos + zlen b).
Proof.
  intros. pose proof (zlen_nonneg d). pose proof (zlen_nonneg b).
  unfold file_write. rewrite zlen_zsplice; rewrite ?zlen_zresize; lia.
Qed.

Lemma file_write_end b : file_write d (zlen d) b = d ++ b.
Proof.
  pose proof (zlen_nonneg d). pose proof (zlen_nonneg b).
  unfold file_write, zsplice, zresize. rewrite Z.max_r by lia.
  rewrite (ztake_ge _ d) by lia. rewrite ztake_app_zlen. f_equal.
  rewrite zdrop_ge, app_nil_r; [done|]. rewrite zlen_app, zlen_replicate; lia.
Qed.

Lemma zsub_clip {A} (l : list A) pos n :
  0 <= pos -> 0 <= n ->
  zsub pos n l = if zlen l <=? pos then [] else zsub pos (Z.min n (zlen l - pos)) l.
Proof.
  intros. unfold zsub. destruct (Z.leb_spec (zlen l) pos).
  - rewrite zdrop_ge by done. by unfold ztake; rewrite take_nil.
  - destruct (Z.le_gt_cases n (zlen l - pos)); [by rewrite Z.min_l by lia|].
    rewrite !ztake_ge; [done|rewrite zlen_zdrop; lia..].
Qed.
End FileLemmas.

Lemma zresize_same d : zresize nul (zlen d) d = d.
Proof. unfold zresize. rewrite ztake_ge, Z.sub_diag by lia. apply app_nil_r. Qed.

Lemma WriteAt_spec f p b :
  0 <= p ->
  CMemoryFile.WriteAt f p b
  = (zlen b, CMemoryFile.mk (file_write (CMemoryFile.data f) p b) (CMemoryFile.pos f)).
Proof.
  intros Hp. unfold CMemoryFile.WriteAt, file_write.
  destruct (Z.ltb_spec (zlen (CMemoryFile.data f)) (p + zlen b)).
  - by rewrite Z.max_r by lia.
  - by rewrite Z.max_l, zresize_same by lia.
Qed.

#[global] Program Instance memory_file_laws : FileLaws CMemoryFile.t := {|
  contents := CMemoryFile.data;
  fpos := CMemoryFile.pos |}.
Next Obligation. intros f. unfold CMemoryFile.pos. lia. Qed.
Next Obligation.
  intros f n Hn. cbn. unfold CMemoryFile.read, CMemoryFile.ReadAt, file_read.
  assert (0 <= CMemoryFile.pos f) by (unfold CMemoryFile.pos; lia).
  rewrite (zsub_clip (CMemoryFile.data f) (CMemoryFile.pos f) n) by done. split; [done|]. split; [done|].
  unfold CMemoryFile.mk, CMemoryFile.pos at 1; cbn. rewrite Z2N.id; [done|].
  pose proof (zlen_nonneg (if zlen (CMemoryFile.data f) <=? CMemoryFile.pos f then []
    else zsub (CMemoryFile.pos f) (Z.min n (zlen (CMemoryFile.data f) - CMemoryFile.pos f))
           (CMemoryFile.data f))). lia.
Qed.
Next Obligation.
  intros f b. cbn. unfold CMemoryFile.write.
  assert (0 <= CMemoryFile.pos f) by (unfold CMemoryFile.pos; lia).
  rewrite WriteAt_spec by done. cbn. split; [done|]. split; [done|].
  unfold CMemoryFile.mk, CMemoryFile.pos; cbn. pose proof (zlen_nonneg b). lia.
Qed.
Next Obligation.
  intros f p Hp. cbn. unfold CMemoryFile.seek. rewrite (proj2 (Z.leb_le 0 p)) by done.
  cbn. split; [done|]. split; [done|]. unfold CMemoryFile.pos; cbn. lia.
Qed.
Next Obligation. done. Qed.
Next Obligation.
  intros f n Hn. cbn. unfold CMemoryFile.resize. rewrite (proj2 (Z.ltb_ge n 0)) by done.
  cbn. split; [done|]. split; [done|]. unfold CMemoryFile.pos, CMemoryFile.mk; cbn. lia.
Qed.

(** What is read back after a write: the new bytes where they were written, the
    old ones elsewhere, zeros in a gap. *)
Lemma znth_file_write d p b i :
  0 <= p -> 0 <= i < Z.max (zlen d) (p + zlen b) ->
  znth nul (file_write d p b) i =
  if (p <=? i) && (i <? p + zlen b) then znth nul b (i - p)
  else if i <? zlen d then znth nul d i else nul.
Proof.
  intros Hp Hi. pose proof (zlen_nonneg d). pose proof (zlen_nonneg b).
  set (n := Z.max (zlen d) (p + zlen b)) in *.
  assert (R : forall j, 0 <= j < n ->
            znth nul (zresize nul n d) j = if j <? zlen d then znth nul d j else nul).
  { intros j Hj. unfold zresize. rewrite ztake_ge by lia. destruct (Z.ltb_spec j (zlen d)).
    - by rewrite znth_app_l by lia.
    - rewrite znth_app_r by lia. unfold znth. rewrite nth_lookup.
      destruct (replicate _ nul !! _) eqn:E; [by apply lookup_replicate in E as [-> _]|done]. }
  unfold file_write, zsplice. fold n.
  assert (Lp : zlen (ztake p (zresize nul n d)) = p).
  { rewrite zlen_ztake, zlen_zresize; lia. }
  destruct (Z.leb_spec p i); [|destruct (Z.ltb_spec i (p + zlen b))]; cbn [andb].
  - destruct (Z.ltb_spec i (p + zlen b)).
    + rewrite znth_app_r, Lp by lia. by rewrite znth_app_l by lia.
    + rewrite znth_app_r, Lp by lia. rewrite znth_app_r by lia.
      rewrite <- R by lia. unfold znth, zdrop. rewrite nth_skipn. f_equal. lia.
  - rewrite znth_app_l by lia. rewrite <- R by lia. unfold znth, ztake.
    rewrite nth_firstn. destruct (Nat.ltb_spec (Z.to_nat i) (Z.to_nat p)); [done|lia].
  - lia.
Qed.

(** The in-memory file behaves as a file: after any [Write] at a position,
    reading at any range inside the file gives the written bytes inside the
    written range, the former bytes elsewhere and zeros in a gap left by
    writing past the end. *)
Theorem memory_file_read_after_write (f : CMemoryFile.t) (p : Z) (b : bytes) (i n : Z) :
  0 <= p -> 0 <= i -> 0 <= n ->
  let f' := snd (CMemoryFile.WriteAt f p b) in
  i + n <= CMemoryFile.size f' ->
  zlen (CMemoryFile.ReadAt f' i n) = n /\
  forall k, 0 <= k < n ->
    znth nul (CMemoryFile.ReadAt f' i n) k =
    if (p <=? i + k) && (i + k <? p + zlen b) then znth nul b (i + k - p)
    else if i + k <? zlen (CMemoryFile.data f) then znth nul (CMemoryFile.data f) (i + k) else nul.
Proof.
  intros Hp Hi Hn. rewrite WriteAt_spec by done. cbn. unfold CMemoryFile.size; cbn.
  rewrite zlen_file_write by done. intros Hs.
  unfold CMemoryFile.ReadAt; cbn. rewrite <- zsub_clip by done.
  split; [apply zlen_zsub; rewrite ?zlen_file_write; lia|].
  intros k Hk. rewrite <- znth_file_write by lia.
  unfold zsub, znth, ztake, zdrop. rewrite nth_firstn, nth_skipn.
  destruct (Nat.ltb_spec (Z.to_nat k) (Z.to_nat n)); [|lia]. f_equal. lia.
Qed.

Lemma memory_file_read_after_write_witness :
  let f' := snd (CMemoryFile.WriteAt (CMemoryFile.mk (str "abc") 0) 5 (str "xyz")) in
  zlen (CMemoryFile.ReadAt f' 1 6) = 6.
Proof.
  apply (memory_file_read_after_write (CMemoryFile.mk (str "abc") 0) 5 (str "xyz") 1 6);
    [lia | lia | lia | by vm_compute].
Defined.
