(* ===== verification/FileList.v ===== *)
(** File lists: [urbackupcommon/filelist_utils.cpp].

    The text format in which clients and servers exchange and store the list of
    files of a backup: [writeFileItem] prints an entry, [FileListParser] is the
    character-driven state machine that reads it back.  An [SFile] is reduced
    to the fields the format carries; log messages are left out. *)
From stdpp Require Import gmap strings.
From S2P Require Import Prelude StringTools MemFile.

Record SFile := mkSFile { name : bytes; size : Z; last_modified : Z; isdir : bool }.

(** ** Writing *)

Section Writer.
Context {F : Type} `{IFile F}.

(** The retry loop; a round that writes nothing waits and goes on.  [None]:
    the given number of rounds was not enough. *)
Fixpoint writeFileRepeat (rounds : nat) (f : F) (buf : bytes) (written : Z) : option F :=
  match rounds with
  | O => None
  | S k =>
      let '((rc, _), f) := Write f (zdrop written buf) in
      let written := w32 (written + rc) in
      if written <? zlen buf then writeFileRepeat k f buf written else Some f
  end.
End Writer.

Fixpoint escapeListName (listname : bytes) : bytes :=
  match listname with
  | [] => []
  | c :: l =>
      (if ceq c "034"%char then ["\"%char; "034"%char]
       else if ceq c "\"%char then ["\"%char; "\"%char]
       else [c]) ++ escapeListName l
  end.

Definition quote : char := "034"%char.
Definition nl : char := "010"%char.

Definition dotdot : bytes := str "..".

(** The text in front of the modification time. *)
Definition item_head (cf : SFile) : bytes :=
  if isdir cf then "d"%char :: quote :: escapeListName (name cf) ++ quote :: str " 0 "
  else "f"%char :: quote :: escapeListName (name cf) ++ quote :: " "%char :: convert (size cf) ++ str " ".

(** [writeFileItem(f, cf, written, change_identicator_off)]: the bytes written
    and the value stored in [*change_identicator_off], if any. *)
Definition writeFileItem (cf : SFile) : bytes * option Z :=
  if isdir cf && bool_decide (name cf = dotdot) then (["u"%char; nl], None)
  else
    let towrite := item_head cf in
    (towrite ++ convert (last_modified cf) ++ [nl], Some (zlen towrite)).

(** [writeFileItem(f, cf, extra)] *)
Definition writeFileItemExtra (cf : SFile) (extra : bytes) : bytes :=
  let extra := match extra with
               | c :: r => if ceq c "&"%char then "#"%char :: r else extra
               | [] => [] end in
  if isdir cf && bool_decide (name cf = dotdot) then ["u"%char; nl]
  else item_head cf ++ convert (last_modified cf) ++ extra ++ [nl].

(** ** Parsing *)

Inductive ParseState :=
| ParseState_Type | ParseState_TypeFinish | ParseState_Quote | ParseState_Name
| ParseState_NameEscape | ParseState_NameFinish | ParseState_Filesize
| ParseState_ModifiedTime | ParseState_ExtraParams.

Record FileListParser := mkParser { state : ParseState; t_name : bytes; ppos : Z }.

Definition reset : FileListParser := mkParser ParseState_Type [] 0.

Definition set_name (d : SFile) (x : bytes) : SFile := mkSFile x (size d) (last_modified d) (isdir d).
Definition set_size (d : SFile) (x : Z) : SFile := mkSFile (name d) x (last_modified d) (isdir d).
Definition set_modified (d : SFile) (x : Z) : SFile := mkSFile (name d) (size d) x (isdir d).
Definition set_isdir (d : SFile) (x : bool) : SFile := mkSFile (name d) (size d) (last_modified d) x.

Section Parser.
Context (lower : bytes -> bytes).

(** [extra = None] is the null pointer. *)
Definition clear_extra (e : option str_map) : option str_map :=
  match e with Some _ => Some ∅ | None => None end.

Abbreviation result := (bool * FileListParser * SFile * option str_map)%type.

(** The body of [case ParseState_Name], also reached from [NameFinish] by
    fall-through. *)
Definition name_case (p : FileListParser) (ch : char) (d : SFile) (e : option str_map) : result :=
  match state p with
  | ParseState_Name =>
      if ceq ch quote then
        (false, mkParser ParseState_NameFinish (t_name p ++ [ch]) (ppos p), d, e)
      else if ceq ch "\"%char then
        (false, mkParser ParseState_NameEscape (t_name p) (ppos p), d, e)
      else (false, mkParser ParseState_Name (t_name p ++ [ch]) (ppos p), d, e)
  | ParseState_NameFinish =>
      (false, mkParser ParseState_Name (t_name p ++ [ch]) (ppos p), d, e)
  | s => (false, mkParser s (t_name p ++ [ch]) (ppos p), d, e)
  end.

Definition nextEntry (p : FileListParser) (ch : char) (d : SFile) (e : option str_map) : result :=
  let p := mkParser (state p) (t_name p) (ppos p + 1) in
  let goto s := mkParser s (t_name p) (ppos p) in
  match state p with
  | ParseState_Type =>
      if ceq ch "f"%char then (false, goto ParseState_Quote, set_isdir d false, e)
      else if ceq ch "d"%char then (false, goto ParseState_Quote, set_isdir d true, e)
      else if ceq ch "u"%char then (false, goto ParseState_TypeFinish, set_isdir d true, e)
      else (false, p, d, e)
  | ParseState_TypeFinish =>
      if ceq ch nl then
        (true, reset, set_size (set_modified (set_name d dotdot) 0) 0, clear_extra e)
      else (false, p, d, e)
  | ParseState_Quote => (false, goto ParseState_Name, d, e)
  | ParseState_NameFinish =>
      if negb (ceq ch quote) then
        let t := ztake (zlen (t_name p) - 1) (t_name p) in
        let d := set_name d t in
        if isdir d && bool_decide (name d = dotdot) then
          let d := set_size (set_modified d 0) 0 in
          if ceq ch nl then (true, reset, d, clear_extra e)
          else (false, mkParser ParseState_ExtraParams [] (ppos p), d, e)
        else if isdir d && ceq ch nl then
          let d := set_size (set_modified d 0) 0 in
          (true, reset, d, clear_extra e)
        else (false, mkParser ParseState_Filesize [] (ppos p), d, e)
      else name_case p ch d e
  | ParseState_Name => name_case p ch d e
  | ParseState_NameEscape =>
      let t := if negb (ceq ch quote) && negb (ceq ch "\"%char)
               then t_name p ++ ["\"%char] else t_name p in
      (false, mkParser ParseState_Name (t ++ [ch]) (ppos p), d, e)
  | ParseState_Filesize =>
      if negb (ceq ch " "%char) then
        (false, mkParser ParseState_Filesize (t_name p ++ [ch]) (ppos p), d, e)
      else
        (false, mkParser ParseState_ModifiedTime [] (ppos p), set_size d (watoi64 (t_name p)), e)
  | ParseState_ModifiedTime =>
      if negb (ceq ch nl) && negb (ceq ch "#"%char) then
        (false, mkParser ParseState_ModifiedTime (t_name p ++ [ch]) (ppos p), d, e)
      else
        let d := set_modified d (watoi64 (t_name p)) in
        if ceq ch nl then (true, reset, d, clear_extra e)
        else (false, mkParser ParseState_ExtraParams [] (ppos p), d, e)
  | ParseState_ExtraParams =>
      if negb (ceq ch nl) then
        (false, mkParser ParseState_ExtraParams (t_name p ++ [ch]) (ppos p), d, e)
      else
        let e := match e with
                 | Some _ => Some (ParseParamStrHttp lower (t_name p) ∅ false)
                 | None => None end in
        (true, reset, d, e)
  end.

(** The loop of every caller: the characters of the file one by one, an entry
    for each [true]. *)
Fixpoint feed (p : FileListParser) (d : SFile) (e : option str_map) (s : bytes)
  : list (SFile * option str_map) * (FileListParser * SFile * option str_map) :=
  match s with
  | [] => ([], (p, d, e))
  | ch :: s =>
      let '(b, p, d, e) := nextEntry p ch d e in
      let '(out, st) := feed p d e s in
      ((if b then [(d, e)] else []) ++ out, st)
  end.
End Parser.

(** ** The parser reads back what the writer wrote *)

Section RoundTrip.
Context (lower : bytes -> bytes).

Lemma feed_app s1 : forall p d e s2,
  feed lower p d e (s1 ++ s2) =
  let '(o1, (p1, d1, e1)) := feed lower p d e s1 in
  let '(o2, st) := feed lower p1 d1 e1 s2 in (o1 ++ o2, st).
Proof.
  induction s1 as [|c s1 IH]; intros p d e s2; cbn [app feed].
  - by destruct (feed lower p d e s2).
  - destruct (nextEntry lower p c d e) as [[[b p'] d'] e']. rewrite IH.
    destruct (feed lower p' d' e' s1) as [o1 [[p1 d1] e1]].
    destruct (feed lower p1 d1 e1 s2). by rewrite app_assoc.
Qed.

(** [s] is consumed without completing an entry. *)
Definition silent p d e s p' d' : Prop := feed lower p d e s = ([], (p', d', e)).

Lemma silent_app p d e s1 s2 p1 d1 p2 d2 :
  silent p d e s1 p1 d1 -> silent p1 d1 e s2 p2 d2 -> silent p d e (s1 ++ s2) p2 d2.
Proof. unfold silent. intros H1 H2. rewrite feed_app, H1. cbn. by rewrite H2. Qed.
Lemma silent_one p d e c p1 d1 :
  nextEntry lower p c d e = (false, p1, d1, e) -> silent p d e [c] p1 d1.
Proof. unfold silent. intros H. cbn. by rewrite H. Qed.
Lemma silent_cons p d e c s p1 d1 p2 d2 :
  nextEntry lower p c d e = (false, p1, d1, e) -> silent p1 d1 e s p2 d2 ->
  silent p d e (c :: s) p2 d2.
Proof. intros H1 H2. apply (silent_app p d e [c] s p1 d1); [by apply silent_one|done]. Qed.

Lemma silent_name n : forall t k d e,
  exists k', silent (mkParser ParseState_Name t k) d e (escapeListName n)
                    (mkParser ParseState_Name (t ++ n) k') d.
Proof.
  induction n as [|c n IH]; intros t k d e; cbn [escapeListName].
  - exists k. by rewrite app_nil_r.
  - replace (t ++ c :: n) with ((t ++ [c]) ++ n) by (by rewrite <- app_assoc).
    destruct (ceq_spec c "034"%char) as [->|H1]; [|destruct (ceq_spec c "\"%char) as [->|H2]].
    + destruct (IH (t ++ ["034"%char]) (k + 1 + 1) d e) as [k' Hk]. exists k'.
      eapply silent_cons; [reflexivity|]. eapply silent_cons; [reflexivity|]. exact Hk.
    + destruct (IH (t ++ ["\"%char]) (k + 1 + 1) d e) as [k' Hk]. exists k'.
      eapply silent_cons; [reflexivity|]. eapply silent_cons; [reflexivity|]. exact Hk.
    + destruct (IH (t ++ [c]) (k + 1) d e) as [k' Hk]. exists k'.
      eapply silent_cons; [|exact Hk]. cbn. unfold name_case; cbn.
      unfold quote. by rewrite (ceq_ne c "034"), (ceq_ne c "\") by done.
Qed.

(** A state that only collects characters outside [stop]. *)
Lemma silent_collect st (stop : char -> bool) s :
  (forall t k d e c, stop c = false ->
     nextEntry lower (mkParser st t k) c d e = (false, mkParser st (t ++ [c]) (k + 1), d, e)) ->
  Forall (fun c => stop c = false) s -> forall t k d e,
  exists k', silent (mkParser st t k) d e s (mkParser st (t ++ s) k') d.
Proof.
  intros Hst H. induction H as [|c s Hc Hs IH]; intros t k d e.
  - exists k. unfold silent. by rewrite app_nil_r.
  - destruct (IH (t ++ [c]) (k + 1) d e) as [k' Hk]. exists k'.
    eapply silent_cons; [by apply Hst|]. by rewrite <- app_assoc in Hk.
Qed.

Lemma convert_plain i :
  - 2 ^ 63 <= i < 2 ^ 63 ->
  Forall (fun c => ceq c " "%char = false) (convert i) /\
  Forall (fun c => ceq c nl || ceq c "#"%char = false) (convert i).
Proof.
  intros Hi. pose proof (convert_chars i Hi) as H.
  split; (eapply List.Forall_impl; [|exact H]); intros c [Hc| ->]; try done;
    destruct c as [[] [] [] [] [] [] [] []]; vm_compute in Hc |- *; congruence.
Qed.

Lemma silent_filesize i : - 2 ^ 63 <= i < 2 ^ 63 -> forall k d e,
  exists k', silent (mkParser ParseState_Filesize [] k) d e (convert i ++ [" "%char])
                    (mkParser ParseState_ModifiedTime [] k') (set_size d i).
Proof.
  intros Hi k d e.
  destruct (silent_collect ParseState_Filesize (fun c => ceq c " "%char) (convert i)
              ltac:(intros t k' d' e' c Hc; cbn; by rewrite Hc)
              (proj1 (convert_plain i Hi)) [] k d e) as [k' Hk].
  exists (k' + 1). eapply silent_app; [exact Hk|]. apply silent_one. cbn.
  by rewrite watoi64_convert.
Qed.

Lemma silent_modified i : - 2 ^ 63 <= i < 2 ^ 63 -> forall k d e,
  exists k', silent (mkParser ParseState_ModifiedTime [] k) d e (convert i)
                    (mkParser ParseState_ModifiedTime (convert i) k') d.
Proof.
  intros Hi k d e.
  apply (silent_collect ParseState_ModifiedTime (fun c => ceq c nl || ceq c "#"%char)
           (convert i)); [|by apply convert_plain].
  intros t k' d' e' c Hc. apply orb_false_iff in Hc as [H1 H2]. cbn. by rewrite H1, H2.
Qed.

(** Up to the end of the name. *)
Lemma silent_to_name (isd : bool) n k d e :
  ~ (isd = true /\ n = dotdot) ->
  exists k' d', silent (mkParser ParseState_Type [] k) d e
    ((if isd then "d"%char else "f"%char) :: quote :: escapeListName n ++ [quote; " "%char])
    (mkParser ParseState_Filesize [] k') d' /\ name d' = n /\ isdir d' = isd.
Proof.
  intros Hn. destruct (silent_name n [] (k + 1 + 1) (set_isdir d isd) e) as [k' Hk].
  exists (k' + 1 + 1), (set_name (set_isdir d isd) n). split; [|done].
  eapply silent_cons.
  { destruct isd; reflexivity. }
  eapply silent_cons; [reflexivity|]. eapply silent_app; [exact Hk|].
  eapply silent_cons; [reflexivity|]. apply silent_one. cbn.
  rewrite zlen_app. change (zlen [quote]) with 1.
  replace (zlen n + 1 - 1) with (zlen n) by lia. rewrite ztake_app_zlen.
  rewrite andb_false_r. destruct isd; [|done]. cbn [andb].
  rewrite bool_decide_false; [done|]. intros ->. by apply Hn.
Qed.

(** A complete item with [extra] (possibly empty, otherwise introduced by
    [#] and free of line ends) makes the parser report exactly one entry and
    return to its initial state. *)
Definition extra_ok (x : bytes) : Prop :=
  x = [] \/ exists r, x = "#"%char :: r /\ Forall (fun c => c <> nl) r.
Definition entry_extra (e : option str_map) (x : bytes) : option str_map :=
  match e with
  | None => None
  | Some _ => Some (ParseParamStrHttp lower (tail x) ∅ false)
  end.

Definition entry_ok (cf : SFile) : Prop :=
  - 2 ^ 63 <= size cf < 2 ^ 63 /\ - 2 ^ 63 <= last_modified cf < 2 ^ 63.
(** What a list keeps of an entry: a directory has no size, [..] nothing. *)
Definition is_up (cf : SFile) : bool := isdir cf && bool_decide (name cf = dotdot).
Definition canon (cf : SFile) : SFile :=
  if is_up cf then mkSFile dotdot 0 0 true
  else mkSFile (name cf) (if isdir cf then 0 else size cf) (last_modified cf) (isdir cf).

Lemma entry_eq d n s m b :
  name d = n -> isdir d = b -> set_modified (set_size d s) m = mkSFile n s m b.
Proof. destruct d; cbn. by intros -> ->. Qed.

Lemma silent_to_modified cf k d e :
  entry_ok cf -> is_up cf = false ->
  exists k' d', silent (mkParser ParseState_Type [] k) d e
                  (item_head cf ++ convert (last_modified cf))
                  (mkParser ParseState_ModifiedTime (convert (last_modified cf)) k') d' /\
                set_modified d' (last_modified cf) = canon cf.
Proof.
  intros [Hs Hm] Hup. set (sz := if isdir cf then 0 else size cf).
  assert (Hsz : - 2 ^ 63 <= sz < 2 ^ 63) by (subst sz; destruct (isdir cf); lia).
  destruct (silent_to_name (isdir cf) (name cf) k d e) as (k1 & d1 & H1 & Hn & Hi).
  { intros [E1 E2]. unfold is_up in Hup. rewrite E1, E2 in Hup. by vm_compute in Hup. }
  destruct (silent_filesize sz Hsz k1 d1 e) as [k2 H2].
  destruct (silent_modified (last_modified cf) Hm k2 (set_size d1 sz) e) as [k3 H3].
  exists k3, (set_size d1 sz). split.
  - pose proof (silent_app _ _ _ _ _ _ _ _ _ (silent_app _ _ _ _ _ _ _ _ _ H1 H2) H3) as H.
    replace (item_head cf ++ convert (last_modified cf)) with
      ((((if isdir cf then "d"%char else "f"%char)
         :: quote :: escapeListName (name cf) ++ [quote; " "%char])
        ++ convert sz ++ [" "%char]) ++ convert (last_modified cf)); [exact H|].
    f_equal. unfold item_head. subst sz. destruct (isdir cf); cbn [app];
      do 2 f_equal; rewrite <- app_assoc; done.
  - unfold canon. rewrite Hup. by apply entry_eq.
Qed.

Lemma nl_or_extra x cf k d e :
  - 2 ^ 63 <= last_modified cf < 2 ^ 63 -> extra_ok x ->
  set_modified d (last_modified cf) = canon cf ->
  exists d' e',
  feed lower (mkParser ParseState_ModifiedTime (convert (last_modified cf)) k) d e (x ++ [nl])
  = ([(canon cf, e')], (reset, d', e')) /\
  (e' = match x with [] => clear_extra e | _ => entry_extra e x end).
Proof.
  intros Hm [-> |(r & -> & Hr)] E.
  - eexists _, _. split; [|done]. cbn. rewrite watoi64_convert, E by done. done.
  - cbn [app feed]. cbn. rewrite watoi64_convert, E by done.
    destruct (silent_collect ParseState_ExtraParams (fun c => ceq c nl) r
                ltac:(intros t k' d' e' c Hc; cbn; by rewrite Hc)
                ltac:(eapply List.Forall_impl; [|exact Hr]; intros c; apply ceq_ne)
                [] (k + 1) (canon cf) e) as [k' Hk].
    rewrite feed_app, Hk. eexists _, _. split; [|reflexivity]. done.
Qed.

Lemma item_head_app cf x r :
  item_head cf ++ convert (last_modified cf) ++ x ++ r
  = (item_head cf ++ convert (last_modified cf)) ++ x ++ r.
Proof. by rewrite <- app_assoc. Qed.

Lemma feed_item cf x d e :
  entry_ok cf -> extra_ok x ->
  exists d' e', feed lower reset d e (writeFileItemExtra cf x) = ([(canon cf, e')], (reset, d', e')) /\
    (e' = if is_up cf then clear_extra e
          else match x with [] => clear_extra e | _ => entry_extra e x end).
Proof.
  intros Hok Hx. unfold writeFileItemExtra.
  assert (Ex : match x with c :: r => if ceq c "&"%char then "#"%char :: r else x | [] => [] end = x).
  { destruct Hx as [->|(r & -> & _)]; done. }
  rewrite Ex. fold (is_up cf). destruct (is_up cf) eqn:Hup.
  - eexists _, _. split; [|reflexivity]. unfold canon. rewrite Hup. done.
  - destruct (silent_to_modified cf 0 d e Hok Hup) as (k' & d' & Hf & Hc).
    destruct (nl_or_extra x cf k' d' e (proj2 Hok) Hx Hc) as (d2 & e2 & Hn & He).
    exists d2, e2. split; [|done]. rewrite app_assoc, feed_app. unfold silent in Hf.
    unfold reset. rewrite Hf. by rewrite Hn.
Qed.
End RoundTrip.

(** The same text from the overload without [extra]. *)
Lemma writeFileItem_text cf : fst (writeFileItem cf) = writeFileItemExtra cf [].
Proof.
  unfold writeFileItem, writeFileItemExtra.
  by destruct (isdir cf && bool_decide (name cf = dotdot)).
Qed.

(** C21: file lists round-trip.  Feeding the text of any list of entries (any
    bytes in the names, quotes, backslashes and line ends included; any 64-bit
    sizes and times; extra parameters without line ends) to a fresh
    [FileListParser] reports exactly these entries in order, with the extra
    parameters parsed, and leaves the parser in its initial state. *)
Theorem filelist_roundtrip (lower : bytes -> bytes) (items : list (SFile * bytes)) (d : SFile)
    (e : option str_map) :
  Forall (fun i => entry_ok (fst i) /\ extra_ok (snd i)) items ->
  let '(out, (p, _, _)) :=
    feed lower reset d e (concat (map (fun i => writeFileItemExtra (fst i) (snd i)) items)) in
  p = reset /\ map fst out = map (fun i => canon (fst i)) items /\
  map snd out = map (fun i => if is_up (fst i) then clear_extra e
                              else match snd i with [] => clear_extra e
                                   | _ => entry_extra lower e (snd i) end) items.
Proof.
  intros H. revert d e. induction H as [|[cf x] items [Hok Hx] H IH]; intros d e.
  - done.
  - cbn [map concat fst snd] in *. rewrite feed_app.
    destruct (feed_item lower cf x d e Hok Hx) as (d' & e' & -> & He).
    specialize (IH d' e'). destruct (feed lower reset d' e' _) as [out [[p d2] e2]].
    destruct IH as (-> & IH1 & IH2). cbn [app map fst snd]. split; [done|].
    split; [by rewrite IH1|]. rewrite He, IH2. f_equal. apply map_ext. intros [cf2 x2]. cbn [fst snd].
    subst e'. by destruct e as [m|], (is_up cf), (is_up cf2), x, x2.
Qed.

Definition sample_items : list (SFile * bytes) :=
  [(mkSFile (str "dir" ++ [quote; nl]) 7 (-3) true, []);
   (mkSFile (str "a\b" ++ [quote]) 1234 99 false, str "#sha=ab&x=1"); (mkSFile dotdot 0 0 true, [])].

Lemma filelist_roundtrip_witness :
  let '(out, (p, _, _)) :=
    feed (fun x => x) reset (mkSFile [] 0 0 false) (Some ∅)
      (concat (map (fun i => writeFileItemExtra (fst i) (snd i)) sample_items)) in
  p = reset /\ map fst out = map (fun i => canon (fst i)) sample_items /\
  map snd out = map (fun i => if is_up (fst i) then clear_extra (Some ∅)
                              else match snd i with [] => clear_extra (Some ∅)
                                   | _ => entry_extra (fun x => x) (Some ∅) (snd i) end) sample_items.
Proof.
  apply (filelist_roundtrip (fun x => x) sample_items (mkSFile [] 0 0 false) (Some ∅)).
  apply Forall_cons_2; [split; [by vm_compute | by left]|].
  apply Forall_cons_2; [split; [by vm_compute|]|].
  - right. exists (str "sha=ab&x=1"). split; [done|].
    repeat (apply Forall_cons_2; [done|]). apply Forall_nil_2.
  - apply Forall_cons_2; [split; [by vm_compute | by left]|]. apply Forall_nil_2.
Defined.

(** ** Writing with retries *)

Section Repeat.
Context {F : Type} `{IFile F} (cont : F -> bytes).

(** A file that may write less than asked for, but something. *)
Hypothesis short_write : forall f b rc er f',
  Write f b = ((rc, er), f') ->
  0 <= rc <= zlen b /\ (b <> [] -> 1 <= rc) /\ cont f' = cont f ++ ztake rc b.

Lemma writeFileRepeat_from rounds : forall f buf written,
  zlen buf < 2 ^ 32 -> 0 <= written <= zlen buf ->
  (Z.to_nat (zlen buf - written) < rounds)%nat ->
  exists f', writeFileRepeat rounds f buf written = Some f' /\
             cont f' = cont f ++ zdrop written buf.
Proof.
  induction rounds as [|k IH]; intros f buf written Hb Hw Hr; [lia|]. cbn [writeFileRepeat].
  destruct (Write f (zdrop written buf)) as [[rc er] f'] eqn:E.
  destruct (short_write _ _ _ _ _ E) as (Hrc & Hpos & Hc).
  rewrite zlen_zdrop in Hrc by lia.
  rewrite w32_id by lia. destruct (Z.ltb_spec (written + rc) (zlen buf)) as [Hlt|Hge].
  - destruct (IH f' buf (written + rc)) as (f2 & -> & Hc2); [lia|lia| |].
    + assert (1 <= rc); [|lia]. apply Hpos. intros Ez.
      pose proof (zlen_zdrop written buf ltac:(lia)) as L. rewrite Ez in L.
      change (zlen (@nil ascii)) with 0 in L. lia.
    + exists f2. split; [done|]. rewrite Hc2, Hc, <- app_assoc. f_equal.
      rewrite <- zdrop_zdrop by lia. apply ztake_zdrop.
  - exists f'. split; [done|]. rewrite Hc. f_equal. apply ztake_ge.
    rewrite zlen_zdrop; lia.
Qed.

(** [writeFileRepeat] writes everything: on a file whose [Write] may be
    cut short (but makes progress on a non-empty request) the loop ends and
    the file has received the whole buffer, once and in order. *)
Theorem writeFileRepeat_complete (f : F) (buf : bytes) :
  zlen buf < 2 ^ 32 ->
  exists f', writeFileRepeat (S (length buf)) f buf 0 = Some f' /\ cont f' = cont f ++ buf.
Proof.
  intros Hb. destruct (writeFileRepeat_from (S (length buf)) f buf 0) as (f' & E & Hc).
  - done.
  - pose proof (zlen_nonneg buf). lia.
  - unfold zlen. lia.
  - exists f'. by rewrite zdrop_0 in Hc.
Qed.
End Repeat.

(** A file that accepts at most three bytes per call. *)
Definition three_bytes : IFile bytes := {|
  Read f n := (([], false), f);
  Write f b := ((Z.min 3 (zlen b), false), f ++ ztake 3 b);
  Seek f p := (true, f);
  Size f := zlen f;
  Resize f n := (true, f) |}.

Lemma writeFileRepeat_complete_witness :
  exists f', @writeFileRepeat bytes three_bytes 9 (str "0") (str "12345678") 0 = Some f' /\
             f' = str "0" ++ str "12345678".
Proof.
  apply (@writeFileRepeat_complete bytes three_bytes (fun f => f)).
  - intros f b rc er f'. cbn. intros [= <- _ <-]. pose proof (zlen_nonneg b).
    split; [lia|]. split.
    + intros Hb. destruct b as [|c b]; [done|]. rewrite zlen_cons. pose proof (zlen_nonneg b). lia.
    + f_equal. unfold ztake, zlen.
      destruct (Z.min_spec 3 (Z.of_nat (length b))) as [[? ->]|[? ->]]; [done|].
      rewrite !take_ge by lia. done.
  - by vm_compute.
Defined.
