(* ===== verification/Glob.v ===== *)
(** Pattern matching of file names: [urbackupcommon/glob.cpp].

    [amatch] decides the include and exclude patterns of backups.  A C string is
    the list of its characters before the terminator; [None] is a read past the
    terminator of the pattern. *)
From S2P Require Import Prelude.

Definition hd0 (s : bytes) : char := match s with c :: _ => c | [] => nul end.

(** [char] is signed on the supported targets. *)
Definition s8 (c : char) : Z := if u8 c <? 128 then u8 c else u8 c - 256.

Definition NEGATE : char := "^"%char.
Definition is_sep (c : char) : bool := ceq c "/"%char || ceq c "\"%char.
Definition is_star (c : char) : bool := ceq c "*"%char || ceq c ":"%char.

(** How the scan of a [[set]] ends: with [return false]; with [match] and the
    rest of the pattern; or having consumed the terminator as [c]. *)
Inductive set_res :=
| RetFalse
| Scanned (m : bool) (p : bytes)
| PastEnd.

Fixpoint scan_set (ch : char) (p : bytes) (m : bool) : set_res :=
  if m then Scanned m p
  else
    match p with
    | [] => PastEnd
    | c :: p1 =>
        match p1 with
        | [] => RetFalse
        | x :: p2 =>
            if ceq x "-"%char then
              match p2 with
              | [] => RetFalse
              | y :: _ =>
                  if negb (ceq y "]"%char) then
                    scan_set ch p2 (ceq ch c || ceq ch y || ((s8 c <? s8 ch) && (s8 ch <? s8 y)))
                  else Scanned (s8 c <=? s8 ch) p2
              end
            else
              let m := ceq c ch in
              if negb (ceq x "]"%char) then scan_set ch p1 (m || ceq x ch)
              else Scanned m p1
        end
    end.

(** Past the closing bracket; without one the match fails. *)
Fixpoint skip_set (p : bytes) : option bytes :=
  match p with
  | [] => None
  | c :: p => if ceq c "]"%char then Some p else skip_set p
  end.

Fixpoint skip_stars (p : bytes) : bytes :=
  match p with c :: t => if is_star c then skip_stars t else p | [] => [] end.

(** Forward to the next character of [str] the pattern can go on with. *)
Fixpoint skip_to (np : bool) (pc : char) (s : bytes) : bytes :=
  match s with
  | c :: t => if (negb np || negb (is_sep c)) && negb (ceq pc c) then skip_to np pc t else s
  | [] => []
  end.

(** [fuel] bounds the pattern characters consumed, by iteration or recursion. *)
Fixpoint amatch_fuel (fuel : nat) (s p : bytes) : option bool :=
  match fuel with
  | O => None
  | S k =>
      match p with
      | [] => Some (match s with [] => true | _ => false end)
      | c :: p =>
          match s with
          | [] => if negb (is_star c) then Some false else amatch_star k c s p
          | ch :: s' =>
              if is_star c then amatch_star k c s p
              else if ceq c "?"%char then amatch_fuel k s' p
              else if ceq c "["%char then
                let negate := ceq (hd0 p) NEGATE in
                let p := if negate then tail p else p in
                match scan_set ch p false with
                | RetFalse => Some false
                | PastEnd => if Bool.eqb negate false then Some false else None
                | Scanned m p =>
                    if Bool.eqb negate m then Some false
                    else match skip_set p with
                         | None => Some false
                         | Some p => amatch_fuel k s' p
                         end
                end
              else
                let '(c, p) := if ceq c "\"%char
                               then match p with d :: p' => (d, p') | [] => (c, p) end
                               else (c, p) in
                if negb (ceq c ch) then Some false else amatch_fuel k s' p
          end
      end
  end
with amatch_star (fuel : nat) (c : char) (s p : bytes) : option bool :=
  match fuel with
  | O => None
  | S k =>
      let np := ceq c ":"%char in
      let p := skip_stars p in
      if negb np && match p with [] => true | _ => false end then Some true
      else
        let pc := hd0 p in
        let s := if negb (ceq pc "?"%char) && negb (ceq pc "["%char) && negb (ceq pc "\"%char)
                 then skip_to np pc s else s in
        if np && match p, s with [], [] => true | _, _ => false end then Some true
        else
          (fix try (s : bytes) : option bool :=
             match s with
             | [] => Some false
             | ch :: t =>
                 match amatch_fuel k s p with
                 | None => None
                 | Some true => Some true
                 | Some false => if np && is_sep ch then Some false else try t
                 end
             end) s
  end.

Definition amatch (s p : bytes) : option bool := amatch_fuel (2 * S (length p)) s p.

(** The tests shipped with the matcher: subject, pattern, expected result. *)
Definition amatch_tests : list (string * string * bool) := [
  ("foo bar", "* bar", true); ("foo\ bar", "*\ bar", true); ("abcdef", "*", true);
  ("abcdef", ":", true); ("abcdef", "abcdef:", true); ("abcdef", "abcdef:\\", false);
  ("abcdef/", ":", false); ("abcdef/", ":/", true); ("abcdef\", ":", false);
  ("abcdef\", ":\\", true); ("abcdef/asd", ":/asd", true); ("abcdef\asd", ":asd", false);
  ("abcdef\asd", ":\\asd", true); ("abcdef/asd", ":/:", true); ("abcdef\asd", "::", false);
  ("abcdef\asd", ":\\:", true); ("abcdef\", ":\\:", true);
  ("cvab_abba", "*ab*ab*ba", true); ("cvab_abba", "*abab*ba", false);
  ("cvab_abba", ":ab:ab:ba", true); ("cvab_abba", "abab:ba", false);
  ("Users/Bernd/Documents", "Users/:/Documents", true);
  ("Users/Bernd/bla/Documents", "Users/:/Documents", false);
  ("Users/Bernd/bla/Documents", "Users/*/Documents", true);
  ("Users/Bernd/Documents", "Users/:/:/Documents", false);
  ("Users/Bernd/bla/Documents", "Users/:/:/Documents", true);
  ("Users/Bernd/bla/Documents/xyz", "Users/:/:/Documents/*", true);
  ("Users/Bernd/bla/Documents2/xyz", "Users/:/:/Documents/*", false)]%string.

Definition test_amatch : bool :=
  forallb (fun t => match t with
                    | (s, p, b) => bool_decide (amatch (str s) (str p) = Some b)
                    end) amatch_tests.

Example test_amatch_passes : test_amatch = true.
Proof. vm_compute. reflexivity. Qed.

(** ** Totality *)

(** No suffix of the pattern is [[^]: the only way to run past its end. *)
Definition trap_free (p : bytes) : Prop := forall q, p <> q ++ str "[^".

Lemma trap_free_suffix q p : trap_free (q ++ p) -> trap_free p.
Proof. intros H r ->. apply (H (q ++ r)). by rewrite app_assoc. Qed.

Lemma skip_stars_suffix p : exists q, p = q ++ skip_stars p.
Proof.
  induction p as [|c p [q IH]]; [by exists []|]. cbn. destruct (is_star c).
  - exists (c :: q). cbn. by rewrite <- IH.
  - by exists [].
Qed.

Lemma scan_set_eq ch c x p2 :
  scan_set ch (c :: x :: p2) false =
  if ceq x "-"%char then
    match p2 with
    | [] => RetFalse
    | y :: _ =>
        if negb (ceq y "]"%char) then
          scan_set ch p2 (ceq ch c || ceq ch y || ((s8 c <? s8 ch) && (s8 ch <? s8 y)))
        else Scanned (s8 c <=? s8 ch) p2
    end
  else if negb (ceq x "]"%char) then scan_set ch (x :: p2) (ceq c ch || ceq x ch)
  else Scanned (ceq c ch) (x :: p2).
Proof. reflexivity. Qed.
Lemma scan_set_true ch p : scan_set ch p true = Scanned true p.
Proof. by destruct p. Qed.

Lemma scan_set_suffix ch p : forall m m' p',
  scan_set ch p m = Scanned m' p' -> exists q, p = q ++ p'.
Proof.
  induction p as [p IH] using (well_founded_induction (Wf_nat.well_founded_ltof _ (@length ascii))).
  unfold Wf_nat.ltof in IH. intros m m' p'.
  destruct m; [rewrite scan_set_true; intros [= <- <-]; by exists []|].
  destruct p as [|c [|x p2]]; [done..|]. rewrite scan_set_eq. intros H.
  destruct (ceq x "-"%char).
  - destruct p2 as [|y p3]; [done|]. destruct (negb _).
    + apply IH in H as [q ->]; [|cbn; lia]. by exists (c :: x :: q).
    + simplify_eq. by exists [c; x].
  - destruct (negb _).
    + apply IH in H as [q ->]; [|cbn; lia]. by exists (c :: q).
    + simplify_eq. by exists [c].
Qed.

Lemma scan_set_past ch p : forall m, scan_set ch p m = PastEnd -> p = [].
Proof.
  induction p as [p IH] using (well_founded_induction (Wf_nat.well_founded_ltof _ (@length ascii))).
  unfold Wf_nat.ltof in IH. intros m.
  destruct m; [by rewrite scan_set_true|].
  destruct p as [|c [|x p2]]; [done..|]. rewrite scan_set_eq. intros H.
  destruct (ceq x "-"%char).
  - destruct p2 as [|y p3]; [done|]. destruct (negb _); [|done].
    apply IH in H; [done|cbn; lia].
  - destruct (negb _); [|done]. apply IH in H; [done|cbn; lia].
Qed.

Lemma skip_set_suffix p p' : skip_set p = Some p' -> exists q, p = q ++ p' /\ q <> [].
Proof.
  induction p as [|c p IH]; cbn; [done|]. destruct (ceq c "]"%char).
  - intros [= <-]. by exists [c].
  - intros (q & -> & _)%IH. by exists (c :: q).
Qed.

Lemma suffix_length {A} (q p : list A) : (length p <= length (q ++ p))%nat.
Proof. rewrite length_app. lia. Qed.

Definition total_below (n : nat) : Prop :=
  forall m, (m < n)%nat -> forall fuel s p,
  (length p <= m)%nat -> (2 * length p < fuel)%nat -> trap_free p ->
  exists b, amatch_fuel fuel s p = Some b.

Lemma amatch_star_total n : total_below n -> forall fuel c s p,
  (length p < n)%nat -> (2 * length p + 1 < fuel)%nat -> trap_free p ->
  exists b, amatch_star fuel c s p = Some b.
Proof.
  intros IH. intros [|k] c s p Hl Hf Ht; [lia|]. cbn [amatch_star].
  destruct (skip_stars_suffix p) as [q Hq]. set (p' := skip_stars p) in *.
  assert (Hl' : (length p' <= length p)%nat) by (rewrite Hq; apply suffix_length).
  assert (Ht' : trap_free p') by (apply (trap_free_suffix q); by rewrite <- Hq).
  match goal with |- context [if ?b then Some true else _] => destruct b; [eauto|] end.
  set (s1 := if _ && _ && _ then _ else s). clearbody s1.
  match goal with |- context [if ?b then Some true else _] => destruct b; [eauto|] end.
  induction s1 as [|ch t IHs]; [eauto|].
  destruct (IH (length p') ltac:(lia) k (ch :: t) p') as [[] E]; [lia|lia|done|..]; rewrite E.
  - eauto.
  - destruct (ceq c ":" && is_sep ch); [eauto|]. exact IHs.
Qed.

Lemma amatch_fuel_total n : forall fuel s p,
  (length p <= n)%nat -> (2 * length p < fuel)%nat -> trap_free p ->
  exists b, amatch_fuel fuel s p = Some b.
Proof.
  induction n as [n IH] using (well_founded_induction Wf_nat.lt_wf).
  pose proof (amatch_star_total n IH) as Hstar.
  intros [|k] s p Hl Hf Ht; [lia|]. cbn [amatch_fuel].
  destruct p as [|c p]; [eauto|]. cbn [length] in *.
  assert (Ht1 : trap_free p) by (by apply (trap_free_suffix [c])).
  destruct s as [|ch s].
  { destruct (negb _); [eauto|]. apply Hstar; [lia|lia|done]. }
  destruct (is_star c); [apply Hstar; [lia|lia|done]|].
  destruct (ceq c "?"%char); [apply (IH (length p)); [lia|lia|lia|done]|].
  destruct (ceq_spec c "["%char) as [->|_].
  - set (p1 := if ceq (hd0 p) NEGATE then tail p else p).
    assert (Hp1 : exists q, p = q ++ p1).
    { subst p1. destruct (ceq (hd0 p) NEGATE); [|by exists []].
      destruct p as [|x p]; [by exists []|]. by exists [x]. }
    destruct Hp1 as [q1 Hq1].
    destruct (scan_set ch p1 false) as [|m p2|] eqn:Es; [eauto|..].
    + destruct (Bool.eqb _ _); [eauto|]. destruct (skip_set p2) as [p3|] eqn:E3; [|eauto].
      destruct (scan_set_suffix _ _ _ _ _ Es) as [q2 Hq2].
      destruct (skip_set_suffix _ _ E3) as (q3 & Hq3 & _). subst p2. clear Es E3.
      clearbody p1. subst p1. subst p.
      pose proof (suffix_length q1 (q2 ++ q3 ++ p3)). pose proof (suffix_length q2 (q3 ++ p3)).
      pose proof (suffix_length q3 p3).
      apply (IH (length p3)); [lia|lia|lia|].
      apply (trap_free_suffix (q1 ++ q2 ++ q3)). by rewrite <- !app_assoc.
    + apply scan_set_past in Es. subst p1.
      destruct (ceq_spec (hd0 p) NEGATE) as [En|_]; [|eauto].
      destruct p as [|x [|? ?]]; cbn in En, Es; [done| |done].
      exfalso. subst x. by apply (Ht []).
  - destruct (ceq c "\"%char).
    + destruct p as [|d p]; destruct (negb _); eauto.
      * apply (IH 0%nat); [lia|cbn;lia|cbn in *; lia|done].
      * cbn [length] in *. apply (IH (length p)); [lia|lia|lia|].
        by apply (trap_free_suffix [d]).
    + destruct (negb _); [eauto|]. apply (IH (length p)); [lia|lia|lia|done].
Qed.

(** C33: the matcher terminates and never reads outside its strings, for every
    subject and every pattern that does not end in [[^].  (The fuel is twice
    the pattern's length: an iteration or recursive call consumes a character
    of the pattern.) *)
Theorem amatch_total (s p : bytes) : trap_free p -> exists b, amatch s p = Some b.
Proof. intros H. apply (amatch_fuel_total (length p)); [lia|lia|done]. Qed.

Lemma amatch_total_witness : exists b, amatch (str "abc") (str "a[^x-z]*") = Some b.
Proof.
  apply (amatch_total (str "abc") (str "a[^x-z]*")).
  intros q E. apply (f_equal (@rev ascii)) in E. rewrite rev_app_distr in E. by vm_compute in E.
Defined.

(** A pattern ending in [[^] runs past its terminator: the scan consumes
    the terminating zero as a set character and goes on behind it. *)
Theorem amatch_reads_past_end (c : char) (s : bytes) : amatch (c :: s) (str "[^") = None.
Proof. reflexivity. Qed.

(** ** Reference semantics *)

(** Patterns without sets, as tokens. *)
Inductive tok :=
| TLit (c : char)   (* the character itself *)
| TAny              (* [?]: any one character *)
| TStar             (* [*]: any characters *)
| TPath.            (* [:]: any characters except the path separators *)

Definition special (c : char) : bool :=
  is_star c || ceq c "?"%char || ceq c "["%char || ceq c "\"%char.

Definition render_tok (t : tok) : bytes :=
  match t with
  | TLit c => if special c then ["\"%char; c] else [c]
  | TAny => ["?"%char] | TStar => ["*"%char] | TPath => [":"%char]
  end.
Definition render (ts : list tok) : bytes := concat (map render_tok ts).

Fixpoint glob (ts : list tok) (s : bytes) : bool :=
  match ts with
  | [] => match s with [] => true | _ => false end
  | TLit c :: ts => match s with x :: s => ceq c x && glob ts s | [] => false end
  | TAny :: ts => match s with _ :: s => glob ts s | [] => false end
  | TStar :: ts =>
      (fix star s := glob ts s || match s with _ :: s => star s | [] => false end) s
  | TPath :: ts =>
      (fix star s := glob ts s || match s with x :: s => negb (is_sep x) && star s | [] => false end) s
  end.

Definition tok_star (t : tok) : bool := match t with TStar | TPath => true | _ => false end.
(** No two adjacent wildcards (the matcher takes a run of them as its first). *)
Fixpoint star_free_runs (ts : list tok) : Prop :=
  match ts with
  | t :: ((u :: _) as r) => ~ (tok_star t = true /\ tok_star u = true) /\ star_free_runs r
  | _ => True
  end.
Definition lits_ok (ts : list tok) : Prop :=
  Forall (fun t => match t with TLit c => c <> nul | _ => True end) ts.

Lemma render_head ts :
  match ts with
  | [] => render ts = []
  | t :: r => exists c q, render ts = c :: q /\ (tok_star t = false -> is_star c = false)
  end.
Proof.
  destruct ts as [|t r]; [done|]. unfold render. cbn.
  destruct t as [c| | |]; cbn; [|eauto..].
  unfold special. destruct (is_star c) eqn:E; cbn; [eauto|].
  destruct (_ || _); eauto.
Qed.

Lemma skip_stars_render ts :
  match ts with t :: _ => tok_star t = false | [] => True end ->
  skip_stars (render ts) = render ts.
Proof.
  pose proof (render_head ts) as H. destruct ts as [|t r]; [by rewrite H|].
  destruct H as (c & q & -> & Hc). intros Ht. cbn. by rewrite Hc.
Qed.

(** The wildcards of [glob], with [np] for [:]. *)
Fixpoint gstar (np : bool) (ts : list tok) (s : bytes) : bool :=
  glob ts s ||
  match s with x :: s => (negb np || negb (is_sep x)) && gstar np ts s | [] => false end.

Lemma glob_star ts s : glob (TStar :: ts) s = gstar false ts s.
Proof. induction s as [|x s IH]; [done|]. cbn in *. by rewrite IH. Qed.
Lemma glob_path ts s : glob (TPath :: ts) s = gstar true ts s.
Proof. induction s as [|x s IH]; [done|]. cbn in *. by rewrite IH. Qed.

(** What the inner loop of the matcher computes. *)
Fixpoint tries (np : bool) (ts : list tok) (s : bytes) : bool :=
  match s with
  | [] => false
  | c :: t => glob ts s || (negb (np && is_sep c) && tries np ts t)
  end.

Lemma gstar_tries np ts s : glob ts [] = false -> gstar np ts s = tries np ts s.
Proof.
  intros H. induction s as [|c s IH]; cbn [gstar tries]; [by rewrite H|].
  rewrite IH, negb_andb. done.
Qed.

Lemma gstar_skip np ts pc s :
  (forall c t, ceq pc c = false -> glob ts (c :: t) = false) ->
  gstar np ts (skip_to np pc s) = gstar np ts s.
Proof.
  intros H. induction s as [|c s IH]; [done|]. cbn [skip_to].
  destruct (negb np || negb (is_sep c)) eqn:E; cbn [andb]; [|done].
  destruct (ceq pc c) eqn:Ec; cbn [negb]; [done|].
  rewrite IH. cbn [gstar]. by rewrite (H c s Ec), E.
Qed.

(** The character a pattern continues with, when it is not a wildcard. *)
Lemma literal_head t r c q :
  render (t :: r) = c :: q -> tok_star t = false ->
  negb (ceq c "?"%char) && negb (ceq c "["%char) && negb (ceq c "\"%char) = true ->
  forall x s, ceq c x = false -> glob (t :: r) (x :: s) = false.
Proof.
  intros E Ht Hc x s Hx. destruct t as [a| | |]; try discriminate Ht;
    unfold render in E; cbn in E.
  - destruct (special a); simplify_eq/=. by rewrite Hx.
  - simplify_eq/=.
Qed.

Lemma nonstar_empty t r : tok_star t = false -> glob (t :: r) [] = false.
Proof. by destruct t. Qed.

Lemma path_end s :
  Forall (fun c => c <> nul) s ->
  gstar true [] s = match skip_to true nul s with [] => true | _ => false end /\
  tries true [] (skip_to true nul s) = false.
Proof.
  induction 1 as [|c s Hc Hs IH]; [done|]. cbn [skip_to gstar glob].
  destruct (is_sep c) eqn:E; cbn [negb orb andb].
  - split; [done|]. cbn. by rewrite E.
  - rewrite (ceq_ne nul c) by done. exact IH.
Qed.

Section Equivalence.
Context (k : nat) (ts : list tok) (p : bytes).
Hypothesis IH : forall s, Forall (fun c => c <> nul) s -> amatch_fuel k s p = Some (glob ts s).

Lemma try_spec np s :
  Forall (fun c => c <> nul) s ->
  (fix try (s : bytes) : option bool :=
     match s with
     | [] => Some false
     | ch :: t =>
         match amatch_fuel k s p with
         | None => None
         | Some true => Some true
         | Some false => if np && is_sep ch then Some false else try t
         end
     end) s = Some (tries np ts s).
Proof.
  induction 1 as [|c s Hc Hs IHs]; [done|]. cbn [tries].
  rewrite IH by (by apply Forall_cons_2). destruct (glob ts (c :: s)); [done|]. cbn [orb].
  destruct (np && is_sep c); [done|]. exact IHs.
Qed.
End Equivalence.

Lemma skip_to_nonul np pc s :
  Forall (fun c => c <> nul) s -> Forall (fun c => c <> nul) (skip_to np pc s).
Proof.
  induction 1 as [|c s Hc Hs IH]; [constructor|]. cbn. destruct (_ && _); [done|].
  by apply Forall_cons_2.
Qed.

Lemma amatch_star_spec k c ts s :
  is_star c = true ->
  match ts with t :: _ => tok_star t = false | [] => True end ->
  (forall s, Forall (fun c => c <> nul) s -> amatch_fuel k s (render ts) = Some (glob ts s)) ->
  Forall (fun c => c <> nul) s ->
  amatch_star (S k) c s (render ts) = Some (gstar (ceq c ":"%char) ts s).
Proof.
  intros Hc Hts IH Hs. cbn [amatch_star]. rewrite skip_stars_render by done.
  set (np := ceq c ":"%char). destruct ts as [|t r].
  - change (render []) with (@nil ascii) in *. destruct np eqn:Enp; cbn [negb andb].
    + destruct (path_end s Hs) as [E1 E2]. cbn [hd0].
      change (negb (ceq nul "?") && negb (ceq nul "[") && negb (ceq nul "\")) with true. cbn iota.
      rewrite E1. pose proof (skip_to_nonul true nul s Hs) as Hs'.
      destruct (skip_to true nul s) as [|x l]; [done|].
      etrans; [exact (try_spec k [] [] IH true (x :: l) Hs')|by rewrite E2].
    + f_equal. symmetry. clear. induction s as [|x s IHs]; [done|]. exact IHs.
  - pose proof (render_head (t :: r)) as (pc & q & Er & Hstar). rewrite Er. cbn [hd0].
    rewrite andb_false_r. cbn iota. rewrite Er in IH.
    rewrite (andb_false_r np). cbn iota.
    rewrite (gstar_tries np (t :: r) s) by (by apply nonstar_empty).
    destruct (negb (ceq pc "?") && negb (ceq pc "[") && negb (ceq pc "\")) eqn:El.
    + rewrite (try_spec k (t :: r) (pc :: q) IH np) by (by apply skip_to_nonul).
      rewrite <- !gstar_tries by (by apply nonstar_empty). f_equal.
      apply gstar_skip. by apply (literal_head t r pc q).
    + by rewrite (try_spec k (t :: r) (pc :: q) IH np).
Qed.

Lemma runs_tail t ts : star_free_runs (t :: ts) -> star_free_runs ts.
Proof. destruct ts; [done|]. by intros []. Qed.
Lemma runs_head t ts :
  star_free_runs (t :: ts) -> tok_star t = true ->
  match ts with u :: _ => tok_star u = false | [] => True end.
Proof. destruct ts as [|u r]; [done|]. intros [H _] Ht. destruct (tok_star u); naive_solver. Qed.

Lemma render_cons t ts : render (t :: ts) = render_tok t ++ render ts.
Proof. done. Qed.

Lemma amatch_fuel_glob ts : forall fuel s,
  (2 * length (render ts) < fuel)%nat -> star_free_runs ts -> lits_ok ts ->
  Forall (fun c => c <> nul) s -> amatch_fuel fuel s (render ts) = Some (glob ts s).
Proof.
  induction ts as [|t ts IH]; intros [|k] s Hf Hr Hl Hs; try lia; [by destruct s|].
  inversion_clear Hl as [|? ? Hlt Hl'].
  pose proof (runs_tail _ _ Hr) as Hr'. pose proof (runs_head _ _ Hr) as Hh.
  rewrite render_cons in *. rewrite length_app in Hf.
  assert (IH' : forall k s, (2 * length (render ts) < k)%nat -> Forall (fun c => c <> nul) s ->
             amatch_fuel k s (render ts) = Some (glob ts s)) by auto.
  destruct t as [c| | |]; cbn [render_tok] in *.
  - destruct (special c) eqn:Esp; cbn [app length] in *; cbn [amatch_fuel glob].
    + destruct s as [|x s]; [done|]. inversion_clear Hs. cbn.
      destruct (ceq c x); [|done]. cbn. apply IH'; [lia|done].
    + unfold special in Esp. apply orb_false_iff in Esp as [Esp E4].
      apply orb_false_iff in Esp as [Esp E3]. apply orb_false_iff in Esp as [E1 E2].
      destruct s as [|x s]; [by rewrite E1|]. inversion_clear Hs.
      rewrite E1, E2, E3, E4. destruct (ceq c x); [|done]. cbn. apply IH'; [lia|done].
  - cbn [app length amatch_fuel glob] in *. destruct s as [|x s]; [done|].
    inversion_clear Hs. cbn. apply IH'; [lia|done].
  - cbn [app length] in *. destruct k as [|k]; [lia|].
    rewrite glob_star. etrans; [|apply (amatch_star_spec k "*"%char ts s);
      [done|by apply Hh| |done]]; [by destruct s|].
    intros s' Hs'. apply IH'; [lia|done].
  - cbn [app length] in *. destruct k as [|k]; [lia|].
    rewrite glob_path. etrans; [|apply (amatch_star_spec k ":"%char ts s);
      [done|by apply Hh| |done]]; [by destruct s|].
    intros s' Hs'. apply IH'; [lia|done].
Qed.

(** C32: on patterns of literals, [?], [*] and [:] (without adjacent wildcards)
    the matcher, with its forward scanning and early exits, decides the
    reference semantics: [*] stands for any characters, [:] for any characters
    up to the next path separator, [?] for one character, an escaped or plain
    literal for itself. *)
Theorem amatch_correct (ts : list tok) (s : bytes) :
  star_free_runs ts -> lits_ok ts -> Forall (fun c => c <> nul) s ->
  amatch s (render ts) = Some (glob ts s).
Proof. intros. apply amatch_fuel_glob; [lia|done..]. Qed.

Lemma amatch_correct_witness :
  amatch (str "Users/x/Doc*") (render (map TLit (str "Users/") ++ [TPath; TLit "/"%char; TStar; TLit "*"%char]))
  = Some true.
Proof.
  apply (amatch_correct (map TLit (str "Users/") ++ [TPath; TLit "/"%char; TStar; TLit "*"%char])
           (str "Users/x/Doc*")).
  - vm_compute. intuition discriminate.
  - repeat (apply Forall_cons_2; [done|]). apply Forall_nil_2.
  - repeat (apply Forall_cons_2; [done|]). apply Forall_nil_2.
Defined.
