(* ===== verification/Midl.v ===== *)
(** ID lists of the file index's key-value store: [urbackupserver/lmdb/midl.c].

    An [MDB_IDL] points one cell past the start of its allocation: [ids[-1]] is
    the number of IDs the allocation has room for, [ids[0]] the number of IDs
    and [ids[1..]] the IDs, in descending order once sorted.  A model value is
    the whole allocation, so that [ids[i]] is cell [i + 1] of the list.  Every
    access is checked: an operation returns [None] where the C code would access
    memory outside the allocation (or the local stack of the sort), so a theorem
    that it returns [Some] is also its memory safety.

    [MDB_ID] is [size_t] (64 bits), [unsigned] and [int] have 32 bits. *)
From S2P Require Import Prelude.

Definition MDB_IDL_LOGN : Z := 16.
Definition MDB_IDL_UM_SIZE : Z := Z.shiftl 1 (MDB_IDL_LOGN + 1).
Definition MDB_IDL_UM_MAX : Z := MDB_IDL_UM_SIZE - 1.

(** ** Checked accesses *)

Definition rd (b : list Z) (i : Z) : option Z :=
  if (-1 <=? i) && (i + 1 <? zlen b) then Some (znth 0 b (i + 1)) else None.
Definition wr (b : list Z) (i x : Z) : option (list Z) :=
  if (-1 <=? i) && (i + 1 <? zlen b) then Some (zset b (i + 1) x) else None.

(** ** Binary search *)

(** [CMP(x, y)] *)
Definition CMP (x y : Z) : Z := if x <? y then -1 else if y <? x then 1 else 0.

(** The loop: [inl cursor] for the early return, [inr (cursor, val)] at its end.
    [n] at least halves, so [n < 2 ^ fuel] rounds suffice. *)
Fixpoint midl_search_loop (fuel : nat) (ids : list Z) (id base cursor val n : Z)
  : option (Z + Z * Z) :=
  if 0 <? n then
    match fuel with
    | O => None
    | S k =>
        let pivot := Z.shiftr n 1 in
        let cursor := w32 (base + pivot + 1) in
        x ← rd ids cursor;
        let val := CMP x id in
        if val <? 0 then midl_search_loop k ids id base cursor val pivot
        else if 0 <? val then midl_search_loop k ids id cursor cursor val (n - (pivot + 1))
        else Some (inl cursor)
    end
  else Some (inr (cursor, val)).

Definition mdb_midl_search (ids : list Z) (id : Z) : option Z :=
  n ← rd ids 0;
  r ← midl_search_loop 32 ids id 0 1 0 (w32 n);
  match r with
  | inl cursor => Some cursor
  | inr (cursor, val) => Some (if 0 <? val then w32 (cursor + 1) else cursor)
  end.

(** ** Allocation

    [ok] says whether the allocator returns memory; [junk] is what a fresh cell
    holds. *)

Section Alloc.
Context (junk : Z).

Definition mdb_midl_alloc (ok : bool) (num : Z) : option (list Z) :=
  if ok then
    let ids := replicate (Z.to_nat (num + 2)) junk in
    ids ← wr ids (-1) num; wr ids 0 0
  else None.

Definition realloc (ok : bool) (b : list Z) (n : Z) : option (list Z) :=
  if ok then Some (zresize junk n b) else None.

(** [*idp] afterwards; a failing [realloc] leaves it alone. *)
Definition mdb_midl_shrink (ok : bool) (ids : list Z) : option (list Z) :=
  len ← rd ids (-1);
  if MDB_IDL_UM_MAX <? len then
    match realloc ok ids (MDB_IDL_UM_MAX + 2) with
    | Some ids => wr ids (-1) MDB_IDL_UM_MAX
    | None => Some ids
    end
  else Some ids.

(** The pair is the return value, [true] for [ENOMEM], and [*idp]. *)
Definition mdb_midl_grow (ok : bool) (ids : list Z) (num : Z) : option (bool * list Z) :=
  len ← rd ids (-1);
  match realloc ok ids (w64 (len + num + 2)) with
  | None => Some (true, ids)
  | Some idn => idn ← wr idn (-1) (w64 (len + num)); Some (false, idn)
  end.

Definition mdb_midl_need (ok : bool) (ids : list Z) (num : Z) : option (bool * list Z) :=
  count ← rd ids 0;
  len ← rd ids (-1);
  let num := w32 (num + count) in
  if len <? num then
    let num := Z.land (w32 (num + num / 4 + (256 + 2))) (w32 (-256)) in
    match realloc ok ids num with
    | None => Some (true, ids)
    | Some ids => ids ← wr ids (-1) (w32 (num - 2)); Some (false, ids)
    end
  else Some (false, ids).

Definition mdb_midl_append (ok : bool) (ids : list Z) (id : Z) : option (bool * list Z) :=
  count ← rd ids 0;
  len ← rd ids (-1);
  '(err, ids) ← (if len <=? count then mdb_midl_grow ok ids MDB_IDL_UM_MAX
                 else Some (false, ids));
  if (err : bool) then Some (true, ids)
  else
    count ← rd ids 0;
    ids ← wr ids 0 (w64 (count + 1));
    ids ← wr ids (w64 (count + 1)) id;
    Some (false, ids).

(** [memcpy(&ids[at], &app[from], n * sizeof(MDB_ID))] *)
Definition midl_memcpy (ids : list Z) (at_ : Z) (app : list Z) (from n : Z) : option (list Z) :=
  if (0 <=? at_ + 1) && (at_ + 1 + n <=? zlen ids) && (0 <=? from + 1) && (from + 1 + n <=? zlen app)
     && (0 <=? n)
  then Some (zsplice (at_ + 1) (zsub (from + 1) n app) ids) else None.

Definition mdb_midl_append_list (ok : bool) (ids app : list Z) : option (bool * list Z) :=
  count ← rd ids 0;
  len ← rd ids (-1);
  n ← rd app 0;
  '(err, ids) ← (if len <=? w64 (count + n) then mdb_midl_grow ok ids (s32 n)
                 else Some (false, ids));
  if (err : bool) then Some (true, ids)
  else
    count ← rd ids 0;
    ids ← midl_memcpy ids (count + 1) app 1 n;
    ids ← wr ids 0 (w64 (count + n));
    Some (false, ids).

(** [while (n) ids[n--] = id++;] *)
Fixpoint append_range_loop (n : nat) (ids : list Z) (len id : Z) : option (list Z) :=
  match n with
  | O => Some ids
  | S k => ids ← wr ids (len + Z.of_nat n) id; append_range_loop k ids len (w64 (id + 1))
  end.

Definition mdb_midl_append_range (ok : bool) (ids : list Z) (id n : Z) : option (bool * list Z) :=
  len ← rd ids 0;
  alloc ← rd ids (-1);
  '(err, ids) ← (if alloc <? w64 (len + n) then mdb_midl_grow ok ids (s32 (Z.lor n MDB_IDL_UM_MAX))
                 else Some (false, ids));
  if (err : bool) then Some (true, ids)
  else
    ids ← wr ids 0 (w64 (len + n));
    ids ← append_range_loop (Z.to_nat n) ids len id;
    Some (false, ids).
End Alloc.

(** [mdb_midl_xappend(idl, id)] *)
Definition mdb_midl_xappend (ids : list Z) (id : Z) : option (list Z) :=
  count ← rd ids 0;
  ids ← wr ids 0 (w64 (count + 1));
  wr ids (w64 (count + 1)) id.

(** ** Merging *)

(** [for (; old_id < merge_id; old_id = idl[--j]) idl[k--] = old_id;] *)
Fixpoint xmerge_inner (fuel : nat) (idl : list Z) (merge_id old_id j k : Z)
  : option (list Z * Z * Z * Z) :=
  if old_id <? merge_id then
    match fuel with
    | O => None
    | S f =>
        idl ← wr idl k old_id;
        old_id ← rd idl (j - 1);
        xmerge_inner f idl merge_id old_id (j - 1) (k - 1)
    end
  else Some (idl, old_id, j, k).

Fixpoint xmerge_outer (i : nat) (idl merge : list Z) (old_id j k : Z) : option (list Z) :=
  match i with
  | O => Some idl
  | S i' =>
      merge_id ← rd merge (Z.of_nat i);
      '(idl, old_id, j, k) ← xmerge_inner (length idl) idl merge_id old_id j k;
      idl ← wr idl k merge_id;
      xmerge_outer i' idl merge old_id j (k - 1)
  end.

Definition mdb_midl_xmerge (idl merge : list Z) : option (list Z) :=
  i ← rd merge 0;
  j ← rd idl 0;
  let total := w64 (i + j) in
  idl ← wr idl 0 (w64 (-1));
  old_id ← rd idl j;
  idl ← xmerge_outer (Z.to_nat i) idl merge old_id j total;
  wr idl 0 total.

(** ** Sorting *)

Definition SMALL : Z := 8.
(** [sizeof(int) * CHAR_BIT * 2] entries *)
Definition istack_size : Z := 64.

Definition MIDL_SWAP (ids : list Z) (a b : Z) : option (list Z) :=
  x ← rd ids a; y ← rd ids b; ids ← wr ids a y; wr ids b x.
Definition swap_if_less (ids : list Z) (a b : Z) : option (list Z) :=
  x ← rd ids a; y ← rd ids b; if x <? y then MIDL_SWAP ids a b else Some ids.

(** [for (i=j-1;i>=1;i--) { if (ids[i] >= a) break; ids[i+1] = ids[i]; } ids[i+1] = a;] *)
Fixpoint insert_shift (fuel : nat) (ids : list Z) (a i : Z) : option (list Z) :=
  if 1 <=? i then
    match fuel with
    | O => None
    | S k =>
        x ← rd ids i;
        if a <=? x then wr ids (i + 1) a
        else ids ← wr ids (i + 1) x; insert_shift k ids a (i - 1)
    end
  else wr ids (i + 1) a.

(** [for (j=l+1;j<=ir;j++)]; [n] rounds from [j]. *)
Fixpoint insertion_sort (n : nat) (ids : list Z) (j : Z) : option (list Z) :=
  match n with
  | O => Some ids
  | S k =>
      a ← rd ids j;
      ids ← insert_shift (length ids) ids a (j - 1);
      insertion_sort k ids (j + 1)
  end.

(** [do i++; while (ids[i] > a);] and [do j--; while (ids[j] < a);] *)
Fixpoint scan_up (fuel : nat) (ids : list Z) (a i : Z) : option Z :=
  match fuel with
  | O => None
  | S k => x ← rd ids (i + 1);
           if a <? x then scan_up k ids a (i + 1) else Some (i + 1)
  end.
Fixpoint scan_down (fuel : nat) (ids : list Z) (a j : Z) : option Z :=
  match fuel with
  | O => None
  | S k => x ← rd ids (j - 1);
           if x <? a then scan_down k ids a (j - 1) else Some (j - 1)
  end.

(** The partition loop. *)
Fixpoint partition (fuel : nat) (ids : list Z) (a i j : Z) : option (list Z * Z * Z) :=
  match fuel with
  | O => None
  | S k =>
      i ← scan_up (length ids) ids a i;
      j ← scan_down (length ids) ids a j;
      if j <? i then Some (ids, i, j)
      else ids ← MIDL_SWAP ids i j; partition k ids a i j
  end.

Definition st_rd (st : list Z) (i : Z) : option Z :=
  if (0 <=? i) && (i <? zlen st) then Some (znth 0 st i) else None.
Definition st_wr (st : list Z) (i x : Z) : option (list Z) :=
  if (0 <=? i) && (i <? zlen st) then Some (zset st i x) else None.

(** The median of three and the partition of [l .. ir]: the array, [i] and [j]. *)
Definition sort_split (ids : list Z) (l ir : Z) : option (list Z * Z * Z) :=
  let k := Z.shiftr (s32 (l + ir)) 1 in
  ids ← MIDL_SWAP ids k (l + 1);
  ids ← swap_if_less ids l ir;
  ids ← swap_if_less ids (l + 1) ir;
  ids ← swap_if_less ids l (l + 1);
  a ← rd ids (l + 1);
  '(ids, i, j) ← partition (length ids) ids a (l + 1) ir;
  x ← rd ids j;
  ids ← wr ids (l + 1) x;
  ids ← wr ids j a;
  Some (ids, i, j).

(** The outer loop. *)
Fixpoint sort_loop (fuel : nat) (ids istack : list Z) (l ir jstack : Z) : option (list Z) :=
  match fuel with
  | O => None
  | S f =>
      if ir - l <? SMALL then
        ids ← insertion_sort (Z.to_nat (ir - l)) ids (l + 1);
        if jstack =? 0 then Some ids
        else
          ir ← st_rd istack jstack;
          l ← st_rd istack (jstack - 1);
          sort_loop f ids istack l ir (jstack - 2)
      else
        '(ids, i, j) ← sort_split ids l ir;
        let jstack := jstack + 2 in
        if j - l <=? ir - i + 1 then
          istack ← st_wr istack jstack ir;
          istack ← st_wr istack (jstack - 1) i;
          sort_loop f ids istack l (j - 1) jstack
        else
          istack ← st_wr istack jstack (j - 1);
          istack ← st_wr istack (jstack - 1) l;
          sort_loop f ids istack i ir jstack
  end.

(** The local [istack] starts with indeterminate entries, [junk]. *)
Definition mdb_midl_sort (junk : Z) (ids : list Z) : option (list Z) :=
  n ← rd ids 0;
  sort_loop (2 * length ids + 2) ids (replicate (Z.to_nat istack_size) junk) 1 (s32 n) 0.

(** ** ID/pointer lists *)

Record MDB_ID2 := mk_id2 { mid : Z; mptr : Z }.
Definition id2_0 : MDB_ID2 := mk_id2 0 0.

(** An [MDB_ID2L] points to the first cell, whose [mid] is the count. *)
Definition rd2 (b : list MDB_ID2) (i : Z) : option MDB_ID2 :=
  if (0 <=? i) && (i <? zlen b) then Some (znth id2_0 b i) else None.
Definition wr2 (b : list MDB_ID2) (i : Z) (x : MDB_ID2) : option (list MDB_ID2) :=
  if (0 <=? i) && (i <? zlen b) then Some (zset b i x) else None.

Fixpoint mid2l_search_loop (fuel : nat) (ids : list MDB_ID2) (id base cursor val n : Z)
  : option (Z + Z * Z) :=
  if 0 <? n then
    match fuel with
    | O => None
    | S k =>
        let pivot := Z.shiftr n 1 in
        let cursor := w32 (base + pivot + 1) in
        x ← rd2 ids cursor;
        let val := CMP id (mid x) in
        if val <? 0 then mid2l_search_loop k ids id base cursor val pivot
        else if 0 <? val then mid2l_search_loop k ids id cursor cursor val (n - (pivot + 1))
        else Some (inl cursor)
    end
  else Some (inr (cursor, val)).

Definition mdb_mid2l_search (ids : list MDB_ID2) (id : Z) : option Z :=
  h ← rd2 ids 0;
  r ← mid2l_search_loop 32 ids id 0 1 0 (w32 (mid h));
  match r with
  | inl cursor => Some cursor
  | inr (cursor, val) => Some (if 0 <? val then w32 (cursor + 1) else cursor)
  end.

(** [for (i=ids[0].mid; i>x; i--) ids[i] = ids[i-1];] *)
Fixpoint mid2l_shift (n : nat) (ids : list MDB_ID2) (i : Z) : option (list MDB_ID2) :=
  match n with
  | O => Some ids
  | S k => y ← rd2 ids (i - 1); ids ← wr2 ids i y; mid2l_shift k ids (i - 1)
  end.

(** The return value and the list afterwards. *)
Definition mdb_mid2l_insert (ids : list MDB_ID2) (id : MDB_ID2) : option (Z * list MDB_ID2) :=
  x ← mdb_mid2l_search ids (mid id);
  h ← rd2 ids 0;
  if x <? 1 then Some (-2, ids)
  else
    dup ← (if x <=? mid h then y ← rd2 ids x; Some (mid y =? mid id) else Some false);
    if (dup : bool) then Some (-1, ids)
    else if MDB_IDL_UM_MAX <=? mid h then Some (-2, ids)
    else
      let count := w64 (mid h + 1) in
      ids ← wr2 ids 0 (mk_id2 count (mptr h));
      ids ← mid2l_shift (Z.to_nat (w32 count - x)) ids (w32 count);
      ids ← wr2 ids x id;
      Some (0, ids).

Definition mdb_mid2l_append (ids : list MDB_ID2) (id : MDB_ID2) : option (Z * list MDB_ID2) :=
  h ← rd2 ids 0;
  if MDB_IDL_UM_MAX <=? mid h then Some (-2, ids)
  else
    let count := w64 (mid h + 1) in
    ids ← wr2 ids 0 (mk_id2 count (mptr h));
    ids ← wr2 ids count id;
    Some (0, ids).

(** ** Total views of the checked accesses *)

Definition ix (b : list Z) (i : Z) : Z := znth 0 b (i + 1).
Definition up (b : list Z) (i x : Z) : list Z := zset b (i + 1) x.

Lemma rd_in b i : -1 <= i -> i + 1 < zlen b -> rd b i = Some (ix b i).
Proof. intros. unfold rd. by rewrite (proj2 (Z.leb_le _ _)), (proj2 (Z.ltb_lt _ _)). Qed.
Lemma wr_in b i x : -1 <= i -> i + 1 < zlen b -> wr b i x = Some (up b i x).
Proof. intros. unfold wr. by rewrite (proj2 (Z.leb_le _ _)), (proj2 (Z.ltb_lt _ _)). Qed.
Lemma zlen_up b i x : zlen (up b i x) = zlen b.
Proof. apply zlen_zset. Qed.
Lemma ix_up_eq b i x : -1 <= i -> i + 1 < zlen b -> ix (up b i x) i = x.
Proof. intros. apply znth_zset_eq. lia. Qed.
Lemma ix_up_ne b i j x : -1 <= i -> -1 <= j -> i <> j -> ix (up b i x) j = ix b j.
Proof. intros. apply znth_zset_ne; lia. Qed.
Lemma ix_ext b c :
  zlen b = zlen c -> (forall i, -1 <= i -> i + 1 < zlen b -> ix b i = ix c i) -> b = c.
Proof.
  intros Hl H. apply (list_eq_znth 0); [done|]. intros i Hi.
  specialize (H (i - 1)). unfold ix in H. replace (i - 1 + 1) with i in H by lia. apply H; lia.
Qed.
Lemma up_ix b i : -1 <= i -> i + 1 < zlen b -> up b i (ix b i) = b.
Proof.
  intros. apply ix_ext; [apply zlen_up|]. rewrite zlen_up. intros k Hk Hk'.
  destruct (decide (i = k)) as [->|]; [by rewrite ix_up_eq|by rewrite ix_up_ne].
Qed.

(** Case analysis on the index of an update. *)
Ltac ixs :=
  repeat match goal with
  | |- context [ix (up ?b ?i ?x) ?j] =>
      let E := fresh in
      destruct (decide (i = j)) as [E|E];
      [rewrite <- E; rewrite (ix_up_eq b i x) by (rewrite ?zlen_up; lia)
      |rewrite (ix_up_ne b i j x) by lia]
  end.

(** ** Binary search: the loop both searches share

    [probe c] is the comparison at position [c]. *)

Fixpoint search_with (fuel : nat) (probe : Z -> option Z) (base cursor val n : Z)
  : option (Z + Z * Z) :=
  if 0 <? n then
    match fuel with
    | O => None
    | S k =>
        let pivot := Z.shiftr n 1 in
        let cursor := w32 (base + pivot + 1) in
        val ← probe cursor;
        if val <? 0 then search_with k probe base cursor val pivot
        else if 0 <? val then search_with k probe cursor cursor val (n - (pivot + 1))
        else Some (inl cursor)
    end
  else Some (inr (cursor, val)).

Lemma midl_search_with fuel ids id : forall base cursor val n,
  midl_search_loop fuel ids id base cursor val n =
  search_with fuel (fun c => x ← rd ids c; Some (CMP x id)) base cursor val n.
Proof.
  induction fuel as [|f IH]; intros; cbn; [done|]. destruct (0 <? n); [|done].
  destruct (rd ids _); cbn; [|done]. by repeat case_match.
Qed.
Lemma mid2l_search_with fuel ids id : forall base cursor val n,
  mid2l_search_loop fuel ids id base cursor val n =
  search_with fuel (fun c => x ← rd2 ids c; Some (CMP id (mid x))) base cursor val n.
Proof.
  induction fuel as [|f IH]; intros; cbn; [done|]. destruct (0 <? n); [|done].
  destruct (rd2 ids _); cbn; [|done]. by repeat case_match.
Qed.

Section Search.
Context (probe : Z -> option Z) (v : Z -> Z) (N : Z).
Hypothesis (HN : 0 <= N < 2 ^ 32 - 1).
Hypothesis (Hprobe : forall c, 1 <= c <= N -> probe c = Some (v c)).
Hypothesis (Hmono : forall p q, 1 <= p < q -> q <= N -> v p <= 0 -> v q < 0).

(** Where the comparisons change sign. *)
Definition found_at (x : Z) : Prop :=
  1 <= x <= N + 1 /\ (forall i, 1 <= i < x -> 0 < v i) /\
  (forall i, x < i <= N -> v i < 0) /\ (x <= N -> v x <= 0).

Definition search_end (r : Z + Z * Z) : Z :=
  match r with inl c => c | inr (c, val) => if 0 <? val then w32 (c + 1) else c end.

Lemma search_stop base cursor val :
  0 <= base <= N -> (if 0 <? val then cursor = base else cursor = base + 1) ->
  (forall i, 1 <= i <= base -> 0 < v i) -> (forall i, base < i <= N -> v i < 0) ->
  found_at (search_end (inr (cursor, val))).
Proof using HN.
  intros Hb Hc Hlo Hhi. cbn [search_end].
  assert (E : (if 0 <? val then w32 (cursor + 1) else cursor) = base + 1)
    by (destruct (0 <? val); rewrite Hc; [apply w32_id; lia|done]).
  rewrite E. split_and!; [lia..|intros; apply Hlo; lia|intros; apply Hhi; lia|].
  intros. specialize (Hhi (base + 1)). lia.
Qed.

Lemma search_with_spec fuel : forall base cursor val n,
  0 <= base -> 0 <= n < 2 ^ Z.of_nat fuel -> base + n <= N ->
  (forall i, 1 <= i <= base -> 0 < v i) -> (forall i, base + n < i <= N -> v i < 0) ->
  (n = 0 -> if 0 <? val then cursor = base else cursor = base + 1) ->
  exists r, search_with fuel probe base cursor val n = Some r /\ found_at (search_end r).
Proof using HN Hprobe Hmono.
  induction fuel as [|f IH]; intros base cursor val n Hb Hn HbN Hlo Hhi Hc; cbn [search_with].
  all: destruct (Z.ltb_spec 0 n).
  - cbn in Hn. lia.
  - eexists. split; [done|]. replace n with 0 in * by lia. rewrite Z.add_0_r in Hhi.
    apply (search_stop base); [lia|by apply Hc|done|done].
  - rewrite Nat2Z.inj_succ, Z.pow_succ_r in Hn by lia.
    rewrite Z.shiftr_div_pow2 by lia. change (2 ^ 1) with 2.
    assert (Hp : 0 <= n / 2 /\ n / 2 < n /\ n - (n / 2 + 1) <= n / 2 /\ n / 2 < 2 ^ Z.of_nat f).
    { pose proof (Z.div_mod n 2 ltac:(lia)). pose proof (Z.mod_pos_bound n 2 ltac:(lia)). lia. }
    rewrite w32_id by lia. set (c := base + n / 2 + 1) in *.
    rewrite Hprobe by lia. cbn [mbind option_bind].
    destruct (Z.ltb_spec (v c) 0); [|destruct (Z.ltb_spec 0 (v c))].
    + apply IH; try lia; [done| |].
      * intros i Hi. destruct (decide (i = c)) as [->|]; [done|].
        destruct (decide (base + n < i)); [apply Hhi; lia|]. apply (Hmono c i); lia.
      * intros E. destruct (Z.ltb_spec 0 (v c)); lia.
    + apply IH; try lia.
      * intros i Hi. destruct (decide (i = c)) as [->|]; [done|].
        destruct (decide (0 < v i)); [done|]. specialize (Hmono i c). lia.
      * intros i Hi. apply Hhi. lia.
      * intros E. destruct (Z.ltb_spec 0 (v c)); lia.
    + eexists. split; [done|]. cbn [search_end]. split_and!; try lia.
      * intros i Hi. destruct (decide (0 < v i)); [done|]. specialize (Hmono i c). lia.
      * intros i Hi. apply (Hmono c i); lia.
  - eexists. split; [done|]. replace n with 0 in * by lia. rewrite Z.add_0_r in Hhi.
    apply (search_stop base); [lia|by apply Hc|done|done].
Qed.
End Search.

Lemma CMP_sign x y : (CMP x y < 0 <-> x < y) /\ (0 < CMP x y <-> y < x) /\ (CMP x y <= 0 <-> x <= y).
Proof. unfold CMP. destruct (Z.ltb_spec x y), (Z.ltb_spec y x); lia. Qed.

Lemma midl_search_spec b n id :
  rd b 0 = Some n -> 0 <= n < 2 ^ 32 - 1 -> n + 2 <= zlen b ->
  StronglySorted Z.gt (zsub 2 n b) -> forall fuel, n < 2 ^ Z.of_nat fuel ->
  exists r, midl_search_loop fuel b id 0 1 0 n = Some r /\
    found_at (fun c => CMP (ix b c) id) n (search_end r).
Proof.
  intros Hn Hr Hl Hs fuel HF. rewrite midl_search_with.
  apply (search_with_spec _ _ n Hr); try done; try lia.
  - intros c Hc. by rewrite rd_in by lia.
  - intros p q Hp Hq H. pose proof (CMP_sign (ix b p) id). pose proof (CMP_sign (ix b q) id).
    pose proof (znth_sorted 0 Z.gt _ (p - 1) (q - 1) Hs) as G. rewrite zlen_zsub in G by lia.
    rewrite !znth_zsub in G by lia. unfold ix in *.
    replace (2 + (p - 1)) with (p + 1) in G by lia. replace (2 + (q - 1)) with (q + 1) in G by lia. lia.
Qed.

Lemma midl_search_eq b n id :
  rd b 0 = Some n -> 0 <= n < 2 ^ 32 ->
  mdb_midl_search b id = r ← midl_search_loop 32 b id 0 1 0 n; Some (search_end r).
Proof.
  intros Hn Hr. unfold mdb_midl_search. generalize 32%nat as fuel. intros. rewrite Hn. cbn [mbind option_bind]. rewrite w32_id by lia.
  destruct (midl_search_loop _ _ _ _ _ _ _) as [[|[]]|]; done.
Qed.

(** On a strictly descending list [mdb_midl_search] returns the position of
    the first ID that is at most [id] (one past the end when there is none), so
    the IDs before it are greater; it reads no cell outside the list. *)
Theorem mdb_midl_search_correct (b : list Z) (n id : Z) :
  rd b 0 = Some n -> 0 <= n < 2 ^ 32 - 1 -> n + 2 <= zlen b ->
  StronglySorted Z.gt (zsub 2 n b) ->
  exists x, mdb_midl_search b id = Some x /\ 1 <= x <= n + 1 /\
    (forall i, 1 <= i < x -> id < ix b i) /\ (forall i, x <= i <= n -> ix b i <= id).
Proof.
  intros Hn Hr Hl Hs.
  destruct (midl_search_spec b n id Hn Hr Hl Hs 32) as (r & E & F1 & F2 & F3 & F4); [lia|].
  exists (search_end r). split_and!; try lia.
  - rewrite (midl_search_eq b n) by (done || lia). by rewrite E.
  - intros i Hi. pose proof (CMP_sign (ix b i) id). specialize (F2 i). lia.
  - intros i Hi. pose proof (CMP_sign (ix b i) id). specialize (F3 i).
    destruct (decide (i = search_end r)) as [->|]; lia.
Qed.

Lemma mdb_midl_search_correct_witness :
  exists x, mdb_midl_search [9; 3; 30; 20; 10; 0; 0] 25 = Some x /\ 1 <= x <= 3 + 1 /\
    (forall i, 1 <= i < x -> 25 < ix [9; 3; 30; 20; 10; 0; 0] i) /\
    (forall i, x <= i <= 3 -> ix [9; 3; 30; 20; 10; 0; 0] i <= 25).
Proof.
  apply (mdb_midl_search_correct [9; 3; 30; 20; 10; 0; 0] 3 25);
    [reflexivity|lia|vm_compute; discriminate|].
  vm_compute. repeat constructor.
Defined.

(** ** The list an allocation represents *)

(** [b] has room for [cap] IDs and holds [l]. *)
Definition idl (cap : Z) (l b : list Z) : Prop :=
  exists rest, b = cap :: zlen l :: l ++ rest /\ zlen l + zlen rest = cap.

Lemma idl_rd cap l b : idl cap l b ->
  rd b (-1) = Some cap /\ rd b 0 = Some (zlen l) /\ zlen b = cap + 2 /\ 0 <= zlen l <= cap.
Proof.
  intros (rest & -> & Hc). pose proof (zlen_nonneg l). pose proof (zlen_nonneg rest).
  assert (L : zlen (cap :: zlen l :: l ++ rest) = cap + 2) by (rewrite !zlen_cons, zlen_app; lia).
  split_and!; try lia; rewrite rd_in by lia; done.
Qed.

(** Writing past the two header cells. *)
Lemma wr_body h1 h2 (l : list Z) x r i y :
  i = zlen l + 1 -> wr (h1 :: h2 :: l ++ x :: r) i y = Some (h1 :: h2 :: l ++ y :: r).
Proof.
  intros ->. pose proof (zlen_nonneg l). pose proof (zlen_nonneg r).
  rewrite wr_in by (rewrite ?zlen_cons, ?zlen_app, ?zlen_cons; lia). f_equal. unfold up.
  apply (zset_mid (h1 :: h2 :: l)). rewrite !zlen_cons. lia.
Qed.
Lemma wr_count cap c c' (r : list Z) : wr (cap :: c :: r) 0 c' = Some (cap :: c' :: r).
Proof. pose proof (zlen_nonneg r). rewrite wr_in by (rewrite ?zlen_cons; lia). done. Qed.
Lemma wr_alloc cap cap' (r : list Z) : wr (cap :: r) (-1) cap' = Some (cap' :: r).
Proof. pose proof (zlen_nonneg r). rewrite wr_in by (rewrite ?zlen_cons; lia). done. Qed.

Lemma lor_bounds n :
  0 <= n < 2 ^ 31 -> n <= Z.lor n MDB_IDL_UM_MAX < 2 ^ 31.
Proof.
  intros Hn. change MDB_IDL_UM_MAX with (2 ^ 17 - 1).
  pose proof (Z.add_lor_land n (2 ^ 17 - 1)) as E. rewrite land_mask in E by lia.
  pose proof (Z.mod_pos_bound n (2 ^ 17) ltac:(lia)).
  pose proof (Z.div_mod n (2 ^ 17) ltac:(lia)). lia.
Qed.

Section Ops.
Context (junk : Z).

(** Reallocating to more cells keeps what is there. *)
Lemma realloc_idl cap l b n : idl cap l b -> cap + 2 <= n ->
  exists b', realloc junk true b n = Some b' /\ forall c', c' = n - 2 ->
    exists b'', wr b' (-1) c' = Some b'' /\ idl c' l b''.
Proof.
  intros (rest & -> & Hc) Hn. unfold realloc, zresize. eexists. split; [done|].
  intros c' ->. pose proof (zlen_nonneg l). pose proof (zlen_nonneg rest).
  rewrite ztake_ge by (rewrite ?zlen_cons, ?zlen_app; lia). cbn [app].
  rewrite wr_alloc. eexists. split; [done|].
  exists (rest ++ replicate (Z.to_nat (n - (cap + 2))) junk). split.
  - do 2 f_equal. rewrite <- app_assoc. do 2 f_equal.
    f_equal. rewrite !zlen_cons, zlen_app. lia.
  - rewrite zlen_app, zlen_replicate by lia. lia.
Qed.

Lemma grow_idl ok cap l b num :
  idl cap l b -> 0 <= num -> cap + num + 2 < 2 ^ 64 ->
  exists err b', mdb_midl_grow junk ok b num = Some (err, b') /\
    if (err : bool) then ok = false /\ b' = b else idl (cap + num) l b'.
Proof.
  intros Hi Hn Hw. unfold mdb_midl_grow. destruct (idl_rd _ _ _ Hi) as (-> & _ & _ & ?).
  cbn [mbind option_bind]. rewrite !w64_id by lia. destruct ok.
  - destruct (realloc_idl cap l b (cap + num + 2) Hi) as (b' & -> & Hwr); [lia|].
    destruct (Hwr (cap + num)) as (b'' & -> & ?); [lia|]. by exists false, b''.
  - by exists true, b.
Qed.

(** Reserving room: what [mdb_midl_need] promises. *)
Lemma need_idl ok cap l b num :
  idl cap l b -> 0 <= num -> 2 * (zlen l + num) + 258 < 2 ^ 32 ->
  exists err b', mdb_midl_need junk ok b num = Some (err, b') /\
    if (err : bool) then ok = false /\ b' = b
    else exists cap', cap <= cap' /\ zlen l + num <= cap' /\ idl cap' l b'.
Proof.
  intros Hi Hn Hw. unfold mdb_midl_need. destruct (idl_rd _ _ _ Hi) as (-> & -> & _ & ?).
  cbn [mbind option_bind]. rewrite (w32_id (num + zlen l)) by lia.
  destruct (Z.ltb_spec cap (num + zlen l)).
  - set (m := num + zlen l) in *.
    assert (Hq : 0 <= m / 4 <= m) by (split; [apply Z.div_pos; lia|apply Z.div_le_upper_bound; lia]).
    rewrite (w32_id (m + m / 4 + (256 + 2))) by lia.
    set (x := m + m / 4 + (256 + 2)) in *.
    assert (E : Z.land x (w32 (-256)) = x - x mod 256).
    { change (w32 (-256)) with (2 ^ 32 - 2 ^ 8). apply land_high; lia. }
    rewrite E. pose proof (Z.mod_pos_bound x 256 ltac:(lia)).
    destruct ok.
    + destruct (realloc_idl cap l b (x - x mod 256) Hi) as (b' & -> & H'); [lia|].
      rewrite w32_id by lia.
      destruct (H' (x - x mod 256 - 2)) as (b'' & -> & ?); [lia|].
      exists false, b''. split; [done|]. exists (x - x mod 256 - 2). split_and!; try done; lia.
    + by exists true, b.
  - exists false, b. split; [done|]. exists cap. split_and!; try done; lia.
Qed.

(** Appending one ID to a list with room. *)
Lemma put_idl cap l b id : idl cap l b -> zlen l < cap -> cap < 2 ^ 63 ->
  exists b', (b1 ← wr b 0 (w64 (zlen l + 1)); wr b1 (w64 (zlen l + 1)) id) = Some b' /\
    idl cap (l ++ [id]) b'.
Proof.
  intros (rest & -> & Hc) Hr Hw. pose proof (zlen_nonneg l). rewrite w64_id by lia.
  destruct rest as [|x rest]; [change (zlen (@nil Z)) with 0 in Hc; lia|].
  rewrite wr_count. cbn [mbind option_bind]. rewrite wr_body by lia. eexists. split; [done|].
  exists rest. rewrite zlen_cons in Hc. rewrite zlen_app, <- app_assoc.
  change (zlen [id]) with 1. split; [done|]. lia.
Qed.

Lemma append_idl ok cap l b id :
  idl cap l b -> cap < 2 ^ 62 ->
  exists err b', mdb_midl_append junk ok b id = Some (err, b') /\
    if (err : bool) then ok = false /\ b' = b
    else exists cap', cap <= cap' /\ idl cap' (l ++ [id]) b'.
Proof.
  intros Hi Hw. unfold mdb_midl_append. destruct (idl_rd _ _ _ Hi) as (-> & -> & _ & ?).
  cbn [mbind option_bind]. destruct (Z.leb_spec cap (zlen l)).
  - destruct (grow_idl ok cap l b MDB_IDL_UM_MAX Hi) as (err & b1 & -> & Hi1); [done|change MDB_IDL_UM_MAX with 131071; lia|].
    cbn [mbind option_bind]. destruct err; [by exists true, b1|].
    destruct (idl_rd _ _ _ Hi1) as (_ & -> & _ & ?). cbn [mbind option_bind].
    destruct (put_idl _ l b1 id Hi1) as (b2 & E & Hi2); [change MDB_IDL_UM_MAX with 131071; lia..|].
    destruct (wr b1 _ _); [|done]. cbn [mbind option_bind] in *. rewrite E.
    exists false, b2. split; [done|]. exists (cap + MDB_IDL_UM_MAX).
    split; [change MDB_IDL_UM_MAX with 131071; lia|done].
  - cbn [mbind option_bind]. destruct (idl_rd _ _ _ Hi) as (_ & -> & _ & _). cbn [mbind option_bind].
    destruct (put_idl _ l b id Hi) as (b2 & E & Hi2); [lia..|].
    destruct (wr b _ _); [|done]. cbn [mbind option_bind] in *. rewrite E.
    exists false, b2. split; [done|]. by exists cap.
Qed.

Lemma append_list_idl ok cap l b capm m mb :
  idl cap l b -> idl capm m mb -> cap < 2 ^ 62 -> zlen m < 2 ^ 31 ->
  exists err b', mdb_midl_append_list junk ok b mb = Some (err, b') /\
    if (err : bool) then ok = false /\ b' = b
    else exists cap', cap <= cap' /\ idl cap' (l ++ m) b'.
Proof.
  intros Hi Hm Hw Hz. unfold mdb_midl_append_list.
  destruct (idl_rd _ _ _ Hi) as (-> & -> & _ & ?). destruct (idl_rd _ _ _ Hm) as (_ & -> & Hlm & ?).
  cbn [mbind option_bind]. rewrite w64_id, s32_id by lia.
  assert (Hput : forall c b1, idl c l b1 -> zlen l + zlen m <= c -> c < 2 ^ 63 ->
    exists b', (count ← rd b1 0; b2 ← midl_memcpy b1 (count + 1) mb 1 (zlen m);
                b3 ← wr b2 0 (w64 (count + zlen m)); Some (false, b3)) = Some (false, b') /\
               idl c (l ++ m) b').
  { clear Hi b. intros c b Hi Hc Hcw. pose proof (idl_rd _ _ _ Hi) as (_ & -> & Hl & _).
    cbn [mbind option_bind]. unfold midl_memcpy.
    rewrite !(proj2 (Z.leb_le _ _)) by lia. cbn [andb mbind option_bind].
    destruct Hi as (rest & -> & Hr). destruct Hm as (rm & -> & Hrm).
    assert (Es : zsub (1 + 1) (zlen m) (capm :: zlen m :: m ++ rm) = m).
    { change (capm :: zlen m :: m ++ rm) with ([capm; zlen m] ++ m ++ rm).
      by apply zsub_app_zlen. }
    rewrite Es. unfold zsplice.
    replace (zlen l + 1 + 1) with (zlen (c :: zlen l :: l)) by (rewrite !zlen_cons; lia).
    change (c :: zlen l :: l ++ rest) with ((c :: zlen l :: l) ++ rest).
    rewrite ztake_app_zlen, zdrop_app_ge by lia. rewrite w64_id by lia.
    cbn [app]. rewrite wr_count. cbn [mbind option_bind]. eexists. split; [done|].
    exists (zdrop (zlen m) rest). split.
    - rewrite zlen_app, <- app_assoc. do 4 f_equal. f_equal. lia.
    - rewrite zlen_app, zlen_zdrop by lia. lia. }
  destruct (Z.leb_spec cap (zlen l + zlen m)).
  - destruct (grow_idl ok cap l b (zlen m) Hi) as (err & b1 & -> & Hi1); [lia|lia|].
    cbn [mbind option_bind]. destruct err; [by exists true, b1|].
    destruct (Hput (cap + zlen m) b1 Hi1) as (b' & -> & ?); [lia..|].
    exists false, b'. split; [done|]. exists (cap + zlen m). split; [lia|done].
  - cbn [mbind option_bind]. destruct (Hput cap b Hi) as (b' & -> & ?); [lia..|].
    exists false, b'. split; [done|]. by exists cap.
Qed.

Lemma append_range_loop_spec c cnt (l : list Z) n : forall gap suf id,
  length gap = n -> 0 <= id -> id + Z.of_nat n <= 2 ^ 64 ->
  append_range_loop n (c :: cnt :: l ++ gap ++ suf) (zlen l) id =
  Some (c :: cnt :: l ++ rev (seqZ id (Z.of_nat n)) ++ suf).
Proof.
  induction n as [|n IH]; intros gap suf id Hg Hid Hw.
  { by destruct gap. }
  destruct gap as [|x gap _] using rev_ind; [done|]. rewrite length_app in Hg. cbn in Hg.
  cbn [append_range_loop]. rewrite <- app_assoc, app_assoc. cbn [app].
  rewrite wr_body by (rewrite zlen_app; unfold zlen; lia). cbn [mbind option_bind].
  rewrite <- app_assoc. rewrite seqZ_cons by lia. cbn [rev]. rewrite <- app_assoc. cbn [app].
  destruct n as [|n].
  - destruct gap; [|cbn in Hg; lia]. done.
  - rewrite w64_id by lia. rewrite IH by lia.
    replace (Z.pred (Z.of_nat (S (S n)))) with (Z.of_nat (S n)) by lia. by rewrite <- Z.add_1_r.
Qed.

Lemma append_range_idl ok cap l b id n :
  idl cap l b -> cap < 2 ^ 62 -> 0 <= n < 2 ^ 31 -> 0 <= id -> id + n <= 2 ^ 64 ->
  exists err b', mdb_midl_append_range junk ok b id n = Some (err, b') /\
    if (err : bool) then ok = false /\ b' = b
    else exists cap', cap <= cap' /\ idl cap' (l ++ rev (seqZ id n)) b'.
Proof.
  intros Hi Hw Hn Hid Hidn. unfold mdb_midl_append_range.
  destruct (idl_rd _ _ _ Hi) as (-> & -> & _ & ?). cbn [mbind option_bind].
  assert (Hlor : n <= Z.lor n MDB_IDL_UM_MAX < 2 ^ 31) by by apply lor_bounds.
  rewrite !w64_id, s32_id by lia.
  assert (Hput : forall c b1, idl c l b1 -> zlen l + n <= c ->
    exists b', (b2 ← wr b1 0 (zlen l + n); b3 ← append_range_loop (Z.to_nat n) b2 (zlen l) id;
                Some (false, b3)) = Some (false, b') /\ idl c (l ++ rev (seqZ id n)) b').
  { clear Hi b. intros c b (rest & -> & Hr) Hc. rewrite wr_count. cbn [mbind option_bind].
    replace (l ++ rest) with (l ++ ztake n rest ++ zdrop n rest) by (by rewrite ztake_zdrop).
    rewrite append_range_loop_spec by (unfold ztake, zlen in *; rewrite ?length_take; lia).
    rewrite Z2Nat.id by lia. cbn [mbind option_bind]. eexists. split; [done|].
    assert (Hz : zlen (rev (seqZ id n)) = n)
      by (unfold zlen; rewrite length_rev, length_seqZ; lia).
    exists (zdrop n rest). rewrite zlen_app, Hz, zlen_zdrop, <- app_assoc by lia. split; [done|lia]. }
  destruct (Z.ltb_spec cap (zlen l + n)).
  - destruct (grow_idl ok cap l b (Z.lor n MDB_IDL_UM_MAX) Hi) as (err & b1 & -> & Hi1); [lia|lia|].
    cbn [mbind option_bind]. destruct err; [by exists true, b1|].
    destruct (Hput _ b1 Hi1) as (b' & -> & ?); [lia|].
    exists false, b'. split; [done|]. eexists. split; [|done]. lia.
  - cbn [mbind option_bind]. destruct (Hput cap b Hi) as (b' & -> & ?); [lia|].
    exists false, b'. split; [done|]. by exists cap.
Qed.

Lemma alloc_idl num b : 0 <= num -> mdb_midl_alloc junk true num = Some b -> idl num [] b.
Proof.
  intros Hn. unfold mdb_midl_alloc. replace (Z.to_nat (num + 2)) with (S (S (Z.to_nat num))) by lia.
  cbn [replicate]. rewrite wr_alloc. cbn [mbind option_bind]. rewrite wr_count.
  intros [= <-]. exists (replicate (Z.to_nat num) junk). split; [done|].
  rewrite zlen_replicate by done. change (zlen (@nil Z)) with 0. lia.
Qed.

(** A list that fits keeps its IDs when the allocation shrinks. *)
Lemma shrink_idl ok cap l b :
  idl cap l b -> zlen l <= MDB_IDL_UM_MAX ->
  exists cap' b', mdb_midl_shrink junk ok b = Some b' /\ cap' <= cap /\ idl cap' l b'.
Proof.
  intros Hi Hl. unfold mdb_midl_shrink. destruct (idl_rd _ _ _ Hi) as (-> & _ & _ & ?).
  cbn [mbind option_bind]. destruct (Z.ltb_spec MDB_IDL_UM_MAX cap) as [Hc|Hc].
  - destruct ok; cbn [realloc]; [|exists cap, b; split_and!; [done|lia|done]].
    destruct Hi as (rest & -> & Hr). unfold zresize. change MDB_IDL_UM_MAX with 131071 in *.
    change (cap :: zlen l :: l ++ rest) with ([cap; zlen l] ++ l ++ rest).
    rewrite ztake_app_ge, ztake_app_ge by (change (zlen [cap; zlen l]) with 2; lia).
    change (zlen [cap; zlen l]) with 2. pose proof (zlen_nonneg rest).
    assert (Hz : zlen ([cap; zlen l] ++ l ++ rest) = cap + 2)
      by (rewrite !zlen_app; change (zlen [cap; zlen l]) with 2; lia).
    rewrite Hz. replace (Z.to_nat (131071 + 2 - (cap + 2))) with O by lia. cbn [replicate app].
    rewrite app_nil_r, wr_alloc. exists 131071. eexists. split_and!; [done|lia|].
    eexists. split; [done|]. rewrite zlen_ztake by lia. lia.
  - exists cap, b. split_and!; [done|lia|done].
Qed.
End Ops.

(** ** Refinement: the operations as list operations *)

(** An ID list with [slack] unused cells. *)
Definition block (m slack : list Z) : list Z := zlen m + zlen slack :: zlen m :: m ++ slack.
Lemma block_idl m slack : idl (zlen m + zlen slack) m (block m slack).
Proof. by exists slack. Qed.

Inductive idl_op :=
| OpAppend (id : Z)
| OpAppendList (m slack : list Z)
| OpAppendRange (id n : Z)
| OpNeed (num : Z).

Definition run_op (junk : Z) (ok : bool) (b : list Z) (o : idl_op) : option (bool * list Z) :=
  match o with
  | OpAppend id => mdb_midl_append junk ok b id
  | OpAppendList m slack => mdb_midl_append_list junk ok b (block m slack)
  | OpAppendRange id n => mdb_midl_append_range junk ok b id n
  | OpNeed num => mdb_midl_need junk ok b num
  end.
(** What the operation does to the list of IDs; a range is appended in descending order. *)
Definition spec_op (l : list Z) (o : idl_op) : list Z :=
  match o with
  | OpAppend id => l ++ [id]
  | OpAppendList m _ => l ++ m
  | OpAppendRange id n => l ++ rev (seqZ id n)
  | OpNeed _ => l
  end.
(** The arguments fit the C types, and the page numbers do not wrap. *)
Definition op_ok (l : list Z) (o : idl_op) : Prop :=
  match o with
  | OpAppend _ => True
  | OpAppendList m _ => zlen m < 2 ^ 31
  | OpAppendRange id n => 0 <= n < 2 ^ 31 /\ 0 <= id /\ id + n <= 2 ^ 64
  | OpNeed num => 0 <= num /\ 2 * (zlen l + num) + 258 < 2 ^ 32
  end.

Lemma run_op_idl junk ok cap l b o :
  idl cap l b -> cap < 2 ^ 62 -> op_ok l o ->
  exists err b', run_op junk ok b o = Some (err, b') /\
    if (err : bool) then ok = false /\ b' = b
    else exists cap', cap <= cap' /\ idl cap' (spec_op l o) b'.
Proof.
  intros Hi Hw Ho. destruct o as [id|m slack|id n|num]; cbn [run_op spec_op op_ok] in *.
  - by apply append_idl.
  - by apply (append_list_idl _ _ _ _ _ _ _ _ Hi (block_idl m slack)).
  - destruct Ho as (? & ? & ?). by apply append_range_idl.
  - destruct Ho. destruct (need_idl junk ok cap l b num) as (err & b' & -> & Hb'); [done..|].
    exists err, b'. split; [done|]. destruct err; [done|].
    destruct Hb' as (cap' & ? & ? & ?). by exists cap'.
Qed.

(** C28: the growing operations on ID lists refine list operations.  On an
    allocation that represents [l], each of [mdb_midl_append],
    [mdb_midl_append_list], [mdb_midl_append_range] and [mdb_midl_need] either
    reports [ENOMEM], only when the allocator fails and with the allocation as it
    was, or leaves an allocation at least as large that represents [spec_op l o];
    no cell outside the allocation is accessed. *)
Theorem midl_ops_refine (junk : Z) (ok : bool) (cap : Z) (l b : list Z) (o : idl_op) :
  idl cap l b -> cap < 2 ^ 62 -> op_ok l o ->
  exists err b', run_op junk ok b o = Some (err, b') /\
    if (err : bool) then ok = false /\ b' = b
    else exists cap', cap <= cap' /\ idl cap' (spec_op l o) b'.
Proof. apply run_op_idl. Qed.

Lemma midl_ops_refine_witness :
  exists err b', run_op 0 true (block [9; 7] [0]) (OpAppendRange 20 3) = Some (err, b') /\
    if (err : bool) then true = false /\ b' = block [9; 7] [0]
    else exists cap', 3 <= cap' /\ idl cap' (spec_op [9; 7] (OpAppendRange 20 3)) b'.
Proof.
  apply (midl_ops_refine 0 true 3 [9; 7] (block [9; 7] [0]) (OpAppendRange 20 3));
    [apply (block_idl [9; 7] [0])|lia|cbn; lia].
Defined.

(** ** Merging two descending lists *)

(** Lengths of appended singletons. *)
Ltac zl1 := rewrite ?zlen_app, ?zlen_cons; change (zlen (@nil Z)) with 0; lia.

Definition delim : Z := w64 (-1).
Definition lastd (l : list Z) : Z := List.last l delim.

Lemma rd_last cap (l r : list Z) j :
  j = zlen l -> rd (cap :: delim :: l ++ r) j = Some (lastd l).
Proof.
  intros ->. pose proof (zlen_nonneg l). pose proof (zlen_nonneg r).
  rewrite rd_in by (rewrite ?zlen_cons, ?zlen_app; lia). f_equal. unfold ix, lastd.
  destruct l as [|x l _] using rev_ind; [done|]. rewrite List.last_last, zlen_app.
  change (zlen [x]) with 1. rewrite !znth_cons_S by (pose proof (zlen_nonneg l); lia).
  rewrite <- app_assoc, znth_app_r by lia. replace (_ - _) with 0 by lia. done.
Qed.

(** The inner loop moves the IDs below [m] to the end of the gap. *)
Lemma xmerge_inner_spec cap m : m <= delim -> forall (l : list Z) fuel gap suf j k,
  StronglySorted Z.ge l -> (length l <= fuel)%nat -> gap <> [] ->
  j = zlen l -> k = zlen l + zlen gap ->
  exists l1 l2 gap', l = l1 ++ l2 /\ zlen gap' = zlen gap /\
    Forall (fun x => m <= x) l1 /\ Forall (fun x => x < m) l2 /\
    xmerge_inner fuel (cap :: delim :: l ++ gap ++ suf) m (lastd l) j k =
      Some (cap :: delim :: l1 ++ gap' ++ l2 ++ suf, lastd l1, zlen l1, zlen l1 + zlen gap).
Proof.
  intros Hm. induction l as [|x l IH] using rev_ind; intros fuel gap suf j k Hs Hf Hg -> ->.
  - exists [], [], gap. split_and!; try done. unfold lastd, xmerge_inner. cbn.
    destruct fuel; cbn [xmerge_inner]; destruct (Z.ltb_spec delim m); done || lia.
  - rewrite length_app in Hf. cbn in Hf. destruct fuel as [|f]; [lia|].
    assert (El : lastd (l ++ [x]) = x) by apply List.last_last. rewrite El.
    cbn [xmerge_inner]. destruct (Z.ltb_spec x m) as [Hx|Hx].
    + destruct gap as [|g gap _] using rev_ind; [done|].
      rewrite <- !app_assoc. cbn [app].
      replace (l ++ x :: gap ++ g :: suf) with ((l ++ x :: gap) ++ g :: suf) by (by rewrite <- app_assoc).
      rewrite wr_body by zl1.
      rewrite <- app_assoc. cbn [mbind option_bind app].
      rewrite rd_last by zl1.
      cbn [mbind option_bind].
      destruct (IH f (x :: gap) (x :: suf) (zlen (l ++ [x]) - 1) (zlen (l ++ [x]) + zlen (gap ++ [g]) - 1))
        as (l1 & l2 & gap' & -> & Hl & F1 & F2 & E).
      { by apply StronglySorted_app_1_l in Hs. }
      { lia. } { done. }
      { zl1. }
      { zl1. }
      cbn [app] in E. rewrite E. exists l1, (l2 ++ [x]), gap'.
      rewrite <- !app_assoc. split_and!; try done.
      * rewrite Hl, zlen_app, !zlen_cons. done.
      * apply List.Forall_app. split; [done|by constructor].
      * do 3 f_equal. rewrite zlen_cons, zlen_app. done.
    + exists (l ++ [x]), [], gap. rewrite El. split_and!; try done; [by rewrite app_nil_r|].
      apply List.Forall_app. split; [|by constructor].
      apply List.Forall_forall. intros y Hy.
      assert (y >= x); [|lia].
      eapply (StronglySorted_app_1_elem_of Z.ge l [x]); [done|by apply list_elem_of_In|by left].
Qed.

Lemma sorted_insert (l1 l2 suf : list Z) m :
  StronglySorted Z.ge ((l1 ++ l2) ++ suf) -> Forall (fun x => m <= x) l1 ->
  Forall (fun x => x < m) l2 -> Forall (fun x => x <= m) suf ->
  StronglySorted Z.ge (l1 ++ m :: l2 ++ suf) /\ Forall (fun x => x <= m) (m :: l2 ++ suf).
Proof.
  intros Hs F1 F2 F3. rewrite <- app_assoc in Hs.
  assert (F : Forall (fun x => x <= m) (l2 ++ suf)).
  { apply List.Forall_app. split; [|done]. eapply List.Forall_impl; [|exact F2]. cbn. lia. }
  split; [|constructor; [lia|done]].
  apply StronglySorted_app in Hs as (G & G1 & G2).
  apply StronglySorted_app. split_and!; [|done|].
  - intros x y Hx Hy. rewrite List.Forall_forall in F1. specialize (F1 x).
    rewrite <- list_elem_of_In in F1. specialize (F1 Hx). cbn in F1. apply elem_of_cons in Hy as [->|Hy]; [lia|]. by apply G.
  - constructor; [done|]. eapply List.Forall_impl; [|exact F]. cbn. lia.
Qed.

Lemma xmerge_outer_spec cap mb h1 h2 rest m : forall l gap suf mr,
  mb = h1 :: h2 :: m ++ mr -> zlen gap = zlen m -> Forall (fun x => x <= delim) m ->
  StronglySorted Z.ge (l ++ suf) -> StronglySorted Z.ge (m ++ suf) ->
  exists r, xmerge_outer (length m) (cap :: delim :: l ++ gap ++ suf ++ rest) mb
              (lastd l) (zlen l) (zlen l + zlen gap) = Some (cap :: delim :: r ++ rest) /\
    r ≡ₚ l ++ m ++ suf /\ StronglySorted Z.ge r.
Proof.
  induction m as [|y m IH] using rev_ind; intros l gap suf mr Hmb Hg Hd Hl Hm.
  - destruct gap; [|rewrite zlen_cons in Hg; pose proof (zlen_nonneg gap);
      change (zlen (@nil Z)) with 0 in Hg; lia].
    exists (l ++ suf). cbn. by rewrite <- app_assoc.
  - apply List.Forall_app in Hd as [Hd Hy%Forall_inv].
    assert (Hf : Forall (fun x => x <= y) suf).
    { apply List.Forall_forall. intros x Hx. assert (y >= x); [|lia].
      eapply (StronglySorted_app_1_elem_of Z.ge (m ++ [y]) suf); [done| |by apply list_elem_of_In].
      apply elem_of_app. right. by left. }
    rewrite length_app. cbn [length]. rewrite Nat.add_1_r. cbn [xmerge_outer].
    assert (Hrd : rd mb (Z.of_nat (S (length m))) = Some y).
    { subst mb. pose proof (zlen_nonneg m). pose proof (zlen_nonneg mr).
      rewrite rd_in by (rewrite ?zlen_cons, ?zlen_app; unfold zlen in *; cbn; lia). f_equal.
      unfold ix. rewrite !znth_cons_S by lia. rewrite <- app_assoc.
      rewrite znth_app_r by (unfold zlen; lia). unfold zlen.
      replace (_ - Z.of_nat (length m)) with 0 by lia. done. }
    rewrite Hrd. cbn [mbind option_bind].
    assert (Hgap : gap <> []).
    { intros ->. rewrite zlen_app in Hg. change (zlen [y]) with 1 in Hg.
      change (zlen (@nil Z)) with 0 in Hg. pose proof (zlen_nonneg m). lia. }
    destruct (xmerge_inner_spec cap y Hy l (length (cap :: delim :: l ++ gap ++ suf ++ rest))
                gap (suf ++ rest) (zlen l) (zlen l + zlen gap)) as (l1 & l2 & gap' & -> & Hg' & F1 & F2 & E);
      [by apply StronglySorted_app_1_l in Hl|cbn; rewrite !length_app; lia|done|done|done|].
    rewrite E. cbn [mbind option_bind]. destruct gap' as [|g gap' _] using rev_ind.
    { change (zlen (@nil Z)) with 0 in Hg'. rewrite Hg, zlen_app in Hg'. change (zlen [y]) with 1 in Hg'.
      pose proof (zlen_nonneg m). lia. }
    replace (l1 ++ (gap' ++ [g]) ++ l2 ++ suf ++ rest) with ((l1 ++ gap') ++ g :: (l2 ++ suf) ++ rest)
      by (by rewrite <- !app_assoc).
    rewrite wr_body by (rewrite <- Hg'; zl1). cbn [mbind option_bind].
    destruct (sorted_insert l1 l2 suf y Hl F1 F2 Hf) as [Hl' Hf'].
    destruct (IH l1 gap' (y :: l2 ++ suf) ([y] ++ mr)) as (r & E' & Hr & Hs).
    + rewrite Hmb, <- app_assoc. done.
    + rewrite Hg, !zlen_app in Hg'. change (zlen [y]) with 1 in Hg'. change (zlen [g]) with 1 in Hg'. lia.
    + done.
    + done.
    + rewrite <- app_assoc in Hm. apply StronglySorted_app in Hm as (G & G1 & G2).
      apply StronglySorted_app. split_and!; [|done|].
      * intros x z Hx Hz. assert (x >= y) by (apply G; [done|by left]).
        rewrite List.Forall_forall in Hf'. specialize (Hf' z). rewrite <- list_elem_of_In in Hf'.
        specialize (Hf' Hz). cbn in Hf'. lia.
      * constructor; [by apply StronglySorted_app_1_r in Hl'; inversion_clear Hl'|].
        apply Forall_inv_tail in Hf'. eapply List.Forall_impl; [|exact Hf']. cbn. lia.
    + exists r. split_and!; [|rewrite Hr|done].
      * rewrite <- Hg', zlen_app. change (zlen [g]) with 1.
        replace (zlen l1 + (zlen gap' + 1) - 1) with (zlen l1 + zlen gap') by lia.
        rewrite <- E', <- !app_assoc. cbn [app]. by rewrite <- ?app_assoc.
      * rewrite <- !app_assoc. cbn [app]. apply Permutation_app_head.
        transitivity ((m ++ [y]) ++ l2 ++ suf); [by rewrite <- app_assoc|].
        rewrite Permutation_app_swap_app. by rewrite <- app_assoc.
Qed.

(** Merging a descending ID list into a descending ID list with enough room
    for both ends with the first one holding all IDs of both, in descending
    order, in the same allocation and without an access outside of it. *)
Theorem mdb_midl_xmerge_correct (cap : Z) (l b : list Z) (capm : Z) (m mb : list Z) :
  idl cap l b -> idl capm m mb -> zlen l + zlen m <= cap -> cap < 2 ^ 62 ->
  Forall (fun x => x < 2 ^ 64) m -> StronglySorted Z.ge l -> StronglySorted Z.ge m ->
  exists r b', mdb_midl_xmerge b mb = Some b' /\ idl cap r b' /\
    r ≡ₚ l ++ m /\ StronglySorted Z.ge r.
Proof.
  intros Hi Hm Hc Hw Hd Hl Hms. unfold mdb_midl_xmerge.
  destruct (idl_rd _ _ _ Hi) as (_ & -> & _ & ?). destruct (idl_rd _ _ _ Hm) as (_ & -> & _ & ?).
  cbn [mbind option_bind]. rewrite w64_id by lia.
  destruct Hi as (rest & -> & Hr). destruct Hm as (mr & -> & Hmr).
  rewrite wr_count. cbn [mbind option_bind]. change (w64 (-1)) with delim.
  rewrite rd_last by done. cbn [mbind option_bind].
  destruct (xmerge_outer_spec cap (capm :: zlen m :: m ++ mr) capm (zlen m) (zdrop (zlen m) rest) m l
              (ztake (zlen m) rest) [] mr) as (r & E & Hp & Hs);
    rewrite ?app_nil_r; try done.
  { rewrite zlen_ztake by lia. lia. }
  { eapply List.Forall_impl; [|exact Hd]. cbn. change delim with (2 ^ 64 - 1). lia. }
  cbn [app] in E. rewrite ztake_zdrop, zlen_ztake in E by lia.
  replace (Z.to_nat (zlen m)) with (length m) by (unfold zlen; lia).
  replace (zlen m + zlen l) with (zlen l + Z.min (zlen m) (zlen rest)) by lia.
  rewrite E. cbn [mbind option_bind]. rewrite wr_count. rewrite app_nil_r in Hp.
  assert (Hz : zlen r = zlen l + zlen m).
  { rewrite <- zlen_app. unfold zlen. by rewrite Hp. }
  eexists r, _. split_and!; [done| |done|done].
  exists (zdrop (zlen m) rest). rewrite zlen_zdrop by lia. split; [|lia].
  do 2 f_equal. lia.
Qed.

Lemma mdb_midl_xmerge_correct_witness :
  exists r b', mdb_midl_xmerge (block [30; 20; 10] [0; 0; 0; 0]) (block [25; 20; 5] []) = Some b' /\
    idl 7 r b' /\ r ≡ₚ [30; 20; 10] ++ [25; 20; 5] /\ StronglySorted Z.ge r.
Proof.
  apply (mdb_midl_xmerge_correct 7 [30; 20; 10] (block [30; 20; 10] [0; 0; 0; 0])
           3 [25; 20; 5] (block [25; 20; 5] []));
    [apply (block_idl [30; 20; 10] [0; 0; 0; 0])|apply (block_idl [25; 20; 5] [])
    |vm_compute; discriminate|lia|repeat constructor|..]; repeat constructor; vm_compute; discriminate.
Defined.

(** ** ID/pointer lists *)

(** [b] holds the entries [l] after its header; [room] unused cells follow. *)
Definition id2l (l : list MDB_ID2) (room : Z) (b : list MDB_ID2) : Prop :=
  exists p rest, b = mk_id2 (zlen l) p :: l ++ rest /\ zlen rest = room.

Definition by_mid (x y : MDB_ID2) : Prop := mid x < mid y.

Lemma rd2_in b i : 0 <= i < zlen b -> rd2 b i = Some (znth id2_0 b i).
Proof. intros. unfold rd2. rewrite (proj2 (Z.leb_le _ _)), (proj2 (Z.ltb_lt _ _)) by lia. done. Qed.
Lemma wr2_in b i x : 0 <= i < zlen b -> wr2 b i x = Some (zset b i x).
Proof. intros. unfold wr2. rewrite (proj2 (Z.leb_le _ _)), (proj2 (Z.ltb_lt _ _)) by lia. done. Qed.
Lemma wr2_body h (l : list MDB_ID2) x r i y :
  i = zlen l + 1 -> wr2 (h :: l ++ x :: r) i y = Some (h :: l ++ y :: r).
Proof.
  intros ->. pose proof (zlen_nonneg l). pose proof (zlen_nonneg r).
  rewrite wr2_in by (rewrite ?zlen_cons, ?zlen_app, ?zlen_cons; lia). f_equal.
  apply (zset_mid (h :: l)). rewrite zlen_cons. lia.
Qed.
Lemma rd2_body h (l : list MDB_ID2) x r i :
  i = zlen l + 1 -> rd2 (h :: l ++ x :: r) i = Some x.
Proof.
  intros ->. pose proof (zlen_nonneg l). pose proof (zlen_nonneg r).
  rewrite rd2_in by (rewrite ?zlen_cons, ?zlen_app, ?zlen_cons; lia). f_equal.
  rewrite znth_cons_S, znth_app_r by lia. by replace (_ - zlen l) with 0 by lia.
Qed.

(** The search splits the entries around [id]. *)
Lemma mid2l_search_split l room b id :
  id2l l room b -> zlen l < 2 ^ 32 - 1 -> StronglySorted by_mid l ->
  exists l1 l2, l = l1 ++ l2 /\ mdb_mid2l_search b id = Some (zlen l1 + 1) /\
    Forall (fun x => mid x < id) l1 /\ match l2 with x :: _ => id <= mid x | [] => True end.
Proof.
  intros (p & rest & -> & Hr) Hn Hs. pose proof (zlen_nonneg l). pose proof (zlen_nonneg rest).
  unfold mdb_mid2l_search. generalize (eq_refl 32%nat). generalize 32%nat at 1 3 as fuel.
  intros fuel Hfuel. assert (Hf : zlen l < 2 ^ Z.of_nat fuel) by (rewrite Hfuel; lia). clear Hfuel.
  rewrite rd2_in by (rewrite zlen_cons, zlen_app; lia). rewrite znth_cons_0. cbn [mbind option_bind mid].
  rewrite w32_id by lia. rewrite mid2l_search_with.
  assert (Hix : forall c, 1 <= c <= zlen l ->
    rd2 (mk_id2 (zlen l) p :: l ++ rest) c = Some (znth id2_0 l (c - 1))).
  { intros c Hc. rewrite rd2_in by (rewrite zlen_cons, zlen_app; lia).
    by rewrite znth_cons_S, znth_app_l by lia. }
  destruct (search_with_spec (fun c => x ← rd2 (mk_id2 (zlen l) p :: l ++ rest) c; Some (CMP id (mid x)))
              (fun c => CMP id (mid (znth id2_0 l (c - 1)))) (zlen l) ltac:(lia))
    with (fuel := fuel) (base := 0) (cursor := 1) (val := 0) (n := zlen l)
    as (r & -> & F1 & F2 & F3 & F4); try done; try lia.
  { intros c Hc. by rewrite Hix by done. }
  { intros i j Hi Hj Hc. pose proof (CMP_sign id (mid (znth id2_0 l (i - 1)))).
    pose proof (CMP_sign id (mid (znth id2_0 l (j - 1)))).
    assert (by_mid (znth id2_0 l (i - 1)) (znth id2_0 l (j - 1))) as Hb
      by (apply znth_sorted; [done|lia|lia]).
    unfold by_mid in Hb. lia. }
  exists (ztake (search_end r - 1) l), (zdrop (search_end r - 1) l). split_and!.
  - by rewrite ztake_zdrop.
  - cbn [mbind option_bind]. rewrite zlen_ztake by lia.
    assert (E : Z.min (search_end r - 1) (zlen l) + 1 = search_end r) by lia. rewrite E.
    by destruct r as [|[]].
  - apply List.Forall_forall. intros x (i & Hi & <-)%(In_nth _ _ id2_0).
    specialize (F2 (Z.of_nat i + 1)).
    pose proof (zlen_ztake (search_end r - 1) l ltac:(lia)) as Hz. unfold zlen in Hz.
    pose proof (znth_ztake id2_0 l (search_end r - 1) (Z.of_nat i) ltac:(lia)) as E.
    unfold znth in E. rewrite Nat2Z.id in E. rewrite E.
    unfold znth in F2. replace (Z.to_nat (Z.of_nat i + 1 - 1)) with i in F2 by lia.
    pose proof (CMP_sign id (mid (nth i l id2_0))). lia.
  - destruct (zdrop (search_end r - 1) l) as [|x l2] eqn:E; [done|].
    assert (Hz : zlen (zdrop (search_end r - 1) l) = zlen l2 + 1) by (by rewrite E, zlen_cons).
    rewrite zlen_zdrop in Hz by lia. pose proof (zlen_nonneg l2).
    pose proof (znth_zdrop id2_0 l (search_end r - 1) 0 ltac:(lia) ltac:(lia)) as Ex.
    rewrite E, znth_cons_0, Z.add_0_r in Ex. rewrite Ex.
    pose proof (CMP_sign id (mid (znth id2_0 l (search_end r - 1)))). lia.
Qed.

(** The loop moves the entries from position [x] on one cell up. *)
Lemma mid2l_shift_spec h (l1 l2 : list MDB_ID2) : forall y r i,
  i = zlen l1 + zlen l2 + 1 ->
  mid2l_shift (length l2) (h :: l1 ++ l2 ++ y :: r) i =
  Some (h :: l1 ++ (match l2 with x :: _ => x | [] => y end) :: l2 ++ r).
Proof.
  induction l2 as [|x l2 IH] using rev_ind; intros y r i ->; [done|].
  rewrite length_app. cbn [length]. rewrite Nat.add_1_r. cbn [mid2l_shift].
  assert (L : zlen (l2 ++ [x]) = zlen l2 + 1) by (by rewrite zlen_app). rewrite L.
  rewrite <- app_assoc. cbn [app]. rewrite (app_assoc l1 l2).
  rewrite rd2_body by (rewrite zlen_app; lia). cbn [mbind option_bind].
  change (x :: y :: r) with ([x] ++ y :: r). rewrite (app_assoc _ [x]).
  rewrite wr2_body by (rewrite !zlen_app; change (zlen [x]) with 1; lia). cbn [mbind option_bind].
  rewrite <- !app_assoc. cbn [app]. rewrite IH by lia. by destruct l2.
Qed.

Lemma sorted_split (l1 l2 : list MDB_ID2) x :
  StronglySorted by_mid (l1 ++ l2) -> Forall (fun y => mid y < mid x) l1 ->
  match l2 with y :: _ => mid x < mid y | [] => True end ->
  ~ In (mid x) (map mid (l1 ++ l2)) /\ StronglySorted by_mid (l1 ++ x :: l2).
Proof.
  intros Hs F1 F2. apply StronglySorted_app in Hs as (G & G1 & G2).
  assert (F : Forall (fun y => mid x < mid y) l2).
  { destruct l2 as [|y l2]; [done|]. apply StronglySorted_inv in G2 as [_ G2]. constructor; [done|].
    eapply List.Forall_impl; [|exact G2]. unfold by_mid. cbn. lia. }
  rewrite List.Forall_forall in F1, F. split.
  - rewrite in_map_iff. intros (y & Ey & [Hy|Hy]%in_app_or); [specialize (F1 y Hy)|specialize (F y Hy)]; lia.
  - apply StronglySorted_app. split_and!; [|done|].
    + intros y z Hy Hz. apply list_elem_of_In in Hy. specialize (F1 y Hy).
      apply elem_of_cons in Hz as [->|Hz]; [done|]. apply list_elem_of_In in Hz. specialize (F z Hz).
      unfold by_mid. lia.
    + constructor; [done|]. by apply List.Forall_forall.
Qed.

(** Inserting into an ascending ID/pointer list keeps it ascending: [0] is
    returned and the entry put between the smaller and the greater ones, [-1]
    when the ID is present and [-2] when the list is full, with the list as it
    was; no cell outside the list is accessed. *)
Theorem mdb_mid2l_insert_correct (l : list MDB_ID2) (room : Z) (b : list MDB_ID2) (x : MDB_ID2) :
  id2l l room b -> zlen l <= MDB_IDL_UM_MAX -> zlen l + room = MDB_IDL_UM_MAX ->
  StronglySorted by_mid l ->
  exists rc b', mdb_mid2l_insert b x = Some (rc, b') /\
    ((rc = -1 /\ b' = b /\ In (mid x) (map mid l)) \/
     (rc = -2 /\ b' = b /\ ~ In (mid x) (map mid l) /\ zlen l = MDB_IDL_UM_MAX) \/
     (rc = 0 /\ exists l1 l2, l = l1 ++ l2 /\ id2l (l1 ++ x :: l2) (room - 1) b' /\
        StronglySorted by_mid (l1 ++ x :: l2))).
Proof.
  intros Hb Hn Hroom Hs. change MDB_IDL_UM_MAX with 131071 in *.
  destruct (mid2l_search_split l room b (mid x) Hb) as (l1 & l2 & -> & E & F1 & F2); [lia|done|].
  assert (Hsplit := sorted_split l1 l2 x Hs F1).
  unfold mdb_mid2l_insert. change MDB_IDL_UM_MAX with 131071. rewrite E. cbn [mbind option_bind].
  destruct Hb as (p & rest & -> & Hr).
  pose proof (zlen_nonneg l1). pose proof (zlen_nonneg l2). pose proof (zlen_nonneg rest).
  rewrite zlen_app in *.
  rewrite (rd2_in _ 0) by (rewrite zlen_cons, !zlen_app; lia). rewrite znth_cons_0. cbn [mbind option_bind mid mptr].
  destruct (Z.ltb_spec (zlen l1 + 1) 1); [lia|].
  assert (Hdup : (if zlen l1 + 1 <=? zlen l1 + zlen l2
           then y ← rd2 (mk_id2 (zlen l1 + zlen l2) p :: (l1 ++ l2) ++ rest) (zlen l1 + 1);
                Some (mid y =? mid x) else Some false)
          = Some (match l2 with y :: _ => mid y =? mid x | [] => false end)).
  { destruct l2 as [|y l2].
    - change (zlen (@nil MDB_ID2)) with 0. destruct (Z.leb_spec (zlen l1 + 1) (zlen l1 + 0)); [lia|done].
    - rewrite zlen_cons. destruct (Z.leb_spec (zlen l1 + 1) (zlen l1 + (zlen l2 + 1))); [|pose proof (zlen_nonneg l2); lia].
      rewrite <- app_assoc. cbn [app]. by rewrite rd2_body. }
  rewrite Hdup. cbn [mbind option_bind].
  destruct (match l2 with y :: _ => mid y =? mid x | [] => false end) eqn:Ed.
  { eexists _, _. split; [done|]. left. split_and!; [done..|]. destruct l2 as [|y l2]; [done|].
    apply Z.eqb_eq in Ed. rewrite <- Ed. apply in_map, in_or_app. right. by left. }
  destruct Hsplit as [Hnin Hs'].
  { destruct l2 as [|y l2]; [done|]. apply Z.eqb_neq in Ed. cbn in F2. lia. }
  destruct (Z.leb_spec 131071 (zlen l1 + zlen l2)).
  { eexists _, _. split; [done|]. right; left. split_and!; try done. lia. }
  destruct rest as [|z rest]; [change (zlen (@nil MDB_ID2)) with 0 in Hr; lia|]. rewrite zlen_cons in Hr.
  rewrite w64_id, w32_id by lia. rewrite wr2_in by (rewrite zlen_cons, !zlen_app; lia).
  rewrite zset_cons_0. cbn [mbind option_bind].
  replace (Z.to_nat (zlen l1 + zlen l2 + 1 - (zlen l1 + 1))) with (length l2) by (unfold zlen; lia).
  rewrite <- app_assoc, mid2l_shift_spec by done. cbn [mbind option_bind].
  rewrite wr2_body by done. cbn [mbind option_bind]. eexists _, _. split; [done|]. right; right.
  split; [done|]. exists l1, l2. split_and!; [done| |done].
  exists p, rest. split; [|lia]. rewrite <- app_assoc. cbn [app]. do 2 f_equal.
  rewrite zlen_app, zlen_cons. lia.
Qed.

Definition sample_id2l : list MDB_ID2 :=
  mk_id2 3 0 :: [mk_id2 5 50; mk_id2 8 80; mk_id2 9 90] ++ replicate (Z.to_nat 131068) id2_0.

Lemma mdb_mid2l_insert_correct_witness :
  exists rc b', mdb_mid2l_insert sample_id2l (mk_id2 7 70) = Some (rc, b') /\
    ((rc = -1 /\ b' = sample_id2l /\ In (mid (mk_id2 7 70)) (map mid [mk_id2 5 50; mk_id2 8 80; mk_id2 9 90])) \/
     (rc = -2 /\ b' = sample_id2l /\
        ~ In (mid (mk_id2 7 70)) (map mid [mk_id2 5 50; mk_id2 8 80; mk_id2 9 90]) /\
        zlen [mk_id2 5 50; mk_id2 8 80; mk_id2 9 90] = MDB_IDL_UM_MAX) \/
     (rc = 0 /\ exists l1 l2, [mk_id2 5 50; mk_id2 8 80; mk_id2 9 90] = l1 ++ l2 /\
        id2l (l1 ++ mk_id2 7 70 :: l2) (131068 - 1) b' /\
        StronglySorted by_mid (l1 ++ mk_id2 7 70 :: l2))).
Proof.
  apply (mdb_mid2l_insert_correct [mk_id2 5 50; mk_id2 8 80; mk_id2 9 90] 131068 sample_id2l (mk_id2 7 70)).
  - exists 0, (replicate (Z.to_nat 131068) id2_0). split; [reflexivity|by apply zlen_replicate].
  - by vm_compute.
  - reflexivity.
  - repeat constructor.
Defined.

(** Appending keeps the entries and adds one at the end. *)
Lemma mdb_mid2l_append_spec l room b x :
  id2l l room b -> zlen l <= MDB_IDL_UM_MAX -> zlen l + room = MDB_IDL_UM_MAX ->
  exists rc b', mdb_mid2l_append b x = Some (rc, b') /\
    ((rc = -2 /\ b' = b /\ zlen l = MDB_IDL_UM_MAX) \/
     (rc = 0 /\ id2l (l ++ [x]) (room - 1) b')).
Proof.
  intros (p & rest & -> & Hr) Hn Hroom. change MDB_IDL_UM_MAX with 131071 in *.
  pose proof (zlen_nonneg l). pose proof (zlen_nonneg rest). unfold mdb_mid2l_append.
  rewrite rd2_in by (rewrite zlen_cons, !zlen_app; lia). rewrite znth_cons_0.
  cbn [mbind option_bind mid mptr]. change MDB_IDL_UM_MAX with 131071.
  destruct (Z.leb_spec 131071 (zlen l)).
  { eexists _, _. split; [done|]. left. split_and!; try done. lia. }
  destruct rest as [|z rest]; [change (zlen (@nil MDB_ID2)) with 0 in Hr; lia|]. rewrite zlen_cons in Hr.
  rewrite w64_id by lia. rewrite wr2_in by (rewrite zlen_cons, !zlen_app; lia).
  rewrite zset_cons_0. cbn [mbind option_bind]. rewrite wr2_body by done. cbn [mbind option_bind].
  eexists _, _. split; [done|]. right. split; [done|]. exists p, rest.
  rewrite zlen_app, <- app_assoc. change (zlen [x]) with 1. split; [done|lia].
Qed.
