(* ===== verification/MidlSort.v ===== *)
(** Correctness of [mdb_midl_sort] ([urbackupserver/lmdb/midl.c]): the quicksort
    with its explicit stack stays inside its arrays and leaves the IDs in
    descending order. *)
From S2P Require Import Prelude Midl.

(** ** Swapping two cells *)

Definition swapped (b : list Z) (i j : Z) : list Z := up (up b i (ix b j)) j (ix b i).

Lemma zlen_swapped b i j : zlen (swapped b i j) = zlen b.
Proof. unfold swapped. by rewrite !zlen_up. Qed.

Lemma ix_swapped b i j k :
  -1 <= i -> i + 1 < zlen b -> -1 <= j -> j + 1 < zlen b -> -1 <= k ->
  ix (swapped b i j) k =
  if decide (k = i) then ix b j else if decide (k = j) then ix b i else ix b k.
Proof.
  intros. unfold swapped. ixs; repeat case_decide; subst; done || lia.
Qed.

Lemma swapped_perm b i j :
  -1 <= i -> i + 1 < zlen b -> -1 <= j -> j + 1 < zlen b -> swapped b i j ≡ₚ b.
Proof.
  intros Hi Hi' Hj Hj'. apply Permutation_inj. pose proof (zlen_swapped b i j) as Hl.
  unfold zlen in Hl. split; [lia|].
  exists (fun k => if decide (k = Z.to_nat (i + 1)) then Z.to_nat (j + 1)
           else if decide (k = Z.to_nat (j + 1)) then Z.to_nat (i + 1) else k).
  split; [intros k1 k2; repeat case_decide; lia|]. intros k.
  destruct (decide (k < length b)%nat) as [Hk|Hk].
  - pose proof (ix_swapped b i j (Z.of_nat k - 1)) as E. unfold ix in E.
    replace (Z.of_nat k - 1 + 1) with (Z.of_nat k) in E by lia.
    rewrite <- (Nat2Z.id k), (lookup_znth 0) at 1 by (rewrite zlen_swapped; unfold zlen; lia).
    rewrite E by lia. clear E.
    repeat case_decide; try lia; symmetry;
      rewrite <- (lookup_znth 0) by (unfold zlen in *; lia); f_equal; lia.
  - rewrite (lookup_ge_None_2 _ k) by lia. symmetry. apply lookup_ge_None_2.
    unfold zlen in *. repeat case_decide; lia.
Qed.

Lemma MIDL_SWAP_in b i j :
  -1 <= i -> i + 1 < zlen b -> -1 <= j -> j + 1 < zlen b ->
  MIDL_SWAP b i j = Some (swapped b i j).
Proof.
  intros. unfold MIDL_SWAP. rewrite !rd_in by lia. cbn.
  rewrite wr_in by lia. cbn. by rewrite wr_in by (rewrite ?zlen_up; lia).
Qed.

(** ** Changes confined to a segment *)

Record seg_pres (l r : Z) (b b' : list Z) : Prop := {
  sp_len : zlen b' = zlen b;
  sp_out : forall i, -1 <= i -> i < l \/ r < i -> ix b' i = ix b i;
  sp_in : forall i, l <= i <= r -> exists k, l <= k <= r /\ ix b' i = ix b k;
  sp_perm : b' ≡ₚ b }.

Lemma seg_refl l r b : seg_pres l r b b.
Proof. split; eauto. Qed.
Lemma seg_trans l r b1 b2 b3 : seg_pres l r b1 b2 -> seg_pres l r b2 b3 -> seg_pres l r b1 b3.
Proof.
  intros [L1 O1 I1 P1] [L2 O2 I2 P2]. split.
  - by rewrite L2.
  - intros. rewrite O2, O1; done.
  - intros i Hi. destruct (I2 i Hi) as (k & Hk & ->). apply (I1 k Hk).
  - by rewrite P2.
Qed.
Lemma seg_mono l r l' r' b b' :
  l' <= l -> r <= r' -> -1 <= l' -> seg_pres l r b b' -> seg_pres l' r' b b'.
Proof.
  intros ? ? ? [L O I P]. split; [done| |  |done].
  - intros. apply O; lia.
  - intros i Hi. destruct (decide (l <= i <= r)) as [Hin|Hn].
    + destruct (I i Hin) as (k & Hk & E). exists k. split; [lia|done].
    + exists i. split; [done|]. apply O; lia.
Qed.
Lemma seg_swapped l r b i j :
  -1 <= l -> r + 1 < zlen b -> l <= i <= r -> l <= j <= r -> seg_pres l r b (swapped b i j).
Proof.
  intros. split.
  - apply zlen_swapped.
  - intros k Hk Ho. rewrite ix_swapped by lia. repeat case_decide; lia.
  - intros k Hk. rewrite ix_swapped by lia. repeat case_decide; eauto.
  - apply swapped_perm; lia.
Qed.

Lemma swap_if_less_in b i j l r :
  -1 <= l -> r + 1 < zlen b -> l <= i <= r -> l <= j <= r -> i <> j ->
  exists b', swap_if_less b i j = Some b' /\ seg_pres l r b b' /\
    ix b' i = Z.max (ix b i) (ix b j) /\ ix b' j = Z.min (ix b i) (ix b j) /\
    forall k, -1 <= k -> k <> i -> k <> j -> ix b' k = ix b k.
Proof.
  intros. unfold swap_if_less. rewrite !rd_in by lia. cbn.
  destruct (Z.ltb_spec (ix b i) (ix b j)).
  - exists (swapped b i j). split_and!.
    + apply MIDL_SWAP_in; lia.
    + by apply seg_swapped.
    + rewrite ix_swapped by lia. rewrite decide_True by done. lia.
    + rewrite ix_swapped by lia. rewrite decide_False, decide_True by lia. lia.
    + intros. rewrite ix_swapped by lia. by rewrite !decide_False.
  - exists b. split_and!; [done|apply seg_refl|lia|lia|done].
Qed.

(** ** Partitioning *)

Lemma scan_up_spec b a r : r + 1 < zlen b -> ix b r <= a -> forall fuel i,
  -1 <= i < r -> r - i <= Z.of_nat fuel ->
  exists i', scan_up fuel b a i = Some i' /\ i < i' <= r /\ ix b i' <= a /\
    forall k, i < k < i' -> a < ix b k.
Proof.
  intros Hr Ha. induction fuel as [|f IH]; intros i Hi Hf; [lia|]. cbn [scan_up].
  rewrite rd_in by lia. cbn. destruct (Z.ltb_spec a (ix b (i + 1))).
  - destruct (decide (i + 1 = r)) as [E|]; [rewrite E in *; lia|].
    destruct (IH (i + 1)) as (i' & -> & ? & ? & H'); [lia..|].
    exists i'. split_and!; try lia; try done. intros k Hk.
    destruct (decide (k = i + 1)) as [->|]; [done|]. apply H'. lia.
  - exists (i + 1). split_and!; try lia; try done.
Qed.

Lemma scan_down_spec b a l : -1 <= l -> a <= ix b l -> forall fuel j,
  l < j -> j < zlen b -> j - l <= Z.of_nat fuel ->
  exists j', scan_down fuel b a j = Some j' /\ l <= j' < j /\ a <= ix b j' /\
    forall k, j' < k < j -> ix b k < a.
Proof.
  intros Hl Ha. induction fuel as [|f IH]; intros j Hj Hj' Hf; [lia|]. cbn [scan_down].
  rewrite rd_in by lia. cbn. destruct (Z.ltb_spec (ix b (j - 1)) a).
  - destruct (decide (j - 1 = l)) as [E|]; [rewrite E in *; lia|].
    destruct (IH (j - 1)) as (j' & -> & ? & ? & H'); [lia..|].
    exists j'. split_and!; try lia; try done. intros k Hk.
    destruct (decide (k = j - 1)) as [->|]; [done|]. apply H'. lia.
  - exists (j - 1). split_and!; try lia; try done.
Qed.

(** What the partition leaves: [l .. i-1] at least the pivot, [j+1 .. r] at most. *)
Definition parted (b : list Z) (a l r i j : Z) : Prop :=
  l + 1 <= j /\ j < i /\ i <= r /\ ix b (l + 1) = a /\ a <= ix b j /\
  (forall k, l <= k < i -> a <= ix b k) /\ (forall k, j < k <= r -> ix b k <= a).

Lemma partition_spec a l r : -1 <= l -> forall fuel b i j,
  r + 1 < zlen b -> l + 1 <= i <= j -> l + 1 < j <= r -> i < r ->
  ix b (l + 1) = a ->
  (forall k, l <= k <= i -> a <= ix b k) -> (forall k, j <= k <= r -> ix b k <= a) ->
  j - i < Z.of_nat fuel ->
  exists b' i' j', partition fuel b a i j = Some (b', i', j') /\
    seg_pres l r b b' /\ parted b' a l r i' j'.
Proof.
  intros Hl. induction fuel as [|f IH]; intros b i j Hr Hi Hj Hir Hp HA HB Hf; [lia|].
  cbn [partition].
  destruct (scan_up_spec b a r Hr (HB r ltac:(lia)) (length b) i) as (i' & -> & ? & ? & Hup);
    [lia|unfold zlen in *; lia|]. cbn.
  destruct (scan_down_spec b a (l + 1)) with (fuel := length b) (j := j)
    as (j' & -> & ? & ? & Hdn); [lia|lia|lia|lia|unfold zlen in *; lia|]. cbn.
  assert (HA' : forall k, l <= k < i' -> a <= ix b k).
  { intros k Hk. destruct (decide (k <= i)); [apply HA; lia|]. specialize (Hup k). lia. }
  assert (HB' : forall k, j' < k <= r -> ix b k <= a).
  { intros k Hk. destruct (decide (j <= k)); [apply HB; lia|]. specialize (Hdn k). lia. }
  destruct (Z.ltb_spec j' i').
  - exists b, i', j'. split_and!; [done|apply seg_refl|]. repeat split; auto; lia.
  - rewrite MIDL_SWAP_in by lia. cbn.
    destruct (IH (swapped b i' j') i' j') as (b' & i2 & j2 & E & Hs & Hq);
      try lia; try (by rewrite zlen_swapped).
    + rewrite ix_swapped by lia. by rewrite !decide_False by lia.
    + intros k Hk. rewrite ix_swapped by lia. repeat case_decide; [lia..|apply HA'; lia].
    + intros k Hk. rewrite ix_swapped by lia. repeat case_decide; [replace j' with i' by lia; lia|lia|apply HB'; lia].
    + exists b', i2, j2. split_and!; [done| |done].
      eapply seg_trans; [|done]. apply seg_swapped; lia.
Qed.

Lemma sort_split_spec b l r :
  -1 <= l -> l + SMALL <= r -> r + 1 < zlen b -> l + r < 2 ^ 31 ->
  exists b' i j, sort_split b l r = Some (b', i, j) /\ seg_pres l r b b' /\
    l + 1 <= j < i /\ i <= r /\
    (forall k, l <= k < i -> ix b' j <= ix b' k) /\ (forall k, j <= k <= r -> ix b' k <= ix b' j).
Proof.
  unfold SMALL. intros Hl Hlr Hr Hw. unfold sort_split.
  rewrite s32_id by lia. rewrite Z.shiftr_div_pow2 by lia.
  change (2 ^ 1) with 2.
  assert (Hm : l <= (l + r) / 2 <= r)
    by (split; [apply Z.div_le_lower_bound|apply Z.div_le_upper_bound]; lia).
  rewrite MIDL_SWAP_in by lia. cbn [mbind option_bind].
  set (b0 := swapped b _ _).
  assert (S0 : seg_pres l r b b0) by (apply seg_swapped; lia). clearbody b0.
  pose proof (sp_len _ _ _ _ S0) as L0.
  destruct (swap_if_less_in b0 l r l r) as (b1 & -> & S1 & M1 & N1 & O1); [lia..|]. cbn.
  pose proof (sp_len _ _ _ _ S1) as L1.
  destruct (swap_if_less_in b1 (l + 1) r l r) as (b2 & -> & S2 & M2 & N2 & O2); [lia..|]. cbn.
  pose proof (sp_len _ _ _ _ S2) as L2.
  destruct (swap_if_less_in b2 l (l + 1) l r) as (b3 & -> & S3 & M3 & N3 & O3); [lia..|]. cbn.
  pose proof (sp_len _ _ _ _ S3) as L3.
  assert (S : seg_pres l r b b3) by eauto using seg_trans.
  assert (Ha : ix b3 r <= ix b3 (l + 1) <= ix b3 l).
  { rewrite (O3 r) by lia. rewrite N3, M3, (O2 l), N2, M2 in * by lia.
    rewrite M1, N1 in *. lia. }
  clear Hm M1 N1 O1 M2 N2 O2 M3 N3 O3 S0 S1 S2 S3.
  rewrite rd_in by lia. cbn.
  destruct (partition_spec (ix b3 (l + 1)) l r Hl (length b3) b3 (l + 1) r)
    as (b4 & i & j & -> & S4 & P1 & P2 & P3 & P4 & P5 & P6 & P7); try lia.
  { intros k Hk. destruct (decide (k = l)) as [->|]; [lia|]. replace k with (l + 1) by lia. lia. }
  { intros k Hk. replace k with r by lia. lia. }
  { unfold zlen in *. lia. }
  cbn. pose proof (sp_len _ _ _ _ S4) as L4.
  rewrite rd_in by lia. cbn. rewrite wr_in by lia. cbn. rewrite wr_in by (rewrite ?zlen_up; lia).
  cbn. rewrite <- P4 in *. change (up (up b4 _ _) _ _) with (swapped b4 (l + 1) j).
  exists (swapped b4 (l + 1) j), i, j. split_and!; try lia; [done| | |].
  - eapply seg_trans; [done|]. eapply seg_trans; [done|]. apply seg_swapped; lia.
  - intros k Hk. rewrite !ix_swapped by lia. repeat case_decide; try subst j;
      first [lia|apply P6; lia].
  - intros k Hk. rewrite !ix_swapped by lia. repeat case_decide; try subst j;
      first [lia|apply P7; lia].
Qed.

(** ** Insertion sort of a segment *)

Definition desc (b : list Z) (l r : Z) : Prop :=
  forall p q, l <= p <= q -> q <= r -> ix b q <= ix b p.

(** [b] with [a = b[j]] moved down to position [i + 1]. *)
Definition rotated (b c : list Z) (a i j : Z) : Prop :=
  zlen c = zlen b /\ (forall k, -1 <= k <= i \/ j < k -> ix c k = ix b k) /\
  ix c (i + 1) = a /\ (forall k, i + 1 < k <= j -> ix c k = ix b (k - 1)).

Section Insert.
Context (b : list Z) (l j a : Z).
Hypothesis (Hl : 1 <= l) (Hj : l < j) (Hb : j + 1 < zlen b) (Ha : ix b j = a).
Hypothesis (Hleft : forall k, 1 <= k < l -> a <= ix b k).

Lemma insert_shift_spec fuel : forall c i,
  l - 1 <= i < j -> i <= Z.of_nat fuel ->
  rotated b (up c (i + 1) a) a i j -> ix c i = ix b i -> up c (i + 1) a ≡ₚ b ->
  (forall k, i < k < j -> ix b k < a) ->
  exists c' i', insert_shift fuel c a i = Some c' /\ l - 1 <= i' <= i /\
    rotated b c' a i' j /\ c' ≡ₚ b /\
    (forall k, i' < k < j -> ix b k < a) /\ (l <= i' -> a <= ix b i').
Proof.
  induction fuel as [|f IH]; intros c i Hi Hf Hrot Hci Hp Hlt; cbn [insert_shift].
  all: pose proof Hrot as (HL & HR & HR2 & HR3); rewrite zlen_up in HL.
  all: destruct (Z.leb_spec 1 i); [|rewrite wr_in by lia; exists (up c (i + 1) a), i;
    split_and!; try done; lia].
  - lia.
  - rewrite rd_in by lia. cbn. rewrite Hci. destruct (Z.leb_spec a (ix b i)).
    + rewrite wr_in by lia. exists (up c (i + 1) a), i. split_and!; try done; lia.
    + assert (l <= i). { destruct (decide (l <= i)); [done|]. specialize (Hleft i). lia. }
      rewrite wr_in by lia. cbn.
      assert (E : up (up c (i + 1) (ix b i)) (i - 1 + 1) a
                  = swapped (up c (i + 1) a) i (i + 1)).
      { replace (i - 1 + 1) with i by lia. apply ix_ext; rewrite ?zlen_swapped, ?zlen_up; [done|]. intros k Hk Hk'.
        rewrite ix_swapped by (rewrite ?zlen_up; lia).
        destruct (decide (k = i)) as [->|].
        { rewrite ix_up_eq by (rewrite ?zlen_up; lia). by rewrite ix_up_eq by lia. }
        rewrite (ix_up_ne _ i) by lia. destruct (decide (k = i + 1)) as [->|].
        { rewrite ix_up_eq by lia. by rewrite ix_up_ne by lia. }
        by rewrite !ix_up_ne by lia. }
      destruct (IH (up c (i + 1) (ix b i)) (i - 1)) as (c' & i' & -> & ? & ? & ? & ? & ?);
        try lia.
      * rewrite E. split_and!.
        -- by rewrite zlen_swapped, zlen_up.
        -- intros k Hk. rewrite ix_swapped by (rewrite ?zlen_up; lia).
           rewrite !decide_False by lia. apply HR. lia.
        -- rewrite ix_swapped by (rewrite ?zlen_up; lia). rewrite decide_True by lia. done.
        -- intros k Hk. rewrite ix_swapped by (rewrite ?zlen_up; lia).
           rewrite decide_False by lia. case_decide.
           ++ subst k. rewrite HR by lia. f_equal. lia.
           ++ apply HR3. lia.
      * rewrite ix_up_ne by lia. rewrite <- (HR (i - 1)) by lia. by rewrite ix_up_ne by lia.
      * rewrite E, swapped_perm by (rewrite ?zlen_up; lia). done.
      * intros k Hk. destruct (decide (k = i)) as [->|]; [lia|]. apply Hlt. lia.
      * exists c', i'. split_and!; try done; lia.
Qed.

Lemma insert_one_spec :
  desc b l (j - 1) ->
  exists c, insert_shift (length b) b a (j - 1) = Some c /\ seg_pres l j b c /\ desc c l j.
Proof.
  intros Hd.
  assert (Eb : up b (j - 1 + 1) a = b)
    by (replace (j - 1 + 1) with j by lia; rewrite <- Ha; apply up_ix; lia).
  destruct (insert_shift_spec (length b) b (j - 1)) as (c & i & -> & Hi & Hrot & Hp & Hlt & Hge);
    rewrite ?Eb; try done; try lia.
  { unfold zlen in *. lia. }
  { split_and!; try done; [by replace (j - 1 + 1) with j by lia|intros; lia]. }
  destruct Hrot as (HL & HR & HR2 & HR3). exists c. split_and!; [done| |].
  - split; [done| | |done].
    + intros k Hk Ho. apply HR. lia.
    + intros k Hk. destruct (decide (k <= i)); [exists k; split; [lia|apply HR; lia]|].
      destruct (decide (k = i + 1)) as [->|]; [exists j; split; [lia|by rewrite HR2]|].
      exists (k - 1). split; [lia|]. apply HR3. lia.
  - intros p q Hpq Hq.
    destruct (decide (p = q)) as [->|]; [lia|].
    destruct (decide (q <= i)); [rewrite !HR by lia; apply Hd; lia|].
    destruct (decide (q = i + 1)) as [->|].
    { rewrite HR2, HR by lia. transitivity (ix b i); [apply Hge; lia|apply Hd; lia]. }
    rewrite (HR3 q) by lia.
    destruct (decide (p <= i)); [rewrite (HR p) by lia; apply Hd; lia|].
    destruct (decide (p = i + 1)) as [->|]; [rewrite HR2; specialize (Hlt (q - 1)); lia|].
    rewrite HR3 by lia. apply Hd; lia.
Qed.
End Insert.

Lemma insertion_sort_spec l r : 1 <= l -> forall n b j,
  l < j -> r = j - 1 + Z.of_nat n -> r + 1 < zlen b -> desc b l (j - 1) ->
  (forall k q, 1 <= k < l -> l <= q <= r -> ix b q <= ix b k) ->
  exists b', insertion_sort n b j = Some b' /\ seg_pres l r b b' /\ desc b' l r.
Proof.
  intros Hl. induction n as [|n IH]; intros b j Hj Hr Hb Hd Hleft; cbn [insertion_sort].
  - exists b. split_and!; [done|apply seg_refl|]. by replace r with (j - 1) by lia.
  - rewrite rd_in by lia. cbn.
    destruct (insert_one_spec b l j (ix b j)) as (c & -> & S & D); try done; try lia.
    { intros. apply Hleft; lia. }
    cbn. pose proof (sp_len _ _ _ _ S).
    destruct (IH c (j + 1)) as (b' & -> & S' & D'); try lia.
    { by replace (j + 1 - 1) with j by lia. }
    { intros k q Hk Hq. rewrite (sp_out _ _ _ _ S k) by lia.
      destruct (decide (q <= j)).
      - destruct (sp_in _ _ _ _ S q) as (m & Hm & ->); [lia|]. apply Hleft; lia.
      - rewrite (sp_out _ _ _ _ S q) by lia. apply Hleft; lia. }
    exists b'. split_and!; try done. eapply seg_trans; [|done].
    eapply seg_mono; [| | |done]; lia.
Qed.

(** ** The outer loop *)

Definition seg : Type := Z * Z.
Definition size_of (s : seg) : Z := snd s - fst s + 1.
Definition apart (s t : seg) : Prop := snd s < fst t \/ snd t < fst s.

(** Every pair of positions is in order or inside one pending segment. *)
Definition ordered (b : list Z) (n : Z) (segs : list seg) : Prop :=
  forall i j, 1 <= i <= j -> j <= n ->
    (exists s, In s segs /\ fst s <= i /\ j <= snd s) \/ ix b j <= ix b i.

(** The pending segments below the current one: where they are on the stack, and
    that a segment at depth [d] has at most [n / 2^d] elements. *)
Fixpoint on_stack (st : list Z) (n : Z) (segs : list seg) : Prop :=
  match segs with
  | [] => True
  | s :: rest =>
      znth 0 st (2 * zlen rest + 2) = snd s /\ znth 0 st (2 * zlen rest + 1) = fst s /\
      2 ^ zlen rest * size_of s <= n /\ on_stack st n rest
  end.
Fixpoint work (segs : list seg) : Z :=
  match segs with [] => 0 | s :: rest => 2 * size_of s + 1 + work rest end.
Definition seg_ok (n : Z) (s : seg) : Prop := 1 <= fst s /\ snd s <= n /\ fst s - 1 <= snd s.
Definition segs_ok (n : Z) (segs : list seg) : Prop :=
  Forall (seg_ok n) segs /\ ForallOrdPairs apart segs.

Lemma work_nonneg n segs : Forall (seg_ok n) segs -> 0 <= work segs.
Proof.
  induction 1 as [|s segs [? [? ?]] ? IH]; cbn; [done|]. unfold size_of. lia.
Qed.

Lemma on_stack_above st n segs k x :
  2 * zlen segs < k -> on_stack st n segs -> on_stack (zset st k x) n segs.
Proof.
  induction segs as [|s rest IH]; [done|]. cbn. rewrite zlen_cons. pose proof (zlen_nonneg rest).
  intros Hk (E1 & E2 & E3 & E4). rewrite !znth_zset_ne by lia. split_and!; try done.
  apply IH; [lia|done].
Qed.

Lemma apart_in s segs t : ForallOrdPairs apart (s :: segs) -> In t segs -> apart s t.
Proof. intros H Ht. inversion_clear H as [|? ? H1 _]. by apply (proj1 (List.Forall_forall _ _) H1). Qed.

(** Working inside the current segment keeps every order but the one inside it. *)
Lemma ordered_seg b b' n s segs i j :
  seg_pres (fst s) (snd s) b b' -> segs_ok n (s :: segs) -> ordered b n (s :: segs) ->
  1 <= i <= j -> j <= n -> ~ (fst s <= i /\ j <= snd s) ->
  (exists t, In t segs /\ fst t <= i /\ j <= snd t) \/ ix b' j <= ix b' i.
Proof.
  intros Hs [Hok Hap] Ho Hij Hn Hout. apply Forall_inv in Hok as (? & ? & ?).
  assert (Hsrc : forall p, 1 <= p -> exists q, ix b' p = ix b q /\ 1 <= q /\
            (p = q \/ (fst s <= p <= snd s /\ fst s <= q <= snd s))).
  { intros p Hp. destruct (decide (fst s <= p <= snd s)) as [Hin|Hnin].
    - destruct (sp_in _ _ _ _ Hs p Hin) as (q & ? & ?). exists q. split_and!; [done|lia|lia].
    - exists p. split_and!; [apply (sp_out _ _ _ _ Hs); lia|done|by left]. }
  destruct (Hsrc i) as (p & -> & Hp1 & Hp); [lia|].
  destruct (Hsrc j) as (q & -> & Hq1 & Hq); [lia|].
  destruct (Ho p q) as [(t & [<-|Ht] & ? & ?)|]; [lia|lia| | |by right].
  - lia.
  - left. exists t. pose proof (apart_in _ _ _ Hap Ht) as Hd. unfold apart in Hd.
    split; [done|]. lia.
Qed.

Lemma ordered_split b b' n s segs i j :
  seg_pres (fst s) (snd s) b b' -> segs_ok n (s :: segs) -> ordered b n (s :: segs) ->
  fst s <= j -> j < i -> i <= snd s ->
  (forall k, fst s <= k < i -> ix b' j <= ix b' k) ->
  (forall k, j <= k <= snd s -> ix b' k <= ix b' j) ->
  forall segs', (forall t, In t ((fst s, j - 1) :: (i, snd s) :: segs) -> In t segs') ->
  ordered b' n segs'.
Proof.
  intros Hs Hok Ho Hj Hji Hi HA HB segs' Hin p q Hpq Hq.
  destruct (decide (fst s <= p /\ q <= snd s)) as [[Hp1 Hp2]|Hout].
  - destruct (decide (q <= j - 1)).
    { left. exists (fst s, j - 1). split; [apply Hin; by left|]. cbn. lia. }
    destruct (decide (i <= p)).
    { left. exists (i, snd s). split; [apply Hin; right; by left|]. cbn. lia. }
    right. specialize (HA p). specialize (HB q). lia.
  - destruct (ordered_seg b b' n s segs p q) as [(t & Ht & ?)|]; try done; [|by right].
    left. exists t. split; [apply Hin; by right; right|done].
Qed.

Lemma ordered_done b b' n s segs :
  seg_pres (fst s) (snd s) b b' -> segs_ok n (s :: segs) -> ordered b n (s :: segs) ->
  desc b' (fst s) (snd s) -> ordered b' n segs.
Proof.
  intros Hs Hok Ho Hd p q Hpq Hq.
  destruct (decide (fst s <= p /\ q <= snd s)) as [[Hp1 Hp2]|Hout]; [right; apply Hd; lia|].
  by apply (ordered_seg b b' n s segs p q).
Qed.

Lemma segs_ok_split n l r segs i j :
  segs_ok n ((l, r) :: segs) -> l + 1 <= j < i -> i <= r ->
  segs_ok n ((l, j - 1) :: (i, r) :: segs) /\ segs_ok n ((i, r) :: (l, j - 1) :: segs).
Proof.
  intros [Hok Hap] Hj Hi. inversion_clear Hok as [|? ? (H1 & H2 & H3) Hok'].
  inversion_clear Hap as [|? ? Hap1 Hap2]. cbn in *.
  assert (A1 : Forall (apart (l, j - 1)) segs)
    by (eapply List.Forall_impl; [|exact Hap1]; unfold apart; cbn; lia).
  assert (A2 : Forall (apart (i, r)) segs)
    by (eapply List.Forall_impl; [|exact Hap1]; unfold apart; cbn; lia).
  assert (P1 : apart (l, j - 1) (i, r)) by (unfold apart; cbn; lia).
  assert (P2 : apart (i, r) (l, j - 1)) by (unfold apart; cbn; lia).
  split; split; repeat constructor; cbn; try done; lia.
Qed.

Lemma left_of_seg b n l r segs k q :
  segs_ok n ((l, r) :: segs) -> ordered b n ((l, r) :: segs) ->
  1 <= k < l -> l <= q <= r -> ix b q <= ix b k.
Proof.
  intros [Hok Hap] Ho Hk Hq. pose proof (Forall_inv Hok) as (? & ? & ?). cbn in *.
  destruct (Ho k q) as [(t & [<-|Ht] & ? & ?)|]; cbn in *; try lia.
  pose proof (apart_in _ _ _ Hap Ht) as Hd. unfold apart in Hd. cbn in Hd. lia.
Qed.

Lemma depth_bound n d s : n <= 2 ^ 30 -> 0 <= d -> SMALL < s -> 2 ^ d * s <= n -> d <= 26.
Proof.
  unfold SMALL. intros Hn Hd Hs H. destruct (decide (d <= 26)); [done|].
  assert (2 ^ 27 <= 2 ^ d) by (apply Z.pow_le_mono_r; lia).
  change (2 ^ 30) with 1073741824 in *. change (2 ^ 27) with 134217728 in *. nia.
Qed.

Lemma half_bound d s s' n : 0 <= d -> 2 ^ d * s <= n -> 2 * s' <= s -> 2 ^ (d + 1) * s' <= n.
Proof. intros. rewrite Z.pow_add_r by lia. assert (0 < 2 ^ d) by (apply Z.pow_pos_nonneg; lia). nia. Qed.

Lemma st_rd_in st i : 0 <= i < zlen st -> st_rd st i = Some (znth 0 st i).
Proof. intros. unfold st_rd. rewrite (proj2 (Z.leb_le _ _)), (proj2 (Z.ltb_lt _ _)) by lia. done. Qed.
Lemma st_wr_in st i x : 0 <= i < zlen st -> st_wr st i x = Some (zset st i x).
Proof. intros. unfold st_wr. rewrite (proj2 (Z.leb_le _ _)), (proj2 (Z.ltb_lt _ _)) by lia. done. Qed.

(** Pushing a segment. *)
Lemma push_spec st n segs l r :
  2 * zlen segs + 2 < zlen st -> on_stack st n segs -> 2 ^ zlen segs * (r - l + 1) <= n ->
  let st' := zset (zset st (2 * zlen segs + 2) r) (2 * zlen segs + 1) l in
  (st1 ← st_wr st (2 * zlen segs + 2) r; st_wr st1 (2 * zlen segs + 2 - 1) l) = Some st' /\
  zlen st' = zlen st /\ on_stack st' n ((l, r) :: segs).
Proof.
  intros Hl Hs Hz st'. pose proof (zlen_nonneg segs). unfold st'.
  rewrite st_wr_in by lia. cbn [mbind option_bind].
  replace (2 * zlen segs + 2 - 1) with (2 * zlen segs + 1) by lia.
  rewrite st_wr_in by (rewrite zlen_zset; lia). rewrite !zlen_zset. split_and!; try done.
  cbn [on_stack fst snd]. rewrite znth_zset_ne, znth_zset_eq by lia.
  rewrite znth_zset_eq by (rewrite zlen_zset; lia). split_and!; try done.
  apply on_stack_above; [lia|]. apply on_stack_above; [lia|done].
Qed.

Lemma insertion_seg_spec b n l r segs :
  n + 1 < zlen b -> segs_ok n ((l, r) :: segs) -> ordered b n ((l, r) :: segs) ->
  exists b', insertion_sort (Z.to_nat (r - l)) b (l + 1) = Some b' /\
    seg_pres l r b b' /\ desc b' l r.
Proof.
  intros Hb Hok Ho. pose proof (Forall_inv (proj1 Hok)) as (Hs1 & Hs2 & Hs3). cbn in *.
  destruct (decide (l <= r)).
  - apply insertion_sort_spec; try lia.
    + intros p q ? ?. by replace q with p by lia.
    + intros k q. by apply (left_of_seg b n l r segs).
  - replace (Z.to_nat (r - l)) with O by lia. exists b.
    split_and!; [done|apply seg_refl|intros p q; lia].
Qed.

Section Loop.
Context (n : Z) (Hn : n <= 2 ^ 30).

(** What the outer loop keeps, with [segs] pending below [l .. r]. *)
Record loop_inv (b st : list Z) (l r : Z) (segs : list seg) : Prop := {
  li_b : n + 1 < zlen b;
  li_st : zlen st = istack_size;
  li_depth : zlen segs <= 27;
  li_ok : segs_ok n ((l, r) :: segs);
  li_stk : on_stack st n segs;
  li_sz : 2 ^ zlen segs * (r - l + 1) <= n;
  li_ord : ordered b n ((l, r) :: segs) }.

Lemma loop_pop b b' st l r l' r' segs :
  loop_inv b st l r ((l', r') :: segs) -> seg_pres l r b b' -> desc b' l r ->
  loop_inv b' st l' r' segs.
Proof.
  intros [Hb Hst Hdep Hok Hstk Hsz Ho] S D. destruct Hstk as (E1 & E2 & E3 & E4).
  pose proof (sp_len _ _ _ _ S). rewrite zlen_cons in Hdep.
  split; try done; [lia|lia| |].
  - destruct Hok as [F1 F2]. inversion_clear F1. inversion_clear F2. by split.
  - by apply (ordered_done b b' n (l, r)).
Qed.

Lemma loop_push b st l r segs :
  loop_inv b st l r segs -> SMALL <= r - l ->
  exists b' i j, sort_split b l r = Some (b', i, j) /\ seg_pres 1 n b b' /\
    l + 1 <= j < i /\ i <= r /\
    (j - l <= r - i + 1 -> exists st',
       (st1 ← st_wr st (2 * zlen segs + 2) r; st_wr st1 (2 * zlen segs + 2 - 1) i) = Some st' /\
       loop_inv b' st' l (j - 1) ((i, r) :: segs)) /\
    (r - i + 1 < j - l -> exists st',
       (st1 ← st_wr st (2 * zlen segs + 2) (j - 1); st_wr st1 (2 * zlen segs + 2 - 1) l) = Some st' /\
       loop_inv b' st' i r ((l, j - 1) :: segs)).
Proof using Hn.
  intros [Hb Hst Hdep Hok Hstk Hsz Ho] Hlr. unfold istack_size in Hst.
  pose proof (Forall_inv (proj1 Hok)) as (Hs1 & Hs2 & Hs3). cbn in Hs1, Hs2, Hs3.
  pose proof (zlen_nonneg segs) as Hd0.
  pose proof (depth_bound n (zlen segs) (r - l + 1) Hn Hd0 ltac:(lia) Hsz) as Hd.
  assert (0 < 2 ^ zlen segs) by (apply Z.pow_pos_nonneg; lia). assert (SMALL = 8) by done.
  destruct (sort_split_spec b l r) as (b' & i & j & E & S & Hj & Hi & HA & HB); [lia..|].
  pose proof (sp_len _ _ _ _ S).
  pose proof (segs_ok_split n l r segs i j Hok Hj Hi) as [Ok1 Ok2].
  assert (HO := ordered_split b b' n (l, r) segs i j S Hok Ho ltac:(cbn; lia) ltac:(lia) Hi HA HB).
  exists b', i, j. split_and!; try done; try lia.
  - eapply seg_mono; [| | |exact S]; lia.
  - intros Hc. destruct (push_spec st n segs i r) as (E1 & E2 & E3); [lia|done|nia|].
    eexists. split; [exact E1|]. split; [lia|by rewrite E2|rewrite zlen_cons; lia|done|done| |].
    + rewrite zlen_cons. apply (half_bound _ (r - l + 1)); lia.
    + apply HO. done.
  - intros Hc. destruct (push_spec st n segs l (j - 1)) as (E1 & E2 & E3); [lia|done|nia|].
    eexists. split; [exact E1|]. split; [lia|by rewrite E2|rewrite zlen_cons; lia|done|done| |].
    + rewrite zlen_cons. apply (half_bound _ (r - l + 1)); lia.
    + apply HO. cbn. tauto.
Qed.

Lemma sort_loop_spec fuel : forall b st l r segs,
  loop_inv b st l r segs -> work ((l, r) :: segs) < Z.of_nat fuel ->
  exists b', sort_loop fuel b st l r (2 * zlen segs) = Some b' /\
    seg_pres 1 n b b' /\ desc b' 1 n.
Proof using Hn.
  induction fuel as [|f IH]; intros b st l r segs Hinv Hf.
  { pose proof (work_nonneg _ _ (proj1 (li_ok _ _ _ _ _ Hinv))). lia. }
  pose proof Hinv as [Hb Hst Hdep Hok Hstk Hsz Ho].
  pose proof (Forall_inv (proj1 Hok)) as (Hs1 & Hs2 & Hs3). cbn in Hs1, Hs2, Hs3.
  pose proof (zlen_nonneg segs) as Hd0. cbn [sort_loop].
  destruct (Z.ltb_spec (r - l) SMALL) as [Hsm|Hsm].
  - destruct (insertion_seg_spec b n l r segs) as (b1 & -> & S & D); [done..|]. cbn [mbind option_bind].
    destruct segs as [|[l' r'] segs].
    + exists b1. split_and!; [done|eapply seg_mono; [| | |exact S]; lia|].
      intros p q Hpq Hq. destruct (ordered_done b b1 n (l, r) [] S Hok Ho D p q)
        as [(t & [] & _)|]; lia || done.
    + rewrite zlen_cons in *. pose proof (zlen_nonneg segs).
      destruct (Z.eqb_spec (2 * (zlen segs + 1)) 0); [lia|].
      pose proof Hstk as (E1 & E2 & _ & _). cbn [fst snd] in E1, E2. unfold istack_size in Hst.
      replace (2 * (zlen segs + 1)) with (2 * zlen segs + 2) by lia.
      rewrite !st_rd_in by lia. cbn [mbind option_bind].
      replace (2 * zlen segs + 2 - 1) with (2 * zlen segs + 1) by lia. rewrite E1, E2.
      replace (2 * zlen segs + 2 - 2) with (2 * zlen segs) by lia.
      destruct (IH b1 st l' r' segs) as (b' & -> & S' & D').
      * by apply (loop_pop b b1 st l r).
      * cbn [work] in *. unfold size_of in *. cbn in *. lia.
      * exists b'. split_and!; try done. eapply seg_trans; [|exact S'].
        eapply seg_mono; [| | |exact S]; lia.
  - destruct (loop_push b st l r segs Hinv Hsm) as (b1 & i & j & -> & S & Hj & Hi & H1 & H2).
    cbn [mbind option_bind]. cbn [work] in Hf. unfold size_of in Hf. cbn [fst snd] in Hf.
    destruct (Z.leb_spec (j - l) (r - i + 1)) as [Hc|Hc].
    + destruct (H1 Hc) as (st' & E & Hinv'). destruct (st_wr st _ r); [|done].
      cbn [mbind option_bind] in *. rewrite E.
      destruct (IH b1 st' l (j - 1) ((i, r) :: segs) Hinv') as (b' & E' & S' & D').
      { cbn [work]. unfold size_of. cbn [fst snd]. lia. }
      rewrite zlen_cons in E'. replace (2 * zlen segs + 2) with (2 * (zlen segs + 1)) by lia.
      exists b'. split_and!; try done. by eapply seg_trans.
    + destruct (H2 Hc) as (st' & E & Hinv'). destruct (st_wr st _ (j - 1)); [|done].
      cbn [mbind option_bind] in *. rewrite E.
      destruct (IH b1 st' i r ((l, j - 1) :: segs) Hinv') as (b' & E' & S' & D').
      { cbn [work]. unfold size_of. cbn [fst snd]. lia. }
      rewrite zlen_cons in E'. replace (2 * zlen segs + 2) with (2 * (zlen segs + 1)) by lia.
      exists b'. split_and!; try done. by eapply seg_trans.
Qed.
End Loop.

(** The sort of an ID list of up to 2^30 IDs terminates, inside its arrays. *)
Lemma sort_block junk b n :
  rd b 0 = Some n -> 0 <= n <= 2 ^ 30 -> n + 2 <= zlen b ->
  exists b', mdb_midl_sort junk b = Some b' /\ seg_pres 1 n b b' /\ desc b' 1 n.
Proof.
  intros Hn Hr Hl. unfold mdb_midl_sort. rewrite Hn. cbn [mbind option_bind].
  rewrite s32_id by lia. apply (sort_loop_spec n (proj2 Hr) _ b _ 1 n []).
  - split; [lia|by apply zlen_replicate|done| |done|change (zlen (@nil seg)) with 0; lia|].
    + split; repeat constructor; cbn; lia.
    + intros i j Hi Hj. left. exists (1, n). cbn. split; [by left|lia].
  - cbn. unfold size_of. cbn. unfold zlen in Hl. lia.
Qed.

(** C20: [mdb_midl_sort] on a list of [n <= 2^30] IDs ends without an access
    outside the list or outside its 64-entry stack, leaves the count, the
    allocation size and the cells after the IDs alone, and replaces the IDs by a
    permutation of them in descending order. *)
Theorem mdb_midl_sort_correct (junk : Z) (b : list Z) (n : Z) :
  rd b 0 = Some n -> 0 <= n <= 2 ^ 30 -> n + 2 <= zlen b ->
  exists ids, mdb_midl_sort junk b = Some (zsplice 2 ids b) /\
    ids ≡ₚ zsub 2 n b /\ StronglySorted Z.ge ids.
Proof.
  intros Hn Hr Hl. destruct (sort_block junk b n Hn Hr Hl) as (b' & E & [L O I P] & D).
  assert (H1 : ztake 2 b' = ztake 2 b).
  { apply (ztake_ext 0); [lia|done|]. intros i Hi Hi'. specialize (O (i - 1)). unfold ix in O.
    replace (i - 1 + 1) with i in O by lia. apply O; lia. }
  assert (H2 : zdrop (2 + n) b' = zdrop (2 + n) b).
  { apply (zdrop_ext 0); [lia|done|]. intros i Hi. specialize (O (i - 1)). unfold ix in O.
    replace (i - 1 + 1) with i in O by lia. apply O; lia. }
  exists (zsub 2 n b'). split_and!.
  - rewrite E. f_equal. unfold zsplice. rewrite zlen_zsub by lia. rewrite <- H1, <- H2.
    apply zsplit3; lia.
  - rewrite (zsplit3 b' 2 n), (zsplit3 b 2 n), H1, H2 in P by lia.
    apply (inj (ztake 2 b ++.)) in P. by apply (inj (.++ zdrop (2 + n) b)) in P.
  - apply (sorted_znth 0). rewrite zlen_zsub by lia. intros p q Hp Hq.
    rewrite !znth_zsub by lia. specialize (D (p + 1) (q + 1)). unfold ix in D.
    replace (p + 1 + 1) with (2 + p) in D by lia. replace (q + 1 + 1) with (2 + q) in D by lia. lia.
Qed.

Definition sample_block : list Z := 30 :: 26 ::
  [3;1;4;1;5;9;2;6;5;3;5;8;9;7;9;3;2;3;8;4;6;2;6;4;3;3] ++ [77; 77; 77; 77].
Lemma mdb_midl_sort_correct_witness :
  exists ids, mdb_midl_sort 0 sample_block = Some (zsplice 2 ids sample_block) /\
    ids ≡ₚ zsub 2 26 sample_block /\ StronglySorted Z.ge ids.
Proof.
  apply (mdb_midl_sort_correct 0 sample_block 26); [reflexivity| |]; vm_compute; intuition discriminate.
Defined.
