(* ===== verification/BlockHash.v ===== *)
(** Iterated block hashing: what a hash that compresses a message block by block
    has computed after a prefix of it.  Shared by the models of [md5.cpp] and
    [urbackupcommon/sha2/sha2.cpp]. *)
From S2P Require Import Prelude.

Section BlockHash.
Context {H : Type} (B : Z) (f : H -> bytes -> H).
Hypothesis (HB : 0 < B).
Implicit Types (h : H) (l r : bytes).

(** The first [n] blocks of [l] compressed into [h]. *)
Fixpoint absorb (n : nat) (h : H) (l : bytes) : H :=
  match n with
  | O => h
  | S k => absorb k (f h (ztake B l)) (zdrop B l)
  end.

(** All complete blocks, and the bytes after them. *)
Definition chain (h : H) (l : bytes) : H := absorb (Z.to_nat (zlen l / B)) h l.
Definition rest (l : bytes) : bytes := zdrop (B * (zlen l / B)) l.

Lemma div_bounds (x : Z) : 0 <= x -> 0 <= x / B /\ B * (x / B) <= x < B * (x / B) + B.
Proof using HB.
  intros. pose proof (Z.div_mod x B ltac:(lia)). pose proof (Z.mod_pos_bound x B ltac:(lia)).
  split; [apply Z.div_pos; lia|lia].
Qed.

Lemma zlen_rest l : zlen (rest l) = zlen l mod B.
Proof using HB.
  unfold rest. pose proof (zlen_nonneg l). pose proof (div_bounds (zlen l) ltac:(lia)).
  rewrite zlen_zdrop by nia. rewrite Z.mod_eq by lia. lia.
Qed.
Lemma rest_bound l : 0 <= zlen (rest l) < B.
Proof using HB. rewrite zlen_rest. apply Z.mod_pos_bound. lia. Qed.

Lemma absorb_app n : forall h l r, B * Z.of_nat n <= zlen l -> absorb n h (l ++ r) = absorb n h l.
Proof using HB.
  induction n as [|n IH]; intros h l r Hl; [done|]. cbn [absorb].
  rewrite ztake_app_le, zdrop_app_le by nia. apply IH. rewrite zlen_zdrop by lia. nia.
Qed.
Lemma absorb_add n m : forall h l,
  absorb (n + m) h l = absorb m (absorb n h l) (zdrop (B * Z.of_nat n) l).
Proof using HB.
  induction n as [|n IH]; intros h l; cbn [absorb Nat.add].
  - by rewrite Z.mul_0_r.
  - rewrite IH, zdrop_zdrop by nia. do 2 f_equal. lia.
Qed.

(** The quotient and remainder after appending [r]. *)
Lemma div_app_short x y : 0 <= x -> 0 <= y -> x mod B + y < B -> (x + y) / B = x / B.
Proof using HB.
  intros. pose proof (Z.div_mod x B ltac:(lia)). pose proof (Z.mod_pos_bound x B ltac:(lia)).
  symmetry. apply (Z.div_unique_pos _ _ _ (x mod B + y)); lia.
Qed.

Lemma chain_app_short h l r :
  zlen (rest l) + zlen r < B ->
  chain h (l ++ r) = chain h l /\ rest (l ++ r) = rest l ++ r.
Proof using HB.
  rewrite zlen_rest. intros Hr. pose proof (zlen_nonneg l). pose proof (zlen_nonneg r).
  pose proof (div_bounds (zlen l) ltac:(lia)).
  unfold chain, rest. rewrite zlen_app, div_app_short by lia. split.
  - apply absorb_app. lia.
  - apply zdrop_app_le. lia.
Qed.

Lemma chain_blocks h l r :
  rest l = [] -> chain h (l ++ r) = chain (chain h l) r /\ rest (l ++ r) = rest r.
Proof using HB.
  intros Hr. assert (Hm : zlen l mod B = 0) by (by rewrite <- zlen_rest, Hr).
  pose proof (zlen_nonneg l). pose proof (zlen_nonneg r).
  pose proof (div_bounds (zlen l) ltac:(lia)). pose proof (div_bounds (zlen r) ltac:(lia)).
  assert (El : zlen l = B * (zlen l / B)) by (apply Z.div_exact; lia).
  assert (Eq : zlen (l ++ r) / B = zlen l / B + zlen r / B).
  { rewrite zlen_app, El, (Z.mul_comm B), (Z.add_comm (_ * B)), Z.div_add by lia.
    rewrite Z.div_mul by lia. lia. }
  unfold chain, rest. rewrite Eq. split.
  - rewrite Z2Nat.inj_add by lia. rewrite absorb_add, Z2Nat.id by lia.
    rewrite absorb_app by lia. by rewrite <- El, zdrop_app_zlen.
  - rewrite zdrop_app_ge by lia. f_equal. lia.
Qed.

Lemma chain_one h l : zlen l = B -> chain h l = f h l /\ rest l = [].
Proof using HB.
  intros Hl. unfold chain, rest. rewrite Hl, Z.div_same by lia. split.
  - change (Z.to_nat 1) with 1%nat. cbn [absorb]. by rewrite ztake_ge by lia.
  - apply zdrop_ge. lia.
Qed.

(** Splitting off the complete blocks. *)
Lemma chain_split h l :
  exists b, l = b ++ rest l /\ rest b = [] /\ chain h b = chain h l.
Proof using HB.
  pose proof (zlen_nonneg l). pose proof (div_bounds (zlen l) ltac:(lia)) as [? ?].
  exists (ztake (B * (zlen l / B)) l).
  assert (Hz : zlen (ztake (B * (zlen l / B)) l) = B * (zlen l / B))
    by (rewrite zlen_ztake by nia; lia).
  assert (Hq : B * (zlen l / B) / B = zlen l / B)
    by (rewrite Z.mul_comm; apply Z.div_mul; lia).
  split_and!.
  - symmetry. apply ztake_zdrop.
  - unfold rest. rewrite Hz, Hq. apply zdrop_ge. lia.
  - unfold chain. rewrite Hz, Hq.
    set (q := zlen l / B) in *.
    transitivity (absorb (Z.to_nat q) h (ztake (B * q) l ++ zdrop (B * q) l)).
    + symmetry. apply absorb_app. lia.
    + by rewrite ztake_zdrop.
Qed.

(** Filling the last block. *)
Lemma chain_app_fill h l r :
  zlen (rest l) + zlen r = B ->
  chain h (l ++ r) = f (chain h l) (rest l ++ r) /\ rest (l ++ r) = [].
Proof using HB.
  intros Hr. destruct (chain_split h l) as (b & El & Hb & Hc).
  assert (Elr : l ++ r = b ++ rest l ++ r) by (by rewrite app_assoc, <- El).
  rewrite Elr, <- Hc.
  destruct (chain_blocks h b (rest l ++ r) Hb) as [-> ->].
  apply chain_one. rewrite zlen_app. done.
Qed.

(** One more block of input after complete blocks. *)
Lemma chain_block h r :
  B <= zlen r -> chain h r = chain (f h (ztake B r)) (zdrop B r) /\ rest r = rest (zdrop B r).
Proof using HB.
  intros Hr. destruct (chain_one h (ztake B r)) as [E1 E2].
  { rewrite zlen_ztake by lia. lia. }
  destruct (chain_blocks h (ztake B r) (zdrop B r) E2) as [E3 E4].
  rewrite ztake_zdrop in E3, E4. by rewrite E3, E4, E1.
Qed.
End BlockHash.
