(* ===== verification/Md5.v ===== *)
(** MD5: [md5.cpp] and [md5.h] (the built-in implementation, compiled with
    [DO_NOT_USE_CRYPTOPP_MD5]).

    The digest is accumulated by [update] calls of any size through a 64-byte
    buffer and a 64-bit bit count in two words.  The theorems relate it to the
    definition of MD5 in RFC 1321, as a padded message cut into blocks, with a
    compression function of its own. *)
From S2P Require Import Prelude BlockHash.

Module MD5.
Definition S11 : Z := 7.
Definition S12 : Z := 12.
Definition S13 : Z := 17.
Definition S14 : Z := 22.
Definition S21 : Z := 5.
Definition S22 : Z := 9.
Definition S23 : Z := 14.
Definition S24 : Z := 20.
Definition S31 : Z := 4.
Definition S32 : Z := 11.
Definition S33 : Z := 16.
Definition S34 : Z := 23.
Definition S41 : Z := 6.
Definition S42 : Z := 10.
Definition S43 : Z := 15.
Definition S44 : Z := 21.

(** [~x] on [uint4] *)
Definition not32 (x : Z) : Z := UINT_MAX - x.
Definition rotate_left (x n : Z) : Z := Z.lor (w32 (Z.shiftl x n)) (Z.shiftr x (32 - n)).

Definition F (x y z : Z) : Z := Z.lor (Z.land x y) (Z.land (not32 x) z).
Definition G (x y z : Z) : Z := Z.lor (Z.land x z) (Z.land y (not32 z)).
Definition H (x y z : Z) : Z := Z.lxor (Z.lxor x y) z.
Definition I (x y z : Z) : Z := Z.lxor y (Z.lor x (not32 z)).

(** The new value of the reference parameter [a]. *)
Definition FF (a b c d x s ac : Z) : Z :=
  let a := w32 (a + (F b c d + x + ac)) in w32 (rotate_left a s + b).
Definition GG (a b c d x s ac : Z) : Z :=
  let a := w32 (a + (G b c d + x + ac)) in w32 (rotate_left a s + b).
Definition HH (a b c d x s ac : Z) : Z :=
  let a := w32 (a + (H b c d + x + ac)) in w32 (rotate_left a s + b).
Definition II (a b c d x s ac : Z) : Z :=
  let a := w32 (a + (I b c d + x + ac)) in w32 (rotate_left a s + b).

(** [encode]: the words of [input], least significant byte first. *)
Definition encode_word (w : Z) : bytes :=
  [chr (Z.land w 0xff); chr (Z.land (Z.shiftr w 8) 0xff);
   chr (Z.land (Z.shiftr w 16) 0xff); chr (Z.land (Z.shiftr w 24) 0xff)].
Definition encode (input : list Z) : bytes := concat (map encode_word input).

(** [decode]: word [i] of [input]. *)
Definition decode_word (input : bytes) (i : Z) : Z :=
  let b j := u8 (znth nul input j) in
  let j := 4 * i in
  Z.lor (Z.lor (Z.lor (b j) (Z.shiftl (b (j + 1)) 8)) (Z.shiftl (b (j + 2)) 16))
    (Z.shiftl (b (j + 3)) 24).
Definition decode (input : bytes) (len : Z) : list Z :=
  map (fun i => decode_word input (Z.of_nat i)) (seq 0 (Z.to_nat (len / 4))).

(** The registers [a], [b], [c], [d]. *)
Definition regs : Type := (Z * Z * Z * Z)%type.

Definition round1 (x : Z -> Z) (r : regs) : regs :=
  let '(a, b, c, d) := r in
  let a := FF a b c d (x 0) S11 0xd76aa478 in
  let d := FF d a b c (x 1) S12 0xe8c7b756 in
  let c := FF c d a b (x 2) S13 0x242070db in
  let b := FF b c d a (x 3) S14 0xc1bdceee in
  let a := FF a b c d (x 4) S11 0xf57c0faf in
  let d := FF d a b c (x 5) S12 0x4787c62a in
  let c := FF c d a b (x 6) S13 0xa8304613 in
  let b := FF b c d a (x 7) S14 0xfd469501 in
  let a := FF a b c d (x 8) S11 0x698098d8 in
  let d := FF d a b c (x 9) S12 0x8b44f7af in
  let c := FF c d a b (x 10) S13 0xffff5bb1 in
  let b := FF b c d a (x 11) S14 0x895cd7be in
  let a := FF a b c d (x 12) S11 0x6b901122 in
  let d := FF d a b c (x 13) S12 0xfd987193 in
  let c := FF c d a b (x 14) S13 0xa679438e in
  let b := FF b c d a (x 15) S14 0x49b40821 in
  (a, b, c, d).

Definition round2 (x : Z -> Z) (r : regs) : regs :=
  let '(a, b, c, d) := r in
  let a := GG a b c d (x 1) S21 0xf61e2562 in
  let d := GG d a b c (x 6) S22 0xc040b340 in
  let c := GG c d a b (x 11) S23 0x265e5a51 in
  let b := GG b c d a (x 0) S24 0xe9b6c7aa in
  let a := GG a b c d (x 5) S21 0xd62f105d in
  let d := GG d a b c (x 10) S22 0x2441453 in
  let c := GG c d a b (x 15) S23 0xd8a1e681 in
  let b := GG b c d a (x 4) S24 0xe7d3fbc8 in
  let a := GG a b c d (x 9) S21 0x21e1cde6 in
  let d := GG d a b c (x 14) S22 0xc33707d6 in
  let c := GG c d a b (x 3) S23 0xf4d50d87 in
  let b := GG b c d a (x 8) S24 0x455a14ed in
  let a := GG a b c d (x 13) S21 0xa9e3e905 in
  let d := GG d a b c (x 2) S22 0xfcefa3f8 in
  let c := GG c d a b (x 7) S23 0x676f02d9 in
  let b := GG b c d a (x 12) S24 0x8d2a4c8a in
  (a, b, c, d).

Definition round3 (x : Z -> Z) (r : regs) : regs :=
  let '(a, b, c, d) := r in
  let a := HH a b c d (x 5) S31 0xfffa3942 in
  let d := HH d a b c (x 8) S32 0x8771f681 in
  let c := HH c d a b (x 11) S33 0x6d9d6122 in
  let b := HH b c d a (x 14) S34 0xfde5380c in
  let a := HH a b c d (x 1) S31 0xa4beea44 in
  let d := HH d a b c (x 4) S32 0x4bdecfa9 in
  let c := HH c d a b (x 7) S33 0xf6bb4b60 in
  let b := HH b c d a (x 10) S34 0xbebfbc70 in
  let a := HH a b c d (x 13) S31 0x289b7ec6 in
  let d := HH d a b c (x 0) S32 0xeaa127fa in
  let c := HH c d a b (x 3) S33 0xd4ef3085 in
  let b := HH b c d a (x 6) S34 0x4881d05 in
  let a := HH a b c d (x 9) S31 0xd9d4d039 in
  let d := HH d a b c (x 12) S32 0xe6db99e5 in
  let c := HH c d a b (x 15) S33 0x1fa27cf8 in
  let b := HH b c d a (x 2) S34 0xc4ac5665 in
  (a, b, c, d).

Definition round4 (x : Z -> Z) (r : regs) : regs :=
  let '(a, b, c, d) := r in
  let a := II a b c d (x 0) S41 0xf4292244 in
  let d := II d a b c (x 7) S42 0x432aff97 in
  let c := II c d a b (x 14) S43 0xab9423a7 in
  let b := II b c d a (x 5) S44 0xfc93a039 in
  let a := II a b c d (x 12) S41 0x655b59c3 in
  let d := II d a b c (x 3) S42 0x8f0ccc92 in
  let c := II c d a b (x 10) S43 0xffeff47d in
  let b := II b c d a (x 1) S44 0x85845dd1 in
  let a := II a b c d (x 8) S41 0x6fa87e4f in
  let d := II d a b c (x 15) S42 0xfe2ce6e0 in
  let c := II c d a b (x 6) S43 0xa3014314 in
  let b := II b c d a (x 13) S44 0x4e0811a1 in
  let a := II a b c d (x 4) S41 0xf7537e82 in
  let d := II d a b c (x 11) S42 0xbd3af235 in
  let c := II c d a b (x 2) S43 0x2ad7d2bb in
  let b := II b c d a (x 9) S44 0xeb86d391 in
  (a, b, c, d).

Definition transform (state : regs) (block : bytes) : regs :=
  let xs := decode block 64 in
  let x i := znth 0 xs i in
  let '(a, b, c, d) := round4 x (round3 x (round2 x (round1 x state))) in
  let '(s0, s1, s2, s3) := state in
  (w32 (s0 + a), w32 (s1 + b), w32 (s2 + c), w32 (s3 + d)).

(** The object: [count] is the number of bits mod 2^64 in two words. *)
Record t := mk {
  state : regs; count0 : Z; count1 : Z; buffer : bytes; digest : bytes; finalized : bool }.

(** [init] leaves [buffer] and [digest] as they are. *)
Definition init (m : t) : t :=
  mk (0x67452301, 0xefcdab89, 0x98badcfe, 0x10325476) 0 0 (buffer m) (digest m) false.

(** [for (; input_index + 63 < input_length; input_index += 64) transform(input+input_index);] *)
Fixpoint transform_loop (fuel : nat) (st : regs) (input : bytes) (input_index input_length : Z)
  : regs * Z :=
  match fuel with
  | O => (st, input_index)
  | S k =>
      if w32 (input_index + 63) <? input_length then
        transform_loop k (transform st (zsub input_index 64 input)) input
          (w32 (input_index + 64)) input_length
      else (st, input_index)
  end.

(** The loop advances by 64 bytes, so [input_length] rounds are more than enough. *)
Definition update (m : t) (input : bytes) : t :=
  let input_length := zlen input in
  if finalized m then m
  else
    let buffer_index := Z.land (Z.shiftr (count0 m) 3) 0x3F in
    let add := w32 (Z.shiftl input_length 3) in
    let c0 := w32 (count0 m + add) in
    let c1 := if c0 <? add then w32 (count1 m + 1) else count1 m in
    let c1 := w32 (c1 + Z.shiftr input_length 29) in
    let buffer_space := 64 - buffer_index in
    let '(st, buf, buffer_index, input_index) :=
      if buffer_space <=? input_length then
        let buf := zsplice buffer_index (ztake buffer_space input) (buffer m) in
        let st := transform (state m) buf in
        let '(st, input_index) := transform_loop (length input) st input buffer_space input_length in
        (st, buf, 0, input_index)
      else (state m, buffer m, buffer_index, 0) in
    let buf := zsplice buffer_index (zsub input_index (input_length - input_index) input) buf in
    mk st c0 c1 buf (digest m) (finalized m).

Definition PADDING : bytes := chr 0x80 :: replicate 63 nul.

Definition finalize (m : t) : t :=
  if finalized m then m
  else
    let bits := encode [count0 m; count1 m] in
    let index := Z.land (Z.shiftr (count0 m) 3) 0x3f in
    let padLen := if index <? 56 then 56 - index else 120 - index in
    let m := update m (ztake padLen PADDING) in
    let m := update m bits in
    let '(a, b, c, d) := state m in
    (* memset of [sizeof( *buffer)], one byte *)
    mk (state m) (count0 m) (count1 m) (zsplice 0 [nul] (buffer m)) (encode [a; b; c; d]) true.

(** [MD5(str, len)]; [mem] is the memory the object is constructed in. *)
Definition of_string (mem : t) (s : bytes) : t := finalize (update (init mem) s).

(** [None] where the code prints an error and returns [NULL]. *)
Definition raw_digest_int (m : t) : option bytes :=
  if finalized m then Some (digest m) else None.
End MD5.

(** ** The compression function of RFC 1321, section 3.4

    Written from the text of the RFC: one step for all four rounds, with the
    functions, the order of the words, the shifts and the table [T] as functions of
    the step's number, rotations as arithmetic modulo 2^32, words read in base 256.
    None of it is taken from [MD5.transform]. *)

(** [T[i]], the integer part of 4294967296 * abs(sin(i)), counted from 0 here. *)
Definition md5_T : list Z :=
  [0xd76aa478; 0xe8c7b756; 0x242070db; 0xc1bdceee; 0xf57c0faf; 0x4787c62a; 0xa8304613; 0xfd469501;
   0x698098d8; 0x8b44f7af; 0xffff5bb1; 0x895cd7be; 0x6b901122; 0xfd987193; 0xa679438e; 0x49b40821;
   0xf61e2562; 0xc040b340; 0x265e5a51; 0xe9b6c7aa; 0xd62f105d; 0x02441453; 0xd8a1e681; 0xe7d3fbc8;
   0x21e1cde6; 0xc33707d6; 0xf4d50d87; 0x455a14ed; 0xa9e3e905; 0xfcefa3f8; 0x676f02d9; 0x8d2a4c8a;
   0xfffa3942; 0x8771f681; 0x6d9d6122; 0xfde5380c; 0xa4beea44; 0x4bdecfa9; 0xf6bb4b60; 0xbebfbc70;
   0x289b7ec6; 0xeaa127fa; 0xd4ef3085; 0x04881d05; 0xd9d4d039; 0xe6db99e5; 0x1fa27cf8; 0xc4ac5665;
   0xf4292244; 0x432aff97; 0xab9423a7; 0xfc93a039; 0x655b59c3; 0x8f0ccc92; 0xffeff47d; 0x85845dd1;
   0x6fa87e4f; 0xfe2ce6e0; 0xa3014314; 0x4e0811a1; 0xf7537e82; 0xbd3af235; 0x2ad7d2bb; 0xeb86d391].
Definition md5_shift (i : Z) : Z :=
  znth 0 (znth [] [[7; 12; 17; 22]; [5; 9; 14; 20]; [4; 11; 16; 23]; [6; 10; 15; 21]] (i / 16)) (i mod 4).
Definition md5_word (i : Z) : Z :=
  znth 0 [i; (1 + 5 * i) mod 16; (5 + 3 * i) mod 16; 7 * i mod 16] (i / 16).
(** F = XY v not(X) Z, G = XZ v Y not(Z), H = X xor Y xor Z, I = Y xor (X v not(Z)) *)
Definition md5_mix (i x y z : Z) : Z :=
  let neg x := 2 ^ 32 - 1 - x in
  znth 0 [Z.lor (Z.land x y) (Z.land (neg x) z); Z.lor (Z.land x z) (Z.land y (neg z));
          Z.lxor (Z.lxor x y) z; Z.lxor y (Z.lor x (neg z))] (i / 16).
(** [x <<< s] *)
Definition md5_rotl (s x : Z) : Z := x * 2 ^ s mod 2 ^ 32 + x / 2 ^ (32 - s).

(** a = b + ((a + F(b,c,d) + X[k] + T[i]) <<< s), after which the words change places. *)
Definition md5_step (X : Z -> Z) (r : MD5.regs) (i : Z) : MD5.regs :=
  let '(a, b, c, d) := r in
  (d, w32 (b + md5_rotl (md5_shift i) (w32 (a + md5_mix i b c d + X (md5_word i) + znth 0 md5_T i))), b, c).
Definition md5_compress (r : MD5.regs) (block : bytes) : MD5.regs :=
  let X k := le_val (zsub (4 * k) 4 block) in
  let '(a', b', c', d') := foldl (md5_step X) r (map Z.of_nat (seq 0 64)) in
  let '(a, b, c, d) := r in
  (w32 (a + a'), w32 (b + b'), w32 (c + c'), w32 (d + d')).

(** [transform] is this function. *)
Lemma rotate_left_rotl x s : 0 <= x < 2 ^ 32 -> 0 < s < 32 -> MD5.rotate_left x s = md5_rotl s x.
Proof.
  intros Hx Hs. unfold MD5.rotate_left, md5_rotl, w32. rewrite Z.shiftr_div_pow2, (Z.shiftl_mul_pow2 x) by lia.
  assert (E : 2 ^ 32 = 2 ^ (32 - s) * 2 ^ s) by (rewrite <- Z.pow_add_r by lia; f_equal; lia).
  assert (0 < 2 ^ s) by (apply Z.pow_pos_nonneg; lia). assert (0 < 2 ^ (32 - s)) by (apply Z.pow_pos_nonneg; lia).
  rewrite E at 1 2. rewrite Z.mul_mod_distr_r by lia. rewrite <- Z.shiftl_mul_pow2 by lia. rewrite lor_shiftl_add; [by rewrite Z.shiftl_mul_pow2 by lia|lia|].
  split; [apply Z.div_pos; lia|]. apply Z.div_lt_upper_bound; lia.
Qed.
Lemma md5_step_code fn X a b c d i :
  0 < md5_shift i < 32 ->
  (forall a b c d x s t, fn a b c d x s t = w32 (MD5.rotate_left (w32 (a + (md5_mix i b c d + x + t))) s + b)) ->
  md5_step X (a, b, c, d) i = (d, fn a b c d (X (md5_word i)) (md5_shift i) (znth 0 md5_T i), b, c).
Proof.
  intros Hs E. rewrite E. unfold md5_step. rewrite rotate_left_rotl by (try apply w32_range; done).
  do 3 f_equal. f_equal. rewrite Z.add_comm. do 3 f_equal. lia.
Qed.
(** Four steps in a row bring the words back to their places. *)
Definition four_steps (fn : Z -> Z -> Z -> Z -> Z -> Z -> Z -> Z) (X : Z -> Z) (i : Z) (r : MD5.regs) : MD5.regs :=
  let '(a, b, c, d) := r in
  let step a b c d i := fn a b c d (X (md5_word i)) (md5_shift i) (znth 0 md5_T i) in
  let a := step a b c d i in
  let d := step d a b c (i + 1) in
  let c := step c d a b (i + 2) in
  let b := step b c d a (i + 3) in
  (a, b, c, d).
Lemma four_steps_code fn X i r :
  Forall (fun i => 0 < md5_shift i < 32 /\ forall a b c d x s t,
    fn a b c d x s t = w32 (MD5.rotate_left (w32 (a + (md5_mix i b c d + x + t))) s + b)) [i; i + 1; i + 2; i + 3] ->
  four_steps fn X i r = foldl (md5_step X) r [i; i + 1; i + 2; i + 3].
Proof.
  intros Hf. repeat apply Forall_cons in Hf as [[? ?] Hf]. destruct r as [[[a b] c] d]. unfold four_steps. cbv zeta. cbn [foldl].
  by rewrite !(md5_step_code fn).
Qed.
Ltac four_same := repeat apply Forall_cons_2; try apply Forall_nil; try exact I; (split; [split; reflexivity|intros; reflexivity]).
Lemma round1_steps X r : MD5.round1 X r = foldl (md5_step X) r (map Z.of_nat (seq 0 16)).
Proof.
  transitivity (four_steps MD5.FF X 12 (four_steps MD5.FF X 8 (four_steps MD5.FF X 4 (four_steps MD5.FF X 0 r)))).
  - by destruct r as [[[? ?] ?] ?].
  - rewrite (four_steps_code MD5.FF X 0), (four_steps_code MD5.FF X 4), (four_steps_code MD5.FF X 8), (four_steps_code MD5.FF X 12), <- !foldl_app by four_same. done.
Qed.
Lemma round2_steps X r : MD5.round2 X r = foldl (md5_step X) r (map Z.of_nat (seq 16 16)).
Proof.
  transitivity (four_steps MD5.GG X 28 (four_steps MD5.GG X 24 (four_steps MD5.GG X 20 (four_steps MD5.GG X 16 r)))).
  - by destruct r as [[[? ?] ?] ?].
  - rewrite (four_steps_code MD5.GG X 16), (four_steps_code MD5.GG X 20), (four_steps_code MD5.GG X 24), (four_steps_code MD5.GG X 28), <- !foldl_app by four_same. done.
Qed.
Lemma round3_steps X r : MD5.round3 X r = foldl (md5_step X) r (map Z.of_nat (seq 32 16)).
Proof.
  transitivity (four_steps MD5.HH X 44 (four_steps MD5.HH X 40 (four_steps MD5.HH X 36 (four_steps MD5.HH X 32 r)))).
  - by destruct r as [[[? ?] ?] ?].
  - rewrite (four_steps_code MD5.HH X 32), (four_steps_code MD5.HH X 36), (four_steps_code MD5.HH X 40), (four_steps_code MD5.HH X 44), <- !foldl_app by four_same. done.
Qed.
Lemma round4_steps X r : MD5.round4 X r = foldl (md5_step X) r (map Z.of_nat (seq 48 16)).
Proof.
  transitivity (four_steps MD5.II X 60 (four_steps MD5.II X 56 (four_steps MD5.II X 52 (four_steps MD5.II X 48 r)))).
  - by destruct r as [[[? ?] ?] ?].
  - rewrite (four_steps_code MD5.II X 48), (four_steps_code MD5.II X 52), (four_steps_code MD5.II X 56), (four_steps_code MD5.II X 60), <- !foldl_app by four_same. done.
Qed.
Lemma decode_word_le block k : 0 <= k -> MD5.decode_word block k = le_val (zsub (4 * k) 4 block).
Proof.
  intros Hk. unfold MD5.decode_word, zsub.
  assert (E : forall j, 0 <= j -> znth nul block (4 * k + j) = znth nul (zdrop (4 * k) block) j) by (intros; rewrite znth_zdrop by lia; done).
  rewrite <- (Z.add_0_r (4 * k)) at 1. rewrite !E by lia. generalize (zdrop (4 * k) block). clear. intros l.
  assert (W : forall a b c d : Z, 0 <= a < 256 -> 0 <= b < 256 -> 0 <= c < 256 ->
    Z.lor (Z.lor (Z.lor a (Z.shiftl b 8)) (Z.shiftl c 16)) (Z.shiftl d 24) = a + 256 * (b + 256 * (c + 256 * (d + 256 * 0)))).
  { intros a b c d Ha Hb Hc. rewrite (Z.lor_comm a), lor_shiftl_add by lia.
    rewrite (Z.lor_comm (b * 2 ^ 8 + a)), lor_shiftl_add by lia.
    rewrite (Z.lor_comm (c * 2 ^ 16 + _)), lor_shiftl_add by lia. lia. }
  rewrite W by apply u8_range. by destruct l as [|x0 [|x1 [|x2 [|x3 l]]]].
Qed.
Lemma md5_word_range i : 0 <= i < 64 -> 0 <= md5_word i < 16.
Proof.
  intros Hi. unfold md5_word. assert (0 <= i / 16 < 4) by (split; [apply Z.div_pos; lia|apply Z.div_lt_upper_bound; lia]).
  destruct (decide (i / 16 = 0)) as [E|]; [rewrite E; change (0 <= i < 16); pose proof (Z.div_mod i 16 ltac:(lia)); pose proof (Z.mod_pos_bound i 16 ltac:(lia)); lia|].
  assert (Hq : i / 16 = 1 \/ i / 16 = 2 \/ i / 16 = 3) by lia. destruct Hq as [-> | [-> | ->]]; apply Z.mod_pos_bound; reflexivity.
Qed.
Lemma transform_compress r block : MD5.transform r block = md5_compress r block.
Proof.
  unfold MD5.transform, md5_compress. cbv zeta.
  change (seq 0 64) with (seq 0 16 ++ seq 16 16 ++ seq 32 16 ++ seq 48 16)%list.
  rewrite round1_steps, round2_steps, round3_steps, round4_steps, !map_app, !foldl_app.
  assert (E : forall l, Forall (fun i => 0 <= i < 64) l -> forall r, foldl (md5_step (fun i => znth 0 (MD5.decode block 64) i)) r l =
    foldl (md5_step (fun k => le_val (zsub (4 * k) 4 block))) r l).
  { clear. induction 1 as [|i l Hi _ IH]; intros r; [done|]. cbn [foldl]. rewrite IH. f_equal. destruct r as [[[a b] c] d]. unfold md5_step.
    assert (Ew : znth 0 (MD5.decode block 64) (md5_word i) = le_val (zsub (4 * md5_word i) 4 block)); [|by rewrite Ew].
    pose proof (md5_word_range i Hi). rewrite <- decode_word_le by lia. unfold MD5.decode, znth. change (64 / 4) with 16.
    rewrite (nth_indep _ 0 (MD5.decode_word block (Z.of_nat 0))) by (rewrite length_map, length_seq; lia).
    rewrite (map_nth (fun i => MD5.decode_word block (Z.of_nat i)) (seq 0 _) 0%nat), seq_nth by lia. f_equal. lia. }
  rewrite !E; [done|..]; apply Forall_forall; intros i (n & -> & Hn)%list_elem_of_fmap; apply elem_of_seq in Hn; lia.
Qed.

(** ** MD5 as a function of the whole message *)

Definition md5_iv : MD5.regs := (0x67452301, 0xefcdab89, 0x98badcfe, 0x10325476).
Abbreviation md5_chain := (chain 64 MD5.transform).
Abbreviation md5_rest := (rest 64).

(** RFC 1321: a one bit, zero bits up to 56 bytes mod 64, the bit count. *)
Definition md5_pad (msg : bytes) : bytes :=
  msg ++ chr 0x80 :: replicate (Z.to_nat ((55 - zlen msg) mod 64)) nul ++ le_bytes 8 (8 * zlen msg).
Definition md5_spec (msg : bytes) : bytes :=
  let '(a, b, c, d) := chain 64 md5_compress md5_iv (md5_pad msg) in concat (map (le_bytes 4) [a; b; c; d]).

Lemma md5_chain_compress h l : md5_chain h l = chain 64 md5_compress h l.
Proof.
  unfold chain. generalize (Z.to_nat (zlen l / 64)). intros n. revert h l.
  induction n as [|n IH]; intros h l; [done|]. cbn [absorb]. by rewrite IH, transform_compress.
Qed.

(** What the object has accumulated after the bytes [msg]. *)
Record md5_of (msg : bytes) (m : MD5.t) : Prop := {
  mo_open : MD5.finalized m = false;
  mo_state : MD5.state m = md5_chain md5_iv msg;
  mo_len : zlen (MD5.buffer m) = 64;
  mo_buf : ztake (zlen (md5_rest msg)) (MD5.buffer m) = md5_rest msg;
  mo_c0 : MD5.count0 m = w32 (8 * zlen msg);
  mo_c1 : MD5.count1 m = w32 (8 * zlen msg / 2 ^ 32) }.

Lemma md5_index n : 0 <= n -> Z.land (Z.shiftr (w32 (8 * n)) 3) 0x3F = n mod 64.
Proof.
  intros Hn. change 0x3F with (2 ^ 6 - 1). rewrite land_mask, Z.shiftr_div_pow2 by lia.
  unfold w32. change (2 ^ 32) with (8 * 2 ^ 29). rewrite Z.mul_mod_distr_l by lia.
  change (2 ^ 3) with 8. rewrite Z.mul_comm, Z.div_mul by lia.
  change (2 ^ 29) with (64 * 2 ^ 23). change (2 ^ 6) with 64.
  rewrite Z.rem_mul_r by lia. rewrite (Z.mul_comm 64), Z.mod_add by lia. by rewrite Z.mod_mod.
Qed.

(** The bit count in two words. *)
Lemma md5_count x y :
  0 <= x -> 0 <= y < 2 ^ 32 ->
  let c0 := w32 (w32 (8 * x) + w32 (Z.shiftl y 3)) in
  let c1 := if c0 <? w32 (Z.shiftl y 3) then w32 (w32 (8 * x / 2 ^ 32) + 1) else w32 (8 * x / 2 ^ 32) in
  c0 = w32 (8 * (x + y)) /\ w32 (c1 + Z.shiftr y 29) = w32 (8 * (x + y) / 2 ^ 32).
Proof.
  intros Hx Hy. rewrite Z.shiftl_mul_pow2 by lia. change (2 ^ 3) with 8. intros c0 c1.
  assert (E0 : c0 = w32 (8 * (x + y))).
  { unfold c0, w32. rewrite <- Zplus_mod. f_equal. lia. }
  split; [done|]. rewrite Z.shiftr_div_pow2 by lia.
  assert (Ey : y / 2 ^ 29 = (y * 8) / 2 ^ 32).
  { change (2 ^ 32) with (2 ^ 29 * 8). by rewrite Z.div_mul_cancel_r by lia. }
  rewrite Ey. subst c1. rewrite E0. clear E0 Ey c0. unfold w32.
  set (X := 8 * x). set (Y := y * 8). replace (8 * (x + y)) with (X + Y) by lia.
  assert (0 <= X) by lia. assert (0 <= Y) by lia. clearbody X Y.
  pose proof (Z.div_mod X (2 ^ 32) ltac:(lia)). pose proof (Z.mod_pos_bound X (2 ^ 32) ltac:(lia)).
  pose proof (Z.div_mod Y (2 ^ 32) ltac:(lia)). pose proof (Z.mod_pos_bound Y (2 ^ 32) ltac:(lia)).
  set (qx := X / 2 ^ 32) in *. set (qy := Y / 2 ^ 32) in *.
  set (rx := X mod 2 ^ 32) in *. set (ry := Y mod 2 ^ 32) in *.
  destruct (decide (rx + ry < 2 ^ 32)) as [Hc|Hc].
  - assert (Em : (X + Y) mod 2 ^ 32 = rx + ry)
      by (symmetry; apply (Z.mod_unique_pos _ _ (qx + qy)); lia).
    assert (Ed : (X + Y) / 2 ^ 32 = qx + qy)
      by (symmetry; apply (Z.div_unique_pos _ _ _ (rx + ry)); lia).
    rewrite Em, Ed. destruct (Z.ltb_spec (rx + ry) ry); [lia|]. by rewrite Zplus_mod_idemp_l.
  - assert (Em : (X + Y) mod 2 ^ 32 = rx + ry - 2 ^ 32)
      by (symmetry; apply (Z.mod_unique_pos _ _ (qx + qy + 1)); lia).
    assert (Ed : (X + Y) / 2 ^ 32 = qx + qy + 1)
      by (symmetry; apply (Z.div_unique_pos _ _ _ (rx + ry - 2 ^ 32)); lia).
    rewrite Em, Ed. destruct (Z.ltb_spec (rx + ry - 2 ^ 32) ry); [|lia].
    rewrite Zplus_mod_idemp_l, <- Z.add_assoc, Zplus_mod_idemp_l. f_equal. lia.
Qed.

Lemma transform_loop_spec input : zlen input < 2 ^ 32 - 64 -> forall fuel st idx,
  0 <= idx <= zlen input -> zlen input - idx <= Z.of_nat fuel ->
  exists idx', MD5.transform_loop fuel st input idx (zlen input)
    = (md5_chain st (zdrop idx input), idx') /\
    idx <= idx' <= zlen input /\ zdrop idx' input = md5_rest (zdrop idx input).
Proof.
  intros Hw. induction fuel as [|f IH]; intros st idx Hi Hf; cbn [MD5.transform_loop].
  - assert (idx = zlen input) as -> by lia. exists (zlen input).
    rewrite zdrop_ge by lia. split_and!; try lia; done.
  - rewrite w32_id by lia. destruct (Z.ltb_spec (idx + 63) (zlen input)).
    + rewrite w32_id by lia.
      destruct (IH (MD5.transform st (zsub idx 64 input)) (idx + 64)) as (idx' & -> & Hidx & E); [lia..|].
      destruct (chain_block 64 MD5.transform ltac:(lia) st (zdrop idx input)) as [E1 E2].
      { rewrite zlen_zdrop by lia. lia. }
      rewrite E1, E2, zdrop_zdrop by lia. exists idx'. split_and!; try lia; [done|].
      by rewrite E.
    + destruct (chain_app_short 64 MD5.transform ltac:(lia) st [] (zdrop idx input)) as [E1 E2].
      { change (zlen (rest 64 [])) with 0. rewrite zlen_zdrop by lia. lia. }
      cbn [app] in E1, E2. rewrite E1, E2. exists idx. split_and!; try lia; done.
Qed.

(** One [update], whatever its size, appends its input. *)
Lemma update_of msg m input :
  md5_of msg m -> zlen input < 2 ^ 32 - 64 -> md5_of (msg ++ input) (MD5.update m input).
Proof.
  intros [Ho Hs Hl Hb H0 H1] Hw. pose proof (zlen_nonneg msg). pose proof (zlen_nonneg input).
  pose proof (rest_bound 64 ltac:(lia) msg) as Hrb. pose proof (zlen_rest 64 ltac:(lia) msg) as Hrl.
  destruct (md5_count (zlen msg) (zlen input)) as [Ec0 Ec1]; [lia..|].
  unfold MD5.update. rewrite Ho, H0, H1, md5_index by lia. rewrite <- Hrl, Hs.
  destruct (Z.leb_spec (64 - zlen (md5_rest msg)) (zlen input)) as [Hc|Hc].
  - assert (Hz : zlen (ztake (64 - zlen (md5_rest msg)) input) = 64 - zlen (md5_rest msg))
      by (rewrite zlen_ztake by lia; lia).
    rewrite zsplice_fill, Hb by lia.
    destruct (chain_app_fill 64 MD5.transform ltac:(lia) md5_iv msg
                (ztake (64 - zlen (md5_rest msg)) input)) as [Ef Er]; [lia|].
    rewrite <- Ef.
    destruct (transform_loop_spec input Hw (length input)
                (md5_chain md5_iv (msg ++ ztake (64 - zlen (md5_rest msg)) input))
                (64 - zlen (md5_rest msg))) as (idx & -> & Hidx & Ei); [lia|unfold zlen in *; lia|].
    destruct (chain_blocks 64 MD5.transform ltac:(lia) md5_iv
                (msg ++ ztake (64 - zlen (md5_rest msg)) input)
                (zdrop (64 - zlen (md5_rest msg)) input) Er) as [Eb1 Eb2].
    rewrite <- app_assoc, ztake_zdrop in Eb1, Eb2.
    assert (Es : zsub idx (zlen input - idx) input = md5_rest (msg ++ input)).
    { rewrite Eb2, <- Ei. unfold zsub. apply ztake_ge. rewrite zlen_zdrop by lia. lia. }
    rewrite Es. pose proof (rest_bound 64 ltac:(lia) (msg ++ input)).
    set (buf := md5_rest msg ++ ztake (64 - zlen (md5_rest msg)) input).
    assert (Hbl : zlen buf = 64) by (unfold buf; rewrite zlen_app; lia).
    split; cbn; try done.
    + rewrite zlen_zsplice; lia.
    + rewrite <- (Z.add_0_l (zlen (md5_rest (msg ++ input)))), ztake_zsplice by lia.
      by rewrite ztake_0.
    + by rewrite zlen_app.
    + by rewrite zlen_app.
  - destruct (chain_app_short 64 MD5.transform ltac:(lia) md5_iv msg input) as [Ef Er]; [lia|].
    assert (Es : zsub 0 (zlen input - 0) input = input) by (rewrite Z.sub_0_r; apply zsub_all).
    rewrite Es. split; cbn; try done.
    + rewrite zlen_zsplice; lia.
    + rewrite Er, zlen_app, ztake_zsplice by lia. by rewrite Hb.
    + by rewrite zlen_app.
    + by rewrite zlen_app.
Qed.

Lemma init_of mem : zlen (MD5.buffer mem) = 64 -> md5_of [] (MD5.init mem).
Proof. intros. by split. Qed.

(** Successive updates. *)
Lemma updates_of chunks : forall msg m,
  md5_of msg m -> Forall (fun c => zlen c < 2 ^ 32 - 64) chunks ->
  md5_of (msg ++ concat chunks) (foldl MD5.update m chunks).
Proof.
  induction chunks as [|c cs IH]; intros msg m Hm Hc; cbn [concat foldl].
  - by rewrite app_nil_r.
  - inversion_clear Hc as [|? ? H1 H2]. rewrite app_assoc. apply IH; [by apply update_of|done].
Qed.

Lemma encode_word_le w : MD5.encode_word w = le_bytes 4 w.
Proof.
  unfold MD5.encode_word. cbn [le_bytes].
  assert (E : forall k, 0 <= k -> chr (Z.land (Z.shiftr w k) 0xff) = chr (w / 2 ^ k)).
  { intros k Hk. apply u8_inj. rewrite !u8_chr. change 0xff with (2 ^ 8 - 1).
    rewrite land_mask, Z.shiftr_div_pow2 by lia. by rewrite Z.mod_mod. }
  pose proof (E 0 ltac:(lia)) as E0. rewrite Z.shiftr_0_r, Z.div_1_r in E0.
  rewrite E0, !E by lia. rewrite !Z.div_div by lia. done.
Qed.

Lemma bits_le n : MD5.encode [w32 n; w32 (n / 2 ^ 32)] = le_bytes 8 n.
Proof.
  unfold MD5.encode. cbn [map concat]. rewrite !encode_word_le, app_nil_r.
  change 8%nat with (4 + 4)%nat. rewrite (le_bytes_app 4 4 n). unfold w32. change (2 ^ 32) with (256 ^ Z.of_nat 4).
  by rewrite !le_bytes_mod.
Qed.

Lemma padding_split (msg : bytes) :
  let index := zlen msg mod 64 in
  let padLen := if index <? 56 then 56 - index else 120 - index in
  0 < padLen <= 64 /\
  ztake padLen MD5.PADDING = chr 0x80 :: replicate (Z.to_nat ((55 - zlen msg) mod 64)) nul.
Proof.
  intros index padLen. assert (Hi : 0 <= index < 64) by (apply Z.mod_pos_bound; lia).
  assert (Hp : 0 < padLen <= 64) by (unfold padLen; destruct (Z.ltb_spec index 56); lia).
  split; [done|].
  assert (E : (55 - zlen msg) mod 64 = padLen - 1).
  { unfold padLen. rewrite <- Zminus_mod_idemp_r. fold index.
    destruct (Z.ltb_spec index 56).
    - rewrite Z.mod_small; lia.
    - rewrite <- (Z.mod_add _ 1), Z.mod_small; lia. }
  rewrite E. clear E. clearbody padLen. unfold MD5.PADDING, ztake.
  replace (Z.to_nat padLen) with (S (Z.to_nat (padLen - 1))) by lia. cbn [take].
  rewrite take_replicate. do 2 f_equal. lia.
Qed.

Lemma finalize_of (msg : bytes) m :
  md5_of msg m ->
  MD5.finalized (MD5.finalize m) = true /\ MD5.digest (MD5.finalize m) = md5_spec msg /\
  zlen (MD5.buffer (MD5.finalize m)) = 64.
Proof.
  intros Hm. pose proof (zlen_nonneg msg). destruct (padding_split msg) as [Hp Ep].
  unfold MD5.finalize. rewrite (mo_open _ _ Hm), (mo_c0 _ _ Hm), (mo_c1 _ _ Hm).
  rewrite bits_le, md5_index by lia. rewrite Ep.
  set (pad := chr 0x80 :: replicate _ nul) in *.
  assert (zlen pad <= 64).
  { rewrite <- Ep, zlen_ztake by lia. lia. }
  assert (H2 : md5_of ((msg ++ pad) ++ le_bytes 8 (8 * zlen msg))
                 (MD5.update (MD5.update m pad) (le_bytes 8 (8 * zlen msg)))).
  { apply update_of; [apply update_of; [done|lia]|]. rewrite zlen_le_bytes. lia. }
  assert (E : (msg ++ pad) ++ le_bytes 8 (8 * zlen msg) = md5_pad msg) by (by rewrite <- app_assoc).
  rewrite E in H2. unfold md5_spec. rewrite <- md5_chain_compress, <- (mo_state _ _ H2). pose proof (mo_len _ _ H2) as Hl.
  cbv zeta. revert Hl. generalize (MD5.update (MD5.update m pad) (le_bytes 8 (8 * zlen msg))). intros m2 Hl.
  destruct (MD5.state m2) as [[[a b] c] d]. split_and!; [done| |].
  - cbn [MD5.digest]. unfold MD5.encode. cbn [map]. by rewrite !encode_word_le.
  - cbn [MD5.buffer]. rewrite zlen_zsplice; rewrite ?Hl; done.
Qed.

Lemma zlen_md5_spec data : zlen (md5_spec data) = 16.
Proof. unfold md5_spec. by destruct (chain _ _ _ _) as [[[a b] c] d]. Qed.

(** C27: feeding a message to the MD5 object in chunks of any sizes below
    2^32 - 64 bytes and finalizing it gives the MD5 digest of the whole message:
    the compression function of RFC 1321 ([md5_compress], written from the RFC and not
    taken from the code) iterated from the initial value over the message padded as
    the RFC prescribes, cut into 64-byte blocks. *)
Theorem md5_streaming_correct (mem : MD5.t) (chunks : list bytes) :
  zlen (MD5.buffer mem) = 64 -> Forall (fun c => zlen c < 2 ^ 32 - 64) chunks ->
  MD5.raw_digest_int (MD5.finalize (foldl MD5.update (MD5.init mem) chunks))
  = Some (md5_spec (concat chunks)).
Proof.
  intros Hb Hc. destruct (finalize_of (concat chunks) (foldl MD5.update (MD5.init mem) chunks))
    as (E1 & E2 & _).
  - by apply (updates_of chunks [] (MD5.init mem) (init_of mem Hb)).
  - unfold MD5.raw_digest_int. by rewrite E1, E2.
Qed.

Definition md5_mem : MD5.t := MD5.mk (0, 0, 0, 0) 0 0 (replicate 64 "x"%char) (replicate 16 "x"%char) true.
Lemma md5_streaming_correct_witness :
  MD5.raw_digest_int (MD5.finalize (foldl MD5.update (MD5.init md5_mem)
                                      [str "12345678901234567890123456789012345678901234567890";
                                       []; str "123456789012345678901234567890"]))
  = Some (md5_spec (concat [str "12345678901234567890123456789012345678901234567890";
                            []; str "123456789012345678901234567890"])).
Proof.
  apply (md5_streaming_correct md5_mem [str "12345678901234567890123456789012345678901234567890";
                                        []; str "123456789012345678901234567890"]).
  - reflexivity.
  - repeat constructor.
Defined.

(** The test vectors of RFC 1321. *)
Example md5_vectors :
  md5_spec [] = map chr [0xd4;0x1d;0x8c;0xd9;0x8f;0x00;0xb2;0x04;0xe9;0x80;0x09;0x98;0xec;0xf8;0x42;0x7e] /\
  md5_spec (str "abc") = map chr [0x90;0x01;0x50;0x98;0x3c;0xd2;0x4f;0xb0;0xd6;0x96;0x3f;0x7d;0x28;0xe1;0x7f;0x72].
Proof. split; vm_compute; reflexivity. Qed.

(** An update that exactly fills the buffer leaves the block in it. *)
Lemma update_fill msg m input :
  md5_of msg m -> zlen (md5_rest msg) + zlen input = 64 ->
  MD5.buffer (MD5.update m input) = md5_rest msg ++ input.
Proof.
  intros [Ho Hs Hl Hb H0 H1] Hz. pose proof (zlen_nonneg msg).
  pose proof (rest_bound 64 ltac:(lia) msg) as Hrb. pose proof (zlen_rest 64 ltac:(lia) msg) as Hrl.
  unfold MD5.update. rewrite Ho, H0, md5_index by lia. rewrite <- Hrl.
  destruct (Z.leb_spec (64 - zlen (md5_rest msg)) (zlen input)); [|lia].
  rewrite (ztake_ge _ input), zsplice_fill, Hb by lia.
  destruct (transform_loop_spec input ltac:(lia) (length input) (MD5.transform (MD5.state m) (md5_rest msg ++ input))
              (64 - zlen (md5_rest msg))) as (idx & -> & Hidx & _); [lia|unfold zlen in *; lia|].
  cbn [MD5.buffer]. assert (idx = zlen input) as -> by lia.
  rewrite Z.sub_diag, zsub_zero. done.
Qed.

(** Finalizing clears only the first byte of the input buffer: the comment
    announces that sensitive information is zeroized, but [sizeof] is taken of
    the first element.  For a message that fits the last block, every byte of it
    but the first is still in the object's buffer afterwards. *)
Theorem finalize_clears_one_byte (mem : MD5.t) (msg : bytes) :
  zlen (MD5.buffer mem) = 64 -> zlen msg < 56 ->
  MD5.buffer (MD5.of_string mem msg) = nul :: zdrop 1 (md5_pad msg).
Proof.
  intros Hb Hm. pose proof (zlen_nonneg msg).
  assert (Hu1 : md5_of msg (MD5.update (MD5.init mem) msg))
    by (apply (update_of [] _ msg (init_of mem Hb)); lia).
  destruct (padding_split msg) as [Hp Ep]. rewrite (Z.mod_small (zlen msg)) in * by lia.
  destruct (Z.ltb_spec (zlen msg) 56); [|lia].
  unfold MD5.of_string, MD5.finalize.
  rewrite (mo_open _ _ Hu1), (mo_c0 _ _ Hu1), (mo_c1 _ _ Hu1), bits_le, md5_index by lia.
  rewrite Z.mod_small by lia. destruct (Z.ltb_spec (zlen msg) 56); [|lia]. rewrite Ep.
  set (pad := chr 0x80 :: replicate _ nul) in *.
  assert (Hz : zlen pad = 56 - zlen msg).
  { rewrite <- Ep, zlen_ztake by lia. change (zlen MD5.PADDING) with 64. lia. }
  assert (Hu2 : md5_of (msg ++ pad) (MD5.update (MD5.update (MD5.init mem) msg) pad))
    by (apply update_of; [done|lia]).
  assert (Hr : md5_rest (msg ++ pad) = msg ++ pad).
  { unfold rest. rewrite zlen_app, Hz. rewrite Z.div_small by lia. done. }
  pose proof (update_fill _ _ (le_bytes 8 (8 * zlen msg)) Hu2) as Hf. rewrite Hr in Hf.
  rewrite zlen_app, Hz, zlen_le_bytes in Hf. specialize (Hf ltac:(lia)).
  destruct (MD5.state (MD5.update _ (le_bytes _ _))) as [[[a b] c] d]. cbn [MD5.buffer].
  rewrite Hf. unfold zsplice, md5_pad. cbn [app]. by rewrite <- app_assoc.
Qed.

Lemma finalize_clears_one_byte_witness :
  MD5.buffer (MD5.of_string md5_mem (str "secret")) = nul :: zdrop 1 (md5_pad (str "secret")).
Proof. apply (finalize_clears_one_byte md5_mem (str "secret")); reflexivity. Defined.
