(* ===== verification/Sha2.v ===== *)
(** SHA-256, SHA-384 and SHA-512: [urbackupcommon/sha2/sha2.cpp] and [sha2.h] (the
    built-in implementation, compiled with [DO_NOT_USE_CRYPTOPP_SHA], on a
    little-endian host and with the transforms that are not unrolled).

    The functions for the 32-bit and the 64-bit variants are the same code at two
    word sizes; a [variant] holds what differs, and [SHA256_*], [SHA512_*] and
    [SHA384_*] are its instances. *)
From S2P Require Import Prelude Bits BlockHash.

(** ** Macros *)

Definition REVERSE32 (w : Z) : Z :=
  let tmp := w in
  let tmp := Z.lor (Z.shiftr tmp 16) (w32 (Z.shiftl tmp 16)) in
  Z.lor (Z.shiftr (Z.land tmp 0xff00ff00) 8) (w32 (Z.shiftl (Z.land tmp 0x00ff00ff) 8)).
Definition REVERSE64 (w : Z) : Z :=
  let tmp := w in
  let tmp := Z.lor (Z.shiftr tmp 32) (w64 (Z.shiftl tmp 32)) in
  let tmp := Z.lor (Z.shiftr (Z.land tmp 0xff00ff00ff00ff00) 8)
               (w64 (Z.shiftl (Z.land tmp 0x00ff00ff00ff00ff) 8)) in
  Z.lor (Z.shiftr (Z.land tmp 0xffff0000ffff0000) 16)
    (w64 (Z.shiftl (Z.land tmp 0x0000ffff0000ffff) 16)).

(** [ADDINC128(w, n)] on the two words *)
Definition ADDINC128 (w : Z * Z) (n : Z) : Z * Z :=
  let w0 := w64 (fst w + n) in
  (w0, if w0 <? n then w64 (snd w + 1) else snd w).

Definition R (b x : Z) : Z := Z.shiftr x b.
Definition S32 (b x : Z) : Z := Z.lor (Z.shiftr x b) (w32 (Z.shiftl x (32 - b))).
Definition S64 (b x : Z) : Z := Z.lor (Z.shiftr x b) (w64 (Z.shiftl x (64 - b))).
Definition Sigma0_256 (x : Z) : Z := Z.lxor (Z.lxor (S32 2 x) (S32 13 x)) (S32 22 x).
Definition Sigma1_256 (x : Z) : Z := Z.lxor (Z.lxor (S32 6 x) (S32 11 x)) (S32 25 x).
Definition sigma0_256 (x : Z) : Z := Z.lxor (Z.lxor (S32 7 x) (S32 18 x)) (R 3 x).
Definition sigma1_256 (x : Z) : Z := Z.lxor (Z.lxor (S32 17 x) (S32 19 x)) (R 10 x).
Definition Sigma0_512 (x : Z) : Z := Z.lxor (Z.lxor (S64 28 x) (S64 34 x)) (S64 39 x).
Definition Sigma1_512 (x : Z) : Z := Z.lxor (Z.lxor (S64 14 x) (S64 18 x)) (S64 41 x).
Definition sigma0_512 (x : Z) : Z := Z.lxor (Z.lxor (S64 1 x) (S64 8 x)) (R 7 x).
Definition sigma1_512 (x : Z) : Z := Z.lxor (Z.lxor (S64 19 x) (S64 61 x)) (R 6 x).

(** ** Constants *)

(** The rows of four constants of the table as the code lays it out. *)
Definition rows4 (l : list (Z * Z * Z * Z)) : list Z :=
  flat_map (fun '(a, b, c, d) => [a; b; c; d]) l.

Definition K256 : list Z :=
  rows4 [
    (0x428a2f98, 0x71374491, 0xb5c0fbcf, 0xe9b5dba5);
    (0x3956c25b, 0x59f111f1, 0x923f82a4, 0xab1c5ed5);
    (0xd807aa98, 0x12835b01, 0x243185be, 0x550c7dc3);
    (0x72be5d74, 0x80deb1fe, 0x9bdc06a7, 0xc19bf174);
    (0xe49b69c1, 0xefbe4786, 0x0fc19dc6, 0x240ca1cc);
    (0x2de92c6f, 0x4a7484aa, 0x5cb0a9dc, 0x76f988da);
    (0x983e5152, 0xa831c66d, 0xb00327c8, 0xbf597fc7);
    (0xc6e00bf3, 0xd5a79147, 0x06ca6351, 0x14292967);
    (0x27b70a85, 0x2e1b2138, 0x4d2c6dfc, 0x53380d13);
    (0x650a7354, 0x766a0abb, 0x81c2c92e, 0x92722c85);
    (0xa2bfe8a1, 0xa81a664b, 0xc24b8b70, 0xc76c51a3);
    (0xd192e819, 0xd6990624, 0xf40e3585, 0x106aa070);
    (0x19a4c116, 0x1e376c08, 0x2748774c, 0x34b0bcb5);
    (0x391c0cb3, 0x4ed8aa4a, 0x5b9cca4f, 0x682e6ff3);
    (0x748f82ee, 0x78a5636f, 0x84c87814, 0x8cc70208);
    (0x90befffa, 0xa4506ceb, 0xbef9a3f7, 0xc67178f2)].

Definition sha256_initial_hash_value : list Z :=
    [0x6a09e667; 0xbb67ae85; 0x3c6ef372; 0xa54ff53a;
     0x510e527f; 0x9b05688c; 0x1f83d9ab; 0x5be0cd19].

Definition K512 : list Z :=
    [0x428a2f98d728ae22; 0x7137449123ef65cd;
     0xb5c0fbcfec4d3b2f; 0xe9b5dba58189dbbc;
     0x3956c25bf348b538; 0x59f111f1b605d019;
     0x923f82a4af194f9b; 0xab1c5ed5da6d8118;
     0xd807aa98a3030242; 0x12835b0145706fbe;
     0x243185be4ee4b28c; 0x550c7dc3d5ffb4e2;
     0x72be5d74f27b896f; 0x80deb1fe3b1696b1;
     0x9bdc06a725c71235; 0xc19bf174cf692694;
     0xe49b69c19ef14ad2; 0xefbe4786384f25e3;
     0x0fc19dc68b8cd5b5; 0x240ca1cc77ac9c65;
     0x2de92c6f592b0275; 0x4a7484aa6ea6e483;
     0x5cb0a9dcbd41fbd4; 0x76f988da831153b5;
     0x983e5152ee66dfab; 0xa831c66d2db43210;
     0xb00327c898fb213f; 0xbf597fc7beef0ee4;
     0xc6e00bf33da88fc2; 0xd5a79147930aa725;
     0x06ca6351e003826f; 0x142929670a0e6e70;
     0x27b70a8546d22ffc; 0x2e1b21385c26c926;
     0x4d2c6dfc5ac42aed; 0x53380d139d95b3df;
     0x650a73548baf63de; 0x766a0abb3c77b2a8;
     0x81c2c92e47edaee6; 0x92722c851482353b;
     0xa2bfe8a14cf10364; 0xa81a664bbc423001;
     0xc24b8b70d0f89791; 0xc76c51a30654be30;
     0xd192e819d6ef5218; 0xd69906245565a910;
     0xf40e35855771202a; 0x106aa07032bbd1b8;
     0x19a4c116b8d2d0c8; 0x1e376c085141ab53;
     0x2748774cdf8eeb99; 0x34b0bcb5e19b48a8;
     0x391c0cb3c5c95a63; 0x4ed8aa4ae3418acb;
     0x5b9cca4f7763e373; 0x682e6ff3d6b2b8a3;
     0x748f82ee5defb2fc; 0x78a5636f43172f60;
     0x84c87814a1f0ab72; 0x8cc702081a6439ec;
     0x90befffa23631e28; 0xa4506cebde82bde9;
     0xbef9a3f7b2c67915; 0xc67178f2e372532b;
     0xca273eceea26619c; 0xd186b8c721c0c207;
     0xeada7dd6cde0eb1e; 0xf57d4f7fee6ed178;
     0x06f067aa72176fba; 0x0a637dc5a2c898a6;
     0x113f9804bef90dae; 0x1b710b35131c471b;
     0x28db77f523047d84; 0x32caab7b40c72493;
     0x3c9ebe0a15c9bebc; 0x431d67c49c100d4c;
     0x4cc5d4becb3e42b6; 0x597f299cfc657e2a;
     0x5fcb6fab3ad6faec; 0x6c44198c4a475817].

Definition sha384_initial_hash_value : list Z :=
    [0xcbbb9d5dc1059ed8; 0x629a292a367cd507;
     0x9159015a3070dd17; 0x152fecd8f70e5939;
     0x67332667ffc00b31; 0x8eb44a8768581511;
     0xdb0c2e0d64f98fa7; 0x47b5481dbefa4fa4].

Definition sha512_initial_hash_value : list Z :=
    [0x6a09e667f3bcc908; 0xbb67ae8584caa73b;
     0x3c6ef372fe94f82b; 0xa54ff53a5f1d36f1;
     0x510e527fade682d1; 0x9b05688c2b3e6c1f;
     0x1f83d9abfb41bd6b; 0x5be0cd19137e2179].

(** ** The two word sizes *)

Record variant := mkVariant {
  word_bytes : nat;             (* sizeof(sha2_word32), sizeof(sha2_word64) *)
  BLOCK_LENGTH : Z;
  zero_last : Z;                (* bytes cleared before a second last block *)
  rounds : nat;
  K : list Z;
  REVERSE : Z -> Z;
  Sigma0 : Z -> Z;
  Sigma1 : Z -> Z;
  sigma0 : Z -> Z;
  sigma1 : Z -> Z;
  addbits : Z * Z -> Z -> Z * Z }.

Definition v256 : variant :=
  mkVariant 4 64 (64 - 8) 64 K256 REVERSE32 Sigma0_256 Sigma1_256 sigma0_256 sigma1_256
    (fun w n => (w64 (fst w + n), snd w)).
Definition v512 : variant :=
  mkVariant 8 128 (128 - 2) 80 K512 REVERSE64 Sigma0_512 Sigma1_512 sigma0_512 sigma1_512 ADDINC128.

(** The context; SHA-256 uses only the first word of [bitcount]. *)
Record ctx := mkCtx { state : list Z; bitcount : Z * Z; buffer : bytes }.

Section Sha2.
Context (v : variant).
Abbreviation wbits := (8 * Z.of_nat (word_bytes v)).
Definition wrap (x : Z) : Z := x mod 2 ^ wbits.
Definition notw (x : Z) : Z := 2 ^ wbits - 1 - x.
Definition SHORT_BLOCK_LENGTH : Z := BLOCK_LENGTH v - 2 * Z.of_nat (word_bytes v).

Definition Ch (x y z : Z) : Z := Z.lxor (Z.land x y) (Z.land (notw x) z).
Definition Maj (x y z : Z) : Z := Z.lxor (Z.lxor (Z.land x y) (Z.land x z)) (Z.land y z).

Definition regs : Type := (Z * Z * Z * Z * Z * Z * Z * Z)%type.

(** One round: [T1] and [T2], then the registers shift. *)
Definition round (r : regs) (k w : Z) : regs :=
  let '(a, b, c, d, e, f, g, h) := r in
  let T1 := wrap (h + Sigma1 v e + Ch e f g + k + w) in
  let T2 := wrap (Sigma0 v a + Maj a b c) in
  (wrap (T1 + T2), a, b, c, wrap (d + T1), e, f, g).

(** Word [j] of [data] as the host loads it. *)
Definition load (data : bytes) (j : Z) : Z :=
  le_val (zsub (j * Z.of_nat (word_bytes v)) (Z.of_nat (word_bytes v)) data).

(** [do { REVERSE( *data++, W[j]); ... j++; } while (j < 16);].  [W] is the
    context's buffer; where [data] is that buffer too, word [j] is read before
    it is overwritten, so the words read are those of [data] at the call. *)
Fixpoint first_rounds (n : nat) (j : Z) (data : bytes) (W : list Z) (r : regs) : list Z * regs :=
  match n with
  | O => (W, r)
  | S n =>
      let W := zset W j (REVERSE v (load data j)) in
      first_rounds n (j + 1) data W (round r (znth 0 (K v) j) (znth 0 W j))
  end.

(** The remaining rounds, with the message block expansion in place. *)
Fixpoint last_rounds (n : nat) (j : Z) (W : list Z) (r : regs) : list Z * regs :=
  match n with
  | O => (W, r)
  | S n =>
      let s0 := sigma0 v (znth 0 W (Z.land (j + 1) 0x0f)) in
      let s1 := sigma1 v (znth 0 W (Z.land (j + 14) 0x0f)) in
      let x := wrap (znth 0 W (Z.land j 0x0f) + (s1 + znth 0 W (Z.land (j + 9) 0x0f) + s0)) in
      let W := zset W (Z.land j 0x0f) x in
      last_rounds n (j + 1) W (round r (znth 0 (K v) j) x)
  end.

Definition regs_of (s : list Z) : regs :=
  let x i := znth 0 s i in (x 0, x 1, x 2, x 3, x 4, x 5, x 6, x 7).
Definition add_regs (s : list Z) (r : regs) : list Z :=
  let '(a, b, c, d, e, f, g, h) := r in
  let x i := znth 0 s i in
  [wrap (x 0 + a); wrap (x 1 + b); wrap (x 2 + c); wrap (x 3 + d);
   wrap (x 4 + e); wrap (x 5 + f); wrap (x 6 + g); wrap (x 7 + h)].

(** The words [W] as the bytes of the buffer. *)
Definition store (W : list Z) : bytes := concat (map (le_bytes (word_bytes v)) W).

Definition Transform (c : ctx) (data : bytes) : ctx :=
  let W := map (fun j => load (buffer c) (Z.of_nat j)) (seq 0 16) in
  let '(W, r) := first_rounds 16 0 data W (regs_of (state c)) in
  let '(W, r) := last_rounds (rounds v - 16) 16 W r in
  mkCtx (add_regs (state c) r) (bitcount c) (store W).

Definition Init (iv : list Z) : ctx :=
  mkCtx iv (0, 0) (replicate (Z.to_nat (BLOCK_LENGTH v)) nul).

Definition add_bits (c : ctx) (n : Z) : ctx := mkCtx (state c) (addbits v (bitcount c) n) (buffer c).
Definition set_buffer (c : ctx) (b : bytes) : ctx := mkCtx (state c) (bitcount c) b.

(** [while (len >= BLOCK_LENGTH)]: one round per block. *)
Fixpoint update_loop (fuel : nat) (c : ctx) (data : bytes) (len : Z) : ctx * bytes * Z :=
  match fuel with
  | O => (c, data, len)
  | S k =>
      if BLOCK_LENGTH v <=? len then
        let c := Transform c (ztake (BLOCK_LENGTH v) data) in
        let c := add_bits c (Z.shiftl (BLOCK_LENGTH v) 3) in
        update_loop k c (zdrop (BLOCK_LENGTH v) data) (len - BLOCK_LENGTH v)
      else (c, data, len)
  end.

(** From the loop on. *)
Definition update_tail (c : ctx) (data : bytes) (len : Z) : ctx :=
  let '(c, data, len) := update_loop (length data) c data len in
  if 0 <? len then
    add_bits (set_buffer c (zsplice 0 (ztake len data) (buffer c))) (w64 (Z.shiftl len 3))
  else c.

Definition Update (c : ctx) (data : bytes) : ctx :=
  let len := zlen data in
  if len =? 0 then c
  else
    let usedspace := Z.shiftr (fst (bitcount c)) 3 mod BLOCK_LENGTH v in
    if 0 <? usedspace then
      let freespace := BLOCK_LENGTH v - usedspace in
      if freespace <=? len then
        let c := set_buffer c (zsplice usedspace (ztake freespace data) (buffer c)) in
        let c := add_bits c (Z.shiftl freespace 3) in
        let c := Transform c (buffer c) in
        update_tail c (zdrop freespace data) (len - freespace)
      else
        add_bits (set_buffer c (zsplice usedspace data (buffer c))) (w64 (Z.shiftl len 3))
    else update_tail c data len.

Definition zeros (n : Z) : bytes := replicate (Z.to_nat n) nul.

(** The padding up to the length field, with a transform when the length does
    not fit the block any more. *)
Definition pad_block (c : ctx) : ctx :=
  let usedspace := Z.shiftr (fst (bitcount c)) 3 mod BLOCK_LENGTH v in
  if 0 <? usedspace then
    let c := set_buffer c (zset (buffer c) usedspace (chr 0x80)) in
    let usedspace := usedspace + 1 in
    if usedspace <=? SHORT_BLOCK_LENGTH then
      set_buffer c (zsplice usedspace (zeros (SHORT_BLOCK_LENGTH - usedspace)) (buffer c))
    else
      let c := if usedspace <? BLOCK_LENGTH v
               then set_buffer c (zsplice usedspace (zeros (BLOCK_LENGTH v - usedspace)) (buffer c))
               else c in
      let c := Transform c (buffer c) in
      set_buffer c (zsplice 0 (zeros (zero_last v)) (buffer c))
  else
    let c := set_buffer c (zsplice 0 (zeros SHORT_BLOCK_LENGTH) (buffer c)) in
    set_buffer c (zset (buffer c) 0 (chr 0x80)).

(** [SHA512_Last] and the corresponding part of [SHA256_Final]; [length_field]
    is the bit count as it is stored at the end of the last block. *)
Definition Last (length_field : Z * Z -> bytes) (c : ctx) : ctx :=
  let c := pad_block c in
  let c := set_buffer c (zsplice SHORT_BLOCK_LENGTH (length_field (bitcount c)) (buffer c)) in
  Transform c (buffer c).

(** The state words in big-endian order, [n] of them. *)
Definition output (n : nat) (c : ctx) : bytes :=
  concat (map (fun s => le_bytes (word_bytes v) (REVERSE v s)) (take n (state c))).
End Sha2.

(** ** The entry points *)

(** The stores of [bitcount] into the buffer after its [REVERSE64]. *)
Definition length256 (w : Z * Z) : bytes := le_bytes 8 (REVERSE64 (fst w)).
Definition length512 (w : Z * Z) : bytes :=
  le_bytes 8 (REVERSE64 (snd w)) ++ le_bytes 8 (REVERSE64 (fst w)).

Definition SHA256_Init : ctx := Init v256 sha256_initial_hash_value.
Definition SHA256_Transform : ctx -> bytes -> ctx := Transform v256.
Definition SHA256_Update : ctx -> bytes -> ctx := Update v256.
Definition SHA256_Final (c : ctx) : bytes := output v256 8 (Last v256 length256 c).

Definition SHA512_Init : ctx := Init v512 sha512_initial_hash_value.
Definition SHA512_Transform : ctx -> bytes -> ctx := Transform v512.
Definition SHA512_Update : ctx -> bytes -> ctx := Update v512.
Definition SHA512_Last : ctx -> ctx := Last v512 length512.
Definition SHA512_Final (c : ctx) : bytes := output v512 8 (SHA512_Last c).

Definition SHA384_Init : ctx := Init v512 sha384_initial_hash_value.
Definition SHA384_Update : ctx -> bytes -> ctx := SHA512_Update.
Definition SHA384_Final (c : ctx) : bytes := output v512 6 (SHA512_Last c).

(** The hexadecimal digest with its terminator, as [SHA*_End] writes it. *)
Definition sha2_hex_digits : bytes := str "0123456789abcdef".
Definition hex_digest (digest : bytes) : bytes :=
  concat (map (fun d => [znth nul sha2_hex_digits (Z.shiftr (Z.land (u8 d) 0xf0) 4);
                         znth nul sha2_hex_digits (Z.land (u8 d) 0x0f)]) digest) ++ [nul].
Definition SHA256_End (c : ctx) : bytes := hex_digest (SHA256_Final c).
Definition SHA512_End (c : ctx) : bytes := hex_digest (SHA512_Final c).
Definition SHA384_End (c : ctx) : bytes := hex_digest (SHA384_Final c).
Definition SHA256_Data (data : bytes) : bytes := SHA256_End (SHA256_Update SHA256_Init data).
Definition SHA512_Data (data : bytes) : bytes := SHA512_End (SHA512_Update SHA512_Init data).
Definition SHA384_Data (data : bytes) : bytes := SHA384_End (SHA384_Update SHA384_Init data).

(** The functions of [sha2.h] the program calls. *)
Definition sha256_init : ctx := SHA256_Init.
Definition sha256_update : ctx -> bytes -> ctx := SHA256_Update.
Definition sha256_final : ctx -> bytes := SHA256_Final.
Definition sha512_init : ctx := SHA512_Init.
Definition sha512_update : ctx -> bytes -> ctx := SHA512_Update.
Definition sha512_final : ctx -> bytes := SHA512_Final.
(** The bytes written through [digest]. *)
Definition sha256 (message : bytes) : bytes := SHA256_Data message.
Definition sha512 (message : bytes) : bytes := SHA512_Data message.
Definition SHA256_DIGEST_SIZE : Z := 256 / 8.
Definition SHA512_DIGEST_SIZE : Z := 512 / 8.

(** ** The reference compression function (FIPS 180-4) *)

(** The word of a big-endian byte string. *)
Definition be_val (l : bytes) : Z := le_val (rev l).
Definition be_bytes (n : nat) (x : Z) : bytes := rev (le_bytes n x).

Section Reference.
Context (v : variant).
Abbreviation wb := (word_bytes v).

(** [W_0 .. W_15] *)
Definition block_words (data : bytes) : list Z :=
  map (fun j => be_val (zsub (Z.of_nat j * Z.of_nat wb) (Z.of_nat wb) data)) (seq 0 16).
(** The next word of the schedule after [ws]. *)
Definition next_word (ws : list Z) : Z :=
  let t := zlen ws in
  let W i := znth 0 ws i in
  wrap v (sigma1 v (W (t - 2)) + W (t - 7) + sigma0 v (W (t - 15)) + W (t - 16)).
Fixpoint schedule (n : nat) (ws : list Z) : list Z :=
  match n with O => ws | S n => schedule n (ws ++ [next_word ws]) end.
Definition run_rounds (ks ws : list Z) (r : regs) : regs :=
  foldl (fun r kw => round v r (fst kw) (snd kw)) r (zip ks ws).
Definition compress (s : list Z) (data : bytes) : list Z :=
  add_regs v s (run_rounds (K v) (schedule (rounds v - 16) (block_words data)) (regs_of s)).
End Reference.

(** What the proofs need of a variant. *)
Class Sha2Laws (v : variant) : Prop := {
  law_rev : forall l, length l = word_bytes v -> REVERSE v (le_val l) = be_val l;
  law_rounds : (16 <= rounds v)%nat;
  law_K : length (K v) = rounds v;
  law_block : BLOCK_LENGTH v = 16 * Z.of_nat (word_bytes v);
  law_bytes : word_bytes v = 4%nat \/ word_bytes v = 8%nat;
  law_zero : SHORT_BLOCK_LENGTH v <= zero_last v <= BLOCK_LENGTH v }.

Section Equiv.
Context (v : variant) `{L : Sha2Laws v}.
Abbreviation wb := (word_bytes v).

Lemma first_rounds_spec data n : forall j W r,
  (n + j <= 16)%nat -> length W = 16%nat -> (16 <= length (K v))%nat ->
  BLOCK_LENGTH v <= zlen data ->
  take j W = take j (block_words v data) ->
  exists W', first_rounds v n (Z.of_nat j) data W r
    = (W', foldl (fun r kw => round v r (fst kw) (snd kw)) r
             (zip (take n (drop j (K v))) (take n (drop j (block_words v data))))) /\
    length W' = 16%nat /\ take (j + n) W' = take (j + n) (block_words v data).
Proof using L.
  induction n as [|n IH]; intros j W r Hj HW HK Hd Ht; cbn [first_rounds].
  - exists W. by rewrite Nat.add_0_r, !take_0.
  - set (x := REVERSE v (load v data (Z.of_nat j))).
    assert (Ex : block_words v data !! j = Some x).
    { unfold block_words, x, load. rewrite list_lookup_fmap, lookup_seq_lt by lia. cbn. f_equal.
      symmetry. apply law_rev. apply Nat2Z.inj. rewrite law_block in Hd.
      change (Z.of_nat (length ?l)) with (zlen l). rewrite zlen_zsub; nia. }
    assert (Ek : K v !! j = Some (znth 0 (K v) (Z.of_nat j))).
    { rewrite <- (Nat2Z.id j) at 1. apply lookup_znth. unfold zlen. lia. }
    assert (Ew : znth 0 (zset W (Z.of_nat j) x) (Z.of_nat j) = x).
    { apply znth_zset_eq. unfold zlen. lia. }
    rewrite Ew. replace (Z.of_nat j + 1) with (Z.of_nat (S j)) by lia.
    assert (Hset : zset W (Z.of_nat j) x = <[j:=x]> W) by (unfold zset; by rewrite Nat2Z.id).
    destruct (IH (S j) (zset W (Z.of_nat j) x) (round v r (znth 0 (K v) (Z.of_nat j)) x))
      as (W' & E & HW' & Ht'); [lia|by rewrite Hset, length_insert|done|done| |].
    { rewrite Hset. rewrite (take_S_r _ _ x), (take_S_r _ _ x); [|done|apply list_lookup_insert_eq; lia].
      by rewrite take_insert_ge, Ht by lia. }
    exists W'. rewrite E. split_and!; [|done|by replace (j + S n)%nat with (S j + n)%nat by lia].
    f_equal. rewrite (drop_S _ _ _ Ek), (drop_S _ _ _ Ex). done.
Qed.

Lemma schedule_prefix n : forall ws, exists tl, schedule v n ws = ws ++ tl /\ length tl = n.
Proof using.
  induction n as [|n IH]; intros ws; cbn [schedule].
  - exists []. by rewrite app_nil_r.
  - destruct (IH (ws ++ [next_word v ws])) as (tl & -> & Hl).
    exists (next_word v ws :: tl). by rewrite <- app_assoc, <- Hl.
Qed.

Lemma land15 x : Z.land x 0x0f = x mod 16.
Proof using. change 0x0f with (2 ^ 4 - 1). by rewrite land_mask. Qed.

(** The words of the schedule the circular buffer holds before round [length ws]. *)
Definition circular (W ws : list Z) : Prop :=
  zlen W = 16 /\ forall t, zlen ws - 16 <= t < zlen ws -> znth 0 W (t mod 16) = znth 0 ws t.

Lemma circular_next W ws x :
  16 <= zlen ws -> circular W ws -> circular (zset W (Z.land (zlen ws) 0x0f) x) (ws ++ [x]).
Proof using.
  intros Hl [HW H]. rewrite land15. split; [by rewrite zlen_zset|]. intros t Ht.
  rewrite zlen_app in Ht. change (zlen [x]) with 1 in Ht.
  pose proof (Z.mod_pos_bound t 16 ltac:(lia)). pose proof (Z.mod_pos_bound (zlen ws) 16 ltac:(lia)).
  destruct (decide (t = zlen ws)) as [->|].
  - rewrite znth_zset_eq by lia. rewrite znth_app_r by lia. by rewrite Z.sub_diag.
  - rewrite znth_app_l by lia. rewrite znth_zset_ne; [apply H; lia|lia|lia|].
    intros E. pose proof (Z.div_mod t 16 ltac:(lia)). pose proof (Z.div_mod (zlen ws) 16 ltac:(lia)). lia.
Qed.

Lemma last_rounds_spec n : forall W ws r,
  16 <= zlen ws -> circular W ws -> (length ws + n <= length (K v))%nat ->
  exists W', last_rounds v n (zlen ws) W r
    = (W', foldl (fun r kw => round v r (fst kw) (snd kw)) r
             (zip (take n (drop (length ws) (K v))) (drop (length ws) (schedule v n ws)))) /\
    zlen W' = 16.
Proof using.
  induction n as [|n IH]; intros W ws r Hl HW HK; cbn [last_rounds].
  - exists W. by destruct HW.
  - assert (Ex : wrap v (znth 0 W (Z.land (zlen ws) 15) +
        (sigma1 v (znth 0 W (Z.land (zlen ws + 14) 15)) + znth 0 W (Z.land (zlen ws + 9) 15) +
         sigma0 v (znth 0 W (Z.land (zlen ws + 1) 15)))) = next_word v ws).
    { destruct HW as [_ HW]. unfold next_word. rewrite !land15.
      assert (E : forall a b, a + b = 16 -> 1 <= b <= 16 ->
                znth 0 W ((zlen ws + a) mod 16) = znth 0 ws (zlen ws - b)).
      { intros a b Hab Hb. replace (zlen ws + a) with (zlen ws - b + 1 * 16) by lia.
        rewrite Z.mod_add by lia. apply HW. lia. }
      rewrite (E 14 2), (E 9 7), (E 1 15) by lia.
      pose proof (E 0 16 ltac:(lia) ltac:(lia)) as E0. rewrite Z.add_0_r in E0. rewrite E0.
      f_equal. lia. }
    rewrite Ex. set (x := next_word v ws).
    assert (Hz : zlen (ws ++ [x]) = zlen ws + 1) by (by rewrite zlen_app). rewrite <- Hz.
    destruct (IH (zset W (Z.land (zlen ws) 15) x) (ws ++ [x]) (round v r (znth 0 (K v) (zlen ws)) x))
      as (W' & E & HW'); [lia|by apply circular_next|rewrite length_app; cbn; lia|].
    exists W'. rewrite E. split; [|done]. f_equal. cbn [schedule]. fold x.
    destruct (schedule_prefix n (ws ++ [x])) as (tl & Es & _). rewrite Es.
    assert (Ek : K v !! length ws = Some (znth 0 (K v) (zlen ws))).
    { rewrite <- (Nat2Z.id (length ws)). apply lookup_znth. unfold zlen. lia. }
    assert (D1 : drop (length (ws ++ [x])) ((ws ++ [x]) ++ tl) = tl) by apply drop_app_length.
    assert (D2 : drop (length ws) ((ws ++ [x]) ++ tl) = x :: tl)
      by (rewrite <- app_assoc; apply drop_app_length).
    rewrite D1, D2, (drop_S _ _ _ Ek), length_app, Nat.add_1_r. done.
Qed.

(** The in-place transform computes the reference compression function. *)
Lemma Transform_compress c data :
  BLOCK_LENGTH v <= zlen data ->
  state (Transform v c data) = compress v (state c) data /\
  bitcount (Transform v c data) = bitcount c /\
  zlen (buffer (Transform v c data)) = BLOCK_LENGTH v.
Proof using L.
  intros Hd. pose proof law_rounds as Hr. pose proof law_K as HK. unfold Transform.
  set (W0 := map _ _).
  destruct (first_rounds_spec data 16 0 W0 (regs_of (state c))) as (W1 & E1 & HW1 & Ht1);
    [lia|done|lia|done|done|]. change (Z.of_nat 0) with 0 in E1.
  change (0 + 16)%nat with 16%nat in Ht1. rewrite E1. clear E1.
  assert (HB : length (block_words v data) = 16%nat) by done.
  rewrite !take_ge in Ht1 by lia. subst W1. rewrite !drop_0 in *.
  rewrite (take_ge (block_words v data)) in * by lia.
  destruct (last_rounds_spec (rounds v - 16) (block_words v data) (block_words v data)
    (foldl (fun r kw => round v r (fst kw) (snd kw)) (regs_of (state c))
       (zip (take 16 (K v)) (block_words v data)))) as (W2 & E2 & HW2).
  { unfold zlen. lia. }
  { split; [unfold zlen; lia|]. intros t Ht. unfold zlen in Ht. rewrite HB in Ht.
    rewrite Z.mod_small by lia. done. }
  { lia. }
  change (zlen (block_words v data)) with 16 in E2. rewrite E2. cbn [state bitcount buffer].
  split_and!; [|done|].
  - unfold compress, run_rounds. f_equal.
    destruct (schedule_prefix (rounds v - 16) (block_words v data)) as (tl & Es & Hl). rewrite Es.
    rewrite HB, (take_ge (drop 16 _)) by (rewrite length_drop; lia).
    rewrite <- foldl_app. f_equal.
    assert (D : drop 16 (block_words v data ++ tl) = tl)
      by (rewrite <- HB; apply drop_app_length).
    rewrite D. transitivity (zip (take 16 (K v) ++ drop 16 (K v)) (block_words v data ++ tl)).
    + rewrite zip_with_app; [done|]. rewrite length_take. lia.
    + by rewrite take_drop.
  - unfold store, zlen in *. rewrite length_concat, map_map.
    erewrite map_ext by (intros; apply length_le_bytes).
    assert (HW : length W2 = 16%nat) by lia. rewrite law_block.
    do 17 (destruct W2 as [|? W2]; [cbn in HW; try lia|]); cbn in HW; try lia.
    cbn. lia.
Qed.
End Equiv.

(** ** The byte order macros *)

(** The bytes of [x] from the lowest, put together from the highest. *)
Fixpoint horner (n : nat) (k : Z) (acc x : Z) : Z :=
  match n with
  | O => acc
  | S n => horner n (k + 8) (Z.lor (Z.shiftl acc 8) (Z.land (Z.shiftr x k) 255)) x
  end.

Lemma horner_le_val l : forall k acc x, 0 <= k -> Z.shiftr x k = le_val l ->
  horner (length l) k acc x = acc * 256 ^ zlen l + be_val l.
Proof.
  induction l as [|c l IH]; intros k acc x Hk Hx; cbn [horner length].
  - change (zlen (@nil ascii)) with 0. change (be_val []) with 0. rewrite Z.pow_0_r. lia.
  - rewrite IH; [|lia|].
    + change 255 with (2 ^ 8 - 1). rewrite land_mask, Hx by lia. cbn [le_val].
      pose proof (u8_range c).
      assert (E : (u8 c + 256 * le_val l) mod 2 ^ 8 = u8 c).
      { change (2 ^ 8) with 256. rewrite (Z.mul_comm 256), Z.mod_add, Z.mod_small; lia. }
      rewrite E, lor_shiftl_add by lia. unfold be_val. cbn [rev].
      assert (Ea : forall p q, le_val (p ++ q) = le_val p + 256 ^ zlen p * le_val q).
      { clear. induction p as [|a p IH]; intros q; cbn [app le_val];
          [change (zlen (@nil ascii)) with 0; lia|].
        rewrite IH, zlen_cons, Z.pow_add_r by (pose proof (zlen_nonneg p); lia). lia. }
      rewrite Ea. cbn [le_val]. unfold zlen. rewrite length_rev. cbn [length].
      rewrite Nat2Z.inj_succ, Z.pow_succ_r by lia. change (2 ^ 8) with 256. lia.
    + rewrite <- Z.shiftr_shiftr, Hx, Z.shiftr_div_pow2 by lia. cbn [le_val].
      pose proof (u8_range c). change (2 ^ 8) with 256.
      rewrite (Z.mul_comm 256), Z.div_add, Z.div_small by lia. lia.
Qed.

Lemma REVERSE32_be l : length l = 4%nat -> REVERSE32 (le_val l) = be_val l.
Proof.
  intros Hl. pose proof (le_val_range l) as Hx. unfold zlen in Hx. rewrite Hl in Hx.
  transitivity (horner (length l) 0 0 (le_val l)); [|by rewrite horner_le_val].
  rewrite Hl. generalize dependent (le_val l). intros x Hx. cbn [horner Z.add].
  change (256 ^ Z.of_nat 4) with (2 ^ 32) in Hx. unfold REVERSE32. bit_eq x 32.
Qed.
Lemma REVERSE64_be l : length l = 8%nat -> REVERSE64 (le_val l) = be_val l.
Proof.
  intros Hl. pose proof (le_val_range l) as Hx. unfold zlen in Hx. rewrite Hl in Hx.
  transitivity (horner (length l) 0 0 (le_val l)); [|by rewrite horner_le_val].
  rewrite Hl. generalize dependent (le_val l). intros x Hx. cbn [horner Z.add].
  change (256 ^ Z.of_nat 8) with (2 ^ 64) in Hx. unfold REVERSE64. bit_eq x 64.
Qed.

#[global] Instance v256_laws : Sha2Laws v256.
Proof. split; try done; [apply REVERSE32_be|cbn; lia|by left]. Qed.
#[global] Instance v512_laws : Sha2Laws v512.
Proof. split; try done; [apply REVERSE64_be|cbn; lia|by right]. Qed.

(** Storing a reversed word stores its bytes in big-endian order. *)
Lemma le_bytes_REVERSE v `{Sha2Laws v} x :
  0 <= x < 256 ^ Z.of_nat (word_bytes v) ->
  le_bytes (word_bytes v) (REVERSE v x) = be_bytes (word_bytes v) x.
Proof.
  intros Hx. assert (Ex : le_val (le_bytes (word_bytes v) x) = x)
    by (rewrite le_val_le_bytes; by apply Z.mod_small).
  rewrite <- Ex at 1. rewrite law_rev by apply length_le_bytes. unfold be_val, be_bytes.
  set (l := rev (le_bytes (word_bytes v) x)).
  assert (Hl : length l = word_bytes v) by (unfold l; rewrite length_rev; apply length_le_bytes).
  rewrite <- Hl at 1. apply le_bytes_le_val.
Qed.

(** ** Streaming *)

(** The bit count of [n] bytes as the context keeps it. *)
Class Sha2Count (v : variant) := {
  count : Z -> Z * Z;
  count_0 : count 0 = (0, 0);
  count_low : forall n, fst (count n) = w64 (8 * n);
  count_add : forall n m, 0 <= n -> 0 <= m < 2 ^ 61 -> addbits v (count n) (8 * m) = count (n + m) }.

#[global] Program Instance v256_count : Sha2Count v256 := {| count n := (w64 (8 * n), 0) |}.
Next Obligation. done. Qed.
Next Obligation. done. Qed.
Next Obligation.
  intros. cbn. f_equal. unfold w64. rewrite Zplus_mod_idemp_l. f_equal. lia.
Qed.

Lemma addinc_count n m :
  0 <= n -> 0 <= m < 2 ^ 61 ->
  ADDINC128 (w64 (8 * n), w64 (8 * n / 2 ^ 64)) (8 * m) = (w64 (8 * (n + m)), w64 (8 * (n + m) / 2 ^ 64)).
Proof.
  intros Hn Hm. unfold ADDINC128. cbn [fst snd].
  assert (E : w64 (w64 (8 * n) + 8 * m) = w64 (8 * (n + m))).
  { unfold w64. rewrite Zplus_mod_idemp_l. f_equal. lia. }
  rewrite E. f_equal. replace (8 * (n + m)) with (8 * n + 8 * m) by lia.
  set (X := 8 * n). set (Y := 8 * m). assert (0 <= X) by lia. assert (0 <= Y < 2 ^ 64) by lia.
  clearbody X Y. clear E. unfold w64.
  pose proof (Z.div_mod X (2 ^ 64) ltac:(lia)). pose proof (Z.mod_pos_bound X (2 ^ 64) ltac:(lia)).
  set (q := X / 2 ^ 64) in *. set (r := X mod 2 ^ 64) in *.
  destruct (decide (r + Y < 2 ^ 64)).
  - rewrite <- (Z.mod_unique_pos (X + Y) (2 ^ 64) q (r + Y)) by lia.
    rewrite <- (Z.div_unique_pos (X + Y) (2 ^ 64) q (r + Y)) by lia.
    destruct (Z.ltb_spec (r + Y) Y); [lia|done].
  - rewrite <- (Z.mod_unique_pos (X + Y) (2 ^ 64) (q + 1) (r + Y - 2 ^ 64)) by lia.
    rewrite <- (Z.div_unique_pos (X + Y) (2 ^ 64) (q + 1) (r + Y - 2 ^ 64)) by lia.
    destruct (Z.ltb_spec (r + Y - 2 ^ 64) Y); [|lia]. by rewrite Zplus_mod_idemp_l.
Qed.

#[global] Program Instance v512_count : Sha2Count v512 :=
  {| count n := (w64 (8 * n), w64 (8 * n / 2 ^ 64)) |}.
Next Obligation. done. Qed.
Next Obligation. done. Qed.
Next Obligation. intros. by apply addinc_count. Qed.

Section Stream.
Context (v : variant) `{L : Sha2Laws v} `{C : !Sha2Count v} (iv : list Z).
Abbreviation B := (BLOCK_LENGTH v).
Abbreviation sha_chain := (chain B (compress v)).

(** What the context has accumulated after the bytes [msg]. *)
Record sha_of (msg : bytes) (c : ctx) : Prop := {
  so_state : state c = sha_chain iv msg;
  so_len : zlen (buffer c) = B;
  so_buf : ztake (zlen (rest B msg)) (buffer c) = rest B msg;
  so_count : bitcount c = count (zlen msg) }.

Lemma B_pos : 0 < B /\ B <= 128 /\ exists k, 2 ^ 61 = B * k.
Proof using L.
  rewrite law_block. destruct law_bytes as [-> | ->]; split_and!; try lia.
  - by exists (2 ^ 55).
  - by exists (2 ^ 54).
Qed.
Abbreviation HB := (proj1 B_pos).

Lemma used_spec msg c : sha_of msg c -> Z.shiftr (fst (bitcount c)) 3 mod B = zlen (rest B msg).
Proof using L.
  intros Hc. pose proof B_pos as (HB & _ & k & Hk). rewrite zlen_rest by done.
  rewrite (so_count _ _ Hc), count_low, Z.shiftr_div_pow2 by lia. unfold w64.
  change (2 ^ 64) with (8 * 2 ^ 61). rewrite Z.mul_mod_distr_l by lia.
  change (2 ^ 3) with 8. rewrite (Z.mul_comm 8), Z.div_mul, Hk by lia.
  rewrite Z.rem_mul_r by nia. rewrite (Z.mul_comm B), Z.mod_add, Z.mod_mod by lia. done.
Qed.

Lemma init_sha : sha_of [] (Init v iv).
Proof using L.
  pose proof HB. split; cbn.
  - unfold chain. change (zlen (@nil ascii)) with 0. by rewrite Z.div_0_l by lia.
  - by rewrite zlen_replicate by lia.
  - unfold rest. change (zlen (@nil ascii)) with 0. rewrite Z.div_0_l, Z.mul_0_r by lia. done.
  - by rewrite count_0.
Qed.

Lemma state_add_bits c n : state (add_bits v c n) = state c.
Proof using. reflexivity. Qed.
Lemma buffer_add_bits c n : buffer (add_bits v c n) = buffer c.
Proof using. reflexivity. Qed.
Lemma bitcount_add_bits c n : bitcount (add_bits v c n) = addbits v (bitcount c) n.
Proof using. reflexivity. Qed.

(** A block transformed, and counted before or after. *)
Lemma block_sha msg data m c c' :
  state c = sha_chain iv msg -> rest B msg ++ data = m -> zlen m = B ->
  state c' = state (Transform v c m) -> zlen (buffer c') = B ->
  bitcount c' = count (zlen msg + zlen data) ->
  sha_of (msg ++ data) c' /\ rest B (msg ++ data) = [].
Proof using L.
  intros Hc Hm Hz E1 E2 E3.
  destruct (Transform_compress v c m) as (T1 & _ & _); [lia|].
  destruct (chain_app_fill B (compress v) HB iv msg data) as [F1 F2].
  { by rewrite <- Hm, zlen_app in Hz. }
  split; [|done]. split.
  - by rewrite E1, T1, F1, Hc, Hm.
  - done.
  - by rewrite F2.
  - by rewrite E3, zlen_app.
Qed.

(** Bytes saved in the buffer. *)
Lemma save_sha msg c data :
  sha_of msg c -> zlen (rest B msg) + zlen data < B ->
  sha_of (msg ++ data)
    (add_bits v (set_buffer c (zsplice (zlen (rest B msg)) data (buffer c))) (8 * zlen data)).
Proof using L C.
  intros Hc Hd. pose proof (zlen_nonneg data). pose proof (zlen_nonneg msg).
  pose proof (zlen_nonneg (rest B msg)). pose proof (so_len _ _ Hc). pose proof B_pos as (_ & ? & _).
  destruct (chain_app_short B (compress v) HB iv msg data Hd) as [F1 F2]. split; cbn.
  - by rewrite F1, (so_state _ _ Hc).
  - rewrite zlen_zsplice; lia.
  - rewrite F2, zlen_app, ztake_zsplice, (so_buf _ _ Hc) by lia. done.
  - rewrite (so_count _ _ Hc), count_add by lia. by rewrite zlen_app.
Qed.

Lemma update_loop_sha fuel : forall msg c data,
  sha_of msg c -> rest B msg = [] -> zlen data <= Z.of_nat fuel ->
  exists b c' data', update_loop v fuel c data (zlen data) = (c', data', zlen data') /\
    data = b ++ data' /\ sha_of (msg ++ b) c' /\ rest B (msg ++ b) = [] /\ zlen data' < B.
Proof using L C.
  pose proof B_pos as (HB & HB' & _).
  induction fuel as [|f IH]; intros msg c data Hc Hr Hf; cbn [update_loop].
  - exists [], c, data. rewrite app_nil_r. pose proof (zlen_nonneg data). split_and!; try done. lia.
  - destruct (Z.leb_spec B (zlen data)) as [Hd|Hd].
    + assert (Hz : zlen (ztake B data) = B) by (rewrite zlen_ztake by lia; lia).
      rewrite Z.shiftl_mul_pow2 by lia. change (2 ^ 3) with 8. rewrite (Z.mul_comm B).
      destruct (Transform_compress v c (ztake B data)) as (_ & T2 & T3); [lia|].
      pose proof (zlen_nonneg msg).
      destruct (block_sha msg (ztake B data) (ztake B data) c
                  (add_bits v (Transform v c (ztake B data)) (8 * B))) as [Hc' Hr'];
        [exact (so_state _ _ Hc)|by rewrite Hr|exact Hz|apply state_add_bits|by rewrite buffer_add_bits
        |rewrite bitcount_add_bits, T2, (so_count _ _ Hc), count_add, Hz by lia; done|].
      assert (Hzd : zlen data - B = zlen (zdrop B data)) by (rewrite zlen_zdrop by lia; lia).
      rewrite Hzd.
      destruct (IH _ _ (zdrop B data) Hc' Hr') as (b & c' & data' & -> & E & Hs & Hrs & Hl); [lia|].
      exists (ztake B data ++ b), c', data'. rewrite app_assoc. split_and!; try done.
      by rewrite <- app_assoc, <- E, ztake_zdrop.
    + exists [], c, data. rewrite app_nil_r. done.
Qed.

Lemma update_tail_sha msg c data :
  sha_of msg c -> rest B msg = [] -> sha_of (msg ++ data) (update_tail v c data (zlen data)).
Proof using L C.
  intros Hc Hr. pose proof B_pos as (HB & HB' & _). unfold update_tail.
  destruct (update_loop_sha (length data) msg c data Hc Hr) as (b & c' & data' & -> & -> & Hs & Hrs & Hl);
    [done|].
  pose proof (zlen_nonneg data'). rewrite app_assoc.
  destruct (Z.ltb_spec 0 (zlen data')).
  - pose proof (save_sha _ _ data' Hs) as Hv. rewrite Hrs in Hv. change (zlen (@nil ascii)) with 0 in Hv.
    rewrite (ztake_ge _ data'), w64_id, Z.shiftl_mul_pow2, Z.mul_comm by (rewrite ?Z.shiftl_mul_pow2; lia).
    apply Hv. lia.
  - destruct data'; [by rewrite app_nil_r|]. rewrite zlen_cons in *. pose proof (zlen_nonneg data'). lia.
Qed.

Lemma update_sha msg c data :
  sha_of msg c -> zlen data < 2 ^ 61 -> sha_of (msg ++ data) (Update v c data).
Proof using L C.
  intros Hc Hd. pose proof B_pos as (HB & HB' & _). pose proof (zlen_nonneg data). unfold Update.
  destruct (Z.eqb_spec (zlen data) 0) as [Hz|Hz].
  { destruct data; [by rewrite app_nil_r|]. rewrite zlen_cons in *. pose proof (zlen_nonneg data). lia. }
  rewrite (used_spec msg c Hc). pose proof (rest_bound B HB msg).
  destruct (Z.ltb_spec 0 (zlen (rest B msg))).
  - destruct (Z.leb_spec (B - zlen (rest B msg)) (zlen data)).
    + set (n := B - zlen (rest B msg)) in *.
      assert (Hn : zlen (ztake n data) = n) by (rewrite zlen_ztake by lia; lia).
      cbn [buffer add_bits set_buffer]. rewrite zsplice_fill, (so_buf _ _ Hc)
        by (rewrite (so_len _ _ Hc); lia).
      set (c1 := add_bits v (set_buffer c (rest B msg ++ ztake n data)) (Z.shiftl n 3)).
      destruct (Transform_compress v c1 (rest B msg ++ ztake n data)) as (_ & T2 & T3);
        [rewrite zlen_app; lia|].
      destruct (block_sha msg (ztake n data) (rest B msg ++ ztake n data) c1
                  (Transform v c1 (rest B msg ++ ztake n data))) as [Hc' Hr'];
        [exact (so_state _ _ Hc)|done|rewrite zlen_app; lia|reflexivity|exact T3| |].
      { rewrite T2. unfold c1. rewrite bitcount_add_bits. cbn [set_buffer bitcount]. rewrite Z.shiftl_mul_pow2, Z.mul_comm, (so_count _ _ Hc), count_add, Hn
          by (pose proof (zlen_nonneg msg); lia). done. }
      replace (zlen data - n) with (zlen (zdrop n data)) by (rewrite zlen_zdrop by lia; lia).
      rewrite <- (ztake_zdrop n data) at 1. rewrite app_assoc. by apply update_tail_sha.
    + rewrite w64_id, Z.shiftl_mul_pow2, Z.mul_comm by (rewrite ?Z.shiftl_mul_pow2; lia).
      apply save_sha; [done|lia].
  - apply update_tail_sha; [done|]. destruct (rest B msg) as [|x r]; [done|].
    rewrite zlen_cons in *. pose proof (zlen_nonneg r). lia.
Qed.

(** ** Padding *)

Definition sha_pad (msg : bytes) : bytes :=
  msg ++ chr 0x80 :: zeros ((SHORT_BLOCK_LENGTH v - 1 - zlen msg) mod B)
      ++ be_bytes (2 * word_bytes v) (8 * zlen msg).
Definition sha_spec (n : nat) (msg : bytes) : bytes :=
  concat (map (be_bytes (word_bytes v)) (take n (sha_chain iv (sha_pad msg)))).

Lemma short_B : SHORT_BLOCK_LENGTH v + 2 * Z.of_nat (word_bytes v) = B /\
  0 < SHORT_BLOCK_LENGTH v /\ 0 < Z.of_nat (word_bytes v).
Proof using L.
  unfold SHORT_BLOCK_LENGTH. rewrite law_block. destruct law_bytes as [-> | ->]; lia.
Qed.

Lemma zlen_zeros n : 0 <= n -> zlen (zeros n) = n.
Proof using. intros. by apply zlen_replicate. Qed.
Lemma zeros_app n m : 0 <= n -> 0 <= m -> zeros n ++ zeros m = zeros (n + m).
Proof using. intros. unfold zeros. rewrite Z2Nat.inj_add by done. by rewrite replicate_add. Qed.

(** A state after complete blocks, as the last transform needs it. *)
Definition padded (pre blk : bytes) (c : ctx) : Prop :=
  rest B pre = [] /\ state c = sha_chain iv pre /\ zlen (buffer c) = B /\
  ztake (SHORT_BLOCK_LENGTH v) (buffer c) = blk.

Lemma set_80 msg c :
  sha_of msg c ->
  ztake (zlen (rest B msg) + 1) (zset (buffer c) (zlen (rest B msg)) (chr 0x80))
  = rest B msg ++ [chr 0x80].
Proof using L.
  intros Hc. pose proof (rest_bound B HB msg). pose proof (so_len _ _ Hc).
  rewrite ztake_add by lia. f_equal.
  - unfold ztake, zset. rewrite take_insert_ge by lia. apply (so_buf _ _ Hc).
  - apply (list_eq_znth nul).
    + rewrite zlen_zsub by (rewrite ?zlen_zset; lia). done.
    + rewrite zlen_zsub by (rewrite ?zlen_zset; lia). intros i Hi. assert (i = 0) as -> by lia.
      rewrite znth_zsub, Z.add_0_r by lia. by rewrite znth_zset_eq by lia.
Qed.

Lemma ztake_splice0 (n : Z) (z l : bytes) :
  0 <= n <= zlen z -> zlen z <= zlen l -> ztake n (zsplice 0 z l) = ztake n z.
Proof using. intros. unfold zsplice. by rewrite ztake_0, app_nil_l, ztake_app_le by lia. Qed.

Lemma pad_zeros msg u :
  u = zlen (rest B msg) ->
  (SHORT_BLOCK_LENGTH v - 1 - zlen msg) mod B =
  if decide (u + 1 <= SHORT_BLOCK_LENGTH v) then SHORT_BLOCK_LENGTH v - 1 - u
  else SHORT_BLOCK_LENGTH v - 1 - u + B.
Proof using L.
  intros ->. pose proof (rest_bound B HB msg) as Hr. pose proof short_B as (? & ? & ?).
  rewrite zlen_rest in * by apply HB. rewrite <- Zminus_mod_idemp_r. case_decide.
  - apply Z.mod_small. lia.
  - rewrite <- (Z.mod_add _ 1), Z.mod_small; lia.
Qed.

(** The second last block. *)
Lemma long_block msg c u :
  sha_of msg c -> u = zlen (rest B msg) ->
  exists c1, (if u + 1 <? B
       then set_buffer (set_buffer c (zset (buffer c) u (chr 128)))
              (zsplice (u + 1) (zeros (B - (u + 1))) (zset (buffer c) u (chr 128)))
       else set_buffer c (zset (buffer c) u (chr 128))) = c1 /\
    state c1 = state c /\ bitcount c1 = bitcount c /\
    buffer c1 = rest B msg ++ chr 0x80 :: zeros (B - (u + 1)).
Proof using L.
  intros Hc ->. pose proof (rest_bound B HB msg). pose proof (so_len _ _ Hc).
  pose proof (set_80 msg c Hc) as H80. eexists. split; [done|].
  destruct (Z.ltb_spec (zlen (rest B msg) + 1) B); cbn [state bitcount buffer set_buffer]; split_and!; try done.
  - rewrite zsplice_fill, H80, <- app_assoc by (rewrite ?zlen_zeros, ?zlen_zset; lia). done.
  - rewrite <- (ztake_ge (zlen (rest B msg) + 1) (zset _ _ _)), H80 by (rewrite zlen_zset; lia).
    replace (B - (zlen (rest B msg) + 1)) with 0 by lia. done.
Qed.

(** The last block of a message of complete blocks. *)
Lemma empty_block (buf : bytes) :
  ztake (SHORT_BLOCK_LENGTH v) (zset (zsplice 0 (zeros (SHORT_BLOCK_LENGTH v)) buf) 0 (chr 0x80))
  = chr 0x80 :: zeros (SHORT_BLOCK_LENGTH v - 1).
Proof using L.
  pose proof short_B as (_ & HS & _). unfold zsplice. rewrite ztake_0. cbn [app].
  replace (zeros (SHORT_BLOCK_LENGTH v)) with (nul :: zeros (SHORT_BLOCK_LENGTH v - 1)).
  - cbn [app]. rewrite zset_cons_0, app_comm_cons.
    assert (Hz : zlen (chr 128 :: zeros (SHORT_BLOCK_LENGTH v - 1)) = SHORT_BLOCK_LENGTH v)
      by (rewrite zlen_cons, zlen_zeros; lia).
    rewrite ztake_app_le by lia. apply ztake_ge. lia.
  - unfold zeros.
    replace (Z.to_nat (SHORT_BLOCK_LENGTH v)) with (S (Z.to_nat (SHORT_BLOCK_LENGTH v - 1))) by lia.
    done.
Qed.

Lemma pad_block_spec msg c :
  sha_of msg c ->
  exists pre blk, padded pre blk (pad_block v c) /\ bitcount (pad_block v c) = bitcount c /\
    pre ++ blk = msg ++ chr 0x80 :: zeros ((SHORT_BLOCK_LENGTH v - 1 - zlen msg) mod B).
Proof using L C.
  intros Hc. pose proof (rest_bound B HB msg) as Hr. pose proof short_B as (HS1 & HS2 & HS3).
  pose proof (so_len _ _ Hc) as Hl. pose proof HB as HB0.
  destruct (chain_split B (compress v) HB iv msg) as (b & Eb & Hb & Hcb).
  rewrite (pad_zeros msg _ eq_refl). unfold pad_block. rewrite (used_spec msg c Hc).
  pose proof (set_80 msg c Hc) as H80. set (u := zlen (rest B msg)) in *.
  assert (Hzl : zlen (zset (buffer c) u (chr 0x80)) = B) by (by rewrite zlen_zset).
  destruct (Z.ltb_spec 0 u) as [Hu|Hu].
  - cbn [buffer set_buffer]. destruct (Z.leb_spec (u + 1) (SHORT_BLOCK_LENGTH v)) as [Hs|Hs].
    + rewrite decide_True by done.
      set (z := zeros (SHORT_BLOCK_LENGTH v - (u + 1))).
      assert (Hz : zlen z = SHORT_BLOCK_LENGTH v - (u + 1)) by (apply zlen_zeros; lia).
      exists b, (rest B msg ++ chr 0x80 :: z). split_and!; [|done|].
      * split_and!; cbn [state buffer set_buffer]; [done|by rewrite Hcb; apply Hc| |].
        -- rewrite zlen_zsplice; lia.
        -- replace (SHORT_BLOCK_LENGTH v) with (u + 1 + zlen z) at 1 by lia.
           rewrite ztake_zsplice, H80, <- app_assoc by lia. done.
      * rewrite app_assoc, <- Eb. unfold z. do 3 f_equal. lia.
    + rewrite decide_False by lia. set (m := rest B msg ++ chr 0x80 :: zeros (B - (u + 1))).
      assert (Hm : zlen m = B).
      { unfold m. rewrite zlen_app, zlen_cons, zlen_zeros by lia. fold u. lia. }
      destruct (long_block msg c u Hc eq_refl) as (c1 & -> & E1 & E2 & ->). fold m.
      destruct (Transform_compress v c1 m) as (T1 & T2 & T3); [lia|].
      destruct (chain_app_fill B (compress v) HB iv msg (chr 0x80 :: zeros (B - (u + 1)))) as [F1 F2].
      { rewrite zlen_cons, zlen_zeros by lia. fold u. lia. }
      pose proof law_zero as Hz0.
      exists (msg ++ chr 0x80 :: zeros (B - (u + 1))), (zeros (SHORT_BLOCK_LENGTH v)).
      split_and!; [|cbn [bitcount set_buffer]; by rewrite T2|].
      * split_and!; cbn [state buffer set_buffer]; [done| | |].
        -- rewrite T1, F1, E1, (so_state _ _ Hc). done.
        -- rewrite zlen_zsplice; rewrite ?zlen_zeros; lia.
        -- rewrite ztake_splice0 by (rewrite zlen_zeros; lia). unfold ztake, zeros.
           rewrite take_replicate. f_equal. lia.
      * rewrite <- app_assoc. cbn [app]. rewrite zeros_app by lia. do 3 f_equal. lia.
  - assert (u = 0) as Hu0 by lia. rewrite Hu0. rewrite decide_True by lia.
    exists msg, (chr 0x80 :: zeros (SHORT_BLOCK_LENGTH v - 1)). split_and!; [|done|by rewrite Z.sub_0_r].
    split_and!; cbn [state buffer set_buffer].
    + by destruct (rest B msg) as [|x r]; [|unfold u in Hu0; rewrite zlen_cons in Hu0; pose proof (zlen_nonneg r); lia].
    + apply Hc.
    + rewrite zlen_zset, zlen_zsplice; rewrite ?zlen_zeros; lia.
    + apply empty_block.
Qed.

Lemma Last_spec length_field msg c :
  sha_of msg c -> length_field (bitcount c) = be_bytes (2 * word_bytes v) (8 * zlen msg) ->
  state (Last v length_field c) = sha_chain iv (sha_pad msg).
Proof using L C.
  intros Hc Hlf. destruct (pad_block_spec msg c Hc) as (pre & blk & (P1 & P2 & P3 & P4) & Hbc & E).
  pose proof short_B as (? & ? & ?). unfold Last. cbn [buffer set_buffer]. rewrite Hbc, Hlf.
  set (lf := be_bytes _ _).
  assert (Hz : zlen lf = 2 * Z.of_nat (word_bytes v)).
  { unfold lf, be_bytes, zlen. rewrite length_rev, length_le_bytes. lia. }
  rewrite zsplice_fill, P4 by lia.
  assert (Hbz : zlen (blk ++ lf) = B) by (rewrite zlen_app, <- P4, zlen_ztake by lia; lia).
  destruct (Transform_compress v (set_buffer (pad_block v c) (blk ++ lf)) (blk ++ lf)) as (-> & _ & _);
    [lia|].
  cbn [state set_buffer]. rewrite P2. unfold sha_pad. fold lf.
  rewrite app_comm_cons, app_assoc, <- E, <- app_assoc.
  destruct (chain_app_fill B (compress v) HB iv pre (blk ++ lf)) as [-> _];
    rewrite P1; [change (zlen (@nil ascii)) with 0; lia|done].
Qed.
End Stream.

(** ** Digests *)

Lemma be_bytes_mod n x : be_bytes n (x mod 256 ^ Z.of_nat n) = be_bytes n x.
Proof. unfold be_bytes. by rewrite le_bytes_mod. Qed.

Lemma reversed64 x : le_bytes 8 (REVERSE64 (w64 x)) = be_bytes 8 x.
Proof.
  rewrite <- (be_bytes_mod 8). change (w64 x) with (x mod 256 ^ Z.of_nat 8).
  apply (le_bytes_REVERSE v512). apply Z.mod_pos_bound. by vm_compute.
Qed.

Lemma length256_spec n : length256 (count (v := v256) n) = be_bytes 8 (8 * n).
Proof. apply reversed64. Qed.
Lemma length512_spec n : length512 (count (v := v512) n) = be_bytes 16 (8 * n).
Proof.
  unfold length512. cbn [count v512_count fst snd]. rewrite !reversed64. unfold be_bytes.
  change 16%nat with (8 + 8)%nat. rewrite (le_bytes_app 8 8 (8 * n)), rev_app_distr. done.
Qed.

Lemma wrap_range v x : 0 <= wrap v x < 256 ^ Z.of_nat (word_bytes v).
Proof.
  unfold wrap. rewrite Z.pow_mul_r by lia. change (2 ^ 8) with 256.
  apply Z.mod_pos_bound. apply Z.pow_pos_nonneg; lia.
Qed.
Lemma compress_range v s data :
  Forall (fun x => 0 <= x < 256 ^ Z.of_nat (word_bytes v)) (compress v s data).
Proof.
  unfold compress, add_regs. destruct (run_rounds _ _ _ _) as [[[[[[[a b] c] d] e] f] g] h].
  repeat (apply Forall_cons_2; [apply wrap_range|]). apply Forall_nil_2.
Qed.

Lemma output_spec v `{L : Sha2Laws v} `{C : !Sha2Count v} iv lf n msg c :
  sha_of v iv msg c -> lf (bitcount c) = be_bytes (2 * word_bytes v) (8 * zlen msg) ->
  output v n (Last v lf c) = sha_spec v iv n msg.
Proof.
  intros Hc Hlf. unfold output, sha_spec. rewrite <- (Last_spec v iv lf msg c Hc Hlf).
  f_equal. apply map_ext_in. intros x Hx. apply le_bytes_REVERSE; [done|].
  assert (F : Forall (fun x => 0 <= x < 256 ^ Z.of_nat (word_bytes v)) (state (Last v lf c))).
  { rewrite (Last_spec v iv lf msg c Hc Hlf).
    destruct (pad_block_spec v iv msg c Hc) as (pre & blk & (P1 & _ & P3 & P4) & _ & E).
    unfold sha_pad. rewrite app_comm_cons, app_assoc, <- E, <- app_assoc.
    destruct (chain_app_fill (BLOCK_LENGTH v) (compress v) (proj1 (B_pos v)) iv pre
                (blk ++ be_bytes (2 * word_bytes v) (8 * zlen msg))) as [-> _];
      [|apply compress_range].
    rewrite P1, zlen_app, <- P4. pose proof (short_B v) as (? & ? & ?).
    change (zlen (@nil ascii)) with 0. rewrite zlen_ztake, P3 by lia. unfold zlen, be_bytes.
    rewrite length_rev, length_le_bytes. lia. }
  apply (proj1 (List.Forall_forall _ _) F). rewrite <- (take_drop n (state _)).
  apply in_or_app. by left.
Qed.

Lemma updates_sha v `{L : Sha2Laws v} `{C : !Sha2Count v} iv chunks : forall msg c,
  sha_of v iv msg c -> Forall (fun d => zlen d < 2 ^ 61) chunks ->
  sha_of v iv (msg ++ concat chunks) (foldl (Update v) c chunks).
Proof.
  induction chunks as [|d ds IH]; intros msg c Hc Hd; cbn [concat foldl].
  - by rewrite app_nil_r.
  - inversion_clear Hd. rewrite app_assoc. apply IH; [by apply update_sha|done].
Qed.

Definition sha256_spec : bytes -> bytes := sha_spec v256 sha256_initial_hash_value 8.
Definition sha384_spec : bytes -> bytes := sha_spec v512 sha384_initial_hash_value 6.
Definition sha512_spec : bytes -> bytes := sha_spec v512 sha512_initial_hash_value 8.

(** C26: feeding a message to a SHA-2 context in chunks of any sizes below 2^61
    bytes and finalizing it gives the digest of the whole message as FIPS 180-4
    defines it (the message padded and cut into blocks, each compressed with its
    full message schedule), for SHA-256, SHA-384 and SHA-512. *)
Theorem sha2_streaming_correct (chunks : list bytes) :
  Forall (fun d => zlen d < 2 ^ 61) chunks ->
  sha256_final (foldl sha256_update sha256_init chunks) = sha256_spec (concat chunks) /\
  sha512_final (foldl sha512_update sha512_init chunks) = sha512_spec (concat chunks) /\
  SHA384_Final (foldl SHA384_Update SHA384_Init chunks) = sha384_spec (concat chunks).
Proof.
  intros Hd.
  pose proof (updates_sha v256 sha256_initial_hash_value chunks [] _ (init_sha v256 _) Hd) as H256.
  pose proof (updates_sha v512 sha512_initial_hash_value chunks [] _ (init_sha v512 _) Hd) as H512.
  pose proof (updates_sha v512 sha384_initial_hash_value chunks [] _ (init_sha v512 _) Hd) as H384.
  split_and!.
  - apply (output_spec v256 _ length256 8 _ _ H256). rewrite (so_count _ _ _ _ H256). apply length256_spec.
  - apply (output_spec v512 _ length512 8 _ _ H512). rewrite (so_count _ _ _ _ H512). apply length512_spec.
  - apply (output_spec v512 _ length512 6 _ _ H384). rewrite (so_count _ _ _ _ H384). apply length512_spec.
Qed.

Definition sha2_chunks : list bytes := [str "ab"; []; str "c"].
Lemma sha2_streaming_correct_witness :
  sha256_final (foldl sha256_update sha256_init sha2_chunks) = sha256_spec (concat sha2_chunks) /\
  sha512_final (foldl sha512_update sha512_init sha2_chunks) = sha512_spec (concat sha2_chunks) /\
  SHA384_Final (foldl SHA384_Update SHA384_Init sha2_chunks) = sha384_spec (concat sha2_chunks).
Proof. apply (sha2_streaming_correct sha2_chunks). repeat constructor. Defined.

(** The test vectors of FIPS 180-4 for the message [abc] (the first words). *)
Example sha2_vectors :
  ztake 4 (sha256_spec (str "abc")) = map chr [0xba; 0x78; 0x16; 0xbf] /\
  ztake 4 (sha384_spec (str "abc")) = map chr [0xcb; 0x00; 0x75; 0x3f] /\
  ztake 4 (sha512_spec (str "abc")) = map chr [0xdd; 0xaf; 0x35; 0xa1].
Proof. split_and!; vm_compute; reflexivity. Qed.

(** The transforms, which expand the message schedule in place in the
    16-word circular buffer of the context, compute the compression function of
    the standard with its full schedule of 64 or 80 words. *)
Theorem sha2_transform_correct (c : ctx) (data : bytes) :
  (64 <= zlen data -> state (SHA256_Transform c data) = compress v256 (state c) data) /\
  (128 <= zlen data -> state (SHA512_Transform c data) = compress v512 (state c) data).
Proof.
  split; intros H; [apply (Transform_compress v256 c data H)|apply (Transform_compress v512 c data H)].
Qed.

Lemma sha2_transform_correct_witness :
  state (SHA256_Transform SHA256_Init (replicate 64 nul))
  = compress v256 (state SHA256_Init) (replicate 64 nul).
Proof.
  apply (proj1 (sha2_transform_correct SHA256_Init (replicate 64 nul))). vm_compute. discriminate.
Defined.

Lemma zlen_hex d : zlen (hex_digest d) = 2 * zlen d + 1.
Proof.
  unfold hex_digest. rewrite zlen_app. change (zlen [nul]) with 1. f_equal.
  induction d as [|x d IH]; [done|]. cbn [map concat]. rewrite zlen_app, IH, !zlen_cons.
  change (zlen (@nil ascii)) with 0. lia.
Qed.
Lemma zlen_output v n c : zlen (output v n c) = Z.of_nat (word_bytes v) * Z.of_nat (Nat.min n (length (state c))).
Proof.
  unfold output. rewrite <- length_take. induction (take n (state c)) as [|x l IH].
  { change (zlen (concat _)) with 0. cbn [length]. lia. }
  cbn [map concat]. rewrite zlen_app, IH, zlen_le_bytes. cbn [length]. lia.
Qed.
Lemma length_Transform v c data : length (state (Transform v c data)) = 8%nat.
Proof.
  unfold Transform. destruct (first_rounds _ _ _ _ _ _) as [W r].
  destruct (last_rounds _ _ _ _ _) as [W' r']. cbn. unfold add_regs.
  by destruct r' as [[[[[[[a b] c'] d] e] f] g] h].
Qed.

(** The one-call functions [sha256] and [sha512] of the built-in
    implementation store the hexadecimal digest with a terminator, one byte more
    than twice [SHA*_DIGEST_SIZE], where the binary digest of [SHA*_DIGEST_SIZE]
    bytes is declared (and stored by the Crypto++ variant). *)
Theorem sha2_oneshot_overruns (message : bytes) :
  zlen (sha256_final (sha256_update sha256_init message)) = SHA256_DIGEST_SIZE /\
  zlen (sha256 message) = 2 * SHA256_DIGEST_SIZE + 1 /\
  zlen (sha512_final (sha512_update sha512_init message)) = SHA512_DIGEST_SIZE /\
  zlen (sha512 message) = 2 * SHA512_DIGEST_SIZE + 1.
Proof.
  unfold sha256, sha512, SHA256_Data, SHA512_Data, SHA256_End, SHA512_End. rewrite !zlen_hex.
  unfold sha256_final, sha512_final, SHA256_Final, SHA512_Final, SHA512_Last, Last.
  rewrite !zlen_output, !length_Transform. done.
Qed.
