(* ===== verification/TreeHash.v ===== *)
(** Tree hashing: [urbackupcommon/TreeHash.cpp] and [TreeHash.h].

    Files are compared by a hash that can be computed from their contents or from
    the chunk hashes that the file transfer keeps anyway.  Of each block of 512 KiB
    the MD5 digest and twelve Adler-32 checksums (of every twelfth small block)
    make a leaf; the leaves are hashed up in groups of 16 with SHA-512.  Extents of
    zeros are hashed beside the tree.  [None] is a failed [assert] or an access
    outside a buffer. *)
From S2P Require Import Prelude Adler BlockHash Md5 Sha2.

Definition treehash_blocksize : Z := 512 * 1024.
Definition treehash_smallblock : Z := 4096.
Definition max_level_size : Z := 16.

(** Where the chunk hashes of the blocks hashed from their contents go. *)
Class IHashOutput (Out : Type) := { hash_output_all_adlers : Out -> Z -> bytes -> Out }.

(** A 32-bit word of [input_adler]. *)
Definition read_adler (h : bytes) (i : Z) : option Z :=
  if zlen h <? 16 + 4 * i + 4 then None else Some (le_val (zsub (16 + 4 * i) 4 h)).

Definition no_adler : Z := urb_adler32 0 None 0.

Fixpoint combine_adlers (fuel : nat) (h : bytes) (hashed_size num_adlers i : Z) (n_adlers : list Z) : option (list Z) :=
  if i <? num_adlers then
    match fuel with
    | O => None
    | S k =>
        let adler_idx := i mod 12 in
        let curr_len2 := if (i + 1 =? num_adlers) && negb (hashed_size mod treehash_smallblock =? 0)
                         then hashed_size mod treehash_smallblock else treehash_smallblock in
        a ← read_adler h i;
        combine_adlers k h hashed_size num_adlers (i + 1)
          (zset n_adlers adler_idx (urb_adler32_combine (znth 0 n_adlers adler_idx) a curr_len2))
    end
  else Some n_adlers.

(** [size] is the number of bytes at [h], which holds [zlen h]. *)
Definition allAdlerTo64byteHash (h : bytes) (size hashed_size : Z) : option bytes :=
  let num_adlers := w64 (size - 16) / 4 in
  if zlen h <? 16 then None else
  n_adlers ← mapM (fun i => if num_adlers <=? i then Some no_adler else read_adler h i) (map Z.of_nat (seq 0 12));
  n_adlers ← combine_adlers (length h) h hashed_size num_adlers 12 n_adlers;
  Some (ztake 16 h ++ concat (map (le_bytes 4) n_adlers)).

Module TreeHash.
Section TreeHash.
Context {Out : Type} `{IHashOutput Out}.

Record t := mk {
  offset : Z;
  has_sparse : bool;
  sparse_ctx : ctx;
  md5sum : MD5.t;
  adlers : list Z;
  hash_all_adlers : bytes;
  hash_output : option Out;
  hash_pos : Z;
  level_hash : list (list bytes) }.

(** The constructor; [mem] is the memory of the MD5 object. *)
Definition init (mem : MD5.t) (hash_output : option Out) : t :=
  mk 0 false sha512_init (MD5.init mem) (replicate 12 no_adler)
    (match hash_output with Some _ => replicate 528 nul | None => [] end) hash_output 0 [[]].

Definition finalize_level (idx : nat) (level_hash : list (list bytes)) : list (list bytes) :=
  let nh := sha512_final (foldl sha512_update sha512_init (nth idx level_hash [])) in
  let level_hash := if (length level_hash <=? S idx)%nat then level_hash ++ [[]] else level_hash in
  <[idx := []]> (alter (fun l => l ++ [nh]) (S idx) level_hash).

(** [for (size_t i = 0; i < level_hash.size(); ++i)] of [addHash] *)
Fixpoint finalize_full (fuel i : nat) (level_hash : list (list bytes)) : option (list (list bytes)) :=
  if (i <? length level_hash)%nat then
    match fuel with
    | O => None
    | S k =>
        l ← level_hash !! i;
        if max_level_size <? zlen l then None
        else finalize_full k (S i) (if zlen l =? max_level_size then finalize_level i level_hash else level_hash)
    end
  else Some level_hash.

Definition addHash (h : bytes) (hashed_size : Z) (th : t) : option t :=
  if negb (offset th =? 0) then None
  else if zlen h <? 64 then None
  else
    let levels := alter (fun l => l ++ [ztake 64 h]) 0%nat (level_hash th) in
    levels ← finalize_full (S (length levels)) 0 levels;
    Some (mk (offset th) (has_sparse th) (sparse_ctx th) (md5sum th) (adlers th) (hash_all_adlers th)
            (hash_output th) (s64 (hash_pos th + hashed_size)) levels).

Definition addHashAllAdler (h : bytes) (size hashed_size : Z) (th : t) : option t :=
  if negb (offset th =? 0) then None
  else nh ← allAdlerTo64byteHash h size hashed_size; addHash nh hashed_size th.

Definition finalize_curr (th : t) : option t :=
  let md5sum := MD5.finalize (md5sum th) in
  d ← MD5.raw_digest_int md5sum;
  let h := ztake 16 d ++ concat (map (le_bytes 4) (adlers th)) in
  let '(all, out) :=
    match hash_output th with
    | Some o => let all := zsplice 0 (ztake 16 d) (hash_all_adlers th) in
                (all, Some (hash_output_all_adlers o (hash_pos th) all))
    | None => (hash_all_adlers th, None)
    end in
  th ← addHash h 0 (mk (offset th) (has_sparse th) (sparse_ctx th) md5sum (adlers th) all out (hash_pos th) (level_hash th));
  Some (mk (offset th) (has_sparse th) (sparse_ctx th) (MD5.init md5sum) (replicate 12 no_adler) (hash_all_adlers th)
          (hash_output th) (hash_pos th) (level_hash th)).

(** The checksums of one small block, [piece], the [i / 4096]th of the block. *)
Definition add_adler (i : Z) (piece : bytes) (th : t) : option (list Z * bytes) :=
  let adler_idx := (i / treehash_smallblock) mod 12 in
  let tohash := zlen piece in
  let old := znth 0 (adlers th) adler_idx in
  match hash_output th with
  | Some _ =>
      let adler_curr := urb_adler32 (urb_adler32 0 None 0) (Some piece) tohash in
      let pos := 16 + i / treehash_smallblock * 4 in
      if zlen (hash_all_adlers th) <? pos + 4 then None
      else Some (zset (adlers th) adler_idx (urb_adler32_combine old adler_curr tohash),
                 zsplice pos (le_bytes 4 adler_curr) (hash_all_adlers th))
  | None => Some (zset (adlers th) adler_idx (urb_adler32 old (Some piece) tohash), hash_all_adlers th)
  end.

Fixpoint hash_loop (fuel : nat) (buf : bytes) (i offset_end buf_off : Z) (th : t) : option t :=
  if i <? offset_end then
    match fuel with
    | O => None
    | S k =>
        let tohash := Z.min treehash_smallblock (offset_end - i) in
        let tohash := if negb (offset th mod treehash_smallblock =? 0)
                      then Z.min tohash (treehash_smallblock - offset th mod treehash_smallblock) else tohash in
        if zlen buf <? buf_off + tohash then None else
        let piece := zsub buf_off tohash buf in
        '(ads, all) ← add_adler i piece th;
        let th := mk (w32 (offset th + tohash)) (has_sparse th) (sparse_ctx th) (MD5.update (md5sum th) piece) ads all
                    (hash_output th) (s64 (hash_pos th + tohash)) (level_hash th) in
        let buf_off := w32 (buf_off + tohash) in
        let i := w32 (i + treehash_smallblock) in
        if treehash_blocksize <? offset th then None
        else if offset th =? treehash_blocksize then
          let offset_end := if treehash_blocksize <? offset_end then offset_end - treehash_blocksize else offset_end in
          th ← finalize_curr (mk 0 (has_sparse th) (sparse_ctx th) (md5sum th) (adlers th) (hash_all_adlers th)
                               (hash_output th) (hash_pos th) (level_hash th));
          hash_loop k buf i offset_end buf_off th
        else hash_loop k buf i offset_end buf_off th
    end
  else Some th.

(** Every round but the last takes 4096 bytes, so that there are fewer than [bsize]. *)
Definition hash (buf : bytes) (th : t) : option t :=
  if offset th =? UINT_MAX then None
  else hash_loop (S (length buf)) buf (offset th) (w32 (offset th + zlen buf)) 0 th.

Definition sparse_hash (buf : bytes) (th : t) : option t :=
  if offset th =? UINT_MAX then None
  else Some (mk (offset th) true (sha512_update (sparse_ctx th) buf) (md5sum th) (adlers th) (hash_all_adlers th)
               (hash_output th) (hash_pos th) (level_hash th)).

(** [for (size_t i = 0; i < level_hash.size()-1; ++i)]; there is always a level. *)
Fixpoint finalize_levels (fuel i : nat) (level_hash : list (list bytes)) : option (list (list bytes)) :=
  if (S i <? length level_hash)%nat then
    match fuel with
    | O => None
    | S k =>
        l ← level_hash !! i;
        finalize_levels k (S i) (match l with [] => level_hash | _ => finalize_level i level_hash end)
    end
  else Some level_hash.

Definition set_level_hash (offset : Z) (levels : list (list bytes)) (th : t) : t :=
  mk offset (has_sparse th) (sparse_ctx th) (md5sum th) (adlers th) (hash_all_adlers th) (hash_output th) (hash_pos th) levels.

Definition finalize (th : t) : option (bytes * t) :=
  th ← (if negb (offset th =? 0) then finalize_curr (set_level_hash 0 (level_hash th) th) else Some th);
  levels ← finalize_levels (length (level_hash th)) 0 (level_hash th);
  let th := set_level_hash UINT_MAX levels th in
  let n := length levels in
  if (n =? 1)%nat && match nth 0 levels [] with [] => true | _ => false end then Some (sha512_final sha512_init, th)
  else
    top ← levels !! pred n;
    let levels := if 1 <? zlen top then finalize_level (pred n) levels else levels in
    let th := set_level_hash UINT_MAX levels th in
    top ← levels !! pred (length levels);
    tree_hash ← top !! 0%nat;
    if has_sparse th then Some (sha512_final (sha512_update (sparse_ctx th) tree_hash), th)
    else Some (tree_hash, th).
End TreeHash.
Arguments t : clear implicits.
End TreeHash.

(** ** The flat hashes *)

Module HashSha512.
Record t := mk { has_sparse : bool; ctx : Sha2.ctx; sparse_ctx : Sha2.ctx }.
Definition init : t := mk false sha512_init sha512_init.
Definition hash (buf : bytes) (h : t) : t := mk (has_sparse h) (sha512_update (ctx h) buf) (sparse_ctx h).
Definition sparse_hash (buf : bytes) (h : t) : t := mk true (ctx h) (sha512_update (sparse_ctx h) buf).
Definition finalize (h : t) : bytes :=
  let ctx := if has_sparse h then sha512_update (ctx h) (sha512_final (sparse_ctx h)) else ctx h in
  sha512_final ctx.
End HashSha512.

Module HashSha256.
Record t := mk { has_sparse : bool; ctx : Sha2.ctx; sparse_ctx : Sha2.ctx }.
Definition init : t := mk false sha256_init sha256_init.
Definition hash (buf : bytes) (h : t) : t := mk (has_sparse h) (sha256_update (ctx h) buf) (sparse_ctx h).
Definition sparse_hash (buf : bytes) (h : t) : t := mk true (ctx h) (sha256_update (sparse_ctx h) buf).
Definition finalize (h : t) : bytes :=
  let ctx := if has_sparse h then sha256_update (ctx h) (sha256_final (sparse_ctx h)) else ctx h in
  sha256_final ctx.
End HashSha256.
