(* ===== verification/TreeRoot.v ===== *)
(** The tree of [TreeHash.v] as a function of its leaves.

    [tree_root] hashes all nodes of a level in groups of 16 until one is left;
    the code keeps, level by level, the nodes that wait for their group to fill
    up.  [rep] relates the two, as a counter in base 16 represents a number. *)
From S2P Require Import Prelude Adler BlockHash Md5 Sha2 TreeHash.

(** ** Cutting a list into pieces of [n] elements, the last one shorter *)

Section Cut.
Context {A : Type}.
Implicit Types l : list A.

Fixpoint cut_loop (fuel : nat) (n : Z) (l : list A) : list (list A) :=
  match fuel, l with
  | _, [] => []
  | O, _ => []
  | S k, _ => ztake n l :: cut_loop k n (zdrop n l)
  end.
Definition cut (n : Z) (l : list A) : list (list A) := cut_loop (length l) n l.

Lemma cut_loop_enough n f1 : forall f2 l, 0 < n -> (length l <= f1)%nat -> (length l <= f2)%nat -> cut_loop f1 n l = cut_loop f2 n l.
Proof.
  induction f1 as [|f1 IH]; intros f2 [|x l] Hn H1 H2; try (cbn in H1; lia); try (by destruct f2).
  destruct f2 as [|f2]; [cbn in H2; lia|]. cbn [cut_loop]. f_equal.
  assert (length (zdrop n (x :: l)) <= length l)%nat by (unfold zdrop; rewrite length_drop; cbn; lia).
  cbn in H1, H2. apply IH; [done|lia|lia].
Qed.
Lemma cut_nil n : cut n ([] : list A) = [].
Proof. done. Qed.
Lemma cut_step n l : 0 < n -> l <> [] -> cut n l = ztake n l :: cut n (zdrop n l).
Proof.
  intros Hn Hl. destruct l as [|x l]; [done|]. unfold cut at 1. cbn [length cut_loop]. f_equal.
  apply cut_loop_enough; [done| |done]. unfold zdrop. rewrite length_drop. cbn. lia.
Qed.
Lemma cut_piece n l : l <> [] -> zlen l <= n -> cut n l = [l].
Proof.
  intros Hl Hn. assert (0 < n) by (destruct l; [done|]; rewrite zlen_cons in Hn; pose proof (zlen_nonneg l); lia).
  by rewrite cut_step, ztake_ge, zdrop_ge, cut_nil by done.
Qed.
Lemma cut_app n p l : 0 < n -> zlen p = n -> cut n (p ++ l) = p :: cut n l.
Proof.
  intros Hn Hp. rewrite cut_step; [|done|].
  - subst n. by rewrite ztake_app_zlen, zdrop_app_zlen.
  - destruct p; [|done]. change (zlen (@nil A)) with 0 in Hp. lia.
Qed.
(** Whole pieces in front. *)
Lemma cut_concat n ps l : 0 < n -> Forall (fun p => zlen p = n) ps -> cut n (concat ps ++ l) = ps ++ cut n l.
Proof.
  intros Hn. induction 1 as [|p ps Hp _ IH]; cbn [concat app]; [done|]. by rewrite <- app_assoc, cut_app, IH.
Qed.
Lemma concat_cut n l : 0 < n -> concat (cut n l) = l.
Proof.
  intros Hn. remember (length l) as k eqn:Hk. revert l Hk. induction k as [k IH] using lt_wf_ind. intros l ->.
  destruct l as [|x l]; [done|]. rewrite cut_step by done. cbn [concat].
  rewrite (IH (length (zdrop n (x :: l)))); [apply ztake_zdrop| |done]. unfold zdrop. rewrite length_drop. cbn. lia.
Qed.
Lemma cut_whole n l : 0 < n -> zlen l mod n = 0 -> Forall (fun p => zlen p = n) (cut n l).
Proof.
  intros Hn. remember (length l) as k eqn:Hk. revert l Hk. induction k as [k IH] using lt_wf_ind. intros l -> Hm.
  destruct l as [|x l]; [constructor|]. set (y := x :: l) in *.
  assert (n <= zlen y).
  { destruct (Z.le_gt_cases n (zlen y)); [done|]. rewrite Z.mod_small in Hm by (pose proof (zlen_nonneg y); lia).
    unfold y in Hm. rewrite zlen_cons in Hm. pose proof (zlen_nonneg l). lia. }
  rewrite cut_step by done. constructor; [rewrite zlen_ztake; lia|].
  apply (IH (length (zdrop n y))); [|done|].
  - unfold zdrop. rewrite length_drop. unfold y. cbn. lia.
  - rewrite zlen_zdrop, Z.max_r by lia. replace (zlen y - n) with (zlen y + (-1) * n) by lia. by rewrite Z.mod_add by lia.
Qed.
Lemma cut_app_whole n l k : 0 < n -> zlen l mod n = 0 -> cut n (l ++ k) = cut n l ++ cut n k.
Proof.
  intros Hn Hm. rewrite <- (concat_cut n l Hn) at 1. apply cut_concat; [done|]. by apply cut_whole.
Qed.
Lemma cut_length n l : 0 < n -> l <> [] -> Z.of_nat (length (cut n l)) = (zlen l + n - 1) / n.
Proof.
  intros Hn. remember (length l) as k eqn:Hk. revert l Hk. induction k as [k IH] using lt_wf_ind. intros l -> Hl.
  rewrite cut_step by done. cbn [length]. destruct (decide (zlen l <= n)) as [Hle|Hgt].
  - rewrite zdrop_ge, cut_nil by done. cbn. assert (0 < zlen l) by (destruct l; [done|]; rewrite zlen_cons; pose proof (zlen_nonneg l); lia).
    apply Z.div_unique with (zlen l - 1); lia.
  - assert (Hz : zlen (zdrop n l) = zlen l - n) by (rewrite zlen_zdrop; lia).
    rewrite Nat2Z.inj_succ, (IH (length (zdrop n l))); [|unfold zlen in *; lia|done|by intros E; rewrite E in Hz; change (zlen (@nil A)) with 0 in Hz; lia].
    rewrite Hz. replace (zlen l + n - 1) with (zlen l - n + n - 1 + 1 * n) by lia. rewrite Z.div_add by lia. lia.
Qed.
Lemma cut_small n l : 0 < n -> Forall (fun p => 0 < zlen p <= n) (cut n l).
Proof.
  intros Hn. remember (length l) as k eqn:Hk. revert l Hk. induction k as [k IH] using lt_wf_ind. intros l ->.
  destruct l as [|x l]; [constructor|]. rewrite cut_step by done. constructor.
  - rewrite zlen_ztake, zlen_cons by lia. pose proof (zlen_nonneg l). lia.
  - apply (IH (length (zdrop n (x :: l)))); [|done]. unfold zdrop. rewrite length_drop. cbn. lia.
Qed.
End Cut.

(** ** The tree *)

(** An inner node, or the root over some nodes. *)
Definition node (l : list bytes) : bytes := sha512_spec (concat l).

(** Nodes have at most 64 bytes. *)
Notation small := (fun h : bytes => zlen h <= 64).

Lemma zlen_be_words (l : list Z) : zlen (concat (map (be_bytes 8) l)) = 8 * zlen l.
Proof.
  induction l as [|x l IH]; [done|]. cbn [map concat]. rewrite zlen_app, IH, zlen_cons. unfold be_bytes, zlen at 1.
  rewrite length_rev, length_le_bytes. lia.
Qed.
Lemma sha512_spec_small m : small (sha512_spec m).
Proof.
  unfold sha512_spec, sha_spec. cbn [word_bytes v512]. rewrite zlen_be_words.
  match goal with |- 8 * zlen (take 8 ?l) <= 64 => assert (zlen (take 8 l) <= 8) by (unfold zlen; rewrite length_take; lia) end. lia.
Qed.

Lemma node_code (l : list bytes) :
  Forall small l -> sha512_final (foldl sha512_update sha512_init l) = node l.
Proof.
  intros Hl.
  pose proof (updates_sha v512 sha512_initial_hash_value l [] _ (init_sha v512 _)) as Hs.
  apply (output_spec v512 _ length512 8 _ _ (Hs ltac:(eapply Forall_impl; [exact Hl|cbn; intros; lia]))).
  rewrite (so_count _ _ _ _ (Hs ltac:(eapply Forall_impl; [exact Hl|cbn; intros; lia]))). apply length512_spec.
Qed.

#[local] Opaque sha512_spec.

Fixpoint root_loop (fuel : nat) (l : list bytes) : bytes :=
  match l with
  | [] => sha512_spec []
  | [x] => x
  | _ => match fuel with O => [] | S k => root_loop k (map node (cut max_level_size l)) end
  end.
(** A level is never longer than the one below, less one. *)
Definition tree_root (l : list bytes) : bytes := root_loop (length l) l.

Notation M := max_level_size.
Lemma M_pos : 1 < M.
Proof. done. Qed.
Lemma M_pos' : 0 < M.
Proof. done. Qed.

Lemma cut_shrinks (l : list bytes) : (2 <= length l)%nat -> (length (map node (cut M l)) < length l)%nat.
Proof.
  intros Hl. rewrite length_map. apply Nat2Z.inj_lt.
  assert (l <> []) by (intros ->; cbn in Hl; lia). rewrite cut_length by (try apply M_pos'; assumption).
  change (Z.of_nat (length l)) with (zlen l). assert (2 <= zlen l) by (unfold zlen; lia).
  apply Z.div_lt_upper_bound; [done|]. unfold M. lia.
Qed.
Lemma root_enough f1 : forall f2 l, (length l <= f1)%nat -> (length l <= f2)%nat -> root_loop f1 l = root_loop f2 l.
Proof.
  induction f1 as [|f1 IH]; intros f2 l H1 H2; destruct l as [|x [|y l]]; [by destruct f2|by destruct f2|cbn in H1; lia|by destruct f2|by destruct f2|].
  destruct f2 as [|f2]; [cbn in H2; lia|]. cbn [root_loop].
  pose proof (cut_shrinks (x :: y :: l) ltac:(cbn; lia)). cbn [length] in *. apply IH; lia.
Qed.
Lemma tree_root_step l : (2 <= length l)%nat -> tree_root l = tree_root (map node (cut M l)).
Proof.
  intros Hl. unfold tree_root. pose proof (cut_shrinks l Hl). destruct l as [|x [|y l]]; [cbn in Hl; lia..|].
  transitivity (root_loop (S (length l)) (map node (cut M (x :: y :: l)))); [done|].
  apply root_enough; cbn [length] in *; lia.
Qed.

(** ** Levels of waiting nodes *)

Inductive rep : list bytes -> list (list bytes) -> Prop :=
| rep_top l : zlen l < M -> rep l [l]
| rep_level g r ls : g <> [] -> Forall (fun x => zlen x = M) g -> zlen r < M -> rep (map node g) ls ->
    rep (concat g ++ r) (r :: ls).

Definition waiting (ls : list (list bytes)) : Prop := Forall (fun l => zlen l < M) ls /\ Forall (Forall small) ls.

(** A node added at the lowest of the levels [ls]. *)
Fixpoint push (x : bytes) (ls : list (list bytes)) : list (list bytes) :=
  match ls with
  | [] => [[x]]
  | r :: ls => if zlen (r ++ [x]) =? M then [] :: push (node (r ++ [x])) ls else (r ++ [x]) :: ls
  end.

Lemma push_rep x l ls : rep l ls -> rep (l ++ [x]) (push x ls).
Proof.
  intros Hr. revert x. induction Hr as [l Hl|g r ls Hg HgM Hl Hr IH]; intros x; cbn [push].
  - destruct (Z.eqb_spec (zlen (l ++ [x])) M) as [E|E].
    + pose proof (rep_level [l ++ [x]] [] [[node (l ++ [x])]]) as P. cbn [concat app] in P. rewrite !app_nil_r in P.
      apply P; [done|by constructor|done|]. by apply rep_top.
    + apply rep_top. rewrite zlen_app in *. change (zlen [x]) with 1 in *. lia.
  - rewrite <- app_assoc. destruct (Z.eqb_spec (zlen (r ++ [x])) M) as [E|E].
    + replace (concat g ++ r ++ [x]) with (concat (g ++ [r ++ [x]]) ++ []) by (rewrite concat_app; cbn [concat]; by rewrite !app_nil_r).
      apply rep_level; [by destruct g|by apply Forall_app_2, Forall_singleton|done|]. rewrite map_app. apply IH.
    + apply rep_level; [done|done| |done]. rewrite zlen_app in *. change (zlen [x]) with 1 in *. lia.
Qed.
Lemma push_waiting x ls : small x -> waiting ls -> waiting (push x ls).
Proof.
  intros Hx [H1 H2]. revert x Hx. induction ls as [|r ls IH]; intros x Hx; cbn [push].
  - split; [by apply Forall_singleton|by do 2 apply Forall_singleton].
  - inversion_clear H1. inversion_clear H2. destruct (Z.eqb_spec (zlen (r ++ [x])) M) as [E|E].
    + destruct (IH ltac:(done) ltac:(done) (node (r ++ [x])) (sha512_spec_small _)). by split; constructor.
    + split; constructor; try done; [|apply Forall_app_2; [done|by constructor]].
      rewrite zlen_app in *. change (zlen [x]) with 1 in *. lia.
Qed.

(** ** [addHash] *)

Import TreeHash.

Lemma finalize_level_app (pre : list (list bytes)) r ls :
  Forall small r ->
  finalize_level (length pre) (pre ++ r :: ls) = pre ++ [] :: match ls with [] => [[node r]] | s :: ls => (s ++ [node r]) :: ls end.
Proof.
  intros Hr. unfold finalize_level. rewrite (app_nth2 pre), Nat.sub_diag by lia. cbn [nth].
  rewrite node_code by done. rewrite length_app. cbn [length].
  set (nd := node r). assert (E : forall s ls', <[length pre := []]> (alter (fun l => l ++ [nd]) (S (length pre)) (pre ++ r :: s :: ls'))
    = pre ++ [] :: (s ++ [nd]) :: ls').
  { intros s ls'. replace (S (length pre)) with (length pre + 1)%nat by lia.
    rewrite alter_app_r. cbn [alter list_alter]. rewrite <- (Nat.add_0_r (length pre)). by rewrite insert_app_r. }
  destruct ls as [|s ls].
  - rewrite (proj2 (Nat.leb_le _ _)) by (cbn; lia). rewrite <- app_assoc. cbn [app]. apply E.
  - rewrite (proj2 (Nat.leb_gt _ _)) by (cbn; lia). apply E.
Qed.

(** Levels below 16 stay as they are. *)
Lemma finalize_full_stable ls : forall fuel pre,
  (length ls <= fuel)%nat -> waiting ls -> finalize_full fuel (length pre) (pre ++ ls) = Some (pre ++ ls).
Proof.
  induction ls as [|r ls IH]; intros fuel pre Hf Hw.
  - rewrite app_nil_r. destruct fuel; cbn [finalize_full]; by rewrite (proj2 (Nat.ltb_ge _ _)) by lia.
  - destruct fuel as [|fuel]; cbn in Hf; [lia|]. cbn [finalize_full]. rewrite (proj2 (Nat.ltb_lt _ _)) by (rewrite length_app; cbn; lia).
    rewrite lookup_app_r, Nat.sub_diag by lia. cbn [lookup list_lookup mbind option_bind].
    destruct Hw as [H1 H2]. inversion_clear H1. inversion_clear H2.
    rewrite (proj2 (Z.ltb_ge _ _)), (proj2 (Z.eqb_neq _ _)) by lia.
    specialize (IH fuel (pre ++ [r]) ltac:(lia) ltac:(done)). rewrite length_app, <- app_assoc in IH. cbn in IH.
    by rewrite Nat.add_1_r in IH.
Qed.

Lemma finalize_full_push ls : forall x r fuel pre,
  (S (length ls) < fuel)%nat -> zlen r < M -> Forall small r -> small x -> waiting ls ->
  finalize_full fuel (length pre) (pre ++ (r ++ [x]) :: ls) = Some (pre ++ push x (r :: ls)).
Proof.
  induction ls as [|s ls IH]; intros x r fuel pre Hf Hr Hrs Hx Hw; destruct fuel as [|fuel]; cbn in Hf; try lia; cbn [finalize_full push].
  all: rewrite (proj2 (Nat.ltb_lt _ _)) by (rewrite length_app; cbn; lia).
  all: rewrite lookup_app_r, Nat.sub_diag by lia; cbn [lookup list_lookup mbind option_bind].
  all: assert (Hl : zlen (r ++ [x]) <= M) by (rewrite zlen_app; change (zlen [x]) with 1; lia).
  all: rewrite (proj2 (Z.ltb_ge _ _)) by lia.
  all: assert (Hs : Forall small (r ++ [x])) by (apply Forall_app_2; [done|by constructor]).
  all: assert (Hnext : forall a, S (length pre) = length (pre ++ [a : list bytes])) by (intros; rewrite length_app; cbn; lia).
  all: destruct (Z.eqb_spec (zlen (r ++ [x])) M) as [E|E].
  - rewrite finalize_level_app by done. rewrite (Hnext []).
    replace (pre ++ [] :: [[node (r ++ [x])]]) with ((pre ++ [[]]) ++ [[node (r ++ [x])]]) by (by rewrite <- app_assoc).
    apply finalize_full_stable; [cbn; lia|]. split; constructor; try done. constructor; [apply sha512_spec_small|done].
  - rewrite (Hnext (r ++ [x])). pose proof (finalize_full_stable [] fuel (pre ++ [r ++ [x]])) as P.
    rewrite app_nil_r in P. apply P; [cbn; lia|done].
  - rewrite finalize_level_app by done. rewrite (Hnext []). destruct Hw as [H1 H2]. inversion_clear H1. inversion_clear H2.
    replace (pre ++ [] :: (s ++ [node (r ++ [x])]) :: ls) with ((pre ++ [[]]) ++ (s ++ [node (r ++ [x])]) :: ls) by (by rewrite <- app_assoc).
    rewrite IH; [|lia|done|done|apply sha512_spec_small|done]. by rewrite <- app_assoc.
  - rewrite (Hnext (r ++ [x])). change ((r ++ [x]) :: s :: ls) with ([r ++ [x]] ++ s :: ls). rewrite app_assoc.
    apply finalize_full_stable; [cbn; lia|done].
Qed.

(** ** [finalize] *)

(** [r] waits on the lowest level, the carry from below included. *)
Definition top (r : list bytes) : bytes := match r with [x] => x | _ => node r end.
Fixpoint collect (r : list bytes) (ls : list (list bytes)) : bytes :=
  match ls with
  | [] => top r
  | s :: ls => collect (s ++ match r with [] => [] | _ => [node r] end) ls
  end.

Lemma tree_root_top l : l <> [] -> zlen l <= M -> tree_root l = top l.
Proof.
  intros Hl Hm. destruct l as [|x [|y l]]; [done..|]. rewrite tree_root_step by (cbn; lia). by rewrite cut_piece by done.
Qed.

Lemma collect_root l ls : rep l ls -> forall c, (length c <= 1)%nat -> l ++ c <> [] ->
  exists r ls', ls = r :: ls' /\ collect (r ++ c) ls' = tree_root (l ++ c).
Proof.
  assert (M1 : forall (r c : list bytes), zlen r < M -> (length c <= 1)%nat -> zlen (r ++ c) <= M)
    by (intros r c; rewrite zlen_app; unfold zlen; lia).
  induction 1 as [l Hl|g r ls Hg HgM Hl Hr IH]; intros c Hc Hne.
  - exists l, []. split; [done|]. cbn [collect]. symmetry. by apply tree_root_top, M1.
  - exists r, ls. split; [done|]. rewrite <- app_assoc.
    set (r' := r ++ c). assert (Hr' : zlen r' <= M) by by apply M1.
    assert (Hlen : (2 <= length (concat g ++ r'))%nat).
    { destruct g as [|x g]; [done|]. inversion_clear HgM as [|? ? Hx _]. cbn [concat]. rewrite !length_app.
      unfold zlen, M in Hx. lia. }
    rewrite tree_root_step, cut_concat, map_app by done.
    set (c' := match r' with [] => [] | _ => [node r'] end).
    assert (Ec : map node (cut M r') = c').
    { unfold c'. destruct r' as [|x r'']; [done|]. by rewrite cut_piece. }
    rewrite Ec. destruct (IH c') as (s & ls' & -> & E); [by unfold c'; destruct r'; cbn; lia|by destruct g|].
    cbn [collect]. fold c'. by rewrite E.
Qed.

Lemma finalize_levels_collect ls : forall r fuel pre,
  (length ls < fuel)%nat -> Forall small r -> Forall (Forall small) ls ->
  exists pre' t, finalize_levels fuel (length pre) (pre ++ r :: ls) = Some (pre' ++ [t]) /\ collect r ls = top t /\
    Forall small t /\ (length pre' = length pre + length ls)%nat /\ ((exists s, last ls = Some s /\ s <> []) -> t <> []) /\ (ls = [] -> t = r).
Proof.
  induction ls as [|s ls IH]; intros r fuel pre Hf Hr Hls; destruct fuel as [|fuel]; cbn in Hf; try lia; cbn [finalize_levels].
  - rewrite (proj2 (Nat.ltb_ge _ _)) by (rewrite length_app; cbn; lia). exists pre, r. split_and!; [done|done|done|cbn; lia|by intros (? & ? & ?)|done].
  - rewrite (proj2 (Nat.ltb_lt _ _)) by (rewrite length_app; cbn; lia).
    rewrite lookup_app_r, Nat.sub_diag by lia. cbn [lookup list_lookup mbind option_bind]. inversion_clear Hls.
    set (c := match r with [] => [] | _ => [node r] end).
    assert (Hc : Forall small (s ++ c)).
    { apply Forall_app_2; [done|]. unfold c. destruct r; constructor; [apply sha512_spec_small|done]. }
    assert (E : match r with [] => pre ++ r :: s :: ls | _ => finalize_level (length pre) (pre ++ r :: s :: ls) end
      = (pre ++ [[]]) ++ (s ++ c) :: ls).
    { unfold c. destruct r; [by rewrite app_nil_r, <- app_assoc|]. rewrite finalize_level_app by done. by rewrite <- app_assoc. }
    rewrite E. replace (S (length pre)) with (length (pre ++ [[] : list bytes])) by (rewrite length_app; cbn; lia).
    destruct (IH (s ++ c) fuel (pre ++ [[]])) as (pre' & t & E1 & E2 & E3 & E4 & E5 & E6); [lia|done|done|].
    exists pre', t. split_and!; [done|done|done|rewrite E4, length_app; cbn; lia| |done].
    intros (s' & Hs' & Hne). destruct ls as [|s2 ls].
    + injection Hs' as ->. rewrite E6 by done. by destruct s'.
    + apply E5. by exists s'.
Qed.

Lemma rep_last l ls : rep l ls -> l <> [] -> exists s, last ls = Some s /\ s <> [].
Proof.
  induction 1 as [l|g r ls Hg _ _ Hr IH]; intros Hl; [by exists l|].
  destruct IH as (s & E & Hs); [by destruct g|]. exists s. split; [|done]. by destruct ls.
Qed.
Lemma rep_nil ls : rep [] ls -> ls = [[]].
Proof.
  inversion 1 as [|g r ls' Hg HgM]; [done|]. exfalso. destruct g as [|x g]; [done|]. inversion_clear HgM as [|? ? Hx _].
  destruct x; [discriminate Hx|done].
Qed.

(** What [finalize] does with the levels, when there are leaves. *)
Lemma finalize_levels_root l ls :
  rep l ls -> waiting ls -> l <> [] ->
  exists levels t levels' t', finalize_levels (length ls) 0 ls = Some levels /\
    (length levels =? 1)%nat && match nth 0 levels [] with [] => true | _ => false end = false /\
    levels !! pred (length levels) = Some t /\
    levels' = (if 1 <? zlen t then finalize_level (pred (length levels)) levels else levels) /\
    levels' !! pred (length levels') = Some t' /\ t' !! 0%nat = Some (tree_root l).
Proof.
  intros Hr Hw Hl. destruct (rep_last l ls Hr Hl) as (s & Hs & Hsne).
  destruct (collect_root l ls Hr []) as (r & ls' & -> & E); [cbn; lia|by rewrite app_nil_r|]. rewrite !app_nil_r in E.
  destruct Hw as [_ Hw]. inversion_clear Hw.
  destruct (finalize_levels_collect ls' r (length (r :: ls')) []) as (pre & t & E1 & E2 & E3 & E4 & E5 & E6); [cbn; lia|done|done|].
  cbn [app length] in E1 |- *. change (length (@nil (list bytes))) with 0%nat in E1.
  assert (Ht : t <> []).
  { destruct ls' as [|s2 ls']; [|apply E5; by exists s]. injection Hs as ->. by rewrite E6. }
  assert (El : pred (length (pre ++ [t])) = length pre) by (rewrite length_app; cbn; lia).
  assert (Et : (pre ++ [t]) !! length pre = Some t) by (by rewrite lookup_app_r, Nat.sub_diag by lia).
  exists (pre ++ [t]), t. rewrite El, Et. destruct (Z.ltb_spec 1 (zlen t)) as [H1|H1].
  - do 2 eexists. split_and!; [exact E1| |done|done| |].
    + clear -Ht. destruct pre as [|? pre]; [destruct t; [contradiction|reflexivity]|]. by destruct pre.
    + rewrite finalize_level_app by done. rewrite length_app. cbn [length]. rewrite lookup_app_r by lia.
      replace (pred (length pre + 2) - length pre)%nat with 1%nat by lia. reflexivity.
    + cbn [lookup list_lookup]. rewrite <- E, E2. by destruct t as [|? [|]].
  - do 2 eexists. split_and!; [exact E1| |done|done|by rewrite El|].
    + clear -Ht. destruct pre as [|? pre]; [destruct t; [contradiction|reflexivity]|]. by destruct pre.
    + rewrite <- E, E2. destruct t as [|x [|y t]]; [contradiction|reflexivity|]. rewrite !zlen_cons in H1. pose proof (zlen_nonneg t). lia.
Qed.
Lemma finalize_levels_nil : finalize_levels 1 0 [[]] = Some [[]].
Proof. done. Qed.
Lemma sha512_nothing : sha512_final sha512_init = sha512_spec [].
Proof. exact (node_code [] (Forall_nil_2 _)). Qed.

(** [addHash] on the levels. *)
Lemma add_levels_ok x l ls :
  rep l ls -> waiting ls -> small x ->
  let levels := alter (fun l => l ++ [x]) 0%nat ls in
  finalize_full (S (length levels)) 0 levels = Some (push x ls) /\ rep (l ++ [x]) (push x ls) /\ waiting (push x ls).
Proof.
  intros Hr Hw Hx. split_and!; [|by apply push_rep|by apply push_waiting].
  destruct ls as [|r ls]; [inversion Hr|]. cbn [alter list_alter]. destruct Hw as [H1 H2]. inversion_clear H1. inversion_clear H2.
  apply (finalize_full_push ls x r _ []); try done. cbn. lia.
Qed.
