(* ===== verification/TreeSpec.v ===== *)
(** What a tree hash is, and that [TreeHash.v] computes it.

    A block of up to 512 KiB has the leaf [leaf]; it can be made from the contents
    of the block, in pieces, or from the chunk hashes [all_adlers] of the block.
    [treehash_spec] is the hash of a file as a function of its blocks and of its
    extents of zeros; the streaming object computes it whichever way each block
    was given to it. *)
From S2P Require Import Prelude Adler BlockHash Md5 Sha2 TreeHash TreeRoot.

Notation SB := treehash_smallblock.
Notation BS := treehash_blocksize.
#[local] Opaque sha512_spec md5_spec.

(** ** Leaves *)

Definition adler (b : bytes) : Z := adler_spec (1, 0) b.
(** Every twelfth small block, from the [j]th. *)
Definition col (j : Z) (bs : list bytes) : bytes := concat (imap (fun k b => if Z.of_nat k mod 12 =? j then b else []) bs).
Definition col_adlers (bs : list bytes) : list Z := map (fun j => adler (col (Z.of_nat j) bs)) (seq 0 12).
Definition words (l : list Z) : bytes := concat (map (le_bytes 4) l).
Definition leaf (b : bytes) : bytes := md5_spec b ++ words (col_adlers (cut SB b)).
Definition all_adlers (b : bytes) : bytes := md5_spec b ++ words (map adler (cut SB b)).

Lemma adler_range b : 0 <= adler b < 2 ^ 32.
Proof.
  unfold adler, adler_spec. destruct (spec_sums_reduced (1, 0) b) as [H1 H2]; [by split|]. unfold pack, BASE in *. lia.
Qed.
Lemma no_adler_nil : no_adler = adler [].
Proof. done. Qed.
Lemma adler_more x p : zlen p < 2 ^ 32 -> urb_adler32 (adler x) (Some p) (zlen p) = adler (x ++ p).
Proof.
  intros Hp. unfold adler at 1, adler_spec. rewrite urb_adler32_spec; [|by apply spec_sums_reduced|pose proof (zlen_nonneg p); lia|done].
  rewrite ztake_ge by lia. unfold adler, adler_spec. by rewrite spec_sums_app.
Qed.
Lemma adler_first p : zlen p < 2 ^ 32 -> urb_adler32 (urb_adler32 0 None 0) (Some p) (zlen p) = adler p.
Proof. intros Hp. exact (adler_more [] p Hp). Qed.
Lemma adler_combine x p : zlen p < 2 ^ 32 -> urb_adler32_combine (adler x) (adler p) (zlen p) = adler (x ++ p).
Proof. apply urb_adler32_combine_spec. Qed.

Lemma zlen_col_adlers bs : zlen (col_adlers bs) = 12.
Proof. unfold col_adlers, zlen. by rewrite length_map, length_seq. Qed.
Lemma znth_col_adlers bs j : 0 <= j < 12 -> znth 0 (col_adlers bs) j = adler (col j bs).
Proof.
  intros Hj. apply znth_lookup; [lia|]. unfold col_adlers. rewrite list_lookup_fmap.
  rewrite lookup_seq_lt by lia. cbn. rewrite Z2Nat.id by lia. done.
Qed.
Lemma col_snoc j bs p : col j (bs ++ [p]) = col j bs ++ if zlen bs mod 12 =? j then p else [].
Proof.
  unfold col. rewrite imap_app, concat_app. cbn [imap concat]. rewrite app_nil_r, Nat.add_0_r. done.
Qed.
Lemma col_adlers_snoc bs p :
  col_adlers (bs ++ [p]) = zset (col_adlers bs) (zlen bs mod 12) (adler (col (zlen bs mod 12) bs ++ p)).
Proof.
  pose proof (Z.mod_pos_bound (zlen bs) 12 ltac:(lia)). apply (list_eq_znth 0); rewrite ?zlen_zset, !zlen_col_adlers; [done|].
  intros i Hi. rewrite znth_col_adlers, col_snoc by done. destruct (Z.eqb_spec (zlen bs mod 12) i) as [->|Hne].
  - by rewrite znth_zset_eq by (rewrite zlen_col_adlers; lia).
  - rewrite znth_zset_ne, znth_col_adlers by lia. by rewrite app_nil_r.
Qed.
Lemma zlen_map {A B} (f : A -> B) l : zlen (map f l) = zlen l.
Proof. unfold zlen. by rewrite length_map. Qed.
Lemma zlen_words l : zlen (words l) = 4 * zlen l.
Proof.
  unfold words. induction l as [|x l IH]; [done|]. cbn [map concat]. rewrite zlen_app, IH, zlen_le_bytes, zlen_cons. lia.
Qed.
Lemma words_app l k : words (l ++ k) = words l ++ words k.
Proof. unfold words. by rewrite map_app, concat_app. Qed.
Lemma zlen_leaf b : zlen (leaf b) = 64.
Proof. unfold leaf. rewrite zlen_app, zlen_md5_spec, zlen_words, zlen_col_adlers. done. Qed.

(** *** The leaf from the chunk hashes *)

Lemma read_adler_words d bs junk i :
  zlen d = 16 -> 0 <= i < zlen bs -> read_adler (d ++ words (map adler bs) ++ junk) i = Some (adler (znth [] bs i)).
Proof.
  intros Hd Hi. unfold read_adler. pose proof (zlen_nonneg junk).
  rewrite !zlen_app, zlen_words, Hd, zlen_map. rewrite (proj2 (Z.ltb_ge _ _)) by lia. f_equal.
  assert (E : words (map adler bs) = words (map adler (ztake i bs)) ++ le_bytes 4 (adler (znth [] bs i)) ++ words (map adler (zdrop (i + 1) bs))).
  { rewrite <- (take_drop_middle bs (Z.to_nat i) (znth [] bs i)) at 1 by (apply lookup_znth; lia).
    rewrite map_app, words_app. unfold ztake, zdrop. cbn [map]. unfold words at 2. cbn [map concat].
    do 3 f_equal. unfold words. do 4 f_equal. lia. }
  rewrite E, app_assoc, <- !app_assoc, (app_assoc d).
  rewrite zsub_app_zlen; [| |by rewrite zlen_le_bytes].
  - rewrite le_val_le_bytes. apply Z.mod_small. apply adler_range.
  - rewrite zlen_app, zlen_words, Hd, zlen_map, zlen_ztake by lia. lia.
Qed.

(** The small blocks of a block: all of 4096 bytes but the last. *)
Definition smalls (bs : list bytes) : Prop :=
  forall i, 0 <= i < zlen bs -> 0 < zlen (znth [] bs i) <= SB /\ (i + 1 < zlen bs -> zlen (znth [] bs i) = SB).
Lemma cut_smalls b : smalls (cut SB b).
Proof.
  remember (length b) as k eqn:Hk. revert b Hk. induction k as [k IH] using lt_wf_ind. intros b ->.
  destruct b as [|x b]; [intros i; change (zlen (cut SB [])) with 0; lia|]. set (y := x :: b). rewrite cut_step by done.
  assert (Hy : 0 < zlen y) by (unfold y; rewrite zlen_cons; pose proof (zlen_nonneg b); lia).
  intros i. rewrite zlen_cons. intros Hi. destruct (decide (i = 0)) as [->|Hne].
  - rewrite znth_cons_0, zlen_ztake by done. unfold SB in *. split; [lia|]. intros Hc.
    destruct (Z.le_gt_cases (zlen y) 4096) as [Hle|]; [|lia]. rewrite zdrop_ge, cut_nil in Hc by done. change (zlen (@nil bytes)) with 0 in Hc. lia.
  - rewrite znth_cons_S by lia. destruct (IH (length (zdrop SB y))) with (b := zdrop SB y) (i := i - 1) as [H1 H2]; [|done|lia|].
    + unfold zdrop. rewrite length_drop. unfold y. cbn [length]. assert (0 < Z.to_nat SB)%nat by (apply Nat.ltb_lt; vm_compute; done). lia.
    + split; [done|]. intros. apply H2. lia.
Qed.

Lemma col_few j bs : 0 <= j < 12 -> zlen bs <= 12 -> col j bs = if j <? zlen bs then znth [] bs j else [].
Proof.
  intros Hj. induction bs as [|p bs IH] using rev_ind; intros Hl.
  - change (zlen (@nil bytes)) with 0. by rewrite (proj2 (Z.ltb_ge j 0)) by lia.
  - rewrite zlen_app in *. change (zlen [p]) with 1 in *. pose proof (zlen_nonneg bs). rewrite col_snoc, IH by lia.
    rewrite (Z.mod_small (zlen bs)) by lia. destruct (Z.eqb_spec (zlen bs) j) as [<-|Hne].
    + rewrite Z.ltb_irrefl, (proj2 (Z.ltb_lt _ _)), znth_app_r, Z.sub_diag by lia. done.
    + rewrite app_nil_r. destruct (Z.ltb_spec j (zlen bs)).
      * by rewrite (proj2 (Z.ltb_lt _ _)), znth_app_l by lia.
      * by rewrite (proj2 (Z.ltb_ge _ _)) by lia.
Qed.

Lemma smalls_tail b bs : smalls (b :: bs) -> smalls bs.
Proof.
  intros H i Hi. specialize (H (i + 1)). rewrite zlen_cons, znth_cons_S in H by lia.
  replace (i + 1 - 1) with i in H by lia. destruct H as [H1 H2]; [lia|]. split; [done|]. intros. apply H2. lia.
Qed.
Lemma smalls_total bs : bs <> [] -> smalls bs -> zlen (concat bs) = SB * (zlen bs - 1) + zlen (znth [] bs (zlen bs - 1)).
Proof.
  induction bs as [|b bs IH]; intros Hne Hs; [done|]. cbn [concat]. rewrite zlen_app, zlen_cons.
  pose proof (zlen_nonneg bs) as Hn. destruct (Hs 0) as [H1 H2]; [rewrite zlen_cons; lia|]. rewrite znth_cons_0 in H1, H2. rewrite zlen_cons in H2.
  destruct bs as [|b2 bs].
  - change (zlen (concat [])) with 0. change (zlen (@nil bytes)) with 0. change (0 + 1 - 1) with 0. rewrite znth_cons_0. lia.
  - set (r := b2 :: bs) in *. assert (1 <= zlen r) by (unfold r; rewrite zlen_cons; pose proof (zlen_nonneg bs); lia).
    rewrite (IH ltac:(done) (smalls_tail _ _ Hs)), (H2 ltac:(lia)), (znth_cons_S _ b) by lia.
    replace (zlen r + 1 - 1 - 1) with (zlen r - 1) by lia. lia.
Qed.
(** The length the last small block is combined with. *)
Lemma smalls_len bs i :
  smalls bs -> 0 <= i < zlen bs ->
  (if (i + 1 =? zlen bs) && negb (zlen (concat bs) mod SB =? 0) then zlen (concat bs) mod SB else SB) = zlen (znth [] bs i).
Proof.
  intros Hs Hi. destruct (Hs i Hi) as [H1 H2]. destruct (Z.eqb_spec (i + 1) (zlen bs)) as [E|E]; cbn [andb]; [|rewrite H2; lia].
  assert (bs <> []) by (intros ->; change (zlen (@nil bytes)) with 0 in Hi; lia). rewrite smalls_total by done. replace (zlen bs - 1) with i by lia.
  rewrite Z.add_comm, Z.mul_comm, Z.mod_add by done. destruct (decide (zlen (znth [] bs i) = SB)) as [->|Hlt].
  - by rewrite Z.mod_same.
  - rewrite Z.mod_small by lia. by rewrite (proj2 (Z.eqb_neq _ _)) by lia.
Qed.
Lemma ztake_snoc (bs : list bytes) i : 0 <= i < zlen bs -> ztake (i + 1) bs = ztake i bs ++ [znth [] bs i].
Proof.
  intros Hi. unfold ztake. replace (Z.to_nat (i + 1)) with (S (Z.to_nat i)) by lia.
  apply take_S_r. by apply lookup_znth.
Qed.

Lemma combine_adlers_ok d bs junk fuel : forall i,
  zlen d = 16 -> smalls bs -> 12 <= i -> (i <= zlen bs -> (Z.to_nat (zlen bs - i) <= fuel)%nat) ->
  combine_adlers fuel (d ++ words (map adler bs) ++ junk) (zlen (concat bs)) (zlen bs) i (col_adlers (ztake i bs)) = Some (col_adlers bs).
Proof.
  induction fuel as [|fuel IH]; intros i Hd Hs Hi Hf; cbn [combine_adlers].
  - rewrite (proj2 (Z.ltb_ge _ _)) by lia. by rewrite ztake_ge by lia.
  - destruct (Z.ltb_spec i (zlen bs)); [|by rewrite ztake_ge by lia].
    rewrite read_adler_words by (done || lia). cbn [mbind option_bind]. rewrite smalls_len by (done || lia).
    destruct (Hs i) as [Hp _]; [lia|]. pose proof (Z.mod_pos_bound i 12 ltac:(lia)).
    rewrite znth_col_adlers, adler_combine by (done || (unfold SB in *; lia)).
    assert (Ei : zlen (ztake i bs) = i) by (rewrite zlen_ztake; lia).
    pose proof (col_adlers_snoc (ztake i bs) (znth [] bs i)) as E. rewrite Ei in E. rewrite <- E, <- ztake_snoc by lia.
    apply IH; [done|done|lia|lia].
Qed.

Lemma allAdlerTo64byteHash_ok d bs junk :
  zlen d = 16 -> smalls bs -> zlen bs < 2 ^ 32 ->
  allAdlerTo64byteHash (d ++ words (map adler bs) ++ junk) (16 + 4 * zlen bs) (zlen (concat bs)) = Some (d ++ words (col_adlers bs)).
Proof.
  intros Hd Hs Hl. pose proof (zlen_nonneg bs). unfold allAdlerTo64byteHash.
  replace (16 + 4 * zlen bs - 16) with (zlen bs * 4) by lia. rewrite w64_id, Z.div_mul by lia.
  set (h := d ++ _). assert (Hh : zlen h = 16 + 4 * zlen bs + zlen junk).
  { unfold h. rewrite !zlen_app, Hd, zlen_words, zlen_map. lia. }
  pose proof (zlen_nonneg junk). rewrite (proj2 (Z.ltb_ge _ _)) by lia.
  assert (E : mapM (fun i => if zlen bs <=? i then Some no_adler else read_adler h i) (map Z.of_nat (seq 0 12)) = Some (col_adlers (ztake 12 bs))).
  { apply mapM_Some, Forall2_fmap_2, Forall_Forall2_diag. apply List.Forall_forall. intros j Hj%in_seq.
    assert (Hz : zlen (ztake 12 bs) = Z.min 12 (zlen bs)) by (by rewrite zlen_ztake).
    rewrite col_few by lia. rewrite Hz. destruct (Z.leb_spec (zlen bs) (Z.of_nat j)).
    - by rewrite (proj2 (Z.ltb_ge _ _)) by lia.
    - rewrite (proj2 (Z.ltb_lt _ _)) by lia. unfold h. rewrite read_adler_words by (done || lia). rewrite znth_ztake by lia. done. }
  rewrite E. cbn [mbind option_bind]. pose proof (combine_adlers_ok d bs junk (length h) 12 Hd Hs ltac:(lia)) as C. fold h in C.
  rewrite C by (intros; unfold zlen in *; lia). cbn [mbind option_bind]. rewrite <- Hd at 1. unfold h. by rewrite ztake_app_zlen.
Qed.

(** ** The streaming object *)

Import TreeHash.

Section Stream.
Context {Out : Type} `{IHashOutput Out}.
Notation th_t := (TreeHash.t Out).

(** The finished part: leaves, extents, how much was hashed, what was output. *)
Record tree_of (leaves : list bytes) (sp : option bytes) (pos : Z) (out : option Out) (th : th_t) : Prop := {
  tr_rep : rep leaves (level_hash th);
  tr_wait : waiting (level_hash th);
  tr_has : has_sparse th = bool_decide (is_Some sp);
  tr_ctx : sha_of v512 sha512_initial_hash_value (default [] sp) (sparse_ctx th);
  tr_pos : hash_pos th = pos;
  tr_out : hash_output th = out }.

(** The block in progress. *)
Record block_of (cur : bytes) (th : th_t) : Prop := {
  bk_md5 : md5_of cur (md5sum th);
  bk_adlers : adlers th = col_adlers (cut SB cur);
  bk_all : hash_output th <> None -> zlen (hash_all_adlers th) = 528 /\
           zsub 16 (4 * zlen (cut SB cur)) (hash_all_adlers th) = words (map adler (cut SB cur)) }.

Definition hashing leaves sp cur pos out (th : th_t) : Prop :=
  tree_of leaves sp pos out th /\ block_of cur th /\ offset th = zlen cur /\ zlen cur < BS.

Lemma init_hashing mem out : zlen (MD5.buffer mem) = 64 -> hashing [] None [] 0 out (TreeHash.init mem out).
Proof.
  intros Hm. split_and!; [| |done|done].
  - split; cbn; [by apply rep_top|by split; apply Forall_singleton|done|apply (init_sha v512)|done|done].
  - split; cbn [md5sum adlers hash_all_adlers hash_output TreeHash.init]; [by apply init_of|done|]. intros Ho. by destruct out.
Qed.

Lemma addHash_ok leaves sp pos out th h n :
  tree_of leaves sp pos out th -> offset th = 0 -> zlen h = 64 -> 0 <= pos + n < 2 ^ 63 ->
  exists th', addHash h n th = Some th' /\ tree_of (leaves ++ [h]) sp (pos + n) out th' /\
    (offset th', md5sum th', adlers th', hash_all_adlers th') = (0, md5sum th, adlers th, hash_all_adlers th).
Proof.
  intros [] Ho Hh Hp. unfold addHash. rewrite Ho, Hh. cbn [Z.eqb negb]. rewrite Z.ltb_irrefl.
  rewrite ztake_ge by lia. destruct (add_levels_ok h leaves (level_hash th)) as (E & Hr & Hw); [done|done|lia|].
  rewrite E. cbn [mbind option_bind]. eexists. split; [reflexivity|]. rewrite tr_pos0, s64_id by lia. split; [by split|].
  done.
Qed.

Lemma addHashAllAdler_ok leaves sp pos out th b junk :
  hashing leaves sp [] pos out th -> 0 < zlen b < 2 ^ 32 -> 0 <= pos -> pos + zlen b < 2 ^ 63 ->
  exists th', addHashAllAdler (all_adlers b ++ junk) (16 + 4 * zlen (cut SB b)) (zlen b) th = Some th' /\
    hashing (leaves ++ [leaf b]) sp [] (pos + zlen b) out th'.
Proof.
  intros (Ht & Hb & Ho & _) Hl Hp Hp2. unfold addHashAllAdler. change (zlen (@nil ascii)) with 0 in Ho. rewrite Ho. cbn [Z.eqb negb].
  pose proof (allAdlerTo64byteHash_ok (md5_spec b) (cut SB b) junk (zlen_md5_spec b) (cut_smalls b)) as E.
  rewrite concat_cut in E by done. unfold all_adlers. rewrite <- app_assoc, E.
  - cbn [mbind option_bind]. fold (leaf b). destruct (addHash_ok leaves sp pos out th (leaf b) (zlen b)) as (th' & E' & Ht' & [= E1 E2 E3 E4]);
      [done|done|apply zlen_leaf|lia|].
    exists th'. split; [done|]. split_and!; [done| |done|done]. destruct Ht, Ht', Hb. by split; rewrite ?E2, ?E3, ?E4, ?tr_out1, <- ?tr_out0.
  - unfold zlen at 1. rewrite cut_length; [|done|intros ->; change (zlen (@nil ascii)) with 0 in Hl; lia].
    apply Z.div_lt_upper_bound; [done|]. unfold SB. lia.
Qed.

Definition emit (pos : Z) (all : bytes) (out : option Out) : option Out := (fun o => hash_output_all_adlers o pos all) <$> out.

Lemma finalize_curr_ok leaves sp cur pos out th :
  tree_of leaves sp pos out th -> block_of cur th -> offset th = 0 -> 0 <= pos < 2 ^ 63 ->
  exists th', finalize_curr th = Some th' /\
    hashing (leaves ++ [leaf cur]) sp [] pos (emit pos (zsplice 0 (md5_spec cur) (hash_all_adlers th)) out) th'.
Proof.
  intros Ht [Hm Ha Hall] Ho Hp. unfold finalize_curr. destruct (finalize_of cur (md5sum th) Hm) as (E1 & E2 & E3).
  unfold MD5.raw_digest_int. rewrite E1, E2. cbn [mbind option_bind]. rewrite ztake_ge by (rewrite zlen_md5_spec; lia).
  rewrite Ha. change (concat (map (le_bytes 4) ?l)) with (words l). fold (leaf cur).
  pose proof (tr_out _ _ _ _ _ Ht) as Eo. rewrite Eo in *. set (all := zsplice 0 (md5_spec cur) (hash_all_adlers th)).
  set (p := match out with Some _ => _ | None => _ end).
  assert (Ep : snd p = emit pos all out /\ (out <> None -> zlen (fst p) = 528)).
  { unfold p. destruct out as [o|]; [|done]. cbn [fst snd emit fmap option_fmap option_map]. rewrite (tr_pos _ _ _ _ _ Ht). split; [done|].
    intros Hn. destruct (Hall Hn) as [Hl _]. unfold all. rewrite zlen_zsplice; rewrite ?zlen_md5_spec; lia. }
  destruct p as [all' out']. cbn [fst snd] in Ep. destruct Ep as [-> Hz].
  set (th0 := mk _ _ _ _ _ _ _ _ _). assert (Ht0 : tree_of leaves sp pos (emit pos all out) th0) by (destruct Ht; by split).
  destruct (addHash_ok _ _ _ _ th0 (leaf cur) 0 Ht0 Ho (zlen_leaf cur)) as (th' & -> & Ht' & [= F1 F2 F3 F4]); [lia|].
  cbn [mbind option_bind]. rewrite Z.add_0_r in Ht'. eexists. split; [reflexivity|]. split_and!; cbn [offset]; [|split| |done].
  - destruct Ht'. by split.
  - cbn [md5sum]. by apply init_of.
  - done.
  - cbn [hash_output hash_all_adlers]. rewrite F4. cbn [hash_all_adlers th0]. rewrite (tr_out _ _ _ _ _ Ht'). intros Hn. split; [|done].
    apply Hz. intros ->. by apply Hn.
  - rewrite F1. done.
Qed.

Lemma zsub_ztake {A} i n (l : list A) : 0 <= i -> 0 <= n -> zsub i n l = zdrop i (ztake (i + n) l).
Proof. intros. unfold zsub, zdrop, ztake. rewrite take_drop_commute. do 2 f_equal. lia. Qed.

Lemma zlen_cut_whole (b : bytes) : zlen b mod SB = 0 -> zlen (cut SB b) = zlen b / SB.
Proof.
  intros Hm. destruct b as [|x b]; [done|]. unfold zlen at 1. rewrite cut_length by done. set (y := x :: b) in *.
  pose proof (Z.div_mod (zlen y) SB ltac:(done)). symmetry. apply Z.div_unique with (SB - 1); unfold SB in *; lia.
Qed.
Lemma cut_snoc (cur p : bytes) : zlen cur mod SB = 0 -> 0 < zlen p <= SB -> cut SB (cur ++ p) = cut SB cur ++ [p].
Proof.
  intros Hm Hp. rewrite cut_app_whole by done. f_equal. apply cut_piece; [|lia].
  intros ->. change (zlen (@nil ascii)) with 0 in Hp. lia.
Qed.

(** A whole block leaves its chunk hashes in the output buffer. *)
Lemma full_block cur th : block_of cur th -> zlen cur = BS -> hash_output th <> None ->
  zsplice 0 (md5_spec cur) (hash_all_adlers th) = all_adlers cur.
Proof.
  intros [_ _ Hall] Hl Ho. destruct (Hall Ho) as [Hz Hs]. unfold all_adlers, zsplice. rewrite <- Hs, ztake_0, zlen_md5_spec.
  cbn [app]. f_equal. rewrite zlen_cut_whole, Hl by (rewrite Hl; done). change (0 + 16) with 16. unfold zsub.
  rewrite ztake_ge; [done|]. rewrite zlen_zdrop, Hz by lia. done.
Qed.

Lemma add_adler_ok cur p th :
  block_of cur th -> zlen cur mod SB = 0 -> 0 < zlen p <= SB -> zlen cur + zlen p <= BS ->
  exists ads all, add_adler (zlen cur) p th = Some (ads, all) /\ ads = col_adlers (cut SB (cur ++ p)) /\
    (hash_output th <> None -> zlen all = 528 /\ zsub 16 (4 * zlen (cut SB (cur ++ p))) all = words (map adler (cut SB (cur ++ p)))).
Proof.
  intros [_ Ha Hall] Hm Hp Hl. unfold add_adler. rewrite <- zlen_cut_whole, cut_snoc, Ha by done.
  set (bs := cut SB cur) in *. pose proof (Z.mod_pos_bound (zlen bs) 12 ltac:(lia)). rewrite znth_col_adlers by done.
  assert (Hp32 : zlen p < 2 ^ 32) by (unfold SB in *; lia).
  destruct (hash_output th) as [o|].
  - destruct (Hall ltac:(done)) as [Hz Hs]. pose proof (zlen_nonneg bs). pose proof (zlen_nonneg cur).
    assert (Hb : zlen bs < 128).
    { unfold bs. rewrite zlen_cut_whole by done. apply Z.div_lt_upper_bound; [done|]. unfold SB, BS in *. lia. }
    rewrite (proj2 (Z.ltb_ge _ _)) by lia. do 2 eexists. split; [done|]. split.
    + rewrite col_adlers_snoc, adler_first, adler_combine by done. done.
    + intros _. replace (16 + zlen bs * 4) with (16 + 4 * zlen bs) by lia. set (w := le_bytes 4 _).
      assert (Hw : zlen w = 4) by apply zlen_le_bytes. split; [rewrite zlen_zsplice; lia|].
      rewrite zlen_app. change (zlen [p]) with 1. rewrite zsub_ztake by lia.
      replace (16 + 4 * (zlen bs + 1)) with (16 + 4 * zlen bs + zlen w) by lia.
      rewrite ztake_zsplice, zdrop_app_le, <- zsub_ztake, Hs by (rewrite ?zlen_ztake; lia).
      rewrite map_app, words_app. f_equal. unfold w. rewrite adler_first by done. unfold words. cbn [map concat]. by rewrite app_nil_r.
  - do 2 eexists. split; [done|]. split; [|done]. by rewrite col_adlers_snoc, adler_more.
Qed.

(** After the bytes [d] of a block. *)
Definition after leaves sp d pos out (th : th_t) : Prop :=
  if zlen d =? BS then hashing (leaves ++ [leaf d]) sp [] pos (emit pos (all_adlers d) out) th
  else hashing leaves sp d pos out th.

Lemma hash_loop_ok leaves sp out fuel : forall cur pos th buf buf_off,
  hashing leaves sp cur pos out th -> zlen cur mod SB = 0 -> 0 <= buf_off <= zlen buf ->
  zlen cur + (zlen buf - buf_off) <= BS -> 0 <= pos -> pos + (zlen buf - buf_off) < 2 ^ 63 -> (Z.to_nat (zlen buf - buf_off) <= fuel)%nat ->
  zlen buf < 2 ^ 32 ->
  exists th', hash_loop fuel buf (zlen cur) (zlen cur + (zlen buf - buf_off)) buf_off th = Some th' /\
    after leaves sp (cur ++ zdrop buf_off buf) (pos + (zlen buf - buf_off)) out th'.
Proof.
  induction fuel as [|fuel IH]; intros cur pos th buf off Hh Hm Hoff Hl Hp Hp2 Hf Hb32; cbn [hash_loop].
  - rewrite (proj2 (Z.ltb_ge _ _)) by lia. exists th. split; [done|]. rewrite zdrop_ge, app_nil_r by lia. unfold after.
    destruct Hh as (? & ? & ? & ?). rewrite (proj2 (Z.eqb_neq _ _)) by lia. replace (pos + (zlen buf - off)) with pos by lia. by split.
  - destruct (decide (off = zlen buf)) as [->|Hne].
    { rewrite (proj2 (Z.ltb_ge _ _)) by lia. exists th. split; [done|]. rewrite zdrop_ge, app_nil_r by lia. unfold after.
      destruct Hh as (? & ? & ? & ?). rewrite (proj2 (Z.eqb_neq _ _)) by lia. replace (pos + (zlen buf - zlen buf)) with pos by lia. by split. }
    rewrite (proj2 (Z.ltb_lt _ _)) by lia. destruct Hh as (Ht & Hb & Ho & Hc). rewrite Ho, Hm. cbn [Z.eqb negb].
    replace (zlen cur + (zlen buf - off) - zlen cur) with (zlen buf - off) by lia.
    set (n := Z.min SB (zlen buf - off)). assert (Hn : 0 < n <= SB /\ n <= zlen buf - off) by (unfold n, SB; lia).
    rewrite (proj2 (Z.ltb_ge _ _)) by lia. set (p := zsub off n buf).
    assert (Hpl : zlen p = n) by (unfold p; apply zlen_zsub; lia).
    destruct (add_adler_ok cur p th) as (ads & all & -> & Eads & Eall); [done|done|lia|lia|]. cbn [mbind option_bind].
    assert (BS32 : BS < 2 ^ 31) by done. pose proof (zlen_nonneg cur). pose proof (zlen_nonneg buf).
    rewrite (w32_id (zlen cur + n)), (w32_id (off + n)), (w32_id (zlen cur + SB)) by (unfold SB in *; lia).
    cbn [offset has_sparse sparse_ctx md5sum adlers hash_all_adlers hash_output hash_pos level_hash].
    rewrite (tr_pos _ _ _ _ _ Ht), s64_id by lia.
    set (th1 := mk (zlen cur + n) _ _ _ _ _ _ _ _). rewrite (proj2 (Z.ltb_ge _ _)) by lia.
    assert (Ht1 : forall o, tree_of leaves sp (pos + n) out (set_level_hash o (level_hash th1) th1)) by (intros; destruct Ht; by split).
    assert (Hb1 : forall o, block_of (cur ++ p) (set_level_hash o (level_hash th1) th1)).
    { intros o. split; [|done|done]. apply update_of; [apply Hb|]. unfold SB in *. lia. }
    assert (Hz1 : zlen (cur ++ p) = zlen cur + n) by (rewrite zlen_app; lia).
    assert (Esplit : zdrop off buf = p ++ zdrop (off + n) buf).
    { rewrite <- zdrop_zdrop, <- (ztake_zdrop n (zdrop off buf)) at 1 by lia. done. }
    destruct (Z.eqb_spec (zlen cur + n) BS) as [Efull|Epart].
    + assert (off + n = zlen buf) by lia. rewrite (proj2 (Z.ltb_ge BS _)) by lia.
      destruct (finalize_curr_ok leaves sp (cur ++ p) (pos + n) out _ (Ht1 0) (Hb1 0) eq_refl) as (th' & E & Hh'); [lia|].
      change (mk 0 _ _ _ _ _ _ _ _) with (set_level_hash 0 (level_hash th1) th1). rewrite E. cbn [mbind option_bind].
      exists th'. split.
      * destruct fuel; cbn [hash_loop]; by rewrite (proj2 (Z.ltb_ge _ _)) by lia.
      * rewrite Esplit, (zdrop_ge (off + n)), app_nil_r by lia. unfold after. rewrite Hz1, (proj2 (Z.eqb_eq _ _)) by done.
        replace (pos + (zlen buf - off)) with (pos + n) by lia.
        destruct out as [o|]; [|exact Hh']. rewrite full_block in Hh'; [exact Hh'|apply Hb1|by rewrite Hz1|].
        cbn. by rewrite (tr_out _ _ _ _ _ Ht).
    + assert (Hh1 : hashing leaves sp (cur ++ p) (pos + n) out th1).
      { split_and!; [apply (Ht1 (offset th1))|apply (Hb1 (offset th1))|by rewrite Hz1|lia]. }
      destruct (decide (n = SB)) as [En|En].
      * assert (Hm1 : zlen (cur ++ p) mod SB = 0).
        { rewrite Hz1, En. replace (zlen cur + SB) with (zlen cur + 1 * SB) by lia. by rewrite Z.mod_add. }
        destruct (IH (cur ++ p) (pos + n) th1 buf (off + n)) as (th' & E & Ha); [done|done|lia|lia|lia|lia|lia|done|].
        exists th'. rewrite Hz1 in E. replace (zlen cur + n + (zlen buf - (off + n))) with (zlen cur + (zlen buf - off)) in E by lia.
        rewrite <- En. split; [exact E|]. rewrite <- app_assoc, <- Esplit in Ha.
        by replace (pos + (zlen buf - off)) with (pos + n + (zlen buf - (off + n))) by lia.
      * assert (off + n = zlen buf) by (unfold n in *; lia). exists th1. split.
        -- destruct fuel; cbn [hash_loop]; by rewrite (proj2 (Z.ltb_ge _ _)) by (unfold SB in *; lia).
        -- rewrite Esplit, (zdrop_ge (off + n)), app_nil_r by lia. unfold after. rewrite Hz1, (proj2 (Z.eqb_neq _ _)) by lia.
           by replace (pos + (zlen buf - off)) with (pos + n) by lia.
Qed.

(** One call of [hash], from the start of a small block to at most the end of the block. *)
Lemma hash_ok leaves sp out cur pos th buf :
  hashing leaves sp cur pos out th -> zlen cur mod SB = 0 -> zlen cur + zlen buf <= BS -> 0 <= pos -> pos + zlen buf < 2 ^ 63 ->
  exists th', TreeHash.hash buf th = Some th' /\ after leaves sp (cur ++ buf) (pos + zlen buf) out th'.
Proof.
  intros Hh Hm Hl Hp Hp2. pose proof Hh as (_ & _ & Ho & Hc). pose proof (zlen_nonneg cur). pose proof (zlen_nonneg buf).
  assert (BS32 : BS < 2 ^ 31) by done. unfold TreeHash.hash. rewrite Ho, (proj2 (Z.eqb_neq _ _)), w32_id by (unfold UINT_MAX; lia).
  pose proof (hash_loop_ok leaves sp out (S (length buf)) cur pos th buf 0 Hh Hm) as L. rewrite Z.sub_0_r, zdrop_0 in L.
  apply L; try lia. unfold zlen. lia.
Qed.

Lemma sparse_hash_ok leaves sp out cur pos th e :
  hashing leaves sp cur pos out th -> zlen e < 2 ^ 61 ->
  exists th', TreeHash.sparse_hash e th = Some th' /\ hashing leaves (Some (default [] sp ++ e)) cur pos out th'.
Proof.
  intros (Ht & Hb & Ho & Hc) He. assert (BS32 : BS < 2 ^ 31) by done. unfold TreeHash.sparse_hash.
  rewrite Ho, (proj2 (Z.eqb_neq _ _)) by (unfold UINT_MAX; lia). eexists. split; [reflexivity|]. split_and!; [|by destruct Hb; split|done|done].
  destruct Ht. split; try done. by apply (update_sha v512).
Qed.

(** ** The hash of a file *)

Definition treehash_spec (blocks : list bytes) (sp : option bytes) : bytes :=
  match blocks, sp with
  | [], _ => sha512_spec []
  | _, None => tree_root (map leaf blocks)
  | _, Some e => sha512_spec (e ++ tree_root (map leaf blocks))
  end.

Lemma root_loop_small n : forall l, Forall (fun x => zlen x <= 64) l -> zlen (root_loop n l) <= 64.
Proof.
  induction n as [|n IH]; intros l Hl; destruct l as [|x [|y l]]; cbn [root_loop];
    try apply sha512_spec_small; try by inversion_clear Hl.
  apply IH, List.Forall_forall. intros z (g & <- & _)%in_map_iff. apply sha512_spec_small.
Qed.
Lemma tree_root_small l : Forall (fun x => zlen x <= 64) l -> zlen (tree_root l) <= 64.
Proof. apply root_loop_small. Qed.

Lemma sha512_final_of msg c : sha_of v512 sha512_initial_hash_value msg c -> sha512_final c = sha512_spec msg.
Proof.
  Transparent sha512_spec. intros Hc. apply (output_spec v512 _ length512 8 _ _ Hc). Opaque sha512_spec.
  rewrite (so_count _ _ _ _ Hc). apply length512_spec.
Qed.

Lemma finalize_tree blocks sp pos out th :
  tree_of (map leaf blocks) sp pos out th -> offset th = 0 ->
  exists th', finalize th = Some (treehash_spec blocks sp, th').
Proof.
  intros Ht Ho. unfold finalize. rewrite Ho. cbn [Z.eqb negb mbind option_bind]. destruct Ht.
  destruct (decide (blocks = [])) as [->|Hne].
  - apply rep_nil in tr_rep0 as ->. cbn [length]. rewrite finalize_levels_nil. cbn [mbind option_bind length Nat.eqb andb nth].
    rewrite sha512_nothing. by eexists.
  - destruct (finalize_levels_root _ _ tr_rep0 tr_wait0) as (ls & t & ls' & t' & -> & Ec & Et & -> & Et' & Eh); [by destruct blocks|].
    cbn [mbind option_bind]. rewrite Ec, Et. cbn [mbind option_bind]. rewrite Et'. cbn [mbind option_bind]. rewrite Eh. cbn [mbind option_bind].
    cbn [has_sparse sparse_ctx set_level_hash]. rewrite tr_has0. unfold treehash_spec. destruct blocks as [|b blocks]; [done|].
    assert (Hs : zlen (tree_root (map leaf (b :: blocks))) <= 64).
    { apply tree_root_small. apply List.Forall_forall. intros x (y & <- & _)%in_map_iff. rewrite zlen_leaf. lia. }
    destruct sp as [e|]; eexists; [|reflexivity]. rewrite bool_decide_true by by eexists.
    rewrite (sha512_final_of (e ++ tree_root (map leaf (b :: blocks)))); [done|]. apply (update_sha v512); [done|lia].
Qed.

(** A last block that is not complete. *)
Lemma finalize_ok blocks sp cur pos out th :
  hashing (map leaf blocks) sp cur pos out th -> 0 <= pos < 2 ^ 63 ->
  exists th', finalize th = Some (treehash_spec (blocks ++ match cur with [] => [] | _ => [cur] end) sp, th').
Proof.
  intros (Ht & Hb & Ho & Hc) Hp. destruct cur as [|x cur].
  - rewrite app_nil_r. by apply finalize_tree with pos out.
  - set (b := x :: cur) in *. assert (Hb0 : 0 < zlen b) by (unfold b; rewrite zlen_cons; pose proof (zlen_nonneg cur); lia).
    set (th0 := set_level_hash 0 (level_hash th) th).
    destruct (finalize_curr_ok (map leaf blocks) sp b pos out th0) as (th1 & E & (Ht1 & _ & Ho1 & _)); [by destruct Ht|by destruct Hb|done|done|].
    destruct (finalize_tree (blocks ++ [b]) sp pos (emit pos (zsplice 0 (md5_spec b) (hash_all_adlers th0)) out) th1) as (th' & E'); [by rewrite map_app; exact Ht1|done|].
    exists th'. rewrite <- E'. unfold finalize. rewrite Ho, Ho1, (proj2 (Z.eqb_neq _ _)) by lia. cbn [negb]. fold th0. by rewrite E.
Qed.
End Stream.
