(* ===== verification/TreeTheorems.v ===== *)
(** Tree hashes: the hash of a file does not depend on how its blocks were given. *)
From S2P Require Import Prelude Adler BlockHash Md5 Sha2 TreeHash TreeRoot TreeSpec.

(** What a tree hash object is given: a block's contents, in pieces; the chunk
    hashes of a block; an extent of zeros (its offset and length). *)
Inductive step := Contents (pieces : list bytes) | ChunkHashes (b : bytes) | SparseExtent (e : bytes).
Definition block_of_step (s : step) : list bytes :=
  match s with Contents ps => [concat ps] | ChunkHashes b => [b] | SparseExtent _ => [] end.
Definition sparse_of_step (s : step) : option bytes := match s with SparseExtent e => Some e | _ => None end.
Definition blocks (ss : list step) : list bytes := concat (map block_of_step ss).
Definition add_sparse (sp : option bytes) (s : step) : option bytes :=
  match s with SparseExtent e => Some (default [] sp ++ e) | _ => sp end.

(** Every piece but the last ends at the end of a small block. *)
Fixpoint pieces_ok (ps : list bytes) : Prop :=
  match ps with
  | [] => True
  | p :: ps => p <> [] /\ (ps = [] \/ zlen p mod SB = 0) /\ pieces_ok ps
  end.
(** Every block is complete but the last one, which has at least one byte. *)
Fixpoint steps_ok (ss : list step) : Prop :=
  match ss with
  | [] => True
  | s :: ss =>
      (match s with
       | Contents ps => pieces_ok ps
       | ChunkHashes _ => True
       | SparseExtent e => zlen e < 2 ^ 61
       end) /\
      Forall (fun b => 0 < zlen b <= BS /\ (zlen b = BS \/ blocks ss = [])) (block_of_step s) /\ steps_ok ss
  end.

Section Feed.
Context {Out : Type} `{IHashOutput Out}.
Notation th_t := (TreeHash.t Out).

Definition feed (th : option th_t) (s : step) : option th_t :=
  th ← th;
  match s with
  | Contents ps => foldl (fun th p => th ← th; TreeHash.hash p th) (Some th) ps
  | ChunkHashes b => TreeHash.addHashAllAdler (all_adlers b) (zlen (all_adlers b)) (zlen b) th
  | SparseExtent e => TreeHash.sparse_hash e th
  end.

(** The chunk hashes that go out: of every complete block given as contents. *)
Fixpoint outputs (pos : Z) (ss : list step) (out : option Out) : option Out :=
  match ss with
  | [] => out
  | s :: ss =>
      let pos' := pos + zlen (concat (block_of_step s)) in
      outputs pos' ss
        (match s with
         | Contents ps => if zlen (concat ps) =? BS then emit pos' (all_adlers (concat ps)) out else out
         | _ => out
         end)
  end.

Lemma pieces_nonempty ps : pieces_ok ps -> zlen (concat ps) = 0 -> ps = [].
Proof.
  destruct ps as [|[|x p] ps]; [done|by intros [? _]|]. intros _. cbn [concat app]. rewrite zlen_cons.
  pose proof (zlen_nonneg (p ++ concat ps)). lia.
Qed.

Lemma feed_pieces leaves sp out ps : forall cur pos (th : th_t),
  hashing leaves sp cur pos out th -> pieces_ok ps -> zlen cur mod SB = 0 -> zlen cur + zlen (concat ps) <= BS ->
  0 <= pos -> pos + zlen (concat ps) < 2 ^ 63 ->
  exists th', foldl (fun th p => th ← th; TreeHash.hash p th) (Some th) ps = Some th' /\
    after leaves sp (cur ++ concat ps) (pos + zlen (concat ps)) out th'.
Proof.
  induction ps as [|p ps IH]; intros cur pos th Hh Hok Hm Hl Hp Hp2; cbn [foldl concat] in *.
  - exists th. split; [done|]. rewrite app_nil_r. unfold after. pose proof Hh as (_ & _ & _ & Hc).
    rewrite (proj2 (Z.eqb_neq _ _)) by lia. change (zlen (@nil ascii)) with 0. by rewrite Z.add_0_r.
  - destruct Hok as (Hne & Hal & Hok). rewrite zlen_app in *. pose proof (zlen_nonneg (concat ps)). pose proof (zlen_nonneg p).
    destruct (hash_ok leaves sp out cur pos th p) as (th1 & E & Ha); [done|done|lia|lia|lia|].
    cbn [mbind option_bind]. rewrite E. unfold after in Ha. rewrite zlen_app in Ha.
    destruct (Z.eqb_spec (zlen cur + zlen p) BS) as [Efull|Epart].
    + assert (ps = []) as -> by (apply pieces_nonempty; [done|lia]). cbn [foldl concat]. rewrite app_nil_r.
      exists th1. split; [done|]. unfold after. rewrite zlen_app, (proj2 (Z.eqb_eq _ _)) by done.
      change (zlen (@nil ascii)) with 0. by rewrite Z.add_0_r.
    + destruct Hal as [->|Hal].
      * cbn [foldl concat]. rewrite app_nil_r. exists th1. split; [done|]. unfold after. rewrite zlen_app, (proj2 (Z.eqb_neq _ _)) by done.
        change (zlen (@nil ascii)) with 0. by rewrite Z.add_0_r.
      * destruct (IH (cur ++ p) (pos + zlen p) th1) as (th' & E' & Ha'); [done|done| |rewrite zlen_app; lia|lia|lia|].
        { rewrite zlen_app. rewrite Z.add_mod, Hm, Hal by done. done. }
        exists th'. rewrite <- app_assoc in Ha'. rewrite E'. split; [done|].
        by replace (pos + (zlen p + zlen (concat ps))) with (pos + zlen p + zlen (concat ps)) by lia.
Qed.

Lemma zlen_all_adlers b : zlen (all_adlers b) = 16 + 4 * zlen (cut SB b).
Proof. unfold all_adlers. by rewrite zlen_app, zlen_md5_spec, zlen_words, zlen_map. Qed.

(** The blocks behind those with a leaf. *)
Definition unfinished (cur : bytes) : list bytes := match cur with [] => [] | _ => [cur] end.

Lemma feed_ok ss : forall bl sp cur pos out (th : th_t),
  hashing (map leaf bl) sp cur pos out th -> steps_ok ss -> cur = [] \/ blocks ss = [] ->
  0 <= pos -> pos + zlen (concat (blocks ss)) < 2 ^ 63 ->
  exists th' bl' cur', foldl feed (Some th) ss = Some th' /\ bl' ++ unfinished cur' = (bl ++ unfinished cur) ++ blocks ss /\
    hashing (map leaf bl') (foldl add_sparse sp ss) cur' (pos + zlen (concat (blocks ss))) (outputs pos ss out) th'.
Proof.
  induction ss as [|s ss IH]; intros bl sp cur pos out th Hh Hok Hcur Hp Hp2.
  { exists th, bl, cur. cbn. rewrite app_nil_r. split_and!; [done|done|]. change (zlen (@nil ascii)) with 0. by rewrite Z.add_0_r. }
  destruct Hok as (Hs & Hb & Hok). cbn [foldl outputs]. change (blocks (s :: ss)) with (block_of_step s ++ blocks ss) in *.
  rewrite concat_app, zlen_app in *. pose proof (zlen_nonneg (concat (blocks ss))).
  destruct s as [ps|b|e]; cbn [block_of_step feed mbind option_bind] in *.
  3:{ destruct (sparse_hash_ok (map leaf bl) sp out cur pos th e Hh Hs) as (th1 & -> & Hh1).
      change (zlen (concat [])) with 0 in *. rewrite Z.add_0_l, ?Z.add_0_r in *. by apply IH. }
  all: inversion_clear Hb as [|? ? [Hl Hlast] _]; cbn [concat] in *; rewrite ?app_nil_r in *;
    destruct Hcur as [->|Hcur]; [|by destruct (blocks ss)].
  - destruct (feed_pieces (map leaf bl) sp out ps [] pos th) as (th1 & -> & Ha); [done|done|done|change (zlen (@nil ascii)) with 0; lia|lia|lia|].
    cbn [app] in Ha. unfold after in Ha. destruct (Z.eqb_spec (zlen (concat ps)) BS) as [Efull|Epart].
    + destruct (IH (bl ++ [concat ps]) sp [] (pos + zlen (concat ps)) (emit (pos + zlen (concat ps)) (all_adlers (concat ps)) out) th1)
        as (th' & bl' & cur' & E & Eb & Hh'); [by rewrite map_app|done|by left|lia|lia|].
      exists th', bl', cur'. split_and!; [done| |by rewrite Z.add_assoc]. rewrite Eb. cbn [unfinished]. by rewrite !app_nil_r, <- app_assoc.
    + destruct Hlast as [|Hlast]; [done|].
      destruct (IH bl sp (concat ps) (pos + zlen (concat ps)) out th1) as (th' & bl' & cur' & E & Eb & Hh'); [done|done|by right|lia|lia|].
      exists th', bl', cur'. split_and!; [done| |by rewrite Z.add_assoc]. rewrite Eb, Hlast. cbn [unfinished]. rewrite !app_nil_r. f_equal.
      destruct (concat ps); [change (zlen (@nil ascii)) with 0 in Hl; lia|done].
  - destruct (addHashAllAdler_ok (map leaf bl) sp pos out th b []) as (th1 & E & Hh1); [done|unfold BS in *; lia|lia|lia|].
    rewrite app_nil_r in E. rewrite zlen_all_adlers, E.
    destruct (IH (bl ++ [b]) sp [] (pos + zlen b) out th1) as (th' & bl' & cur' & E' & Eb & Hh'); [by rewrite map_app|done|by left|lia|lia|].
    exists th', bl', cur'. split_and!; [done| |by rewrite Z.add_assoc]. rewrite Eb. cbn [unfinished]. by rewrite !app_nil_r, <- app_assoc.
Qed.
End Feed.

(** C8: the tree hash.  Let a [TreeHash] object be given blocks, all of 512 KiB but the
    last, each either as its chunk hashes or as contents in pieces, of which none
    reaches into another block and all but a block's last one end at a small block (a
    multiple of 4096 bytes), mixed with extents of zeros; less than 2^63 bytes in all
    ([steps_ok]).  Then it accepts them without a failed assertion or an access outside
    its buffers; [finalize] returns the SHA-512 tree over the leaves of the blocks, with
    the extents hashed beside it, so that it depends on the blocks only and not on how
    they were given.  The chunk hashes handed to the hash output are those
    [addHashAllAdler] takes. *)
Theorem tree_hash_correct {Out} `{IHashOutput Out} (mem : MD5.t) (out : option Out) (ss : list step) :
  zlen (MD5.buffer mem) = 64 -> steps_ok ss -> zlen (concat (blocks ss)) < 2 ^ 63 ->
  exists th th', foldl feed (Some (TreeHash.init mem out)) ss = Some th /\
    TreeHash.hash_output th = outputs 0 ss out /\
    TreeHash.finalize th = Some (treehash_spec (blocks ss) (foldl add_sparse None ss), th').
Proof.
  intros Hm Hok Hl.
  destruct (feed_ok ss [] None [] 0 out (TreeHash.init mem out)) as (th & bl & cur & E & Eb & Hh); [by apply init_hashing|done|by left|lia|lia|].
  rewrite Z.add_0_l in Hh. pose proof (zlen_nonneg (concat (blocks ss))).
  destruct (finalize_ok bl (foldl add_sparse None ss) cur _ _ th Hh) as (th' & F); [lia|].
  exists th, th'. split_and!; [done|by destruct Hh as ([] & _)|]. rewrite F. unfold unfinished in Eb. by rewrite Eb.
Qed.

Definition tree_out (l : list (Z * Z)) (pos : Z) (b : bytes) : list (Z * Z) := (pos, zlen b) :: l.
#[export] Instance tree_out_output : IHashOutput (list (Z * Z)) := {| hash_output_all_adlers := tree_out |}.
Definition tree_steps : list step := [SparseExtent (str "0123"); Contents [replicate 4096 nul; str "ab"]].
Lemma tree_hash_correct_witness :
  exists th th', foldl feed (Some (TreeHash.init md5_mem (Some []))) tree_steps = Some th /\
    TreeHash.hash_output th = outputs 0 tree_steps (Some []) /\
    TreeHash.finalize th = Some (treehash_spec (blocks tree_steps) (foldl add_sparse None tree_steps), th').
Proof.
  apply (tree_hash_correct md5_mem (Some []) tree_steps); [by vm_compute| |by vm_compute].
  split; [by vm_compute|]. split; [constructor|]. split; [|split; [|exact I]].
  - split; [done|]. split; [right; by vm_compute|]. split; [done|]. split; [by left|exact I].
  - constructor; [|constructor]. split; [split; by vm_compute|]. right. by vm_compute.
Defined.
