(* ===== verification/TcpStack.v ===== *)
(** Message framing of the client/server protocol:
    [urbackupcommon/fileclient/tcpstack.cpp] and the escaping of
    [urbackupcommon/escape.cpp].

    A packet is the message behind its 32-bit little-endian length, optionally
    behind the MD5 checksum of both.  [CTCPStack] sends packets over a pipe and
    reassembles them from the fragments the pipe delivers. *)
From S2P Require Import Prelude BlockHash Md5.

(** [IPipe::Write(buf, size, timeoutms, flush)] *)
Class IPipe (P : Type) := PWrite : P -> bytes -> Z -> bool -> bool * P.

Definition MAX_PACKET : Z := 4096.
Definition checksum_len : Z := 16.
(** [sizeof(MAX_PACKETSIZE)], an [unsigned int] *)
Definition sizeof_len : Z := 4.

Module CTCPStack.
Record t := mk { buffer : bytes; add_checksum : bool; max_packet_size : Z }.

Definition create (add_checksum : bool) (max_packet_size : Z) : t := mk [] add_checksum max_packet_size.
Definition with_buffer (s : t) (b : bytes) : t := mk b (add_checksum s) (max_packet_size s).

Definition AddData (s : t) (buf : bytes) : bool * t :=
  let datasize := zlen buf in
  if 0 <? datasize then
    let osize := zlen (buffer s) in
    if max_packet_size s <? osize + datasize then (false, s)
    else (true, with_buffer s (zsplice osize buf (zresize nul (osize + datasize) (buffer s))))
  else (true, s).

(** [MD5 md(data, size)] and its [raw_digest_int()]. *)
Definition checksum (data : bytes) : bytes := MD5.digest (MD5.of_string md5_mem data).

(** The packet [Send] assembles in its buffer. *)
Definition packet (s : t) (msg : bytes) : bytes :=
  let msglen := zlen msg in
  let len := le_bytes 4 (w32 msglen) in
  if negb (add_checksum s) then len ++ msg
  else checksum (len ++ msg) ++ len ++ msg.

Section Send.
Context {P : Type} `{IPipe P}.

(** [while (currpos < packet_len)]: [false] when a write failed. *)
Fixpoint send_loop (fuel : nat) (p : P) (buffer : bytes) (currpos : Z) (first : bool)
    (timeoutms : Z) (flush : bool) : bool * P :=
  let packet_len := zlen buffer in
  if currpos <? packet_len then
    match fuel with
    | O => (false, p)
    | S k =>
        let ts := Z.min MAX_PACKET (packet_len - currpos) in
        let curr_flush := if currpos + ts <? packet_len then false else flush in
        let '(b, p) := PWrite p (zsub currpos ts buffer) (if first then timeoutms else -1) curr_flush in
        if negb b then (false, p)
        else send_loop k p buffer (currpos + ts) false timeoutms flush
    end
  else (true, p).

(** The number of bytes sent, 0 on failure. *)
Definition Send (s : t) (p : P) (msg : bytes) (timeoutms : Z) (flush : bool) : Z * P :=
  let msglen := zlen msg in
  if max_packet_size s <? msglen then (0, p)
  else
    let buf := packet s msg in
    let '(b, p) := send_loop (length buf) p buf 0 true timeoutms flush in
    (if b then msglen else 0, p).
End Send.

(** The packet at the front of the buffer, [None] for [NULL]. *)
Definition getPacket (s : t) : option bytes * t :=
  let b := buffer s in
  if negb (add_checksum s) then
    if sizeof_len <=? zlen b then
      let len := le_val (zsub 0 sizeof_len b) in
      if (len <? max_packet_size s) && (len + sizeof_len <=? zlen b) then
        (Some (zsub sizeof_len len b), with_buffer s (zdrop (len + sizeof_len) b))
      else (None, s)
    else (None, s)
  else
    if sizeof_len + checksum_len <=? zlen b then
      let len := le_val (zsub checksum_len sizeof_len b) in
      if (len <? max_packet_size s) && (checksum_len + len + sizeof_len <=? zlen b) then
        if decide (checksum (zsub checksum_len (len + sizeof_len) b) = ztake checksum_len b) then
          (Some (zsub (checksum_len + sizeof_len) len b),
           with_buffer s (zdrop (checksum_len + len + sizeof_len) b))
        else (None, with_buffer s (zdrop (checksum_len + len + sizeof_len) b))
      else (None, s)
    else (None, s).

Definition removeFront (s : t) (n : Z) : t := with_buffer s (zdrop (Z.min n (zlen (buffer s))) (buffer s)).
Definition reset (s : t) : t := with_buffer s [].
Definition getBuffersize (s : t) : Z := zlen (buffer s).
Definition setAddChecksum (s : t) (b : bool) : t := mk (buffer s) b (max_packet_size s).
Definition setMaxPacketSize (s : t) (mp : Z) : t := mk (buffer s) (add_checksum s) mp.
End CTCPStack.

(** ** Escaping of messages *)

(** [unescapeMessage]: the loop goes on after the character the escape stands for. *)
Fixpoint unescapeMessage (msg : bytes) : bytes :=
  match msg with
  | [] => []
  | c :: t =>
      if ceq c "$"%char then
        match t with
        | d :: t' =>
            if ceq d "$"%char then "$"%char :: unescapeMessage t'
            else if ceq d "r"%char then "#"%char :: unescapeMessage t'
            else c :: unescapeMessage t
        | [] => [c]
        end
      else c :: unescapeMessage t
  end.

(** [escapeClientMessage]: [#] becomes [$r]; the [r] is visited next and kept. *)
Fixpoint escapeClientMessage (msg : bytes) : bytes :=
  match msg with
  | [] => []
  | c :: t =>
      if ceq c "#"%char then "$"%char :: "r"%char :: escapeClientMessage t
      else if ceq c "$"%char then "$"%char :: "$"%char :: escapeClientMessage t
      else c :: escapeClientMessage t
  end.

Definition testEscape : bool :=
  let esc s := escapeClientMessage (str s) in
  let same a b := if decide (a = b) then true else false in
  same (esc "Das ist ein # test"%string) (str "Das ist ein $r test") &&
  same (esc "##Das ist ein # test##"%string) (str "$r$rDas ist ein $r test$r$r") &&
  forallb (fun s => same (unescapeMessage (esc s)) (str s))
    ["Das ist ein # test"; "Das ist ein test"; "Das ist ein ## test"; "##Das ist ein # test##";
     "$$Das ist ein # test$$"; "Das ist ein $ test"]%string.

(** ** Properties *)

(** Unescaping an escaped message gives the message back, and the escaped
    message has no [#], the protocol's separator. *)
Theorem escape_roundtrip (msg : bytes) :
  unescapeMessage (escapeClientMessage msg) = msg /\ ~ In "#"%char (escapeClientMessage msg).
Proof.
  induction msg as [|c t [IH1 IH2]]; [split; [done|by intros []]|].
  cbn [escapeClientMessage]. destruct (ceq_spec c "#"%char) as [->|H1].
  - cbn. rewrite IH1. split; [done|]. intros [?|[?|?]]; done.
  - destruct (ceq_spec c "$"%char) as [->|H2].
    + cbn. rewrite IH1. split; [done|]. intros [?|[?|?]]; done.
    + split; [|by intros [?|?]]. cbn [unescapeMessage]. rewrite (ceq_ne c "$"%char) by done.
      by rewrite IH1.
Qed.

Example escape_tests : testEscape = true.
Proof. reflexivity. Qed.

(** What a successful write means: the bytes are at the end of the stream. *)
Class PipeLaws (P : Type) `{IPipe P} := {
  sent : P -> bytes;
  write_law : forall p b tm fl p', PWrite p b tm fl = (true, p') -> sent p' = sent p ++ b }.

Lemma send_loop_sent {P} `{PipeLaws P} fuel : forall p buf pos first tm fl p',
  0 <= pos <= zlen buf -> CTCPStack.send_loop fuel p buf pos first tm fl = (true, p') ->
  sent p' = sent p ++ zdrop pos buf.
Proof.
  induction fuel as [|f IH]; intros p buf pos first tm fl p' Hp; cbn [CTCPStack.send_loop];
    unfold MAX_PACKET; destruct (Z.ltb_spec pos (zlen buf)).
  - done.
  - intros [= <-]. rewrite zdrop_ge by lia. by rewrite app_nil_r.
  - destruct (PWrite p _ _ _) as [b p1] eqn:Ew. destruct b; [|done]. cbn [negb].
    intros E. apply IH in E; [|lia]. apply write_law in Ew. rewrite E, Ew, <- app_assoc. f_equal.
    unfold zsub. rewrite <- zdrop_zdrop by lia. apply ztake_zdrop.
  - intros [= <-]. rewrite zdrop_ge by lia. by rewrite app_nil_r.
Qed.

(** The loop does end: every write takes at least one byte. *)
Lemma send_loop_ends {P} `{IPipe P} fuel : forall p buf pos first tm fl,
  (forall p b tm fl, fst (PWrite p b tm fl) = true) ->
  0 <= pos <= zlen buf -> zlen buf - pos <= Z.of_nat fuel ->
  fst (CTCPStack.send_loop fuel p buf pos first tm fl) = true.
Proof.
  induction fuel as [|f IH]; intros p buf pos first tm fl Hw Hp Hf; cbn [CTCPStack.send_loop];
    unfold MAX_PACKET; destruct (Z.ltb_spec pos (zlen buf)); try done; [lia|].
  pose proof (Hw p (zsub pos (Z.min 4096 (zlen buf - pos)) buf) (if first then tm else -1)
                (if pos + Z.min 4096 (zlen buf - pos) <? zlen buf then false else fl)) as Hb.
  destruct (PWrite p _ _ _) as [b p1]. cbn in Hb. subst b. cbn [negb]. apply IH; [done|lia|lia].
Qed.

Lemma checksum_spec data : zlen data < 2 ^ 32 - 64 -> CTCPStack.checksum data = md5_spec data.
Proof.
  intros Hd. unfold CTCPStack.checksum, MD5.of_string.
  apply (finalize_of data). apply (update_of [] _ data (init_of md5_mem eq_refl) Hd).
Qed.

Definition overhead (s : CTCPStack.t) : Z :=
  if CTCPStack.add_checksum s then sizeof_len + checksum_len else sizeof_len.

Lemma zlen_packet s msg : zlen msg < 2 ^ 31 -> zlen (CTCPStack.packet s msg) = overhead s + zlen msg.
Proof.
  intros Hm. unfold CTCPStack.packet, overhead, sizeof_len, checksum_len.
  assert (zlen (le_bytes 4 (w32 (zlen msg)) ++ msg) = 4 + zlen msg)
    by (rewrite zlen_app, zlen_le_bytes; lia).
  destruct (CTCPStack.add_checksum s); cbn [negb]; [|lia].
  rewrite zlen_app, checksum_spec, zlen_md5_spec; lia.
Qed.

Section Receive.
Context (s : CTCPStack.t).
Abbreviation max := (CTCPStack.max_packet_size s).
Abbreviation pkt := (CTCPStack.packet s).
Definition msg_ok (m : bytes) : Prop := zlen m < max /\ zlen m < 2 ^ 31.

Lemma with_with a b : CTCPStack.with_buffer (CTCPStack.with_buffer s a) b = CTCPStack.with_buffer s b.
Proof using. done. Qed.

(** A message of a length both the receiver and the length field accept. *)
Lemma len_field (m : bytes) : zlen m < 2 ^ 31 -> le_val (le_bytes 4 (w32 (zlen m))) = zlen m.
Proof using.
  intros. pose proof (zlen_nonneg m). rewrite le_val_le_bytes. change (256 ^ Z.of_nat 4) with (2 ^ 32).
  rewrite w32_id, Z.mod_small by lia. done.
Qed.

Lemma getPacket_full (m r : bytes) :
  msg_ok m -> CTCPStack.getPacket (CTCPStack.with_buffer s (pkt m ++ r)) = (Some m, CTCPStack.with_buffer s r).
Proof using.
  intros [Hm Hm']. pose proof (zlen_nonneg m). pose proof (zlen_nonneg r).
  assert (Hp := zlen_packet s m Hm'). unfold overhead in Hp.
  unfold CTCPStack.getPacket. cbn [CTCPStack.buffer CTCPStack.with_buffer CTCPStack.add_checksum CTCPStack.max_packet_size].
  rewrite zlen_app, Hp. unfold CTCPStack.packet in *. set (len := le_bytes 4 (w32 (zlen m))) in *.
  assert (Hl : zlen len = 4) by apply zlen_le_bytes.
  assert (Hf : le_val len = zlen m) by (by apply len_field).
  unfold sizeof_len, checksum_len in *. destruct (CTCPStack.add_checksum s); cbn [negb] in *.
  - set (ck := CTCPStack.checksum (len ++ m)) in *. rewrite zlen_app, zlen_app in Hp.
    assert (Hc : zlen ck = 16) by lia.
    rewrite (proj2 (Z.leb_le _ _)) by lia. rewrite <- !app_assoc.
    rewrite (zsub_app_zlen 16 4 ck len) by done. rewrite Hf.
    rewrite (proj2 (Z.ltb_lt _ _)), (proj2 (Z.leb_le _ _)) by lia. cbn [andb].
    assert (E1 : zsub 16 (zlen m + 4) (ck ++ len ++ m ++ r) = len ++ m).
    { rewrite (app_assoc len). apply zsub_app_zlen; [done|]. rewrite zlen_app. lia. }
    rewrite E1. rewrite <- Hc, ztake_app_zlen, Hc. fold ck. rewrite decide_True by done.
    change (16 + 4) with 20. replace 20 with (zlen (ck ++ len)) by (rewrite zlen_app; lia).
    f_equal.
    + f_equal. rewrite (app_assoc ck). by apply zsub_app_zlen.
    + rewrite with_with. f_equal.
      rewrite (app_assoc len), (app_assoc ck).
      replace (16 + zlen m + 4) with (zlen (ck ++ len ++ m)) by (rewrite !zlen_app; lia).
      apply zdrop_app_zlen.
  - rewrite (proj2 (Z.leb_le _ _)) by lia. rewrite <- app_assoc.
    change (zsub 0 4 (len ++ m ++ r)) with (ztake 4 (len ++ m ++ r)).
    rewrite <- Hl, ztake_app_zlen, Hf.
    rewrite (proj2 (Z.ltb_lt _ _)), (proj2 (Z.leb_le _ _)) by lia. cbn [andb]. f_equal.
    + f_equal. by apply zsub_app_zlen.
    + rewrite with_with. f_equal. rewrite app_assoc.
      replace (zlen m + zlen len) with (zlen (len ++ m)) by (rewrite zlen_app; lia).
      apply zdrop_app_zlen.
Qed.

(** A packet that is not complete yet stays in the buffer. *)
Lemma getPacket_partial (m b t : bytes) :
  msg_ok m -> b ++ t = pkt m -> zlen b < zlen (pkt m) ->
  CTCPStack.getPacket (CTCPStack.with_buffer s b) = (None, CTCPStack.with_buffer s b).
Proof using.
  intros [Hm Hm'] Eb Hb. pose proof (zlen_nonneg m).
  assert (Hp := zlen_packet s m Hm'). rewrite Hp in Hb. unfold overhead in *.
  unfold CTCPStack.getPacket. cbn [CTCPStack.buffer CTCPStack.with_buffer CTCPStack.add_checksum CTCPStack.max_packet_size].
  unfold CTCPStack.packet in *. set (len := le_bytes 4 (w32 (zlen m))) in *.
  assert (Hl : zlen len = 4) by apply zlen_le_bytes.
  assert (Hf : le_val len = zlen m) by (by apply len_field).
  unfold sizeof_len, checksum_len in *. destruct (CTCPStack.add_checksum s); cbn [negb] in *.
  - set (ck := CTCPStack.checksum (len ++ m)) in *.
    destruct (Z.leb_spec (4 + 16) (zlen b)); [|done].
    rewrite !zlen_app in Hp.
    assert (E : zsub 16 4 b = len).
    { rewrite <- (zsub_app_zlen 16 4 ck len m) by lia. rewrite <- Eb. unfold zsub.
      rewrite zdrop_app_le by lia. rewrite ztake_app_le; [done|]. rewrite zlen_zdrop by lia. lia. }
    rewrite E, Hf. rewrite (proj2 (Z.leb_gt _ _)) by lia. by rewrite andb_false_r.
  - destruct (Z.leb_spec 4 (zlen b)); [|done].
    assert (E : zsub 0 4 b = len).
    { rewrite <- (ztake_app_zlen len m), <- Eb, Hl. change (zsub 0 4 b) with (ztake 4 b).
      by rewrite ztake_app_le by lia. }
    rewrite E, Hf. rewrite (proj2 (Z.leb_gt _ _)) by lia. by rewrite andb_false_r.
Qed.

(** The receiving loop of the callers: packets until there is none, after every
    fragment that arrives. *)
Fixpoint drain (fuel : nat) (st : CTCPStack.t) : list bytes * CTCPStack.t :=
  match fuel with
  | O => ([], st)
  | S k =>
      match CTCPStack.getPacket st with
      | (Some m, st) => let '(ms, st) := drain k st in (m :: ms, st)
      | (None, st) => ([], st)
      end
  end.
Fixpoint receive (st : CTCPStack.t) (frags : list bytes) : option (list bytes) * CTCPStack.t :=
  match frags with
  | [] => (Some [], st)
  | f :: fs =>
      let '(ok, st) := CTCPStack.AddData st f in
      if (ok : bool) then
        let '(ms, st) := drain (S (length (CTCPStack.buffer st))) st in
        let '(r, st) := receive st fs in
        (option_map (app ms) r, st)
      else (None, st)
  end.

Definition stream (ms : list bytes) : bytes := concat (map pkt ms).

(** What is in the buffer belongs to the first message that is not delivered. *)
Definition pending (ms : list bytes) (b : bytes) : Prop :=
  match ms with [] => b = [] | m :: _ => zlen b < zlen (pkt m) end.

Lemma split_prefix (p q b t : bytes) :
  b ++ t = p ++ q -> zlen p <= zlen b -> exists b', b = p ++ b' /\ b' ++ t = q.
Proof using.
  intros E Hl. exists (zdrop (zlen p) b).
  assert (Ep : ztake (zlen p) b = p).
  { transitivity (ztake (zlen p) (p ++ q)); [|apply ztake_app_zlen].
    rewrite <- E. symmetry. by apply ztake_app_le. }
  split.
  - transitivity (ztake (zlen p) b ++ zdrop (zlen p) b); [by rewrite ztake_zdrop|by rewrite Ep].
  - transitivity (zdrop (zlen p) (p ++ q)); [|apply zdrop_app_zlen].
    rewrite <- E. symmetry. by apply zdrop_app_le.
Qed.

Lemma drain_spec fuel : forall ms b t,
  Forall msg_ok ms -> b ++ t = stream ms -> zlen b < Z.of_nat fuel ->
  exists ms1 ms2 b', ms = ms1 ++ ms2 /\
    drain fuel (CTCPStack.with_buffer s b) = (ms1, CTCPStack.with_buffer s b') /\
    b' ++ t = stream ms2 /\ pending ms2 b'.
Proof using.
  induction fuel as [|f IH]; intros ms b t Hms E Hf; [pose proof (zlen_nonneg b); lia|].
  cbn [drain]. destruct ms as [|m ms].
  - unfold stream in E. cbn in E. apply app_eq_nil in E as [-> ->].
    exists [], [], []. split_and!; try done. unfold CTCPStack.getPacket. cbn.
    by destruct (CTCPStack.add_checksum s).
  - inversion_clear Hms as [|? ? Hm Hms']. unfold stream in E. cbn [map concat] in E.
    destruct (decide (zlen (pkt m) <= zlen b)) as [Hl|Hl].
    + destruct (split_prefix (pkt m) (stream ms) b t E Hl) as (b' & -> & E').
      rewrite getPacket_full by done. rewrite zlen_app in *.
      assert (4 <= zlen (pkt m)).
      { rewrite zlen_packet by apply Hm. unfold overhead, sizeof_len, checksum_len.
        pose proof (zlen_nonneg m). case_match; lia. }
      destruct (IH ms b' t Hms' E') as (ms1 & ms2 & b2 & -> & -> & Hb2 & Hp2); [lia|].
      by exists (m :: ms1), ms2, b2.
    + exists [], (m :: ms), b.
      assert (Eb : b ++ zdrop (zlen b) (pkt m) = pkt m).
      { assert (Et : ztake (zlen b) (pkt m) = b).
        { transitivity (ztake (zlen b) (b ++ t)); [|apply ztake_app_zlen].
          rewrite E. symmetry. apply ztake_app_le. lia. }
        transitivity (ztake (zlen b) (pkt m) ++ zdrop (zlen b) (pkt m));
          [by rewrite Et|apply ztake_zdrop]. }
      rewrite (getPacket_partial m b _ Hm Eb) by lia. split_and!; try done. cbn. lia.
Qed.
End Receive.

Lemma AddData_ok s b f :
  zlen b + zlen f <= CTCPStack.max_packet_size s ->
  CTCPStack.AddData (CTCPStack.with_buffer s b) f = (true, CTCPStack.with_buffer s (b ++ f)).
Proof.
  intros Hm. pose proof (zlen_nonneg b). pose proof (zlen_nonneg f). unfold CTCPStack.AddData.
  cbn [CTCPStack.buffer CTCPStack.with_buffer CTCPStack.max_packet_size].
  destruct (Z.ltb_spec 0 (zlen f)).
  - rewrite (proj2 (Z.ltb_ge _ _)) by lia. rewrite with_with. do 2 f_equal.
    rewrite zsplice_fill by (rewrite zlen_zresize by lia; lia). f_equal.
    unfold zresize. rewrite ztake_app_le by (rewrite zlen_ztake by lia; lia).
    rewrite ztake_ztake. apply ztake_ge. lia.
  - destruct f; [by rewrite app_nil_r|]. rewrite zlen_cons in *. pose proof (zlen_nonneg f). lia.
Qed.

Lemma receive_spec s frags : forall ms b,
  Forall (msg_ok s) ms -> b ++ concat frags = stream s ms -> pending s ms b ->
  (forall m f, In m ms -> In f frags -> overhead s + zlen m + zlen f <= CTCPStack.max_packet_size s) ->
  receive (CTCPStack.with_buffer s b) frags = (Some ms, CTCPStack.with_buffer s []).
Proof.
  induction frags as [|f fs IH]; intros ms b Hms E Hp Hmax; cbn [concat receive] in *.
  - rewrite app_nil_r in E. destruct ms as [|m ms]; [by rewrite Hp|]. exfalso.
    cbn in Hp. rewrite E in Hp. unfold stream in Hp. cbn [map concat] in Hp. rewrite zlen_app in Hp.
    pose proof (zlen_nonneg (concat (map (CTCPStack.packet s) ms))). lia.
  - assert (Hadd : CTCPStack.AddData (CTCPStack.with_buffer s b) f
                   = (true, CTCPStack.with_buffer s (b ++ f))).
    { destruct ms as [|m ms].
      - cbn in Hp. subst b. unfold stream in E. cbn in E. apply app_eq_nil in E as [-> _]. done.
      - apply AddData_ok. cbn in Hp. inversion_clear Hms as [|? ? [? ?] ?].
        rewrite zlen_packet in Hp by done. specialize (Hmax m f (or_introl eq_refl) (or_introl eq_refl)). lia. }
    rewrite Hadd, app_assoc in *.
    destruct (drain_spec s (S (length (b ++ f))) ms (b ++ f) (concat fs) Hms E)
      as (ms1 & ms2 & b' & -> & Hd & Eb & Hpend); [unfold zlen; lia|].
    cbn [CTCPStack.buffer CTCPStack.with_buffer] in *. fold (CTCPStack.with_buffer s (b ++ f)) in *.
    rewrite Hd. rewrite (IH ms2 b'); [done| |done|done|].
    + by apply List.Forall_app in Hms as [_ ?].
    + intros m g Hm Hg. apply Hmax; [apply in_or_app; by right|by right].
Qed.

(** Messages sent one after the other: the values [Send] returns. *)
Fixpoint send_all {P} `{IPipe P} (s : CTCPStack.t) (p : P) (msgs : list bytes) (tm : Z) (fl : bool)
  : list Z * P :=
  match msgs with
  | [] => ([], p)
  | m :: ms =>
      let '(n, p) := CTCPStack.Send s p m tm fl in
      let '(ns, p) := send_all s p ms tm fl in (n :: ns, p)
  end.

Lemma send_all_stream {P} `{PipeLaws P} s tm fl msgs : forall p p',
  Forall (fun m => m <> []) msgs ->
  send_all s p msgs tm fl = (map zlen msgs, p') -> sent p' = sent p ++ stream s msgs.
Proof.
  induction msgs as [|m ms IH]; intros p p' Hne; cbn [send_all map].
  - intros [= <-]. by rewrite app_nil_r.
  - inversion_clear Hne as [|? ? Hm Hms]. unfold CTCPStack.Send.
    assert (0 < zlen m) by (destruct m; [done|]; rewrite zlen_cons; pose proof (zlen_nonneg m); lia).
    destruct (Z.ltb_spec (CTCPStack.max_packet_size s) (zlen m)).
    { destruct (send_all s p ms tm fl). intros [=]. lia. }
    destruct (CTCPStack.send_loop _ p _ _ _ _ _) as [b p1] eqn:El.
    destruct (send_all s p1 ms tm fl) as [ns p2] eqn:Ea. intros [= Hb Hns <-].
    destruct b; [|lia]. apply send_loop_sent in El; [|pose proof (zlen_nonneg (CTCPStack.packet s m)); lia].
    subst ns. rewrite (IH p1 p2 Hms Ea), El, zdrop_0, <- app_assoc. done.
Qed.

(** C1: whatever fragments the pipe delivers the sent bytes in, the receiving stack
    returns exactly the messages whose [Send] succeeded, in order, and ends with an
    empty buffer, with and without checksums. The messages are not empty and smaller
    than the maximal packet size, and a message, its header and a fragment together fit
    into the receive buffer ([overhead] + message + fragment <= [max_packet_size], for
    every message and every fragment); [tcpstack_limit_unreceivable] shows that this is
    needed. *)
Theorem tcpstack_roundtrip {P : Type} `{PipeLaws P} (s : CTCPStack.t) (p p' : P) (tm : Z) (fl : bool)
    (msgs frags : list bytes) :
  CTCPStack.buffer s = [] ->
  Forall (fun m => m <> []) msgs -> Forall (msg_ok s) msgs ->
  send_all s p msgs tm fl = (map zlen msgs, p') ->
  sent p' = sent p ++ concat frags ->
  (forall m f, In m msgs -> In f frags -> overhead s + zlen m + zlen f <= CTCPStack.max_packet_size s) ->
  receive s frags = (Some msgs, s).
Proof.
  intros Hb Hne Hok Hs Hf Hmax. apply send_all_stream in Hs; [|done].
  rewrite Hs in Hf. apply app_inv_head in Hf.
  assert (Es : CTCPStack.with_buffer s [] = s) by (destruct s; cbn in *; by subst).
  rewrite <- Es. apply (receive_spec s frags msgs []); [done|done| |done].
  destruct msgs as [|m ms]; [done|]. cbn. inversion_clear Hok as [|? ? [? ?] ?].
  rewrite zlen_packet by done. change (zlen (@nil ascii)) with 0. pose proof (zlen_nonneg m).
  unfold overhead, sizeof_len, checksum_len. case_match; lia.
Qed.

(** A pipe that keeps what was written to it. *)
#[global] Instance mem_pipe : IPipe bytes := fun p b _ _ => (true, p ++ b).
#[global] Program Instance mem_pipe_laws : PipeLaws bytes := {| sent p := p |}.
Next Obligation. unfold PWrite, mem_pipe. by intros p b _ _ p' [= <-]. Qed.

Definition checked_stack : CTCPStack.t := CTCPStack.create true (100 * 1024 * 1024).
Definition sample_sent : bytes := snd (send_all checked_stack ([] : bytes) [str "hello"; str "world"] 1000 true).

Lemma tcpstack_roundtrip_witness :
  receive checked_stack [ztake 7 sample_sent; zdrop 7 sample_sent] = (Some [str "hello"; str "world"], checked_stack).
Proof.
  apply (tcpstack_roundtrip checked_stack ([] : bytes) sample_sent 1000 true [str "hello"; str "world"]
           [ztake 7 sample_sent; zdrop 7 sample_sent]).
  - reflexivity.
  - repeat (apply Forall_cons_2; [done|]). apply Forall_nil_2.
  - repeat (apply Forall_cons_2; [by split; vm_compute|]). apply Forall_nil_2.
  - vm_compute. reflexivity.
  - vm_compute. reflexivity.
  - intros m f [<-|[<-|[]]] [<-|[<-|[]]]; vm_compute; discriminate.
Defined.

(** [Send] accepts messages of up to [max_packet_size] bytes, but the
    receive buffer holds at most [max_packet_size] bytes including the length
    field: a message within [sizeof_len] bytes of the limit is sent successfully
    and can never be received, however its packet is delivered. *)
Theorem tcpstack_limit_unreceivable (s : CTCPStack.t) (m b t : bytes) :
  CTCPStack.add_checksum s = false ->
  CTCPStack.max_packet_size s - sizeof_len < zlen m <= CTCPStack.max_packet_size s -> zlen m < 2 ^ 31 ->
  fst (CTCPStack.Send s ([] : bytes) m 1000 true) = zlen m /\
  (b ++ t = CTCPStack.packet s m -> zlen b <= CTCPStack.max_packet_size s ->
   CTCPStack.getPacket (CTCPStack.with_buffer s b) = (None, CTCPStack.with_buffer s b)).
Proof.
  intros Hc Hm Hw. pose proof (zlen_nonneg m). unfold sizeof_len in Hm. split.
  - unfold CTCPStack.Send. rewrite (proj2 (Z.ltb_ge _ _)) by lia.
    pose proof (send_loop_ends (P := bytes) (length (CTCPStack.packet s m)) [] (CTCPStack.packet s m) 0 true 1000 true) as E.
    destruct (CTCPStack.send_loop _ _ _ _ _ _ _) as [ok p]. cbn in E.
    rewrite E; [done|done|pose proof (zlen_nonneg (CTCPStack.packet s m)); lia|unfold zlen; lia].
  - intros Eb Hb. assert (Hp := zlen_packet s m Hw). unfold overhead in Hp. rewrite Hc in Hp.
    unfold CTCPStack.getPacket. cbn [CTCPStack.buffer CTCPStack.with_buffer CTCPStack.add_checksum CTCPStack.max_packet_size].
    rewrite Hc. cbn [negb]. unfold sizeof_len in *. destruct (Z.leb_spec 4 (zlen b)); [|done].
    unfold CTCPStack.packet in Eb. rewrite Hc in Eb. cbn [negb] in Eb.
    assert (E : zsub 0 4 b = le_bytes 4 (w32 (zlen m))).
    { change (zsub 0 4 b) with (ztake 4 b). rewrite <- (ztake_app_le 4 b t), Eb by lia.
      apply (ztake_app_zlen (le_bytes 4 (w32 (zlen m)))). }
    rewrite E, len_field by done. rewrite (proj2 (Z.leb_gt _ _)) by lia. by rewrite andb_false_r.
Qed.

Definition small_stack : CTCPStack.t := CTCPStack.create false 8.
Lemma tcpstack_limit_unreceivable_witness :
  fst (CTCPStack.Send small_stack ([] : bytes) (str "12345678") 1000 true) = 8 /\
  (ztake 8 (CTCPStack.packet small_stack (str "12345678")) ++ zdrop 8 (CTCPStack.packet small_stack (str "12345678"))
     = CTCPStack.packet small_stack (str "12345678") ->
   zlen (ztake 8 (CTCPStack.packet small_stack (str "12345678"))) <= 8 ->
   CTCPStack.getPacket (CTCPStack.with_buffer small_stack (ztake 8 (CTCPStack.packet small_stack (str "12345678"))))
   = (None, CTCPStack.with_buffer small_stack (ztake 8 (CTCPStack.packet small_stack (str "12345678"))))).
Proof.
  apply (tcpstack_limit_unreceivable small_stack (str "12345678")
           (ztake 8 (CTCPStack.packet small_stack (str "12345678")))
           (zdrop 8 (CTCPStack.packet small_stack (str "12345678"))));
    [reflexivity|vm_compute; split; [reflexivity|discriminate]|reflexivity].
Defined.
