(* ===== verification/ExtentIter.v ===== *)
(** Sparse extents: [urbackupcommon/ExtentIterator.cpp].

    The iterator reads the list of sparse extents of a file from a side file (a
    64-bit count, then pairs of 64-bit offset and size) and shrinks each extent to
    whole blocks.  [nextExtent] is modelled with the side file behind the [IFile]
    interface; an extent with offset -1 ends the iteration. *)
From S2P Require Import Prelude MemFile.

(** [numToRound / multiple] truncates towards 0. *)
Definition roundUp (numToRound multiple : Z) : Z := Z.quot (numToRound + multiple - 1) multiple * multiple.
Definition roundDown (numToRound multiple : Z) : Z := Z.quot numToRound multiple * multiple.

Record SSparseExtent := mkExtent { offset : Z; size : Z }.
Definition no_extent : SSparseExtent := mkExtent (-1) (-1).
Definition sizeof_SSparseExtent : Z := 16.
(** Its bytes in memory. *)
Definition extent_bytes (e : SSparseExtent) : bytes := le_bytes 8 (w64 (offset e)) ++ le_bytes 8 (w64 (size e)).
Definition extent_of (b : bytes) : SSparseExtent := mkExtent (s64 (le_val (ztake 8 b))) (s64 (le_val (zdrop 8 b))).

Module ExtentIterator.
Section Iterator.
Context {F : Type} `{IFile F}.

Record t := mk {
  sparse_extents_f : option F;
  num_sparse_extents : Z;
  next_sparse_extent_num : Z;
  blocksize : Z }.
Definition with_file (f : option F) (it : t) : t := mk f (num_sparse_extents it) (next_sparse_extent_num it) (blocksize it).
Definition with_num (n : Z) (it : t) : t := mk (sparse_extents_f it) n (next_sparse_extent_num it) (blocksize it).
Definition with_next (n : Z) (it : t) : t := mk (sparse_extents_f it) (num_sparse_extents it) n (blocksize it).

Definition init (f : option F) (blocksize : Z) : t :=
  mk ((fun f => snd (Seek f 0)) <$> f) (-1) 0 blocksize.

(** [while (next_sparse_extent_num < num_sparse_extents && ret.offset==-1)]: an
    extent that shrinks to nothing leaves its offset in [ret], which ends the
    loop.  [None]: out of fuel. *)
Fixpoint next_loop (fuel : nat) (f : F) (it : t) (ret_offset : Z) : option (SSparseExtent * t) :=
  if (next_sparse_extent_num it <? num_sparse_extents it) && (ret_offset =? -1) then
    match fuel with
    | O => None
    | S k =>
        let '((b, _), f) := Read f sizeof_SSparseExtent in
        if negb (zlen b =? sizeof_SSparseExtent) then Some (no_extent, with_num 0 (with_file (Some f) it))
        else
          let ret := extent_of b in
          let it := with_next (next_sparse_extent_num it + 1) it in
          let ret_end := roundDown (offset ret + size ret) (blocksize it) in
          let ofs := roundUp (offset ret) (blocksize it) in
          if ofs <? ret_end then Some (mkExtent ofs (ret_end - ofs), with_file (Some f) it)
          else next_loop k f it ofs
    end
  else Some (no_extent, with_file (Some f) it).

Definition nextExtent (fuel : nat) (it : t) : option (SSparseExtent * t) :=
  let it :=
    if num_sparse_extents it =? -1 then
      match sparse_extents_f it with
      | None => with_num 0 it
      | Some f =>
          let '((b, _), f) := Read f 8 in
          with_num (if zlen b =? 8 then s64 (le_val b) else 0) (with_file (Some f) it)
      end
    else it in
  match sparse_extents_f it with
  | Some f => next_loop fuel f it (-1)
  | None => if next_sparse_extent_num it <? num_sparse_extents it then None else Some (no_extent, it)
  end.

Definition reset (it : t) : t :=
  with_file ((fun f => snd (Seek f 0)) <$> sparse_extents_f it) (with_next 0 (with_num (-1) it)).

End Iterator.
Arguments t F : clear implicits.
End ExtentIterator.

(** [FsExtentIterator] asks the file system; its loop goes on past extents that
    shrink to nothing. *)
Module FsExtentIterator.
Section Iterator.
Context {B : Type} (nextSparseExtent : B -> SSparseExtent * B) (resetSparseExtentIter : B -> B).

Record t := mk { backing_file : B; blocksize : Z }.
Definition init (f : B) (blocksize : Z) : t := mk (resetSparseExtentIter f) blocksize.
Fixpoint nextExtent (fuel : nat) (it : t) : option (SSparseExtent * t) :=
  match fuel with
  | O => None
  | S k =>
      let '(next, f) := nextSparseExtent (backing_file it) in
      let it := mk f (blocksize it) in
      if offset next =? -1 then Some (next, it)
      else
        let next_end := roundDown (offset next + size next) (blocksize it) in
        let ofs := roundUp (offset next) (blocksize it) in
        if ofs <? next_end then Some (mkExtent ofs (next_end - ofs), it) else nextExtent k it
  end.
Definition reset (it : t) : t := mk (resetSparseExtentIter (backing_file it)) (blocksize it).
End Iterator.
End FsExtentIterator.
