(* ===== verification/PatchWriter.v ===== *)
(** Writing a patch: the patch file of a chunked transfer,
    [urbackupcommon/fileclient/FileClientChunked.cpp].

    While a file is transferred in patch mode the client's data is collected into
    records (offset, length, data) behind the final file size.  When a block turns
    out to be wrong its records are marked invalid and it is transferred again.
    This file models the state and the functions that write the patch file; the
    protocol around them decides when they are called. *)
From S2P Require Import Prelude MemFile.

Definition c_chunk_size : Z := 4096.

Section PatchWriter.
Context {F : Type} `{IFile F}.
(** [nofreespace_callback->handle_not_enough_space], if there is a callback. *)
Context (handle_not_enough_space : option (F -> bool)).

Record FileClientChunked := mkClient {
  m_patchfile : F; patchfile_pos : Z; last_chunk_patches : list Z; last_patch_output_fsize : Z;
  patch_mode : bool; patch_buf : bytes; patch_buf_pos : Z; patch_buf_start : Z;
  curr_output_fsize : Z; has_error : bool }.

(** A failed write shuts the connection down. *)
Definition with_patchfile (r : F * bool) (c : FileClientChunked) : FileClientChunked :=
  mkClient (fst r) (patchfile_pos c) (last_chunk_patches c) (last_patch_output_fsize c) (patch_mode c) (patch_buf c)
    (patch_buf_pos c) (patch_buf_start c) (curr_output_fsize c) (has_error c || snd r).
Definition with_patch_buf (b : bytes) (pos start : Z) (c : FileClientChunked) : FileClientChunked :=
  mkClient (m_patchfile c) (patchfile_pos c) (last_chunk_patches c) (last_patch_output_fsize c) (patch_mode c) b
    pos start (curr_output_fsize c) (has_error c).
Definition with_patches (l : list Z) (last_fsize pos out_fsize : Z) (c : FileClientChunked) : FileClientChunked :=
  mkClient (m_patchfile c) pos l last_fsize (patch_mode c) (patch_buf c) (patch_buf_pos c) (patch_buf_start c)
    out_fsize (has_error c).
Definition seek_patchfile (p : Z) (c : FileClientChunked) : FileClientChunked :=
  with_patchfile (snd (Seek (m_patchfile c) p), false) c.

(** [writeFileRepeat]: up to 50 fruitless tries.  The result is the file and
    whether the last write wrote nothing; [None]: out of fuel. *)
Fixpoint write_repeat (fuel : nat) (f : F) (buf : bytes) (written tries : Z) : option (F * bool) :=
  match fuel with
  | O => None
  | S k =>
      let '((rc, _), f) := Write f (zdrop written buf) in
      let written := w32 (written + rc) in
      let gives_up := match handle_not_enough_space with Some h => negb (h f) | None => false end in
      if (rc =? 0) && gives_up then Some (f, true)
      else
        let tries := if rc =? 0 then tries - 1 else tries in
        if (written <? zlen buf) && ((0 <? rc) || (0 <? tries)) then write_repeat k f buf written tries
        else Some (f, rc =? 0)
  end.
Definition writeFileRepeat (f : F) (buf : bytes) : option (F * bool) :=
  write_repeat (length buf + 51) f buf 0 50.
Definition write_patchfile (buf : bytes) (c : FileClientChunked) : option FileClientChunked :=
  r ← writeFileRepeat (m_patchfile c) buf; Some (with_patchfile r c).

(** A record: the header of 12 bytes and the first [length] bytes of [buf]. *)
Definition writePatchInt (pos : Z) (buf : bytes) (c : FileClientChunked) : option FileClientChunked :=
  let length := zlen buf in
  let plen := 12 in
  c ← write_patchfile (le_bytes 8 (w64 pos) ++ le_bytes 4 length) c;
  c ← write_patchfile buf c;
  let last_fsize := match last_chunk_patches c with [] => curr_output_fsize c | _ => last_patch_output_fsize c end in
  Some (with_patches (last_chunk_patches c ++ [patchfile_pos c]) last_fsize (patchfile_pos c + plen + length)
          (Z.max (curr_output_fsize c) (pos + length)) c).

(** Writing out [patch_buf] up to [patch_buf_pos]. *)
Definition flush_patch_buf (c : FileClientChunked) : option FileClientChunked :=
  c ← writePatchInt (patch_buf_start c) (ztake (patch_buf_pos c) (patch_buf c)) c;
  Some (with_patch_buf (patch_buf c) 0 (patch_buf_start c) c).

(** [memcpy(&patch_buf[pos], buf, length)], inside the array. *)
Definition copy_to_patch_buf (pos : Z) (buf : bytes) (c : FileClientChunked) : option bytes :=
  if (0 <=? pos) && (pos + zlen buf <=? zlen (patch_buf c)) then Some (zsplice pos buf (patch_buf c)) else None.

(** Every caller passes a buffer of [length] bytes. *)
Definition writePatch (pos : Z) (buf : bytes) (last : bool) (c : FileClientChunked) : option FileClientChunked :=
  let length := zlen buf in
  if (length <=? w32 (c_chunk_size - patch_buf_pos c))
     && ((patch_buf_pos c =? 0) || (pos =? patch_buf_start c + patch_buf_pos c)) then
    b ← copy_to_patch_buf (patch_buf_pos c) buf c;
    let start := if patch_buf_pos c =? 0 then pos else patch_buf_start c in
    let c := with_patch_buf b (w32 (patch_buf_pos c + length)) start c in
    if last || (patch_buf_pos c =? c_chunk_size) || (length =? 0) then flush_patch_buf c else Some c
  else
    c ← (if 0 <? patch_buf_pos c then flush_patch_buf c else Some c);
    if negb last && (0 <? length) && (length <? c_chunk_size) then
      b ← copy_to_patch_buf (patch_buf_pos c) buf c;
      Some (with_patch_buf b (w32 (patch_buf_pos c + length)) pos c)
    else writePatchInt pos buf c.

Definition writePatchSize (remote_fs : Z) (c : FileClientChunked) : option FileClientChunked :=
  let c := seek_patchfile 0 c in
  c ← write_patchfile (le_bytes 8 (w64 remote_fs)) c;
  Some (if patchfile_pos c =? 0
        then with_patches (last_chunk_patches c) (last_patch_output_fsize c) 8 (curr_output_fsize c) c
        else seek_patchfile (patchfile_pos c) c).

(** Marking the records of the last block invalid. *)
Fixpoint invalidate_records (l : list Z) (c : FileClientChunked) : option FileClientChunked :=
  match l with
  | [] => Some c
  | p :: l => c ← write_patchfile (le_bytes 8 (w64 (-1))) (seek_patchfile p c); invalidate_records l c
  end.
Definition invalidateLastPatches (c : FileClientChunked) : option FileClientChunked :=
  c ← (if patch_mode c then
         let c := match last_chunk_patches c with
                  | [] => c
                  | _ => with_patches (last_chunk_patches c) (last_patch_output_fsize c) (patchfile_pos c)
                           (last_patch_output_fsize c) c
                  end in
         c ← invalidate_records (last_chunk_patches c) c;
         let c := seek_patchfile (patchfile_pos c) c in
         Some (with_patch_buf (patch_buf c) 0 (patch_buf_start c) c)
       else Some c);
  Some (with_patches [] (last_patch_output_fsize c) (patchfile_pos c) (curr_output_fsize c) c).

(** The parts of [GetFilePatch] and of the block handling that concern the patch
    file: a new transfer (which does not clear [last_chunk_patches]), and the start
    of a new block ([last_chunk_patches.clear(); patch_buf_pos=0]). *)
Definition start_patch (patchfile : F) (c : FileClientChunked) : FileClientChunked :=
  mkClient patchfile 0 (last_chunk_patches c) (last_patch_output_fsize c) true (patch_buf c) 0 (patch_buf_start c) 0 (has_error c).
Definition next_block (c : FileClientChunked) : FileClientChunked :=
  with_patches [] (last_patch_output_fsize c) (patchfile_pos c) (curr_output_fsize c)
    (with_patch_buf (patch_buf c) 0 (patch_buf_start c) c).

End PatchWriter.
Arguments FileClientChunked F : clear implicits.
