(* ===== verification/ChunkPatcher.v ===== *)
(** Applying a patch: [urbackupserver/ChunkPatcher.cpp].

    An incremental backup transfers a file as a patch against the previous
    version.  [ApplyPatch] reads the old file and the patch and hands the new
    contents, piece by piece and in order, to a callback; pieces that it knows to
    be unchanged or sparse may be handed over as null.  The old file and the patch
    are files behind the [IFile] interface, the callback is the class
    [IChunkPatcherCallback].  An [assert] that does not hold, a [return false] and
    a loop that does not come to an end are outcomes. *)
From S2P Require Import Prelude MemFile ExtentIter.

Definition UINT_MAX : Z := 2 ^ 32 - 1.
Definition sparse_blocksize : Z := 512 * 1024.
Definition buffer_size : Z := 512 * 1024.

Definition buf_is_zero (buf : bytes) : bool := forallb (fun c => ceq c nul) buf.

Record SPatchHeader := mkHeader { patch_off : Z; patch_size : Z }.

(** [next_chunk_patcher_bytes(buf, bsize, changed, is_sparse)]: a null [buf] is
    [None], and [is_sparse] is [None] or the value it points to, before and
    after. *)
Class IChunkPatcherCallback (C : Type) := {
  next_chunk_patcher_bytes : C -> option bytes -> Z -> bool -> option bool -> option bool * C;
  next_sparse_extent_bytes : C -> bytes -> C;
  chunk_patcher_pos : C -> Z }.

Record ChunkPatcher := mkPatcher {
  filesize : Z;
  require_unchanged : bool;
  with_sparse : bool;
  last_sparse_start : Z;
  curr_only_zeros : bool;
  curr_changed : bool;
  unchanged_align : Z;
  sparse_buf : bytes;
  unchanged_align_start : Z;
  unchanged_align_end : Z;
  unchanged_align_end_next : Z;
  last_unchanged : bool }.

Definition set_filesize (v : Z) (p : ChunkPatcher) : ChunkPatcher :=
  mkPatcher v (require_unchanged p) (with_sparse p) (last_sparse_start p) (curr_only_zeros p) (curr_changed p) (unchanged_align p) (sparse_buf p) (unchanged_align_start p) (unchanged_align_end p) (unchanged_align_end_next p) (last_unchanged p).
Definition set_require_unchanged (v : bool) (p : ChunkPatcher) : ChunkPatcher :=
  mkPatcher (filesize p) v (with_sparse p) (last_sparse_start p) (curr_only_zeros p) (curr_changed p) (unchanged_align p) (sparse_buf p) (unchanged_align_start p) (unchanged_align_end p) (unchanged_align_end_next p) (last_unchanged p).
Definition set_with_sparse (v : bool) (p : ChunkPatcher) : ChunkPatcher :=
  mkPatcher (filesize p) (require_unchanged p) v (last_sparse_start p) (curr_only_zeros p) (curr_changed p) (unchanged_align p) (sparse_buf p) (unchanged_align_start p) (unchanged_align_end p) (unchanged_align_end_next p) (last_unchanged p).
Definition set_last_sparse_start (v : Z) (p : ChunkPatcher) : ChunkPatcher :=
  mkPatcher (filesize p) (require_unchanged p) (with_sparse p) v (curr_only_zeros p) (curr_changed p) (unchanged_align p) (sparse_buf p) (unchanged_align_start p) (unchanged_align_end p) (unchanged_align_end_next p) (last_unchanged p).
Definition set_curr_only_zeros (v : bool) (p : ChunkPatcher) : ChunkPatcher :=
  mkPatcher (filesize p) (require_unchanged p) (with_sparse p) (last_sparse_start p) v (curr_changed p) (unchanged_align p) (sparse_buf p) (unchanged_align_start p) (unchanged_align_end p) (unchanged_align_end_next p) (last_unchanged p).
Definition set_curr_changed (v : bool) (p : ChunkPatcher) : ChunkPatcher :=
  mkPatcher (filesize p) (require_unchanged p) (with_sparse p) (last_sparse_start p) (curr_only_zeros p) v (unchanged_align p) (sparse_buf p) (unchanged_align_start p) (unchanged_align_end p) (unchanged_align_end_next p) (last_unchanged p).
Definition set_unchanged_align (v : Z) (p : ChunkPatcher) : ChunkPatcher :=
  mkPatcher (filesize p) (require_unchanged p) (with_sparse p) (last_sparse_start p) (curr_only_zeros p) (curr_changed p) v (sparse_buf p) (unchanged_align_start p) (unchanged_align_end p) (unchanged_align_end_next p) (last_unchanged p).
Definition set_sparse_buf (v : bytes) (p : ChunkPatcher) : ChunkPatcher :=
  mkPatcher (filesize p) (require_unchanged p) (with_sparse p) (last_sparse_start p) (curr_only_zeros p) (curr_changed p) (unchanged_align p) v (unchanged_align_start p) (unchanged_align_end p) (unchanged_align_end_next p) (last_unchanged p).
Definition set_unchanged_align_start (v : Z) (p : ChunkPatcher) : ChunkPatcher :=
  mkPatcher (filesize p) (require_unchanged p) (with_sparse p) (last_sparse_start p) (curr_only_zeros p) (curr_changed p) (unchanged_align p) (sparse_buf p) v (unchanged_align_end p) (unchanged_align_end_next p) (last_unchanged p).
Definition set_unchanged_align_end (v : Z) (p : ChunkPatcher) : ChunkPatcher :=
  mkPatcher (filesize p) (require_unchanged p) (with_sparse p) (last_sparse_start p) (curr_only_zeros p) (curr_changed p) (unchanged_align p) (sparse_buf p) (unchanged_align_start p) v (unchanged_align_end_next p) (last_unchanged p).
Definition set_unchanged_align_end_next (v : Z) (p : ChunkPatcher) : ChunkPatcher :=
  mkPatcher (filesize p) (require_unchanged p) (with_sparse p) (last_sparse_start p) (curr_only_zeros p) (curr_changed p) (unchanged_align p) (sparse_buf p) (unchanged_align_start p) (unchanged_align_end p) v (last_unchanged p).
Definition set_last_unchanged (v : bool) (p : ChunkPatcher) : ChunkPatcher :=
  mkPatcher (filesize p) (require_unchanged p) (with_sparse p) (last_sparse_start p) (curr_only_zeros p) (curr_changed p) (unchanged_align p) (sparse_buf p) (unchanged_align_start p) (unchanged_align_end p) (unchanged_align_end_next p) v.

(** The constructor leaves [filesize], [last_sparse_start] and the two flags of
    the block in progress uninitialised: the first argument is what they hold. *)
Definition ChunkPatcher_init (uninit : Z * Z * bool * bool) : ChunkPatcher :=
  let '(fs, start, zeros, changed) := uninit in
  mkPatcher fs true false start zeros changed 0 [] (-1) (-1) (-1) false.
Definition setRequireUnchanged (b : bool) (p : ChunkPatcher) : ChunkPatcher := set_require_unchanged b p.
Definition setUnchangedAlign (a : Z) (p : ChunkPatcher) : ChunkPatcher := set_unchanged_align a p.
Definition setWithSparse (b : bool) (p : ChunkPatcher) : ChunkPatcher := set_with_sparse b p.
Definition getFilesize (p : ChunkPatcher) : Z := filesize p.

(** ** Effects *)

Inductive outcome (A : Type) := Val (a : A) | RetFalse | AssertFailed | OutOfBounds | NoFuel.
Arguments Val {A} a.
Arguments RetFalse {A}.
Arguments AssertFailed {A}.
Arguments OutOfBounds {A}.
Arguments NoFuel {A}.

Record world (F C : Type) := mkWorld {
  w_cp : ChunkPatcher; w_file : F; w_patch : F; w_cb : C; w_it : option (ExtentIterator.t F) }.
Arguments mkWorld {F C}.
Arguments w_cp {F C}.
Arguments w_file {F C}.
Arguments w_patch {F C}.
Arguments w_cb {F C}.
Arguments w_it {F C}.

Definition pm (F C A : Type) : Type := world F C -> outcome A * world F C.
#[global] Instance pm_ret {F C} : MRet (pm F C) := fun A a w => (Val a, w).
#[global] Instance pm_bind {F C} : MBind (pm F C) := fun A B k m w =>
  match m w with
  | (Val a, w) => k a w
  | (RetFalse, w) => (RetFalse, w)
  | (AssertFailed, w) => (AssertFailed, w)
  | (OutOfBounds, w) => (OutOfBounds, w)
  | (NoFuel, w) => (NoFuel, w)
  end.

Section Patcher.
Context {F C : Type} `{IFile F} `{IChunkPatcherCallback C}.

Definition get_cp : pm F C ChunkPatcher := fun w => (Val (w_cp w), w).
Definition mod_cp (f : ChunkPatcher -> ChunkPatcher) : pm F C unit :=
  fun w => (Val tt, mkWorld (f (w_cp w)) (w_file w) (w_patch w) (w_cb w) (w_it w)).
Definition get_cb : pm F C C := fun w => (Val (w_cb w), w).
Definition return_false {A} : pm F C A := fun w => (RetFalse, w).
Definition no_fuel {A} : pm F C A := fun w => (NoFuel, w).
Definition assert (b : bool) : pm F C unit := fun w => (if b then Val tt else AssertFailed, w).
Definition in_bounds {A} (o : option A) : pm F C A :=
  fun w => (match o with Some a => Val a | None => OutOfBounds end, w).

Definition file_Read (n : Z) : pm F C (bytes * bool) := fun w =>
  let '(r, f) := Read (w_file w) n in (Val r, mkWorld (w_cp w) f (w_patch w) (w_cb w) (w_it w)).
Definition file_Seek (p : Z) : pm F C unit := fun w =>
  (Val tt, mkWorld (w_cp w) (snd (Seek (w_file w) p)) (w_patch w) (w_cb w) (w_it w)).
Definition file_Size : pm F C Z := fun w => (Val (Size (w_file w)), w).
Definition patch_Read (n : Z) : pm F C (bytes * bool) := fun w =>
  let '(r, f) := Read (w_patch w) n in (Val r, mkWorld (w_cp w) (w_file w) f (w_cb w) (w_it w)).
Definition patch_Seek (p : Z) : pm F C unit := fun w =>
  (Val tt, mkWorld (w_cp w) (w_file w) (snd (Seek (w_patch w) p)) (w_cb w) (w_it w)).
Definition cb_bytes (buf : option bytes) (bsize : Z) (changed : bool) (is_sparse : option bool) : pm F C (option bool) :=
  fun w => let '(r, c) := next_chunk_patcher_bytes (w_cb w) buf bsize changed is_sparse in
           (Val r, mkWorld (w_cp w) (w_file w) (w_patch w) c (w_it w)).
Definition cb_sparse_extent (buf : bytes) : pm F C unit := fun w =>
  (Val tt, mkWorld (w_cp w) (w_file w) (w_patch w) (next_sparse_extent_bytes (w_cb w) buf) (w_it w)).
(** [extent_iterator->nextExtent()], called only on an iterator that is there or,
    after the first call, on one that has yielded an extent. *)
Definition nextExtent (fuel : nat) : pm F C SSparseExtent := fun w =>
  match w_it w with
  | None => (OutOfBounds, w)
  | Some it =>
      match ExtentIterator.nextExtent fuel it with
      | None => (NoFuel, w)
      | Some (e, it) => (Val e, mkWorld (w_cp w) (w_file w) (w_patch w) (w_cb w) (Some it))
      end
  end.
Definition has_iterator : pm F C bool := fun w => (Val (bool_decide (is_Some (w_it w))), w).

(** [assert(cb->chunk_patcher_pos() < 0 || cb->chunk_patcher_pos() == pos)] *)
Definition assert_pos (pos : Z) : pm F C unit :=
  c ← get_cb; assert ((chunk_patcher_pos c <? 0) || (chunk_patcher_pos c =? pos)).

(** ** Whole blocks of zeros *)

Definition finishSparse (pos : Z) : pm F C unit :=
  p ← get_cp;
  let e := roundDown pos sparse_blocksize in
  if negb (last_sparse_start p =? -1) && (last_sparse_start p <? e) then
    cb_sparse_extent (extent_bytes (mkExtent (last_sparse_start p) (e - last_sparse_start p)));;
    mod_cp (set_last_sparse_start (-1))
  else mret tt.

(** [if (last_sparse_start == -1) last_sparse_start = pos;] *)
Definition start_sparse (pos : Z) : pm F C unit :=
  p ← get_cp; if last_sparse_start p =? -1 then mod_cp (set_last_sparse_start pos) else mret tt.
Definition end_sparse (pos : Z) : pm F C unit :=
  p ← get_cp; if negb (last_sparse_start p =? -1) then finishSparse pos else mret tt.
Definition fresh_block : pm F C unit := mod_cp (fun p => set_curr_changed false (set_curr_only_zeros true p)).

(** The two exits of [nextChunkPatcherBytes]: a whole block that came in one
    piece, and one that was collected in [sparse_buf]. *)
Definition whole_block (pos : Z) (buf : bytes) (changed : bool) : pm F C unit :=
  let zeros := buf_is_zero buf in
  mod_cp (set_curr_only_zeros zeros);;
  if zeros then
    start_sparse pos;;
    assert_pos pos;;
    _ ← cb_bytes None (zlen buf) changed (Some true); mret tt
  else
    end_sparse pos;;
    assert_pos pos;;
    _ ← cb_bytes (Some buf) (zlen buf) changed None;
    fresh_block.

Definition collected_block (pos next_checkpoint n : Z) : pm F C unit :=
  p ← get_cp;
  (if curr_only_zeros p then start_sparse (next_checkpoint - sparse_blocksize) else end_sparse pos);;
  p ← get_cp;
  (if negb (curr_only_zeros p)
   then _ ← cb_bytes (Some (sparse_buf p)) sparse_blocksize (curr_changed p) None; assert_pos (pos + n)
   else _ ← cb_bytes None sparse_blocksize (curr_changed p) (Some true); assert_pos (pos + n));;
  fresh_block.

(** [while (bsize > 0)]; every round but the first starts at a block boundary. *)
Fixpoint next_bytes_loop (fuel : nat) (pos : Z) (buf : bytes) (changed : bool) : pm F C unit :=
  if zlen buf =? 0 then mret tt
  else match fuel with
  | O => no_fuel
  | S k =>
      if (Z.rem pos sparse_blocksize =? 0) && (zlen buf =? sparse_blocksize) then whole_block pos buf changed
      else
        let next_checkpoint := roundDown pos sparse_blocksize + sparse_blocksize in
        let bsize_to_checkpoint := Z.min (zlen buf) (next_checkpoint - pos) in
        let sparse_buf_used := Z.rem pos sparse_blocksize in
        let b := ztake bsize_to_checkpoint buf in
        mod_cp (fun p => if curr_only_zeros p then set_curr_only_zeros (buf_is_zero b) p else p);;
        mod_cp (fun p => if changed then set_curr_changed true p else p);;
        p ← get_cp;
        s ← in_bounds (if sparse_buf_used + zlen b <=? zlen (sparse_buf p)
                       then Some (zsplice sparse_buf_used b (sparse_buf p)) else None);
        mod_cp (set_sparse_buf s);;
        (if pos + bsize_to_checkpoint =? next_checkpoint
         then collected_block pos next_checkpoint bsize_to_checkpoint else mret tt);;
        next_bytes_loop k (pos + bsize_to_checkpoint) (zdrop bsize_to_checkpoint buf) changed
  end.

(** With [sparse], [buf] is null and [bsize] its length; otherwise [bsize] is the
    length of [buf]. *)
Definition nextChunkPatcherBytes (pos : Z) (buf : bytes) (bsize : Z) (changed sparse : bool) : pm F C unit :=
  mod_cp (set_last_unchanged false);;
  if sparse then
    p ← get_cp;
    assert (Z.rem pos sparse_blocksize =? 0);;
    assert ((unchanged_align p =? 0) || (Z.rem pos (unchanged_align p) =? 0));;
    start_sparse (roundUp pos sparse_blocksize);;
    assert_pos pos;;
    _ ← cb_bytes None bsize changed (Some true); mret tt
  else next_bytes_loop (S (S (Z.to_nat (zlen buf / sparse_blocksize)))) pos buf changed.

Definition finishChunkPatcher (pos : Z) : pm F C unit :=
  finishSparse pos;;
  p ← get_cp;
  let sparse_buf_used := Z.rem pos sparse_blocksize in
  if (0 <? sparse_buf_used) && negb (last_unchanged p) then
    _ ← cb_bytes (Some (ztake sparse_buf_used (sparse_buf p))) sparse_buf_used (curr_changed p) None;
    assert_pos pos
  else mret tt.

(** Handing over [buf] at [file_pos], in both places of [ApplyPatch]. *)
Definition give_bytes (file_pos : Z) (buf : bytes) (changed : bool) : pm F C unit :=
  p ← get_cp;
  if with_sparse p then nextChunkPatcherBytes file_pos buf (zlen buf) changed false
  else assert_pos file_pos;; _ ← cb_bytes (Some buf) (zlen buf) changed None; mret tt.

(** ** The patch *)

(** [readNextValidPatch]: whether there is a header, the new [patchf_pos], the
    header and [has_read_error]. *)
Fixpoint readNextValidPatch (fuel : nat) (patchf_pos : Z) : pm F C (bool * Z * SPatchHeader * bool) :=
  match fuel with
  | O => no_fuel
  | S k =>
      '(b, err) ← patch_Read 12;
      let patchf_pos := patchf_pos + zlen b in
      if negb (zlen b =? 12) then mret (false, patchf_pos, mkHeader (-1) 0, err)
      else
        let h := mkHeader (s64 (le_val (ztake 8 b))) (le_val (zdrop 8 b)) in
        if patch_off h =? -1 then
          let patchf_pos := patchf_pos + patch_size h in
          patch_Seek patchf_pos;; readNextValidPatch k patchf_pos
        else mret (true, patchf_pos, h, err)
  end.

(** [while(next_header.patch_size>0)]: the patch's data, with what is left of the
    size, the position in the patch and the position in the file. *)
Fixpoint copy_patch (fuel : nat) (patch_size patchf_pos file_pos : Z) : pm F C (Z * Z) :=
  if patch_size <=? 0 then mret (patchf_pos, file_pos)
  else match fuel with
  | O => no_fuel
  | S k =>
      '(b, err) ← patch_Read (Z.min buffer_size patch_size);
      if (err : bool) then return_false
      else
        give_bytes file_pos b true;;
        copy_patch k (w32 (patch_size - zlen b)) (patchf_pos + zlen b) (file_pos + zlen b)
  end.

(** [while (curr_sparse_extent.offset != -1 && ..)] *)
Fixpoint skip_extents (fuel : nat) (file_pos : Z) (e : SSparseExtent) : pm F C SSparseExtent :=
  if negb (offset e =? -1) && (offset e + size e <=? file_pos) then
    match fuel with
    | O => no_fuel
    | S k => e ← nextExtent fuel; skip_extents k file_pos e
    end
  else mret e.

(** The sparse extent [e] covers [file_pos .. file_pos + tr]: hand whole blocks of
    it over as null ([inl] the new [file_pos]), or cut [tr] so that the next round
    starts at a block boundary ([inr] the new [tr]). *)
Definition sparse_part (file_pos tr : Z) (e : SSparseExtent) : pm F C (Z + Z) :=
  p ← get_cp;
  let ua := unchanged_align p in
  if negb (offset e =? -1) && (sparse_blocksize <=? tr) && (ua <=? tr)
     && (offset e <=? file_pos) && (file_pos + tr <=? offset e + size e) then
    if (Z.rem file_pos sparse_blocksize =? 0) && ((ua =? 0) || (Z.rem file_pos ua =? 0)) then
      let tr := if negb (Z.rem tr sparse_blocksize =? 0) then tr - Z.rem tr sparse_blocksize else tr in
      let tr := if negb (ua =? 0) && negb (Z.rem tr ua =? 0) then w32 (tr - Z.rem tr ua) else tr in
      (if with_sparse p then nextChunkPatcherBytes file_pos [] tr false true
       else assert_pos file_pos;; _ ← cb_bytes None tr false (Some true); mret tt);;
      mret (inl (file_pos + tr))
    else
      let tr := if negb (ua =? 0) && negb (Z.rem file_pos ua =? 0)
                then Z.min tr (w32 (ua - Z.rem file_pos ua)) else tr in
      let tr := if negb (Z.rem file_pos sparse_blocksize =? 0)
                then Z.min tr (w32 (sparse_blocksize - Z.rem file_pos sparse_blocksize)) else tr in
      mret (inr tr)
  else mret (inr tr).

(** Whether this piece has to be read although it is unchanged, and its size,
    with [unchanged_align]. *)
Definition align_unchanged (file_pos tr : Z) : pm F C (bool * Z) :=
  p ← get_cp;
  if unchanged_align p =? 0 then mret (require_unchanged p, tr)
  else
    let s := unchanged_align_start p in
    let e := unchanged_align_end p in
    let en := unchanged_align_end_next p in
    let near := (negb (s =? -1) && negb (en =? -1) && (s <=? file_pos) && (file_pos <? en))
                || (negb (e =? -1) && (file_pos <? e)) in
    (if near then file_Seek file_pos else mret tt);;
    let require := require_unchanged p || near in
    mret (require,
          if negb require && negb (s =? -1) && (file_pos <? s) && (s <? file_pos + tr) then w32 (s - file_pos)
          else if negb (e =? -1) && (file_pos <? e) && (e <? file_pos + tr) then w32 (e - file_pos)
          else tr).

(** An unchanged piece handed over as null; the callback may answer that it is
    sparse. *)
Definition skip_unchanged (file_pos tr : Z) : pm F C unit :=
  p ← get_cp;
  let p_is_sparse := if negb (unchanged_align p =? 0) && (tr <? unchanged_align p) && (last_sparse_start p =? -1)
                     then None else Some false in
  assert_pos file_pos;;
  r ← cb_bytes None tr false p_is_sparse;
  mod_cp (set_last_unchanged true);;
  if default false r then start_sparse file_pos else end_sparse file_pos.

(** [while(!was_sparse && tr>0 && file_pos<size && file_pos<filesize)] *)
Fixpoint copy_unchanged (fuel : nat) (file_pos tr size : Z) : pm F C Z :=
  p ← get_cp;
  if negb ((0 <? tr) && (file_pos <? size) && (file_pos <? filesize p)) then mret file_pos
  else match fuel with
  | O => no_fuel
  | S k =>
      '(curr_require_unchanged, tr) ← align_unchanged file_pos (Z.min tr buffer_size);
      '(file_pos, tr) ←
        (if (curr_require_unchanged : bool) then
           '(b, err) ← file_Read tr;
           if (err : bool) then return_false
           else
             give_bytes file_pos b false;;
             mret (file_pos + zlen b, w32 (tr - zlen b))
         else
           let tr := if size <? file_pos + tr then w32 (size - file_pos) else tr in
           skip_unchanged file_pos tr;;
           mret (file_pos + tr, 0));
      mod_cp (fun p => if negb (unchanged_align p =? 0) && (file_pos =? unchanged_align_end p)
                       then set_unchanged_align_end (-1) p else p);;
      copy_unchanged k file_pos tr size
  end.

(** The main loop: [ext] is [curr_sparse_extent]; the result is the final
    [file_pos]. *)
Fixpoint apply_loop (fuel : nat) (file_pos size patchf_pos : Z) (has_header : bool) (h : SPatchHeader)
    (ext : SSparseExtent) : pm F C Z :=
  match fuel with
  | O => no_fuel
  | S k =>
      p ← get_cp;
      if negb (((file_pos <? size) && (file_pos <? filesize p)) || has_header) then mret file_pos
      else
        '(has_header, patchf_pos, h) ←
          (if has_header && (patch_off h =? -1) then
             '(has_header, patchf_pos, h, err) ← readNextValidPatch k patchf_pos;
             if (err : bool) then return_false
             else
               (if negb (patch_off h =? -1) && negb (unchanged_align p =? 0) then
                  mod_cp (fun p => set_unchanged_align_end_next (roundUp (patch_off h + patch_size h) (unchanged_align p))
                                     (set_unchanged_align_start (roundDown (patch_off h) (unchanged_align p)) p))
                else mret tt);;
               mret (has_header, patchf_pos, h)
           else mret (has_header, patchf_pos, h));
        if negb has_header && ((filesize p <=? file_pos) || (size <=? file_pos)) then mret file_pos
        else
          let max_read := if unchanged_align p =? 0 then UINT_MAX
                          else w32 (UINT_MAX - Z.rem UINT_MAX (unchanged_align p)) in
          let hoff := s64 (patch_off h - file_pos) in
          let tr := if negb (patch_off h =? -1) && (0 <=? hoff) && (hoff <? max_read) then hoff else max_read in
          assert ((patch_off h =? -1) || (0 <=? hoff));;
          let patching_finished := (tr =? 0) && (filesize p <? file_pos + patch_size h) in
          let h := if patching_finished then mkHeader (patch_off h) (w32 (filesize p - file_pos)) else h in
          assert (patching_finished || (file_pos <? filesize p));;
          '(file_pos, patchf_pos, h, ext) ←
            (if tr =? 0 then
               assert (file_pos =? patch_off h);;
               mod_cp (fun p => set_unchanged_align_end (unchanged_align_end_next p) p);;
               '(patchf_pos, file_pos) ← copy_patch k (patch_size h) patchf_pos file_pos;
               (if require_unchanged p then file_Seek file_pos else mret tt);;
               mret (file_pos, patchf_pos, mkHeader (-1) 0, ext)
             else
               assert ((file_pos <? size) && (file_pos <? filesize p));;
               ext ← skip_extents k file_pos ext;
               let tr := if filesize p <? file_pos + tr then w32 (filesize p - file_pos) else tr in
               r ← sparse_part file_pos tr ext;
               file_pos ← match r with inl file_pos => mret file_pos | inr tr => copy_unchanged k file_pos tr size end;
               mret (file_pos, patchf_pos, h, ext));
          if patching_finished then mret file_pos
          else apply_loop k file_pos size patchf_pos has_header h ext
  end.

Definition ApplyPatch (fuel : nat) : pm F C unit :=
  patch_Seek 0;;
  file_Seek 0;;
  mod_cp (fun p => set_last_unchanged false (set_unchanged_align_end_next (-1)
                     (set_unchanged_align_end (-1) (set_unchanged_align_start (-1) p))));;
  '(b, _) ← patch_Read 8;
  if negb (zlen b =? 8) then return_false
  else
    mod_cp (set_filesize (s64 (le_val b)));;
    p ← get_cp;
    it ← has_iterator;
    (if with_sparse p || it then
       mod_cp (fun p => set_sparse_buf (zresize nul sparse_blocksize (sparse_buf p))
                          (set_curr_changed false (set_curr_only_zeros true (set_last_sparse_start (-1) p))))
     else mret tt);;
    ext ← (if (it : bool) then nextExtent fuel else mret no_extent);
    size ← file_Size;
    file_pos ← apply_loop fuel 0 size 8 true (mkHeader (-1) 0) ext;
    p ← get_cp;
    if with_sparse p then finishChunkPatcher file_pos else mret tt.

End Patcher.
