(* ===== verification/PatchApply.v ===== *)
(** What a patch is applied for: hashing and building the new file.

    [BackupServerPrepareHash] ([urbackupserver/server_prepare_hash.cpp]) hashes the
    new version of a file while the patch is applied, or hashes a complete file;
    [BackupServerHash] ([urbackupserver/server_hash.cpp]) builds the new file from
    the previous version, which the destination may already be a reflink of.  Both
    are callbacks of the chunk patcher.  The hash function is a class, and so are
    punching holes and making room on a full disk. *)
From S2P Require Import Prelude MemFile ExtentIter ChunkPatcher Adler Md5.

(** ** Hashing *)

(** [IHashFunc] and [TreeHash::addHashAllAdler]. *)
Class IHashFunc (H : Type) := {
  hash : H -> bytes -> H;
  sparse_hash : H -> bytes -> H;
  addHashAllAdler : H -> bytes -> Z -> H }.

Definition hash_bsize : Z := 512 * 1024.
Definition c_checkpoint_dist : Z := 512 * 1024.
Definition c_small_hash_dist : Z := 4096.
Definition big_hash_size : Z := 16.
Definition small_hash_size : Z := 4.
Definition chunkhash_single_size : Z := big_hash_size + small_hash_size * Z.quot c_checkpoint_dist c_small_hash_dist.

(** [build_sparse_extent_content]: the chunk hashes of a chunk of [n] times the
    buffer [buf]; of zeros. *)
Definition extent_content (buf : bytes) (n : nat) (uninit : MD5.t) : option bytes :=
  let small_hash := urb_adler32 (urb_adler32 0 None 0) (Some buf) c_small_hash_dist in
  let big_hash := MD5.finalize (Nat.iter n (fun m => MD5.update m buf) (MD5.init uninit)) in
  d ← MD5.raw_digest_int big_hash;
  Some (d ++ concat (replicate n (le_bytes 4 small_hash))).
Definition get_sparse_extent_content (uninit : MD5.t) : option bytes :=
  extent_content (replicate (Z.to_nat c_small_hash_dist) nul) (Z.to_nat (Z.quot c_checkpoint_dist c_small_hash_dist)) uninit.

Section PrepareHash.
Context {F H : Type} `{IFile F} `{IHashFunc H}.
(** [get_sparse_extent_content()] *)
Context (sparse_hashes : bytes).

Record BackupServerPrepareHash := mkPrepare {
  hashf : H; hashoutput_f : option F; file_pos : Z; ph_has_error : bool }.

(** The [assert]s of this function are checks of the chunk sizes; the
    callback's class has no room for a failed [assert], so they are left out. *)
Definition addUnchangedHashes (start size : Z) (is_sparse : option bool) (f : F) (p : BackupServerPrepareHash) :
    option bool * BackupServerPrepareHash :=
  let '(ok, f) := Seek f (8 + Z.quot start hash_bsize * chunkhash_single_size) in
  let '((chunkhashes, err), f) := Read f chunkhash_single_size in
  let has_error := ph_has_error p || negb ok || err in
  let r := zlen chunkhashes in
  let chunkhash_size := big_hash_size + small_hash_size *
    (Z.quot size c_small_hash_dist + (if Z.rem size c_small_hash_dist =? 0 then 0 else 1)) in
  let n := Z.min chunkhash_size r in
  if bool_decide (is_Some is_sparse) && bool_decide (ztake n sparse_hashes = ztake n chunkhashes) then
    (Some true, mkPrepare (hashf p) (Some f) (file_pos p) has_error)
  else (is_sparse, mkPrepare (addHashAllAdler (hashf p) chunkhashes size) (Some f) (file_pos p) has_error).

#[global] Instance prepare_hash_callback : IChunkPatcherCallback BackupServerPrepareHash := {|
  next_chunk_patcher_bytes p buf bsize changed is_sparse :=
    let '(r, p) :=
      match buf, hashoutput_f p with
      | Some b, _ => (is_sparse, mkPrepare (hash (hashf p) b) (hashoutput_f p) (file_pos p) (ph_has_error p))
      | None, Some f =>
          if match is_sparse with Some true => false | _ => true end
          then addUnchangedHashes (file_pos p) bsize is_sparse f p else (is_sparse, p)
      | None, None => (is_sparse, p)
      end in
    (r, mkPrepare (hashf p) (hashoutput_f p) (file_pos p + bsize) (ph_has_error p));
  next_sparse_extent_bytes p buf :=
    mkPrepare (sparse_hash (hashf p) buf) (hashoutput_f p) (file_pos p) (ph_has_error p);
  chunk_patcher_pos p := file_pos p |}.

Definition hash_with_patch (fuel : nat) (hash_with_sparse : bool) (w : world F BackupServerPrepareHash) :
    outcome unit * world F BackupServerPrepareHash :=
  let cp := match hashoutput_f (w_cb w) with
            | None => setUnchangedAlign 0 (setRequireUnchanged true (w_cp w))
            | Some _ => setUnchangedAlign hash_bsize (setRequireUnchanged false (w_cp w))
            end in
  let cb := mkPrepare (hashf (w_cb w)) (hashoutput_f (w_cb w)) 0 (ph_has_error (w_cb w)) in
  ApplyPatch fuel (mkWorld (setWithSparse hash_with_sparse cp) (w_file w) (w_patch w) cb (w_it w)).

(** [hash_sha]: the whole file in blocks; runs of blocks of zeros, and of blocks
    inside a sparse extent, are hashed as a pair of offset and length.  The
    progress callback is left out. *)
Fixpoint hs_skip_extents (fuel : nat) (fpos : Z) (e : SSparseExtent) (it : option (ExtentIterator.t F)) :
    option (SSparseExtent * option (ExtentIterator.t F)) :=
  if negb (offset e =? -1) && (offset e + size e <? fpos) then
    match fuel, it with
    | S k, Some it => '(e, it) ← ExtentIterator.nextExtent fuel it; hs_skip_extents k fpos e (Some it)
    | _, _ => None
    end
  else Some (e, it).

Fixpoint hash_sha_loop (fuel : nat) (hash_with_sparse : bool) (f : F) (it : option (ExtentIterator.t F)) (e : SSparseExtent)
    (fpos skip_start : Z) (hashf : H) : option (bool * H) :=
  match fuel with
  | O => None
  | S k =>
      '(e, it) ← hs_skip_extents k fpos e it;
      if negb (offset e =? -1) && (offset e <=? fpos) && (fpos + hash_bsize <=? offset e + size e) then
        hash_sha_loop k hash_with_sparse f it e (fpos + hash_bsize) (if skip_start =? -1 then fpos else skip_start) hashf
      else
        let f := if negb (skip_start =? -1) then snd (Seek f fpos) else f in
        let '((buf, err), f) := Read f hash_bsize in
        if (err : bool) then Some (false, hashf)
        else if hash_with_sparse && (zlen buf =? hash_bsize) && buf_is_zero buf then
          hash_sha_loop k hash_with_sparse f it e (fpos + hash_bsize) (if skip_start =? -1 then fpos else skip_start) hashf
        else
          let hashf := if negb (skip_start =? -1)
                       then sparse_hash hashf (le_bytes 8 (w64 skip_start) ++ le_bytes 8 (w64 (fpos - skip_start)))
                       else hashf in
          if 0 <? zlen buf then hash_sha_loop k hash_with_sparse f it e (fpos + zlen buf) (-1) (hash hashf buf)
          else Some (true, hashf)
  end.

Definition hash_sha (fuel : nat) (f : F) (extent_iterator : option (ExtentIterator.t F)) (hash_with_sparse : bool) (hashf : H) :
    option (bool * H) :=
  let f := snd (Seek f 0) in
  '(e, it) ← match extent_iterator with
             | Some it => '(e, it) ← ExtentIterator.nextExtent fuel (ExtentIterator.reset it); Some (e, Some it)
             | None => Some (no_extent, None)
             end;
  hash_sha_loop fuel hash_with_sparse f it e 0 (-1) hashf.

End PrepareHash.
Arguments BackupServerPrepareHash F H : clear implicits.

(** ** Building the new file *)

Class IFsFile (F : Type) `{IFile F} := { PunchHole : F -> Z -> Z -> bool * F }.

Section Build.
Context {F : Type} `{IFsFile F}.
(** [handle_not_enough_space] of [BackupServerHash]. *)
Context (handle_not_enough_space : F -> bool).

(** [do .. while(written<bsize && rc>0)] of [writeRepeatFreeSpace]; [rc == 0] at
    the end is a failure. *)
Fixpoint write_rest (fuel : nat) (f : F) (buf : bytes) (written : Z) : bool * F :=
  match fuel with
  | O => (false, f)
  | S k =>
      let '((rc, _), f) := Write f (zdrop written buf) in
      let written := w32 (written + rc) in
      if (written <? zlen buf) && (0 <? rc) then write_rest k f buf written else (negb (rc =? 0), f)
  end.
Definition writeRepeatFreeSpace (f : F) (buf : bytes) : bool * F :=
  let '((rc, _), f) := Write f buf in
  if rc =? zlen buf then (true, f)
  else if handle_not_enough_space f then write_rest (S (length buf)) f buf rc else (false, f).

Record BackupServerHash := mkHash {
  chunk_output_fn : F; chunk_patch_pos : Z; has_reflink : bool; cow_filesize : Z; chunk_patcher_has_error : bool }.

#[global] Instance server_hash_callback : IChunkPatcherCallback BackupServerHash := {|
  next_chunk_patcher_bytes h buf bsize changed is_sparse :=
    let h :=
      match buf with
      | Some b =>
          if negb (has_reflink h) || changed then
            let '(ok, f) := Seek (chunk_output_fn h) (chunk_patch_pos h) in
            let '(written, f) := writeRepeatFreeSpace f b in
            mkHash f (chunk_patch_pos h) (has_reflink h) (cow_filesize h) (chunk_patcher_has_error h || negb ok || negb written)
          else h
      | None => h
      end in
    (is_sparse, mkHash (chunk_output_fn h) (chunk_patch_pos h + bsize) (has_reflink h)
                  (if has_reflink h && changed then cow_filesize h + bsize else cow_filesize h) (chunk_patcher_has_error h));
  next_sparse_extent_bytes h buf := h;
  chunk_patcher_pos h := chunk_patch_pos h |}.

(** [punchHoleOrZero]: zeros in pieces of 32768 bytes when holes are not
    supported. *)
Fixpoint write_zeros (fuel : nat) (f : F) (size written : Z) : option (bool * F) :=
  if size <=? written then Some (true, f)
  else match fuel with
  | O => None
  | S k =>
      let towrite := Z.min (size - written) 32768 in
      let '(ok, f) := writeRepeatFreeSpace f (replicate (Z.to_nat towrite) nul) in
      if (ok : bool) then write_zeros k f size (written + towrite) else Some (false, f)
  end.
Definition punchHoleOrZero (f : F) (offset size : Z) : option (bool * F) :=
  let '(ok, f) := PunchHole f offset size in
  if (ok : bool) then Some (true, f)
  else
    let '(ok, f) := Seek f offset in
    if (ok : bool) then write_zeros (S (Z.to_nat (size / 32768))) f size 0 else Some (false, f).

(** The loop over the extents after patching: the file, whether a hole could not
    be punched, the size it must have, and whether it must be resized. *)
Fixpoint punch_extents (fuel : nat) (f : F) (it : ExtentIterator.t F) (e : SSparseExtent) (err : bool) (dstfsize : Z)
    (sparse_resize : bool) : option (F * bool * Z * bool) :=
  if offset e =? -1 then Some (f, err, dstfsize, sparse_resize)
  else match fuel with
  | O => None
  | S k =>
      '(ok, f) ← punchHoleOrZero f (offset e) (size e);
      let grow := dstfsize <? offset e + size e in
      '(e', it) ← ExtentIterator.nextExtent fuel it;
      punch_extents k f it e' (err || negb ok) (if grow then offset e + size e else dstfsize) (sparse_resize || grow)
  end.

(** [patchFile] from the point where the destination, a reflink of the source or
    empty, and the source are open, to where the hash output is copied.  [Some
    (true, f)]: the new file; [None]: an [assert] fails or a loop does not end. *)
Definition patchFile (fuel : nat) (cp : ChunkPatcher) (dest source patch : F) (extent_iterator : option (ExtentIterator.t F))
    (reflinked : bool) (tfilesize : Z) : option (bool * F) :=
  let h := mkHash dest 0 reflinked 0 false in
  let '(r, w) := ApplyPatch fuel (mkWorld (setRequireUnchanged (negb reflinked) cp) source patch h extent_iterator) in
  b ← match r with Val _ => Some true | RetFalse => Some false | _ => None end;
  let f := chunk_output_fn (w_cb w) in
  '(f, punch_err, dstfsize, sparse_resize) ←
    match w_it w with
    | None => Some (f, false, Size f, false)
    | Some it => '(e, it) ← ExtentIterator.nextExtent fuel (ExtentIterator.reset it);
                 punch_extents fuel f it e false (Size f) false
    end;
  let '(resized, f) := if (sparse_resize : bool) then Resize f dstfsize else (true, f) in
  if negb resized then Some (false, f)
  else if chunk_patcher_has_error (w_cb w) || punch_err || negb b then Some (false, f)
  else if negb (getFilesize (w_cp w) =? tfilesize) then None
  else if getFilesize (w_cp w) <? dstfsize then Some (Resize f (getFilesize (w_cp w)))
  else if dstfsize =? tfilesize then Some (true, f) else None.

End Build.
Arguments BackupServerHash F : clear implicits.
