(* ===== verification/PatchLoop.v ===== *)
(** Running the patcher: when a computation of [ChunkPatcher.v] ends with a value,
    rules for its steps, the list of extents an extent iterator yields, and what
    applying a patch does for any callback. *)
From S2P Require Import Prelude MemFile ExtentIter ChunkPatcher PatchApply.

(** * Running the patcher

    [run Q m w]: [m] ends with a value, in a state, of which [Q] holds. *)
Section Run.
Context {F C : Type} `{FileLaws F} `{IChunkPatcherCallback C}.

Definition run {A} (Q : A -> world F C -> Prop) (m : pm F C A) (w : world F C) : Prop :=
  match m w with (Val a, w') => Q a w' | _ => False end.

Lemma run_ret {A} (Q : A -> world F C -> Prop) a w : Q a w -> run Q (mret a) w.
Proof. done. Qed.
Lemma run_bind {A B} (Q : B -> world F C -> Prop) (m : pm F C A) (k : A -> pm F C B) w :
  run (fun a => run Q (k a)) m w -> run Q (m ≫= k) w.
Proof. unfold run, mbind, pm_bind. by destruct (m w) as [[] ?]. Qed.
Lemma run_mono {A} (Q Q' : A -> world F C -> Prop) (m : pm F C A) w :
  run Q m w -> (forall a w', Q a w' -> Q' a w') -> run Q' m w.
Proof. unfold run. destruct (m w) as [[] ?]; auto. Qed.
Lemma run_inv {A} (Q : A -> world F C -> Prop) (m : pm F C A) w :
  run Q m w -> exists a w', m w = (Val a, w') /\ Q a w'.
Proof. unfold run. destruct (m w) as [[] w']; try done. eauto. Qed.

Lemma run_get_cp Q w : Q (w_cp w) w -> run Q get_cp w.
Proof. done. Qed.
Lemma run_get_cb Q w : Q (w_cb w) w -> run Q get_cb w.
Proof. done. Qed.
Lemma run_mod_cp (Q : unit -> world F C -> Prop) f w :
  Q tt (mkWorld (f (w_cp w)) (w_file w) (w_patch w) (w_cb w) (w_it w)) -> run Q (mod_cp f) w.
Proof. done. Qed.
Lemma run_assert (Q : unit -> world F C -> Prop) b w : b = true -> Q tt w -> run Q (assert b) w.
Proof. by intros ->. Qed.
Lemma run_assert_pos (Q : unit -> world F C -> Prop) pos w :
  chunk_patcher_pos (w_cb w) = pos -> Q tt w -> run Q (assert_pos pos) w.
Proof.
  intros E HQ. unfold assert_pos. apply run_bind, run_get_cb, run_assert; [|done].
  rewrite E, Z.eqb_refl. apply orb_true_r.
Qed.
Lemma run_cb_bytes Q buf n changed s w :
  (forall r c, next_chunk_patcher_bytes (w_cb w) buf n changed s = (r, c) ->
     Q r (mkWorld (w_cp w) (w_file w) (w_patch w) c (w_it w))) ->
  run Q (cb_bytes buf n changed s) w.
Proof. unfold run, cb_bytes. intros HQ. destruct next_chunk_patcher_bytes. by apply HQ. Qed.
Lemma run_cb_sparse_extent (Q : unit -> world F C -> Prop) buf w :
  Q tt (mkWorld (w_cp w) (w_file w) (w_patch w) (next_sparse_extent_bytes (w_cb w) buf) (w_it w)) ->
  run Q (cb_sparse_extent buf) w.
Proof. done. Qed.
Lemma run_file_Size Q w : Q (zlen (contents (w_file w))) w -> run Q file_Size w.
Proof. unfold run, file_Size. by rewrite size_law. Qed.
Lemma run_in_bounds {A} (Q : A -> world F C -> Prop) o a w : o = Some a -> Q a w -> run Q (in_bounds o) w.
Proof. by intros ->. Qed.
Lemma run_has_iterator Q w : Q (bool_decide (is_Some (w_it w))) w -> run Q has_iterator w.
Proof. done. Qed.

(** The files: reading, seeking. *)
Lemma run_file_Read Q n w :
  0 <= n ->
  (forall f, contents f = contents (w_file w) ->
     fpos f = fpos (w_file w) + zlen (file_read (contents (w_file w)) (fpos (w_file w)) n) ->
     Q (file_read (contents (w_file w)) (fpos (w_file w)) n, false) (mkWorld (w_cp w) f (w_patch w) (w_cb w) (w_it w))) ->
  run Q (file_Read n) w.
Proof.
  intros Hn HQ. unfold run, file_Read. destruct (read_law (w_file w) n Hn) as (E & E1 & E2).
  rewrite E. by apply HQ.
Qed.
Lemma run_patch_Read Q n w :
  0 <= n ->
  (forall f, contents f = contents (w_patch w) ->
     fpos f = fpos (w_patch w) + zlen (file_read (contents (w_patch w)) (fpos (w_patch w)) n) ->
     Q (file_read (contents (w_patch w)) (fpos (w_patch w)) n, false) (mkWorld (w_cp w) (w_file w) f (w_cb w) (w_it w))) ->
  run Q (patch_Read n) w.
Proof.
  intros Hn HQ. unfold run, patch_Read. destruct (read_law (w_patch w) n Hn) as (E & E1 & E2).
  rewrite E. by apply HQ.
Qed.
Lemma run_file_Seek (Q : unit -> world F C -> Prop) p w :
  0 <= p ->
  (forall f, contents f = contents (w_file w) -> fpos f = p ->
     Q tt (mkWorld (w_cp w) f (w_patch w) (w_cb w) (w_it w))) ->
  run Q (file_Seek p) w.
Proof. intros Hp HQ. destruct (seek_law (w_file w) p Hp) as (_ & E1 & E2). unfold run, file_Seek. by apply HQ. Qed.
Lemma run_patch_Seek (Q : unit -> world F C -> Prop) p w :
  0 <= p ->
  (forall f, contents f = contents (w_patch w) -> fpos f = p ->
     Q tt (mkWorld (w_cp w) (w_file w) f (w_cb w) (w_it w))) ->
  run Q (patch_Seek p) w.
Proof. intros Hp HQ. destruct (seek_law (w_patch w) p Hp) as (_ & E1 & E2). unfold run, patch_Seek. by apply HQ. Qed.
End Run.

(** * Extents on disk *)

(** What the iterator yields for a stored list: the extents in whole blocks, up
    to the first that has no whole block. *)
Fixpoint shrunk (bs : Z) (l : list SSparseExtent) : list SSparseExtent :=
  match l with
  | [] => []
  | e :: l =>
      let ofs := roundUp (offset e) bs in
      let en := roundDown (offset e + size e) bs in
      if ofs <? en then mkExtent ofs (en - ofs) :: shrunk bs l else []
  end.
Definition extent_ok (e : SSparseExtent) : Prop := 0 <= offset e < 2 ^ 63 /\ - 2 ^ 63 <= size e < 2 ^ 63.
Definition extents_file (l : list SSparseExtent) (rest : bytes) : bytes :=
  le_bytes 8 (zlen l) ++ concat (map extent_bytes l) ++ rest.

Lemma zlen_extent_bytes e : zlen (extent_bytes e) = 16.
Proof. unfold extent_bytes. by rewrite zlen_app, !zlen_le_bytes. Qed.
Lemma extent_of_bytes e : extent_ok e -> extent_of (extent_bytes e) = e.
Proof.
  intros [Ho Hs]. unfold extent_of, extent_bytes. destruct e as [o s]; cbn [offset size] in *.
  assert (L : forall v, zlen (le_bytes 8 v) = 8) by (intros; apply zlen_le_bytes).
  rewrite <- (L (w64 o)) at 1 2. rewrite ztake_app_zlen, zdrop_app_zlen, !le_val_le_bytes.
  change (256 ^ Z.of_nat 8) with (2 ^ 64). fold (w64 (w64 o)) (w64 (w64 s)).
  rewrite (w64_id (w64 o)), (w64_id (w64 s)) by apply w64_range. rewrite !s64_w64 by lia. done.
Qed.
Lemma roundUp_ge a b : 0 <= a -> 0 < b -> a <= roundUp a b.
Proof.
  intros. unfold roundUp. rewrite Z.quot_div_nonneg by lia.
  pose proof (Z.div_mod (a + b - 1) b ltac:(lia)). pose proof (Z.mod_pos_bound (a + b - 1) b ltac:(lia)). nia.
Qed.
Lemma roundDown_mod a b : 0 <= a -> 0 < b -> roundDown a b = a - a mod b.
Proof. intros. unfold roundDown. rewrite Z.quot_div_nonneg by lia. pose proof (Z.div_mod a b ltac:(lia)). lia. Qed.

Section Extents.
Context {F : Type} `{FileLaws F}.
Context (bs : Z) (Hbs : 0 < bs) (l : list SSparseExtent) (rest : bytes) (Hl : Forall extent_ok l) (Hn : zlen l < 2 ^ 60).
Notation E := (extents_file l rest).

Definition it_on (it : ExtentIterator.t F) : Prop :=
  ExtentIterator.blocksize it = bs /\ exists f, ExtentIterator.sparse_extents_f it = Some f /\ contents f = E.
Fixpoint yields (it : ExtentIterator.t F) (k : list SSparseExtent) : Prop :=
  it_on it /\
  match k with
  | [] => exists it', (forall fuel, ExtentIterator.nextExtent (S fuel) it = Some (no_extent, it')) /\ it_on it'
  | e :: k => (0 <= offset e /\ 0 < size e) /\
      exists it', (forall fuel, ExtentIterator.nextExtent (S fuel) it = Some (e, it')) /\ yields it' k
  end.

(** The iterator before the extents [k] of the list. *)
Definition it_at (k : list SSparseExtent) (it : ExtentIterator.t F) : Prop :=
  ExtentIterator.blocksize it = bs /\ ExtentIterator.num_sparse_extents it = zlen l /\
  ExtentIterator.next_sparse_extent_num it = zlen l - zlen k /\
  exists f, ExtentIterator.sparse_extents_f it = Some f /\ contents f = E /\
    zdrop (fpos f) E = concat (map extent_bytes k) ++ rest.

Lemma it_at_on k it : it_at k it -> it_on it.
Proof. intros (? & ? & ? & f & ? & ? & ?). split; eauto. Qed.

Lemma it_at_yields k it : Forall extent_ok k -> it_at k it -> yields it (shrunk bs k).
Proof.
  revert it. induction k as [|e k IH]; intros it Hk (Hb & Hnum & Hnext & f & Hf & Hc & Hd).
  - cbn [shrunk yields]. split; [split; eauto|]. exists (ExtentIterator.with_file (Some f) it).
    change (zlen (@nil SSparseExtent)) with 0 in Hnext. pose proof (zlen_nonneg l). split.
    + intros fuel. unfold ExtentIterator.nextExtent. rewrite Hnum, (proj2 (Z.eqb_neq (zlen l) (-1))) by lia.
      rewrite Hf. cbn [ExtentIterator.next_loop]. rewrite Hnum, Hnext, (proj2 (Z.ltb_ge _ _)) by lia. done.
    + split; [done|]. by exists f.
  - apply Forall_cons_1 in Hk as [He Hk]. cbn [shrunk]. rewrite zlen_cons in Hnext. pose proof (zlen_nonneg l).
    pose proof (zlen_nonneg k). destruct (read_law f 16 ltac:(lia)) as (Er & Ec & Ep).
    assert (Hr : file_read (contents f) (fpos f) 16 = extent_bytes e).
    { unfold file_read, zsub. rewrite Hc, Hd. cbn [map concat]. rewrite <- app_assoc, <- (zlen_extent_bytes e).
      apply ztake_app_zlen. }
    rewrite Hr in Er, Ep. rewrite zlen_extent_bytes in Ep. set (f' := snd (Read f 16)) in *.
    assert (Hat : it_at k (ExtentIterator.with_file (Some f') (ExtentIterator.with_next (ExtentIterator.next_sparse_extent_num it + 1) it))).
    { split; [done|]. split; [done|]. split; [cbn; lia|]. exists f'. split; [done|]. split; [by rewrite Ec|].
      rewrite Ep. rewrite <- zdrop_zdrop by (try lia; apply fpos_nonneg). rewrite Hd. cbn [map concat].
      rewrite <- app_assoc, <- (zlen_extent_bytes e). apply zdrop_app_zlen. }
    assert (Hne : forall fuel, ExtentIterator.nextExtent (S fuel) it =
      let ret_end := roundDown (offset e + size e) bs in
      let ofs := roundUp (offset e) bs in
      if ofs <? ret_end then Some (mkExtent ofs (ret_end - ofs),
             ExtentIterator.with_file (Some f') (ExtentIterator.with_next (ExtentIterator.next_sparse_extent_num it + 1) it))
      else Some (no_extent, ExtentIterator.with_file (Some f') (ExtentIterator.with_next (ExtentIterator.next_sparse_extent_num it + 1) it))).
    { intros fuel. unfold ExtentIterator.nextExtent. rewrite Hnum, (proj2 (Z.eqb_neq (zlen l) (-1))) by lia.
      rewrite Hf. cbn [ExtentIterator.next_loop]. rewrite Hnum, Hnext, (proj2 (Z.ltb_lt _ _)) by lia.
      cbn [andb Z.eqb Pos.eqb]. unfold sizeof_SSparseExtent. rewrite Er. cbn [fst snd].
      rewrite zlen_extent_bytes. cbn [Z.eqb Pos.eqb negb]. rewrite extent_of_bytes by done.
      cbn [ExtentIterator.blocksize ExtentIterator.with_next]. rewrite Hb. cbn zeta. rewrite <- Hnext.
      destruct (Z.ltb_spec (roundUp (offset e) bs) (roundDown (offset e + size e) bs)); [done|].
      destruct He as [Ho _]. pose proof (roundUp_ge (offset e) bs ltac:(lia) Hbs).
      destruct fuel; cbn [ExtentIterator.next_loop]; rewrite (proj2 (Z.eqb_neq (roundUp _ _) (-1))), andb_false_r by lia; done. }
    cbn zeta in Hne. destruct (Z.ltb_spec (roundUp (offset e) bs) (roundDown (offset e + size e) bs)).
    + cbn [yields]. split; [split; eauto|]. split.
      * cbn [offset size]. destruct He as [Ho _]. pose proof (roundUp_ge (offset e) bs ltac:(lia) Hbs). lia.
      * eexists. split; [exact Hne|]. by apply IH.
    + cbn [yields]. split; [split; eauto|]. eexists. split; [exact Hne|]. by eapply it_at_on.
Qed.

(** From its start, a new or a reset iterator yields the whole list. *)
Lemma start_yields it :
  it_on it -> ExtentIterator.num_sparse_extents it = -1 -> ExtentIterator.next_sparse_extent_num it = 0 ->
  (forall f, ExtentIterator.sparse_extents_f it = Some f -> fpos f = 0) -> yields it (shrunk bs l).
Proof.
  intros Hon Hnum Hnext Hpos. pose proof Hon as (Hb & f & Hf & Hc). specialize (Hpos f Hf).
  destruct (read_law f 8 ltac:(lia)) as (Er & Ec & Ep).
  assert (L : zlen (le_bytes 8 (zlen l)) = 8) by apply zlen_le_bytes. pose proof (zlen_nonneg l).
  assert (Hr : file_read (contents f) (fpos f) 8 = le_bytes 8 (zlen l)).
  { unfold file_read, zsub. rewrite Hpos, zdrop_0, Hc. unfold extents_file. rewrite <- L at 1. apply ztake_app_zlen. }
  rewrite Hr in Er, Ep. rewrite L, Hpos in Ep. set (f' := snd (Read f 8)) in *.
  set (it1 := ExtentIterator.with_num (zlen l) (ExtentIterator.with_file (Some f') it)).
  assert (Hat : it_at l it1).
  { split; [done|]. split; [done|]. split; [cbn; lia|]. exists f'. split; [done|]. split; [by rewrite Ec|].
    rewrite Ep. unfold extents_file. change (0 + 8) with 8. rewrite <- L. apply zdrop_app_zlen. }
  assert (Hne : forall fuel, ExtentIterator.nextExtent (S fuel) it = ExtentIterator.nextExtent (S fuel) it1).
  { intros fuel. unfold ExtentIterator.nextExtent at 1. rewrite Hnum. cbn [Z.eqb Pos.eqb]. rewrite Hf, Er. cbn [fst snd].
    rewrite L. cbn [Z.eqb Pos.eqb]. rewrite le_val_le_bytes. change (256 ^ Z.of_nat 8) with (2 ^ 64).
    fold (w64 (zlen l)). rewrite s64_w64 by lia. fold it1. unfold ExtentIterator.nextExtent.
    change (ExtentIterator.num_sparse_extents it1) with (zlen l). by rewrite (proj2 (Z.eqb_neq (zlen l) (-1))) by lia. }
  pose proof (it_at_yields l it1 Hl Hat) as Hy. destruct (shrunk bs l) as [|e k]; cbn [yields] in *.
  - destruct Hy as (_ & it' & Hy & Hy'). split; [done|]. exists it'. split; [|done]. intros. by rewrite Hne.
  - destruct Hy as (_ & He & it' & Hy & Hy'). split; [done|]. split; [done|]. exists it'. split; [|done].
    intros. by rewrite Hne.
Qed.
Lemma reset_yields it : it_on it -> yields (ExtentIterator.reset it) (shrunk bs l).
Proof.
  intros (Hb & f & Hf & Hc). destruct (seek_law f 0 ltac:(lia)) as (_ & E1 & E2). unfold ExtentIterator.reset. rewrite Hf.
  apply start_yields; [|done..|].
  - split; [done|]. eexists. split; [done|]. by rewrite E1.
  - cbn. intros f' [= <-]. done.
Qed.
Lemma init_yields f : contents f = E -> yields (ExtentIterator.init (Some f) bs) (shrunk bs l).
Proof.
  intros Hc. destruct (seek_law f 0 ltac:(lia)) as (_ & E1 & E2). unfold ExtentIterator.init.
  apply start_yields; [|done..|].
  - split; [done|]. eexists. split; [done|]. by rewrite E1.
  - cbn. intros f' [= <-]. done.
Qed.
Lemma yields_on it k : yields it k -> it_on it.
Proof. destruct k; by intros [? _]. Qed.
End Extents.

(** * Applying a patch, for any callback: what a patch must be for a pair of an old
    and a new file ([patches]), and the proof that [ApplyPatch] then hands over the
    new file.

    The callback, with the part of the patcher that collects blocks, is behind the
    class [Emitter]: an invariant [Inv p] (everything before [p] has been handed
    over) that the three ways of handing over preserve.  The theorems of
    [PatchBuild.v] and [PatchHash.v] are its instances. *)

(** * Patches *)

(** A record of a patch file: valid, at an offset, or marked invalid. *)
Inductive precord := Valid (off : Z) (data : bytes) | Invalid (data : bytes).
Definition rec_bytes (r : precord) : bytes :=
  match r with
  | Valid off d => le_bytes 8 (w64 off) ++ le_bytes 4 (zlen d) ++ d
  | Invalid d => le_bytes 8 (w64 (-1)) ++ le_bytes 4 (zlen d) ++ d
  end.
Definition recs_bytes (rs : list precord) : bytes := concat (map rec_bytes rs).
Definition patch_bytes (N : Z) (rs : list precord) : bytes := le_bytes 8 (w64 N) ++ recs_bytes rs.

Definition in_ext (es : list SSparseExtent) (q : Z) : Prop :=
  exists e, In e es /\ offset e <= q < offset e + size e.

(** Between [p] and [q] the old file has the new contents, outside the extents. *)
Definition unchanged (es : list SSparseExtent) (old new : bytes) (p q : Z) : Prop :=
  (p < q -> q <= zlen old) /\
  forall i, p <= i < q -> in_ext es i \/ znth nul old i = znth nul new i.

(** The records [rs] make the new file out of the old one from [p] on: they come
    in order, their data is the new contents, and what they leave out is
    unchanged.  A record that reaches past the end of the new file ends it. *)
Fixpoint patches (es : list SSparseExtent) (old new : bytes) (p : Z) (rs : list precord) : Prop :=
  match rs with
  | [] => p <= zlen new /\ unchanged es old new p (zlen new)
  | Invalid d :: rs => zlen d < 2 ^ 32 /\ patches es old new p rs
  | Valid off d :: rs =>
      p <= off <= zlen new /\ unchanged es old new p off /\ 0 < zlen d < 2 ^ 32 /\
      (forall i, off <= i < zlen new -> i < off + zlen d -> znth nul d (i - off) = znth nul new i) /\
      (off + zlen d <= zlen new -> patches es old new (off + zlen d) rs)
  end.

(** Deciding it, for examples. *)
Definition all_between (p q : Z) (f : Z -> bool) : bool :=
  forallb (fun i => f (p + Z.of_nat i)) (seq 0 (Z.to_nat (q - p))).
Lemma all_between_ok p q f i : all_between p q f = true -> p <= i < q -> f i = true.
Proof.
  unfold all_between. rewrite forallb_forall. intros Hf Hi. replace i with (p + Z.of_nat (Z.to_nat (i - p))) by lia.
  apply Hf, in_seq. lia.
Qed.
Definition in_extb (es : list SSparseExtent) (q : Z) : bool :=
  existsb (fun e => (offset e <=? q) && (q <? offset e + size e)) es.
Lemma in_extb_ok es q : in_extb es q = true <-> in_ext es q.
Proof.
  unfold in_extb, in_ext. rewrite existsb_exists. split; intros (e & Hin & Hx); exists e; (split; [done|]);
    rewrite andb_true_iff, Z.leb_le, Z.ltb_lt in *; done.
Qed.
Definition unchangedb (es : list SSparseExtent) (old new : bytes) (p q : Z) : bool :=
  ((q <=? p) || (q <=? zlen old)) && all_between p q (fun i => in_extb es i || ceq (znth nul old i) (znth nul new i)).
Fixpoint patchesb (es : list SSparseExtent) (old new : bytes) (p : Z) (rs : list precord) : bool :=
  match rs with
  | [] => (p <=? zlen new) && unchangedb es old new p (zlen new)
  | Invalid d :: rs => (zlen d <? 2 ^ 32) && patchesb es old new p rs
  | Valid off d :: rs =>
      (p <=? off) && (off <=? zlen new) && unchangedb es old new p off && (0 <? zlen d) && (zlen d <? 2 ^ 32) &&
      all_between off (Z.min (zlen new) (off + zlen d)) (fun i => ceq (znth nul d (i - off)) (znth nul new i)) &&
      ((zlen new <? off + zlen d) || patchesb es old new (off + zlen d) rs)
  end.
Lemma unchangedb_ok es old new p q : unchangedb es old new p q = true -> unchanged es old new p q.
Proof.
  unfold unchangedb. rewrite andb_true_iff, orb_true_iff, !Z.leb_le. intros [Hq Ha]. split; [lia|].
  intros i Hi. pose proof (all_between_ok _ _ _ i Ha Hi) as Hx. cbn in Hx.
  apply orb_true_iff in Hx as [Hx|Hx]; [left; by apply in_extb_ok|right; by destruct (ceq_spec (znth nul old i) (znth nul new i))].
Qed.
Lemma patchesb_ok es old new p rs : patchesb es old new p rs = true -> patches es old new p rs.
Proof.
  revert p. induction rs as [|[off d|d] rs IH]; intros p; cbn [patchesb patches];
    rewrite ?andb_true_iff, ?orb_true_iff, ?Z.leb_le, ?Z.ltb_lt.
  - intros [? ?]. split; [done|]. by apply unchangedb_ok.
  - intros ((((((H1 & H2) & H3) & H4) & H5) & H6) & H7). split; [lia|]. split; [by apply unchangedb_ok|]. split; [lia|].
    split; [|intros ?; apply IH; destruct H7; [lia|done]]. intros i Hi Hi'.
    pose proof (all_between_ok _ _ _ i H6 ltac:(lia)) as Hx. cbn in Hx. by destruct (ceq_spec (znth nul d (i - off)) (znth nul new i)).
  - intros [? ?]. auto.
Qed.

Section Patches.
Context (es : list SSparseExtent) (old new : bytes).
Lemma unchanged_from p p' q : p <= p' -> unchanged es old new p q -> unchanged es old new p' q.
Proof. intros ? [H1 H2]. split; [lia|]. intros i Hi. apply H2. lia. Qed.
End Patches.

Lemma zlen_rec_bytes r : zlen (rec_bytes r) = 12 + zlen (match r with Valid _ d | Invalid d => d end).
Proof. destruct r; cbn [rec_bytes]; rewrite !zlen_app, !zlen_le_bytes; lia. Qed.

(** Reading a header. *)
Lemma header_bytes v n d :
  ztake 12 (le_bytes 8 v ++ le_bytes 4 n ++ d) = le_bytes 8 v ++ le_bytes 4 n.
Proof.
  rewrite app_assoc. replace 12 with (zlen (le_bytes 8 v ++ le_bytes 4 n)) by by rewrite zlen_app, !zlen_le_bytes.
  apply ztake_app_zlen.
Qed.
Lemma header_off v n : - 2 ^ 63 <= v < 2 ^ 63 -> s64 (le_val (ztake 8 (le_bytes 8 (w64 v) ++ le_bytes 4 n))) = v.
Proof.
  intros Hv. change 8 with (Z.of_nat 8). rewrite <- (zlen_le_bytes 8 (w64 v)), ztake_app_zlen, le_val_le_bytes.
  change (256 ^ Z.of_nat 8) with (2 ^ 64). fold (w64 (w64 v)). rewrite w64_id by apply w64_range. by apply s64_w64.
Qed.
Lemma header_len v n : 0 <= n < 2 ^ 32 -> le_val (zdrop 8 (le_bytes 8 v ++ le_bytes 4 n)) = n.
Proof.
  intros Hn. change 8 with (Z.of_nat 8). rewrite <- (zlen_le_bytes 8 v), zdrop_app_zlen, le_val_le_bytes.
  apply Z.mod_small. done.
Qed.

(** * The main loop, for any way of emitting *)

Section Loop.
Context {F C : Type} `{FileLaws F} `{IChunkPatcherCallback C}.
Notation world := (world F C).
Context (old new : bytes) (HN : zlen new < 2 ^ 62) (HO : zlen old < 2 ^ 62).
Context (bs : Z) (Hbs : 0 < bs) (l : list SSparseExtent) (rest : bytes).
Notation es := (shrunk bs l).
Notation N := (zlen new).
Context (ru ws has_it : bool).
(** When unchanged data is read, a file with extents is below 4 GiB: the
    position in the old file is not moved past an extent. *)
Context (Hbig : ru = true -> l <> [] -> N <= UINT_MAX).

(** A byte handed over for position [q]: the new one, or, where an extent will be
    punched, one of the old file's inside an extent. *)
Definition okb (q : Z) (c : char) : Prop :=
  c = znth nul new q \/ (in_ext es q /\ exists q', in_ext es q' /\ c = znth nul old q').

Definition config (cp : ChunkPatcher) : Prop :=
  filesize cp = N /\ require_unchanged cp = ru /\ with_sparse cp = ws /\ unchanged_align cp = 0.

(** What a step leaves alone. *)
Definition same_files (w w' : world) : Prop :=
  w_file w' = w_file w /\ w_patch w' = w_patch w /\ w_it w' = w_it w.

(** The emitter: [Inv p] holds when everything before [p] has been handed over. *)
Class Emitter (Inv : Z -> ChunkPatcher -> C -> Prop) : Prop := {
  em_config p cp cb : Inv p cp cb -> config cp;
  em_align v p cp cb : Inv p cp cb -> Inv p (set_unchanged_align_end v cp) cb;
  em_give p b changed (w : world) :
    Inv p (w_cp w) (w_cb w) -> 0 <= p -> 0 < zlen b <= buffer_size -> p + zlen b <= N -> (ru = true \/ changed = true) ->
    (forall i, 0 <= i < zlen b -> okb (p + i) (znth nul b i)) ->
    run (fun _ w' => Inv (p + zlen b) (w_cp w') (w_cb w') /\ same_files w w') (give_bytes p b changed) w;
  em_sparse p tr (w : world) :
    Inv p (w_cp w) (w_cb w) -> 0 <= p -> p mod sparse_blocksize = 0 -> 0 < tr -> tr mod sparse_blocksize = 0 ->
    p + tr <= N -> p + tr <= zlen old -> (forall q, p <= q < p + tr -> in_ext es q) ->
    run (fun _ w' => Inv (p + tr) (w_cp w') (w_cb w') /\ same_files w w')
      (if ws then nextChunkPatcherBytes p [] tr false true
       else assert_pos p;; _ ← cb_bytes None tr false (Some true); mret tt) w;
  em_skip p tr (w : world) :
    ru = false -> Inv p (w_cp w) (w_cb w) -> 0 <= p -> 0 < tr -> p + tr <= N -> unchanged es old new p (p + tr) ->
    run (fun _ w' => Inv (p + tr) (w_cp w') (w_cb w') /\ same_files w w') (skip_unchanged p tr) w }.

Context (Inv : Z -> ChunkPatcher -> C -> Prop) `{!Emitter Inv}.

(** The patch file before the bytes [rem] of it. *)
Definition patch_at (P rem : bytes) (w : world) : Prop :=
  contents (w_patch w) = P /\ zdrop (fpos (w_patch w)) P = rem.

(** The position in the old file, in a stretch of unchanged data that ends at
    [send]. *)
Definition file_ok (p send : Z) (w : world) : Prop :=
  contents (w_file w) = old /\
  (ru = true -> fpos (w_file w) = p \/
     (0 <= fpos (w_file w) <= p /\ exists e, In e es /\ offset e <= fpos (w_file w) /\ send <= offset e + size e)).

(** The extent iterator stays what it is. *)
Definition its_ok (w : world) : Prop :=
  if has_it then exists it, w_it w = Some it /\ it_on bs l rest it else w_it w = None.
Lemma its_ok_next (w w' : world) it it' :
  its_ok w -> w_it w = Some it -> w_it w' = Some it' -> it_on bs l rest it' -> its_ok w'.
Proof. unfold its_ok. destruct has_it; [eauto|congruence]. Qed.

(** The current extent and the iterator behind it. *)
Definition ext_ok (ext : SSparseExtent) (k : list SSparseExtent) (w : world) : Prop :=
  its_ok w /\
  ((offset ext = -1 /\ k = []) \/
   (In ext es /\ 0 <= offset ext /\ 0 < size ext /\ incl k es /\
    exists it, w_it w = Some it /\ yields bs l rest it k)).
Lemma ext_ok_same ext k (w w' : world) : w_it w' = w_it w -> ext_ok ext k w -> ext_ok ext k w'.
Proof. unfold ext_ok, its_ok. by intros ->. Qed.

Lemma rem_read P rem w n :
  patch_at P rem w -> 0 <= n -> file_read (contents (w_patch w)) (fpos (w_patch w)) n = ztake n rem.
Proof. intros [-> <-] Hn. done. Qed.
Lemma patch_at_read P rem w f cp cb it n :
  patch_at P rem w -> 0 <= n -> contents f = contents (w_patch w) ->
  fpos f = fpos (w_patch w) + zlen (ztake n rem) ->
  patch_at P (zdrop n rem) (mkWorld cp (w_file w) f cb it).
Proof.
  intros [HP Hr] Hn Hc Hf. split; [by rewrite <- HP|]. cbn [w_patch]. rewrite Hf, zlen_ztake by done.
  rewrite <- zdrop_zdrop by (try apply fpos_nonneg; pose proof (zlen_nonneg rem); lia). rewrite Hr.
  destruct (Z.le_gt_cases n (zlen rem)); [by rewrite Z.min_l by lia|].
  rewrite Z.min_r by lia. rewrite !zdrop_ge by lia. done.
Qed.

(** ** The patch *)

Definition pending (R : nat) (P : bytes) (p : Z) (has_header : bool) (h : SPatchHeader) (w : world) : Prop :=
  (has_header = true /\ patch_off h = -1 /\
     exists rs, patches es old new p rs /\ (length rs <= R)%nat /\ patch_at P (recs_bytes rs) w) \/
  (has_header = true /\ exists off d rs, h = mkHeader off (zlen d) /\ patches es old new p (Valid off d :: rs) /\
     (length rs <= R)%nat /\ patch_at P (d ++ recs_bytes rs) w) \/
  (has_header = false /\ patch_off h = -1 /\ patches es old new p []).

Lemma zdrop_12 a n d : zdrop 12 (le_bytes 8 a ++ le_bytes 4 n ++ d) = d.
Proof.
  rewrite app_assoc. replace 12 with (zlen (le_bytes 8 a ++ le_bytes 4 n)) by by rewrite zlen_app, !zlen_le_bytes.
  apply zdrop_app_zlen.
Qed.

Lemma run_readNextValidPatch R P p rs fuel (w : world) :
  patches es old new p rs -> 0 <= p -> (length rs <= R)%nat -> patch_at P (recs_bytes rs) w -> (length rs < fuel)%nat ->
  run (fun '(has_header, pos, h, err) w' =>
         err = false /\ (exists f, w' = mkWorld (w_cp w) (w_file w) f (w_cb w) (w_it w)) /\ pos = fpos (w_patch w') /\
         (has_header = false \/ patch_off h <> -1) /\ pending R P p has_header h w')
    (readNextValidPatch fuel (fpos (w_patch w))) w.
Proof.
  revert rs w. induction fuel as [|fuel IH]; intros rs w Hp Hp0 HR Hat Hfuel; [lia|]. cbn [readNextValidPatch].
  apply run_bind, run_patch_Read; [lia|]. intros f Hc Hf. rewrite (rem_read P _ _ 12 Hat) in * by lia.
  pose proof (patch_at_read P _ w f (w_cp w) (w_cb w) (w_it w) 12 Hat ltac:(lia) Hc Hf) as Hat'.
  destruct rs as [|[off d|d] rs].
  - cbn [recs_bytes map concat] in *. cbn. split; [done|]. split; [by eexists|]. split; [cbn; rewrite Hf; done|]. split; [by left|].
    right; right. done.
  - unfold recs_bytes in *. cbn [map concat rec_bytes] in *. rewrite <- !app_assoc in *.
    rewrite header_bytes, zdrop_12 in *. destruct Hp as (Hoff & Hun & Hd & Hdat & Hrs).
    rewrite zlen_app, !zlen_le_bytes in *. cbn [Z.add Z.of_nat Pos.of_succ_nat Pos.succ Pos.add Z.eqb Pos.eqb negb].
    rewrite header_off, header_len by lia. cbn [patch_off].
    rewrite (proj2 (Z.eqb_neq off (-1))) by lia. apply run_ret. split; [done|]. split; [by eexists|].
    split; [cbn; rewrite Hf; done|]. split; [right; cbn; lia|].
    right; left. split; [done|]. exists off, d, rs. cbn [length] in HR. split; [done|]. split; [done|]. split; [lia|]. done.
  - unfold recs_bytes in *. cbn [map concat rec_bytes] in *. rewrite <- !app_assoc in *.
    rewrite header_bytes, zdrop_12 in *. destruct Hp as (Hd & Hrs). pose proof (zlen_nonneg d).
    rewrite zlen_app, !zlen_le_bytes in *. cbn [Z.add Z.of_nat Pos.of_succ_nat Pos.succ Pos.add Z.eqb Pos.eqb negb].
    rewrite header_off, header_len by lia. cbn [patch_off patch_size Z.eqb Pos.eqb].
    pose proof (fpos_nonneg (w_patch w)).
    apply run_bind, run_patch_Seek; [lia|]. intros f2 Hc2 Hf2. cbn [w_cp w_file w_patch w_cb w_it] in *.
    rewrite <- Hf2.
    set (w2 := mkWorld (w_cp w) (w_file w) f2 (w_cb w) (w_it w)).
    assert (Hat2 : patch_at P (recs_bytes rs) w2).
    { destruct Hat' as [HP Hrem]. split; [cbn; by rewrite Hc2|]. cbn [w_patch w2] in *. rewrite Hf2.
      cbn [w_patch] in Hrem. rewrite Hf in Hrem.
      match goal with |- zdrop (?a + _) _ = _ => rewrite <- (zdrop_zdrop (zlen d) a) by lia end.
      replace (fpos (w_patch w) + 12) with (fpos (w_patch w) + (Z.of_nat 8 + Z.of_nat 4)) by lia.
      rewrite Hrem. apply zdrop_app_zlen. }
    cbn [length] in *. eapply run_mono; [apply (IH rs w2 Hrs Hp0 ltac:(lia) Hat2 ltac:(lia))|].
    intros [[[hh pos] h] err] w' (He & [f3 ->] & Hpos & Hnn & Hpend). split; [done|]. split; [by eexists|]. done.
Qed.

Lemma run_copy_patch P fuel n p d rem (w : world) :
  Inv p (w_cp w) (w_cb w) -> 0 <= p -> 0 <= n <= zlen d -> n < 2 ^ 32 -> p + n <= N ->
  (forall i, 0 <= i < n -> znth nul d i = znth nul new (p + i)) ->
  patch_at P (d ++ rem) w -> (Z.to_nat n < fuel)%nat ->
  run (fun '(pos, p') w' => p' = p + n /\ Inv p' (w_cp w') (w_cb w') /\ patch_at P (zdrop n (d ++ rem)) w' /\
         pos = fpos (w_patch w') /\ w_file w' = w_file w /\ w_it w' = w_it w)
    (copy_patch fuel n (fpos (w_patch w)) p) w.
Proof.
  revert n p d w. induction fuel as [|fuel IH]; intros n p d w HI Hp Hn Hn32 HpN Hd Hat Hfuel; [lia|].
  cbn [copy_patch]. destruct (Z.leb_spec n 0).
  { assert (n = 0) as -> by lia. apply run_ret. rewrite zdrop_0, Z.add_0_r. done. }
  set (r := Z.min buffer_size n). assert (Hr : 0 < r <= n) by (unfold r, buffer_size; lia).
  apply run_bind, run_patch_Read; [lia|]. intros f Hc Hf. rewrite (rem_read P _ _ r Hat) in * by lia.
  pose proof (patch_at_read P _ w f (w_cp w) (w_cb w) (w_it w) r Hat ltac:(lia) Hc Hf) as Hat'.
  rewrite ztake_app_le in * by lia. set (b := ztake r d) in *.
  assert (Hb : zlen b = r) by (unfold b; rewrite zlen_ztake; lia).
  apply run_bind. eapply run_mono.
  { apply em_give; cbn [w_cp w_cb]; [exact HI|done|unfold r in *; lia|lia|by right|].
    intros i Hi. left. unfold b. rewrite znth_ztake by lia. apply Hd. lia. }
  intros _ w1 (HI1 & Ef & Ep & Ei). cbn [w_file w_patch w_it] in *. rewrite Hb in *.
  rewrite w32_id by lia.
  assert (Hat1 : patch_at P (zdrop r d ++ rem) w1).
  { unfold patch_at in *. rewrite Ep. by rewrite zdrop_app_le in Hat' by lia. }
  replace (fpos (w_patch w) + r) with (fpos (w_patch w1)) by (rewrite Ep, Hf; lia).
  eapply run_mono; [apply (IH (n - r) (p + r) (zdrop r d)); [done|lia|rewrite zlen_zdrop; lia|lia|lia| |done|lia]|].
  { intros i Hi. rewrite znth_zdrop by lia. rewrite Hd by lia. f_equal. lia. }
  intros [pos p'] w' (-> & HI' & Hat2 & Hpos & Hf' & Hi'). replace (p + n) with (p + r + (n - r)) by lia.
  split; [lia|]. split; [done|]. split; [|split; [done|split; congruence]].
  replace (zdrop n (d ++ rem)) with (zdrop (n - r) (zdrop r d ++ rem)); [done|].
  rewrite <- zdrop_app_le by lia. rewrite zdrop_zdrop by lia. f_equal. lia.
Qed.

(** ** Unchanged data *)

Lemma run_skip_extents fuel p ext k (w : world) :
  0 <= p -> ext_ok ext k w -> (length k < fuel)%nat ->
  run (fun ext' w' => (exists it, w' = mkWorld (w_cp w) (w_file w) (w_patch w) (w_cb w) it) /\
         (exists k', ext_ok ext' k' w' /\ (length k' <= length k)%nat) /\
         (offset ext' = -1 \/ p < offset ext' + size ext'))
    (skip_extents fuel p ext) w.
Proof.
  revert ext k w. induction fuel as [|fuel IH]; intros ext k w Hp Hext Hfuel; [lia|]. cbn [skip_extents].
  destruct Hext as (Hon & [[Ho ->]|(Hin & Ho & Hs & Hincl & it & Hit & Hy)]).
  { rewrite Ho. cbn. split; [by destruct w; eexists|]. split; [exists []; split; [split; [done|by left]|done]|by left]. }
  rewrite (proj2 (Z.eqb_neq (offset ext) (-1))) by lia. cbn [negb andb].
  destruct (Z.leb_spec (offset ext + size ext) p).
  - apply run_bind. unfold run at 1. unfold nextExtent. rewrite Hit. destruct k as [|e k]; cbn [yields] in Hy.
    + destruct Hy as (_ & it' & Hy & Hy'). rewrite Hy. cbn beta iota.
      set (w1 := mkWorld (w_cp w) (w_file w) (w_patch w) (w_cb w) (Some it')).
      assert (E : skip_extents fuel p no_extent w1 = (Val no_extent, w1)) by by destruct fuel.
      unfold run. rewrite E. split; [by eexists|]. split; [|by left]. exists []. split; [|done].
      split; [|by left]. by apply (its_ok_next w w1 it it').
    + destruct Hy as (_ & He & it' & Hy & Hy'). rewrite Hy. cbn beta iota.
      set (w1 := mkWorld (w_cp w) (w_file w) (w_patch w) (w_cb w) (Some it')).
      eapply run_mono; [apply (IH e k w1); [done| |cbn in *; lia]|].
      * split; [apply (its_ok_next w w1 it it' Hon Hit); [done|by eapply yields_on]|]. right. split; [apply Hincl; by left|]. split; [lia|]. split; [lia|].
        split; [intros x Hx; apply Hincl; by right|]. by exists it'.
      * intros ext' w' ([it2 ->] & (k' & Hx & Hk') & Hz). split; [by eexists|]. split; [exists k'; split; [done|cbn; lia]|done].
  - apply run_ret. split; [by destruct w; eexists|]. split; [exists k; split; [|done]|by right].
    split; [done|]. right. split; [done|]. split; [done|]. split; [done|]. split; [done|]. by exists it.
Qed.

Lemma w32_sub_block p : 0 <= p -> w32 (sparse_blocksize - Z.rem p sparse_blocksize) = sparse_blocksize - p mod sparse_blocksize
  /\ 0 < sparse_blocksize - p mod sparse_blocksize.
Proof.
  intros. unfold sparse_blocksize. rewrite Z.rem_mod_nonneg by lia.
  pose proof (Z.mod_pos_bound p (512 * 1024) ltac:(lia)). rewrite w32_id by lia. lia.
Qed.

Lemma run_sparse_part p tr send ext k (w : world) :
  Inv p (w_cp w) (w_cb w) -> 0 <= p -> 0 < tr < 2 ^ 32 -> p + tr <= send -> send <= N -> send <= zlen old ->
  ext_ok ext k w -> file_ok p send w -> (ru = true -> l <> [] -> p + tr = send) ->
  run (fun r w' => match r with
                   | inl p' => p < p' <= p + tr /\ Inv p' (w_cp w') (w_cb w') /\ file_ok p' send w' /\ same_files w w'
                   | inr tr' => 0 < tr' <= tr /\ w' = w
                   end)
    (sparse_part p tr ext) w.
Proof.
  intros HI Hp Htr Hsend HsN HsO Hext [Hfc Hfp] Hfull. unfold sparse_part. apply run_bind, run_get_cp. cbn beta.
  pose proof (em_config _ _ _ HI) as (_ & Hru & Hws & Hua). rewrite Hua, Hws. cbn [Z.eqb negb andb orb].
  destruct Hext as (_ & [[Ho ->]|(Hin & Ho & Hs & _)]).
  { rewrite Ho. cbn [Z.eqb Pos.eqb negb andb]. apply run_ret. split; [lia|done]. }
  rewrite (proj2 (Z.eqb_neq (offset ext) (-1))) by lia. cbn [negb andb].
  rewrite (proj2 (Z.leb_le 0 tr)) by lia. rewrite andb_true_r.
  destruct (Z.leb_spec sparse_blocksize tr); [|apply run_ret; split; [lia|done]]. cbn [andb].
  destruct (Z.leb_spec (offset ext) p); [|apply run_ret; split; [lia|done]]. cbn [andb].
  destruct (Z.leb_spec (p + tr) (offset ext + size ext)); [|apply run_ret; split; [lia|done]].
  rewrite andb_true_r. assert (HB : 0 < sparse_blocksize) by (unfold sparse_blocksize; lia).
  destruct (Z.eqb_spec (Z.rem p sparse_blocksize) 0) as [Hal|Hal]; cbn [negb].
  - rewrite Z.rem_mod_nonneg in Hal by lia. set (tr' := if negb (Z.rem tr sparse_blocksize =? 0) then _ else _).
    assert (Htr' : tr' = tr - tr mod sparse_blocksize).
    { unfold tr'. rewrite Z.rem_mod_nonneg by lia. destruct (Z.eqb_spec (tr mod sparse_blocksize) 0); cbn [negb]; lia. }
    pose proof (Z.mod_pos_bound tr _ HB). pose proof (Z.div_mod tr sparse_blocksize ltac:(lia)).
    assert (1 <= tr / sparse_blocksize) by (apply Z.div_le_lower_bound; lia).
    assert (Hmod : tr' mod sparse_blocksize = 0).
    { rewrite Htr'. replace (tr - tr mod sparse_blocksize) with (0 + (tr / sparse_blocksize) * sparse_blocksize) by lia.
      by rewrite Z.mod_add by lia. }
    assert (0 < tr') by nia. apply run_bind. eapply run_mono.
    { apply em_sparse; [done|done|done|done|done|lia|lia|]. intros q Hq. exists ext. split; [done|lia]. }
    intros _ w1 (HI1 & Hsf). apply run_ret. split; [lia|]. split; [done|]. split; [|done].
    destruct Hsf as (Ef & _). unfold file_ok. rewrite Ef. split; [done|]. intros Hr. right.
    assert (l <> []) by (intros ->; done). specialize (Hfull Hr ltac:(done)). pose proof (fpos_nonneg (w_file w)).
    destruct (Hfp Hr) as [E|(Hle & e & He & Hoe & Hee)].
    + split; [lia|]. exists ext. split; [done|]. lia.
    + split; [lia|]. by exists e.
  - destruct (w32_sub_block p Hp) as [-> ?]. apply run_ret. split; [lia|done].
Qed.

Lemma run_copy_unchanged fuel p tr send (w : world) :
  Inv p (w_cp w) (w_cb w) -> 0 <= p -> 0 < tr < 2 ^ 32 -> p + tr <= send -> send <= N -> send <= zlen old ->
  unchanged es old new p send -> file_ok p send w -> (2 <= fuel)%nat ->
  run (fun p' w' => p < p' <= p + tr /\ Inv p' (w_cp w') (w_cb w') /\ file_ok p' send w' /\
         w_patch w' = w_patch w /\ w_it w' = w_it w)
    (copy_unchanged fuel p tr (zlen old)) w.
Proof.
  intros HI Hp Htr Hsend HsN HsO Hun [Hfc Hfp] Hfuel. destruct fuel as [|[|fuel]]; [lia..|].
  pose proof (em_config _ _ _ HI) as (HfN & Hru & Hws & Hua).
  set (tr1 := Z.min tr buffer_size). assert (Ht1 : 0 < tr1 <= tr) by (unfold tr1, buffer_size; lia).
  assert (Hdone : forall f (w' : world) p', copy_unchanged f p' 0 (zlen old) w' = (Val p', w')) by (intros []; done).
  assert (Hexit : forall (w1 : world), Inv (p + tr1) (w_cp w1) (w_cb w1) -> file_ok (p + tr1) send w1 ->
            w_patch w1 = w_patch w -> w_it w1 = w_it w ->
            run (fun p' w' => p < p' <= p + tr /\ Inv p' (w_cp w') (w_cb w') /\ file_ok p' send w' /\
                   w_patch w' = w_patch w /\ w_it w' = w_it w)
              (mod_cp (fun q => if negb (unchanged_align q =? 0) && (p + tr1 =? unchanged_align_end q)
                                then set_unchanged_align_end (-1) q else q);;
               copy_unchanged (S fuel) (p + tr1) 0 (zlen old)) w1).
  { intros w1 HI1 Hf1 Hp1 Hi1. apply run_bind, run_mod_cp. pose proof (em_config _ _ _ HI1) as (_ & _ & _ & Hua1).
    rewrite Hua1. cbn [Z.eqb negb andb]. unfold run. rewrite Hdone. cbn [w_cp w_cb]. split; [lia|]. split; [done|].
    split; [done|]. done. }
  cbn [copy_unchanged]. apply run_bind, run_get_cp. cbn beta. rewrite HfN.
  rewrite !(proj2 (Z.ltb_lt _ _)) by lia. cbn [andb negb]. fold tr1.
  apply run_bind. unfold align_unchanged. apply run_bind, run_get_cp. cbn beta. rewrite Hua, Hru. cbn [Z.eqb].
  apply run_ret. apply run_bind. destruct ru eqn:Eru.
  - apply run_bind, run_file_Read; [lia|]. intros f Hc Hfp'. rewrite Hfc in *.
    destruct (Hfp eq_refl) as [E|(Hle & e & He & Hoe & Hee)].
    + rewrite E in *.
      assert (Hb : zlen (file_read old p tr1) = tr1) by (unfold file_read; apply zlen_zsub; lia). rewrite Hb in *.
      apply run_bind. eapply run_mono.
      { apply em_give; cbn [w_cp w_cb]; [done|done|rewrite Hb; unfold tr1 in *; lia|rewrite Hb; lia|by left; rewrite Eru|].
        intros i Hi. rewrite Hb in Hi. unfold file_read. rewrite znth_zsub by lia.
        destruct Hun as [_ Hun]. destruct (Hun (p + i) ltac:(lia)) as [Hx|Hx]; [|by left]. right. split; [done|]. eauto. }
      intros _ w1 (HI1 & Ef & Ep & Ei). rewrite Hb in *. apply run_ret. rewrite Z.sub_diag. change (w32 0) with 0.
      apply Hexit; [done| |done|done]. unfold file_ok. rewrite Ef. cbn [w_file]. split; [done|]. intros _. left. lia.
    + set (s := fpos (w_file w)) in *.
      assert (Hb : zlen (file_read old s tr1) = tr1) by (unfold file_read; apply zlen_zsub; lia). rewrite Hb in *.
      apply run_bind. eapply run_mono.
      { apply em_give; cbn [w_cp w_cb]; [done|done|rewrite Hb; unfold tr1 in *; lia|rewrite Hb; lia|by left; rewrite Eru|].
        intros i Hi. rewrite Hb in Hi. unfold file_read. rewrite znth_zsub by lia. right.
        split; [exists e; split; [done|lia]|]. exists (s + i). split; [|done]. exists e. split; [done|lia]. }
      intros _ w1 (HI1 & Ef & Ep & Ei). rewrite Hb in *. apply run_ret. rewrite Z.sub_diag. change (w32 0) with 0.
      apply Hexit; [done| |done|done]. unfold file_ok. rewrite Ef. cbn [w_file]. split; [done|]. intros _. right.
      split; [lia|]. exists e. split; [done|]. lia.
  - rewrite (proj2 (Z.ltb_ge (zlen old) (p + tr1))) by lia. apply run_bind. eapply run_mono.
    { apply em_skip; [done|done|done|lia|lia|]. destruct Hun as [_ Hun]. split; [lia|]. intros i Hi. apply Hun. lia. }
    intros _ w1 (HI1 & Ef & Ep & Ei). apply run_ret. apply Hexit; [done| |done|done].
    unfold file_ok. rewrite Ef, Eru. split; [done|]. intros [=].
Qed.

(** One round of the loop before the next record. *)
Lemma run_gap fuel p tr fs (pos : Z) (h : SPatchHeader) ext k send (w : world) :
  Inv p (w_cp w) (w_cb w) -> 0 <= p < send -> send <= N -> send <= zlen old -> fs = N -> 0 < tr < 2 ^ 32 ->
  (p + tr <= send \/ (send = N /\ N < p + tr)) -> (ru = true -> l <> [] -> N <= p + tr \/ p + tr = send) ->
  unchanged es old new p send -> file_ok p send w -> ext_ok ext k w -> (length k + 2 <= fuel)%nat ->
  run (fun '(p', pos', h', ext') w' => p < p' <= send /\ pos' = pos /\ h' = h /\
         Inv p' (w_cp w') (w_cb w') /\ file_ok p' send w' /\ w_patch w' = w_patch w /\
         exists k', ext_ok ext' k' w' /\ (length k' <= length k)%nat)
    (assert ((p <? zlen old) && (p <? fs));;
     ext ← skip_extents fuel p ext;
     let tr := if fs <? p + tr then w32 (fs - p) else tr in
     r ← sparse_part p tr ext;
     file_pos ← match r with inl file_pos => mret file_pos | inr tr => copy_unchanged fuel p tr (zlen old) end;
     mret (file_pos, pos, h, ext)) w.
Proof.
  intros HI Hp HsN HsO -> Htr Hlim Hfull Hun Hf Hext Hfuel.
  apply run_bind, run_assert; [by rewrite !(proj2 (Z.ltb_lt _ _)) by lia|].
  apply run_bind. eapply run_mono; [apply (run_skip_extents fuel p ext k); [lia|done|lia]|].
  intros ext' w1 ([it ->] & (k' & Hext' & Hk') & _). cbn zeta.
  set (tr' := if N <? p + tr then w32 (N - p) else tr).
  assert (Htr' : 0 < tr' < 2 ^ 32 /\ p + tr' <= send /\ (ru = true -> l <> [] -> p + tr' = send)).
  { unfold tr'. destruct (Z.ltb_spec N (p + tr)).
    - rewrite w32_id by lia. split; [lia|]. split; [lia|]. intros A1 A2. specialize (Hfull A1 A2). lia.
    - split; [done|]. split; [lia|]. intros A1 A2. specialize (Hfull A1 A2). lia. }
  destruct Htr' as (Ht1 & Ht2 & Ht3). apply run_bind.
  eapply run_mono; [eapply (run_sparse_part p tr' send ext' k'); [done|lia|done|done|done|done|done|done|done]|].
  intros [p'|tr''] w2.
  - intros (Hp' & HI' & Hf' & (_ & Ep & Ei)). apply run_bind, run_ret, run_ret. cbn [w_cp w_file w_patch w_cb w_it] in *.
    split; [lia|]. split; [done|]. split; [done|]. split; [done|]. split; [done|]. split; [done|].
    exists k'. split; [by eapply ext_ok_same; [|exact Hext']|done].
  - intros (Ht & ->). apply run_bind.
    eapply run_mono; [eapply (run_copy_unchanged fuel p tr'' send); [done|lia|lia|lia|done|done|done|done|lia]|].
    intros p' w' (Hp' & HI' & Hf' & Ep & Ei). apply run_ret. cbn [w_cp w_file w_patch w_cb w_it] in *.
    split; [lia|]. split; [done|]. split; [done|]. split; [done|]. split; [done|]. split; [done|].
    exists k'. split; [by eapply ext_ok_same; [|exact Hext']|done].
Qed.


(** The next header, when there is none. *)
Definition file_cond (p : Z) (has_header : bool) (h : SPatchHeader) (w : world) : Prop :=
  (contents (w_file w) = old /\ (ru = true -> fpos (w_file w) = p)) \/
  (patch_off h <> -1 /\ file_ok p (patch_off h) w) \/ (has_header = false /\ file_ok p N w).
Lemma file_cond_gap p send h w :
  file_cond p true h w -> patch_off h = send -> file_ok p send w.
Proof. intros [[Hc Hs]|[(_ & Hf)|(? & _)]] E; [|by rewrite <- E|done]. split; [done|]. intros A1. left. auto. Qed.

Lemma run_next_header R P fuel p hh h ext k (w : world) :
  0 <= p -> pending R P p hh h w -> ext_ok ext k w -> file_cond p hh h w -> (R < fuel)%nat ->
  run (fun '(hh', pos', h') w' => pos' = fpos (w_patch w') /\ (hh' = false \/ patch_off h' <> -1) /\
      pending R P p hh' h' w' /\ w_cp w' = w_cp w /\ w_cb w' = w_cb w /\ ext_ok ext k w' /\ file_cond p hh' h' w')
    (if hh && (patch_off h =? -1) then
       '(has_header, patchf_pos, h, err) ← readNextValidPatch fuel (fpos (w_patch w));
       if (err : bool) then return_false
       else (if negb (patch_off h =? -1) && false then
               mod_cp (fun p => set_unchanged_align_end_next (roundUp (patch_off h + patch_size h) (unchanged_align p))
                                  (set_unchanged_align_start (roundDown (patch_off h) (unchanged_align p)) p))
             else mret tt);; mret (has_header, patchf_pos, h)
     else mret (hh, fpos (w_patch w), h)) w.
Proof.
  intros Hp Hpend Hext Hfile Hfuel.
  destruct Hpend as [(-> & Hoff & rs & Hpa & HR & Hat)|[(-> & off & d & rs & -> & Hpa & HR & Hat)|(-> & Hoff & Hpa)]].
  - rewrite Hoff. cbn [Z.eqb Pos.eqb andb]. apply run_bind.
    eapply run_mono; [apply (run_readNextValidPatch R P p rs); [done|lia|done|done|lia]|].
    intros [[[hh' pos] h'] err] w1 (-> & [f ->] & Hpos & Hnn & Hpend'). rewrite andb_false_r. apply run_bind, run_ret, run_ret.
    split_and!; try done. destruct Hfile as [Hfile|[(? & _)|(? & _)]]; [by left|done..].
  - pose proof Hpa as (Ho & _). cbn [patch_off]. rewrite (proj2 (Z.eqb_neq off (-1))) by lia. cbn [andb]. apply run_ret.
    split_and!; try done; [right; cbn; lia|]. right; left. split; [done|]. by exists off, d, rs.
  - cbn [andb]. apply run_ret. split_and!; try done; [by left|]. right; right. done.
Qed.

(** One record: its data, or what of it lies before the end of the file. *)
Lemma run_record P fuel p n d rem ext k (w : world) :
  Inv p (w_cp w) (w_cb w) -> 0 <= p -> 0 <= n <= zlen d -> n < 2 ^ 32 -> p + n <= N ->
  (forall i, 0 <= i < n -> znth nul d i = znth nul new (p + i)) ->
  patch_at P (d ++ rem) w -> ext_ok ext k w -> contents (w_file w) = old -> (Z.to_nat n < fuel)%nat ->
  run (fun '(p', pos', h', ext') w' => p' = p + n /\ pos' = fpos (w_patch w') /\ h' = mkHeader (-1) 0 /\ ext' = ext /\
         Inv p' (w_cp w') (w_cb w') /\ patch_at P (zdrop n (d ++ rem)) w' /\ ext_ok ext k w' /\
         contents (w_file w') = old /\ (ru = true -> fpos (w_file w') = p'))
    (assert (p =? p);;
     mod_cp (fun p => set_unchanged_align_end (unchanged_align_end_next p) p);;
     '(patchf_pos, file_pos) ← copy_patch fuel n (fpos (w_patch w)) p;
     (if ru then file_Seek file_pos else mret tt);;
     mret (file_pos, patchf_pos, mkHeader (-1) 0, ext)) w.
Proof.
  intros HI Hp Hn Hn32 HpN Hd Hat Hext Hc Hfuel.
  apply run_bind, run_assert; [apply Z.eqb_refl|]. apply run_bind, run_mod_cp. apply run_bind.
  set (w2 := mkWorld _ _ _ _ _).
  eapply run_mono; [apply (run_copy_patch P fuel n p d rem w2); [cbn; by apply em_align|done..]|].
  intros [pos' p'] w3 (-> & HI3 & Hat3 & Hpos3 & Ef3 & Ei3). cbn [w2 w_file w_it] in Ef3, Ei3.
  assert (Hx : ext_ok ext k w3) by (by apply (ext_ok_same ext k w)).
  apply run_bind. destruct ru eqn:Eru.
  - apply run_file_Seek; [lia|]. intros f Hcf Hpf. apply run_ret. cbn. split_and!; try done. by rewrite Hcf, Ef3.
  - by apply run_ret, run_ret; split_and!; try done; rewrite Ef3.
Qed.

Lemma run_apply_loop R KE P fuel p hh h ext k (w : world) :
  Inv p (w_cp w) (w_cb w) -> 0 <= p <= N -> pending R P p hh h w -> ext_ok ext k w -> (length k <= KE)%nat ->
  file_cond p hh h w -> (Z.to_nat (N - p) + Z.to_nat N + R + KE + 4 <= fuel)%nat ->
  run (fun p' w' => p' = N /\ Inv N (w_cp w') (w_cb w') /\ its_ok w')
    (apply_loop fuel p (zlen old) (fpos (w_patch w)) hh h ext) w.
Proof.
  revert p hh h ext k w. induction fuel as [|fuel IH]; intros p hh h ext k w HI Hp Hpend Hext Hk Hfile Hfuel; [lia|].
  cbn [apply_loop]. apply run_bind, run_get_cp. cbn beta.
  pose proof (em_config _ _ _ HI) as (HfN & Hru & Hws & Hua). rewrite HfN, Hru, Hua. cbn [Z.eqb negb].
  assert (Hend : patches es old new p [] -> zlen old <= p \/ N <= p -> p = N).
  { cbn [patches]. intros (Hle & Hun & _). lia. }
  destruct (negb ((p <? zlen old) && (p <? N) || hh)) eqn:Eend.
  { apply negb_true_iff, orb_false_iff in Eend as [Eend ->].
    destruct Hpend as [(? & _)|[(? & _)|(_ & _ & Hpa)]]; [done..|].
    apply run_ret. assert (p = N) as ->; [|split; [done|split; [done|apply Hext]]].
    apply Hend; [done|]. apply andb_false_iff in Eend as [E%Z.ltb_ge|E%Z.ltb_ge]; [by left|by right]. }
  apply run_bind. eapply run_mono; [apply (run_next_header R P fuel p hh h ext k w); [lia|done..|lia]|].
  clear Hpend Hext Hfile Eend hh h.
  intros [[hh pos] h] w1 (-> & Hnn & Hpend & Ecp & Ecb & Hext & Hfile). rewrite <- Ecp, <- Ecb in HI.
  clear w Ecp Ecb Hru Hws Hua HfN.
  destruct Hpend as [(-> & Hoff & _)|[(-> & off & d & rs & -> & Hpa & HR & Hat)|(-> & Hoff & Hpa)]].
  { by destruct Hnn as [?|]. }
  - cbn [negb andb patch_off patch_size]. pose proof Hpa as (Ho & Hun & Hd & Hdat & Hrs).
    rewrite (s64_id (off - p)) by lia. rewrite (proj2 (Z.eqb_neq off (-1))) by lia. cbn [negb andb orb].
    rewrite (proj2 (Z.leb_le 0 (off - p))) by lia. cbn [andb]. apply run_bind, run_assert; [done|].
    destruct (decide (off = p)) as [->|Hne].
    + rewrite Z.sub_diag. change (0 <? UINT_MAX) with true. cbn iota. rewrite Z.eqb_refl. cbn [andb].
      set (fin := N <? p + zlen d). replace (patch_off (if fin then _ else _)) with p by by destruct fin.
      set (n := patch_size (if fin then _ else _)).
      assert (Hn : n = Z.min (zlen d) (N - p)).
      { unfold n, fin. destruct (Z.ltb_spec N (p + zlen d)); cbn [patch_size]; [rewrite w32_id by lia|]; lia. }
      apply run_bind, run_assert.
      { unfold fin. destruct (Z.ltb_spec N (p + zlen d)); [done|]. cbn [orb]. apply Z.ltb_lt. lia. }
      apply run_bind. eapply run_mono.
      { apply (run_record P fuel p n d (recs_bytes rs) ext k w1); try done; try lia.
        - intros i Hi. rewrite <- Hdat by lia. f_equal. lia.
        - destruct Hfile as [[? _]|[(_ & ? & _)|(? & _)]]; done. }
      intros [[[p' pos'] h'] ext'] w3 (-> & -> & -> & -> & HI3 & Hat3 & Hx3 & Hc3 & Hs3).
      unfold fin. destruct (Z.ltb_spec N (p + zlen d)).
      * apply run_ret. replace (p + n) with N in * by lia. split; [done|]. split; [done|]. apply Hx3.
      * assert (n = zlen d) as -> by lia. rewrite zdrop_app_zlen in Hat3.
        apply (IH (p + zlen d) true (mkHeader (-1) 0) ext k w3); try done; [lia| |by left|lia].
        left. split; [done|]. split; [done|]. exists rs. split; [apply Hrs; lia|]. done.
    + set (tr := if off - p <? UINT_MAX then off - p else UINT_MAX).
      assert (Htr : 0 < tr < 2 ^ 32 /\ p + tr <= off /\ (ru = true -> l <> [] -> p + tr = off)).
      { unfold tr. destruct (Z.ltb_spec (off - p) UINT_MAX); (split; [unfold UINT_MAX in *; lia|]); (split; [lia|]); [lia|].
        intros A1 A2. specialize (Hbig A1 A2). lia. }
      destruct Htr as (Htr & Hle & Hfull). rewrite (proj2 (Z.eqb_neq tr 0)) by lia. cbn [andb orb].
      apply run_bind, run_assert; [apply Z.ltb_lt; lia|]. apply run_bind. eapply run_mono.
      { apply (run_gap fuel p tr N _ (mkHeader off (zlen d)) ext k off); try done; try lia; [apply Hun; lia| | ].
        - intros A1 A2. right. auto.
        - by eapply file_cond_gap. }
      intros [[[p' pos'] h'] ext'] w3 (Hp' & -> & -> & HI3 & Hf3 & Ep3 & k' & Hext3 & Hk3). rewrite <- Ep3.
      apply (IH p' true _ ext' k' w3); try done; try lia.
      * right; left. split; [done|]. exists off, d, rs. split; [done|].
        split; [|split; [done|unfold patch_at in *; by rewrite Ep3]].
        split; [lia|]. split; [by apply (unchanged_from _ _ _ p); [lia|]|]. done.
      * right; left. split; [cbn; lia|done].
  - cbn [negb andb]. rewrite Hoff. cbn [Z.eqb Pos.eqb negb andb orb].
    destruct ((N <=? p) || (zlen old <=? p)) eqn:Estop.
    { apply run_ret. assert (p = N) as ->; [|split; [done|split; [done|apply Hext]]].
      apply Hend; [done|]. apply orb_true_iff in Estop as [E%Z.leb_le|E%Z.leb_le]; [by right|by left]. }
    apply orb_false_iff in Estop as [HpN%Z.leb_gt HpO%Z.leb_gt]. cbn [patches] in Hpa. destruct Hpa as (_ & Hun).
    apply run_bind, run_assert; [done|]. change (UINT_MAX =? 0) with false. cbn [andb orb].
    apply run_bind, run_assert; [by apply Z.ltb_lt|]. apply run_bind. eapply run_mono.
    { apply (run_gap fuel p UINT_MAX N _ h ext k N); try done; try lia; try (apply Hun; lia).
      - intros A1 A2. specialize (Hbig A1 A2). lia.
      - destruct Hfile as [[Hc Hs]|[(? & ?)|(_ & ?)]]; [|done..]. split; [done|]. intros A1. left. auto. }
    intros [[[p' pos'] h'] ext'] w3 (Hp' & -> & -> & HI3 & Hf3 & Ep3 & k' & Hext3 & Hk3). rewrite <- Ep3.
    apply (IH p' false _ ext' k' w3); try done; try lia.
    + right; right. split; [done|]. split; [done|]. cbn [patches]. split; [lia|]. by apply (unchanged_from _ _ _ p); [lia|].
    + by right; right.
Qed.

(** ** The whole patch *)

Definition started (cp : ChunkPatcher) : Prop :=
  config cp /\ last_unchanged cp = false /\
  (ws || has_it = true -> last_sparse_start cp = -1 /\ curr_only_zeros cp = true /\ zlen (sparse_buf cp) = sparse_blocksize).

Lemma run_ApplyPatch fuel rs (w : world) (Q : world -> Prop) :
  require_unchanged (w_cp w) = ru -> with_sparse (w_cp w) = ws -> unchanged_align (w_cp w) = 0 ->
  contents (w_file w) = old -> contents (w_patch w) = patch_bytes N rs -> patches es old new 0 rs ->
  has_it = bool_decide (is_Some (w_it w)) -> match w_it w with Some it => yields bs l rest it es | None => True end ->
  (forall cp, started cp -> Inv 0 cp (w_cb w)) ->
  (forall w', Inv N (w_cp w') (w_cb w') -> its_ok w' ->
     run (fun _ => Q) (if ws then finishChunkPatcher N else mret tt) w') ->
  (Z.to_nat N + Z.to_nat N + length rs + length es + 5 <= fuel)%nat ->
  run (fun _ => Q) (ApplyPatch fuel) w.
Proof.
  intros Hru Hws Hua Hfc Hpc Hpa Hhas Hit Hinit Hfin Hfuel. pose proof (zlen_nonneg new). pose proof (zlen_nonneg old).
  unfold ApplyPatch.
  apply run_bind, run_patch_Seek; [lia|]. intros f1 Hc1 Hp1. apply run_bind, run_file_Seek; [lia|]. intros f2 Hc2 Hp2.
  apply run_bind, run_mod_cp. cbn [w_cp w_file w_patch w_cb w_it] in *.
  apply run_bind, run_patch_Read; [lia|]. intros f3 Hc3 Hp3. cbn [w_cp w_file w_patch w_cb w_it] in *.
  assert (L : zlen (le_bytes 8 (w64 N)) = 8) by apply zlen_le_bytes.
  assert (Hrd : file_read (contents f1) (fpos f1) 8 = le_bytes 8 (w64 N)).
  { unfold file_read, zsub. rewrite Hp1, zdrop_0, Hc1, Hpc. unfold patch_bytes. rewrite <- L. apply ztake_app_zlen. }
  rewrite Hrd, L in *. cbn [Z.eqb Pos.eqb negb]. apply run_bind, run_mod_cp. apply run_bind, run_get_cp.
  apply run_bind, run_has_iterator. cbn [w_cp w_file w_patch w_cb w_it with_sparse].
  rewrite le_val_le_bytes. change (256 ^ Z.of_nat 8) with (2 ^ 64). fold (w64 (w64 N)).
  rewrite w64_id, s64_w64 by (try apply w64_range; lia).
  rewrite <- Hhas. set (cp0 := set_filesize N _).
  assert (Hcp : run (fun _ w' => started (w_cp w') /\ w_file w' = f2 /\ w_patch w' = f3 /\ w_cb w' = w_cb w /\ w_it w' = w_it w)
    (if with_sparse cp0 || has_it
     then mod_cp (fun p => set_sparse_buf (zresize nul sparse_blocksize (sparse_buf p))
                             (set_curr_changed false (set_curr_only_zeros true (set_last_sparse_start (-1) p))))
     else mret tt) (mkWorld cp0 f2 f3 (w_cb w) (w_it w))).
  { change (with_sparse cp0) with (with_sparse (w_cp w)). rewrite Hws. destruct (ws || has_it) eqn:Ews.
    - apply run_mod_cp. split; [|done]. split; [done|]. split; [done|]. intros _. split; [done|]. split; [done|].
      apply zlen_zresize. unfold sparse_blocksize. lia.
    - apply run_ret. split; [|done]. split; [done|]. split; [done|]. congruence. }
  apply run_bind. eapply run_mono; [exact Hcp|]. intros _ w1 (Hst & Ef & Ep & Ec & Ei). clear Hcp.
  assert (Hext : run (fun e w' => (exists k, ext_ok e k w' /\ (length k <= length es)%nat) /\ w_cp w' = w_cp w1 /\
                    w_file w' = f2 /\ w_patch w' = f3 /\ w_cb w' = w_cb w)
                   (if has_it then nextExtent fuel else mret no_extent) w1).
  { destruct (w_it w) as [it|] eqn:Ew; [rewrite bool_decide_true in Hhas by eauto|rewrite bool_decide_false in Hhas by by intros []];
      rewrite Hhas.
    - unfold run, nextExtent. rewrite Ei. destruct fuel as [|fuel]; [lia|].
      assert (Hits : forall w', its_ok w' <-> exists it, w_it w' = Some it /\ it_on bs l rest it) by (unfold its_ok; by rewrite Hhas).
      destruct es as [|e k] eqn:Ees; cbn [yields] in Hit.
      + destruct Hit as (_ & it' & Hy & Hy'). rewrite Hy. split; [|done]. exists []. split; [|done].
        split; [|by left]. apply Hits. by exists it'.
      + destruct Hit as (_ & He & it' & Hy & Hy'). rewrite Hy. split; [|done]. exists k. split; [|cbn; lia].
        split; [apply Hits; exists it'; split; [done|by eapply yields_on]|]. right. rewrite Ees.
        split; [by left|]. split; [lia|]. split; [lia|]. split; [intros x Hx; by right|]. by exists it'.
    - apply run_ret. split; [|done]. exists []. split; [|cbn; lia]. split; [unfold its_ok; by rewrite Hhas|by left]. }
  apply run_bind. eapply run_mono; [exact Hext|]. clear Hext. intros ext w2 ((k & Hx & Hk) & Ecp & Ef2 & Ep2 & Ec2).
  apply run_bind, run_file_Size. rewrite Ef2, Hc2, Hfc. rewrite <- Ecp in Hst.
  replace 8 with (fpos (w_patch w2)) by (rewrite Ep2; lia). apply run_bind.
  eapply run_mono; [apply (run_apply_loop (length rs) (length es) (patch_bytes N rs) fuel 0 true _ ext k w2)|].
  - rewrite Ec2. by apply Hinit.
  - lia.
  - left. split; [done|]. split; [done|]. exists rs. split; [done|]. split; [done|]. split; [by rewrite Ep2, Hc3, Hc1|].
    rewrite Ep2, Hp3, Hp1. unfold patch_bytes. change (0 + 8) with 8. rewrite <- L. apply zdrop_app_zlen.
  - done.
  - done.
  - left. by rewrite Ef2, Hc2, Hp2.
  - lia.
  - intros p' w' (-> & HI & Hon). apply run_bind, run_get_cp. pose proof (em_config _ _ _ HI) as (_ & _ & -> & _). by apply Hfin.
Qed.

End Loop.
