(* ===== verification/PatchBuild.v ===== *)
(** Building the patched file: [BackupServerHash] as the chunk patcher's callback,
    and [patchFile] with the holes it punches behind the patch. *)
From S2P Require Import Prelude MemFile ExtentIter ChunkPatcher PatchApply PatchLoop.

(** Documented behaviour of punching a hole ([FALLOC_FL_PUNCH_HOLE |
    FALLOC_FL_KEEP_SIZE]): zeros in the range, the size stays; on failure nothing
    changes. *)
Class PunchLaws (F : Type) `{FileLaws F} `{!IFsFile F} : Prop := {
  punch_size f o s : 0 <= o -> 0 < s -> zlen (contents (snd (PunchHole f o s))) = zlen (contents f);
  punch_ok f o s i : 0 <= o -> 0 < s -> fst (PunchHole f o s) = true ->
    znth nul (contents (snd (PunchHole f o s))) i = if (o <=? i) && (i <? o + s) then nul else znth nul (contents f) i;
  punch_fails f o s : fst (PunchHole f o s) = false -> contents (snd (PunchHole f o s)) = contents f }.

Lemma znth_ge (d : bytes) i : zlen d <= i -> znth nul d i = nul.
Proof. intros. unfold znth, zlen in *. apply nth_overflow. lia. Qed.
Lemma znth_replicate_nul n i : znth nul (replicate n nul) i = nul.
Proof.
  unfold znth. rewrite nth_lookup. destruct (replicate n nul !! _) eqn:E; [|done].
  apply lookup_replicate in E as [-> _]. done.
Qed.
(** A file grown with zeros. *)
Lemma znth_zresize_grow n (d : bytes) i : 0 <= i -> zlen d <= n -> znth nul (zresize nul n d) i = znth nul d i.
Proof.
  intros Hi Hn. unfold zresize. rewrite ztake_ge by lia. destruct (Z.lt_ge_cases i (zlen d)); [by rewrite znth_app_l by lia|].
  rewrite znth_app_r by lia. by rewrite znth_replicate_nul, znth_ge.
Qed.
(** Reading anywhere after a write. *)
Lemma znth_write d p b i :
  0 <= p -> 0 <= i ->
  znth nul (file_write d p b) i = if (p <=? i) && (i <? p + zlen b) then znth nul b (i - p) else znth nul d i.
Proof.
  intros Hp Hi. pose proof (zlen_nonneg b). destruct (Z.lt_ge_cases i (Z.max (zlen d) (p + zlen b))).
  - rewrite znth_file_write by lia. destruct (_ && _); [done|]. destruct (Z.ltb_spec i (zlen d)); [done|].
    by rewrite znth_ge.
  - rewrite znth_ge by (rewrite zlen_file_write by lia; lia).
    destruct (Z.leb_spec p i), (Z.ltb_spec i (p + zlen b)); cbn [andb]; try (by rewrite znth_ge by lia); lia.
Qed.

Section Build.
Context {F : Type} `{FileLaws F} `{!IFsFile F} `{!PunchLaws F}.
Context (handle_not_enough_space : F -> bool).

Lemma writeRepeatFreeSpace_ok f b :
  exists f', writeRepeatFreeSpace handle_not_enough_space f b = (true, f') /\
    contents f' = file_write (contents f) (fpos f) b /\ fpos f' = fpos f + zlen b.
Proof.
  destruct (write_law f b) as (E & Ec & Ep). unfold writeRepeatFreeSpace. destruct (Write f b) as [r f'].
  cbn [fst snd] in *. subst r. rewrite Z.eqb_refl. by exists f'.
Qed.


(** [f'] is [f] with zeros from [o] to [o + s]; it may have grown to there. *)
Definition zeroed (f f' : F) (o s : Z) : Prop :=
  zlen (contents f) <= zlen (contents f') <= Z.max (zlen (contents f)) (o + s) /\
  forall i, 0 <= i -> znth nul (contents f') i = if (o <=? i) && (i <? o + s) then nul else znth nul (contents f) i.

Lemma write_zeros_ok fuel f size written :
  0 <= written -> size - written <= 32768 * Z.of_nat fuel ->
  exists f', PatchApply.write_zeros handle_not_enough_space fuel f size written = Some (true, f') /\
    zeroed f f' (fpos f) (size - written).
Proof.
  revert f written. induction fuel as [|fuel IH]; intros f written Hw Hfuel; cbn [PatchApply.write_zeros];
    pose proof (fpos_nonneg f).
  - rewrite (proj2 (Z.leb_le size written)) by lia. exists f. split; [done|]. split; [lia|]. intros i Hi.
    destruct (Z.leb_spec (fpos f) i), (Z.ltb_spec i (fpos f + (size - written))); try done; lia.
  - destruct (Z.leb_spec size written).
    { exists f. split; [done|]. split; [lia|]. intros i Hi.
      destruct (Z.leb_spec (fpos f) i), (Z.ltb_spec i (fpos f + (size - written))); try done; lia. }
    remember (Z.min (size - written) 32768) as n eqn:En. assert (Hn : 0 < n) by lia.
    assert (Ln : zlen (replicate (Z.to_nat n) nul) = n) by (unfold zlen; rewrite length_replicate; lia).
    destruct (writeRepeatFreeSpace_ok f (replicate (Z.to_nat n) nul)) as (f1 & -> & Hc & Hp). rewrite Ln in Hp. cbn iota.
    destruct (IH f1 (written + n)) as (f' & -> & Hz); [lia|lia|]. exists f'. split; [done|].
    destruct Hz as [Hl Hz]. rewrite Hc, zlen_file_write, Ln, Hp in Hl by lia.
    split; [lia|]. intros i Hi. rewrite Hz, Hc, znth_write, Ln, Hp by lia. rewrite znth_replicate_nul.
    repeat (zcase; cbn [andb]; try done; try lia).
Qed.
Lemma punchHoleOrZero_ok f o s :
  0 <= o -> 0 < s -> exists f', punchHoleOrZero handle_not_enough_space f o s = Some (true, f') /\ zeroed f f' o s.
Proof.
  intros Ho Hs. unfold punchHoleOrZero. pose proof (punch_size f o s Ho Hs). pose proof (punch_ok f o s).
  pose proof (punch_fails f o s) as Hf. destruct (PunchHole f o s) as [[|] f1]; cbn [fst snd] in *.
  - exists f1. split; [done|]. split; [lia|]. auto.
  - specialize (Hf eq_refl). destruct (seek_law f1 o Ho) as (E & Ec & Ep). destruct (Seek f1 o) as [b f2]. cbn [fst snd] in *. subst b.
    destruct (write_zeros_ok (S (Z.to_nat (s / 32768))) f2 s 0) as (f' & E & Hz); [lia| |].
    { pose proof (Z.div_mod s 32768 ltac:(lia)). pose proof (Z.mod_pos_bound s 32768 ltac:(lia)).
      pose proof (Z.div_pos s 32768 ltac:(lia) ltac:(lia)). lia. }
    cbn iota. rewrite E. exists f'. split; [done|]. unfold zeroed in *. rewrite Ec, Hf, Ep, Z.sub_0_r in Hz. done.
Qed.


(** The holes behind the patched file, for the extent [e] and those the iterator
    still yields. *)
Definition extents_from (bs : Z) (l : list SSparseExtent) (rest : bytes) (k : list SSparseExtent)
    (e : SSparseExtent) (it : ExtentIterator.t F) : Prop :=
  match k with
  | [] => offset e = -1
  | e' :: k => e = e' /\ 0 <= offset e /\ 0 < size e /\ yields bs l rest it k
  end.
Lemma next_extents_from bs l rest k fuel it :
  yields bs l rest it k -> exists e it', ExtentIterator.nextExtent (S fuel) it = Some (e, it') /\ extents_from bs l rest k e it'.
Proof.
  destruct k as [|e k]; cbn [yields].
  - intros (_ & it' & Hy & _). exists no_extent, it'. rewrite Hy. by split.
  - intros (_ & He & it' & Hy & Hy'). exists e, it'. rewrite Hy. destruct He. by split_and!.
Qed.

Lemma punch_extents_ok bs l rest k fuel f it e dst resize :
  extents_from bs l rest k e it -> (length k < fuel)%nat -> zlen (contents f) <= dst ->
  exists f' dst' resize',
    punch_extents handle_not_enough_space fuel f it e false dst resize = Some (f', false, dst', resize') /\
    zlen (contents f) <= zlen (contents f') <= dst' /\ dst <= dst' /\ (resize' = false -> resize = false /\ dst' = dst) /\
    (forall e, In e k -> offset e + size e <= dst') /\
    forall i, 0 <= i -> (in_ext k i -> znth nul (contents f') i = nul) /\
      (in_ext k i \/ znth nul (contents f') i = znth nul (contents f) i).
Proof.
  revert f it e dst resize fuel. induction k as [|e' k IH]; intros f it e dst resize fuel Hk Hfuel Hdst.
  - cbn [extents_from] in Hk. exists f, dst, resize. split.
    { destruct fuel; cbn [punch_extents]; by rewrite Hk. }
    split; [lia|]. split; [lia|]. split; [done|]. split; [done|]. intros i Hi. split; [|by right]. intros (e0 & [] & _).
  - destruct Hk as (-> & Ho & Hs & Hy). destruct fuel as [|fuel]; [cbn in Hfuel; lia|]. cbn [punch_extents].
    rewrite (proj2 (Z.eqb_neq (offset e') (-1))) by lia.
    destruct (punchHoleOrZero_ok f (offset e') (size e') Ho Hs) as (f1 & -> & Hl1 & Hz1). cbn [mbind option_bind].
    destruct (next_extents_from bs l rest k fuel it Hy) as (e2 & it2 & -> & Hk2). cbn [mbind option_bind negb orb].
    set (grow := dst <? offset e' + size e'). set (dst1 := if grow then _ else _).
    assert (Hd1 : dst1 = Z.max dst (offset e' + size e')).
    { unfold dst1, grow. destruct (Z.ltb_spec dst (offset e' + size e')); lia. }
    destruct (IH f1 it2 e2 dst1 (resize || grow) fuel Hk2) as (f' & dst' & resize' & -> & Hl & Hd & Hr & Hends & Hc);
      [cbn in Hfuel; lia|lia|].
    exists f', dst', resize'. split; [done|]. split; [lia|]. split; [lia|]. split.
    { intros Er. destruct (Hr Er) as [[-> Eg]%orb_false_iff ->]. split; [done|]. unfold grow in Eg. apply Z.ltb_ge in Eg. lia. }
    split; [intros e0 [<-|Hin]; [lia|auto]|]. intros i Hi. destruct (Hc i Hi) as [Hc1 Hc2]. specialize (Hz1 i Hi).
    assert (Hx : in_ext (e' :: k) i <-> offset e' <= i < offset e' + size e' \/ in_ext k i).
    { unfold in_ext. split; [intros (e0 & [<-|?] & ?); [by left|right; by exists e0]|].
      intros [?|(e0 & ? & ?)]; [exists e'; split; [by left|done]|exists e0; split; [by right|done]]. }
    rewrite Hx.
    assert (Hz2 : offset e' <= i < offset e' + size e' -> znth nul (contents f1) i = nul).
    { intros Hi'. rewrite Hz1, (proj2 (Z.leb_le _ _)), (proj2 (Z.ltb_lt _ _)) by lia. done. }
    split.
    + intros [Hi'|Hi']; [|auto]. destruct Hc2 as [Hc2|Hc2]; [auto|]. by rewrite Hc2, Hz2.
    + destruct Hc2 as [Hc2|Hc2]; [left; by right|]. rewrite Hc2, Hz1.
      destruct (Z.leb_spec (offset e') i), (Z.ltb_spec i (offset e' + size e')); cbn [andb];
        try (by right); left; left; lia.
Qed.

(** ** The emitter of [BackupServerHash] *)

Section Emit.
Context (old new : bytes) (HN : zlen new < 2 ^ 62) (HO : zlen old < 2 ^ 62).
Context (bs : Z) (Hbs : 0 < bs) (l : list SSparseExtent) (rest : bytes).
Context (ru : bool).
Notation es := (shrunk bs l).
Notation N := (zlen new).
#[local] Instance server_hash : IChunkPatcherCallback (BackupServerHash F) := server_hash_callback handle_not_enough_space.

(** Into an empty file everything is written, except holes; on top of a reflink
    only the patch is. *)
Definition build_inv (p : Z) (cp : ChunkPatcher) (h : BackupServerHash F) : Prop :=
  config new ru false cp /\ chunk_patch_pos h = p /\ has_reflink h = negb ru /\ chunk_patcher_has_error h = false /\
  let D := contents (chunk_output_fn h) in
  (forall i, 0 <= i < p -> i < zlen D -> in_ext es i \/ znth nul D i = znth nul new i) /\
  if ru then zlen D <= p /\ (forall i, zlen D <= i < p -> in_ext es i)
  else zlen old <= zlen D /\ p <= zlen D /\ (forall i, p <= i < zlen old -> znth nul D i = znth nul old i).

Lemma build_inv_cp p cp cp' h : config new ru false cp' -> build_inv p cp h -> build_inv p cp' h.
Proof. by intros ? (_ & ?). Qed.

Lemma run_finishSparse_build pos p (w : world F (BackupServerHash F)) :
  build_inv p (w_cp w) (w_cb w) ->
  run (fun _ w' => build_inv p (w_cp w') (w_cb w') /\ same_files w w') (finishSparse pos) w.
Proof.
  intros HI. unfold finishSparse. apply run_bind, run_get_cp. cbn zeta. destruct (_ && _); [|by apply run_ret].
  apply run_bind, run_cb_sparse_extent, run_mod_cp. cbn [w_cp w_cb w_file w_patch w_it]. split; [|done].
  eapply build_inv_cp; [|exact HI]. apply HI.
Qed.

#[local] Instance build_emitter : Emitter (F := F) old new bs l ru false build_inv.
Proof.
  constructor.
  - by intros p cp h [? _].
  - intros v p cp h HI. eapply build_inv_cp; [|exact HI]. apply HI.
  - intros p b changed w (Hcf & Hpos & Hrf & Herr & HD & Hru) Hp Hb HpN Hch Hok. unfold give_bytes.
    apply run_bind, run_get_cp. destruct Hcf as (HfN & Hru' & Hws & Hua). rewrite Hws.
    apply run_bind, run_assert_pos; [done|]. apply run_bind, run_cb_bytes. intros r h' Hcb. apply run_ret.
    split; [|done]. cbn [w_cp w_cb].
    assert (Hw : negb (has_reflink (w_cb w)) || changed = true).
    { rewrite Hrf. destruct Hch as [->| ->]; [done|]. apply orb_true_r. }
    cbn in Hcb. rewrite Hw in Hcb. rewrite Hpos in Hcb. destruct (seek_law (chunk_output_fn (w_cb w)) p Hp) as (Es & Ec & Ep).
    destruct (Seek (chunk_output_fn (w_cb w)) p) as [ok f1]. cbn [fst snd] in *. subst ok.
    destruct (writeRepeatFreeSpace_ok f1 b) as (f2 & Ew & Hc2 & _). rewrite Ew in Hcb. injection Hcb as <- <-.
    rewrite Ec, Ep in Hc2. set (D := contents (chunk_output_fn (w_cb w))) in *.
    split; [done|]. cbn. rewrite Herr. split; [done|]. split; [done|]. split; [done|]. rewrite Hc2.
    rewrite zlen_file_write by done. split.
    + intros i Hi Hil. rewrite znth_write by lia. destruct (Z.leb_spec p i), (Z.ltb_spec i (p + zlen b)); cbn [andb]; try lia.
      * destruct (Hok (i - p) ltac:(lia)) as [E|[E _]]; replace (p + (i - p)) with i in E by lia; [by right|by left].
      * destruct (Z.lt_ge_cases i (zlen D)); [apply HD; lia|]. destruct ru; [left; apply Hru; lia|lia].
    + destruct ru.
      * split; [lia|]. intros i Hi. lia.
      * split; [lia|]. split; [lia|]. intros i Hi. rewrite znth_write by lia.
        destruct (Z.leb_spec p i), (Z.ltb_spec i (p + zlen b)); cbn [andb]; try lia; apply Hru; lia.
  - intros p tr w (Hcf & Hpos & Hrf & Herr & HD & Hru) Hp _ Htr _ HpN HpO Hext.
    apply run_bind, run_assert_pos; [done|]. apply run_bind, run_cb_bytes. intros r h' Hcb. apply run_ret.
    cbn in Hcb. rewrite andb_false_r in Hcb. injection Hcb as <- <-. split; [|done]. split; [done|]. cbn.
    rewrite Hpos. split; [done|]. split; [done|]. split; [done|].
    split; [intros i Hi Hil; destruct (Z.lt_ge_cases i p); [apply HD; lia|left; apply Hext; lia]|].
    destruct ru.
    + split; [lia|]. intros i Hi. destruct (Z.lt_ge_cases i p); [apply Hru; lia|apply Hext; lia].
    + split; [lia|]. split; [lia|]. intros i Hi. apply Hru. lia.
  - intros p tr w Hr (Hcf & Hpos & Hrf & Herr & HD & Hru) Hp Htr HpN [HpO Hun]. unfold skip_unchanged.
    apply run_bind, run_get_cp. apply run_bind, run_assert_pos; [done|]. apply run_bind, run_cb_bytes. intros r h' Hcb.
    cbn in Hcb. rewrite andb_false_r in Hcb. injection Hcb as <- <-.
    apply run_bind, run_mod_cp. cbn [w_cp w_cb w_file w_patch w_it].
    set (w1 := mkWorld _ _ _ _ _).
    assert (HI1 : build_inv (p + tr) (w_cp w1) (w_cb w1)).
    { split; [done|]. cbn. rewrite Hpos. split; [done|]. split; [done|]. split; [done|]. subst ru.
      split; [|split; [lia|split; [lia|intros i Hi; apply Hru; lia]]].
      intros i Hi Hil. destruct (Z.lt_ge_cases i p); [apply HD; lia|].
      destruct Hru as (_ & _ & Hru). rewrite Hru by lia. apply Hun. lia. }
    destruct (default false _).
    + unfold start_sparse. apply run_bind, run_get_cp. destruct (_ =? _); [|by apply run_ret].
      apply run_mod_cp. split; [|done]. eapply build_inv_cp; [|exact HI1]. apply Hcf.
    + unfold end_sparse. apply run_bind, run_get_cp. destruct (negb (last_sparse_start _ =? -1)); [|by apply run_ret].
      by apply (run_finishSparse_build p (p + tr) w1).
Qed.

End Emit.

(** ** The patched file *)

Lemma shrunk_length bs l : (length (shrunk bs l) <= length l)%nat.
Proof. induction l as [|e l IH]; cbn [shrunk]; [done|]. destruct (_ <? _); cbn [length]; lia. Qed.
Lemma in_ext_last es d n :
  (forall e, In e es -> offset e + size e <= d) -> in_ext es (n - 1) -> n <= d.
Proof. intros He (e & Hin & Hx). specialize (He e Hin). lia. Qed.

Section Patched.
Context (old new : bytes) (HO : zlen old < 2 ^ 62) (HN : zlen new < 2 ^ 62).
Context (l : list SSparseExtent) (rest : bytes) (Hl : Forall extent_ok l) (Hll : zlen l < 2 ^ 60).
Context (dest source patch : F) (extents : option F) (reflinked : bool) (rs : list precord).
Context (Hsource : contents source = old) (Hdest : contents dest = if reflinked then old else []).
Context (Hpatch : contents patch = patch_bytes (zlen new) rs) (Hrs : patches (shrunk 1 l) old new 0 rs).
Context (Hextents : match extents with Some f => contents f = extents_file l rest | None => l = [] end).
Context (Hbig : reflinked = false -> l <> [] -> zlen new <= UINT_MAX).
Context (fuel : nat) (Hfuel : (2 * Z.to_nat (zlen new) + length rs + length l + 5 <= fuel)%nat).
Notation it0 := ((fun f => ExtentIterator.init (Some f) 1) <$> extents).
Notation has_it := (bool_decide (is_Some extents)).

Lemma chunk_patcher_apply uninit :
  run (fun _ w => build_inv old new 1 l (negb reflinked) (zlen new) (w_cp w) (w_cb w) /\ its_ok 1 l rest has_it w)
    (ApplyPatch (H0 := server_hash) fuel)
    (mkWorld (setRequireUnchanged (negb reflinked) (ChunkPatcher_init uninit)) source patch (mkHash dest 0 reflinked 0 false) it0).
Proof.
  destruct uninit as [[[? ?] ?] ?]. pose proof (zlen_nonneg old).
  apply (run_ApplyPatch old new HN 1 l rest (negb reflinked) false has_it) with
    (Inv := build_inv old new 1 l (negb reflinked)) (rs := rs); try done.
  - intros Hr Hne. apply Hbig; [by destruct reflinked|done].
  - apply build_emitter.
  - apply bool_decide_ext. symmetry. apply fmap_is_Some.
  - destruct extents; [|done]. cbn. by apply init_yields.
  - intros cp (Hcf & _). split; [done|]. cbn. split; [done|]. split; [by destruct reflinked|]. split; [done|].
    split; [lia|]. rewrite Hdest. destruct reflinked; cbn; [split; [lia|split; [lia|done]]|].
    change (zlen (@nil ascii)) with 0. split; lia.
  - pose proof (shrunk_length 1 l). lia.
Qed.

Lemma patched_contents (ru : bool) cp h f' dst resize :
  (forall i, 0 <= i < zlen new -> in_ext (shrunk 1 l) i -> znth nul new i = nul) ->
  build_inv old new 1 l ru (zlen new) cp h ->
  zlen (contents (chunk_output_fn h)) <= zlen (contents f') <= dst ->
  (forall e, In e (shrunk 1 l) -> offset e + size e <= dst) ->
  (resize = false -> zlen (contents f') = dst) ->
  (forall i, 0 <= i -> (in_ext (shrunk 1 l) i -> znth nul (contents f') i = nul) /\
     (in_ext (shrunk 1 l) i \/ znth nul (contents f') i = znth nul (contents (chunk_output_fn h)) i)) ->
  zlen (contents (chunk_output_fn h)) <= dst -> zlen new <= dst /\
  ztake (zlen new) (zresize nul dst (contents f')) = new.
Proof.
  intros Hz (_ & _ & _ & _ & HD & Hru) Hlen Hends Hres Hc Hd. set (D := contents (chunk_output_fn h)) in *.
  pose proof (zlen_nonneg new). pose proof (zlen_nonneg D).
  assert (HNd : zlen new <= dst).
  { destruct ru; [|lia]. destruct (Z.lt_ge_cases (zlen D) (zlen new)); [|lia].
    apply (in_ext_last _ _ _ Hends). apply Hru. lia. }
  split; [done|]. apply (list_eq_znth nul); rewrite zlen_ztake, zlen_zresize by lia; [lia|].
  intros i Hi. rewrite Z.min_l in Hi by lia. rewrite znth_ztake by lia.
  assert (Hg : znth nul (zresize nul dst (contents f')) i = znth nul (contents f') i).
  { apply znth_zresize_grow; lia. }
  rewrite Hg. destruct (Hc i ltac:(lia)) as [Hc1 [Hc2|Hc2]]; [by rewrite Hc1, Hz by (done || lia)|].
  destruct (Z.lt_ge_cases i (zlen D)).
  - destruct (HD i ltac:(lia) ltac:(lia)) as [Hx|Hx]; [by rewrite Hc1, Hz by (done || lia)|]. by rewrite Hc2.
  - destruct ru; [|lia]. assert (Hx : in_ext (shrunk 1 l) i) by (apply Hru; lia). by rewrite Hc1, Hz by (done || lia).
Qed.

(** What is left after the patch: punching the extents, sizing the file. *)
Lemma finish_patched uninit :
  (forall i, 0 <= i < zlen new -> in_ext (shrunk 1 l) i -> znth nul new i = nul) ->
  exists f, patchFile handle_not_enough_space fuel (ChunkPatcher_init uninit) dest source patch it0 reflinked (zlen new)
              = Some (true, f) /\ contents f = new.
Proof.
  intros Hz. destruct (run_inv _ _ _ (chunk_patcher_apply uninit)) as ([] & w & E & HI & Hit).
  unfold patchFile. change (server_hash_callback handle_not_enough_space) with server_hash. rewrite E. cbn [mbind option_bind].
  pose proof (proj1 HI) as (HfN & _). unfold getFilesize. rewrite HfN, Z.eqb_refl. cbn [negb].
  pose proof HI as (_ & _ & _ & -> & _). set (f0 := chunk_output_fn (w_cb w)). rewrite size_law.
  assert (Hp : exists f' dst resize,
    match w_it w with
    | None => Some (f0, false, zlen (contents f0), false)
    | Some it => '(e, it) ← ExtentIterator.nextExtent fuel (ExtentIterator.reset it);
                 punch_extents handle_not_enough_space fuel f0 it e false (zlen (contents f0)) false
    end = Some (f', false, dst, resize) /\
    zlen (contents f0) <= zlen (contents f') <= dst /\ zlen (contents f0) <= dst /\
    (resize = false -> zlen (contents f') = dst) /\ (forall e, In e (shrunk 1 l) -> offset e + size e <= dst) /\
    (forall i, 0 <= i -> (in_ext (shrunk 1 l) i -> znth nul (contents f') i = nul) /\
      (in_ext (shrunk 1 l) i \/ znth nul (contents f') i = znth nul (contents f0) i))).
  { unfold its_ok in Hit. destruct extents as [fe|].
    - rewrite bool_decide_true in Hit by eauto. destruct Hit as (it & -> & Hon).
      pose proof (reset_yields 1 ltac:(lia) l rest Hl Hll it Hon) as Hy. destruct fuel as [|fuel']; [lia|].
      destruct (next_extents_from 1 l rest _ fuel' _ Hy) as (e & it' & -> & He). cbn [mbind option_bind].
      destruct (punch_extents_ok 1 l rest (shrunk 1 l) (S fuel') f0 it' e (zlen (contents f0)) false He)
        as (f' & dst & resize & -> & Hl' & Hd & Hr & Hends & Hc); [pose proof (shrunk_length 1 l); lia|lia|].
      exists f', dst, resize. split; [done|]. split; [done|]. split; [done|]. split; [|done].
      intros Er. destruct (Hr Er) as [_ ->]. lia.
    - rewrite bool_decide_false in Hit by by intros []. rewrite Hit. exists f0, (zlen (contents f0)), false.
      split; [done|]. split; [lia|]. split; [lia|]. split; [done|]. rewrite Hextents. split; [done|].
      intros i Hi. split; [|by right]. intros (e & [] & _). }
  destruct Hp as (f' & dst & resize & -> & Hlen & Hd & Hr & Hends & Hc). cbn [mbind option_bind].
  destruct (patched_contents _ _ _ f' dst resize Hz HI Hlen Hends Hr Hc Hd) as [HNd Hnew].
  assert (Hrs' : exists f2, (if resize then Resize f' dst else (true, f')) = (true, f2) /\
                   contents f2 = zresize nul dst (contents f')).
  { destruct resize.
    - destruct (resize_law f' dst) as (Er & Ec & _); [pose proof (zlen_nonneg (contents f')); lia|].
      destruct (Resize f' dst) as [b f2]. cbn in Er, Ec. subst b. by exists f2.
    - exists f'. split; [done|]. rewrite <- (Hr eq_refl). by rewrite zresize_same. }
  destruct Hrs' as (f2 & -> & Hc2). cbn [negb orb]. pose proof (zlen_nonneg (contents f')).
  destruct (Z.ltb_spec (zlen new) dst).
  - destruct (resize_law f2 (zlen new)) as (Er & Ec & _); [apply zlen_nonneg|].
    destruct (Resize f2 (zlen new)) as [b f3]. cbn in Er, Ec. subst b. exists f3. split; [done|]. rewrite Ec, Hc2.
    rewrite <- Hnew at 2. unfold zresize at 1. rewrite zlen_zresize by lia.
    replace (Z.to_nat (zlen new - dst)) with 0%nat by lia. apply app_nil_r.
  - assert (dst = zlen new) as -> by lia. rewrite Z.eqb_refl. exists f2. split; [done|]. rewrite Hc2.
    rewrite <- Hnew at 2. symmetry. apply ztake_ge. rewrite zlen_zresize; lia.
Qed.
End Patched.
End Build.

(** The in-memory file cannot punch holes. *)
#[global] Instance memory_fs_file : IFsFile CMemoryFile.t := {| PunchHole f o s := (CMemoryFile.PunchHole f o s, f) |}.
#[global] Instance memory_punch_laws : PunchLaws CMemoryFile.t.
Proof. by split. Qed.


