(* ===== verification/PatchHash.v ===== *)
(** Hashing a patched file: [BackupServerPrepareHash] as the chunk patcher's
    callback, without a hash output file, against hashing the complete new file.

    [file_hash] is what is hashed of a file's contents.  The patcher collects the
    pieces of the patch into blocks ([sparse_buf]), so that it calls the hash
    function like [hash_sha] does. *)
From S2P Require Import Prelude MemFile ExtentIter ChunkPatcher PatchApply PatchLoop PatchBuild.

Notation B := sparse_blocksize.
Lemma block_pos : 0 < B.
Proof. unfold B. lia. Qed.

Lemma set_last_sparse_start_same st cp : st = last_sparse_start cp -> cp = set_last_sparse_start st cp.
Proof. intros ->. by destruct cp. Qed.

Lemma file_read_zsub d p n : file_read d p n = zsub p n d.
Proof. reflexivity. Qed.

Section Hash.
Context {F H : Type} `{FileLaws F} `{IHashFunc H}.

(** * What is hashed

    Blocks of [B] bytes; a run of blocks of zeros is hashed as its offset and
    length when the next other block, or the end, is reached. *)
Section Spec.
Context (new : bytes) (h0 : H).

Definition flush (start p : Z) (h : H) : H :=
  if start =? -1 then h else sparse_hash h (extent_bytes (mkExtent start (p - start))).
Definition block_step (st : Z * H) (p : Z) (b : bytes) : Z * H :=
  if buf_is_zero b then (if fst st =? -1 then p else fst st, snd st) else (-1, hash (flush (fst st) p (snd st)) b).
Fixpoint blocks_hash (n : nat) : Z * H :=
  match n with
  | O => (-1, h0)
  | S k => block_step (blocks_hash k) (Z.of_nat k * B) (zsub (Z.of_nat k * B) B new)
  end.
Definition file_hash : H :=
  let n := zlen new / B in
  let '(start, h) := blocks_hash (Z.to_nat n) in
  let h := flush start (n * B) h in
  if 0 <? zlen new mod B then hash h (zdrop (n * B) new) else h.

Lemma blocks_hash_start n : fst (blocks_hash n) = -1 \/ 0 <= fst (blocks_hash n) < Z.of_nat n * B.
Proof.
  pose proof block_pos. induction n as [|n IH]; [by left|]. cbn [blocks_hash]. unfold block_step.
  destruct (buf_is_zero _); cbn [fst]; [|by left]. destruct (Z.eqb_spec (fst (blocks_hash n)) (-1)); right; lia.
Qed.

Lemma buf_is_zero_spec b : buf_is_zero b = true <-> forall i, 0 <= i < zlen b -> znth nul b i = nul.
Proof.
  unfold buf_is_zero. rewrite forallb_forall. split.
  - intros Hb i Hi. specialize (Hb (znth nul b i)). destruct (ceq_spec (znth nul b i) nul); [done|].
    discriminate Hb. unfold znth. apply nth_In. unfold zlen in Hi. lia.
  - intros Hb x (i & Hi & <-)%(In_nth _ _ nul). specialize (Hb (Z.of_nat i)). unfold znth, zlen in Hb.
    rewrite Nat2Z.id in Hb. rewrite Hb by lia. apply ceq_refl.
Qed.
Lemma buf_is_zero_app a b : buf_is_zero (a ++ b) = buf_is_zero a && buf_is_zero b.
Proof. apply forallb_app. Qed.

(** A run of blocks of zeros. *)
Lemma blocks_hash_zeros n m :
  (forall q, Z.of_nat n * B <= q < (Z.of_nat n + Z.of_nat m) * B -> znth nul new q = nul) ->
  (Z.of_nat n + Z.of_nat m) * B <= zlen new -> (0 < m)%nat ->
  blocks_hash (n + m) = (if fst (blocks_hash n) =? -1 then Z.of_nat n * B else fst (blocks_hash n), snd (blocks_hash n)).
Proof.
  pose proof block_pos. induction m as [|m IH]; intros Hz Hl Hm; [lia|]. rewrite Nat.add_succ_r. cbn [blocks_hash]. unfold block_step.
  rewrite (proj2 (buf_is_zero_spec (zsub (Z.of_nat (n + m) * B) B new))).
  2:{ rewrite zlen_zsub by lia. intros i Hi. rewrite znth_zsub by lia. apply Hz. nia. }
  destruct m as [|m]; [by rewrite Nat.add_0_r|]. rewrite IH by (try lia; intros; apply Hz; lia). cbn [fst snd]. f_equal.
  destruct (Z.eqb_spec (fst (blocks_hash n)) (-1)).
  - rewrite (proj2 (Z.eqb_neq (Z.of_nat n * B) (-1))) by lia. done.
  - by rewrite (proj2 (Z.eqb_neq (fst (blocks_hash n)) (-1))) by done.
Qed.
End Spec.

(** * Hashing while patching *)

Section Patching.
Context (sparse_hashes : bytes).
#[local] Instance hash_cb : IChunkPatcherCallback (BackupServerPrepareHash F H) := prepare_hash_callback sparse_hashes.
Notation world := (world F (BackupServerPrepareHash F H)).
Context (old new : bytes) (bs : Z) (Hbs : 0 < bs) (l : list SSparseExtent) (rest : bytes) (h0 : H).
Notation es := (shrunk bs l).
Notation N := (zlen new).
(** Old and new file have zeros under the extents. *)
Context (Hold : forall q, in_ext es q -> znth nul old q = nul) (Hnew : forall q, in_ext es q -> znth nul new q = nul).

(** After the bytes before [p]: the whole blocks are hashed, the rest waits in
    [sparse_buf]. *)
Definition hash_inv (p : Z) (cp : ChunkPatcher) (c : BackupServerPrepareHash F H) : Prop :=
  config new true true cp /\ last_unchanged cp = false /\ hashoutput_f c = None /\ zlen (sparse_buf cp) = B /\
  blocks_hash new h0 (Z.to_nat (p / B)) = (last_sparse_start cp, hashf c) /\ file_pos c = p / B * B /\
  curr_only_zeros cp = buf_is_zero (zsub (p / B * B) (p mod B) new) /\
  ztake (p mod B) (sparse_buf cp) = zsub (p / B * B) (p mod B) new.

(** At the end of a block. *)
Definition flushed (pos : Z) (w : world) : world :=
  mkWorld (set_last_sparse_start (-1) (w_cp w)) (w_file w) (w_patch w)
    (mkPrepare (flush (last_sparse_start (w_cp w)) (pos / B * B) (hashf (w_cb w))) (hashoutput_f (w_cb w))
       (file_pos (w_cb w)) (ph_has_error (w_cb w))) (w_it w).
Lemma flushed_none pos w : last_sparse_start (w_cp w) = -1 -> flushed pos w = w.
Proof.
  intros E. unfold flushed. rewrite E. destruct w as [cp f1 f2 [] it]. cbn in *. f_equal. destruct cp. cbn in *. by subst.
Qed.
Lemma run_end_sparse (Q : unit -> world -> Prop) pos (w : world) :
  0 <= pos -> blocks_hash new h0 (Z.to_nat (pos / B)) = (last_sparse_start (w_cp w), hashf (w_cb w)) ->
  Q tt (flushed pos w) ->
  run Q (finishSparse pos) w.
Proof.
  intros Hp Hb HQ. pose proof block_pos. unfold finishSparse. apply run_bind, run_get_cp. cbn zeta.
  pose proof (blocks_hash_start new h0 (Z.to_nat (pos / B))) as Hs. rewrite Hb in Hs. cbn [fst] in Hs.
  assert (0 <= pos / B) by (apply Z.div_pos; lia). rewrite Z2Nat.id in Hs by done.
  assert (Hrd : roundDown pos B = pos / B * B).
  { unfold roundDown. by rewrite Z.quot_div_nonneg by lia. }
  rewrite Hrd. unfold flushed, flush in HQ. destruct (Z.eqb_spec (last_sparse_start (w_cp w)) (-1)) as [E|E]; cbn [negb andb].
  - apply run_ret. by rewrite <- (flushed_none pos w E); unfold flushed, flush; rewrite (proj2 (Z.eqb_eq _ _) E).
  - rewrite (proj2 (Z.ltb_lt _ _)) by lia. apply run_bind, run_cb_sparse_extent, run_mod_cp. exact HQ.
Qed.
Lemma run_end_sparse' (Q : unit -> world -> Prop) pos (w : world) :
  0 <= pos -> blocks_hash new h0 (Z.to_nat (pos / B)) = (last_sparse_start (w_cp w), hashf (w_cb w)) ->
  Q tt (flushed pos w) ->
  run Q (end_sparse pos) w.
Proof.
  intros Hp Hb HQ. unfold end_sparse. apply run_bind, run_get_cp.
  destruct (negb (last_sparse_start (w_cp w) =? -1)) eqn:E; [by apply run_end_sparse|].
  apply negb_false_iff, Z.eqb_eq in E. apply run_ret. by rewrite <- (flushed_none pos w E).
Qed.

Lemma next_block p : 0 <= p -> p mod B = 0 -> (p + B) / B = p / B + 1 /\ (p + B) mod B = 0 /\ p / B * B = p /\ 0 <= p / B.
Proof.
  intros Hp Hm. pose proof block_pos. pose proof (Z.div_mod p B ltac:(lia)). pose proof (Z.div_pos p B Hp block_pos).
  replace (p + B) with (p + 1 * B) by lia. rewrite Z.div_add, Z.mod_add by lia. lia.
Qed.
Lemma in_block p n : 0 <= p -> 0 <= n -> p mod B + n < B -> (p + n) / B = p / B /\ (p + n) mod B = p mod B + n.
Proof.
  intros Hp Hn Hlt. pose proof block_pos. pose proof (Z.div_mod p B ltac:(lia)). pose proof (Z.mod_pos_bound p B block_pos).
  replace (p + n) with ((p mod B + n) + p / B * B) by lia. rewrite Z.div_add, Z.mod_add by lia.
  rewrite Z.div_small, (Z.mod_small (_ + _)) by lia. lia.
Qed.

Lemma blocks_hash_next n (w : world) b :
  blocks_hash new h0 (Z.to_nat n) = (last_sparse_start (w_cp w), hashf (w_cb w)) -> 0 <= n -> b = zsub (n * B) B new ->
  blocks_hash new h0 (Z.to_nat (n + 1)) =
  if buf_is_zero b then (if last_sparse_start (w_cp w) =? -1 then n * B else last_sparse_start (w_cp w), hashf (w_cb w))
  else (-1, hash (flush (last_sparse_start (w_cp w)) (n * B) (hashf (w_cb w))) b).
Proof.
  intros Hb Hn ->. replace (Z.to_nat (n + 1)) with (S (Z.to_nat n)) by lia. cbn [blocks_hash]. unfold block_step.
  rewrite Hb, Z2Nat.id by done. done.
Qed.

Lemma run_whole_block p b changed (w : world) :
  hash_inv p (w_cp w) (w_cb w) -> 0 <= p -> p mod B = 0 -> p + B <= N -> b = zsub p B new ->
  run (fun _ w' => hash_inv (p + B) (w_cp w') (w_cb w') /\ same_files w w') (whole_block p b changed) w.
Proof.
  intros (Hcf & Hlu & Hho & Hsb & Hbh & Hfp & _ & _) Hp Hm HpN Hb. pose proof block_pos.
  destruct (next_block p Hp Hm) as (Hd & Hmm & Hdm & Hq).
  assert (Lb : zlen b = B) by (subst b; apply zlen_zsub; lia). rewrite <- Hdm in Hb.
  pose proof (blocks_hash_next (p / B) w b Hbh Hq Hb) as Hn. rewrite Hdm in *.
  unfold whole_block. apply run_bind, run_mod_cp. destruct (buf_is_zero b) eqn:Ez.
  - apply run_bind. unfold start_sparse. apply run_bind, run_get_cp. cbn [w_cp last_sparse_start set_curr_only_zeros].
    assert (Hfin : forall st (w1 : world), st = (if last_sparse_start (w_cp w) =? -1 then p else last_sparse_start (w_cp w)) ->
      w_cp w1 = set_last_sparse_start st (set_curr_only_zeros true (w_cp w)) -> w_cb w1 = w_cb w -> same_files w w1 ->
      run (fun _ w' => hash_inv (p + B) (w_cp w') (w_cb w') /\ same_files w w')
        (assert_pos p;; _ ← cb_bytes None (zlen b) changed (Some true); mret tt) w1).
    { intros st w1 Hst Ecp Ecb Hsf. apply run_bind, run_assert_pos; [by rewrite Ecb|].
      apply run_bind, run_cb_bytes. intros r c Hcb. apply run_ret. split; [|done]. rewrite Ecb in Hcb. cbn in Hcb.
      rewrite Hho in Hcb. injection Hcb as <- <-. cbn [w_cp w_cb]. rewrite Ecp. split; [done|]. split; [done|].
      cbn. split; [done|]. split; [done|]. rewrite Hd, Hmm, Hn, Hst, Hfp, Lb. split; [done|]. split; [lia|]. done. }
    destruct (last_sparse_start (w_cp w) =? -1) eqn:Es.
    + apply run_mod_cp. by apply (Hfin p).
    + apply run_ret. apply (Hfin (last_sparse_start (w_cp w))); [done|by apply set_last_sparse_start_same|done|done].
  - apply run_bind, run_end_sparse'; [done|done|]. cbn [w_cp w_cb w_file w_patch w_it].
    apply run_bind, run_assert_pos; [done|]. apply run_bind, run_cb_bytes. intros r c Hcb. cbn in Hcb. injection Hcb as <- <-.
    apply run_mod_cp. cbn [w_cp w_cb]. split; [|done]. split; [done|]. split; [done|]. cbn. split; [done|]. split; [done|].
    rewrite Hd, Hmm, Hn, Hfp, Lb, Hdm. split; [done|]. split; [lia|]. done.
Qed.

(** The end of a block collected in [sparse_buf]. *)
Lemma run_collected_block p k n (w : world) :
  hash_inv p (w_cp w) (w_cb w) -> 0 <= p -> p / B = k -> (k + 1) * B = p + n -> 0 < n -> p + n <= N ->
  forall (w1 : world), (exists u z, w_cp w1 = set_sparse_buf (zsub (k * B) B new) (set_curr_changed u (set_curr_only_zeros z (w_cp w))) /\
      z = buf_is_zero (zsub (k * B) B new)) -> w_cb w1 = w_cb w -> same_files w w1 ->
  run (fun _ w' => hash_inv (p + n) (w_cp w') (w_cb w') /\ same_files w w') (collected_block p (k * B + B) n) w1.
Proof.
  intros (Hcf & Hlu & Hho & Hsb & Hbh & Hfp & _ & _) Hp Hk Hn Hn0 HpN w1 (u & z & Ecp & Ez) Ecb Hsf. pose proof block_pos.
  assert (Hk0 : 0 <= k) by (subst k; apply Z.div_pos; lia).
  set (blk := zsub (k * B) B new) in *. assert (Lb : zlen blk = B) by (apply zlen_zsub; lia). rewrite Hk in *.
  pose proof (blocks_hash_next k w blk Hbh Hk0 eq_refl) as Hx. rewrite <- Ez in Hx.
  assert (Hd : (p + n) / B = k + 1) by (rewrite <- Hn; apply Z.div_mul; lia).
  assert (Hmm : (p + n) mod B = 0) by (rewrite <- Hn; apply Z.mod_mul; lia).
  unfold collected_block. apply run_bind, run_get_cp. rewrite Ecp. cbn [curr_only_zeros set_sparse_buf set_curr_changed set_curr_only_zeros].
  assert (Hfresh : forall st h err (w2 : world), blocks_hash new h0 (Z.to_nat (k + 1)) = (st, h) ->
     (exists u z, w_cp w2 = set_last_sparse_start st (set_sparse_buf blk (set_curr_changed u (set_curr_only_zeros z (w_cp w))))) ->
     w_cb w2 = mkPrepare h None ((k + 1) * B) err -> same_files w w2 ->
     run (fun _ => run (fun _ w' => hash_inv (p + n) (w_cp w') (w_cb w') /\ same_files w w') fresh_block) (assert_pos (p + n)) w2).
  { intros st h err w2 Hst (u' & z' & Ecp2) Ecb2 Hsf2. apply run_assert_pos; [rewrite Ecb2; cbn; lia|].
    apply run_mod_cp. cbn [w_cp w_cb]. split; [|done]. rewrite Ecp2, Ecb2. split; [done|]. split; [done|]. cbn.
    rewrite Hd, Hmm. split; [done|]. split; [done|]. split; [done|]. done. }
  apply run_bind. destruct z.
  - unfold start_sparse. apply run_bind, run_get_cp. rewrite Ecp. cbn [last_sparse_start set_sparse_buf set_curr_changed set_curr_only_zeros].
    replace (k * B + B - B) with (k * B) by lia.
    assert (Hgo : forall st (w2 : world), st = (if last_sparse_start (w_cp w) =? -1 then k * B else last_sparse_start (w_cp w)) ->
      w_cp w2 = set_last_sparse_start st (set_sparse_buf blk (set_curr_changed u (set_curr_only_zeros true (w_cp w)))) ->
      w_cb w2 = w_cb w -> same_files w w2 ->
      run (fun _ w' => hash_inv (p + n) (w_cp w') (w_cb w') /\ same_files w w')
        (p' ← get_cp; (if negb (curr_only_zeros p') then _ ← cb_bytes (Some (sparse_buf p')) B (curr_changed p') None; assert_pos (p + n)
                       else _ ← cb_bytes None B (curr_changed p') (Some true); assert_pos (p + n));; fresh_block) w2).
    { intros st w2 Hst Ecp2 Ecb2 Hsf2. apply run_bind, run_get_cp. rewrite Ecp2. cbn [curr_only_zeros set_last_sparse_start set_sparse_buf set_curr_changed set_curr_only_zeros negb].
      apply run_bind, run_bind, run_cb_bytes. intros r c Hcb. rewrite Ecb2 in Hcb. cbn in Hcb. rewrite Hho in Hcb. injection Hcb as <- <-.
      apply (Hfresh st (hashf (w_cb w)) (ph_has_error (w_cb w))).
      - by rewrite Hx, Hst.
      - exists u, true. cbn [w_cp]. exact Ecp2.
      - cbn. rewrite ?Hho, Hfp. f_equal. lia.
      - done. }
    destruct (last_sparse_start (w_cp w) =? -1) eqn:Es.
    + apply run_mod_cp. apply (Hgo (k * B)); [reflexivity|cbn [w_cp]; rewrite Ecp; reflexivity|exact Ecb|exact Hsf].
    + apply run_ret. apply (Hgo (last_sparse_start (w_cp w))); [reflexivity| |exact Ecb|exact Hsf].
      rewrite Ecp. by apply set_last_sparse_start_same.
  - apply run_end_sparse'; [done|rewrite Hk, Ecp, Ecb; exact Hbh|]. apply run_bind, run_get_cp. unfold flushed. cbn [w_cp].
    rewrite Ecp, Ecb. cbn [curr_only_zeros set_last_sparse_start set_sparse_buf set_curr_changed set_curr_only_zeros negb sparse_buf last_sparse_start].
    apply run_bind, run_bind, run_cb_bytes. intros r c Hcb. cbn in Hcb. injection Hcb as <- <-.
    eapply (Hfresh _ _ (ph_has_error (w_cb w))); [exact Hx|exists u, false; reflexivity| |done].
    cbn [w_cb]. rewrite Hk, Hho, Hfp. f_equal. lia.
Qed.

Lemma flags cp zb (ch : bool) :
  (if ch then set_curr_changed true (if curr_only_zeros cp then set_curr_only_zeros zb cp else cp)
   else if curr_only_zeros cp then set_curr_only_zeros zb cp else cp)
  = set_curr_changed (curr_changed cp || ch) (set_curr_only_zeros (curr_only_zeros cp && zb) cp).
Proof. destruct cp as [? ? ? ? [|] [|] ? ? ? ? ? ?], ch; reflexivity. Qed.

(** A piece inside a block. *)
Lemma run_piece {A} (Q : A -> world -> Prop) (K : pm F _ A) p b n (changed : bool) (w : world) :
  hash_inv p (w_cp w) (w_cb w) -> 0 <= p -> n = zlen b -> 0 < n -> p mod B + n <= B -> p + n <= N -> b = zsub p (zlen b) new ->
  (forall w', hash_inv (p + n) (w_cp w') (w_cb w') -> same_files w w' -> run Q K w') ->
  run Q
    (mod_cp (fun p => if curr_only_zeros p then set_curr_only_zeros (buf_is_zero b) p else p);;
     mod_cp (fun p => if changed then set_curr_changed true p else p);;
     cp ← get_cp;
     s ← in_bounds (if p mod B + zlen b <=? zlen (sparse_buf cp) then Some (zsplice (p mod B) b (sparse_buf cp)) else None);
     mod_cp (set_sparse_buf s);;
     (if p + n =? p / B * B + B then collected_block p (p / B * B + B) n else mret tt);; K) w.
Proof.
  intros HI Hp -> Hb Hfit HpN Eb HK. pose proof HI as (Hcf & Hlu & Hho & Hsb & Hbh & Hfp & Hz & Hs). pose proof block_pos.
  pose proof (Z.mod_pos_bound p B block_pos) as Hm. pose proof (Z.div_mod p B ltac:(lia)) as Hdm.
  pose proof (Z.div_pos p B Hp block_pos) as Hq. set (r := p mod B) in *. set (k := p / B) in *.
  assert (Ez : curr_only_zeros (w_cp w) && buf_is_zero b = buf_is_zero (zsub (k * B) (r + zlen b) new)).
  { rewrite zsub_split, buf_is_zero_app by lia. replace (k * B + r) with p by lia. by rewrite <- Eb, Hz. }
  assert (Esp : zlen (zsplice r b (sparse_buf (w_cp w))) = B) by (rewrite zlen_zsplice; lia).
  assert (Et : ztake (r + zlen b) (zsplice r b (sparse_buf (w_cp w))) = zsub (k * B) (r + zlen b) new).
  { rewrite ztake_zsplice, Hs by lia. rewrite zsub_split by lia. f_equal. by replace (k * B + r) with p by lia. }
  apply run_bind, run_mod_cp, run_bind, run_mod_cp. cbn [w_cp w_file w_patch w_cb w_it]. rewrite (flags _ (buf_is_zero b) changed).
  set (u := curr_changed (w_cp w) || changed). rewrite Ez. set (z := buf_is_zero (zsub (k * B) (r + zlen b) new)) in *.
  apply run_bind, run_get_cp. cbn [w_cp sparse_buf set_curr_changed set_curr_only_zeros].
  apply run_bind. eapply run_in_bounds; [rewrite (proj2 (Z.leb_le _ _)) by lia; reflexivity|].
  apply run_bind, run_mod_cp. cbn [w_cp w_file w_patch w_cb w_it].
  apply run_bind, (run_mono (fun _ w' => hash_inv (p + zlen b) (w_cp w') (w_cb w') /\ same_files w w'));
    [|intros _ w' [HI' Hsf]; exact (HK w' HI' Hsf)].
  destruct (Z.eqb_spec (p + zlen b) (k * B + B)) as [Hend|Hend].
  - assert (Efull : zsplice r b (sparse_buf (w_cp w)) = zsub (k * B) B new).
    { pose proof Et as Et'. replace (r + zlen b) with B in Et' by lia. by rewrite ztake_ge in Et' by lia. }
    apply (run_collected_block p k (zlen b) w); [done|done|done|lia|lia|lia| |done|done].
    exists u, z. cbn [w_cp]. split; [by rewrite Efull|]. unfold z. by replace (r + zlen b) with B by lia.
  - apply run_ret. split; [|done]. destruct (in_block p (zlen b) Hp ltac:(lia) ltac:(lia)) as [Ed Em].
    split; [done|]. cbn [w_cp w_cb last_unchanged sparse_buf set_sparse_buf set_curr_changed set_curr_only_zeros last_sparse_start curr_only_zeros].
    rewrite Ed, Em. fold r k. split_and!; done.
Qed.

Lemma run_next_bytes_loop fuel p b changed (w : world) :
  hash_inv p (w_cp w) (w_cb w) -> 0 <= p -> p + zlen b <= N -> b = zsub p (zlen b) new ->
  (zlen b = 0 \/ p mod B + zlen b <= Z.of_nat fuel * B) ->
  run (fun _ w' => hash_inv (p + zlen b) (w_cp w') (w_cb w') /\ same_files w w') (next_bytes_loop fuel p b changed) w.
Proof.
  pose proof block_pos. revert p b w. induction fuel as [|fuel IH]; intros p b w HI Hp HpN Eb Hfuel; cbn [next_bytes_loop];
    pose proof (zlen_nonneg b) as Hb; pose proof (Z.mod_pos_bound p B block_pos) as Hm;
    destruct (Z.eqb_spec (zlen b) 0) as [E|E]; try (apply run_ret; rewrite E, Z.add_0_r; done); [lia|].
  pose proof (Z.div_mod p B ltac:(lia)) as Hdm. rewrite Z.rem_mod_nonneg by lia.
  destruct (Z.eqb_spec (p mod B) 0) as [Hp0|Hp0], (Z.eqb_spec (zlen b) B) as [HbB|HbB]; cbn [andb];
    [rewrite HbB in *; by apply run_whole_block| | |].
  all: assert (Hrd : roundDown p B = p / B * B) by (unfold roundDown; by rewrite Z.quot_div_nonneg by lia); rewrite Hrd.
  all: set (n := Z.min (zlen b) (p / B * B + B - p)); assert (Hn : 0 < n <= zlen b) by lia.
  all: assert (Lt : zlen (ztake n b) = n) by (rewrite zlen_ztake; lia).
  all: assert (Et : ztake n b = zsub p (zlen (ztake n b)) new)
         by (rewrite Lt; rewrite Eb at 1; unfold zsub; rewrite ztake_ztake; f_equal; lia).
  all: apply run_piece; try done; try lia.
  all: intros w' HI' (Ef & Ep & Ei).
  all: assert (Er : zdrop n b = zsub (p + n) (zlen (zdrop n b)) new)
         by (rewrite zlen_zdrop by lia; rewrite Eb at 1; unfold zsub; rewrite <- (zdrop_zdrop n p) by lia;
             unfold ztake, zdrop; rewrite skipn_firstn_comm; f_equal; lia).
  all: eapply run_mono; [apply (IH (p + n) (zdrop n b)); [done|lia|rewrite zlen_zdrop; lia|exact Er|]|].
  all: try (intros _ w2 (HI2 & Ef2 & Ep2 & Ei2); rewrite zlen_zdrop in HI2 by lia;
            replace (p + n + Z.max 0 (zlen b - n)) with (p + zlen b) in HI2 by lia;
            split; [done|split; [congruence|split; congruence]]).
  all: rewrite zlen_zdrop by lia; destruct (Z.le_gt_cases (zlen b) (p / B * B + B - p)); [left; lia|right].
  all: destruct (next_block (p / B * B)) as (_ & Hmm & _); [pose proof (Z.div_pos p B Hp block_pos); lia|apply Z.mod_mul; lia|].
  all: replace (p + n) with (p / B * B + B) by lia; rewrite Hmm; lia.
Qed.

Lemma run_give p b changed (w : world) :
  hash_inv p (w_cp w) (w_cb w) -> 0 <= p -> p + zlen b <= N -> b = zsub p (zlen b) new ->
  run (fun _ w' => hash_inv (p + zlen b) (w_cp w') (w_cb w') /\ same_files w w') (give_bytes p b changed) w.
Proof.
  intros HI Hp HpN Eb. pose proof block_pos. pose proof (Z.mod_pos_bound p B block_pos). unfold give_bytes.
  apply run_bind, run_get_cp. destruct HI as ((HfN & Hru & Hws & Hua) & HI). rewrite Hws. unfold nextChunkPatcherBytes.
  apply run_bind, run_mod_cp. set (w1 := mkWorld _ _ _ _ _).
  apply (run_next_bytes_loop _ p b changed w1); [|done|done|done|].
  - split; [done|]. split; [done|]. apply HI.
  - right. pose proof (Z.div_mod (zlen b) B ltac:(lia)). pose proof (Z.mod_pos_bound (zlen b) B block_pos).
    pose proof (Z.div_pos (zlen b) B (zlen_nonneg b) block_pos). rewrite !Nat2Z.inj_succ, Z2Nat.id by lia. lia.
Qed.

Lemma okb_new q c : okb old new bs l q c -> c = znth nul new q.
Proof. intros [?|(Hq & q' & Hq' & ->)]; [done|]. by rewrite Hold, Hnew. Qed.

Lemma run_sparse p tr (w : world) :
  hash_inv p (w_cp w) (w_cb w) -> 0 <= p -> p mod B = 0 -> 0 < tr -> tr mod B = 0 -> p + tr <= N ->
  (forall q, p <= q < p + tr -> in_ext es q) ->
  run (fun _ w' => hash_inv (p + tr) (w_cp w') (w_cb w') /\ same_files w w') (nextChunkPatcherBytes p [] tr false true) w.
Proof.
  intros (Hcf & Hlu & Hho & Hsb & Hbh & Hfp & Hz & Hs) Hp Hpm Htr Htm HpN Hext. pose proof block_pos.
  pose proof (Z.div_mod p B ltac:(lia)) as Hdm. pose proof (Z.div_mod tr B ltac:(lia)) as Hdt.
  pose proof (Z.div_pos p B Hp block_pos) as Hq. pose proof (Z.div_pos tr B ltac:(lia) block_pos) as Hqt.
  assert (Hmul : (p + tr) / B = p / B + tr / B /\ (p + tr) mod B = 0).
  { replace (p + tr) with (p + tr / B * B) by lia. rewrite Z.div_add, Z.mod_add by lia. lia. }
  destruct Hmul as [Ed Em]. rewrite Hpm in Hz, Hs.
  assert (Hup : roundUp p B = p).
  { unfold roundUp. rewrite Z.quot_div_nonneg by lia. replace (p + B - 1) with (B - 1 + p / B * B) by lia.
    rewrite Z.div_add, (Z.div_small (B - 1)) by lia. lia. }
  pose proof (blocks_hash_zeros new h0 (Z.to_nat (p / B)) (Z.to_nat (tr / B))) as Hzs.
  rewrite !Z2Nat.id, Hbh in Hzs by done. cbn [fst snd] in Hzs. rewrite <- Z2Nat.inj_add in Hzs by done.
  assert (Hb : blocks_hash new h0 (Z.to_nat (p / B + tr / B)) =
    (if last_sparse_start (w_cp w) =? -1 then p else last_sparse_start (w_cp w), hashf (w_cb w))).
  { rewrite Hzs; [by replace (p / B * B) with p by lia| |lia|].
    - intros q Hq'. apply Hnew, Hext. lia.
    - destruct (Z.eq_dec (tr / B) 0); nia. }
  unfold nextChunkPatcherBytes. apply run_bind, run_mod_cp, run_bind, run_get_cp. destruct Hcf as (HfN & Hru & Hws & Hua).
  cbn [w_cp unchanged_align set_last_unchanged]. rewrite Hua, (Z.rem_mod_nonneg p B) by lia. rewrite Hpm, Hup.
  apply run_bind, run_assert; [done|]. apply run_bind, run_assert; [done|].
  assert (Hfin : forall st (w1 : world), st = (if last_sparse_start (w_cp w) =? -1 then p else last_sparse_start (w_cp w)) ->
    w_cp w1 = set_last_sparse_start st (set_last_unchanged false (w_cp w)) -> w_cb w1 = w_cb w -> same_files w w1 ->
    run (fun _ w' => hash_inv (p + tr) (w_cp w') (w_cb w') /\ same_files w w')
      (assert_pos p;; _ ← cb_bytes None tr false (Some true); mret tt) w1).
  { intros st w1 Hst Ecp Ecb Hsf. apply run_bind, run_assert_pos; [rewrite Ecb; cbn [chunk_patcher_pos hash_cb prepare_hash_callback]; lia|].
    apply run_bind, run_cb_bytes. intros r c Hcb. apply run_ret. split; [|done]. rewrite Ecb in Hcb. cbn in Hcb.
    rewrite Hho in Hcb. injection Hcb as <- <-. cbn [w_cp w_cb]. rewrite Ecp. split; [done|]. split; [done|].
    cbn [hashoutput_f sparse_buf set_last_sparse_start set_last_unchanged hashf last_sparse_start file_pos curr_only_zeros].
    rewrite Ed, Em, Hb, Hst, Hfp. split_and!; try done. lia. }
  apply run_bind. unfold start_sparse. apply run_bind, run_get_cp. cbn [w_cp last_sparse_start set_last_unchanged].
  destruct (last_sparse_start (w_cp w) =? -1) eqn:Es.
  - apply run_mod_cp. by apply (Hfin p).
  - apply run_ret. apply (Hfin (last_sparse_start (w_cp w))); [done|by apply set_last_sparse_start_same|done|done].
Qed.

#[local] Instance hash_emitter : Emitter (F := F) old new bs l true true hash_inv.
Proof.
  constructor.
  - by intros p cp c [? _].
  - intros v p cp c HI. exact HI.
  - intros p b changed w HI Hp Hb HpN _ Hok. apply run_give; [done|done|done|].
    apply (list_eq_znth nul); [by rewrite zlen_zsub by lia|]. intros i Hi. rewrite znth_zsub by lia. by apply okb_new, Hok.
  - intros p tr w HI Hp Hpm Htr Htm HpN _ Hext. by apply run_sparse.
  - done.
Qed.

Lemma run_finish (w : world) :
  hash_inv N (w_cp w) (w_cb w) -> run (fun _ w' => hashf (w_cb w') = file_hash new h0) (finishChunkPatcher N) w.
Proof.
  intros (Hcf & Hlu & Hho & Hsb & Hbh & Hfp & Hz & Hs). pose proof block_pos. pose proof (zlen_nonneg new).
  pose proof (Z.mod_pos_bound N B block_pos) as Hm. pose proof (Z.div_mod N B ltac:(lia)) as Hdm.
  unfold finishChunkPatcher. apply run_bind, run_end_sparse; [done|done|]. apply run_bind, run_get_cp. unfold flushed.
  cbn [w_cp last_unchanged set_last_sparse_start curr_changed sparse_buf]. rewrite Z.rem_mod_nonneg, Hlu, Hs by lia.
  unfold file_hash. rewrite Hbh. rewrite andb_true_r. destruct (0 <? N mod B) eqn:E.
  - apply Z.ltb_lt in E. apply run_bind, run_cb_bytes. intros r c Hcb. cbn in Hcb. injection Hcb as <- <-.
    apply run_assert_pos; cbn [w_cb chunk_patcher_pos hash_cb prepare_hash_callback file_pos hashf]; [lia|].
    pose proof (Z.div_pos N B ltac:(lia) block_pos). f_equal. unfold zsub. apply ztake_ge. rewrite zlen_zdrop; lia.
  - by apply run_ret.
Qed.

Lemma hash_with_patch_ok fuel uninit (f patch : F) extents rs fp err :
  zlen new < 2 ^ 62 -> Forall extent_ok l -> zlen l < 2 ^ 60 -> (l <> [] -> N <= UINT_MAX) ->
  contents f = old -> contents patch = patch_bytes N rs -> patches es old new 0 rs ->
  match extents with Some fe => contents fe = extents_file l rest | None => l = [] end ->
  (2 * Z.to_nat N + length rs + length l + 5 <= fuel)%nat ->
  exists w, hash_with_patch sparse_hashes fuel true
      (mkWorld (ChunkPatcher_init uninit) f patch (mkPrepare h0 None fp err) ((fun fe => ExtentIterator.init (Some fe) bs) <$> extents))
    = (Val tt, w) /\ hashf (w_cb w) = file_hash new h0.
Proof.
  intros HN Hl Hll Hbig Hf Hp Hrs Hext Hfuel. pose proof block_pos.
  destruct (run_inv (fun _ w => hashf (w_cb w) = file_hash new h0) (ApplyPatch (H0 := hash_cb) fuel)
    (mkWorld (setWithSparse true (setUnchangedAlign 0 (setRequireUnchanged true (ChunkPatcher_init uninit)))) f patch
       (mkPrepare h0 None 0 err) ((fun fe => ExtentIterator.init (Some fe) bs) <$> extents))) as ([] & w & E & Hw); [|by exists w].
  destruct uninit as [[[? ?] ?] ?].
  apply (run_ApplyPatch old new HN bs l rest true true (bool_decide (is_Some extents))) with (Inv := hash_inv) (rs := rs); try done.
  - exact hash_emitter.
  - apply bool_decide_ext. symmetry. apply fmap_is_Some.
  - destruct extents; [|done]. cbn. by apply init_yields.
  - intros cp (Hcf & Hlu & Hst). destruct (Hst eq_refl) as (Es & Ez & Esb). split; [done|]. split; [done|].
    cbn [w_cb hashoutput_f hashf file_pos]. change (0 / B) with 0. change (0 mod B) with 0. cbn [Z.to_nat blocks_hash Z.mul].
    rewrite Es, Ez. by split_and!.
  - intros w' HI _. by apply run_finish.
  - pose proof (shrunk_length bs l). lia.
Qed.
End Patching.

(** * Hashing a complete file *)

Section Complete.
Context (new : bytes) (bs : Z) (Hbs : 0 < bs) (l : list SSparseExtent) (rest : bytes) (h0 : H).
Notation es := (shrunk bs l).
Notation N := (zlen new).
Context (Hnew : forall q, in_ext es q -> znth nul new q = nul) (Hin : forall e, In e es -> offset e + size e <= N).

Definition at_ext (e : SSparseExtent) (k : list SSparseExtent) (it : option (ExtentIterator.t F)) : Prop :=
  (offset e = -1 /\ k = []) \/ (In e es /\ 0 <= offset e /\ incl k es /\ exists i, it = Some i /\ yields bs l rest i k).

Lemma hs_skip_extents_ok fuel p e k it :
  0 <= p -> at_ext e k it -> (length k < fuel)%nat ->
  exists e' k' it', hs_skip_extents fuel p e it = Some (e', it') /\ at_ext e' k' it' /\ (length k' <= length k)%nat.
Proof.
  revert e k it. induction fuel as [|fuel IH]; intros e k it Hp He Hfuel; [lia|]. cbn [hs_skip_extents].
  destruct He as [[Ho ->]|(Hi & Ho & Hincl & i & -> & Hy)].
  { rewrite Ho. cbn. exists e, [], it. split; [done|]. split; [by left|done]. }
  rewrite (proj2 (Z.eqb_neq (offset e) (-1))) by lia. cbn [negb andb]. destruct (Z.ltb_spec (offset e + size e) p).
  - destruct k as [|e2 k]; cbn [yields] in Hy.
    + destruct Hy as (_ & i' & Hy & _). rewrite Hy. cbn [mbind option_bind]. exists no_extent, [], (Some i').
      split; [by destruct fuel|]. split; [by left|done].
    + destruct Hy as (_ & He2 & i' & Hy & Hy'). rewrite Hy. cbn [mbind option_bind].
      destruct (IH e2 k (Some i') Hp) as (e' & k' & it' & -> & He' & Hk'); [|cbn in *; lia|].
      * right. split; [apply Hincl; by left|]. split; [lia|]. split; [intros x Hx; apply Hincl; by right|]. by exists i'.
      * exists e', k', it'. split; [done|]. split; [done|cbn; lia].
  - exists e, k, (Some i). split; [done|]. split; [|done]. right. split; [done|]. split; [done|]. split; [done|]. by exists i.
Qed.
Lemma at_ext_first k e i : incl k es -> extents_from bs l rest k e i -> at_ext e (tail k) (Some i).
Proof.
  intros Hk. destruct k as [|e0 k]; cbn [extents_from]; [by left|]. intros (-> & Ho & _ & Hy). right.
  split; [apply Hk; by left|]. split; [done|]. split; [intros x Hx; apply Hk; by right|]. by exists i.
Qed.
Lemma not_covered e k it : at_ext e k it -> negb (offset e =? -1) && (offset e <=? N) && (N + hash_bsize <=? offset e + size e) = false.
Proof.
  intros [[Ho _]|(Hi & _)]; [by rewrite Ho|]. specialize (Hin e Hi).
  rewrite (proj2 (Z.leb_gt (N + hash_bsize) (offset e + size e))) by (unfold hash_bsize; lia). apply andb_false_r.
Qed.

(** At the end of the file. *)
Lemma hash_sha_end fuel f it e k start (h : H) :
  contents f = new -> (start = -1 -> fpos f = N) -> at_ext e k it -> (length k + 2 <= fuel)%nat ->
  hash_sha_loop fuel true f it e N start h = Some (true, flush start N h).
Proof.
  intros Hc Hp He Hfuel. destruct fuel as [|fuel]; [lia|]. cbn [hash_sha_loop]. pose proof (zlen_nonneg new).
  destruct (hs_skip_extents_ok fuel N e k it) as (e' & k' & it' & -> & He' & _); [done|done|lia|]. cbn [mbind option_bind].
  rewrite (not_covered e' k' it' He').
  set (f1 := if negb (start =? -1) then _ else f).
  assert (Hf1 : contents f1 = new /\ fpos f1 = N).
  { unfold f1. destruct (Z.eqb_spec start (-1)); cbn [negb]; [auto|]. destruct (seek_law f N) as (_ & Ec & Ep); [done|]. by rewrite Ec. }
  destruct Hf1 as [Hc1 Hp1]. destruct (read_law f1 hash_bsize) as (Er & _); [unfold hash_bsize; lia|].
  assert (Hnil : file_read (contents f1) (fpos f1) hash_bsize = []).
  { rewrite Hc1, Hp1. unfold file_read, zsub. rewrite zdrop_ge by lia. by unfold ztake; rewrite take_nil. }
  rewrite Er, Hnil. change (zlen (@nil char)) with 0. unfold flush. by destruct (start =? -1).
Qed.

Lemma hash_sha_loop_ok fuel f it e k n start (h : H) :
  contents f = new -> (start = -1 -> fpos f = n * B) -> at_ext e k it -> 0 <= n -> n * B <= N ->
  blocks_hash new h0 (Z.to_nat n) = (start, h) -> (Z.to_nat (N / B - n) + length k + 4 <= fuel)%nat ->
  hash_sha_loop fuel true f it e (n * B) start h = Some (true, file_hash new h0).
Proof.
  pose proof block_pos. revert f it e k n start h. induction fuel as [|fuel IH]; intros f it e k n start h Hc Hp He Hn HnN Hb Hfuel; [lia|].
  pose proof (Z.div_mod N B ltac:(lia)) as Hdm. pose proof (Z.mod_pos_bound N B block_pos) as Hm.
  assert (Hle : n <= N / B) by (apply Z.div_le_lower_bound; lia).
  destruct (decide (n * B = N)) as [Heq|Hne].
  { rewrite Heq. rewrite (hash_sha_end (S fuel) f it e k) by (done || lia || (rewrite <- Heq; done)).
    assert (n = N / B) as -> by (apply Z.div_unique with 0; lia). unfold file_hash. rewrite Hb.
    assert (N mod B = 0) as -> by lia. cbn [Z.ltb Z.compare]. by rewrite Heq. }
  cbn [hash_sha_loop]. destruct (hs_skip_extents_ok fuel (n * B) e k it) as (e' & k' & it' & -> & He' & Hk'); [lia|done|lia|].
  cbn [mbind option_bind]. change hash_bsize with B.
  pose proof (blocks_hash_zeros new h0 (Z.to_nat n) 1) as Hz1. rewrite Hb, !Z2Nat.id in Hz1 by done. cbn [fst snd Z.of_nat] in Hz1.
  replace (Z.to_nat n + 1)%nat with (Z.to_nat (n + 1)) in Hz1 by lia.
  assert (Hskip : (forall q, n * B <= q < (n + 1) * B -> znth nul new q = nul) -> (n + 1) * B <= N -> forall f',
     contents f' = new ->
     hash_sha_loop fuel true f' it' e' (n * B + B) (if start =? -1 then n * B else start) h = Some (true, file_hash new h0)).
  { intros Hz Hle' f' Hc'. replace (n * B + B) with ((n + 1) * B) by lia.
    assert (n + 1 <= N / B) by (apply Z.div_le_lower_bound; lia).
    apply (IH f' it' e' k'); [done| |done|lia|lia| |lia].
    - pose proof (blocks_hash_start new h0 (Z.to_nat n)) as Hs. rewrite Hb in Hs. cbn [fst] in Hs.
      destruct (Z.eqb_spec start (-1)); lia.
    - apply Hz1; [done|done|lia]. }
  destruct (negb (offset e' =? -1) && (offset e' <=? n * B) && (n * B + B <=? offset e' + size e')) eqn:Ecov.
  { apply andb_true_iff in Ecov as [[Eo%negb_true_iff%Z.eqb_neq E1%Z.leb_le]%andb_true_iff E2%Z.leb_le].
    destruct He' as [[? _]|(Hi & _)]; [done|]. pose proof (Hin e' Hi). apply Hskip; [|lia|done].
    intros q Hq. apply Hnew. exists e'. split; [done|lia]. }
  set (f1 := if negb (start =? -1) then _ else f).
  assert (Hf1 : contents f1 = new /\ fpos f1 = n * B).
  { unfold f1. destruct (Z.eqb_spec start (-1)); cbn [negb]; [auto|]. destruct (seek_law f (n * B)) as (_ & Ec & Ep); [lia|]. by rewrite Ec. }
  destruct Hf1 as [Hc1 Hp1]. destruct (read_law f1 B) as (Er & Ec2 & Ep2); [lia|]. rewrite Hc1, Hp1 in *.
  remember (file_read new (n * B) B) as b eqn:Eb. rewrite Er. assert (Ebz : zsub (n * B) B new = b) by (rewrite Eb; symmetry; apply file_read_zsub). set (f2 := snd (Read f1 B)) in *.
  assert (Lb : zlen b = Z.min B (N - n * B)).
  { rewrite <- Ebz. unfold zsub. rewrite zlen_ztake, zlen_zdrop; lia. }
  destruct (Z.eqb_spec (zlen b) B) as [Hfull|Hpart]; cbn [andb].
  - destruct (buf_is_zero b) eqn:Ez.
    + apply Hskip; [|lia|done]. intros q Hq. rewrite buf_is_zero_spec in Ez. specialize (Ez (q - n * B) ltac:(lia)).
      rewrite <- Ebz, znth_zsub in Ez by lia. by replace (n * B + (q - n * B)) with q in Ez by lia.
    + rewrite (proj2 (Z.ltb_lt 0 (zlen b))) by lia.
      replace (n * B + zlen b) with ((n + 1) * B) by lia. assert (n + 1 <= N / B) by (apply Z.div_le_lower_bound; lia).
      apply (IH f2 it' e' k'); [done|intros _; lia|done|lia|lia| |lia].
      replace (Z.to_nat (n + 1)) with (S (Z.to_nat n)) by lia. cbn [blocks_hash]. unfold block_step.
      rewrite Hb, Z2Nat.id by done. rewrite Ebz, Ez. cbn [fst snd]. unfold flush. by destruct (start =? -1).
  - assert (Hlast : n = N / B) by (apply Z.div_unique with (N - n * B); lia).
    rewrite (proj2 (Z.ltb_lt 0 (zlen b))) by lia. replace (n * B + zlen b) with N by lia.
    rewrite (hash_sha_end fuel f2 it' e' k') by (done || lia). unfold flush at 1. cbn [Z.eqb Pos.eqb].
    unfold file_hash. rewrite <- Hlast, Hb. rewrite (proj2 (Z.ltb_lt 0 (N mod B))) by lia. unfold flush.
    assert (Ebd : b = zdrop (n * B) new) by (rewrite <- Ebz; unfold zsub; apply ztake_ge; rewrite zlen_zdrop; lia).
    rewrite Ebd. by destruct (start =? -1).
Qed.

Lemma hash_sha_ok fuel g extents :
  contents g = new -> Forall extent_ok l -> zlen l < 2 ^ 60 ->
  match extents with Some fe => contents fe = extents_file l rest | None => l = [] end ->
  (Z.to_nat N + length l + 5 <= fuel)%nat ->
  hash_sha fuel g ((fun fe => ExtentIterator.init (Some fe) bs) <$> extents) true h0 = Some (true, file_hash new h0).
Proof.
  intros Hg Hl Hll Hext Hfuel. pose proof block_pos. pose proof (zlen_nonneg new). unfold hash_sha.
  destruct (seek_law g 0 ltac:(lia)) as (_ & Ec & Ep). rewrite Hg in Ec.
  assert (Hfl : (Z.to_nat (N / B - 0) + length es + 4 <= fuel)%nat).
  { pose proof (shrunk_length bs l). assert (N / B <= N) by (apply Z.div_le_upper_bound; [done|unfold B in *; lia]). lia. }
  change (hash_sha_loop fuel true (snd (Seek g 0)) ?it ?e 0) with (hash_sha_loop fuel true (snd (Seek g 0)) it e (0 * B)).
  destruct extents as [fe|].
  - cbn [fmap option_fmap option_map]. destruct (ExtentIterator.nextExtent fuel _) as [[e it]|] eqn:En.
    + cbn [mbind option_bind].
      pose proof (init_yields bs Hbs l rest Hl Hll fe Hext) as Hy. apply yields_on in Hy.
      pose proof (reset_yields bs Hbs l rest Hl Hll _ Hy) as Hr. destruct fuel as [|fuel]; [lia|].
      destruct (next_extents_from bs l rest _ fuel _ Hr) as (e2 & it2 & En2 & Hef). rewrite En2 in En. injection En as -> ->.
      apply (hash_sha_loop_ok _ _ _ _ (tail es) 0 (-1) h0); try done; try lia.
      * apply (at_ext_first es); [apply incl_refl|done].
      * destruct es; cbn [tail length] in *; lia.
    + exfalso. pose proof (init_yields bs Hbs l rest Hl Hll fe Hext) as Hy. apply yields_on in Hy.
      pose proof (reset_yields bs Hbs l rest Hl Hll _ Hy) as Hr. destruct fuel as [|fuel]; [lia|].
      destruct (next_extents_from bs l rest _ fuel _ Hr) as (e2 & it2 & En2 & _). by rewrite En2 in En.
  - cbn [fmap option_fmap option_map mbind option_bind].
    apply (hash_sha_loop_ok _ _ _ _ [] 0 (-1) h0); try done; try lia.
    + by left.
    + cbn [length]. lia.
Qed.
End Complete.
End Hash.

(** C7: the hash of a patched file.  Under the conditions of [patchFile_builds], if
    moreover old and new file both have zeros in the stored extents (shrunk to whole
    blocks), the extents lie inside the file, and a file with extents is at most 4 GiB
    ([UINT_MAX] bytes), hashing while the patch is applied ([hash_with_patch] with
    [with_sparse] and without a hash output file, that is with SHA-512) comes to an end
    and leaves the hash function in exactly the state in which hashing the complete new
    file ([hash_sha]) leaves it: the same blocks and the same runs of zeros in the same
    order, however the patch cuts the file. *)
Theorem hash_with_patch_correct {F H} `{FileLaws F} `{IHashFunc H} (sparse_hashes old new : bytes) (rs : list precord)
    (bs : Z) (l : list SSparseExtent) (rest : bytes) (f patch g : F) (extents extents2 : option F)
    (h0 : H) (fuel : nat) (fp : Z) (err : bool) uninit :
  zlen new < 2 ^ 62 -> contents f = old -> contents g = new ->
  contents patch = patch_bytes (zlen new) rs -> patches (shrunk bs l) old new 0 rs ->
  0 < bs -> Forall extent_ok l -> zlen l < 2 ^ 60 -> (l <> [] -> zlen new <= UINT_MAX) ->
  match extents with Some fe => contents fe = extents_file l rest | None => l = [] end ->
  match extents2 with Some fe => contents fe = extents_file l rest | None => l = [] end ->
  (forall q, in_ext (shrunk bs l) q -> znth nul old q = nul /\ znth nul new q = nul) ->
  (forall e, In e (shrunk bs l) -> offset e + size e <= zlen new) ->
  (2 * Z.to_nat (zlen new) + length rs + length l + 5 <= fuel)%nat ->
  exists w, hash_with_patch sparse_hashes fuel true
      (mkWorld (ChunkPatcher_init uninit) f patch (mkPrepare h0 None fp err) ((fun fe => ExtentIterator.init (Some fe) bs) <$> extents))
    = (Val tt, w) /\
    hash_sha fuel g ((fun fe => ExtentIterator.init (Some fe) bs) <$> extents2) true h0 = Some (true, hashf (w_cb w)).
Proof.
  intros HN Hf Hg Hp Hrs Hbs Hl Hll Hbig He1 He2 Hz Hin Hfuel.
  destruct (hash_with_patch_ok sparse_hashes old new bs Hbs l rest h0 (fun q Hq => proj1 (Hz q Hq)) (fun q Hq => proj2 (Hz q Hq))
    fuel uninit f patch extents rs fp err) as (w & E & Hw); try done.
  exists w. split; [exact E|]. rewrite Hw. apply hash_sha_ok with (l := l) (rest := rest); try done; [|lia].
  intros q Hq. by apply Hz.
Qed.

(** A hash function that records what it is given. *)
Module Recorder.
Inductive event := Hashed (b : bytes) | Sparse (b : bytes) | Chunks (b : bytes) (n : Z).
#[export] Instance recorder : IHashFunc (list event) := {|
  hash l b := Hashed b :: l; sparse_hash l b := Sparse b :: l; addHashAllAdler l b n := Chunks b n :: l |}.
End Recorder.
Import Recorder.

Lemma hash_with_patch_correct_witness :
  let old := (str "abcd" ++ [nul; nul] ++ str "gh")%list in
  let new := (str "abXY" ++ [nul; nul] ++ str "ghij")%list in
  let rs := [Valid 2 (str "XY"); Invalid (str "zz"); Valid 8 (str "ij!")] in
  let it := Some (ExtentIterator.init (Some (CMemoryFile.mk (extents_file [mkExtent 4 2] []) 0)) 1) in
  exists w, hash_with_patch [] 30 true
      (mkWorld (ChunkPatcher_init (0, 0, true, true)) (CMemoryFile.mk old 0) (CMemoryFile.mk (patch_bytes (zlen new) rs) 0)
         (mkPrepare ([] : list event) None 0 false) it) = (Val tt, w) /\
    hash_sha 30 (CMemoryFile.mk new 0) it true [] = Some (true, hashf (w_cb w)).
Proof.
  refine (hash_with_patch_correct (H := list Recorder.event) [] _ _ _ 1 [mkExtent 4 2] [] (CMemoryFile.mk _ 0) (CMemoryFile.mk _ 0) (CMemoryFile.mk _ 0)
    (Some (CMemoryFile.mk _ 0)) (Some (CMemoryFile.mk _ 0)) [] 30 0 false (0, 0, true, true) _ eq_refl eq_refl eq_refl _ _ _ _ _ eq_refl eq_refl _ _ _).
  - by vm_compute.
  - apply patchesb_ok. by vm_compute.
  - done.
  - constructor; [|constructor]. cbn. unfold extent_ok. cbn. lia.
  - by vm_compute.
  - by vm_compute.
  - intros i (e & [<-|[]] & Hx). change (4 <= i < 4 + 2) in Hx. assert (i = 4 \/ i = 5) as [-> | ->] by lia; done.
  - intros e [<-|[]]. by vm_compute.
  - apply Nat.leb_le. by vm_compute.
Defined.
