(* ===== verification/PatchRound.v ===== *)
(** From the pieces a transfer writes to the patched file: the patch file that
    [writePatch], [invalidateLastPatches] and [writePatchSize] leave, and what
    [patchFile] makes of it. *)
From S2P Require Import Prelude MemFile ExtentIter ChunkPatcher PatchApply PatchLoop PatchBuild PatchWriter.

(** * The calls *)

Inductive call := WritePatch (pos : Z) (buf : bytes) (last : bool) | NextBlock | Invalidate | WriteSize (n : Z).

(** What has been written, as positions with bytes: of finished blocks, of the
    block in progress, and whether its last piece may still be buffered. *)
Record written := mkWritten { wr_size : Z; wr_done : list (Z * char); wr_block : list (Z * char); wr_open : bool }.
Fixpoint placed (off : Z) (d : bytes) : list (Z * char) :=
  match d with [] => [] | c :: d => (off, c) :: placed (off + 1) d end.
Definition spec_call (x : call) (s : written) : written :=
  match x with
  | WritePatch pos buf last => mkWritten (wr_size s) (wr_done s) (wr_block s ++ placed pos buf) (negb last)
  | NextBlock => mkWritten (wr_size s) (wr_done s ++ wr_block s) [] false
  | Invalidate => mkWritten (wr_size s) (wr_done s) [] false
  | WriteSize n => mkWritten n (wr_done s) (wr_block s) (wr_open s)
  end.
(** How the transfer calls: a new block is started when the last one has ended
    with its last piece, or has been given up. *)
Definition call_ok (x : call) (s : written) : Prop :=
  match x with
  | WritePatch pos buf last => 0 <= pos < 2 ^ 62 /\ 0 < zlen buf < 2 ^ 31
  | NextBlock => wr_open s = false
  | Invalidate => True
  | WriteSize n => 0 <= n < 2 ^ 62
  end.
Fixpoint calls_ok (xs : list call) (s : written) : Prop :=
  match xs with [] => True | x :: xs => call_ok x s /\ calls_ok xs (spec_call x s) end.
Definition spec_calls (xs : list call) (s : written) : written := fold_left (fun s x => spec_call x s) xs s.

Definition invalid (r : precord) : precord := match r with Valid _ d | Invalid d => Invalid d end.
Definition rec_data (r : precord) : list (Z * char) := match r with Valid off d => placed off d | Invalid _ => [] end.
Definition recs_data (rs : list precord) : list (Z * char) := concat (map rec_data rs).
Definition rec_ok (r : precord) : Prop :=
  match r with Valid off d => 0 <= off < 2 ^ 62 /\ 0 < zlen d < 2 ^ 31 | Invalid d => 0 < zlen d < 2 ^ 31 end.
Fixpoint rec_offsets (p : Z) (rs : list precord) : list Z :=
  match rs with [] => [] | r :: rs => p :: rec_offsets (p + zlen (rec_bytes r)) rs end.

Lemma placed_app off a b : placed off (a ++ b) = placed off a ++ placed (off + zlen a) b.
Proof.
  revert off. induction a as [|c a IH]; intros off; cbn [placed app]; [by rewrite Z.add_0_r|].
  rewrite IH, zlen_cons. do 3 f_equal. lia.
Qed.
Lemma recs_data_app a b : recs_data (a ++ b) = recs_data a ++ recs_data b.
Proof. unfold recs_data. by rewrite map_app, concat_app. Qed.
Lemma recs_bytes_app a b : recs_bytes (a ++ b) = recs_bytes a ++ recs_bytes b.
Proof. unfold recs_bytes. by rewrite map_app, concat_app. Qed.
Lemma recs_data_invalid rs : recs_data (map invalid rs) = [].
Proof. by induction rs as [|[] rs IH]. Qed.
Lemma rec_offsets_app p a b : rec_offsets p (a ++ b) = rec_offsets p a ++ rec_offsets (p + zlen (recs_bytes a)) b.
Proof.
  revert p. induction a as [|r a IH]; intros p; cbn [rec_offsets app]; [by rewrite Z.add_0_r|].
  rewrite IH. unfold recs_bytes at 2. cbn [map concat]. rewrite zlen_app. do 3 f_equal. unfold recs_bytes. lia.
Qed.
Lemma zlen_invalid r : zlen (rec_bytes (invalid r)) = zlen (rec_bytes r).
Proof. rewrite !zlen_rec_bytes. by destruct r. Qed.

(** Overwriting inside a file. *)
Lemma file_write_mid a x y b : zlen x = zlen y -> file_write (a ++ x ++ b) (zlen a) y = a ++ y ++ b.
Proof.
  intros Hl. pose proof (zlen_nonneg a). pose proof (zlen_nonneg b). pose proof (zlen_nonneg y).
  unfold file_write. rewrite !zlen_app. rewrite Z.max_l by lia. replace (zlen a + (zlen x + zlen b)) with (zlen (a ++ x ++ b)) by (rewrite !zlen_app; lia).
  rewrite zresize_same. unfold zsplice. rewrite ztake_app_zlen. do 2 f_equal.
  rewrite app_assoc, <- Hl, <- zlen_app. apply zdrop_app_zlen.
Qed.

Section Writer.
Context {F : Type} `{FileLaws F}.
Context (handle_not_enough_space : option (F -> bool)).
Notation client := (FileClientChunked F).

Definition exec (x : call) (c : client) : option client :=
  match x with
  | WritePatch pos buf last => writePatch handle_not_enough_space pos buf last c
  | NextBlock => Some (next_block c)
  | Invalidate => invalidateLastPatches handle_not_enough_space c
  | WriteSize n => writePatchSize handle_not_enough_space n c
  end.
Fixpoint exec_all (xs : list call) (c : client) : option client :=
  match xs with [] => Some c | x :: xs => c ← exec x c; exec_all xs c end.

Lemma writeFileRepeat_ok f b :
  0 < zlen b < 2 ^ 32 ->
  exists f', PatchWriter.writeFileRepeat handle_not_enough_space f b = Some (f', false) /\
    contents f' = file_write (contents f) (fpos f) b /\ fpos f' = fpos f + zlen b.
Proof.
  intros Hb. destruct (write_law f b) as (E & Ec & Ep). unfold PatchWriter.writeFileRepeat.
  replace (length b + 51)%nat with (S (length b + 50)) by lia. cbn [write_repeat]. rewrite zdrop_0.
  destruct (Write f b) as [r f']. cbn [fst snd] in *. subst r. rewrite Z.add_0_l, w32_id by lia.
  rewrite (proj2 (Z.eqb_neq (zlen b) 0)) by lia. cbn [andb]. rewrite Z.ltb_irrefl. cbn [andb]. by exists f'.
Qed.
Lemma write_patchfile_ok b (c : client) :
  0 < zlen b < 2 ^ 32 ->
  exists f', write_patchfile handle_not_enough_space b c = Some (with_patchfile (f', false) c) /\
    contents f' = file_write (contents (m_patchfile c)) (fpos (m_patchfile c)) b /\ fpos f' = fpos (m_patchfile c) + zlen b.
Proof.
  intros Hb. destruct (writeFileRepeat_ok (m_patchfile c) b Hb) as (f' & E & ?). unfold write_patchfile. rewrite E. by exists f'.
Qed.

(** The patch file: the records of the finished blocks and those of the block in
    progress. *)
Definition file_inv (rd rc : list precord) (n : Z) (c : client) : Prop :=
  contents (m_patchfile c) = patch_bytes n (rd ++ rc) /\
  patchfile_pos c = zlen (contents (m_patchfile c)) /\ fpos (m_patchfile c) = patchfile_pos c /\
  patch_mode c = true /\ has_error c = false /\ last_chunk_patches c = rec_offsets (8 + zlen (recs_bytes rd)) rc /\
  Forall rec_ok (rd ++ rc).
(** What is buffered. *)
Definition buf_inv (c : client) : Prop :=
  zlen (patch_buf c) = c_chunk_size /\ 0 <= patch_buf_pos c < c_chunk_size /\
  (0 < patch_buf_pos c -> 0 <= patch_buf_start c < 2 ^ 62).
Definition pending_data (c : client) : list (Z * char) := placed (patch_buf_start c) (ztake (patch_buf_pos c) (patch_buf c)).
Definition writer_inv (s : written) (c : client) : Prop :=
  exists rd rc, file_inv rd rc (wr_size s) c /\ buf_inv c /\ 0 <= wr_size s < 2 ^ 62 /\
    recs_data rd = wr_done s /\ recs_data rc ++ pending_data c = wr_block s /\
    (wr_open s = false -> patch_buf_pos c = 0).

Definition same_buf (c c' : client) : Prop :=
  patch_buf c' = patch_buf c /\ patch_buf_pos c' = patch_buf_pos c /\ patch_buf_start c' = patch_buf_start c.

Lemma zlen_patch_bytes n rs : zlen (patch_bytes n rs) = 8 + zlen (recs_bytes rs).
Proof. unfold patch_bytes. rewrite zlen_app, zlen_le_bytes. lia. Qed.

Lemma writePatchInt_ok rd rc n pos b (c : client) :
  file_inv rd rc n c -> 0 <= pos < 2 ^ 62 -> 0 < zlen b < 2 ^ 31 ->
  exists c', writePatchInt handle_not_enough_space pos b c = Some c' /\ file_inv rd (rc ++ [Valid pos b]) n c' /\ same_buf c c'.
Proof.
  intros (Hc & Hpos & Hf & Hm & He & Hl & Hok) Hp Hb. unfold writePatchInt.
  set (hd := le_bytes 8 (w64 pos) ++ le_bytes 4 (zlen b)).
  assert (Lh : zlen hd = 12) by (unfold hd; by rewrite zlen_app, !zlen_le_bytes).
  destruct (write_patchfile_ok hd c) as (f1 & -> & Hc1 & Hp1); [lia|]. cbn [mbind option_bind].
  destruct (write_patchfile_ok b (with_patchfile (f1, false) c)) as (f2 & -> & Hc2 & Hp2); [lia|]. cbn [mbind option_bind].
  eexists. split; [reflexivity|]. split; [|done]. cbn [m_patchfile with_patchfile fst] in *.
  rewrite Hf, Hpos in Hc1, Hp1. rewrite file_write_end in Hc1. rewrite Hc1, Hp1 in Hc2. rewrite Lh in *.
  replace (zlen (contents (m_patchfile c)) + 12) with (zlen (contents (m_patchfile c) ++ hd)) in Hc2 by (rewrite zlen_app; lia).
  rewrite file_write_end in Hc2.
  unfold file_inv. cbn. rewrite He, Hc2. split_and!; try done.
  - rewrite Hc. unfold patch_bytes. rewrite (app_assoc rd rc), (recs_bytes_app (rd ++ rc)).
    change (recs_bytes [Valid pos b]) with (rec_bytes (Valid pos b) ++ []). rewrite app_nil_r. cbn [rec_bytes]. unfold hd.
    by rewrite !app_assoc.
  - rewrite !zlen_app, Lh. lia.
  - rewrite Hp2, Hp1. lia.
  - rewrite Hl, rec_offsets_app. f_equal. cbn [rec_offsets]. f_equal. rewrite Hpos, Hc, zlen_patch_bytes, recs_bytes_app, zlen_app. lia.
  - rewrite app_assoc. apply Forall_app. split; [done|]. constructor; [|constructor]. cbn. lia.
Qed.

Lemma flush_patch_buf_ok rd rc n (c : client) :
  file_inv rd rc n c -> zlen (patch_buf c) = c_chunk_size -> 0 < patch_buf_pos c <= c_chunk_size -> 0 <= patch_buf_start c < 2 ^ 62 ->
  exists c' b, flush_patch_buf handle_not_enough_space c = Some c' /\ file_inv rd (rc ++ [Valid (patch_buf_start c) b]) n c' /\
    b = ztake (patch_buf_pos c) (patch_buf c) /\ patch_buf c' = patch_buf c /\ patch_buf_pos c' = 0 /\ patch_buf_start c' = patch_buf_start c.
Proof.
  intros Hf Hlb Hpos Hsb. unfold flush_patch_buf.
  assert (Lb : zlen (ztake (patch_buf_pos c) (patch_buf c)) = patch_buf_pos c).
  { rewrite zlen_ztake; unfold c_chunk_size in *; lia. }
  destruct (writePatchInt_ok rd rc n (patch_buf_start c) (ztake (patch_buf_pos c) (patch_buf c)) c Hf) as (c' & -> & Hf' & (E1 & E2 & E3));
    [lia|unfold c_chunk_size in *; lia|].
  cbn [mbind option_bind]. eexists _, _. split; [reflexivity|]. split; [exact Hf'|]. done.
Qed.

Lemma copy_to_patch_buf_ok p b (c : client) :
  zlen (patch_buf c) = c_chunk_size -> 0 <= p -> p + zlen b <= c_chunk_size ->
  exists buf, copy_to_patch_buf p b c = Some buf /\ zlen buf = c_chunk_size /\ ztake (p + zlen b) buf = ztake p (patch_buf c) ++ b.
Proof.
  intros Hl Hp Hb. unfold copy_to_patch_buf. pose proof (zlen_nonneg b).
  rewrite (proj2 (Z.leb_le 0 p)), (proj2 (Z.leb_le (p + zlen b) _)) by lia. cbn [andb].
  eexists. split; [reflexivity|]. split; [rewrite zlen_zsplice; lia|]. apply ztake_zsplice. lia.
Qed.

(** A piece that continues what is buffered, or comes to an empty buffer. *)
Lemma writePatch_append rd rc n pos b last (c : client) :
  file_inv rd rc n c -> buf_inv c -> 0 <= pos < 2 ^ 62 -> 0 < zlen b -> patch_buf_pos c + zlen b <= c_chunk_size ->
  (patch_buf_pos c = 0 \/ pos = patch_buf_start c + patch_buf_pos c) ->
  exists c' rc', (buf ← copy_to_patch_buf (patch_buf_pos c) b c;
       let start := if patch_buf_pos c =? 0 then pos else patch_buf_start c in
       let c := with_patch_buf buf (w32 (patch_buf_pos c + zlen b)) start c in
       if last || (patch_buf_pos c =? c_chunk_size) || (zlen b =? 0) then flush_patch_buf handle_not_enough_space c else Some c) = Some c' /\
    file_inv rd rc' n c' /\ buf_inv c' /\ recs_data rc' ++ pending_data c' = (recs_data rc ++ pending_data c) ++ placed pos b /\
    (last = true -> patch_buf_pos c' = 0).
Proof.
  intros Hf (Hlb & Hpb & Hsb) Hpos Hb Hfit Hcont. assert (HC : c_chunk_size = 4096) by done.
  destruct (copy_to_patch_buf_ok (patch_buf_pos c) b c Hlb) as (buf & -> & Lbuf & Tbuf); [lia|done|]. cbn [mbind option_bind].
  cbn zeta. rewrite w32_id by lia. set (p' := patch_buf_pos c + zlen b) in *.
  set (start := if patch_buf_pos c =? 0 then pos else patch_buf_start c). set (c1 := with_patch_buf buf p' start c).
  assert (Hstart : 0 <= start < 2 ^ 62) by (unfold start; destruct (Z.eqb_spec (patch_buf_pos c) 0); lia).
  assert (Hd : placed start (ztake p' buf) = pending_data c ++ placed pos b).
  { rewrite Tbuf, placed_app. unfold pending_data, start. rewrite zlen_ztake by lia. rewrite Z.min_l by lia.
    destruct (Z.eqb_spec (patch_buf_pos c) 0) as [E|E].
    - rewrite E, ztake_0. cbn [placed app]. by rewrite Z.add_0_r.
    - destruct Hcont as [?| ->]; [done|]. done. }
  rewrite (proj2 (Z.eqb_neq (zlen b) 0)), orb_false_r by lia. change (patch_buf_pos c1) with p'.
  destruct (last || (p' =? c_chunk_size)) eqn:Ef.
  - destruct (flush_patch_buf_ok rd rc n c1 Hf Lbuf) as (c' & d & -> & Hf' & -> & E1 & E2 & E3); [cbn; lia|done|].
    eexists _, _. split; [reflexivity|]. split; [exact Hf'|]. split; [unfold buf_inv; rewrite E1, E2, E3; cbn; lia|].
    split; [|by rewrite E2]. unfold pending_data at 1. rewrite E2, ztake_0. cbn [placed]. rewrite app_nil_r, recs_data_app, <- app_assoc.
    f_equal. unfold recs_data. cbn [map concat rec_data]. rewrite app_nil_r. exact Hd.
  - apply orb_false_iff in Ef as [-> Ep%Z.eqb_neq]. eexists _, rc. split; [reflexivity|]. split; [exact Hf|].
    split; [unfold buf_inv; cbn; lia|]. split; [|done]. unfold pending_data at 1. cbn. rewrite Hd. apply app_assoc.
Qed.

Lemma writePatch_ok s pos b last (c : client) :
  writer_inv s c -> call_ok (WritePatch pos b last) s ->
  exists c', writePatch handle_not_enough_space pos b last c = Some c' /\ writer_inv (spec_call (WritePatch pos b last) s) c'.
Proof.
  intros (rd & rc & Hf & Hbuf & Hn & Hd & Hc & Ho) [Hpos Hb]. cbn [spec_call]. assert (HC : c_chunk_size = 4096) by done.
  pose proof Hbuf as (Hlb & Hpb & Hsb).
  assert (Hfin : forall c' rc', file_inv rd rc' (wr_size s) c' -> buf_inv c' ->
     recs_data rc' ++ pending_data c' = (recs_data rc ++ pending_data c) ++ placed pos b -> (last = true -> patch_buf_pos c' = 0) ->
     writer_inv (mkWritten (wr_size s) (wr_done s) (wr_block s ++ placed pos b) (negb last)) c').
  { intros c' rc' Hf' Hb' Hd' Hl'. exists rd, rc'. split; [done|]. split; [done|]. split; [done|]. split; [done|].
    split; [cbn; by rewrite Hd', Hc|]. cbn. destruct last; [auto|done]. }
  unfold writePatch. rewrite w32_id by lia.
  destruct ((zlen b <=? c_chunk_size - patch_buf_pos c) && ((patch_buf_pos c =? 0) || (pos =? patch_buf_start c + patch_buf_pos c))) eqn:Ecase.
  - apply andb_true_iff in Ecase as [E1%Z.leb_le E2]. rewrite orb_true_iff, !Z.eqb_eq in E2.
    destruct (writePatch_append rd rc (wr_size s) pos b last c) as (c' & rc' & E & ? & ? & ? & ?); try done; [lia..|].
    exists c'. split; [exact E|]. eauto.
  - assert (Hflush : exists c1 rc1, (if 0 <? patch_buf_pos c then flush_patch_buf handle_not_enough_space c else Some c) = Some c1 /\
       file_inv rd rc1 (wr_size s) c1 /\ zlen (patch_buf c1) = c_chunk_size /\ patch_buf_pos c1 = 0 /\
       recs_data rc1 = recs_data rc ++ pending_data c).
    { destruct (Z.ltb_spec 0 (patch_buf_pos c)).
      - destruct (flush_patch_buf_ok rd rc (wr_size s) c Hf Hlb) as (c1 & d & -> & Hf' & -> & E1 & E2 & E3); [lia|lia|].
        eexists _, _. split; [reflexivity|]. split; [exact Hf'|]. rewrite E1, E2. split_and!; try done; try lia.
        rewrite recs_data_app. f_equal. unfold recs_data. cbn [map concat rec_data]. apply app_nil_r.
      - exists c, rc. assert (E : patch_buf_pos c = 0) by lia. split_and!; try done; try lia.
        unfold pending_data. by rewrite E, ztake_0, app_nil_r. }
    destruct Hflush as (c1 & rc1 & -> & Hf1 & Lb1 & Ep1 & Hd1). cbn [mbind option_bind].
    destruct (negb last && (0 <? zlen b) && (zlen b <? c_chunk_size)) eqn:Ebuf.
    + apply andb_true_iff in Ebuf as [[El%negb_true_iff _]%andb_true_iff Eb%Z.ltb_lt]. subst last.
      destruct (copy_to_patch_buf_ok (patch_buf_pos c1) b c1 Lb1) as (buf & -> & Lbuf & Tbuf); [lia|lia|]. cbn [mbind option_bind].
      rewrite Ep1 in *. rewrite Z.add_0_l, w32_id in * by lia. eexists. split; [reflexivity|].
      apply (Hfin _ rc1); [done|unfold buf_inv; cbn; lia| |done].
      unfold pending_data at 1. cbn. rewrite Tbuf, ztake_0, Hd1. done.
    + destruct (writePatchInt_ok rd rc1 (wr_size s) pos b c1 Hf1) as (c' & -> & Hf' & (E1 & E2 & E3)); [done|done|].
      exists c'. split; [done|]. apply (Hfin _ (rc1 ++ [Valid pos b])); [done|unfold buf_inv; rewrite E1, E2; lia| |by rewrite E2].
      unfold pending_data at 1. rewrite E2, Ep1, ztake_0. cbn [placed]. rewrite app_nil_r, recs_data_app, Hd1. f_equal.
      unfold recs_data. cbn [map concat rec_data]. apply app_nil_r.
Qed.

(** ** Giving up a block *)

Lemma with_patchfile_same (c : client) : with_patchfile (m_patchfile c, false) c = c.
Proof. destruct c. unfold with_patchfile. cbn. by rewrite orb_false_r. Qed.
Lemma with_patchfile_twice f1 f2 (c : client) : with_patchfile (f2, false) (with_patchfile (f1, false) c) = with_patchfile (f2, false) c.
Proof. unfold with_patchfile. cbn. by rewrite !orb_false_r. Qed.

Lemma rec_bytes_invalid r : exists y, rec_bytes r = y ++ zdrop 8 (rec_bytes r) /\ zlen y = 8 /\
  rec_bytes (invalid r) = le_bytes 8 (w64 (-1)) ++ zdrop 8 (rec_bytes r).
Proof.
  assert (L : forall v, zlen (le_bytes 8 v) = 8) by (intros; apply zlen_le_bytes).
  exists (ztake 8 (rec_bytes r)). split; [symmetry; apply ztake_zdrop|]. pose proof (zlen_rec_bytes r).
  split; [rewrite zlen_ztake; pose proof (zlen_nonneg (match r with Valid _ d | Invalid d => d end)); lia|].
  assert (D : forall v x, zdrop 8 (le_bytes 8 v ++ x) = x).
  { intros v x. rewrite <- (L v) at 1. apply zdrop_app_zlen. }
  destruct r as [off d|d]; cbn [invalid rec_bytes]; by rewrite D.
Qed.

Lemma invalidate_records_ok pre rc (c : client) :
  contents (m_patchfile c) = pre ++ recs_bytes rc ->
  exists f', invalidate_records handle_not_enough_space (rec_offsets (zlen pre) rc) c = Some (with_patchfile (f', false) c) /\
    contents f' = pre ++ recs_bytes (map invalid rc).
Proof.
  revert pre c. induction rc as [|r rc IH]; intros pre c Hc; cbn [rec_offsets invalidate_records map].
  { exists (m_patchfile c). by rewrite with_patchfile_same. }
  destruct (rec_bytes_invalid r) as (y & Er & Ly & Ei). set (tl := zdrop 8 (rec_bytes r)) in *.
  destruct (seek_law (m_patchfile c) (zlen pre) (zlen_nonneg pre)) as (_ & Es & Ep).
  destruct (write_patchfile_ok (le_bytes 8 (w64 (-1))) (seek_patchfile (zlen pre) c)) as (f1 & -> & Hc1 & _);
    [rewrite zlen_le_bytes; lia|]. cbn [mbind option_bind].
  unfold seek_patchfile in *. cbn [m_patchfile with_patchfile fst] in Hc1. rewrite Es, Ep, Hc in Hc1.
  unfold recs_bytes in Hc1 at 1. cbn [map concat] in Hc1. fold (recs_bytes rc) in Hc1. rewrite Er, <- app_assoc in Hc1.
  rewrite (file_write_mid pre y) in Hc1 by by rewrite Ly, zlen_le_bytes. rewrite (app_assoc (le_bytes 8 _)), <- Ei in Hc1.
  rewrite with_patchfile_twice.
  assert (Hlen : zlen pre + zlen (rec_bytes r) = zlen (pre ++ rec_bytes (invalid r))) by (rewrite zlen_app, zlen_invalid; done).
  rewrite Hlen. destruct (IH (pre ++ rec_bytes (invalid r)) (with_patchfile (f1, false) c)) as (f' & -> & Hf').
  { cbn [m_patchfile with_patchfile fst]. by rewrite Hc1, app_assoc. }
  exists f'. rewrite with_patchfile_twice. split; [done|]. rewrite Hf'. unfold recs_bytes. cbn [map concat]. by rewrite app_assoc.
Qed.

Lemma rec_ok_invalid rs : Forall rec_ok rs -> Forall rec_ok (map invalid rs).
Proof. induction 1 as [|[] rs Hr _ IH]; constructor; cbn in *; try done; lia. Qed.
Lemma zlen_recs_invalid rs : zlen (recs_bytes (map invalid rs)) = zlen (recs_bytes rs).
Proof.
  unfold recs_bytes. induction rs as [|r rs IH]; [done|]. cbn [map concat]. by rewrite !zlen_app, zlen_invalid, IH.
Qed.

Lemma invalidate_ok s (c : client) :
  writer_inv s c -> exists c', invalidateLastPatches handle_not_enough_space c = Some c' /\ writer_inv (spec_call Invalidate s) c'.
Proof.
  intros (rd & rc & (Hc & Hpos & Hf & Hm & He & Hl & Hok) & (Hlb & Hpb & Hsb) & Hn & Hd & Hcur & Ho).
  unfold invalidateLastPatches. rewrite Hm.
  set (c1 := match last_chunk_patches c with [] => c | _ => _ end).
  assert (Hc1 : exists o, c1 = with_patches (last_chunk_patches c) (last_patch_output_fsize c) (patchfile_pos c) o c).
  { unfold c1. destruct (last_chunk_patches c) eqn:E; [exists (curr_output_fsize c); destruct c; cbn in *; by subst|by eexists]. }
  destruct Hc1 as (o & Ec1). rewrite Ec1. cbn [last_chunk_patches with_patches].
  assert (Hsplit : contents (m_patchfile c) = (le_bytes 8 (w64 (wr_size s)) ++ recs_bytes rd) ++ recs_bytes rc).
  { rewrite Hc. unfold patch_bytes. by rewrite recs_bytes_app, app_assoc. }
  rewrite Hl. replace (8 + zlen (recs_bytes rd)) with (zlen (le_bytes 8 (w64 (wr_size s)) ++ recs_bytes rd))
    by (rewrite zlen_app, zlen_le_bytes; lia).
  destruct (invalidate_records_ok _ rc (with_patches (rec_offsets (zlen (le_bytes 8 (w64 (wr_size s)) ++ recs_bytes rd)) rc)
    (last_patch_output_fsize c) (patchfile_pos c) o c) Hsplit) as (f' & -> & Hf').
  cbn [mbind option_bind]. eexists. split; [reflexivity|].
  destruct (seek_law f' (patchfile_pos c)) as (_ & Es & Ep); [rewrite Hpos; apply zlen_nonneg|].
  exists (rd ++ map invalid rc), []. cbn [spec_call wr_size wr_done wr_block wr_open].
  assert (Hnew : contents f' = patch_bytes (wr_size s) ((rd ++ map invalid rc) ++ [])).
  { rewrite Hf', app_nil_r. unfold patch_bytes. by rewrite recs_bytes_app, app_assoc. }
  split; [|split; [unfold buf_inv; cbn; unfold c_chunk_size in *; lia|]].
  - unfold file_inv. cbn. rewrite Es, Ep, He. split_and!; try done.
    + rewrite Hpos, Hnew, Hc, !zlen_patch_bytes. rewrite app_nil_r, !recs_bytes_app, !zlen_app, zlen_recs_invalid. done.
    + rewrite app_nil_r. apply Forall_app in Hok as [? ?]. apply Forall_app. split; [done|]. by apply rec_ok_invalid.
  - split; [done|]. split; [by rewrite recs_data_app, recs_data_invalid, app_nil_r|]. split; [|done].
    unfold pending_data. cbn. done.
Qed.

Lemma next_block_ok s (c : client) : writer_inv s c -> wr_open s = false -> writer_inv (spec_call NextBlock s) (next_block c).
Proof.
  intros (rd & rc & (Hc & Hpos & Hf & Hm & He & Hl & Hok) & (Hlb & Hpb & Hsb) & Hn & Hd & Hcur & Ho) Hop.
  specialize (Ho Hop). unfold pending_data in Hcur. rewrite Ho, ztake_0 in Hcur. cbn [placed] in Hcur. rewrite app_nil_r in Hcur.
  exists (rd ++ rc), []. cbn [spec_call wr_size wr_done wr_block wr_open].
  split; [|split; [unfold buf_inv; cbn; unfold c_chunk_size in *; lia|]].
  - unfold file_inv. cbn. rewrite app_nil_r. split_and!; done.
  - split; [done|]. split; [by rewrite recs_data_app, Hd, Hcur|]. split; [|done]. unfold pending_data. cbn. done.
Qed.

Lemma writePatchSize_ok s n (c : client) :
  writer_inv s c -> 0 <= n < 2 ^ 62 ->
  exists c', writePatchSize handle_not_enough_space n c = Some c' /\ writer_inv (spec_call (WriteSize n) s) c'.
Proof.
  intros (rd & rc & (Hc & Hpos & Hf & Hm & He & Hl & Hok) & (Hlb & Hpb & Hsb) & Hn & Hd & Hcur & Ho) Hn'. unfold writePatchSize.
  destruct (seek_law (m_patchfile c) 0 ltac:(lia)) as (_ & Es & Ep).
  destruct (write_patchfile_ok (le_bytes 8 (w64 n)) (seek_patchfile 0 c)) as (f1 & -> & Hc1 & _); [rewrite zlen_le_bytes; lia|].
  cbn [mbind option_bind]. unfold seek_patchfile in *. cbn [m_patchfile with_patchfile fst patchfile_pos] in *. rewrite Es, Ep, Hc in Hc1.
  assert (Hnew : contents f1 = patch_bytes n (rd ++ rc)).
  { rewrite Hc1. unfold patch_bytes. apply (file_write_mid [] (le_bytes 8 (w64 (wr_size s)))). by rewrite !zlen_le_bytes. }
  assert (H8 : 0 < patchfile_pos c) by (rewrite Hpos, Hc, zlen_patch_bytes; pose proof (zlen_nonneg (recs_bytes (rd ++ rc))); lia).
  rewrite (proj2 (Z.eqb_neq (patchfile_pos c) 0)) by lia. eexists. split; [reflexivity|].
  destruct (seek_law f1 (patchfile_pos c)) as (_ & Es2 & Ep2); [lia|].
  exists rd, rc. cbn [spec_call wr_size wr_done wr_block wr_open]. split; [|split; [done|done]].
  unfold file_inv. cbn. rewrite Es2, Ep2, He. split_and!; try done. by rewrite Hpos, Hnew, Hc, !zlen_patch_bytes.
Qed.

(** ** All calls *)

Lemma exec_ok x s (c : client) :
  writer_inv s c -> call_ok x s -> exists c', exec x c = Some c' /\ writer_inv (spec_call x s) c'.
Proof.
  destruct x as [pos b last| | |n]; cbn [exec]; intros Hw Hx.
  - by apply writePatch_ok.
  - eexists. split; [done|]. by apply next_block_ok.
  - by apply invalidate_ok.
  - by apply writePatchSize_ok.
Qed.
Lemma exec_all_ok xs s (c : client) :
  writer_inv s c -> calls_ok xs s -> exists c', exec_all xs c = Some c' /\ writer_inv (spec_calls xs s) c'.
Proof.
  revert s c. induction xs as [|x xs IH]; intros s c Hw Hxs; cbn [exec_all calls_ok] in *; [by exists c|].
  destruct Hxs as [Hx Hxs]. destruct (exec_ok x s c Hw Hx) as (c1 & -> & Hw1). cbn [mbind option_bind]. by apply IH.
Qed.

(** A transfer starts with an empty patch file, the size and a new block. *)
Definition transfer (pf : F) (n : Z) (xs : list call) (c : client) : option client :=
  c ← writePatchSize handle_not_enough_space n (start_patch pf c); exec_all xs (next_block c).
Lemma transfer_ok pf n xs (c : client) :
  contents pf = [] -> has_error c = false -> zlen (patch_buf c) = c_chunk_size -> 0 <= n < 2 ^ 62 ->
  calls_ok xs (mkWritten n [] [] false) ->
  exists c', transfer pf n xs c = Some c' /\ writer_inv (spec_calls xs (mkWritten n [] [] false)) c'.
Proof.
  intros Hpf He Hlb Hn Hxs. unfold transfer, writePatchSize.
  destruct (seek_law pf 0 ltac:(lia)) as (_ & Es & Ep).
  destruct (write_patchfile_ok (le_bytes 8 (w64 n)) (seek_patchfile 0 (start_patch pf c))) as (f1 & -> & Hc1 & Hp1);
    [rewrite zlen_le_bytes; lia|].
  cbn [mbind option_bind]. unfold seek_patchfile in *. cbn [m_patchfile with_patchfile fst start_patch patchfile_pos] in *.
  rewrite Es, Ep, Hpf in Hc1. rewrite Ep, zlen_le_bytes in Hp1. change 0 with (zlen (@nil char)) in Hc1. rewrite file_write_end in Hc1.
  cbn [Z.eqb]. apply exec_all_ok; [|done]. exists [], []. cbn [wr_size wr_done wr_block wr_open].
  split; [|split; [unfold buf_inv; cbn; unfold c_chunk_size in *; lia|split; [done|split; [done|split; [|done]]]]].
  - assert (Hc : contents f1 = patch_bytes n []).
    { rewrite Hc1. unfold patch_bytes, recs_bytes. cbn [map concat app]. by rewrite app_nil_r. }
    assert (L : zlen (contents f1) = 8) by (rewrite Hc, zlen_patch_bytes; done).
    unfold file_inv. cbn. rewrite He. split_and!; try done.
  - unfold pending_data. cbn. done.
Qed.
End Writer.

(** * What the records of a transfer make of a file *)

Lemma placed_in off d x : In x (placed off d) <-> exists i, 0 <= i < zlen d /\ x = (off + i, znth nul d i).
Proof.
  revert off. induction d as [|c d IH]; intros off; cbn [placed In].
  - split; [done|]. intros (i & Hi & _). change (zlen (@nil char)) with 0 in Hi. lia.
  - rewrite IH, zlen_cons. split.
    + intros [<-|(i & Hi & ->)]; [exists 0; pose proof (zlen_nonneg d); split; [lia|by rewrite Z.add_0_r]|].
      exists (i + 1). split; [lia|]. rewrite znth_cons_S by lia. f_equal; [lia|f_equal; lia].
    + intros (i & Hi & ->). destruct (decide (i = 0)) as [->|]; [left; by rewrite Z.add_0_r|]. right.
      exists (i - 1). split; [lia|]. rewrite znth_cons_S by lia. f_equal. lia.
Qed.

Lemma patches_of_data es old new rs p :
  Forall rec_ok rs -> p <= zlen new ->
  (forall x, In x (recs_data rs) -> p <= fst x < zlen new /\ snd x = znth nul new (fst x)) ->
  StronglySorted (fun x y => fst x < fst y) (recs_data rs) ->
  (forall q, p <= q < zlen new -> (forall x, In x (recs_data rs) -> fst x <> q) -> q < zlen old /\ (in_ext es q \/ znth nul old q = znth nul new q)) ->
  patches es old new p rs.
Proof.
  intros Hok. revert p. induction Hok as [|[off d|d] rs Hr Hok IH]; intros p Hp Hin Hs Hun; cbn [patches].
  - split; [done|]. split.
    + intros Hlt. destruct (Hun (zlen new - 1)) as [Hx _]; [lia|done|]. lia.
    + intros i Hi. by apply Hun.
  - change (recs_data (Valid off d :: rs)) with (placed off d ++ recs_data rs) in *. cbn in Hr.
    assert (Hfirst : forall i, 0 <= i < zlen d -> p <= off + i < zlen new /\ znth nul d i = znth nul new (off + i)).
    { intros i Hi. apply (Hin (off + i, znth nul d i)), in_or_app. left. apply placed_in. by exists i. }
    pose proof (Hfirst 0 ltac:(lia)) as [H0 _]. pose proof (Hfirst (zlen d - 1) ltac:(lia)) as [Hlast _].
    assert (Hrest : forall x, In x (recs_data rs) -> off + zlen d <= fst x).
    { intros x Hx. rewrite <- (firstn_skipn (length (placed off d)) (placed off d ++ recs_data rs)) in Hs.
      assert (Hlt : off + (zlen d - 1) < fst x); [|lia].
      assert (Hp1 : In (off + (zlen d - 1), znth nul d (zlen d - 1)) (placed off d)) by (apply placed_in; exists (zlen d - 1); split; [lia|done]).
      rewrite firstn_skipn in Hs. revert Hs Hp1 Hx. generalize (placed off d) (recs_data rs). intros a b Hs Ha Hb.
      induction a as [|y a IHa]; [done|]. cbn [app] in Hs. apply StronglySorted_inv in Hs as [Hs Hf].
      destruct Ha as [->|Ha]; [|auto]. rewrite List.Forall_forall in Hf. apply (Hf x), in_or_app. by right. }
    split; [lia|]. split; [|split; [lia|split]].
    + split.
      * intros Hlt. destruct (Hun (off - 1)) as [Hx _]; [lia| |lia]. intros x [Hx|Hx]%in_app_or.
        -- apply placed_in in Hx as (i & Hi & ->). cbn. lia.
        -- specialize (Hrest x Hx). lia.
      * intros i Hi. apply Hun; [lia|]. intros x [Hx|Hx]%in_app_or.
        -- apply placed_in in Hx as (j & Hj & ->). cbn. lia.
        -- specialize (Hrest x Hx). lia.
    + intros i Hi Hi'. destruct (Hfirst (i - off) ltac:(lia)) as [_ ->]. f_equal. lia.
    + intros Hle. apply IH; [done| | |].
      * intros x Hx. destruct (Hin x) as [? ?]; [apply in_or_app; by right|]. specialize (Hrest x Hx). split; [lia|done].
      * clear -Hs. revert Hs. generalize (recs_data rs). induction (placed off d) as [|y a IHa]; intros b Hs; [done|].
        apply IHa. cbn [app] in Hs. by apply StronglySorted_inv in Hs as [Hs _].
      * intros q Hq Hnin. apply Hun; [lia|]. intros x [Hx|Hx]%in_app_or; [|by apply Hnin].
        apply placed_in in Hx as (j & Hj & ->). cbn. lia.
  - split; [cbn in Hr; lia|]. by apply IH.
Qed.

Lemma length_recs rs : (length rs <= Z.to_nat (zlen (recs_bytes rs)))%nat.
Proof.
  unfold recs_bytes. induction rs as [|r rs IH]; [cbn; lia|]. cbn [map concat length]. rewrite zlen_app, zlen_rec_bytes.
  pose proof (zlen_nonneg (match r with Valid _ d | Invalid d => d end)). pose proof (zlen_nonneg (concat (map rec_bytes rs))). lia.
Qed.


