(* ===== verification/PatchLimits.v ===== *)
(** What goes wrong around patches: a truncated patch, extents too small for a
    block. *)
From S2P Require Import Prelude MemFile ExtentIter ChunkPatcher PatchApply PatchLoop PatchBuild.

(** * Where the patcher goes wrong *)

Section Stuck.
Context {F : Type} `{FileLaws F} `{!IFsFile F}.
Context (handle_not_enough_space : F -> bool).
#[local] Instance build_cb : IChunkPatcherCallback (BackupServerHash F) := server_hash_callback handle_not_enough_space.
Notation world := (world F (BackupServerHash F)).

(** [m] does not end with the fuel it has, or ends in a state of which [Q] holds. *)
Definition stuck_or {A} (Q : A -> world -> Prop) (m : pm F _ A) (w : world) : Prop :=
  match m w with (Val a, w') => Q a w' | (NoFuel, _) => True | _ => False end.
Lemma stuck_or_bind {A B} (Q : B -> world -> Prop) (m : pm F _ A) (k : A -> pm F _ B) w :
  stuck_or (fun a => stuck_or Q (k a)) m w -> stuck_or Q (m ≫= k) w.
Proof. unfold stuck_or, mbind, pm_bind. by destruct (m w) as [[] ?]. Qed.
Lemma run_stuck_or {A} (Q : A -> world -> Prop) (m : pm F _ A) w : run Q m w -> stuck_or Q m w.
Proof. unfold run, stuck_or. by destruct (m w) as [[] ?]. Qed.

Lemma copy_patch_stuck fuel n pos p rem P (w : world) (Q : Z * Z -> world -> Prop) :
  with_sparse (w_cp w) = false -> chunk_patch_pos (w_cb w) = p -> patch_at P rem w -> zlen rem < n < 2 ^ 32 ->
  stuck_or Q (copy_patch fuel n pos p) w.
Proof.
  revert n pos p rem w. induction fuel as [|fuel IH]; intros n pos p rem w Hws Hp Hat Hn; cbn [copy_patch];
    pose proof (zlen_nonneg rem); rewrite (proj2 (Z.leb_gt n 0)) by lia; [exact I|].
  assert (Hm : 0 < Z.min buffer_size n) by (unfold buffer_size; lia). set (m := Z.min buffer_size n) in *.
  apply stuck_or_bind, run_stuck_or, run_patch_Read; [lia|]. intros f Hc Hf. rewrite (rem_read P _ _ m Hat) in * by lia.
  pose proof (patch_at_read P _ w f (w_cp w) (w_cb w) (w_it w) m Hat ltac:(lia) Hc Hf) as Hat'.
  set (b := ztake m rem) in *. assert (Lb : zlen b = Z.min m (zlen rem)) by (unfold b; rewrite zlen_ztake; lia).
  apply stuck_or_bind, run_stuck_or. unfold give_bytes. apply run_bind, run_get_cp. cbn [w_cp]. rewrite Hws.
  apply run_bind, run_assert_pos; [done|]. apply run_bind, run_cb_bytes. intros r c Hcb. apply run_ret.
  rewrite w32_id by lia. apply IH with (rem := zdrop m rem); cbn [w_cp w_cb].
  - done.
  - cbn in Hcb. injection Hcb as _ <-. cbn [chunk_patch_pos].
    rewrite orb_true_r. destruct (Seek _ _) as [? ?], (writeRepeatFreeSpace _ _ _) as [? ?]. cbn. by rewrite Hp.
  - exact Hat'.
  - rewrite zlen_zdrop; lia.
Qed.

Lemma truncated_stuck fuel N n d dest source patch uninit reflinked (Q : unit -> world -> Prop) :
  0 < N < 2 ^ 62 -> 0 < n < 2 ^ 32 -> zlen d < n -> zlen d < N ->
  contents patch = le_bytes 8 (w64 N) ++ le_bytes 8 (w64 0) ++ le_bytes 4 n ++ d ->
  stuck_or Q (ApplyPatch fuel)
    (mkWorld (setRequireUnchanged (negb reflinked) (ChunkPatcher_init uninit)) source patch (mkHash dest 0 reflinked 0 false) None).
Proof.
  intros HN Hn Hdn HdN Hc. destruct uninit as [[[? ?] ?] ?]. unfold ApplyPatch.
  apply stuck_or_bind, run_stuck_or, run_patch_Seek; [lia|]. intros f1 Hc1 Hp1.
  apply stuck_or_bind, run_stuck_or, run_file_Seek; [lia|]. intros f2 Hc2 Hp2. cbn [w_cp w_file w_patch w_cb w_it] in *.
  apply stuck_or_bind, run_stuck_or, run_mod_cp. cbn [w_cp w_file w_patch w_cb w_it].
  set (cp1 := set_last_unchanged _ _). set (w1 := mkWorld cp1 f2 f1 _ _).
  set (rem := le_bytes 8 (w64 0) ++ le_bytes 4 n ++ d). set (P := le_bytes 8 (w64 N) ++ rem).
  assert (L : zlen (le_bytes 8 (w64 N)) = 8) by apply zlen_le_bytes.
  assert (Hat1 : patch_at P P w1) by (split; [cbn; by rewrite Hc1|cbn; by rewrite Hp1]).
  apply stuck_or_bind, run_stuck_or, run_patch_Read; [lia|]. intros f3 Hc3 Hp3. rewrite (rem_read P _ _ 8 Hat1) in * by lia.
  pose proof (patch_at_read P P w1 f3 (w_cp w1) (w_cb w1) (w_it w1) 8 Hat1 ltac:(lia) Hc3 Hp3) as Hat3.
  assert (E8 : ztake 8 P = le_bytes 8 (w64 N)) by (unfold P; rewrite <- L; apply ztake_app_zlen).
  assert (D8 : zdrop 8 P = rem) by (unfold P; rewrite <- L; apply zdrop_app_zlen).
  rewrite E8, D8, L in *. cbn [Z.eqb Pos.eqb negb].
  apply stuck_or_bind, run_stuck_or, run_mod_cp. cbn [w1 w_cp w_file w_patch w_cb w_it].
  apply stuck_or_bind, run_stuck_or, run_get_cp. apply stuck_or_bind, run_stuck_or, run_has_iterator. cbn [w_cp w_it with_sparse].
  rewrite le_val_le_bytes. change (256 ^ Z.of_nat 8) with (2 ^ 64). fold (w64 (w64 N)). rewrite w64_id, s64_w64 by (try apply w64_range; lia).
  set (cp2 := set_filesize N cp1). rewrite bool_decide_false by by intros [].
  apply stuck_or_bind, run_stuck_or. apply run_ret. apply stuck_or_bind, run_stuck_or, run_ret.
  apply stuck_or_bind, run_stuck_or, run_file_Size. apply stuck_or_bind.
  destruct fuel as [|fuel]; [exact I|]. cbn [apply_loop].
  apply stuck_or_bind, run_stuck_or, run_get_cp. rewrite orb_true_r. cbn [negb].
  apply stuck_or_bind. cbn [andb patch_off Z.eqb Pos.eqb]. apply stuck_or_bind.
  destruct fuel as [|fuel]; [exact I|]. cbn [readNextValidPatch].
  apply stuck_or_bind, run_stuck_or, run_patch_Read; [lia|]. intros f4 Hc4 Hp4.
  assert (Hr : file_read (contents f3) (fpos f3) 12 = ztake 12 rem) by exact (rem_read P rem _ 12 Hat3 ltac:(lia)).
  cbn [w_cp w_file w_patch w_cb w_it] in *. rewrite Hr in *.
  pose proof (patch_at_read P rem _ f4 cp2 (mkHash dest 0 reflinked 0 false) None 12 Hat3 ltac:(lia) Hc4 Hp4) as Hat4.
  unfold rem in Hat4, Hp4 |- *. rewrite header_bytes, zdrop_12 in *. rewrite zlen_app, !zlen_le_bytes in *.
  cbn [Z.add Z.of_nat Pos.of_succ_nat Pos.succ Pos.add Z.eqb Pos.eqb negb].
  rewrite header_off, header_len by lia. cbn [patch_off Z.eqb].
  apply run_stuck_or, run_ret. cbn [patch_off patch_size Z.eqb negb andb].
  change (unchanged_align cp2) with 0. change (filesize cp2) with N. cbn [Z.eqb negb].
  apply stuck_or_bind, run_stuck_or, run_ret, run_stuck_or, run_ret.
  cbn [negb andb patch_off patch_size]. rewrite Z.sub_diag, Z.add_0_l. change (s64 0) with 0. change (0 <? UINT_MAX) with true.
  cbn [Z.eqb Z.leb Z.compare Pos.compare negb andb orb patch_off patch_size].
  apply stuck_or_bind, run_stuck_or, run_assert; [done|].
  set (fin := N <? n). apply stuck_or_bind, run_stuck_or, run_assert.
  { unfold fin. destruct (N <? n); [done|]. cbn [orb]. apply Z.ltb_lt. lia. }
  apply stuck_or_bind, stuck_or_bind, run_stuck_or, run_assert; [by destruct fin|].
  apply stuck_or_bind, run_stuck_or, run_mod_cp. apply stuck_or_bind.
  apply copy_patch_stuck with (rem := d) (P := P); [done|done|exact Hat4|].
  unfold fin. destruct (Z.ltb_spec N n); cbn [patch_size]; rewrite ?w32_id by lia; lia.
Qed.
End Stuck.

(** C35: a truncated patch makes the patcher hang.  Let a patch file without extents
    consist of the new file's size and one record, at offset 0, that ends inside of the
    record's data, with less data than the new file's size: at the end of the patch file
    [Read] returns nothing and reports no error, so the loop over the record's data
    never ends.  Whatever the fuel, [ApplyPatch], as [patchFile] calls it, runs out of
    it. *)
Theorem ApplyPatch_truncated_hangs {F} `{FileLaws F} `{!IFsFile F} (handle_not_enough_space : F -> bool)
    (fuel : nat) (N n : Z) (d : bytes) (dest source patch : F) uninit reflinked :
  0 < N < 2 ^ 62 -> 0 < n < 2 ^ 32 -> zlen d < n -> zlen d < N ->
  contents patch = (le_bytes 8 (w64 N) ++ le_bytes 8 (w64 0) ++ le_bytes 4 n ++ d)%list ->
  fst (ApplyPatch (H0 := server_hash_callback handle_not_enough_space) fuel
    (mkWorld (setRequireUnchanged (negb reflinked) (ChunkPatcher_init uninit)) source patch (mkHash dest 0 reflinked 0 false) None))
  = NoFuel.
Proof.
  intros HN Hn Hdn HdN Hc.
  pose proof (truncated_stuck handle_not_enough_space fuel N n d dest source patch uninit reflinked (fun _ _ => False) HN Hn Hdn HdN Hc) as Hs.
  unfold stuck_or, build_cb in Hs. by destruct (ApplyPatch _ _) as [[] ?].
Qed.

Lemma ApplyPatch_truncated_hangs_witness :
  fst (ApplyPatch (H0 := server_hash_callback (fun _ : CMemoryFile.t => false)) 1000
    (mkWorld (setRequireUnchanged true (ChunkPatcher_init (0, 0, true, true))) (CMemoryFile.mk (str "old") 0)
       (CMemoryFile.mk (le_bytes 8 (w64 6) ++ le_bytes 8 (w64 0) ++ le_bytes 4 6 ++ str "abc") 0)
       (mkHash CMemoryFile.init 0 false 0 false) None)) = NoFuel.
Proof.
  apply (ApplyPatch_truncated_hangs (fun _ => false) 1000 6 6 (str "abc") CMemoryFile.init _ _ (0, 0, true, true) false);
    [lia|lia|by vm_compute|by vm_compute|reflexivity].
Defined.

(** * Extents *)

(** [ExtentIterator] yields the stored extents, shrunk to whole blocks, up to
    the first one that does not contain a whole block; on the same list
    [FsExtentIterator], which goes on, also yields the later ones. *)
Theorem extent_iterator_stops {F} `{FileLaws F} (bs : Z) (l : list SSparseExtent) (rest : bytes) (f : F) :
  0 < bs -> Forall extent_ok l -> zlen l < 2 ^ 60 -> contents f = extents_file l rest ->
  yields bs l rest (ExtentIterator.init (Some f) bs) (shrunk bs l) /\
  (exists it, fst <$> FsExtentIterator.nextExtent (fun k => match k with [] => (no_extent, []) | e :: k => (e, k) end) 10
                (FsExtentIterator.init id [mkExtent 1 2; mkExtent 8 8] 4) = Some (mkExtent 8 8) /\
     ExtentIterator.nextExtent 10 (ExtentIterator.init (Some (CMemoryFile.mk (extents_file [mkExtent 1 2; mkExtent 8 8] []) 0)) 4)
       = Some (no_extent, it)).
Proof.
  intros Hbs Hl Hll Hc. split; [by apply init_yields|]. eexists. split; reflexivity.
Qed.

Lemma extent_iterator_stops_witness :
  let l := [mkExtent 1 2; mkExtent 8 8] in
  yields 4 l [] (ExtentIterator.init (Some (CMemoryFile.mk (extents_file l []) 0)) 4) (shrunk 4 l).
Proof.
  refine (proj1 (extent_iterator_stops 4 [mkExtent 1 2; mkExtent 8 8] [] (CMemoryFile.mk _ 0) _ _ _ eq_refl)).
  - done.
  - repeat constructor; cbn; lia.
  - by vm_compute.
Defined.
