(* ===== verification/ChunkHasher.v ===== *)
(** Chunk hashes: [urbackupcommon/chunk_hasher.cpp].

    [build_chunk_hashs] goes through a file in chunks of 512 KiB and writes, behind
    the file size, the MD5 digest of each chunk and the Adler-32 checksums of its
    small blocks to a hash output file.  On the way it can copy the file, to a new
    file or onto an older version of it ([modify_inplace]; with the older version's
    chunk hashes, [hashinput], it reads only what has changed), and compute the
    file's hash.  The changed-block-tracking data of the client ([cbt_hash_file])
    is not part of the model: it is absent, as by default. *)
From S2P Require Import Prelude MemFile ExtentIter ChunkPatcher Adler Md5 PatchApply.

(** [ReturnFalse]: the function returns false.  [Stuck]: an [assert] does not hold,
    or a loop does not end. *)
Inductive result (A : Type) := Done (a : A) | ReturnFalse | Stuck.
Arguments Done {A} a.
Arguments ReturnFalse {A}.
Arguments Stuck {A}.
Definition rbind {A B} (m : result A) (k : A -> result B) : result B :=
  match m with Done a => k a | ReturnFalse => ReturnFalse | Stuck => Stuck end.
Declare Scope result_scope.
Notation "'let*' x := m 'in' k" := (rbind m (fun x => k)) (at level 200, x pattern, right associativity) : result_scope.
Open Scope result_scope.
(** [if (!ok) return false;] *)
Definition guard {A} (r : bool * A) : result A := if fst r then Done (snd r) else ReturnFalse.

(** [char buf[n]] holding [b] and zeros behind it. *)
Definition buf_sub (pos n : Z) (b : bytes) : bytes := zsub pos n (zresize nul (Z.max (zlen b) (pos + n)) b).
Definition buf_write (pos : Z) (src b : bytes) : bytes := zsplice pos src (zresize nul (Z.max (zlen b) (pos + zlen src)) b).

Section ChunkHasher.
Context {F H : Type} `{IFsFile F} `{IHashFunc H}.
(** [get_sparse_extent_content()], and the uninitialised memory of an [MD5] and of
    an [SChunkHashes]. *)
Context (sparse_hashes : bytes) (md5_mem : MD5.t) (chunk_mem : bytes).
(** [cb]: [handle_not_enough_space]. *)
Context (cb : option (F -> bool)).

Fixpoint tries_loop (fuel : nat) (f : F) (buf : bytes) (written tries : Z) : bool * F :=
  match fuel with
  | O => (false, f)
  | S k =>
      let '((rc, _), f) := Write f (zdrop written buf) in
      let written := w32 (written + rc) in
      let tries := if rc =? 0 then tries - 1 else tries in
      if (written <? zlen buf) && ((0 <? rc) || (0 <? tries)) then tries_loop k f buf written tries
      else (negb (rc =? 0), f)
  end.
(** Every round writes a byte or uses up one of the 50 tries. *)
Definition writeFileRepeatTries (f : F) (buf : bytes) : bool * F := tries_loop (length buf + 50) f buf 0 50.
Definition write_repeat (f : F) (buf : bytes) : result F :=
  guard (match cb with None => writeFileRepeatTries f buf | Some h => writeRepeatFreeSpace h f buf end).

(** The state of the copy. *)
Record copying := mkCopying {
  copy : option F;
  copy_write_pos : Z;
  copy_read_eof : bool;
  copy_sparse_extent_start : Z;
  copy_max_sparse : Z;
  inplace_written : Z }.

(** Zeros in pieces of 32768 bytes where a hole cannot be punched. *)
Fixpoint zero_extent (fuel : nat) (f : F) (extent_size written : Z) : result F :=
  if extent_size <=? written then Done f
  else match fuel with
  | O => Stuck
  | S k =>
      let towrite := Z.min (extent_size - written) 32768 in
      let* f := write_repeat f (replicate (Z.to_nat towrite) nul) in
      zero_extent k f extent_size (written + towrite)
  end.

(** The first chunk of a sparse extent: a hole in the copy. *)
Definition copy_extent (fsize pos : Z) (e : SSparseExtent) (c : copying) : result copying :=
  if negb (copy_sparse_extent_start c =? -1) then Done c
  else
    let c := mkCopying (copy c) (copy_write_pos c) (copy_read_eof c) pos (copy_max_sparse c) (inplace_written c) in
    if offset e <? fsize then
      let extent_size := if fsize <? offset e + size e then fsize - offset e else size e in
      let max := Z.min fsize (offset e + size e) in
      match copy c with
      | None => Done (mkCopying None (copy_write_pos c) (copy_read_eof c) pos max (inplace_written c))
      | Some f =>
          let '(ok, f) := PunchHole f (offset e) extent_size in
          if ok : bool then Done (mkCopying (Some f) (copy_write_pos c) (copy_read_eof c) pos max (inplace_written c))
          else
            let* f := guard (Seek f (offset e)) in
            let* f := zero_extent (S (Z.to_nat (extent_size / 32768))) f extent_size 0 in
            Done (mkCopying (Some f) (copy_write_pos c) (copy_read_eof c) pos (copy_max_sparse c) (inplace_written c))
      end
    else Done c.

(** The copy behind a chunk that is skipped. *)
Definition copy_skip (c : copying) : result copying :=
  let p := copy_write_pos c + c_checkpoint_dist in
  let* f := match copy c with None => Done None | Some f => let* f := guard (Seek f p) in Done (Some f) end in
  Done (mkCopying f p (copy_read_eof c) (copy_sparse_extent_start c) (copy_max_sparse c) (inplace_written c)).

(** [cbuf], the next small block, at the place where the copy is. *)
Definition copy_write (cbuf : bytes) (f : F) (eof : bool) (c : copying) : result copying :=
  let r := zlen cbuf in
  let f := snd (Seek f (copy_write_pos c)) in
  let* f := write_repeat f cbuf in
  Done (mkCopying (Some f) (copy_write_pos c + r) eof (copy_sparse_extent_start c) (copy_max_sparse c) (inplace_written c + r)).
Definition copy_keep (cbuf : bytes) (f : F) (eof : bool) (c : copying) : copying :=
  mkCopying (Some f) (copy_write_pos c + zlen cbuf) eof (copy_sparse_extent_start c) (copy_max_sparse c) (inplace_written c).

(** [modify_inplace] of a small block.  [old_hash]: its checksum in the chunk
    hashes of the older version. *)
Definition inplace_small (old_hash : option bytes) (small_hash cbuf : bytes) (control : MD5.t) (c : copying) :
    result (MD5.t * copying) :=
  match copy c with
  | None => Done (control, c)
  | Some f =>
      let seek_read := let f := snd (Seek f (copy_write_pos c)) in Read f c_small_hash_dist in
      match old_hash with
      | Some h =>
          if bool_decide (small_hash = h) then Done (MD5.update control cbuf, copy_keep cbuf f (copy_read_eof c) c)
          else
            let '((copy_buf, _), f) := seek_read in
            let eof := copy_read_eof c || (zlen copy_buf <? c_small_hash_dist) in
            let* c := copy_write cbuf f eof c in
            Done (MD5.update control copy_buf, c)
      | None =>
          let '(copy_buf, f) := if copy_read_eof c then ([], f) else let '((b, _), f) := seek_read in (b, f) in
          let eof := copy_read_eof c || (zlen copy_buf <? c_small_hash_dist) in
          if eof || negb (bool_decide (copy_buf = cbuf)) then let* c := copy_write cbuf f eof c in Done (control, c)
          else Done (control, copy_keep cbuf f eof c)
      end
  end.

(** A chunk in progress; [small_hash] as far as it has been filled. *)
Record chunk := mkChunk {
  big_hash : MD5.t;
  big_hash_copy_control : MD5.t;
  small_hash : bytes;
  buf_read : Z;
  all_zeros : bool;
  sha_buf : bytes;
  cpy : copying }.

(** [for(;pos<epos && pos<fsize;pos+=c_small_hash_dist,++chunkidx)].  [cread]
    bytes have been read to [buf]; [with_sha]: the hash function is given the
    contents of the chunks; [old]: the chunk hashes of the older version. *)
Fixpoint small_blocks (fuel : nat) (treehash with_sha inplace : bool) (old : option bytes) (buf : bytes) (cread fsize pos epos buf_off : Z)
    (k : chunk) : result (Z * chunk) :=
  if (pos <? epos) && (pos <? fsize) then
    match fuel with
    | O => Stuck
    | S fuel =>
        let r := Z.min c_small_hash_dist (w32 (cread - buf_off)) in
        let cbuf := buf_sub buf_off r buf in
        let zeros := all_zeros k && negb (treehash && negb (buf_is_zero cbuf)) in
        let small := le_bytes 4 (urb_adler32 (urb_adler32 0 None 0) (Some cbuf) r) in
        let old_hash := (fun h => zsub (big_hash_size + zlen (small_hash k)) small_hash_size h) <$> old in
        let* (control, c) := (if inplace : bool then inplace_small old_hash small cbuf (big_hash_copy_control k) (cpy k)
                          else Done (big_hash_copy_control k, cpy k)) in
        small_blocks fuel treehash with_sha inplace old buf cread fsize (pos + c_small_hash_dist) epos (buf_off + c_small_hash_dist)
          (mkChunk (MD5.update (big_hash k) cbuf) control (small_hash k ++ small) (buf_read k + r) zeros
             (if with_sha then buf_write (pos mod c_checkpoint_dist) cbuf (sha_buf k) else sha_buf k) c)
    end
  else Done (pos, k).

(** [sparse_hash] of a run of zeros that ends. *)
Definition flush_extent (start end_pos : Z) (h : H) : H :=
  if start =? -1 then h else sparse_hash h (extent_bytes (mkExtent start (end_pos - start))).

(** The chunk is hashed, or belongs to a run of zeros. *)
Definition hash_chunk (treehash : bool) (start_pos : Z) (digest : bytes) (k : chunk) (start : Z) (h : H) : Z * H :=
  let block := Z.quot start_pos c_checkpoint_dist * c_checkpoint_dist in
  if buf_read k =? c_checkpoint_dist then
    let data := buf_sub 0 c_checkpoint_dist (sha_buf k) in
    if (if treehash then all_zeros k else buf_is_zero data) then (if start =? -1 then block else start, h)
    else
      let h := flush_extent start block h in
      (-1, if treehash then addHashAllAdler h (digest ++ small_hash k) c_checkpoint_dist else hash h data)
  else
    let h := flush_extent start block h in
    (-1, if treehash then addHashAllAdler h (digest ++ small_hash k) (buf_read k) else hash h (buf_sub 0 (buf_read k) (sha_buf k))).

Record state := mkState {
  st_f : F;
  st_out : F;
  st_in : option F;
  chunk_hashes : option bytes;
  st_hash : option H;
  extents : option (ExtentIterator.t F);
  curr_extent : SSparseExtent;
  hashoutputpos : Z;
  sparse_extent_start : Z;
  st_buf : bytes;
  st_sha : bytes;
  copy_state : copying }.

(** The chunk hashes of the older version's chunk; a short read leaves the rest of
    the structure as it was. *)
Definition read_old (input_size pos : Z) (s : state) : option F * option bytes :=
  match chunk_hashes s, st_in s with
  | Some old, Some fi =>
      if pos <? input_size then
        let fi := snd (Seek fi (hashoutputpos s)) in
        let '((b, _), fi) := Read fi chunkhash_single_size in
        (Some fi, if zlen b =? 0 then None else Some (zsplice 0 b old))
      else (Some fi, None)
  | _, fi => (fi, None)
  end.

(** The same loop as in [hash_sha]. *)
Definition next_extents (fuel : nat) (pos : Z) (e : SSparseExtent) (it : option (ExtentIterator.t F)) :
    result (SSparseExtent * option (ExtentIterator.t F)) :=
  match hs_skip_extents fuel pos e it with Some r => Done r | None => Stuck end.

Definition with_sha (treehash : bool) (h : option H) : bool := match h with Some _ => negb treehash | None => false end.

(** A chunk inside a sparse extent. *)
Definition sparse_chunk (fsize pos epos : Z) (s : state) : result state :=
  let* out := write_repeat (st_out s) sparse_hashes in
  let start := match st_hash s with
               | Some _ => if sparse_extent_start s =? -1 then pos else sparse_extent_start s
               | None => sparse_extent_start s
               end in
  let* c := copy_extent fsize pos (curr_extent s) (copy_state s) in
  let* c := copy_skip c in
  let* f := guard (Seek (st_f s) epos) in
  Done (mkState f out (st_in s) (chunk_hashes s) (st_hash s) (extents s) (curr_extent s) (hashoutputpos s + zlen sparse_hashes)
          start (st_buf s) (st_sha s) c).

(** When the digest of what the copy held before does not agree with the older
    version's, a changed small block has the checksum of the old one: the whole
    chunk is copied again. *)
Definition check_control (start epos pos : Z) (k : chunk) (old : option bytes) (inplace : bool) (f : F) (buf : bytes) :
    result (Z * F * bytes * copying) :=
  match copy (cpy k), old with
  | Some c, Some old =>
      if (inplace : bool) then
        match MD5.raw_digest_int (MD5.finalize (big_hash_copy_control k)) with
        | None => Stuck
        | Some d =>
            if bool_decide (d = ztake big_hash_size old) then Done (pos, f, buf, cpy k)
            else
              let pos := epos - c_checkpoint_dist in
              let f := snd (Seek f pos) in
              let '((b, err), f) := Read f c_checkpoint_dist in
              if (err : bool) then ReturnFalse
              else
                let* c := write_repeat (snd (Seek c start)) b in
                Done (pos, f, buf_write 0 b buf,
                      mkCopying (Some c) (start + zlen b) (copy_read_eof (cpy k)) (copy_sparse_extent_start (cpy k))
                        (copy_max_sparse (cpy k)) (inplace_written (cpy k) + zlen b))
        end
      else Done (pos, f, buf, cpy k)
  | _, _ => Done (pos, f, buf, cpy k)
  end.

(** A chunk that is read. *)
Definition data_chunk (treehash inplace : bool) (fsize pos epos : Z) (s : state) : result (Z * state) :=
  let c := copy_state s in
  let c := mkCopying (copy c) (copy_write_pos c) (copy_read_eof c) (-1) (copy_max_sparse c) (inplace_written c) in
  let '((b, err), f) := Read (st_f s) c_checkpoint_dist in
  if (err : bool) then ReturnFalse
  else
    let cread := zlen b in
    let buf := buf_write 0 b (st_buf s) in
    let* (pos', k) :=
      small_blocks (Z.to_nat (c_checkpoint_dist / c_small_hash_dist)) treehash (with_sha treehash (st_hash s)) inplace (chunk_hashes s) buf
        cread fsize pos epos 0 (mkChunk (MD5.init md5_mem) (MD5.init md5_mem) [] 0 true (st_sha s) c) in
    let* c := (match copy (cpy k) with
               | Some cf =>
                   if inplace then Done (cpy k)
                   else
                     let* cf := write_repeat cf (buf_sub 0 cread buf) in
                     Done (mkCopying (Some cf) (copy_write_pos (cpy k) + cread) (copy_read_eof (cpy k))
                             (copy_sparse_extent_start (cpy k)) (copy_max_sparse (cpy k)) (inplace_written (cpy k)))
               | None => Done (cpy k)
               end) in
    match MD5.raw_digest_int (MD5.finalize (big_hash k)) with
    | None => Stuck
    | Some digest =>
        let '(start, h) := match st_hash s with
                           | Some h => let '(start, h) := hash_chunk treehash pos digest k (sparse_extent_start s) h in (start, Some h)
                           | None => (sparse_extent_start s, None)
                           end in
        let* out := write_repeat (st_out s) (digest ++ small_hash k) in
        let k := mkChunk (big_hash k) (big_hash_copy_control k) (small_hash k) (buf_read k) (all_zeros k) (sha_buf k) c in
        let* (pos', f, buf, c) := check_control (copy_write_pos (copy_state s)) epos pos' k (chunk_hashes s) inplace f buf in
        Done (pos', mkState f out (st_in s) (chunk_hashes s) h (extents s) (curr_extent s)
                      (hashoutputpos s + zlen (digest ++ small_hash k)) start buf (sha_buf k) c)
    end.

(** [for(_i64 pos=0;pos<fsize;)] *)
Fixpoint chunks (fuel : nat) (treehash inplace : bool) (fsize input_size pos : Z) (s : state) : result state :=
  if pos <? fsize then
    match fuel with
    | O => Stuck
    | S n =>
        let '(fi, old) := read_old input_size pos s in
        let* (e, it) := next_extents n pos (curr_extent s) (extents s) in
        let s := mkState (st_f s) (st_out s) fi old (st_hash s) it e (hashoutputpos s) (sparse_extent_start s) (st_buf s) (st_sha s) (copy_state s) in
        let epos := pos + c_checkpoint_dist in
        if negb (offset e =? -1) && (offset e <=? pos) && (epos <=? offset e + size e) && (epos <=? fsize) then
          let* s := sparse_chunk fsize pos epos s in chunks n treehash inplace fsize input_size epos s
        else
          let* (pos, s) := data_chunk treehash inplace fsize pos epos s in chunks n treehash inplace fsize input_size pos s
    end
  else Done s.

(** The run of zeros at the end, and the size of the copy. *)
Definition finish_hash (fsize : Z) (s : state) : result (option H) :=
  match st_hash s with
  | Some h =>
      if sparse_extent_start s =? -1 then Done (Some h)
      else if fsize mod c_checkpoint_dist =? 0 then Done (Some (flush_extent (sparse_extent_start s) fsize h)) else Stuck
  | None => Done None
  end.
Definition finish_copy (c : copying) : result copying :=
  match copy c with
  | Some f =>
      if negb (copy_max_sparse c =? -1) && (Size f <? copy_max_sparse c) then
        let* f := guard (Resize f (copy_max_sparse c)) in
        Done (mkCopying (Some f) (copy_write_pos c) (copy_read_eof c) (copy_sparse_extent_start c) (copy_max_sparse c) (inplace_written c))
      else Done c
  | None => Done c
  end.

Definition build_chunk_hashs (fuel : nat) (f hashoutput : F) (copy : option F) (modify_inplace : bool) (hashinput : option F)
    (treehash : bool) (hashf : option H) (extent_iterator : option (ExtentIterator.t F)) : result state :=
  let f := snd (Seek f 0) in
  let out := snd (Seek hashoutput 0) in
  let fsize := Size f in
  let* out := write_repeat out (le_bytes 8 (w64 fsize)) in
  let* (fi, input_size) :=
    match hashinput with
    | None => Done (None, 0)
    | Some fi =>
        let '((b, _), fi) := Read (snd (Seek fi 0)) 8 in
        if zlen b =? 8 then Done (Some fi, s64 (le_val b)) else ReturnFalse
    end in
  let* (e, it) :=
    match extent_iterator with
    | Some it => match ExtentIterator.nextExtent fuel it with Some (e, it) => Done (e, Some it) | None => Stuck end
    | None => Done (no_extent, None)
    end in
  let* s := chunks fuel treehash modify_inplace fsize input_size 0
              (mkState f out fi (match hashinput with Some _ => Some chunk_mem | None => None end) hashf it e 8 (-1) [] []
                 (mkCopying copy 0 false (-1) (-1) 0)) in
  let* h := finish_hash fsize s in
  let* c := finish_copy (copy_state s) in
  Done (mkState (st_f s) (st_out s) (st_in s) (chunk_hashes s) h (extents s) (curr_extent s)
          (hashoutputpos s) (-1) (st_buf s) (st_sha s) c).
End ChunkHasher.
Arguments copying F : clear implicits.
Arguments chunk F : clear implicits.
Arguments state F H : clear implicits.
