(* ===== verification/ChunkSpec.v ===== *)
(** What [build_chunk_hashs] computes: the chunk hashes of a file, its copy and
    its hash.  Proved for a file that does not change while it is read, without the
    chunk hashes of an older version. *)
From S2P Require Import Prelude MemFile ExtentIter ChunkPatcher Adler BlockHash Md5 PatchApply PatchLoop PatchBuild PatchHash TreeHash TreeRoot TreeSpec ChunkHasher.

Notation D := c_checkpoint_dist.
Notation SB := treehash_smallblock.
#[local] Opaque md5_spec.

(** The contents of the hash output file. *)
Definition chunk_hash_file (b : bytes) : bytes := le_bytes 8 (w64 (zlen b)) ++ concat (map all_adlers (cut D b)).

Lemma D_pos : 0 < D.
Proof. done. Qed.
Lemma D_small : D = 128 * SB.
Proof. done. Qed.

(** ** The chunk hashes of a chunk of zeros *)

Lemma iter_update n buf : forall m msg,
  md5_of msg m -> zlen buf < 2 ^ 32 - 64 -> md5_of (msg ++ concat (replicate n buf)) (Nat.iter n (fun m => MD5.update m buf) m).
Proof.
  induction n as [|n IH]; intros m msg Hm Hb; cbn [replicate concat Nat.iter nat_rect].
  - by rewrite app_nil_r.
  - assert (E : msg ++ buf ++ concat (replicate n buf) = (msg ++ concat (replicate n buf)) ++ buf).
    { rewrite <- app_assoc. f_equal. clear. induction n as [|n IH]; cbn [replicate concat]; [by rewrite app_nil_r|].
      rewrite <- app_assoc. by rewrite <- IH. }
    rewrite E. apply update_of; [by apply IH|done].
Qed.
Lemma zlen_concat_replicate n (b : bytes) : zlen (concat (replicate n b)) = Z.of_nat n * zlen b.
Proof. induction n as [|n IH]; [done|]. cbn [replicate concat]. rewrite zlen_app, IH. lia. Qed.
Lemma znth_concat_replicate_nul n k i : znth nul (concat (replicate n (replicate k nul))) i = nul.
Proof.
  assert (E : concat (replicate n (replicate k nul)) = replicate (n * k) nul).
  { induction n as [|n IH]; [done|]. cbn [replicate concat Nat.mul]. by rewrite IH, replicate_add. }
  rewrite E. apply znth_replicate_nul.
Qed.
(** A list of zeros, by its length. *)
Lemma all_nul b b' : zlen b = zlen b' -> (forall i, 0 <= i < zlen b -> znth nul b i = nul) -> (forall i, znth nul b' i = nul) -> b = b'.
Proof. intros Hl H1 H2. apply (list_eq_znth nul); [done|]. intros i Hi. by rewrite H1, H2. Qed.

Lemma content_of_zeros mem zb n c :
  zlen (MD5.buffer mem) = 64 -> zlen zb = c_small_hash_dist -> c_small_hash_dist = SB ->
  extent_content zb n mem = Some c ->
  all_adlers (concat (replicate n zb)) = c.
Proof.
  intros Hm Hz Hs Hc. assert (H32 : zlen zb < 2 ^ 32 - 64) by (rewrite Hz, Hs; done).
  pose proof (iter_update n zb (MD5.init mem) [] (init_of mem Hm) H32) as Hi. cbn [app] in Hi.
  destruct (finalize_of _ _ Hi) as (E1 & E2 & _). unfold extent_content, MD5.raw_digest_int in Hc. rewrite E1, E2 in Hc. cbn [mbind option_bind] in Hc.
  injection Hc as <-. unfold all_adlers. f_equal. rewrite <- (app_nil_r (concat _)), cut_concat, cut_nil, app_nil_r.
  - rewrite <- Hz, adler_first by lia. clear. unfold words. induction n as [|n IH]; [done|]. cbn [replicate map concat]. by rewrite IH.
  - done.
  - apply Forall_replicate. by rewrite Hz.
Qed.
Lemma content_is mem zb n : zlen (MD5.buffer mem) = 64 -> zlen zb < 2 ^ 32 - 64 -> exists c, extent_content zb n mem = Some c.
Proof.
  intros Hm H32. unfold extent_content. destruct (finalize_of _ _ (iter_update n zb (MD5.init mem) [] (init_of mem Hm) H32)) as (E1 & E2 & _).
  unfold MD5.raw_digest_int. rewrite E1, E2. by eexists.
Qed.
#[local] Opaque extent_content.
Lemma sparse_content_is mem : zlen (MD5.buffer mem) = 64 -> exists c, get_sparse_extent_content mem = Some c.
Proof.
  intros Hm. unfold get_sparse_extent_content. apply content_is; [exact Hm|]. rewrite zlen_replicate; [reflexivity|].
  unfold c_small_hash_dist. lia.
Qed.
Lemma zero_content_ok mem k n c b :
  zlen (MD5.buffer mem) = 64 -> Z.of_nat k = c_small_hash_dist -> c_small_hash_dist = SB -> Z.of_nat n * Z.of_nat k = D ->
  extent_content (replicate k nul) n mem = Some c ->
  zlen b = D -> (forall i, 0 <= i < zlen b -> znth nul b i = nul) -> all_adlers b = c.
Proof.
  intros Hm Hk Hs Hn Hc Hl Hz. assert (Hzb : zlen (replicate k nul) = Z.of_nat k) by (unfold zlen; by rewrite length_replicate).
  rewrite <- (content_of_zeros mem (replicate k nul) n c Hm ltac:(congruence) Hs Hc). f_equal.
  apply all_nul; [|done|intros i; apply znth_concat_replicate_nul]. rewrite zlen_concat_replicate, Hzb. congruence.
Qed.
Lemma sparse_content_ok mem c b :
  zlen (MD5.buffer mem) = 64 -> get_sparse_extent_content mem = Some c ->
  zlen b = D -> (forall i, 0 <= i < zlen b -> znth nul b i = nul) -> all_adlers b = c.
Proof.
  intros Hm Hc. unfold get_sparse_extent_content in Hc.
  assert (Hk : 0 <= c_small_hash_dist) by (unfold c_small_hash_dist; lia).
  assert (Hq : 0 <= Z.quot D c_small_hash_dist) by (apply Z.quot_pos; unfold c_small_hash_dist, c_checkpoint_dist; lia).
  apply (zero_content_ok mem (Z.to_nat c_small_hash_dist) (Z.to_nat (Z.quot D c_small_hash_dist))); [exact Hm|by apply Z2Nat.id|exact eq_refl| |exact Hc].
  rewrite (Z2Nat.id _ Hk), (Z2Nat.id _ Hq). exact eq_refl.
Qed.

(** ** Reading from the buffer *)

Lemma buf_sub_in p n (b : bytes) : 0 <= p -> 0 <= n -> p + n <= zlen b -> buf_sub p n b = zsub p n b.
Proof. intros. unfold buf_sub. rewrite Z.max_l, zresize_same by lia. done. Qed.
Lemma buf_write_prefix p (src b : bytes) :
  0 <= p <= zlen b -> ztake (p + zlen src) (buf_write p src b) = ztake p b ++ src.
Proof.
  intros Hp. pose proof (zlen_nonneg src). unfold buf_write. rewrite ztake_zsplice by (rewrite ?zlen_zresize; lia). f_equal.
  unfold zresize. rewrite ztake_app_le by (rewrite zlen_ztake; lia). rewrite ztake_ztake. f_equal. lia.
Qed.
Lemma zlen_buf_write p (src b : bytes) : 0 <= p -> zlen (buf_write p src b) = Z.max (zlen b) (p + zlen src).
Proof.
  intros Hp. pose proof (zlen_nonneg b). pose proof (zlen_nonneg src). unfold buf_write. rewrite zlen_zsplice; rewrite ?zlen_zresize; lia.
Qed.

Section Build.
Context {F H : Type} `{FileLaws F} `{!IFsFile F} `{!PunchLaws F} `{IHashFunc H}.
Context (sparse_hashes : bytes) (md5_mem : MD5.t) (chunk_mem : bytes) (cb : option (F -> bool)).
Context (Hmem : zlen (MD5.buffer md5_mem) = 64).

Lemma write_repeat_ok f b : 0 < zlen b < 2 ^ 32 ->
  exists f', write_repeat cb f b = Done f' /\ contents f' = file_write (contents f) (fpos f) b /\ fpos f' = fpos f + zlen b.
Proof.
  intros Hb. unfold write_repeat. destruct cb as [h|].
  - destruct (writeRepeatFreeSpace_ok h f b) as (f' & -> & Hc & Hp). by exists f'.
  - unfold writeFileRepeatTries. replace (length b + 50)%nat with (S (length b + 49)) by lia. cbn [tries_loop]. change (zdrop 0 b) with b.
    destruct (write_law f b) as (E & Ec & Ep). destruct (Write f b) as [r f']. cbn [fst snd] in *. subst r.
    rewrite Z.add_0_l, w32_id, Z.ltb_irrefl by lia. cbn [andb]. rewrite (proj2 (Z.eqb_neq _ _)) by lia. by exists f'.
Qed.

Context (new : bytes).
Notation N := (zlen new).

(** The copy up to [p]: [L] is its first length. *)
Record copied (L p : Z) (cf : F) (c : copying F) : Prop := {
  cp_pos : copy_write_pos c = p;
  cp_len : L <= zlen (contents cf) <= Z.max L N;
  cp_eq : forall i, 0 <= i < p -> znth nul (contents cf) i = znth nul new i;
  cp_end : p <= zlen (contents cf) \/ p <= copy_max_sparse c;
  cp_max : copy_max_sparse c <= N }.

Lemma copied_write L p cf c b cf' :
  copied L p cf c -> 0 <= p -> p + zlen b <= N -> b = zsub p (zlen b) new ->
  contents cf' = file_write (contents cf) p b ->
  forall eof start w, copied L (p + zlen b) cf' (mkCopying (Some cf') (p + zlen b) eof start (copy_max_sparse c) w).
Proof.
  intros [] Hp Hl Hb Hc eof start w. pose proof (zlen_nonneg b). split; cbn [copy_write_pos copy_max_sparse]; rewrite ?Hc, ?zlen_file_write by done.
  - done.
  - lia.
  - intros i Hi. rewrite znth_write by lia. destruct (Z.leb_spec p i); cbn [andb]; [|apply cp_eq0; lia].
    rewrite (proj2 (Z.ltb_lt _ _)) by lia. rewrite Hb, znth_zsub by lia. f_equal. lia.
  - lia.
  - lia.
Qed.
(** Nothing has to be written where the copy agrees already. *)
Lemma copied_keep L p cf c b cf' :
  copied L p cf c -> 0 <= p -> b = zsub p (zlen b) new -> zsub p (zlen b) (contents cf) = b -> contents cf' = contents cf ->
  forall eof start w, copied L (p + zlen b) cf' (mkCopying (Some cf') (p + zlen b) eof start (copy_max_sparse c) w).
Proof.
  intros [] Hp Hb Hs Hc eof start w. pose proof (zlen_nonneg b).
  assert (Hl : zlen b = 0 \/ p + zlen b <= zlen (contents cf)).
  { destruct (decide (zlen b = 0)); [by left|right]. rewrite <- Hs in n. unfold zsub in n.
    assert (E : zlen b = zlen (zsub p (zlen b) (contents cf))) by (by rewrite Hs).
    unfold zsub in E. rewrite zlen_ztake, zlen_zdrop in E by lia. rewrite zlen_ztake, zlen_zdrop in n by lia. lia. }
  split; cbn [copy_write_pos copy_max_sparse]; rewrite ?Hc; [done|done| |lia|done].
  intros i Hi. destruct (Z.lt_ge_cases i p); [apply cp_eq0; lia|].
  replace i with (p + (i - p)) by lia. rewrite <- (znth_zsub nul (contents cf) p (zlen b)), <- (znth_zsub nul new p (zlen b)) by lia.
  by rewrite Hs, <- Hb.
Qed.

Lemma copy_write_ok L p cf c b f eof :
  copied L p cf c -> contents f = contents cf -> 0 <= p -> 0 < zlen b < 2 ^ 32 -> p + zlen b <= N -> b = zsub p (zlen b) new ->
  exists cf' c', copy_write cb b f eof c = Done c' /\ copy c' = Some cf' /\ copied L (p + zlen b) cf' c' /\
    copy_sparse_extent_start c' = copy_sparse_extent_start c /\ contents cf' = file_write (contents cf) p b.
Proof.
  intros Hcp Hf Hp Hb Hl Eb. unfold copy_write. rewrite (cp_pos _ _ _ _ Hcp).
  destruct (seek_law f p Hp) as (_ & Ec & Ep). destruct (write_repeat_ok (snd (Seek f p)) b Hb) as (f' & -> & Ec' & _).
  cbn [rbind]. do 2 eexists. split; [reflexivity|]. split; [reflexivity|]. assert (E : contents f' = file_write (contents cf) p b) by (by rewrite Ec', Ec, Ep, Hf).
  split; [|by split]. by eapply (copied_write L p cf c b f').
Qed.

Lemma inplace_small_ok L p cf c b small control :
  copy c = Some cf -> copied L p cf c -> 0 <= p -> 0 < zlen b <= SB -> p + zlen b <= N -> b = zsub p (zlen b) new ->
  exists cf' c', inplace_small cb None small b control c = Done (control, c') /\ copy c' = Some cf' /\ copied L (p + zlen b) cf' c' /\
    copy_sparse_extent_start c' = copy_sparse_extent_start c.
Proof.
  intros Ecp Hcp Hp Hb Hl Eb. unfold inplace_small. rewrite Ecp, (cp_pos _ _ _ _ Hcp). assert (SB < 2 ^ 32) by done.
  assert (Hw : forall f eof, contents f = contents cf -> exists cf' c', (let* c := copy_write cb b f eof c in Done (control, c)) = Done (control, c') /\
    copy c' = Some cf' /\ copied L (p + zlen b) cf' c' /\ copy_sparse_extent_start c' = copy_sparse_extent_start c).
  { intros f eof Hf. destruct (copy_write_ok L p cf c b f eof) as (cf' & c' & -> & Ec & Hc' & Hs' & _); try done; [lia|]. by exists cf', c'. }
  destruct (copy_read_eof c) eqn:Eeof; cbn [orb]; [by apply Hw|].
  destruct (seek_law cf p Hp) as (_ & Ec & Ep). destruct (read_law (snd (Seek cf p)) c_small_hash_dist) as (Er & Ec2 & _); [done|].
  rewrite Ec, Ep in Er. set (cp := file_read _ _ _) in Er.
  destruct (Read (snd (Seek cf p)) c_small_hash_dist) as [r f2] eqn:ER. cbn [snd] in *. injection Er as ->.
  assert (Hf2 : contents f2 = contents cf) by (by rewrite Ec2, Ec).
  destruct (Z.ltb_spec (zlen cp) c_small_hash_dist); cbn [orb]; [by apply Hw|].
  case_bool_decide as E; cbn [negb]; [|by apply Hw].
  exists f2. eexists. split; [reflexivity|]. unfold copy_keep. rewrite (cp_pos _ _ _ _ Hcp). split; [reflexivity|].
  split; [|reflexivity]. eapply (copied_keep L p cf); try done.
  assert (El : zlen b = c_small_hash_dist) by (rewrite E in *; unfold c_small_hash_dist, SB in *; lia). rewrite El. exact E.
Qed.

(** ** The small blocks of a chunk *)

Section Chunk.
(** [J m control c]: the copy, and what has been digested of it, after the first
    [m] bytes of the chunk; [old]: the chunk hashes of the older version. *)
Context (treehash ws inplace : bool) (old : option bytes) (buf b : bytes) (start : Z) (J : Z -> MD5.t -> copying F -> Prop).
Context (Hstart : 0 <= start) (Hmod : start mod D = 0).
Context (Hb : b = zsub start D new) (Hlen : zlen b = Z.min D (N - start)) (Hpos : 0 < zlen b).
Context (Hbuf : ztake (zlen b) buf = b).
Context (Hstep : forall o r control c (cbuf := zsub o r b), 0 <= o -> o mod SB = 0 -> r = Z.min SB (zlen b - o) -> 0 < r -> J o control c ->
  exists control' c', (if inplace then
      inplace_small cb ((fun h => zsub (big_hash_size + 4 * (o / SB)) small_hash_size h) <$> old) (le_bytes 4 (adler cbuf)) cbuf control c
    else Done (control, c)) = Done (control', c') /\ J (o + r) control' c').

Record chunk_at (m : Z) (k : chunk F) : Prop := {
  ck_big : md5_of (ztake m b) (big_hash k);
  ck_small : small_hash k = words (map adler (cut SB (ztake m b)));
  ck_read : buf_read k = m;
  ck_zero : treehash = true -> all_zeros k = buf_is_zero (ztake m b);
  ck_sha : ws = true -> m <= zlen (sha_buf k) /\ ztake m (sha_buf k) = ztake m b;
  ck_copy : J m (big_hash_copy_control k) (cpy k) }.

Lemma buf_piece o r : 0 <= o -> 0 <= r -> o + r <= zlen b -> buf_sub o r buf = zsub o r b.
Proof.
  intros Ho Hr Hl. assert (zlen b <= zlen buf).
  { rewrite <- Hbuf at 1. rewrite zlen_ztake by lia. lia. }
  rewrite buf_sub_in by lia. rewrite <- Hbuf at 1. rewrite !zsub_ztake, ztake_ztake by lia. do 2 f_equal. lia.
Qed.

Lemma chunk_step m r k control c (cbuf := zsub m r b) :
  chunk_at m k -> 0 <= m -> m mod SB = 0 -> r = Z.min SB (zlen b - m) -> 0 < r ->
  J (m + r) control c ->
  chunk_at (m + r) (mkChunk (MD5.update (big_hash k) cbuf) control
    (small_hash k ++ le_bytes 4 (urb_adler32 (urb_adler32 0 None 0) (Some cbuf) r)) (buf_read k + r)
    (all_zeros k && negb (treehash && negb (buf_is_zero cbuf)))
    (if ws then buf_write m cbuf (sha_buf k) else sha_buf k) c).
Proof.
  intros [] Hm Hmm Er Hr Hc.
  assert (Hcb : zlen cbuf = r) by (unfold cbuf; apply zlen_zsub; lia).
  assert (Et : ztake (m + r) b = ztake m b ++ cbuf) by (apply ztake_add; lia).
  assert (Hzm : zlen (ztake m b) = m) by (rewrite zlen_ztake; lia). assert (HSB : SB < 2 ^ 31) by done.
  split; cbn [big_hash small_hash buf_read all_zeros sha_buf cpy]; rewrite ?Et.
  - apply update_of; [done|]. lia.
  - rewrite ck_small0, cut_snoc by (rewrite ?Hzm; lia || done). rewrite map_app, words_app. f_equal.
    rewrite <- Hcb, adler_first by lia. unfold words. cbn [map concat]. by rewrite app_nil_r.
  - lia.
  - intros Ht. rewrite ck_zero0, buf_is_zero_app, Ht by done. cbn [andb]. by rewrite negb_involutive.
  - intros Hw. rewrite Hw. destruct (ck_sha0 Hw) as [H1' H2']. rewrite zlen_buf_write, Hcb by lia. split; [lia|].
    rewrite <- Hcb at 1. rewrite buf_write_prefix by lia. by rewrite H2'.
  - done.
Qed.

Lemma small_blocks_ok fuel : forall o k, 0 <= o -> o mod SB = 0 -> zlen b - o <= SB * Z.of_nat fuel ->
  chunk_at (Z.min o (zlen b)) k ->
  exists pos' k', small_blocks cb fuel treehash ws inplace old buf (zlen b) N (start + o) (start + D) o k = Done (pos', k') /\
    chunk_at (zlen b) k' /\ (zlen b = D -> o <= D -> pos' = start + D) /\ (zlen b < D -> N <= pos').
Proof.
  assert (Hd : D = 128 * SB) by apply D_small.
  induction fuel as [|fuel IH]; intros o k Ho Hom Hf Hk; cbn [small_blocks].
  - assert (E : (start + o <? start + D) && (start + o <? N) = false).
    { destruct (Z.ltb_spec (start + o) (start + D)), (Z.ltb_spec (start + o) N); try done; lia. }
    rewrite E. rewrite Z.min_r in Hk by lia. exists (start + o), k. split; [done|]. split; [done|]. split; lia.
  - destruct (Z.lt_ge_cases o (zlen b)) as [Hlt|Hge].
    2:{ assert (E : (start + o <? start + D) && (start + o <? N) = false).
        { destruct (Z.ltb_spec (start + o) (start + D)), (Z.ltb_spec (start + o) N); try done; lia. }
        rewrite E. rewrite Z.min_r in Hk by lia. exists (start + o), k. split; [done|]. split; [done|]. split; lia. }
    rewrite (proj2 (Z.ltb_lt _ _)), (proj2 (Z.ltb_lt _ _)) by lia. cbn [andb]. rewrite Z.min_l in Hk by lia.
    assert (HD32 : D < 2 ^ 31) by done. rewrite w32_id by lia. change c_small_hash_dist with SB.
    set (r := Z.min SB (zlen b - o)). assert (Hr : 0 < r <= SB /\ r <= zlen b - o) by (unfold r, SB in *; lia).
    rewrite buf_piece by lia. set (cbuf := zsub o r b). assert (Hcb : zlen cbuf = r) by (unfold cbuf; apply zlen_zsub; lia).
    assert (Esm : zlen (small_hash k) = 4 * (o / SB)).
    { assert (Ho2 : zlen (ztake o b) = o) by (rewrite zlen_ztake; lia).
      rewrite (ck_small _ _ Hk), zlen_words, zlen_map, zlen_cut_whole; rewrite Ho2; done. }
    rewrite Esm. assert (Ead : urb_adler32 (urb_adler32 0 None 0) (Some cbuf) r = adler cbuf) by (rewrite <- Hcb; apply adler_first; unfold SB in *; lia).
    rewrite Ead. destruct (Hstep o r (big_hash_copy_control k) (cpy k)) as (control & c & E & Hc); [done|done|done|lia|exact (ck_copy _ _ Hk)|].
    fold cbuf in E. rewrite E. cbn [rbind]. rewrite <- Ead.
    assert (Epos : (start + o) mod D = o).
    { rewrite Z.add_mod, Hmod, Z.add_0_l, Z.mod_mod by done. apply Z.mod_small. lia. }
    rewrite Epos. replace (start + o + SB) with (start + (o + SB)) by lia.
    pose proof (chunk_step o r k control c Hk Ho Hom eq_refl ltac:(lia) Hc) as Hk'.
    destruct (IH (o + SB)) with (k := mkChunk (MD5.update (big_hash k) cbuf) control
      (small_hash k ++ le_bytes 4 (urb_adler32 (urb_adler32 0 None 0) (Some cbuf) r)) (buf_read k + r)
      (all_zeros k && negb (treehash && negb (buf_is_zero cbuf)))
      (if ws then buf_write o cbuf (sha_buf k) else sha_buf k) c) as (pos' & k' & E' & Hk2 & H1' & H2').
    + unfold SB in *. lia.
    + replace (o + SB) with (o + 1 * SB) by lia. by rewrite Z.mod_add.
    + unfold SB in *. lia.
    + replace (Z.min (o + SB) (zlen b)) with (o + r) by (unfold r; lia). exact Hk'.
    + exists pos', k'. split; [exact E'|]. split; [done|]. split; [|done]. intros Hfull Hle. apply H1'; [done|].
      destruct (decide (o + SB <= D)); [done|]. exfalso. rewrite Hd in *.
      apply Z.mod_divide in Hom; [|done]. destruct Hom as [q ->]. unfold SB in *. lia.
Qed.
End Chunk.

(** *** Without the chunk hashes of an older version *)

Definition copy_new (inplace : bool) (L start : Z) (c0 : copying F) (m : Z) (control : MD5.t) (c : copying F) : Prop :=
  match copy c0 with
  | None => copy c = None
  | Some _ => if inplace then exists cf, copy c = Some cf /\ copied L (start + m) cf c /\ copy_sparse_extent_start c = copy_sparse_extent_start c0
              else c = c0
  end.
Lemma copy_new_step inplace L b start c0 o r control c (cbuf := zsub o r b) :
  0 <= start -> b = zsub start D new -> zlen b = Z.min D (N - start) ->
  0 <= o -> r = Z.min SB (zlen b - o) -> 0 < r -> copy_new inplace L start c0 o control c ->
  exists control' c', (if inplace then inplace_small cb None (le_bytes 4 (adler cbuf)) cbuf control c else Done (control, c)) = Done (control', c') /\
    copy_new inplace L start c0 (o + r) control' c'.
Proof.
  intros Hst Hb Hl Ho Er Hr Hc. assert (Hcb : zlen cbuf = r) by (unfold cbuf; apply zlen_zsub; lia).
  assert (Ecb : cbuf = zsub (start + o) r new).
  { unfold cbuf. rewrite Hb. apply zsub_zsub; lia. }
  unfold copy_new in *. destruct inplace; [|by do 2 eexists]. destruct (copy c0).
  - destruct Hc as (cf & Ec & Hc & Hs).
    destruct (inplace_small_ok L (start + o) cf c cbuf (le_bytes 4 (adler cbuf)) control) as (cf' & c' & E & Ec' & Hc' & Hs'); try done; try lia.
    { rewrite Hcb. exact Ecb. }
    do 2 eexists. split; [exact E|]. exists cf'. rewrite Hcb in Hc'. rewrite Hs', Hs. by replace (start + (o + r)) with (start + o + r) by lia.
  - do 2 eexists. unfold inplace_small. rewrite Hc. by split.
Qed.
End Build.
