(* ===== verification/ChunkLoop.v ===== *)
(** [build_chunk_hashs], chunk by chunk: the hash output file, the copy and the hash
    function after the chunks before a position. *)
From S2P Require Import Prelude MemFile ExtentIter ChunkPatcher Adler BlockHash Md5 PatchApply PatchLoop PatchBuild PatchHash TreeHash TreeRoot TreeSpec ChunkHasher ChunkSpec.

Notation D := c_checkpoint_dist.
#[local] Opaque md5_spec.

(** What the hash function is given for a block: its contents, or its chunk hashes. *)
Definition given {H} `{IHashFunc H} (treehash : bool) : IHashFunc H := {|
  hash h b := if treehash then addHashAllAdler h (all_adlers b) (zlen b) else hash h b;
  sparse_hash := sparse_hash;
  addHashAllAdler := addHashAllAdler |}.
Definition chunked_file_hash {H} `{IHashFunc H} (treehash : bool) (b : bytes) (h0 : H) : H := @file_hash H (given treehash) b h0.

Section Loop.
Context {F H : Type} `{FileLaws F} `{!IFsFile F} `{!PunchLaws F} `{IHashFunc H}.
Context (sparse_hashes : bytes) (md5_mem : MD5.t) (chunk_mem : bytes) (cb : option (F -> bool)).
Context (Hmem : zlen (MD5.buffer md5_mem) = 64) 
  (Hsparse : forall b, zlen b = D -> (forall i, 0 <= i < zlen b -> znth nul b i = nul) -> all_adlers b = sparse_hashes).
Context (new : bytes).
Notation N := (zlen new).
Context (bs : Z) (l : list SSparseExtent) (rest : bytes).
Notation es := (shrunk bs l).
Context (Hnew : forall q, in_ext es q -> znth nul new q = nul).
Context (treehash inplace : bool) (L : Z) (h0 : option H) (has_copy : bool).

Notation hashed := (@blocks_hash H (given treehash) new).

(** ** Hashing a chunk *)

Lemma flush_given start p h : flush_extent start p h = @flush H (given treehash) start p h.
Proof. reflexivity. Qed.

Lemma hash_chunk_ok n b (k : chunk F) J start h0' h :
  b = zsub (Z.of_nat n * D) D new -> zlen b = Z.min D (N - Z.of_nat n * D) -> 0 < zlen b ->
  chunk_at treehash (negb treehash) b J (zlen b) k ->
  hashed h0' n = (start, h) ->
  hash_chunk treehash (Z.of_nat n * D) (md5_spec b) k start h =
    if zlen b =? D then hashed h0' (S n)
    else (-1, @hash H (given treehash) (@flush H (given treehash) start (Z.of_nat n * D) h) b).
Proof.
  intros Eb Hl Hp [] Hh. unfold hash_chunk. rewrite !flush_given, ck_read, Z.quot_mul by done.
  rewrite ztake_ge in * by lia. rewrite ck_small. change (md5_spec b ++ words (map adler (cut SB b))) with (all_adlers b).
  destruct (Z.eqb_spec (zlen b) D) as [Ef|Ef].
  - cbn [blocks_hash]. change (zsub (Z.of_nat n * sparse_blocksize) sparse_blocksize new) with (zsub (Z.of_nat n * D) D new).
    rewrite <- Eb. unfold block_step. rewrite Hh. cbn [fst snd].
    assert (Ed : treehash = false -> buf_sub 0 D (sha_buf k) = b).
    { intros Ht. rewrite Ht in ck_sha. destruct (ck_sha eq_refl) as [H1' H2']. rewrite (ztake_ge _ b) in H2' by lia. rewrite buf_sub_in by lia. unfold zsub. rewrite zdrop_0, <- Ef. exact H2'. }
    assert (Ez : (if treehash then all_zeros k else buf_is_zero (buf_sub 0 D (sha_buf k))) = buf_is_zero b).
    { destruct treehash; [by apply ck_zero|rewrite Ed; reflexivity]. }
    rewrite Ez. destruct (buf_is_zero b); [reflexivity|]. cbn [hash given]. destruct treehash; [rewrite Ef; reflexivity|rewrite Ed; reflexivity].
  - cbn [hash given]. destruct treehash; [reflexivity|]. destruct (ck_sha eq_refl) as [H1' H2']. rewrite (ztake_ge _ b) in H2' by lia.
    rewrite buf_sub_in by lia. unfold zsub. rewrite zdrop_0, H2'. reflexivity.
Qed.

(** ** The copy *)

Lemma zero_extent_ok fuel : forall f sz w, 0 <= w -> w <= sz -> sz - w <= 32768 * Z.of_nat fuel ->
  exists f', zero_extent cb fuel f sz w = Done f' /\
    zlen (contents f') = (if w =? sz then zlen (contents f) else Z.max (zlen (contents f)) (fpos f + (sz - w))) /\
    forall i, 0 <= i -> znth nul (contents f') i = if (fpos f <=? i) && (i <? fpos f + (sz - w)) then nul else znth nul (contents f) i.
Proof.
  induction fuel as [|fuel IH]; intros f sz w Hw Hle Hf; cbn [zero_extent]; pose proof (fpos_nonneg f).
  - assert (w = sz) as -> by lia. rewrite Z.leb_refl, Z.eqb_refl. exists f. split_and!; [done|done|]. intros i Hi.
    destruct (Z.leb_spec (fpos f) i), (Z.ltb_spec i (fpos f + (sz - sz))); try done; lia.
  - destruct (Z.eqb_spec w sz) as [->|Hne].
    { rewrite Z.leb_refl. exists f. split_and!; [done|done|]. intros i Hi.
      destruct (Z.leb_spec (fpos f) i), (Z.ltb_spec i (fpos f + (sz - sz))); try done; lia. }
    rewrite (proj2 (Z.leb_gt _ _)) by lia. remember (Z.min (sz - w) 32768) as n eqn:En. assert (Hn : 0 < n <= sz - w /\ n < 2 ^ 32) by lia.
    assert (Ln : zlen (replicate (Z.to_nat n) nul) = n) by (apply zlen_replicate; lia).
    destruct (write_repeat_ok cb f (replicate (Z.to_nat n) nul)) as (f1 & -> & Hc & Hp); [lia|]. rewrite Ln in Hp. cbn [rbind].
    destruct (IH f1 sz (w + n)) as (f' & -> & Hl & Hz); [lia|lia|lia|]. exists f'. split; [done|]. rewrite Hp, Hc in *.
    rewrite zlen_file_write, Ln in Hl by lia. split; [rewrite Hl; zcase; lia|].
    intros i Hi. rewrite Hz, znth_write, Ln by lia. rewrite znth_replicate_nul. repeat (zcase; cbn [andb]; try done; try lia).
Qed.

(** Up to [p]; inside the extent [e] the copy is zero already. *)
Definition copy_inv (p : Z) (e : SSparseExtent) (c : copying F) : Prop :=
  if has_copy then
    exists cf, copy c = Some cf /\ copied new L p cf c /\ (inplace = false -> fpos cf = p) /\
      (copy_sparse_extent_start c <> -1 -> p <= offset e + size e /\
        (forall i, p <= i < Z.min N (offset e + size e) -> znth nul (contents cf) i = nul) /\
        (Z.min N (offset e + size e) <= zlen (contents cf) \/ Z.min N (offset e + size e) <= copy_max_sparse c))
  else copy c = None.

Lemma copied_skip p q cf cf' c c' :
  copied new L p cf c -> p <= q <= N -> contents cf' = contents cf -> copy_write_pos c' = q -> copy_max_sparse c' = copy_max_sparse c ->
  (forall i, p <= i < q -> znth nul (contents cf) i = nul /\ znth nul new i = nul) ->
  q <= zlen (contents cf) \/ q <= copy_max_sparse c ->
  copied new L q cf' c'.
Proof.
  intros [] Hq Hc Hp Hm Hz He. split; rewrite ?Hc, ?Hm; try done.
  intros i Hi. destruct (Z.lt_ge_cases i p); [apply cp_eq; lia|]. destruct (Hz i) as [-> ->]; [lia|done].
Qed.

Lemma copy_extent_ok p e c :
  copy_inv p e c -> 0 <= p -> 0 <= offset e <= p -> p + D <= offset e + size e -> p + D <= N ->
  (forall q, offset e <= q < offset e + size e -> znth nul new q = nul) ->
  exists c', copy_extent cb N p e c = Done c' /\
    if has_copy then exists cf, copy c' = Some cf /\ copied new L p cf c' /\ copy_sparse_extent_start c' <> -1 /\
        (forall i, p <= i < Z.min N (offset e + size e) -> znth nul (contents cf) i = nul) /\
        (Z.min N (offset e + size e) <= zlen (contents cf) \/ Z.min N (offset e + size e) <= copy_max_sparse c')
    else copy c' = None.
Proof.
  intros Hc Hp Ho He HN Hz. unfold copy_extent, copy_inv in *. assert (HD : 0 < D) by done.
  destruct (Z.eqb_spec (copy_sparse_extent_start c) (-1)) as [Es|Es]; cbn [negb].
  2:{ exists c. split; [done|]. destruct has_copy; [|done]. destruct Hc as (cf & Ec & Hc & _ & Hs). exists cf.
      destruct (Hs Es) as (_ & ? & ?). by split_and!. }
  rewrite (proj2 (Z.ltb_lt _ _)) by lia. cbn [copy copy_write_pos copy_read_eof copy_max_sparse inplace_written].
  set (sz := if N <? offset e + size e then N - offset e else size e).
  assert (Esz : offset e + sz = Z.min N (offset e + size e)) by (unfold sz; zcase; lia).
  destruct has_copy.
  2:{ rewrite Hc. eexists. split; [reflexivity|done]. }
  destruct Hc as (cf & Ec & Hc & _ & _). rewrite Ec. pose proof (punch_size cf (offset e) sz ltac:(lia) ltac:(lia)) as Hl.
  pose proof (punch_ok cf (offset e) sz) as Hok. pose proof (punch_fails cf (offset e) sz) as Hfail.
  assert (Hin : forall i, p <= i < Z.min N (offset e + size e) -> (offset e <=? i) && (i <? offset e + sz) = true).
  { intros i Hi. rewrite (proj2 (Z.leb_le _ _)), (proj2 (Z.ltb_lt _ _)) by lia. done. }
  assert (Heq : forall cf', (forall i, 0 <= i -> znth nul (contents cf') i = if (offset e <=? i) && (i <? offset e + sz) then nul else znth nul (contents cf) i) ->
     forall i, 0 <= i < p -> znth nul (contents cf') i = znth nul new i).
  { intros cf' Hcf i Hi. rewrite Hcf by lia. destruct (Z.leb_spec (offset e) i); cbn [andb]; [|by apply (cp_eq _ _ _ _ _ Hc)].
    destruct (Z.ltb_spec i (offset e + sz)); [|by apply (cp_eq _ _ _ _ _ Hc)]. symmetry. apply Hz. lia. }
  destruct (PunchHole cf (offset e) sz) as [[|] cf1]; cbn [fst snd] in *.
  - specialize (fun i => Hok i ltac:(lia) ltac:(lia) eq_refl). eexists. split; [reflexivity|]. exists cf1. split; [done|].
    split; [|split; [cbn; lia|split; [intros i Hi; by rewrite Hok, Hin|right; cbn; lia]]].
    destruct Hc. split; cbn [copy_write_pos copy_max_sparse]; [done|lia|by apply Heq|right; lia|lia].
  - specialize (Hfail eq_refl). destruct (seek_law cf1 (offset e)) as (E & Esk & Epos); [lia|]. unfold guard at 1.
    rewrite E. cbn [rbind]. destruct (zero_extent_ok (S (Z.to_nat (sz / 32768))) (snd (Seek cf1 (offset e))) sz 0) as (cf2 & -> & Hl2 & Hz2); [lia|lia| |].
    { pose proof (Z.div_mod sz 32768 ltac:(lia)). pose proof (Z.mod_pos_bound sz 32768 ltac:(lia)).
      pose proof (Z.div_pos sz 32768 ltac:(lia) ltac:(lia)). lia. }
    cbn [rbind]. rewrite Esk, Hfail, Epos, Z.sub_0_r in *. rewrite (proj2 (Z.eqb_neq _ _)) in Hl2 by lia.
    eexists. split; [reflexivity|]. exists cf2. split; [done|].
    split; [|split; [cbn; lia|split; [intros i Hi; rewrite Hz2, Hin by lia; done|left; lia]]].
    destruct Hc. split; cbn [copy_write_pos copy_max_sparse]; [done|lia|by apply Heq|lia|lia].
Qed.

Lemma copy_skip_ok p e c c0 :
  copy_inv p e c0 -> 0 <= p -> 0 <= offset e <= p -> p + D <= offset e + size e -> p + D <= N ->
  (forall q, offset e <= q < offset e + size e -> znth nul new q = nul) ->
  copy_extent cb N p e c0 = Done c ->
  exists c', copy_skip c = Done c' /\ copy_inv (p + D) e c'.
Proof.
  intros Hc0 Hp Ho He HN Hz E. assert (HD : 0 < D) by done. destruct (copy_extent_ok p e c0) as (c1 & E1 & Hc); try done.
  rewrite E in E1. injection E1 as <-. unfold copy_skip, copy_inv. destruct has_copy.
  - destruct Hc as (cf & Ec & Hc & Hs & Hzero & Hend). rewrite Ec, (cp_pos _ _ _ _ _ Hc).
    destruct (seek_law cf (p + D)) as (E2 & Esk & Epos); [lia|]. unfold guard. rewrite E2. cbn [rbind].
    eexists. split; [reflexivity|]. eexists. split; [reflexivity|]. rewrite Esk, Epos. split_and!; [|done|].
    + eapply (copied_skip p (p + D) cf); try done; [lia| |lia]. intros i Hi. split; [apply Hzero; lia|apply Hz; lia].
    + intros _. split; [lia|]. split; [|done]. intros i Hi. apply Hzero. lia.
  - rewrite Hc. cbn [rbind]. by eexists.
Qed.

(** ** A chunk that is read *)

Definition out_inv (p : Z) (o : F) : Prop :=
  contents o = le_bytes 8 (w64 N) ++ concat (map all_adlers (cut D (ztake p new))) /\ fpos o = zlen (contents o).
Definition hash_inv (n : nat) (start : Z) (h : option H) : Prop :=
  match h0 with None => h = None | Some x => exists h1, h = Some h1 /\ hashed x n = (start, h1) end.
(** After an incomplete last chunk. *)
Definition hash_done (start : Z) (h : option H) : Prop :=
  match h0 with None => h = None | Some x => start = -1 /\ h = Some (chunked_file_hash treehash new x) end.
Definition copy_done (c : copying F) : Prop :=
  if has_copy then exists cf, copy c = Some cf /\ copied new L N cf c else copy c = None.

Lemma out_write p b o :
  out_inv p o -> 0 <= p -> p mod D = 0 -> p <= N -> b = zsub p D new -> 0 < zlen b <= D ->
  exists o', write_repeat cb o (all_adlers b) = Done o' /\ out_inv (p + D) o'.
Proof.
  intros [Hc Hp] H0p Hm HpN Hb Hl.
  assert (Hz : zlen (all_adlers b) = 16 + 4 * zlen (cut SB b)).
  { unfold all_adlers. by rewrite zlen_app, zlen_md5_spec, zlen_words, zlen_map. }
  assert (Hcut : 0 <= zlen (cut SB b) <= 128).
  { split; [apply zlen_nonneg|]. unfold zlen at 1. rewrite cut_length; [|done|intros ->; change (zlen (@nil ascii)) with 0 in Hl; lia].
    apply Z.lt_succ_r, Z.div_lt_upper_bound; [done|]. unfold SB, c_checkpoint_dist in *. lia. }
  destruct (write_repeat_ok cb o (all_adlers b)) as (o' & -> & Ec & Ep); [lia|]. exists o'. split; [done|].
  rewrite Hp, file_write_end in Ec. split; [|by rewrite Ec, Ep, Hp, zlen_app].
  rewrite Ec, Hc, <- app_assoc. f_equal. rewrite ztake_add, <- Hb by done.
  rewrite cut_app_whole, (cut_piece D b), map_app, concat_app; [cbn [map concat]; by rewrite app_nil_r|..].
  - intros ->. change (zlen (@nil ascii)) with 0 in Hl. lia.
  - lia.
  - done.
  - rewrite zlen_ztake by lia. by rewrite Z.min_l by lia.
Qed.

(** The copying state at the start of a chunk that is read. *)
Definition no_extent_run (c : copying F) : copying F :=
  mkCopying (copy c) (copy_write_pos c) (copy_read_eof c) (-1) (copy_max_sparse c) (inplace_written c).

Lemma chunk_start ws b J ctl sha (c : copying F) : J 0 ctl c -> chunk_at treehash ws b J 0 (mkChunk (MD5.init md5_mem) ctl [] 0 true sha c).
Proof.
  intros Hc. split; cbn [big_hash small_hash buf_read all_zeros sha_buf cpy big_hash_copy_control]; rewrite ?ztake_0.
  - apply init_of, Hmem.
  - rewrite cut_nil. reflexivity.
  - reflexivity.
  - reflexivity.
  - intros _. split; [apply zlen_nonneg|reflexivity].
  - exact Hc.
Qed.

Lemma blocks_ok ws old J p buf b sha c :
  0 <= p -> p < N -> p mod D = 0 -> b = zsub p D new -> zlen b = Z.min D (N - p) -> ztake (zlen b) buf = b -> J 0 (MD5.init md5_mem) c ->
  (forall o r control c (cbuf := zsub o r b), 0 <= o -> o mod SB = 0 -> r = Z.min SB (zlen b - o) -> 0 < r -> J o control c ->
    exists control' c', (if inplace then
        inplace_small cb ((fun h => zsub (big_hash_size + 4 * (o / SB)) small_hash_size h) <$> old) (le_bytes 4 (adler cbuf)) cbuf control c
      else Done (control, c)) = Done (control', c') /\ J (o + r) control' c') ->
  exists p' k, small_blocks cb (Z.to_nat (D / c_small_hash_dist)) treehash ws inplace old buf (zlen b) N p (p + D) 0
      (mkChunk (MD5.init md5_mem) (MD5.init md5_mem) [] 0 true sha c) = Done (p', k) /\
    chunk_at treehash ws b J (zlen b) k /\ (zlen b = D -> p' = p + D) /\ (zlen b < D -> N <= p').
Proof.
  intros Hp0 HpN Hm Hb Hl Hbuf HJ Hstep. pose proof D_pos as HD.
  pose proof (chunk_start ws b J (MD5.init md5_mem) sha c HJ) as Hk.
  destruct (small_blocks_ok cb new treehash ws inplace old buf b p J) with (fuel := Z.to_nat (D / c_small_hash_dist)) (o := 0)
    (k := mkChunk (MD5.init md5_mem) (MD5.init md5_mem) [] 0 true sha c) as (p' & k & E & Hk' & H1' & H2').
  - exact Hm.
  - exact Hb.
  - exact Hl.
  - lia.
  - exact Hbuf.
  - exact Hstep.
  - lia.
  - reflexivity.
  - rewrite Z2Nat.id by (apply Z.div_pos; [lia|reflexivity]). change (SB * (D / c_small_hash_dist)) with D. lia.
  - rewrite Z.min_l by lia. exact Hk.
  - rewrite Z.add_0_r in E. exists p', k. split; [exact E|]. split; [exact Hk'|]. split; [|exact H2']. intros Hf. apply H1'; [exact Hf|lia].
Qed.

(** The hash function after a chunk. *)
Lemma hash_step n b (k : chunk F) J st h (p := Z.of_nat n * D) :
  p < N -> b = zsub p D new -> chunk_at treehash (with_sha treehash h) b J (zlen b) k -> hash_inv n st h ->
  exists st' h', (match h with
       | Some h => let '(start, h) := hash_chunk treehash p (md5_spec b) k st h in (start, Some h)
       | None => (st, None)
       end) = (st', h') /\
    if p + D <=? N then hash_inv (S n) st' h' else hash_done st' h'.
Proof.
  intros HpN Hb Hk Hh. pose proof D_pos as HD. assert (Hp0 : 0 <= p) by (unfold p; lia).
  assert (Hl : zlen b = Z.min D (N - p)) by (subst b; unfold zsub; rewrite zlen_ztake, zlen_zdrop; lia).
  unfold hash_inv, hash_done in *. destruct h0 as [x|].
  2:{ rewrite Hh. exists st, None. split; [reflexivity|]. destruct (p + D <=? N); reflexivity. }
  destruct Hh as (h1 & -> & Eh). cbn [with_sha] in Hk.
  pose proof (hash_chunk_ok n b k J st x h1 Hb Hl ltac:(lia) Hk Eh) as Ec. fold p in Ec. rewrite Ec. clear Ec.
  destruct (Z.leb_spec (p + D) N) as [Hfull|Hpart].
  - rewrite (proj2 (Z.eqb_eq (zlen b) D)) by lia. destruct (hashed x (S n)) as [st' h'] eqn:E.
    exists st', (Some h'). split; [reflexivity|]. exists h'. split; reflexivity.
  - rewrite (proj2 (Z.eqb_neq (zlen b) D)) by lia. eexists _, _. split; [reflexivity|]. split; [reflexivity|]. f_equal.
    assert (En : N / D = Z.of_nat n) by (symmetry; apply Z.div_unique with (N - p); lia).
    assert (Em : N mod D = N - p) by (rewrite Z.mod_eq by lia; rewrite En; lia).
    unfold chunked_file_hash, file_hash. change sparse_blocksize with D. rewrite En, Nat2Z.id, Eh, Em, (proj2 (Z.ltb_lt 0 (N - p))) by lia.
    f_equal. rewrite Hb. unfold zsub. rewrite ztake_ge; [reflexivity|]. rewrite zlen_zdrop by lia. lia.
Qed.

(** The copy after a chunk has been read. *)
Definition copy_tail (b buf : bytes) (c : copying F) : result (copying F) :=
  match copy c with
  | Some cf =>
      if inplace then Done c
      else
        let* cf := write_repeat cb cf (buf_sub 0 (zlen b) buf) in
        Done (mkCopying (Some cf) (copy_write_pos c + zlen b) (copy_read_eof c) (copy_sparse_extent_start c) (copy_max_sparse c) (inplace_written c))
  | None => Done c
  end.
(** What the rest of the copy was digested to. *)
Definition control_ok (old : option bytes) (control : MD5.t) : Prop :=
  match old with Some h => exists ob, md5_of ob control /\ ztake big_hash_size h = md5_spec ob | None => True end.

(** After a chunk at [p]: [p'] is the next position, [Q] holds of the copy. *)
Definition chunk_done (n : nat) (Q : copying F -> Prop) (s : state F H) (p p' : Z) (s' : state F H) : Prop :=
  contents (st_f s') = new /\ chunk_hashes s' = chunk_hashes s /\ extents s' = extents s /\ curr_extent s' = curr_extent s /\ st_in s' = st_in s /\
  hashoutputpos s' = hashoutputpos s + zlen (all_adlers (zsub p D new)) /\ out_inv (p + D) (st_out s') /\ Q (copy_state s') /\
  if p + D <=? N then p' = p + D /\ fpos (st_f s') = p + D /\ hash_inv (S n) (sparse_extent_start s') (st_hash s')
  else N <= p' /\ hash_done (sparse_extent_start s') (st_hash s').

(** [J] as in [small_blocks_ok]. *)
Lemma data_chunk_gen n s J Q b (p := Z.of_nat n * D) :
  p < N -> b = zsub p D new -> contents (st_f s) = new -> fpos (st_f s) = p -> out_inv p (st_out s) -> hash_inv n (sparse_extent_start s) (st_hash s) ->
  J 0 (MD5.init md5_mem) (no_extent_run (copy_state s)) ->
  (forall o r control c (cbuf := zsub o r b), 0 <= o -> o mod SB = 0 -> r = Z.min SB (zlen b - o) -> 0 < r -> J o control c ->
    exists control' c', (if inplace then
        inplace_small cb ((fun h => zsub (big_hash_size + 4 * (o / SB)) small_hash_size h) <$> chunk_hashes s) (le_bytes 4 (adler cbuf)) cbuf control c
      else Done (control, c)) = Done (control', c') /\ J (o + r) control' c') ->
  (forall buf control c, ztake (zlen b) buf = b -> J (zlen b) control c ->
    exists c', copy_tail b buf c = Done c' /\ Q c' /\ control_ok (chunk_hashes s) control) ->
  exists p' s', data_chunk md5_mem cb treehash inplace N p (p + D) s = Done (p', s') /\ chunk_done n Q s p p' s'.
Proof.
  intros HpN Hb Hf Hfp Hout Hh HJ Hstep Hend. pose proof D_pos as HD. assert (Hp0 : 0 <= p) by (unfold p; lia).
  assert (Hm : p mod D = 0) by (apply Z.mod_mul; lia).
  assert (Hl : zlen b = Z.min D (N - p)) by (subst b; unfold zsub; rewrite zlen_ztake, zlen_zdrop; lia).
  unfold data_chunk. destruct (read_law (st_f s) D) as (Er & Ec & Ep); [lia|]. rewrite Hf, Hfp, file_read_zsub, <- Hb in *.
  destruct (Read (st_f s) D) as [[r err] f']. cbn [fst snd] in Er, Ec, Ep. injection Er as -> ->.
  remember (buf_write 0 b (st_buf s)) as buf eqn:Ebuf.
  assert (Hbuf : ztake (zlen b) buf = b).
  { pose proof (zlen_nonneg (st_buf s)). rewrite Ebuf, <- (Z.add_0_l (zlen b)), buf_write_prefix, ztake_0 by lia. reflexivity. }
  destruct (blocks_ok (with_sha treehash (st_hash s)) (chunk_hashes s) J p buf b (st_sha s) (no_extent_run (copy_state s)) Hp0 HpN Hm Hb Hl Hbuf HJ Hstep)
    as (p1 & k & E & Hk & H1' & H2'). unfold no_extent_run in E at 1. rewrite E. clear E. cbn [rbind].
  destruct (Hend buf (big_hash_copy_control k) (cpy k) Hbuf (ck_copy _ _ _ _ _ _ Hk)) as (c' & Et & HQ & Hctl). unfold copy_tail in Et. rewrite Et. clear Et. cbn [rbind].
  pose proof (ck_big _ _ _ _ _ _ Hk) as Hbig. rewrite ztake_ge in Hbig by lia.
  destruct (finalize_of _ _ Hbig) as (E1 & E2 & _). unfold MD5.raw_digest_int at 1. rewrite E1, E2.
  destruct (hash_step n b k _ _ _ HpN Hb Hk Hh) as (st' & h' & Eh & Hh'). fold p in Eh, Hh'. rewrite Eh. clear Eh.
  assert (Esm : md5_spec b ++ small_hash k = all_adlers b).
  { rewrite (ck_small _ _ _ _ _ _ Hk), ztake_ge by lia. reflexivity. }
  rewrite Esm. destruct (out_write p b (st_out s) Hout Hp0 Hm ltac:(lia) Hb ltac:(lia)) as (o' & -> & Ho'). cbn [rbind].
  set (k' := mkChunk _ _ _ _ _ _ _). assert (Ek : check_control cb (copy_write_pos (copy_state s)) (p + D) p1 k' (chunk_hashes s) inplace f' buf = Done (p1, f', buf, c')).
  { unfold check_control. cbn [cpy k']. destruct (copy c'), (chunk_hashes s) as [h|]; try reflexivity. destruct inplace; [|reflexivity].
    destruct Hctl as (ob & Hob & Eob). destruct (finalize_of _ _ Hob) as (E3 & E4 & _). unfold MD5.raw_digest_int. cbn [big_hash_copy_control k'].
    rewrite E3, E4, <- Eob, bool_decide_true by reflexivity. reflexivity. }
  rewrite Ek. cbn [rbind]. eexists _, _. split; [reflexivity|]. unfold chunk_done.
  cbn [st_f chunk_hashes extents curr_extent st_in st_out sparse_extent_start st_hash copy_state hashoutputpos]. change (small_hash k') with (small_hash k). rewrite Esm, <- Hb.
  split_and!; try reflexivity; try assumption. destruct (Z.leb_spec (p + D) N).
  - split; [apply H1'; lia|]. split; [lia|exact Hh'].
  - split; [apply H2'; lia|exact Hh'].
Qed.

(** *** Without the chunk hashes of an older version *)

Definition copy_post (p : Z) (e : SSparseExtent) (c : copying F) : Prop := if p + D <=? N then copy_inv (p + D) e c else copy_done c.

Lemma copy_tail_ok b p e c buf control c2 :
  0 <= p < N -> b = zsub p D new -> ztake (zlen b) buf = b -> copy_inv p e c ->
  copy_new new inplace L p (no_extent_run c) (zlen b) control c2 ->
  exists c', copy_tail b buf c2 = Done c' /\ copy_post p e c'.
Proof.
  intros Hp Hb Hbuf Hc Hk. pose proof D_pos as HD. unfold copy_post, copy_tail.
  assert (Hl : zlen b = Z.min D (N - p)) by (subst b; unfold zsub; rewrite zlen_ztake, zlen_zdrop; lia).
  assert (Hfin : forall cf c', copy c' = Some cf -> copied new L (p + zlen b) cf c' -> (inplace = false -> fpos cf = p + zlen b) ->
      copy_sparse_extent_start c' = -1 -> has_copy = true -> if p + D <=? N then copy_inv (p + D) e c' else copy_done c').
  { intros cf c' Ec Hcp Hpos Hst Hhas. unfold copy_inv, copy_done. rewrite Hhas. destruct (Z.leb_spec (p + D) N).
    - replace (p + D) with (p + zlen b) by lia. exists cf. split; [exact Ec|]. split; [exact Hcp|]. split; [exact Hpos|]. rewrite Hst. intros []. reflexivity.
    - exists cf. split; [exact Ec|]. replace (p + zlen b) with N in Hcp by lia. exact Hcp. }
  unfold copy_inv in Hc. unfold copy_new in Hk. destruct has_copy eqn:Ehas.
  - destruct Hc as (cf & Ec & Hcp & Hpos & _). cbn [no_extent_run copy] in Hk. rewrite Ec in Hk. destruct inplace.
    + destruct Hk as (cf' & Ec' & Hcp' & Hst). rewrite Ec'. exists c2. split; [reflexivity|].
      apply (Hfin cf'); [exact Ec'|exact Hcp'|intros [=]|exact Hst|reflexivity].
    + rewrite Hk. cbn [no_extent_run copy copy_write_pos copy_read_eof copy_sparse_extent_start copy_max_sparse inplace_written]. rewrite Ec.
      assert (Hsub : buf_sub 0 (zlen b) buf = b).
      { assert (zlen b <= zlen buf) by (rewrite <- Hbuf at 1; rewrite zlen_ztake by lia; lia).
        rewrite buf_sub_in by lia. unfold zsub. rewrite zdrop_0. exact Hbuf. }
      assert (D < 2 ^ 32) by reflexivity.
      rewrite Hsub. destruct (write_repeat_ok cb cf b) as (cf' & -> & Ew & Ep); [lia|]. cbn [rbind]. rewrite (Hpos eq_refl) in *.
      rewrite (cp_pos _ _ _ _ _ Hcp). eexists. split; [reflexivity|]. apply (Hfin cf'); [reflexivity| |intros _; exact Ep|reflexivity|reflexivity].
      apply (copied_write new L p cf c b cf'); [exact Hcp|lia|lia| |exact Ew].
      rewrite Hb at 1. unfold zsub. apply (list_eq_znth nul); [rewrite !zlen_ztake, zlen_zdrop by lia; lia|].
      intros i Hi. rewrite zlen_ztake, zlen_zdrop in Hi by lia. rewrite !znth_ztake by lia. reflexivity.
  - cbn [no_extent_run copy] in Hk. rewrite Hc in Hk. exists c2. rewrite Hk. split; [reflexivity|].
    unfold copy_inv, copy_done. rewrite Ehas. destruct (p + D <=? N); exact Hk.
Qed.

Lemma data_chunk_ok n e s (p := Z.of_nat n * D) :
  p < N -> contents (st_f s) = new -> fpos (st_f s) = p -> chunk_hashes s = None -> out_inv p (st_out s) ->
  hash_inv n (sparse_extent_start s) (st_hash s) -> copy_inv p e (copy_state s) ->
  exists p' s', data_chunk md5_mem cb treehash inplace N p (p + D) s = Done (p', s') /\ chunk_done n (copy_post p e) s p p' s'.
Proof.
  intros HpN Hf Hfp Hold Hout Hh Hcopy. assert (Hp0 : 0 <= p) by (pose proof D_pos; unfold p; lia).
  remember (zsub p D new) as b eqn:Hb.
  assert (Hl : zlen b = Z.min D (N - p)) by (pose proof D_pos; subst b; unfold zsub; rewrite zlen_ztake, zlen_zdrop; lia).
  apply (data_chunk_gen n s (copy_new new inplace L p (no_extent_run (copy_state s))) (copy_post p e) b); try assumption.
  - unfold copy_inv in Hcopy. unfold copy_new. cbn [no_extent_run copy]. destruct has_copy; [|rewrite Hcopy; reflexivity].
    destruct Hcopy as (cf & Ec & [] & _). rewrite Ec. destruct inplace; [|reflexivity].
    exists cf. split; [reflexivity|]. rewrite Z.add_0_r. split; [|reflexivity]. by split.
  - intros o r control c cbuf Ho Hom Er Hr HJ. rewrite Hold. by apply (copy_new_step cb new inplace L b p).
  - intros buf control c Hbuf HJ. destruct (copy_tail_ok b p e (copy_state s) buf control c (conj Hp0 HpN) Hb Hbuf Hcopy HJ) as (c' & Ec' & Hc').
    exists c'. split; [exact Ec'|]. split; [exact Hc'|]. rewrite Hold. exact I.
Qed.

(** ** A chunk in a sparse extent *)

Lemma sparse_chunk_ok n e s (p := Z.of_nat n * D) :
  contents (st_f s) = new -> chunk_hashes s = None -> out_inv p (st_out s) -> In e es -> 0 <= offset e <= p -> p + D <= offset e + size e -> p + D <= N ->
  curr_extent s = e -> hash_inv n (sparse_extent_start s) (st_hash s) -> copy_inv p e (copy_state s) ->
  exists s', sparse_chunk sparse_hashes cb N p (p + D) s = Done s' /\ chunk_done n (copy_post p e) s p (p + D) s'.
Proof.
  intros Hf Hold Hout Hin Ho He HN Hcur Hh Hcopy. pose proof D_pos as HD. assert (Hp0 : 0 <= p) by (unfold p; lia).
  assert (Hm : p mod D = 0) by (apply Z.mod_mul; lia).
  assert (Hz : forall q, offset e <= q < offset e + size e -> znth nul new q = nul) by (intros q Hq; apply Hnew; by exists e).
  remember (zsub p D new) as b eqn:Hb. assert (Hl : zlen b = D) by (subst b; apply zlen_zsub; lia).
  assert (Hbz : forall i, 0 <= i < zlen b -> znth nul b i = nul) by (intros i Hi; rewrite Hb, znth_zsub by lia; apply Hz; lia).
  unfold sparse_chunk. rewrite <- (Hsparse b Hl Hbz), Hcur.
  destruct (out_write p b (st_out s) Hout Hp0 Hm ltac:(lia) Hb ltac:(lia)) as (o' & -> & Ho'). cbn [rbind].
  destruct (copy_extent_ok p e (copy_state s)) as (c1 & E1 & _); try assumption. rewrite E1. cbn [rbind].
  destruct (copy_skip_ok p e c1 (copy_state s)) as (c2 & -> & Hc2); try assumption. cbn [rbind].
  destruct (seek_law (st_f s) (p + D)) as (Es & Ec & Ep); [lia|]. unfold guard. rewrite Es. cbn [rbind].
  eexists. split; [reflexivity|]. unfold chunk_done, copy_post.
  cbn [st_f chunk_hashes extents curr_extent st_in st_out sparse_extent_start st_hash copy_state].
  rewrite (proj2 (Z.leb_le (p + D) N)) by lia. rewrite Ec, Hf, <- Hb. split_and!; try reflexivity; try assumption; [by symmetry|].
  unfold hash_inv in *. destruct h0 as [x|]; [|by rewrite Hh]. destruct Hh as (h1 & -> & Eh). exists h1. split; [reflexivity|].
  cbn [blocks_hash]. unfold block_step. change sparse_blocksize with D. fold p. rewrite <- Hb, (proj2 (buf_is_zero_spec b) Hbz), Eh. reflexivity.
Qed.

(** ** All chunks *)

Definition all_done (s : state F H) : Prop :=
  contents (st_out s) = chunk_hash_file new /\ finish_hash N s = Done (chunked_file_hash treehash new <$> h0) /\ copy_done (copy_state s).

Lemma out_done p o : out_inv p o -> N <= p -> contents o = chunk_hash_file new.
Proof. intros [Hc _] Hp. by rewrite ztake_ge in Hc. Qed.
Lemma finish_at_end n (s : state F H) :
  Z.of_nat n * D = N -> hash_inv n (sparse_extent_start s) (st_hash s) -> finish_hash N s = Done (chunked_file_hash treehash new <$> h0).
Proof.
  intros En Hh. pose proof D_pos as HD. unfold hash_inv, finish_hash in *. destruct h0 as [x|]; [|by rewrite Hh].
  destruct Hh as (h1 & -> & Eh). assert (Em : N mod D = 0) by (rewrite <- En; apply Z.mod_mul; lia).
  assert (Eq : N / D = Z.of_nat n) by (rewrite <- En; apply Z.div_mul; lia).
  cbn [fmap option_fmap option_map]. unfold chunked_file_hash, file_hash. change sparse_blocksize with D.
  rewrite Em, Eq, Nat2Z.id, Eh, En. rewrite Z.eqb_refl. unfold flush_extent, flush. change (0 <? 0) with false. cbv match beta.
  destruct (sparse_extent_start s =? -1); reflexivity.
Qed.
Lemma finish_done (s : state F H) : hash_done (sparse_extent_start s) (st_hash s) -> finish_hash N s = Done (chunked_file_hash treehash new <$> h0).
Proof. unfold hash_done, finish_hash. destruct h0 as [x|]; [|by intros ->]. by intros [-> ->]. Qed.
Lemma copy_inv_end e c : copy_inv N e c -> copy_done c.
Proof. unfold copy_inv, copy_done. destruct has_copy; [|done]. intros (cf & ? & ? & _). by exists cf. Qed.

(** The current extent is not left while the copy is inside it. *)
Lemma copy_inv_next fuel p e it e' it' c :
  copy_inv p e c -> hs_skip_extents (S fuel) p e it = Some (e', it') -> copy_inv p e' c.
Proof.
  cbn [hs_skip_extents]. intros Hc Hx. destruct (negb (offset e =? -1) && (offset e + size e <? p)) eqn:E; [|by injection Hx as <- <-].
  apply andb_true_iff in E as [_ E%Z.ltb_lt]. unfold copy_inv in *. destruct has_copy; [|done].
  destruct Hc as (cf & Ec & Hc & Hp & Hs). exists cf. split_and!; try assumption. intros Hs'. destruct (Hs Hs'). lia.
Qed.

Lemma chunks_end fuel input_size p s : N <= p -> chunks sparse_hashes md5_mem cb fuel treehash inplace N input_size p s = Done s.
Proof. intros Hp. destruct fuel; cbn [chunks]; rewrite (proj2 (Z.ltb_ge p N)) by lia; reflexivity. Qed.

Lemma chunks_ok input_size fuel : forall n e k it s,
  contents (st_f s) = new -> fpos (st_f s) = Z.of_nat n * D -> chunk_hashes s = None -> out_inv (Z.of_nat n * D) (st_out s) ->
  hash_inv n (sparse_extent_start s) (st_hash s) -> copy_inv (Z.of_nat n * D) e (copy_state s) ->
  curr_extent s = e -> extents s = it -> at_ext bs l rest e k it -> Z.of_nat n * D <= N ->
  (Z.to_nat (N / D - Z.of_nat n) + length k + 3 <= fuel)%nat ->
  exists s', chunks sparse_hashes md5_mem cb fuel treehash inplace N input_size (Z.of_nat n * D) s = Done s' /\ all_done s'.
Proof.
  pose proof D_pos as HD. induction fuel as [|fuel IH]; intros n e k it s Hf Hfp Hold Hout Hh Hcopy Hcur Hit He HnN Hfuel; [lia|].
  set (p := Z.of_nat n * D) in *. assert (Hp0 : 0 <= p) by (unfold p; lia).
  destruct (Z.lt_ge_cases p N) as [HpN|HpN].
  2:{ exists s. rewrite chunks_end by lia. split; [reflexivity|]. assert (EN : N = p) by lia. split_and!.
      - by apply (out_done p).
      - by apply (finish_at_end n).
      - apply (copy_inv_end e). rewrite EN. exact Hcopy. }
  assert (Hle : Z.of_nat n <= N / D) by (apply Z.div_le_lower_bound; unfold p in *; lia).
  cbn [chunks]. rewrite (proj2 (Z.ltb_lt p N)) by lia. unfold read_old. rewrite Hold. unfold next_extents.
  destruct (hs_skip_extents_ok bs l rest fuel p e k it) as (e' & k' & it' & Es & He' & Hk'); [lia|exact He|lia|].
  rewrite Hcur, Hit, Es. cbn [rbind]. destruct fuel as [|fuel']; [lia|].
  pose proof (copy_inv_next fuel' p e it e' it' _ Hcopy Es) as Hcopy'.
  set (s1 := mkState _ _ _ _ _ _ _ _ _ _ _ _).
  assert (Hnext : forall p' s', chunk_done n (copy_post p e') s1 p p' s' ->
    exists s2, chunks sparse_hashes md5_mem cb (S fuel') treehash inplace N input_size p' s' = Done s2 /\ all_done s2).
  { intros p' s' (Hf' & Hold' & Hit' & Hcur' & _ & _ & Hout' & Hc' & Hx). unfold copy_post in Hc'. destruct (Z.leb_spec (p + D) N) as [Hfull|Hpart].
    - destruct Hx as (-> & Hfp' & Hh'). assert (Ep : p + D = Z.of_nat (S n) * D) by (unfold p; lia). rewrite Ep in *.
      assert (Z.of_nat n + 1 <= N / D) by (apply Z.div_le_lower_bound; lia).
      apply (IH (S n) e' k' it' s'); try assumption. lia.
    - destruct Hx as (Hp' & Hh'). exists s'. rewrite chunks_end by lia. split; [reflexivity|]. split_and!.
      + apply (out_done (p + D)); [exact Hout'|lia].
      + by apply finish_done.
      + exact Hc'. }
  destruct (negb (offset e' =? -1) && (offset e' <=? p) && (p + D <=? offset e' + size e') && (p + D <=? N)) eqn:Ecov.
  - apply andb_true_iff in Ecov as [[[Eo%negb_true_iff%Z.eqb_neq E1%Z.leb_le]%andb_true_iff E2%Z.leb_le]%andb_true_iff E3%Z.leb_le].
    destruct He' as [[? _]|(Hi & Ho & _)]; [done|].
    destruct (sparse_chunk_ok n e' s1) as (s' & E & Hdone); try assumption; [reflexivity|fold p; lia|reflexivity|]. fold p in E, Hdone. rewrite E. cbn [rbind].
    by apply (Hnext (p + D)).
  - destruct (data_chunk_ok n e' s1) as (p' & s' & E & Hdone); try assumption; [reflexivity|]. fold p in E, Hdone. rewrite E. cbn [rbind].
    by apply (Hnext p').
Qed.
End Loop.
