(* ===== verification/ChunkTheorems.v ===== *)
(** [build_chunk_hashs] for a complete file, and the tree hash it leaves. *)
From S2P Require Import Prelude MemFile ExtentIter ChunkPatcher Adler BlockHash Md5 Sha2 PatchApply PatchLoop PatchBuild PatchHash TreeHash TreeRoot TreeSpec TreeTheorems ChunkHasher ChunkSpec ChunkLoop.

Notation D := c_checkpoint_dist.
#[local] Opaque md5_spec sha512_spec extent_content.

(** ** The size of the copy *)

Section Finish.
Context {F H : Type} `{FileLaws F} `{!IFsFile F} `{!PunchLaws F} `{IHashFunc H}.
Context (new : bytes) (has_copy : bool) (L : Z).
Notation N := (zlen new).

(** The copy: the file's contents, and what was behind them. *)
Definition copy_is (c : copying F) : Prop :=
  if has_copy then exists cf, copy c = Some cf /\ ztake N (contents cf) = new /\ zlen (contents cf) = Z.max L N else copy c = None.

Lemma copied_all cf c d : copied new L N cf c -> N <= zlen d -> (forall i, 0 <= i < N -> znth nul d i = znth nul (contents cf) i) -> ztake N d = new.
Proof.
  intros [] Hl Hd. pose proof (zlen_nonneg new). apply (list_eq_znth nul); [rewrite zlen_ztake; lia|].
  rewrite zlen_ztake by lia. intros i Hi. rewrite znth_ztake, Hd by lia. apply cp_eq. lia.
Qed.
Lemma finish_copy_ok c : copy_done new L has_copy c -> exists c', finish_copy c = Done c' /\ copy_is c'.
Proof.
  unfold copy_done, finish_copy, copy_is. destruct has_copy; [|intros E; rewrite E; by exists c].
  intros (cf & Ec & Hc). pose proof Hc as []. pose proof (zlen_nonneg new). rewrite Ec, size_law.
  destruct (negb (copy_max_sparse c =? -1) && (zlen (contents cf) <? copy_max_sparse c)) eqn:E.
  - apply andb_true_iff in E as [_ E%Z.ltb_lt]. pose proof (zlen_nonneg (contents cf)).
    destruct (resize_law cf (copy_max_sparse c)) as (Er & Ecc & _); [lia|]. unfold guard. rewrite Er. cbn [rbind].
    eexists. split; [reflexivity|]. eexists. split; [reflexivity|]. assert (copy_max_sparse c = N) as EN by lia. rewrite Ecc, zlen_zresize by lia. split; [|lia].
    apply (copied_all cf c); [done|rewrite zlen_zresize; lia|]. intros i Hi. apply znth_zresize_grow; lia.
  - exists c. split; [reflexivity|]. exists cf. split; [done|]. assert (N <= zlen (contents cf)).
    { destruct cp_end as [|Hx]; [done|]. apply andb_false_iff in E as [E%negb_false_iff%Z.eqb_eq|E%Z.ltb_ge]; lia. }
    split; [|lia]. by apply (copied_all cf c).
Qed.
End Finish.

(** ** A complete file *)

Section Correct.
Context {F H : Type} `{FileLaws F} `{!IFsFile F} `{!PunchLaws F} `{IHashFunc H}.
Context (sparse_hashes : bytes) (md5_mem : MD5.t) (chunk_mem : bytes) (cb : option (F -> bool)).
Context (Hmem : zlen (MD5.buffer md5_mem) = 64) (Hsparse : get_sparse_extent_content md5_mem = Some sparse_hashes).

Lemma out_start (new : bytes) (out : F) : contents out = [] ->
  exists o, write_repeat cb (snd (Seek out 0)) (le_bytes 8 (w64 (zlen new))) = Done o /\ out_inv new 0 o.
Proof.
  intros Hout. destruct (seek_law out 0 ltac:(lia)) as (_ & Eo & Eop). pose proof (zlen_nonneg (le_bytes 8 (w64 (zlen new)))).
  destruct (write_repeat_ok cb (snd (Seek out 0)) (le_bytes 8 (w64 (zlen new)))) as (o & -> & Ec & Epos); [rewrite zlen_le_bytes; split; reflexivity|].
  rewrite Eo, Eop, Hout in *. exists o. split; [reflexivity|].
  split; [|rewrite Ec, Epos, zlen_file_write by lia; change (zlen (@nil ascii)) with 0; lia].
  rewrite ztake_0, cut_nil, app_nil_r, Ec. exact (file_write_end [] _).
Qed.

Lemma build_chunk_hashs_ok (new : bytes) (bs : Z) (l : list SSparseExtent) (rest : bytes) (f out : F) (cp extents : option F)
    (inplace treehash : bool) (h0 : option H) (fuel : nat) :
  contents f = new -> contents out = [] -> (forall c, cp = Some c -> inplace = false -> fpos c = 0) ->
  0 < bs -> Forall extent_ok l -> zlen l < 2 ^ 60 ->
  match extents with Some fe => contents fe = extents_file l rest | None => l = [] end ->
  (forall q, in_ext (shrunk bs l) q -> znth nul new q = nul) ->
  (Z.to_nat (zlen new / D) + length l + 4 <= fuel)%nat ->
  exists s, build_chunk_hashs sparse_hashes md5_mem chunk_mem cb fuel f out cp inplace None treehash h0
      ((fun fe => ExtentIterator.init (Some fe) bs) <$> extents) = Done s /\
    contents (st_out s) = chunk_hash_file new /\ st_hash s = chunked_file_hash treehash new <$> h0 /\
    match cp with
    | Some c => exists c', copy (copy_state s) = Some c' /\ ztake (zlen new) (contents c') = new /\ zlen (contents c') = Z.max (zlen (contents c)) (zlen new)
    | None => copy (copy_state s) = None
    end.
Proof.
  intros Hf Hout Hcp Hbs Hl Hll Hext Hnew Hfuel. pose proof D_pos as HD. pose proof (zlen_nonneg new).
  set (L := match cp with Some c => zlen (contents c) | None => 0 end). set (has := match cp with Some _ => true | None => false end).
  unfold build_chunk_hashs. destruct (seek_law f 0 ltac:(lia)) as (_ & Ef & Ep). rewrite size_law, Ef, Hf.
  destruct (out_start new out Hout) as (o1 & -> & Ho1). cbn [rbind].
  assert (Hit : exists e it, match (fun fe => ExtentIterator.init (Some fe) bs) <$> extents with
      | Some it => match ExtentIterator.nextExtent fuel it with Some (e, it) => Done (e, Some it) | None => Stuck end
      | None => Done (no_extent, None)
      end = Done (e, it) /\ exists k, at_ext bs l rest e k it /\ (length k <= length l)%nat).
  { pose proof (shrunk_length bs l). destruct extents as [fe|]; cbn [fmap option_fmap option_map].
    - pose proof (init_yields bs Hbs l rest Hl Hll fe Hext) as Hy. destruct fuel as [|fuel]; [lia|].
      destruct (next_extents_from bs l rest _ fuel _ Hy) as (e & it & -> & He). exists e, (Some it). split; [reflexivity|].
      exists (tail (shrunk bs l)). split; [apply (at_ext_first bs l rest (shrunk bs l)); [apply incl_refl|exact He]|]. destruct (shrunk bs l); cbn [tail length] in *; lia.
    - exists no_extent, None. split; [reflexivity|]. exists []. split; [left; split; reflexivity|cbn; lia]. }
  destruct Hit as (e & it & -> & k & He & Hk). cbn [rbind]. set (s0 := mkState _ _ _ _ _ _ _ _ _ _ _ _).
  destruct (chunks_ok sparse_hashes md5_mem cb Hmem (fun b => sparse_content_ok md5_mem sparse_hashes b Hmem Hsparse) new bs l rest Hnew
    treehash inplace L h0 has 0 fuel 0 e k it s0) as (s & E & Hdone & Hhash & Hcopy).
  - exact (eq_trans Ef Hf).
  - exact Ep.
  - reflexivity.
  - change (Z.of_nat 0 * D) with 0. exact Ho1.
  - unfold hash_inv. cbn [st_hash s0]. destruct h0 as [x|]; [|reflexivity]. exists x. split; reflexivity.
  - change (Z.of_nat 0 * D) with 0. unfold copy_inv, has. cbn [copy_state s0 copy]. destruct cp as [c|]; [|reflexivity].
    exists c. split; [reflexivity|]. split; [|split; [apply Hcp; reflexivity|intros []; reflexivity]].
    split; cbn [copy_write_pos copy_max_sparse]; [reflexivity|unfold L; lia|intros i Hi; lia|left; apply zlen_nonneg|lia].
  - reflexivity.
  - reflexivity.
  - exact He.
  - lia.
  - lia.
  - change (Z.of_nat 0 * D) with 0 in E. rewrite E. cbn [rbind]. rewrite Hhash. cbn [rbind].
    destruct (finish_copy_ok new has L _ Hcopy) as (c' & -> & Hc'). cbn [rbind]. eexists. split; [reflexivity|].
    cbn [st_out st_hash copy_state]. split; [exact Hdone|]. split; [reflexivity|]. unfold copy_is, has, L in Hc'. destruct cp; exact Hc'.
Qed.
End Correct.

(** ** The tree hash of a file *)

(** A [TreeHash] as the hash function. *)
Section Tree.
Context {Out : Type} `{IHashOutput Out}.
Definition tree_hash_fn : IHashFunc (option (TreeHash.t Out)) := {|
  hash th b := th ← th; TreeHash.hash b th;
  sparse_hash th e := th ← th; TreeHash.sparse_hash e th;
  addHashAllAdler th a n := th ← th; TreeHash.addHashAllAdler a (zlen a) n th |}.
End Tree.

(** The calls that a file's hash is made of: [via] is how a block is given. *)
Definition record_steps (via : bytes -> step) : IHashFunc (list step) := {|
  hash ss b := ss ++ [via b];
  sparse_hash ss e := ss ++ [SparseExtent e];
  addHashAllAdler ss a n := ss |}.
Definition file_steps (via : bytes -> step) (new : bytes) : list step := @file_hash _ (record_steps via) new [].
Definition via (treehash : bool) (b : bytes) : step := if treehash then ChunkHashes b else Contents [b].

Section Calls.
Context {Out : Type} `{IHashOutput Out} (treehash : bool) (new : bytes) (th0 : TreeHash.t Out).
Notation fed := (foldl feed (Some th0)).
Notation R := (record_steps (via treehash)).
Notation G := (@given _ tree_hash_fn treehash).

Lemma fed_hash ss b : @hash _ G (fed ss) b = fed (@hash _ R ss b).
Proof.
  cbn [hash record_steps given via tree_hash_fn addHashAllAdler]. rewrite foldl_app. cbn [foldl]. unfold via.
  destruct treehash; generalize (fed ss); intros []; reflexivity.
Qed.
Lemma fed_flush start p ss : @flush _ G start p (fed ss) = fed (@flush _ R start p ss).
Proof.
  unfold flush. destruct (start =? -1); [reflexivity|]. cbn [sparse_hash record_steps given tree_hash_fn]. rewrite foldl_app. reflexivity.
Qed.
Lemma fed_blocks n : @blocks_hash _ G new (Some th0) n =
  (fst (@blocks_hash _ R new [] n), fed (snd (@blocks_hash _ R new [] n))).
Proof.
  induction n as [|n IH]; [reflexivity|]. cbn [blocks_hash]. rewrite IH. unfold block_step. cbn [fst snd].
  destruct (buf_is_zero _); [reflexivity|]. cbn [fst snd]. rewrite fed_flush, fed_hash. reflexivity.
Qed.
Lemma fed_file : @chunked_file_hash _ tree_hash_fn treehash new (Some th0) = fed (file_steps (via treehash) new).
Proof.
  unfold chunked_file_hash, file_steps, file_hash. rewrite fed_blocks. destruct (@blocks_hash _ R new [] _) as [start ss]. cbn [fst snd].
  rewrite fed_flush. destruct (0 <? _); [apply fed_hash|reflexivity].
Qed.
End Calls.

(** Complete blocks only. *)
Definition full_step (s : step) : Prop :=
  (match s with Contents ps => pieces_ok ps | ChunkHashes _ => True | SparseExtent e => zlen e < 2 ^ 61 end) /\
  Forall (fun b => zlen b = treehash_blocksize) (block_of_step s).
Lemma blocks_app ss s : blocks (ss ++ [s]) = blocks ss ++ block_of_step s.
Proof. unfold blocks. rewrite map_app, concat_app. cbn [map concat]. by rewrite app_nil_r. Qed.
Lemma steps_ok_snoc ss s : Forall full_step ss -> steps_ok [s] -> steps_ok (ss ++ [s]).
Proof.
  induction 1 as [|s' ss [Hs Hb] Hss IH]; intros Hl; [done|]. cbn [app steps_ok]. split; [exact Hs|]. split; [|by apply IH].
  eapply Forall_impl; [exact Hb|]. intros b Hx. rewrite Hx. split; [split; reflexivity || by apply Z.le_refl|by left].
Qed.
Lemma steps_ok_full ss : Forall full_step ss -> steps_ok ss.
Proof.
  induction 1 as [|s' ss [Hs Hb] Hss IH]; [done|]. cbn [steps_ok]. split; [exact Hs|]. split; [|exact IH].
  eapply Forall_impl; [exact Hb|]. intros b Hx. rewrite Hx. split; [split; reflexivity || by apply Z.le_refl|by left].
Qed.
Lemma step_ok_via treehash b : 0 < zlen b <= treehash_blocksize -> steps_ok [via treehash b].
Proof.
  intros Hb. assert (b <> []) by (intros ->; change (zlen (@nil ascii)) with 0 in Hb; lia).
  assert (Hc : forall x, x = b -> 0 < zlen x <= treehash_blocksize /\ (zlen x = treehash_blocksize \/ blocks [] = [])) by (intros x ->; split; [exact Hb|by right]).
  destruct treehash; cbn [via steps_ok block_of_step].
  - split; [exact I|]. split; [|exact I]. constructor; [by apply Hc|constructor].
  - split; [|split; [constructor; [apply Hc; cbn [concat]; apply app_nil_r|constructor]|exact I]]. cbn [pieces_ok]. split; [done|]. split; [by left|exact I].
Qed.
Lemma block_of_via treehash b : block_of_step (via treehash b) = [b].
Proof. destruct treehash; cbn; by rewrite ?app_nil_r. Qed.

Section Steps.
Context (new : bytes).
Notation N := (zlen new).
Notation steps treehash n := (@blocks_hash _ (record_steps (via treehash)) new [] n).

Lemma flush_full treehash start p ss : Forall full_step ss -> Forall full_step (@flush _ (record_steps (via treehash)) start p ss).
Proof.
  intros Hss. unfold flush. destruct (start =? -1); [exact Hss|]. cbn [sparse_hash record_steps]. apply Forall_app. split; [exact Hss|].
  constructor; [|constructor]. split; [unfold extent_bytes; cbn [block_of_step]; rewrite zlen_app, !zlen_le_bytes; reflexivity|constructor].
Qed.
Lemma blocks_full treehash n : Z.of_nat n * D <= N -> Forall full_step (snd (steps treehash n)).
Proof.
  pose proof D_pos as HD. induction n as [|n IH]; intros Hn; [constructor|]. cbn [blocks_hash]. unfold block_step.
  destruct (buf_is_zero _); cbn [snd]; [apply IH; lia|]. cbn [hash record_steps]. apply Forall_app. split; [apply flush_full, IH; lia|].
  constructor; [|constructor]. assert (Hz : zlen (zsub (Z.of_nat n * sparse_blocksize) sparse_blocksize new) = treehash_blocksize).
  { change treehash_blocksize with D. change sparse_blocksize with D. assert (0 <= Z.of_nat n * D) by (apply Z.mul_nonneg_nonneg; lia). apply zlen_zsub; lia. }
  split; [|rewrite block_of_via; by constructor]. destruct treehash; cbn [via pieces_ok]; [exact I|]. split; [|split; [by left|exact I]].
  intros E. rewrite E in Hz. discriminate Hz.
Qed.
Lemma file_steps_ok treehash : steps_ok (file_steps (via treehash) new).
Proof.
  pose proof D_pos as HD. pose proof (zlen_nonneg new). pose proof (Z.div_mod N D ltac:(lia)). pose proof (Z.mod_pos_bound N D HD).
  unfold file_steps, file_hash. change sparse_blocksize with D. pose proof (Z.div_pos N D ltac:(lia) HD).
  assert (0 <= N / D * D) by (apply Z.mul_nonneg_nonneg; lia).
  pose proof (blocks_full treehash (Z.to_nat (N / D))) as Hb. rewrite Z2Nat.id in Hb by lia. specialize (Hb ltac:(lia)).
  destruct (steps treehash (Z.to_nat (N / D))) as [start ss]. cbn [snd] in Hb. pose proof (flush_full treehash start (N / D * D) ss Hb) as Hf.
  destruct (Z.ltb_spec 0 (N mod D)); [|by apply steps_ok_full]. apply steps_ok_snoc; [exact Hf|]. apply step_ok_via.
  change treehash_blocksize with D. rewrite zlen_zdrop by lia. lia.
Qed.

(** Blocks and extents do not depend on how the blocks are given. *)
Definition same_steps (s1 s2 : list step) : Prop := blocks s1 = blocks s2 /\ foldl add_sparse None s1 = foldl add_sparse None s2.
Lemma same_flush start p s1 s2 :
  same_steps s1 s2 -> same_steps (@flush _ (record_steps (via true)) start p s1) (@flush _ (record_steps (via false)) start p s2).
Proof.
  intros [Hb Hs]. unfold flush. destruct (start =? -1); [by split|]. cbn [sparse_hash record_steps]. split.
  - rewrite !blocks_app, Hb. reflexivity.
  - rewrite !foldl_app, Hs. reflexivity.
Qed.
Lemma same_hash b s1 s2 : same_steps s1 s2 -> same_steps (s1 ++ [via true b]) (s2 ++ [via false b]).
Proof.
  intros [Hb Hs]. split.
  - rewrite !blocks_app, !block_of_via, Hb. reflexivity.
  - rewrite !foldl_app, Hs. reflexivity.
Qed.
Lemma same_blocks n : fst (steps true n) = fst (steps false n) /\ same_steps (snd (steps true n)) (snd (steps false n)).
Proof.
  induction n as [|n [E IH]]; [by split|]. cbn [blocks_hash]. unfold block_step. destruct (buf_is_zero _); cbn [fst snd]; rewrite E; [by split|].
  split; [reflexivity|]. cbn [hash record_steps]. by apply same_hash, same_flush.
Qed.
Lemma same_file : same_steps (file_steps (via true) new) (file_steps (via false) new).
Proof.
  unfold file_steps, file_hash. pose proof (same_blocks (Z.to_nat (N / sparse_blocksize))) as [E Hs].
  destruct (steps true _) as [s1 ss1], (steps false _) as [s2 ss2]. cbn [fst snd] in E, Hs. subst s2.
  destruct (0 <? _); cbn [hash record_steps]; [by apply same_hash, same_flush|by apply same_flush].
Qed.

(** The blocks are parts of the file. *)
Lemma blocks_len treehash n : Z.of_nat n * D <= N -> zlen (concat (blocks (snd (steps treehash n)))) <= Z.of_nat n * D.
Proof.
  pose proof D_pos as HD. induction n as [|n IH]; intros Hn; [reflexivity|]. cbn [blocks_hash]. unfold block_step.
  destruct (buf_is_zero _); cbn [snd]; [lia|]. cbn [hash record_steps]. rewrite blocks_app, block_of_via, concat_app, zlen_app. cbn [concat].
  rewrite app_nil_r. change sparse_blocksize with D. assert (0 <= Z.of_nat n * D) by (apply Z.mul_nonneg_nonneg; lia). rewrite zlen_zsub by lia. unfold flush.
  destruct (_ =? -1); [lia|]. cbn [sparse_hash record_steps]. rewrite blocks_app. cbn [block_of_step]. rewrite app_nil_r. lia.
Qed.
Lemma file_steps_len treehash : zlen (concat (blocks (file_steps (via treehash) new))) <= N.
Proof.
  pose proof D_pos as HD. pose proof (zlen_nonneg new). pose proof (Z.div_mod N D ltac:(lia)). pose proof (Z.mod_pos_bound N D HD).
  unfold file_steps, file_hash. change sparse_blocksize with D. pose proof (Z.div_pos N D ltac:(lia) HD).
  assert (0 <= N / D * D) by (apply Z.mul_nonneg_nonneg; lia).
  pose proof (blocks_len treehash (Z.to_nat (N / D))) as Hb. rewrite Z2Nat.id in Hb by lia. specialize (Hb ltac:(lia)).
  destruct (steps treehash (Z.to_nat (N / D))) as [start ss]. cbn [snd] in Hb.
  assert (Hf : zlen (concat (blocks (@flush _ (record_steps (via treehash)) start (N / D * D) ss))) <= N / D * D).
  { unfold flush. destruct (start =? -1); [exact Hb|]. cbn [sparse_hash record_steps]. rewrite blocks_app. cbn [block_of_step]. by rewrite app_nil_r. }
  destruct (Z.ltb_spec 0 (N mod D)); [|lia]. cbn [hash record_steps]. rewrite blocks_app, block_of_via, concat_app, zlen_app. cbn [concat].
  rewrite app_nil_r, zlen_zdrop by lia. lia.
Qed.
End Steps.

(** What [TreeHash] makes of a file: of its blocks that are not zero and of the
    extents of its runs of zero blocks. *)
Definition file_tree_hash (new : bytes) : bytes :=
  treehash_spec (blocks (file_steps (via false) new)) (foldl add_sparse None (file_steps (via false) new)).

Lemma tree_of_file {Out} `{IHashOutput Out} mem out treehash new :
  zlen (MD5.buffer mem) = 64 -> zlen new < 2 ^ 63 ->
  exists th th', @chunked_file_hash _ tree_hash_fn treehash new (Some (TreeHash.init mem out)) = Some th /\
    TreeHash.finalize th = Some (file_tree_hash new, th').
Proof.
  intros Hm Hn. rewrite fed_file. pose proof (file_steps_len new treehash).
  destruct (feed_ok (file_steps (via treehash) new) [] None [] 0 out (TreeHash.init mem out)) as (th & bl & cur & E & Eb & Hh);
    [apply init_hashing, Hm|apply file_steps_ok|left; reflexivity|lia|lia|].
  rewrite Z.add_0_l in Hh. pose proof (zlen_nonneg (concat (blocks (file_steps (via treehash) new)))).
  destruct (finalize_ok bl (foldl add_sparse None (file_steps (via treehash) new)) cur _ _ th Hh) as (th' & Ef); [lia|].
  exists th, th'. split; [exact E|]. rewrite Ef. unfold unfinished in Eb. rewrite Eb. unfold file_tree_hash. destruct (same_file new) as [E1 E2].
  destruct treehash; [by rewrite <- E1, <- E2|reflexivity].
Qed.
Lemma file_hash_given {H} (I : IHashFunc H) b h0 : @chunked_file_hash H I false b h0 = @file_hash H I b h0.
Proof.
  assert (E : forall n, @blocks_hash H (given false) b h0 n = @blocks_hash H I b h0 n).
  { induction n as [|n IH]; [reflexivity|]. cbn [blocks_hash]. rewrite IH. unfold block_step, flush.
    cbn [hash sparse_hash given]. reflexivity. }
  unfold chunked_file_hash, file_hash. rewrite E. destruct (@blocks_hash H I b h0 _) as [start h]. unfold flush.
  cbn [hash sparse_hash given]. reflexivity.
Qed.

(** C4: the chunk hashes, the copy and the hash of a file.  Without the chunk
    hashes of an older version, [build_chunk_hashs] comes to an end without an
    error, however it is called: with or without the sparse extents of the file,
    copying it to a new file or over an older version, hashing contents or chunk
    hashes.  The hash output file then holds the file size and the chunk hashes of
    every chunk (those of the chunks in an extent come from the prepared zero
    chunk); the copy begins with the file's contents and is as long as the longer
    one of the file and what the copy was before; the hash function has been given
    the blocks that are not zero and the runs of zero blocks in order. *)
Theorem build_chunk_hashs_correct {F H} `{FileLaws F} `{!IFsFile F} `{!PunchLaws F} `{IHashFunc H}
    (sparse_hashes : bytes) (md5_mem : MD5.t) (chunk_mem : bytes) (cb : option (F -> bool))
    (new : bytes) (bs : Z) (l : list SSparseExtent) (rest : bytes) (f out : F) (cp extents : option F)
    (inplace treehash : bool) (h0 : option H) (fuel : nat) :
  zlen (MD5.buffer md5_mem) = 64 -> get_sparse_extent_content md5_mem = Some sparse_hashes ->
  contents f = new -> contents out = [] -> (forall c, cp = Some c -> inplace = false -> fpos c = 0) ->
  0 < bs -> Forall extent_ok l -> zlen l < 2 ^ 60 ->
  match extents with Some fe => contents fe = extents_file l rest | None => l = [] end ->
  (forall q, in_ext (shrunk bs l) q -> znth nul new q = nul) ->
  (Z.to_nat (zlen new / D) + length l + 4 <= fuel)%nat ->
  exists s, build_chunk_hashs sparse_hashes md5_mem chunk_mem cb fuel f out cp inplace None treehash h0
      ((fun fe => ExtentIterator.init (Some fe) bs) <$> extents) = Done s /\
    contents (st_out s) = chunk_hash_file new /\ st_hash s = chunked_file_hash treehash new <$> h0 /\
    match cp with
    | Some c => exists c', copy (copy_state s) = Some c' /\ ztake (zlen new) (contents c') = new /\ zlen (contents c') = Z.max (zlen (contents c)) (zlen new)
    | None => copy (copy_state s) = None
    end.
Proof. intros Hmem Hsp. intros. by apply (build_chunk_hashs_ok sparse_hashes md5_mem chunk_mem cb Hmem Hsp) with (l := l) (rest := rest). Qed.

(** C6: one hash of a file, two ways.  If [build_chunk_hashs] gives the chunk
    hashes of a file to a [TreeHash], the digest is the one that [hash_sha] gets
    from a [TreeHash] that is given the contents of the file: the file's extents,
    whether each of the two knows them, and who receives the chunk hashes make no
    difference. *)
Theorem build_chunk_hashs_tree_hash {F Out} `{FileLaws F} `{!IFsFile F} `{!PunchLaws F} `{IHashOutput Out}
    (sparse_hashes : bytes) (md5_mem mem2 : MD5.t) (chunk_mem : bytes) (cb : option (F -> bool))
    (new : bytes) (bs : Z) (l l2 : list SSparseExtent) (rest : bytes) (f g out : F) (extents extents2 : option F) (ho : option Out) (fuel : nat)
    (tree := Some (TreeHash.init mem2 ho)) :
  zlen (MD5.buffer md5_mem) = 64 -> zlen (MD5.buffer mem2) = 64 -> get_sparse_extent_content md5_mem = Some sparse_hashes ->
  contents f = new -> contents g = new -> contents out = [] -> zlen new < 2 ^ 63 ->
  0 < bs -> Forall extent_ok l -> zlen l < 2 ^ 60 -> Forall extent_ok l2 -> zlen l2 < 2 ^ 60 ->
  match extents with Some fe => contents fe = extents_file l rest | None => l = [] end ->
  match extents2 with Some fe => contents fe = extents_file l2 rest | None => l2 = [] end ->
  (forall q, in_ext (shrunk bs l) q \/ in_ext (shrunk bs l2) q -> znth nul new q = nul) ->
  (forall e, In e (shrunk bs l2) -> offset e + size e <= zlen new) ->
  (Z.to_nat (zlen new) + length l + length l2 + 5 <= fuel)%nat ->
  exists s th th2 th' th2',
    @build_chunk_hashs _ _ _ _ tree_hash_fn sparse_hashes md5_mem chunk_mem cb fuel f out None false None true (Some tree)
      ((fun fe => ExtentIterator.init (Some fe) bs) <$> extents) = Done s /\ st_hash s = Some (Some th) /\
    @hash_sha _ _ _ tree_hash_fn fuel g ((fun fe => ExtentIterator.init (Some fe) bs) <$> extents2) true tree = Some (true, Some th2) /\
    TreeHash.finalize th = Some (file_tree_hash new, th') /\ TreeHash.finalize th2 = Some (file_tree_hash new, th2').
Proof.
  intros Hm Hm2 Hsp Hf Hg Hout Hn Hbs Hl Hll Hl2 Hll2 He He2 Hz Hin Hfuel. pose proof (zlen_nonneg new).
  assert (zlen new / D <= zlen new) by (apply Z.div_le_upper_bound; [reflexivity|unfold c_checkpoint_dist; lia]).
  destruct (@build_chunk_hashs_ok F _ _ _ _ _ tree_hash_fn sparse_hashes md5_mem chunk_mem cb Hm Hsp new bs l rest f out None extents false true
    (Some tree) fuel) as (s & E & _ & Eh & _); try assumption; [discriminate|intros q Hq; apply Hz; by left|lia|].
  destruct (tree_of_file mem2 ho true new Hm2 Hn) as (th & th' & E1 & F1). destruct (tree_of_file mem2 ho false new Hm2 Hn) as (th2 & th2' & E2 & F2).
  exists s, th, th2, th', th2'. split; [exact E|]. split; [rewrite Eh; cbn [fmap option_fmap option_map]; unfold tree; rewrite E1; reflexivity|].
  split; [|split; [exact F1|exact F2]]. rewrite <- E2, file_hash_given.
  apply (@hash_sha_ok _ _ _ _ tree_hash_fn) with (l := l2) (rest := rest); try assumption; [intros q Hq; apply Hz; by right|lia].
Qed.

(** Files of zeros.  When no block is hashed, [finalize] leaves out the
    extents of zeros: all files that are made of whole zero blocks have one and the
    same tree hash, that of the empty file, whatever their size. *)
Theorem zero_files_one_tree_hash (k : nat) (new : bytes) :
  zlen new = Z.of_nat k * D -> (forall i, 0 <= i < zlen new -> znth nul new i = nul) -> file_tree_hash new = sha512_spec [].
Proof.
  intros Hl Hz. unfold file_tree_hash. assert (E : blocks (file_steps (via false) new) = []); [|rewrite E; reflexivity].
  pose proof D_pos as HD. unfold file_steps, file_hash. change sparse_blocksize with D. rewrite Hl, Z.div_mul, Z.mod_mul, Nat2Z.id by lia.
  change (0 <? 0) with false. cbv match. assert (Hn : forall n, (n <= k)%nat -> blocks (snd (@blocks_hash _ (record_steps (via false)) new [] n)) = []).
  { induction n as [|n IH]; intros Hn; [reflexivity|]. cbn [blocks_hash]. unfold block_step. change sparse_blocksize with D.
    assert (0 <= Z.of_nat n * D) by (apply Z.mul_nonneg_nonneg; lia). assert (Z.of_nat n * D + D <= zlen new) by (rewrite Hl; nia).
    rewrite (proj2 (buf_is_zero_spec _)); [cbn [snd]; apply IH; lia|]. rewrite zlen_zsub by lia. intros i Hi. rewrite znth_zsub by lia. apply Hz. lia. }
  specialize (Hn k (Nat.le_refl _)). destruct (@blocks_hash _ (record_steps (via false)) new [] k) as [start ss]. cbn [snd] in Hn.
  unfold flush. destruct (start =? -1); [exact Hn|]. cbn [sparse_hash record_steps]. rewrite blocks_app, Hn. reflexivity.
Qed.
Lemma zero_files_one_tree_hash_witness :
  file_tree_hash (replicate (Z.to_nat (3 * D)) nul) = sha512_spec [].
Proof.
  apply (zero_files_one_tree_hash 3); [rewrite zlen_replicate; [reflexivity|unfold c_checkpoint_dist; lia]|].
  intros i _. apply znth_replicate_nul.
Defined.

Import Recorder.
Definition sample_file : bytes := (str "abcd" ++ [nul; nul] ++ str "gh")%list.
Definition sample_extents : option CMemoryFile.t := Some (CMemoryFile.mk (extents_file [mkExtent 4 2] []) 0).
Lemma sample_zero q : in_ext (shrunk 1 [mkExtent 4 2]) q -> znth nul sample_file q = nul.
Proof. intros (e & [<-|[]] & Hq). change (4 <= q < 4 + 2) in Hq. assert (q = 4 \/ q = 5) as [-> | ->] by lia; reflexivity. Qed.

Lemma build_chunk_hashs_correct_witness :
  exists c, get_sparse_extent_content md5_mem = Some c /\
  exists s, build_chunk_hashs c md5_mem [] None 10 (CMemoryFile.mk sample_file 0) (CMemoryFile.mk [] 0) (Some (CMemoryFile.mk (str "abXdefghij") 0))
      true None true (Some ([] : list event)) ((fun fe => ExtentIterator.init (Some fe) 1) <$> sample_extents) = Done s /\
    contents (st_out s) = chunk_hash_file sample_file /\ st_hash s = chunked_file_hash true sample_file <$> Some [] /\
    exists c', copy (copy_state s) = Some c' /\ ztake (zlen sample_file) (contents c') = sample_file /\
      zlen (contents c') = Z.max (zlen (contents (CMemoryFile.mk (str "abXdefghij") 0))) (zlen sample_file).
Proof.
  assert (Hm : zlen (MD5.buffer md5_mem) = 64) by (vm_compute; reflexivity).
  destruct (sparse_content_is md5_mem Hm) as (c & Hc). exists c. split; [exact Hc|].
  apply (build_chunk_hashs_correct (H := list event) c md5_mem [] None sample_file 1 [mkExtent 4 2] [] (CMemoryFile.mk sample_file 0) (CMemoryFile.mk [] 0)
    (Some (CMemoryFile.mk (str "abXdefghij") 0)) sample_extents true true (Some []) 10 Hm Hc).
  - reflexivity.
  - reflexivity.
  - intros x _ [=].
  - reflexivity.
  - constructor; [|constructor]. cbn. unfold extent_ok. cbn. lia.
  - reflexivity.
  - reflexivity.
  - exact sample_zero.
  - apply Nat.leb_le. vm_compute. reflexivity.
Defined.
Lemma build_chunk_hashs_tree_hash_witness :
  exists c, get_sparse_extent_content md5_mem = Some c /\
  let tree := Some (TreeHash.init md5_mem (Some [])) in
  exists s th th2 th' th2',
    @build_chunk_hashs _ _ _ _ tree_hash_fn c md5_mem [] None 20 (CMemoryFile.mk sample_file 0) (CMemoryFile.mk [] 0) None false None true (Some tree)
      ((fun fe => ExtentIterator.init (Some fe) 1) <$> sample_extents) = Done s /\ st_hash s = Some (Some th) /\
    @hash_sha _ _ _ tree_hash_fn 20 (CMemoryFile.mk sample_file 0) None true tree = Some (true, Some th2) /\
    TreeHash.finalize th = Some (file_tree_hash sample_file, th') /\ TreeHash.finalize th2 = Some (file_tree_hash sample_file, th2').
Proof.
  assert (Hm : zlen (MD5.buffer md5_mem) = 64) by (vm_compute; reflexivity).
  destruct (sparse_content_is md5_mem Hm) as (c & Hc). exists c. split; [exact Hc|].
  apply (build_chunk_hashs_tree_hash c md5_mem md5_mem [] None sample_file 1 [mkExtent 4 2] [] [] (CMemoryFile.mk sample_file 0)
    (CMemoryFile.mk sample_file 0) (CMemoryFile.mk [] 0) sample_extents None (Some []) 20 Hm Hm Hc).
  - reflexivity.
  - reflexivity.
  - reflexivity.
  - vm_compute. reflexivity.
  - reflexivity.
  - constructor; [|constructor]. cbn. unfold extent_ok. cbn. lia.
  - reflexivity.
  - constructor.
  - reflexivity.
  - reflexivity.
  - reflexivity.
  - intros q [Hq|(e & [] & _)]. by apply sample_zero.
  - intros e [].
  - apply Nat.leb_le. vm_compute. reflexivity.
Defined.
