(* ===== verification/ChunkInplace.v ===== *)
(** [build_chunk_hashs] onto an older version of the file whose chunk hashes are
    known ([modify_inplace] with [hashinput]): only small blocks with another
    checksum are written. *)
From S2P Require Import Prelude MemFile ExtentIter ChunkPatcher Adler BlockHash Md5 PatchApply PatchLoop PatchBuild PatchHash TreeHash TreeRoot TreeSpec TreeTheorems ChunkHasher ChunkSpec ChunkLoop ChunkTheorems.
Import Recorder.

Notation D := c_checkpoint_dist.
Notation SB := treehash_smallblock.
#[local] Opaque md5_spec.

(** ** Reading chunk hashes *)

Lemma single_size : chunkhash_single_size = 528.
Proof. reflexivity. Qed.
Lemma zlen_chunk_hashes b : zlen b = D -> zlen (all_adlers b) = chunkhash_single_size.
Proof. intros Hb. rewrite zlen_all_adlers, zlen_cut_whole by (rewrite Hb; reflexivity). rewrite Hb. reflexivity. Qed.
Lemma zlen_chunk_hashes_le b : zlen b <= D -> zlen (all_adlers b) <= chunkhash_single_size.
Proof.
  intros Hb. rewrite zlen_all_adlers. destruct b as [|x b]; [reflexivity || (vm_compute; congruence)|].
  unfold zlen at 1. rewrite cut_length by done. set (y := x :: b) in *. assert ((zlen y + SB - 1) / SB < 129) by (apply Z.div_lt_upper_bound; [done|unfold SB, c_checkpoint_dist in *; lia]).
  rewrite single_size. lia.
Qed.
Lemma zlen_concat_hashes bs : Forall (fun b => zlen b = D) bs -> zlen (concat (map all_adlers bs)) = chunkhash_single_size * zlen bs.
Proof.
  induction 1 as [|b bs Hb _ IH]; [reflexivity|]. cbn [map concat]. rewrite zlen_app, IH, zlen_chunk_hashes, zlen_cons by done. lia.
Qed.

Lemma zlen_hashes_before old p : 0 <= p -> p mod D = 0 -> zlen old = p -> zlen (concat (map all_adlers (cut D old))) = chunkhash_single_size * (p / D).
Proof.
  intros Hp Hm Hl. pose proof D_pos as HD. rewrite zlen_concat_hashes by (apply cut_whole; [exact HD|rewrite Hl; exact Hm]). f_equal.
  destruct old as [|x old]; [rewrite cut_nil, <- Hl; reflexivity|]. unfold zlen at 1. rewrite cut_length by done. rewrite Hl.
  pose proof (Z.div_mod p D ltac:(lia)). symmetry. apply Z.div_unique with (D - 1); lia.
Qed.
Lemma concat_map_cons {A B} (f : A -> list B) x l : concat (map f (x :: l)) = f x ++ concat (map f l).
Proof. reflexivity. Qed.
Lemma first_entry y pre i : zlen pre = i -> 0 < zlen y -> zsub i chunkhash_single_size (pre ++ concat (map all_adlers (cut D y))) = all_adlers (ztake D y).
Proof.
  intros Hi Hy. pose proof D_pos as HD. unfold zsub. rewrite <- Hi, zdrop_app_zlen.
  rewrite cut_step; [|exact HD|intros E; rewrite E in Hy; discriminate Hy]. rewrite concat_map_cons.
  destruct (Z.le_gt_cases D (zlen y)).
  - rewrite ztake_app_le; [apply ztake_ge|]; rewrite zlen_chunk_hashes by (rewrite zlen_ztake; lia); lia.
  - rewrite (zdrop_ge D y), cut_nil by lia. change (concat (map all_adlers [])) with (@nil ascii). rewrite app_nil_r. apply ztake_ge, zlen_chunk_hashes_le. rewrite zlen_ztake; lia.
Qed.

(** The entry of the chunk at [p]. *)
Lemma chunk_entry old p :
  0 <= p < zlen old -> p mod D = 0 -> zsub (8 + chunkhash_single_size * (p / D)) chunkhash_single_size (chunk_hash_file old) = all_adlers (zsub p D old).
Proof.
  intros Hp Hm. pose proof D_pos as HD. unfold chunk_hash_file. assert (Hl : zlen (ztake p old) = p) by (rewrite zlen_ztake; lia).
  rewrite <- (ztake_zdrop p old) at 2. rewrite cut_app_whole, map_app, concat_app by (rewrite ?Hl; assumption). rewrite app_assoc.
  apply first_entry; [|rewrite zlen_zdrop; lia].
  rewrite zlen_app, zlen_le_bytes, (zlen_hashes_before (ztake p old) p) by (assumption || lia). reflexivity.
Qed.

Lemma words_cons a r : words (a :: r) = le_bytes 4 a ++ words r.
Proof. reflexivity. Qed.
(** The checksum of a small block in the structure that was read; what was in the
    structure before does not matter. *)
Lemma small_entry ob junk o :
  0 <= o -> o mod SB = 0 -> o < zlen ob ->
  zsub (big_hash_size + 4 * (o / SB)) small_hash_size (zsplice 0 (all_adlers ob) junk) = le_bytes 4 (adler (zsub o SB ob)).
Proof.
  intros Ho Hm Hl. assert (Hlo : zlen (ztake o ob) = o) by (rewrite zlen_ztake; lia).
  unfold zsplice. rewrite ztake_0. cbn [app]. unfold all_adlers.
  assert (E : cut SB ob = cut SB (ztake o ob) ++ zsub o SB ob :: cut SB (zdrop SB (zdrop o ob))).
  { rewrite <- (ztake_zdrop o ob) at 1. rewrite cut_app_whole by (rewrite ?Hlo; done). f_equal. apply cut_step; [done|].
    intros E. pose proof (zlen_zdrop o ob Ho) as Hz. rewrite E in Hz. change (zlen (@nil ascii)) with 0 in Hz. lia. }
  rewrite E, map_app, words_app, map_cons, words_cons.
  rewrite <- !app_assoc, (app_assoc (md5_spec ob)). apply zsub_app_zlen; [|by rewrite zlen_le_bytes].
  rewrite zlen_app, zlen_md5_spec, zlen_words, zlen_map, zlen_cut_whole, Hlo by (rewrite Hlo; done). reflexivity.
Qed.
Lemma big_entry ob junk : ztake big_hash_size (zsplice 0 (all_adlers ob) junk) = md5_spec ob.
Proof.
  unfold zsplice, all_adlers. rewrite ztake_0, <- !app_assoc. cbn [app]. change big_hash_size with 16.
  rewrite <- (zlen_md5_spec ob). apply ztake_app_zlen.
Qed.
Lemma adler_eq b c : le_bytes 4 (adler b) = le_bytes 4 (adler c) -> adler b = adler c.
Proof.
  intros E. pose proof (adler_range b). pose proof (adler_range c). apply (f_equal le_val) in E. rewrite !le_val_le_bytes in E.
  change (256 ^ Z.of_nat 4) with (2 ^ 32) in E. by rewrite !Z.mod_small in E by lia.
Qed.

(** ** What is written *)

Definition small_count (x : Z) : nat := Z.to_nat ((x + SB - 1) / SB).
(** The bytes of those of the first [n] small blocks that are not the older version's. *)
Fixpoint changed_bytes (new old : bytes) (n : nat) : Z :=
  match n with
  | O => 0
  | S k =>
      let o := SB * Z.of_nat k in
      changed_bytes new old k + (if bool_decide (zsub o SB old = zsub o SB new) then 0 else zlen (zsub o SB new))
  end.
Lemma changed_step new old x r : 0 <= x -> x mod SB = 0 -> 0 < r <= SB ->
  changed_bytes new old (small_count (x + r)) =
  changed_bytes new old (small_count x) + (if bool_decide (zsub x SB old = zsub x SB new) then 0 else zlen (zsub x SB new)).
Proof.
  intros Hx Hm Hr. apply Z.mod_divide in Hm as [q ->]; [|done]. assert (Hq : 0 <= q) by (unfold SB in *; lia).
  assert (E1 : small_count (q * SB) = Z.to_nat q).
  { unfold small_count. f_equal. symmetry. apply Z.div_unique with (SB - 1); unfold SB; lia. }
  assert (E2 : small_count (q * SB + r) = S (Z.to_nat q)).
  { unfold small_count. rewrite <- Z2Nat.inj_succ by lia. f_equal. symmetry. apply Z.div_unique with (r - 1); unfold SB in *; lia. }
  rewrite E1, E2. cbn [changed_bytes]. by rewrite Z2Nat.id, (Z.mul_comm SB) by lia.
Qed.

Section Inplace.
Context {F H : Type} `{FileLaws F} `{!IFsFile F} `{!PunchLaws F} `{IHashFunc H}.
Context (sparse_hashes : bytes) (md5_mem : MD5.t) (cb : option (F -> bool)) (Hmem : zlen (MD5.buffer md5_mem) = 64).
Context (new old : bytes) (treehash : bool) (h0 : option H).
Notation N := (zlen new).
Notation M := (zlen old).
(** Both versions have the same number of small blocks, and a small block that
    has changed has another checksum. *)
Context (Hsame : forall o, 0 <= o -> o mod SB = 0 -> (o < N <-> o < M))
  (Hcol : forall o, 0 <= o -> o mod SB = 0 -> adler (zsub o SB old) = adler (zsub o SB new) -> zsub o SB old = zsub o SB new).

Lemma zdrop_write (d : bytes) p b : 0 <= p -> zdrop (p + zlen b) (file_write d p b) = zdrop (p + zlen b) d.
Proof.
  intros Hp. pose proof (zlen_nonneg d). pose proof (zlen_nonneg b). unfold file_write, zsplice. set (m := Z.max (zlen d) (p + zlen b)).
  rewrite app_assoc, zdrop_app_ge; rewrite ?zlen_app, ?zlen_ztake, ?zlen_zresize by lia; [|lia].
  replace (p + zlen b - _) with 0 by lia. rewrite zdrop_0. destruct (Z.le_gt_cases (p + zlen b) (zlen d)).
  - unfold m. by rewrite Z.max_l, zresize_same by lia.
  - rewrite !zdrop_ge; [done|lia|rewrite zlen_zresize; lia].
Qed.

(** After [m] bytes of the chunk at [p]: the copy is new before and old behind,
    and the old version of these bytes has been digested. *)
Definition inplace_inv (p : Z) (b ob : bytes) (m : Z) (control : MD5.t) (c : copying F) : Prop :=
  exists cf, copy c = Some cf /\ copied new M (p + m) cf c /\ zdrop (p + m) (contents cf) = zdrop (p + m) old /\
    md5_of (if m =? zlen b then ob else ztake m ob) control /\ inplace_written c = changed_bytes new old (small_count (p + m)).

Lemma copy_write_written cbuf f eof (c c' : copying F) : copy_write cb cbuf f eof c = Done c' -> inplace_written c' = inplace_written c + zlen cbuf.
Proof. unfold copy_write. destruct (write_repeat _ _ _); [|done|done]. intros E. by injection E as <-. Qed.

Section Chunk.
Context (p : Z) (b ob : bytes) (Hp : 0 <= p) (HpN : p < N) (Hpm : p mod D = 0).
Context (Hb : b = zsub p D new) (Hob : ob = zsub p D old).

Lemma chunk_len : zlen b = Z.min D (N - p) /\ zlen ob = Z.min D (M - p) /\ p < M.
Proof.
  pose proof D_pos. assert (p < M).
  { apply Hsame; [exact Hp| |exact HpN]. apply Z.mod_divide; [done|]. apply (Z.divide_trans _ D); [by exists 128|]. apply Z.mod_divide; [lia|exact Hpm]. }
  split; [|split; [|done]]; subst b ob; unfold zsub; rewrite zlen_ztake, zlen_zdrop; lia.
Qed.
Lemma small_same o : 0 <= o -> o mod SB = 0 -> (p + o < N <-> p + o < M).
Proof.
  intros Ho Hm. apply Hsame; [lia|]. rewrite Z.add_mod, Hm by done. assert (p mod SB = 0) as ->; [|done].
  apply Z.mod_divide; [done|]. apply (Z.divide_trans _ D); [by exists 128|]. apply Z.mod_divide; [pose proof D_pos; lia|exact Hpm].
Qed.
(** Small blocks end inside the chunk. *)
Lemma small_inside o : 0 <= o -> o mod SB = 0 -> o < D -> o + SB <= D.
Proof.
  intros Ho Hm Hl. apply Z.mod_divide in Hm as [q ->]; [|done]. rewrite D_small in *. unfold SB in *. lia.
Qed.
Lemma old_block o : 0 <= o -> o + SB <= D -> zsub o SB ob = zsub (p + o) SB old.
Proof. intros Ho Hl. rewrite Hob. apply zsub_zsub; unfold SB in *; lia. Qed.
Lemma new_block o r : 0 <= o -> o + SB <= D -> r = Z.min SB (zlen b - o) -> 0 < r -> zsub o r b = zsub (p + o) SB new /\ zsub o r b = zsub (p + o) r new.
Proof.
  intros Ho Hl Er Hr. destruct chunk_len as (Lb & _). assert (E : zsub (p + o) r new = zsub (p + o) SB new).
  { unfold zsub. destruct (Z.le_gt_cases SB (zlen b - o)); [by rewrite Er, Z.min_l by lia|]. rewrite Er, !ztake_ge; [done|rewrite zlen_zdrop; lia..]. }
  split; [rewrite <- E|]; rewrite Hb; apply zsub_zsub; lia.
Qed.
Lemma digested o r : 0 <= o -> o mod SB = 0 -> r = Z.min SB (zlen b - o) -> 0 < r ->
  (if o + r =? zlen b then ob else ztake (o + r) ob) = ztake o ob ++ zsub o SB ob.
Proof.
  intros Ho Hm Er Hr. destruct chunk_len as (Lb & Lo & HM). pose proof (small_inside o Ho Hm ltac:(lia)).
  assert (Hm2 : (o + SB) mod SB = 0) by (replace (o + SB) with (o + 1 * SB) by lia; by rewrite Z.mod_add).
  pose proof (small_same (o + SB) ltac:(unfold SB; lia) Hm2). rewrite <- ztake_add by (unfold SB; lia).
  destruct (Z.eqb_spec (o + r) (zlen b)).
  - symmetry. apply ztake_ge. unfold SB in *. lia.
  - f_equal. lia.
Qed.

Lemma inplace_step junk o r control c (cbuf := zsub o r b) :
  0 <= o -> o mod SB = 0 -> r = Z.min SB (zlen b - o) -> 0 < r -> inplace_inv p b ob o control c ->
  exists control' c', inplace_small cb (Some (zsub (big_hash_size + 4 * (o / SB)) small_hash_size (zsplice 0 (all_adlers ob) junk)))
      (le_bytes 4 (adler cbuf)) cbuf control c = Done (control', c') /\ inplace_inv p b ob (o + r) control' c'.
Proof.
  intros Ho Hm Er Hr (cf & Ec & Hc & Htail & Hctl & Hwr). destruct chunk_len as (Lb & Lo & HM). pose proof (small_inside o Ho Hm ltac:(lia)) as HoD.
  pose proof (small_same o Ho Hm) as Hiff. assert (Lc : zlen cbuf = r) by (unfold cbuf; apply zlen_zsub; lia).
  rewrite (proj2 (Z.eqb_neq o (zlen b))) in Hctl by lia.
  rewrite small_entry by lia. rewrite old_block by lia. destruct (new_block o r Ho HoD Er Hr) as [Eb1 Eb2]. fold cbuf in Eb1, Eb2.
  assert (Hold : zsub (p + o) SB (contents cf) = zsub (p + o) SB old) by (unfold zsub; by rewrite Htail).
  set (oblk := zsub (p + o) SB old) in *. assert (Lob : zlen oblk < 2 ^ 32 - 64).
  { unfold oblk, zsub. rewrite zlen_ztake by (unfold SB; lia). unfold SB. lia. }
  assert (Hdig : forall m', md5_of (ztake o ob ++ oblk) m' -> md5_of (if o + r =? zlen b then ob else ztake (o + r) ob) m').
  { intros m'. rewrite digested, old_block by lia. done. }
  assert (Hpo : (p + o) mod SB = 0).
  { rewrite Z.add_mod, Hm by done. assert (p mod SB = 0) as ->; [|done].
    apply Z.mod_divide; [done|]. apply (Z.divide_trans _ D); [by exists 128|]. apply Z.mod_divide; [pose proof D_pos; lia|exact Hpm]. }
  assert (Hch := changed_step new old (p + o) r ltac:(lia) Hpo ltac:(lia)). fold oblk in Hch. rewrite <- Eb1, Lc in Hch.
  set (written := if bool_decide (oblk = cbuf) then _ else _) in Hch. assert (Ewr : written = if bool_decide (oblk = cbuf) then 0 else r) by done. clearbody written. revert Ewr.
  unfold inplace_small. rewrite Ec, (cp_pos _ _ _ _ _ Hc). destruct (bool_decide_reflect (le_bytes 4 (adler cbuf) = le_bytes 4 (adler oblk))) as [Eh|Eh]; intros Ewr.
  - apply adler_eq in Eh. pose proof (Hcol (p + o) ltac:(lia)) as Heq. fold oblk in Heq. rewrite <- Eb1 in Heq.
    specialize (Heq Hpo (eq_sym Eh)). rewrite bool_decide_true in Ewr by done. rewrite Ewr, Z.add_0_r in Hch. do 2 eexists. split; [reflexivity|]. exists cf. unfold copy_keep. rewrite (cp_pos _ _ _ _ _ Hc). cbn [copy].
    split; [reflexivity|]. rewrite Z.add_assoc, <- Lc. split; [|split; [|split]].
    + apply (copied_keep new M (p + o) cf c cbuf cf); [exact Hc|lia|rewrite Lc; exact Eb2| |reflexivity].
      rewrite <- Hold in Heq. rewrite Lc. unfold zsub in Heq |- *. 
      transitivity (ztake r (ztake SB (zdrop (p + o) (contents cf)))); [rewrite ztake_ztake; f_equal; lia|]. rewrite Heq. apply ztake_ge. lia.
    + pose proof (zlen_nonneg cbuf). rewrite <- !(zdrop_zdrop (zlen cbuf) (p + o)) by lia. by rewrite Htail.
    + rewrite Lc. apply Hdig. rewrite Heq. apply update_of; [exact Hctl|]. rewrite <- Heq. exact Lob.
    + cbn [inplace_written]. rewrite Lc, Hch. exact Hwr.
  - rewrite bool_decide_false in Ewr by (intros Eq; apply Eh; by rewrite Eq). rewrite Ewr in Hch.
    destruct (seek_law cf (p + o) ltac:(lia)) as (_ & Es & Ep). destruct (read_law (snd (Seek cf (p + o))) c_small_hash_dist) as (Er1 & Ec1 & _); [done|].
    rewrite Es, Ep, file_read_zsub in *. change c_small_hash_dist with SB in *. rewrite Hold in Er1.
    destruct (Read (snd (Seek cf (p + o))) SB) as [rd f2]. cbn [snd] in *. injection Er1 as ->.
    destruct (copy_write_ok cb new M (p + o) cf c cbuf f2 (copy_read_eof c || (zlen oblk <? SB))) as (cf' & c' & Ew & Ec' & Hc' & _ & Hw);
      [exact Hc|exact Ec1|lia|unfold SB in *; lia|lia|rewrite Lc; exact Eb2|].
    rewrite Ew. cbn [rbind]. do 2 eexists. split; [reflexivity|]. exists cf'. split; [exact Ec'|]. rewrite Z.add_assoc, <- Lc. split; [exact Hc'|]. split; [|split].
    + rewrite Hw, zdrop_write by lia. pose proof (zlen_nonneg cbuf). rewrite <- !(zdrop_zdrop (zlen cbuf) (p + o)) by lia. by rewrite Htail.
    + rewrite Lc. apply Hdig. apply update_of; [exact Hctl|exact Lob].
    + apply copy_write_written in Ew. rewrite Ew, Lc, Hch. by f_equal.
Qed.
End Chunk.

(** ** All chunks *)

(** The copy is new before [p] and old behind, and only changed small blocks have been
    written. *)
Definition tail_inv (p : Z) (c : copying F) : Prop :=
  exists cf, copy c = Some cf /\ copied new M p cf c /\ zdrop p (contents cf) = zdrop p old /\
    inplace_written c = changed_bytes new old (small_count p).

Notation chunk_done := (chunk_done new treehash h0).
Notation out_inv := (out_inv new).
Notation hash_inv := (hash_inv new treehash h0).
Notation all_done := (all_done new treehash M h0 true).

Lemma inplace_chunk_ok n s junk (p := Z.of_nat n * D) (b := zsub p D new) :
  p < N -> contents (st_f s) = new -> fpos (st_f s) = p -> chunk_hashes s = Some (zsplice 0 (all_adlers (zsub p D old)) junk) ->
  out_inv p (st_out s) -> hash_inv n (sparse_extent_start s) (st_hash s) -> tail_inv p (copy_state s) ->
  exists p' s', data_chunk md5_mem cb treehash true N p (p + D) s = Done (p', s') /\ chunk_done n (tail_inv (p + zlen b)) s p p' s'.
Proof.
  intros HpN Hf Hfp Hold Hout Hh Hcopy. pose proof D_pos as HD. assert (Hp0 : 0 <= p) by (unfold p; lia).
  assert (Hpm : p mod D = 0) by (apply Z.mod_mul; lia). remember (zsub p D old) as ob eqn:Eob. assert (Eb : b = zsub p D new) by reflexivity. clearbody b.
  destruct (chunk_len p b ob Hp0 HpN Hpm Eb Eob) as (Lb & Lo & HM).
  apply (data_chunk_gen md5_mem cb Hmem new treehash true h0 n s (inplace_inv p b ob) (tail_inv (p + zlen b)) b); try assumption.
  - destruct Hcopy as (cf & Ec & Hc & Htail & Hwr). exists cf. cbn [no_extent_run copy inplace_written]. split; [exact Ec|]. rewrite Z.add_0_r.
    split; [destruct Hc; by split|]. split; [exact Htail|]. rewrite (proj2 (Z.eqb_neq 0 (zlen b))) by lia. rewrite ztake_0. split; [apply init_of, Hmem|exact Hwr].
  - intros o r control c cbuf Ho Hom Er Hr HJ. rewrite Hold.
    destruct (inplace_step p b ob Hp0 HpN Hpm Eb Eob junk o r control c Ho Hom Er Hr HJ) as (x & y & E & HJ'). exists x, y. split; [exact E|exact HJ'].
  - intros buf control c Hbuf (cf & Ec & Hc & Htail & Hctl & Hwr). exists c. unfold copy_tail. rewrite Ec. split; [reflexivity|].
    split; [by exists cf|]. rewrite Hold. exists ob. rewrite Z.eqb_refl in Hctl. split; [exact Hctl|apply big_entry].
Qed.

Lemma inplace_chunks_ok fi0 fuel : forall n s junk fi,
  contents fi0 = chunk_hash_file old -> contents fi = contents fi0 ->
  contents (st_f s) = new -> fpos (st_f s) = Z.of_nat n * D -> chunk_hashes s = Some junk -> st_in s = Some fi ->
  hashoutputpos s = 8 + chunkhash_single_size * Z.of_nat n -> curr_extent s = no_extent -> extents s = None ->
  out_inv (Z.of_nat n * D) (st_out s) -> hash_inv n (sparse_extent_start s) (st_hash s) -> tail_inv (Z.of_nat n * D) (copy_state s) ->
  Z.of_nat n * D <= N -> (Z.to_nat (N / D - Z.of_nat n) + 3 <= fuel)%nat ->
  exists s', chunks sparse_hashes md5_mem cb fuel treehash true N M (Z.of_nat n * D) s = Done s' /\ all_done s' /\
    inplace_written (copy_state s') = changed_bytes new old (small_count N).
Proof.
  pose proof D_pos as HD. induction fuel as [|fuel IH]; intros n s junk fi Hfi0 Hfi Hf Hfp Hold Hin Hpos Hcur Hit Hout Hh Hcopy HnN Hfuel; [lia|].
  set (p := Z.of_nat n * D) in *. assert (Hp0 : 0 <= p) by (unfold p; lia). assert (Hpm : p mod D = 0) by (apply Z.mod_mul; lia).
  destruct (Z.lt_ge_cases p N) as [HpN|HpN].
  2:{ exists s. assert (EN : p = N) by lia. rewrite (chunks_end sparse_hashes md5_mem cb new) by lia. split; [reflexivity|].
      destruct Hcopy as (cf & Ec & Hc & _ & Hwr). rewrite EN in Hc, Hwr. split; [split_and!|exact Hwr].
      - apply (out_done new p); [exact Hout|lia].
      - by apply (finish_at_end new treehash h0 n).
      - exists cf. by split. }
  assert (Hle : Z.of_nat n <= N / D) by (apply Z.div_le_lower_bound; unfold p in *; lia).
  destruct (chunk_len p (zsub p D new) (zsub p D old) Hp0 HpN Hpm eq_refl eq_refl) as (Lb & Lo & HM).
  cbn [chunks]. rewrite (proj2 (Z.ltb_lt p N)) by lia.
  assert (Hread : exists fi', read_old M p s = (Some fi', Some (zsplice 0 (all_adlers (zsub p D old)) junk)) /\ contents fi' = contents fi0).
  { unfold read_old. rewrite Hold, Hin, (proj2 (Z.ltb_lt p M)) by lia. rewrite Hpos.
    destruct (seek_law fi (8 + chunkhash_single_size * Z.of_nat n)) as (_ & Es & Ep); [rewrite single_size; lia|].
    destruct (read_law (snd (Seek fi (8 + chunkhash_single_size * Z.of_nat n))) chunkhash_single_size) as (Er & Ec & _); [done|].
    rewrite Es, Ep, Hfi, Hfi0, file_read_zsub in *.
    assert (Ediv : Z.of_nat n = p / D) by (symmetry; apply Z.div_mul; lia). rewrite Ediv in Er at 2. rewrite chunk_entry in Er by (lia || assumption).
    destruct (Read _ chunkhash_single_size) as [rd fi']. cbn [snd] in Ec. injection Er as ->.
    exists fi'. split; [|by rewrite Ec]. rewrite (proj2 (Z.eqb_neq _ _)); [reflexivity|]. rewrite zlen_all_adlers. pose proof (zlen_nonneg (cut SB (zsub p D old))). lia. }
  destruct Hread as (fi' & -> & Hfi'). unfold next_extents. rewrite Hcur, Hit.
  assert (Es : hs_skip_extents fuel p no_extent None = Some (no_extent, @None (ExtentIterator.t F))) by (by destruct fuel). rewrite Es. cbn [rbind].
  change (negb (offset no_extent =? -1)) with false. cbn [andb].
  set (s1 := mkState _ _ _ _ _ _ _ _ _ _ _ _).
  destruct (inplace_chunk_ok n s1 junk) as (p' & s' & E & (Hf' & Hold' & Hit' & Hcur' & Hin' & Hpos' & Hout' & Hc' & Hx)); try assumption; [reflexivity|].
  fold p in E, Hpos', Hout', Hc', Hx. rewrite E. cbn [rbind]. destruct (Z.leb_spec (p + D) N) as [Hfull|Hpart].
  - destruct Hx as (-> & Hfp' & Hh'). assert (Ep : p + D = Z.of_nat (S n) * D) by (unfold p; lia).
    assert (Z.of_nat n + 1 <= N / D) by (apply Z.div_le_lower_bound; unfold p in *; lia).
    rewrite zlen_chunk_hashes in Hpos' by lia. replace (p + zlen (zsub p D new)) with (p + D) in Hc' by lia. rewrite Ep in *.
    apply (IH (S n) s' (zsplice 0 (all_adlers (zsub p D old)) junk) fi'); try assumption.
    + rewrite Hpos'. cbn [s1 hashoutputpos]. rewrite Hpos. rewrite single_size. lia.
    + lia.
  - destruct Hx as (Hp' & Hh'). exists s'. rewrite (chunks_end sparse_hashes md5_mem cb new) by lia. split; [reflexivity|].
    destruct Hc' as (cf & Ec & Hc' & _ & Hwr). replace (p + zlen (zsub p D new)) with N in Hc', Hwr by lia. split; [split_and!|exact Hwr].
    + apply (out_done new (p + D)); [exact Hout'|lia].
    + by apply (finish_done new treehash h0).
    + exists cf. split; [exact Ec|exact Hc'].
Qed.
End Inplace.

Lemma blocks_below q n : SB * q < n <-> q < (n + SB - 1) / SB.
Proof.
  pose proof (Z.div_mod (n + SB - 1) SB ltac:(done)). pose proof (Z.mod_pos_bound (n + SB - 1) SB ltac:(done)). unfold SB in *. lia.
Qed.
Lemma same_small_blocks (new old : bytes) : (zlen new + SB - 1) / SB = (zlen old + SB - 1) / SB ->
  forall o, 0 <= o -> o mod SB = 0 -> (o < zlen new <-> o < zlen old).
Proof.
  intros E o Ho Hm. apply Z.mod_divide in Hm as [q ->]; [|done]. rewrite (Z.mul_comm q). rewrite !blocks_below, E. done.
Qed.

Lemma finish_copy_written {F} `{IFile F} (c c' : copying F) : finish_copy c = Done c' -> inplace_written c' = inplace_written c.
Proof.
  unfold finish_copy. intros E. destruct (copy c); [|by injection E as <-]. destruct (_ && _); [|by injection E as <-].
  destruct (guard _); [|done|done]. by injection E as <-.
Qed.

(** C5: incremental backup in place, without extents.  The copy holds an older version
    of the file with as many small blocks, [hashinput] its chunk hashes, and no small
    block has changed without changing its checksum.  Then [build_chunk_hashs] comes to
    an end without an error; the copy begins with the new contents and keeps its length
    if it was longer; exactly the small blocks that differ from the older version's have
    been written to it, as the code itself counts the bytes ([inplace_written]), so that
    no chunk was copied again; and hash output and hash are those of the new version. *)
Theorem build_chunk_hashs_incremental {F H} `{FileLaws F} `{!IFsFile F} `{!PunchLaws F} `{IHashFunc H}
    (sparse_hashes : bytes) (md5_mem : MD5.t) (chunk_mem : bytes) (cb : option (F -> bool))
    (new old : bytes) (f out cp hashinput : F) (treehash : bool) (h0 : option H) (fuel : nat) :
  zlen (MD5.buffer md5_mem) = 64 ->
  contents f = new -> contents out = [] -> contents cp = old -> contents hashinput = chunk_hash_file old -> zlen old < 2 ^ 63 ->
  (zlen new + SB - 1) / SB = (zlen old + SB - 1) / SB ->
  (forall o, 0 <= o -> o mod SB = 0 -> adler (zsub o SB old) = adler (zsub o SB new) -> zsub o SB old = zsub o SB new) ->
  (Z.to_nat (zlen new / D) + 3 <= fuel)%nat ->
  exists s c', build_chunk_hashs sparse_hashes md5_mem chunk_mem cb fuel f out (Some cp) true (Some hashinput) treehash h0 None = Done s /\
    contents (st_out s) = chunk_hash_file new /\ st_hash s = chunked_file_hash treehash new <$> h0 /\
    copy (copy_state s) = Some c' /\ ztake (zlen new) (contents c') = new /\ zlen (contents c') = Z.max (zlen old) (zlen new) /\
    inplace_written (copy_state s) = changed_bytes new old (small_count (zlen new)).
Proof.
  intros Hmem Hf Hout Hcp Hin Hold Hsame Hcol Hfuel. pose proof D_pos as HD. pose proof (zlen_nonneg new). pose proof (zlen_nonneg old).
  unfold build_chunk_hashs. destruct (seek_law f 0 ltac:(lia)) as (_ & Ef & Ep). rewrite size_law, Ef, Hf.
  destruct (out_start cb new out Hout) as (o1 & -> & Ho1). cbn [rbind].
  destruct (seek_law hashinput 0 ltac:(lia)) as (_ & Ei & Eip). destruct (read_law (snd (Seek hashinput 0)) 8 ltac:(lia)) as (Er & Ec & _).
  rewrite Ei, Eip, Hin, file_read_zsub in *. assert (E8 : zsub 0 8 (chunk_hash_file old) = le_bytes 8 (w64 (zlen old))).
  { unfold chunk_hash_file. apply (zsub_app_zlen 0 8 []); [reflexivity|rewrite zlen_le_bytes; reflexivity]. }
  rewrite E8 in Er. remember (le_bytes 8 (w64 (zlen old))) as head eqn:Ehead. destruct (Read (snd (Seek hashinput 0)) 8) as [rd fi]. cbn [snd] in Ec. injection Er as ->.
  rewrite Ehead, zlen_le_bytes, le_val_le_bytes. change (Z.of_nat 8) with 8. change (8 =? 8) with true. cbn [rbind].
  assert (Esz : s64 (w64 (zlen old) mod 256 ^ 8) = zlen old).
  { rewrite w64_id by lia. rewrite Z.mod_small by (change (256 ^ 8) with (2 ^ 64); lia). apply s64_id. lia. }
  rewrite Esz. cbn [rbind]. set (s0 := mkState _ _ _ _ _ _ _ _ _ _ _ _).
  destruct (inplace_chunks_ok sparse_hashes md5_mem cb Hmem new old treehash h0 (same_small_blocks new old Hsame) (fun o Ho Hm => Hcol o Ho Hm)
    hashinput fuel 0 s0 chunk_mem fi) as (s & E & (Hdone & Hhash & Hcopy) & Hwr).
  - exact Hin.
  - exact (eq_trans Ec (eq_sym Hin)).
  - exact (eq_trans Ef Hf).
  - exact Ep.
  - reflexivity.
  - reflexivity.
  - reflexivity.
  - reflexivity.
  - reflexivity.
  - exact Ho1.
  - unfold hash_inv. cbn [st_hash s0]. destruct h0 as [x|]; [|reflexivity]. exists x. split; reflexivity.
  - exists cp. cbn [copy_state s0 copy]. split; [reflexivity|]. change (Z.of_nat 0 * D) with 0. rewrite Hcp. split; [|by split].
    split; cbn [copy_write_pos copy_max_sparse]; rewrite ?Hcp; [reflexivity|lia|intros i Hi; lia|left; lia|lia].
  - lia.
  - lia.
  - change (Z.of_nat 0 * D) with 0 in E. rewrite E. cbn [rbind]. rewrite Hhash. cbn [rbind].
    destruct (finish_copy_ok new true (zlen old) _ Hcopy) as (c' & Efc & Hc'). rewrite Efc. apply finish_copy_written in Efc. cbn [rbind]. destruct Hc' as (cf & Hc1 & Hc2 & Hc3).
    eexists _, cf. split; [reflexivity|]. cbn [st_out st_hash copy_state]. split_and!; try assumption; [reflexivity|by rewrite Efc].
Qed.

(** A file that became shorter.  The digest of the old chunk is taken over the small
    blocks that the new version still has, so that it cannot agree when the file has lost
    a small block; the chunk is copied again as after a collision of checksums and then
    gone through once more, although the file is read from its end.  At a file of 4097
    bytes of which the last is cut off: the write of no bytes makes [build_chunk_hashs]
    fail. *)
Example build_chunk_hashs_shrunk :
  let old := replicate 4097 "a"%char in
  let new := ztake 4096 old in
  build_chunk_hashs (H := list Recorder.event) [] md5_mem [] None 10 (CMemoryFile.mk new 0) (CMemoryFile.mk [] 0) (Some (CMemoryFile.mk old 0)) true
    (Some (CMemoryFile.mk (chunk_hash_file old) 0)) false None None = ReturnFalse.
Proof. vm_compute. reflexivity. Qed.

Lemma build_chunk_hashs_incremental_witness :
  let old := str "abcdef" in
  let new := str "abXdefgh" in
  exists s c', build_chunk_hashs (H := list Recorder.event) [] md5_mem [] None 10 (CMemoryFile.mk new 0) (CMemoryFile.mk [] 0) (Some (CMemoryFile.mk old 0)) true
    (Some (CMemoryFile.mk (chunk_hash_file old) 0)) true (Some []) None = Done s /\
    contents (st_out s) = chunk_hash_file new /\ st_hash s = chunked_file_hash true new <$> Some [] /\
    copy (copy_state s) = Some c' /\ ztake (zlen new) (contents c') = new /\ zlen (contents c') = Z.max (zlen old) (zlen new) /\
    inplace_written (copy_state s) = changed_bytes new old (small_count (zlen new)).
Proof.
  intros old new.
  apply (build_chunk_hashs_incremental (H := list Recorder.event) [] md5_mem [] None new old (CMemoryFile.mk new 0) (CMemoryFile.mk [] 0)
    (CMemoryFile.mk old 0) (CMemoryFile.mk (chunk_hash_file old) 0) true (Some []) 10).
  - vm_compute. reflexivity.
  - reflexivity.
  - reflexivity.
  - reflexivity.
  - reflexivity.
  - vm_compute. reflexivity.
  - vm_compute. reflexivity.
  - intros o Ho Hm Ha. apply Z.mod_divide in Hm; [|unfold SB; lia]. destruct Hm as [[|q|q] ->]; [|clear Ha|unfold SB in Ho; lia].
    + exfalso. vm_compute in Ha. discriminate Ha.
    + assert (Hnil : forall l : bytes, zlen l < SB -> zsub (Z.pos q * SB) SB l = []).
      { intros l Hl. unfold zsub. rewrite zdrop_ge by (unfold SB in *; lia). unfold ztake. apply take_nil. }
      rewrite !Hnil by reflexivity. reflexivity.
  - apply Nat.leb_le. vm_compute. reflexivity.
Defined.
