(* ===== verification/TreeNode.v ===== *)
(** Nodes of a file tree: [urbackupserver/treediff/TreeNode.cpp].

    A tree is an array of nodes in the order of the file list; a pointer to a node is
    its index, [None] the null pointer.  Names and data lie in a buffer that is not
    changed once they are written, so a node holds what its pointers point to: the C
    string (without its terminator) and the data bytes. *)
From S2P Require Import Prelude.

Definition c_treenode_data_size_file : Z := 2 * 8.
Definition c_treenode_data_size_dir : Z := 8.

Record TreeNode := mkNode {
  node_type : char;
  name : option bytes;
  data : option bytes;
  nextSibling : option nat;
  parent : option nat;
  mapped_node : option nat;
  num_children : nat;
  subtree_changed : bool;
  id : nat }.

(** [TreeNode()] *)
Definition new_node : TreeNode := mkNode nul None None None None None 0 false 0.

(** What a C string pointer to [b] with a terminator behind it points to. *)
Fixpoint c_str (b : bytes) : bytes :=
  match b with [] => [] | c :: r => if ceq c nul then [] else c :: c_str r end.

Definition setName (pName : bytes) (n : TreeNode) : TreeNode :=
  mkNode (node_type n) (Some (c_str pName)) (data n) (nextSibling n) (parent n) (mapped_node n) (num_children n) (subtree_changed n) (id n).
Definition setData (pData : bytes) (n : TreeNode) : TreeNode :=
  mkNode (node_type n) (name n) (Some pData) (nextSibling n) (parent n) (mapped_node n) (num_children n) (subtree_changed n) (id n).
Definition setType (t : char) (n : TreeNode) : TreeNode :=
  mkNode t (name n) (data n) (nextSibling n) (parent n) (mapped_node n) (num_children n) (subtree_changed n) (id n).
Definition setNextSibling (p : option nat) (n : TreeNode) : TreeNode :=
  mkNode (node_type n) (name n) (data n) p (parent n) (mapped_node n) (num_children n) (subtree_changed n) (id n).
Definition setParent (p : option nat) (n : TreeNode) : TreeNode :=
  mkNode (node_type n) (name n) (data n) (nextSibling n) p (mapped_node n) (num_children n) (subtree_changed n) (id n).
Definition setMappedNode (p : option nat) (n : TreeNode) : TreeNode :=
  mkNode (node_type n) (name n) (data n) (nextSibling n) (parent n) p (num_children n) (subtree_changed n) (id n).
Definition incrementNumChildren (n : TreeNode) : TreeNode :=
  mkNode (node_type n) (name n) (data n) (nextSibling n) (parent n) (mapped_node n) (S (num_children n)) (subtree_changed n) (id n).
Definition setSubtreeChanged (b : bool) (n : TreeNode) : TreeNode :=
  mkNode (node_type n) (name n) (data n) (nextSibling n) (parent n) (mapped_node n) (num_children n) b (id n).
Definition setId (pId : nat) (n : TreeNode) : TreeNode :=
  mkNode (node_type n) (name n) (data n) (nextSibling n) (parent n) (mapped_node n) (num_children n) (subtree_changed n) pId.

Definition getName (n : TreeNode) : bytes := default [] (name n).
Definition getDataSize (n : TreeNode) : Z :=
  if ceq (node_type n) "d"%char then c_treenode_data_size_dir else c_treenode_data_size_file.
Definition getData (n : TreeNode) : bytes :=
  match data n with Some d => ztake (getDataSize n) d | None => [] end.

(** [strcmp], as the sign of its result. *)
Fixpoint strcmp (a b : bytes) : Z :=
  match a, b with
  | [], [] => 0
  | [], _ :: _ => -1
  | _ :: _, [] => 1
  | x :: a, y :: b => if u8 x <? u8 y then -1 else if u8 y <? u8 x then 1 else strcmp a b
  end.

Definition nameCompare (n other : TreeNode) : Z :=
  match name n, name other with
  | Some a, Some b => strcmp a b
  | None, None => 0
  | None, Some _ => -1
  | Some _, None => 1
  end.
Definition nameEquals (n other : TreeNode) : bool :=
  match name n, name other with
  | Some a, Some b => strcmp a b =? 0
  | None, None => true
  | _, _ => false
  end.
Definition dataEquals (n other : TreeNode) : bool :=
  if negb (ceq (node_type n) (node_type other)) then false
  else match data n, data other with
       | Some a, Some b => bool_decide (ztake (getDataSize n) a = ztake (getDataSize n) b)
       | None, None => true
       | _, _ => false
       end.
Definition equals (n other : TreeNode) : bool := nameEquals n other && dataEquals n other.

(** ** Pointers into the array of nodes *)

Definition getNode (ns : list TreeNode) (p : nat) : TreeNode := nth p ns new_node.
Definition update (p : nat) (f : TreeNode -> TreeNode) (ns : list TreeNode) : list TreeNode :=
  <[p := f (getNode ns p)]> ns.

(** The first child lies behind its parent ([this + 1]). *)
Definition getFirstChild (ns : list TreeNode) (p : nat) : option nat :=
  if (0 <? num_children (getNode ns p))%nat then Some (S p) else None.
Definition getNextSibling (ns : list TreeNode) (p : nat) : option nat := nextSibling (getNode ns p).

Fixpoint child_loop (ns : list TreeNode) (k : nat) (c : option nat) : option nat :=
  match k, c with
  | S k, Some p => child_loop ns k (getNextSibling ns p)
  | _, _ => c
  end.
(** The loop ends before [n] siblings with the null pointer, or at the wanted child. *)
Definition getChild (ns : list TreeNode) (p n : nat) : option nat := child_loop ns n (getFirstChild ns p).
