(* ===== verification/TreeReader.v ===== *)
(** Reading a file list into a tree: [urbackupserver/treediff/TreeReader.cpp].

    The list is read twice with the same state machine: the first pass counts the
    entries and the bytes of their names and data, the second one fills the two
    allocations.  A [..] entry closes a directory. *)
From S2P Require Import Prelude MemFile StringTools FileList TreeNode.

(** [Undefined]: an access outside an array, the top of an empty stack, or a call
    that throws; [AssertFails]: the assertions at the end; [Endless]: the given
    number of rounds was not enough. *)
Inductive outcome (A : Type) := Returns (a : A) | ReturnsFalse | AssertFails | Undefined | Endless.
Arguments Returns {A} a.
Arguments ReturnsFalse {A}.
Arguments AssertFails {A}.
Arguments Undefined {A}.
Arguments Endless {A}.
Definition obind {A B} (m : outcome A) (k : A -> outcome B) : outcome B :=
  match m with
  | Returns a => k a | ReturnsFalse => ReturnsFalse | AssertFails => AssertFails
  | Undefined => Undefined | Endless => Endless
  end.
Declare Scope outcome_scope.
Notation "'let+' x := m 'in' k" := (obind m (fun x => k)) (at level 200, x pattern, right associativity) : outcome_scope.
Open Scope outcome_scope.

(** The values of [state]. *)
Inductive read_state := S0 | S1 | S2 | S3 | S4 | S5 | S10.

(** [os_atoi64]: [strtoll(str.c_str(), NULL, 10)]. *)
Definition os_atoi64 (s : bytes) : Z := watoi64 s.

(** ** First pass *)

Record pass1 := mkPass1 { state1 : read_state; lines1 : nat; stringbuffer_size : Z; name1 : bytes; ltype : char }.

Definition line_end1 (s : pass1) : pass1 :=
  let size := if ceq (ltype s) "f"%char then stringbuffer_size s + 2 * 8 else stringbuffer_size s in
  if negb (ceq (ltype s) "d"%char) || negb (bool_decide (name1 s = dotdot)) then
    let size := if ceq (ltype s) "d"%char then size + 8 else size in
    mkPass1 S0 (S (lines1 s)) (size + (zlen (name1 s) + 1)) [] nul
  else mkPass1 S0 (lines1 s) size [] nul.

(** [case 10], reached by fall-through from 3 and 4. *)
Definition case10_1 (s : pass1) (ch : char) : pass1 := if ceq ch nl then line_end1 s else s.

Definition step1 (s : pass1) (ch : char) : option pass1 :=
  let goto st := mkPass1 st (lines1 s) (stringbuffer_size s) (name1 s) (ltype s) in
  let add st x := mkPass1 st (lines1 s) (stringbuffer_size s) (name1 s ++ x) (ltype s) in
  match state1 s with
  | S0 =>
      if ceq ch "f"%char || ceq ch "d"%char then Some (mkPass1 S1 (lines1 s) (stringbuffer_size s) (name1 s) ch)
      else if ceq ch "u"%char then Some (mkPass1 S10 (lines1 s) (stringbuffer_size s) dotdot "d"%char)
      else None
  | S1 => Some (goto S2)
  | S2 =>
      if ceq ch quote then Some (goto S3)
      else if ceq ch "\"%char then Some (goto S5)
      else Some (add S2 [ch])
  | S5 =>
      if negb (ceq ch quote) && negb (ceq ch "\"%char) then Some (add S2 ["\"%char; ch]) else Some (add S2 [ch])
  | S3 => if ceq ch " "%char then Some (goto S4) else Some (case10_1 (goto S10) ch)
  | S4 => if negb (ceq ch nl) then Some s else Some (case10_1 s ch)
  | S10 => Some (case10_1 s ch)
  end.

Fixpoint chars1 (s : pass1) (b : bytes) : option pass1 :=
  match b with [] => Some s | ch :: b => s ← step1 s ch; chars1 s b end.

(** ** Second pass *)

Record pass2 := mkPass2 {
  state2 : read_state;
  name2 : bytes;
  data2 : bytes;
  parents : list nat;
  lastNodes : list nat;
  firstChild : bool;
  idx : nat;
  nodes : list TreeNode;
  stringbuffer_pos : Z;
  lines2 : nat }.

(** The data of a node: [filesize] and [last_mod], or [last_mod]. *)
Definition node_data (ch : char) (sdata : bytes) : bytes :=
  if ceq ch "f"%char then
    le_bytes 8 (os_atoi64 (getuntil (str " ") sdata)) ++ le_bytes 8 (os_atoi64 (getafter (str " ") sdata))
  else le_bytes 8 (os_atoi64 (getafter (str " ") sdata)).

(** Linking the node behind the last one of its directory. *)
Definition link_last (i : nat) (s : pass2) : outcome (list nat * list TreeNode) :=
  if firstChild s then Returns (i :: lastNodes s, nodes s)
  else match lastNodes s with
       | [] => Undefined
       | l :: r => Returns (i :: r, update l (setNextSibling (Some i)) (nodes s))
       end.

Definition add_entry (bufsize : Z) (s : pass2) : outcome pass2 :=
  match data2 s with
  | [] => Undefined
  | ch :: sdata =>
      let ndata := node_data ch sdata in
      let pos := stringbuffer_pos s + (zlen (name2 s) + 1) + zlen ndata in
      if (bufsize <? pos) || (length (nodes s) <=? idx s)%nat then Undefined
      else
        let i := idx s in
        let ns := update i (fun n => setData ndata (setType ch (setId (lines2 s) (setName (name2 s) n)))) (nodes s) in
        let s := mkPass2 (state2 s) (name2 s) (data2 s) (parents s) (lastNodes s) (firstChild s) i ns pos (lines2 s) in
        let+ (last, ns) := link_last i s in
        let ns := match parents s with
                  | [] => ns
                  | p :: _ => update i (setParent (Some p)) (update p incrementNumChildren ns)
                  end in
        let isd := ceq ch "d"%char in
        Returns (mkPass2 S0 [] [] (if isd then i :: parents s else parents s) last isd (S i) ns pos (S (lines2 s)))
  end.

Definition close_dir (s : pass2) : outcome pass2 :=
  match parents s with
  | [] => ReturnsFalse
  | _ :: parents =>
      let+ (last, ns) :=
        if firstChild s then Returns (lastNodes s, nodes s)
        else match lastNodes s with
             | [] => ReturnsFalse
             | l :: r => Returns (r, update l (setNextSibling None) (nodes s))
             end in
      Returns (mkPass2 S0 [] [] parents last false (idx s) ns (stringbuffer_pos s) (S (lines2 s)))
  end.

Definition line_end2 (bufsize : Z) (s : pass2) : outcome pass2 :=
  if negb (bool_decide (name2 s = dotdot)) then add_entry bufsize s else close_dir s.

Definition case10_2 (bufsize : Z) (s : pass2) (ch : char) : outcome pass2 :=
  if ceq ch nl then line_end2 bufsize s else Returns s.

Definition step2 (bufsize : Z) (s : pass2) (ch : char) : outcome pass2 :=
  let set st nm dt := mkPass2 st nm dt (parents s) (lastNodes s) (firstChild s) (idx s) (nodes s) (stringbuffer_pos s) (lines2 s) in
  let goto st := set st (name2 s) (data2 s) in
  let add st x := set st (name2 s ++ x) (data2 s) in
  match state2 s with
  | S0 =>
      if ceq ch "f"%char then Returns (set S1 (name2 s) (data2 s ++ ["f"%char]))
      else if ceq ch "d"%char then Returns (set S1 (name2 s) (data2 s ++ ["d"%char]))
      else if ceq ch "u"%char then Returns (set S10 dotdot (data2 s))
      else ReturnsFalse
  | S1 => Returns (goto S2)
  | S2 =>
      if ceq ch quote then Returns (goto S3)
      else if ceq ch "\"%char then Returns (goto S5)
      else Returns (add S2 [ch])
  | S5 =>
      if negb (ceq ch quote) && negb (ceq ch "\"%char) then Returns (add S2 ["\"%char; ch]) else Returns (add S2 [ch])
  | S3 => if ceq ch " "%char then Returns (goto S4) else case10_2 bufsize (goto S10) ch
  | S4 =>
      if negb (ceq ch nl) then Returns (set S4 (name2 s) (data2 s ++ [ch])) else case10_2 bufsize s ch
  | S10 => case10_2 bufsize s ch
  end.

Fixpoint chars2 (bufsize : Z) (s : pass2) (b : bytes) : outcome pass2 :=
  match b with [] => Returns s | ch :: b => let+ s := step2 bufsize s ch in chars2 bufsize s b end.

(** ** The two loops over the file *)

Section TreeReader.
Context {F : Type} `{IFile F}.

(** [buffer.size()] *)
Definition buffer_size : Z := 512 * 1024.

(** [do .. while (read>0)] *)
Fixpoint loop1 (rounds : nat) (f : F) (s : pass1) : outcome (F * pass1) :=
  match rounds with
  | O => Endless
  | S k =>
      let '((buffer, has_read_error), f) := Read f buffer_size in
      if has_read_error : bool then ReturnsFalse
      else match chars1 s buffer with
           | None => ReturnsFalse
           | Some s => if 0 <? zlen buffer then loop1 k f s else Returns (f, s)
           end
  end.

(** [do .. while (read==buffer.size())] *)
Fixpoint loop2 (rounds : nat) (bufsize : Z) (f : F) (s : pass2) : outcome (F * pass2) :=
  match rounds with
  | O => Endless
  | S k =>
      let '((buffer, has_read_error), f) := Read f buffer_size in
      if has_read_error : bool then ReturnsFalse
      else
        let+ s := chars2 bufsize s buffer in
        if zlen buffer =? buffer_size then loop2 k bufsize f s else Returns (f, s)
  end.

Definition root_str : bytes := str "root".

(** The first node is the root; all stacks hold it. *)
Definition start2 (lines : nat) : pass2 :=
  mkPass2 S0 [] [] [0%nat] [0%nat] true 1
    (update 0 (setName root_str) (replicate (S lines) new_node)) (zlen root_str + 1) 0.

(** [rounds]: a bound for both loops. *)
Definition readTree_rounds (rounds : nat) (f : F) : outcome (list TreeNode * F) :=
  let f := snd (Seek f 0) in
  let+ (f, s1) := loop1 rounds f (mkPass1 S0 0 0 [] nul) in
  let f := snd (Seek f 0) in
  let bufsize := stringbuffer_size s1 + 5 in
  let+ (f, s2) := loop2 rounds bufsize f (start2 (lines1 s1)) in
  if (idx s2 =? length (nodes s2))%nat && (stringbuffer_pos s2 =? bufsize)
  then Returns (update 0 (setNextSibling None) (nodes s2), f)
  else AssertFails.

(** Every round but the last reads [buffer_size] bytes. *)
Definition readTree (f : F) : outcome (list TreeNode * F) :=
  readTree_rounds (2 + Z.to_nat (Size f / buffer_size)) f.
End TreeReader.
