(* ===== verification/TreeDiff.v ===== *)
(** The difference of two file lists: [urbackupserver/treediff/TreeDiff.cpp].

    [diffTrees] compares the list of the last backup with the current one and yields
    the line numbers of the current list's new and changed entries, of the old list's
    entries that are gone, and of the current list's large directories that can be
    taken over from the last backup as they are.  Whether the program is compiled for
    Windows ([_WIN32]) is a parameter. *)
From stdpp Require Import sorting.
From S2P Require Import Prelude MemFile TreeNode TreeReader.

Definition ids := list nat.

(** Both trees and the lists that [gatherDiffs] fills; [None]: a null pointer. *)
Record diff_state := mkDiff {
  tree1 : list TreeNode;
  tree2 : list TreeNode;
  diffs : ids;
  modified_inplace_ids : option ids;
  dir_diffs : ids;
  deleted_inplace_ids : option ids }.

Definition with_tree2 (ns : list TreeNode) (s : diff_state) : diff_state :=
  mkDiff (tree1 s) ns (diffs s) (modified_inplace_ids s) (dir_diffs s) (deleted_inplace_ids s).
Definition push_diff (i : nat) (s : diff_state) : diff_state :=
  mkDiff (tree1 s) (tree2 s) (diffs s ++ [i]) (modified_inplace_ids s) (dir_diffs s) (deleted_inplace_ids s).
Definition push_dir_diff (i : nat) (s : diff_state) : diff_state :=
  mkDiff (tree1 s) (tree2 s) (diffs s) (modified_inplace_ids s) (dir_diffs s ++ [i]) (deleted_inplace_ids s).
(** [if (v != NULL) v->push_back(i);] *)
Definition push_opt (i : nat) (v : option ids) : option ids := (fun l => l ++ [i]) <$> v.
Definition push_modified (i : nat) (s : diff_state) : diff_state :=
  mkDiff (tree1 s) (tree2 s) (diffs s) (push_opt i (modified_inplace_ids s)) (dir_diffs s) (deleted_inplace_ids s).
Definition push_deleted_inplace (i : nat) (s : diff_state) : diff_state :=
  mkDiff (tree1 s) (tree2 s) (diffs s) (modified_inplace_ids s) (dir_diffs s) (push_opt i (deleted_inplace_ids s)).
(** [c2->setMappedNode(c1); c1->setMappedNode(c2);] *)
Definition map_nodes (p1 p2 : nat) (s : diff_state) : diff_state :=
  mkDiff (update p1 (setMappedNode (Some p2)) (tree1 s)) (update p2 (setMappedNode (Some p1)) (tree2 s))
    (diffs s) (modified_inplace_ids s) (dir_diffs s) (deleted_inplace_ids s).

(** [do .. while (p != NULL)]; [fuel]: the number of nodes on the way to the root. *)
Fixpoint subtreeChangedParent (fuel : nat) (p : nat) (ns : list TreeNode) : outcome (list TreeNode) :=
  match fuel with
  | O => Endless
  | S k =>
      if subtree_changed (getNode ns p) then Returns ns
      else
        let ns := update p (setSubtreeChanged true) ns in
        match parent (getNode ns p) with
        | None => Returns ns
        | Some q => subtreeChangedParent k q ns
        end
  end.
Definition changed_parent (p : nat) (s : diff_state) : outcome diff_state :=
  let+ ns := subtreeChangedParent (length (tree2 s)) p (tree2 s) in Returns (with_tree2 ns s).
Definition subtreeChanged (t2 : nat) (s : diff_state) : outcome diff_state :=
  match parent (getNode (tree2 s) t2) with
  | None => Returns s
  | Some p => changed_parent p s
  end.

Section TreeDiff.
Context (win32 has_symbit is_windows : bool).

Definition symlink_bit : Z := 0x4000000000000000.
Definition neg_bit : Z := 0x8000000000000000.
Definition symlink_mask : Z := 0x7000000000000000.

(** The last 8 bytes of the data, as [uint64]. *)
Definition change_indicator (n : TreeNode) : Z :=
  let d := default [] (data n) in
  if ceq (node_type n) "d"%char && (getDataSize n =? 8) then le_val (zsub 0 8 d)
  else if ceq (node_type n) "f"%char && (getDataSize n =? 2 * 8) then le_val (zsub 8 8 d)
  else 0.

Definition isSymlink (n : TreeNode) : bool :=
  let ci := change_indicator n in
  if has_symbit then negb (Z.land ci symlink_bit =? 0)
  else if is_windows then
    ((Z.land ci neg_bit =? 0) || ceq (node_type n) "d"%char) && (0 <? Z.land ci symlink_mask)
  else negb (Z.land ci neg_bit =? 0).

(** Files come before directories. *)
Definition compare_child (n1 : option TreeNode) (n2 : TreeNode) : Z :=
  match n1 with
  | None => 1
  | Some n1 =>
      if ceq (node_type n1) "f"%char && ceq (node_type n2) "d"%char then -1
      else if ceq (node_type n1) "d"%char && ceq (node_type n2) "f"%char then 1
      else nameCompare n1 n2
  end.

(** The search among the children of the root, from [sn]. *)
Fixpoint root_search (fuel : nat) (ns1 : list TreeNode) (sn : option nat) (n2 : TreeNode) : outcome (option nat) :=
  match sn with
  | None => Returns None
  | Some p =>
      match fuel with
      | O => Endless
      | S k =>
          let n := getNode ns1 p in
          if ceq (node_type n2) (node_type n) && nameEquals n2 n && bool_decide (mapped_node n = None)
          then Returns (Some p)
          else root_search k ns1 (getNextSibling ns1 p) n2
      end
  end.

(** Two entries of the same type and name. [children] compares their children. *)
Definition pair_nodes (children : diff_state -> outcome diff_state) (p1 p2 : nat) (s : diff_state) : outcome diff_state :=
  let n1 := getNode (tree1 s) p1 in
  let n2 := getNode (tree2 s) p2 in
  let equal_dir := ceq (node_type n1) "d"%char && ceq (node_type n2) "d"%char in
  let data_equals := dataEquals n1 n2 in
  let same_type := ceq (node_type n1) (node_type n2) in
  let+ s := if equal_dir && negb data_equals then subtreeChanged p2 (push_dir_diff (id n2) s) else Returns s in
  let+ s :=
    if equal_dir || data_equals then let+ s := children s in Returns (map_nodes p1 p2 s)
    else
      let s := if same_type then push_modified (id n2) s else s in
      let s := if same_type && Bool.eqb (isSymlink n1) (isSymlink n2) then push_deleted_inplace (id n1) s else s in
      subtreeChanged p2 (push_diff (id n2) s) in
  if negb win32 && isSymlink n2 then subtreeChanged p2 s else Returns s.

(** The [while] loop of [gatherDiffs(t1, t2, depth, ..)] at [c1] and [c2]; the fuel
    bounds the rounds and the calls they make. *)
Fixpoint diff_children (fuel : nat) (t1 t2 depth : nat) (c1 c2 : option nat) (s : diff_state) : outcome diff_state :=
  match c2 with
  | None => Returns s
  | Some p2 =>
      match fuel with
      | O => Endless
      | S k =>
          let n2 := getNode (tree2 s) p2 in
          let cmp := compare_child (getNode (tree1 s) <$> c1) n2 in
          let+ (cmp, c1) :=
            if negb (cmp =? 0) && (depth =? 0)%nat then
              let+ sn := root_search (length (tree1 s)) (tree1 s) (getFirstChild (tree1 s) t1) n2 in
              Returns (match sn with Some p => (0, Some p) | None => (cmp, c1) end)
            else Returns (cmp, c1) in
          if 0 <? cmp then
            let+ s := subtreeChanged p2 (push_diff (id n2) s) in
            diff_children k t1 t2 depth c1 (getNextSibling (tree2 s) p2) s
          else
            match c1 with
            | None => Undefined
            | Some p1 =>
                if cmp =? 0 then
                  let+ s :=
                    pair_nodes (fun s => diff_children k p1 p2 (S depth) (getFirstChild (tree1 s) p1) (getFirstChild (tree2 s) p2) s)
                      p1 p2 s in
                  diff_children k t1 t2 depth (getNextSibling (tree1 s) p1) (getNextSibling (tree2 s) p2) s
                else
                  let+ s := changed_parent t2 s in
                  diff_children k t1 t2 depth (getNextSibling (tree1 s) p1) c2 s
            end
      end
  end.

Definition gatherDiffs (fuel : nat) (t1 t2 depth : nat) (s : diff_state) : outcome diff_state :=
  diff_children fuel t1 t2 depth (getFirstChild (tree1 s) t1) (getFirstChild (tree2 s) t2) s.

(** [gatherDeletes(t1)] behind its first line, [c1] being the current child. *)
Fixpoint gather_deletes (fuel : nat) (ns : list TreeNode) (c1 : option nat) (deleted_ids : ids) : outcome ids :=
  match c1 with
  | None => Returns deleted_ids
  | Some p =>
      match fuel with
      | O => Endless
      | S k =>
          let n := getNode ns p in
          let deleted_ids := if bool_decide (mapped_node n = None) then deleted_ids ++ [id n] else deleted_ids in
          let+ deleted_ids := gather_deletes k ns (getFirstChild ns p) deleted_ids in
          gather_deletes k ns (getNextSibling ns p) deleted_ids
      end
  end.
Definition gatherDeletes (ns : list TreeNode) (t1 : nat) (deleted_ids : ids) : outcome ids :=
  gather_deletes (length ns) ns (getFirstChild ns t1) deleted_ids.

(** [getTreesize]: the loop, from child [c] on. *)
Fixpoint treesize_loop (fuel : nat) (ns : list TreeNode) (limit : nat) (c : option nat) (treesize : nat) : outcome nat :=
  match c with
  | None => Returns treesize
  | Some p =>
      match fuel with
      | O => Endless
      | S k =>
          let+ n := treesize_loop k ns limit (getFirstChild ns p) 1 in
          let treesize := (treesize + n)%nat in
          if (limit <? treesize)%nat then Returns treesize
          else treesize_loop k ns limit (getNextSibling ns p) treesize
      end
  end.
Definition getTreesize (ns : list TreeNode) (t limit : nat) : outcome nat :=
  treesize_loop (length ns) ns limit (getFirstChild ns t) 1.

(** [gatherLargeUnchangedSubtrees], from child [c2] on. *)
Fixpoint gather_large (fuel : nat) (ns : list TreeNode) (c2 : option nat) (large : ids) : outcome ids :=
  match c2 with
  | None => Returns large
  | Some p =>
      match fuel with
      | O => Endless
      | S k =>
          let n := getNode ns p in
          let+ is_large :=
            if negb (subtree_changed n) && negb (bool_decide (mapped_node n = None))
            then let+ size := getTreesize ns p 10 in Returns (10 <? size)%nat
            else Returns false in
          let+ large :=
            if is_large : bool then Returns (large ++ [id n]) else gather_large k ns (getFirstChild ns p) large in
          gather_large k ns (getNextSibling ns p) large
      end
  end.
Definition gatherLargeUnchangedSubtrees (ns : list TreeNode) (t2 : nat) (large_unchanged_subtrees : ids) : outcome ids :=
  gather_large (length ns) ns (getFirstChild ns t2) large_unchanged_subtrees.

(** [std::sort] *)
Definition sort : ids -> ids := merge_sort Nat.le.

Record diff_result := mkResult {
  ret : ids;
  r_deleted_ids : option ids;
  r_large_unchanged_subtrees : option ids;
  r_modified_inplace_ids : option ids;
  r_dir_diffs : ids;
  r_deleted_inplace_ids : option ids }.

(** From the trees on. *)
Definition diff_nodes (ns1 ns2 : list TreeNode) (deleted_ids large_unchanged_subtrees modified_inplace_ids : option ids)
    (dir_diffs : ids) (deleted_inplace_ids : option ids) : outcome diff_result :=
  let+ s := gatherDiffs (length ns1 * length ns2) 0 0 0
              (mkDiff ns1 ns2 [] modified_inplace_ids dir_diffs deleted_inplace_ids) in
  let+ deleted_ids := match deleted_ids with
                      | None => Returns None
                      | Some l => let+ l := gatherDeletes (tree1 s) 0 l in Returns (Some (sort l))
                      end in
  let+ large := match large_unchanged_subtrees with
                | None => Returns None
                | Some l => let+ l := gatherLargeUnchangedSubtrees (tree2 s) 0 l in Returns (Some (sort l))
                end in
  Returns (mkResult (sort (diffs s)) deleted_ids large (sort <$> TreeDiff.modified_inplace_ids s)
             (sort (TreeDiff.dir_diffs s)) (sort <$> TreeDiff.deleted_inplace_ids s)).

Context {F : Type} `{IFile F}.

(** [None]: [error] is set. *)
Definition diffTrees (t1 t2 : F) (deleted_ids large_unchanged_subtrees modified_inplace_ids : option ids)
    (dir_diffs : ids) (deleted_inplace_ids : option ids) : outcome (option diff_result) :=
  match readTree t1 with
  | Returns (ns1, _) =>
      match readTree t2 with
      | Returns (ns2, _) =>
          let+ r := diff_nodes ns1 ns2 deleted_ids large_unchanged_subtrees modified_inplace_ids dir_diffs deleted_inplace_ids in
          Returns (Some r)
      | ReturnsFalse => Returns None
      | AssertFails => AssertFails
      | Undefined => Undefined
      | Endless => Endless
      end
  | ReturnsFalse => Returns None
  | AssertFails => AssertFails
  | Undefined => Undefined
  | Endless => Endless
  end.

(** The overload for file names; [openFile] yields [None] when a file cannot be
    opened for reading. *)
Definition diffTreesFiles (openFile : bytes -> option F) (t1 t2 : bytes)
    (deleted_ids large_unchanged_subtrees modified_inplace_ids : option ids)
    (dir_diffs : ids) (deleted_inplace_ids : option ids) : outcome (option diff_result) :=
  match openFile t1 with
  | None => Returns None
  | Some tf1 =>
      match openFile t2 with
      | None => Returns None
      | Some tf2 =>
          diffTrees tf1 tf2 deleted_ids large_unchanged_subtrees modified_inplace_ids dir_diffs deleted_inplace_ids
      end
  end.
End TreeDiff.
