(* ===== verification/TreeLex.v ===== *)
(** Reading a file from its start in pieces of a fixed size, and the lexer that the two
    passes of [TreeReader::readTree] are on the bytes so read. *)
From S2P Require Import Prelude StringTools MemFile FileList TreeNode TreeReader.

Section Pieces.
Context {F : Type} `{FileLaws F} (n : Z) (Hn : 0 < n).

(** One read: the next bytes, and what is left. *)
Lemma read_next f :
  exists f', Read f n = ((ztake n (zdrop (fpos f) (contents f)), false), f') /\
    contents f' = contents f /\
    zdrop (fpos f') (contents f') = zdrop n (zdrop (fpos f) (contents f)).
Proof.
  destruct (read_law f n ltac:(lia)) as (E & Hc & Hp).
  exists (snd (Read f n)). split; [done|]. split; [done|]. rewrite Hc, Hp.
  pose proof (fpos_nonneg f). unfold file_read, zsub in *. rewrite zdrop_zdrop by lia.
  set (r := zdrop (fpos f) (contents f)). pose proof (zlen_nonneg r).
  destruct (Z.le_gt_cases n (zlen r)) as [Hle|Hgt].
  - rewrite zlen_ztake by lia. by rewrite Z.min_l.
  - rewrite ztake_ge by lia. pose proof (zlen_zdrop (fpos f) (contents f)). subst r.
    rewrite !zdrop_ge; [done|lia..].
Qed.

(** Rounds that are enough for the rest of a file: the last one reads nothing. *)
Definition rounds_for (r : bytes) : nat :=
  match r with [] => 1 | _ => 2 + Z.to_nat (zlen r / n) end.

Lemma rounds_next r k : (rounds_for r <= S k)%nat -> r <> [] -> (rounds_for (zdrop n r) <= k)%nat.
Proof.
  pose proof (zlen_zdrop n r ltac:(lia)) as Hd.
  assert (1 <= zlen r \/ r = []) by (destruct r; [by right|left; rewrite zlen_cons; pose proof (zlen_nonneg r); lia]).
  unfold rounds_for. destruct r as [|c r]; [done|]. intros Hk _. set (q := c :: r) in *.
  destruct (zdrop n q) as [|c' r'] eqn:E; [destruct k; lia|]. rewrite <- E in *.
  assert (n < zlen q).
  { destruct (Z.le_gt_cases (zlen q) n); [|lia]. by rewrite zdrop_ge in E. }
  replace (zlen q) with (zlen q - n + 1 * n) in Hk by lia.
  rewrite Z.div_add in Hk by lia. rewrite Hd, Z.max_r by lia.
  assert (0 <= (zlen q - n) / n) by (apply Z.div_pos; lia). lia.
Qed.

Lemma rounds_pos r k : (rounds_for r <= k)%nat -> exists k', k = S k'.
Proof. destruct k; [|by exists k]. destruct r; cbn; lia. Qed.
Lemma rounds_file b : (rounds_for b <= 2 + Z.to_nat (zlen b / n))%nat.
Proof. destruct b; cbn [rounds_for]; lia. Qed.

Lemma seek_0 (f : F) : contents (snd (Seek f 0)) = contents f /\
  zdrop (fpos (snd (Seek f 0))) (contents (snd (Seek f 0))) = contents f.
Proof. destruct (seek_law f 0 ltac:(lia)) as (_ & Hc & Hp). by rewrite Hc, Hp, zdrop_0. Qed.

End Pieces.

(** * The two passes of [TreeReader::readTree] as one lexer.

    Both passes split the file into the same lines; the first one counts them
    ([count_line]), the second one builds nodes from them ([do_line]).  [readTree]
    therefore is a function of the lines: [readTree_lines]. *)

(** A line: its type and the text behind the name ([data], empty for an [u] line),
    and its name with the escapes undone. *)
Record line := mkLine { ldata : bytes; lname : bytes }.
Record lexer := mkLexer { lstate : read_state; cur_name : bytes; cur_data : bytes }.

Definition lex_end (l : lexer) (ch : char) : lexer * list line :=
  if ceq ch nl then (mkLexer S0 [] [], [mkLine (cur_data l) (cur_name l)]) else (l, []).
Definition lex_step (l : lexer) (ch : char) : option (lexer * list line) :=
  let goto st := mkLexer st (cur_name l) (cur_data l) in
  let add st x := mkLexer st (cur_name l ++ x) (cur_data l) in
  match lstate l with
  | S0 =>
      if ceq ch "f"%char || ceq ch "d"%char then Some (mkLexer S1 (cur_name l) [ch], [])
      else if ceq ch "u"%char then Some (mkLexer S10 dotdot [], [])
      else None
  | S1 => Some (goto S2, [])
  | S2 => Some (if ceq ch quote then goto S3 else if ceq ch "\"%char then goto S5 else add S2 [ch], [])
  | S5 => Some (add S2 (if negb (ceq ch quote) && negb (ceq ch "\"%char) then ["\"%char; ch] else [ch]), [])
  | S3 => Some (if ceq ch " "%char then (goto S4, []) else lex_end (goto S10) ch)
  | S4 => Some (if ceq ch nl then lex_end l ch else (mkLexer S4 (cur_name l) (cur_data l ++ [ch]), []))
  | S10 => Some (lex_end l ch)
  end.
Fixpoint lex (l : lexer) (b : bytes) : option (list line * lexer) :=
  match b with
  | [] => Some ([], l)
  | ch :: b =>
      '(l, o) ← lex_step l ch;
      '(ls, l) ← lex l b;
      Some (o ++ ls, l)
  end.
Definition lex0 : lexer := mkLexer S0 [] [].

(** The lines of a file; [None]: a line starts with another character than [f], [d]
    and [u].  An unfinished last line is ignored. *)
Definition file_lines (b : bytes) : option (list line) := fst <$> lex lex0 b.

(** The invariant of the lexer: what has been read of the current line. *)
Definition typed (d : bytes) : Prop := exists c r, d = c :: r /\ (c = "f"%char \/ c = "d"%char).
Definition line_ok (l : line) : Prop := (ldata l = [] /\ lname l = dotdot) \/ typed (ldata l).
Definition lex_ok (l : lexer) : Prop :=
  match lstate l with
  | S0 => l = lex0
  | S10 => line_ok (mkLine (cur_data l) (cur_name l))
  | _ => typed (cur_data l)
  end.
Definition line_type (d : bytes) : char := match d with c :: _ => c | [] => "d"%char end.

(** What the first pass adds for a line, and what the second one uses. *)
Definition up_line (l : line) : bool := bool_decide (lname l = dotdot).
Definition node_bytes (l : line) : Z :=
  zlen (lname l) + 1 + (if ceq (line_type (ldata l)) "f"%char then 16 else 8).
Definition counted (l : line) : bool := ceq (line_type (ldata l)) "f"%char || negb (up_line l).
Definition used (l : line) : bool := negb (up_line l).
Definition file_dotdot (l : line) : bool := ceq (line_type (ldata l)) "f"%char && up_line l.

Definition total (p : line -> bool) (ls : list line) : nat :=
  foldr (fun l a => (if p l then 1 else 0) + a)%nat 0%nat ls.
Definition total_bytes (p : line -> bool) (ls : list line) : Z :=
  foldr (fun l a => (if p l then node_bytes l else 0) + a) 0 ls.

(** ** The first pass *)

Definition state_of (l : lexer) : char :=
  match lstate l with S0 => nul | _ => line_type (cur_data l) end.
Definition pass1_of (l : lexer) (lines : nat) (size : Z) : pass1 :=
  mkPass1 (lstate l) lines size (cur_name l) (state_of l).

Lemma line_type_cases l : line_ok l -> line_type (ldata l) = "f"%char \/ line_type (ldata l) = "d"%char.
Proof. intros [[-> _]|(c & r & -> & Hc)]; cbn; auto. Qed.

Lemma typed_app d x : typed d -> typed (d ++ x).
Proof. intros (c & r & -> & Hc). by exists c, (r ++ x). Qed.

Lemma lex_end_ok l ch l' o :
  line_ok (mkLine (cur_data l) (cur_name l)) -> lstate l = S10 \/ ch = nl -> lex_end l ch = (l', o) ->
  lex_ok l' /\ Forall line_ok o.
Proof.
  unfold lex_end. intros Hl Hst. destruct (ceq_spec ch nl) as [->|Hne]; intros [= <- <-].
  - split; [reflexivity|]. by constructor.
  - destruct Hst as [Hst|]; [|done]. unfold lex_ok. rewrite Hst. by split.
Qed.

Lemma lex_step_ok l ch l' o : lex_ok l -> lex_step l ch = Some (l', o) -> lex_ok l' /\ Forall line_ok o.
Proof.
  destruct l as [st n d]. unfold lex_step; cbn [lstate cur_name cur_data].
  destruct st; cbn [lex_ok lstate cur_data cur_name]; intros Hl.
  - destruct (ceq_spec ch "f"%char) as [->|]; cbn [orb].
    { intros [= <- <-]. split; [|done]. exists "f"%char, []. auto. }
    destruct (ceq_spec ch "d"%char) as [->|]; cbn [orb].
    { intros [= <- <-]. split; [|done]. exists "d"%char, []. auto. }
    destruct (ceq ch "u"%char); intros [= <- <-]. split; [|done]. by left.
  - intros [= <- <-]. by split.
  - intros [= <- <-]. split; [|done]. destruct (ceq ch quote); [done|]. by destruct (ceq ch "\"%char).
  - destruct (ceq ch " "%char).
    + intros [= <- <-]. by split.
    + intros [= E]. apply (lex_end_ok (mkLexer S10 n d) ch l' o); [by right|by left|done].
  - destruct (ceq_spec ch nl) as [->|].
    + intros [= E]. apply (lex_end_ok (mkLexer S4 n d) nl l' o); [by right|by right|]. by subst.
    + intros [= <- <-]. split; [by apply typed_app|done].
  - intros [= <- <-]. by split.
  - intros [= E]. by apply (lex_end_ok (mkLexer S10 n d) ch l' o); [|left|].
Qed.

Lemma lex_all_ok b : forall l ls l', lex_ok l -> lex l b = Some (ls, l') -> lex_ok l' /\ Forall line_ok ls.
Proof.
  induction b as [|ch b IH]; intros l ls l' Hl; cbn [lex].
  - by intros [= <- <-].
  - destruct (lex_step l ch) as [[l1 o]|] eqn:E1; cbn; [|done].
    destruct (lex l1 b) as [[ls1 l2]|] eqn:E2; cbn; [|done]. intros [= <- <-].
    destruct (lex_step_ok _ _ _ _ Hl E1) as [H1 Ho]. destruct (IH _ _ _ H1 E2). split; [done|].
    by apply Forall_app.
Qed.

Lemma file_lines_ok b ls : file_lines b = Some ls -> Forall line_ok ls.
Proof.
  unfold file_lines. destruct (lex lex0 b) as [[ls' l]|] eqn:E; cbn; [|done]. intros [= <-].
  by apply (lex_all_ok b lex0 ls' l).
Qed.

Lemma line_end1_eq st d n k z :
  line_ok (mkLine d n) ->
  line_end1 (mkPass1 st k z n (line_type d)) =
  let l := mkLine d n in
  mkPass1 S0 (if counted l then S k else k) (z + if counted l then node_bytes l else 0) [] nul.
Proof.
  intros Hl. apply line_type_cases in Hl; cbn in Hl.
  unfold line_end1, counted, node_bytes, up_line; cbn. destruct Hl as [-> | ->]; cbn.
  - f_equal. lia.
  - destruct (bool_decide _); cbn; f_equal; lia.
Qed.

Lemma total_app p l1 l2 : total p (l1 ++ l2) = (total p l1 + total p l2)%nat.
Proof. unfold total. induction l1 as [|l l1 IH]; cbn; [done|]. rewrite IH. lia. Qed.
Lemma total_bytes_app p l1 l2 : total_bytes p (l1 ++ l2) = total_bytes p l1 + total_bytes p l2.
Proof. unfold total_bytes. induction l1 as [|l l1 IH]; cbn; [done|]. rewrite IH. lia. Qed.

Definition add_lines (ls : list line) (s : pass1) : pass1 :=
  mkPass1 (state1 s) (lines1 s + total counted ls) (stringbuffer_size s + total_bytes counted ls) (name1 s) (ltype s).

Lemma case10_1_eq l k z ch :
  line_ok (mkLine (cur_data l) (cur_name l)) -> lstate l = S10 \/ lstate l = S4 ->
  case10_1 (pass1_of l k z) ch = let '(l', o) := lex_end l ch in add_lines o (pass1_of l' k z).
Proof.
  intros Hl Hst. destruct l as [st n d]; cbn in Hl, Hst. unfold case10_1, lex_end, pass1_of; cbn.
  destruct (ceq ch nl); cbn.
  - replace (state_of (mkLexer st n d)) with (line_type d) by (by destruct Hst as [-> | ->]).
    rewrite line_end1_eq by done. unfold add_lines, total, total_bytes, state_of; cbn.
    destruct (counted _) eqn:E; cbn; rewrite ?E; cbn; f_equal; lia.
  - unfold add_lines, total, total_bytes; cbn. f_equal; lia.
Qed.

Lemma add_lines_nil s : add_lines [] s = s.
Proof. destruct s. unfold add_lines, total, total_bytes; cbn. f_equal; lia. Qed.

Lemma step1_eq l k z ch : lex_ok l ->
  step1 (pass1_of l k z) ch = '(l', o) ← lex_step l ch; Some (add_lines o (pass1_of l' k z)).
Proof.
  destruct l as [st n d]. unfold step1, lex_step, pass1_of; cbn [lstate cur_name cur_data state1 lines1 stringbuffer_size name1 ltype].
  destruct st; cbn [lex_ok lstate cur_data cur_name]; intros Hl.
  - injection Hl as -> ->. destruct (ceq ch "f"%char || ceq ch "d"%char).
    { cbn -[add_lines]. by rewrite add_lines_nil. }
    destruct (ceq ch "u"%char); cbn -[add_lines]; rewrite ?add_lines_nil; done.
  - cbn -[add_lines]. by rewrite add_lines_nil.
  - destruct (ceq ch quote), (ceq ch "\"%char); cbn -[add_lines]; by rewrite add_lines_nil.
  - destruct (ceq ch " "%char); [cbn -[add_lines]; by rewrite add_lines_nil|].
    transitivity (Some (case10_1 (pass1_of (mkLexer S10 n d) k z) ch)); [done|].
    rewrite case10_1_eq; [|by right|by left].
    by destruct (lex_end (mkLexer S10 n d) ch).
  - destruct (ceq_spec ch nl) as [->|]; cbn [negb]; [|cbn -[add_lines]; rewrite add_lines_nil; unfold state_of; cbn].
    + transitivity (Some (case10_1 (pass1_of (mkLexer S4 n d) k z) nl)); [done|].
    rewrite case10_1_eq; [|by right|by right]. by destruct (lex_end (mkLexer S4 n d) nl).
    + destruct Hl as (c & r & -> & _). done.
  - destruct (negb (ceq ch quote) && negb (ceq ch "\"%char)); cbn -[add_lines]; by rewrite add_lines_nil.
  - transitivity (Some (case10_1 (pass1_of (mkLexer S10 n d) k z) ch)); [done|].
    rewrite case10_1_eq; [|done|by left]. by destruct (lex_end (mkLexer S10 n d) ch).
Qed.

Lemma add_lines_app l1 l2 s : add_lines (l1 ++ l2) s = add_lines l2 (add_lines l1 s).
Proof. unfold add_lines; cbn. rewrite total_app, total_bytes_app. f_equal; lia. Qed.

Lemma chars1_eq b : forall l k z, lex_ok l ->
  chars1 (pass1_of l k z) b = '(ls, l') ← lex l b; Some (add_lines ls (pass1_of l' k z)).
Proof.
  induction b as [|ch b IH]; intros l k z Hl; cbn [chars1 lex].
  - cbn. by rewrite add_lines_nil.
  - rewrite step1_eq by done. destruct (lex_step l ch) as [[l1 o]|] eqn:E; [|done].
    apply lex_step_ok in E as [Hl1 _]; [|done]. cbn -[add_lines chars1].
    change (add_lines o (pass1_of l1 k z)) with (pass1_of l1 (k + total counted o) (z + total_bytes counted o)).
    rewrite IH by done. destruct (lex l1 b) as [[ls l2]|]; [|done]. cbn -[add_lines].
    by rewrite add_lines_app.
Qed.

(** ** The second pass *)

Definition pass2_of (l : lexer) (s : pass2) : pass2 :=
  mkPass2 (lstate l) (cur_name l) (cur_data l) (parents s) (lastNodes s) (firstChild s) (idx s) (nodes s)
    (stringbuffer_pos s) (lines2 s).

Section Pass2.
Context (bufsize : Z).

Definition do_line (l : line) (s : pass2) : outcome pass2 :=
  line_end2 bufsize (pass2_of (mkLexer S0 (lname l) (ldata l)) s).
Fixpoint do_lines (ls : list line) (s : pass2) : outcome pass2 :=
  match ls with [] => Returns s | l :: ls => let+ s := do_line l s in do_lines ls s end.

Lemma do_lines_app l1 l2 s : do_lines (l1 ++ l2) s = let+ s := do_lines l1 s in do_lines l2 s.
Proof. revert s. induction l1 as [|l l1 IH]; intros s; cbn [do_lines app obind]; [done|]. by destruct (do_line l s); cbn. Qed.

Lemma add_entry_eq st n d s :
  add_entry bufsize (pass2_of (mkLexer st n d) s) =
  let+ s := add_entry bufsize (pass2_of (mkLexer S0 n d) s) in Returns (pass2_of lex0 s).
Proof.
  unfold add_entry; cbn. destruct d as [|ch sdata]; [done|]. destruct (_ || _); [done|].
  unfold link_last; cbn. destruct (firstChild s); [done|]. by destruct (lastNodes s).
Qed.
Lemma close_dir_eq st n d s :
  close_dir (pass2_of (mkLexer st n d) s) =
  let+ s := close_dir (pass2_of (mkLexer S0 n d) s) in Returns (pass2_of lex0 s).
Proof.
  unfold close_dir; cbn. destruct (parents s); [done|]. destruct (firstChild s); [done|]. by destruct (lastNodes s).
Qed.
Lemma line_end2_eq st n d s :
  line_end2 bufsize (pass2_of (mkLexer st n d) s) =
  let+ s := do_line (mkLine d n) s in Returns (pass2_of lex0 s).
Proof.
  unfold do_line, line_end2; cbn [name2 pass2_of lname ldata cur_name].
  destruct (negb _); [apply add_entry_eq|apply close_dir_eq].
Qed.

Lemma case10_2_eq st n d s ch l' o :
  lex_end (mkLexer st n d) ch = (l', o) ->
  case10_2 bufsize (pass2_of (mkLexer st n d) s) ch = let+ s := do_lines o s in Returns (pass2_of l' s).
Proof.
  unfold lex_end, case10_2. destruct (ceq ch nl); cbn [cur_data cur_name]; intros [= <- <-]; [|done].
  rewrite line_end2_eq. cbn [do_lines]. by destruct (do_line _ s).
Qed.

Lemma step2_eq l s ch l' o : lex_ok l -> lex_step l ch = Some (l', o) ->
  step2 bufsize (pass2_of l s) ch = let+ s := do_lines o s in Returns (pass2_of l' s).
Proof.
  destruct l as [st n d]. unfold step2, lex_step; cbn [lstate cur_name cur_data state2 name2 data2 pass2_of].
  destruct st; cbn [lex_ok lstate cur_data cur_name]; intros Hl.
  - injection Hl as -> ->. destruct (ceq_spec ch "f"%char) as [->|]; cbn [orb]; [by intros [= <- <-]|].
    destruct (ceq_spec ch "d"%char) as [->|]; cbn [orb]; [by intros [= <- <-]|].
    destruct (ceq ch "u"%char); [by intros [= <- <-]|done].
  - by intros [= <- <-].
  - intros [= <- <-]. destruct (ceq ch quote); [done|]. by destruct (ceq ch "\"%char).
  - destruct (ceq ch " "%char); [by intros [= <- <-]|]. intros [= E]. by apply (case10_2_eq S10 n d s).
  - destruct (ceq_spec ch nl) as [->|]; cbn [negb]; [|by intros [= <- <-]].
    intros [= E]. apply (case10_2_eq S4 n d s). by subst.
  - intros [= <- <-]. by destruct (_ && _).
  - intros [= E]. by apply (case10_2_eq S10 n d s).
Qed.

Lemma chars2_eq b : forall l s ls l', lex_ok l -> lex l b = Some (ls, l') ->
  chars2 bufsize (pass2_of l s) b = let+ s := do_lines ls s in Returns (pass2_of l' s).
Proof.
  induction b as [|ch b IH]; intros l s ls l' Hl; cbn [chars2 lex].
  - by intros [= <- <-].
  - destruct (lex_step l ch) as [[l1 o]|] eqn:E1; cbn; [|done].
    destruct (lex l1 b) as [[ls1 l2]|] eqn:E2; cbn; [|done]. intros [= <- <-].
    rewrite (step2_eq _ _ _ _ _ Hl E1), do_lines_app. destruct (do_lines o s) as [s1| | | |]; cbn; try done.
    apply IH; [|done]. by eapply lex_step_ok.
Qed.
End Pass2.

(** ** The loops over the file *)

Lemma chars1_app a b s : chars1 s (a ++ b) = s ← chars1 s a; chars1 s b.
Proof. revert s. induction a as [|c a IH]; intros s; cbn; [done|]. by destruct (step1 s c); cbn. Qed.
Lemma chars2_app z a b s : chars2 z s (a ++ b) = let+ s := chars2 z s a in chars2 z s b.
Proof. revert s. induction a as [|c a IH]; intros s; cbn; [done|]. by destruct (step2 z s c); cbn. Qed.

Section Loops.
Context {F : Type} `{FileLaws F}.

Lemma buffer_pos : 0 < buffer_size.
Proof. reflexivity. Qed.
#[local] Opaque buffer_size.

Lemma loop1_eq rounds : forall f s, (rounds_for buffer_size (zdrop (fpos f) (contents f)) <= rounds)%nat ->
  exists f', contents f' = contents f /\
    loop1 rounds f s = match chars1 s (zdrop (fpos f) (contents f)) with
                       | None => ReturnsFalse | Some s => Returns (f', s) end.
Proof.
  induction rounds as [|k IH]; intros f s Hk; [by apply (rounds_pos _ _ _) in Hk as []|].
  pose proof buffer_pos as HB. destruct (read_next buffer_size HB f) as (f1 & E & Hc & Hr). cbn [loop1]. rewrite E.
  set (r := zdrop (fpos f) (contents f)) in *. pose proof (zlen_nonneg r).
  replace (chars1 s r) with (chars1 s (ztake buffer_size r ++ zdrop buffer_size r)) by (by rewrite ztake_zdrop).
  rewrite chars1_app, zlen_ztake by lia.
  destruct (chars1 s (ztake buffer_size r)) as [s1|]; cbn [mbind option_bind]; [|by exists f].
  destruct (Z.ltb_spec 0 (Z.min buffer_size (zlen r))) as [Hpos|Hz].
  - destruct (IH f1 s1) as (f' & Hc' & El).
    + rewrite Hr. apply rounds_next; [done|done|]. intros Er. apply (f_equal zlen) in Er. change (zlen r = 0) in Er. lia.
    + exists f'. split; [congruence|]. by rewrite El, Hr.
  - exists f1. split; [done|]. by rewrite (zdrop_ge buffer_size) by lia.
Qed.

Lemma loop2_eq z rounds : forall f s, (rounds_for buffer_size (zdrop (fpos f) (contents f)) <= rounds)%nat ->
  exists f', contents f' = contents f /\
    loop2 rounds z f s = let+ s := chars2 z s (zdrop (fpos f) (contents f)) in Returns (f', s).
Proof.
  induction rounds as [|k IH]; intros f s Hk; [by apply (rounds_pos _ _ _) in Hk as []|].
  pose proof buffer_pos as HB. destruct (read_next buffer_size HB f) as (f1 & E & Hc & Hr). cbn [loop2]. rewrite E.
  set (r := zdrop (fpos f) (contents f)) in *. pose proof (zlen_nonneg r).
  replace (chars2 z s r) with (chars2 z s (ztake buffer_size r ++ zdrop buffer_size r)) by (by rewrite ztake_zdrop).
  rewrite chars2_app, zlen_ztake by lia.
  destruct (chars2 z s (ztake buffer_size r)) as [s1| | | |]; cbn [obind]; try by exists f.
  destruct (Z.eqb_spec (Z.min buffer_size (zlen r)) buffer_size) as [Hpos|Hz].
  - destruct (IH f1 s1) as (f' & Hc' & El).
    + rewrite Hr. apply rounds_next; [done|done|]. intros Er. apply (f_equal zlen) in Er. change (zlen r = 0) in Er. lia.
    + exists f'. split; [congruence|]. by rewrite El, Hr.
  - exists f1. split; [done|]. by rewrite (zdrop_ge buffer_size) by lia.
Qed.

(** ** [readTree] is a function of the lines *)

Definition tree_of_lines (ls : list line) : outcome (list TreeNode) :=
  let bufsize := total_bytes counted ls + 5 in
  let+ s := do_lines bufsize ls (start2 (total counted ls)) in
  if (idx s =? length (nodes s))%nat && (stringbuffer_pos s =? bufsize)
  then Returns (update 0 (setNextSibling None) (nodes s))
  else AssertFails.

Lemma readTree_lines f : exists f',
  readTree f = match file_lines (contents f) with
               | None => ReturnsFalse
               | Some ls => let+ ns := tree_of_lines ls in Returns (ns, f')
               end.
Proof.
  unfold readTree, readTree_rounds, file_lines. rewrite size_law.
  set (rounds := (2 + Z.to_nat (zlen (contents f) / buffer_size))%nat).
  pose proof (rounds_file buffer_size (contents f)) as Hrounds. destruct (seek_0 f) as [Hc Hd].
  destruct (loop1_eq rounds (snd (Seek f 0)) (mkPass1 S0 0 0 [] nul)) as (f1 & Hc1 & E1); [by rewrite Hd|].
  rewrite E1, Hd. pose proof (chars1_eq (contents f) lex0 0 0 eq_refl) as E. unfold pass1_of in E at 1. cbn in E.
  rewrite E. destruct (lex lex0 (contents f)) as [[ls l']|] eqn:El; cbn [mbind option_bind fmap option_fmap option_map fst obind]; [|by exists f].
  cbn [lines1 stringbuffer_size add_lines pass1_of]. rewrite Nat.add_0_l, Z.add_0_l.
  unfold tree_of_lines. set (z := total_bytes counted ls + 5).
  destruct (seek_0 f1) as [Hc2 Hd2]. rewrite Hc1, Hc in Hd2.
  destruct (loop2_eq z rounds (snd (Seek f1 0)) (start2 (total counted ls))) as (f2 & Hc3 & E2); [by rewrite Hd2|].
  exists f2. rewrite E2, Hd2. pose proof (chars2_eq z (contents f) lex0 (start2 (total counted ls)) ls l' eq_refl El) as E3.
  change (pass2_of lex0 (start2 (total counted ls))) with (start2 (total counted ls)) in E3. rewrite E3.
  destruct (do_lines z ls (start2 (total counted ls))) as [s| | | |]; cbn; try done. by destruct (_ && _).
Qed.
End Loops.
