(* ===== verification/TreeOutcome.v ===== *)
(** What [readTree] does on every file: it reads and writes nothing outside its arrays
    and stacks, ends, and fails exactly on the files described by [readTree_outcome]. *)
From S2P Require Import Prelude MemFile StringTools FileList TreeNode TreeReader TreeLex.

(** Whether every line that leaves a directory finds one to leave; [depth] counts the
    open directories, the root among them. *)
Fixpoint ups_ok (depth : nat) (ls : list line) : bool :=
  match ls with
  | [] => true
  | l :: ls =>
      if up_line l then match depth with O => false | S d => ups_ok d ls end
      else ups_ok (if ceq (line_type (ldata l)) "d"%char then S depth else depth) ls
  end.

Lemma counted_used l : (if counted l then 1 else 0)%nat = ((if used l then 1 else 0) + (if file_dotdot l then 1 else 0))%nat.
Proof. unfold counted, used, file_dotdot. by destruct (ceq _ _), (up_line l). Qed.
Lemma total_counted ls : total counted ls = (total used ls + total file_dotdot ls)%nat.
Proof. unfold total. induction ls as [|l ls IH]; cbn; [done|]. rewrite IH, counted_used. lia. Qed.
Lemma no_dotdot ls : existsb file_dotdot ls = false -> total file_dotdot ls = 0%nat /\ total_bytes counted ls = total_bytes used ls.
Proof.
  unfold total, total_bytes. induction ls as [|l ls IH]; cbn; [done|]. intros [H1 H2]%orb_false_iff.
  destruct (IH H2) as [E1 E2]. rewrite H1, E1, E2. split; [done|].
  pose proof (counted_used l) as E. rewrite H1 in E. by destruct (counted l), (used l).
Qed.
Lemma some_dotdot ls : existsb file_dotdot ls = true -> total file_dotdot ls <> 0%nat.
Proof.
  unfold total. induction ls as [|l ls IH]; cbn; [done|]. destruct (file_dotdot l); cbn; [lia|]. intros H. by apply IH.
Qed.

Lemma node_bytes_pos l : 0 < node_bytes l.
Proof. unfold node_bytes. pose proof (zlen_nonneg (lname l)). destruct (ceq _ _); lia. Qed.
Lemma total_bytes_nonneg p ls : 0 <= total_bytes p ls.
Proof. unfold total_bytes. induction ls as [|l ls IH]; cbn; [lia|]. pose proof (node_bytes_pos l). destruct (p l); lia. Qed.

Lemma length_update p f ns : length (update p f ns) = length ns.
Proof. apply length_insert. Qed.

Lemma zlen_node_data ch d : zlen (node_data ch d) = if ceq ch "f"%char then 16 else 8.
Proof.
  unfold node_data. destruct (ceq ch "f"%char); rewrite ?zlen_app, ?zlen_le_bytes; reflexivity.
Qed.

(** The stacks fit together: [top()] and [pop()] never meet an empty one. *)
Definition stacks_ok (s : pass2) : Prop :=
  length (lastNodes s) = (length (parents s) + if firstChild s then 0 else 1)%nat.
(** There is room for [k] nodes and [z] bytes. *)
Definition room (bufsize : Z) (k : nat) (z : Z) (s : pass2) : Prop :=
  (idx s + k <= length (nodes s))%nat /\ stringbuffer_pos s + z <= bufsize.

Section Lines.
Context (bufsize : Z).

Lemma link_last_ok i s : stacks_ok s ->
  exists last ns, link_last i s = Returns (last, ns) /\ length ns = length (nodes s) /\
    length last = (length (parents s) + 1)%nat.
Proof.
  unfold stacks_ok, link_last. destruct (firstChild s); intros Hs.
  - exists (i :: lastNodes s), (nodes s). split; [done|]. split; [done|]. cbn. lia.
  - destruct (lastNodes s) as [|l r]; cbn in *; [lia|]. eexists _, _. split; [done|].
    rewrite length_update. split; [done|]. cbn. lia.
Qed.

Lemma do_entry_ok l s : line_ok l -> up_line l = false -> stacks_ok s -> room bufsize 1 (node_bytes l) s ->
  exists s', do_line bufsize l s = Returns s' /\ stacks_ok s' /\ length (nodes s') = length (nodes s) /\
    idx s' = S (idx s) /\ stringbuffer_pos s' = stringbuffer_pos s + node_bytes l /\
    length (parents s') = if ceq (line_type (ldata l)) "d"%char then S (length (parents s)) else length (parents s).
Proof.
  destruct l as [d n]. unfold line_ok, do_line, line_end2, up_line, node_bytes; cbn [ldata lname name2 pass2_of cur_name].
  intros Hl Hup Hs [Hi Hz]. rewrite Hup. cbn [negb].
  destruct Hl as [[_ ->]|(c & r & -> & _)]; [by rewrite bool_decide_true in Hup|]. cbn [line_type] in *.
  unfold add_entry; cbn [data2 pass2_of cur_data]. rewrite zlen_node_data. cbn [nodes idx stringbuffer_pos name2 cur_name pass2_of].
  assert (Hlt : bufsize <? stringbuffer_pos s + (zlen n + 1) + (if ceq c "f"%char then 16 else 8) = false).
  { apply Z.ltb_ge. lia. }
  rewrite Hlt. assert (Hlen : (length (nodes s) <=? idx s)%nat = false) by (apply Nat.leb_gt; lia).
  rewrite Hlen. cbn [orb]. match goal with |- context [link_last ?i ?s] => destruct (link_last_ok i s Hs) as (last & ns & E & Hns & Hlast) end.
  rewrite E. cbn [obind]. eexists. split; [done|]. unfold stacks_ok; cbn in *. rewrite length_update in Hns.
  repeat split.
  - destruct (ceq c "d"%char); cbn; lia.
  - destruct (parents s); rewrite ?length_update; done.
  - lia.
  - by destruct (ceq c "d"%char).
Qed.

Lemma do_up_ok l s : up_line l = true -> stacks_ok s ->
  match parents s with
  | [] => do_line bufsize l s = ReturnsFalse
  | _ :: ps =>
      exists s', do_line bufsize l s = Returns s' /\ stacks_ok s' /\ length (nodes s') = length (nodes s) /\
        idx s' = idx s /\ stringbuffer_pos s' = stringbuffer_pos s /\ parents s' = ps
  end.
Proof.
  unfold do_line, line_end2; cbn [name2 pass2_of cur_name]. intros Hup Hs. unfold up_line in Hup. rewrite Hup. cbn [negb].
  unfold close_dir; cbn. unfold stacks_ok in *. destruct (parents s) as [|p ps]; [done|]. destruct (firstChild s).
  - eexists. split; [done|]. cbn in *. repeat split. lia.
  - destruct (lastNodes s) as [|l0 r]; cbn in *; [lia|]. eexists. split; [done|]. cbn. rewrite length_update.
    repeat split. lia.
Qed.

Lemma total_cons p l ls : total p (l :: ls) = ((if p l then 1 else 0) + total p ls)%nat.
Proof. done. Qed.
Lemma total_bytes_cons p l ls : total_bytes p (l :: ls) = (if p l then node_bytes l else 0) + total_bytes p ls.
Proof. done. Qed.

Lemma do_lines_ok ls : Forall line_ok ls -> forall s,
  stacks_ok s -> room bufsize (total used ls) (total_bytes used ls) s ->
  if ups_ok (length (parents s)) ls then
    exists s', do_lines bufsize ls s = Returns s' /\ length (nodes s') = length (nodes s) /\
      idx s' = (idx s + total used ls)%nat /\ stringbuffer_pos s' = stringbuffer_pos s + total_bytes used ls
  else do_lines bufsize ls s = ReturnsFalse.
Proof.
  induction 1 as [|l ls Hl Hls IH]; intros s Hs [Hi Hz]; cbn [ups_ok do_lines].
  - exists s. split; [done|]. split; [done|]. unfold total, total_bytes; cbn. split; lia.
  - rewrite total_cons, total_bytes_cons in *. change (used l) with (negb (up_line l)) in *. pose proof (total_bytes_nonneg used ls).
    destruct (up_line l) eqn:Eu.
    + pose proof (do_up_ok l s Eu Hs) as Hd. destruct (parents s) as [|p ps]; cbn [length]; [by rewrite Hd|].
      destruct Hd as (s1 & -> & Hs1 & Hn1 & Hi1 & Hz1 & Hp1). cbn [obind]. cbn [negb] in *.
      specialize (IH s1 Hs1). rewrite Hp1, Hn1, Hi1, Hz1 in IH. specialize (IH ltac:(split; [rewrite Hn1, Hi1|rewrite Hz1]; lia)).
      destruct (ups_ok (length ps) ls); [|done]. destruct IH as (s' & -> & Hn' & Hi' & Hz').
      exists s'. split; [done|]. split; [done|]. split; lia.
    + cbn [negb] in *. destruct (do_entry_ok l s Hl Eu Hs) as (s1 & -> & Hs1 & Hn1 & Hi1 & Hz1 & Hp1); [split; lia|].
      cbn [obind]. specialize (IH s1 Hs1). rewrite Hp1, Hn1, Hi1, Hz1 in IH.
      specialize (IH ltac:(split; [rewrite Hn1, Hi1|rewrite Hz1]; lia)).
      destruct (ups_ok _ ls); [|done]. destruct IH as (s' & -> & Hn' & Hi' & Hz').
      exists s'. split; [done|]. split; [done|]. split; lia.
Qed.
End Lines.

Lemma length_start2 k : length (nodes (start2 k)) = S k.
Proof. cbn [nodes start2]. rewrite length_update. apply length_replicate. Qed.

Lemma tree_of_lines_ok ls : Forall line_ok ls ->
  if ups_ok 1 ls then
    if existsb file_dotdot ls then tree_of_lines ls = AssertFails
    else exists ns, tree_of_lines ls = Returns ns /\ length ns = S (total used ls)
  else tree_of_lines ls = ReturnsFalse.
Proof.
  intros Hls. unfold tree_of_lines. set (z := total_bytes counted ls + 5). set (s := start2 (total counted ls)).
  assert (Hs : stacks_ok s) by done. pose proof (total_counted ls) as Hc.
  assert (Hn : length (nodes s) = S (total counted ls)) by apply length_start2.
  assert (Hb : forall ls, total_bytes used ls <= total_bytes counted ls).
  { clear. induction ls as [|l ls IH]; [done|]. rewrite !total_bytes_cons. pose proof (node_bytes_pos l).
    pose proof (counted_used l). destruct (counted l), (used l); lia. }
  assert (Hr : room z (total used ls) (total_bytes used ls) s).
  { split; [rewrite Hn|]; cbn [idx stringbuffer_pos s start2]; subst z; [lia|].
    specialize (Hb ls). change (zlen root_str) with 4. lia. }
  pose proof (do_lines_ok z ls Hls s Hs Hr) as H. change (length (parents s)) with 1%nat in H.
  destruct (ups_ok 1 ls); [|by rewrite H]. destruct H as (s' & -> & Hn' & Hi' & Hz'). cbn [obind].
  rewrite Hn', Hn, Hi', Hz'. change (idx s) with 1%nat. change (stringbuffer_pos s) with 5.
  destruct (existsb file_dotdot ls) eqn:Ed.
  - apply some_dotdot in Ed. rewrite (proj2 (Nat.eqb_neq _ _)); [done|]. lia.
  - apply no_dotdot in Ed as [Ed1 Ed2]. rewrite (proj2 (Nat.eqb_eq _ _)) by lia.
    rewrite (proj2 (Z.eqb_eq _ _)) by lia. cbn [andb]. eexists. split; [done|]. rewrite length_update. lia.
Qed.

(** C13: [readTree] on every file, malformed or not: it never leaves its node array, its string
    buffer or its stacks and always ends.  It returns false exactly when a line starts
    with another character than f, d and u or a directory is left that was never
    entered; the assertions at its end fail exactly when a line for a file named [..]
    is among them (counted as an entry by the first pass, taken as the end of a
    directory by the second); otherwise it yields a node for every entry and the root. *)
Theorem readTree_outcome {F} `{FileLaws F} (f : F) :
  match file_lines (contents f) with
  | None => readTree f = ReturnsFalse
  | Some ls =>
      if ups_ok 1 ls then
        if existsb file_dotdot ls then readTree f = AssertFails
        else exists ns f', readTree f = Returns (ns, f') /\ length ns = S (total used ls)
      else readTree f = ReturnsFalse
  end.
Proof.
  destruct (readTree_lines f) as (f' & ->). destruct (file_lines (contents f)) as [ls|] eqn:E; [|done].
  pose proof (tree_of_lines_ok ls (file_lines_ok _ _ E)) as Ht.
  destruct (ups_ok 1 ls); [|by rewrite Ht]. destruct (existsb file_dotdot ls); [by rewrite Ht|].
  destruct Ht as (ns & -> & Hn). by exists ns, f'.
Qed.

(** A list with a file named [..]. *)
Lemma readTree_outcome_witness :
  readTree (CMemoryFile.mk ("f"%char :: quote :: dotdot ++ [quote; " "%char; "1"%char; " "%char; "2"%char; nl]) 0) = AssertFails.
Proof.
  pose proof (readTree_outcome (CMemoryFile.mk ("f"%char :: quote :: dotdot ++ [quote; " "%char; "1"%char; " "%char; "2"%char; nl]) 0)) as H.
  cbv in H |- *. exact H.
Defined.
