(* ===== verification/TreeForest.v ===== *)
(** File lists as forests: what a list says, its text, and the nodes it becomes.

    A [forest] is a directory's content in list order, a first child and next sibling
    tree.  [items] is the list the writer of [FileList] prints for it, [flat] the node
    array that [readTree] makes of it. *)
From S2P Require Import Prelude MemFile StringTools FileList TreeNode TreeReader TreeLex.

(** [x]: the extra text behind an entry.  A file has no children. *)
Inductive forest := Nil | Cons (e : SFile) (x : bytes) (children rest : forest).

Definition up_item : SFile * bytes := (mkSFile dotdot 0 0 true, []).
Fixpoint items (f : forest) : list (SFile * bytes) :=
  match f with
  | Nil => []
  | Cons e x ch rest => (e, x) :: (if isdir e then items ch ++ [up_item] else []) ++ items rest
  end.
Definition items_text (l : list (SFile * bytes)) : bytes :=
  concat (map (fun i => writeFileItemExtra (fst i) (snd i)) l).
Definition text (f : forest) : bytes := items_text (items f).

(** Numbers of nodes, of entries at the top, and of lines. *)
Fixpoint size (f : forest) : nat :=
  match f with Nil => 0 | Cons _ _ ch rest => S (size ch + size rest) end.
Fixpoint width (f : forest) : nat :=
  match f with Nil => 0 | Cons _ _ _ rest => S (width rest) end.
Definition lines (f : forest) : nat := length (items f).
Definition entry_lines (e : SFile) (ch : forest) : nat := if isdir e then S (S (lines ch)) else 1.

Definition name_ok (n : bytes) : Prop := n <> dotdot /\ Forall (fun c => c <> nul) n.
Fixpoint wf (f : forest) : Prop :=
  match f with
  | Nil => True
  | Cons e x ch rest =>
      name_ok (FileList.name e) /\ entry_ok e /\ extra_ok x /\ (isdir e = false -> ch = Nil) /\ wf ch /\ wf rest
  end.

(** ** The node array *)

Definition type_char (e : SFile) : char := if isdir e then "d"%char else "f"%char.
(** Of a directory the modification time, of a file the size and the time. *)
Definition entry_data (e : SFile) : bytes :=
  if isdir e then le_bytes 8 (last_modified e) else le_bytes 8 (FileList.size e) ++ le_bytes 8 (last_modified e).
Definition entry_node (e : SFile) (next : option nat) (par n ln : nat) : TreeNode :=
  mkNode (type_char e) (Some (FileList.name e)) (Some (entry_data e)) next (Some par) None n false ln.

(** The nodes of [f], the first one at index [i] with line number [ln]. *)
Fixpoint flat (par i ln : nat) (f : forest) : list TreeNode :=
  match f with
  | Nil => []
  | Cons e x ch rest =>
      let j := (i + S (size ch))%nat in
      entry_node e (match rest with Nil => None | _ => Some j end) par (width ch) ln
        :: flat i (S i) (S ln) ch ++ flat par j (ln + entry_lines e ch) rest
  end.
Definition root_node (f : forest) : TreeNode :=
  mkNode nul (Some root_str) None None None None (width f) false 0.
Definition tree_nodes (f : forest) : list TreeNode := root_node f :: flat 0 1 0 f.

Lemma length_flat f : forall par i ln, length (flat par i ln f) = size f.
Proof. induction f as [|e x ch IHc rest IHr]; intros; cbn; [done|]. by rewrite length_app, IHc, IHr. Qed.

Lemma lines_cons e x ch rest : lines (Cons e x ch rest) = (entry_lines e ch + lines rest)%nat.
Proof.
  unfold lines, entry_lines; cbn. rewrite length_app. destruct (isdir e); cbn; [|done].
  rewrite length_app. unfold lines; cbn. lia.
Qed.

(** ** The lines of the text *)

Definition line_of (cf : SFile) (x : bytes) : line :=
  if is_up cf then mkLine [] dotdot
  else mkLine (type_char cf :: convert (if isdir cf then 0 else FileList.size cf) ++ " "%char ::
               convert (last_modified cf) ++ x) (FileList.name cf).
Definition lines_of (l : list (SFile * bytes)) : list line := map (fun i => line_of (fst i) (snd i)) l.

Lemma lex_app a b l :
  lex l (a ++ b) = '(l1, l) ← lex l a; '(l2, l) ← lex l b; Some (l1 ++ l2, l).
Proof.
  revert l. induction a as [|c a IH]; intros l; cbn.
  - by destruct (lex l b) as [[? ?]|].
  - destruct (lex_step l c) as [[l1 o]|]; cbn; [|done]. rewrite IH.
    destruct (lex l1 a) as [[o1 l2]|]; cbn; [|done]. destruct (lex l2 b) as [[o2 l3]|]; cbn; [|done].
    by rewrite app_assoc.
Qed.

(** Characters that complete no line. *)
Definition quiet (l : lexer) (b : bytes) (l' : lexer) : Prop := lex l b = Some ([], l').
Lemma quiet_app l a l1 b l2 : quiet l a l1 -> quiet l1 b l2 -> quiet l (a ++ b) l2.
Proof. unfold quiet. intros H1 H2. rewrite lex_app, H1. cbn. by rewrite H2. Qed.
Lemma quiet_cons l c l1 b l2 : lex_step l c = Some (l1, []) -> quiet l1 b l2 -> quiet l (c :: b) l2.
Proof. unfold quiet. intros H1 H2. cbn. rewrite H1. cbn. by rewrite H2. Qed.

Lemma quiet_name n : forall t d, quiet (mkLexer S2 t d) (escapeListName n) (mkLexer S2 (t ++ n) d).
Proof.
  induction n as [|c n IH]; intros t d; cbn [escapeListName].
  - by rewrite app_nil_r.
  - specialize (IH (t ++ [c]) d). rewrite <- app_assoc in IH. cbn [app] in IH.
    destruct (ceq_spec c "034"%char) as [->|H1]; [|destruct (ceq_spec c "\"%char) as [->|H2]].
    + eapply quiet_cons; [reflexivity|]. by eapply quiet_cons; [reflexivity|].
    + eapply quiet_cons; [reflexivity|]. by eapply quiet_cons; [reflexivity|].
    + eapply quiet_cons; [|exact IH]. unfold lex_step; cbn. unfold quote. by rewrite !ceq_ne.
Qed.

Lemma quiet_data b : Forall (fun c => c <> nl) b -> forall n d,
  quiet (mkLexer S4 n d) b (mkLexer S4 n (d ++ b)).
Proof.
  induction 1 as [|c b Hc Hb IH]; intros n d; [by rewrite app_nil_r|].
  eapply quiet_cons; [|specialize (IH n (d ++ [c])); rewrite <- app_assoc in IH; exact IH].
  unfold lex_step; cbn. by rewrite ceq_ne.
Qed.

Lemma convert_no_nl i : - 2 ^ 63 <= i < 2 ^ 63 -> Forall (fun c => c <> nl) (convert i).
Proof.
  intros Hi. eapply List.Forall_impl; [|apply (convert_chars i Hi)]. intros c [Hc| ->]; [|done].
  intros ->. by vm_compute in Hc.
Qed.
Lemma extra_no_nl x : extra_ok x -> Forall (fun c => c <> nl) x.
Proof. intros [->|(r & -> & Hr)]; [done|]. by constructor. Qed.
Lemma extra_no_digit x : extra_ok x -> no_digit x.
Proof. by intros [->|(r & -> & Hr)]. Qed.

Lemma extra_kept x : extra_ok x ->
  match x with c :: r => if ceq c "&"%char then "#"%char :: r else x | [] => [] end = x.
Proof. by intros [->|(r & -> & _)]. Qed.

Lemma item_head_eq cf : item_head cf =
  type_char cf :: quote :: escapeListName (FileList.name cf) ++ quote :: " "%char ::
    convert (if isdir cf then 0 else FileList.size cf) ++ [" "%char].
Proof. unfold item_head, type_char. by destruct (isdir cf). Qed.

Lemma lex_item cf x : entry_ok cf -> extra_ok x ->
  lex lex0 (writeFileItemExtra cf x) = Some ([line_of cf x], lex0).
Proof.
  intros [Hs Hm] Hx. unfold writeFileItemExtra, line_of. rewrite extra_kept by done. fold (is_up cf).
  destruct (is_up cf); [done|]. set (sz := if isdir cf then 0 else FileList.size cf).
  assert (Hsz : - 2 ^ 63 <= sz < 2 ^ 63) by (subst sz; destruct (isdir cf); lia).
  set (rest := convert sz ++ " "%char :: convert (last_modified cf) ++ x).
  assert (Hq : quiet lex0 (type_char cf :: quote :: escapeListName (FileList.name cf) ++ quote :: " "%char :: rest)
                 (mkLexer S4 (FileList.name cf) (type_char cf :: rest))).
  { apply (quiet_cons _ _ (mkLexer S1 [] [type_char cf])); [unfold type_char; by destruct (isdir cf)|]. eapply quiet_cons; [done|].
    eapply quiet_app; [apply (quiet_name _ [])|]. eapply quiet_cons; [done|]. eapply quiet_cons; [done|].
    apply (quiet_data rest). subst rest. apply Forall_app. split; [by apply convert_no_nl|].
    apply Forall_cons_2; [done|]. apply Forall_app. split; [by apply convert_no_nl|by apply extra_no_nl]. }
  replace (item_head cf ++ convert (last_modified cf) ++ x ++ [nl]) with
    ((type_char cf :: quote :: escapeListName (FileList.name cf) ++ quote :: " "%char :: rest) ++ [nl]).
  - rewrite lex_app, Hq. done.
  - subst rest. rewrite item_head_eq. fold sz. cbn [app]. do 2 f_equal. rewrite <- !app_assoc. f_equal.
    cbn [app]. do 2 f_equal. rewrite <- !app_assoc. f_equal. cbn [app]. f_equal. by rewrite <- app_assoc.
Qed.

Definition item_ok (i : SFile * bytes) : Prop := entry_ok (fst i) /\ extra_ok (snd i).

Lemma file_lines_items l : Forall item_ok l -> file_lines (items_text l) = Some (lines_of l).
Proof.
  unfold file_lines. intros H. assert (E : lex lex0 (items_text l) = Some (lines_of l, lex0)); [|by rewrite E].
  unfold items_text. induction H as [|[cf x] l [Hok Hx] H IH]; [done|]. cbn [map concat fst snd] in *.
  rewrite lex_app, lex_item by done. cbn. by rewrite IH.
Qed.

Lemma items_ok f : wf f -> Forall item_ok (items f).
Proof.
  induction f as [|e x ch IHc rest IHr]; cbn; [done|]. intros (_ & He & Hx & _ & Hc & Hr).
  apply Forall_cons_2; [done|]. apply Forall_app. split; [|by apply IHr].
  destruct (isdir e); [|done]. apply Forall_app. split; [by apply IHc|]. apply Forall_singleton.
  split; [|by left]. by split; cbn; lia.
Qed.

Lemma file_lines_text f : wf f -> file_lines (text f) = Some (lines_of (items f)).
Proof. intros Hf. by apply file_lines_items, items_ok. Qed.
