(* ===== verification/TreeBuild.v ===== *)
(** [readTree] turns the text of a forest into its node array. *)
From S2P Require Import Prelude MemFile StringTools FileList TreeNode TreeReader TreeLex TreeOutcome TreeForest.

(** ** Updates of the node array *)

Lemma getNode_app_l a b i : (i < length a)%nat -> getNode (a ++ b) i = getNode a i.
Proof. intros. unfold getNode. by rewrite app_nth1. Qed.
Lemma getNode_mid a n b : getNode (a ++ n :: b) (length a) = n.
Proof. unfold getNode. by rewrite nth_middle. Qed.
Lemma update_app_l i f a b : (i < length a)%nat -> update i f (a ++ b) = update i f a ++ b.
Proof. intros. unfold update. rewrite getNode_app_l by done. by rewrite insert_app_l. Qed.
Lemma update_mid f a n b : update (length a) f (a ++ n :: b) = a ++ f n :: b.
Proof. unfold update. rewrite getNode_mid. by rewrite insert_app_r_alt, Nat.sub_diag by lia. Qed.
Lemma update_at i f a n b : i = length a -> update i f (a ++ n :: b) = a ++ f n :: b.
Proof. intros ->. apply update_mid. Qed.

Definition add_children (k : nat) (n : TreeNode) : TreeNode :=
  mkNode (node_type n) (name n) (data n) (nextSibling n) (parent n) (mapped_node n) (k + num_children n) (subtree_changed n) (id n).
Lemma add_children_0 n : add_children 0 n = n.
Proof. by destruct n. Qed.
Lemma update_id i f ns : f (getNode ns i) = getNode ns i -> update i f ns = ns.
Proof.
  unfold update, getNode. intros ->. destruct (Nat.lt_ge_cases i (length ns)) as [Hi|Hi].
  - apply list_insert_id. rewrite (nth_lookup ns). destruct (lookup_lt_is_Some_2 ns i Hi) as [n E]. by rewrite E.
  - by apply list_insert_ge.
Qed.
Lemma getNode_update i f ns : (i < length ns)%nat -> getNode (update i f ns) i = f (getNode ns i).
Proof. intros. unfold update, getNode at 1. by rewrite nth_lookup, list_lookup_insert_eq. Qed.
Lemma update_update i f g ns : (i < length ns)%nat -> update i f (update i g ns) = update i (fun n => f (g n)) ns.
Proof. intros. unfold update at 1. rewrite getNode_update by done. unfold update. by rewrite list_insert_insert_eq. Qed.
Lemma update_ext i f g ns : (forall n, f n = g n) -> update i f ns = update i g ns.
Proof. intros H. unfold update. by rewrite H. Qed.

(** ** The state of the second pass at an entry of a directory

    [p]: the directory, [o]: its last entry so far. *)
Definition at_dir (p : nat) (ps ls : list nat) (o : option nat) (ns : list TreeNode) (i : nat) (pos : Z) (ln : nat) : pass2 :=
  mkPass2 S0 [] [] (p :: ps) (match o with None => ls | Some l => l :: ls end)
    (match o with None => true | Some _ => false end) i ns pos ln.

Definition link (o : option nat) (i : nat) (ns : list TreeNode) : list TreeNode :=
  match o with None => ns | Some l => update l (setNextSibling (Some i)) ns end.
Definition in_range (o : option nat) (k : nat) : Prop := match o with None => True | Some l => (l < k)%nat end.

Lemma length_link o i ns : length (link o i ns) = length ns.
Proof. destruct o; cbn; [apply length_update|done]. Qed.
Lemma link_app o i a b : in_range o (length a) -> link o i (a ++ b) = link o i a ++ b.
Proof. destruct o; cbn; [apply update_app_l|done]. Qed.

Fixpoint item_bytes (l : list (SFile * bytes)) : Z :=
  match l with [] => 0 | (e, x) :: l => (if up_line (line_of e x) then 0 else node_bytes (line_of e x)) + item_bytes l end.
Lemma item_bytes_app a b : item_bytes (a ++ b) = item_bytes a + item_bytes b.
Proof. induction a as [|[e x] a IH]; cbn; [done|]. rewrite IH. lia. Qed.
Lemma item_bytes_nonneg l : 0 <= item_bytes l.
Proof. induction l as [|[e x] l IH]; cbn; [lia|]. pose proof (node_bytes_pos (line_of e x)). destruct (up_line _); lia. Qed.

Section Build.
Context (bufsize : Z).

Lemma node_data_entry e x : entry_ok e -> extra_ok x ->
  node_data (type_char e) (convert (if isdir e then 0 else FileList.size e) ++ " "%char :: convert (last_modified e) ++ x) = entry_data e.
Proof.
  intros [Hs Hm] Hx. set (sz := if isdir e then 0 else FileList.size e).
  assert (Hsz : - 2 ^ 63 <= sz < 2 ^ 63) by (subst sz; destruct (isdir e); lia).
  unfold node_data, os_atoi64. change (str " ") with [" "%char].
  rewrite getuntil_char, getafter_char by (apply (convert_plain sz Hsz) || apply zlen_convert).
  rewrite watoi64_convert, watoi64_convert_app by (done || by apply extra_no_digit).
  unfold type_char, entry_data. subst sz. by destruct (isdir e).
Qed.

Lemma c_str_id n : Forall (fun c => c <> nul) n -> c_str n = n.
Proof. induction 1 as [|c n Hc Hn IH]; cbn; [done|]. by rewrite ceq_ne, IH. Qed.

Lemma not_up e : name_ok (FileList.name e) -> is_up e = false.
Proof. intros [H _]. unfold is_up. by rewrite bool_decide_false, andb_false_r. Qed.
Lemma entry_not_up e x : name_ok (FileList.name e) -> up_line (line_of e x) = false.
Proof. intros H. unfold up_line, line_of. rewrite not_up by done. cbn. apply bool_decide_false, H. Qed.

(** An entry. *)
Lemma do_entry e x p ps ls o pre k pos ln :
  name_ok (FileList.name e) -> entry_ok e -> extra_ok x -> (p < length pre)%nat -> in_range o (length pre) ->
  pos + node_bytes (line_of e x) <= bufsize ->
  let i := length pre in
  let ns := update p (add_children 1) (link o i pre) ++ entry_node e None p 0 ln :: replicate k new_node in
  do_line bufsize (line_of e x) (at_dir p ps ls o (pre ++ replicate (S k) new_node) i pos ln) =
  Returns ((if isdir e then at_dir i (p :: ps) (i :: ls) None else at_dir p ps ls (Some i)) ns (S i)
             (pos + node_bytes (line_of e x)) (S ln)).
Proof.
  intros Hn He Hx Hp Ho Hz. cbn zeta.
  assert (Hup : negb (bool_decide (FileList.name e = dotdot)) = true) by (rewrite bool_decide_false; [done|apply Hn]).
  assert (Hb : node_bytes (line_of e x) = zlen (FileList.name e) + 1 + (if ceq (type_char e) "f"%char then 16 else 8)).
  { unfold line_of. by rewrite not_up. }
  remember (node_bytes (line_of e x)) as nb eqn:Enb. clear Enb.
  unfold do_line, line_end2, line_of. rewrite not_up by done. cbn [name2 pass2_of cur_name lname ldata]. rewrite Hup.
  unfold add_entry. cbn [data2 pass2_of cur_data stringbuffer_pos name2 cur_name idx nodes at_dir lines2 state2 parents lastNodes firstChild].
  rewrite node_data_entry by done.
  assert (Hd : zlen (entry_data e) = if ceq (type_char e) "f"%char then 16 else 8).
  { unfold entry_data, type_char. destruct (isdir e); rewrite ?zlen_app, !zlen_le_bytes; reflexivity. }
  rewrite Hd, length_app, length_replicate, (proj2 (Z.ltb_ge _ _)), (proj2 (Nat.leb_gt _ _)) by lia. cbn [orb].
  replace (pos + (zlen (FileList.name e) + 1) + (if ceq (type_char e) "f"%char then 16 else 8)) with
    (pos + nb) by lia.
  cbn [replicate]. rewrite update_mid. set (n0 := setData _ _).
  assert (Hl : forall nx, link_last (length pre) (mkPass2 nx (FileList.name e) (type_char e ::
      convert (if isdir e then 0 else FileList.size e) ++ " "%char :: convert (last_modified e) ++ x) (p :: ps)
      (match o with None => ls | Some l => l :: ls end) (match o with None => true | Some _ => false end) (length pre)
      (pre ++ n0 :: replicate k new_node) (pos + nb) ln) =
    Returns (length pre :: ls, link o (length pre) pre ++ n0 :: replicate k new_node)).
  { intros nx. unfold link_last; cbn. destruct o as [l|]; cbn; [|done]. by rewrite update_app_l. }
  rewrite Hl. cbn [obind]. rewrite (update_app_l p) by (by rewrite length_link).
  rewrite update_at by (by rewrite length_update, length_link).
  assert (En : setParent (Some p) n0 = entry_node e None p 0 ln).
  { subst n0. unfold entry_node, setParent, setData, setType, setId, setName; cbn. rewrite c_str_id by apply Hn. done. }
  rewrite En. rewrite (update_ext p incrementNumChildren (add_children 1)) by done.
  unfold type_char. by destruct (isdir e).
Qed.

(** The last entry of a directory's content that starts at [i]. *)
Fixpoint last_top (i : nat) (o : option nat) (f : forest) : option nat :=
  match f with Nil => o | Cons _ _ ch rest => last_top (i + S (size ch)) (Some i) rest end.

Lemma last_top_node f : forall par i ln o, f <> Nil ->
  exists a n b, flat par i ln f = a ++ n :: b /\ last_top i o f = Some (i + length a)%nat /\ nextSibling n = None.
Proof.
  induction f as [|e x ch _ rest IH]; intros par i ln o Hf; [done|]. cbn [flat last_top].
  destruct rest as [|e' x' ch' rest'].
  - exists [], (entry_node e None par (width ch) ln), (flat i (S i) (S ln) ch). cbn. rewrite app_nil_r, Nat.add_0_r. done.
  - destruct (IH par (i + S (size ch))%nat (ln + entry_lines e ch)%nat (Some i)) as (a & n & b & E & El & En); [done|].
    rewrite E, El. eexists (_ :: flat i (S i) (S ln) ch ++ a), n, b. split; [|split; [|done]].
    + cbn. by rewrite <- app_assoc.
    + f_equal. cbn. rewrite length_app, length_flat. lia.
Qed.

Lemma setNextSibling_none n : nextSibling n = None -> setNextSibling None n = n.
Proof. destruct n; cbn. by intros ->. Qed.

(** Leaving a directory changes no node. *)
Lemma do_up p q ps ls ch pre ln0 suf i pos ln :
  length pre = S q ->
  do_line bufsize (line_of (fst up_item) (snd up_item))
    (at_dir q (p :: ps) (q :: ls) (last_top (S q) None ch) (pre ++ flat q (S q) ln0 ch ++ suf) i pos ln) =
  Returns (at_dir p ps ls (Some q) (pre ++ flat q (S q) ln0 ch ++ suf) i pos (S ln)).
Proof.
  intros Hq. unfold do_line, line_end2. cbn [name2 pass2_of cur_name]. change (lname _) with dotdot.
  rewrite bool_decide_true by done. cbn [negb]. unfold close_dir; cbn [parents pass2_of at_dir].
  destruct ch as [|e x c r]; [done|]. destruct (last_top_node (Cons e x c r) q (S q) ln0 None) as (a & n & b & E & El & En); [done|].
  rewrite E, El. cbn [firstChild lastNodes nodes at_dir pass2_of]. cbn [obind]. unfold at_dir. do 2 f_equal.
  replace (pre ++ (a ++ n :: b) ++ suf) with ((pre ++ a) ++ n :: b ++ suf) by (by rewrite <- !app_assoc).
  rewrite update_at by (rewrite length_app; lia). by rewrite setNextSibling_none.
Qed.

Definition builds (f : forest) : Prop := forall p ps ls o pre k pos ln,
  (p < length pre)%nat -> in_range o (length pre) -> pos + item_bytes (items f) <= bufsize ->
  do_lines bufsize (lines_of (items f)) (at_dir p ps ls o (pre ++ replicate (size f + k) new_node) (length pre) pos ln) =
  Returns (at_dir p ps ls (last_top (length pre) o f)
    (update p (add_children (width f)) (match f with Nil => pre | _ => link o (length pre) pre end)
       ++ flat p (length pre) ln f ++ replicate k new_node)
    (length pre + size f) (pos + item_bytes (items f)) (ln + lines f)).

Lemma item_bytes_cons e x ch rest : name_ok (FileList.name e) ->
  item_bytes (items (Cons e x ch rest)) =
  node_bytes (line_of e x) + ((if isdir e then item_bytes (items ch) else 0) + item_bytes (items rest)).
Proof.
  intros Hn. cbn [items item_bytes]. rewrite entry_not_up by done. f_equal. rewrite item_bytes_app.
  destruct (isdir e); cbn [item_bytes]; [|done]. rewrite item_bytes_app. change (item_bytes [up_item]) with 0. lia.
Qed.

(** An entry with what is below it. *)
Lemma do_tree e x ch p ps ls o pre k pos ln :
  name_ok (FileList.name e) -> entry_ok e -> extra_ok x -> (isdir e = false -> ch = Nil) -> builds ch ->
  (p < length pre)%nat -> in_range o (length pre) ->
  pos + (node_bytes (line_of e x) + if isdir e then item_bytes (items ch) else 0) <= bufsize ->
  let i := length pre in
  do_lines bufsize (lines_of ((e, x) :: if isdir e then items ch ++ [up_item] else []))
    (at_dir p ps ls o (pre ++ replicate (S (size ch + k)) new_node) i pos ln) =
  Returns (at_dir p ps ls (Some i)
    ((update p (add_children 1) (link o i pre) ++ entry_node e None p (width ch) ln :: flat i (S i) (S ln) ch) ++ replicate k new_node)
    (i + S (size ch)) (pos + (node_bytes (line_of e x) + if isdir e then item_bytes (items ch) else 0)) (ln + entry_lines e ch)).
Proof.
  intros Hn He Hx Hch IH Hp Ho Hz i. set (pre1 := update p (add_children 1) (link o i pre)).
  assert (Hl1 : length pre1 = i) by (by unfold pre1; rewrite length_update, length_link).
  pose proof (item_bytes_nonneg (items ch)).
  cbn [lines_of map fst snd do_lines].
  rewrite do_entry by (done || destruct (isdir e); lia). fold i pre1. cbn [obind].
  unfold entry_lines. destruct (isdir e) eqn:Ed.
  - unfold lines_of. rewrite map_app. fold (lines_of (items ch)). rewrite do_lines_app.
    set (n0 := entry_node e None p 0 ln).
    replace (pre1 ++ n0 :: replicate (size ch + k) new_node) with ((pre1 ++ [n0]) ++ replicate (size ch + k) new_node) by (by rewrite <- app_assoc).
    assert (Hl : length (pre1 ++ [n0]) = S i) by (rewrite length_app; cbn; lia).
    pose proof (IH i (p :: ps) (i :: ls) None (pre1 ++ [n0]) k (pos + node_bytes (line_of e x)) (S ln)) as IHc.
    rewrite Hl in IHc. rewrite IHc by (cbn; lia || done). clear IHc. cbn [obind].
    replace (match ch with Nil => pre1 ++ [n0] | _ => link None (S i) (pre1 ++ [n0]) end) with (pre1 ++ [n0]) by (by destruct ch).
    rewrite (update_at i) by done. set (n1 := add_children (width ch) n0).
    assert (En : n1 = entry_node e None p (width ch) ln) by (unfold n1, n0, add_children, entry_node; cbn; by rewrite Nat.add_0_r).
    cbn [map do_lines obind]. rewrite do_up by (rewrite length_app; cbn; lia). cbn [obind]. rewrite En.
    unfold at_dir. do 2 f_equal; [lia|by rewrite <- !app_assoc|lia|lia].
  - rewrite Hch by done. cbn [map do_lines size width flat]. unfold at_dir. do 2 f_equal; [lia|by rewrite <- app_assoc|lia|lia].
Qed.

Lemma builds_forest f : wf f -> builds f.
Proof.
  induction f as [|e x ch IHc rest IHr]; intros Hwf p ps ls o pre k pos ln Hp Ho Hz.
  - cbn. rewrite update_id by apply add_children_0. unfold at_dir, lines; cbn. do 2 f_equal; lia.
  - destruct Hwf as (Hn & He & Hx & Hch & Hwc & Hwr). specialize (IHc Hwc). specialize (IHr Hwr).
    rewrite item_bytes_cons in * by done. pose proof (item_bytes_nonneg (items rest)).
    replace (lines_of (items (Cons e x ch rest))) with
      (lines_of ((e, x) :: if isdir e then items ch ++ [up_item] else []) ++ lines_of (items rest))
      by (unfold lines_of; cbn [items map app]; by rewrite map_app).
    rewrite do_lines_app. replace (size (Cons e x ch rest) + k)%nat with (S (size ch + (size rest + k))) by (cbn; lia).
    rewrite do_tree by (done || lia). cbn [obind]. set (i := length pre). set (pre1 := update p (add_children 1) (link o i pre)).
    set (n1 := entry_node e None p (width ch) ln). set (pre2 := pre1 ++ n1 :: flat i (S i) (S ln) ch).
    assert (Hl1 : length pre1 = i) by (by unfold pre1; rewrite length_update, length_link).
    assert (Hl2 : length pre2 = (i + S (size ch))%nat) by (unfold pre2; rewrite length_app; cbn; rewrite length_flat; lia).
    pose proof (IHr p ps ls (Some i) pre2 k (pos + (node_bytes (line_of e x) + if isdir e then item_bytes (items ch) else 0))
      (ln + entry_lines e ch)%nat) as IH. rewrite Hl2 in IH. rewrite IH by (cbn; lia). clear IH.
    cbn [last_top flat width]. fold i. rewrite lines_cons. unfold at_dir. do 2 f_equal; [cbn; lia| |lia|lia].
    set (j := (i + S (size ch))%nat). set (nx := match rest with Nil => None | _ => Some j end).
    assert (E : match rest with Nil => pre2 | _ => link (Some i) j pre2 end = pre1 ++ entry_node e nx p (width ch) ln :: flat i (S i) (S ln) ch).
    { subst nx pre2. destruct rest; [done|]. cbn [link]. by rewrite update_at. }
    rewrite E. rewrite update_app_l by lia. subst pre1. rewrite update_update by (by rewrite length_link).
    rewrite <- app_assoc. f_equal.
    + apply update_ext. intros n. unfold add_children; cbn. f_equal; lia.
    + cbn [app]. f_equal. by rewrite <- app_assoc.
Qed.
End Build.

Lemma total_used l : total_bytes used (lines_of l) = item_bytes l.
Proof.
  induction l as [|[e x] l IH]; [done|]. cbn [lines_of map fst snd]. rewrite total_bytes_cons. unfold lines_of in IH. rewrite IH.
  cbn [item_bytes]. unfold used. by destruct (up_line _).
Qed.

Lemma no_dotdot_items f : wf f -> existsb file_dotdot (lines_of (items f)) = false.
Proof.
  induction f as [|e x ch IHc rest IHr]; [done|]. intros (Hn & _ & _ & _ & Hc & Hr). cbn [items lines_of map existsb fst snd].
  unfold file_dotdot at 1. rewrite entry_not_up, andb_false_r by done. cbn [orb]. rewrite map_app, existsb_app.
  fold (lines_of (items rest)). rewrite IHr, orb_false_r by done. destruct (isdir e); [|done].
  rewrite map_app, existsb_app. fold (lines_of (items ch)). by rewrite IHc.
Qed.

Lemma total_used_size f : wf f -> total used (lines_of (items f)) = size f.
Proof.
  induction f as [|e x ch IHc rest IHr]; [done|]. intros (Hn & _ & _ & Hch & Hc & Hr). cbn [items lines_of map fst snd size].
  rewrite total_cons. unfold used at 1. rewrite entry_not_up by done. cbn [negb]. rewrite map_app, total_app.
  fold (lines_of (items rest)). rewrite IHr by done. destruct (isdir e); [|by rewrite Hch].
  rewrite map_app, total_app. fold (lines_of (items ch)). rewrite IHc by done. change (total used (map (fun i => line_of (fst i) (snd i)) [up_item])) with 0%nat. lia.
Qed.

Lemma tree_of_forest f : wf f -> tree_of_lines (lines_of (items f)) = Returns (tree_nodes f).
Proof.
  intros Hf. unfold tree_of_lines. pose proof (no_dotdot _ (no_dotdot_items f Hf)) as [Hd Hb].
  rewrite total_counted, Hd, Nat.add_0_r, total_used_size, Hb, total_used by done.
  set (z := item_bytes (items f) + 5). set (r := setName root_str new_node).
  replace (start2 (size f)) with (at_dir 0 [] [0%nat] None ([r] ++ replicate (size f + 0) new_node) 1 5 0)
    by (unfold start2, at_dir, update; cbn; by rewrite Nat.add_0_r).
  pose proof (builds_forest z f Hf 0%nat [] [0%nat] None [r] 0%nat 5 0%nat) as E. change (length [r]) with 1%nat in E.
  rewrite E by (cbn; lia). cbn [obind idx nodes stringbuffer_pos at_dir].
  replace (match f with Nil => [r] | _ => link None 1 [r] end) with [r] by (by destruct f).
  rewrite app_nil_r, length_app, length_update, length_flat. cbn [length]. rewrite Nat.eqb_refl.
  rewrite (proj2 (Z.eqb_eq _ _)) by lia. cbn [andb]. unfold tree_nodes, root_node, update; cbn. unfold setNextSibling, add_children; cbn. by rewrite Nat.add_0_r.
Qed.

Lemma readTree_text {F} `{FileLaws F} (f : F) (t : forest) :
  wf t -> contents f = text t -> exists f', readTree f = Returns (tree_nodes t, f').
Proof.
  intros Ht Hf. destruct (readTree_lines f) as (f' & ->). rewrite Hf, file_lines_text by done.
  rewrite tree_of_forest by done. by exists f'.
Qed.

(** C12: A file list read back as a tree.  Reading the text that the list writer
    produces for any directory tree (names without zeros and other than [..], any 64-bit
    sizes and times, extra parameters) gives exactly the tree: its nodes in list order
    behind the root, each with its type, name, data, line number, number of children,
    parent and next sibling, and not yet mapped or changed.  The file is read in full
    buffers until it ends ([FileLaws]), whose limits fall anywhere in the lines. *)
Theorem readTree_correct {F} `{FileLaws F} (f : F) (t : forest) :
  wf t -> contents f = text t -> exists f', readTree f = Returns (tree_nodes t, f').
Proof. apply readTree_text. Qed.

Lemma readTree_correct_witness :
  let t := Cons (mkSFile (str "dir") 0 7 true) [] (Cons (mkSFile (str "file") 5 8 false) [] Nil Nil) Nil in
  exists f', readTree (CMemoryFile.mk (text t) 3) = Returns (tree_nodes t, f').
Proof.
  apply readTree_correct.
  - cbn. unfold name_ok, entry_ok; cbn. repeat match goal with
     | |- _ /\ _ => split
     | |- Forall _ _ => repeat constructor; discriminate
     | |- extra_ok _ => left; reflexivity
     | |- _ -> _ => intros; discriminate || reflexivity
     end; try discriminate; try lia; try done.
  - reflexivity.
Defined.
