(* ===== verification/TreeDiffSpec.v ===== *)
(** Entries of file lists as the difference of two lists sees them: their order, the
    equality of their data, symbolic links, and how these are computed on nodes;
    the difference of two forests as a function. *)
From S2P Require Import Prelude StringTools MemFile FileList TreeNode TreeReader TreeDiff TreeLex TreeForest.

(** ** [strcmp] is a total order *)

Lemma strcmp_refl a : strcmp a a = 0.
Proof. induction a as [|c a IH]; cbn; [done|]. by rewrite Z.ltb_irrefl. Qed.
Lemma strcmp_eq a b : strcmp a b = 0 <-> a = b.
Proof.
  split; [|intros ->; apply strcmp_refl]. revert b. induction a as [|c a IH]; intros [|d b]; cbn; try done.
  destruct (Z.ltb_spec (u8 c) (u8 d)); [done|]. destruct (Z.ltb_spec (u8 d) (u8 c)); [done|].
  intros E. rewrite (IH b E). f_equal. apply u8_inj. lia.
Qed.
Lemma strcmp_sym a b : strcmp b a = - strcmp a b.
Proof.
  revert b. induction a as [|c a IH]; intros [|d b]; cbn; try done.
  destruct (Z.ltb_spec (u8 c) (u8 d)), (Z.ltb_spec (u8 d) (u8 c)); try done; lia.
Qed.
Lemma strcmp_trans a b c : strcmp a b < 0 -> strcmp b c < 0 -> strcmp a c < 0.
Proof.
  revert b c. induction a as [|x a IH]; intros [|y b] [|z c]; cbn; try lia.
  destruct (Z.ltb_spec (u8 x) (u8 y)), (Z.ltb_spec (u8 y) (u8 x)), (Z.ltb_spec (u8 y) (u8 z)),
    (Z.ltb_spec (u8 z) (u8 y)), (Z.ltb_spec (u8 x) (u8 z)), (Z.ltb_spec (u8 z) (u8 x)); try lia. apply IH.
Qed.

(** ** Keys: files before directories, then by name *)

Definition key : Type := bool * bytes.
Definition key_of (e : SFile) : key := (isdir e, FileList.name e).
Definition key_cmp (a b : key) : Z :=
  if negb (fst a) && fst b then -1 else if fst a && negb (fst b) then 1 else strcmp (snd a) (snd b).

Lemma key_cmp_eq a b : key_cmp a b = 0 <-> a = b.
Proof.
  destruct a as [[] a], b as [[] b]; cbn; rewrite ?strcmp_eq; split; intros H; try lia; try congruence.
Qed.
Lemma key_cmp_sym a b : key_cmp b a = - key_cmp a b.
Proof. destruct a as [[] a], b as [[] b]; cbn; try done; apply strcmp_sym. Qed.
Lemma key_cmp_trans a b c : key_cmp a b < 0 -> key_cmp b c < 0 -> key_cmp a c < 0.
Proof. destruct a as [[] a], b as [[] b], c as [[] c]; cbn; try lia; apply strcmp_trans. Qed.

(** ** Data *)

Definition data_eq (e1 e2 : SFile) : bool :=
  (last_modified e1 =? last_modified e2) && (isdir e1 || (FileList.size e1 =? FileList.size e2)).

Section Symlinks.
Context (has_symbit is_windows : bool).
Definition is_link (e : SFile) : bool :=
  let ci := w64 (last_modified e) in
  if has_symbit then negb (Z.land ci symlink_bit =? 0)
  else if is_windows then ((Z.land ci neg_bit =? 0) || isdir e) && (0 <? Z.land ci symlink_mask)
  else negb (Z.land ci neg_bit =? 0).
End Symlinks.

(** ** The part of a node that the difference does not change *)

Definition static (n : TreeNode) : TreeNode :=
  mkNode (node_type n) (name n) (data n) (nextSibling n) (parent n) None (num_children n) false (id n).

(** A node that holds an entry. *)
Definition holds (n : TreeNode) (e : SFile) : Prop :=
  node_type n = type_char e /\ name n = Some (FileList.name e) /\ data n = Some (entry_data e).

Lemma holds_entry n e next par k ln : static n = entry_node e next par k ln -> holds n e.
Proof. destruct n. unfold static, entry_node; cbn. intros [= -> -> -> _ _ _ _]. done. Qed.

Lemma type_char_eq e1 e2 : ceq (type_char e1) (type_char e2) = Bool.eqb (isdir e1) (isdir e2).
Proof. unfold type_char. by destruct (isdir e1), (isdir e2). Qed.
Lemma type_char_d e : ceq (type_char e) "d"%char = isdir e.
Proof. unfold type_char. by destruct (isdir e). Qed.
Lemma type_char_f e : ceq (type_char e) "f"%char = negb (isdir e).
Proof. unfold type_char. by destruct (isdir e). Qed.

Lemma compare_holds n1 n2 e1 e2 : holds n1 e1 -> holds n2 e2 ->
  compare_child (Some n1) n2 = key_cmp (key_of e1) (key_of e2).
Proof.
  intros (T1 & N1 & _) (T2 & N2 & _). unfold compare_child, key_cmp, nameCompare.
  rewrite T1, T2, N1, N2, !type_char_d, !type_char_f; cbn. by destruct (isdir e1), (isdir e2).
Qed.

Lemma same_key_holds n1 n2 e1 e2 : holds n1 e1 -> holds n2 e2 ->
  ceq (node_type n2) (node_type n1) && nameEquals n2 n1 = bool_decide (key_of e2 = key_of e1).
Proof.
  intros (T1 & N1 & _) (T2 & N2 & _). unfold nameEquals. rewrite T1, T2, N1, N2, type_char_eq. unfold key_of.
  destruct (Z.eqb_spec (strcmp (FileList.name e2) (FileList.name e1)) 0) as [E|E].
  - apply strcmp_eq in E. rewrite E, andb_true_r. destruct (isdir e1), (isdir e2); cbn;
      rewrite ?bool_decide_true, ?bool_decide_false by congruence; done.
  - rewrite andb_false_r, bool_decide_false; [done|]. intros [= _ E2]. apply E, strcmp_eq, E2.
Qed.

Lemma le_bytes8_inj a b : - 2 ^ 63 <= a < 2 ^ 63 -> - 2 ^ 63 <= b < 2 ^ 63 -> le_bytes 8 a = le_bytes 8 b -> a = b.
Proof.
  intros Ha Hb E. apply (f_equal le_val) in E. rewrite !le_val_le_bytes in E.
  change (256 ^ Z.of_nat 8) with (2 ^ 64) in E. rewrite <- (s64_w64 a), <- (s64_w64 b) by done. by unfold w64; rewrite E.
Qed.

Lemma zlen_entry_data e : zlen (entry_data e) = if isdir e then 8 else 16.
Proof. unfold entry_data. destruct (isdir e); rewrite ?zlen_app, !zlen_le_bytes; done. Qed.

Lemma entry_data_eq e1 e2 : entry_ok e1 -> entry_ok e2 -> isdir e1 = isdir e2 ->
  bool_decide (entry_data e1 = entry_data e2) = data_eq e1 e2.
Proof.
  intros [Hs1 Hm1] [Hs2 Hm2] Hd. unfold entry_data, data_eq. rewrite <- Hd. destruct (isdir e1); cbn [orb].
  - rewrite andb_true_r. destruct (Z.eqb_spec (last_modified e1) (last_modified e2)) as [->|Hne].
    + by apply bool_decide_true.
    + apply bool_decide_false. intros E. by apply Hne, le_bytes8_inj.
  - destruct (Z.eqb_spec (last_modified e1) (last_modified e2)) as [->|Hne]; cbn [andb].
    + destruct (Z.eqb_spec (FileList.size e1) (FileList.size e2)) as [->|Hne].
      * by apply bool_decide_true.
      * apply bool_decide_false. intros E. apply app_inj_2 in E as [E _]; [|by rewrite !length_le_bytes].
        by apply Hne, le_bytes8_inj.
    + apply bool_decide_false. intros E. apply app_inj_1 in E as [_ E]; [|by rewrite !length_le_bytes].
      by apply Hne, le_bytes8_inj.
Qed.

Lemma data_size n e : holds n e -> getDataSize n = zlen (entry_data e).
Proof. intros (T & _ & _). unfold getDataSize. rewrite T, type_char_d, zlen_entry_data. by destruct (isdir e). Qed.

Lemma dataEquals_holds n1 n2 e1 e2 : holds n1 e1 -> holds n2 e2 -> entry_ok e1 -> entry_ok e2 -> isdir e1 = isdir e2 ->
  dataEquals n1 n2 = data_eq e1 e2.
Proof.
  intros H1 H2 He1 He2 Hd. unfold dataEquals. pose proof (data_size _ _ H1) as Hz.
  destruct H1 as (T1 & _ & D1), H2 as (T2 & _ & D2). rewrite T1, T2, D1, D2, type_char_eq, Hd, eqb_reflx. cbn [negb].
  rewrite Hz, ztake_ge by lia. rewrite ztake_ge by (rewrite !zlen_entry_data, Hd; lia). by apply entry_data_eq.
Qed.

Lemma isSymlink_holds hs w n e : holds n e -> isSymlink hs w n = is_link hs w e.
Proof.
  intros H. unfold isSymlink, is_link. pose proof (data_size _ _ H) as Hz. destruct H as (T & _ & D).
  assert (E : change_indicator n = w64 (last_modified e)).
  { unfold change_indicator. rewrite D, T, Hz, zlen_entry_data, type_char_d, type_char_f. cbn [from_option]. unfold Datatypes.id, entry_data.
    destruct (isdir e); cbn [andb negb].
    - pose proof (zsub_all (le_bytes 8 (last_modified e))) as Ez. rewrite zlen_le_bytes in Ez. cbn [Z.eqb Pos.eqb].
      change (Z.of_nat 8) with 8 in Ez. rewrite Ez. apply le_val_le_bytes.
    - rewrite Z.eqb_refl. pose proof (zsub_app_zlen 8 8 (le_bytes 8 (FileList.size e)) (le_bytes 8 (last_modified e)) []) as Ez.
      rewrite app_nil_r in Ez. rewrite Ez by done. apply le_val_le_bytes. }
  rewrite E, T, type_char_d. done.
Qed.

(** * The difference of two forests as a function, without pointers: [spec] and [dirty]
    look every entry of the new list up in the old one. *)

#[global] Instance key_eq_dec : EqDecision key := _.

Fixpoint top_keys (f : forest) : list key :=
  match f with Nil => [] | Cons e _ _ rest => key_of e :: top_keys rest end.

(** Below the backup roots a list is sorted: files first, then by name. *)
Fixpoint sorted (f : forest) : Prop :=
  match f with
  | Nil => True
  | Cons e _ ch rest => Forall (fun k => key_cmp (key_of e) k < 0) (top_keys rest) /\ sorted ch /\ sorted rest
  end.
(** The backup roots themselves are only distinct. *)
Fixpoint roots_ok (f : forest) : Prop :=
  match f with
  | Nil => True
  | Cons e _ ch rest => Forall (fun k => key_of e <> k) (top_keys rest) /\ sorted ch /\ roots_ok rest
  end.

(** The entry with key [k], what is below it, its index and its line, in the forest
    whose first node has index [i] and line [ln]. *)
Fixpoint find_entry (k : key) (i ln : nat) (f : forest) : option (SFile * forest * nat * nat) :=
  match f with
  | Nil => None
  | Cons e x ch rest =>
      if decide (key_of e = k) then Some (e, ch, i, ln)
      else find_entry k (i + S (size ch)) (ln + entry_lines e ch) rest
  end.
Definition lookup (k : key) (f : forest) : option (SFile * forest) := (fun h => fst (fst h)) <$> find_entry k 0 0 f.

(** An entry of the old list that is passed over before the new list's directory ends. *)
Definition skipped (f1 f2 : forest) : bool :=
  existsb (fun k1 => negb (bool_decide (k1 ∈ top_keys f2)) && existsb (fun k2 => key_cmp k1 k2 <? 0) (top_keys f2)) (top_keys f1).

(** What [gatherDiffs] adds to its lists ([o_diffs], [o_mod], [o_dir], [o_del]), the
    nodes that get mapped in both trees and those below the compared directory that
    are marked as changed. *)
Record outs := mkOuts { o_diffs : ids; o_mod : ids; o_dir : ids; o_del : ids; o_m1 : ids; o_m2 : ids; o_chg : ids }.
Definition o_nil : outs := mkOuts [] [] [] [] [] [] [].
Definition o_app (a b : outs) : outs :=
  mkOuts (o_diffs a ++ o_diffs b) (o_mod a ++ o_mod b) (o_dir a ++ o_dir b) (o_del a ++ o_del b)
    (o_m1 a ++ o_m1 b) (o_m2 a ++ o_m2 b) (o_chg a ++ o_chg b).
Definition o_diff (ln : nat) : outs := mkOuts [ln] [] [] [] [] [] [].
Definition o_dirdiff (ln : nat) : outs := mkOuts [] [] [ln] [] [] [] [].
Definition o_map (p1 p2 : nat) : outs := mkOuts [] [] [] [] [p1] [p2] [].
Definition o_mark (b : bool) (p : nat) : outs := mkOuts [] [] [] [] [] [] (if b then [p] else []).
Definition o_modified (ln : nat) (del : option nat) : outs :=
  mkOuts [ln] [ln] [] (match del with Some l => [l] | None => [] end) [] [] [].

Lemma o_app_nil_l a : o_app o_nil a = a.
Proof. by destruct a. Qed.
Lemma o_app_nil_r a : o_app a o_nil = a.
Proof. destruct a. unfold o_app; cbn. by rewrite !app_nil_r. Qed.
Lemma o_app_assoc a b c : o_app a (o_app b c) = o_app (o_app a b) c.
Proof. unfold o_app; cbn. by rewrite !app_assoc. Qed.

Section Spec.
Context (win32 has_symbit is_windows : bool).
Let link (e : SFile) : bool := is_link has_symbit is_windows e.

(** Two entries with the same key; [below] and [inner] say whether their contents
    mark the directory and what they add. *)
Definition pair_dirty (below : bool) (e1 e2 : SFile) : bool :=
  negb (data_eq e1 e2) || below || (negb win32 && link e2).
Definition pair_out (inner : outs) (below : bool) (e1 e2 : SFile) (p1 l1 i2 ln2 : nat) : outs :=
  if isdir e2 || data_eq e1 e2 then
    o_app (if isdir e2 && negb (data_eq e1 e2) then o_dirdiff ln2 else o_nil)
      (o_app (o_app inner (o_mark below i2)) (o_map p1 i2))
  else o_modified ln2 (if Bool.eqb (link e1) (link e2) then Some l1 else None).

(** Whether the directory with the content [f2] is marked as changed against [r1]
    because of its entries in [f2]. *)
Fixpoint dirty (r1 f2 : forest) : bool :=
  match f2 with
  | Nil => false
  | Cons e2 _ ch2 rest2 =>
      match lookup (key_of e2) r1 with
      | None => true
      | Some (e1, ch1) => pair_dirty (dirty ch1 ch2 || skipped ch1 ch2) e1 e2
      end || dirty r1 rest2
  end.
Definition changed_level (f1 f2 : forest) : bool := dirty f1 f2 || skipped f1 f2.

Fixpoint spec (r1 : forest) (i1 ln1 : nat) (f2 : forest) (i2 ln2 : nat) : outs :=
  match f2 with
  | Nil => o_nil
  | Cons e2 _ ch2 rest2 =>
      o_app
        match find_entry (key_of e2) i1 ln1 r1 with
        | None => o_diff ln2
        | Some (e1, ch1, p1, l1) =>
            pair_out (spec ch1 (S p1) (S l1) ch2 (S i2) (S ln2)) (changed_level ch1 ch2) e1 e2 p1 l1 i2 ln2
        end
        (spec r1 i1 ln1 rest2 (i2 + S (size ch2)) (ln2 + entry_lines e2 ch2))
  end.

(** ** Lookups *)

Lemma find_entry_shift k f : forall i ln i' ln',
  (fun h => fst (fst h)) <$> find_entry k i ln f = (fun h => fst (fst h)) <$> find_entry k i' ln' f.
Proof.
  induction f as [|e x ch _ rest IH]; intros; cbn; [done|]. destruct (decide _); [done|]. apply IH.
Qed.
Lemma lookup_find k f i ln : lookup k f = (fun h => fst (fst h)) <$> find_entry k i ln f.
Proof. apply find_entry_shift. Qed.
Lemma lookup_hit k f i ln e ch p l : find_entry k i ln f = Some (e, ch, p, l) -> lookup k f = Some (e, ch).
Proof. intros E. by rewrite (lookup_find k f i ln), E. Qed.
Lemma lookup_miss k f i ln : find_entry k i ln f = None -> lookup k f = None.
Proof. intros E. by rewrite (lookup_find k f i ln), E. Qed.

Lemma find_entry_key k f : forall i ln e ch p l, find_entry k i ln f = Some (e, ch, p, l) -> key_of e = k.
Proof.
  induction f as [|e0 x c _ rest IH]; intros i ln e ch p l; cbn; [done|]. destruct (decide _); [congruence|]. apply IH.
Qed.
Lemma find_entry_none k f i ln : find_entry k i ln f = None <-> k ∉ top_keys f.
Proof.
  revert i ln. induction f as [|e x ch _ rest IH]; intros i ln; cbn.
  - split; [|done]. intros _. by apply not_elem_of_nil.
  - rewrite not_elem_of_cons, <- (IH (i + S (size ch))%nat (ln + entry_lines e ch)%nat).
    destruct (decide (key_of e = k)) as [->|Hne].
    + split; [done|]. by intros [? _].
    + split; [|by intros [_ ?]]. intros H. split; [congruence|done].
Qed.

(** The rest of a sorted directory behind an entry. *)
Lemma find_entry_skip k e x ch rest i ln : key_of e <> k ->
  find_entry k i ln (Cons e x ch rest) = find_entry k (i + S (size ch)) (ln + entry_lines e ch) rest.
Proof. intros H. cbn. by rewrite decide_False. Qed.
Lemma lookup_skip k e x ch rest : key_of e <> k -> lookup k (Cons e x ch rest) = lookup k rest.
Proof. intros H. unfold lookup. rewrite find_entry_skip by done. apply find_entry_shift. Qed.

(** [spec] and [dirty] depend on the old list through lookups only. *)
Lemma spec_skip e x ch rest1 i1 ln1 f2 : forall i2 ln2, Forall (fun k => key_of e <> k) (top_keys f2) ->
  spec (Cons e x ch rest1) i1 ln1 f2 i2 ln2 = spec rest1 (i1 + S (size ch)) (ln1 + entry_lines e ch) f2 i2 ln2.
Proof.
  induction f2 as [|e2 x2 c2 _ rest2 IH]; intros i2 ln2 H; [done|]. cbn [top_keys] in H. inversion_clear H as [|? ? H1 H2].
  cbn [spec]. by rewrite find_entry_skip, IH.
Qed.
Lemma dirty_skip e x ch rest1 f2 : Forall (fun k => key_of e <> k) (top_keys f2) ->
  dirty (Cons e x ch rest1) f2 = dirty rest1 f2.
Proof.
  induction f2 as [|e2 x2 c2 _ rest2 IH]; intros H; [done|]. cbn [top_keys] in H. inversion_clear H as [|? ? H1 H2].
  cbn [dirty]. by rewrite lookup_skip, IH.
Qed.

Lemma key_lt_ne a b : key_cmp a b < 0 -> a <> b.
Proof. intros H E. apply key_cmp_eq in E. lia. Qed.
Lemma key_gt_lt a b : 0 < key_cmp a b -> key_cmp b a < 0.
Proof. rewrite (key_cmp_sym a b). lia. Qed.

Lemma above_head k e x ch rest : sorted (Cons e x ch rest) -> key_cmp k (key_of e) < 0 ->
  Forall (fun k' => key_cmp k k' < 0) (top_keys (Cons e x ch rest)).
Proof.
  intros [Hs _] Hk. cbn. apply Forall_cons_2; [done|]. eapply List.Forall_impl; [|exact Hs]. intros k' Hk'. cbn in Hk'.
  by eapply key_cmp_trans.
Qed.
Lemma above_ne k l : Forall (fun k' => key_cmp k k' < 0) l -> Forall (fun k' => k <> k') l.
Proof. intros H. eapply List.Forall_impl; [|exact H]. intros k' Hk'. by apply key_lt_ne. Qed.
Lemma above_fresh k l : Forall (fun k' => key_cmp k k' < 0) l -> k ∉ l.
Proof. intros H Hin. rewrite Forall_forall in H. specialize (H k Hin). rewrite (proj2 (key_cmp_eq k k)) in H; [lia|done]. Qed.

Lemma existsb_ext_in {A} (f g : A -> bool) l : Forall (fun x => f x = g x) l -> existsb f l = existsb g l.
Proof. induction 1 as [|x l E _ IH]; cbn; [done|]. by rewrite E, IH. Qed.

(** [skipped] on the three branches of the merge. *)
Lemma skipped_nil_l f2 : skipped Nil f2 = false.
Proof. done. Qed.
Lemma skipped_nil_r f1 : skipped f1 Nil = false.
Proof. unfold skipped. cbn. induction (top_keys f1); cbn; [done|]. by rewrite andb_false_r. Qed.

Lemma skipped_lt e1 x1 c1 r1 e2 x2 c2 r2 :
  sorted (Cons e2 x2 c2 r2) -> key_cmp (key_of e1) (key_of e2) < 0 ->
  skipped (Cons e1 x1 c1 r1) (Cons e2 x2 c2 r2) = true.
Proof.
  intros Hs Hlt. unfold skipped. cbn [top_keys existsb]. apply orb_true_iff. left.
  rewrite bool_decide_false by (apply above_fresh; by apply (above_head (key_of e1) e2 x2 c2)). cbn [negb andb].
  by rewrite (proj2 (Z.ltb_lt _ _) Hlt).
Qed.

(** Dropping a new entry that every remaining old entry is above. *)
Lemma skipped_drop_r f1 e2 x2 c2 r2 : Forall (fun k => key_cmp (key_of e2) k < 0) (top_keys f1) ->
  skipped f1 (Cons e2 x2 c2 r2) = skipped f1 r2.
Proof.
  intros H. unfold skipped. apply existsb_ext_in. eapply List.Forall_impl; [|exact H]. intros k Hk. cbn in Hk.
  cbn [top_keys existsb]. rewrite (proj2 (Z.ltb_ge (key_cmp k (key_of e2)) 0)) by (rewrite (key_cmp_sym (key_of e2) k); lia).
  rewrite orb_false_l. do 2 f_equal. apply bool_decide_ext. rewrite elem_of_cons. split; [|by right].
  intros [->|]; [|done]. rewrite (proj2 (key_cmp_eq _ _)) in Hk; [lia|done].
Qed.
Lemma skipped_drop_l e1 x1 c1 r1 f2 : key_of e1 ∈ top_keys f2 -> skipped (Cons e1 x1 c1 r1) f2 = skipped r1 f2.
Proof. intros H. unfold skipped. cbn [top_keys existsb]. by rewrite bool_decide_true. Qed.
End Spec.
