(* ===== verification/TreeMarks.v ===== *)
(** Node arrays during the difference: what stays, and what [gatherDiffs] changes.

    [laid] says that a part of an array holds a forest; [effect] collects the changes
    of a run: the lists, the nodes that are mapped and the nodes marked as changed. *)
From S2P Require Import Prelude MemFile StringTools FileList TreeNode TreeReader TreeDiff TreeLex TreeForest TreeBuild TreeDiffSpec.

Definition ptr (i : nat) (f : forest) : option nat := match f with Nil => None | _ => Some i end.

Fixpoint laid (ns : list TreeNode) (par i ln : nat) (f : forest) : Prop :=
  match f with
  | Nil => True
  | Cons e x ch rest =>
      let j := (i + S (size ch))%nat in
      (i < length ns)%nat /\ static (getNode ns i) = entry_node e (ptr j rest) par (width ch) ln /\
      laid ns i (S i) (S ln) ch /\ laid ns par j (ln + entry_lines e ch) rest
  end.

Definition mapped (ns : list TreeNode) (p : nat) : bool := negb (bool_decide (mapped_node (getNode ns p) = None)).
Definition changed (ns : list TreeNode) (p : nat) : bool := subtree_changed (getNode ns p).
Definition same_static (ns ns' : list TreeNode) : Prop := map static ns' = map static ns.

Lemma same_static_node ns ns' p : same_static ns ns' -> static (getNode ns' p) = static (getNode ns p).
Proof.
  intros H. unfold getNode. rewrite <- !(map_nth static). by rewrite H.
Qed.
Lemma same_static_length ns ns' : same_static ns ns' -> length ns' = length ns.
Proof. intros H. apply (f_equal length) in H. by rewrite !length_map in H. Qed.
Lemma same_static_trans a b c : same_static a b -> same_static b c -> same_static a c.
Proof. unfold same_static. congruence. Qed.

Lemma static_parent n : parent n = parent (static n).
Proof. done. Qed.

Lemma laid_static ns ns' f : same_static ns ns' -> forall par i ln, laid ns par i ln f -> laid ns' par i ln f.
Proof.
  intros H. induction f as [|e x ch IHc rest IHr]; intros par i ln; cbn; [done|]. intros (Hi & Hs & Hc & Hr).
  rewrite (same_static_length _ _ H), (same_static_node _ _ i H). auto.
Qed.

(** The array that [readTree] makes. *)
Lemma laid_flat f : forall pre par i ln suf, length pre = i -> laid (pre ++ flat par i ln f ++ suf) par i ln f.
Proof.
  induction f as [|e x ch IHc rest IHr]; intros pre par i ln suf Hi; [done|]. cbn [laid flat]. cbn zeta.
  set (n := entry_node e _ par (width ch) ln). set (j := (i + S (size ch))%nat).
  split; [|split; [|split]].
  - rewrite length_app; cbn. lia.
  - rewrite <- Hi. cbn [app]. rewrite getNode_mid. subst n. by destruct rest.
  - replace (pre ++ (n :: flat i (S i) (S ln) ch ++ flat par j (ln + entry_lines e ch) rest) ++ suf) with
      ((pre ++ [n]) ++ flat i (S i) (S ln) ch ++ (flat par j (ln + entry_lines e ch) rest ++ suf))
      by (by rewrite <- !app_assoc; cbn; rewrite <- app_assoc).
    apply IHc. rewrite length_app; cbn. lia.
  - replace (pre ++ (n :: flat i (S i) (S ln) ch ++ flat par j (ln + entry_lines e ch) rest) ++ suf) with
      ((pre ++ n :: flat i (S i) (S ln) ch) ++ flat par j (ln + entry_lines e ch) rest ++ suf)
      by (by rewrite <- !app_assoc; cbn; rewrite <- app_assoc).
    apply IHr. rewrite length_app; cbn. rewrite length_flat. lia.
Qed.
Lemma laid_tree f : laid (tree_nodes f) 0 1 0 f.
Proof. pose proof (laid_flat f [root_node f] 0 1 0 [] eq_refl) as H. by rewrite app_nil_r in H. Qed.

Section Laid.
Context (ns : list TreeNode) (par i ln : nat) (e : SFile) (x : bytes) (ch rest : forest).
Context (H : laid ns par i ln (Cons e x ch rest)).

Lemma laid_holds : holds (getNode ns i) e.
Proof. destruct H as (_ & Hs & _). by eapply holds_entry. Qed.
Lemma laid_id : id (getNode ns i) = ln.
Proof. destruct H as (_ & Hs & _). by apply (f_equal id) in Hs. Qed.
Lemma laid_parent : parent (getNode ns i) = Some par.
Proof. destruct H as (_ & Hs & _). by apply (f_equal parent) in Hs. Qed.
Lemma laid_next : getNextSibling ns i = ptr (i + S (size ch)) rest.
Proof. destruct H as (_ & Hs & _). by apply (f_equal nextSibling) in Hs. Qed.
Lemma laid_child : getFirstChild ns i = ptr (S i) ch.
Proof.
  destruct H as (_ & Hs & _). apply (f_equal num_children) in Hs. cbn in Hs. unfold getFirstChild. rewrite Hs. by destruct ch.
Qed.
Lemma laid_lt : (i < length ns)%nat.
Proof. by destruct H. Qed.
End Laid.

(** ** Ancestors *)

Inductive anc (ns : list TreeNode) : nat -> nat -> Prop :=
| anc_refl p : anc ns p p
| anc_up a p q : parent (getNode ns p) = Some q -> anc ns a q -> anc ns a p.

Definition parents_ok (ns : list TreeNode) : Prop :=
  forall p q, parent (getNode ns p) = Some q -> (q < p)%nat.
Definition up_closed (ns : list TreeNode) : Prop :=
  forall p q, changed ns p = true -> parent (getNode ns p) = Some q -> changed ns q = true.

Lemma anc_static ns ns' a p : same_static ns ns' -> anc ns a p -> anc ns' a p.
Proof.
  intros H. induction 1 as [p|a p q Hp _ IH]; [constructor|]. apply anc_up with q; [|done].
  by rewrite static_parent, (same_static_node ns ns') by done.
Qed.
Lemma same_static_sym a b : same_static a b -> same_static b a.
Proof. by symmetry. Qed.
Lemma anc_static_iff ns ns' a p : same_static ns ns' -> anc ns' a p <-> anc ns a p.
Proof. intros H. split; apply anc_static; [by apply same_static_sym|done]. Qed.
Lemma parents_ok_static ns ns' : same_static ns ns' -> parents_ok ns -> parents_ok ns'.
Proof. intros H Hp p q. rewrite static_parent, (same_static_node ns ns') by done. apply Hp. Qed.
Lemma anc_le ns a p : parents_ok ns -> anc ns a p -> (a <= p)%nat.
Proof. intros H. induction 1 as [p|a p q Hp _ IH]; [done|]. specialize (H _ _ Hp). lia. Qed.
Lemma anc_child ns a p q : parent (getNode ns p) = Some q -> anc ns a p <-> a = p \/ anc ns a q.
Proof.
  intros Hp. split.
  - inversion 1; subst; [by left|]. right. congruence.
  - intros [->|H]; [constructor|]. by apply anc_up with q.
Qed.

Lemma parents_ok_flat f : forall par i ln n k, (par < i)%nat -> flat par i ln f !! k = Some n ->
  forall q, parent n = Some q -> (q < i + k)%nat.
Proof.
  induction f as [|e x ch IHc rest IHr]; intros par i ln n k Hp; cbn [flat]; [done|].
  destruct k as [|k]; cbn; [intros [= <-] q [= <-]; lia|]. rewrite lookup_app_Some, length_flat.
  intros [Hk|[Hge Hk]] q Hq.
  - specialize (IHc i (S i) (S ln) n k ltac:(lia) Hk q Hq). lia.
  - specialize (IHr par (i + S (size ch))%nat _ n _ ltac:(lia) Hk q Hq). lia.
Qed.
Lemma parents_ok_tree f : parents_ok (tree_nodes f).
Proof.
  intros p q. unfold tree_nodes. destruct p as [|p]; [done|]. unfold getNode; cbn. rewrite nth_lookup.
  destruct (flat 0 1 0 f !! p) as [n|] eqn:E; [|done]. intros Hq.
  by apply (parents_ok_flat f 0 1 0 n p ltac:(lia) E q Hq).
Qed.

(** ** Single updates *)

Lemma getNode_update_ne ns p q f : p <> q -> getNode (update p f ns) q = getNode ns q.
Proof. intros H. unfold update, getNode at 1. by rewrite nth_lookup, list_lookup_insert_ne, <- nth_lookup by done. Qed.

Lemma same_static_update ns p f : (forall n, static (f n) = static n) -> same_static ns (update p f ns).
Proof.
  intros H. unfold same_static. destruct (Nat.lt_ge_cases p (length ns)) as [Hp|Hp].
  - unfold update. rewrite list_fmap_insert, H. apply list_insert_id. rewrite list_lookup_fmap.
    unfold getNode. rewrite nth_lookup. by destruct (lookup_lt_is_Some_2 ns p Hp) as [n ->].
  - unfold update. by rewrite list_insert_ge.
Qed.

Lemma changed_update_mapped ns p m q : changed (update p (setMappedNode m) ns) q = changed ns q.
Proof.
  destruct (Nat.lt_ge_cases p (length ns)) as [Hp|Hp]; [|unfold update; by rewrite list_insert_ge].
  unfold changed. destruct (decide (p = q)) as [->|]; [by rewrite getNode_update|by rewrite getNode_update_ne].
Qed.
Lemma mapped_update_mapped ns p m q : (p < length ns)%nat ->
  mapped (update p (setMappedNode (Some m)) ns) q = bool_decide (p = q) || mapped ns q.
Proof.
  intros Hp. unfold mapped. destruct (decide (p = q)) as [->|].
  - rewrite getNode_update by done. by rewrite (bool_decide_true (q = q)).
  - rewrite getNode_update_ne by done. by rewrite (bool_decide_false (p = q)).
Qed.
Lemma mapped_update_changed ns p b q : mapped (update p (setSubtreeChanged b) ns) q = mapped ns q.
Proof.
  destruct (Nat.lt_ge_cases p (length ns)) as [Hp|Hp]; [|unfold update; by rewrite list_insert_ge].
  unfold mapped. destruct (decide (p = q)) as [->|]; [by rewrite getNode_update|by rewrite getNode_update_ne].
Qed.
Lemma changed_update_changed ns p q : (p < length ns)%nat ->
  changed (update p (setSubtreeChanged true) ns) q = bool_decide (p = q) || changed ns q.
Proof.
  intros Hp. unfold changed. destruct (decide (p = q)) as [->|].
  - rewrite getNode_update by done. by rewrite (bool_decide_true (q = q)).
  - rewrite getNode_update_ne by done. by rewrite (bool_decide_false (p = q)).
Qed.
