(* ===== verification/TreeDiffLoop.v ===== *)
(** [gatherDiffs] computes [spec]: the loop on sorted directories and on the roots. *)
From S2P Require Import Prelude MemFile StringTools FileList TreeNode TreeReader TreeDiff TreeLex TreeForest TreeBuild TreeDiffSpec TreeMarks.

(** ** Marking a node and its ancestors *)

Lemma closed_anc ns a p : (forall b q, anc ns b p -> changed ns b = true -> parent (getNode ns b) = Some q -> changed ns q = true) ->
  changed ns p = true -> anc ns a p -> changed ns a = true.
Proof.
  intros Hc Hp Ha. induction Ha as [p|a p q Hq _ IH]; [done|]. apply IH.
  - intros b r Hb. apply Hc. by apply anc_up with q.
  - by apply (Hc p q); [constructor| |].
Qed.

Lemma subtreeChangedParent_spec fuel : forall p ns, (p < fuel)%nat -> (p < length ns)%nat -> parents_ok ns ->
  (forall b q, anc ns b p -> changed ns b = true -> parent (getNode ns b) = Some q -> changed ns q = true) ->
  exists ns', subtreeChangedParent fuel p ns = Returns ns' /\ same_static ns ns' /\
    (forall q, mapped ns' q = mapped ns q) /\
    (forall q, changed ns' q = true <-> changed ns q = true \/ anc ns q p).
Proof.
  induction fuel as [|k IH]; intros p ns Hk Hp Hpar Hc; [lia|]. cbn [subtreeChangedParent].
  change (subtree_changed (getNode ns p)) with (changed ns p).
  destruct (changed ns p) eqn:Ep.
  { exists ns. split; [done|]. split; [done|]. split; [done|]. intros q. split; [by left|]. intros [|Ha]; [done|].
    by apply (closed_anc ns q p). }
  set (ns1 := update p (setSubtreeChanged true) ns).
  assert (Hst : same_static ns ns1) by (by apply same_static_update).
  assert (H1 : forall q, changed ns1 q = true <-> q = p \/ changed ns q = true).
  { intros q. unfold ns1. rewrite changed_update_changed by done. rewrite orb_true_iff, bool_decide_eq_true. intuition congruence. }
  assert (Hpn : parent (getNode ns1 p) = parent (getNode ns p)) by (by rewrite static_parent, (same_static_node ns ns1)).
  rewrite Hpn. destruct (parent (getNode ns p)) as [q|] eqn:Eq.
  - pose proof (Hpar _ _ Eq) as Hlt. destruct (IH q ns1) as (ns' & E & Hs' & Hm' & Hc'); [lia| | | |].
    + rewrite (same_static_length ns) by done. lia.
    + by apply (parents_ok_static ns).
    + intros b r Hb Hcb Hpb. apply (anc_static_iff ns ns1) in Hb; [|done].
      rewrite static_parent, (same_static_node ns ns1) in Hpb by done. pose proof (anc_le _ _ _ Hpar Hb). apply H1.
      apply H1 in Hcb as [->|Hcb]; [lia|]. right. apply (Hc b r); [by apply anc_up with q|done..].
    + exists ns'. split; [done|]. split; [by apply (same_static_trans _ ns1)|]. split.
      * intros r. rewrite Hm'. apply mapped_update_changed.
      * intros r. rewrite Hc', H1, (anc_static_iff ns ns1), (anc_child ns r p q) by done. tauto.
  - exists ns1. split; [done|]. split; [done|]. split; [intros r; apply mapped_update_changed|].
    intros r. rewrite H1. split; [intros [->|]; [right; constructor|by left]|].
    intros [|Ha]; [by right|]. inversion Ha; subst; [by left|congruence].
Qed.

(** ** The effect of a run *)

Definition good (s : diff_state) : Prop := parents_ok (tree2 s) /\ up_closed (tree2 s).

(** [t]: the directory of the new tree whose content is compared; [d]: whether it is
    marked, with its ancestors. *)
Record effect (t : nat) (s s' : diff_state) (o : outs) (d : bool) : Prop := {
  ef_st1 : same_static (tree1 s) (tree1 s');
  ef_st2 : same_static (tree2 s) (tree2 s');
  ef_m1 : forall p, mapped (tree1 s') p = true <-> mapped (tree1 s) p = true \/ p ∈ o_m1 o;
  ef_m2 : forall p, mapped (tree2 s') p = true <-> mapped (tree2 s) p = true \/ p ∈ o_m2 o;
  ef_chg : forall p, changed (tree2 s') p = true <->
             changed (tree2 s) p = true \/ p ∈ o_chg o \/ (d = true /\ anc (tree2 s) p t);
  ef_good : good s';
  ef_diffs : diffs s' = diffs s ++ o_diffs o;
  ef_mod : modified_inplace_ids s' = (fun l => l ++ o_mod o) <$> modified_inplace_ids s;
  ef_dir : dir_diffs s' = dir_diffs s ++ o_dir o;
  ef_del : deleted_inplace_ids s' = (fun l => l ++ o_del o) <$> deleted_inplace_ids s }.

Lemma option_app_nil (l : option ids) : (fun x => x ++ []) <$> l = l.
Proof. destruct l; cbn; [by rewrite app_nil_r|done]. Qed.

Lemma effect_id t s : good s -> effect t s s o_nil false.
Proof.
  intros Hg. split; try done; cbn; rewrite ?app_nil_r, ?option_app_nil; try done; intros p; rewrite elem_of_nil; intuition congruence.
Qed.

Lemma effect_app t s s1 s2 o1 o2 d1 d2 :
  effect t s s1 o1 d1 -> effect t s1 s2 o2 d2 -> effect t s s2 (o_app o1 o2) (d1 || d2).
Proof.
  intros [A1 A2 A3 A4 A5 A6 A7 A8 A9 A10] [B1 B2 B3 B4 B5 B6 B7 B8 B9 B10].
  split; cbn; try done.
  - by eapply same_static_trans.
  - by eapply same_static_trans.
  - intros p. rewrite B3, A3, elem_of_app. tauto.
  - intros p. rewrite B4, A4, elem_of_app. tauto.
  - intros p. rewrite B5, A5, (anc_static_iff (tree2 s) (tree2 s1)), elem_of_app, orb_true_iff by done. tauto.
  - by rewrite B7, A7, app_assoc.
  - rewrite B8, A8. destruct (modified_inplace_ids s); cbn; [by rewrite app_assoc|done].
  - by rewrite B9, A9, app_assoc.
  - rewrite B10, A10. destruct (deleted_inplace_ids s); cbn; [by rewrite app_assoc|done].
Qed.

(** Runs that only append to the lists. *)
Lemma effect_push t s s' o : good s ->
  tree1 s' = tree1 s -> tree2 s' = tree2 s -> o_m1 o = [] -> o_m2 o = [] -> o_chg o = [] ->
  diffs s' = diffs s ++ o_diffs o -> modified_inplace_ids s' = (fun l => l ++ o_mod o) <$> modified_inplace_ids s ->
  dir_diffs s' = dir_diffs s ++ o_dir o -> deleted_inplace_ids s' = (fun l => l ++ o_del o) <$> deleted_inplace_ids s ->
  effect t s s' o false.
Proof.
  intros Hg E1 E2 M1 M2 C Hd Hm Hdd Hdel. split; try done; unfold good; rewrite ?E1, ?E2, ?M1, ?M2, ?C; try done;
    intros p; rewrite elem_of_nil; intuition congruence.
Qed.

Lemma changed_parent_effect t s : good s -> (t < length (tree2 s))%nat ->
  exists s', changed_parent t s = Returns s' /\ effect t s s' o_nil true.
Proof.
  intros [Hp Hu] Ht. unfold changed_parent.
  destruct (subtreeChangedParent_spec (length (tree2 s)) t (tree2 s)) as (ns' & E & Hs & Hm & Hc); [done..|by intros b q _; apply Hu|].
  rewrite E. cbn [obind]. eexists. split; [done|]. split; cbn; rewrite ?app_nil_r, ?option_app_nil; try done.
  - intros p. rewrite elem_of_nil. tauto.
  - intros p. rewrite Hm, elem_of_nil. tauto.
  - intros p. rewrite Hc, elem_of_nil. intuition congruence.
  - split; cbn; [by apply (parents_ok_static (tree2 s))|]. intros p q. rewrite !Hc.
    rewrite static_parent, (same_static_node (tree2 s) ns') by done. intros [Hcp|Ha] Hq; [left; by apply (Hu p)|].
    right. clear -Ha Hq. induction Ha as [p|a p r Hr Ha IH]; [by apply anc_up with q; [|constructor]|].
    apply anc_up with r; [done|]. by apply IH.
Qed.

Lemma subtreeChanged_effect t p s : good s -> (t < length (tree2 s))%nat -> parent (getNode (tree2 s) p) = Some t ->
  exists s', subtreeChanged p s = Returns s' /\ effect t s s' o_nil true.
Proof. intros Hg Ht Hp. unfold subtreeChanged. rewrite Hp. by apply changed_parent_effect. Qed.

(** Pushing and marking. *)
Lemma push_mark t p s s0 o : good s -> effect t s s0 o false -> tree2 s0 = tree2 s ->
  (t < length (tree2 s))%nat -> parent (getNode (tree2 s) p) = Some t ->
  exists s', subtreeChanged p s0 = Returns s' /\ effect t s s' o true.
Proof.
  intros Hg He E Ht Hp. destruct (subtreeChanged_effect t p s0) as (s' & E' & He'); [by destruct He|by rewrite E..|].
  exists s'. split; [done|]. rewrite <- (o_app_nil_r o). by apply (effect_app t s s0 s' o o_nil false true).
Qed.

(** The run on the children of the node [p] of directory [t], as part of the run on [t]. *)
Lemma effect_child t p s s' o d : parent (getNode (tree2 s) p) = Some t ->
  effect p s s' o d -> effect t s s' (o_app o (o_mark d p)) d.
Proof.
  intros Hp [A1 A2 A3 A4 A5 A6 A7 A8 A9 A10]. split; cbn; rewrite ?app_nil_r; try done.
  intros q. rewrite A5, (anc_child (tree2 s) q p t), elem_of_app by done. destruct d.
  - rewrite list_elem_of_singleton. intuition congruence.
  - rewrite elem_of_nil. intuition congruence.
Qed.

Lemma map_nodes_effect t p1 p2 s : good s -> (p1 < length (tree1 s))%nat -> (p2 < length (tree2 s))%nat ->
  effect t s (map_nodes p1 p2 s) (o_map p1 p2) false.
Proof.
  intros [Hp Hu] H1 H2. assert (Hs2 : same_static (tree2 s) (tree2 (map_nodes p1 p2 s))) by (by apply same_static_update).
  split; cbn; rewrite ?app_nil_r, ?option_app_nil; try done.
  - by apply same_static_update.
  - intros p. rewrite mapped_update_mapped, orb_true_iff, bool_decide_eq_true, list_elem_of_singleton by done. intuition congruence.
  - intros p. rewrite mapped_update_mapped, orb_true_iff, bool_decide_eq_true, list_elem_of_singleton by done. intuition congruence.
  - intros p. rewrite changed_update_mapped, elem_of_nil. intuition congruence.
  - split; [by apply (parents_ok_static (tree2 s))|]. intros p q. cbn [tree2 map_nodes]. rewrite !changed_update_mapped.
    intros Hc Hq. apply (Hu p); [done|]. rewrite static_parent, (same_static_node (tree2 s)) in Hq by done. done.
Qed.

(** ** A pair of entries *)

Section Loop.
Context (win32 has_symbit is_windows : bool).
Notation spec := (spec win32 has_symbit is_windows).
Notation dirty := (dirty win32 has_symbit is_windows).
Notation changed_level := (changed_level win32 has_symbit is_windows).
Notation pair_out := (pair_out has_symbit is_windows).
Notation pair_dirty := (pair_dirty win32 has_symbit is_windows).
Notation diff_children := (diff_children win32 has_symbit is_windows).
Notation pair_nodes := (pair_nodes win32 has_symbit is_windows).

Definition same_trees (s s1 : diff_state) : Prop := same_static (tree1 s) (tree1 s1) /\ same_static (tree2 s) (tree2 s1).
Lemma effect_same t s s1 o d : effect t s s1 o d -> same_trees s s1.
Proof. by intros []. Qed.
Lemma same_trees_refl s : same_trees s s.
Proof. done. Qed.
Lemma same_trees_trans a b c : same_trees a b -> same_trees b c -> same_trees a c.
Proof. intros [] []. split; by eapply same_static_trans. Qed.

Section Pair.
Context (t2 par1 p1 ln1 p2 ln2 : nat) (e1 e2 : SFile) (x1 x2 : bytes) (ch1 r1 ch2 r2 : forest).
Context (s : diff_state) (children : diff_state -> outcome diff_state) (inner : outs) (below : bool).
Context (Hg : good s) (Ht : (t2 < length (tree2 s))%nat)
        (L1 : laid (tree1 s) par1 p1 ln1 (Cons e1 x1 ch1 r1)) (L2 : laid (tree2 s) t2 p2 ln2 (Cons e2 x2 ch2 r2))
        (He1 : entry_ok e1) (He2 : entry_ok e2) (Hk : key_of e1 = key_of e2)
        (Hch : forall s1, good s1 -> same_trees s s1 -> exists s', children s1 = Returns s' /\ effect p2 s1 s' inner below).

Lemma pair_modified s0 : good s0 -> tree2 s0 = tree2 s ->
  let del := if Bool.eqb (is_link has_symbit is_windows e1) (is_link has_symbit is_windows e2) then Some ln1 else None in
  tree1 s0 = tree1 s ->
  exists s', subtreeChanged p2 (push_diff ln2 (match del with Some l => push_deleted_inplace l (push_modified ln2 s0) | None => push_modified ln2 s0 end)) = Returns s' /\
    effect t2 s0 s' (o_modified ln2 del) true.
Proof.
  intros Hg0 E2 del E1. apply (push_mark t2); rewrite ?E2; try done.
  - apply effect_push; try done; destruct del; cbn; rewrite ?app_nil_r, ?option_app_nil; done.
  - by destruct del.
  - by eapply laid_parent.
Qed.

Lemma pair_ok : exists s', pair_nodes children p1 p2 s = Returns s' /\
  effect t2 s s' (pair_out inner below e1 e2 p1 ln1 p2 ln2) (pair_dirty below e1 e2).
Proof.
  assert (Hd : isdir e1 = isdir e2) by (by injection Hk).
  pose proof (laid_holds _ _ _ _ _ _ _ _ L1) as H1. pose proof (laid_holds _ _ _ _ _ _ _ _ L2) as H2.
  pose proof (laid_parent _ _ _ _ _ _ _ _ L2) as Hp. pose proof (laid_lt _ _ _ _ _ _ _ _ L1) as Hl1.
  pose proof (laid_lt _ _ _ _ _ _ _ _ L2) as Hl2.
  unfold TreeDiff.pair_nodes, TreeDiffSpec.pair_out, TreeDiffSpec.pair_dirty.
  rewrite (dataEquals_holds _ _ _ _ H1 H2), !(isSymlink_holds _ _ _ _ H1), !(isSymlink_holds _ _ _ _ H2) by done.
  rewrite (laid_id _ _ _ _ _ _ _ _ L1), (laid_id _ _ _ _ _ _ _ _ L2).
  destruct H1 as (T1 & _), H2 as (T2 & _). rewrite T1, T2, !type_char_d, type_char_eq, Hd, eqb_reflx.
  rewrite andb_diag. set (deq := data_eq e1 e2). cbn [andb].
  assert (Hlink : forall s1 o d, effect t2 s s1 o d ->
    exists s', (if negb win32 && is_link has_symbit is_windows e2 then subtreeChanged p2 s1 else Returns s1) = Returns s' /\
      effect t2 s s' o (d || (negb win32 && is_link has_symbit is_windows e2))).
  { intros s1 o d He. destruct (negb win32 && _).
    - assert (Hp1 : parent (getNode (tree2 s1) p2) = Some t2).
      { rewrite static_parent, (same_static_node (tree2 s)); [done|]. by destruct He. }
      destruct (subtreeChanged_effect t2 p2 s1) as (s' & E & He'); [by destruct He| |done|].
      { rewrite (same_static_length (tree2 s)); [done|]. by destruct He. }
      exists s'. split; [done|]. rewrite <- (o_app_nil_r o). by eapply effect_app.
    - exists s1. split; [done|]. by rewrite orb_false_r. }
  destruct (isdir e2 || deq) eqn:Eb.
  - assert (Hstep : exists s1, (if isdir e2 && negb deq then subtreeChanged p2 (push_dir_diff ln2 s) else Returns s) = Returns s1 /\
      effect t2 s s1 (if isdir e2 && negb deq then o_dirdiff ln2 else o_nil) (isdir e2 && negb deq)).
    { destruct (isdir e2 && negb deq); [|exists s; split; [done|by apply effect_id]].
      apply (push_mark t2); try done. apply effect_push; try done; cbn; by rewrite ?app_nil_r, ?option_app_nil. }
    destruct Hstep as (s1 & -> & Hs1). cbn [obind]. destruct (Hch s1) as (s2 & E2 & Hs2); [by destruct Hs1|by eapply effect_same|].
    rewrite E2. cbn [obind].
    assert (Hp1 : parent (getNode (tree2 s1) p2) = Some t2).
    { rewrite static_parent, (same_static_node (tree2 s)); [done|]. by destruct Hs1. }
    pose proof (effect_child t2 p2 s1 s2 inner below Hp1 Hs2) as Hc.
    assert (Hst : same_trees s s2) by (eapply same_trees_trans; eapply effect_same; eassumption).
    assert (Hm : effect t2 s2 (map_nodes p1 p2 s2) (o_map p1 p2) false).
    { destruct Hst as [S1 S2]. apply map_nodes_effect; [by destruct Hs2|by rewrite (same_static_length _ _ S1)|by rewrite (same_static_length _ _ S2)]. }
    pose proof (effect_app _ _ _ _ _ _ _ _ Hs1 (effect_app _ _ _ _ _ _ _ _ Hc Hm)) as Hall.
    destruct (Hlink _ _ _ Hall) as (s' & -> & He'). exists s'. split; [done|].
    replace (negb deq || below) with (isdir e2 && negb deq || (below || false)); [done|].
    rewrite orb_false_r. by destruct (isdir e2), deq.
  - apply orb_false_iff in Eb as [Ed Eq]. rewrite Ed, Eq. cbn [andb obind negb orb].
    pose proof (pair_modified s Hg eq_refl eq_refl) as Hm. cbn zeta in Hm.
    destruct (Bool.eqb (is_link has_symbit is_windows e1) (is_link has_symbit is_windows e2)) in Hm |- *; cbn [andb];
      destruct Hm as (s1 & -> & Hs1); cbn [obind]; destruct (Hlink _ _ _ Hs1) as (s' & -> & He'); by exists s'.
Qed.
End Pair.

(** ** Sorted directories *)

Lemma laid_same s s1 par i ln f : same_static s s1 -> laid s par i ln f -> laid s1 par i ln f.
Proof. intros H. by apply laid_static. Qed.

Lemma same_length2 s s1 : same_trees s s1 -> length (tree2 s1) = length (tree2 s).
Proof. intros [_ H]. by apply same_static_length. Qed.

(** A run, and two runs one behind the other. *)
Definition runs (t2 : nat) (run : diff_state -> outcome diff_state) (s : diff_state) (o : outs) (d : bool) : Prop :=
  exists s', run s = Returns s' /\ effect t2 s s' o d.
Lemma runs_bind t2 step k s o1 d1 o2 d2 :
  runs t2 step s o1 d1 -> (forall s1, effect t2 s s1 o1 d1 -> runs t2 k s1 o2 d2) ->
  runs t2 (fun s => let+ s := step s in k s) s (o_app o1 o2) (d1 || d2).
Proof.
  intros (s1 & E1 & H1) Hk. destruct (Hk s1 H1) as (s2 & E2 & H2). exists s2. rewrite E1. cbn [obind].
  split; [done|]. by eapply effect_app.
Qed.
Lemma runs_nil t2 s : good s -> runs t2 (fun s => Returns s) s o_nil false.
Proof. intros Hg. exists s. split; [done|by apply effect_id]. Qed.

(** A new entry. *)
Lemma new_entry t2 p2 ln2 s e2 x2 ch2 r2 : good s -> (t2 < length (tree2 s))%nat -> laid (tree2 s) t2 p2 ln2 (Cons e2 x2 ch2 r2) ->
  runs t2 (fun s => subtreeChanged p2 (push_diff (id (getNode (tree2 s) p2)) s)) s (o_diff ln2) true.
Proof.
  intros Hg Ht L2. unfold runs. rewrite (laid_id _ _ _ _ _ _ _ _ L2). apply (push_mark t2); try done.
  - apply effect_push; try done; cbn; by rewrite ?app_nil_r, ?option_app_nil.
  - by eapply laid_parent.
Qed.

(** The pointers that the loop follows, after any run. *)
Lemma next1 s s1 par i ln e x ch rest : same_trees s s1 -> laid (tree1 s) par i ln (Cons e x ch rest) ->
  getNextSibling (tree1 s1) i = ptr (i + S (size ch)) rest.
Proof. intros [Q _] L. by eapply laid_next, laid_same. Qed.
Lemma next2 s s1 par i ln e x ch rest : same_trees s s1 -> laid (tree2 s) par i ln (Cons e x ch rest) ->
  getNextSibling (tree2 s1) i = ptr (i + S (size ch)) rest.
Proof. intros [_ Q] L. by eapply laid_next, laid_same. Qed.
Lemma first1 s s1 par i ln e x ch rest : same_trees s s1 -> laid (tree1 s) par i ln (Cons e x ch rest) ->
  getFirstChild (tree1 s1) i = ptr (S i) ch.
Proof. intros [Q _] L. by eapply laid_child, laid_same. Qed.
Lemma first2 s s1 par i ln e x ch rest : same_trees s s1 -> laid (tree2 s) par i ln (Cons e x ch rest) ->
  getFirstChild (tree2 s1) i = ptr (S i) ch.
Proof. intros [_ Q] L. by eapply laid_child, laid_same. Qed.

(** ** Sorted directories *)

(** What the loop needs of the content [f1] and [f2] of two directories. *)
Record ready (t2 par1 : nat) (f1 : forest) (i1 ln1 : nat) (f2 : forest) (i2 ln2 : nat) (s : diff_state) : Prop := {
  rd_good : good s;
  rd_lt : (t2 < length (tree2 s))%nat;
  rd_laid1 : laid (tree1 s) par1 i1 ln1 f1;
  rd_laid2 : laid (tree2 s) t2 i2 ln2 f2;
  rd_sorted1 : sorted f1;
  rd_sorted2 : sorted f2;
  rd_wf1 : wf f1;
  rd_wf2 : wf f2 }.

Lemma ready_after t2 par1 f1 i1 ln1 f2 i2 ln2 t s s1 o d : effect t s s1 o d ->
  ready t2 par1 f1 i1 ln1 f2 i2 ln2 s -> ready t2 par1 f1 i1 ln1 f2 i2 ln2 s1.
Proof.
  intros He [A1 A2 A3 A4 A5 A6 A7 A8]. pose proof (effect_same _ _ _ _ _ He) as Q. split; try done.
  - by destruct He.
  - by rewrite (same_length2 s).
  - destruct Q as [Q _]. by apply (laid_same (tree1 s)).
  - destruct Q as [_ Q]. by apply (laid_same (tree2 s)).
Qed.

Section Ready.
Context (t2 par1 i1 ln1 i2 ln2 : nat) (s : diff_state).
Lemma ready_rest1 e x ch rest f2 : ready t2 par1 (Cons e x ch rest) i1 ln1 f2 i2 ln2 s ->
  ready t2 par1 rest (i1 + S (size ch)) (ln1 + entry_lines e ch) f2 i2 ln2 s.
Proof. intros [A1 A2 (_ & _ & _ & A3) A4 (_ & _ & A5) A6 (_ & _ & _ & _ & _ & A7) A8]. by split. Qed.
Lemma ready_rest2 f1 e x ch rest : ready t2 par1 f1 i1 ln1 (Cons e x ch rest) i2 ln2 s ->
  ready t2 par1 f1 i1 ln1 rest (i2 + S (size ch)) (ln2 + entry_lines e ch) s.
Proof. intros [A1 A2 A3 (_ & _ & _ & A4) A5 (_ & _ & A6) A7 (_ & _ & _ & _ & _ & A8)]. by split. Qed.
Lemma ready_children e1 x1 ch1 r1 e2 x2 ch2 r2 : ready t2 par1 (Cons e1 x1 ch1 r1) i1 ln1 (Cons e2 x2 ch2 r2) i2 ln2 s ->
  ready i2 i1 ch1 (S i1) (S ln1) ch2 (S i2) (S ln2) s.
Proof.
  intros [A1 A2 (_ & _ & A3 & _) (A4 & _ & A4' & _) (_ & A5 & _) (_ & A6 & _) (_ & _ & _ & _ & A7 & _) (_ & _ & _ & _ & A8 & _)].
  by split.
Qed.
End Ready.

(** [diff_children k] is right for contents whose sizes are bounded by [n]. *)
Definition level_ok (k n : nat) : Prop := forall f1 f2 t1 t2 depth par1 i1 ln1 i2 ln2 s,
  (size f1 + size f2 < n)%nat -> (0 < depth)%nat -> ready t2 par1 f1 i1 ln1 f2 i2 ln2 s ->
  runs t2 (diff_children k t1 t2 depth (ptr i1 f1) (ptr i2 f2)) s (spec f1 i1 ln1 f2 i2 ln2) (changed_level f1 f2).

(** Two entries with the same key and their contents, at any depth. *)
Lemma pair_step k n t2 depth par1 i1 ln1 i2 ln2 e1 e2 x1 x2 ch1 ch2 r1 r2 s :
  level_ok k n -> (size ch1 + size ch2 < n)%nat -> good s -> (t2 < length (tree2 s))%nat -> key_of e1 = key_of e2 ->
  laid (tree1 s) par1 i1 ln1 (Cons e1 x1 ch1 r1) -> laid (tree2 s) t2 i2 ln2 (Cons e2 x2 ch2 r2) ->
  sorted ch1 -> sorted ch2 -> wf (Cons e1 x1 ch1 r1) -> wf (Cons e2 x2 ch2 r2) ->
  runs t2 (pair_nodes (fun s => diff_children k i1 i2 (S depth) (getFirstChild (tree1 s) i1) (getFirstChild (tree2 s) i2) s) i1 i2) s
    (pair_out (spec ch1 (S i1) (S ln1) ch2 (S i2) (S ln2)) (changed_level ch1 ch2) e1 e2 i1 ln1 i2 ln2)
    (pair_dirty (changed_level ch1 ch2) e1 e2).
Proof.
  intros IH Hn Hg Ht Hk L1 L2 S1 S2 W1 W2.
  pose proof L1 as (_ & _ & Lc1 & _). pose proof L2 as (Hl2 & _ & Lc2 & _).
  pose proof W1 as (_ & He1 & _ & _ & Wc1 & _). pose proof W2 as (_ & He2 & _ & _ & Wc2 & _).
  apply (pair_ok t2 par1 i1 ln1 i2 ln2 e1 e2 x1 x2 ch1 r1 ch2 r2); try done.
  intros s1 Hg1 Q. unfold runs. rewrite (first1 s s1 _ _ _ _ _ _ _ Q L1), (first2 s s1 _ _ _ _ _ _ _ Q L2).
  apply (IH ch1 ch2 i1 i2 (S depth) i1); [done|lia|]. destruct Q as [Q1 Q2]. split; try done.
  - by rewrite (same_static_length _ _ Q2).
  - by apply (laid_same (tree1 s)).
  - by apply (laid_same (tree2 s)).
Qed.

(** A new entry in front of all remaining old ones. *)
Lemma sorted_new k t1 t2 depth par1 f1 i1 ln1 i2 ln2 e2 x2 ch2 r2 s :
  level_ok k (size f1 + size (Cons e2 x2 ch2 r2)) -> (0 < depth)%nat ->
  ready t2 par1 f1 i1 ln1 (Cons e2 x2 ch2 r2) i2 ln2 s -> Forall (fun k1 => key_cmp (key_of e2) k1 < 0) (top_keys f1) ->
  runs t2 (fun s => let+ s := subtreeChanged i2 (push_diff (id (getNode (tree2 s) i2)) s) in
                    diff_children k t1 t2 depth (ptr i1 f1) (getNextSibling (tree2 s) i2) s) s
    (spec f1 i1 ln1 (Cons e2 x2 ch2 r2) i2 ln2) (changed_level f1 (Cons e2 x2 ch2 r2)).
Proof.
  intros IH Hdep Hr Habove. pose proof (proj2 (find_entry_none _ f1 i1 ln1) (above_fresh _ _ Habove)) as Hfind.
  unfold TreeDiffSpec.changed_level. cbn [TreeDiffSpec.spec TreeDiffSpec.dirty]. rewrite Hfind, (lookup_miss _ _ _ _ Hfind).
  rewrite <- orb_assoc, skipped_drop_r by done. pose proof Hr as [Hg Ht _ L2 _ _ _ _].
  apply runs_bind; [by eapply new_entry|]. intros s1 He. unfold runs. rewrite (next2 s s1 _ _ _ _ _ _ _ (effect_same _ _ _ _ _ He) L2).
  apply (IH f1 r2 t1 t2 depth par1); [cbn; lia|done|]. eapply ready_after; [exact He|]. by eapply ready_rest2.
Qed.

(** Entries with the same key in front. *)
Lemma sorted_pair k t1 t2 depth par1 i1 ln1 i2 ln2 e1 x1 ch1 r1 e2 x2 ch2 r2 s :
  level_ok k (size (Cons e1 x1 ch1 r1) + size (Cons e2 x2 ch2 r2)) -> (0 < depth)%nat ->
  ready t2 par1 (Cons e1 x1 ch1 r1) i1 ln1 (Cons e2 x2 ch2 r2) i2 ln2 s -> key_of e1 = key_of e2 ->
  runs t2 (fun s =>
      let+ s := pair_nodes (fun s => diff_children k i1 i2 (S depth) (getFirstChild (tree1 s) i1) (getFirstChild (tree2 s) i2) s) i1 i2 s in
      diff_children k t1 t2 depth (getNextSibling (tree1 s) i1) (getNextSibling (tree2 s) i2) s) s
    (spec (Cons e1 x1 ch1 r1) i1 ln1 (Cons e2 x2 ch2 r2) i2 ln2) (changed_level (Cons e1 x1 ch1 r1) (Cons e2 x2 ch2 r2)).
Proof.
  intros IH Hdep Hr Hk. pose proof Hr as [Hg Ht L1 L2 (Sa1 & Sc1 & _) (Sa2 & Sc2 & _) W1 W2].
  assert (Ha2 : Forall (fun k => key_of e1 <> k) (top_keys r2)) by (rewrite Hk; by apply above_ne).
  assert (Hfind : find_entry (key_of e2) i1 ln1 (Cons e1 x1 ch1 r1) = Some (e1, ch1, i1, ln1)) by (cbn; by rewrite decide_True).
  unfold TreeDiffSpec.changed_level at 1. cbn [TreeDiffSpec.spec TreeDiffSpec.dirty].
  rewrite Hfind, (lookup_hit _ _ _ _ _ _ _ _ Hfind), spec_skip, dirty_skip by done.
  rewrite skipped_drop_l by (rewrite Hk; cbn; left). rewrite (skipped_drop_r r1) by (by rewrite <- Hk). rewrite <- orb_assoc.
  apply runs_bind.
  - eapply pair_step; try done. cbn; lia.
  - intros s1 He. pose proof (effect_same _ _ _ _ _ He) as Q.
    unfold runs. rewrite (next1 s s1 _ _ _ _ _ _ _ Q L1), (next2 s s1 _ _ _ _ _ _ _ Q L2).
    apply (IH r1 r2 t1 t2 depth par1); [cbn; lia|done|]. eapply ready_after; [exact He|]. by eapply ready_rest1, ready_rest2.
Qed.

(** An old entry in front of all remaining new ones. *)
Lemma sorted_skip k t1 t2 depth par1 i1 ln1 i2 ln2 e1 x1 ch1 r1 e2 x2 ch2 r2 s :
  level_ok k (size (Cons e1 x1 ch1 r1) + size (Cons e2 x2 ch2 r2)) -> (0 < depth)%nat ->
  ready t2 par1 (Cons e1 x1 ch1 r1) i1 ln1 (Cons e2 x2 ch2 r2) i2 ln2 s -> key_cmp (key_of e1) (key_of e2) < 0 ->
  runs t2 (fun s => let+ s := changed_parent t2 s in
                    diff_children k t1 t2 depth (getNextSibling (tree1 s) i1) (Some i2) s) s
    (spec (Cons e1 x1 ch1 r1) i1 ln1 (Cons e2 x2 ch2 r2) i2 ln2) (changed_level (Cons e1 x1 ch1 r1) (Cons e2 x2 ch2 r2)).
Proof.
  intros IH Hdep Hr Hlt. pose proof Hr as [Hg Ht L1 _ _ S2 _ _].
  unfold TreeDiffSpec.changed_level. rewrite (skipped_lt _ _ _ _ _ _ _ _ S2 Hlt), orb_true_r, spec_skip by (apply above_ne, above_head; done).
  rewrite <- (o_app_nil_l (spec r1 _ _ _ _ _)).
  apply (runs_bind _ _ _ _ _ true _ (changed_level r1 (Cons e2 x2 ch2 r2))); [by apply changed_parent_effect|].
  intros s1 He. unfold runs. rewrite (next1 s s1 _ _ _ _ _ _ _ (effect_same _ _ _ _ _ He) L1).
  apply (IH r1 (Cons e2 x2 ch2 r2) t1 t2 depth par1); [cbn; lia|done|]. eapply ready_after; [exact He|]. by eapply ready_rest1.
Qed.

Lemma level_sorted fuel : forall n, (n <= fuel)%nat -> level_ok fuel n.
Proof.
  induction fuel as [|k IH]; intros n Hn f1 f2 t1 t2 depth par1 i1 ln1 i2 ln2 s Hk Hdep Hr; [lia|]. unfold runs.
  pose proof Hr as [Hg Ht L1 L2 S1 S2 W1 W2].
  destruct f2 as [|e2 x2 ch2 r2].
  { unfold TreeDiffSpec.changed_level. rewrite skipped_nil_r. by apply runs_nil. }
  cbn [ptr TreeDiff.diff_children]. rewrite (proj2 (Nat.eqb_neq depth 0)), andb_false_r by lia. cbn [obind].
  pose proof (laid_holds _ _ _ _ _ _ _ _ L2) as H2.
  destruct f1 as [|e1 x1 ch1 r1].
  { cbn [ptr fmap option_fmap option_map]. change (compare_child None _) with 1. cbn [Z.ltb Z.compare].
    eapply (sorted_new k t1 t2 depth par1 Nil); [apply IH; cbn in *; lia|done..]. }
  pose proof (laid_holds _ _ _ _ _ _ _ _ L1) as H1.
  cbn [ptr fmap option_fmap option_map]. rewrite (compare_holds _ _ _ _ H1 H2).
  destruct (Z.ltb_spec 0 (key_cmp (key_of e1) (key_of e2))) as [Hgt|Hle].
  { eapply (sorted_new k t1 t2 depth par1 (Cons e1 x1 ch1 r1)); [apply IH; lia|done..|]. apply above_head; [done|]. by apply key_gt_lt. }
  destruct (Z.eqb_spec (key_cmp (key_of e1) (key_of e2)) 0) as [Heq|Hne].
  - apply key_cmp_eq in Heq. eapply sorted_pair; [apply IH; lia|done..].
  - eapply sorted_skip; [apply IH; lia|done..|lia].
Qed.
End Loop.
