(* ===== verification/TreeDiffRoot.v ===== *)
(** [gatherDiffs] on the roots, and the passes over the mapped trees. *)
From stdpp Require Import sorting.
From S2P Require Import Prelude MemFile StringTools FileList TreeNode TreeReader TreeDiff TreeLex TreeForest TreeBuild TreeDiffSpec TreeMarks TreeDiffLoop.

(** ** Where entries lie *)

Lemma find_entry_range k f : forall i ln e ch p l, find_entry k i ln f = Some (e, ch, p, l) ->
  (i <= p /\ p + S (size ch) <= i + size f)%nat.
Proof.
  induction f as [|e0 x c _ rest IH]; intros i ln e ch p l; cbn; [done|]. destruct (decide _).
  - intros [= -> -> -> ->]. lia.
  - intros E. apply IH in E. lia.
Qed.
Lemma find_entry_disjoint k k' f : k <> k' -> forall i ln e ch p l e' ch' p' l',
  find_entry k i ln f = Some (e, ch, p, l) -> find_entry k' i ln f = Some (e', ch', p', l') ->
  (p + size ch < p' \/ p' + size ch' < p)%nat.
Proof.
  intros Hk. induction f as [|e0 x c _ rest IH]; intros i ln e ch p l e' ch' p' l'; cbn; [done|].
  destruct (decide (key_of e0 = k)), (decide (key_of e0 = k')); [congruence|..].
  - intros [= <- <- <- <-] E. apply find_entry_range in E. lia.
  - intros E [= <- <- <- <-]. apply find_entry_range in E. lia.
  - apply IH.
Qed.

(** A part of a directory's content from one of its entries on. *)
Inductive suffix (f : forest) (i ln : nat) : forest -> nat -> nat -> Prop :=
| suffix_all : suffix f i ln f i ln
| suffix_rest e x ch rest j lj : suffix f i ln (Cons e x ch rest) j lj ->
    suffix f i ln rest (j + S (size ch)) (lj + entry_lines e ch).

Section Suffix.
Context (f : forest) (i ln : nat).

Lemma find_suffix k e ch p l : find_entry k i ln f = Some (e, ch, p, l) -> exists x rest, suffix f i ln (Cons e x ch rest) p l.
Proof.
  assert (H : forall g j lj, suffix f i ln g j lj -> find_entry k j lj g = Some (e, ch, p, l) ->
            exists x rest, suffix f i ln (Cons e x ch rest) p l).
  { induction g as [|e0 x c _ rest IH]; intros j lj Hs; cbn; [done|]. destruct (decide _).
    - intros [= -> -> -> ->]. by exists x, rest.
    - apply IH. by eapply suffix_rest. }
  apply H. constructor.
Qed.
Lemma suffix_laid ns par g j lj : suffix f i ln g j lj -> laid ns par i ln f -> laid ns par j lj g.
Proof. induction 1 as [|e x ch rest j lj _ IH]; [done|]. intros H. by apply IH in H as (_ & _ & _ & H). Qed.
Lemma suffix_wf g j lj : suffix f i ln g j lj -> wf f -> wf g.
Proof. induction 1 as [|e x ch rest j lj _ IH]; [done|]. intros H. by apply IH in H as (_ & _ & _ & _ & _ & H). Qed.
Lemma suffix_size g j lj : suffix f i ln g j lj -> (size g <= size f)%nat.
Proof. induction 1 as [|e x ch rest j lj _ IH]; [done|]. cbn in IH. lia. Qed.
Lemma suffix_roots g j lj : suffix f i ln g j lj -> roots_ok f -> roots_ok g.
Proof. induction 1 as [|e x ch rest j lj _ IH]; [done|]. intros H. by apply IH in H as (_ & _ & H). Qed.
Lemma suffix_find g j lj : suffix f i ln g j lj -> roots_ok f -> forall k, k ∈ top_keys g ->
  find_entry k i ln f = find_entry k j lj g.
Proof.
  induction 1 as [|e x ch rest j lj Hs IH]; [done|]. intros Hr k Hk. rewrite IH by (done || by right).
  apply find_entry_skip. apply (suffix_roots _ _ _ Hs) in Hr as (Hu & _). rewrite Forall_forall in Hu. by apply Hu.
Qed.
Lemma suffix_own e x ch rest j lj : suffix f i ln (Cons e x ch rest) j lj -> roots_ok f ->
  find_entry (key_of e) i ln f = Some (e, ch, j, lj).
Proof. intros Hs Hr. rewrite (suffix_find _ _ _ Hs) by (done || left). cbn. by rewrite decide_True. Qed.
End Suffix.

Section Root.
Context (win32 has_symbit is_windows : bool).
Notation spec := (spec win32 has_symbit is_windows).
Notation dirty := (dirty win32 has_symbit is_windows).
Notation changed_level := (changed_level win32 has_symbit is_windows).
Notation pair_out := (pair_out has_symbit is_windows).
Notation pair_dirty := (pair_dirty win32 has_symbit is_windows).
Notation diff_children := (diff_children win32 has_symbit is_windows).
Notation pair_nodes := (pair_nodes win32 has_symbit is_windows).

Lemma pair_out_m1 inner b e1 e2 p1 l1 p2 l2 q : q ∈ o_m1 (pair_out inner b e1 e2 p1 l1 p2 l2) -> q = p1 \/ q ∈ o_m1 inner.
Proof.
  unfold TreeDiffSpec.pair_out. destruct (isdir e2 || _); [|cbn; by rewrite elem_of_nil]. destruct (isdir e2 && _); cbn;
    rewrite !elem_of_app, list_elem_of_singleton, !elem_of_nil; tauto.
Qed.
Lemma spec_m1_range f2 : forall r1 i1 ln1 i2 ln2 q, q ∈ o_m1 (spec r1 i1 ln1 f2 i2 ln2) -> (i1 <= q < i1 + size r1)%nat.
Proof.
  induction f2 as [|e2 x2 c2 IHc rest2 IHr]; intros r1 i1 ln1 i2 ln2 q; cbn; [by rewrite elem_of_nil|].
  rewrite elem_of_app. intros [H|H]; [|by apply IHr in H].
  destruct (find_entry (key_of e2) i1 ln1 r1) as [[[[e1 ch1] p1] l1]|] eqn:E; [|by apply elem_of_nil in H].
  apply find_entry_range in E. apply pair_out_m1 in H as [->|H]; [lia|]. apply IHc in H. lia.
Qed.

Lemma root_search_spec fuel : forall ns n2 e2 f par i ln, holds n2 e2 -> laid ns par i ln f -> (size f <= fuel)%nat ->
  (forall e ch p l, find_entry (key_of e2) i ln f = Some (e, ch, p, l) -> mapped ns p = false) ->
  root_search fuel ns (ptr i f) n2 = Returns ((fun h => snd (fst h)) <$> find_entry (key_of e2) i ln f).
Proof.
  induction fuel as [|k IH]; intros ns n2 e2 f par i ln H2 L Hk Hm; (destruct f as [|e x ch rest]; [done|]); [cbn in Hk; lia|].
  cbn [ptr root_search]. rewrite (same_key_holds _ _ _ _ (laid_holds _ _ _ _ _ _ _ _ L) H2).
  pose proof L as (_ & _ & _ & Lr). cbn [find_entry] in *. destruct (decide (key_of e = key_of e2)) as [E|E].
  - rewrite bool_decide_true by done. specialize (Hm _ _ _ _ eq_refl). unfold mapped in Hm.
    apply negb_false_iff in Hm. by rewrite Hm.
  - rewrite bool_decide_false by congruence. cbn [andb]. rewrite (laid_next _ _ _ _ _ _ _ _ L).
    eapply IH; [done|exact Lr|cbn in Hk; lia|done].
Qed.

(** ** The loop on the roots *)

Section RootLoop.
Context (r0 : forest) (Hr0 : roots_ok r0) (Hw0 : wf r0).

(** The current directories are the roots; [g1] and [f2] are what is left of them. *)
Record root_ready (g1 : forest) (i1 ln1 : nat) (f2 : forest) (i2 ln2 : nat) (s : diff_state) : Prop := {
  rr_good : good s;
  rr_lt : (0 < length (tree2 s))%nat;
  rr_laid1 : laid (tree1 s) 0 1 0 r0;
  rr_first1 : getFirstChild (tree1 s) 0 = ptr 1 r0;
  rr_size : (size r0 <= length (tree1 s))%nat;
  rr_suffix : suffix r0 1 0 g1 i1 ln1;
  rr_laid2 : laid (tree2 s) 0 i2 ln2 f2;
  rr_roots2 : roots_ok f2;
  rr_wf2 : wf f2;
  rr_fresh : forall k e ch p l, k ∈ top_keys f2 -> find_entry k 1 0 r0 = Some (e, ch, p, l) -> mapped (tree1 s) p = false }.

Lemma first_child_static ns ns' p : same_static ns ns' -> getFirstChild ns' p = getFirstChild ns p.
Proof.
  intros H. unfold getFirstChild. change (num_children (getNode ns' p)) with (num_children (static (getNode ns' p))).
  by rewrite (same_static_node ns ns').
Qed.

(** After a run that maps nothing that the remaining entries need. *)
Lemma root_after g1 i1 ln1 f2 i2 ln2 t s s1 o d : effect t s s1 o d ->
  (forall k e ch p l, k ∈ top_keys f2 -> find_entry k 1 0 r0 = Some (e, ch, p, l) -> p ∉ o_m1 o) ->
  root_ready g1 i1 ln1 f2 i2 ln2 s -> root_ready g1 i1 ln1 f2 i2 ln2 s1.
Proof.
  intros He Ho [A1 A2 A3 A4 A5 A6 A7 A8 A9 A10]. pose proof (effect_same _ _ _ _ _ He) as [Q1 Q2]. split; try done.
  - by destruct He.
  - by rewrite (same_static_length _ _ Q2).
  - by apply (laid_static (tree1 s)).
  - by rewrite (first_child_static (tree1 s)).
  - by rewrite (same_static_length _ _ Q1).
  - by apply (laid_static (tree2 s)).
  - intros k e ch p l Hk Hf. destruct (mapped (tree1 s1) p) eqn:Em; [|done]. apply (ef_m1 _ _ _ _ _ He) in Em as [Em|Em].
    + by rewrite (A10 k e ch p l) in Em.
    + by destruct (Ho k e ch p l).
Qed.

Lemma root_move g1 i1 ln1 g1' i1' ln1' f2 i2 ln2 s : suffix r0 1 0 g1' i1' ln1' ->
  root_ready g1 i1 ln1 f2 i2 ln2 s -> root_ready g1' i1' ln1' f2 i2 ln2 s.
Proof. intros Hs [A1 A2 A3 A4 A5 A6 A7 A8 A9 A10]. by split. Qed.
Lemma root_rest2 g1 i1 ln1 e x ch rest i2 ln2 s : root_ready g1 i1 ln1 (Cons e x ch rest) i2 ln2 s ->
  root_ready g1 i1 ln1 rest (i2 + S (size ch)) (ln2 + entry_lines e ch) s.
Proof.
  intros [A1 A2 A3 A4 A5 A6 (_ & _ & _ & A7) (_ & _ & A8) (_ & _ & _ & _ & _ & A9) A10]. split; try done.
  intros k ? ? ? ? Hk. apply A10. by right.
Qed.

Definition root_ok (k n : nat) : Prop := forall g1 i1 ln1 f2 i2 ln2 s,
  (S (size r0) * size f2 + size g1 < n)%nat -> root_ready g1 i1 ln1 f2 i2 ln2 s ->
  exists d, runs 0 (diff_children k 0 0 0 (ptr i1 g1) (ptr i2 f2)) s (spec r0 1 0 f2 i2 ln2) d.

(** A root that is in both lists, wherever it is in the old one. *)
Lemma root_pair k g1 i1 ln1 i2 ln2 e2 x2 ch2 r2 e1 ch1 p1 l1 s :
  root_ok k (S (size r0) * size (Cons e2 x2 ch2 r2)) -> level_ok win32 has_symbit is_windows k (S (size r0 + size ch2)) ->
  root_ready g1 i1 ln1 (Cons e2 x2 ch2 r2) i2 ln2 s -> find_entry (key_of e2) 1 0 r0 = Some (e1, ch1, p1, l1) ->
  exists d, runs 0 (fun s =>
      let+ s := pair_nodes (fun s => diff_children k p1 i2 1 (getFirstChild (tree1 s) p1) (getFirstChild (tree2 s) i2) s) p1 i2 s in
      diff_children k 0 0 0 (getNextSibling (tree1 s) p1) (getNextSibling (tree2 s) i2) s) s
    (spec r0 1 0 (Cons e2 x2 ch2 r2) i2 ln2) d.
Proof.
  intros IH IHl Hr Hf. pose proof Hr as [Hg Ht L0 _ _ _ L2 R2 W2 _]. destruct (find_suffix _ _ _ _ _ _ _ _ Hf) as (x1 & r1 & Hs1).
  pose proof (suffix_laid _ _ _ _ _ _ _ _ Hs1 L0) as L1. pose proof (suffix_wf _ _ _ _ _ _ Hs1 Hw0) as W1.
  pose proof (suffix_roots _ _ _ _ _ _ Hs1 Hr0) as (_ & S1 & _). pose proof R2 as (U2 & S2 & _).
  pose proof (suffix_size _ _ _ _ _ _ Hs1) as Hz1. cbn [size] in Hz1.
  pose proof (find_entry_key _ _ _ _ _ _ _ _ Hf) as Hk.
  destruct (pair_step win32 has_symbit is_windows k (S (size r0 + size ch2)) 0 0 0 p1 l1 i2 ln2 e1 e2 x1 x2 ch1 ch2 r1 r2 s)
    as (s1 & E1 & He); [done|lia|done..|].
  pose proof (effect_same _ _ _ _ _ He) as Q.
  assert (Hr1 : root_ready r1 (p1 + S (size ch1)) (l1 + entry_lines e1 ch1) r2 (i2 + S (size ch2)) (ln2 + entry_lines e2 ch2) s1).
  { eapply root_after; [exact He| |].
    - intros k' e' ch' p' l' Hk' Hf' Hin. assert (Hne : key_of e2 <> k') by (rewrite Forall_forall in U2; by apply U2).
      pose proof (find_entry_disjoint _ _ _ Hne _ _ _ _ _ _ _ _ _ _ Hf Hf') as Hdis.
      apply pair_out_m1 in Hin as [->|Hin]; [lia|]. apply spec_m1_range in Hin. lia.
    - eapply root_move; [by eapply suffix_rest|]. by eapply root_rest2. }
  destruct (IH r1 (p1 + S (size ch1))%nat (l1 + entry_lines e1 ch1)%nat r2 (i2 + S (size ch2))%nat (ln2 + entry_lines e2 ch2)%nat s1)
    as (d & s2 & E2 & He2); [cbn; lia|done|].
  eexists. exists s2. rewrite E1. cbn [obind]. rewrite (next1 s s1 _ _ _ _ _ _ _ Q L1), (next2 s s1 _ _ _ _ _ _ _ Q L2).
  split; [exact E2|]. cbn [TreeDiffSpec.spec]. rewrite Hf. by eapply effect_app.
Qed.

Lemma root_new k g1 i1 ln1 i2 ln2 e2 x2 ch2 r2 s :
  root_ok k (S (size r0) * size (Cons e2 x2 ch2 r2) + size g1) ->
  root_ready g1 i1 ln1 (Cons e2 x2 ch2 r2) i2 ln2 s -> find_entry (key_of e2) 1 0 r0 = None ->
  exists d, runs 0 (fun s => let+ s := subtreeChanged i2 (push_diff (id (getNode (tree2 s) i2)) s) in
                             diff_children k 0 0 0 (ptr i1 g1) (getNextSibling (tree2 s) i2) s) s
    (spec r0 1 0 (Cons e2 x2 ch2 r2) i2 ln2) d.
Proof.
  intros IH Hr Hf. pose proof Hr as [Hg Ht _ _ _ _ L2 _ _ _].
  destruct (new_entry 0 i2 ln2 s e2 x2 ch2 r2 Hg Ht L2) as (s1 & E1 & He). pose proof (effect_same _ _ _ _ _ He) as Q.
  destruct (IH g1 i1 ln1 r2 (i2 + S (size ch2))%nat (ln2 + entry_lines e2 ch2)%nat s1) as (d & s2 & E2 & He2); [cbn; lia| |].
  { eapply root_after; [exact He| |by eapply root_rest2]. intros. apply not_elem_of_nil. }
  eexists. exists s2. rewrite E1. cbn [obind]. rewrite (next2 s s1 _ _ _ _ _ _ _ Q L2). split; [exact E2|].
  cbn [TreeDiffSpec.spec]. rewrite Hf. by eapply effect_app.
Qed.

Lemma root_skip k e1 x1 ch1 r1 i1 ln1 f2 i2 ln2 s :
  root_ok k (S (size r0) * size f2 + size (Cons e1 x1 ch1 r1)) -> root_ready (Cons e1 x1 ch1 r1) i1 ln1 f2 i2 ln2 s ->
  exists d, runs 0 (fun s => let+ s := changed_parent 0 s in
                             diff_children k 0 0 0 (getNextSibling (tree1 s) i1) (ptr i2 f2) s) s
    (spec r0 1 0 f2 i2 ln2) d.
Proof.
  intros IH Hr. pose proof Hr as [Hg Ht L0 _ _ Hs _ _ _ _].
  destruct (changed_parent_effect 0 s Hg Ht) as (s1 & E1 & He). pose proof (effect_same _ _ _ _ _ He) as Q.
  destruct (IH r1 (i1 + S (size ch1))%nat (ln1 + entry_lines e1 ch1)%nat f2 i2 ln2 s1) as (d & s2 & E2 & He2); [cbn; lia| |].
  { eapply root_after; [exact He| |]; [intros; apply not_elem_of_nil|]. eapply root_move; [by eapply suffix_rest|done]. }
  eexists. exists s2. rewrite E1. cbn [obind]. rewrite (next1 s s1 _ _ _ _ _ _ _ Q (suffix_laid _ _ _ _ _ _ _ _ Hs L0)).
  split; [exact E2|]. rewrite <- (o_app_nil_l (spec r0 _ _ _ _ _)). by eapply effect_app.
Qed.

Lemma root_loop fuel : forall n, (n <= fuel)%nat -> root_ok fuel n.
Proof.
  induction fuel as [|k IH]; intros n Hn g1 i1 ln1 f2 i2 ln2 s Hk Hr; [lia|].
  pose proof Hr as [Hg Ht L0 Hfc Hsz Hs L2 R2 W2 Hfr].
  destruct f2 as [|e2 x2 ch2 r2]; [exists false; by apply runs_nil|].
  pose proof (laid_holds _ _ _ _ _ _ _ _ L2) as H2. cbn [ptr TreeDiff.diff_children]. unfold runs.
  cbn [size] in Hk. assert (Hk' : (S (size r0) * size (Cons e2 x2 ch2 r2) + size g1 <= k)%nat) by (cbn [size]; lia).
  assert (Hsearch : root_search (length (tree1 s)) (tree1 s) (getFirstChild (tree1 s) 0) (getNode (tree2 s) i2) =
            Returns ((fun h => snd (fst h)) <$> find_entry (key_of e2) 1 0 r0)).
  { rewrite Hfc. eapply root_search_spec; [done..|]. intros. apply (Hfr (key_of e2) e ch p l); [by left|done]. }
  rewrite Hsearch, Nat.eqb_refl, andb_true_r. cbn [obind].
  assert (Hl : (S (size r0 + size ch2) <= k)%nat) by (cbn [size] in Hk'; nia).
  pose proof (fun e1 ch1 p1 l1 => root_pair k g1 i1 ln1 i2 ln2 e2 x2 ch2 r2 e1 ch1 p1 l1 s
    (IH (S (size r0) * size (Cons e2 x2 ch2 r2))%nat ltac:(lia)) (level_sorted _ _ _ k _ Hl) Hr) as Hpair.
  destruct (Z.eqb_spec (compare_child (getNode (tree1 s) <$> ptr i1 g1) (getNode (tree2 s) i2)) 0) as [Hc|Hc]; cbn [negb].
  - cbn [obind]. rewrite Hc. cbn [Z.ltb Z.compare Z.eqb]. destruct g1 as [|e1 x1 ch1 r1]; [done|]. cbn [ptr].
    cbn [ptr fmap option_fmap option_map] in Hc.
    rewrite (compare_holds _ _ e1 e2 (laid_holds _ _ _ _ _ _ _ _ (suffix_laid _ _ _ _ _ _ _ _ Hs L0)) H2) in Hc.
    apply key_cmp_eq in Hc. apply (Hpair e1 ch1 i1 ln1). rewrite <- Hc. by eapply suffix_own.
  - destruct (find_entry (key_of e2) 1 0 r0) as [[[[e1 ch1] p1] l1]|] eqn:Ef; cbn [fmap option_fmap option_map fst snd obind].
    + cbn [Z.ltb Z.compare Z.eqb]. by apply (Hpair e1 ch1 p1 l1).
    + destruct (Z.ltb_spec 0 (compare_child (getNode (tree1 s) <$> ptr i1 g1) (getNode (tree2 s) i2))) as [Hgt|Hle].
      * apply (root_new k g1 i1 ln1 i2 ln2 e2 x2 ch2 r2 s); [by apply IH|done..].
      * destruct g1 as [|e1 x1 ch1 r1]; [cbn in Hle; lia|]. cbn [ptr fmap option_fmap option_map].
        rewrite (proj2 (Z.eqb_neq _ 0)) by done.
        apply (root_skip k e1 x1 ch1 r1 i1 ln1 (Cons e2 x2 ch2 r2) i2 ln2 s); [by apply IH|done].
Qed.
End RootLoop.

(** ** The whole comparison *)

Lemma tree_first f : getFirstChild (tree_nodes f) 0 = ptr 1 f.
Proof. by destruct f. Qed.
Lemma length_tree f : length (tree_nodes f) = S (size f).
Proof. unfold tree_nodes. cbn. by rewrite length_flat. Qed.

Lemma nodes_fresh f : forall par i ln n k, flat par i ln f !! k = Some n -> mapped_node n = None /\ subtree_changed n = false.
Proof.
  induction f as [|e x ch IHc rest IHr]; intros par i ln n k; cbn [flat]; [done|]. destruct k as [|k]; cbn; [by intros [= <-]|].
  rewrite lookup_app_Some. intros [Hk|[_ Hk]]; [by apply IHc in Hk|by apply IHr in Hk].
Qed.
Lemma tree_fresh f p : mapped (tree_nodes f) p = false /\ changed (tree_nodes f) p = false.
Proof.
  unfold mapped, changed, getNode. destruct p as [|p]; [done|]. unfold tree_nodes; cbn. rewrite nth_lookup.
  destruct (flat 0 1 0 f !! p) as [n|] eqn:E; [|done]. apply nodes_fresh in E as [E1 E2]. cbn. by rewrite E1, E2.
Qed.

Lemma gatherDiffs_spec f1 f2 fuel m dd x : wf f1 -> wf f2 -> roots_ok f1 -> roots_ok f2 ->
  (length (tree_nodes f1) * length (tree_nodes f2) <= fuel)%nat ->
  let s := mkDiff (tree_nodes f1) (tree_nodes f2) [] m dd x in
  exists d s', gatherDiffs win32 has_symbit is_windows fuel 0 0 0 s = Returns s' /\ effect 0 s s' (spec f1 1 0 f2 1 0) d.
Proof.
  intros W1 W2 R1 R2 Hfuel s. rewrite !length_tree in Hfuel. unfold gatherDiffs. cbn [tree1 tree2 s]. rewrite !tree_first.
  apply (root_loop f1 R1 W1 fuel fuel (le_n _) f1 1%nat 0%nat f2 1%nat 0%nat s); [nia|]. split; cbn [tree1 tree2 s]; rewrite ?length_tree; try done; try lia.
  - split; [apply parents_ok_tree|]. intros p q Hc. pose proof (proj2 (tree_fresh f2 p)) as Hf. cbn [tree2 s] in Hc. congruence.
  - apply laid_tree.
  - apply tree_first.
  - constructor.
  - apply laid_tree.
  - intros. apply tree_fresh.
Qed.
End Root.

(** ** The passes behind it *)

Fixpoint unmapped_lines (m : nat -> bool) (i ln : nat) (f : forest) : ids :=
  match f with
  | Nil => []
  | Cons e _ ch rest =>
      (if m i then [] else [ln]) ++ unmapped_lines m (S i) (S ln) ch
        ++ unmapped_lines m (i + S (size ch)) (ln + entry_lines e ch) rest
  end.
(** [ok i]: node [i] is mapped and not marked. *)
Fixpoint large_lines (ok : nat -> bool) (i ln : nat) (f : forest) : ids :=
  match f with
  | Nil => []
  | Cons e _ ch rest =>
      (if ok i && (10 <? S (size ch))%nat then [ln] else large_lines ok (S i) (S ln) ch)
        ++ large_lines ok (i + S (size ch)) (ln + entry_lines e ch) rest
  end.

Section Passes.
Context (ns : list TreeNode).

Lemma gather_deletes_spec fuel : forall f par i ln acc, laid ns par i ln f -> (size f <= fuel)%nat ->
  gather_deletes fuel ns (ptr i f) acc = Returns (acc ++ unmapped_lines (mapped ns) i ln f).
Proof.
  induction fuel as [|k IH]; intros f par i ln acc L Hk; (destruct f as [|e x ch rest]; [cbn; by rewrite app_nil_r|]); [cbn in Hk; lia|].
  cbn in Hk. pose proof L as (_ & _ & Lc & Lr). cbn [ptr gather_deletes unmapped_lines].
  rewrite (laid_child _ _ _ _ _ _ _ _ L), (laid_id _ _ _ _ _ _ _ _ L), (laid_next _ _ _ _ _ _ _ _ L).
  rewrite (IH ch i (S i) (S ln)) by (done || lia). cbn [obind]. rewrite (IH rest par _ (ln + entry_lines e ch)%nat) by (done || lia).
  assert (Em : bool_decide (mapped_node (getNode ns i) = None) = negb (mapped ns i)) by (unfold mapped; by rewrite negb_involutive).
  rewrite Em. f_equal. destruct (mapped ns i); cbn [negb]; by rewrite <- !app_assoc.
Qed.

Lemma treesize_spec limit fuel : forall f par i ln t, laid ns par i ln f -> (size f <= fuel)%nat ->
  exists n, treesize_loop fuel ns limit (ptr i f) t = Returns n /\ (n <= t + size f)%nat /\ (n = t + size f \/ limit < n)%nat.
Proof.
  induction fuel as [|k IH]; intros f par i ln t L Hk; (destruct f as [|e x ch rest]; [exists t; cbn; split; [done|lia]|]); [cbn in Hk; lia|].
  cbn in Hk. pose proof L as (_ & _ & Lc & Lr). cbn [ptr treesize_loop size].
  rewrite (laid_child _ _ _ _ _ _ _ _ L), (laid_next _ _ _ _ _ _ _ _ L).
  destruct (IH ch i (S i) (S ln) 1%nat Lc ltac:(lia)) as (n1 & -> & H1 & H1'). cbn [obind].
  destruct (Nat.ltb_spec limit (t + n1)) as [Hl|Hl]; [eexists; split; [done|lia]|].
  destruct (IH rest par _ _ (t + n1)%nat Lr ltac:(lia)) as (n2 & -> & H2 & H2'). eexists. split; [done|]. lia.
Qed.

Lemma laid_size f : forall par i ln, laid ns par i ln f -> (size f <= length ns)%nat /\ (f <> Nil -> i + size f <= length ns)%nat.
Proof.
  induction f as [|e x ch IHc rest IHr]; intros par i ln; [by cbn; split; [lia|]|]. intros (Hi & _ & Lc & Lr).
  apply IHc in Lc as [_ Hc]. apply IHr in Lr as [_ Hr]. enough (i + size (Cons e x ch rest) <= length ns)%nat by (split; lia).
  assert (Hc' : size ch = 0%nat \/ (S i + size ch <= length ns)%nat) by (destruct ch; [by left|right; by apply Hc]).
  assert (Hr' : size rest = 0%nat \/ (i + S (size ch) + size rest <= length ns)%nat) by (destruct rest; [by left|right; by apply Hr]).
  cbn [size]. lia.
Qed.

Lemma gather_large_spec fuel : forall f par i ln acc, laid ns par i ln f -> (size f <= fuel)%nat ->
  gather_large fuel ns (ptr i f) acc = Returns (acc ++ large_lines (fun p => negb (changed ns p) && mapped ns p) i ln f).
Proof.
  induction fuel as [|k IH]; intros f par i ln acc L Hk; (destruct f as [|e x ch rest]; [cbn; by rewrite app_nil_r|]); [cbn in Hk; lia|].
  cbn in Hk. pose proof L as (_ & _ & Lc & Lr). cbn [ptr gather_large large_lines].
  rewrite (laid_child _ _ _ _ _ _ _ _ L), (laid_id _ _ _ _ _ _ _ _ L), (laid_next _ _ _ _ _ _ _ _ L).
  fold (mapped ns i). change (subtree_changed (getNode ns i)) with (changed ns i).
  assert (Hsize : (if negb (changed ns i) && mapped ns i then let+ n := getTreesize ns i 10 in Returns (10 <? n)%nat else Returns false) =
            Returns (negb (changed ns i) && mapped ns i && (10 <? S (size ch))%nat)).
  { destruct (negb (changed ns i) && mapped ns i); [|done]. unfold getTreesize. rewrite (laid_child _ _ _ _ _ _ _ _ L).
    destruct (treesize_spec 10 (length ns) ch i (S i) (S ln) 1 Lc) as (n & -> & Hn & Hn'); [by eapply laid_size|]. cbn [obind andb].
    f_equal. apply eq_bool_prop_intro. rewrite !Is_true_true, !Nat.ltb_lt. lia. }
  rewrite Hsize. cbn [obind]. destruct (_ && (10 <? S (size ch))%nat); cbn [obind].
  - rewrite (IH rest par _ (ln + entry_lines e ch)%nat) by (done || lia). by rewrite <- app_assoc.
  - rewrite (IH ch i (S i) (S ln)) by (done || lia). cbn [obind]. rewrite (IH rest par _ (ln + entry_lines e ch)%nat) by (done || lia).
    by rewrite <- app_assoc.
Qed.
End Passes.

(** The predicate may be replaced by an equal one. *)
Lemma unmapped_ext m m' f : (forall i, m i = m' i) -> forall i ln, unmapped_lines m i ln f = unmapped_lines m' i ln f.
Proof. intros H. induction f as [|e x ch IHc rest IHr]; intros; cbn; [done|]. by rewrite H, IHc, IHr. Qed.
Lemma large_ext m m' f : (forall i, (0 < i)%nat -> m i = m' i) -> forall i ln, (0 < i)%nat -> large_lines m i ln f = large_lines m' i ln f.
Proof.
  intros H. induction f as [|e x ch IHc rest IHr]; intros i ln Hi; cbn; [done|]. by rewrite H, IHc, IHr by lia.
Qed.

Definition mem_of (l : list nat) (p : nat) : bool := bool_decide (p ∈ l).

Lemma bool_iff (b : bool) (P : Prop) `{Decision P} : (b = true <-> P) -> b = bool_decide P.
Proof. intros H0. destruct b; symmetry; [apply bool_decide_true|apply bool_decide_false]; intuition congruence. Qed.

(** All of [diffTrees] behind reading, as a function of the two forests. *)
Lemma diff_nodes_spec win32 hs w f1 f2 del large m dd x : wf f1 -> wf f2 -> roots_ok f1 -> roots_ok f2 ->
  let o := spec win32 hs w f1 1 0 f2 1 0 in
  diff_nodes win32 hs w (tree_nodes f1) (tree_nodes f2) del large m dd x =
  Returns (mkResult (sort (o_diffs o))
    ((fun l => sort (l ++ unmapped_lines (mem_of (o_m1 o)) 1 0 f1)) <$> del)
    ((fun l => sort (l ++ large_lines (fun p => negb (mem_of (o_chg o) p) && mem_of (o_m2 o) p) 1 0 f2)) <$> large)
    ((fun l => sort (l ++ o_mod o)) <$> m) (sort (dd ++ o_dir o)) ((fun l => sort (l ++ o_del o)) <$> x)).
Proof.
  intros W1 W2 R1 R2 o. unfold diff_nodes.
  destruct (gatherDiffs_spec win32 hs w f1 f2 (length (tree_nodes f1) * length (tree_nodes f2)) m dd x W1 W2 R1 R2 ltac:(done))
    as (d & s' & -> & He). fold o in He. cbn [obind].
  destruct He as [Q1 Q2 Hm1 Hm2 Hchg _ Hd Hm Hdd Hdel]. cbn in Hd, Hm, Hdd, Hdel, Q1, Q2. rewrite Hd, Hm, Hdd, Hdel.
  assert (Hdeleted : forall l, gatherDeletes (tree1 s') 0 l = Returns (l ++ unmapped_lines (mem_of (o_m1 o)) 1 0 f1)).
  { intros l. unfold gatherDeletes. rewrite (first_child_static (tree_nodes f1)), tree_first by done.
    rewrite (gather_deletes_spec _ _ f1 0 1 0).
    - do 2 f_equal. apply unmapped_ext. intros i. unfold mem_of. apply bool_iff. rewrite Hm1. cbn [tree1].
      rewrite (proj1 (tree_fresh f1 i)). intuition congruence.
    - apply (laid_static (tree_nodes f1)); [done|apply laid_tree].
    - rewrite (same_static_length _ _ Q1), length_tree. lia. }
  assert (Hlarge : forall l, gatherLargeUnchangedSubtrees (tree2 s') 0 l =
    Returns (l ++ large_lines (fun p => negb (mem_of (o_chg o) p) && mem_of (o_m2 o) p) 1 0 f2)).
  { intros l. unfold gatherLargeUnchangedSubtrees. rewrite (first_child_static (tree_nodes f2)), tree_first by done.
    rewrite (gather_large_spec _ _ f2 0 1 0).
    - do 2 f_equal. apply large_ext; [|lia]. intros i Hi. f_equal; [f_equal|].
      + apply bool_iff. rewrite Hchg. cbn [tree2]. rewrite (proj2 (tree_fresh f2 i)). split; [|auto].
        intros [|[|[_ Ha]]]; [done..|]. apply anc_le in Ha; [lia|apply parents_ok_tree].
      + apply bool_iff. rewrite Hm2. cbn [tree2]. rewrite (proj1 (tree_fresh f2 i)). intuition congruence.
    - apply (laid_static (tree_nodes f2)); [done|apply laid_tree].
    - rewrite (same_static_length _ _ Q2), length_tree. lia. }
  destruct del as [dl|], large as [lg|]; cbn [fmap option_fmap option_map]; rewrite ?Hdeleted; cbn [obind]; rewrite ?Hlarge; cbn [obind];
    do 2 f_equal; try (by destruct m); by destruct x.
Qed.
