(* ===== verification/TreeDiffPaths.v ===== *)
(** The difference of two lists in terms of paths: what [spec] computes, entry by
    entry, from the entries that the two lists have at the same path. *)
From S2P Require Import Prelude MemFile StringTools FileList TreeNode TreeReader TreeDiff TreeLex TreeForest TreeDiffSpec TreeDiffRoot.

(** A path: the keys of the directories on the way and of the entry. *)
Definition path := list key.

(** The entry at a path, its content and its line. *)
Fixpoint find_path (p : path) (ln : nat) (f : forest) : option (SFile * forest * nat) :=
  match p with
  | [] => None
  | k :: p =>
      '(e, ch, _, l) ← find_entry k 0 ln f;
      match p with [] => Some (e, ch, l) | _ => find_path p (S l) ch end
  end.
(** Whether the directory that a path lies in exists. *)
Definition parent_known (p : path) (f : forest) : bool :=
  match p with
  | [] | [_] => true
  | _ => bool_decide (is_Some (find_path (removelast p) 0 f))
  end.

(** What [c] yields for the entries of a forest, given their path, the entry and the
    line, in the order of the list. *)
Fixpoint collect (c : path -> SFile -> nat -> option nat) (ln : nat) (f : forest) : list nat :=
  match f with
  | Nil => []
  | Cons e _ ch rest =>
      option_list (c [key_of e] e ln) ++ collect (fun p => c (key_of e :: p)) (S ln) ch
        ++ collect c (ln + entry_lines e ch) rest
  end.
(** The lines of the entries that satisfy [c]. *)
Definition lines_where (c : path -> SFile -> bool) : nat -> forest -> list nat :=
  collect (fun p e ln => if c p e then Some ln else None).

Lemma collect_ext c c' f : (forall p e l, p <> [] -> c p e l = c' p e l) -> forall ln, collect c ln f = collect c' ln f.
Proof.
  revert c c'. induction f as [|e x ch IHc rest IHr]; intros c c' H ln; [done|]. cbn [collect]. rewrite H by done.
  rewrite (IHr c c' H). do 2 f_equal. apply IHc. intros. by apply H.
Qed.
Lemma collect_none c f : (forall p e l, p <> [] -> c p e l = None) -> forall ln, collect c ln f = [].
Proof.
  revert c. induction f as [|e x ch IHc rest IHr]; intros c H ln; [done|]. cbn [collect]. rewrite H, (IHr c H), IHc by (done || (intros; by apply H)).
  done.
Qed.

(** Keys are distinct in every directory. *)
Fixpoint uniq (f : forest) : Prop :=
  match f with
  | Nil => True
  | Cons e _ ch rest => Forall (fun k => key_of e <> k) (top_keys rest) /\ uniq ch /\ uniq rest
  end.
Lemma sorted_uniq f : sorted f -> uniq f.
Proof.
  induction f as [|e x ch IHc rest IHr]; [done|]. intros (H & Hc & Hr). cbn. split; [by apply above_ne|]. auto.
Qed.
Lemma roots_uniq f : roots_ok f -> uniq f.
Proof.
  induction f as [|e x ch IHc rest IHr]; [done|]. intros (H & Hc & Hr). cbn. split; [done|]. split; [by apply sorted_uniq|auto].
Qed.

Lemma find_entry_line k f : forall i ln i' e ch p l, find_entry k i ln f = Some (e, ch, p, l) ->
  exists p', find_entry k i' ln f = Some (e, ch, p', l).
Proof.
  induction f as [|e0 x c _ rest IH]; intros i ln i' e ch p l; cbn; [done|]. destruct (decide _).
  - intros [= -> -> -> ->]. by exists i'.
  - apply IH.
Qed.
Lemma find_entry_miss k f i ln i' ln' : find_entry k i ln f = None -> find_entry k i' ln' f = None.
Proof. by rewrite !find_entry_none. Qed.

Lemma find_path_hit k p f i ln e ch p1 l : find_entry k i ln f = Some (e, ch, p1, l) ->
  find_path (k :: p) ln f = match p with [] => Some (e, ch, l) | _ => find_path p (S l) ch end.
Proof. intros H. destruct (find_entry_line _ _ _ _ 0%nat _ _ _ _ H) as [p' E]. cbn. by rewrite E. Qed.
Lemma find_path_miss k p f i ln ln' : find_entry k i ln f = None -> find_path (k :: p) ln' f = None.
Proof. intros H. cbn. by rewrite (find_entry_miss _ _ _ _ 0%nat ln' H). Qed.

(** Existence does not depend on the first line number. *)
Lemma find_path_shift p : forall ln ln' f,
  (fun h => fst h) <$> find_path p ln f = (fun h => fst h) <$> find_path p ln' f.
Proof.
  induction p as [|k p IH]; intros ln ln' f; [done|]. cbn. pose proof (find_entry_shift k f 0 ln 0 ln') as E.
  destruct (find_entry k 0 ln f) as [[[[e1 c1] p1] l1]|], (find_entry k 0 ln' f) as [[[[e2 c2] p2] l2]|]; cbn in E; try done.
  injection E as -> ->. cbn. destruct p; [done|]. apply IH.
Qed.
Lemma find_path_known p ln ln' f : is_Some (find_path p ln f) <-> is_Some (find_path p ln' f).
Proof.
  pose proof (find_path_shift p ln ln' f) as E. destruct (find_path p ln f), (find_path p ln' f); cbn in E; done || (split; by eauto).
Qed.

Lemma parent_known_hit k p f i ln e ch p1 l : p <> [] -> find_entry k i ln f = Some (e, ch, p1, l) ->
  parent_known (k :: p) f = parent_known p ch.
Proof.
  intros Hp H. destruct p as [|k' p]; [done|]. unfold parent_known. destruct p as [|k'' p].
  - cbn [removelast]. apply bool_decide_true. apply (find_path_known [k] 0 ln). rewrite (find_path_hit _ _ _ _ _ _ _ _ _ H). by eexists.
  - apply bool_decide_ext. rewrite (find_path_known _ 0 ln).
    change (removelast (k :: k' :: k'' :: p)) with (k :: removelast (k' :: k'' :: p)).
    rewrite (find_path_hit _ _ _ _ _ _ _ _ _ H). apply find_path_known.
Qed.
Lemma parent_known_miss k p f i ln : p <> [] -> find_entry k i ln f = None -> parent_known (k :: p) f = false.
Proof.
  intros Hp H. destruct p as [|k' p]; [done|]. unfold parent_known. apply bool_decide_false.
  change (removelast (k :: k' :: p)) with (k :: removelast (k' :: p)). rewrite (find_path_miss _ _ _ _ _ _ H). by intros [].
Qed.

Section Paths.
Context (win32 has_symbit is_windows : bool).
Notation spec := (spec win32 has_symbit is_windows).
Notation dirty := (dirty win32 has_symbit is_windows).
Notation changed_level := (changed_level win32 has_symbit is_windows).
Notation pair_out := (pair_out has_symbit is_windows).
Notation link := (is_link has_symbit is_windows).

(** ** The lists that follow the new list *)

Section Select.
(** One of the lists of [outs]: [h] is what a pair of entries adds, [n] what a new
    entry adds. *)
Context (sel : outs -> ids) (h : SFile -> nat -> SFile -> nat -> option nat) (n : nat -> option nat).
Context (Hnil : sel o_nil = []) (Happ : forall a b, sel (o_app a b) = sel a ++ sel b)
        (Hnew : forall l, sel (o_diff l) = option_list (n l))
        (Hpair : forall inner b e1 e2 p1 l1 p2 l2, (isdir e2 = false -> inner = o_nil) ->
           sel (pair_out inner b e1 e2 p1 l1 p2 l2) = option_list (h e1 l1 e2 l2) ++ sel inner).

Definition by_path (r1 : forest) (ln1 : nat) (p : path) (e2 : SFile) (l2 : nat) : option nat :=
  match find_path p ln1 r1 with
  | Some (e1, _, l1) => h e1 l1 e2 l2
  | None => if parent_known p r1 then n l2 else None
  end.

Lemma spec_by_path f2 : forall r1 i1 ln1 i2 ln2, wf f2 ->
  sel (spec r1 i1 ln1 f2 i2 ln2) = collect (by_path r1 ln1) ln2 f2.
Proof.
  induction f2 as [|e2 x2 ch2 IHc rest2 IHr]; intros r1 i1 ln1 i2 ln2 W; [done|].
  pose proof W as (_ & _ & _ & Hfile & Wc & Wr). cbn [TreeDiffSpec.spec collect]. rewrite Happ, (IHr r1 i1 ln1) by done.
  rewrite app_assoc. f_equal. unfold by_path at 1.
  destruct (find_entry (key_of e2) i1 ln1 r1) as [[[[e1 ch1] p1] l1]|] eqn:E.
  - rewrite (find_path_hit _ _ _ _ _ _ _ _ _ E), Hpair.
    + f_equal. rewrite (IHc ch1 (S p1) (S l1)) by done. apply collect_ext. intros p e l Hp. unfold by_path.
      rewrite (find_path_hit _ _ _ _ _ _ _ _ _ E), (parent_known_hit _ _ _ _ _ _ _ _ _ Hp E). by destruct p.
    + intros Hd. by rewrite Hfile.
  - rewrite (find_path_miss _ _ _ _ _ _ E), Hnew. cbn [parent_known]. rewrite collect_none, app_nil_r; [done|].
    intros p e l Hp. unfold by_path. by rewrite (find_path_miss _ _ _ _ _ _ E), (parent_known_miss _ _ _ _ _ Hp E).
Qed.
End Select.

(** An entry that the old list does not have as it is: a new entry of an old
    directory, or a changed file.  (A directory that is in both lists is not changed,
    whatever its data; the content of a new directory is not looked at.) *)
Definition file_changed (e1 e2 : SFile) : bool := negb (isdir e2 || data_eq e1 e2).
Definition new_or_changed (f1 : forest) (p : path) (e2 : SFile) : bool :=
  match find_path p 0 f1 with
  | Some (e1, _, _) => file_changed e1 e2
  | None => parent_known p f1
  end.
Definition modified (f1 : forest) (p : path) (e2 : SFile) : bool :=
  match find_path p 0 f1 with Some (e1, _, _) => file_changed e1 e2 | None => false end.
Definition dir_changed (f1 : forest) (p : path) (e2 : SFile) : bool :=
  match find_path p 0 f1 with Some (e1, _, _) => isdir e2 && negb (data_eq e1 e2) | None => false end.
(** The old line of a changed file that was and stays a symbolic link, or was and
    stays none. *)
Definition replaced_inplace (f1 : forest) (p : path) (e2 : SFile) (_ : nat) : option nat :=
  match find_path p 0 f1 with
  | Some (e1, _, l1) => if file_changed e1 e2 && Bool.eqb (link e1) (link e2) then Some l1 else None
  | None => None
  end.

Lemma spec_diffs f1 f2 : wf f2 -> o_diffs (spec f1 1 0 f2 1 0) = lines_where (new_or_changed f1) 0 f2.
Proof.
  intros W. rewrite (spec_by_path o_diffs (fun e1 _ e2 l => if file_changed e1 e2 then Some l else None) Some); try done.
  - apply collect_ext. intros p e l _. unfold by_path, new_or_changed. by destruct (find_path p 0 f1) as [[[e1 ch1] l1]|].
  - intros inner b e1 e2 p1 l1 p2 l2 Hi. unfold TreeDiffSpec.pair_out, file_changed. destruct (isdir e2 || data_eq e1 e2) eqn:Eb; cbn.
    + destruct (isdir e2 && _); cbn; by rewrite !app_nil_r.
    + apply orb_false_iff in Eb as [Ed _]. by rewrite Hi.
Qed.
Lemma spec_mod f1 f2 : wf f2 -> o_mod (spec f1 1 0 f2 1 0) = lines_where (modified f1) 0 f2.
Proof.
  intros W. rewrite (spec_by_path o_mod (fun e1 _ e2 l => if file_changed e1 e2 then Some l else None) (fun _ => None)); try done.
  - apply collect_ext. intros p e l _. unfold by_path, modified. destruct (find_path p 0 f1) as [[[e1 ch1] l1]|]; [done|].
    by destruct (parent_known p f1).
  - intros inner b e1 e2 p1 l1 p2 l2 Hi. unfold TreeDiffSpec.pair_out, file_changed. destruct (isdir e2 || data_eq e1 e2) eqn:Eb; cbn.
    + destruct (isdir e2 && _); cbn; by rewrite !app_nil_r.
    + apply orb_false_iff in Eb as [Ed _]. by rewrite Hi.
Qed.
Lemma spec_dir f1 f2 : wf f2 -> o_dir (spec f1 1 0 f2 1 0) = lines_where (dir_changed f1) 0 f2.
Proof.
  intros W. rewrite (spec_by_path o_dir (fun e1 _ e2 l => if isdir e2 && negb (data_eq e1 e2) then Some l else None) (fun _ => None)); try done.
  - apply collect_ext. intros p e l _. unfold by_path, dir_changed. destruct (find_path p 0 f1) as [[[e1 ch1] l1]|]; [done|].
    by destruct (parent_known p f1).
  - intros inner b e1 e2 p1 l1 p2 l2 Hi. unfold TreeDiffSpec.pair_out. destruct (isdir e2 || data_eq e1 e2) eqn:Eb; cbn.
    + destruct (isdir e2 && _); cbn; by rewrite !app_nil_r.
    + apply orb_false_iff in Eb as [Ed _]. rewrite Hi, Ed by done. done.
Qed.
Lemma spec_del f1 f2 : wf f2 -> o_del (spec f1 1 0 f2 1 0) = collect (replaced_inplace f1) 0 f2.
Proof.
  intros W. rewrite (spec_by_path o_del (fun e1 l1 e2 _ => if file_changed e1 e2 && Bool.eqb (link e1) (link e2) then Some l1 else None)
    (fun _ => None)); try done.
  - apply collect_ext. intros p e l _. unfold by_path, replaced_inplace. destruct (find_path p 0 f1) as [[[e1 ch1] l1]|]; [done|].
    by destruct (parent_known p f1).
  - intros inner b e1 e2 p1 l1 p2 l2 Hi. unfold TreeDiffSpec.pair_out, file_changed. destruct (isdir e2 || data_eq e1 e2) eqn:Eb; cbn.
    + destruct (isdir e2 && _); cbn; by rewrite !app_nil_r.
    + apply orb_false_iff in Eb as [Ed _]. rewrite Hi by done. by destruct (Bool.eqb _ _).
Qed.
End Paths.
