(* ===== verification/TreeDiffMapped.v ===== *)
(** The mapped and marked nodes in terms of paths: the entries that are gone, and the
    large directories that are taken over. *)
From S2P Require Import Prelude MemFile StringTools FileList TreeNode TreeReader TreeDiff TreeLex TreeForest TreeDiffSpec TreeDiffRoot TreeDiffPaths.

Section Mapped.
Context (win32 has_symbit is_windows : bool).
Notation spec := (spec win32 has_symbit is_windows).
Notation dirty := (dirty win32 has_symbit is_windows).
Notation changed_level := (changed_level win32 has_symbit is_windows).
Notation pair_out := (pair_out has_symbit is_windows).
Notation pair_dirty := (pair_dirty win32 has_symbit is_windows).
Notation link := (is_link has_symbit is_windows).

(** Entries that get mapped to each other. *)
Definition kept (e1 e2 : SFile) : bool := isdir e2 || data_eq e1 e2.

Lemma elem_pair_m1 inner b e1 e2 p1 l1 p2 l2 q :
  q ∈ o_m1 (pair_out inner b e1 e2 p1 l1 p2 l2) <-> kept e1 e2 = true /\ (q = p1 \/ q ∈ o_m1 inner).
Proof.
  unfold TreeDiffSpec.pair_out, kept. destruct (isdir e2 || _); [|cbn; rewrite elem_of_nil; intuition congruence].
  destruct (isdir e2 && _); cbn; rewrite !elem_of_app, list_elem_of_singleton, !elem_of_nil; tauto.
Qed.
Lemma elem_pair_m2 inner b e1 e2 p1 l1 p2 l2 q :
  q ∈ o_m2 (pair_out inner b e1 e2 p1 l1 p2 l2) <-> kept e1 e2 = true /\ (q = p2 \/ q ∈ o_m2 inner).
Proof.
  unfold TreeDiffSpec.pair_out, kept. destruct (isdir e2 || _); [|cbn; rewrite elem_of_nil; intuition congruence].
  destruct (isdir e2 && _); cbn; rewrite !elem_of_app, list_elem_of_singleton, !elem_of_nil; tauto.
Qed.
Lemma elem_pair_chg inner b e1 e2 p1 l1 p2 l2 q :
  q ∈ o_chg (pair_out inner b e1 e2 p1 l1 p2 l2) <-> kept e1 e2 = true /\ (q = p2 /\ b = true \/ q ∈ o_chg inner).
Proof.
  unfold TreeDiffSpec.pair_out, kept. destruct (isdir e2 || _); [|cbn; rewrite elem_of_nil; intuition congruence].
  destruct (isdir e2 && _), b; cbn; rewrite !elem_of_app, ?list_elem_of_singleton, !elem_of_nil; intuition congruence.
Qed.

(** ** The old tree *)

(** The old nodes that are mapped: a kept entry, or below one. *)
Lemma elem_m1 f2 : forall r1 i1 ln1 i2 ln2 q, uniq f2 ->
  q ∈ o_m1 (spec r1 i1 ln1 f2 i2 ln2) <->
  exists k e1 ch1 p1 l1 e2 ch2 p2 l2, find_entry k i1 ln1 r1 = Some (e1, ch1, p1, l1) /\
    find_entry k i2 ln2 f2 = Some (e2, ch2, p2, l2) /\ kept e1 e2 = true /\
    (q = p1 \/ q ∈ o_m1 (spec ch1 (S p1) (S l1) ch2 (S p2) (S l2))).
Proof.
  induction f2 as [|e2 x2 ch2 _ rest2 IH]; intros r1 i1 ln1 i2 ln2 q U.
  { cbn. rewrite elem_of_nil. split; [done|]. by intros (? & ? & ? & ? & ? & ? & ? & ? & ? & _ & ? & _). }
  pose proof U as (U0 & _ & Ur). rewrite Forall_forall in U0. cbn [TreeDiffSpec.spec o_app o_m1]. rewrite elem_of_app, IH by done. split.
  - intros [H|(k & e1 & ch1 & p1 & l1 & e & ch & p & l & F1 & F2 & H)].
    + destruct (find_entry (key_of e2) i1 ln1 r1) as [[[[e1 ch1] p1] l1]|] eqn:F; [|by apply elem_of_nil in H].
      apply elem_pair_m1 in H. exists (key_of e2), e1, ch1, p1, l1, e2, ch2, i2, ln2.
      split; [done|]. split; [cbn; by rewrite decide_True|done].
    + exists k, e1, ch1, p1, l1, e, ch, p, l. split; [done|]. split; [|done]. rewrite find_entry_skip; [done|]. apply U0.
      destruct (decide (k ∈ top_keys rest2)) as [Hk|Hk]; [done|].
      by rewrite (proj2 (find_entry_none k rest2 _ _) Hk) in F2.
  - intros (k & e1 & ch1 & p1 & l1 & e & ch & p & l & F1 & F2 & H). cbn in F2. destruct (decide (key_of e2 = k)) as [<-|Hne].
    + injection F2 as <- <- <- <-. left. rewrite F1. by apply elem_pair_m1.
    + right. by exists k, e1, ch1, p1, l1, e, ch, p, l.
Qed.

(** Below an entry, and behind it. *)
Lemma m1_head e1 x1 ch1 rest1 i1 ln1 f2 i2 ln2 : uniq f2 ->
  i1 ∈ o_m1 (spec (Cons e1 x1 ch1 rest1) i1 ln1 f2 i2 ln2) <->
  exists e2 ch2 p2 l2, find_entry (key_of e1) i2 ln2 f2 = Some (e2, ch2, p2, l2) /\ kept e1 e2 = true.
Proof.
  intros U. rewrite elem_m1 by done. split.
  - intros (k & e & ch & p & l & e2 & ch2 & p2 & l2 & F1 & F2 & Hk & Hq). cbn in F1. destruct (decide (key_of e1 = k)) as [<-|Hne].
    + injection F1 as <- <- <- <-. by exists e2, ch2, p2, l2.
    + apply find_entry_range in F1. destruct Hq as [->|Hq]; [lia|]. apply spec_m1_range in Hq. lia.
  - intros (e2 & ch2 & p2 & l2 & F2 & Hk). exists (key_of e1), e1, ch1, i1, ln1, e2, ch2, p2, l2.
    split; [cbn; by rewrite decide_True|]. split; [done|]. split; [done|by left].
Qed.
Lemma m1_below e1 x1 ch1 rest1 i1 ln1 f2 i2 ln2 q : uniq f2 -> (S i1 <= q < S i1 + size ch1)%nat ->
  q ∈ o_m1 (spec (Cons e1 x1 ch1 rest1) i1 ln1 f2 i2 ln2) <->
  exists e2 ch2 p2 l2, find_entry (key_of e1) i2 ln2 f2 = Some (e2, ch2, p2, l2) /\ kept e1 e2 = true /\
    q ∈ o_m1 (spec ch1 (S i1) (S ln1) ch2 (S p2) (S l2)).
Proof.
  intros U Hr. rewrite elem_m1 by done. split.
  - intros (k & e & ch & p & l & e2 & ch2 & p2 & l2 & F1 & F2 & Hk & Hq). cbn in F1. destruct (decide (key_of e1 = k)) as [<-|Hne].
    + injection F1 as <- <- <- <-. exists e2, ch2, p2, l2. destruct Hq as [->|Hq]; [lia|done].
    + apply find_entry_range in F1. destruct Hq as [->|Hq]; [lia|]. apply spec_m1_range in Hq. lia.
  - intros (e2 & ch2 & p2 & l2 & F2 & Hk & Hq). exists (key_of e1), e1, ch1, i1, ln1, e2, ch2, p2, l2.
    split; [cbn; by rewrite decide_True|]. split; [done|]. split; [done|by right].
Qed.
Lemma m1_behind e1 x1 ch1 rest1 i1 ln1 f2 i2 ln2 q : uniq f2 -> Forall (fun k => key_of e1 <> k) (top_keys rest1) ->
  (i1 + S (size ch1) <= q)%nat ->
  q ∈ o_m1 (spec (Cons e1 x1 ch1 rest1) i1 ln1 f2 i2 ln2) <->
  q ∈ o_m1 (spec rest1 (i1 + S (size ch1)) (ln1 + entry_lines e1 ch1) f2 i2 ln2).
Proof.
  intros U U1 Hr. rewrite !elem_m1 by done. rewrite Forall_forall in U1. split.
  - intros (k & e & ch & p & l & e2 & ch2 & p2 & l2 & F1 & H). cbn in F1. destruct (decide (key_of e1 = k)) as [<-|Hne].
    + injection F1 as <- <- <- <-. destruct H as (_ & _ & [->|Hq]); [lia|]. apply spec_m1_range in Hq. lia.
    + by exists k, e, ch, p, l, e2, ch2, p2, l2.
  - intros (k & e & ch & p & l & e2 & ch2 & p2 & l2 & F1 & H). exists k, e, ch, p, l, e2, ch2, p2, l2. split; [|done].
    rewrite find_entry_skip; [done|]. apply U1. destruct (decide (k ∈ top_keys rest1)) as [Hk|Hk]; [done|].
    by rewrite (proj2 (find_entry_none k rest1 _ _) Hk) in F1.
Qed.

(** An old entry that the new list does not have, or has with other data (files). *)
Definition gone_from (f2 : forest) (p : path) (e1 : SFile) : bool :=
  match find_path p 0 f2 with Some (e2, _, _) => negb (kept e1 e2) | None => true end.

Lemma find_path_hit0 k p f i ln e ch p1 l : find_entry k i ln f = Some (e, ch, p1, l) ->
  (fun h => fst h) <$> find_path (k :: p) 0 f = match p with [] => Some (e, ch) | _ => (fun h => fst h) <$> find_path p 0 ch end.
Proof.
  intros H. rewrite (find_path_shift _ 0 ln), (find_path_hit _ _ _ _ _ _ _ _ _ H). destruct p; [done|]. apply find_path_shift.
Qed.
Lemma gone_from_hit f2 k p e1 i ln e ch p1 l : find_entry k i ln f2 = Some (e, ch, p1, l) -> p <> [] ->
  gone_from f2 (k :: p) e1 = gone_from ch p e1.
Proof.
  intros H Hp. unfold gone_from. pose proof (find_path_hit0 k p _ _ _ _ _ _ _ H) as E. destruct p as [|k' p]; [done|].
  destruct (find_path (k :: k' :: p) 0 f2) as [[[? ?] ?]|], (find_path (k' :: p) 0 ch) as [[[? ?] ?]|]; cbn in E; by simplify_eq.
Qed.

Lemma unmapped_all m f : forall i ln, (forall q, (i <= q < i + size f)%nat -> m q = false) ->
  unmapped_lines m i ln f = collect (fun _ _ l => Some l) ln f.
Proof.
  induction f as [|e x ch IHc rest IHr]; intros i ln H; cbn [unmapped_lines collect]; [done|]. cbn [size] in H.
  rewrite (H i) by lia. rewrite IHc, IHr by (intros q Hq; apply H; lia). done.
Qed.

Lemma uniq_below k f : forall i ln e ch p l, uniq f -> find_entry k i ln f = Some (e, ch, p, l) -> uniq ch.
Proof.
  induction f as [|e0 x c _ rest IH]; intros i ln e ch p l; cbn; [done|].
  destruct (decide _); [by intros (_ & ? & _) [= -> -> -> ->]|]. intros (_ & _ & U). by apply IH.
Qed.

Lemma unmapped_gone r1 : forall m f2 i1 ln1 i2 ln2, uniq r1 -> uniq f2 -> wf r1 ->
  (forall q, (i1 <= q < i1 + size r1)%nat -> m q = true <-> q ∈ o_m1 (spec r1 i1 ln1 f2 i2 ln2)) ->
  unmapped_lines m i1 ln1 r1 = lines_where (gone_from f2) ln1 r1.
Proof.
  induction r1 as [|e1 x1 ch1 IHc rest1 IHr]; intros m f2 i1 ln1 i2 ln2 U1 U2 W Hm; [done|].
  pose proof U1 as (Ua & Uc & Ur). pose proof W as (_ & _ & _ & Hfile & Wc & Wr). cbn [size] in Hm.
  unfold lines_where. cbn [unmapped_lines collect]. rewrite (IHr m f2 _ _ i2 ln2) by
    (done || (intros q Hq; rewrite Hm by lia; apply m1_behind; [done|done|lia])).
  fold (lines_where (gone_from f2)). rewrite app_assoc, (app_assoc (option_list _)). f_equal.
  pose proof (Hm i1 ltac:(lia)) as Hh. rewrite m1_head in Hh by done.
  assert (Hb : forall q, (S i1 <= q < S i1 + size ch1)%nat -> m q = true <->
    exists e2 ch2 p2 l2, find_entry (key_of e1) i2 ln2 f2 = Some (e2, ch2, p2, l2) /\ kept e1 e2 = true /\
      q ∈ o_m1 (spec ch1 (S i1) (S ln1) ch2 (S p2) (S l2))) by (intros q Hq; rewrite Hm by lia; by apply m1_below).
  destruct (find_entry (key_of e1) i2 ln2 f2) as [[[[e2 ch2] p2] l2]|] eqn:F.
  - pose proof (find_path_hit0 (key_of e1) [] f2 _ _ _ _ _ _ F) as E.
    assert (Eg : gone_from f2 [key_of e1] e1 = negb (kept e1 e2)).
    { unfold gone_from. destruct (find_path [key_of e1] 0 f2) as [[[? ?] ?]|]; cbn in E; by simplify_eq. }
    rewrite Eg. destruct (kept e1 e2) eqn:Ek; cbn [negb].
    + rewrite (proj2 Hh) by (by exists e2, ch2, p2, l2). cbn [app option_list].
      pose proof (uniq_below _ _ _ _ _ _ _ _ U2 F) as Uc2.
      rewrite (IHc m ch2 (S i1) (S ln1) (S p2) (S l2)); [|done..|].
      * apply collect_ext. intros p e l Hp. by rewrite (gone_from_hit _ _ _ _ _ _ _ _ _ _ F).
      * intros q Hq. rewrite Hb by done. split; [|by eauto 10].
        intros (? & ? & ? & ? & F' & _ & H'). by simplify_eq.
    + assert (Em : m i1 = false) by (apply not_true_is_false; intros H; apply Hh in H as (? & ? & ? & ? & F' & ?); congruence).
      rewrite Em. assert (Ec : ch1 = Nil).
      { apply Hfile. unfold kept in Ek. apply orb_false_iff in Ek as [Ek _]. apply find_entry_key in F. injection F as <- _. done. }
      by rewrite Ec.
  - assert (Em : forall q, (i1 <= q < S i1 + size ch1)%nat -> m q = false).
    { intros q Hq. apply not_true_is_false. intros H. destruct (decide (q = i1)) as [->|].
      - apply Hh in H as (? & ? & ? & ? & ? & ?). congruence.
      - apply Hb in H as (? & ? & ? & ? & ? & ?); [congruence|lia]. }
    rewrite Em by lia. unfold gone_from at 1. rewrite (find_path_miss _ _ _ _ _ 0 F). cbn [option_list]. f_equal.
    rewrite (unmapped_all m) by (intros q Hq; apply Em; lia). apply collect_ext.
    intros p e l Hp. unfold gone_from. by rewrite (find_path_miss _ _ _ _ _ 0 F).
Qed.

Lemma spec_deleted f1 f2 : wf f1 -> roots_ok f1 -> roots_ok f2 ->
  unmapped_lines (mem_of (o_m1 (spec f1 1 0 f2 1 0))) 1 0 f1 = lines_where (gone_from f2) 0 f1.
Proof.
  intros W R1 R2. apply (unmapped_gone f1 _ f2 1 0 1 0); [by apply roots_uniq|by apply roots_uniq|done|].
  intros q _. unfold mem_of. apply bool_decide_eq_true.
Qed.

(** ** The new tree *)

(** The nodes of [o] lie in the [z] nodes from [i] on. *)
Definition in_span (o : outs) (i z : nat) : Prop :=
  forall q, q ∈ o_m2 o \/ q ∈ o_chg o -> (i <= q < i + z)%nat.

Lemma pair_span inner b e1 e2 p1 l1 i2 l2 z : in_span inner (S i2) z -> in_span (pair_out inner b e1 e2 p1 l1 i2 l2) i2 (S z).
Proof.
  intros H q. rewrite elem_pair_m2, elem_pair_chg. intros [[_ [->|Hq]]|[_ [[-> _]|Hq]]]; try lia;
    [specialize (H q (or_introl Hq))|specialize (H q (or_intror Hq))]; lia.
Qed.
Lemma diff_span l i z : in_span (o_diff l) i z.
Proof. intros q. cbn. rewrite !elem_of_nil. by intros []. Qed.
Lemma app_span a b i za zb : in_span a i za -> in_span b (i + za) zb -> in_span (o_app a b) i (za + zb).
Proof.
  intros Ha Hb q. cbn. rewrite !elem_of_app. intros [[H|H]|[H|H]];
    [specialize (Ha q (or_introl H))|specialize (Hb q (or_introl H))|specialize (Ha q (or_intror H))|specialize (Hb q (or_intror H))]; lia.
Qed.

Lemma spec_span f2 : forall r1 i1 ln1 i2 ln2, in_span (spec r1 i1 ln1 f2 i2 ln2) i2 (size f2).
Proof.
  induction f2 as [|e2 x2 c2 IHc rest2 IHr]; intros r1 i1 ln1 i2 ln2; cbn [TreeDiffSpec.spec size].
  - intros q. cbn. rewrite !elem_of_nil. by intros [].
  - apply (app_span _ _ i2 (S (size c2))); [|apply IHr].
    destruct (find_entry _ i1 ln1 r1) as [[[[e1 ch1] p1] l1]|]; [apply pair_span, IHc|apply diff_span].
Qed.

(** The directories taken over: the topmost unchanged ones with more than 10 nodes. *)
Fixpoint taken_over (r1 : forest) (ln : nat) (f2 : forest) : list nat :=
  match f2 with
  | Nil => []
  | Cons e2 _ ch2 rest2 =>
      match lookup (key_of e2) r1 with
      | Some (e1, ch1) =>
          if kept e1 e2 && negb (changed_level ch1 ch2) && (10 <? S (size ch2))%nat then [ln]
          else if kept e1 e2 then taken_over ch1 (S ln) ch2 else []
      | None => []
      end ++ taken_over r1 (ln + entry_lines e2 ch2) rest2
  end.

Lemma large_none ok f : forall i ln, (forall q, (i <= q < i + size f)%nat -> ok q = false) -> large_lines ok i ln f = [].
Proof.
  induction f as [|e x ch IHc rest IHr]; intros i ln H; cbn [large_lines]; [done|]. cbn [size] in H.
  rewrite (H i) by lia. cbn [andb]. rewrite IHc, IHr by (intros q Hq; apply H; lia). done.
Qed.

(** [ok] says which of the [z] nodes from [i] on [o] maps and does not mark. *)
Definition ok_for (ok : nat -> bool) (o : outs) (i z : nat) : Prop :=
  forall q, (i <= q < i + z)%nat -> ok q = true <-> q ∈ o_m2 o /\ q ∉ o_chg o.

Lemma ok_for_app ok a b i za zb : in_span a i za -> in_span b (i + za) zb -> ok_for ok (o_app a b) i (za + zb) ->
  ok_for ok a i za /\ ok_for ok b (i + za) zb.
Proof.
  intros Ha Hb H.
  split; intros q Hq; rewrite (H q ltac:(lia)); cbn; rewrite !elem_of_app; specialize (Ha q); specialize (Hb q).
  - assert (Hn : ~ (q ∈ o_m2 b \/ q ∈ o_chg b)) by (intros Hin; specialize (Hb Hin); lia). tauto.
  - assert (Hn : ~ (q ∈ o_m2 a \/ q ∈ o_chg a)) by (intros Hin; specialize (Ha Hin); lia). tauto.
Qed.

(** The node of an entry that both lists have, and the nodes below it. *)
Lemma ok_for_pair ok inner b e1 e2 p1 l1 i2 l2 z : in_span inner (S i2) z ->
  ok_for ok (pair_out inner b e1 e2 p1 l1 i2 l2) i2 (S z) ->
  ok i2 = kept e1 e2 && negb b /\ (kept e1 e2 = true -> ok_for ok inner (S i2) z).
Proof.
  intros Hin Hok. split.
  - apply eq_bool_prop_intro. rewrite !Is_true_true, andb_true_iff, negb_true_iff, (Hok i2 ltac:(lia)), elem_pair_m2, elem_pair_chg.
    assert (Hn : i2 ∉ o_chg inner) by (intros H; specialize (Hin i2 (or_intror H)); lia).
    destruct b; intuition congruence.
  - intros Hk q Hq. rewrite (Hok q ltac:(lia)), elem_pair_m2, elem_pair_chg.
    assert (q <> i2) by lia. tauto.
Qed.

Lemma large_taken f2 : forall ok r1 i1 ln1 i2 ln2, wf f2 -> ok_for ok (spec r1 i1 ln1 f2 i2 ln2) i2 (size f2) ->
  large_lines ok i2 ln2 f2 = taken_over r1 ln2 f2.
Proof.
  induction f2 as [|e2 x2 ch2 IHc rest2 IHr]; intros ok r1 i1 ln1 i2 ln2 W Hok; [done|].
  pose proof W as (_ & _ & _ & Hfile & Wc & Wr). cbn [TreeDiffSpec.spec size large_lines taken_over] in *.
  apply (ok_for_app _ _ _ i2 (S (size ch2))) in Hok as [Hhead Hrest]; [|
    by destruct (find_entry _ i1 ln1 r1) as [[[[e1 ch1] p1] l1]|]; [apply pair_span, spec_span|apply diff_span]|apply spec_span].
  rewrite (IHr ok r1 i1 ln1) by done. f_equal. rewrite (lookup_find _ r1 i1 ln1).
  destruct (find_entry (key_of e2) i1 ln1 r1) as [[[[e1 ch1] p1] l1]|] eqn:F; cbn [fmap option_fmap option_map fst].
  - apply ok_for_pair in Hhead as [Hi Hbelow]; [|apply spec_span]. rewrite Hi. destruct (kept e1 e2) eqn:Ek; cbn [andb].
    + destruct (negb (changed_level ch1 ch2) && (10 <? S (size ch2))%nat); [done|].
      apply (IHc ok ch1 (S p1) (S l1)); [done|by apply Hbelow].
    + rewrite Hfile; [done|]. unfold kept in Ek. by apply orb_false_iff in Ek as [Ek _].
  - assert (Hf : forall q, (i2 <= q < i2 + S (size ch2))%nat -> ok q = false).
    { intros q Hq. apply not_true_is_false. rewrite (Hhead q ltac:(lia)). cbn. rewrite elem_of_nil. tauto. }
    rewrite Hf by lia. cbn [andb]. apply large_none. intros q Hq. apply Hf. lia.
Qed.
End Mapped.
