(* ===== verification/TreeDiffTheorems.v ===== *)
(** What [diffTrees] reports: new, changed and deleted entries, and the directories
    that are taken over unchanged. *)
From stdpp Require Import sorting.
From S2P Require Import Prelude StringTools MemFile FileList TreeNode TreeReader TreeDiff TreeLex TreeForest TreeBuild TreeDiffSpec TreeDiffRoot TreeDiffPaths TreeDiffMapped.

(** ** Sorting *)

Lemma sort_sorted l : StronglySorted Nat.le l -> sort l = l.
Proof.
  intros H. unfold sort. apply (StronglySorted_unique Nat.le).
  - apply StronglySorted_merge_sort; [|apply _]. intros a b c. apply Nat.le_trans.
  - done.
  - apply merge_sort_Permutation.
Qed.

(** Lines lie in the range of their forest and ascend. *)
Lemma collect_lines_range c f : forall ln, wf f -> Forall (fun l => ln <= l < ln + lines f)%nat (lines_where c ln f).
Proof.
  revert c. induction f as [|e x ch IHc rest IHr]; intros c ln W; [by constructor|].
  pose proof W as (_ & _ & _ & Hfile & Wc & Wr). unfold lines_where in *. cbn [collect]. rewrite lines_cons.
  assert (He : (1 <= entry_lines e ch)%nat) by (unfold entry_lines; destruct (isdir e); lia).
  rewrite !Forall_app. split; [|split].
  - destruct (c [key_of e] e); constructor; [lia|constructor].
  - eapply List.Forall_impl; [|apply (IHc (fun p => c (key_of e :: p))); done]. intros l Hl. cbn in Hl.
    unfold entry_lines in *. destruct (isdir e); [lia|]. rewrite Hfile in Hl by done. cbn in Hl. lia.
  - eapply List.Forall_impl; [|apply (IHr c); done]. intros l Hl. cbn in Hl. lia.
Qed.
Lemma lines_where_sorted c f : forall ln, wf f -> StronglySorted Nat.le (lines_where c ln f).
Proof.
  revert c. induction f as [|e x ch IHc rest IHr]; intros c ln W; [by constructor|].
  pose proof W as (_ & _ & _ & Hfile & Wc & Wr). unfold lines_where in *. cbn [collect].
  pose proof (collect_lines_range (fun p => c (key_of e :: p)) ch (S ln) Wc) as Rc.
  pose proof (collect_lines_range c rest (ln + entry_lines e ch) Wr) as Rr. unfold lines_where in Rc, Rr.
  rewrite Forall_forall in Rc, Rr.
  assert (He : (S (lines ch) <= entry_lines e ch)%nat).
  { unfold entry_lines. destruct (isdir e) eqn:Ed; [lia|]. by rewrite Hfile. }
  apply StronglySorted_app. split; [|split].
  - intros a b Ha Hb. assert (a = ln) as -> by (destruct (c [key_of e] e); [by apply list_elem_of_singleton in Ha|by apply elem_of_nil in Ha]).
    apply elem_of_app in Hb as [Hb|Hb]; [apply Rc in Hb|apply Rr in Hb]; unfold Nat.le; lia.
  - destruct (c [key_of e] e); repeat constructor.
  - apply StronglySorted_app. split; [|split; [by apply IHc|by apply IHr]].
    intros a b Ha Hb. apply Rc in Ha. apply Rr in Hb. unfold Nat.le. lia.
Qed.

(** ** Lists in files *)

(** The file [t] holds the list of the entries [f]. *)
Definition is_list {F} `{FileLaws F} (t : F) (f : forest) : Prop := contents t = text f /\ wf f /\ roots_ok f.

Section Lists.
Context {F : Type} `{FileLaws F} (win32 has_symbit is_windows : bool).
Notation spec := (spec win32 has_symbit is_windows).

(** With the lists of the caller empty at first. *)
Lemma diffTrees_spec (t1 t2 : F) f1 f2 : is_list t1 f1 -> is_list t2 f2 ->
  diffTrees win32 has_symbit is_windows t1 t2 (Some []) (Some []) (Some []) [] (Some []) =
  Returns (Some (mkResult (lines_where (new_or_changed f1) 0 f2) (Some (lines_where (gone_from f2) 0 f1))
    (Some (sort (taken_over win32 has_symbit is_windows f1 0 f2))) (Some (lines_where (modified f1) 0 f2)) (lines_where (dir_changed f1) 0 f2)
    (Some (sort (collect (replaced_inplace has_symbit is_windows f1) 0 f2))))).
Proof.
  intros (T1 & W1 & R1) (T2 & W2 & R2). unfold diffTrees.
  destruct (readTree_text t1 f1 W1 T1) as (t1' & ->). destruct (readTree_text t2 f2 W2 T2) as (t2' & ->).
  rewrite diff_nodes_spec by done. cbn [obind fmap option_fmap option_map app].
  rewrite spec_diffs, spec_deleted, spec_mod, spec_dir, spec_del by done.
  rewrite (large_taken win32 has_symbit is_windows f2 _ f1 1 0).
  - by rewrite !(sort_sorted (lines_where _ _ _)) by (by apply lines_where_sorted).
  - done.
  - intros q _. rewrite andb_true_iff, negb_true_iff. unfold mem_of. rewrite bool_decide_eq_true, bool_decide_eq_false. tauto.
Qed.
End Lists.

(** C9: The difference of two file lists.  For the lists of two directory trees, sorted
    below the backup roots as the client writes them, with distinct roots in any order:
    [diffTrees] ends without error, without an access outside its arrays and within
    its fuel.  It reports, in ascending order, exactly the lines of the new list's
    entries in known directories that the old list does not have or has with other
    data (files); as deleted exactly the old list's entries that the new list does not
    have or has with other data; as modified the files both have with different data;
    as changed directories those both have with different data; and as replaced in
    place the old lines of the modified files that stay links or stay no links. *)
Theorem diffTrees_correct {F} `{FileLaws F} (win32 has_symbit is_windows : bool) (t1 t2 : F) (f1 f2 : forest) :
  is_list t1 f1 -> is_list t2 f2 ->
  exists r, diffTrees win32 has_symbit is_windows t1 t2 (Some []) (Some []) (Some []) [] (Some []) = Returns (Some r) /\
    ret r = lines_where (new_or_changed f1) 0 f2 /\
    r_deleted_ids r = Some (lines_where (gone_from f2) 0 f1) /\
    r_modified_inplace_ids r = Some (lines_where (modified f1) 0 f2) /\
    r_dir_diffs r = lines_where (dir_changed f1) 0 f2 /\
    r_deleted_inplace_ids r = Some (sort (collect (replaced_inplace has_symbit is_windows f1) 0 f2)).
Proof. intros H1 H2. eexists. split; [by apply diffTrees_spec|done]. Qed.

(** Two roots in different orders; a changed file, a deleted one, a new one and a
    directory with a new time below them. *)
Definition f_ (n : string) (s m : Z) (rest : forest) : forest := Cons (mkSFile (str n) s m false) [] Nil rest.
Definition d_ (n : string) (m : Z) (ch rest : forest) : forest := Cons (mkSFile (str n) 0 m true) [] ch rest.
Definition old_list : forest :=
  d_ "root" 1 (f_ "a" 3 4 (f_ "b" 3 4 (d_ "sub" 1 (f_ "x" 1 1 Nil) Nil))) (d_ "other" 1 (f_ "y" 1 1 Nil) Nil).
Definition new_list : forest :=
  d_ "other" 1 (f_ "y" 1 1 Nil) (d_ "root" 1 (f_ "a" 3 5 (f_ "c" 3 4 (d_ "sub" 2 (f_ "x" 1 1 Nil) Nil))) Nil).

Ltac solve_list :=
  split; [reflexivity|split];
  [cbn; unfold name_ok, entry_ok; cbn; repeat match goal with
     | |- _ /\ _ => split
     | |- Forall _ _ => repeat constructor; discriminate
     | |- extra_ok _ => left; reflexivity
     | |- _ -> _ => intros; discriminate || reflexivity
     end; try discriminate; try lia; try done
  |cbn; repeat match goal with
     | |- _ /\ _ => split
     | |- Forall _ _ => repeat constructor; discriminate
     | |- True => exact I end].

Lemma diffTrees_correct_witness :
  exists r, diffTrees false true false (CMemoryFile.mk (text old_list) 0) (CMemoryFile.mk (text new_list) 0)
      (Some []) (Some []) (Some []) [] (Some []) = Returns (Some r) /\ ret r = [4%nat; 5%nat].
Proof.
  destruct (diffTrees_correct false true false (CMemoryFile.mk (text old_list) 0) (CMemoryFile.mk (text new_list) 0) old_list new_list)
    as (r & E & Hr & _).
  - solve_list.
  - solve_list.
  - exists r. split; [exact E|]. rewrite Hr. vm_compute. reflexivity.
Defined.

(** ** Directories that are taken over *)

(** The content of the directory at a path; the empty path is the forest itself. *)
Definition content (p : path) (f : forest) : option forest :=
  match p with [] => Some f | _ => (fun h => snd (fst h)) <$> find_path p 0 f end.

Section Large.
Context (win32 has_symbit is_windows : bool).
Notation changed_level := (changed_level win32 has_symbit is_windows).
Notation dirty := (dirty win32 has_symbit is_windows).
Notation taken_over := (taken_over win32 has_symbit is_windows).

(** [c2] can replace [c1]: what it has, [c1] has with the same data at the same path,
    and what it lacks comes in [c1] behind everything of the directory it is missing in. *)
Definition unchanged_below (c1 c2 : forest) : Prop :=
  (forall q e2 g2 l2, find_path q 0 c2 = Some (e2, g2, l2) ->
     exists e1 g1 l1, find_path q 0 c1 = Some (e1, g1, l1) /\ data_eq e1 e2 = true /\
       (win32 = false -> is_link has_symbit is_windows e2 = false)) /\
  (forall q g1 g2 k, content q c1 = Some g1 -> content q c2 = Some g2 -> k ∈ top_keys g1 -> k ∉ top_keys g2 ->
     Forall (fun k2 => key_cmp k2 k < 0) (top_keys g2)).

Lemma dirty_entry f2 : forall f1 k i ln e2 ch2 p l, dirty f1 f2 = false -> find_entry k i ln f2 = Some (e2, ch2, p, l) ->
  exists e1 ch1, lookup k f1 = Some (e1, ch1) /\ data_eq e1 e2 = true /\ changed_level ch1 ch2 = false /\
    (win32 = false -> is_link has_symbit is_windows e2 = false).
Proof.
  induction f2 as [|e x c _ rest IH]; intros f1 k i ln e2 ch2 p l; cbn [TreeDiffSpec.dirty find_entry]; [done|].
  intros [H1 H2]%orb_false_iff. destruct (decide (key_of e = k)) as [<-|Hne]; [|by apply IH].
  intros [= -> -> _ _]. destruct (lookup (key_of e2) f1) as [[e1 ch1]|]; [|done]. exists e1, ch1. split; [done|].
  unfold pair_dirty in H1. apply orb_false_iff in H1 as [[H1 H3]%orb_false_iff H4]. apply negb_false_iff in H1.
  split; [done|]. split; [done|]. intros ->. done.
Qed.

Lemma lookup_path k q f e c : lookup k f = Some (e, c) -> q <> [] ->
  (fun h => fst h) <$> find_path (k :: q) 0 f = (fun h => fst h) <$> find_path q 0 c.
Proof.
  unfold lookup. destruct (find_entry k 0 0 f) as [[[[e' c'] p] l]|] eqn:E; [|done]. intros [= -> ->] Hq.
  rewrite (find_path_hit0 k q f _ _ _ _ _ _ E). by destruct q.
Qed.
Lemma lookup_path_one k f e c : lookup k f = Some (e, c) -> exists l, find_path [k] 0 f = Some (e, c, l).
Proof.
  unfold lookup. destruct (find_entry k 0 0 f) as [[[[e' c'] p] l]|] eqn:E; [|done]. intros [= -> ->].
  exists l. by rewrite (find_path_hit _ _ _ _ _ _ _ _ _ E).
Qed.
Lemma path_lookup k f e c l : find_path [k] 0 f = Some (e, c, l) -> exists p, find_entry k 0 0 f = Some (e, c, p, l).
Proof. cbn. destruct (find_entry k 0 0 f) as [[[[e' c'] p] l']|]; cbn; [|done]. intros [= -> -> ->]. by exists p. Qed.

(** An unchanged directory holds unchanged entries. *)
Lemma unchanged_path q : forall f1 f2 e2 g2 l2, changed_level f1 f2 = false -> find_path q 0 f2 = Some (e2, g2, l2) ->
  exists e1 g1 l1, find_path q 0 f1 = Some (e1, g1, l1) /\ data_eq e1 e2 = true /\ changed_level g1 g2 = false /\
    (win32 = false -> is_link has_symbit is_windows e2 = false).
Proof.
  induction q as [|k q IH]; intros f1 f2 e2 g2 l2 Hu Hf; [done|]. apply orb_false_iff in Hu as [Hd _].
  destruct (find_entry k 0 0 f2) as [[[[e c] p] l]|] eqn:E; [|by rewrite (find_path_miss _ _ _ _ _ 0 E) in Hf].
  destruct (dirty_entry f2 f1 k 0 0 e c p l Hd E) as (e1 & c1 & Hl & Hde & Hcl & Hlk).
  destruct q as [|k' q].
  - rewrite (find_path_hit _ _ _ _ _ _ _ _ _ E) in Hf. injection Hf as <- <- <-.
    destruct (lookup_path_one _ _ _ _ Hl) as (l1 & El). by exists e1, c1, l1.
  - pose proof (find_path_hit0 k (k' :: q) f2 _ _ _ _ _ _ E) as E2. rewrite Hf in E2. cbn [fmap option_fmap option_map fst] in E2.
    destruct (find_path (k' :: q) 0 c) as [[[e3 g3] l3]|] eqn:E3; [|done]. injection E2 as <- <-.
    destruct (IH c1 c e2 g2 l3 Hcl E3) as (e1' & g1 & l1 & F1 & H). pose proof (lookup_path k (k' :: q) f1 _ _ Hl ltac:(done)) as E4.
    rewrite F1 in E4. destruct (find_path (k :: k' :: q) 0 f1) as [[[? ?] l4]|]; [|done]. injection E4 as -> ->.
    by exists e1', g1, l4.
Qed.

Lemma not_skipped f1 f2 k : skipped f1 f2 = false -> k ∈ top_keys f1 -> k ∉ top_keys f2 ->
  Forall (fun k2 => key_cmp k2 k < 0) (top_keys f2).
Proof.
  unfold skipped. intros Hs Hk1 Hk2. apply Forall_forall. intros k2 Hin.
  destruct (Z.lt_trichotomy (key_cmp k2 k) 0) as [|[E|Hgt]]; [done| |].
  - apply key_cmp_eq in E. by subst.
  - exfalso. apply not_true_iff_false in Hs. apply Hs. rewrite existsb_exists. exists k. split; [by apply list_elem_of_In|].
    rewrite bool_decide_false by done. cbn [negb andb]. apply existsb_exists. exists k2. split; [by apply list_elem_of_In|].
    apply Z.ltb_lt. by apply key_gt_lt.
Qed.

Lemma changed_level_below c1 c2 : changed_level c1 c2 = false -> unchanged_below c1 c2.
Proof.
  intros Hu. split.
  - intros q e2 g2 l2 Hf. destruct (unchanged_path q c1 c2 e2 g2 l2 Hu Hf) as (e1 & g1 & l1 & F1 & Hd & _ & Hl). by exists e1, g1, l1.
  - intros q g1 g2 k C1 C2. apply not_skipped. destruct q as [|k' q].
    + injection C1 as <-. injection C2 as <-. by apply orb_false_iff in Hu as [_ ?].
    + cbn [content] in C1, C2. destruct (find_path (k' :: q) 0 c2) as [[[e2 g2'] l2]|] eqn:F2; [|done]. injection C2 as <-.
      destruct (unchanged_path (k' :: q) c1 c2 e2 g2' l2 Hu F2) as (e1 & g1' & l1 & F1 & _ & Hc & _). rewrite F1 in C1.
      injection C1 as <-. by apply orb_false_iff in Hc as [_ ?].
Qed.

(** Paths into the rest of a directory. *)
Lemma find_path_rest p ln e x ch rest h : uniq (Cons e x ch rest) -> find_path p (ln + entry_lines e ch) rest = Some h ->
  find_path p ln (Cons e x ch rest) = Some h.
Proof.
  intros (Hu & _) Hf. destruct p as [|k p]; [done|].
  destruct (find_entry k 0 (ln + entry_lines e ch) rest) as [[[[e' c'] p'] l']|] eqn:E; [|by rewrite (find_path_miss _ _ _ _ _ _ E) in Hf].
  assert (Hne : key_of e <> k).
  { rewrite Forall_forall in Hu. apply Hu. destruct (decide (k ∈ top_keys rest)) as [|Hn]; [done|].
    by rewrite (proj2 (find_entry_none k rest _ _) Hn) in E. }
  destruct (find_entry_line _ _ _ _ (0 + S (size ch))%nat _ _ _ _ E) as [p'' E'].
  rewrite <- (find_entry_skip k e x ch rest 0 ln Hne) in E'. rewrite (find_path_hit _ _ _ _ _ _ _ _ _ E').
  by rewrite (find_path_hit _ _ _ _ _ _ _ _ _ E) in Hf.
Qed.

Lemma taken_over_sound f2 : forall r1 ln n, uniq f2 -> n ∈ taken_over r1 ln f2 ->
  exists p d1 c1 l1 d2 c2, find_path p ln f2 = Some (d2, c2, n) /\ find_path p 0 r1 = Some (d1, c1, l1) /\
    (10 < S (size c2))%nat /\ changed_level c1 c2 = false.
Proof.
  induction f2 as [|e2 x2 ch2 IHc rest2 IHr]; intros r1 ln n U; cbn [TreeDiffMapped.taken_over]; [by rewrite elem_of_nil|].
  pose proof U as (_ & Uc & Ur). rewrite elem_of_app. intros [Hn|Hn].
  - assert (E2 : forall p, find_path (key_of e2 :: p) ln (Cons e2 x2 ch2 rest2) =
              match p with [] => Some (e2, ch2, ln) | _ => find_path p (S ln) ch2 end).
    { intros p. apply (find_path_hit _ _ _ 0 _ _ _ 0). cbn. by rewrite decide_True. }
    destruct (lookup (key_of e2) r1) as [[e1 ch1]|] eqn:El; [|by apply elem_of_nil in Hn].
    destruct (kept e1 e2 && negb (changed_level ch1 ch2) && (10 <? S (size ch2))%nat) eqn:Ek.
    + apply list_elem_of_singleton in Hn as ->. apply andb_true_iff in Ek as [[_ Hc]%andb_true_iff Hs].
      destruct (lookup_path_one _ _ _ _ El) as (l1 & E1). exists [key_of e2], e1, ch1, l1, e2, ch2. rewrite E2.
      split; [done|]. split; [done|]. split; [by apply Nat.ltb_lt|by apply negb_true_iff].
    + destruct (kept e1 e2); [|by apply elem_of_nil in Hn].
      destruct (IHc ch1 (S ln) n Uc Hn) as (p & d1 & c1 & l1 & d2 & c2 & F2 & F1 & H).
      assert (Hp : p <> []) by (by destruct p). pose proof (lookup_path _ p _ _ _ El Hp) as E1. rewrite F1 in E1.
      destruct (find_path (key_of e2 :: p) 0 r1) as [[[? ?] l1']|] eqn:F1'; [|done]. injection E1 as -> ->.
      exists (key_of e2 :: p), d1, c1, l1', d2, c2. rewrite E2, F1'. split; [by destruct p|done].
  - destruct (IHr r1 _ n Ur Hn) as (p & d1 & c1 & l1 & d2 & c2 & F2 & H). exists p, d1, c1, l1, d2, c2.
    split; [by apply find_path_rest|done].
Qed.
End Large.

(** C11: A directory that the backup takes over from the last one without looking into
    it.  Each line [diffTrees] reports as a large unchanged subtree is a directory of
    the new list with more than 10 nodes, which the old list has at the same path, and
    everything in it, at any depth, is in the old list with the same data (and is no
    symbolic link, unless the server runs on Windows).  Entries of the old list that
    are missing in it can only lie behind everything else of their directory. *)
Theorem large_unchanged_sound {F} `{FileLaws F} (win32 has_symbit is_windows : bool) (t1 t2 : F) (f1 f2 : forest) :
  is_list t1 f1 -> is_list t2 f2 ->
  exists r large, diffTrees win32 has_symbit is_windows t1 t2 (Some []) (Some []) (Some []) [] (Some []) = Returns (Some r) /\
    r_large_unchanged_subtrees r = Some large /\
    forall n, n ∈ large -> exists p d1 c1 l1 d2 c2,
      find_path p 0 f2 = Some (d2, c2, n) /\ find_path p 0 f1 = Some (d1, c1, l1) /\ (10 < S (size c2))%nat /\
      unchanged_below win32 has_symbit is_windows c1 c2.
Proof.
  intros H1 H2. eexists _, _. split; [by apply diffTrees_spec|]. split; [done|]. intros n Hn.
  unfold sort in Hn. rewrite merge_sort_Permutation in Hn. destruct H2 as (_ & _ & R2).
  destruct (taken_over_sound _ _ _ f2 f1 0 n (roots_uniq _ R2) Hn) as (p & d1 & c1 & l1 & d2 & c2 & F2 & F1 & Hs & Hc).
  exists p, d1, c1, l1, d2, c2. split; [done|]. split; [done|]. split; [done|]. by apply changed_level_below.
Qed.

Definition ten_files (rest : forest) : forest :=
  f_ "0" 1 1 (f_ "1" 1 1 (f_ "2" 1 1 (f_ "3" 1 1 (f_ "4" 1 1 (f_ "5" 1 1 (f_ "6" 1 1 (f_ "7" 1 1 (f_ "8" 1 1 (f_ "9" 1 1 rest))))))))).

Lemma large_unchanged_sound_witness :
  let t1 := CMemoryFile.mk (text (d_ "root" 1 (d_ "sub" 1 (ten_files Nil) Nil) Nil)) 0 in
  exists r large, diffTrees false true false t1 t1 (Some []) (Some []) (Some []) [] (Some []) = Returns (Some r) /\
    r_large_unchanged_subtrees r = Some large /\ large = [0%nat].
Proof.
  destruct (large_unchanged_sound false true false (CMemoryFile.mk (text (d_ "root" 1 (d_ "sub" 1 (ten_files Nil) Nil) Nil)) 0)
    (CMemoryFile.mk (text (d_ "root" 1 (d_ "sub" 1 (ten_files Nil) Nil) Nil)) 0)
    (d_ "root" 1 (d_ "sub" 1 (ten_files Nil) Nil) Nil) (d_ "root" 1 (d_ "sub" 1 (ten_files Nil) Nil) Nil)) as (r & large & E & El & _).
  - solve_list.
  - solve_list.
  - exists r, large. split; [exact E|]. split; [exact El|].
    assert (E' : diffTrees false true false (CMemoryFile.mk (text (d_ "root" 1 (d_ "sub" 1 (ten_files Nil) Nil) Nil)) 0)
      (CMemoryFile.mk (text (d_ "root" 1 (d_ "sub" 1 (ten_files Nil) Nil) Nil)) 0) (Some []) (Some []) (Some []) [] (Some []) =
      Returns (Some (mkResult [] (Some []) (Some [0%nat]) (Some []) [] (Some [])))) by (vm_compute; reflexivity).
    rewrite E' in E. injection E as <-. injection El as <-. reflexivity.
Defined.

(** * A shortcoming of [TreeDiff::gatherDiffs]: deletions at the end of a directory are
    not noticed when it is decided which directories are unchanged. *)

(** The content [c] followed by the entries [t]. *)
Fixpoint fapp (c t : forest) : forest :=
  match c with Nil => t | Cons e x ch rest => Cons e x ch (fapp rest t) end.

Lemma top_keys_fapp c t : top_keys (fapp c t) = top_keys c ++ top_keys t.
Proof. induction c as [|e x ch _ rest IH]; cbn; [done|]. by rewrite IH. Qed.
Lemma lookup_fapp k c t e ch : lookup k c = Some (e, ch) -> lookup k (fapp c t) = Some (e, ch).
Proof.
  unfold lookup. generalize 0%nat at 1 3. generalize 0%nat. induction c as [|e0 x0 c0 _ rest IH]; intros ln i; cbn; [done|].
  destruct (decide _); [done|]. apply IH.
Qed.
Lemma sorted_fapp c t k : sorted (fapp c t) -> k ∈ top_keys t -> Forall (fun k2 => key_cmp k2 k < 0) (top_keys c).
Proof.
  intros Hs Hk. induction c as [|e x ch _ rest IH]; cbn in *; [by constructor|]. destruct Hs as (Ha & _ & Hr).
  apply Forall_cons_2; [|by apply IH]. rewrite top_keys_fapp, Forall_app in Ha. destruct Ha as [_ Ha].
  rewrite Forall_forall in Ha. by apply Ha.
Qed.

Lemma data_eq_refl e : data_eq e e = true.
Proof. unfold data_eq. by rewrite !Z.eqb_refl, orb_true_r. Qed.

(** The lines of the entries that satisfy [c]. *)
Lemma lines_where_elem c f : forall p ln e ch n, find_path p ln f = Some (e, ch, n) -> c p e = true -> n ∈ lines_where c ln f.
Proof.
  unfold lines_where. revert c. induction f as [|e0 x0 c0 IHc rest IHr]; intros c p ln e ch n Hf Hc; destruct p as [|k p]; [done..|].
  cbn [collect]. rewrite !elem_of_app. destruct (decide (key_of e0 = k)) as [<-|Hne].
  - rewrite (find_path_hit (key_of e0) p _ 0 ln e0 c0 0 ln) in Hf by (cbn; by rewrite decide_True).
    destruct p as [|k' p]; [injection Hf as <- <- <-; left; rewrite Hc; left|]. right; left.
    by apply (IHc (fun p => c (key_of e0 :: p)) (k' :: p) (S ln) e ch n).
  - right; right. apply (IHr c (k :: p) (ln + entry_lines e0 c0)%nat e ch n); [|done].
    destruct (find_entry k (0 + S (size c0)) (ln + entry_lines e0 c0) rest) as [[[[e' c'] p'] l']|] eqn:E.
    + rewrite (find_path_hit _ _ _ _ _ _ _ _ _ E). rewrite <- (find_entry_skip k e0 x0 c0 rest 0 ln Hne) in E.
      by rewrite (find_path_hit _ _ _ _ _ _ _ _ _ E) in Hf.
    + rewrite <- (find_entry_skip k e0 x0 c0 rest 0 ln Hne) in E. by rewrite (find_path_miss _ _ _ _ _ _ E) in Hf.
Qed.

Section Trailing.
Context (win32 has_symbit is_windows : bool).
Notation changed_level := (changed_level win32 has_symbit is_windows).
Notation dirty := (dirty win32 has_symbit is_windows).

(** No symbolic links, where they matter. *)
Fixpoint no_links (f : forest) : Prop :=
  match f with
  | Nil => True
  | Cons e _ ch rest => negb win32 && is_link has_symbit is_windows e = false /\ no_links ch /\ no_links rest
  end.

Lemma skipped_self c : skipped c c = false.
Proof.
  unfold skipped. apply not_true_iff_false. rewrite existsb_exists. intros (k & Hk & H). apply list_elem_of_In in Hk.
  by rewrite bool_decide_true in H.
Qed.
Lemma skipped_trailing c t : sorted (fapp c t) -> skipped (fapp c t) c = false.
Proof.
  intros Hs. unfold skipped. apply not_true_iff_false. rewrite existsb_exists. intros (k & Hk & H). apply list_elem_of_In in Hk.
  apply andb_true_iff in H as [Hn H]. apply negb_true_iff, bool_decide_eq_false in Hn.
  rewrite top_keys_fapp, elem_of_app in Hk. destruct Hk as [|Hk]; [done|]. apply existsb_exists in H as (k2 & Hk2 & H).
  apply list_elem_of_In in Hk2. pose proof (sorted_fapp _ _ _ Hs Hk) as Ha. rewrite Forall_forall in Ha. specialize (Ha k2 Hk2).
  apply Z.ltb_lt in H. rewrite (key_cmp_sym k2 k) in H. lia.
Qed.

Lemma dirty_same c : forall r1, uniq c -> no_links c ->
  (forall k e ch, lookup k c = Some (e, ch) -> lookup k r1 = Some (e, ch)) -> dirty r1 c = false.
Proof.
  induction c as [|e x ch IHc rest IHr]; intros r1 U L Hk; [done|]. destruct U as (Hu & Uc & Ur), L as (Hl & Lc & Lr). cbn [TreeDiffSpec.dirty].
  rewrite (Hk (key_of e) e ch) by (unfold lookup; cbn; by rewrite decide_True).
  unfold pair_dirty. rewrite data_eq_refl, (IHc ch), skipped_self, Hl by done. cbn [negb orb]. apply IHr; [done..|].
  intros k e' ch' Hr. apply Hk. rewrite lookup_skip; [done|]. rewrite Forall_forall in Hu. apply Hu.
  destruct (decide (k ∈ top_keys rest)) as [|Hn]; [done|]. unfold lookup in Hr. by rewrite (proj2 (find_entry_none k rest 0 0) Hn) in Hr.
Qed.

Lemma trailing_unchanged c t : sorted (fapp c t) -> sorted c -> no_links c -> changed_level (fapp c t) c = false.
Proof.
  intros Hs Hc Hl. unfold TreeDiffSpec.changed_level. rewrite skipped_trailing, orb_false_r by done.
  apply dirty_same; [by apply sorted_uniq|done|]. intros k e ch. apply lookup_fapp.
Qed.
End Trailing.

Lemma find_entry_fapp k c t : forall i ln h, find_entry k i ln c = Some h -> find_entry k i ln (fapp c t) = Some h.
Proof. induction c as [|e x ch _ rest IH]; intros i ln h; cbn; [done|]. destruct (decide _); [done|]. apply IH. Qed.
Lemma find_path_fapp p ln c t h : find_path p ln c = Some h -> find_path p ln (fapp c t) = Some h.
Proof.
  destruct p as [|k p]; [done|]. cbn. destruct (find_entry k 0 ln c) as [[[[e ch] q] l]|] eqn:E; [|done]. by rewrite (find_entry_fapp _ _ t _ _ _ E).
Qed.
Lemma lines_fapp c t : lines (fapp c t) = (lines c + lines t)%nat.
Proof. induction c as [|e x ch _ rest IH]; [done|]. cbn [fapp]. rewrite !lines_cons, IH. lia. Qed.
Lemma collect_fapp g c t : forall ln, collect g ln (fapp c t) = collect g ln c ++ collect g (ln + lines c) t.
Proof.
  induction c as [|e x ch _ rest IH]; intros ln; cbn [fapp collect app]; [by rewrite Nat.add_0_r|].
  rewrite IH, lines_cons, <- !app_assoc, Nat.add_assoc. done.
Qed.
Lemma collect_ext_keys g g' f : (forall k p e l, k ∈ top_keys f -> g (k :: p) e l = g' (k :: p) e l) -> forall ln, collect g ln f = collect g' ln f.
Proof.
  induction f as [|e x ch _ rest IH]; intros H ln; [done|]. cbn [collect]. rewrite (H (key_of e) []) by left. rewrite IH by (intros k p e' l Hk; apply H; by right).
  do 2 f_equal. apply collect_ext. intros p e' l _. apply H. left.
Qed.
(** Nothing is collected if nothing is collected for what lies at the paths. *)
Lemma collect_nothing f : forall g ln, uniq f -> (forall p e ch l, find_path p 0 f = Some (e, ch, l) -> forall l', g p e l' = None) ->
  collect g ln f = [].
Proof.
  induction f as [|e0 x0 c0 IHc rest IHr]; intros g ln U H; [done|]. destruct U as (Hu & Uc & Ur). cbn [collect].
  assert (Eh : find_entry (key_of e0) 0 0 (Cons e0 x0 c0 rest) = Some (e0, c0, 0%nat, 0%nat)) by (cbn; by rewrite decide_True).
  rewrite (H [key_of e0] e0 c0 0%nat) by (by rewrite (find_path_hit _ _ _ _ _ _ _ _ _ Eh)). cbn [option_list app].
  rewrite IHc, IHr; [done|done| |done|].
  - intros p e ch l Hp l'. destruct p as [|k p]; [done|].
    assert (Hk : key_of e0 <> k).
    { rewrite Forall_forall in Hu. apply Hu. destruct (decide (k ∈ top_keys rest)) as [|Hn]; [done|].
      by rewrite (find_path_miss k p rest 0 0 0 (proj2 (find_entry_none _ _ _ _) Hn)) in Hp. }
    pose proof (find_path_shift (k :: p) 0 (0 + entry_lines e0 c0) rest) as Es. rewrite Hp in Es. cbn [fmap option_fmap option_map] in Es.
    destruct (find_path (k :: p) (0 + entry_lines e0 c0) rest) as [[[e1 ch1] l1]|] eqn:E1; [|done]. cbn in Es. injection Es as <- <-.
    apply (H (k :: p) e ch l1). rewrite <- E1.
    destruct (find_entry k (0 + S (size c0)) (0 + entry_lines e0 c0) rest) as [[[[e' c'] p'] l2]|] eqn:E.
    + rewrite (find_path_hit _ _ _ _ _ _ _ _ _ E). rewrite <- (find_entry_skip k e0 x0 c0 rest 0 0 Hk) in E. by rewrite (find_path_hit _ _ _ _ _ _ _ _ _ E).
    + by rewrite (find_path_miss _ _ _ _ _ _ E) in E1.
  - intros p e ch l Hp l'. destruct p as [|k p]; [done|].
    pose proof (find_path_shift (k :: p) 0 1 c0) as Es. rewrite Hp in Es. cbn [fmap option_fmap option_map] in Es.
    destruct (find_path (k :: p) 1 c0) as [[[e1 ch1] l1]|] eqn:E1; [|done]. cbn in Es. injection Es as <- <-.
    apply (H (key_of e0 :: k :: p) e ch l1). by rewrite (find_path_hit _ _ _ _ _ _ _ _ _ Eh).
Qed.

(** What [diffTrees] says of two lists that are one directory each, when the entries
    [t] at its end are gone. *)
Lemma trailing_gone d1 d2 x1 x2 c t : key_of d1 = key_of d2 -> isdir d2 = true -> uniq c -> sorted (fapp c t) ->
  lines_where (gone_from (Cons d2 x2 c Nil)) 0 (Cons d1 x1 (fapp c t) Nil) = lines_where (fun _ _ => true) (S (lines c)) t.
Proof.
  intros Hk Hd U Hs. unfold lines_where. cbn [collect]. rewrite app_nil_r.
  assert (Eh : find_entry (key_of d1) 0 0 (Cons d2 x2 c Nil) = Some (d2, c, 0%nat, 0%nat)) by (cbn; by rewrite decide_True).
  unfold gone_from at 1. rewrite (find_path_hit _ _ _ _ _ _ _ _ _ Eh). unfold kept at 1. rewrite Hd. cbn [orb negb option_list app].
  rewrite collect_fapp, collect_nothing; [|done|].
  - cbn [app]. apply collect_ext_keys. intros k p e l Hin. rewrite (gone_from_hit _ _ (k :: p) _ _ _ _ _ _ _ Eh) by done.
    assert (Hn : k ∉ top_keys c).
    { intros Hc. pose proof (sorted_fapp c t k Hs Hin) as Ha. rewrite Forall_forall in Ha. specialize (Ha _ Hc). rewrite (proj2 (key_cmp_eq k k) eq_refl) in Ha. lia. }
    unfold gone_from. by rewrite (find_path_miss k p c 0 0 0 (proj2 (find_entry_none _ _ _ _) Hn)).
  - intros p e ch l Hp l'. destruct p as [|k p]; [done|]. rewrite (gone_from_hit _ _ (k :: p) _ _ _ _ _ _ _ Eh) by done.
    unfold gone_from. rewrite Hp. unfold kept. by rewrite data_eq_refl, orb_true_r.
Qed.
Lemma trailing_not_new d1 d2 x1 x2 c t : key_of d1 = key_of d2 -> isdir d2 = true -> uniq c ->
  lines_where (new_or_changed (Cons d1 x1 (fapp c t) Nil)) 0 (Cons d2 x2 c Nil) = [].
Proof.
  intros Hk Hd U. apply collect_nothing; [by repeat constructor|]. intros p e ch l Hp l'. destruct p as [|k p]; [done|].
  destruct (decide (key_of d2 = k)) as [<-|Hne].
  2:{ by rewrite (find_path_miss k p (Cons d2 x2 c Nil) 0 0 0) in Hp by (cbn; by rewrite decide_False). }
  rewrite (find_path_hit _ p (Cons d2 x2 c Nil) 0 0 d2 c 0 0) in Hp by (cbn; by rewrite decide_True).
  unfold new_or_changed. rewrite (find_path_hit _ p (Cons d1 x1 (fapp c t) Nil) 0 0 d1 (fapp c t) 0 0) by (cbn; by rewrite decide_True).
  destruct p as [|k p].
  - injection Hp as Ee _ _. unfold file_changed. by rewrite <- Ee, Hd.
  - rewrite (find_path_fapp _ _ _ _ _ Hp). unfold file_changed. by rewrite data_eq_refl, orb_true_r.
Qed.

(** C36: Deletions at the end of a directory are overlooked.  Let the old list be a
    directory with content [c ++ t] and the new list the same directory with content [c]
    (ten entries or more, no symbolic links where they are told apart): the entries [t]
    are gone, and [diffTrees] reports exactly their lines, with everything below them, as
    deleted; nevertheless it reports the directory as a large unchanged subtree, and
    nothing as new or changed.  ([gatherDiffs] leaves its loop when the new directory ends
    and marks deletions only while it compares.) *)
Theorem large_unchanged_misses_deletions {F} `{FileLaws F} (win32 has_symbit is_windows : bool) (t1 t2 : F)
    (d1 d2 : SFile) (x1 x2 : bytes) (c t : forest) :
  is_list t1 (Cons d1 x1 (fapp c t) Nil) -> is_list t2 (Cons d2 x2 c Nil) ->
  key_of d1 = key_of d2 -> isdir d2 = true -> no_links win32 has_symbit is_windows c -> (10 <= size c)%nat ->
  exists r, diffTrees win32 has_symbit is_windows t1 t2 (Some []) (Some []) (Some []) [] (Some []) = Returns (Some r) /\
    r_large_unchanged_subtrees r = Some [0%nat] /\ ret r = [] /\
    r_deleted_ids r = Some (lines_where (fun _ _ => true) (S (lines c)) t).
Proof.
  intros H1 H2 Hk Hd Hl Hsz. eexists. split; [by apply diffTrees_spec|].
  destruct H1 as (_ & _ & (_ & S1 & _)), H2 as (_ & _ & (_ & S2 & _)). pose proof (sorted_uniq c S2) as U.
  cbn [r_large_unchanged_subtrees ret r_deleted_ids]. split_and!.
  - cbn [taken_over].
    assert (El : lookup (key_of d2) (Cons d1 x1 (fapp c t) Nil) = Some (d1, fapp c t)) by (unfold lookup; cbn; by rewrite decide_True).
    rewrite El, trailing_unchanged by done. unfold kept. rewrite Hd. cbn [orb andb negb].
    rewrite (proj2 (Nat.ltb_lt 10 (S (size c)))) by lia. done.
  - by apply trailing_not_new.
  - f_equal. by apply trailing_gone.
Qed.

Lemma large_unchanged_misses_deletions_witness :
  exists r, diffTrees false true false (CMemoryFile.mk (text (d_ "sub" 1 (ten_files (f_ "a" 3 4 (f_ "b" 3 4 Nil))) Nil)) 0)
      (CMemoryFile.mk (text (d_ "sub" 2 (ten_files Nil) Nil)) 0) (Some []) (Some []) (Some []) [] (Some []) = Returns (Some r) /\
    r_large_unchanged_subtrees r = Some [0%nat] /\ ret r = [] /\ r_deleted_ids r = Some [11%nat; 12%nat].
Proof.
  apply (large_unchanged_misses_deletions false true false (CMemoryFile.mk (text (d_ "sub" 1 (ten_files (f_ "a" 3 4 (f_ "b" 3 4 Nil))) Nil)) 0)
    (CMemoryFile.mk (text (d_ "sub" 2 (ten_files Nil) Nil)) 0) (mkSFile (str "sub") 0 1 true) (mkSFile (str "sub") 0 2 true) [] []
    (ten_files Nil) (f_ "a" 3 4 (f_ "b" 3 4 Nil))).
  - solve_list.
  - solve_list.
  - reflexivity.
  - reflexivity.
  - cbn. repeat split.
  - cbn. lia.
Defined.
