(* ===== verification/FileBackup.v ===== *)
(** Using the difference of two lists: [FileBackup::hasChange] and
    [FileBackup::getIncrementalSize] of [urbackupserver/FileBackup.cpp]. *)
From S2P Require Import Prelude MemFile StringTools FileList TreeNode TreeReader.

(** [std::lower_bound]: the number of elements in front of the first one that is not
    less than [val]. *)
Fixpoint lower_bound (fuel : nat) (l : list nat) (first len val : nat) : nat :=
  match fuel, len with
  | S k, S _ =>
      let half := (len / 2)%nat in
      let middle := (first + half)%nat in
      if (nth middle l 0 <? val)%nat then lower_bound k l (S middle) (len - half - 1) val
      else lower_bound k l first half val
  | _, _ => first
  end.
(** [std::binary_search]; [len] at least halves in every round. *)
Definition binary_search (l : list nat) (val : nat) : bool :=
  let i := lower_bound (length l) l 0 (length l) val in
  (i <? length l)%nat && negb (val <? nth i l 0)%nat.

Definition hasChange (line : nat) (diffs : list nat) : bool := binary_search diffs line.

(** The local variables of [getIncrementalSize].  [depth], [indir_currdepth] and
    [changelevel] are of type [int]; they are bounded by the nesting of the list. *)
Record incr_state := mkIncr {
  rsize : Z;
  indirchange : bool;
  line : nat;
  indir_currdepth : Z;
  depth : Z;
  changelevel : Z;
  backup_with_components : bool }.

Section Incremental.
(** The client's [os_simple], the difference, and [all]. *)
Context (os_simple : bytes) (diffs : list nat) (all : bool).

(** The name of the component configuration among the backup roots. *)
Definition is_components (cf : SFile) (depth : Z) : bool :=
  (depth =? 0) && bool_decide (FileList.name cf = str "windows_components_config") &&
  (bool_decide (os_simple = []) || bool_decide (os_simple = str "windows")).

Definition dir_entry (cf : SFile) (s : incr_state) : incr_state :=
  let components := is_components cf (depth s) || backup_with_components s in
  let up := bool_decide (FileList.name cf = dotdot) in
  let '(indir, level, curr) :=
    if negb (indirchange s) && hasChange (line s) diffs then (true, depth s, 0)
    else if indirchange s then (true, changelevel s, if negb up then indir_currdepth s + 1 else indir_currdepth s - 1)
    else (indirchange s, changelevel s, indir_currdepth s) in
  let curr := if up && (0 <? curr) then curr - 1 else curr in
  if negb up then mkIncr (rsize s) indir (line s) curr (depth s + 1) level components
  else
    let depth := depth s - 1 in
    let indir := if indir && (depth =? level) then (if negb all then false else indir) else indir in
    mkIncr (rsize s) indir (line s) curr depth level components.

Definition file_entry (cf : SFile) (s : incr_state) : incr_state :=
  if indirchange s || hasChange (line s) diffs then
    mkIncr (if 0 <? FileList.size cf then s64 (rsize s + FileList.size cf) else rsize s)
      (indirchange s) (line s) (indir_currdepth s) (depth s) (changelevel s) (backup_with_components s)
  else s.

Definition next_line (s : incr_state) : incr_state :=
  mkIncr (rsize s) (indirchange s) (S (line s)) (indir_currdepth s) (depth s) (changelevel s) (backup_with_components s).

Definition incr_entry (cf : SFile) (s : incr_state) : incr_state :=
  next_line (if isdir cf then dir_entry cf s else file_entry cf s).

(** The characters of a buffer. *)
Context (lower : bytes -> bytes).
Fixpoint incr_chars (p : FileListParser) (cf : SFile) (s : incr_state) (b : bytes) : FileListParser * SFile * incr_state :=
  match b with
  | [] => (p, cf, s)
  | ch :: b =>
      let '(found, p, cf, _) := nextEntry lower p ch cf None in
      incr_chars p cf (if found : bool then incr_entry cf s else s) b
  end.

Context {F : Type} `{IFile F}.
(** [while( (read=f->Read(buffer, 4096))>0 )]; the loop also ends behind a short read. *)
Fixpoint incr_loop (rounds : nat) (f : F) (p : FileListParser) (cf : SFile) (s : incr_state) : outcome incr_state :=
  match rounds with
  | O => Endless
  | S k =>
      let '((buffer, _), f) := Read f 4096 in
      if 0 <? zlen buffer then
        let '(p, cf, s) := incr_chars p cf s buffer in
        if zlen buffer <? 4096 then Returns s else incr_loop k f p cf s
      else Returns s
  end.

(** The size and [backup_with_components]. *)
Definition getIncrementalSize (f : F) : outcome (Z * bool) :=
  let f := snd (Seek f 0) in
  let+ s := incr_loop (2 + Z.to_nat (Size f / 4096)) f reset (mkSFile [] 0 0 false) (mkIncr 0 all 0 0 0 0 false) in
  Returns (rsize s, backup_with_components s).
End Incremental.
