(* ===== verification/FileBackupTheorems.v ===== *)
(** [getIncrementalSize] computes the size of what the difference of two lists says
    has to be loaded. *)
From stdpp Require Import sorting.
From S2P Require Import Prelude MemFile TreeLex StringTools FileList TreeNode TreeReader TreeDiff TreeForest TreeDiffSpec TreeDiffRoot TreeDiffPaths TreeDiffMapped TreeDiffTheorems FileBackup.

(** ** Binary search *)

Lemma nth_sorted_le l i j : StronglySorted Nat.le l -> (i <= j < length l)%nat -> (nth i l 0 <= nth j l 0)%nat.
Proof.
  intros Hs. revert i j. induction Hs as [|x l' _ IH Hx]; intros i j Hij; cbn [length nth] in *; [lia|].
  destruct i as [|i], j as [|j]; try lia; [|apply IH; lia]. rewrite Forall_forall in Hx. apply Hx.
  apply list_elem_of_In, nth_In. lia.
Qed.

Section Search.
Context (l : list nat) (val : nat) (Hs : StronglySorted Nat.le l).

Lemma lower_bound_spec fuel : forall first len, (len <= fuel)%nat -> (first + len <= length l)%nat ->
  (forall j, (j < first)%nat -> (nth j l 0 < val)%nat) ->
  (forall j, (first + len <= j < length l)%nat -> (val <= nth j l 0)%nat) ->
  let i := lower_bound fuel l first len val in
  (i <= length l)%nat /\ (forall j, (j < i)%nat -> (nth j l 0 < val)%nat) /\
  (forall j, (i <= j < length l)%nat -> (val <= nth j l 0)%nat).
Proof.
  induction fuel as [|k IH]; intros first len Hk Hl H1 H2; cbn [lower_bound].
  - split; [lia|]. split; [done|]. intros j Hj. apply H2. lia.
  - destruct len as [|len']; [split; [lia|]; split; [done|]; intros j Hj; apply H2; lia|]. set (len := S len') in *.
    assert (Hh : (len / 2 < len)%nat) by (apply Nat.div_lt; lia). set (half := (len / 2)%nat) in *.
    destruct (Nat.ltb_spec (nth (first + half) l 0%nat) val) as [Hlt|Hge].
    + apply IH; [lia|lia| |intros j Hj; apply H2; lia]. intros j Hj.
      pose proof (nth_sorted_le l j (first + half) Hs). lia.
    + apply IH; [lia|lia|done|]. intros j Hj. pose proof (nth_sorted_le l (first + half) j Hs). lia.
Qed.

Lemma hasChange_spec : hasChange val l = bool_decide (val ∈ l).
Proof.
  unfold hasChange, binary_search.
  destruct (lower_bound_spec (length l) 0%nat (length l)) as (Hi & H1 & H2); [lia|lia|lia|lia|]. cbn zeta in *.
  set (i := lower_bound (length l) l 0 (length l) val) in *.
  apply bool_iff. rewrite andb_true_iff, negb_true_iff, Nat.ltb_lt, Nat.ltb_ge. split.
  - intros [Hlt Hle]. specialize (H2 i ltac:(lia)). apply list_elem_of_In.
    replace val with (nth i l 0%nat) by lia. by apply nth_In.
  - intros Hin. apply list_elem_of_In, (In_nth _ _ 0%nat) in Hin as (j & Hj & E).
    destruct (Nat.lt_ge_cases j i) as [Hlt|Hge]; [specialize (H1 j Hlt); lia|]. split; [lia|].
    rewrite <- E. apply nth_sorted_le; [done|lia].
Qed.
End Search.

(** ** The reading loop *)

Section Loop.
Context (os_simple : bytes) (diffs : list nat) (all : bool) (lower : bytes -> bytes).
Notation incr_chars := (incr_chars os_simple diffs all lower).
Notation incr_entry := (incr_entry os_simple diffs all).

Lemma incr_chars_app a b p cf s :
  incr_chars p cf s (a ++ b) = let '(p, cf, s) := incr_chars p cf s a in incr_chars p cf s b.
Proof.
  revert p cf s. induction a as [|c a IH]; intros p cf s; cbn; [done|].
  destruct (nextEntry lower p c cf None) as [[[fd p'] cf'] ?]. apply IH.
Qed.

(** The entries that the parser finds. *)
Lemma incr_chars_feed b : forall p cf s, let '(out, (p', cf', _)) := feed lower p cf None b in
  incr_chars p cf s b = (p', cf', fold_left (fun s o => incr_entry (fst o) s) out s).
Proof.
  induction b as [|c b IH]; intros p cf s; cbn [feed FileBackup.incr_chars]; [done|].
  assert (He : snd (nextEntry lower p c cf None) = None).
  { unfold nextEntry, name_case. destruct (state p); repeat case_match; done. }
  destruct (nextEntry lower p c cf None) as [[[fd p'] cf'] e']. cbn in He. subst e'.
  specialize (IH p' cf' (if fd : bool then incr_entry cf' s else s)). destruct (feed lower p' cf' None b) as [out [[p2 cf2] e2]].
  rewrite IH. by destruct fd.
Qed.

Lemma incr_items l cf s : Forall item_ok l ->
  exists cf', incr_chars reset cf s (items_text l) = (reset, cf', fold_left (fun s i => incr_entry (canon (fst i)) s) l s).
Proof.
  intros H. revert cf s. induction H as [|[e x] l [He Hx] H IH]; intros cf s; [by exists cf|].
  unfold items_text. cbn [map concat fst snd]. fold (items_text l). rewrite incr_chars_app.
  destruct (feed_item lower e x cf None He Hx) as (d' & e' & E & _). pose proof (incr_chars_feed (writeFileItemExtra e x) reset cf s) as Hf.
  rewrite E in Hf. rewrite Hf. cbn [fold_left fst]. apply IH.
Qed.

Context {F : Type} `{FileLaws F}.
Lemma incr_loop_eq rounds : forall f p cf s, (rounds_for 4096 (zdrop (fpos f) (contents f)) <= rounds)%nat ->
  incr_loop os_simple diffs all lower rounds f p cf s = Returns (snd (incr_chars p cf s (zdrop (fpos f) (contents f)))).
Proof.
  induction rounds as [|k IH]; intros f p cf s Hk; [by apply (rounds_pos 4096) in Hk as []|].
  destruct (read_next 4096 ltac:(lia) f) as (f1 & E & Hc & Hr). cbn [incr_loop]. rewrite E.
  set (r := zdrop (fpos f) (contents f)) in *. pose proof (zlen_nonneg r).
  replace (incr_chars p cf s r) with (incr_chars p cf s (ztake 4096 r ++ zdrop 4096 r)) by (by rewrite ztake_zdrop).
  rewrite incr_chars_app, zlen_ztake by lia.
  destruct (Z.ltb_spec 0 (Z.min 4096 (zlen r))) as [Hpos|Hz].
  - destruct (incr_chars p cf s (ztake 4096 r)) as [[p1 cf1] s1]. destruct (Z.ltb_spec (Z.min 4096 (zlen r)) 4096) as [Hlt|Hge].
    + by rewrite (zdrop_ge 4096 r) by lia.
    + rewrite IH, Hr; [done|]. rewrite Hr. apply rounds_next; [lia|done|]. intros Er. apply (f_equal zlen) in Er.
      change (zlen r = 0) in Er. lia.
  - assert (Er : r = []) by (destruct r; [done|rewrite zlen_cons in *; pose proof (zlen_nonneg r); lia]). by rewrite Er.
Qed.

(** The state behind the last entry of a list. *)
Lemma incr_run f l : contents f = items_text l -> Forall item_ok l ->
  getIncrementalSize os_simple diffs all lower f =
  let s := fold_left (fun s i => incr_entry (canon (fst i)) s) l (mkIncr 0 all 0 0 0 0 false) in
  Returns (rsize s, backup_with_components s).
Proof.
  intros Hf Hl. unfold getIncrementalSize. rewrite size_law. destruct (seek_0 f) as [Hc Hd]. rewrite Hc.
  rewrite incr_loop_eq by (rewrite Hd; apply rounds_file). rewrite Hd, Hf.
  destruct (incr_items l (mkSFile [] 0 0 false) (mkIncr 0 all 0 0 0 0 false) Hl) as (cf' & ->). done.
Qed.
End Loop.

(** ** The size of the entries that satisfy [c] *)

Fixpoint sum_where (c : path -> SFile -> bool) (f : forest) : Z :=
  match f with
  | Nil => 0
  | Cons e _ ch rest =>
      (if negb (isdir e) && c [key_of e] e then Z.max 0 (FileList.size e) else 0)
        + sum_where (fun p => c (key_of e :: p)) ch + sum_where c rest
  end.
Lemma sum_nonneg f : forall c, 0 <= sum_where c f.
Proof.
  induction f as [|e x ch IHc rest IHr]; intros c; cbn; [lia|]. specialize (IHr c). specialize (IHc (fun p => c (key_of e :: p))).
  destruct (_ && _); lia.
Qed.
Lemma sum_ext f : forall c c', (forall p e, p <> [] -> c p e = c' p e) -> sum_where c f = sum_where c' f.
Proof.
  induction f as [|e x ch IHc rest IHr]; intros c c' H; cbn; [done|]. rewrite H by done. rewrite (IHr c c' H).
  do 2 f_equal. apply IHc. intros. by apply H.
Qed.

(** A file that the old list does not have with the same data at the same path. *)
Definition not_in_old (f1 : forest) (p : path) (e : SFile) : bool :=
  match find_path p 0 f1 with Some (e1, _, _) => negb (data_eq e1 e) | None => true end.

(** ** Lines of an entry, below it and behind it *)

Section Lines.
Context (c : path -> SFile -> bool) (ln : nat) (e : SFile) (x : bytes) (ch rest : forest) (W : wf (Cons e x ch rest)).
Let below := lines_where (fun p => c (key_of e :: p)) (S ln) ch.
Let behind := lines_where c (ln + entry_lines e ch) rest.

Lemma lines_split l : l ∈ lines_where c ln (Cons e x ch rest) <-> (l = ln /\ c [key_of e] e = true) \/ l ∈ below \/ l ∈ behind.
Proof.
  change (lines_where c ln (Cons e x ch rest)) with (option_list (if c [key_of e] e then Some ln else None) ++ below ++ behind).
  rewrite !elem_of_app. destruct (c [key_of e] e).
  - change (option_list (Some ln)) with [ln]. rewrite list_elem_of_singleton. assert (true = true) by done. tauto.
  - change (option_list None) with (@nil nat). rewrite elem_of_nil. assert (false <> true) by done. tauto.
Qed.
Lemma below_range l : l ∈ below -> (ln < l < ln + S (lines ch) /\ S (S (lines ch)) = entry_lines e ch)%nat.
Proof.
  destruct W as (_ & _ & _ & Hfile & Wc & _). intros H. pose proof (collect_lines_range (fun p => c (key_of e :: p)) ch (S ln) Wc) as R.
  rewrite Forall_forall in R. apply R in H. unfold entry_lines. destruct (isdir e); [lia|]. rewrite Hfile in H by done. cbn in H. lia.
Qed.
Lemma behind_range l : l ∈ behind -> (ln + entry_lines e ch <= l)%nat.
Proof.
  destruct W as (_ & _ & _ & _ & _ & Wr). intros H. pose proof (collect_lines_range c rest (ln + entry_lines e ch) Wr) as R.
  rewrite Forall_forall in R. apply R in H. lia.
Qed.
Lemma entry_lines_pos : (1 <= entry_lines e ch)%nat.
Proof. unfold entry_lines. destruct (isdir e); lia. Qed.
End Lines.

(** [diffs] holds, of the lines of [f], those of the entries that satisfy [c]. *)
Definition marks (diffs : list nat) (c : path -> SFile -> bool) (ln : nat) (f : forest) : Prop :=
  forall l, (ln <= l < ln + lines f)%nat -> hasChange l diffs = true <-> l ∈ lines_where c ln f.
Lemma marks_ext diffs c c' ln f : (forall p e, p <> [] -> c p e = c' p e) -> marks diffs c ln f -> marks diffs c' ln f.
Proof.
  intros E M l Hl. rewrite (M l Hl). unfold lines_where. by rewrite (collect_ext _ (fun p e ln => if c' p e then Some ln else None)) by (intros; by rewrite E).
Qed.

Section Marks.
Context (diffs : list nat) (c : path -> SFile -> bool) (ln : nat) (e : SFile) (x : bytes) (ch rest : forest).
Context (W : wf (Cons e x ch rest)) (M : marks diffs c ln (Cons e x ch rest)).

Lemma marks_at l : (ln <= l < ln + (entry_lines e ch + lines rest))%nat ->
  hasChange l diffs = true <-> (l = ln /\ c [key_of e] e = true) \/ l ∈ lines_where (fun p => c (key_of e :: p)) (S ln) ch
    \/ l ∈ lines_where c (ln + entry_lines e ch) rest.
Proof. intros Hl. rewrite <- (lines_split c ln e x ch rest). apply M. by rewrite lines_cons. Qed.
Lemma marks_self : hasChange ln diffs = c [key_of e] e.
Proof.
  pose proof (entry_lines_pos e ch). apply Bool.eq_iff_eq_true. rewrite marks_at by lia. split; [|tauto].
  intros [[_ ?]|[Hb|Hb]]; [done|apply (below_range _ _ _ _ _ _ W) in Hb; lia|apply (behind_range _ _ _ _ _ _ W) in Hb; lia].
Qed.
Lemma marks_behind : marks diffs c (ln + entry_lines e ch) rest.
Proof.
  pose proof (entry_lines_pos e ch). intros l Hl. rewrite marks_at by lia. split; [|tauto].
  intros [[-> _]|[Hb|Hb]]; [lia|apply (below_range _ _ _ _ _ _ W) in Hb; lia|done].
Qed.
Lemma marks_below : isdir e = true -> marks diffs (fun p => c (key_of e :: p)) (S ln) ch.
Proof.
  intros Hd l Hl. assert (He : entry_lines e ch = S (S (lines ch))) by (unfold entry_lines; by rewrite Hd).
  rewrite marks_at by lia. split; [|tauto].
  intros [[-> _]|[Hb|Hb]]; [lia|done|apply (behind_range _ _ _ _ _ _ W) in Hb; lia].
Qed.
Lemma marks_up : isdir e = true -> hasChange (S ln + lines ch) diffs = false.
Proof.
  intros Hd. assert (He : entry_lines e ch = S (S (lines ch))) by (unfold entry_lines; by rewrite Hd).
  apply not_true_iff_false. rewrite marks_at by lia.
  intros [[? _]|[Hb|Hb]]; [lia|apply (below_range _ _ _ _ _ _ W) in Hb; lia|apply (behind_range _ _ _ _ _ _ W) in Hb; lia].
Qed.
End Marks.

(** ** The entries of a directory *)

Section Sizes.
Context (os_simple : bytes) (diffs : list nat).
Notation incr_entry := (incr_entry os_simple diffs false).

Definition run (l : list (SFile * bytes)) (s : incr_state) : incr_state :=
  fold_left (fun s i => incr_entry (canon (fst i)) s) l s.
Lemma run_app a b s : run (a ++ b) s = run b (run a s).
Proof. apply fold_left_app. Qed.

Lemma canon_entry e : name_ok (FileList.name e) -> canon e = mkSFile (FileList.name e) (if isdir e then 0 else FileList.size e) (last_modified e) (isdir e).
Proof. intros Hn. unfold canon. destruct Hn as [Hn _]. unfold is_up. by rewrite bool_decide_false, andb_false_r. Qed.
Lemma not_dotdot n : name_ok n -> bool_decide (n = dotdot) = false.
Proof. intros [H _]. by apply bool_decide_false. Qed.

(** [s'] is [s] behind [n] lines, with [z] more bytes. *)
Definition advanced (s s' : incr_state) (n : nat) (z : Z) : Prop :=
  rsize s' = rsize s + z /\ line s' = (line s + n)%nat /\ depth s' = depth s /\ indirchange s' = indirchange s /\
  (indirchange s = true -> changelevel s' = changelevel s).

Lemma size_add s z : 0 <= rsize s -> rsize s + Z.max 0 z < 2 ^ 63 -> (if 0 <? z then s64 (rsize s + z) else rsize s) = rsize s + Z.max 0 z.
Proof. intros H0 H. destruct (Z.ltb_spec 0 z); [rewrite s64_id; lia|lia]. Qed.

(** A file. *)
Lemma file_step e s : name_ok (FileList.name e) -> isdir e = false -> 0 <= rsize s ->
  let b := indirchange s || hasChange (line s) diffs in
  rsize s + (if b then Z.max 0 (FileList.size e) else 0) < 2 ^ 63 ->
  advanced s (incr_entry (canon e) s) 1 (if b then Z.max 0 (FileList.size e) else 0).
Proof.
  intros Hn Hd H0 b Hz. rewrite canon_entry, Hd by done. unfold FileBackup.incr_entry, file_entry; cbn [isdir]. fold b.
  destruct b; unfold advanced; cbn; [rewrite size_add by done|]; (split; [lia|]); (split; [lia|done]).
Qed.

(** Entering and leaving a directory below a changed one. *)
Lemma enter_inside e s : name_ok (FileList.name e) -> isdir e = true -> indirchange s = true ->
  let s' := incr_entry (canon e) s in
  rsize s' = rsize s /\ line s' = S (line s) /\ depth s' = depth s + 1 /\ indirchange s' = true /\ changelevel s' = changelevel s.
Proof.
  intros Hn Hd Hi. rewrite canon_entry, Hd by done. unfold FileBackup.incr_entry, dir_entry; cbn [isdir FileList.name].
  rewrite Hi, (not_dotdot _ Hn). done.
Qed.
Lemma leave_step s : (indirchange s = false -> hasChange (line s) diffs = false) ->
  let s' := incr_entry (canon (fst up_item)) s in
  rsize s' = rsize s /\ line s' = S (line s) /\ depth s' = depth s - 1 /\
  indirchange s' = (indirchange s && negb (depth s - 1 =? changelevel s)) /\ (indirchange s = true -> changelevel s' = changelevel s).
Proof.
  intros Hh. change (canon (fst up_item)) with (mkSFile dotdot 0 0 true). unfold FileBackup.incr_entry, dir_entry; cbn [isdir FileList.name].
  rewrite (bool_decide_true (dotdot = dotdot)) by done. cbn [negb].
  destruct (indirchange s); cbn [negb andb]; [|rewrite Hh by done; cbn; done].
  cbn. by destruct (depth s - 1 =? changelevel s).
Qed.

Lemma items_cons e x ch rest : items (Cons e x ch rest) = (e, x) :: (if isdir e then items ch ++ [up_item] else []) ++ items rest.
Proof. done. Qed.

Lemma advanced_trans s s1 s2 n1 n2 z1 z2 : advanced s s1 n1 z1 -> advanced s1 s2 n2 z2 -> advanced s s2 (n1 + n2) (z1 + z2).
Proof. intros (A1 & A2 & A3 & A4 & A5) (B1 & B2 & B3 & B4 & B5). rewrite A4 in *. split; [lia|]. split; [lia|]. split; [lia|].
  split; [congruence|]. intros Hi. rewrite B5, A5; done.
Qed.

(** Everything below a changed directory counts. *)
Lemma run_inside f : forall s, wf f -> indirchange s = true -> changelevel s < depth s -> 0 <= rsize s ->
  rsize s + sum_where (fun _ _ => true) f < 2 ^ 63 -> advanced s (run (items f) s) (lines f) (sum_where (fun _ _ => true) f).
Proof.
  induction f as [|e x ch IHc rest IHr]; intros s W Hi Hl H0 Hz; [unfold advanced; cbn; repeat split; lia || done|].
  pose proof W as (Hn & _ & _ & Hfile & Wc & Wr). rewrite items_cons, lines_cons. cbn [sum_where] in *.
  pose proof (sum_nonneg ch (fun _ _ => true)). pose proof (sum_nonneg rest (fun _ _ => true)).
  change (run ((e, x) :: ?l) s) with (run l (incr_entry (canon e) s)). rewrite run_app.
  assert (Hfirst : advanced s (run (if isdir e then items ch ++ [up_item] else []) (incr_entry (canon e) s)) (entry_lines e ch)
    ((if negb (isdir e) && true then Z.max 0 (FileList.size e) else 0) + sum_where (fun _ _ => true) ch)).
  { unfold entry_lines. destruct (isdir e) eqn:Ed; cbn [negb andb].
    - rewrite run_app. cbn [negb andb] in Hz. destruct (enter_inside e s Hn Ed Hi) as (R & L & D & I & C).
      destruct (IHc (incr_entry (canon e) s) Wc I) as (R1 & L1 & D1 & I1 & C1); [lia|lia|lia|]. specialize (C1 I).
      change (run [up_item] ?t) with (incr_entry (canon (fst up_item)) t).
      destruct (leave_step (run (items ch) (incr_entry (canon e) s))) as (R2 & L2 & D2 & I2 & C2); [congruence|].
      unfold advanced. rewrite R2, L2, D2, I2, C2, I1, I by congruence.
      split; [lia|]. split; [lia|]. split; [lia|]. split; [|intros; congruence]. cbn [andb].
      rewrite Hi. apply negb_true_iff, Z.eqb_neq. lia.
    - rewrite Hfile by done. cbn [run fold_left sum_where]. rewrite Z.add_0_r.
      pose proof (file_step e s Hn Ed H0) as Hf. cbn zeta in Hf. rewrite Hi in Hf. cbn [orb] in Hf. apply Hf.
      cbn [negb andb] in Hz. lia. }
  pose proof Hfirst as (R & L & D & I & C). rewrite Z.add_assoc in *. eapply advanced_trans; [exact Hfirst|].
  apply IHr; [done|congruence|rewrite C by done; lia|destruct (_ && _); lia|lia].
Qed.

(** Entering a directory of which nothing above is new. *)
Lemma enter_outside e s : name_ok (FileList.name e) -> isdir e = true -> indirchange s = false ->
  let s' := incr_entry (canon e) s in
  rsize s' = rsize s /\ line s' = S (line s) /\ depth s' = depth s + 1 /\ indirchange s' = hasChange (line s) diffs /\
  (hasChange (line s) diffs = true -> changelevel s' = depth s).
Proof.
  intros Hn Hd Hi. rewrite canon_entry, Hd by done. unfold FileBackup.incr_entry, dir_entry; cbn [isdir FileList.name].
  rewrite Hi, (not_dotdot _ Hn). cbn [negb andb]. by destruct (hasChange (line s) diffs).
Qed.

(** What the old list has below an entry of the same key. *)
Section Hit.
Context (r1 : forest) (k : key) (e1 : SFile) (ch1 : forest) (i ln p1 l1 : nat) (E : find_entry k i ln r1 = Some (e1, ch1, p1, l1)).
Lemma not_in_old_hit p e : p <> [] -> not_in_old r1 (k :: p) e = not_in_old ch1 p e.
Proof.
  intros Hp. unfold not_in_old. pose proof (find_path_hit0 _ p _ _ _ _ _ _ _ E) as H. destruct p as [|k' p]; [done|].
  destruct (find_path (k :: k' :: p) 0 r1) as [[[? ?] ?]|], (find_path (k' :: p) 0 ch1) as [[[? ?] ?]|]; cbn in H; by simplify_eq.
Qed.
Lemma new_or_changed_hit p e : p <> [] -> new_or_changed r1 (k :: p) e = new_or_changed ch1 p e.
Proof.
  intros Hp. unfold new_or_changed. rewrite (parent_known_hit _ _ _ _ _ _ _ _ _ Hp E).
  pose proof (find_path_hit0 _ p _ _ _ _ _ _ _ E) as H. destruct p as [|k' p]; [done|].
  destruct (find_path (k :: k' :: p) 0 r1) as [[[? ?] ?]|], (find_path (k' :: p) 0 ch1) as [[[? ?] ?]|]; cbn in H; by simplify_eq.
Qed.
End Hit.

(** Entries of a directory that both lists have. *)
Lemma run_outside f : forall r1 s, wf f -> indirchange s = false -> 0 <= rsize s -> rsize s + sum_where (not_in_old r1) f < 2 ^ 63 ->
  marks diffs (new_or_changed r1) (line s) f -> advanced s (run (items f) s) (lines f) (sum_where (not_in_old r1) f).
Proof.
  induction f as [|e x ch IHc rest IHr]; intros r1 s W Hi H0 Hz Hh; [unfold advanced; cbn; repeat split; lia || done|].
  pose proof W as (Hn & _ & _ & Hfile & Wc & Wr). rewrite items_cons, lines_cons. cbn [sum_where] in *.
  pose proof (marks_self _ _ _ _ _ _ _ W Hh) as Hself. pose proof (marks_behind _ _ _ _ _ _ _ W Hh) as Hbeh.
  pose proof (sum_nonneg ch (fun p => not_in_old r1 (key_of e :: p))). pose proof (sum_nonneg rest (not_in_old r1)).
  change (run ((e, x) :: ?l) s) with (run l (incr_entry (canon e) s)). rewrite run_app.
  assert (Hfirst : advanced s (run (if isdir e then items ch ++ [up_item] else []) (incr_entry (canon e) s)) (entry_lines e ch)
    ((if negb (isdir e) && not_in_old r1 [key_of e] e then Z.max 0 (FileList.size e) else 0) + sum_where (fun p => not_in_old r1 (key_of e :: p)) ch)).
  { unfold entry_lines. destruct (isdir e) eqn:Ed; cbn [negb andb] in *.
    - pose proof (marks_below _ _ _ _ _ _ _ W Hh Ed) as Hbel. pose proof (marks_up _ _ _ _ _ _ _ W Hh Ed) as Hup.
      rewrite run_app. change (run [up_item] ?t) with (incr_entry (canon (fst up_item)) t).
      destruct (enter_outside e s Hn Ed Hi) as (R & L & D & I & C). rewrite Hself in I, C. set (s1 := incr_entry (canon e) s) in *.
      assert (advanced s1 (run (items ch) s1) (lines ch) (sum_where (fun p => not_in_old r1 (key_of e :: p)) ch) /\
        (indirchange s1 = true -> changelevel s1 = depth s)) as [(R1 & L1 & D1 & I1 & C1) HC].
      { destruct (find_entry (key_of e) 0 0 r1) as [[[[e1 ch1] p1] l1]|] eqn:E.
        - unfold new_or_changed in I, C. rewrite (find_path_hit _ _ _ _ _ _ _ _ _ E) in I, C. unfold file_changed in I, C. rewrite Ed in I, C.
          assert (Hs : sum_where (fun p => not_in_old r1 (key_of e :: p)) ch = sum_where (not_in_old ch1) ch)
            by (apply sum_ext; intros; by apply (not_in_old_hit _ _ _ _ _ _ _ _ E)). rewrite Hs in *.
          split; [|intros HI; by rewrite I in HI]. apply IHc; [done|done|lia|lia|]. rewrite L.
          apply (marks_ext _ (fun p => new_or_changed r1 (key_of e :: p))); [intros; by apply (new_or_changed_hit _ _ _ _ _ _ _ _ E)|done].
        - unfold new_or_changed in I, C. rewrite (find_path_miss _ _ _ _ _ _ E) in I, C. cbn [parent_known] in I, C. specialize (C eq_refl).
          assert (Ht : forall p e0, p <> [] -> not_in_old r1 (key_of e :: p) e0 = true).
          { intros p e0 _. unfold not_in_old. by rewrite (find_path_miss _ _ _ _ _ _ E). }
          assert (Hs : sum_where (fun p => not_in_old r1 (key_of e :: p)) ch = sum_where (fun _ _ => true) ch) by (by apply sum_ext).
          rewrite Hs in *. split; [|done]. apply run_inside; [done|done|lia|lia|lia]. }
      destruct (leave_step (run (items ch) s1)) as (R2 & L2 & D2 & I2 & C2); [intros _; by rewrite L1, L|].
      unfold advanced. rewrite R2, L2, D2, I2, I1. split; [lia|]. split; [lia|]. split; [lia|]. split; [|intros; congruence]. rewrite Hi.
      destruct (indirchange s1) eqn:I'; [|done]. rewrite C1, HC by done. cbn [andb]. apply negb_false_iff, Z.eqb_eq. lia.
    - rewrite Hfile in * by done. cbn [run fold_left sum_where] in *. rewrite Z.add_0_r in *.
      assert (Hsame : new_or_changed r1 [key_of e] e = not_in_old r1 [key_of e] e).
      { unfold new_or_changed, not_in_old. destruct (find_path [key_of e] 0 r1) as [[[e1 ?] ?]|]; [|done]. unfold file_changed. by rewrite Ed. }
      pose proof (file_step e s Hn Ed H0) as Hf. cbn zeta in Hf. rewrite Hi, Hself, Hsame in Hf. apply Hf.
      cbn [orb]. destruct (not_in_old r1 [key_of e] e); lia. }
  pose proof Hfirst as (R & L & D & I & C). rewrite Z.add_assoc in *. eapply advanced_trans; [exact Hfirst|].
  apply IHr; [done|congruence|destruct (_ && _); lia|lia|by rewrite L].
Qed.
End Sizes.

(** C10: The size of an incremental backup.  For the lists of an old and a new backup, in
    files whose reads may split the lines anywhere: [diffTrees] returns a difference,
    and [getIncrementalSize] on the new list and this difference returns the sum of the
    sizes of exactly those files that the old list does not have at the same path with
    the same size and time - also in directories that are new as a whole, of which the
    difference has only the first line - as long as this sum fits into 63 bits. *)
Theorem getIncrementalSize_correct {F} `{FileLaws F} (win32 has_symbit is_windows : bool) (os_simple : bytes)
    (lower : bytes -> bytes) (t1 t2 : F) (f1 f2 : forest) :
  is_list t1 f1 -> is_list t2 f2 -> sum_where (not_in_old f1) f2 < 2 ^ 63 ->
  exists r b, diffTrees win32 has_symbit is_windows t1 t2 (Some []) (Some []) (Some []) [] (Some []) = Returns (Some r) /\
    getIncrementalSize os_simple (ret r) false lower t2 = Returns (sum_where (not_in_old f1) f2, b).
Proof.
  intros L1 L2 Hz. eexists _, _. split; [by apply diffTrees_spec|]. destruct L2 as (T & W & _). cbn [ret].
  rewrite (incr_run _ _ _ _ _ _ T (items_ok f2 W)). cbn zeta.
  destruct (run_outside os_simple (lines_where (new_or_changed f1) 0 f2) f2 f1 (mkIncr 0 false 0 0 0 0 false)) as (R & _);
    cbn [rsize line indirchange]; [done|done|lia|lia| |].
  - intros l _. rewrite hasChange_spec by (by apply lines_where_sorted). by rewrite bool_decide_eq_true.
  - unfold run in R. by rewrite R.
Qed.

Lemma getIncrementalSize_correct_witness :
  exists r b, diffTrees false true false (CMemoryFile.mk (text old_list) 0) (CMemoryFile.mk (text new_list) 0)
      (Some []) (Some []) (Some []) [] (Some []) = Returns (Some r) /\
    getIncrementalSize [] (ret r) false (fun b => b) (CMemoryFile.mk (text new_list) 0) = Returns (6, b).
Proof.
  destruct (getIncrementalSize_correct false true false [] (fun b => b) (CMemoryFile.mk (text old_list) 0)
    (CMemoryFile.mk (text new_list) 0) old_list new_list) as (r & b & E & Es).
  - solve_list.
  - solve_list.
  - vm_compute. reflexivity.
  - exists r, b. split; [exact E|]. rewrite Es.
    replace (sum_where (not_in_old old_list) new_list) with 6 by (vm_compute; reflexivity). reflexivity.
Defined.
