(* ===== verification/MemCache.v ===== *)
(** The cache of blocks behind a compressed file: [fsimageplugin/LRUMemCache.cpp].

    The cache holds up to [nbuffers] blocks in memory, the one used longest ago first,
    and hands a block that it gives up to its client, the class
    [ICacheEvictionCallback], at once or through the queue that its threads empty.  A
    buffer belongs to one item at a time, so it is a field of the item; the contents of
    a new buffer are arbitrary ([junk] says what the n-th one holds).  The vectors used
    as stacks, [evictedItems] and [lruItemBuffers], have their back at the head. *)
From S2P Require Import Prelude.

(** [AssertFails]: a failed [assert]; [Crashes]: an access outside a buffer, through a
    null pointer, or a division by zero; [Waits]: the call is waiting for a thread;
    [NoRounds]: the given number of rounds was not enough. *)
Inductive run (A : Type) := Ret (a : A) | AssertFails | Crashes | Waits | NoRounds.
Arguments Ret {A} a.
Arguments AssertFails {A}.
Arguments Crashes {A}.
Arguments Waits {A}.
Arguments NoRounds {A}.
Definition rbind {A B} (m : run A) (k : A -> run B) : run B :=
  match m with Ret a => k a | AssertFails => AssertFails | Crashes => Crashes | Waits => Waits | NoRounds => NoRounds end.
Declare Scope run_scope.
Notation "'let*' x := m 'in' k" := (rbind m (fun x => k)) (at level 200, x pattern, right associativity) : run_scope.
#[global] Open Scope run_scope.

Record SCacheItem := mkItem { buffer : bytes; item_offset : Z }.

Class ICacheEvictionCallback (S : Type) := { evictFromLruCache : SCacheItem -> S -> run S }.

Module LRUMemCache.
(** [working]: the items that threads took from the queue; [allocated]: how many
    buffers were made with [new]. *)
Record t := mk { buffersize : Z; nbuffers : Z; n_threads : Z; lruItems : list SCacheItem; evictedItems : list SCacheItem;
  working : list SCacheItem; lruItemBuffers : list bytes; allocated : nat }.
Definition with_items (l : list SCacheItem) (c : t) : t :=
  mk (buffersize c) (nbuffers c) (n_threads c) l (evictedItems c) (working c) (lruItemBuffers c) (allocated c).
Definition with_evicted (l : list SCacheItem) (c : t) : t :=
  mk (buffersize c) (nbuffers c) (n_threads c) (lruItems c) l (working c) (lruItemBuffers c) (allocated c).
Definition with_working (l : list SCacheItem) (c : t) : t :=
  mk (buffersize c) (nbuffers c) (n_threads c) (lruItems c) (evictedItems c) l (lruItemBuffers c) (allocated c).
Definition with_buffers (l : list bytes) (n : nat) (c : t) : t :=
  mk (buffersize c) (nbuffers c) (n_threads c) (lruItems c) (evictedItems c) (working c) l n.

(** The constructor; of the threads one is the caller. *)
Definition init (buffersize nbuffers n_threads : Z) : t :=
  mk buffersize nbuffers (if 0 <? n_threads then n_threads - 1 else n_threads) [] [] [] [] 0.

(** A pointer into a buffer is the index of its item and the offset in it. *)
Definition hit (c : t) (offset : Z) (it : SCacheItem) : bool :=
  (item_offset it <=? offset) && (offset <? item_offset it + buffersize c).
Fixpoint find_from (c : t) (offset : Z) (i : nat) : option nat :=
  match i with
  | O => None
  | S k => match lruItems c !! k with
           | Some it => if hit c offset it then Some k else find_from c offset k
           | None => find_from c offset k
           end
  end.
Definition find (c : t) (offset : Z) : option (nat * Z) :=
  match find_from c offset (length (lruItems c)) with
  | Some i => match lruItems c !! i with Some it => Some (i, offset - item_offset it) | None => None end
  | None => None
  end.
(** [get] also tells how many bytes there are from there on. *)
Definition get (offset : Z) (c : t) : option ((nat * Z) * Z) :=
  match find c offset with Some (i, inner) => Some ((i, inner), buffersize c - inner) | None => None end.

Definition pointee (p : nat * Z) (c : t) : bytes :=
  match lruItems c !! fst p with Some it => zdrop (snd p) (buffer it) | None => [] end.
(** [memcpy] of the bytes [b] to the pointer. *)
Definition write_buf (p : nat * Z) (b : bytes) (c : t) : run t :=
  if buffersize c <? snd p + zlen b then Crashes
  else Ret (with_items (alter (fun it => mkItem (zsplice (snd p) b (buffer it)) (item_offset it)) (fst p) (lruItems c)) c).

Definition putBack (idx : nat) (c : t) : t :=
  if bool_decide (idx = (length (lruItems c) - 1)%nat) then c
  else match lruItems c !! idx with
       | Some item => with_items (delete idx (lruItems c) ++ [item]) c
       | None => c
       end.

Section Callback.
Context {S : Type} `{ICacheEvictionCallback S} (junk : nat -> bytes).

Definition new_buffer (c : t) : bytes * t :=
  (zresize nul (buffersize c) (junk (allocated c)), with_buffers (lruItemBuffers c) (Datatypes.S (allocated c)) c).
Definition getLruItemBuffer (c : t) : bytes * t :=
  match lruItemBuffers c with
  | ret :: l => (ret, with_buffers l (allocated c) c)
  | [] => new_buffer c
  end.
(** [evict(item, false)] and [evict(item, true)]; the callback is set. *)
Definition evict_keep (item : SCacheItem) (c : t) (s : S) : run (bytes * t * S) :=
  if n_threads c <=? zlen (evictedItems c) then
    let* s := evictFromLruCache item s in Ret (buffer item, c, s)
  else Ret (getLruItemBuffer (with_evicted (item :: evictedItems c) c), s).
Definition evict_delete (item : SCacheItem) (s : S) : run S := evictFromLruCache item s.

(** [offset - offset % buffersize]: the operands are converted to [size_t]. *)
Definition block_start (bs offset : Z) : Z := s64 (w64 offset - w64 offset mod bs).

(** The new item is the last one. *)
Definition createInt (offset : Z) (c : t) (s : S) : run (t * S) :=
  let* (b, c, s) :=
    if nbuffers c <=? zlen (lruItems c) then
      match lruItems c with
      | toremove :: l => let* (b, c, s) := evict_keep toremove c s in Ret (b, with_items l c, s)
      | [] => Crashes
      end
    else Ret (new_buffer c, s) in
  if buffersize c =? 0 then Crashes
  else Ret (with_items (lruItems c ++ [mkItem b (block_start (buffersize c) offset)]) c, s).

Definition create (offset : Z) (c : t) (s : S) : run ((nat * Z) * t * S) :=
  match find c offset with
  | Some p => Ret (p, c, s)
  | None => let* (c, s) := createInt offset c s in Ret ((length (lruItems c) - 1)%nat, 0, c, s)
  end.

Definition put (offset : Z) (b : bytes) (c : t) (s : S) : run (bool * t * S) :=
  match find c offset with
  | Some (i, inner) =>
      if buffersize c - inner <? zlen b then Ret (false, c, s)
      else let* c := write_buf (i, inner) b c in Ret (true, putBack i c, s)
  | None =>
      let* (c, s) := createInt offset c s in
      let inner := offset - block_start (buffersize c) offset in
      if buffersize c - inner <? zlen b then Ret (false, c, s)
      else let* c := write_buf ((length (lruItems c) - 1)%nat, inner) b c in Ret (true, c, s)
  end.

Fixpoint evict_all (l : list SCacheItem) (s : S) : run S :=
  match l with
  | [] => Ret s
  | item :: l => let* s := evict_delete item s in evict_all l s
  end.
(** [waitThreadWork] returns when the threads have nothing left to do. *)
Definition clear (c : t) (s : S) : run (t * S) :=
  match evictedItems c, working c with
  | [], [] => let* s := evict_all (lruItems c) s in Ret (with_items [] c, s)
  | _, _ => Waits
  end.

(** A thread takes an item from the queue; it hands it over and keeps the buffer for
    the cache. *)
Definition take_work (c : t) : option t :=
  match evictedItems c with
  | item :: l => if zlen (working c) <? n_threads c then Some (with_working (item :: working c) (with_evicted l c)) else None
  | [] => None
  end.
Definition finish_work (i : nat) (c : t) (s : S) : option (run (t * S)) :=
  match working c !! i with
  | Some item => Some (let* s := evictFromLruCache item s in
                       Ret (with_buffers (buffer item :: lruItemBuffers c) (allocated c) (with_working (delete i (working c)) c), s))
  | None => None
  end.
End Callback.
End LRUMemCache.
