(* ===== verification/CompressedFile.v ===== *)
(** Compressed image files: [fsimageplugin/CompressedFile.cpp].

    The file is kept in blocks, of which the cache of [MemCache.v] holds a few; a block
    that the cache gives up is compressed and appended to the backing file.  The table
    of the blocks' places, the index, and the header are written by [finish].  The
    compressors (zstd, and zlib for older files) are the class [ICodec]; the backing
    file is behind [IFile], whose positioned calls are a [Seek] and a call.

    The buffers for compressed data are only told apart by being in use; a failed call
    does not give its buffer back.  Sizes of files stay below 2^63. *)
From S2P Require Import Prelude MemFile MemCache.

(** [ZSTD_compress] into a buffer of the given size; [None] is an error.  A decompressor
    gets source and destination buffer and yields the number of bytes, or an error, and
    what the destination holds afterwards. *)
Class ICodec := {
  ZSTD_compress : bytes -> Z -> option bytes;
  ZSTD_decompress : bytes -> bytes -> option Z * bytes;
  mz_uncompress : bytes -> bytes -> option Z * bytes;
  ZSTD_compressBound : Z -> Z;
  mz_compressBound : Z -> Z }.

Definition c_cacheBuffersize : Z := 2 * 1024 * 1024.
Definition c_ncacheItems : Z := 5.
Definition c_blockbufHeadersize : Z := 2 * 4.
Definition headerMagic : bytes := str "URBACKUP COMPRESSED FILE#".
Definition headerVersionV1_0 : bytes := str "1.0".
Definition headerVersionV1_1 : bytes := str "1.1".
Definition mode_none : Z := 0.
Definition mode_zlib : Z := 1.
Definition mode_zstd : Z := 2.
(** Both strings count with their terminating zero. *)
Definition c_header_size : Z := (zlen headerMagic + 1) + (zlen headerVersionV1_0 + 1) + 8 + 8 + 4.

Module CompressedFile.
(** All members but the cache.  [compressedBuffers]: which of the buffers are free. *)
Record own {F : Type} := mkOwn { filesize : Z; index_offset : Z; blocksize : Z; currentPosition : Z;
  blockOffsets : list Z; numBlockOffsets : Z; uncompressedFile : F; uncompressedFileSize : Z;
  compressedBuffers : list bool; compressedBufferSize : Z; error : bool; finished : bool; readOnly : bool; noMagic : bool }.
Arguments own : clear implicits.
Record t {F : Type} := mk { hotCache : option LRUMemCache.t; members : own F }.
Arguments t : clear implicits.

Section Setters.
Context {F : Type}.
Implicit Types (s : own F).
Definition with_file (f : F) s : own F :=
  mkOwn _ (filesize s) (index_offset s) (blocksize s) (currentPosition s) (blockOffsets s) (numBlockOffsets s) f
    (uncompressedFileSize s) (compressedBuffers s) (compressedBufferSize s) (error s) (finished s) (readOnly s) (noMagic s).
Definition with_error (b : bool) s : own F :=
  mkOwn _ (filesize s) (index_offset s) (blocksize s) (currentPosition s) (blockOffsets s) (numBlockOffsets s) (uncompressedFile s)
    (uncompressedFileSize s) (compressedBuffers s) (compressedBufferSize s) b (finished s) (readOnly s) (noMagic s).
Definition with_buffers (l : list bool) s : own F :=
  mkOwn _ (filesize s) (index_offset s) (blocksize s) (currentPosition s) (blockOffsets s) (numBlockOffsets s) (uncompressedFile s)
    (uncompressedFileSize s) l (compressedBufferSize s) (error s) (finished s) (readOnly s) (noMagic s).
Definition with_buffer_size (n : Z) s : own F :=
  mkOwn _ (filesize s) (index_offset s) (blocksize s) (currentPosition s) (blockOffsets s) (numBlockOffsets s) (uncompressedFile s)
    (uncompressedFileSize s) (compressedBuffers s) n (error s) (finished s) (readOnly s) (noMagic s).
Definition with_file_size (n : Z) s : own F :=
  mkOwn _ (filesize s) (index_offset s) (blocksize s) (currentPosition s) (blockOffsets s) (numBlockOffsets s) (uncompressedFile s)
    n (compressedBuffers s) (compressedBufferSize s) (error s) (finished s) (readOnly s) (noMagic s).
Definition with_index (l : list Z) (n : Z) s : own F :=
  mkOwn _ (filesize s) (index_offset s) (blocksize s) (currentPosition s) l n (uncompressedFile s)
    (uncompressedFileSize s) (compressedBuffers s) (compressedBufferSize s) (error s) (finished s) (readOnly s) (noMagic s).
Definition with_index_offset (n : Z) s : own F :=
  mkOwn _ (filesize s) n (blocksize s) (currentPosition s) (blockOffsets s) (numBlockOffsets s) (uncompressedFile s)
    (uncompressedFileSize s) (compressedBuffers s) (compressedBufferSize s) (error s) (finished s) (readOnly s) (noMagic s).
Definition with_position (n : Z) s : own F :=
  mkOwn _ (filesize s) (index_offset s) (blocksize s) n (blockOffsets s) (numBlockOffsets s) (uncompressedFile s)
    (uncompressedFileSize s) (compressedBuffers s) (compressedBufferSize s) (error s) (finished s) (readOnly s) (noMagic s).
Definition with_filesize (n : Z) s : own F :=
  mkOwn _ n (index_offset s) (blocksize s) (currentPosition s) (blockOffsets s) (numBlockOffsets s) (uncompressedFile s)
    (uncompressedFileSize s) (compressedBuffers s) (compressedBufferSize s) (error s) (finished s) (readOnly s) (noMagic s).
Definition with_finished (b : bool) s : own F :=
  mkOwn _ (filesize s) (index_offset s) (blocksize s) (currentPosition s) (blockOffsets s) (numBlockOffsets s) (uncompressedFile s)
    (uncompressedFileSize s) (compressedBuffers s) (compressedBufferSize s) (error s) b (readOnly s) (noMagic s).
Definition with_no_magic (b : bool) s : own F :=
  mkOwn _ (filesize s) (index_offset s) (blocksize s) (currentPosition s) (blockOffsets s) (numBlockOffsets s) (uncompressedFile s)
    (uncompressedFileSize s) (compressedBuffers s) (compressedBufferSize s) (error s) (finished s) (readOnly s) b.
Definition with_header (io fs bs : Z) s : own F :=
  mkOwn _ fs io bs (currentPosition s) (blockOffsets s) (numBlockOffsets s) (uncompressedFile s)
    (uncompressedFileSize s) (compressedBuffers s) (compressedBufferSize s) (error s) (finished s) (readOnly s) (noMagic s).
Definition with_members (s : own F) (c : t F) : t F := mk _ (hotCache c) s.
End Setters.

Section Code.
Context {F : Type} `{IFile F} `{ICodec}.
Implicit Types (s : own F) (c : t F).

(** ** The backing file *)

(** The bytes read, and whether an error was reported. *)
Fixpoint read_from (rounds : nat) (offset n : Z) (f : F) : bytes * bool * F :=
  match rounds with
  | O => ([], false, f)
  | S k =>
      let '((b, e), f) := MemFile.Read (snd (MemFile.Seek f offset)) n in
      if zlen b <=? 0 then ([], e, f)
      else if zlen b <? n then
        let '(b', e', f) := read_from k (offset + zlen b) (n - zlen b) f in (b ++ b', e || e', f)
      else (b, e, f)
  end.
Definition readFromFile (offset n : Z) s : bytes * bool * own F :=
  let '(b, e, f) := read_from (S (Z.to_nat n)) offset n (uncompressedFile s) in (b, e, with_file f s).

(** The number of bytes written. *)
Fixpoint write_to (rounds : nat) (offset : Z) (b : bytes) (f : F) : Z * F :=
  match rounds with
  | O => (0, f)
  | S k =>
      let '((w, _), f) := MemFile.Write (snd (MemFile.Seek f offset)) b in
      if w <=? 0 then (0, f)
      else if w <? zlen b then
        let '(w', f) := write_to k (offset + w) (zdrop w b) f in (w + w', f)
      else (w, f)
  end.
Definition writeToFile (offset : Z) (b : bytes) s : Z * own F :=
  let '(w, f) := write_to (S (length b)) offset b (uncompressedFile s) in (w, with_file f s).

(** ** Header and index *)

(** [pad]: the last byte of the array, which is not set. *)
Definition header_bytes (pad : char) s : bytes :=
  headerMagic ++ (headerVersionV1_1 ++ [nul]) ++ le_bytes 8 (w64 (index_offset s)) ++ le_bytes 8 (w64 (filesize s))
    ++ le_bytes 4 (blocksize s) ++ [pad].
Definition writeHeader (pad : char) s : own F :=
  let '(w, s) := writeToFile 0 (header_bytes pad s) s in
  if negb (w =? c_header_size) then with_error true s else s.

Definition index_bytes (l : list Z) : bytes := concat (map (fun o => le_bytes 8 (w64 o)) l).
Fixpoint index_of (n : nat) (b : bytes) : list Z :=
  match n with O => [] | S k => s64 (le_val (ztake 8 b)) :: index_of k (zdrop 8 b) end.

Definition writeIndex s : run (own F) :=
  let s := with_index_offset (Size (uncompressedFile s)) s in
  if bool_decide (blockOffsets s = []) then Ret s
  else if zlen (blockOffsets s) <? numBlockOffsets s then AssertFails
  else
    let nOffsetBytes := w32 (8 * numBlockOffsets s) in
    let '(w, s) := writeToFile (index_offset s) (ztake nOffsetBytes (index_bytes (blockOffsets s))) s in
    Ret (if negb (w =? nOffsetBytes) then with_error true s else s).

Definition readIndex s : run (own F) :=
  if blocksize s =? 0 then Crashes
  else
    let nOffsetItems := w64 (Z.quot (filesize s) (blocksize s) + (if Z.rem (filesize s) (blocksize s) =? 0 then 0 else 1)) in
    if nOffsetItems =? 0 then Ret (with_error true s)
    else
      let n := w32 (w64 (8 * nOffsetItems)) in
      let '(b, e, s) := readFromFile (index_offset s) n s in
      let s := with_index (index_of (Z.to_nat nOffsetItems) (zresize nul (8 * nOffsetItems) b)) nOffsetItems s in
      let s := if e then with_error true s else s in
      Ret (if negb (zlen b =? w64 (8 * nOffsetItems)) then with_error true s else s).

(** [next(header, 0, headerMagic)] *)
Definition starts_with (b p : bytes) : bool := bool_decide (ztake (zlen p) b = p).
Definition readHeader (nthreads : Z) s : run (t F) :=
  let '(h, e, s) := readFromFile 0 c_header_size s in
  let s := if e then with_error true s else s in
  if negb (zlen h =? c_header_size) then Ret (mk _ None (with_error true s))
  else if negb (starts_with h headerMagic) then Ret (mk _ None (with_no_magic true (with_error true s)))
  else
    let v := zsub (zlen headerMagic) 3 h in
    if negb (bool_decide (v = headerVersionV1_0)) && negb (bool_decide (v = headerVersionV1_1)) then Ret (mk _ None (with_error true s))
    else
      let o := zlen headerMagic + 4 in
      let s := with_header (s64 (le_val (zsub o 8 h))) (s64 (le_val (zsub (o + 8) 8 h))) (le_val (zsub (o + 16) 4 h)) s in
      let* s' := readIndex s in
      Ret (mk _ (Some (LRUMemCache.init (blocksize s) c_ncacheItems nthreads)) s').

(** ** Writing a block *)

Fixpoint getCompressedBuffer (l : list bool) : option nat :=
  match l with
  | [] => None
  | true :: _ => Some 0%nat
  | false :: l => match getCompressedBuffer l with Some i => Some (S i) | None => None end
  end.

Definition block_data (z : bytes) : bytes := le_bytes 4 (w32 (zlen z)) ++ le_bytes 4 mode_zstd ++ z.
(** The index with the entry of a block set; it is doubled when it is too short. *)
Definition index_set (l : list Z) (block offset : Z) : list Z :=
  zset (if zlen l <=? block then zresize (-1) ((block + 1) * 2) l else l) block offset.

Definition evictFromLruCache (item : SCacheItem) s : run (own F) :=
  if readOnly s then Ret s
  else
    match getCompressedBuffer (compressedBuffers s) with
    | None => AssertFails
    | Some i =>
        let s := with_buffers (<[i := false]> (compressedBuffers s)) s in
        match ZSTD_compress (buffer item) (compressedBufferSize s - c_blockbufHeadersize) with
        | None => Ret (with_error true s)
        | Some z =>
            let blockOffset := uncompressedFileSize s in
            let s := with_file_size (blockOffset + (c_blockbufHeadersize + zlen z)) s in
            let n := w32 (c_blockbufHeadersize + zlen z) in
            let '(w, s) := writeToFile blockOffset (ztake n (block_data z)) s in
            if negb (w =? n) then Ret (with_error true s)
            else if blocksize s =? 0 then Crashes
            else
              let s := with_buffers (<[i := true]> (compressedBuffers s)) s in
              let blockIdx := w64 (Z.quot (item_offset item) (blocksize s)) in
              Ret (with_index (index_set (blockOffsets s) blockIdx blockOffset) (Z.max (numBlockOffsets s) (blockIdx + 1)) s)
        end
    end.
#[global] Instance eviction : ICacheEvictionCallback (own F) := {| MemCache.evictFromLruCache := evictFromLruCache |}.

Definition initCompressedBuffers (n_init : Z) s : own F :=
  let n := mz_compressBound (blocksize s) + c_blockbufHeadersize in
  let csize := ZSTD_compressBound (blocksize s) * 2 in
  let n := if n <? csize + c_blockbufHeadersize then csize + c_blockbufHeadersize else n in
  with_buffers (compressedBuffers s ++ replicate (Z.to_nat n_init) true) (with_buffer_size n s).

(** ** Reading and writing *)

Context (junk : nat -> bytes).

(** The block at [offset] is decompressed from the place [off] into the buffer [p];
    whether that succeeded, and whether the backing file reported an error. *)
Definition fill_buffer (offset off : Z) (p : nat * Z) (h : LRUMemCache.t) s : run (bool * bool * LRUMemCache.t * own F) :=
  let '(hd, e, s) := readFromFile off 8 s in
  if negb (zlen hd =? 8) then Ret (false, e, h, s)
  else
    let compressedSize := le_val (ztake 4 hd) in
    let mode := le_val (zdrop 4 hd) in
    if mode =? mode_none then
      if blocksize s <? compressedSize then Ret (false, e, h, s)
      else
        let '(b, e', s) := readFromFile (off + c_blockbufHeadersize) compressedSize s in
        let* h := LRUMemCache.write_buf p b h in
        Ret (zlen b =? compressedSize, e || e', h, s)
    else
      let '(z, e', s) := readFromFile (off + c_blockbufHeadersize) compressedSize s in
      let e := e || e' in
      if negb (zlen z =? compressedSize) then Ret (false, e, h, s)
      else
        let dst := ztake (blocksize s) (LRUMemCache.pointee p h) in
        if mode =? mode_zlib then
          let '(r, b) := mz_uncompress z dst in
          let* h := LRUMemCache.write_buf p b h in
          match r with
          | None => Ret (false, e, h, s)
          | Some rdecomp => Ret (negb (negb (rdecomp =? blocksize s) && (offset + blocksize s <? filesize s)), e, h, s)
          end
        else if mode =? mode_zstd then
          let '(r, b) := ZSTD_decompress z dst in
          let* h := LRUMemCache.write_buf p b h in
          Ret (match r with Some _ => true | None => false end, e, h, s)
        else Ret (false, e, h, s).

Definition fillCache (offset : Z) c : run (bool * bool * t F) :=
  let s := members c in
  match hotCache c with
  | None => Crashes
  | Some h =>
      if blocksize s =? 0 then Crashes
      else
        let block := w64 (Z.quot offset (blocksize s)) in
        if zlen (blockOffsets s) <=? block then Ret (false, false, c)
        else
          let* (p, h, s) := LRUMemCache.create junk offset h s in
          if error s then Ret (false, false, mk _ (Some h) s)
          else
            let off := znth (-1) (blockOffsets s) block in
            if off =? -1 then
              let* h := LRUMemCache.write_buf p (replicate (Z.to_nat (blocksize s)) nul) h in
              Ret (true, false, mk _ (Some h) s)
            else
              let* (ok, e, h, s) := fill_buffer offset off p h s in
              Ret (ok, e, mk _ (Some h) s)
  end.

(** [Seek] *)
Definition Seek (spos : Z) c : run (t F) :=
  if finished (members c) then AssertFails else Ret (with_members (with_position spos (members c)) c).

Definition cache_get (offset : Z) c : option ((nat * Z) * Z) :=
  match hotCache c with Some h => LRUMemCache.get offset h | None => None end.
Definition cache_bytes (p : nat * Z) c : bytes :=
  match hotCache c with Some h => LRUMemCache.pointee p h | None => [] end.
(** The pointer into the cache that [Read] takes, after filling the cache if needed. *)
Definition lookup_block (pos : Z) c : run (option ((nat * Z) * Z) * bool * t F) :=
  match cache_get pos c with
  | Some p => Ret (Some p, false, c)
  | None => let* (ok, e, c) := fillCache pos c in Ret (if ok : bool then cache_get pos c else None, e, c)
  end.
(** The bytes stored into the caller's buffer, and whether an error was reported. *)
Fixpoint read_loop (rounds : nat) (n : Z) c : run (bytes * bool * t F) :=
  match rounds with
  | O => NoRounds
  | S k =>
      if finished (members c) then AssertFails
      else if bool_decide (hotCache c = None) then Crashes
      else
        let* (hit, e, c) := lookup_block (currentPosition (members c)) c in
        match hit with
        | None => Ret ([], e, c)
        | Some (p, cacheSize) =>
            let s := members c in
            let canRead := Z.min n cacheSize in
            let canRead := if filesize s <? currentPosition s + canRead then w64 (filesize s - currentPosition s) else canRead in
            if canRead =? 0 then Ret ([], e, c)
            else if (cacheSize <? canRead) || (n <? canRead) then Crashes
            else
              let b := ztake canRead (cache_bytes p c) in
              let c := with_members (with_position (currentPosition s + canRead) s) c in
              if canRead <? n then let* (b', _, c) := read_loop k (n - canRead) c in Ret (b ++ b', e, c)
              else Ret (b, e, c)
        end
  end.
Definition Read (n : Z) c : run (bytes * bool * t F) := read_loop (S (Z.to_nat n)) n c.
Definition ReadAt (spos n : Z) c : run (bytes * bool * t F) := let* c := Seek spos c in Read n c.
(** [Read(tr)]: a string, which is empty unless all bytes could be read. *)
Definition Read_string (tr : Z) c : run (bytes * bool * t F) :=
  if finished (members c) then AssertFails
  else if tr =? 0 then Ret ([], false, c)
  else let* (b, e, c) := Read tr c in Ret (if zlen b =? tr then b else [], e, c).

Definition cache_put (offset : Z) (b : bytes) c : run (t F) :=
  match hotCache c with
  | Some h => let* (_, h, s) := LRUMemCache.put junk offset b h (members c) in Ret (mk _ (Some h) s)
  | None => Crashes
  end.
(** The number of bytes written, and whether an error was reported. *)
Fixpoint write_loop (rounds : nat) (b : bytes) c : run (Z * bool * t F) :=
  match rounds with
  | O => NoRounds
  | S k =>
      let s := members c in
      if finished s then AssertFails
      else if (blocksize s =? 0) || bool_decide (hotCache c = None) then Crashes
      else
        let pos := currentPosition s in
        let maxWrite := w32 ((Z.quot pos (blocksize s) + 1) * blocksize s - pos) in
        let write := if maxWrite <? zlen b then maxWrite else zlen b in
        let* (e, c) := match cache_get pos c with
                       | Some _ => Ret (false, c)
                       | None => let* (_, e, c) := fillCache pos c in Ret (e, c)
                       end in
        if error (members c) then Ret (0, e, with_members (with_error false (members c)) c)
        else
          let* c := cache_put pos (ztake write b) c in
          let s := with_position (currentPosition (members c) + write) (members c) in
          if error s then Ret (0, e, with_members (with_error false s) c)
          else
            let c := with_members (if filesize s <? currentPosition s then with_filesize (currentPosition s) s else s) c in
            if maxWrite <? zlen b then let* (n, _, c) := write_loop k (zdrop write b) c in Ret (w32 (write + n), e, c)
            else Ret (write, e, c)
  end.
Definition Write (b : bytes) c : run (Z * bool * t F) := write_loop (S (length b)) b c.
Definition WriteAt (spos : Z) (b : bytes) c : run (Z * bool * t F) := let* c := Seek spos c in Write b c.

Definition Size c : Z := filesize (members c).
Definition RealSize c : Z := MemFile.Size (uncompressedFile (members c)).
Definition PunchHole (spos size : Z) c : bool := false.
Definition hasError c : bool := error (members c).
Definition hasNoMagic c : bool := noMagic (members c).

(** ** Opening and closing *)

(** [file_Sync]: the [Sync()] of the backing file. *)
Context (file_Sync : F -> bool * F) (pad : char).

Definition finish c : run (bool * t F) :=
  if finished (members c) then AssertFails
  else
    let* c := match hotCache c with
              | Some h => let* (h, s) := LRUMemCache.clear h (members c) in Ret (mk _ (Some h) s)
              | None => Ret c
              end in
    let* s := if readOnly (members c) then Ret (members c)
              else
                let* s := writeIndex (members c) in
                let s := writeHeader pad s in
                let '(ok, f) := file_Sync (uncompressedFile s) in
                let s := with_file f s in
                Ret (if ok : bool then s else with_error true s) in
    if error s then Ret (false, with_members (with_error false s) c)
    else Ret (true, with_members (with_finished true s) c).
Definition Sync c : run (bool * t F) := finish c.

(** [CompressedFile(file, openExisting, readOnly, n_threads)]; [index0]: what
    [index_offset], which is not set, holds at first. *)
Definition CompressedFile (index0 : Z) (f : F) (openExisting ro : bool) (nthreads : Z) : run (t F) :=
  let s := mkOwn _ 0 index0 0 0 [] 0 f 0 [] 0 false false ro false in
  let* c :=
    if openExisting then readHeader nthreads s
    else
      let s := with_header index0 0 c_cacheBuffersize s in
      let s := writeHeader pad s in
      Ret (mk _ (Some (LRUMemCache.init c_cacheBuffersize c_ncacheItems nthreads)) (initCompressedBuffers (nthreads + 1) s)) in
  Ret (with_members (with_file_size (MemFile.Size (uncompressedFile (members c))) (members c)) c).

(** The destructor clears the cache before it finishes the file. *)
Definition destroy c : run (t F) :=
  let* c := match hotCache c with
            | Some h => let* (_, s) := LRUMemCache.clear h (members c) in Ret (mk _ None s)
            | None => Ret c
            end in
  if finished (members c) then Ret c else let* (_, c) := finish c in Ret c.
End Code.
End CompressedFile.
