(* ===== verification/MemCacheSpec.v ===== *)
(** What the block cache promises a client that keeps what it is handed. *)
From stdpp Require Import gmap.
From S2P Require Import Prelude MemCache.
Import LRUMemCache.

(** What is known later: the same, and maybe more. *)
Definition grows (v v' : Z -> option bytes) : Prop := forall o b, v o = Some b -> v' o = Some b.
#[export] Instance grows_pre : PreOrder grows.
Proof. split; [by intros v o b|]. intros u v w H1 H2 o b E. by apply H2, H1. Qed.

(** A client knows blocks by their offset.  [evictable]: what it can be handed;
    [same_client]: what being handed a block does not touch. *)
Class EvictionLaws (S : Type) `{ICacheEvictionCallback S} := {
  kept : S -> Z -> option bytes;
  client_ok : S -> Prop;
  evictable : S -> SCacheItem -> Prop;
  same_client : relation S;
  same_client_pre :: PreOrder same_client;
  evict_law : forall it s, client_ok s -> evictable s it -> exists s', MemCache.evictFromLruCache it s = Ret s' /\ client_ok s' /\
    same_client s s' /\ kept s' (item_offset it) = Some (buffer it) /\ (forall o b, o <> item_offset it -> kept s o = Some b -> kept s' o = Some b) /\
    (forall it', item_offset it' <> item_offset it -> evictable s it' -> evictable s' it') }.

(** ** Lists of items *)

Notation offsets l := (item_offset <$> l).
Definition items_map (l : list SCacheItem) : gmap Z bytes := list_to_map ((fun it => (item_offset it, buffer it)) <$> l).

(** The start of a block, where nothing wraps. *)
Definition start (bs o : Z) : Z := o - o mod bs.
Lemma start_spec bs o : 0 < bs -> 0 <= o -> 0 <= start bs o <= o /\ o < start bs o + bs /\ start bs o mod bs = 0 /\ start bs o = bs * (o / bs).
Proof.
  intros Hb Ho. unfold start. pose proof (Z.div_mod o bs). pose proof (Z.mod_pos_bound o bs). assert (0 <= o / bs) by (apply Z.div_pos; lia).
  assert (E : o - o mod bs = bs * (o / bs)) by lia. rewrite E. repeat split; try nia. rewrite Z.mul_comm. apply Z.mod_mul. lia.
Qed.
Lemma start_unique bs o x : 0 < bs -> x mod bs = 0 -> x <= o < x + bs -> start bs o = x.
Proof.
  intros Hb Hx Ho. unfold start. pose proof (Z.div_mod x bs). assert (o mod bs = o - x); [|lia].
  symmetry. apply Z.mod_unique_pos with (x / bs); lia.
Qed.
Lemma block_start_spec bs o : 0 < bs -> 0 <= o < 2 ^ 63 -> block_start bs o = start bs o.
Proof.
  intros Hb Ho. destruct (start_spec bs o Hb (proj1 Ho)) as (H1 & _). unfold block_start, start in *. rewrite w64_id by lia. apply s64_id. lia.
Qed.

Section Items.
Context {S : Type} `{EvictionLaws S}.
Implicit Types (c : t) (s : S) (l : list SCacheItem).

Definition item_ok (bs : Z) (it : SCacheItem) : Prop := zlen (buffer it) = bs /\ 0 <= item_offset it < 2 ^ 49 /\ item_offset it mod bs = 0.
Record items_inv (bs : Z) l s : Prop := {
  in_ok : Forall (item_ok bs) l;
  in_nodup : NoDup (offsets l);
  in_evict : Forall (evictable s) l }.
(** The block at an offset: in an item or with the client. *)
Definition lview l s (o : Z) : option bytes := match items_map l !! o with Some b => Some b | None => kept s o end.

Lemma items_inv_perm bs l l' s : Permutation l l' -> items_inv bs l s -> items_inv bs l' s.
Proof. intros P [H1 H2 H3]. split; by rewrite <- P. Qed.
Lemma lview_perm l l' s o : NoDup (offsets l) -> Permutation l l' -> lview l' s o = lview l s o.
Proof.
  intros Hn P. unfold lview, items_map.
  erewrite (list_to_map_proper (M := gmap Z)); [done| |by rewrite P]. rewrite <- list_fmap_compose. by rewrite <- P.
Qed.
Lemma items_inv_cons bs it l s : items_inv bs (it :: l) s <-> items_inv bs l s /\ item_ok bs it /\ item_offset it ∉ offsets l /\ evictable s it.
Proof.
  split.
  - intros [[? ?]%Forall_cons [? ?]%NoDup_cons [? ?]%Forall_cons]. done.
  - intros ([H1 H2 H3] & ? & ? & ?). split; [by constructor|cbn; by constructor|by constructor].
Qed.
Lemma lview_cons it l s o : lview (it :: l) s o = if decide (o = item_offset it) then Some (buffer it) else lview l s o.
Proof.
  unfold lview, items_map. cbn [fmap list_fmap list_to_map foldr fst snd uncurry]. destruct (decide (o = item_offset it)) as [->|Hne].
  - by rewrite lookup_insert_eq.
  - by rewrite lookup_insert_ne by congruence.
Qed.
Lemma lview_notin l s o : o ∉ offsets l -> lview l s o = kept s o.
Proof.
  intros Hn. unfold lview, items_map. rewrite (not_elem_of_list_to_map_1 (M := gmap Z)); [done|]. by rewrite <- list_fmap_compose.
Qed.

(** Handing over an item leaves the view of the others. *)
Lemma evict_spec bs it l s : client_ok s -> items_inv bs (it :: l) s -> exists s', MemCache.evictFromLruCache it s = Ret s' /\
  client_ok s' /\ same_client s s' /\ items_inv bs l s' /\ grows (lview (it :: l) s) (lview l s') /\
  forall o b, o <> item_offset it -> kept s o = Some b -> kept s' o = Some b.
Proof.
  intros C (I & Ho & Hn & He)%items_inv_cons. destruct (evict_law it s C He) as (s' & E & C' & Hs & K & K' & He').
  exists s'. split; [done|]. split; [done|]. split; [done|]. destruct I as [I1 I2 I3]. split; [|split].
  - split; [done|done|]. apply Forall_forall. intros x Hx. apply He'; [|by apply (proj1 (Forall_forall _ _) I3)].
    intros E'. apply Hn. rewrite <- E'. by apply list_elem_of_fmap_2.
  - intros o b. rewrite lview_cons. destruct (decide (o = item_offset it)) as [->|Hne].
    + intros [= <-]. by rewrite lview_notin.
    + unfold lview. destruct (items_map l !! o); [done|]. by apply K'.
  - done.
Qed.

(** ** The cache *)

Definition all_items c : list SCacheItem := lruItems c ++ evictedItems c ++ working c.
Definition view c s (o : Z) : option bytes := lview (all_items c) s o.
Record cache_inv c s : Prop := {
  ci_size : 0 < buffersize c < 2 ^ 32;
  ci_nbuffers : 0 < nbuffers c;
  ci_free : Forall (fun b => zlen b = buffersize c) (lruItemBuffers c);
  ci_client : client_ok s;
  ci_items : items_inv (buffersize c) (all_items c) s }.
Definition config c : Z * Z * Z := (buffersize c, nbuffers c, n_threads c).
(** Without threads nothing waits. *)
Definition idle c : Prop := n_threads c = 0 /\ evictedItems c = [] /\ working c = [].

Lemma find_from_spec c o n : (forall i it, lruItems c !! i = Some it -> (i < n)%nat -> item_ok (buffersize c) it) -> 0 < buffersize c ->
  match find_from c o n with
  | Some i => exists it, lruItems c !! i = Some it /\ item_offset it = start (buffersize c) o
  | None => forall i it, lruItems c !! i = Some it -> (i < n)%nat -> item_offset it <> start (buffersize c) o
  end.
Proof.
  intros Hok Hb. induction n as [|n IH]; cbn [find_from]; [lia|].
  assert (IHn := IH ltac:(intros; eapply Hok; eauto)).
  destruct (lruItems c !! n) as [it|] eqn:E.
  - destruct (Hok _ _ E ltac:(lia)) as (_ & H1 & H2). destruct (hit c o it) eqn:Hh; unfold hit in Hh.
    + exists it. split; [done|]. symmetry. apply start_unique; lia.
    + destruct (find_from c o n) as [i|]; [done|]. intros i it' E' Hi. destruct (decide (i = n)) as [->|]; [|apply (IHn i); [done|lia]].
      rewrite E in E'. injection E' as <-. intros Es. pose proof (Z.mod_pos_bound o (buffersize c)). unfold start in Es. lia.
  - destruct (find_from c o n) as [i|]; [done|]. intros i it' E' Hi. destruct (decide (i = n)) as [->|]; [by rewrite E in E'|]. apply (IHn i); [done|lia].
Qed.

Lemma all_lru c it : it ∈ lruItems c -> it ∈ all_items c.
Proof. intros. unfold all_items. apply elem_of_app. by left. Qed.

Lemma lru_ok c s i it : cache_inv c s -> lruItems c !! i = Some it -> item_ok (buffersize c) it.
Proof.
  intros I E. apply (proj1 (Forall_forall _ _) (in_ok _ _ _ (ci_items _ _ I))). apply all_lru. by eapply list_elem_of_lookup_2.
Qed.

Lemma find_spec c s o : cache_inv c s -> 0 <= o ->
  match find c o with
  | Some (i, inner) => exists it, lruItems c !! i = Some it /\ item_offset it = start (buffersize c) o /\ inner = o mod buffersize c
  | None => start (buffersize c) o ∉ offsets (lruItems c)
  end.
Proof.
  intros I Ho. unfold find. assert (Hf := find_from_spec c o (length (lruItems c)) (fun i it E _ => lru_ok c s i it I E) (proj1 (ci_size _ _ I))).
  destruct (find_from c o (length (lruItems c))) as [i|].
  - destruct Hf as (it & E & Es). rewrite E. exists it. split; [done|]. split; [done|]. unfold start in Es. lia.
  - intros Hin. apply list_elem_of_fmap_1 in Hin as (it & Es & [i Ei]%list_elem_of_lookup_1). exact (Hf i it Ei (lookup_lt_Some _ _ _ Ei) (eq_sym Es)).
Qed.

(** Replacing an item. *)
Lemma all_items_at c i it : lruItems c !! i = Some it -> exists r, Permutation (all_items c) (it :: r) /\
  forall it', Permutation (all_items (with_items (<[i := it']> (lruItems c)) c)) (it' :: r).
Proof.
  intros E. exists (take i (lruItems c) ++ drop (Datatypes.S i) (lruItems c) ++ evictedItems c ++ working c). unfold all_items, with_items; cbn. split.
  - rewrite <- (take_drop_middle _ _ _ E) at 1. rewrite <- !app_assoc. cbn [app]. symmetry. apply Permutation_middle.
  - intros it'. rewrite insert_take_drop by (by apply lookup_lt_Some in E). rewrite <- !app_assoc. cbn [app]. symmetry. apply Permutation_middle.
Qed.
Lemma cache_inv_perm c l s : cache_inv c s -> Permutation (all_items (with_items l c)) (all_items c) ->
  cache_inv (with_items l c) s /\ forall o, view (with_items l c) s o = view c s o.
Proof.
  intros I P. destruct I as [? ? ? ? Hi]. split.
  - split; try done. cbn. apply (items_inv_perm _ (all_items c)); [by symmetry|done].
  - intros o. apply lview_perm; [apply Hi|by symmetry].
Qed.

Lemma set_item_spec c s i it b : cache_inv c s -> lruItems c !! i = Some it -> zlen b = buffersize c -> evictable s (mkItem b (item_offset it)) ->
  let c' := with_items (<[i := mkItem b (item_offset it)]> (lruItems c)) c in
  cache_inv c' s /\ forall o, view c' s o = if decide (o = item_offset it) then Some b else view c s o.
Proof.
  intros [H1 H2 H3 H4 Hi] E Hb He c'. destruct (all_items_at c i it E) as (r & P & P').
  pose proof (items_inv_perm _ _ _ _ P Hi) as (Ir & Hok & Hn & _)%items_inv_cons.
  assert (I' : items_inv (buffersize c) (mkItem b (item_offset it) :: r) s).
  { apply items_inv_cons. split; [done|]. split; [|done]. destruct Hok as (_ & ?). by split. }
  specialize (P' (mkItem b (item_offset it))). fold c' in P'. split.
  - split; try done. eapply items_inv_perm; [symmetry; exact P'|exact I'].
  - intros o. unfold view. rewrite (lview_perm _ _ s o (in_nodup _ _ _ I') (Permutation_sym P')).
    rewrite <- (lview_perm _ _ s o (in_nodup _ _ _ Hi) P). rewrite !lview_cons. cbn [item_offset buffer]. by case_decide.
Qed.

(** A new item. *)
Lemma push_item_spec c s b o : cache_inv c s -> o ∉ offsets (all_items c) -> 0 <= o < 2 ^ 49 -> o mod buffersize c = 0 -> zlen b = buffersize c ->
  evictable s (mkItem b o) -> let c' := with_items (lruItems c ++ [mkItem b o]) c in
  cache_inv c' s /\ forall o', view c' s o' = if decide (o' = o) then Some b else view c s o'.
Proof.
  intros [H1 H2 H3 H4 Hi] Hn Ho Hm Hb He c'.
  assert (P : Permutation (all_items c') (mkItem b o :: all_items c)).
  { unfold all_items, c'; cbn. rewrite <- app_assoc. cbn [app]. symmetry. apply Permutation_middle. }
  assert (I' : items_inv (buffersize c) (mkItem b o :: all_items c) s) by (by apply items_inv_cons).
  split.
  - split; try done. eapply items_inv_perm; [symmetry; exact P|exact I'].
  - intros o'. unfold view. rewrite (lview_perm _ _ s o' (in_nodup _ _ _ I') (Permutation_sym P)), lview_cons. done.
Qed.
(** A change of the client that keeps what it holds. *)
Lemma cache_inv_client c s s' : cache_inv c s -> client_ok s' -> (forall o, kept s' o = kept s o) -> (forall it, evictable s it -> evictable s' it) ->
  cache_inv c s' /\ forall o, view c s' o = view c s o.
Proof.
  intros [? ? ? ? [? ? He]] C K E. split.
  - split; try done. split; [done|done|]. by eapply Forall_impl.
  - intros o. unfold view, lview. by rewrite K.
Qed.

Context (junk : nat -> bytes).

(** Space for a new item. *)
Definition make_room c s : run (bytes * t * S) :=
  if nbuffers c <=? zlen (lruItems c) then
    match lruItems c with
    | toremove :: l => let* (b, c, s) := evict_keep junk toremove c s in Ret (b, with_items l c, s)
    | [] => Crashes
    end
  else Ret (new_buffer junk c, s).

Lemma zlen_new_buffer c s : cache_inv c s -> zlen (new_buffer junk c).1 = buffersize c.
Proof. intros I. pose proof (ci_size _ _ I). unfold new_buffer; cbn. apply zlen_zresize. lia. Qed.

(** What making room and new items leave: the settings, the queue where it is not
    used, what the client cannot lose. *)
Record roomy c s c' s' : Prop := {
  ro_config : config c' = config c;
  ro_same : same_client s s';
  ro_queue : n_threads c <= zlen (evictedItems c) -> evictedItems c' = evictedItems c;
  ro_working : working c' = working c;
  ro_async : zlen (evictedItems c) < n_threads c -> s' = s;
  ro_offsets : forall o, o ∈ offsets (all_items c') -> o ∈ offsets (all_items c);
  ro_kept : forall o b, o ∉ offsets (all_items c) -> kept s o = Some b -> kept s' o = Some b;
  ro_view : grows (view c s) (view c' s') }.

Lemma make_room_spec c s : cache_inv c s -> exists b c' s', make_room c s = Ret (b, c', s') /\ zlen b = buffersize c /\ cache_inv c' s' /\ roomy c s c' s'.
Proof.
  intros I. pose proof I as [H1 H2 H3 H4 Hi]. unfold make_room. destruct (Z.leb_spec (nbuffers c) (zlen (lruItems c))) as [Hle|Hlt].
  - destruct (lruItems c) as [|it l] eqn:El; [change (zlen []) with 0 in Hle; lia|]. unfold evict_keep.
    assert (Hit : zlen (buffer it) = buffersize c) by (apply (lru_ok c s 0 it I); by rewrite El).
    destruct (Z.leb_spec (n_threads c) (zlen (evictedItems c))) as [Hs|Hq].
    + assert (Ei : all_items c = it :: (l ++ evictedItems c ++ working c)) by (unfold all_items; by rewrite El). rewrite Ei in Hi.
      destruct (evict_spec _ _ _ _ H4 Hi) as (s' & -> & C' & Hsm & Hi' & Hv & Hk). cbn [rbind].
      exists (buffer it), (with_items l c), s'. split; [done|]. split; [done|]. split; [by split|]. split; try done; [lia|..].
      * intros o. rewrite Ei. unfold all_items; cbn. intros. by right.
      * intros o b Ho. apply Hk. intros ->. apply Ho. rewrite Ei. by left.
      * unfold view. rewrite Ei. exact Hv.
    + assert (P : Permutation (l ++ (it :: evictedItems c) ++ working c) (all_items c)).
      { unfold all_items. rewrite El. cbn [app]. symmetry. apply Permutation_middle. }
      assert (X : forall c', lruItems c' = l -> evictedItems c' = it :: evictedItems c -> working c' = working c -> config c' = config c ->
        Forall (fun b => zlen b = buffersize c) (lruItemBuffers c') -> cache_inv c' s /\ roomy c s c' s).
      { intros c' E1 E2 E3 E4 E5. assert (Ea : all_items c' = l ++ (it :: evictedItems c) ++ working c) by (unfold all_items; by rewrite E1, E2, E3).
        unfold config in E4. injection E4 as E41 E42 E43. split.
        - split; rewrite ?E41, ?E42; try done. rewrite Ea. by apply (items_inv_perm _ _ _ _ (Permutation_sym P)).
        - split; try done; [by unfold config; congruence|lia|by intros o; rewrite Ea, P|]. intros o b E. unfold view in *. rewrite Ea, <- E. apply lview_perm; [apply Hi|by symmetry]. }
      unfold getLruItemBuffer; cbn [lruItemBuffers with_evicted]. destruct (lruItemBuffers c) as [|b bs] eqn:Eb; cbn [rbind].
      * eexists _, _, s. split; [reflexivity|]. split; [cbn; apply zlen_zresize; lia|]. apply X; try done. cbn. by rewrite Eb.
      * eexists _, _, s. apply Forall_cons in H3 as [? ?]. split; [reflexivity|]. split; [done|]. by apply X.
  - eexists _, _, s. split; [reflexivity|]. split; [by eapply zlen_new_buffer|]. split; [by split|]. by split.
Qed.

Lemma createInt_room offset c s : createInt junk offset c s =
  let* (b, c, s) := make_room c s in
  if buffersize c =? 0 then Crashes else Ret (with_items (lruItems c ++ [mkItem b (block_start (buffersize c) offset)]) c, s).
Proof. done. Qed.

(** A new item for a block that is nowhere in the cache, with the contents that it gets. *)
Lemma createInt_spec offset c s : cache_inv c s -> 0 <= offset < 2 ^ 49 -> start (buffersize c) offset ∉ offsets (all_items c) ->
  exists b0 c' s', createInt junk offset c s = Ret (with_items (lruItems c' ++ [mkItem b0 (start (buffersize c) offset)]) c', s') /\
    zlen b0 = buffersize c /\ cache_inv c' s' /\ roomy c s c' s' /\
    forall b, zlen b = buffersize c -> evictable s' (mkItem b (start (buffersize c) offset)) ->
      let c2 := with_items (lruItems c' ++ [mkItem b (start (buffersize c) offset)]) c' in
      cache_inv c2 s' /\ view c2 s' (start (buffersize c) offset) = Some b /\
      forall o b', o <> start (buffersize c) offset -> view c s o = Some b' -> view c2 s' o = Some b'.
Proof.
  intros I Ho Hn. destruct (make_room_spec c s I) as (b0 & c' & s' & E & Hb & I' & R). pose proof (ci_size _ _ I).
  pose proof (ro_config _ _ _ _ R) as Ec. unfold config in Ec. injection Ec as Ec _ _.
  exists b0, c', s'. rewrite createInt_room, E. cbn [rbind]. rewrite Ec, (proj2 (Z.eqb_neq _ _)), block_start_spec by lia.
  split; [done|]. split; [done|]. split; [done|]. split; [done|]. intros b Hbl He.
  destruct (start_spec (buffersize c) offset ltac:(lia) (proj1 Ho)) as (S1 & S2 & S3 & _).
  destruct (push_item_spec c' s' b (start (buffersize c) offset)) as [I2 V2]; try done; [|lia|by rewrite Ec|by rewrite Ec|].
  - intros Hin. apply Hn. by apply R.
  - split; [done|]. split; [by rewrite V2, decide_True|]. intros o b' Hne E'. rewrite V2, decide_False by done. by apply R.
Qed.

Lemma write_buf_spec c i it inner b : lruItems c !! i = Some it -> zlen (buffer it) = buffersize c -> 0 <= inner -> inner + zlen b <= buffersize c ->
  write_buf (i, inner) b c = Ret (with_items (<[i := mkItem (zsplice inner b (buffer it)) (item_offset it)]> (lruItems c)) c).
Proof.
  intros E Hl Hi Hb. unfold write_buf; cbn [fst snd]. rewrite (proj2 (Z.ltb_ge _ _)) by lia. do 2 f_equal.
  apply list_eq. intros j. destruct (decide (i = j)) as [<-|].
  - rewrite list_lookup_alter_eq, E. cbn. symmetry. apply list_lookup_insert_eq. by apply lookup_lt_Some in E.
  - by rewrite list_lookup_alter_ne, list_lookup_insert_ne.
Qed.
Lemma putBack_spec c s i : cache_inv c s -> cache_inv (putBack i c) s /\ (forall o, view (putBack i c) s o = view c s o) /\
  config (putBack i c) = config c /\ evictedItems (putBack i c) = evictedItems c /\ working (putBack i c) = working c.
Proof.
  intros I. unfold putBack. case_bool_decide; [done|]. destruct (lruItems c !! i) as [it|] eqn:E; [|done].
  destruct (cache_inv_perm c (delete i (lruItems c) ++ [it]) s I) as [I' V']; [|done].
  unfold all_items; cbn. apply Permutation_app_tail. rewrite Permutation_app_comm. cbn [app]. symmetry. by apply delete_Permutation.
Qed.

Lemma lru_view c s i it : cache_inv c s -> lruItems c !! i = Some it -> view c s (item_offset it) = Some (buffer it).
Proof.
  intros I E. destruct (all_items_at c i it E) as (r & P & _). unfold view.
  rewrite <- (lview_perm _ _ s (item_offset it) (in_nodup _ _ _ (ci_items _ _ I)) P), lview_cons. by rewrite decide_True.
Qed.

(** [put], into a block that the cache has or that is nowhere in it. *)
Lemma cache_put_spec offset b c s : cache_inv c s -> 0 <= offset < 2 ^ 49 -> offset mod buffersize c + zlen b <= buffersize c ->
  let o := start (buffersize c) offset in
  (o ∈ offsets (lruItems c) \/ o ∉ offsets (all_items c)) -> (forall b' s', same_client s s' -> zlen b' = buffersize c -> evictable s' (mkItem b' o)) ->
  exists b0 c' s', put junk offset b c s = Ret (true, c', s') /\ zlen b0 = buffersize c /\ cache_inv c' s' /\ same_client s s' /\ config c' = config c /\
    (n_threads c <= zlen (evictedItems c) -> evictedItems c' = evictedItems c) /\ working c' = working c /\
    (o ∈ offsets (lruItems c) -> view c s o = Some b0) /\ view c' s' o = Some (zsplice (offset mod buffersize c) b b0) /\
    forall o' b', o' <> o -> view c s o' = Some b' -> view c' s' o' = Some b'.
Proof.
  intros I Ho Hb o Hin Hev. pose proof (ci_size _ _ I) as Hsz. pose proof (Z.mod_pos_bound offset (buffersize c) ltac:(lia)) as Hm. pose proof (zlen_nonneg b).
  unfold put. pose proof (find_spec c s offset I (proj1 Ho)) as Hf. destruct (find c offset) as [[i inner]|].
  - destruct Hf as (it & Ei & Es & ->). rewrite (proj2 (Z.ltb_ge _ _)) by lia. destruct (lru_ok c s i it I Ei) as (Hl & _).
    rewrite (write_buf_spec c i it) by (done || lia). cbn [rbind]. set (b1 := zsplice _ b (buffer it)).
    assert (Hb1 : zlen b1 = buffersize c) by (unfold b1; rewrite zlen_zsplice; lia). rewrite Es.
    destruct (set_item_spec c s i it b1 I Ei Hb1) as [I1 V1]; [rewrite Es; by apply Hev|]. rewrite Es in *. set (c1 := with_items _ c) in *.
    destruct (putBack_spec c1 s i I1) as (I2 & V2 & Ec & Eq & Ew). exists (buffer it), (putBack i c1), s. split; [done|]. split; [done|]. split; [done|].
    split; [done|]. split; [by rewrite Ec|]. split; [by rewrite Eq|]. split; [by rewrite Ew|].
    split; [intros _; unfold o; rewrite <- Es; by apply (lru_view c s i)|]. split; [by rewrite V2, V1, decide_True|].
    intros o' b' Hne E. by rewrite V2, V1, decide_False.
  - assert (Hn : o ∉ offsets (all_items c)) by (by destruct Hin). destruct (createInt_spec offset c s I Ho Hn) as (b0 & c1 & s1 & -> & Hl0 & I1 & R & Hnew).
    fold o in Hnew |- *. cbn [rbind]. set (c2 := with_items (lruItems c1 ++ [mkItem b0 o]) c1). pose proof (ro_config _ _ _ _ R) as Ec. unfold config in Ec. injection Ec as Ec1 Ec2 Ec3.
    change (buffersize c2) with (buffersize c1). rewrite Ec1, block_start_spec by lia. fold o.
    assert (Hi : offset - o = offset mod buffersize c) by (unfold o, start; lia). rewrite Hi, (proj2 (Z.ltb_ge _ _)) by lia.
    assert (Elen : (length (lruItems c2) - 1)%nat = length (lruItems c1)) by (unfold c2; cbn; rewrite length_app; cbn; lia). rewrite Elen.
    rewrite (write_buf_spec c2 _ (mkItem b0 o)); [|unfold c2; cbn; by rewrite list_lookup_middle|unfold c2; cbn; lia|lia|unfold c2; cbn; lia]. cbn [rbind].
    destruct (Hnew (zsplice (offset mod buffersize c) b b0)) as (I2 & V2 & G2); [rewrite zlen_zsplice; lia|apply Hev; [apply R|rewrite zlen_zsplice; lia]|].
    exists b0. eexists _, s1. split; [reflexivity|]. cbn [buffer item_offset]. replace (<[length (lruItems c1) := _]> (lruItems c2))
      with (lruItems c1 ++ [mkItem (zsplice (offset mod buffersize c) b b0) o]) by (unfold c2; cbn; by rewrite insert_app_r_alt, Nat.sub_diag by lia).
    split; [done|]. split; [exact I2|]. split; [apply R|]. split; [apply R|]. split; [apply R|]. split; [apply R|].
    split; [intros Ho'; exfalso; by apply Hf|]. split; [exact V2|exact G2].
Qed.

(** ** Clearing and threads *)

Lemma evict_all_spec bs l : forall s, client_ok s -> items_inv bs l s -> exists s', evict_all l s = Ret s' /\ client_ok s' /\ same_client s s' /\
  grows (lview l s) (kept s').
Proof.
  induction l as [|it l IH]; intros s C I; cbn [evict_all].
  - exists s. split; [done|]. split; [done|]. split; [reflexivity|]. done.
  - destruct (evict_spec _ _ _ _ C I) as (s1 & E1 & C1 & Hs1 & I1 & V1 & _). unfold evict_delete. rewrite E1. cbn [rbind].
    destruct (IH s1 C1 I1) as (s' & E & C' & Hs & K). exists s'. split; [done|]. split; [done|]. split; [by transitivity s1|]. by transitivity (lview l s1).
Qed.
Lemma clear_spec c s : cache_inv c s -> evictedItems c = [] -> working c = [] ->
  exists s', clear c s = Ret (with_items [] c, s') /\ client_ok s' /\ same_client s s' /\ grows (view c s) (kept s').
Proof.
  intros [_ _ _ C I] E1 E2. unfold clear, view, all_items in *. rewrite E1, E2, !app_nil_r in *.
  destruct (evict_all_spec _ _ s C I) as (s' & -> & ?). by exists s'.
Qed.

(** A step of a thread never loses what the cache and the client hold together. *)
Lemma take_work_spec c s c' : cache_inv c s -> take_work c = Some c' -> cache_inv c' s /\ forall o, view c' s o = view c s o.
Proof.
  intros [H1 H2 H3 H4 Hi]. unfold take_work. destruct (evictedItems c) as [|it l] eqn:E; [done|]. destruct (_ <? _); [|done]. intros [= <-].
  assert (P : Permutation (all_items c) (lruItems c ++ l ++ it :: working c)).
  { unfold all_items. rewrite E. apply Permutation_app_head. cbn [app]. apply Permutation_middle. }
  split; [split; try done|]; [by apply (items_inv_perm _ _ _ _ P)|]. intros o. by apply lview_perm; [apply Hi|].
Qed.
Lemma finish_work_spec c s i r : cache_inv c s -> finish_work i c s = Some r -> exists c' s', r = Ret (c', s') /\ cache_inv c' s' /\
  same_client s s' /\ grows (view c s) (view c' s').
Proof.
  intros [H1 H2 H3 H4 Hi]. unfold finish_work. destruct (working c !! i) as [it|] eqn:E; [|done]. intros [= <-].
  assert (P : Permutation (all_items c) (it :: (lruItems c ++ evictedItems c ++ delete i (working c)))).
  { unfold all_items. rewrite (delete_Permutation _ _ _ E) at 1. rewrite !app_assoc. symmetry. apply Permutation_middle. }
  pose proof (items_inv_perm _ _ _ _ P Hi) as Hi'. destruct (evict_spec _ _ _ _ H4 Hi') as (s' & -> & C' & Hs & I' & V & _). cbn [rbind].
  eexists _, s'. split; [reflexivity|]. apply items_inv_cons in Hi' as (_ & Hok & _). split; [|split; [done|]].
  - split; try done. cbn. by constructor; [apply Hok|].
  - intros o b E'. unfold view, all_items in *; cbn. apply V. rewrite <- E'. by apply lview_perm; [apply Hi|].
Qed.
End Items.
