(* ===== verification/CompSpec.v ===== *)
(** The backing file of a compressed file: what a stored block is, and that handing a
    block over keeps the others. *)
From S2P Require Import Prelude MemFile MemCache CompressedFile MemCacheSpec.
Import CompressedFile.

(** What zstd documents: a buffer of [ZSTD_compressBound] bytes is enough, and what was
    compressed can be decompressed. *)
Definition decodes `{ICodec} (z b : bytes) : Prop := forall dst, zlen dst = zlen b -> ZSTD_decompress z dst = (Some (zlen b), b).
Class CodecLaws `{ICodec} := {
  bound_law : forall n, 0 <= n -> 0 <= ZSTD_compressBound n <= n + n / 256 + 64;
  zstd_law : forall b cap, ZSTD_compressBound (zlen b) <= cap -> exists z,
    ZSTD_compress b cap = Some z /\ zlen z <= ZSTD_compressBound (zlen b) /\ decodes z b }.

(** ** Calls of the backing file *)

Section File.
Context {F : Type} `{FileLaws F}.
Implicit Types (f : F) (s : own F).

Lemma read_from_spec rounds : forall f offset n, (0 < rounds)%nat -> 0 <= offset -> 0 <= n ->
  exists f', read_from (S rounds) offset n f = (zsub offset n (contents f), false, f') /\ contents f' = contents f.
Proof.
  intros f offset n Hr Ho Hn. destruct rounds as [|k]; [lia|]. remember (S k) as m. cbn [read_from].
  destruct (seek_law f offset Ho) as (_ & Ec & Ep). set (f0 := snd (MemFile.Seek f offset)) in *.
  destruct (read_law f0 n Hn) as (Er & Ec1 & Ep1). rewrite Er. cbn [snd]. set (f1 := snd (MemFile.Read f0 n)) in *.
  rewrite Ec, Ep in *. unfold file_read in *. set (b := zsub offset n (contents f)) in *.
  destruct (Z.leb_spec (zlen b) 0) as [Hz0|Hz0].
  - exists f1. split; [|by rewrite Ec1]. destruct b; [done|]. rewrite zlen_cons in Hz0. pose proof (zlen_nonneg b). lia.
  - destruct (Z.ltb_spec (zlen b) n) as [Hl|Hl]; [|exists f1; split; [done|by rewrite Ec1]].
    subst m. cbn [read_from]. destruct (seek_law f1 (offset + zlen b)) as (_ & Ec2 & Ep2); [lia|].
    set (f2 := snd (MemFile.Seek f1 (offset + zlen b))) in *. destruct (read_law f2 (n - zlen b)) as (Er3 & Ec3 & _); [lia|].
    rewrite Er3. unfold file_read. rewrite Ep2, Ec2, Ec1.
    assert (E : zsub (offset + zlen b) (n - zlen b) (contents f) = []).
    { unfold b in *. unfold zsub in Hl |- *. rewrite zlen_ztake, zlen_zdrop in * by lia. rewrite zdrop_ge by lia. unfold ztake. apply take_nil. }
    rewrite E. change (zlen [] <=? 0) with true. cbv iota beta. exists (snd (MemFile.Read f2 (n - zlen b))). split; [by rewrite app_nil_r|]. by rewrite Ec3, Ec2, Ec1.
Qed.
Lemma readFromFile_spec offset n s : 0 <= offset -> 0 <= n ->
  exists f, readFromFile offset n s = (zsub offset n (contents (uncompressedFile s)), false, with_file f s) /\ contents f = contents (uncompressedFile s).
Proof.
  intros Ho Hn. unfold readFromFile. destruct (decide (n = 0)) as [->|].
  - cbn [Z.to_nat read_from]. destruct (seek_law (uncompressedFile s) offset Ho) as (_ & Ec & Ep).
    set (f0 := snd (MemFile.Seek (uncompressedFile s) offset)) in *. destruct (read_law f0 0 Hn) as (Er & Ec1 & _).
    rewrite Er. cbn. eexists. split; [reflexivity|]. by rewrite Ec1.
  - destruct (read_from_spec (Z.to_nat n) (uncompressedFile s) offset n) as (f & E & Ec); [lia|done|done|].
    rewrite E. by exists f.
Qed.
Lemma writeToFile_spec offset b s : 0 <= offset ->
  exists f, writeToFile offset b s = (zlen b, with_file f s) /\ contents f = file_write (contents (uncompressedFile s)) offset b.
Proof.
  intros Ho. unfold writeToFile. cbn [write_to]. destruct (seek_law (uncompressedFile s) offset Ho) as (_ & Ec & Ep).
  set (f0 := snd (MemFile.Seek (uncompressedFile s) offset)) in *. destruct (write_law f0 b) as (Er & Ec1 & _).
  destruct (MemFile.Write f0 b) as [[w e] f] eqn:Ew. cbn [fst snd] in *. injection Er as -> ->. rewrite Ec, Ep in Ec1.
  exists f. split; [|done]. pose proof (zlen_nonneg b). destruct (Z.leb_spec (zlen b) 0).
  - by replace (zlen b) with 0 by lia.
  - by rewrite (proj2 (Z.ltb_ge _ _)) by lia.
Qed.
End File.

(** ** Stored blocks *)

Section Store.
Context {F : Type} `{FileLaws F} `{CodecLaws}.
Implicit Types (s : own F).

Definition data s : bytes := contents (uncompressedFile s).
Definition zero_block s : bytes := replicate (Z.to_nat (blocksize s)) nul.
(** The block that an entry of the index stands for. *)
Definition block_content s (off : Z) : bytes :=
  if off =? -1 then zero_block s
  else snd (ZSTD_decompress (zsub (off + 8) (le_val (zsub off 4 (data s))) (data s)) (zero_block s)).
Definition stored (d : bytes) (off : Z) (z : bytes) : Prop :=
  0 <= off /\ off + 8 + zlen z <= zlen d /\ zlen z < 2 ^ 32 - 8 /\ zsub off (8 + zlen z) d = block_data z.
Definition place_ok s (off : Z) : Prop :=
  off = -1 \/ exists z b, c_header_size <= off /\ stored (data s) off z /\ decodes z b /\ zlen b = blocksize s.

(** The blocks in the file, by their offset in the uncompressed one. *)
Definition file_kept s (o : Z) : option bytes :=
  if (0 <=? o) && (o mod blocksize s =? 0) then block_content s <$> ztake (numBlockOffsets s) (blockOffsets s) !! Z.to_nat (o / blocksize s)
  else None.

Record own_ok s : Prop := {
  oo_size : 0 < blocksize s < 2 ^ 31;
  oo_error : error s = false;
  oo_num : 0 <= numBlockOffsets s <= zlen (blockOffsets s);
  oo_len : zlen (blockOffsets s) < 2 ^ 64;
  oo_cap : numBlockOffsets s * blocksize s <= 2 ^ 49 + blocksize s;
  oo_head : c_header_size <= zlen (data s);
  oo_places : Forall (place_ok s) (blockOffsets s);
  oo_rest : forall i, numBlockOffsets s <= i < zlen (blockOffsets s) -> znth (-1) (blockOffsets s) i = -1;
  oo_all : readOnly s = true -> numBlockOffsets s = zlen (blockOffsets s);
  oo_end : readOnly s = false -> uncompressedFileSize s = zlen (data s);
  oo_pool : readOnly s = false -> exists i, getCompressedBuffer (compressedBuffers s) = Some i;
  oo_bound : readOnly s = false -> ZSTD_compressBound (blocksize s) <= compressedBufferSize s - c_blockbufHeadersize }.

Definition own_evictable s (it : SCacheItem) : Prop :=
  item_ok (blocksize s) it /\ (readOnly s = true -> file_kept s (item_offset it) = Some (buffer it)).
(** What a call of the cache leaves to the caller. *)
Definition shape s : Z * Z * Z * Z * (bool * bool * bool * bool) :=
  (filesize s, index_offset s, blocksize s, currentPosition s, (error s, finished s, readOnly s, noMagic s)).
Definition same_shape : relation (own F) := fun s s' => shape s' = shape s.
#[export] Instance same_shape_pre : PreOrder same_shape.
Proof. split; [done|]. intros x y z E1 E2. unfold same_shape in *. congruence. Qed.

Lemma zlen_block_data z : zlen (block_data z) = 8 + zlen z.
Proof. unfold block_data. rewrite !zlen_app, !zlen_le_bytes. lia. Qed.
Lemma stored_parts d off z : stored d off z -> zlen (zsub off 8 d) = 8 /\ le_val (zsub off 4 d) = zlen z /\
  le_val (ztake 4 (zsub off 8 d)) = zlen z /\ le_val (zdrop 4 (zsub off 8 d)) = mode_zstd /\ zsub (off + 8) (zlen z) d = z.
Proof.
  intros (A1 & A2 & A3 & E). pose proof (zlen_nonneg z). unfold block_data in E. rewrite w32_id in E by lia.
  assert (E8 : zsub off 8 d = le_bytes 4 (zlen z) ++ le_bytes 4 mode_zstd).
  { transitivity (zsub 0 8 (zsub off (8 + zlen z) d)); [rewrite zsub_zsub by lia; f_equal; lia|]. rewrite E, app_assoc. unfold zsub. rewrite zdrop_0.
    apply (ztake_app_zlen (le_bytes 4 (zlen z) ++ le_bytes 4 mode_zstd)). }
  assert (El : le_val (le_bytes 4 (zlen z)) = zlen z) by (rewrite le_val_le_bytes; apply Z.mod_small; lia).
  assert (E4 : zsub off 4 d = le_bytes 4 (zlen z)).
  { transitivity (zsub 0 4 (zsub off 8 d)); [rewrite zsub_zsub by lia; f_equal; lia|]. rewrite E8. unfold zsub. rewrite zdrop_0. apply (ztake_app_zlen (le_bytes 4 (zlen z))). }
  rewrite E8, E4. split; [done|]. split; [done|].
  assert (T : ztake 4 (le_bytes 4 (zlen z) ++ le_bytes 4 mode_zstd) = le_bytes 4 (zlen z)) by apply (ztake_app_zlen (le_bytes 4 (zlen z))).
  assert (T' : zdrop 4 (le_bytes 4 (zlen z) ++ le_bytes 4 mode_zstd) = le_bytes 4 mode_zstd) by apply (zdrop_app_zlen (le_bytes 4 (zlen z))).
  rewrite T, T'. split; [done|]. split; [by vm_compute|].
  transitivity (zsub 8 (zlen z) (zsub off (8 + zlen z) d)); [by rewrite zsub_zsub by lia|]. rewrite E, app_assoc. unfold zsub.
  change 8 with (zlen (le_bytes 4 (zlen z) ++ le_bytes 4 mode_zstd)). rewrite zdrop_app_zlen. by apply ztake_ge.
Qed.
Lemma zlen_zero_block s : 0 <= blocksize s -> zlen (zero_block s) = blocksize s.
Proof. apply zlen_replicate. Qed.
Lemma content_stored s off z b : stored (data s) off z -> decodes z b -> zlen b = blocksize s -> block_content s off = b.
Proof.
  intros Hs Hd Hb. unfold block_content. pose proof (zlen_nonneg b). rewrite (proj2 (Z.eqb_neq _ _)) by (destruct Hs; lia).
  destruct (stored_parts _ _ _ Hs) as (_ & -> & _ & _ & ->). rewrite Hd; [done|]. rewrite zlen_zero_block; lia.
Qed.
Lemma content_len s off : 0 < blocksize s -> place_ok s off -> zlen (block_content s off) = blocksize s.
Proof.
  intros Hb [->|(z & b & _ & Hs & Hd & Hl)]; [apply zlen_zero_block; lia|]. by rewrite (content_stored s off z b).
Qed.

(** Appending to the file keeps what is stored. *)
Lemma stored_app d x off z : stored d off z -> stored (d ++ x) off z.
Proof.
  intros (A1 & A2 & A3 & E). pose proof (zlen_nonneg z). pose proof (zlen_nonneg x). split; [done|]. split; [rewrite zlen_app; lia|]. split; [done|]. rewrite <- E.
  unfold zsub. rewrite zdrop_app_le, ztake_app_le; [done|rewrite zlen_zdrop; lia|lia].
Qed.
Lemma stored_new d z : zlen z < 2 ^ 32 - 8 -> stored (d ++ block_data z) (zlen d) z.
Proof.
  intros Hz. pose proof (zlen_nonneg d). split; [done|]. split; [rewrite zlen_app, zlen_block_data; lia|]. split; [done|].
  unfold zsub. rewrite zdrop_app_zlen. apply ztake_ge. rewrite zlen_block_data. lia.
Qed.
End Store.

(** * A compressed file keeps the blocks that the cache hands over. *)

Lemma index_set_spec l blk off : 0 <= blk ->
  let l' := index_set l blk off in
  l' !! Z.to_nat blk = Some off /\ blk + 1 <= zlen l' <= Z.max (zlen l) ((blk + 1) * 2) /\ zlen l <= zlen l' /\
  (forall j x, j <> Z.to_nat blk -> l !! j = Some x -> l' !! j = Some x) /\
  (forall j x, j <> Z.to_nat blk -> l' !! j = Some x -> l !! j = Some x \/ (x = -1 /\ (length l <= j)%nat)).
Proof.
  intros Hb. unfold index_set. set (l0 := if zlen l <=? blk then zresize (-1) ((blk + 1) * 2) l else l).
  assert (L0 : blk + 1 <= zlen l0 <= Z.max (zlen l) ((blk + 1) * 2) /\ zlen l <= zlen l0).
  { unfold l0. pose proof (zlen_nonneg l). destruct (Z.leb_spec (zlen l) blk); [rewrite zlen_zresize by lia|]; lia. }
  assert (P0 : (forall j x, l !! j = Some x -> l0 !! j = Some x) /\ forall j x, l0 !! j = Some x -> l !! j = Some x \/ (x = -1 /\ (length l <= j)%nat)).
  { unfold l0. destruct (Z.leb_spec (zlen l) blk); [|by split; [|left]]. unfold zresize. rewrite ztake_ge by (unfold zlen in *; lia). split.
    - intros j x E. apply lookup_app_l_Some, E.
    - intros j x [E|[Hj E]]%lookup_app_Some; [by left|]. apply lookup_replicate in E as [-> _]. by right. }
  destruct P0 as [P1 P2]. unfold zset. split; [|split; [|split; [|split]]].
  - apply list_lookup_insert_eq. unfold zlen in L0. lia.
  - unfold zlen in *. rewrite length_insert. lia.
  - unfold zlen in *. rewrite length_insert. lia.
  - intros j x Hj E. rewrite list_lookup_insert_ne by done. by apply P1.
  - intros j x Hj. rewrite list_lookup_insert_ne by done. apply P2.
Qed.

Lemma getCompressedBuffer_spec l : forall i, getCompressedBuffer l = Some i -> l !! i = Some true.
Proof.
  induction l as [|[] l IH]; cbn [getCompressedBuffer]; intros i E; [done|by injection E as <-|].
  destruct (getCompressedBuffer l) as [j|]; [|done]. injection E as <-. by apply IH.
Qed.

Section Evict.
Context {F : Type} `{FileLaws F} `{CodecLaws}.
Implicit Types (s : own F).

Lemma file_kept_spec s o b : 0 < blocksize s -> file_kept s o = Some b <->
  0 <= o /\ o mod blocksize s = 0 /\ o / blocksize s < numBlockOffsets s /\ exists off, blockOffsets s !! Z.to_nat (o / blocksize s) = Some off /\ b = block_content s off.
Proof.
  intros Hb. unfold file_kept. destruct (Z.leb_spec 0 o) as [Ho|Ho]; cbn [andb]; [|split; [done|lia]].
  destruct (Z.eqb_spec (o mod blocksize s) 0) as [Em|]; [|split; [done|by intros (_ & ? & _)]].
  assert (0 <= o / blocksize s) by (apply Z.div_pos; lia). unfold ztake. rewrite fmap_Some. split.
  - intros (off & [E L]%lookup_take_Some & ->). split; [done|]. split; [done|]. split; [lia|]. by exists off.
  - intros (_ & _ & L & off & E & ->). exists off. split; [|done]. apply lookup_take_Some. split; [done|lia].
Qed.

(** Other states of the file with the same blocks. *)
Lemma kept_same s s' o b : 0 < blocksize s -> blocksize s' = blocksize s -> Forall (place_ok s) (blockOffsets s) -> numBlockOffsets s <= numBlockOffsets s' ->
  (forall off, off ∈ blockOffsets s -> place_ok s off -> block_content s' off = block_content s off) ->
  (forall off, blockOffsets s !! Z.to_nat (o / blocksize s) = Some off -> blockOffsets s' !! Z.to_nat (o / blocksize s) = Some off) ->
  file_kept s o = Some b -> file_kept s' o = Some b.
Proof.
  intros Hb Eb Hp Hn Hc Hl. rewrite !file_kept_spec by (rewrite ?Eb; done). intros (A1 & A2 & A3 & off & E & ->). rewrite Eb.
  split; [done|]. split; [done|]. split; [lia|]. exists off. split; [by apply Hl|]. symmetry. assert (off ∈ blockOffsets s) by (by eapply list_elem_of_lookup_2).
  apply Hc; [done|]. by apply (proj1 (Forall_forall _ _) Hp).
Qed.
Lemma place_app s s' x off : blocksize s' = blocksize s -> data s' = data s ++ x -> place_ok s off -> place_ok s' off /\
  (0 < blocksize s -> block_content s' off = block_content s off).
Proof.
  intros Eb Ed [->|(z & b & Hh & Hs & Hd & Hl)].
  - split; [by left|]. intros _. unfold block_content, zero_block. by rewrite Eb.
  - assert (Hs' : stored (data s') off z) by (rewrite Ed; by apply stored_app). split.
    + right. exists z, b. by rewrite Eb.
    + intros _. rewrite (content_stored s off z b), (content_stored s' off z b); rewrite ?Eb; done.
Qed.

Lemma evict_own it s : own_ok s -> own_evictable s it -> exists s', CompressedFile.evictFromLruCache it s = Ret s' /\ own_ok s' /\ same_shape s s' /\
  file_kept s' (item_offset it) = Some (buffer it) /\
  (forall o b, o <> item_offset it -> file_kept s o = Some b -> file_kept s' o = Some b) /\
  (forall it', item_offset it' <> item_offset it -> own_evictable s it' -> own_evictable s' it').
Proof.
  intros I ((Hl & Ho & Hm) & Hro). pose proof I as [H1' H2' H3' H4' Hcap Hhead H5' H6' H7' H8' H9' H10']. unfold CompressedFile.evictFromLruCache.
  destruct (readOnly s) eqn:Er.
  { exists s. split; [done|]. split; [done|]. split; [done|]. split; [by apply Hro|]. done. }
  specialize (H8' eq_refl). specialize (H10' eq_refl). destruct (H9' eq_refl) as [i Ei]. rewrite Ei. pose proof (getCompressedBuffer_spec _ _ Ei) as El.
  cbn [compressedBufferSize with_buffers uncompressedFileSize with_file_size].
  destruct (zstd_law (buffer it) (compressedBufferSize s - c_blockbufHeadersize)) as (z & -> & Hz & Hd); [by rewrite Hl|].
  rewrite Hl in Hz. destruct (bound_law (blocksize s)) as [_ Hbd]; [lia|]. pose proof (zlen_nonneg z). pose proof (zlen_nonneg (data s)).
  assert (Hz32 : zlen z < 2 ^ 32 - 8) by (pose proof (Z.div_le_upper_bound (blocksize s) 256 (2 ^ 23)); lia).
  change c_blockbufHeadersize with 8. rewrite w32_id by lia. rewrite ztake_ge by (rewrite zlen_block_data; lia).
  match goal with |- context [writeToFile ?o ?b ?x] => destruct (writeToFile_spec o b x) as (f & -> & Ef); [lia|] end.
  cbn [uncompressedFile with_file_size with_buffers] in Ef. fold (data s) in Ef. rewrite H8', file_write_end in Ef.
  rewrite zlen_block_data, Z.eqb_refl. cbn [negb blocksize with_file with_file_size with_buffers compressedBuffers blockOffsets numBlockOffsets].
  rewrite (proj2 (Z.eqb_neq _ _)) by lia. rewrite list_insert_insert_eq, (list_insert_id _ _ _ El).
  assert (Hq : w64 (Z.quot (item_offset it) (blocksize s)) = item_offset it / blocksize s).
  { rewrite Z.quot_div_nonneg by lia. apply w64_id. split; [apply Z.div_pos; lia|]. apply Z.div_lt_upper_bound; nia. }
  rewrite Hq. set (blk := item_offset it / blocksize s) in *.
  assert (Hblk : 0 <= blk < 2 ^ 49) by (split; [apply Z.div_pos; lia|apply Z.div_lt_upper_bound; nia]).
  destruct (index_set_spec (blockOffsets s) blk (uncompressedFileSize s) (proj1 Hblk)) as (X1 & X2 & X3 & X4 & X5).
  set (l' := index_set (blockOffsets s) blk (uncompressedFileSize s)) in *. rewrite H8' in *.
  match goal with |- exists s', Ret ?x = Ret s' /\ _ => set (s' := x) end.
  assert (Ed : data s' = data s ++ block_data z) by exact Ef.
  assert (Eb : blocksize s' = blocksize s) by done.
  assert (Hst : stored (data s') (zlen (data s)) z) by (rewrite Ed; by apply stored_new).
  assert (Ok' : own_ok s').
  { split; try done.
    - cbn. lia.
    - cbn. lia.
    - cbn. pose proof (Z.div_mod (item_offset it) (blocksize s)) as Di. fold blk in Di. nia.
    - rewrite Ed, zlen_app, zlen_block_data. lia.
    - apply Forall_forall. intros off [j Ej]%list_elem_of_lookup_1. destruct (decide (j = Z.to_nat blk)) as [->|Hj].
      + change (blockOffsets s') with l' in Ej. rewrite X1 in Ej. injection Ej as <-. right. exists z, (buffer it). rewrite Eb. done.
      + destruct (X5 j off Hj Ej) as [E|[-> _]]; [|by left]. eapply place_app; [exact Eb|exact Ed|].
        apply (proj1 (Forall_forall _ _) H5'). by eapply list_elem_of_lookup_2.
    - cbn [numBlockOffsets blockOffsets s' with_index]. intros j Hj. destruct (l' !! Z.to_nat j) as [x|] eqn:Ej.
      + assert (Hj0 : 0 <= j) by lia. rewrite (znth_lookup _ _ _ x) by done. destruct (X5 (Z.to_nat j) x ltac:(lia) Ej) as [E|[-> _]]; [|done]. rewrite <- (znth_lookup (-1) (blockOffsets s) j x) by (done || lia). apply H6'.
        apply lookup_lt_Some in E. unfold zlen. lia.
      + apply lookup_ge_None in Ej. unfold zlen in Hj. lia.
    - cbn. by rewrite Er.
    - intros _. rewrite Ed, zlen_app, zlen_block_data. cbn. lia.
    - intros _. by exists i. }
  exists s'. split; [done|]. split; [done|]. split; [done|]. split; [|split].
  - apply file_kept_spec; [lia|]. rewrite Eb. split; [lia|]. split; [done|]. split; [cbn; lia|]. exists (zlen (data s)). split; [exact X1|].
    symmetry. by eapply content_stored.
  - intros o b Hne Ek. eapply (kept_same s s'); [lia|done|done|cbn; lia| | |done].
    + intros off _ Hp. eapply place_app; [done|exact Ed|done|lia].
    + intros off E. apply X4; [|done]. apply file_kept_spec in Ek as (Ho0 & Hm0 & _); [|lia]. intros E'. apply Hne.
      pose proof (Z.div_mod o (blocksize s)) as Do. pose proof (Z.div_mod (item_offset it) (blocksize s)) as Di. fold blk in Di.
      assert (0 <= o / blocksize s) by (apply Z.div_pos; lia). assert (Eq : o / blocksize s = blk) by lia. rewrite Eq in Do. lia.
  - intros it' _ (Hit & _). split; [by rewrite Eb|]. cbn. by rewrite Er.
Qed.

#[export] Instance eviction_laws : EvictionLaws (own F) := {|
  kept := file_kept; client_ok := own_ok; evictable := own_evictable; same_client := same_shape;
  same_client_pre := same_shape_pre; evict_law := evict_own |}.
End Evict.
