(* ===== verification/CompFill.v ===== *)
(** Blocks of a compressed file that come into the cache. *)
From S2P Require Import Prelude MemFile MemCache CompressedFile MemCacheSpec CompSpec.
Import CompressedFile.

Section Fill.
Context {F : Type} `{FileLaws F} `{CodecLaws} (junk : nat -> bytes).
Implicit Types (s : own F) (c : t F) (h : LRUMemCache.t).

(** ** Reading the backing file changes nothing *)

Lemma refile s f : contents f = data s -> own_ok s ->
  own_ok (with_file f s) /\ (forall o, file_kept (with_file f s) o = file_kept s o) /\
  (forall it, own_evictable s it -> own_evictable (with_file f s) it).
Proof.
  intros Ec I. assert (Ed : data (with_file f s) = data s) by exact Ec.
  assert (Ek : forall o, file_kept (with_file f s) o = file_kept s o).
  { intros o. unfold file_kept. cbn [blocksize numBlockOffsets blockOffsets with_file]. destruct (_ && _); [|done]. f_equal.
    unfold block_content. by rewrite Ed. }
  split; [|split; [done|]].
  - destruct I as [? ? ? ? ? ? A ? ? ? ? ?]. split; try done; try by rewrite Ed.
    + eapply Forall_impl; [exact A|]. intros off. unfold place_ok. by rewrite Ed.
  - intros it [Hi Hr]. split; [done|]. intros E. rewrite Ek. by apply Hr.
Qed.
Lemma refile_cache h s f : contents f = data s -> cache_inv h s ->
  cache_inv h (with_file f s) /\ forall o, view h (with_file f s) o = view h s o.
Proof.
  intros Ec I. destruct (refile s f Ec (ci_client _ _ I)) as (A & B & D). by apply cache_inv_client.
Qed.

(** ** The state of an open file *)

Record cached c h : Prop := {
  ca_cache : hotCache c = Some h;
  ca_inv : cache_inv h (members c);
  ca_size : LRUMemCache.buffersize h = blocksize (members c);
  ca_finished : finished (members c) = false;
  ca_length : 0 <= filesize (members c) < 2 ^ 49 }.

(** From one state of an open file to another: the members that are the caller's, and
    the queue where it is not used. *)
Record goes_on c h c' h' : Prop := {
  go_shape : same_shape (members c) (members c');
  go_config : config h' = config h;
  go_queue : LRUMemCache.n_threads h <= zlen (LRUMemCache.evictedItems h) -> LRUMemCache.evictedItems h' = LRUMemCache.evictedItems h;
  go_working : LRUMemCache.working h' = LRUMemCache.working h;
  go_view : grows (view h (members c)) (view h' (members c')) }.
Lemma goes_on_refl c h : goes_on c h c h.
Proof. by split. Qed.
Lemma goes_on_trans c h c1 h1 c2 h2 : goes_on c h c1 h1 -> goes_on c1 h1 c2 h2 -> goes_on c h c2 h2.
Proof.
  intros [A1 A2 A3 A4 A5] [B1 B2 B3 B4 B5]. split; [by transitivity (members c1)|by rewrite B2| |by rewrite B4|by transitivity (view h1 (members c1))].
  intros Hq. assert (E3 := A3 Hq). rewrite B3; [done|]. unfold config in *. rewrite E3. by injection A2 as _ _ ->.
Qed.
Lemma goes_on_idle c h c' h' : goes_on c h c' h' -> idle h -> idle h'.
Proof.
  intros [_ A2 A3 A4 _] (I1 & I2 & I3). unfold config in A2. injection A2 as _ _ A2.
  split; [congruence|]. split; [|congruence]. rewrite A3; [done|]. rewrite I1, I2. done.
Qed.

(** ** Filling *)

Lemma block_index s o : own_ok s -> 0 <= o < 2 ^ 49 -> w64 (Z.quot o (blocksize s)) = o / blocksize s /\ 0 <= o / blocksize s < 2 ^ 49 /\
  start (blocksize s) o / blocksize s = o / blocksize s.
Proof.
  intros I Ho. pose proof (oo_size _ I) as Hb. rewrite Z.quot_div_nonneg by lia. assert (0 <= o / blocksize s) by (apply Z.div_pos; lia).
  assert (o / blocksize s < 2 ^ 49) by (apply Z.div_lt_upper_bound; nia). split; [by apply w64_id; lia|]. split; [done|].
  destruct (start_spec (blocksize s) o) as (_ & _ & _ & ->); [lia|lia|]. rewrite Z.mul_comm. apply Z.div_mul. lia.
Qed.

(** The decompressed block goes to the last item. *)
Lemma fill_buffer_spec offset off i it h s z b : own_ok s -> stored (data s) off z -> decodes z b -> zlen b = blocksize s ->
  LRUMemCache.lruItems h !! i = Some it -> zlen (buffer it) = blocksize s -> LRUMemCache.buffersize h = blocksize s ->
  exists f, fill_buffer offset off (i, 0) h s =
      Ret (true, false, LRUMemCache.with_items (<[i := mkItem b (item_offset it)]> (LRUMemCache.lruItems h)) h, with_file f s) /\ contents f = data s.
Proof.
  intros I Hs Hd Hb Ei Hit Hsz. destruct (stored_parts _ _ _ Hs) as (P1 & P2 & P3 & P4 & P5). destruct Hs as (S1 & S2 & S3 & _).
  pose proof (zlen_nonneg z). pose proof (oo_size _ I). unfold fill_buffer.
  destruct (readFromFile_spec off 8 s S1) as (f1 & -> & E1); [lia|]. fold (data s) in E1 |- *. rewrite P1, P3, P4. cbn [Z.eqb Pos.eqb negb].
  change (mode_zstd =? mode_none) with false. change (mode_zstd =? mode_zlib) with false. change (mode_zstd =? mode_zstd) with true. cbv iota.
  destruct (readFromFile_spec (off + c_blockbufHeadersize) (zlen z) (with_file f1 s)) as (f2 & -> & E2); [unfold c_blockbufHeadersize; lia|lia|].
  cbn [uncompressedFile with_file]. rewrite E1. change c_blockbufHeadersize with 8. rewrite P5, Z.eqb_refl. cbn [negb blocksize with_file].
  unfold LRUMemCache.pointee; cbn [fst snd]. rewrite Ei, zdrop_0, ztake_ge by lia. rewrite Hd by lia.
  rewrite (write_buf_spec h i it 0 b) by (rewrite ?Hsz; done || lia). cbn [rbind]. exists f2. split; [|by rewrite E2].
  do 6 f_equal. unfold zsplice. rewrite ztake_0. cbn [app]. rewrite zdrop_ge by lia. by rewrite app_nil_r.
Qed.
Lemma zsplice_all (b b0 : bytes) : zlen b0 = zlen b -> zsplice 0 b b0 = b.
Proof. intros E. unfold zsplice. rewrite ztake_0. cbn [app]. rewrite zdrop_ge by lia. apply app_nil_r. Qed.

Lemma entry_place s i : own_ok s -> place_ok s (znth (-1) (blockOffsets s) i).
Proof.
  intros I. unfold znth. destruct (nth_in_or_default (Z.to_nat i) (blockOffsets s) (-1)) as [Hin| ->]; [|by left].
  apply (proj1 (Forall_forall _ _) (oo_places _ I)). by apply list_elem_of_In.
Qed.

(** What a filled block is: the last item of the cache. *)
Record filled c h (o : Z) b c' h' : Prop := {
  fl_cached : cached c' h';
  fl_goes : goes_on c h c' h';
  fl_item : LRUMemCache.find h' o = Some ((length (LRUMemCache.lruItems h') - 1)%nat, o mod blocksize (members c));
  fl_last : LRUMemCache.lruItems h' !! (length (LRUMemCache.lruItems h') - 1)%nat = Some (mkItem b (start (blocksize (members c)) o));
  fl_view : view h' (members c') (start (blocksize (members c)) o) = Some b;
  fl_same : forall b', view h (members c) (start (blocksize (members c)) o) = Some b' -> b' = b }.

Lemma find_last s h o l it : cache_inv h s -> 0 <= o -> LRUMemCache.lruItems h = l ++ [it] -> item_offset it = start (LRUMemCache.buffersize h) o ->
  LRUMemCache.find h o = Some ((length (LRUMemCache.lruItems h) - 1)%nat, o mod LRUMemCache.buffersize h).
Proof.
  intros I Ho El Es. pose proof (find_spec h s o I Ho) as Hf. destruct (LRUMemCache.find h o) as [[i inner]|].
  - destruct Hf as (it' & Ei & Es' & ->). do 2 f_equal. rewrite El, length_app. cbn [length].
    pose proof (in_nodup _ _ _ (ci_items _ _ I)) as Hn. unfold all_items in Hn. rewrite El, fmap_app, fmap_app in Hn. apply NoDup_app in Hn as (Hn & _ & _).
    rewrite El in Ei. assert (Hl : (l ++ [it]) !! length l = Some it) by (by rewrite list_lookup_middle).
    replace (length l + 1 - 1)%nat with (length l) by lia.
    apply (NoDup_lookup (item_offset <$> l ++ [it]) i (length l) (item_offset it)); [by rewrite fmap_app| |]; rewrite list_lookup_fmap.
    + rewrite Ei. cbn. congruence.
    + by rewrite Hl.
  - exfalso. apply Hf. rewrite El, <- Es, fmap_app. apply elem_of_app. right. by left.
Qed.

Lemma fillCache_spec c h o : cached c h -> 0 <= o < 2 ^ 49 -> start (blocksize (members c)) o ∉ item_offset <$> all_items h ->
  (fillCache junk o c = Ret (false, false, c) /\ view h (members c) (start (blocksize (members c)) o) = None) \/
  exists b c' h', fillCache junk o c = Ret (true, false, c') /\ filled c h o b c' h'.
Proof.
  intros [Ec I Es Ef Ef0] Ho Hn. set (s := members c) in *. pose proof (ci_client _ _ I) as Io. pose proof (oo_size _ Io) as Hbs.
  destruct (block_index s o Io Ho) as (Hq & Hb & Hbi). unfold fillCache. rewrite Ec. fold s.
  rewrite (proj2 (Z.eqb_neq _ _)), Hq by lia. set (blk := o / blocksize s) in *.
  assert (Hk : view h s (start (blocksize s) o) = file_kept s (start (blocksize s) o)) by exact (lview_notin (all_items h) s _ Hn).
  destruct (start_spec (blocksize s) o) as (So & _ & Sm & _); [lia|lia|].
  destruct (Z.leb_spec (zlen (blockOffsets s)) blk) as [Hout|Hin].
  { left. split; [done|]. rewrite Hk. destruct (file_kept s _) as [b|] eqn:E; [|done]. apply file_kept_spec in E as (_ & _ & L & _); [|lia].
    rewrite Hbi in L. pose proof (oo_num _ Io). lia. }
  right. assert (Efi : LRUMemCache.find h o = None).
  { pose proof (find_spec h s o I (proj1 Ho)) as Hf. destruct (LRUMemCache.find h o) as [[i inner]|]; [|done]. destruct Hf as (it & Ei & Eo & _).
    exfalso. apply Hn. rewrite <- Es, <- Eo. apply list_elem_of_fmap_2, all_lru. by eapply list_elem_of_lookup_2. }
  unfold LRUMemCache.create. rewrite Efi.
  destruct (createInt_spec junk o h s I Ho) as (b0 & h1 & s1 & -> & Hl0 & I1 & R1 & Hnew); [by rewrite Es|]. rewrite Es in *. cbn [rbind].
  pose proof (ci_client _ _ I1) as Io1. rewrite (oo_error _ Io1). assert (Ebs : blocksize s1 = blocksize s) by (pose proof (ro_same _ _ _ _ R1) as X; by injection X).
  set (off := znth (-1) (blockOffsets s1) blk). pose proof (entry_place s1 blk Io1) as Hp. fold off in Hp.
  set (st := start (blocksize s) o) in *. set (b := block_content s1 off).
  assert (Hlb : zlen b = blocksize s) by (rewrite <- Ebs; apply content_len; [lia|done]).
  assert (Hoff : forall b', file_kept s1 st = Some b' -> b' = b).
  { intros b' (_ & _ & _ & off' & E & ->)%file_kept_spec; [|lia]. unfold b, off. rewrite Ebs, Hbi in E. rewrite (znth_lookup _ _ _ off'); [done|lia|done]. }
  assert (Hsame : forall b', view h s st = Some b' -> b' = b).
  { intros b' E. rewrite Hk in E. apply Hoff. by apply (ro_kept _ _ _ _ R1). }
  assert (Hev : own_evictable s1 (mkItem b st)).
  { split; [split; [by rewrite Ebs|]|]; [cbn; rewrite Ebs; lia|]. cbn. intros Ero.
    assert (Er : readOnly s = true) by (pose proof (ro_same _ _ _ _ R1) as X; injection X as _ _ _ _ _ _ X _; congruence).
    destruct (file_kept s st) as [b'|] eqn:E.
    - rewrite <- (Hsame b') by (by rewrite Hk). by apply (ro_kept _ _ _ _ R1).
    - exfalso. destruct (lookup_lt_is_Some_2 (blockOffsets s) (Z.to_nat blk)) as [x Hx]; [unfold zlen in Hin; lia|].
      assert (E' : file_kept s st = Some (block_content s x)); [|by rewrite E in E']. apply file_kept_spec; [lia|]. rewrite Hbi.
      split; [lia|]. split; [done|]. split; [rewrite (oo_all _ Io Er); lia|]. by exists x. }
  destruct (Hnew b Hlb Hev) as (I2 & V2 & G2). set (h0 := LRUMemCache.with_items (LRUMemCache.lruItems h1 ++ [mkItem b0 st]) h1) in *.
  set (h2 := LRUMemCache.with_items (LRUMemCache.lruItems h1 ++ [mkItem b st]) h1) in *.
  assert (Esz : LRUMemCache.buffersize h1 = blocksize s) by (pose proof (ro_config _ _ _ _ R1) as X; unfold config in X; injection X as X _ _; congruence).
  set (i := (length (LRUMemCache.lruItems h0) - 1)%nat).
  assert (Elen : i = length (LRUMemCache.lruItems h1)) by (unfold i, h0; cbn; rewrite length_app; cbn; lia).
  assert (Ei : LRUMemCache.lruItems h0 !! i = Some (mkItem b0 st)) by (rewrite Elen; unfold h0; cbn; by rewrite list_lookup_middle).
  assert (Eset : LRUMemCache.with_items (<[i := mkItem b st]> (LRUMemCache.lruItems h0)) h0 = h2).
  { rewrite Elen. unfold h0, h2, LRUMemCache.with_items. cbn. f_equal. rewrite insert_app_r_alt, Nat.sub_diag by lia. done. }
  assert (Fin : forall f, contents f = data s1 -> filled c h o b (mk _ (Some h2) (with_file f s1)) h2).
  { intros f Ecf. destruct (refile_cache h2 s1 f Ecf I2) as [I3 V3].
    assert (Hsh : same_shape s (with_file f s1)) by (exact (ro_same _ _ _ _ R1)).
    split; fold s; fold st.
    - split; [done|exact I3|cbn; by rewrite Ebs| |].
      + injection Hsh as _ _ _ _ _ X _ _. cbn in *. congruence.
      + injection Hsh as X _ _ _ _ _ _ _. cbn in *. rewrite X. exact Ef0.
    - split; [exact Hsh|exact (ro_config _ _ _ _ R1)|exact (ro_queue _ _ _ _ R1)|exact (ro_working _ _ _ _ R1)|].
      intros x bx Ex. cbn [members]. rewrite V3. fold s in Ex. destruct (decide (x = st)) as [->|Hne]; [|by apply G2]. rewrite V2. f_equal. symmetry. by apply Hsame.
    - rewrite (find_last s1 h2 o (LRUMemCache.lruItems h1) (mkItem b st)); [by unfold h2; cbn; rewrite Esz|done|lia|done|]. unfold h2; cbn. by rewrite Esz.
    - unfold h2; cbn. rewrite length_app; cbn. replace (length (LRUMemCache.lruItems h1) + 1 - 1)%nat with (length (LRUMemCache.lruItems h1)) by lia. by rewrite list_lookup_middle.
    - cbn. by rewrite V3.
    - exact Hsame. }
  destruct (Z.eqb_spec off (-1)) as [Eoff|Eoff].
  - assert (Eb : b = replicate (Z.to_nat (blocksize s1)) nul) by (unfold b, block_content; by rewrite Eoff). rewrite <- Eb.
    rewrite (write_buf_spec h0 i (mkItem b0 st) 0 b); [|done|cbn; by rewrite Esz|lia|cbn; rewrite Esz; lia].
    cbn [rbind item_offset buffer]. rewrite zsplice_all, Eset by lia. exists b, (mk _ (Some h2) s1), h2. split; [done|].
    assert (E1 : with_file (uncompressedFile s1) s1 = s1) by (by destruct s1). pose proof (Fin (uncompressedFile s1) eq_refl) as X. by rewrite E1 in X.
  - destruct Hp as [|(z & b' & _ & Hs & Hd & Hz)]; [done|]. assert (b' = b) as -> by (symmetry; by eapply content_stored).
    destruct (fill_buffer_spec o off i (mkItem b0 st) h0 s1 z b Io1 Hs Hd Hz Ei) as (f & -> & Ecf); [cbn; lia|unfold h0; cbn; congruence|].
    cbn [rbind item_offset]. rewrite Eset. exists b, (mk _ (Some h2) (with_file f s1)), h2. split; [done|]. by apply Fin.
Qed.
End Fill.
