(* ===== verification/CompOps.v ===== *)
(** Reading and writing a compressed file. *)
From S2P Require Import Prelude MemFile MemCache CompressedFile MemCacheSpec CompSpec CompFill.
Import CompressedFile.

Section Ops.
Context {F : Type} `{FileLaws F} `{CodecLaws} (junk : nat -> bytes).
Implicit Types (s : own F) (c : t F) (h : LRUMemCache.t).

Lemma move_spec s h p n : cache_inv h s -> cache_inv h (with_filesize n (with_position p s)) /\
  forall o, view h (with_filesize n (with_position p s)) o = view h s o.
Proof. intros I. apply cache_inv_client; try done. destruct (ci_client _ _ I). by split. Qed.

(** The uncompressed file: every byte of [d] is in a block that the cache or the backing
    file has. *)
Record holds c h (d : bytes) : Prop := {
  ho_len : zlen d = filesize (members c);
  ho_bytes : forall x, 0 <= x < zlen d -> exists b, view h (members c) (start (blocksize (members c)) x) = Some b /\
    znth nul b (x mod blocksize (members c)) = znth nul d x }.
Lemma holds_goes c h c' h' d : holds c h d -> goes_on c h c' h' -> holds c' h' d.
Proof.
  intros [Hl Hb] [Hs _ _ _ G]. unfold same_shape, shape in Hs. injection Hs as E1 _ E3 _ _ _ _ _. split; [by rewrite E1|]. intros x Hx.
  destruct (Hb x Hx) as (b & E & Eb). exists b. rewrite E3. split; [by apply G|done].
Qed.
(** A byte's block has the block's bytes. *)
Lemma holds_sub c h d o p k : own_ok (members c) -> holds c h d -> 0 <= p -> 0 <= k -> p + k <= zlen d -> p mod blocksize (members c) + k <= blocksize (members c) ->
  (forall b', view h (members c) (start (blocksize (members c)) p) = Some b' -> b' = o) -> zlen o = blocksize (members c) -> zsub (p mod blocksize (members c)) k o = zsub p k d.
Proof.
  intros I [Hl Hb] Hp Hk Hpk Hm Ho Hlo. set (bs := blocksize (members c)) in *. pose proof (oo_size _ I) as Hbs. fold bs in Hbs. pose proof (Z.mod_pos_bound p bs ltac:(lia)).
  apply (list_eq_znth nul); [by rewrite !zlen_zsub by lia|]. rewrite zlen_zsub by lia. intros i Hi. rewrite !znth_zsub by lia.
  destruct (Hb (p + i)) as (b & E & Eb); [lia|]. destruct (start_spec bs p) as (S1 & S2 & S3 & _); [lia|done|].
  assert (Es : start bs (p + i) = start bs p) by (apply start_unique; unfold start in *; lia). rewrite Es in E. rewrite <- (Ho b E), <- Eb. f_equal.
  unfold start in Es. lia.
Qed.

(** ** A block to read from *)

(** A block that no thread has. *)
Definition at_rest h (o : Z) : Prop := o ∉ item_offset <$> (LRUMemCache.evictedItems h ++ LRUMemCache.working h).
Lemma idle_rest h o : idle h -> at_rest h o.
Proof. intros (_ & E1 & E2). unfold at_rest. rewrite E1, E2. apply not_elem_of_nil. Qed.
Lemma rest_all h o : at_rest h o -> o ∉ item_offset <$> LRUMemCache.lruItems h -> o ∉ item_offset <$> all_items h.
Proof. intros H1' H2'. unfold all_items. rewrite fmap_app, elem_of_app. by intros [?|?]. Qed.

(** The cache has the block, with what was known of it. *)
Record in_cache c h pos p b c' h' : Prop := {
  ic_cached : cached c' h';
  ic_goes : goes_on c h c' h';
  ic_get : cache_get pos c' = Some (p, blocksize (members c) - pos mod blocksize (members c));
  ic_bytes : cache_bytes p c' = zdrop (pos mod blocksize (members c)) b;
  ic_len : zlen b = blocksize (members c);
  ic_in : start (blocksize (members c)) pos ∈ item_offset <$> LRUMemCache.lruItems h';
  ic_view : view h' (members c') (start (blocksize (members c)) pos) = Some b;
  ic_same : forall b', view h (members c) (start (blocksize (members c)) pos) = Some b' -> b' = b }.

Lemma lookup_block_spec c h pos : cached c h -> 0 <= pos < 2 ^ 49 -> at_rest h (start (blocksize (members c)) pos) ->
  (lookup_block junk pos c = Ret (None, false, c) /\ cache_get pos c = None /\ fillCache junk pos c = Ret (false, false, c) /\
   start (blocksize (members c)) pos ∉ item_offset <$> all_items h /\ view h (members c) (start (blocksize (members c)) pos) = None) \/
  exists p b c' h', lookup_block junk pos c = Ret (Some (p, blocksize (members c) - pos mod blocksize (members c)), false, c') /\ in_cache c h pos p b c' h' /\
    ((exists q, cache_get pos c = Some q /\ c' = c) \/ (cache_get pos c = None /\ fillCache junk pos c = Ret (true, false, c'))).
Proof.
  intros Hc Hp Hr. pose proof Hc as [Ec I Es Ef Efs]. pose proof (find_spec h (members c) pos I (proj1 Hp)) as Hf. rewrite Es in Hf.
  destruct (LRUMemCache.find h pos) as [[i inner]|] eqn:Efi.
  - right. destruct Hf as (it & Ei & Eo & ->). destruct (lru_ok _ _ _ _ I Ei) as (Hl & _). rewrite Es in Hl.
    assert (Hg : cache_get pos c = Some ((i, pos mod blocksize (members c)), blocksize (members c) - pos mod blocksize (members c))).
    { unfold cache_get. rewrite Ec. unfold LRUMemCache.get. by rewrite Efi, Es. }
    exists (i, pos mod blocksize (members c)), (buffer it), c, h. unfold lookup_block. rewrite Hg. split; [done|]. split.
    + split; try done.
      * unfold cache_bytes. rewrite Ec. unfold LRUMemCache.pointee; cbn. by rewrite Ei.
      * rewrite <- Eo. apply list_elem_of_fmap_2. by eapply list_elem_of_lookup_2.
      * rewrite <- Eo. by apply (lru_view h _ i).
      * intros b'. rewrite <- Eo, (lru_view h _ i) by done. congruence.
    + left. by eexists.
  - pose proof (rest_all h _ Hr Hf) as Hn. assert (Hg : cache_get pos c = None) by (unfold cache_get; rewrite Ec; unfold LRUMemCache.get; by rewrite Efi).
    destruct (fillCache_spec junk c h pos Hc Hp Hn) as [[E V]|(b & c' & h' & E & Fl)]; unfold lookup_block; rewrite Hg, E; cbn [rbind].
    + by left.
    + right. destruct Fl as [C' G Fi La V Sm]. set (n := (length (LRUMemCache.lruItems h') - 1)%nat) in *. pose proof C' as [Ec' I' Es' _ _].
      assert (Ebs : LRUMemCache.buffersize h' = blocksize (members c)).
      { rewrite <- Es. pose proof (go_config _ _ _ _ G) as X. unfold config in X. by injection X. }
      assert (Eg : LRUMemCache.get pos h' = Some ((n, pos mod blocksize (members c)), blocksize (members c) - pos mod blocksize (members c))).
      { unfold LRUMemCache.get. by rewrite Fi, Ebs. }
      exists (n, pos mod blocksize (members c)), b, c', h'. split; [unfold cache_get; by rewrite Ec', Eg|]. split.
      * split; try done.
        -- unfold cache_get. by rewrite Ec'.
        -- unfold cache_bytes. rewrite Ec'. unfold LRUMemCache.pointee; cbn. by rewrite La.
        -- destruct (lru_ok _ _ _ _ I' La) as (Hl & _). cbn in Hl. congruence.
        -- change (start (blocksize (members c)) pos) with (item_offset (mkItem b (start (blocksize (members c)) pos))). apply list_elem_of_fmap_2. by eapply list_elem_of_lookup_2.
      * by right.
Qed.

(** ** Reading *)

(** A call that leaves the file and moves the position. *)
Definition moved c c' (p : Z) : Prop := shape (members c') = shape (with_position p (members c)).

Lemma read_loop_spec rounds : forall n c h d, cached c h -> idle h -> holds c h d -> 0 <= n -> 0 <= currentPosition (members c) <= zlen d -> (Z.to_nat n < rounds)%nat ->
  exists c' h', read_loop junk rounds n c = Ret (zsub (currentPosition (members c)) n d, false, c') /\ cached c' h' /\ idle h' /\ holds c' h' d /\
    moved c c' (currentPosition (members c) + zlen (zsub (currentPosition (members c)) n d)).
Proof.
  induction rounds as [|k IH]; intros n c h d Hc Hi Hd Hn Hp Hr; [lia|]. pose proof Hc as [Ec I Es Ef Efs]. pose proof (ci_client _ _ I) as Io. pose proof (oo_size _ Io) as Hbs.
  set (pos := currentPosition (members c)) in *. pose proof (Z.mod_pos_bound pos (blocksize (members c)) ltac:(lia)) as Hm. pose proof (ho_len _ _ _ Hd) as Hl.
  cbn [read_loop]. rewrite Ef, bool_decide_false by congruence. fold pos.
  assert (Hnil : zlen d <= pos \/ n = 0 -> zsub pos n d = []).
  { intros [Hx| ->]; [|done]. unfold zsub. rewrite zdrop_ge by done. unfold ztake. apply take_nil. }
  destruct (lookup_block_spec c h pos Hc ltac:(lia) (idle_rest _ _ Hi)) as [(E & _ & _ & _ & V)|(p & b & c1 & h1 & E & [C1 G1 _ Eb Elb _ V Sm] & _)]; rewrite E; cbn [rbind].
  - rewrite Hnil; [|left]. { exists c, h. split; [done|]. split; [done|]. split; [done|]. split; [done|]. unfold moved. cbn. rewrite Z.add_0_r. by destruct (members c). }
    destruct (Z.le_gt_cases (zlen d) pos); [done|]. destruct (ho_bytes _ _ _ Hd pos) as (b & E' & _); [lia|]. congruence.
  - pose proof (go_shape _ _ _ _ G1) as Hs. unfold same_shape, shape in Hs. injection Hs as X1 X2 X3 X4 X5 X6 X7 X8. fold pos in X4. rewrite X1, X4. rewrite <- Hl.
    pose proof (holds_goes _ _ _ _ _ Hd G1) as Hd1. pose proof (goes_on_idle _ _ _ _ G1 Hi) as Hi1.
    set (cs := blocksize (members c) - pos mod blocksize (members c)).
    set (can := if zlen d <? pos + Z.min n cs then w64 (zlen d - pos) else Z.min n cs).
    assert (Ecan : can = Z.min n (Z.min cs (zlen d - pos))) by (unfold can; destruct (Z.ltb_spec (zlen d) (pos + Z.min n cs)); rewrite ?w64_id; lia).
    destruct (Z.eqb_spec can 0) as [E0|E0].
    { rewrite Hnil by lia. exists c1, h1. split; [done|]. split; [done|]. split; [done|]. split; [done|]. unfold moved, shape; cbn. rewrite Z.add_0_r. congruence. }
    rewrite (proj2 (Z.ltb_ge cs can)), (proj2 (Z.ltb_ge n can)) by lia. cbn [orb].
    assert (Epiece : ztake can (cache_bytes p c1) = zsub pos can d).
    { rewrite Eb. apply (holds_sub c h d b pos can Io Hd); try lia. exact Sm. }
    rewrite Epiece. set (c2 := with_members (with_position (pos + can) (members c1)) c1).
    destruct (move_spec (members c1) h1 (pos + can) (filesize (members c1)) (ca_inv _ _ C1)) as [I2 V2]. change (with_filesize _ _) with (members c2) in I2, V2.
    assert (C2 : cached c2 h1) by (destruct C1; by split).
    assert (Hd2 : holds c2 h1 d) by (destruct Hd1 as [A B]; split; [done|]; intros x Hx; destruct (B x Hx) as (b' & ? & ?); exists b'; rewrite V2; done).
    assert (Hspl : zsub pos n d = zsub pos can d ++ zsub (pos + can) (n - can) d).
    { replace n with (can + (n - can)) at 1 by lia. by apply zsub_split; lia. }
    destruct (Z.ltb_spec can n) as [Hlt|Hge].
    + destruct (IH (n - can) c2 h1 d C2 Hi1 Hd2) as (c' & h' & E' & C' & Hi' & Hd' & M'); [lia|cbn; lia|lia|]. change (currentPosition (members c2)) with (pos + can) in *.
      rewrite E'. cbn [rbind]. exists c', h'. rewrite Hspl. split; [done|]. split; [done|]. split; [done|]. split; [done|].
      unfold moved, shape in *. cbn in M' |- *. rewrite M', zlen_app, (zlen_zsub pos can) by lia. rewrite Z.add_assoc. congruence.
    + exists c2, h1. assert (can = n) as -> by lia. split; [done|]. split; [done|]. split; [done|]. split; [done|].
      unfold moved, shape. cbn. rewrite zlen_zsub by lia. congruence.
Qed.

(** ** Writing *)

Lemma file_write_app (d b1 b2 : bytes) p : 0 <= p <= zlen d -> file_write (file_write d p b1) (p + zlen b1) b2 = file_write d p (b1 ++ b2).
Proof.
  intros Hp. pose proof (zlen_nonneg b1). pose proof (zlen_nonneg b2).
  assert (L : zlen (file_write (file_write d p b1) (p + zlen b1) b2) = zlen (file_write d p (b1 ++ b2))).
  { rewrite !zlen_file_write by lia. rewrite zlen_app. lia. }
  apply (list_eq_znth nul); [done|]. intros i Hi. rewrite L, zlen_file_write, zlen_app in Hi by lia.
  rewrite (znth_file_write d p (b1 ++ b2)) by (rewrite ?zlen_app; lia).
  rewrite (znth_file_write _ (p + zlen b1) b2) by (rewrite ?zlen_file_write by lia; lia). rewrite zlen_app, zlen_file_write by lia.
  destruct (Z.leb_spec (p + zlen b1) i) as [A|A]; cbn [andb].
  - rewrite (proj2 (Z.leb_le p i)) by lia. cbn [andb]. destruct (Z.ltb_spec i (p + zlen b1 + zlen b2)) as [B|B].
    + rewrite (proj2 (Z.ltb_lt i _)) by lia. rewrite znth_app_r by lia. f_equal; lia.
    + rewrite (proj2 (Z.ltb_ge i (p + (zlen b1 + zlen b2)))), (proj2 (Z.ltb_lt i (zlen d))), (proj2 (Z.ltb_lt i _)) by lia.
      rewrite znth_file_write by lia. rewrite (proj2 (Z.leb_le p i)), (proj2 (Z.ltb_ge i _)), (proj2 (Z.ltb_lt i _)) by lia. done.
  - rewrite (proj2 (Z.ltb_lt i (zlen d `max` _))) by lia. rewrite znth_file_write by lia. rewrite (proj2 (Z.ltb_lt i (p + zlen b1))), (proj2 (Z.ltb_lt i (p + _))) by lia.
    destruct (Z.leb_spec p i); cbn [andb]; [|done]. by rewrite znth_app_l by lia.
Qed.

(** One piece, in one block: what it leaves of the blocks. *)
Record pieced c h pos (b : bytes) c' h' : Prop := {
  pi_cached : cached c' h';
  pi_shape : same_shape (members c) (members c');
  pi_config : config h' = config h;
  pi_queue : LRUMemCache.n_threads h <= zlen (LRUMemCache.evictedItems h) -> LRUMemCache.evictedItems h' = LRUMemCache.evictedItems h;
  pi_working : LRUMemCache.working h' = LRUMemCache.working h;
  pi_block : exists b0, zlen b0 = blocksize (members c) /\
    (forall b', view h (members c) (start (blocksize (members c)) pos) = Some b' -> b' = b0) /\
    view h' (members c') (start (blocksize (members c)) pos) = Some (zsplice (pos mod blocksize (members c)) b b0);
  pi_others : forall o b', o <> start (blocksize (members c)) pos -> view h (members c) o = Some b' -> view h' (members c') o = Some b' }.

(** [Write] looks the block up, fills the cache where it can, and puts the bytes. *)
Definition write_block (pos : Z) (b : bytes) c : run (bool * t F) :=
  let* (e, c) := match cache_get pos c with
                 | Some _ => Ret (false, c)
                 | None => let* (_, e, c) := fillCache junk pos c in Ret (e, c)
                 end in
  if error (members c) then Ret (e, c) else let* c := cache_put junk pos b c in Ret (e, c).

Lemma put_piece c h pos b : cached c h -> readOnly (members c) = false -> 0 <= pos < 2 ^ 49 ->
  pos mod blocksize (members c) + zlen b <= blocksize (members c) ->
  (start (blocksize (members c)) pos ∈ item_offset <$> LRUMemCache.lruItems h \/
   (start (blocksize (members c)) pos ∉ item_offset <$> all_items h /\ view h (members c) (start (blocksize (members c)) pos) = None)) ->
  exists c' h', cache_put junk pos b c = Ret c' /\ pieced c h pos b c' h'.
Proof.
  intros [Ec I Es Ef Efs] Hro Hp Hb Hin. set (bs := blocksize (members c)) in *. pose proof (oo_size _ (ci_client _ _ I)) as Hbs. fold bs in Hbs.
  destruct (start_spec bs pos) as (S1 & S2 & S3 & _); [lia|lia|].
  destruct (cache_put_spec junk pos b h (members c) I Hp) as (b0 & h' & s' & E & Hl0 & I' & Hs & Ecf & Hq & Hw & Hv0 & V' & G'); rewrite Es in *; [done| | |].
  - destruct Hin as [?|[? _]]; [by left|by right].
  - intros b' s' Hs Hl. unfold same_client in Hs; cbn in Hs. injection Hs as _ _ X3 _ _ _ X7 _. fold bs in X3. split; [split; [cbn; congruence|]|].
    + split; [cbn; lia|]. cbn. by rewrite X3.
    + intros Er. congruence.
  - unfold cache_put. rewrite Ec, E. cbn [rbind]. exists (mk _ (Some h') s'), h'. split; [done|].
    assert (Hs' : same_shape (members c) s') by exact Hs. pose proof Hs' as X. unfold same_shape, shape in X. injection X as X1 _ X3 _ _ X6 _ _. fold bs in X3. split; try done.
    + split; try done; cbn.
      * unfold config in Ecf. injection Ecf as -> _ _. congruence.
      * congruence.
      * by rewrite X1.
    + exists b0. split; [done|]. split; [|done]. fold bs. intros b' Eb'. destruct Hin as [Hin|[_ En]]; [|congruence]. rewrite (Hv0 Hin) in Eb'. congruence.
Qed.
Lemma write_block_spec c h pos b : cached c h -> readOnly (members c) = false -> 0 <= pos < 2 ^ 49 -> at_rest h (start (blocksize (members c)) pos) ->
  pos mod blocksize (members c) + zlen b <= blocksize (members c) -> exists c' h', write_block pos b c = Ret (false, c') /\ pieced c h pos b c' h'.
Proof.
  intros Hc Hro Hp Hr Hb. unfold write_block.
  destruct (lookup_block_spec c h pos Hc Hp Hr) as [(_ & Eg & Ef & Hn & V)|(p & b1 & c1 & h1 & _ & [C1 G1 _ _ Hl1 Hin1 V1 Sm1] & Hcase)].
  - rewrite Eg, Ef. cbn [rbind]. rewrite (oo_error _ (ci_client _ _ (ca_inv _ _ Hc))).
    destruct (put_piece c h pos b Hc Hro Hp Hb) as (c' & h' & -> & P); [by right|]. by exists c', h'.
  - assert (X : match cache_get pos c with Some _ => Ret (false, c) | None => let* (_, e, c) := fillCache junk pos c in Ret (e, c) end = Ret (false, c1)).
    { destruct Hcase as [(q & -> & ->)|[-> ->]]; done. }
    rewrite X. cbn [rbind]. rewrite (oo_error _ (ci_client _ _ (ca_inv _ _ C1))). destruct G1 as [Gs Gc Gq Gw Gv].
    pose proof Gs as Y. unfold same_shape, shape in Y. injection Y as Y1 Y2 Y3 Y4 Y5 Y6 Y7 Y8.
    destruct (put_piece c1 h1 pos b) as (c' & h' & -> & [P1 P2 P3 P4 P5 P6 P7]); [done|congruence|done|by rewrite Y3|left; by rewrite Y3|]. rewrite Y3 in *.
    cbn [rbind]. exists c', h'. split; [done|]. split; [done|by transitivity (members c1)|congruence| |congruence| |].
    + intros Hq. assert (E3 := Gq Hq). rewrite P4; [done|]. unfold config in Gc. rewrite E3. by injection Gc as _ _ ->.
    + destruct P6 as (b0 & L0 & S0 & V0). exists b0. split; [done|]. split; [|done]. intros b' E. rewrite (Sm1 _ E). by apply S0.
    + intros o b' Hne E. apply P7; [done|]. by apply Gv.
Qed.

(** The bytes after a piece has been written, up to the end of the file or of the piece. *)
Lemma pieced_holds c h pos b c' h' n d : own_ok (members c) -> holds c h d -> pieced c h pos b c' h' -> 0 <= pos <= zlen d ->
  pos mod blocksize (members c) + zlen b <= blocksize (members c) -> n = Z.max (zlen d) (pos + zlen b) ->
  forall p, holds (with_members (with_filesize n (with_position p (members c'))) c') h' (file_write d pos b).
Proof.
  intros I [Hl Hb] [P1 P2 P3 P4 P5 P6 P7] Hp Hm -> p. set (bs := blocksize (members c)) in *. pose proof (oo_size _ I) as Hbs. fold bs in Hbs.
  pose proof (zlen_nonneg b). pose proof (Z.mod_pos_bound pos bs ltac:(lia)). unfold same_shape, shape in P2. injection P2 as _ _ X3 _ _ _ _ _. fold bs in X3.
  destruct (move_spec (members c') h' p (Z.max (zlen d) (pos + zlen b)) (ca_inv _ _ P1)) as [_ V].
  split; [by rewrite zlen_file_write by lia|]. cbn [members with_members]. intros x Hx. rewrite zlen_file_write in Hx by lia.
  cbn [blocksize with_filesize with_position]. rewrite X3. setoid_rewrite V. rewrite znth_file_write by lia.
  destruct P6 as (b0 & L0 & S0 & V0). destruct (start_spec bs pos) as (S1 & S2 & S3 & _); [lia|lia|].
  assert (Hin : start bs x = start bs pos <-> start bs pos <= x < start bs pos + bs).
  { destruct (start_spec bs x) as (T1 & T2 & T3 & _); [lia|lia|]. split; [intros <-; lia|]. intros ?. apply start_unique; (done || lia). }
  destruct (decide (start bs x = start bs pos)) as [E|E].
  - pose proof (proj1 Hin E) as Hx'. rewrite E. exists (zsplice (pos mod bs) b b0). split; [done|].
    assert (Ex : x mod bs = x - start bs pos) by (unfold start in E |- *; lia). assert (Ep : pos mod bs = pos - start bs pos) by (unfold start; lia).
    unfold zsplice. rewrite Ex. destruct (Z.leb_spec pos x) as [A|A]; cbn [andb].
    + rewrite znth_app_r; rewrite ?zlen_ztake by lia; [|lia]. replace (x - start bs pos - Z.min (pos mod bs) (zlen b0)) with (x - pos) by lia.
      destruct (Z.ltb_spec x (pos + zlen b)); [by rewrite znth_app_l by lia|]. rewrite (proj2 (Z.ltb_lt _ _)) by lia.
      rewrite znth_app_r by lia. rewrite znth_zdrop by lia. destruct (Hb x) as (b' & Eb & <-); [lia|]. rewrite E in Eb. rewrite (S0 _ Eb). f_equal. lia.
    + rewrite (proj2 (Z.ltb_lt _ _)) by lia. rewrite znth_app_l by (rewrite zlen_ztake; lia). rewrite znth_ztake by lia.
      destruct (Hb x) as (b' & Eb & <-); [lia|]. rewrite E in Eb. rewrite (S0 _ Eb). by rewrite Ex.
  - assert (Hout : ~ (pos <= x < pos + zlen b)) by (intros ?; apply E, Hin; unfold start in *; lia).
    assert (Hd : x < zlen d) by lia. destruct (Hb x) as (b' & Eb & <-); [lia|]. exists b'. split; [by apply P7|].
    destruct (Z.leb_spec pos x); cbn [andb]; [rewrite (proj2 (Z.ltb_ge _ _)) by lia|]; by rewrite (proj2 (Z.ltb_lt _ _)) by lia.
Qed.

Lemma write_loop_block k b c : write_loop junk (S k) b c =
  let s := members c in
  if finished s then AssertFails
  else if (blocksize s =? 0) || bool_decide (hotCache c = None) then Crashes
  else
    let pos := currentPosition s in
    let maxWrite := w32 ((Z.quot pos (blocksize s) + 1) * blocksize s - pos) in
    let write := if maxWrite <? zlen b then maxWrite else zlen b in
    let* (e, c) := match cache_get pos c with
                   | Some _ => Ret (false, c)
                   | None => let* (_, e, c) := fillCache junk pos c in Ret (e, c)
                   end in
    if error (members c) then Ret (0, e, with_members (with_error false (members c)) c)
    else
      let* c := cache_put junk pos (ztake write b) c in
      let s := with_position (currentPosition (members c) + write) (members c) in
      if error s then Ret (0, e, with_members (with_error false s) c)
      else
        let c := with_members (if filesize s <? currentPosition s then with_filesize (currentPosition s) s else s) c in
        if maxWrite <? zlen b then let* (n, _, c) := write_loop junk k (zdrop write b) c in Ret (w32 (write + n), e, c)
        else Ret (write, e, c).
Proof. done. Qed.

(** A round of the loop, when it gets on. *)
Lemma write_round k b c h d : cached c h -> readOnly (members c) = false -> holds c h d -> 0 <= currentPosition (members c) <= zlen d ->
  at_rest h (start (blocksize (members c)) (currentPosition (members c))) -> currentPosition (members c) + zlen b < 2 ^ 49 ->
  let pos := currentPosition (members c) in
  let w := Z.min (zlen b) (blocksize (members c) - pos mod blocksize (members c)) in
  exists c' h' c2, pieced c h pos (ztake w b) c' h' /\ c2 = with_members (with_filesize (zlen (file_write d pos (ztake w b))) (with_position (pos + w) (members c'))) c' /\
    cached c2 h' /\ holds c2 h' (file_write d pos (ztake w b)) /\
    write_loop junk (S k) b c = if w <? zlen b then let* (n, _, c) := write_loop junk k (zdrop w b) c2 in Ret (w32 (w + n), false, c) else Ret (w, false, c2).
Proof.
  intros Hc Hro Hd Hp Hr Hsz pos w. pose proof Hc as [Ec I Es Ef Efs]. pose proof (ci_client _ _ I) as Io. pose proof (oo_size _ Io) as Hbs. pose proof (zlen_nonneg b).
  pose proof (ho_len _ _ _ Hd) as Hl. pose proof (Z.mod_pos_bound pos (blocksize (members c)) ltac:(lia)) as Hm.
  assert (Hw : 0 <= w /\ zlen (ztake w b) = w) by (unfold w; rewrite zlen_ztake by lia; lia). destruct Hw as [Hw0 Hw].
  destruct (write_block_spec c h pos (ztake w b) Hc Hro) as (c' & h' & E & P); [unfold pos; lia|done|rewrite Hw; unfold w; lia|].
  exists c', h'. eexists. split; [done|]. split; [reflexivity|].
  assert (Ln : zlen (file_write d pos (ztake w b)) = Z.max (zlen d) (pos + zlen (ztake w b))) by (apply zlen_file_write; unfold pos; lia).
  pose proof (pieced_holds c h pos (ztake w b) c' h' _ d Io Hd P Hp ltac:(rewrite Hw; unfold w; lia) Ln (pos + w)) as Hd2. set (c2 := with_members _ c') in *.
  destruct P as [P1 P2 P3 P4 P5 P6 P7]. destruct (move_spec (members c') h' (pos + w) (zlen (file_write d pos (ztake w b))) (ca_inv _ _ P1)) as [I2 _].
  assert (C2 : cached c2 h') by (destruct P1; split; try done; cbn; rewrite Ln, Hw; unfold w, pos in *; lia).
  split; [done|]. split; [done|]. rewrite write_loop_block. cbv zeta. fold pos. rewrite Ef, (proj2 (Z.eqb_neq (blocksize (members c)) 0)), bool_decide_false by (congruence || lia). cbn [orb].
  assert (Emw : w32 ((Z.quot pos (blocksize (members c)) + 1) * blocksize (members c) - pos) = blocksize (members c) - pos mod blocksize (members c)).
  { rewrite Z.quot_div_nonneg by (unfold pos; lia). pose proof (Z.div_mod pos (blocksize (members c))). rewrite w32_id; lia. }
  rewrite Emw. assert (Ew : (if blocksize (members c) - pos mod blocksize (members c) <? zlen b then blocksize (members c) - pos mod blocksize (members c) else zlen b) = w).
  { unfold w. destruct (Z.ltb_spec (blocksize (members c) - pos mod blocksize (members c)) (zlen b)); lia. }
  rewrite Ew. assert (Elt : (blocksize (members c) - pos mod blocksize (members c) <? zlen b) = (w <? zlen b)).
  { unfold w. destruct (Z.ltb_spec (blocksize (members c) - pos mod blocksize (members c)) (zlen b)), (Z.ltb_spec (Z.min (zlen b) (blocksize (members c) - pos mod blocksize (members c))) (zlen b)); lia || done. }
  rewrite Elt. unfold write_block in E.
  unfold same_shape, shape in P2. injection P2 as X1 X2 X3 X4 X5 X6 X7 X8.
  destruct (match cache_get pos c with Some _ => Ret (false, c) | None => _ end) as [[e c1]| | | |]; try done. cbn [rbind] in E |- *.
  destruct (error (members c1)) eqn:Ee1.
  { injection E as -> ->. exfalso. pose proof (oo_error _ (ci_client _ _ (ca_inv _ _ P1))). congruence. }
  destruct (cache_put junk pos (ztake w b) c1) as [c3| | | |]; try done. cbn [rbind] in E |- *. injection E as -> ->. cbn [error with_position].
  rewrite (oo_error _ (ci_client _ _ (ca_inv _ _ P1))). cbn [filesize currentPosition with_position]. rewrite X4, X1. fold pos.
  replace (with_members (if filesize (members c) <? pos + w then _ else _) c') with c2; [done|]. unfold c2. f_equal. rewrite Ln, Hw, Hl.
  destruct (Z.ltb_spec (filesize (members c)) (pos + w)); [by rewrite Z.max_r by lia|]. rewrite Z.max_l, <- X1 by lia. done.
Qed.

Lemma pieced_idle c h pos b c' h' : pieced c h pos b c' h' -> idle h -> idle h'.
Proof.
  intros [_ _ A2 A3 A4 _ _] (I1 & I2 & I3). unfold config in A2. injection A2 as _ _ A2.
  split; [congruence|]. split; [|congruence]. rewrite A3; [done|]. rewrite I1, I2. done.
Qed.

(** Without threads the loop writes all of the buffer. *)
Lemma write_loop_spec rounds : forall b c h d, cached c h -> idle h -> readOnly (members c) = false -> holds c h d ->
  0 <= currentPosition (members c) <= zlen d -> currentPosition (members c) + zlen b < 2 ^ 49 -> zlen b < 2 ^ 32 -> (length b < rounds)%nat ->
  exists c' h', write_loop junk rounds b c = Ret (zlen b, false, c') /\ cached c' h' /\ idle h' /\ holds c' h' (file_write d (currentPosition (members c)) b) /\
    shape (members c') = shape (with_filesize (zlen (file_write d (currentPosition (members c)) b)) (with_position (currentPosition (members c) + zlen b) (members c))).
Proof.
  induction rounds as [|k IH]; intros b c h d Hc Hi Hro Hd Hp Hsz H32 Hr; [lia|].
  destruct (write_round k b c h d Hc Hro Hd Hp (idle_rest _ _ Hi) Hsz) as (c1 & h1 & c2 & P & Ec2 & C2 & Hd2 & E). rewrite E.
  set (pos := currentPosition (members c)) in *. set (w := Z.min (zlen b) _) in *. pose proof (pieced_idle _ _ _ _ _ _ P Hi) as Hi2.
  pose proof (oo_size _ (ci_client _ _ (ca_inv _ _ Hc))) as Hbs. pose proof (Z.mod_pos_bound pos (blocksize (members c)) ltac:(lia)) as Hm. pose proof (zlen_nonneg b).
  assert (Hw : zlen (ztake w b) = w) by (unfold w; rewrite zlen_ztake by lia; lia).
  pose proof (pi_shape _ _ _ _ _ _ P) as Hs. unfold same_shape, shape in Hs. injection Hs as X1 X2 X3 X4 X5 X6 X7 X8.
  destruct (Z.ltb_spec w (zlen b)) as [Hlt|Hge].
  - assert (Hw0 : 0 < w) by (unfold w; lia). assert (Hlz : zlen (zdrop w b) = zlen b - w) by (rewrite zlen_zdrop; lia).
    assert (Ep2 : currentPosition (members c2) = pos + w) by (by rewrite Ec2). destruct (IH (zdrop w b) c2 h1 (file_write d pos (ztake w b)) C2 Hi2) as (c' & h' & E' & C' & Hi' & Hd' & M').
    + rewrite Ec2. cbn. congruence.
    + done.
    + rewrite Ep2, zlen_file_write by lia. lia.
    + rewrite Ep2. lia.
    + lia.
    + unfold zlen in *. lia.
    + rewrite E'. cbn [rbind]. exists c', h'. rewrite Hlz, w32_id by lia. replace (w + (zlen b - w)) with (zlen b) by lia.
      assert (Ea : file_write (file_write d pos (ztake w b)) (pos + w) (zdrop w b) = file_write d pos b).
      { rewrite <- Hw at 2. rewrite file_write_app by lia. by rewrite ztake_zdrop. }
      rewrite Ep2, Ea in *. split; [done|]. split; [done|]. split; [done|]. split; [done|]. rewrite M', Ec2. unfold shape. cbn. rewrite Hlz.
      replace (pos + w + (zlen b - w)) with (pos + zlen b) by lia. congruence.
  - assert (Ew : w = zlen b) by (unfold w in *; lia). rewrite Ew, ztake_ge in * by lia. exists c2, h1. split; [done|]. split; [done|]. split; [done|]. split; [done|].
    rewrite Ec2. unfold shape. cbn. congruence.
Qed.
End Ops.

(** ** Sequences of calls *)

(** [Read(spos, ...)] and [Write(spos, ...)], as on a plain file. *)
Inductive comp_op := CRead (spos n : Z) | CWrite (spos : Z) (b : bytes).
Inductive comp_result := CBytes (b : bytes) | CCount (n : Z).
Definition plain_step (op : comp_op) (d : bytes) : comp_result * bytes :=
  match op with
  | CRead o n => (CBytes (file_read d o n), d)
  | CWrite o b => (CCount (zlen b), file_write d o b)
  end.
Fixpoint plain_run (ops : list comp_op) (d : bytes) : list comp_result * bytes :=
  match ops with
  | [] => ([], d)
  | op :: ops => let '(r, d) := plain_step op d in let '(rs, d) := plain_run ops d in (r :: rs, d)
  end.
(** Positions are inside the file or at its end. *)
Definition comp_op_ok (d : bytes) (op : comp_op) : Prop :=
  match op with
  | CRead o n => 0 <= o <= zlen d /\ 0 <= n
  | CWrite o b => 0 <= o <= zlen d /\ o + zlen b < 2 ^ 49 /\ zlen b < 2 ^ 32
  end.
Fixpoint comp_ops_ok (ops : list comp_op) (d : bytes) : Prop :=
  match ops with [] => True | op :: ops => comp_op_ok d op /\ comp_ops_ok ops (snd (plain_step op d)) end.

Section Run.
Context {F : Type} `{FileLaws F} `{CodecLaws} (junk : nat -> bytes).
Implicit Types (c : t F) (h : LRUMemCache.t).

Definition comp_step (op : comp_op) c : run (comp_result * t F) :=
  match op with
  | CRead o n => let* (b, _, c) := ReadAt junk o n c in Ret (CBytes b, c)
  | CWrite o b => let* (n, _, c) := WriteAt junk o b c in Ret (CCount n, c)
  end.
Fixpoint comp_run (ops : list comp_op) c : run (list comp_result * t F) :=
  match ops with
  | [] => Ret ([], c)
  | op :: ops => let* (r, c) := comp_step op c in let* (rs, c) := comp_run ops c in Ret (r :: rs, c)
  end.

(** An open file without threads that holds the bytes [d]. *)
Record plain_file c (d : bytes) : Prop := {
  pf_cache : exists h, cached c h /\ idle h /\ holds c h d;
  pf_writable : readOnly (members c) = false }.

Lemma seek_spec c h o : cached c h -> Seek o c = Ret (with_members (with_position o (members c)) c) /\ cached (with_members (with_position o (members c)) c) h /\
  forall d, holds c h d -> holds (with_members (with_position o (members c)) c) h d.
Proof.
  intros C. destruct (move_spec (members c) h o (filesize (members c)) (ca_inv _ _ C)) as [I V]. unfold Seek. rewrite (ca_finished _ _ C).
  split; [done|]. split; [destruct C; by split|]. intros d [A B]. split; [done|]. intros x Hx. destruct (B x Hx) as (b & E & ?). exists b. by rewrite <- (V (start _ x)) in E.
Qed.
Lemma comp_step_spec op c d : plain_file c d -> comp_op_ok d op -> exists c', comp_step op c = Ret (fst (plain_step op d), c') /\
  plain_file c' (snd (plain_step op d)) /\ blocksize (members c') = blocksize (members c).
Proof.
  intros [(h & C & Hi & Hd) Hro] Hok. destruct op as [o n|o b]; cbn [comp_step plain_step fst snd].
  - destruct Hok as [Ho Hn]. destruct (seek_spec c h o C) as (E & C1 & Hd1). unfold ReadAt. rewrite E. cbn [rbind]. unfold Read.
    destruct (read_loop_spec junk (S (Z.to_nat n)) n _ h d C1 Hi (Hd1 d Hd) Hn) as (c' & h' & E' & C' & Hi' & Hd' & M); [done|lia|]. rewrite E'. cbn [rbind].
    exists c'. split; [done|]. unfold moved, shape in M. injection M as _ _ X3 _ _ _ X7 _. split; [|exact X3]. split; [by exists h'|]. by rewrite X7.
  - destruct Hok as (Ho & Hs & H32). destruct (seek_spec c h o C) as (E & C1 & Hd1). unfold WriteAt. rewrite E. cbn [rbind]. unfold Write.
    destruct (write_loop_spec junk (S (length b)) b _ h d C1 Hi Hro (Hd1 d Hd)) as (c' & h' & E' & C' & Hi' & Hd' & M); [done|done|done|lia|]. rewrite E'. cbn [rbind].
    exists c'. split; [done|]. unfold shape in M. injection M as _ _ X3 _ _ _ X7 _. split; [|exact X3]. split; [by exists h'|]. by rewrite X7.
Qed.
Lemma comp_run_spec ops : forall c d, plain_file c d -> comp_ops_ok ops d -> exists c', comp_run ops c = Ret (fst (plain_run ops d), c') /\ plain_file c' (snd (plain_run ops d)).
Proof.
  induction ops as [|op ops IH]; intros c d Hp Hok; [by exists c|]. destruct Hok as [Hop Hops]. cbn [comp_run plain_run].
  destruct (comp_step_spec op c d Hp Hop) as (c1 & -> & Hp1 & _). destruct (plain_step op d) as [r d1]. cbn [fst snd rbind] in *.
  destruct (IH c1 d1 Hp1 Hops) as (c' & -> & Hp'). destruct (plain_run ops d1) as [rs d']. cbn [fst snd rbind] in *. by exists c'.
Qed.
End Run.
