(* ===== verification/CompClose.v ===== *)
(** New compressed files, finishing them, and opening them again. *)
From S2P Require Import Prelude MemFile MemCache CompressedFile MemCacheSpec CompSpec CompFill CompOps.
Import CompressedFile.

(** ** A finished file *)

Section Closed.
Context `{CodecLaws}.

(** Places and blocks, by the bytes of the backing file. *)
Definition content_in (D : bytes) (bs off : Z) : bytes :=
  if off =? -1 then replicate (Z.to_nat bs) nul
  else snd (ZSTD_decompress (zsub (off + 8) (le_val (zsub off 4 D)) D) (replicate (Z.to_nat bs) nul)).
Definition place_in (D : bytes) (bs off : Z) : Prop :=
  off = -1 \/ exists z b, c_header_size <= off /\ stored D off z /\ decodes z b /\ zlen b = bs.
Definition header_of (pad : char) (io fs bs : Z) : bytes :=
  headerMagic ++ (headerVersionV1_1 ++ [nul]) ++ le_bytes 8 (w64 io) ++ le_bytes 8 (w64 fs) ++ le_bytes 4 bs ++ [pad].

(** The backing file [D] of a finished file with the bytes [d]. *)
Record closed (D d : bytes) (bs : Z) : Prop := {
  cl_bs : 0 < bs < 2 ^ 31;
  cl_len : 0 < zlen d < 2 ^ 49;
  cl_data : exists pad io offs, zsub 0 c_header_size D = header_of pad io (zlen d) bs /\ c_header_size <= zlen D /\
    0 <= io /\ io + 8 * zlen offs <= zlen D /\ zsub io (8 * zlen offs) D = index_bytes offs /\ 8 * zlen offs < 2 ^ 32 /\
    zlen offs * bs <= 2 ^ 49 + bs /\ Forall (place_in D bs) offs /\
    forall x, 0 <= x < zlen d -> exists off, offs !! Z.to_nat (x / bs) = Some off /\ znth nul (content_in D bs off) (x mod bs) = znth nul d x }.

Lemma zlen_header pad io fs bs : zlen (header_of pad io fs bs) = c_header_size.
Proof. unfold header_of. rewrite !zlen_app, !zlen_le_bytes. reflexivity. Qed.
Lemma zlen_index offs : zlen (index_bytes offs) = 8 * zlen offs.
Proof. induction offs as [|o l IH]; [done|]. unfold index_bytes in *. cbn [map concat]. rewrite zlen_app, zlen_le_bytes, zlen_cons, IH. lia. Qed.
Lemma index_bytes_app l k : index_bytes (l ++ k) = index_bytes l ++ index_bytes k.
Proof. unfold index_bytes. by rewrite map_app, concat_app. Qed.
Lemma index_of_bytes offs : Forall (fun o => - 2 ^ 63 <= o < 2 ^ 63) offs -> forall r, index_of (length offs) (index_bytes offs ++ r) = offs.
Proof.
  induction 1 as [|o l Ho _ IH]; intros r; [done|]. unfold index_bytes in *. cbn [map concat length index_of]. rewrite <- app_assoc.
  assert (E : zlen (le_bytes 8 (w64 o)) = 8) by done.
  assert (T : ztake 8 (le_bytes 8 (w64 o) ++ concat (map (fun o => le_bytes 8 (w64 o)) l) ++ r) = le_bytes 8 (w64 o)) by (rewrite <- E at 1; apply ztake_app_zlen).
  assert (T' : zdrop 8 (le_bytes 8 (w64 o) ++ concat (map (fun o => le_bytes 8 (w64 o)) l) ++ r) = concat (map (fun o => le_bytes 8 (w64 o)) l) ++ r) by (rewrite <- E at 1; apply zdrop_app_zlen).
  rewrite T, T', IH, le_val_le_bytes. f_equal. change (256 ^ Z.of_nat 8) with (2 ^ 64). rewrite Z.mod_small by apply w64_range. by apply s64_w64.
Qed.

(** The header lies in front of all blocks. *)
Lemma stored_head D hd off z : zlen hd = c_header_size -> c_header_size <= zlen D -> c_header_size <= off -> stored D off z -> stored (file_write D 0 hd) off z.
Proof.
  intros Hh HD Ho (A1 & A2 & A3 & E). change c_header_size with 50 in *. pose proof (zlen_nonneg z).
  assert (L : zlen (file_write D 0 hd) = zlen D) by (rewrite zlen_file_write by lia; lia).
  split; [done|]. split; [by rewrite L|]. split; [done|]. rewrite <- E. apply (list_eq_znth nul); [rewrite !zlen_zsub; lia|].
  rewrite zlen_zsub by lia. intros i Hi. rewrite !znth_zsub by lia. rewrite znth_file_write by lia.
  rewrite (proj2 (Z.leb_le 0 _)), (proj2 (Z.ltb_ge _ (0 + zlen hd))), (proj2 (Z.ltb_lt _ (zlen D))) by lia. done.
Qed.
Lemma content_place D bs off z b : 0 <= bs -> stored D off z -> decodes z b -> zlen b = bs -> content_in D bs off = b.
Proof.
  intros Hb Hs Hd Hl. unfold content_in. rewrite (proj2 (Z.eqb_neq _ _)) by (destruct Hs; lia).
  destruct (stored_parts _ _ _ Hs) as (_ & -> & _ & _ & ->). rewrite Hd; [done|]. rewrite zlen_replicate; lia.
Qed.
(** What was written before stays, when the index is appended and the header written. *)
Lemma place_kept D x hd bs off : 0 <= bs -> zlen hd = c_header_size -> c_header_size <= zlen D -> place_in D bs off ->
  place_in (file_write (D ++ x) 0 hd) bs off /\ content_in (file_write (D ++ x) 0 hd) bs off = content_in D bs off.
Proof.
  intros Hb Hh HD [->|(z & b & Ho & Hs & Hd & Hl)]; [by split; [left|]|].
  assert (Hs' : stored (file_write (D ++ x) 0 hd) off z).
  { apply stored_head; [done|rewrite zlen_app; pose proof (zlen_nonneg x); lia|done|by apply stored_app]. }
  split; [right; by exists z, b|]. by rewrite (content_place _ bs off z b Hb Hs' Hd Hl), (content_place _ bs off z b Hb Hs Hd Hl).
Qed.
End Closed.

Section Close.
Context {F : Type} `{FileLaws F} `{CodecLaws} (junk : nat -> bytes) (file_Sync : F -> bool * F) (pad : char).
Hypothesis sync_law : forall f, fst (file_Sync f) = true /\ contents (snd (file_Sync f)) = contents f.
Implicit Types (s : own F) (c : t F) (h : LRUMemCache.t).

(** ** New files *)

Lemma comp_create_spec index0 f nthreads : contents f = [] -> 0 <= nthreads -> exists c h,
  CompressedFile pad index0 f false false nthreads = Ret c /\ cached c h /\ holds c h [] /\ readOnly (members c) = false /\
  blocksize (members c) = c_cacheBuffersize /\ (currentPosition (members c) = 0 /\ blockOffsets (members c) = []) /\
  h = LRUMemCache.init c_cacheBuffersize c_ncacheItems nthreads.
Proof.
  intros Hf Hn. unfold CompressedFile, writeHeader. cbv zeta.
  match goal with |- context [writeToFile 0 ?b ?x] => destruct (writeToFile_spec 0 b x) as (f1 & -> & E1); [lia|] end.
  cbn [uncompressedFile with_header] in E1. rewrite Hf in E1. rewrite (file_write_end [] _ : file_write [] 0 _ = _) in E1. cbn [app] in E1.
  set (hd := header_bytes _ _) in *. assert (Lh : zlen hd = c_header_size) by (unfold hd, header_bytes; by rewrite !zlen_app, !zlen_le_bytes).
  rewrite Lh, Z.eqb_refl. cbn [negb rbind members with_members].
  eexists _, (LRUMemCache.init c_cacheBuffersize c_ncacheItems nthreads). split; [reflexivity|].
  match goal with |- cached ?x ?y /\ _ => set (c := x) end.
  assert (Eb : compressedBufferSize (members c) = Z.max (mz_compressBound c_cacheBuffersize) (ZSTD_compressBound c_cacheBuffersize * 2) + c_blockbufHeadersize).
  { cbn. destruct (Z.ltb_spec (mz_compressBound c_cacheBuffersize + c_blockbufHeadersize) (ZSTD_compressBound c_cacheBuffersize * 2 + c_blockbufHeadersize)); lia. }
  destruct (bound_law c_cacheBuffersize) as [Hb0 _]; [done|]. assert (Ed : data (members c) = hd) by exact E1.
  assert (Io : own_ok (members c)).
  { split; try done.
    - rewrite Ed, Lh. done.
    - intros i Hi. change (0 <= i < 0) in Hi. lia.
    - intros _. cbn. by rewrite size_law.
    - intros _. cbn. replace (Z.to_nat (nthreads + 1)) with (S (Z.to_nat nthreads)) by lia. by exists 0%nat.
    - intros _. rewrite Eb. change (blocksize (members c)) with c_cacheBuffersize. lia. }
  split; [|split; [split; [done|intros x Hx; change (zlen []) with 0 in Hx; lia]|by repeat split]].
  split; try done. split; try done; try by constructor. all: split; by constructor.
Qed.
Lemma init_idle nthreads h : 0 <= nthreads <= 1 -> h = LRUMemCache.init c_cacheBuffersize c_ncacheItems nthreads -> idle h.
Proof. intros Hn ->. split; [|done]. cbn. destruct (Z.ltb_spec 0 nthreads); lia. Qed.

(** ** Finishing *)

Lemma comp_finish_spec c h d : cached c h -> LRUMemCache.evictedItems h = [] -> LRUMemCache.working h = [] -> holds c h d -> readOnly (members c) = false ->
  d <> [] -> c_cacheBuffersize <= blocksize (members c) ->
  exists c', finish file_Sync pad c = Ret (true, c') /\ closed (data (members c')) d (blocksize (members c)).
Proof.
  intros [Ec I Es Ef Efs] Hq Hw [Hl Hb] Hro Hne Hbs. unfold finish. rewrite Ef, Ec.
  destruct (clear_spec h (members c) I Hq Hw) as (s1 & -> & I1 & Hs1 & K). cbn [rbind members]. unfold client_ok in I1; cbn in I1.
  unfold same_client in Hs1; cbn in Hs1. unfold same_shape, shape in Hs1. injection Hs1 as X1 X2 X3 X4 X5 X6 X7 X8.
  set (bs := blocksize (members c)) in *. pose proof (oo_size _ I1) as Hbz. rewrite X3 in Hbz. rewrite X7, Hro.
  assert (Hd0 : 0 < zlen d) by (destruct d; [done|]; rewrite zlen_cons; pose proof (zlen_nonneg d); lia).
  (* every block is in the file *)
  assert (Hk : forall x, 0 <= x < zlen d -> exists off, ztake (numBlockOffsets s1) (blockOffsets s1) !! Z.to_nat (x / bs) = Some off /\
    znth nul (block_content s1 off) (x mod bs) = znth nul d x).
  { intros x Hx. destruct (Hb x Hx) as (b & E & Eb). apply K in E. unfold kept in E; cbn in E. apply file_kept_spec in E as (S1 & S2 & S3 & off & E & ->); [|lia].
    destruct (start_spec bs x) as (_ & _ & _ & Est); [lia|lia|]. assert (Ediv : start bs x / bs = x / bs) by (rewrite Est, Z.mul_comm; apply Z.div_mul; lia).
    rewrite X3, Ediv in *. exists off. split; [|done]. unfold ztake. apply lookup_take_Some. split; [done|]. assert (0 <= x / bs) by (apply Z.div_pos; lia). lia. }
  unfold writeIndex. cbv zeta. cbn [blockOffsets with_index_offset numBlockOffsets uncompressedFile]. rewrite size_law. fold (data s1).
  destruct (Hk 0) as (off0 & E0 & _); [lia|]. rewrite bool_decide_false by (intros En; rewrite En in E0; unfold ztake in E0; by rewrite take_nil in E0).
  pose proof (oo_num _ I1) as Hnum. rewrite (proj2 (Z.ltb_ge _ _)) by lia. pose proof (oo_cap _ I1) as Hcap. rewrite X3 in Hcap.
  assert (H8 : 8 * numBlockOffsets s1 < 2 ^ 32) by (unfold c_cacheBuffersize in Hbs; nia). rewrite w32_id by lia.
  set (offs := ztake (numBlockOffsets s1) (blockOffsets s1)) in *.
  assert (Lo : zlen offs = numBlockOffsets s1) by (unfold offs; rewrite zlen_ztake; lia).
  assert (Eidx : ztake (8 * numBlockOffsets s1) (index_bytes (blockOffsets s1)) = index_bytes offs).
  { rewrite <- (ztake_zdrop (numBlockOffsets s1) (blockOffsets s1)), index_bytes_app. fold offs. rewrite <- Lo, <- zlen_index. apply ztake_app_zlen. }
  rewrite Eidx. match goal with |- context [writeToFile ?o ?b ?x] => destruct (writeToFile_spec o b x) as (f1 & -> & E1) end; [cbn; apply zlen_nonneg|].
  cbn [uncompressedFile with_index_offset index_offset] in E1. fold (data s1) in E1. rewrite file_write_end in E1.
  rewrite zlen_index, Lo, Z.eqb_refl. cbn [negb rbind]. unfold writeHeader.
  match goal with |- context [writeToFile 0 ?b ?x] => destruct (writeToFile_spec 0 b x) as (f2 & -> & E2); [lia|] end.
  cbn [uncompressedFile with_file] in E2. rewrite E1 in E2.
  assert (Ehd : forall x : own F, header_bytes pad x = header_of pad (index_offset x) (filesize x) (blocksize x)) by done.
  rewrite Ehd in E2 |- *. rewrite zlen_header, Z.eqb_refl. cbn [negb uncompressedFile with_file index_offset filesize blocksize with_index_offset] in E2 |- *.
  rewrite X1, X3 in E2. destruct (sync_law f2) as [Sy Sc]. destruct (file_Sync f2) as [ok f3]. cbn [fst snd] in Sy, Sc. subst ok. cbn [rbind error with_file].
  cbn [error with_file with_index_offset]. rewrite (oo_error _ I1). eexists. split; [reflexivity|].
  unfold data. cbn [members with_members uncompressedFile with_finished with_file]. rewrite Sc, E2. fold (data s1). set (hd := header_of _ _ _ _) in *.
  assert (Lh : zlen hd = c_header_size) by apply zlen_header. pose proof (oo_head _ I1) as HD. change c_header_size with 50 in Lh, HD.
  set (D := file_write (data s1 ++ index_bytes offs) 0 hd). pose proof (zlen_nonneg offs).
  assert (LD : zlen D = zlen (data s1) + 8 * zlen offs) by (unfold D; rewrite zlen_file_write, zlen_app, zlen_index by lia; lia).
  assert (Pk : forall off, off ∈ blockOffsets s1 -> place_in D bs off /\ content_in D bs off = block_content s1 off).
  { intros off Hin. assert (Ebc : block_content s1 off = content_in (data s1) bs off) by (unfold block_content, zero_block, content_in; by rewrite X3).
    rewrite Ebc. apply place_kept; [lia|by rewrite Lh|exact HD|]. pose proof (proj1 (Forall_forall _ _) (oo_places _ I1) off Hin) as Pl.
    unfold place_ok in Pl. by rewrite X3 in Pl. }
  assert (Hsub : forall off, off ∈ offs -> off ∈ blockOffsets s1).
  { intros off Hin. rewrite <- (ztake_zdrop (numBlockOffsets s1) (blockOffsets s1)). apply elem_of_app. by left. }
  split; [lia|rewrite Hl; split; [rewrite <- Hl; lia|apply Efs]|]. exists pad, (zlen (data s1)), offs. rewrite Hl. fold hd. change c_header_size with 50.
  split; [|split; [lia|split; [apply zlen_nonneg|split; [lia|split; [|split; [lia|split; [lia|split]]]]]]].
  - unfold D, file_write, zsplice. rewrite ztake_0. cbn [app]. rewrite <- Lh. unfold zsub. rewrite zdrop_0. apply ztake_app_zlen.
  - rewrite <- zlen_index. transitivity (zsub (zlen (data s1)) (zlen (index_bytes offs)) (data s1 ++ index_bytes offs ++ [])).
    + rewrite app_nil_r. apply (list_eq_znth nul); [rewrite !zlen_zsub; rewrite ?LD, ?zlen_app, ?zlen_index; lia|].
      rewrite zlen_zsub by (rewrite ?LD, ?zlen_index; lia). intros i Hi. rewrite zlen_index in *. rewrite !znth_zsub by lia. unfold D.
      rewrite znth_file_write by (rewrite ?zlen_app, ?zlen_index; lia). rewrite (proj2 (Z.leb_le 0 _)), (proj2 (Z.ltb_ge _ (0 + zlen hd))) by lia. cbn [andb].
      by rewrite (proj2 (Z.ltb_lt _ _)) by (rewrite zlen_app, zlen_index; lia).
    + by apply zsub_app_zlen.
  - apply Forall_forall. intros off Hin. by apply Pk, Hsub.
  - intros x Hx. rewrite <- Hl in Hx. destruct (Hk x Hx) as (off & E & Eb). exists off. split; [done|]. rewrite <- Eb. f_equal. apply Pk, Hsub. by eapply list_elem_of_lookup_2.
Qed.
End Close.

(** * Opening a finished compressed file. *)

(** The fields of the header. *)
Lemma header_fields pad io fs bs : 0 <= io < 2 ^ 63 -> 0 <= fs < 2 ^ 63 -> 0 <= bs < 2 ^ 32 ->
  let h := header_of pad io fs bs in
  starts_with h headerMagic = true /\ zsub (zlen headerMagic) 3 h = headerVersionV1_1 /\
  s64 (le_val (zsub (zlen headerMagic + 4) 8 h)) = io /\ s64 (le_val (zsub (zlen headerMagic + 4 + 8) 8 h)) = fs /\
  le_val (zsub (zlen headerMagic + 4 + 16) 4 h) = bs.
Proof.
  intros Hio Hfs Hbs h. unfold h, header_of.
  assert (L8 : forall x, s64 (le_val (le_bytes 8 (w64 x))) = s64 (w64 x)).
  { intros x. rewrite le_val_le_bytes. change (256 ^ Z.of_nat 8) with (2 ^ 64). by rewrite Z.mod_small by apply w64_range. }
  split; [|split; [|split; [|split]]].
  - unfold starts_with. rewrite ztake_app_zlen. by apply bool_decide_true.
  - rewrite <- app_assoc. by apply zsub_app_zlen.
  - rewrite app_assoc. erewrite (zsub_app_zlen _ _ _ (le_bytes 8 (w64 io))); [|done|done]. rewrite L8. apply s64_w64. lia.
  - rewrite app_assoc, (app_assoc _ (le_bytes 8 (w64 io))). erewrite (zsub_app_zlen _ _ _ (le_bytes 8 (w64 fs))); [|done|done]. rewrite L8. apply s64_w64. lia.
  - rewrite app_assoc, (app_assoc _ (le_bytes 8 (w64 io))), (app_assoc _ (le_bytes 8 (w64 fs))).
    erewrite (zsub_app_zlen _ _ _ (le_bytes 4 bs)); [|done|done]. rewrite le_val_le_bytes. apply Z.mod_small. lia.
Qed.

Section Reopen.
Context {F : Type} `{FileLaws F} `{CodecLaws} (pad : char).
Implicit Types (s : own F) (c : t F) (h : LRUMemCache.t).

(** The number of blocks. *)
Definition block_count (n bs : Z) : Z := Z.quot n bs + (if Z.rem n bs =? 0 then 0 else 1).
Lemma block_count_spec n bs : 0 < n -> 0 < bs -> 0 < block_count n bs <= n /\ (forall x, 0 <= x < n -> x / bs < block_count n bs) /\
  block_count n bs = (n - 1) / bs + 1.
Proof.
  intros Hn Hb. unfold block_count. rewrite Z.quot_div_nonneg, Z.rem_mod_nonneg by lia.
  pose proof (Z.div_mod n bs). pose proof (Z.mod_pos_bound n bs Hb). pose proof (Z.div_mod (n - 1) bs). pose proof (Z.mod_pos_bound (n - 1) bs Hb).
  assert (0 <= n / bs) by (apply Z.div_pos; lia).
  assert (E : n / bs + (if n mod bs =? 0 then 0 else 1) = (n - 1) / bs + 1).
  { destruct (Z.eqb_spec (n mod bs) 0) as [E|E].
    - assert ((n - 1) / bs = n / bs - 1); [|lia]. symmetry. apply Z.div_unique_pos with (bs - 1); nia.
    - assert ((n - 1) / bs = n / bs); [|lia]. symmetry. apply Z.div_unique_pos with (n mod bs - 1); lia. }
  rewrite E. assert (0 <= (n - 1) / bs) by (apply Z.div_pos; lia). assert ((n - 1) / bs <= n - 1) by (apply Z.div_le_upper_bound; nia).
  split; [lia|]. split; [|done]. intros x Hx. assert (x / bs <= (n - 1) / bs) by (apply Z.div_le_mono; lia). lia.
Qed.

Lemma comp_open_spec D d bs index0 f nthreads : closed D d bs -> contents f = D -> zlen D < 2 ^ 63 -> 0 <= nthreads -> forall ro, exists c h,
  CompressedFile pad index0 f true ro nthreads = Ret c /\ h = LRUMemCache.init bs c_ncacheItems nthreads /\ currentPosition (members c) = 0 /\
  readOnly (members c) = ro /\ compressedBuffers (members c) = [] /\ (ro = true -> cached c h /\ holds c h d).
Proof.
  intros [Hbs Hlen (pd & io & offs & Ehd & HD & Hio & Hend & Eidx & H8 & Hcap & Hpl & Hby)] Hf HD63 Hn ro. pose proof (zlen_nonneg offs).
  unfold CompressedFile. cbv zeta. unfold readHeader.
  match goal with |- context [readFromFile 0 ?n ?x] => destruct (readFromFile_spec 0 n x) as (f1 & -> & E1); [lia|done|] end.
  cbn [uncompressedFile] in E1 |- *. rewrite Hf, Ehd in *. rewrite zlen_header, Z.eqb_refl. cbn [negb].
  destruct (header_fields pd io (zlen d) bs ltac:(lia) ltac:(lia) ltac:(lia)) as (F1 & F2 & F3 & F4 & F5). rewrite F1, F2, F3, F4, F5. cbn [negb].
  rewrite (bool_decide_true (headerVersionV1_1 = headerVersionV1_1)) by done. rewrite andb_false_r. cbn [rbind blocksize with_header].
  unfold readIndex. cbn [blocksize filesize with_header index_offset with_file]. rewrite (proj2 (Z.eqb_neq bs 0)) by lia. fold (block_count (zlen d) bs).
  destruct (block_count_spec (zlen d) bs) as (Hc1 & Hc2 & Hc3); [lia|lia|]. set (n := block_count (zlen d) bs) in *. rewrite (w64_id n) by lia. rewrite (proj2 (Z.eqb_neq n 0)) by lia.
  assert (Hno : n <= zlen offs).
  { destruct (Hby (zlen d - 1)) as (off & E & _); [lia|]. apply lookup_lt_Some in E. assert (0 <= (zlen d - 1) / bs) by (apply Z.div_pos; lia). unfold zlen in E |- *. unfold zlen in *. lia. }
  rewrite (w64_id (8 * n)), (w32_id (8 * n)) by lia.
  match goal with |- context [readFromFile ?o ?n ?x] => destruct (readFromFile_spec o n x) as (f2 & -> & E2); [lia|lia|] end.
  cbn [uncompressedFile with_file with_header] in E2 |- *. rewrite E1 in E2 |- *.
  set (os := ztake n offs). assert (Los : zlen os = n) by (unfold os; rewrite zlen_ztake; lia).
  assert (Eix : zsub io (8 * n) D = index_bytes os).
  { transitivity (zsub 0 (8 * n) (zsub io (8 * zlen offs) D)); [rewrite zsub_zsub by lia; f_equal; lia|]. rewrite Eidx.
    rewrite <- (ztake_zdrop n offs), index_bytes_app. fold os. unfold zsub. rewrite zdrop_0, <- Los, <- zlen_index. apply ztake_app_zlen. }
  rewrite Eix, zlen_index, Los, Z.eqb_refl. cbn [negb rbind].
  assert (Eof : index_of (Z.to_nat n) (zresize nul (8 * n) (index_bytes os)) = os).
  { assert (Ez : zresize nul (8 * n) (index_bytes os) = index_bytes os ++ []).
    { unfold zresize. rewrite ztake_ge by (rewrite zlen_index; lia). f_equal. replace (Z.to_nat (8 * n - zlen (index_bytes os))) with 0%nat by (rewrite zlen_index; lia). done. }
    rewrite Ez. replace (Z.to_nat n) with (length os) by (unfold zlen in Los; lia). apply index_of_bytes. apply Forall_forall. intros off Hin.
    assert (Hin' : off ∈ offs) by (rewrite <- (ztake_zdrop n offs); apply elem_of_app; by left).
    destruct (proj1 (Forall_forall _ _) Hpl off Hin') as [->|(z & b & Ho & (A1 & A2 & _) & _)]; [lia|]. pose proof (zlen_nonneg z). change c_header_size with 50 in Ho. lia. }
  rewrite Eof. eexists _, _. split; [reflexivity|]. split; [done|]. split; [done|]. split; [done|]. split; [done|]. intros ->.
  match goal with |- cached ?x ?y /\ _ => set (c := x); set (h := y) end.
  assert (Ed : data (members c) = D) by exact E2.
  assert (Ebc : forall off, block_content (members c) off = content_in D bs off) by (intros off; unfold block_content; by rewrite Ed).
  assert (Io : own_ok (members c)).
  { split; try done.
    - cbn. lia.
    - cbn. lia.
    - cbn. nia.
    - by rewrite Ed.
    - apply Forall_forall. intros off Hin. unfold place_ok. rewrite Ed. apply (proj1 (Forall_forall _ _) Hpl).
      rewrite <- (ztake_zdrop n offs). apply elem_of_app. by left.
    - cbn. intros i Hi. lia. }
  split.
  - split; try done; cbn; try lia. split; try done; cbn; try lia; try by constructor. split; by constructor.
  - split; [done|]. intros x Hx. destruct (Hby x Hx) as (off & E & Eb). exists (block_content (members c) off). rewrite Ebc. split; [|done].
    unfold view. rewrite lview_notin by apply not_elem_of_nil. unfold kept; cbn [eviction_laws]. change (blocksize (members c)) with bs.
    destruct (start_spec bs x) as (S1 & S2 & S3 & S4); [lia|lia|]. apply file_kept_spec; [cbn; lia|]. change (blocksize (members c)) with bs.
    assert (Ediv : start bs x / bs = x / bs) by (rewrite S4, Z.mul_comm; apply Z.div_mul; lia). rewrite Ediv.
    split; [lia|]. split; [done|]. change (numBlockOffsets (members c)) with n. change (blockOffsets (members c)) with os. split; [by apply Hc2|].
    exists off. rewrite Ebc. split; [|done]. unfold os, ztake. apply lookup_take_Some. split; [done|]. pose proof (Hc2 x Hx). assert (0 <= x / bs) by (apply Z.div_pos; lia). lia.
Qed.
End Reopen.
