(* ===== verification/CompThreads.v ===== *)
(** Two places where compressed files fail: blocks in the queue of the threads, and
    files that are opened again for writing. *)
From S2P Require Import Prelude MemFile MemCache CompressedFile MemCacheSpec CompSpec CompFill CompOps CompClose.
Import CompressedFile.

(** ** A stream of new blocks *)

Section Stream.
Context {F : Type} `{FileLaws F} `{CodecLaws} (junk : nat -> bytes).
Implicit Types (c : t F) (h : LRUMemCache.t) (l q : list SCacheItem).

Notation B := c_cacheBuffersize.

Lemma find_none h pos : Forall (fun it => LRUMemCache.hit h pos it = false) (LRUMemCache.lruItems h) -> LRUMemCache.find h pos = None.
Proof.
  intros Hf. unfold LRUMemCache.find. assert (X : forall n, LRUMemCache.find_from h pos n = None); [|by rewrite X].
  induction n as [|n IH]; [done|]. cbn [LRUMemCache.find_from]. destruct (LRUMemCache.lruItems h !! n) as [it|] eqn:E; [|done].
  rewrite (proj1 (Forall_forall _ _) Hf it); [done|]. by eapply list_elem_of_lookup_2.
Qed.

(** A new file into which [pos] bytes have been written, none of which is in the backing
    file yet: [l] in the cache, [q] in the queue. *)
Record streamed (nt : Z) l q (pos : Z) c h : Prop := {
  st_cache : hotCache c = Some h;
  st_conf : config h = (B, c_ncacheItems, nt);
  st_lru : LRUMemCache.lruItems h = l;
  st_queue : LRUMemCache.evictedItems h = q;
  st_buffers : LRUMemCache.lruItemBuffers h = [];
  st_own : blocksize (members c) = B /\ currentPosition (members c) = pos /\ filesize (members c) = pos;
  st_index : blockOffsets (members c) = [];
  st_flags : error (members c) = false /\ finished (members c) = false }.

(** The item that leaves the cache when there are five. *)
Definition shifts (nt : Z) l q l' q' : Prop :=
  (zlen l < c_ncacheItems /\ l' = l /\ q' = q) \/
  (exists it, l = it :: l' /\ c_ncacheItems <= zlen l /\ q' = it :: q /\ zlen q < nt).

Lemma put_new nt l q pos c h l' q' b : streamed nt l q pos c h -> shifts nt l q l' q' -> LRUMemCache.find h pos = None ->
  0 <= pos < 2 ^ 49 -> pos mod B = 0 -> zlen b = B ->
  exists h', cache_put junk pos b c = Ret (mk _ (Some h') (members c)) /\ config h' = config h /\
    LRUMemCache.lruItems h' = l' ++ [mkItem b pos] /\ LRUMemCache.evictedItems h' = q' /\ LRUMemCache.lruItemBuffers h' = [].
Proof.
  intros [Ec Ecf El Eq Eb _ _ _] Hs Hf Hp Hm Hb. unfold config in Ecf. injection Ecf as E1 E2 E3.
  assert (Est : LRUMemCache.block_start B pos = pos).
  { rewrite block_start_spec by (unfold c_cacheBuffersize; lia). unfold start. lia. }
  unfold cache_put. rewrite Ec. unfold LRUMemCache.put. rewrite Hf, createInt_room.
  assert (R : exists b0 h1, make_room junk h (members c) = Ret (b0, h1, members c) /\ zlen b0 = B /\ config h1 = config h /\
    LRUMemCache.lruItems h1 = l' /\ LRUMemCache.evictedItems h1 = q' /\ LRUMemCache.lruItemBuffers h1 = []).
  { unfold make_room. rewrite E2, El. destruct Hs as [(Hl & -> & ->)|(it & -> & Hl & -> & Hq)].
    - rewrite (proj2 (Z.leb_gt _ _)) by done. eexists _, _. split; [reflexivity|]. split; [rewrite E1; by apply zlen_zresize|]. by rewrite <- El, <- Eq.
    - rewrite (proj2 (Z.leb_le _ _)) by done. unfold LRUMemCache.evict_keep. rewrite E3, Eq, (proj2 (Z.leb_gt _ _)) by done.
      unfold LRUMemCache.getLruItemBuffer. cbn [LRUMemCache.lruItemBuffers LRUMemCache.with_evicted]. rewrite Eb. cbn [rbind].
      eexists _, _. split; [reflexivity|]. split; [cbn; rewrite E1; by apply zlen_zresize|]. done. }
  destruct R as (b0 & h1 & -> & Hl0 & Ec1 & Hl1 & Hq1 & Hb1). unfold config in Ec1. injection Ec1 as C1 C2 C3. cbn [rbind]. rewrite C1, E1.
  change (B =? 0) with false. cbn [rbind]. rewrite Est. set (h2 := LRUMemCache.with_items _ h1).
  change (LRUMemCache.buffersize h2) with (LRUMemCache.buffersize h1). rewrite C1, E1, Est, Z.sub_diag, (proj2 (Z.ltb_ge _ _)) by lia.
  assert (Elen : (length (LRUMemCache.lruItems h2) - 1)%nat = length l') by (unfold h2; cbn; rewrite Hl1, length_app; cbn; lia). rewrite Elen.
  assert (Ei : LRUMemCache.lruItems h2 !! length l' = Some (mkItem b0 pos)) by (unfold h2; cbn; rewrite Hl1; by rewrite list_lookup_middle).
  rewrite (write_buf_spec h2 (length l') _ 0 b Ei); [|cbn; congruence|lia|cbn; rewrite C1, E1; lia]. cbn [rbind buffer item_offset].
  rewrite zsplice_all by lia. eexists. split; [reflexivity|]. split; [unfold config; cbn; congruence|]. split; [|done].
  cbn. by rewrite Hl1, insert_app_r_alt, Nat.sub_diag by lia.
Qed.

Lemma stream_round nt l q l' q' k b pos c h : streamed nt l q pos c h -> shifts nt l q l' q' -> Forall (fun it => item_offset it + B <= pos) l ->
  0 <= pos < 2 ^ 49 -> pos mod B = 0 -> B <= zlen b -> exists c' h', streamed nt (l' ++ [mkItem (ztake B b) pos]) q' (pos + B) c' h' /\
    write_loop junk (S k) b c = if B <? zlen b then let* (n, _, c) := write_loop junk k (zdrop B b) c' in Ret (w32 (B + n), false, c) else Ret (B, false, c').
Proof.
  intros St Hs Hl Hp Hm Hb. pose proof St as [Ec Ecf El Eq Eb (O1 & O2 & O3) Ei (Fe & Ff)]. unfold config in Ecf. pose proof Ecf as Ecf'. injection Ecf' as E1 E2 E3.
  assert (Hf : LRUMemCache.find h pos = None).
  { apply find_none. rewrite El. eapply Forall_impl; [exact Hl|]. intros it Hit. unfold LRUMemCache.hit. rewrite E1. cbn in Hit. rewrite (proj2 (Z.ltb_ge _ _)) by lia. apply andb_false_r. }
  assert (Hq0 : w64 (Z.quot pos B) = pos / B /\ 0 <= pos / B).
  { rewrite Z.quot_div_nonneg by (unfold c_cacheBuffersize; lia). assert (0 <= pos / B) by (apply Z.div_pos; [lia|done]). split; [|done].
    apply w64_id. split; [done|]. apply Z.div_lt_upper_bound; [done|]. unfold c_cacheBuffersize. lia. }
  assert (Hfill : fillCache junk pos c = Ret (false, false, c)).
  { unfold fillCache. rewrite Ec, O1, Ei. change (B =? 0) with false. cbv iota. rewrite (proj1 Hq0), (proj2 (Z.leb_le _ _)); [done|]. change (zlen []) with 0. apply Hq0. }
  assert (Hlb : zlen (ztake B b) = B) by (rewrite zlen_ztake by done; lia).
  destruct (put_new nt l q pos c h l' q' (ztake B b) St Hs Hf Hp Hm Hlb) as (h' & Ep & P1 & P2 & P3 & P4).
  rewrite write_loop_block. cbv zeta. rewrite Ff, O1, O2, bool_decide_false by congruence. change (B =? 0) with false. cbn [orb].
  assert (Emw : w32 ((Z.quot pos B + 1) * B - pos) = B).
  { rewrite Z.quot_div_nonneg by (unfold c_cacheBuffersize; lia). pose proof (Z.div_mod pos B ltac:(done)). replace ((pos / B + 1) * B - pos) with B by lia. done. }
  rewrite Emw. assert (Ew : (if B <? zlen b then B else zlen b) = B) by (destruct (Z.ltb_spec B (zlen b)); lia). rewrite Ew.
  unfold cache_get. rewrite Ec. unfold LRUMemCache.get. rewrite Hf, Hfill. cbn [rbind]. rewrite Fe, Ep. cbn [rbind members with_position error currentPosition filesize].
  rewrite O2, O3, Fe, (proj2 (Z.ltb_lt pos (pos + B))) by (unfold c_cacheBuffersize; lia).
  eexists _, h'. split; [|reflexivity]. split; try done. by rewrite P1.
Qed.

(** ** Six blocks in one call *)

Lemma shifts_lt nt l q : zlen l < c_ncacheItems -> shifts nt l q l q.
Proof. by left. Qed.

(** All of it is written, with the first block in the queue and the others in the cache. *)
Lemma stream_six nt c h b : streamed nt [] [] 0 c h -> 1 <= nt -> zlen b = 6 * B -> exists c' h' b0 l,
  write_loop junk (S (length b)) b c = Ret (zlen b, false, c') /\ streamed nt l [mkItem b0 0] (6 * B) c' h' /\ b0 = ztake B b /\
  Forall (fun it => B <= item_offset it) l.
Proof.
  intros St Hnt Hb. assert (HB : B = 2097152) by done.
  assert (Hr : exists k, (S (length b) = S (S (S (S (S (S k))))))%nat) by (exists (length b - 5)%nat; unfold zlen in Hb; lia). destruct Hr as [k ->].
  assert (L : forall i, 0 <= i <= 6 * B -> zlen (zdrop i b) = 6 * B - i) by (intros; rewrite zlen_zdrop; lia).
  assert (D : forall i, 0 <= i -> zdrop B (zdrop i b) = zdrop (i + B) b) by (intros; rewrite zdrop_zdrop by (rewrite ?HB; lia); done).
  destruct (stream_round nt _ _ _ _ (S (S (S (S (S k))))) b 0 c h St (shifts_lt nt [] [] eq_refl)) as (c1 & h1 & S1 & ->); [by constructor|lia|done|lia|]. cbn [app] in S1.
  set (i0 := mkItem (ztake B b) 0) in *.
  destruct (stream_round nt _ _ _ _ (S (S (S (S k)))) (zdrop B b) _ c1 h1 S1 (shifts_lt nt [i0] [] eq_refl)) as (c2 & h2 & S2 & ->);
    [repeat constructor; cbn; lia|lia|done|rewrite L; lia|]. rewrite D in * by done. cbn [app] in S2. set (i1 := mkItem _ _) in S2.
  destruct (stream_round nt _ _ _ _ (S (S (S k))) (zdrop (B + B) b) _ c2 h2 S2 (shifts_lt nt [i0; i1] [] eq_refl)) as (c3 & h3 & S3 & ->);
    [repeat constructor; cbn; lia|lia|done|rewrite L; lia|]. rewrite D in * by done. cbn [app] in S3. set (i2 := mkItem _ _) in S3.
  destruct (stream_round nt _ _ _ _ (S (S k)) (zdrop (B + B + B) b) _ c3 h3 S3 (shifts_lt nt [i0; i1; i2] [] eq_refl)) as (c4 & h4 & S4 & ->);
    [repeat constructor; cbn; lia|lia|done|rewrite L; lia|]. rewrite D in * by done. cbn [app] in S4. set (i3 := mkItem _ _) in S4.
  destruct (stream_round nt _ _ _ _ (S k) (zdrop (B + B + B + B) b) _ c4 h4 S4 (shifts_lt nt [i0; i1; i2; i3] [] eq_refl)) as (c5 & h5 & S5 & ->);
    [repeat constructor; cbn; lia|lia|done|rewrite L; lia|]. rewrite D in * by done. cbn [app] in S5. set (i4 := mkItem _ _) in S5.
  assert (Sh : shifts nt [i0; i1; i2; i3; i4] [] [i1; i2; i3; i4] [i0]).
  { right. exists i0. split; [done|]. split; [done|]. split; [done|]. change (zlen []) with 0. lia. }
  destruct (stream_round nt _ _ _ _ k (zdrop (B + B + B + B + B) b) _ c5 h5 S5 Sh) as (c6 & h6 & S6 & ->);
    [repeat constructor; cbn; lia|lia|done|rewrite L; lia|]. cbn [app] in S6. set (i5 := mkItem _ _) in S6.
  rewrite !L by lia. rewrite Hb. do 5 rewrite (proj2 (Z.ltb_lt _ _)) by lia. rewrite (proj2 (Z.ltb_ge _ _)) by lia. cbn [rbind].
  exists c6, h6, (ztake B b), [i1; i2; i3; i4; i5]. split; [by rewrite HB|]. split; [exact S6|]. split; [done|]. repeat constructor; cbn; lia.
Qed.
End Stream.

(** ** A file without buffers for compressed data *)

Section Jam.
Context {F : Type} `{FileLaws F} `{ICodec} (junk : nat -> bytes).
Implicit Types (c : t F) (h : LRUMemCache.t) (s : own F).

(** What opening a file for writing leaves, with at least [n] blocks in the cache. *)
Definition jammed s : Prop := readOnly s = false /\ compressedBuffers s = [].
Definition full_cache h (n : nat) : Prop := idle h /\ (n <= length (LRUMemCache.lruItems h))%nat.
Record jam c (n : nat) : Prop := { ja_own : jammed (members c); ja_cache : exists h, hotCache c = Some h /\ full_cache h n }.

Lemma jammed_evict s it : jammed s -> CompressedFile.evictFromLruCache it s = AssertFails.
Proof. intros [E1 E2]. unfold CompressedFile.evictFromLruCache. by rewrite E1, E2. Qed.
Lemma jammed_read o n s b e s' : jammed s -> readFromFile o n s = (b, e, s') -> jammed s'.
Proof. intros J. unfold readFromFile. destruct (read_from _ _ _ _) as [[? ?] ?]. by intros [= _ _ <-]. Qed.

Lemma createInt_jam o h s h' s' n : jammed s -> full_cache h n -> LRUMemCache.createInt junk o h s = Ret (h', s') ->
  s' = s /\ full_cache h' n /\ full_cache h' 1.
Proof.
  intros J [(I1 & I2 & I3) Hn]. unfold LRUMemCache.createInt. destruct (_ <=? _).
  - destruct (LRUMemCache.lruItems h) as [|it l]; [done|]. unfold LRUMemCache.evict_keep. rewrite I1, I2. change (0 <=? zlen []) with true. cbv iota.
    change (MemCache.evictFromLruCache it s) with (CompressedFile.evictFromLruCache it s). by rewrite jammed_evict.
  - cbn [LRUMemCache.new_buffer rbind]. destruct (_ =? 0); [done|]. intros [= <- <-]. split; [done|].
    split; (split; [by split|]); cbn; rewrite length_app; cbn; lia.
Qed.
Lemma create_jam o h s p h' s' n : jammed s -> full_cache h n -> LRUMemCache.create junk o h s = Ret (p, h', s') -> s' = s /\ full_cache h' n.
Proof.
  intros J Hc. unfold LRUMemCache.create. destruct (LRUMemCache.find h o) as [q|]; [by intros [= _ <- <-]|].
  destruct (LRUMemCache.createInt junk o h s) as [[h1 s1]| | | |] eqn:E; try done. cbn [rbind]. intros [= _ <- <-].
  by destruct (createInt_jam _ _ _ _ _ _ J Hc E) as (-> & ? & _).
Qed.
Lemma write_buf_jam p b h h' n : full_cache h n -> LRUMemCache.write_buf p b h = Ret h' -> full_cache h' n.
Proof.
  intros [I Hn]. unfold LRUMemCache.write_buf. destruct (_ <? _); [done|]. intros [= <-]. split; [exact I|]. cbn. by rewrite length_alter.
Qed.
Lemma putBack_jam i h n : full_cache h n -> full_cache (LRUMemCache.putBack i h) n.
Proof.
  intros [I Hn]. unfold LRUMemCache.putBack. case_bool_decide; [done|]. destruct (LRUMemCache.lruItems h !! i) as [it|] eqn:E; [|done].
  split; [exact I|]. cbn. rewrite length_app, length_delete by done. apply lookup_lt_Some in E. cbn. lia.
Qed.
Lemma fill_buffer_jam o off p h s ok e h' s' n : jammed s -> full_cache h n -> fill_buffer o off p h s = Ret (ok, e, h', s') -> jammed s' /\ full_cache h' n.
Proof.
  intros J Hc. unfold fill_buffer. destruct (readFromFile off 8 s) as [[hd e1] s1] eqn:E1. pose proof (jammed_read _ _ _ _ _ _ J E1) as J1.
  destruct (negb _); [by intros [= _ _ <- <-]|]. destruct (_ =? mode_none).
  - destruct (_ <? _); [by intros [= _ _ <- <-]|]. destruct (readFromFile _ _ s1) as [[z e2] s2] eqn:E2. pose proof (jammed_read _ _ _ _ _ _ J1 E2) as J2.
    destruct (LRUMemCache.write_buf p z h) as [h1| | | |] eqn:Ew; try done. cbn [rbind]. intros [= _ _ <- <-]. split; [done|]. by eapply write_buf_jam.
  - destruct (readFromFile _ _ s1) as [[z e2] s2] eqn:E2. pose proof (jammed_read _ _ _ _ _ _ J1 E2) as J2. destruct (negb _); [by intros [= _ _ <- <-]|].
    destruct (_ =? mode_zlib); [|destruct (_ =? mode_zstd); [|by intros [= _ _ <- <-]]].
    + destruct (mz_uncompress z _) as [r b]. destruct (LRUMemCache.write_buf p b h) as [h1| | | |] eqn:Ew; try done. cbn [rbind].
      pose proof (write_buf_jam _ _ _ _ _ Hc Ew). destruct r; by intros [= _ _ <- <-].
    + destruct (ZSTD_decompress z _) as [r b]. destruct (LRUMemCache.write_buf p b h) as [h1| | | |] eqn:Ew; try done. cbn [rbind].
      intros [= _ _ <- <-]. split; [done|]. by eapply write_buf_jam.
Qed.
Lemma fillCache_jam o c ok e c' n : jam c n -> fillCache junk o c = Ret (ok, e, c') -> jam c' n.
Proof.
  intros Jc. pose proof Jc as [J (h & Eh & Hc)]. unfold fillCache. rewrite Eh. destruct (_ =? 0); [done|]. destruct (_ <=? _); [by intros [= _ _ <-]|].
  destruct (LRUMemCache.create junk o h (members c)) as [[[p h1] s1]| | | |] eqn:E; try done. cbn [rbind].
  destruct (create_jam _ _ _ _ _ _ _ J Hc E) as [-> Hc1]. destruct (error _); [intros [= _ _ <-]; split; [done|by exists h1]|]. destruct (_ =? -1).
  - destruct (LRUMemCache.write_buf p _ h1) as [h2| | | |] eqn:Ew; try done. cbn [rbind]. intros [= _ _ <-]. split; [done|]. exists h2. split; [done|]. by eapply write_buf_jam.
  - destruct (fill_buffer _ _ p h1 (members c)) as [[[[ok' e'] h2] s2]| | | |] eqn:Ef; try done. cbn [rbind]. intros [= _ _ <-].
    destruct (fill_buffer_jam _ _ _ _ _ _ _ _ _ _ J Hc1 Ef) as [J2 Hc2]. split; [done|by exists h2].
Qed.

(** A block that can be looked up is in the cache. *)
Lemma get_jam o c n p : jam c n -> cache_get o c = Some p -> jam c (max n 1).
Proof.
  intros [J (h & Eh & [I Hn])] E. split; [done|]. exists h. split; [done|]. split; [done|]. unfold cache_get in E. rewrite Eh in E.
  unfold LRUMemCache.get, LRUMemCache.find in E. destruct (LRUMemCache.find_from h o _) as [i|] eqn:Ef; [|done].
  destruct (LRUMemCache.lruItems h) as [|it l] eqn:El; [by rewrite lookup_nil in E|]. cbn in *. lia.
Qed.
Lemma lookup_jam o c hit e c' n : jam c n -> lookup_block junk o c = Ret (hit, e, c') -> jam c' (match hit with Some _ => max n 1 | None => n end).
Proof.
  intros J. unfold lookup_block. destruct (cache_get o c) as [p|] eqn:Eg; [intros [= <- _ <-]; by eapply get_jam|].
  destruct (fillCache junk o c) as [[[ok e1] c1]| | | |] eqn:E; try done. cbn [rbind]. intros [= <- _ <-]. pose proof (fillCache_jam _ _ _ _ _ _ J E) as J1.
  destruct ok; [|done]. destruct (cache_get o c1) as [p|] eqn:Eg1; [by eapply get_jam|done].
Qed.
Lemma moved_jam c n p fs : jam c n -> jam (with_members (with_filesize fs (with_position p (members c))) c) n.
Proof. by intros [J Hc]. Qed.

Lemma read_jam rounds : forall n c b e c' k, jam c k -> read_loop junk rounds n c = Ret (b, e, c') -> jam c' (if bool_decide (b = []) then k else max k 1).
Proof.
  induction rounds as [|r IH]; intros n c b e c' k J; [done|]. cbn [read_loop]. destruct (finished _); [done|]. case_bool_decide; [done|].
  destruct (lookup_block junk _ c) as [[[hit e1] c1]| | | |] eqn:E; try done. cbn [rbind]. pose proof (lookup_jam _ _ _ _ _ _ J E) as J1.
  destruct hit as [[p cs]|]; [|by intros [= <- _ <-]].
  assert (Jk : jam c1 k) by (destruct J1 as [A (h & B & C & D)]; split; [done|]; exists h; split; [done|]; split; [done|lia]).
  destruct (_ =? 0); [by intros [= <- _ <-]|]. destruct (_ || _); [done|].
  match goal with |- context [with_members (with_position ?x (members c1)) c1] => set (q := x) end.
  assert (J2 : jam (with_members (with_position q (members c1)) c1) (max k 1)) by exact (moved_jam c1 _ q (filesize (members c1)) J1).
  assert (Weak : forall c0 b0, jam c0 (max k 1) -> jam c0 (if bool_decide (b0 = @nil ascii) then k else max k 1)).
  { intros c0 b0 [A (h & B & C & D)]. split; [done|]. exists h. split; [done|]. split; [done|]. destruct (bool_decide _); lia. }
  destruct (_ <? n).
  - destruct (read_loop junk r _ _) as [[[b' e'] c2]| | | |] eqn:E2; try done. cbn [rbind]. intros [= <- _ <-]. apply Weak.
    pose proof (IH _ _ _ _ _ _ J2 E2) as J3. destruct (bool_decide (b' = [])); [done|]. by replace (max (max k 1) 1)%nat with (max k 1)%nat in J3 by lia.
  - intros [= <- _ <-]. by apply Weak.
Qed.
Lemma put_jam o b c c' n : jam c n -> cache_put junk o b c = Ret c' -> jam c' 1.
Proof.
  intros [J (h & Eh & Hc)]. unfold cache_put. rewrite Eh. unfold LRUMemCache.put. destruct (LRUMemCache.find h o) as [[i inner]|] eqn:Ef.
  - assert (Hc1 : full_cache h 1).
    { destruct Hc as [I Hn]. split; [done|]. unfold LRUMemCache.find in Ef. destruct (LRUMemCache.find_from h o _); [|done].
      destruct (LRUMemCache.lruItems h); [by rewrite lookup_nil in Ef|]. cbn. lia. }
    destruct (_ <? _); cbn [rbind]; [intros [= <-]; split; [done|by exists h]|].
    destruct (LRUMemCache.write_buf _ b h) as [h1| | | |] eqn:Ew; try done. cbn [rbind]. intros [= <-]. split; [done|]. eexists. split; [done|].
    apply putBack_jam. by eapply write_buf_jam.
  - destruct (LRUMemCache.createInt junk o h (members c)) as [[h1 s1]| | | |] eqn:E; try done. cbn [rbind].
    destruct (createInt_jam _ _ _ _ _ _ J Hc E) as (-> & _ & H1'). destruct (_ <? _); cbn [rbind]; [intros [= <-]; split; [done|by exists h1]|].
    destruct (LRUMemCache.write_buf _ b h1) as [h2| | | |] eqn:Ew; try done. cbn [rbind]. intros [= <-]. split; [done|]. eexists. split; [done|]. by eapply write_buf_jam.
Qed.
Lemma jam_le c n k : (k <= n)%nat -> jam c n -> jam c k.
Proof. intros Hk [J (h & Eh & I & Hn)]. split; [done|]. exists h. split; [done|]. split; [done|lia]. Qed.
Lemma write_jam rounds : forall b c n e c' k, jam c k -> write_loop junk rounds b c = Ret (n, e, c') -> jam c' (if n =? 0 then min k 1 else 1).
Proof.
  induction rounds as [|r IH]; intros b c n e c' k J; [done|]. rewrite write_loop_block. cbv zeta. destruct (finished _); [done|]. destruct (_ || _); [done|].
  set (pre := match cache_get (currentPosition (members c)) c with Some _ => Ret (false, c) | None => _ end).
  assert (Hpre : forall e1 c1, pre = Ret (e1, c1) -> jam c1 k).
  { intros e1 c1. unfold pre. destruct (cache_get _ c); [by intros [= _ <-]|]. destruct (fillCache junk _ c) as [[[ok e2] c2]| | | |] eqn:E; try done.
    cbn [rbind]. intros [= _ <-]. by eapply fillCache_jam. }
  destruct pre as [[e1 c1]| | | |]; try done. specialize (Hpre e1 c1 eq_refl). cbn [rbind].
  destruct (error (members c1)); [intros [= <- _ <-]; cbn [Z.eqb]; apply (jam_le _ k); [lia|by destruct Hpre]|].
  destruct (cache_put junk _ _ c1) as [c2| | | |] eqn:Ep; try done. cbn [rbind]. pose proof (put_jam _ _ _ _ _ Hpre Ep) as J2.
  destruct (error _); [intros [= <- _ <-]; cbn [Z.eqb]; apply (jam_le _ 1); [lia|by destruct J2]|].
  match goal with |- context [with_members (if ?x then ?y else ?z) c2] => set (c3 := with_members (if x then y else z) c2) end.
  assert (J3 : jam c3 1) by (unfold c3; destruct (filesize _ <? _); by destruct J2).
  assert (W : forall c0 (n0 : Z), jam c0 1 -> jam c0 (if n0 =? 0 then Nat.min k 1 else 1%nat)) by (intros c0 n0 J0; destruct (n0 =? 0); [apply (jam_le _ 1); [lia|done]|done]).
  destruct (_ <? zlen b).
  - destruct (write_loop junk r _ c3) as [[[n' e'] c4]| | | |] eqn:E4; try done. cbn [rbind]. intros [= <- _ <-].
    pose proof (IH _ _ _ _ _ _ J3 E4) as J4. apply W. by destruct (n' =? 0).
  - intros [= <- _ <-]. by apply W.
Qed.

(** A call that got or gave some bytes. *)
Definition some_bytes (r : comp_result) : bool :=
  match r with CBytes b => negb (bool_decide (b = [])) | CCount n => negb (n =? 0) end.
Lemma seek_jam o c c' n : jam c n -> Seek o c = Ret c' -> jam c' n.
Proof. intros [J Hc]. unfold Seek. destruct (finished _); [done|]. intros [= <-]. by split. Qed.
Lemma step_jam op c r c' k : jam c k -> comp_step junk op c = Ret (r, c') -> jam c' (if some_bytes r then max (min k 1) 1 else min k 1).
Proof.
  intros J. destruct op as [o n|o b]; cbn [comp_step].
  - unfold ReadAt. destruct (Seek o c) as [c1| | | |] eqn:Es; try done. cbn [rbind]. pose proof (seek_jam _ _ _ _ J Es) as J1. unfold Read.
    destruct (read_loop junk _ n c1) as [[[b e] c2]| | | |] eqn:E; try done. cbn [rbind]. intros [= <- <-]. pose proof (read_jam _ _ _ _ _ _ _ J1 E) as J2.
    cbn [some_bytes]. destruct (bool_decide (b = [])); cbn [negb]; (eapply jam_le; [|exact J2]); lia.
  - unfold WriteAt. destruct (Seek o c) as [c1| | | |] eqn:Es; try done. cbn [rbind]. pose proof (seek_jam _ _ _ _ J Es) as J1. unfold Write.
    destruct (write_loop junk _ b c1) as [[[n e] c2]| | | |] eqn:E; try done. cbn [rbind]. intros [= <- <-]. pose proof (write_jam _ _ _ _ _ _ _ J1 E) as J2.
    cbn [some_bytes]. destruct (n =? 0); cbn [negb]; (eapply jam_le; [|exact J2]); lia.
Qed.
Lemma run_jam ops : forall c rs c' k, jam c k -> comp_run junk ops c = Ret (rs, c') -> jam c' (if existsb some_bytes rs then 1 else min k 1).
Proof.
  induction ops as [|op ops IH]; intros c rs c' k J; cbn [comp_run].
  - intros [= <- <-]. cbn. apply (jam_le _ k); [lia|done].
  - destruct (comp_step junk op c) as [[r c1]| | | |] eqn:E; try done. cbn [rbind]. pose proof (step_jam _ _ _ _ _ J E) as J1.
    destruct (comp_run junk ops c1) as [[rs' c2]| | | |] eqn:E2; try done. cbn [rbind]. intros [= <- <-]. pose proof (IH _ _ _ _ J1 E2) as J2.
    cbn [existsb]. destruct (some_bytes r), (existsb some_bytes rs'); cbn [orb]; (eapply jam_le; [|exact J2]); lia.
Qed.
Lemma finish_jam file_Sync pad c n : jam c (S n) -> finish file_Sync pad c = AssertFails.
Proof.
  intros [J (h & Eh & (I1 & I2 & I3) & Hn)]. unfold finish. destruct (finished _); [done|]. rewrite Eh. unfold LRUMemCache.clear. rewrite I2, I3.
  destruct (LRUMemCache.lruItems h) as [|it l]; [cbn in Hn; lia|]. cbn [LRUMemCache.evict_all]. unfold LRUMemCache.evict_delete.
  change (MemCache.evictFromLruCache it (members c)) with (CompressedFile.evictFromLruCache it (members c)). by rewrite jammed_evict.
Qed.

(** Opening an existing file makes no buffers. *)
Lemma readIndex_jammed s s' : jammed s -> readIndex s = Ret s' -> jammed s'.
Proof.
  intros J. unfold readIndex. destruct (_ =? 0); [done|]. cbv zeta. destruct (_ =? 0); [intros [= <-]; by destruct J|].
  destruct (readFromFile _ _ s) as [[b e] s1] eqn:E. pose proof (jammed_read _ _ _ _ _ _ J E) as [J1 J2].
  destruct e; cbn; (destruct (zlen b =? _); cbn [negb]; intros [= <-]; by split).
Qed.
Lemma open_jam pad index0 f nthreads c : 0 <= nthreads <= 1 -> CompressedFile pad index0 f true false nthreads = Ret c -> hasError c = false -> jam c 0.
Proof.
  intros Hn. unfold CompressedFile, readHeader. cbv zeta. set (s0 := mkOwn _ _ _ _ _ _ _ _ _ _ _ _ _ _ _).
  assert (J0 : jammed s0) by done. destruct (readFromFile 0 _ s0) as [[hd e] s1] eqn:E. pose proof (jammed_read _ _ _ _ _ _ J0 E) as J1.
  set (s2 := if e then with_error true s1 else s1). assert (J2 : jammed s2) by (unfold s2; destruct e; by destruct J1).
  destruct (negb _); [cbn [rbind]; intros [= <-]; done|]. destruct (negb _); [cbn [rbind]; intros [= <-]; done|].
  destruct (_ && _); [cbn [rbind]; intros [= <-]; done|]. set (s3 := with_header _ _ _ s2). assert (J3 : jammed s3) by (by destruct J2).
  destruct (readIndex s3) as [s4| | | |] eqn:E4; try done. cbn [rbind]. intros [= <-] _. pose proof (readIndex_jammed _ _ J3 E4) as J4.
  split; [by destruct J4|]. eexists. split; [reflexivity|]. split; [|lia]. split; [|done]. cbn. destruct (Z.ltb_spec 0 nthreads); lia.
Qed.
End Jam.
