(* ===== verification/CompTheorems.v ===== *)
(** What compressed files promise, and where they do not. *)
From S2P Require Import Prelude MemFile MemCache CompressedFile MemCacheSpec CompSpec CompFill CompOps CompClose CompThreads.
Import CompressedFile.

Section Theorems.
Context {F : Type} `{FileLaws F} `{CodecLaws} (junk : nat -> bytes) (pad : char).
Implicit Types (c : t F) (h : LRUMemCache.t).

Lemma new_plain_file index0 f nthreads : contents f = [] -> 0 <= nthreads <= 1 -> exists c,
  CompressedFile pad index0 f false false nthreads = Ret c /\ plain_file c [] /\ blocksize (members c) = c_cacheBuffersize.
Proof.
  intros Hf Hn. destruct (comp_create_spec pad index0 f nthreads Hf (proj1 Hn)) as (c & h & E & C & Hd & Hro & Hbs & _ & Hh).
  exists c. split; [done|]. split; [|done]. split; [|done]. exists h. split; [done|]. split; [by eapply init_idle|done].
Qed.

(** C16: a new compressed file behaves like a plain file under any sequence of reads and
    writes at positions inside it or at its end, whatever the compressor makes of the
    blocks and whatever new buffers hold, when one thread does all the work. *)
Theorem compressed_file_flat index0 f nthreads ops : contents f = [] -> 0 <= nthreads <= 1 -> comp_ops_ok ops [] ->
  exists c c', CompressedFile pad index0 f false false nthreads = Ret c /\ comp_run junk ops c = Ret (fst (plain_run ops []), c') /\
    Size c' = zlen (snd (plain_run ops [])) /\ plain_file c' (snd (plain_run ops [])).
Proof.
  intros Hf Hn Hok. destruct (new_plain_file index0 f nthreads Hf Hn) as (c & E & Hp & _).
  destruct (comp_run_spec junk ops c [] Hp Hok) as (c' & E' & Hp'). exists c, c'. split; [done|]. split; [done|]. split; [|done].
  destruct (pf_cache _ _ Hp') as (h & _ & _ & Hd). symmetry. apply Hd.
Qed.

Lemma comp_run_blocksize ops : forall c d rs c', plain_file c d -> comp_ops_ok ops d -> comp_run junk ops c = Ret (rs, c') -> blocksize (members c') = blocksize (members c).
Proof.
  induction ops as [|op ops IH]; intros c d rs c' Hp Hok E; [by injection E as _ <-|]. destruct Hok as [Hop Hops]. cbn [comp_run] in E.
  destruct (comp_step_spec junk op c d Hp Hop) as (c1 & E1 & Hp1 & Hb1). rewrite E1 in E. cbn [rbind] in E.
  destruct (comp_run_spec junk ops c1 _ Hp1 Hops) as (c2 & E2 & _). rewrite E2 in E. injection E as _ <-. rewrite <- Hb1. by eapply IH.
Qed.

(** C19: a file that was written by any such sequence, is not empty at its end, and was
    finished can be opened again, with one thread or none, from the bytes of its backing
    file, and every read inside of it yields the bytes that were written. *)
Theorem compressed_file_roundtrip file_Sync index0 f nthreads ops pad' index1 nthreads' :
  (forall f, fst (file_Sync f) = true /\ contents (snd (file_Sync f)) = contents f) ->
  contents f = [] -> 0 <= nthreads <= 1 -> comp_ops_ok ops [] -> snd (plain_run ops []) <> [] -> 0 <= nthreads' <= 1 ->
  exists c c1 c2, CompressedFile pad index0 f false false nthreads = Ret c /\ comp_run junk ops c = Ret (fst (plain_run ops []), c1) /\
    finish file_Sync pad c1 = Ret (true, c2) /\
    (RealSize c2 < 2 ^ 63 -> exists c3, CompressedFile pad' index1 (uncompressedFile (members c2)) true true nthreads' = Ret c3 /\
       hasError c3 = false /\ Size c3 = zlen (snd (plain_run ops [])) /\
       forall o n, 0 <= o <= zlen (snd (plain_run ops [])) -> 0 <= n ->
         exists c4, ReadAt junk o n c3 = Ret (file_read (snd (plain_run ops [])) o n, false, c4)).
Proof.
  intros Hs Hf Hn Hok Hne Hn'. destruct (new_plain_file index0 f nthreads Hf Hn) as (c & E & Hp & Hbs).
  destruct (comp_run_spec junk ops c [] Hp Hok) as (c1 & E1 & Hp1). set (d := snd (plain_run ops [])) in *.
  pose proof (comp_run_blocksize _ _ _ _ _ Hp Hok E1) as Hb1. destruct Hp1 as [(h & C & (Hi1 & Hi2 & Hi3) & Hd) Hro].
  destruct (comp_finish_spec file_Sync pad Hs c1 h d C Hi2 Hi3 Hd Hro Hne) as (c2 & E2 & Cl); [by rewrite Hb1, Hbs|].
  exists c, c1, c2. split; [done|]. split; [done|]. split; [done|]. unfold RealSize. rewrite size_law. intros H63.
  destruct (comp_open_spec pad' _ d _ index1 (uncompressedFile (members c2)) nthreads' Cl eq_refl H63 (proj1 Hn') true) as (c3 & h3 & E3 & Eh & Ep & Hr3 & _ & X).
  destruct (X eq_refl) as [C3 Hd3]. exists c3. split; [done|]. split; [apply (ci_client _ _ (ca_inv _ _ C3))|]. split; [symmetry; apply Hd3|]. intros o n Ho Hn0.
  assert (Hi : idle h3) by (rewrite Eh; split; [cbn; destruct (Z.ltb_spec 0 nthreads'); lia|done]).
  destruct (seek_spec c3 h3 o C3) as (Es & C3' & Hd3'). unfold ReadAt. rewrite Es. cbn [rbind]. unfold Read.
  destruct (read_loop_spec junk (S (Z.to_nat n)) n _ h3 d C3' Hi (Hd3' d Hd3) Hn0) as (c4 & h4 & E4 & _); [done|lia|]. by exists c4.
Qed.

(** C40: reading at a position behind the end of the file, but in a block that the file
    has, reads outside the cache: the number of bytes to the end is negative and taken
    as unsigned. *)
Theorem compressed_read_behind_end c d pos n : plain_file c d -> 0 < zlen d < pos -> pos < 2 ^ 49 ->
  start (blocksize (members c)) pos = start (blocksize (members c)) (zlen d - 1) -> 0 < n -> ReadAt junk pos n c = Crashes.
Proof.
  intros [(h & C & Hi & Hd) Hro] Hp Hp49 Hs Hn. destruct (seek_spec c h pos C) as (Es & C1 & Hd1). specialize (Hd1 d Hd). unfold ReadAt. rewrite Es. cbn [rbind].
  set (c1 := with_members _ c) in *. unfold Read. cbn [read_loop]. rewrite (ca_finished _ _ C1), bool_decide_false by (rewrite (ca_cache _ _ C1); done).
  change (currentPosition (members c1)) with pos. pose proof (oo_size _ (ci_client _ _ (ca_inv _ _ C1))) as Hbs.
  destruct (ho_bytes _ _ _ Hd1 (zlen d - 1)) as (b & Eb & _); [lia|]. change (blocksize (members c1)) with (blocksize (members c)) in *. rewrite <- Hs in Eb.
  pose proof (Z.mod_pos_bound pos (blocksize (members c)) ltac:(lia)) as Hm.
  destruct (lookup_block_spec junk c1 h pos C1 ltac:(lia) (idle_rest _ _ Hi)) as [(_ & _ & _ & _ & V)|(p & b1 & c2 & h2 & E & [C2 G2 _ _ _ _ _ _] & _)].
  - change (blocksize (members c1)) with (blocksize (members c)) in V. congruence.
  - rewrite E. cbn [rbind]. change (blocksize (members c1)) with (blocksize (members c)).
    pose proof (go_shape _ _ _ _ G2) as X. unfold same_shape, shape in X. injection X as X1 _ _ X4 _ _ _ _. rewrite X1, X4. change (currentPosition (members c1)) with pos.
    try change (filesize (members c1)) with (filesize (members c)). rewrite <- (ho_len _ _ _ Hd). set (k := Z.min n _). assert (0 < k <= n) by (unfold k; lia).
    rewrite (proj2 (Z.ltb_lt (zlen d) (pos + k))) by lia. assert (Ew : w64 (zlen d - pos) = zlen d - pos + 2 ^ 64).
    { unfold w64. symmetry. apply Z.mod_unique_pos with (-1); lia. }
    rewrite Ew, (proj2 (Z.eqb_neq _ 0)) by lia. rewrite (proj2 (Z.ltb_lt _ (zlen d - pos + 2 ^ 64))) by lia. done.
Qed.

(** C38: with a second thread a block can be nowhere to be found: after six blocks were
    written the first one waits for the thread, neither in the cache nor in the index,
    and until the thread has written it a read of it yields nothing. *)
Theorem compressed_threads_lose_block index0 f nthreads b p n : contents f = [] -> 2 <= nthreads -> zlen b = 6 * c_cacheBuffersize ->
  0 <= p < c_cacheBuffersize -> 0 < n -> exists c c1 c2,
  CompressedFile pad index0 f false false nthreads = Ret c /\ WriteAt junk 0 b c = Ret (zlen b, false, c1) /\ Size c1 = zlen b /\
  ReadAt junk p n c1 = Ret ([], false, c2).
Proof.
  intros Hf Hn Hb Hp Hn0. destruct (comp_create_spec pad index0 f nthreads Hf ltac:(lia)) as (c & h & E & C & Hd & Hro & Hbs & (Hpo & Hix) & Eh).
  assert (St : streamed (nthreads - 1) [] [] 0 (with_members (with_position 0 (members c)) c) h).
  { rewrite Eh. split; try done; [rewrite <- Eh; apply C| |split; [done|split; [done|symmetry; apply Hd]]|split; [apply (ci_client _ _ (ca_inv _ _ C))|apply C]].
    unfold config, LRUMemCache.init; cbn. by rewrite (proj2 (Z.ltb_lt 0 nthreads)) by lia. }
  destruct (stream_six junk _ _ _ b St ltac:(lia) Hb) as (c1 & h1 & b0 & l & E1 & S1 & _ & Hl). exists c, c1. eexists. split; [done|].
  split; [unfold WriteAt, Seek; rewrite (ca_finished _ _ C); cbn [rbind]; exact E1|]. destruct S1 as [Ec Ecf El Eq Eb (O1 & O2 & O3) Ei (Fe & Ff)].
  split; [unfold Size; lia|]. unfold ReadAt, Seek. rewrite Ff. cbn [rbind]. unfold Read. set (c2 := with_members (with_position p (members c1)) c1).
  cbn [read_loop]. change (finished (members c2)) with (finished (members c1)). rewrite Ff, bool_decide_false by (unfold c2; cbn; congruence).
  change (currentPosition (members c2)) with p. unfold lookup_block, cache_get. change (hotCache c2) with (hotCache c1). rewrite Ec. unfold LRUMemCache.get.
  rewrite find_none; [|rewrite El; eapply Forall_impl; [exact Hl|]; intros it Hit; unfold LRUMemCache.hit; cbn in Hit; by rewrite (proj2 (Z.leb_gt _ _)) by lia].
  unfold fillCache. change (hotCache c2) with (hotCache c1). rewrite Ec. change (blocksize (members c2)) with (blocksize (members c1)). rewrite O1.
  change (blockOffsets (members c2)) with (blockOffsets (members c1)). rewrite Ei. change (c_cacheBuffersize =? 0) with false. cbv iota.
  rewrite Z.quot_small by lia. change (zlen [] <=? w64 0) with true. cbn [rbind]. reflexivity.
Qed.

(** C39: a finished file that is opened again for writing has no buffers to compress into,
    since only new files make them: after any calls of which one got or gave bytes,
    finishing it fails an assertion. *)
Theorem compressed_reopened_for_writing_asserts index0 f nthreads c ops rs c' file_Sync : 0 <= nthreads <= 1 ->
  CompressedFile pad index0 f true false nthreads = Ret c -> hasError c = false -> comp_run junk ops c = Ret (rs, c') -> existsb some_bytes rs = true ->
  finish file_Sync pad c' = AssertFails.
Proof.
  intros Hn E He Er Hs. pose proof (run_jam junk ops c rs c' 0 (open_jam pad index0 f nthreads c Hn E He) Er) as J. rewrite Hs in J. by eapply finish_jam.
Qed.
End Theorems.

(** * Instances of the theorems on compressed files: an in-memory backing file, a
    compressor that copies, buffers full of [x]. *)

#[export] Instance copy_codec : ICodec := {|
  ZSTD_compress b cap := if zlen b <=? cap then Some b else None;
  ZSTD_decompress z dst := if zlen z <=? zlen dst then (Some (zlen z), z ++ zdrop (zlen z) dst) else (None, dst);
  mz_uncompress z dst := (None, dst);
  ZSTD_compressBound n := n;
  mz_compressBound n := n |}.
#[export] Program Instance copy_codec_laws : CodecLaws.
Next Obligation. intros n Hn. cbn. pose proof (Z.div_pos n 256). lia. Qed.
Next Obligation.
  intros b cap Hc. exists b. cbn in *. rewrite (proj2 (Z.leb_le _ _)) by done. split; [done|]. split; [done|].
  intros dst Hd. cbn. rewrite (proj2 (Z.leb_le _ _)), zdrop_ge, app_nil_r by lia. done.
Qed.
Definition x_buffers (k : nat) : bytes := replicate k "x"%char.
Definition demo_ops : list comp_op := [CWrite 0 (str "abc"); CRead 1 5; CWrite 3 (str "d"); CRead 0 4].

Lemma demo_ops_ok : comp_ops_ok demo_ops [].
Proof. vm_compute. repeat split; discriminate. Qed.

Lemma compressed_file_flat_witness : exists c c', CompressedFile nul 7 CMemoryFile.init false false 1 = Ret c /\
  comp_run x_buffers demo_ops c = Ret ([CCount 3; CBytes (str "bc"); CCount 1; CBytes (str "abcd")], c') /\ Size c' = 4.
Proof.
  destruct (compressed_file_flat (F := CMemoryFile.t) x_buffers nul 7 CMemoryFile.init 1 demo_ops) as (c & c' & E & E' & Es & _);
    [done|lia|exact demo_ops_ok|]. exists c, c'. split; [exact E|]. split; [exact E'|exact Es].
Defined.

Lemma compressed_file_roundtrip_witness : exists c c1 c2, CompressedFile nul 7 CMemoryFile.init false false 1 = Ret c /\
  comp_run x_buffers demo_ops c = Ret ([CCount 3; CBytes (str "bc"); CCount 1; CBytes (str "abcd")], c1) /\
  finish (fun f => (true, f)) nul c1 = Ret (true, c2) /\
  (RealSize c2 < 2 ^ 63 -> exists c3, CompressedFile nul 9 (uncompressedFile (members c2)) true true 1 = Ret c3 /\
     exists c4, ReadAt x_buffers 1 2 c3 = Ret (str "bc", false, c4)).
Proof.
  destruct (compressed_file_roundtrip (F := CMemoryFile.t) x_buffers nul (fun f => (true, f)) 7 CMemoryFile.init 1 demo_ops nul 9 1) as (c & c1 & c2 & E & E1 & E2 & E3);
    [done|done|lia|exact demo_ops_ok|done|lia|]. exists c, c1, c2. split; [exact E|]. split; [exact E1|]. split; [exact E2|]. intros H63.
  destruct (E3 H63) as (c3 & E4 & _ & _ & E5). exists c3. split; [exact E4|]. apply (E5 1 2); [|lia]. vm_compute. by split.
Defined.

Lemma compressed_read_behind_end_witness : exists c, plain_file c (str "a") /\ ReadAt (F := CMemoryFile.t) x_buffers 10 1 c = Crashes.
Proof.
  destruct (new_plain_file (F := CMemoryFile.t) nul 7 CMemoryFile.init 1) as (c & _ & Hp & Hb); [done|lia|].
  destruct (comp_step_spec x_buffers (CWrite 0 (str "a")) c [] Hp) as (c' & _ & Hp' & Hb'); [vm_compute; repeat split; discriminate|].
  exists c'. split; [exact Hp'|]. apply (compressed_read_behind_end (F := CMemoryFile.t) x_buffers c' (str "a") 10 1); [exact Hp'|by vm_compute|done| |done].
  rewrite Hb', Hb. by vm_compute.
Defined.

Lemma compressed_threads_lose_block_witness : exists b c c1 c2, zlen b = 6 * c_cacheBuffersize /\
  CompressedFile nul 7 CMemoryFile.init false false 2 = Ret c /\
  WriteAt x_buffers 0 b c = Ret (zlen b, false, c1) /\ ReadAt x_buffers 5 4 c1 = Ret ([], false, c2).
Proof.
  assert (L : exists b : bytes, zlen b = 6 * c_cacheBuffersize).
  { exists (replicate (Z.to_nat (6 * c_cacheBuffersize)) "b"%char). apply zlen_replicate. unfold c_cacheBuffersize. lia. }
  destruct L as [b L].
  assert (Hp : 0 <= 5 < c_cacheBuffersize) by (unfold c_cacheBuffersize; lia). assert (Hf : contents CMemoryFile.init = []) by done.
  destruct (compressed_threads_lose_block (F := CMemoryFile.t) x_buffers nul 7 CMemoryFile.init 2 b 5 4 Hf ltac:(lia) L Hp ltac:(lia))
    as (c & c1 & c2 & E & E1 & _ & E2).
  exists b, c, c1, c2. split; [exact L|]. split; [exact E|]. split; [exact E1|exact E2].
Defined.

(** A finished file with one block of four bytes. *)
Definition finished_file : CMemoryFile.t :=
  CMemoryFile.mk (header_of nul 62 3 4 ++ block_data (str "abcd") ++ index_bytes [50]) 0.
Lemma compressed_reopened_for_writing_asserts_witness : exists c c', CompressedFile nul 7 finished_file true false 1 = Ret c /\
  comp_run x_buffers [CRead 0 3] c = Ret ([CBytes (str "abc")], c') /\ finish (fun f => (true, f)) nul c' = AssertFails.
Proof.
  assert (X : exists c c', CompressedFile nul 7 finished_file true false 1 = Ret c /\ hasError c = false /\
    comp_run x_buffers [CRead 0 3] c = Ret ([CBytes (str "abc")], c')).
  { eexists _, _. split; [vm_compute; reflexivity|]. split; [reflexivity|]. vm_compute. reflexivity. }
  destruct X as (c & c' & E & He & E'). exists c, c'. split; [exact E|]. split; [exact E'|].
  apply (compressed_reopened_for_writing_asserts (F := CMemoryFile.t) x_buffers nul 7 finished_file 1 c [CRead 0 3] [CBytes (str "abc")] c' (fun f => (true, f)));
    [lia|exact E|exact He|exact E'|reflexivity].
Defined.
