(* ===== verification/VhdFormat.v ===== *)
(** The structures of a VHD image: [fsimageplugin/vhdfile.h], with the checksum and the
    geometry of [fsimageplugin/vhdfile.cpp] and the byte order functions of
    [stringtools.h].

    A field holds the integer that the program's structure holds, which is the value of
    the format with its bytes swapped. *)
From S2P Require Import Prelude Bits.

(** ** Byte order; the host is little-endian *)

Definition endian_swap (x : Z) : Z :=
  Z.lor (Z.lor (Z.lor (Z.shiftr x 24) (Z.land (w32 (Z.shiftl x 8)) 0x00FF0000)) (Z.land (Z.shiftr x 8) 0x0000FF00))
    (w32 (Z.shiftl x 24)).
Definition endian_swap64 (x : Z) : Z :=
  Z.lor (Z.lor (Z.lor (Z.lor (Z.lor (Z.lor (Z.lor
    (Z.shiftr x 56)
    (Z.land (w64 (Z.shiftl x 40)) 0x00FF000000000000))
    (Z.land (w64 (Z.shiftl x 24)) 0x0000FF0000000000))
    (Z.land (w64 (Z.shiftl x 8)) 0x000000FF00000000))
    (Z.land (Z.shiftr x 8) 0x00000000FF000000))
    (Z.land (Z.shiftr x 24) 0x0000000000FF0000))
    (Z.land (Z.shiftr x 40) 0x000000000000FF00))
    (w64 (Z.shiftl x 56)).
Definition big_endian (x : Z) : Z := endian_swap x.
Definition big_endian64 (x : Z) : Z := endian_swap64 x.

(** ** Structures, packed *)

Record VHDFooter := mkFooter {
  cookie : bytes;
  features : Z;
  format_version : Z;
  data_offset : Z;
  timestamp : Z;
  creator_application : bytes;
  creator_version : Z;
  creator_os : Z;
  original_size : Z;
  current_size : Z;
  disk_geometry : Z;
  disk_type : Z;
  checksum : Z;
  uid : bytes;
  saved_state : char;
  reserved : bytes }.

(** [(char* )&footer] *)
Definition footer_bytes (f : VHDFooter) : bytes :=
  cookie f ++ le_bytes 4 (features f) ++ le_bytes 4 (format_version f) ++ le_bytes 8 (data_offset f) ++ le_bytes 4 (timestamp f)
    ++ creator_application f ++ le_bytes 4 (creator_version f) ++ le_bytes 4 (creator_os f) ++ le_bytes 8 (original_size f)
    ++ le_bytes 8 (current_size f) ++ le_bytes 4 (disk_geometry f) ++ le_bytes 4 (disk_type f) ++ le_bytes 4 (checksum f)
    ++ uid f ++ [saved_state f] ++ reserved f.
(** The structure at 512 bytes that were read into it. *)
Definition field (b : bytes) (pos n : Z) : Z := le_val (zsub pos n b).
Definition footer_of (b : bytes) : VHDFooter :=
  mkFooter (zsub 0 8 b) (field b 8 4) (field b 12 4) (field b 16 8) (field b 24 4) (zsub 28 4 b) (field b 32 4) (field b 36 4)
    (field b 40 8) (field b 48 8) (field b 56 4) (field b 60 4) (field b 64 4) (zsub 68 16 b) (znth nul b 84) (zsub 85 427 b).
Definition with_checksum (c : Z) (f : VHDFooter) : VHDFooter :=
  mkFooter (cookie f) (features f) (format_version f) (data_offset f) (timestamp f) (creator_application f) (creator_version f)
    (creator_os f) (original_size f) (current_size f) (disk_geometry f) (disk_type f) c (uid f) (saved_state f) (reserved f).

Record VHDParentLocator := mkLocator {
  platform_code : Z;
  platform_space : Z;
  platform_length : Z;
  l_reserved : Z;
  platform_offset : Z }.
Definition locator_bytes (l : VHDParentLocator) : bytes :=
  le_bytes 4 (platform_code l) ++ le_bytes 4 (platform_space l) ++ le_bytes 4 (platform_length l) ++ le_bytes 4 (l_reserved l)
    ++ le_bytes 8 (platform_offset l).
Definition locator_of (b : bytes) : VHDParentLocator := mkLocator (field b 0 4) (field b 4 4) (field b 8 4) (field b 12 4) (field b 16 8).

Record VHDDynamicHeader := mkDynamic {
  d_cookie : bytes;
  dataoffset : Z;
  tableoffset : Z;
  header_version : Z;
  table_entries : Z;
  d_blocksize : Z;
  d_checksum : Z;
  parent_uid : bytes;
  parent_timestamp : Z;
  d_reserved : Z;
  parent_unicodename : bytes;
  parentlocator : list VHDParentLocator;
  reserved2 : bytes }.
Definition dynamic_bytes (h : VHDDynamicHeader) : bytes :=
  d_cookie h ++ le_bytes 8 (dataoffset h) ++ le_bytes 8 (tableoffset h) ++ le_bytes 4 (header_version h) ++ le_bytes 4 (table_entries h)
    ++ le_bytes 4 (d_blocksize h) ++ le_bytes 4 (d_checksum h) ++ parent_uid h ++ le_bytes 4 (parent_timestamp h)
    ++ le_bytes 4 (d_reserved h) ++ parent_unicodename h ++ concat (map locator_bytes (parentlocator h)) ++ reserved2 h.
Definition dynamic_of (b : bytes) : VHDDynamicHeader :=
  mkDynamic (zsub 0 8 b) (field b 8 8) (field b 16 8) (field b 24 4) (field b 28 4) (field b 32 4) (field b 36 4) (zsub 40 16 b)
    (field b 56 4) (field b 60 4) (zsub 64 512 b) (map (fun i => locator_of (zsub (576 + 24 * Z.of_nat i) 24 b)) (seq 0 8)) (zsub 768 256 b).
Definition with_d_checksum (c : Z) (h : VHDDynamicHeader) : VHDDynamicHeader :=
  mkDynamic (d_cookie h) (dataoffset h) (tableoffset h) (header_version h) (table_entries h) (d_blocksize h) c (parent_uid h)
    (parent_timestamp h) (d_reserved h) (parent_unicodename h) (parentlocator h) (reserved2 h).

(** ** Checksum and geometry *)

Fixpoint sum_bytes (checksum : Z) (data : bytes) : Z :=
  match data with [] => checksum | c :: data => sum_bytes (w32 (checksum + u8 c)) data end.
Definition calculate_checksum (data : bytes) : Z := w32 (Z.lnot (big_endian (sum_bytes 0 data))).

Definition sector_size : Z := 512.

Definition calculate_chs (dstsize : Z) : Z :=
  let totalSectors := s64 (w64 (dstsize / sector_size)) in
  let totalSectors := if 65535 * 16 * 255 <? totalSectors then 65535 * 16 * 255 else totalSectors in
  let '(sectorsPerTrack, heads, cylinderTimesHeads) :=
    if 65535 * 16 * 63 <=? totalSectors then (255, 16, w32 (Z.quot totalSectors 255))
    else
      let c := w32 (Z.quot totalSectors 17) in
      let heads := w8 (w32 (c + 1023) / 1024) in
      let heads := if heads <? 4 then 4 else heads in
      let '(spt, heads, c) :=
        if (w32 (heads * 1024) <=? c) || (16 <? heads) then (31, 16, w32 (Z.quot totalSectors 31)) else (17, heads, c) in
      if w32 (heads * 1024) <=? c then (63, 16, w32 (Z.quot totalSectors 63)) else (spt, heads, c) in
  let cylinders := w16 (cylinderTimesHeads / heads) in
  big_endian (w32 (s32 (Z.shiftl cylinders 16) + Z.shiftl heads 8 + sectorsPerTrack)).

(** ** Properties of the byte order functions *)

(** The functions as bit expressions over any argument. *)
Definition swap_bexp (e : bexp) : bexp :=
  ELor (ELor (ELor (EShr e 24) (ELand (EMod (EShl e 8) 32) (EC 0x00FF0000))) (ELand (EShr e 8) (EC 0x0000FF00))) (EMod (EShl e 24) 32).
Definition swap64_bexp (e : bexp) : bexp :=
  ELor (ELor (ELor (ELor (ELor (ELor (ELor
    (EShr e 56)
    (ELand (EMod (EShl e 40) 64) (EC 0x00FF000000000000)))
    (ELand (EMod (EShl e 24) 64) (EC 0x0000FF0000000000)))
    (ELand (EMod (EShl e 8) 64) (EC 0x000000FF00000000)))
    (ELand (EShr e 8) (EC 0x00000000FF000000)))
    (ELand (EShr e 24) (EC 0x0000000000FF0000)))
    (ELand (EShr e 40) (EC 0x000000000000FF00)))
    (EMod (EShl e 56) 64).
Lemma swap_denote v e : denote v (swap_bexp e) = endian_swap (denote v e).
Proof. done. Qed.
Lemma swap64_denote v e : denote v (swap64_bexp e) = endian_swap64 (denote v e).
Proof. done. Qed.

Lemma big_endian_involutive x : 0 <= x < 2 ^ 32 -> big_endian (big_endian x) = x.
Proof.
  intros Hx. unfold big_endian. change x with (denote x EV) at 1. rewrite <- !swap_denote. change x with (denote x EV) at 2.
  apply (bexp_eq_sound 32); [done|done|vm_compute; reflexivity].
Qed.
Lemma big_endian_range x : 0 <= x < 2 ^ 32 -> 0 <= big_endian x < 2 ^ 32.
Proof.
  intros Hx. assert (E : denote x (EMod (swap_bexp EV) 32) = denote x (swap_bexp EV))
    by (apply (bexp_eq_sound 32); [done|done|vm_compute; reflexivity]).
  rewrite swap_denote in E. change (denote x EV) with x in E. unfold big_endian. rewrite <- E. apply Z.mod_pos_bound. lia.
Qed.
Lemma big_endian_inj x y : 0 <= x < 2 ^ 32 -> 0 <= y < 2 ^ 32 -> big_endian x = big_endian y -> x = y.
Proof. intros Hx Hy E. by rewrite <- (big_endian_involutive x), <- (big_endian_involutive y), E. Qed.
Lemma big_endian64_involutive x : 0 <= x < 2 ^ 64 -> big_endian64 (big_endian64 x) = x.
Proof.
  intros Hx. unfold big_endian64. change x with (denote x EV) at 1. rewrite <- !swap64_denote. change x with (denote x EV) at 2.
  apply (bexp_eq_sound 64); [done|done|vm_compute; reflexivity].
Qed.
Lemma big_endian64_range x : 0 <= x < 2 ^ 64 -> 0 <= big_endian64 x < 2 ^ 64.
Proof.
  intros Hx. assert (E : denote x (EMod (swap64_bexp EV) 64) = denote x (swap64_bexp EV))
    by (apply (bexp_eq_sound 64); [done|done|vm_compute; reflexivity]).
  rewrite swap64_denote in E. change (denote x EV) with x in E. unfold big_endian64. rewrite <- E. apply Z.mod_pos_bound. lia.
Qed.
