(* ===== verification/VhdFile.v ===== *)
(** VHD images: [fsimageplugin/vhdfile.cpp].

    An image is a file with a header, a table of blocks (the BAT), blocks that start
    with a bitmap of their sectors, and a footer.  A sector that is not in the image is
    read from the parent image, or is zero.  The image's file and its parent are the
    classes [IFile] and [IVHDParent]; [VhdOps.v] shows that an image is a parent
    again, so that chains of any length are covered.

    In fast mode bitmaps, footer and BAT are not written with every call. *)
From S2P Require Import Prelude MemFile VhdFormat.

(** [Undefined]: an access outside an array or a division by zero; [Endless]: the given
    number of rounds was not enough. *)
Inductive vhd_run (A : Type) := Ran (a : A) | Undefined | Endless.
Arguments Ran {A} a.
Arguments Undefined {A}.
Arguments Endless {A}.
Definition vbind {A B} (m : vhd_run A) (k : A -> vhd_run B) : vhd_run B :=
  match m with Ran a => k a | Undefined => Undefined | Endless => Endless end.
Declare Scope vhd_scope.
Notation "'let!' x := m 'in' k" := (vbind m (fun x => k)) (at level 200, x pattern, right associativity) : vhd_scope.
#[global] Open Scope vhd_scope.

(** What an image calls of its parent.  [p_Read p buffer bsize] yields the result, the
    number of bytes read, and the buffer. *)
Class IVHDParent (P : Type) := {
  p_Seek : P -> Z -> P;
  p_Read : P -> bytes -> Z -> vhd_run (bool * Z * bytes * P);
  p_has_block : P -> vhd_run (bool * P);
  p_has_sector : P -> vhd_run (bool * P);
  p_finish : P -> bool * P }.

(** [Sync()] of the backing file, or [finish()] of the compressed one. *)
Class IFinish (F : Type) := { file_finish : F -> bool * F }.

Definition def_header_offset : Z := 0.
Definition def_dynamic_header_offset : Z := 512.
Definition def_bat_offset : Z := 512 + 1024.
Definition def_bat_offset_parent : Z := 2 * 1024.
Definition unixtime_offset : Z := 946684800.

(** The entry of a block that is not in the image, and the number of no block. *)
Definition no_block : Z := 0xFFFFFFFF.

(** The next multiple of [sector_size] above [x]. *)
Definition next_sector (x : Z) : Z := w64 (x + (sector_size - x mod sector_size)).

(** The first [zlen src] bytes at [pos] of a caller's buffer. *)
Definition put (pos : Z) (src buf : bytes) : bytes := zsplice pos src buf.

Module VHDFile.
Section VHDFile.
Context {F P : Type} `{IFile F} `{IVHDParent P}.

(** [compressed]: [file != backing_file]. *)
Record t := mk {
  read_only : bool;
  fast_mode : bool;
  compressed : bool;
  file : F;
  parent : option P;
  dstsize : Z;
  blocksize : Z;
  footer : VHDFooter;
  dynamicheader : VHDDynamicHeader;
  bat : list Z;
  batsize : Z;
  header_offset : Z;
  dynamic_header_offset : Z;
  bat_offset : Z;
  nextblock_offset : Z;
  bitmap : bytes;
  bitmap_size : Z;
  is_open : bool;
  currblock : Z;
  curr_offset : Z;
  bitmap_offset : Z;
  bitmap_dirty : bool;
  volume_offset : Z;
  finished : bool }.

Definition with_file (f : F) (v : t) : t :=
  mk (read_only v) (fast_mode v) (compressed v) f (parent v) (dstsize v) (blocksize v) (footer v) (dynamicheader v) (bat v) (batsize v)
    (header_offset v) (dynamic_header_offset v) (bat_offset v) (nextblock_offset v) (bitmap v) (bitmap_size v) (is_open v) (currblock v)
    (curr_offset v) (bitmap_offset v) (bitmap_dirty v) (volume_offset v) (finished v).
Definition with_parent (p : option P) (v : t) : t :=
  mk (read_only v) (fast_mode v) (compressed v) (file v) p (dstsize v) (blocksize v) (footer v) (dynamicheader v) (bat v) (batsize v)
    (header_offset v) (dynamic_header_offset v) (bat_offset v) (nextblock_offset v) (bitmap v) (bitmap_size v) (is_open v) (currblock v)
    (curr_offset v) (bitmap_offset v) (bitmap_dirty v) (volume_offset v) (finished v).
Definition with_footer (ft : VHDFooter) (v : t) : t :=
  mk (read_only v) (fast_mode v) (compressed v) (file v) (parent v) (dstsize v) (blocksize v) ft (dynamicheader v) (bat v) (batsize v)
    (header_offset v) (dynamic_header_offset v) (bat_offset v) (nextblock_offset v) (bitmap v) (bitmap_size v) (is_open v) (currblock v)
    (curr_offset v) (bitmap_offset v) (bitmap_dirty v) (volume_offset v) (finished v).
Definition with_dynamicheader (dh : VHDDynamicHeader) (v : t) : t :=
  mk (read_only v) (fast_mode v) (compressed v) (file v) (parent v) (dstsize v) (blocksize v) (footer v) dh (bat v) (batsize v)
    (header_offset v) (dynamic_header_offset v) (bat_offset v) (nextblock_offset v) (bitmap v) (bitmap_size v) (is_open v) (currblock v)
    (curr_offset v) (bitmap_offset v) (bitmap_dirty v) (volume_offset v) (finished v).
(** A new block: the table and the place of the next one. *)
Definition with_bat (b : list Z) (v : t) : t :=
  mk (read_only v) (fast_mode v) (compressed v) (file v) (parent v) (dstsize v) (blocksize v) (footer v) (dynamicheader v) b (batsize v)
    (header_offset v) (dynamic_header_offset v) (bat_offset v) (nextblock_offset v) (bitmap v) (bitmap_size v) (is_open v) (currblock v)
    (curr_offset v) (bitmap_offset v) (bitmap_dirty v) (volume_offset v) (finished v).
Definition with_nextblock (n : Z) (v : t) : t :=
  mk (read_only v) (fast_mode v) (compressed v) (file v) (parent v) (dstsize v) (blocksize v) (footer v) (dynamicheader v) (bat v) (batsize v)
    (header_offset v) (dynamic_header_offset v) (bat_offset v) n (bitmap v) (bitmap_size v) (is_open v) (currblock v)
    (curr_offset v) (bitmap_offset v) (bitmap_dirty v) (volume_offset v) (finished v).
Definition with_bitmap (b : bytes) (v : t) : t :=
  mk (read_only v) (fast_mode v) (compressed v) (file v) (parent v) (dstsize v) (blocksize v) (footer v) (dynamicheader v) (bat v) (batsize v)
    (header_offset v) (dynamic_header_offset v) (bat_offset v) (nextblock_offset v) b (bitmap_size v) (is_open v) (currblock v)
    (curr_offset v) (bitmap_offset v) (bitmap_dirty v) (volume_offset v) (finished v).
Definition with_currblock (c : Z) (v : t) : t :=
  mk (read_only v) (fast_mode v) (compressed v) (file v) (parent v) (dstsize v) (blocksize v) (footer v) (dynamicheader v) (bat v) (batsize v)
    (header_offset v) (dynamic_header_offset v) (bat_offset v) (nextblock_offset v) (bitmap v) (bitmap_size v) (is_open v) c
    (curr_offset v) (bitmap_offset v) (bitmap_dirty v) (volume_offset v) (finished v).
Definition with_offset (o : Z) (v : t) : t :=
  mk (read_only v) (fast_mode v) (compressed v) (file v) (parent v) (dstsize v) (blocksize v) (footer v) (dynamicheader v) (bat v) (batsize v)
    (header_offset v) (dynamic_header_offset v) (bat_offset v) (nextblock_offset v) (bitmap v) (bitmap_size v) (is_open v) (currblock v)
    o (bitmap_offset v) (bitmap_dirty v) (volume_offset v) (finished v).
Definition with_dirty (off : Z) (d : bool) (v : t) : t :=
  mk (read_only v) (fast_mode v) (compressed v) (file v) (parent v) (dstsize v) (blocksize v) (footer v) (dynamicheader v) (bat v) (batsize v)
    (header_offset v) (dynamic_header_offset v) (bat_offset v) (nextblock_offset v) (bitmap v) (bitmap_size v) (is_open v) (currblock v)
    (curr_offset v) off d (volume_offset v) (finished v).
Definition with_finished (b : bool) (v : t) : t :=
  mk (read_only v) (fast_mode v) (compressed v) (file v) (parent v) (dstsize v) (blocksize v) (footer v) (dynamicheader v) (bat v) (batsize v)
    (header_offset v) (dynamic_header_offset v) (bat_offset v) (nextblock_offset v) (bitmap v) (bitmap_size v) (is_open v) (currblock v)
    (curr_offset v) (bitmap_offset v) (bitmap_dirty v) (volume_offset v) b.

(** ** Calls of the file *)

Definition file_Seek (o : Z) (v : t) : bool * t := let '(b, f) := MemFile.Seek (file v) o in (b, with_file f v).
Definition file_Read (n : Z) (v : t) : bytes * bool * t := let '((b, e), f) := MemFile.Read (file v) n in (b, e, with_file f v).
(** The number of bytes written. *)
Definition file_Write (b : bytes) (v : t) : Z * t := let '((n, _), f) := MemFile.Write (file v) b in (n, with_file f v).
(** [file->Seek(o)] and [file->Write(b)]; whether both succeeded. *)
Definition write_at (o : Z) (b : bytes) (v : t) : bool * t :=
  let '(ok, v) := file_Seek o v in
  if ok : bool then let '(n, v) := file_Write b v in (n =? zlen b, v) else (false, v).

(** ** Header, table and footer *)

Definition bat_bytes (b : list Z) : bytes := concat (map (le_bytes 4) b).

Definition write_bat (v : t) : bool * t := write_at (bat_offset v) (bat_bytes (bat v)) v.

Definition write_footer (v : t) : bool * t :=
  let '(ok, v) := write_at (nextblock_offset v) (footer_bytes (footer v)) v in
  if ok : bool then
    let v := if negb (compressed v) && negb (Size (file v) =? nextblock_offset v + 512)
             then with_file (snd (Resize (file v) (nextblock_offset v + 512))) v else v in
    (true, v)
  else (false, v).

(** [now]: [Server->getTimeSeconds()]; [random]: what [randomFill] yields. *)
Definition new_footer (now : Z) (random : bytes) (diff : bool) (v : t) : VHDFooter :=
  let ft := mkFooter (str "conectix") (big_endian 2) (big_endian 0x00010000) (big_endian64 (dynamic_header_offset v))
    (big_endian (w32 (now - unixtime_offset))) (str "vpc ") (big_endian 0x00050003) (big_endian 0x5769326B)
    (big_endian64 (dstsize v)) (big_endian64 (dstsize v)) (calculate_chs (dstsize v)) (big_endian (if diff then 4 else 3))
    0 random nul (replicate 427 nul) in
  with_checksum (calculate_checksum (footer_bytes ft)) ft.
Definition write_header (now : Z) (random : bytes) (diff : bool) (v : t) : bool * t :=
  let v := with_footer (new_footer now random diff v) v in
  write_at (header_offset v) (footer_bytes (footer v)) v.

(** [init_bitmap]: the size, and the vector resized to it. *)
Definition bitmap_bytes (blocksize : Z) : Z :=
  let n := blocksize / sector_size / 8 in
  let n := if negb (blocksize mod sector_size =? 0) || negb (blocksize / sector_size mod 8 =? 0) then n + 1 else n in
  if negb (n mod sector_size =? 0) then n + (sector_size - n mod sector_size) else n.
Definition init_bitmap (v : t) : t :=
  let n := bitmap_bytes (blocksize v) in
  mk (read_only v) (fast_mode v) (compressed v) (file v) (parent v) (dstsize v) (blocksize v) (footer v) (dynamicheader v) (bat v) (batsize v)
    (header_offset v) (dynamic_header_offset v) (bat_offset v) (nextblock_offset v) (zresize nul n (bitmap v)) n (is_open v) (currblock v)
    (curr_offset v) (bitmap_offset v) (bitmap_dirty v) (volume_offset v) (finished v).

(** ** The dynamic header *)

Definition zeros (n : Z) : bytes := replicate (Z.to_nat n) nul.
Definition no_locator : VHDParentLocator := mkLocator 0 0 0 0 0.
Definition base_dynamicheader (v : t) : VHDDynamicHeader :=
  mkDynamic (str "cxsparse") 0xFFFFFFFFFFFFFFFF (big_endian64 (bat_offset v)) (big_endian 0x00010000) (big_endian (batsize v))
    (big_endian (blocksize v)) 0 (zeros 16) 0 0 (zeros 512) (replicate 8 no_locator) (zeros 256).

(** The parent's file name in UTF-16: big-endian for the header, and the two paths for
    the locators.  The conversions are not part of the model. *)
Record parent_names := mkNames { unicodename : bytes; abs_unicodename : bytes; rel_unicodename : bytes }.

Definition with_locators (ls : list VHDParentLocator) (h : VHDDynamicHeader) : VHDDynamicHeader :=
  mkDynamic (d_cookie h) (dataoffset h) (tableoffset h) (header_version h) (table_entries h) (d_blocksize h) (d_checksum h) (parent_uid h)
    (parent_timestamp h) (d_reserved h) (parent_unicodename h) (ls ++ replicate (8 - length ls) no_locator) (reserved2 h).
Definition name_blocks (n : Z) : Z := n / sector_size + (if negb (n mod sector_size =? 0) then 1 else 0).

(** The part for a parent. *)
Definition write_parent (puid : bytes) (ptimestamp : Z) (n : parent_names) (v : t) : vhd_run (bool * t) :=
  let un := unicodename n ++ [nul; nul] in
  if 512 <? zlen un then Undefined
  else
    let h := base_dynamicheader v in
    let h := mkDynamic (d_cookie h) (dataoffset h) (tableoffset h) (header_version h) (table_entries h) (d_blocksize h) 0 puid
               (big_endian ptimestamp) 0 (un ++ zeros (512 - zlen un)) (parentlocator h) (reserved2 h) in
    let locator_blocks_abs := w32 (name_blocks (zlen (abs_unicodename n))) in
    let '(abs_locator_offset, v) :=
      if 1 <? locator_blocks_abs
      then (nextblock_offset v, with_nextblock (w64 (nextblock_offset v + nextblock_offset v * sector_size)) v)
      else (def_bat_offset_parent - 512, v) in
    let l0 := mkLocator (big_endian 0x57326B75) (big_endian (w32 (locator_blocks_abs * sector_size)))
                (big_endian (w32 (zlen (abs_unicodename n)))) 0 (big_endian64 abs_locator_offset) in
    let '(ok, v) := write_at abs_locator_offset (abs_unicodename n) (with_dynamicheader (with_locators [l0] h) v) in
    if negb ok then Ran (false, v)
    else
      let locator_blocks := if 0 <? name_blocks (zlen (rel_unicodename n)) then 1 else 0 in
      let locator_blocks := if locator_blocks <? 128 then 128 else locator_blocks in
      let l1 := mkLocator (big_endian 0x57327275) (big_endian (w32 (locator_blocks * sector_size)))
                  (big_endian (w32 (zlen (rel_unicodename n)))) 0 (big_endian64 (nextblock_offset v)) in
      let '(ok, v) := write_at (nextblock_offset v) (rel_unicodename n) (with_dynamicheader (with_locators [l0; l1] h) v) in
      if negb ok then Ran (false, v)
      else Ran (true, with_nextblock (w64 (nextblock_offset v + locator_blocks * sector_size)) v).

Definition write_dynamicheader (p : option (bytes * Z * parent_names)) (v : t) : vhd_run (bool * t) :=
  let! (ok, v) :=
    match p with
    | Some (puid, ptimestamp, n) => write_parent puid ptimestamp n v
    | None => Ran (true, with_dynamicheader (base_dynamicheader v) v)
    end in
  if negb ok then Ran (false, v)
  else
    let v := init_bitmap v in
    let h := dynamicheader v in
    let v := with_dynamicheader (with_d_checksum (calculate_checksum (dynamic_bytes h)) h) v in
    Ran (write_at (dynamic_header_offset v) (dynamic_bytes (dynamicheader v)) v).

(** ** Opening *)

(** Reading [n] bytes into a structure that held [old]. *)
Definition read_struct (old : bytes) (n : Z) (v : t) : bool * bytes * t :=
  let '(b, _, v) := file_Read n v in (zlen b =? n, zsplice 0 b old, v).

(** The checksum of a footer with a zero in its place. *)
Definition footer_valid (f : VHDFooter) : bool := checksum f =? calculate_checksum (footer_bytes (with_checksum 0 f)).

Definition read_footer (v : t) : bool * t :=
  let '(ok, v) := file_Seek (Size (file v) - 512) v in
  if negb ok then (false, v)
  else
    let '(ok, b, v) := read_struct (footer_bytes (footer v)) 512 v in
    let v := with_footer (footer_of b) v in
    if negb ok then (false, v)
    else if footer_valid (footer v) then (true, v)
    else
      let v := snd (file_Seek 0 v) in
      let '(ok, b, v) := read_struct (footer_bytes (with_checksum 0 (footer v))) 512 v in
      let v := with_footer (footer_of b) v in
      if negb ok then (false, v)
      else if footer_valid (footer v) then (true, v)
      else (false, with_footer (with_checksum 0 (footer v)) v).

Definition process_footer (v : t) : bool * t :=
  if negb (big_endian (format_version (footer v)) =? 0x00010000) then (false, v)
  else if negb (big_endian (disk_type (footer v)) =? 3) && negb (big_endian (disk_type (footer v)) =? 4) then (false, v)
  else
    (true, mk (read_only v) (fast_mode v) (compressed v) (file v) (parent v) (big_endian64 (current_size (footer v))) (blocksize v)
       (footer v) (dynamicheader v) (bat v) (batsize v) 0 (big_endian64 (data_offset (footer v))) (bat_offset v) (nextblock_offset v)
       (bitmap v) (bitmap_size v) (is_open v) (currblock v) (curr_offset v) (bitmap_offset v) (bitmap_dirty v) (volume_offset v) (finished v)).

(** [open_parent]: finding and opening the image that the header names, and its
    [getUID()]; [None] when it is not open. *)
Definition read_dynamicheader (open_parent : VHDDynamicHeader -> option (P * bytes)) (v : t) : bool * t :=
  let '(ok, v) := file_Seek (dynamic_header_offset v) v in
  if negb ok then (false, v)
  else
    let '(ok, b, v) := read_struct (dynamic_bytes (dynamicheader v)) 1024 v in
    let h := dynamic_of b in
    let v := with_dynamicheader h v in
    if negb ok then (false, v)
    else if negb (d_checksum h =? calculate_checksum (dynamic_bytes (with_d_checksum 0 h)))
    then (false, with_dynamicheader (with_d_checksum 0 h) v)
    else
      let v := mk (read_only v) (fast_mode v) (compressed v) (file v) (parent v) (dstsize v) (big_endian (d_blocksize h)) (footer v) h
                 (bat v) (big_endian (table_entries h)) (header_offset v) (dynamic_header_offset v) (big_endian64 (tableoffset h))
                 (nextblock_offset v) (bitmap v) (bitmap_size v) (is_open v) (currblock v) (curr_offset v) (bitmap_offset v)
                 (bitmap_dirty v) (volume_offset v) (finished v) in
      if big_endian (disk_type (footer v)) =? 4 then
        match open_parent h with
        | None => (false, v)
        | Some (p, puid) =>
            let v := with_parent (Some p) v in
            if bool_decide (puid = parent_uid h) then (true, init_bitmap v) else (false, v)
        end
      else (true, init_bitmap v).

Fixpoint bat_of (n : nat) (b : bytes) : list Z :=
  match n with O => [] | S k => le_val (ztake 4 b) :: bat_of k (zdrop 4 b) end.
Definition read_bat (v : t) : bool * t :=
  let '(ok, v) := file_Seek (bat_offset v) v in
  if negb ok then (false, v)
  else
    let n := w32 (batsize v * 4) in
    let '(b, _, v) := file_Read n v in
    if negb (zlen b =? batsize v * 4) then (false, v) else (true, with_bat (bat_of (Z.to_nat (batsize v)) b) v).

Definition with_open (b : bool) (v : t) : t :=
  mk (read_only v) (fast_mode v) (compressed v) (file v) (parent v) (dstsize v) (blocksize v) (footer v) (dynamicheader v) (bat v) (batsize v)
    (header_offset v) (dynamic_header_offset v) (bat_offset v) (nextblock_offset v) (bitmap v) (bitmap_size v) b (currblock v)
    (curr_offset v) (bitmap_offset v) (bitmap_dirty v) (volume_offset v) (finished v).

(** The members before anything is read or written. *)
Definition blank (ro fast comp : bool) (f : F) (dst bsize : Z) : t :=
  mk ro fast comp f None dst bsize (footer_of []) (dynamic_of []) [] 0 0 0 0 0 [] 0 false no_block 0 0 false 0 false.

(** The constructors' branch for an existing file. *)
Definition open_existing (open_parent : VHDDynamicHeader -> option (P * bytes)) (v : t) : t :=
  let '(ok, v) := read_footer v in
  if negb ok then v
  else
    let '(ok, v) := process_footer v in
    if negb ok then v
    else
      let '(ok, v) := read_dynamicheader open_parent v in
      if negb ok then v
      else
        let '(ok, v) := read_bat v in
        if negb ok then v
        else
          let n := w64 (Size (file v) - sector_size) in
          let n := if negb (n mod sector_size =? 0) then w64 (n + (sector_size - n mod sector_size)) else n in
          with_open true (with_nextblock n v).

Definition new_bat (bat_off : Z) (v : t) : t :=
  let n := w32 (dstsize v / blocksize v) in
  let n := if negb (dstsize v mod blocksize v =? 0) then w32 (n + 1) else n in
  mk (read_only v) (fast_mode v) (compressed v) (file v) (parent v) (dstsize v) (blocksize v) (footer v) (dynamicheader v)
    (replicate (Z.to_nat n) no_block) n def_header_offset def_dynamic_header_offset bat_off (nextblock_offset v) (bitmap v) (bitmap_size v)
    (is_open v) (currblock v) (curr_offset v) (bitmap_offset v) (bitmap_dirty v) (volume_offset v) (finished v).

(** [VHDFile(fn, read_only, dstsize, blocksize, ..)], with the file opened. *)
Definition VHDFile (now : Z) (random : bytes) (open_parent : VHDDynamicHeader -> option (P * bytes))
    (ro fast comp : bool) (f : F) (dst bsize : Z) : vhd_run t :=
  let v := blank ro fast comp f dst bsize in
  if (Size f =? 0) && negb ro then
    if bsize =? 0 then Undefined
    else
      let v := new_bat def_bat_offset v in
      let v := snd (write_header now random false v) in
      let! (_, v) := write_dynamicheader None v in
      let v := snd (write_bat v) in
      let v := with_nextblock (next_sector (bat_offset v + batsize v * 4)) v in
      Ran (with_open true (snd (write_footer v)))
  else Ran (open_existing open_parent v).

(** The constructor for a differencing image: the parent is open, and has the size
    [psize] and the block size [pbsize]. *)
Definition VHDFile_diff (now : Z) (random : bytes) (open_parent : VHDDynamicHeader -> option (P * bytes))
    (p : P) (psize pbsize : Z) (puid : bytes) (ptimestamp : Z) (n : parent_names)
    (ro fast comp : bool) (f : F) (dst : Z) : vhd_run t :=
  let v := with_parent (Some p) (blank ro fast comp f (if (0 <? dst) && negb (dst =? psize) then dst else psize) pbsize) in
  if (Size f =? 0) && negb ro then
    if pbsize =? 0 then Undefined
    else
      let v := new_bat def_bat_offset_parent v in
      let v := with_nextblock (next_sector (bat_offset v + batsize v * 4)) v in
      let v := snd (write_header now random true v) in
      let! (_, v) := write_dynamicheader (Some (puid, ptimestamp, n)) v in
      let v := snd (write_bat v) in
      Ran (with_open true (snd (write_footer v)))
  else Ran (open_existing open_parent v).

(** ** Position, sizes and bitmap *)

Definition Seek (offset : Z) (v : t) : t := with_offset (w64 (w64 offset + volume_offset v)) v.
Definition getSize (v : t) : Z := w64 (dstsize v - volume_offset v).
Definition getRealSize (v : t) : Z := dstsize v.
Definition getUID (v : t) : bytes := uid (footer v).
Definition getTimestamp (v : t) : Z := big_endian (timestamp (footer v)).
Definition getBlocksize (v : t) : Z := blocksize v.
Definition isOpen (v : t) : bool := is_open v.
Definition isCompressed (v : t) : bool := compressed v.
Definition addVolumeOffset (offset : Z) (v : t) : t :=
  mk (read_only v) (fast_mode v) (compressed v) (file v) (parent v) (dstsize v) (blocksize v) (footer v) (dynamicheader v) (bat v) (batsize v)
    (header_offset v) (dynamic_header_offset v) (bat_offset v) (nextblock_offset v) (bitmap v) (bitmap_size v) (is_open v) (currblock v)
    (curr_offset v) (bitmap_offset v) (bitmap_dirty v) offset (finished v).

(** [bitmap[bitmap_byte]] and the mask of the bit. *)
Definition bitmap_byte (offset : Z) : Z := offset / sector_size / 8.
Definition bitmap_mask (offset : Z) : Z := Z.shiftl 1 (7 - offset / sector_size mod 8).
Definition bit_in (b : bytes) (offset : Z) : option bool :=
  (fun c => negb (Z.land (u8 c) (bitmap_mask offset) =? 0)) <$> b !! Z.to_nat (bitmap_byte offset).
Definition isBitmapSet (offset : Z) (v : t) : option bool := bit_in (bitmap v) offset.
(** [setBitmapBit(offset, v)]: whether the bit changed. *)
Definition setBitmapBit (offset : Z) (val : bool) (v : t) : option (bool * t) :=
  c ← bitmap v !! Z.to_nat (bitmap_byte offset);
  let has_bit := negb (Z.land (u8 c) (bitmap_mask offset) =? 0) in
  let b := if val : bool then Z.lor (u8 c) (bitmap_mask offset) else Z.land (u8 c) (Z.lnot (bitmap_mask offset)) in
  let v := with_bitmap (zset (bitmap v) (bitmap_byte offset) (chr b)) v in
  if negb (Bool.eqb has_bit val) then Some (true, with_dirty (bitmap_offset v) true v) else Some (false, v).

Definition switchBitmap (new_offset : Z) (v : t) : t :=
  let v :=
    if fast_mode v && negb (read_only v) && bitmap_dirty v && negb (bitmap_offset v =? 0)
    then let v := snd (file_Seek (bitmap_offset v) v) in snd (file_Write (bitmap v) v)
    else v in
  with_dirty new_offset false v.

(** The block's entry of the table, in the host's byte order. *)
Definition bat_entry (block : Z) (v : t) : option Z := big_endian <$> bat v !! Z.to_nat block.

(** Making the block at [dataoffset] the current one for reading; [need]: how far behind
    its bitmap the file has to reach. *)
Definition read_bitmap (block dataoffset need : Z) (v : t) : bool * t :=
  if block =? currblock v then (true, v)
  else
    let v := switchBitmap dataoffset v in
    let v := snd (file_Seek dataoffset v) in
    if w64 (Size (file v)) <? w64 (dataoffset + bitmap_size v + need) then (false, v)
    else
      let '(b, _, v) := file_Read (bitmap_size v) v in
      let v := with_bitmap (zsplice 0 b (bitmap v)) v in
      if negb (zlen b =? bitmap_size v) then (false, v) else (true, with_currblock block v).

(** ** Reading *)

(** The local variables of the loops of [Read]. *)
Record cursor := mkCur { c_off : Z; c_remaining : Z; c_todo : Z; c_first : bool; c_done : Z; c_buf : bytes }.
Definition advance (n : Z) (c : cursor) : cursor :=
  mkCur (c_off c + n) (c_remaining c - n) (c_todo c - n) (c_first c) (c_done c + n) (c_buf c).
Definition with_buf (b : bytes) (c : cursor) : cursor := mkCur (c_off c) (c_remaining c) (c_todo c) (c_first c) (c_done c) b.
Definition next_block (bsize : Z) (c : cursor) : cursor := mkCur 0 bsize (c_todo c) (c_first c) (c_done c) (c_buf c).

(** How much of the current sector is read or written in this round. *)
Definition sector_part (c : cursor) : Z * cursor :=
  let want := Z.min sector_size (c_todo c) in
  let want := if c_remaining c <? want then c_remaining c else want in
  let want := if c_first c && negb (c_off c mod sector_size =? 0) && (sector_size - c_off c mod sector_size <? want)
              then sector_size - c_off c mod sector_size else want in
  (want, mkCur (c_off c) (c_remaining c) (c_todo c) false (c_done c) (c_buf c)).

(** [parent->Seek(curr_offset); parent->Read(&buffer[read], n, r)]: [r], the buffer and
    the parent. *)
Definition parent_Read (p : P) (n : Z) (c : cursor) (v : t) : vhd_run (Z * bytes * t) :=
  let! (_, r, b, p) := p_Read (p_Seek p (curr_offset v)) (zdrop (c_done c) (c_buf c)) n in
  Ran (r, ztake (c_done c) (c_buf c) ++ b, with_parent (Some p) v).

(** [want] bytes of a sector that is in the image ([set]) or not: how many were read,
    and whether there was an error. *)
Definition read_part (dataoffset want : Z) (set : bool) (c : cursor) (v : t) : vhd_run (Z * bool * cursor * t) :=
  if set then
    let '(b, err, v) := file_Read (w32 want) v in
    Ran (zlen b, negb (w32 want =? zlen b) && err, with_buf (put (c_done c) b (c_buf c)) c, v)
  else
    let! (n, b, v) :=
      match parent v with
      | Some p => parent_Read p want c v
      | None => Ran (want, put (c_done c) (zeros want) (c_buf c), v)
      end in
    Ran (n, false, with_buf b c, snd (file_Seek (dataoffset + bitmap_size v + c_off c + n) v)).

(** The loop over the sectors of a block.  The result is [Some b] when [Read] returns
    [b] from inside of it. *)
Fixpoint read_sectors (rounds : nat) (dataoffset : Z) (c : cursor) (v : t) : vhd_run (option bool * cursor * t) :=
  match rounds with
  | O => Endless
  | S k =>
      if c_off c <? blocksize v then
        let '(want, c) := sector_part c in
        if dstsize v <? w64 (curr_offset v + want) then Ran (Some true, c, v)
        else
          match isBitmapSet (w32 (c_off c)) v with
          | None => Undefined
          | Some set =>
              let! (n, failed, c, v) := read_part dataoffset want set c v in
              if failed : bool then Ran (Some false, c, v)
              else
                let c := advance n c in
                let v := with_offset (w64 (curr_offset v + n)) v in
                if (c_todo c =? 0) || (c_remaining c =? 0) then Ran (None, c, v)
                else read_sectors k dataoffset c v
          end
      else Ran (None, c, v)
  end.

(** A block that is not in the image. *)
Definition read_absent (c : cursor) (v : t) : vhd_run (cursor * t) :=
  let want := w32 (Z.min (c_remaining c) (c_todo c)) in
  let! (b, v) :=
    match parent v with
    | None => Ran (put (c_done c) (zeros want) (c_buf c), v)
    | Some p => let! (_, b, v) := parent_Read p want c v in Ran (b, v)
    end in
  Ran (advance want (with_buf b c), with_offset (w64 (curr_offset v + want)) v).

(** The loop over the blocks.  [bsize]: the argument of [Read]. *)
Fixpoint read_blocks (rounds : nat) (bsize block : Z) (c : cursor) (v : t) : vhd_run (bool * cursor * t) :=
  match rounds with
  | O => Endless
  | S k =>
      match bat_entry block v with
      | None => Undefined
      | Some bat_off =>
          if bat_off =? no_block then
            let! (c, v) := read_absent c v in
            if c_todo c =? 0 then Ran (true, c, v)
            else read_blocks k bsize (w32 (block + 1)) (next_block (blocksize v) c) v
          else
            let dataoffset := bat_off * sector_size in
            let '(ok, v) := read_bitmap block dataoffset (c_off c + bsize) v in
            if negb ok then Ran (false, c, v)
            else
              let v := snd (file_Seek (dataoffset + bitmap_size v + c_off c) v) in
              let! (ret, c, v) := read_sectors (S (Z.to_nat (c_todo c))) dataoffset c v in
              match ret with
              | Some b => Ran (b, c, v)
              | None =>
                  if c_todo c =? 0 then Ran (true, c, v)
                  else if dstsize v <=? curr_offset v then Ran (true, next_block (blocksize v) c, v)
                  else read_blocks k bsize (w32 (block + 1)) (next_block (blocksize v) c) v
              end
      end
  end.

(** [Read(buffer, bsize, read)]: the result, [read], the buffer and the image. *)
Definition Read (buffer : bytes) (bsize : Z) (v : t) : vhd_run (bool * Z * bytes * t) :=
  if blocksize v =? 0 then Undefined
  else
    let block := w32 (curr_offset v / blocksize v) in
    let blockoffset := curr_offset v mod blocksize v in
    if dstsize v <=? curr_offset v then Ran (false, 0, buffer, v)
    else
      let! (b, c, v) := read_blocks (S (S (Z.to_nat bsize))) bsize block
                          (mkCur blockoffset (blocksize v - blockoffset) bsize true 0 buffer) v in
      Ran (b, c_done c, c_buf c, v).

(** [Read(char*, _u32, bool* )]: the number of bytes, whether [*has_error] is set. *)
Definition Read_count (buffer : bytes) (bsize : Z) (v : t) : vhd_run (Z * bool * bytes * t) :=
  let! (b, read, buf, v) := Read buffer bsize v in
  if b : bool then Ran (w32 read, false, buf, v) else Ran (0, true, buf, v).
(** [Read(_u32 tr, bool* )]: always up to 4096 bytes, whatever [tr]. *)
Definition Read_string (tr : Z) (v : t) : vhd_run (bytes * bool * t) :=
  let! (b, read, buf, v) := Read (zeros 4096) 4096 v in
  if b : bool then Ran (zresize nul read buf, false, v) else Ran ([], true, v).

(** ** Writing *)

(** A block for [block] behind the others; [None]: the table cannot hold its place. *)
Definition alloc_block (check : bool) (block : Z) (v : t) : option Z * t :=
  let dataoffset := nextblock_offset v in
  let v := with_nextblock (next_sector (w64 (nextblock_offset v + (blocksize v + bitmap_size v)))) v in
  if check && (UINT_MAX <=? dataoffset / sector_size) then (None, v)
  else (Some dataoffset, with_bat (zset (bat v) block (big_endian (w32 (dataoffset / sector_size)))) v).

(** Making [block] the current one for writing. *)
Definition write_bitmap_of (block dataoffset : Z) (new_block : bool) (v : t) : bool * t :=
  if currblock v =? block then (true, v)
  else
    let v := switchBitmap dataoffset v in
    let v := snd (file_Seek dataoffset v) in
    if new_block then
      let v := with_bitmap (zeros (bitmap_size v)) v in
      let '(n, v) := file_Write (bitmap v) v in
      if n =? bitmap_size v then (true, with_currblock block v) else (false, v)
    else
      let '(b, _, v) := file_Read (bitmap_size v) v in
      (true, with_currblock block (with_bitmap (zsplice 0 b (bitmap v)) v)).

(** [if(!fast_mode)]: the bitmap is written behind the data. *)
Definition save_bitmap (dataoffset : Z) (v : t) : bool * t :=
  if fast_mode v then (true, v)
  else
    let v := snd (file_Seek dataoffset v) in
    let '(n, v) := file_Write (bitmap v) v in
    (n =? bitmap_size v, v).

(** The loop over the sectors of a block; [c_done] is [bufferoffset].  [false]: a write
    failed. *)
Fixpoint write_sectors (rounds : nat) (c : cursor) (v : t) : vhd_run (bool * cursor * t) :=
  match rounds with
  | O => Endless
  | S k =>
      if c_off c <? blocksize v then
        let '(want, c) := sector_part c in
        match setBitmapBit (w32 (c_off c)) true v with
        | None => Undefined
        | Some (_, v) =>
            let '(n, v) := file_Write (zsub (c_done c) want (c_buf c)) v in
            if negb (n =? want) then Ran (false, c, v)
            else
              let c := advance want c in
              if (c_todo c =? 0) || (c_remaining c =? 0) then Ran (true, c, v) else write_sectors k c v
        end
      else Ran (true, c, v)
  end.

(** Finding or making the place of a block: [None] when the table overflows. *)
Definition place_block (check : bool) (block : Z) (v : t) : option (option Z * bool * t) :=
  bat_ref ← bat_entry block v;
  if bat_ref =? no_block then let '(o, v) := alloc_block check block v in Some (o, true, v)
  else Some (Some (bat_ref * sector_size), false, v).

(** The loop over the blocks; [None] when [Write] fails, otherwise whether a block was
    added ([dwrite_footer]). *)
Fixpoint write_blocks (rounds : nat) (block : Z) (c : cursor) (dwrite_footer : bool) (v : t) : vhd_run (option bool * t) :=
  match rounds with
  | O => Endless
  | S k =>
      match place_block true block v with
      | None => Undefined
      | Some (None, _, v) => Ran (None, v)
      | Some (Some dataoffset, new_block, v) =>
          let dwrite_footer := dwrite_footer || new_block in
          let '(ok, v) := write_bitmap_of block dataoffset new_block v in
          if negb ok then Ran (None, v)
          else
            let '(ok, v) := file_Seek (dataoffset + bitmap_size v + c_off c) v in
            if negb ok then Ran (None, v)
            else
              let! (ok, c, v) := write_sectors (S (Z.to_nat (c_todo c))) c v in
              if negb ok then Ran (None, v)
              else
                let '(ok, v) := save_bitmap dataoffset v in
                if negb ok then Ran (None, v)
                else if c_todo c =? 0 then Ran (Some dwrite_footer, v)
                else write_blocks k (w64 (block + 1)) (next_block (blocksize v) c) dwrite_footer v
      end
  end.

(** [if(dwrite_footer && !fast_mode)] *)
Definition save_table (dwrite_footer : bool) (v : t) : bool * t :=
  if dwrite_footer && negb (fast_mode v) then
    let '(ok, v) := write_footer v in
    if negb ok then (false, v) else write_bat v
  else (true, v).

(** [Write(buffer, bsize, has_error)]: the number of bytes, whether [*has_error] is set. *)
Definition Write (buffer : bytes) (v : t) : vhd_run (Z * bool * t) :=
  let bsize := zlen buffer in
  if read_only v then Ran (0, true, v)
  else if dstsize v <? w64 (bsize + curr_offset v) then Ran (0, true, v)
  else if blocksize v =? 0 then Undefined
  else
    let block := curr_offset v / blocksize v in
    let blockoffset := curr_offset v mod blocksize v in
    let! (r, v) := write_blocks (S (Z.to_nat bsize)) block (mkCur blockoffset (blocksize v - blockoffset) bsize true 0 buffer) false v in
    match r with
    | None => Ran (0, true, v)
    | Some dwrite_footer =>
        let '(ok, v) := save_table dwrite_footer v in
        if negb ok then Ran (0, true, v)
        else Ran (bsize, false, with_offset (w64 (curr_offset v + bsize)) v)
    end.

(** ** Unused ranges *)

(** [file->Write(pos, zero_buf, n)] leaves the position behind the bytes. *)
Fixpoint unused_sectors (rounds : nat) (dataoffset : Z) (c : cursor) (v : t) : vhd_run (bool * cursor * t) :=
  match rounds with
  | O => Endless
  | S k =>
      if c_off c <? blocksize v then
        let '(want, c) := sector_part c in
        match setBitmapBit (w32 (c_off c)) true v with
        | None => Undefined
        | Some (changed, v) =>
            let '(ok, v) := if changed : bool then (true, v) else write_at (dataoffset + bitmap_size v + c_off c) (zeros want) v in
            if negb ok then Ran (false, c, v)
            else
              let c := advance want c in
              if (c_todo c =? 0) || (c_remaining c =? 0) then Ran (true, c, v) else unused_sectors k dataoffset c v
        end
      else Ran (true, c, v)
  end.
Fixpoint unused_blocks (rounds : nat) (block : Z) (c : cursor) (dwrite_footer : bool) (v : t) : vhd_run (option bool * t) :=
  match rounds with
  | O => Endless
  | S k =>
      match place_block false block v with
      | None => Undefined
      | Some (None, _, v) => Ran (None, v)
      | Some (Some dataoffset, new_block, v) =>
          let dwrite_footer := dwrite_footer || new_block in
          let '(ok, v) := write_bitmap_of block dataoffset new_block v in
          if negb ok then Ran (None, v)
          else
            let! (ok, c, v) := unused_sectors (S (Z.to_nat (c_todo c))) dataoffset c v in
            if negb ok then Ran (None, v)
            else
              let '(ok, v) := save_bitmap dataoffset v in
              if negb ok then Ran (None, v)
              else if c_todo c =? 0 then Ran (Some dwrite_footer, v)
              else unused_blocks k (w64 (block + 1)) (next_block (blocksize v) c) dwrite_footer v
      end
  end.
Definition setUnused (unused_start unused_end : Z) (v : t) : vhd_run (bool * t) :=
  let v := Seek unused_start v in
  if read_only v then Ran (false, v)
  else if dstsize v <? w64 unused_end then Ran (false, v)
  else if blocksize v =? 0 then Undefined
  else
    let blockoffset := curr_offset v mod blocksize v in
    let towrite := w64 (unused_end - unused_start) in
    let! (r, v) := unused_blocks (S (Z.to_nat towrite)) (curr_offset v / blocksize v)
                     (mkCur blockoffset (blocksize v - blockoffset) towrite true 0 []) false v in
    match r with
    | None => Ran (false, v)
    | Some dwrite_footer => Ran (save_table dwrite_footer v)
    end.

(** ** What is in the image *)

Definition has_block (use_parent : bool) (v : t) : vhd_run (bool * t) :=
  let in_parent v :=
    match parent v with
    | Some p => if use_parent then let! (b, p) := p_has_block (p_Seek p (curr_offset v)) in Ran (b, with_parent (Some p) v) else Ran (false, v)
    | None => Ran (false, v)
    end in
  if blocksize v =? 0 then Undefined
  else
    let block := w32 (curr_offset v / blocksize v) in
    let blockoffset := curr_offset v mod blocksize v in
    if dstsize v <=? curr_offset v then Ran (false, v)
    else
      match bat_entry block v with
      | None => Undefined
      | Some bat_off =>
          if bat_off =? no_block then in_parent v
          else
            let '(ok, v) := read_bitmap block (bat_off * sector_size) blockoffset v in
            if negb ok then Ran (false, v)
            else
              match isBitmapSet (w32 blockoffset) v with
              | None => Undefined
              | Some true => Ran (true, v)
              | Some false => in_parent v
              end
      end.

Definition has_sector (v : t) : vhd_run (bool * t) :=
  if blocksize v =? 0 then Undefined
  else
    match bat_entry (w32 (curr_offset v / blocksize v)) v with
    | None => Undefined
    | Some bat_ref =>
        if bat_ref =? no_block then
          match parent v with
          | Some p => let! (b, p) := p_has_sector (p_Seek p (curr_offset v)) in Ran (b, with_parent (Some p) v)
          | None => Ran (false, v)
          end
        else Ran (true, v)
    end.
Definition this_has_sector (v : t) : vhd_run bool :=
  if blocksize v =? 0 then Undefined
  else match bat_entry (w32 (curr_offset v / blocksize v)) v with
       | None => Undefined
       | Some bat_ref => Ran (negb (bat_ref =? no_block))
       end.

(** [for(i=0;i<dstsize;i+=blocksize)] *)
Fixpoint used_loop (rounds : nat) (i used_size : Z) (v : t) : vhd_run (Z * t) :=
  if i <? dstsize v then
    match rounds with
    | O => Endless
    | S k =>
        let! (b, v) := has_sector v in
        used_loop k (w64 (i + blocksize v)) (if b : bool then w64 (used_size + blocksize v) else used_size) v
    end
  else Ran (used_size, v).
Definition usedSize (v : t) : vhd_run (Z * t) :=
  let offset_backup := curr_offset v in
  let! (used_size, v) := used_loop (Z.to_nat (dstsize v)) 0 0 v in
  Ran (used_size, with_offset offset_backup v).

(** ** Finishing *)

Definition setBackingFileSize (fsize : Z) (v : t) : bool * t :=
  if compressed v then (false, v)
  else
    let start_offset := bat_offset v + batsize v * 4 in
    let start_offset := start_offset + (sector_size - start_offset mod sector_size) in
    let one_blocksize := w32 (blocksize v + bitmap_size v) in
    let one_blocksize := one_blocksize + (sector_size - one_blocksize mod sector_size) in
    let nblocks := Z.quot fsize (blocksize v) + (if negb (Z.rem fsize (blocksize v) =? 0) then 1 else 0) in
    let actual_fsize := start_offset + nblocks * one_blocksize in
    if Size (file v) <? actual_fsize
    then let '(b, f) := Resize (file v) actual_fsize in (b, with_file f v)
    else (false, v).

Context `{IFinish F}.
Definition finish (v : t) : bool * t :=
  if finished v then (true, v)
  else if negb (is_open v) then (false, v)
  else
    let v := switchBitmap 0 v in
    let '(ok, v) :=
      if fast_mode v && negb (read_only v) then
        let '(ok, v) := write_footer v in
        if negb ok then (false, v) else write_bat v
      else (true, v) in
    if negb ok then (false, v)
    else
      let '(ok, v) := match parent v with
                      | Some p => let '(ok, p) := p_finish p in (ok, with_parent (Some p) v)
                      | None => (true, v)
                      end in
      if negb ok then (false, v)
      else if negb (compressed v) && read_only v then (true, with_finished true v)
      else
        let '(ok, f) := file_finish (file v) in
        let v := with_file f v in
        if ok : bool then (true, with_finished true v) else (false, v).
End VHDFile.
End VHDFile.
