(* ===== verification/VhdSpec.v ===== *)
(** What an image holds: its disk, the invariant of its state, and the effect of the
    elementary operations on both. *)
From S2P Require Import Prelude MemFile VhdFormat VhdFile.
Import VHDFile.

(** ** Bytes of a file *)

Definition raw {F} `{FileLaws F} (f : F) (x : Z) : char := znth nul (contents f) x.
Definition flen {F} `{FileLaws F} (f : F) : Z := zlen (contents f).

(** The bytes of a function, from [o] on. *)
Definition range (g : Z -> char) (o n : Z) : bytes := map (fun i => g (o + Z.of_nat i)) (seq 0 (Z.to_nat n)).
Lemma zlen_range g o n : 0 <= n -> zlen (range g o n) = n.
Proof. intros. unfold range, zlen. rewrite length_map, length_seq. lia. Qed.
Lemma znth_range g o n i : 0 <= i < n -> znth nul (range g o n) i = g (o + i).
Proof.
  intros. unfold range, znth. rewrite (nth_indep _ nul (g (o + Z.of_nat 0%nat))) by (rewrite length_map, length_seq; lia).
  rewrite (map_nth (fun i => g (o + Z.of_nat i)) (seq 0 (Z.to_nat n)) 0%nat), seq_nth by lia. do 2 f_equal. lia.
Qed.
Lemma range_eq g o n b : zlen b = n -> (forall i, 0 <= i < n -> znth nul b i = g (o + i)) -> b = range g o n.
Proof.
  intros Hl H. pose proof (zlen_nonneg b). apply (list_eq_znth nul); rewrite ?zlen_range by lia; [done|].
  intros i Hi. rewrite znth_range by lia. apply H. lia.
Qed.
Lemma range_app g o n m : 0 <= n -> 0 <= m -> range g o (n + m) = range g o n ++ range g (o + n) m.
Proof.
  intros. symmetry. apply range_eq; [rewrite zlen_app, !zlen_range; lia|]. intros i Hi. destruct (Z.lt_ge_cases i n).
  - rewrite znth_app_l by (rewrite zlen_range; lia). by rewrite znth_range by lia.
  - rewrite znth_app_r by (rewrite zlen_range; lia). rewrite zlen_range, znth_range by lia. f_equal. lia.
Qed.
Lemma range_ext g h o n : (forall x, o <= x < o + n -> g x = h x) -> range g o n = range h o n.
Proof. intros E. unfold range. apply map_ext_in. intros i Hi%in_seq. apply E. lia. Qed.

Lemma znth_out (l : bytes) i : zlen l <= i -> znth nul l i = nul.
Proof. intros Hi. unfold znth, zlen in *. apply nth_overflow. lia. Qed.

(** ** Sector bits *)

Definition char_bit (c : char) (o : Z) : bool := negb (Z.land (u8 c) (bitmap_mask o) =? 0).
Definition sector (o : Z) : Z := o / sector_size.

Lemma bitmap_mask_pow o : bitmap_mask o = 2 ^ (7 - sector o mod 8).
Proof. unfold bitmap_mask, sector. rewrite Z.shiftl_1_l. done. Qed.
Lemma char_bit_test c o : char_bit c o = Z.testbit (u8 c) (7 - sector o mod 8).
Proof.
  unfold char_bit. rewrite bitmap_mask_pow, land_bit_test by (pose proof (Z.mod_pos_bound (sector o) 8); lia). apply negb_involutive.
Qed.
Lemma char_bit_nul o : char_bit nul o = false.
Proof. rewrite char_bit_test. apply Z.bits_0. Qed.

(** After setting the bit of [o] in its byte. *)
Definition set_bit (b : bytes) (o : Z) : bytes :=
  zset b (bitmap_byte o) (chr (Z.lor (u8 (znth nul b (bitmap_byte o))) (bitmap_mask o))).
Lemma mask_range o : 0 <= bitmap_mask o < 256.
Proof.
  rewrite bitmap_mask_pow. pose proof (Z.mod_pos_bound (sector o) 8 ltac:(lia)). split; [apply Z.pow_nonneg; lia|].
  change 256 with (2 ^ 8). apply Z.pow_lt_mono_r; lia.
Qed.
Lemma u8_lor_mask c o : u8 (chr (Z.lor (u8 c) (bitmap_mask o))) = Z.lor (u8 c) (bitmap_mask o).
Proof.
  pose proof (u8_range c). pose proof (mask_range o). apply u8_chr_small. split; [apply Z.lor_nonneg; lia|].
  destruct (decide (Z.lor (u8 c) (bitmap_mask o) = 0)) as [->|Hne]; [lia|].
  assert (0 <= Z.lor (u8 c) (bitmap_mask o)) by (apply Z.lor_nonneg; lia). apply (Z.log2_lt_pow2 _ 8); [lia|].
  rewrite Z.log2_lor by lia. apply Z.max_lub_lt.
  - destruct (decide (u8 c = 0)) as [->|]; [by vm_compute|]. apply Z.log2_lt_pow2; lia.
  - destruct (decide (bitmap_mask o = 0)) as [->|]; [by vm_compute|]. apply Z.log2_lt_pow2; lia.
Qed.
Lemma set_bit_spec b o o' : 0 <= o -> 0 <= o' -> bitmap_byte o < zlen b ->
  char_bit (znth nul (set_bit b o) (bitmap_byte o')) o' = (sector o =? sector o') || char_bit (znth nul b (bitmap_byte o')) o'.
Proof.
  intros Ho Ho' Hb. assert (B : forall x, bitmap_byte x = sector x / 8) by done.
  assert (Hs : 0 <= sector o) by (apply Z.div_pos; [done|by vm_compute]). assert (Hs' : 0 <= sector o') by (apply Z.div_pos; [done|by vm_compute]).
  pose proof (Z.mod_pos_bound (sector o) 8 ltac:(lia)). pose proof (Z.mod_pos_bound (sector o') 8 ltac:(lia)).
  pose proof (Z.div_mod (sector o) 8). pose proof (Z.div_mod (sector o') 8). unfold set_bit.
  destruct (decide (bitmap_byte o = bitmap_byte o')) as [E|E].
  - rewrite <- E, znth_zset_eq by (split; [rewrite B; apply Z.div_pos; lia|done]).
    rewrite !char_bit_test, u8_lor_mask, Z.lor_spec, bitmap_mask_pow, Z.pow2_bits_eqb by lia. rewrite orb_comm. f_equal.
    rewrite !B in E. apply eq_true_iff_eq. rewrite !Z.eqb_eq. lia.
  - rewrite znth_zset_ne by (try (rewrite B; apply Z.div_pos; lia); done). rewrite (proj2 (Z.eqb_neq _ _)); [done|].
    rewrite !B in E. intros E'. apply E. by rewrite E'.
Qed.
Lemma set_bit_id b o : 0 <= o -> bitmap_byte o < zlen b -> char_bit (znth nul b (bitmap_byte o)) o = true -> set_bit b o = b.
Proof.
  intros Ho Hb Ht. unfold set_bit. assert (E : Z.lor (u8 (znth nul b (bitmap_byte o))) (bitmap_mask o) = u8 (znth nul b (bitmap_byte o))).
  { rewrite char_bit_test in Ht. rewrite bitmap_mask_pow. pose proof (Z.mod_pos_bound (sector o) 8 ltac:(lia)).
    apply Z.bits_inj'. intros n Hn. rewrite Z.lor_spec, Z.pow2_bits_eqb by lia.
    destruct (Z.eqb_spec (7 - sector o mod 8) n) as [<-|]; [by rewrite Ht|apply orb_false_r]. }
  rewrite E, chr_u8. unfold zset, znth. apply list_insert_id. rewrite nth_lookup.
  assert (0 <= bitmap_byte o) by (unfold bitmap_byte; apply Z.div_pos; [apply Z.div_pos; [done|by vm_compute]|lia]).
  destruct (lookup_lt_is_Some_2 b (Z.to_nat (bitmap_byte o))) as [x Hx]; [unfold zlen in Hb; lia|]. by rewrite Hx.
Qed.

(** The size of a block's bitmap. *)
Lemma bitmap_bytes_spec bs : 0 < bs < 2 ^ 32 ->
  let n := bitmap_bytes bs in 512 <= n < 2 ^ 32 /\ n mod sector_size = 0 /\ forall o, 0 <= o < bs -> 0 <= bitmap_byte o < n.
Proof.
  intros Hbs n. unfold sector_size in *.
  assert (Hk : 0 <= bs / 512 / 8 < 2 ^ 23).
  { rewrite Z.div_div by lia. split; [apply Z.div_pos; lia|]. apply Z.div_lt_upper_bound; lia. }
  set (k := bs / 512 / 8) in *.
  set (m := if negb (bs mod 512 =? 0) || negb (bs / 512 mod 8 =? 0) then k + 1 else k).
  assert (Hm : 0 < m <= 2 ^ 23 /\ forall o, 0 <= o < bs -> 0 <= bitmap_byte o < m).
  { unfold m, bitmap_byte, sector_size. pose proof (Z.div_mod bs 512). pose proof (Z.div_mod (bs / 512) 8). fold k in H0.
    pose proof (Z.mod_pos_bound bs 512). pose proof (Z.mod_pos_bound (bs / 512) 8).
    destruct (Z.eqb_spec (bs mod 512) 0), (Z.eqb_spec (bs / 512 mod 8) 0); cbn [negb orb];
      (split; [lia|]); intros o Ho; rewrite Z.div_div by lia; (split; [apply Z.div_pos; lia|apply Z.div_lt_upper_bound; lia]). }
  destruct Hm as [Hm1 Hm2]. change n with (if negb (m mod 512 =? 0) then m + (512 - m mod 512) else m).
  pose proof (Z.div_mod m 512). pose proof (Z.mod_pos_bound m 512).
  destruct (Z.eqb_spec (m mod 512) 0); cbn [negb].
  - split; [lia|]. split; [done|]. intros o Ho. apply Hm2 in Ho. lia.
  - split; [lia|]. split; [|intros o Ho; apply Hm2 in Ho; lia].
    replace (m + (512 - m mod 512)) with ((m / 512 + 1) * 512) by lia. apply Z.mod_mul. lia.
Qed.

Lemma next_sector_spec x : 0 <= x < 2 ^ 63 -> x < next_sector x <= x + 512 /\ next_sector x mod sector_size = 0.
Proof.
  intros Hx. unfold next_sector, sector_size. pose proof (Z.mod_pos_bound x 512). pose proof (Z.div_mod x 512).
  rewrite w64_id by lia. split; [lia|]. replace (x + (512 - x mod 512)) with ((x / 512 + 1) * 512) by lia. apply Z.mod_mul. lia.
Qed.

(** ** Parents *)

(** A parent has a disk of [p_size] bytes.  What lies in one of its blocks can be read. *)
Class VHDParentLaws (P : Type) `{IVHDParent P} := {
  p_disk : P -> Z -> char;
  p_size : P -> Z;
  p_block : P -> Z;
  p_good : P -> Prop;
  p_read : forall p o n buf, p_good p -> 0 <= o -> 0 < n -> o + n <= p_size p -> n <= zlen buf ->
    o / p_block p = (o + n - 1) / p_block p ->
    exists p', p_Read (p_Seek p o) buf n = Ran (true, n, range (p_disk p) o n ++ zdrop n buf, p') /\
      p_good p' /\ (forall x, 0 <= x -> p_disk p' x = p_disk p x) /\ p_size p' = p_size p /\ p_block p' = p_block p }.

(** ** The disk of an image *)

Section Image.
Context {F P : Type} `{FileLaws F} `{VHDParentLaws P}.
Notation t := (t (F := F) (P := P)).
Implicit Types v : t.

(** The place of a block in the file. *)
Definition slot v (i : Z) : option Z :=
  match bat_entry i v with Some e => if e =? no_block then None else Some (e * sector_size) | None => None end.
(** The bitmap of the current block is in memory. *)
Definition block_bit v (i off o : Z) : bool :=
  char_bit (if currblock v =? i then znth nul (bitmap v) (bitmap_byte o) else raw (file v) (off + bitmap_byte o)) o.
Definition parent_byte v (x : Z) : char := match parent v with Some p => p_disk p x | None => nul end.
Definition disk v (x : Z) : char :=
  let i := x / blocksize v in
  let o := x mod blocksize v in
  match slot v i with
  | None => parent_byte v x
  | Some off => if block_bit v i off o then raw (file v) (off + bitmap_size v + o) else parent_byte v x
  end.

Definition bat_end v : Z := bat_offset v + 4 * batsize v.

Record inv v : Prop := {
  i_block : 0 < blocksize v < 2 ^ 32 /\ blocksize v mod sector_size = 0;
  i_bms : bitmap_size v = bitmap_bytes (blocksize v) /\ zlen (bitmap v) = bitmap_size v;
  i_size : 0 <= dstsize v < 2 ^ 62 /\ dstsize v <= batsize v * blocksize v;
  i_bat : batsize v = zlen (bat v) /\ batsize v < no_block /\ Forall (fun e => 0 <= e < 2 ^ 32) (bat v) /\ 0 < bat_offset v;
  i_next : bat_end v <= nextblock_offset v < 2 ^ 62 /\ nextblock_offset v mod sector_size = 0;
  i_slots : forall i off, 0 <= i -> slot v i = Some off ->
    bat_end v <= off /\ off + bitmap_size v + blocksize v <= nextblock_offset v /\ off + bitmap_size v <= flen (file v);
  i_disjoint : forall i j oi oj, 0 <= i -> 0 <= j -> i <> j -> slot v i = Some oi -> slot v j = Some oj ->
    oi + bitmap_size v + blocksize v <= oj \/ oj + bitmap_size v + blocksize v <= oi;
  i_zero : forall i off o, 0 <= i -> slot v i = Some off -> 0 <= o < blocksize v -> block_bit v i off o = false ->
    raw (file v) (off + bitmap_size v + o) = nul;
  i_len : flen (file v) < 2 ^ 63;
  i_tail : forall x, nextblock_offset v + 512 <= x -> raw (file v) x = nul;
  i_curr : (currblock v = no_block /\ bitmap_dirty v = false) \/
           (0 <= currblock v < batsize v /\ slot v (currblock v) = Some (bitmap_offset v));
  i_dirty : read_only v = true -> bitmap_dirty v = false;
  i_footer : zlen (footer_bytes (footer v)) = 512;
  i_parent : match parent v with Some p => p_good p /\ dstsize v <= p_size p /\ p_block p = blocksize v | None => True end }.

(** The bitmap in memory is in the file, or will be written. *)
Definition saved v : Prop :=
  currblock v = no_block \/ (fast_mode v = true /\ bitmap_dirty v = true) \/
  forall x, 0 <= x < bitmap_size v -> raw (file v) (bitmap_offset v + x) = znth nul (bitmap v) x.

(** What no operation changes. *)
Definition statics v :=
  ((read_only v, fast_mode v, compressed v, dstsize v, blocksize v, footer v, dynamicheader v, batsize v),
   (header_offset v, dynamic_header_offset v, bat_offset v, bitmap_size v, is_open v, volume_offset v, finished v)).

Lemma bms_spec v : inv v -> 512 <= bitmap_size v < 2 ^ 32 /\ bitmap_size v mod sector_size = 0 /\
  forall o, 0 <= o < blocksize v -> 0 <= bitmap_byte o < bitmap_size v.
Proof. intros I. destruct (i_block v I) as [Hb _], (i_bms v I) as [-> _]. by apply bitmap_bytes_spec. Qed.

Lemma slot_range v i off : 0 <= i -> slot v i = Some off -> i < zlen (bat v).
Proof.
  unfold slot, bat_entry, zlen. intros Hi. destruct (bat v !! Z.to_nat i) eqn:E; [|done]. intros _. apply lookup_lt_Some in E. lia.
Qed.

(** ** Calls of the file *)

Lemma raw_write (f : F) b x : 0 <= x ->
  raw (snd (MemFile.Write f b)) x = if (fpos f <=? x) && (x <? fpos f + zlen b) then znth nul b (x - fpos f) else raw f x.
Proof.
  intros Hx. unfold raw. destruct (write_law f b) as (_ & -> & _). pose proof (fpos_nonneg f). pose proof (zlen_nonneg b).
  destruct (Z.lt_ge_cases x (Z.max (zlen (contents f)) (fpos f + zlen b))).
  - rewrite znth_file_write by lia. destruct (_ && _); [done|]. destruct (Z.ltb_spec x (zlen (contents f))); [done|].
    by rewrite znth_out by lia.
  - rewrite znth_out by (rewrite zlen_file_write; lia). rewrite (proj2 (Z.ltb_ge x (fpos f + zlen b))), andb_false_r by lia.
    by rewrite znth_out by lia.
Qed.
Lemma flen_write (f : F) b : flen (snd (MemFile.Write f b)) = Z.max (flen f) (fpos f + zlen b).
Proof. unfold flen. destruct (write_law f b) as (_ & -> & _). apply zlen_file_write, fpos_nonneg. Qed.

Lemma file_Seek_spec o v : 0 <= o -> exists f, file_Seek o v = (true, with_file f v) /\ contents f = contents (file v) /\ fpos f = o.
Proof.
  intros Ho. unfold file_Seek. destruct (seek_law (file v) o Ho) as (E & Hc & Hp). destruct (MemFile.Seek (file v) o) as [b f].
  cbn in *. subst b. by exists f.
Qed.
Lemma file_Read_spec n v : 0 <= n -> exists f, file_Read n v = (zsub (fpos (file v)) n (contents (file v)), false, with_file f v) /\
  contents f = contents (file v) /\ fpos f = fpos (file v) + zlen (zsub (fpos (file v)) n (contents (file v))).
Proof.
  intros Hn. unfold file_Read. destruct (read_law (file v) n Hn) as (E & Hc & Hp). rewrite E. by exists (snd (MemFile.Read (file v) n)).
Qed.
Lemma file_Write_spec b v : exists f, file_Write b v = (zlen b, with_file f v) /\ fpos f = fpos (file v) + zlen b /\
  flen f = Z.max (flen (file v)) (fpos (file v) + zlen b) /\
  (forall x, 0 <= x -> raw f x =
    if (fpos (file v) <=? x) && (x <? fpos (file v) + zlen b) then znth nul b (x - fpos (file v)) else raw (file v) x).
Proof.
  unfold file_Write. destruct (write_law (file v) b) as (E & Hc & Hp). pose proof (raw_write (file v) b). pose proof (flen_write (file v) b).
  destruct (MemFile.Write (file v) b) as [[n e] f]. cbn in *. injection E as -> ->. by exists f.
Qed.
Lemma write_at_spec o b v : 0 <= o -> exists f, write_at o b v = (true, with_file f v) /\ fpos f = o + zlen b /\
  flen f = Z.max (flen (file v)) (o + zlen b) /\
  (forall x, 0 <= x -> raw f x = if (o <=? x) && (x <? o + zlen b) then znth nul b (x - o) else raw (file v) x).
Proof.
  intros Ho. unfold write_at. destruct (file_Seek_spec o v Ho) as (f1 & -> & Hc & Hp).
  destruct (file_Write_spec b (with_file f1 v)) as (f2 & -> & Hp2 & Hl & Hr). cbn [file with_file] in *. rewrite Hp in *.
  exists f2. rewrite Z.eqb_refl. split; [by destruct v|]. split; [done|]. unfold flen, raw in *. rewrite Hc in *. done.
Qed.
Lemma raw_contents (f f' : F) : contents f' = contents f -> (forall x, raw f' x = raw f x) /\ flen f' = flen f.
Proof. intros E. unfold raw, flen. by rewrite E. Qed.

(** The members that making another block current leaves alone. *)
Definition frame v := (statics v, bat v, nextblock_offset v, curr_offset v, parent v).
End Image.

(** Unfolds projections of updated states. *)
Ltac vcbn := cbn [with_file with_parent with_footer with_dynamicheader with_bat with_nextblock with_bitmap with_currblock with_offset
  with_dirty with_finished read_only fast_mode compressed file parent dstsize blocksize footer dynamicheader bat batsize header_offset
  dynamic_header_offset bat_offset nextblock_offset bitmap bitmap_size is_open currblock curr_offset bitmap_offset bitmap_dirty volume_offset
  finished] in *.
