(* ===== verification/VhdSteps.v ===== *)
(** The steps of reading and writing, each with its effect on the disk and the
    invariant. *)
From S2P Require Import Prelude MemFile VhdFormat VhdFile VhdSpec.
Import VHDFile.

Section Steps.
Context {F P : Type} `{FileLaws F} `{VHDParentLaws P}.
Notation t := (t (F := F) (P := P)).
Implicit Types v : t.

Lemma not_between a n x : ~ (a <= x < a + n) -> (a <=? x) && (x <? a + n) = false.
Proof. intros Hx. apply andb_false_iff. rewrite Z.leb_gt, Z.ltb_ge. lia. Qed.
Lemma between a n x : a <= x < a + n -> (a <=? x) && (x <? a + n) = true.
Proof. intros Hx. by rewrite (proj2 (Z.leb_le _ _)), (proj2 (Z.ltb_lt _ _)) by lia. Qed.

Lemma disk_pos v x : inv v -> 0 <= x -> 0 <= x / blocksize v /\ 0 <= x mod blocksize v < blocksize v.
Proof. intros I Hx. destruct (i_block v I) as [Hb _]. split; [apply Z.div_pos; lia|apply Z.mod_pos_bound; lia]. Qed.

(** Changing the file only where no data of a block and no bitmap but the current one
    lies. *)
Definition spares v (f : F) : Prop := forall i off y, 0 <= i -> slot v i = Some off -> 0 <= y < bitmap_size v + blocksize v ->
  (i = currblock v /\ y < bitmap_size v) \/ raw f (off + y) = raw (file v) (off + y).

Lemma slot_bounds v i off : inv v -> 0 <= i -> slot v i = Some off ->
  0 < bat_offset v /\ bat_offset v + 4 * batsize v <= off /\ off + bitmap_size v + blocksize v <= nextblock_offset v /\
  off + bitmap_size v <= flen (file v) /\ 0 <= i < batsize v /\ 0 < blocksize v /\ 512 <= bitmap_size v.
Proof.
  intros I Hi E. destruct (i_slots v I i off Hi E) as (A & B & C). destruct (bms_spec v I) as (D & _). destruct (i_block v I) as [G _].
  destruct (i_bat v I) as (J & K & _ & L). pose proof (slot_range v i off Hi E). unfold bat_end in A. lia.
Qed.

Lemma spares_bit v f i off o : inv v -> spares v f -> 0 <= i -> slot v i = Some off -> 0 <= o < blocksize v ->
  block_bit (with_file f v) i off o = block_bit v i off o.
Proof.
  intros I Hs Hi E Ho. unfold block_bit; vcbn. destruct (Z.eqb_spec (currblock v) i); [done|].
  destruct (bms_spec v I) as (_ & _ & Hb). specialize (Hb o Ho).
  destruct (Hs i off (bitmap_byte o) Hi E) as [[? _]| ->]; [lia|congruence|done].
Qed.
Lemma spares_data v f i off o : inv v -> spares v f -> 0 <= i -> slot v i = Some off -> 0 <= o < blocksize v ->
  raw f (off + bitmap_size v + o) = raw (file v) (off + bitmap_size v + o).
Proof.
  intros I Hs Hi E Ho. destruct (bms_spec v I) as (Hb & _). rewrite <- Z.add_assoc.
  destruct (Hs i off (bitmap_size v + o) Hi E) as [[_ ?]|]; [lia|lia|done].
Qed.

Lemma inv_file f v : inv v -> spares v f -> flen f < 2 ^ 63 ->
  (forall i off, 0 <= i -> slot v i = Some off -> off + bitmap_size v <= flen f) ->
  (forall x, nextblock_offset v + 512 <= x -> raw f x = nul) ->
  inv (with_file f v) /\ forall x, 0 <= x -> disk (with_file f v) x = disk v x.
Proof.
  intros I Hs Hl Hsl Ht. split.
  - constructor; vcbn; try by destruct I.
    + intros i off Hi E. change (slot (with_file f v) i) with (slot v i) in E. pose proof (i_slots v I i off Hi E). specialize (Hsl i off Hi E). unfold bat_end in *; vcbn. lia.
    + intros i off o Hi E Ho Hbit. rewrite (spares_bit v f i off o I Hs Hi E Ho) in Hbit.
      rewrite (spares_data v f i off o I Hs Hi E Ho). by apply (i_zero v I i off o).
  - intros x Hx. destruct (disk_pos v x I Hx) as [Hi Ho]. unfold disk; vcbn. change (slot (with_file f v)) with (slot v).
    destruct (slot v (x / blocksize v)) as [off|] eqn:E; [|done].
    by rewrite (spares_bit v f _ off _ I Hs Hi E Ho), (spares_data v f _ off _ I Hs Hi E Ho).
Qed.

Lemma inv_same_file f v : inv v -> contents f = contents (file v) -> inv (with_file f v) /\ forall x, 0 <= x -> disk (with_file f v) x = disk v x.
Proof.
  intros I E. destruct (raw_contents (file v) f E) as [Hr Hl]. apply inv_file; [done|..].
  - intros i off y _ _ _. right. apply Hr.
  - rewrite Hl. apply (i_len v I).
  - intros i off Hi Es. rewrite Hl. by apply (i_slots v I i off Hi Es).
  - intros x Hx. rewrite Hr. by apply (i_tail v I).
Qed.

(** ** Another block becomes the current one *)

(** Whether the current block's bitmap is in [f]. *)
Definition flushed v (f : F) : Prop :=
  currblock v = no_block \/ forall x, 0 <= x < bitmap_size v -> raw f (bitmap_offset v + x) = znth nul (bitmap v) x.

Lemma curr_slot v : inv v -> currblock v <> no_block -> 0 <= currblock v < batsize v /\ slot v (currblock v) = Some (bitmap_offset v).
Proof. intros I Hn. destruct (i_curr v I) as [[? _]|]; [congruence|done]. Qed.

(** Changes inside the current block's bitmap spare the rest. *)
Lemma spares_bitmap v f : inv v -> currblock v <> no_block ->
  (forall x, 0 <= x -> ~ (bitmap_offset v <= x < bitmap_offset v + bitmap_size v) -> raw f x = raw (file v) x) -> spares v f.
Proof.
  intros I Hn Hr i off y Hi E Hy. destruct (curr_slot v I Hn) as [Hc Ec].
  pose proof (slot_bounds v i off I Hi E) as Hsl.
  destruct (decide (i = currblock v)) as [->|Hne].
  - rewrite Ec in E. injection E as <-. destruct (Z.lt_ge_cases y (bitmap_size v)); [by left|]. right. apply Hr; lia.
  - right. apply Hr; [lia|]. destruct (i_disjoint v I i (currblock v) off (bitmap_offset v)); [lia..|done|done| |]; lia.
Qed.

(** Changing the file in the blocks only. *)
Definition outside v (x : Z) : Prop := forall j oj, 0 <= j -> slot v j = Some oj -> ~ (oj <= x < oj + bitmap_size v + blocksize v).
Definition leaves v (f : F) : Prop := forall x, 0 <= x -> outside v x -> raw f x = raw (file v) x.

Lemma leaves_within v f i off : 0 <= i -> slot v i = Some off ->
  (forall x, 0 <= x -> ~ (off <= x < off + bitmap_size v + blocksize v) -> raw f x = raw (file v) x) -> leaves v f.
Proof. intros Hi E Hr x Hx Hout. apply Hr; [done|]. by apply (Hout i). Qed.

Lemma switch_spec new v : inv v -> saved v -> exists f, switchBitmap new v = with_dirty new false (with_file f v) /\
  spares v f /\ flushed v f /\ flen f = flen (file v) /\ (forall x, nextblock_offset v + 512 <= x -> raw f x = nul) /\ leaves v f.
Proof.
  intros I Hs. unfold switchBitmap.
  destruct (fast_mode v && negb (read_only v) && bitmap_dirty v && negb (bitmap_offset v =? 0)) eqn:Ef.
  - apply andb_true_iff in Ef as [[[Hf Hr]%andb_true_iff Hd]%andb_true_iff Ho].
    assert (Hn : currblock v <> no_block) by (destruct (i_curr v I) as [[_ E]|[Hc _]]; [congruence|]; destruct (i_bat v I); lia).
    destruct (curr_slot v I Hn) as [Hc Ec]. pose proof (slot_bounds v _ _ I (proj1 Hc) Ec) as Hsl.
    destruct (i_bms v I) as [_ Hbl]. pose proof (zlen_nonneg (bitmap v)).
    destruct (file_Seek_spec (bitmap_offset v) v) as (f1 & -> & Hc1 & Hp1); [lia|]. cbn [snd].
    destruct (file_Write_spec (bitmap (with_file f1 v)) (with_file f1 v)) as (f2 & E2 & _ & Hl2 & Hr2). rewrite E2. cbn [snd]. vcbn.
    destruct (raw_contents (file v) f1 Hc1) as [Hr1 Hl1]. rewrite Hp1, Hl1, Hbl in *.
    exists f2. split; [by destruct v|]. split; [|split; [|split; [|split]]].
    + apply spares_bitmap; [done|done|]. intros x Hx Hout. rewrite Hr2, Hr1 by done. by rewrite not_between.
    + right. intros x Hx. rewrite Hr2, between by lia. f_equal. lia.
    + lia.
    + intros x Hx. rewrite Hr2, not_between, Hr1 by lia. by apply (i_tail v I).
    + apply (leaves_within v f2 (currblock v) (bitmap_offset v)); [lia|done|]. intros x Hx Hout. rewrite Hr2, not_between, Hr1 by lia. done.
  - exists (file v). split; [by destruct v|]. split; [by intros i off y _ _ _; right|]. split; [|split; [done|split; [by apply (i_tail v I)|done]]].
    destruct Hs as [Hs|[[Hf Hd]|Hs]]; [by left| |by right]. exfalso.
    destruct (i_curr v I) as [[_ E]|[Hc Ec]]; [congruence|]. pose proof (slot_bounds v _ _ I (proj1 Hc) Ec) as Hsl.
    rewrite Hf, Hd, (proj2 (Z.eqb_neq _ _)) in Ef by lia. destruct (read_only v) eqn:Er; [|done].
    rewrite (i_dirty v I Er) in Hd. done.
Qed.
(** The block [i] at [off], with the bitmap that the file has for it. *)
Definition loaded v (f : F) (i off : Z) : t :=
  with_currblock i (with_bitmap (zsub off (bitmap_size v) (contents f)) (with_dirty off false (with_file f v))).

Lemma znth_file_bits v (f : F) off o : inv v -> 0 <= off -> 0 <= o < blocksize v ->
  znth nul (zsub off (bitmap_size v) (contents f)) (bitmap_byte o) = raw f (off + bitmap_byte o).
Proof. intros I Hoff Ho. destruct (bms_spec v I) as (_ & _ & Hb). specialize (Hb o Ho). by rewrite znth_zsub by lia. Qed.

Lemma loaded_bit v f i off j oj o : inv v -> spares v f -> flushed v f -> 0 <= i -> slot v i = Some off -> i <> currblock v ->
  0 <= j -> slot v j = Some oj -> 0 <= o < blocksize v -> block_bit (loaded v f i off) j oj o = block_bit v j oj o.
Proof.
  intros I Hs Hf Hi E Hne Hj Ej Ho. destruct (bms_spec v I) as (_ & _ & Hb). specialize (Hb o Ho).
  pose proof (slot_bounds v i off I Hi E). pose proof (slot_bounds v j oj I Hj Ej). destruct (i_bat v I) as (_ & Hn & _).
  unfold block_bit, loaded; vcbn. destruct (Z.eqb_spec i j) as [<-|Hij].
  - rewrite E in Ej. injection Ej as <-. rewrite (znth_file_bits v) by (done || lia). rewrite (proj2 (Z.eqb_neq _ _)) by congruence.
    destruct (Hs i off (bitmap_byte o) Hi E) as [[? _]|R]; [lia|congruence|by rewrite R].
  - destruct (Z.eqb_spec (currblock v) j) as [Hc|Hc].
    + destruct Hf as [Hf|Hf]; [rewrite Hc in Hf; subst j; unfold no_block in *; lia|].
      destruct (curr_slot v I) as [_ Ec]; [lia|]. rewrite Hc, Ej in Ec. injection Ec as ->. by rewrite Hf.
    + destruct (Hs j oj (bitmap_byte o) Hj Ej) as [[? _]|R]; [lia|congruence|by rewrite R].
Qed.

Lemma load_spec v f i off : inv v -> spares v f -> flushed v f -> flen f = flen (file v) ->
  (forall x, nextblock_offset v + 512 <= x -> raw f x = nul) ->
  0 <= i -> slot v i = Some off -> i <> currblock v ->
  inv (loaded v f i off) /\ saved (loaded v f i off) /\ forall x, 0 <= x -> disk (loaded v f i off) x = disk v x.
Proof.
  intros I Hs Hf Hl Ht Hi E Hne. pose proof (slot_bounds v i off I Hi E) as Hsl.
  assert (S : forall j, slot (loaded v f i off) j = slot v j) by done. split; [|split].
  - constructor; try (by destruct I); rewrite ?S; unfold loaded; vcbn.
    + split; [apply (i_bms v I)|]. unfold flen in *. apply zlen_zsub; lia.
    + intros j oj Hj Ej. pose proof (slot_bounds v j oj I Hj Ej). unfold bat_end; vcbn. lia.
    + intros j oj o Hj Ej Ho Hb. change (block_bit (loaded v f i off) j oj o = false) in Hb.
      rewrite (loaded_bit v f i off) in Hb by done. rewrite (spares_data v f j oj o I Hs Hj Ej Ho). by apply (i_zero v I j oj o).
    + rewrite Hl. apply (i_len v I).
    + right. split; [lia|done].
  - right. right. unfold loaded; vcbn. intros x Hx. rewrite znth_zsub by lia. done.
  - intros x Hx. destruct (disk_pos v x I Hx) as [Hj Ho]. unfold disk. change (blocksize (loaded v f i off)) with (blocksize v). rewrite S.
    destruct (slot v (x / blocksize v)) as [oj|] eqn:Ej; [|done]. rewrite (loaded_bit v f i off) by done.
    change (bitmap_size (loaded v f i off)) with (bitmap_size v). change (file (loaded v f i off)) with f.
    by rewrite (spares_data v f _ oj _ I Hs Hj Ej Ho).
Qed.

(** [v'] has the disk of [v], and [i] as its current block. *)
Record moved_to v (i : Z) v' : Prop := {
  m_inv : inv v';
  m_saved : saved v';
  m_disk : forall x, 0 <= x -> disk v' x = disk v x;
  m_frame : frame v' = frame v;
  m_len : flen (file v') = flen (file v);
  m_curr : currblock v' = i;
  m_leaves : leaves v (file v') }.

Lemma moved_refl v : inv v -> saved v -> moved_to v (currblock v) v.
Proof. by constructor. Qed.

Lemma reload_spec v i off : inv v -> saved v -> 0 <= i -> slot v i = Some off -> i <> currblock v ->
  exists f, switchBitmap off v = with_dirty off false (with_file f v) /\ flen f = flen (file v) /\
    forall f', contents f' = contents f -> moved_to v i (loaded v f' i off).
Proof.
  intros I Hs Hi E Hne. destruct (switch_spec off v I Hs) as (f & Ef & Hsp & Hfl & Hl & Ht & Hlv). exists f. split; [done|]. split; [done|].
  intros f' Hc. destruct (raw_contents f f' Hc) as [Hr Hl'].
  destruct (load_spec v f' i off) as (Hi' & Hs' & Hd'); try done.
  - intros j oj y Hj Ej Hy. rewrite Hr. by apply Hsp.
  - destruct Hfl as [?|Hfl]; [by left|]. right. intros x Hx. rewrite Hr. by apply Hfl.
  - congruence.
  - intros x Hx. rewrite Hr. by apply Ht.
  - constructor; try done; unfold loaded; vcbn; [congruence|]. intros x Hx Ho. rewrite Hr. by apply Hlv.
Qed.

(** The bytes read over a bitmap of the same size. *)
Lemma splice_bitmap v (f : F) off b : inv v -> 0 <= off -> off + bitmap_size v <= flen f -> zlen b = bitmap_size v ->
  zsplice 0 (zsub off (bitmap_size v) (contents f)) b = zsub off (bitmap_size v) (contents f).
Proof.
  intros I Ho Hf Hb. destruct (bms_spec v I) as (Hn & _). unfold flen in Hf.
  rewrite zsplice_fill; [done|lia|]. rewrite zlen_zsub by lia. lia.
Qed.

Lemma read_bitmap_spec v i off need : inv v -> saved v -> 0 <= i -> slot v i = Some off -> 0 <= need ->
  off + bitmap_size v + need <= flen (file v) -> exists v', read_bitmap i off need v = (true, v') /\ moved_to v i v'.
Proof.
  intros I Hs Hi E Hneed Hlen. unfold read_bitmap. destruct (Z.eqb_spec i (currblock v)) as [->|Hne]; [exists v; split; [done|by apply moved_refl]|].
  pose proof (slot_bounds v i off I Hi E) as Hsl. destruct (i_bms v I) as [_ Hbl]. pose proof (i_len v I).
  destruct (reload_spec v i off I Hs Hi E Hne) as (f & -> & Hl & Hm). cbn zeta.
  destruct (file_Seek_spec off (with_dirty off false (with_file f v))) as (f1 & -> & Hc1 & Hp1); [lia|]. cbn [snd]. vcbn.
  rewrite size_law. change (zlen (contents f1)) with (flen f1). destruct (raw_contents f f1 Hc1) as [_ Hl1].
  rewrite !w64_id, (proj2 (Z.ltb_ge _ _)) by lia.
  destruct (file_Read_spec (bitmap_size v) (with_file f1 (with_dirty off false (with_file f v)))) as (f2 & E2 & Hc2 & _); [lia|].
  rewrite E2. vcbn. rewrite Hp1, Hc1 in *. rewrite (splice_bitmap v) by (done || lia). rewrite zlen_zsub by (unfold flen in *; lia).
  rewrite Z.eqb_refl. cbn [negb]. eexists. split; [done|]. specialize (Hm f2 Hc2). unfold loaded in Hm. by rewrite Hc2 in Hm.
Qed.

Lemma load_for_write_spec v i off : inv v -> saved v -> 0 <= i -> slot v i = Some off ->
  exists v', write_bitmap_of i off false v = (true, v') /\ moved_to v i v'.
Proof.
  intros I Hs Hi E. unfold write_bitmap_of. destruct (Z.eqb_spec (currblock v) i) as [<-|Hne]; [exists v; split; [done|by apply moved_refl]|].
  pose proof (slot_bounds v i off I Hi E) as Hsl. destruct (i_bms v I) as [_ Hbl].
  destruct (reload_spec v i off I Hs Hi E) as (f & -> & Hl & Hm); [congruence|]. cbn zeta.
  destruct (file_Seek_spec off (with_dirty off false (with_file f v))) as (f1 & -> & Hc1 & Hp1); [lia|]. cbn [snd]. vcbn.
  destruct (raw_contents f f1 Hc1) as [_ Hl1].
  destruct (file_Read_spec (bitmap_size v) (with_file f1 (with_dirty off false (with_file f v)))) as (f2 & E2 & Hc2 & _); [lia|].
  rewrite E2. vcbn. rewrite Hp1, Hc1 in *. rewrite (splice_bitmap v) by (done || lia).
  eexists. split; [done|]. specialize (Hm f2 Hc2). unfold loaded in Hm. by rewrite Hc2 in Hm.
Qed.
End Steps.
