(* ===== verification/VhdRead.v ===== *)
(** Reading an image yields its disk. *)
From S2P Require Import Prelude MemFile VhdFormat VhdFile VhdSpec VhdSteps.
Import VHDFile.

(** ** Buffers *)

Lemma zsplice_app (d : Z) (a b l : bytes) : 0 <= d -> d + zlen a + zlen b <= zlen l ->
  zsplice (d + zlen a) b (zsplice d a l) = zsplice d (a ++ b) l.
Proof.
  intros Hd Hl. pose proof (zlen_nonneg a). pose proof (zlen_nonneg b). unfold zsplice at 1.
  rewrite ztake_zsplice by lia. unfold zsplice. rewrite <- !app_assoc, zlen_app. do 3 f_equal.
  rewrite app_assoc, zdrop_app_ge by (rewrite zlen_app, zlen_ztake by lia; lia). rewrite zlen_app, zlen_ztake, zdrop_zdrop by lia.
  f_equal. lia.
Qed.
Lemma zsplice_tail (d n : Z) (a l : bytes) : 0 <= d -> zlen a = n ->
  ztake d l ++ a ++ zdrop n (zdrop d l) = zsplice d a l.
Proof. intros Hd <-. unfold zsplice. pose proof (zlen_nonneg a). by rewrite zdrop_zdrop. Qed.

Section Reading.
Context {F P : Type} `{FileLaws F} `{VHDParentLaws P}.
Notation t := (t (F := F) (P := P)).
Implicit Types (v : t) (c : cursor).

(** ** Single sectors *)

(** The cursor of a range that starts in the sector of [c_off c] and stays in the block. *)
Definition in_block v c : Prop :=
  0 <= c_off c /\ c_remaining c = blocksize v - c_off c /\ 0 < c_remaining c /\ 0 < c_todo c /\
  (c_first c = true \/ c_off c mod sector_size = 0).

Lemma sector_part_spec v c : inv v -> in_block v c -> exists want,
  sector_part c = (want, mkCur (c_off c) (c_remaining c) (c_todo c) false (c_done c) (c_buf c)) /\
  0 < want <= Z.min (c_todo c) (c_remaining c) /\ want <= 512 /\ c_off c mod sector_size + want <= sector_size /\
  (want = Z.min (c_todo c) (c_remaining c) \/ (c_off c + want) mod sector_size = 0) /\
  (c_off c mod sector_size = 0 -> c_todo c mod sector_size = 0 -> want = sector_size).
Proof.
  intros I (Ho & Hr & Hr0 & Ht & Hf). destruct (i_block v I) as [Hb Hbm]. unfold sector_part, sector_size in *.
  pose proof (Z.div_mod (c_off c) 512). pose proof (Z.mod_pos_bound (c_off c) 512).
  pose proof (Z.div_mod (blocksize v) 512). pose proof (Z.div_mod (c_todo c) 512). pose proof (Z.mod_pos_bound (c_todo c) 512).
  eexists. split; [reflexivity|].
  destruct (Z.ltb_spec (c_remaining c) (Z.min 512 (c_todo c))), (c_first c), (Z.eqb_spec (c_off c mod 512) 0); cbn [andb negb];
    try (destruct Hf; [discriminate|lia]);
    try (destruct (Z.ltb_spec (512 - c_off c mod 512) (Z.min 512 (c_todo c))));
    try (destruct (Z.ltb_spec (512 - c_off c mod 512) (c_remaining c)));
    repeat match goal with |- _ /\ _ => split end; try lia;
    destruct (Z.le_gt_cases (c_todo c) 512); first [left; lia | right; apply Z.mod_divide; [lia|]; exists (c_off c / 512 + 1); lia].
Qed.

Lemma same_sector o k : 0 <= o -> 0 <= k -> o mod sector_size + k < sector_size -> sector (o + k) = sector o.
Proof.
  intros Ho Hk Hs. unfold sector, sector_size in *. pose proof (Z.div_mod o 512). symmetry.
  apply (Z.div_unique_pos _ _ _ (o mod 512 + k)); pose proof (Z.mod_pos_bound o 512); lia.
Qed.
Lemma block_bit_sector v i off o o' : sector o = sector o' -> block_bit v i off o = block_bit v i off o'.
Proof.
  intros E. unfold block_bit, char_bit. assert (Eb : bitmap_byte o = bitmap_byte o') by (unfold bitmap_byte; unfold sector in E; by rewrite E).
  assert (Em : bitmap_mask o = bitmap_mask o') by (unfold bitmap_mask; unfold sector in E; by rewrite E). by rewrite Eb, Em.
Qed.

Lemma disk_at v i o : inv v -> 0 <= i -> 0 <= o < blocksize v -> disk v (i * blocksize v + o) =
  match slot v i with
  | None => parent_byte v (i * blocksize v + o)
  | Some off => if block_bit v i off o then raw (file v) (off + bitmap_size v + o) else parent_byte v (i * blocksize v + o)
  end.
Proof.
  intros I Hi Ho. unfold disk. rewrite Z.div_add_l, (Z.div_small o) by lia. rewrite Z.add_0_r.
  by rewrite (Z.add_comm _ o), Z.mod_add, (Z.mod_small o) by lia.
Qed.

Lemma isBitmapSet_spec v i off o : inv v -> currblock v = i -> 0 <= o < blocksize v -> isBitmapSet o v = Some (block_bit v i off o).
Proof.
  intros I Hc Ho. destruct (bms_spec v I) as (_ & _ & Hb). specialize (Hb o Ho). destruct (i_bms v I) as [_ Hl].
  unfold isBitmapSet, bit_in, block_bit. rewrite Hc, Z.eqb_refl.
  rewrite (lookup_znth nul (bitmap v) (bitmap_byte o)) by lia. done.
Qed.

(** ** What reading keeps *)

(** [p'] is [p] after calls that read. *)
Definition same_parent (a b : option P) : Prop :=
  match a, b with
  | None, None => True
  | Some p, Some p' => p_good p' /\ (forall x, 0 <= x -> p_disk p' x = p_disk p x) /\ p_size p' = p_size p /\ p_block p' = p_block p
  | _, _ => False
  end.

(** Whether there is a parent. *)
Definition is_child v : bool := if parent v then true else false.

Record quiet v v' : Prop := {
  q_inv : inv v';
  q_saved : saved v';
  q_disk : forall x, 0 <= x -> disk v' x = disk v x;
  q_frame : statics v' = statics v /\ bat v' = bat v /\ nextblock_offset v' = nextblock_offset v;
  q_len : flen (file v') = flen (file v);
  q_leaves : leaves v (file v');
  q_child : is_child v' = is_child v }.

Lemma statics_eq v v' : statics v' = statics v ->
  read_only v' = read_only v /\ fast_mode v' = fast_mode v /\ dstsize v' = dstsize v /\ blocksize v' = blocksize v /\
  bitmap_size v' = bitmap_size v /\ batsize v' = batsize v /\ bat_offset v' = bat_offset v.
Proof. unfold statics. intros [=]. done. Qed.
Lemma slot_eq v v' i : bat v' = bat v -> slot v' i = slot v i.
Proof. unfold slot, bat_entry. by intros ->. Qed.

Lemma outside_eq v v' x : bat v' = bat v -> statics v' = statics v -> outside v x -> outside v' x.
Proof.
  intros Hb Hs Ho j oj Hj Ej. apply statics_eq in Hs as (_ & _ & _ & -> & -> & _). rewrite (slot_eq v v' j Hb) in Ej. by apply (Ho j).
Qed.

Lemma quiet_refl v : inv v -> saved v -> quiet v v.
Proof. by constructor. Qed.
Lemma quiet_trans v1 v2 v3 : quiet v1 v2 -> quiet v2 v3 -> quiet v1 v3.
Proof.
  intros A B. destruct (q_frame _ _ A) as (A1 & A2 & A3), (q_frame _ _ B) as (B1 & B2 & B3). constructor.
  - apply (q_inv _ _ B).
  - apply (q_saved _ _ B).
  - intros x Hx. by rewrite (q_disk _ _ B), (q_disk _ _ A).
  - split; [congruence|]. split; congruence.
  - by rewrite (q_len _ _ B), (q_len _ _ A).
  - intros x Hx Ho. rewrite (q_leaves _ _ B x Hx) by (by apply (outside_eq v1)). by apply (q_leaves _ _ A).
  - by rewrite (q_child _ _ B), (q_child _ _ A).
Qed.
Lemma quiet_moved v i v' : moved_to v i v' -> quiet v v'.
Proof.
  intros [I S D E L C Lv]. assert (Ep : parent v' = parent v) by (unfold frame in E; congruence).
  constructor; try done; [|unfold is_child; by rewrite Ep]. unfold frame in E. assert (Es : fst (fst (fst (fst (frame v')))) = fst (fst (fst (fst (frame v))))) by (unfold frame; by rewrite E).
  split; [exact Es|]. by injection E.
Qed.
Lemma quiet_file v (f : F) : inv v -> saved v -> contents f = contents (file v) -> quiet v (with_file f v).
Proof.
  intros I Hs E. destruct (inv_same_file f v I E) as [I' D']. destruct (raw_contents (file v) f E) as [Hr Hl].
  constructor; [done| |done|done|done|intros x _ _; apply Hr|done]. unfold saved in *; vcbn. destruct Hs as [?|[?|Hs]]; [tauto|tauto|]. right. right. intros x Hx. rewrite Hr. by apply Hs.
Qed.
Lemma quiet_offset v o : inv v -> saved v -> quiet v (with_offset o v).
Proof. intros I Hs. constructor; try done. destruct I. by constructor. Qed.
Lemma quiet_parent v p : inv v -> saved v -> same_parent (parent v) (Some p) -> quiet v (with_parent (Some p) v).
Proof.
  intros I Hs Hp. destruct (parent v) as [q|] eqn:E; [|done]. destruct Hp as (Hg & Hd & Hz & Hb). pose proof (i_parent v I) as Hpar. rewrite E in Hpar.
  constructor; [|done| |done|done|done|unfold is_child; by rewrite E].
  - constructor; try (by destruct I); vcbn. rewrite Hz, Hb. tauto.
  - intros x Hx. unfold disk, parent_byte; vcbn. rewrite E.
    change (slot (with_parent (Some p) v)) with (slot v). change (block_bit (with_parent (Some p) v)) with (block_bit v). by rewrite Hd.
Qed.

(** ** The loops *)

Lemma range_len v o n (buf : bytes) d : 0 <= d -> 0 <= n -> d + n <= zlen buf -> zlen (zsplice d (range (disk v) o n) buf) = zlen buf.
Proof. intros. rewrite zlen_zsplice; rewrite ?zlen_range; lia. Qed.

(** The state of the loop over sectors: at [c_off c] of block [i], which is at [off]. *)
Definition at_sector v c (i off : Z) : Prop :=
  inv v /\ saved v /\ currblock v = i /\ 0 <= i /\ slot v i = Some off /\ fpos (file v) = off + bitmap_size v + c_off c /\
  in_block v c /\ curr_offset v = i * blocksize v + c_off c /\ curr_offset v + c_todo c <= dstsize v /\
  0 <= c_done c /\ c_done c + c_todo c <= zlen (c_buf c) /\
  off + bitmap_size v + c_off c + Z.min (c_todo c) (c_remaining c) <= flen (file v).

Lemma in_one_block v i o n : 0 < blocksize v -> 0 <= o -> 0 < n -> o + n <= blocksize v ->
  (i * blocksize v + o) / blocksize v = (i * blocksize v + o + n - 1) / blocksize v.
Proof. intros. replace (i * blocksize v + o + n - 1) with (i * blocksize v + (o + n - 1)) by lia. rewrite !Z.div_add_l, !Z.div_small by lia. done. Qed.

Lemma parent_Read_spec v p n c : inv v -> saved v -> parent v = Some p -> 0 <= curr_offset v -> 0 < n -> curr_offset v + n <= dstsize v ->
  curr_offset v / blocksize v = (curr_offset v + n - 1) / blocksize v -> 0 <= c_done c -> c_done c + n <= zlen (c_buf c) ->
  exists p', parent_Read p n c v = Ran (n, zsplice (c_done c) (range (parent_byte v) (curr_offset v) n) (c_buf c), with_parent (Some p') v) /\
    quiet v (with_parent (Some p') v).
Proof.
  intros I Hs Ep Ho Hn Hsz Hblk Hd Hl. pose proof (i_parent v I) as Hp. rewrite Ep in Hp. destruct Hp as (Hg & Hps & Hpb).
  destruct (p_read p (curr_offset v) n (zdrop (c_done c) (c_buf c)) Hg) as (p' & E & Hg' & Hd' & Hs' & Hb'); [lia|lia|lia| | |].
  - rewrite zlen_zdrop by lia. lia.
  - by rewrite Hpb.
  - exists p'. unfold parent_Read. rewrite E. cbn [vbind]. split.
    + rewrite <- (zsplice_tail (c_done c) n) by (done || (apply zlen_range; lia)). do 5 f_equal. apply range_ext. intros x _.
      unfold parent_byte. by rewrite Ep.
    + apply quiet_parent; [done|done|]. by rewrite Ep.
Qed.

Lemma read_part_spec v c i off want : at_sector v c i off ->
  0 < want <= Z.min (c_todo c) (c_remaining c) -> want <= 512 -> c_off c mod sector_size + want <= sector_size ->
  exists v', read_part off want (block_bit v i off (c_off c)) c v =
      Ran (want, false, with_buf (zsplice (c_done c) (range (disk v) (curr_offset v) want) (c_buf c)) c, v') /\
    quiet v v' /\ currblock v' = i /\ curr_offset v' = curr_offset v /\ fpos (file v') = off + bitmap_size v + c_off c + want.
Proof.
  intros (I & Hs & Hc & Hi & E & Hp & (Ho & Hr & Hr0 & Ht & _) & Hcur & Hsz & Hd & Hl & Hreach) Hw Hw512 Hsec.
  pose proof (slot_bounds v i off I Hi E) as Hsl. unfold read_part.
  assert (Hdisk : forall k, 0 <= k < want -> disk v (curr_offset v + k) =
    if block_bit v i off (c_off c) then raw (file v) (off + bitmap_size v + (c_off c + k)) else parent_byte v (curr_offset v + k)).
  { intros k Hk. rewrite Hcur, <- Z.add_assoc. rewrite (disk_at v i (c_off c + k)) by (done || lia). rewrite E.
    rewrite (block_bit_sector v i off (c_off c + k) (c_off c)) by (apply same_sector; lia). done. }
  destruct (block_bit v i off (c_off c)).
  - rewrite w32_id by lia. destruct (file_Read_spec want v) as (f & Ef & Hcf & Hpf); [lia|]. rewrite Ef. rewrite Hp in *.
    assert (Hlen : zlen (zsub (off + bitmap_size v + c_off c) want (contents (file v))) = want) by (apply zlen_zsub; unfold flen in *; lia).
    rewrite Hlen in *. rewrite Z.eqb_refl. cbn [negb andb]. exists (with_file f v).
    split; [|split; [by apply quiet_file|split; [done|split; [done|exact Hpf]]]]. do 4 f_equal. unfold put. do 2 f_equal.
    apply range_eq; [done|]. intros k Hk. rewrite Hdisk by done. rewrite znth_zsub by lia. unfold raw. f_equal. lia.
  - assert (Hrange : range (parent_byte v) (curr_offset v) want = range (disk v) (curr_offset v) want).
    { symmetry. apply range_ext. intros x Hx. replace x with (curr_offset v + (x - curr_offset v)) by lia. by rewrite Hdisk by lia. }
    assert (Hread : exists v1, match parent v with Some p => parent_Read p want c v | None => Ran (want, put (c_done c) (zeros want) (c_buf c), v) end =
      Ran (want, zsplice (c_done c) (range (disk v) (curr_offset v) want) (c_buf c), v1) /\ quiet v v1 /\
      file v1 = file v /\ currblock v1 = currblock v /\ curr_offset v1 = curr_offset v).
    { destruct (parent v) as [p|] eqn:Ep.
      - destruct (parent_Read_spec v p want c) as (p' & E' & Q); [done|done|done|lia|lia|lia| |lia|lia|].
        + rewrite Hcur. apply in_one_block; lia.
        + rewrite E', Hrange. eexists. by split.
      - exists v. split; [|split; [by apply quiet_refl|done]]. unfold put. do 3 f_equal. rewrite <- Hrange. f_equal.
        apply range_eq; [apply zlen_replicate; lia|]. intros k Hk. unfold parent_byte. rewrite Ep. unfold zeros, znth.
        rewrite nth_lookup. destruct (replicate _ nul !! _) eqn:El; [by apply lookup_replicate in El as [-> _]|done]. }
    destruct Hread as (v1 & -> & Q & Ef1 & Ec1 & Eo1). cbn [vbind]. destruct (q_frame _ _ Q) as (Qs & _ & _). apply statics_eq in Qs.
    destruct Qs as (_ & _ & _ & _ & Qb & _). rewrite Qb.
    destruct (file_Seek_spec (off + bitmap_size v + c_off c + want) v1) as (f & -> & Hcf & Hpf); [lia|]. cbn [snd].
    eexists. split; [reflexivity|]. split; [|by rewrite <- Hc, <- Ec1, <- Eo1].
    eapply quiet_trans; [exact Q|]. apply quiet_file; [by apply (q_inv _ _ Q)|by apply (q_saved _ _ Q)|done].
Qed.

(** What the loops have done: [n] more bytes of the disk are in the buffer. *)
Record has_read v c (n : Z) v' c' : Prop := {
  r_quiet : quiet v v';
  r_offset : curr_offset v' = curr_offset v + n;
  r_cursor : c_off c' = c_off c + n /\ c_remaining c' = c_remaining c - n /\ c_todo c' = c_todo c - n /\ c_done c' = c_done c + n;
  r_buf : c_buf c' = zsplice (c_done c) (range (disk v) (curr_offset v) n) (c_buf c) }.

Lemma has_read_trans v c n v1 c1 m v2 c2 : has_read v c n v1 c1 -> has_read v1 c1 m v2 c2 ->
  0 <= curr_offset v -> 0 <= n -> 0 <= m -> 0 <= c_done c -> c_done c + n + m <= zlen (c_buf c) -> has_read v c (n + m) v2 c2.
Proof.
  intros [Q1 O1 C1 B1] [Q2 O2 C2 B2] Ho Hn Hm Hd Hl. constructor; [by eapply quiet_trans|lia|lia|].
  rewrite B2, B1, O1. destruct C1 as (_ & _ & _ & ->). rewrite range_app by done.
  rewrite (range_ext (disk v1) (disk v)) by (intros x Hx; apply (q_disk _ _ Q1); lia).
  rewrite <- (zlen_range (disk v) (curr_offset v) n) at 1 by done. apply zsplice_app; [done|]. rewrite !zlen_range by done. lia.
Qed.

Lemma at_sector_next v c i off v' c' n : at_sector v c i off -> has_read v c n v' c' -> currblock v' = i ->
  fpos (file v') = off + bitmap_size v + c_off c + n -> 0 < n -> n < c_todo c -> n < c_remaining c ->
  c_first c' = true \/ c_off c' mod sector_size = 0 -> at_sector v' c' i off.
Proof.
  intros (I & Hs & Hc & Hi & E & Hp & (Ho & Hr & Hr0 & Ht & Hf) & Hcur & Hsz & Hd & Hl & Hreach) [Q O (C1 & C2 & C3 & C4) B] Hc' Hp' Hn Hnt Hnr Hf'.
  destruct (q_frame _ _ Q) as (Qs & Qb & Qn). apply statics_eq in Qs as (_ & _ & S1 & S2 & S3 & S4 & _).
  split; [apply (q_inv _ _ Q)|]. split; [apply (q_saved _ _ Q)|]. split; [done|]. split; [done|].
  split; [by rewrite (slot_eq v v')|]. split; [rewrite Hp', S3; lia|]. split; [unfold in_block; rewrite S2; repeat (split; [lia|]); done|].
  rewrite S1, S2, S3, O, C1, C2, C3, C4, B, range_len, (q_len _ _ Q) by lia. lia.
Qed.

Lemma read_sectors_spec rounds : forall v c i off, at_sector v c i off -> (Z.to_nat (c_todo c) < rounds)%nat ->
  exists v' c', read_sectors rounds off c v = Ran (None, c', v') /\ has_read v c (Z.min (c_todo c) (c_remaining c)) v' c' /\ currblock v' = i.
Proof.
  induction rounds as [|k IH]; intros v c i off A Hk; [lia|].
  pose proof A as (I & Hs & Hc & Hi & E & Hp & Hin & Hcur & Hsz & Hd & Hl & Hreach). pose proof Hin as (Ho & Hr & Hr0 & Ht & _).
  destruct (i_block v I) as [Hbs _]. destruct (i_size v I) as [Hds _]. cbn [read_sectors].
  rewrite (proj2 (Z.ltb_lt (c_off c) (blocksize v))) by lia.
  destruct (sector_part_spec v c I Hin) as (want & -> & Hw & Hw5 & Hsec & Hend & _). cbn [c_off c_todo c_remaining c_done c_buf].
  assert (Hcn : 0 <= curr_offset v) by nia.
  rewrite w64_id, (proj2 (Z.ltb_ge _ _)) by lia. rewrite w32_id by lia. rewrite (isBitmapSet_spec v i off) by (done || lia).
  set (c0 := mkCur (c_off c) (c_remaining c) (c_todo c) false (c_done c) (c_buf c)).
  assert (A0 : at_sector v (mkCur (c_off c) (c_remaining c) (c_todo c) true (c_done c) (c_buf c)) i off).
  { assert (Hin0 : in_block v (mkCur (c_off c) (c_remaining c) (c_todo c) true (c_done c) (c_buf c))) by (repeat (split; [done|]); by left).
    by repeat (split; [done|]). }
  destruct (read_part_spec v _ i off want A0) as (v1 & Er & Q1 & Hc1 & Ho1 & Hp1); [cbn; lia|lia|done|].
  assert (Er0 : read_part off want (block_bit v i off (c_off c)) c0 v =
    Ran (want, false, with_buf (zsplice (c_done c) (range (disk v) (curr_offset v) want) (c_buf c)) c0, v1)).
  { revert Er. unfold read_part, parent_Read, c0; cbn [c_off c_remaining c_todo c_first c_done c_buf].
    destruct (block_bit v i off (c_off c)).
    - destruct (file_Read (w32 want) v) as [[b e] v2]. unfold with_buf; cbn. intros [= -> -> E1 ->]. by rewrite E1.
    - destruct (match parent v with Some _ => _ | None => _ end) as [[[n b] v2]| |]; cbn [vbind]; try done.
      unfold with_buf; cbn. intros [= -> E1 <-]. by rewrite E1. }
  rewrite Er0. cbn [vbind]. rewrite Ho1, w64_id by lia.
  set (c1 := advance want _). set (v2 := with_offset (curr_offset v + want) v1).
  assert (R : has_read v c want v2 c1).
  { constructor; [|done|done|done]. eapply quiet_trans; [exact Q1|]. apply quiet_offset; [apply (q_inv _ _ Q1)|apply (q_saved _ _ Q1)]. }
  cbn [c_todo c_remaining c1 advance with_buf c0].
  destruct (Z.eqb_spec (c_todo c - want) 0) as [Hz|Hz]; [|destruct (Z.eqb_spec (c_remaining c - want) 0) as [Hz'|Hz']]; cbn [orb].
  - exists v2, c1. split; [done|]. by replace (Z.min (c_todo c) (c_remaining c)) with want by lia.
  - exists v2, c1. split; [done|]. by replace (Z.min (c_todo c) (c_remaining c)) with want by lia.
  - assert (A1 : at_sector v2 c1 i off).
    { apply (at_sector_next v c i off v2 c1 want); try done; try lia. right. cbn. destruct Hend as [Hend|Hend]; [lia|done]. }
    destruct (IH v2 c1 i off A1) as (v3 & c3 & E3 & R3 & Hc3); [cbn; lia|]. exists v3, c3. split; [exact E3|]. split; [|done].
    replace (Z.min (c_todo c) (c_remaining c)) with (want + Z.min (c_todo c1) (c_remaining c1)) by (cbn; lia).
    eapply has_read_trans; [exact R|exact R3|done|lia|cbn; lia|done|cbn; lia].
Qed.

Lemma read_absent_spec v c i : inv v -> saved v -> 0 <= i -> slot v i = None -> in_block v c ->
  curr_offset v = i * blocksize v + c_off c -> curr_offset v + c_todo c <= dstsize v -> 0 <= c_done c ->
  c_done c + c_todo c <= zlen (c_buf c) ->
  exists v' c', read_absent c v = Ran (c', v') /\ has_read v c (Z.min (c_todo c) (c_remaining c)) v' c'.
Proof.
  intros I Hs Hi E (Ho & Hr & Hr0 & Ht & _) Hcur Hsz Hd Hl. unfold read_absent. destruct (i_block v I) as [Hbs _]. destruct (i_size v I) as [Hds _].
  set (n := Z.min (c_todo c) (c_remaining c)). rewrite Z.min_comm. fold n. assert (Hn : 0 < n <= c_remaining c) by lia.
  assert (Hcn : 0 <= curr_offset v) by nia. rewrite w32_id by lia.
  assert (Hrange : range (parent_byte v) (curr_offset v) n = range (disk v) (curr_offset v) n).
  { symmetry. apply range_ext. intros x Hx. replace x with (i * blocksize v + (c_off c + (x - curr_offset v))) by lia.
    by rewrite disk_at, E by (done || lia). }
  assert (Hread : exists v1, match parent v with
      | None => Ran (put (c_done c) (zeros n) (c_buf c), v)
      | Some p => let! (_, b, v) := parent_Read p n c v in Ran (b, v)
      end = Ran (zsplice (c_done c) (range (disk v) (curr_offset v) n) (c_buf c), v1) /\ quiet v v1 /\ curr_offset v1 = curr_offset v).
  { destruct (parent v) as [p|] eqn:Ep.
    - destruct (parent_Read_spec v p n c) as (p' & E' & Q); [done|done|done|lia|lia|lia| |lia|lia|].
      + rewrite Hcur. apply in_one_block; lia.
      + rewrite E', Hrange. eexists. by split.
    - exists v. split; [|split; [by apply quiet_refl|done]]. unfold put. do 2 f_equal. rewrite <- Hrange. f_equal.
      apply range_eq; [apply zlen_replicate; lia|]. intros k Hk. unfold parent_byte. rewrite Ep. unfold zeros, znth.
      rewrite nth_lookup. destruct (replicate _ nul !! _) eqn:El; [by apply lookup_replicate in El as [-> _]|done]. }
  destruct Hread as (v1 & -> & Q & Eo). cbn [vbind]. rewrite Eo, w64_id by lia. eexists _, _. split; [done|].
  constructor; [|done|done|done]. eapply quiet_trans; [exact Q|]. apply quiet_offset; [apply (q_inv _ _ Q)|apply (q_saved _ _ Q)].
Qed.

(** How far behind its bitmap a block has to be in the file: [Read] asks for as many
    bytes as it reads altogether. *)
Definition reach v (i off0 todo bsize : Z) : Prop := forall j oj, i <= j -> j * blocksize v < i * blocksize v + off0 + todo -> slot v j = Some oj ->
  oj + bitmap_size v + (if j =? i then off0 else 0) + bsize <= flen (file v).

Record has_read_all v c v' c' : Prop := {
  ra_quiet : quiet v v';
  ra_offset : curr_offset v' = curr_offset v + c_todo c;
  ra_done : c_done c' = c_done c + c_todo c;
  ra_buf : c_buf c' = zsplice (c_done c) (range (disk v) (curr_offset v) (c_todo c)) (c_buf c) }.

Lemma read_all_end v c n v' c' : has_read v c n v' c' -> c_todo c = n -> has_read_all v c v' c'.
Proof. intros [Q O C B] <-. constructor; tauto. Qed.
Lemma read_all_next v c n v1 c1 v2 c2 : has_read v c n v1 c1 -> has_read_all v1 (next_block (blocksize v) c1) v2 c2 ->
  0 <= curr_offset v -> 0 <= n <= c_todo c -> 0 <= c_done c -> c_done c + c_todo c <= zlen (c_buf c) -> has_read_all v c v2 c2.
Proof.
  intros [Q1 O1 (_ & _ & C3 & C4) B1] [Q2 O2 D2 B2] Ho Hn Hd Hl. unfold next_block in *; cbn [c_todo c_done c_buf] in *.
  constructor; [by eapply quiet_trans|lia|lia|]. rewrite B2, B1, O1, C3, C4.
  replace (c_todo c) with (n + (c_todo c - n)) at 2 by lia. rewrite range_app by lia.
  rewrite (range_ext (disk v1) (disk v)) by (intros x Hx; apply (q_disk _ _ Q1); lia).
  rewrite <- (zlen_range (disk v) (curr_offset v) n) at 1 by lia. apply zsplice_app; [done|]. rewrite !zlen_range by lia. lia.
Qed.

Lemma bat_entry_slot v i : inv v -> 0 <= i < batsize v -> exists e, bat_entry i v = Some e /\
  slot v i = if e =? no_block then None else Some (e * sector_size).
Proof.
  intros I Hi. destruct (i_bat v I) as (Eb & _). unfold slot, bat_entry. rewrite (lookup_znth 0 (bat v) i) by lia. cbn. by eexists.
Qed.

Lemma read_blocks_spec rounds bsize : forall v c i, inv v -> saved v -> 0 <= i -> in_block v c ->
  curr_offset v = i * blocksize v + c_off c -> curr_offset v + c_todo c <= dstsize v -> 0 <= c_done c ->
  c_done c + c_todo c <= zlen (c_buf c) -> c_todo c <= bsize -> reach v i (c_off c) (c_todo c) bsize -> (Z.to_nat (c_todo c) < rounds)%nat ->
  exists v' c', read_blocks rounds bsize i c v = Ran (true, c', v') /\ has_read_all v c v' c'.
Proof.
  induction rounds as [|k IH]; intros v c i I Hs Hi Hin Hcur Hsz Hd Hl Hbs Hre Hk; [lia|]. pose proof Hin as (Ho & Hr & Hr0 & Ht & Hf).
  destruct (i_block v I) as [Hb _]. destruct (i_size v I) as [Hds Hdb]. destruct (i_bat v I) as (_ & Hnb & _).
  assert (Hcn : 0 <= curr_offset v) by nia. assert (Hib : i < batsize v) by nia.
  destruct (bat_entry_slot v i I) as (e & Ee & Esl); [lia|]. cbn [read_blocks]. rewrite Ee.
  set (n := Z.min (c_todo c) (c_remaining c)). assert (Hn : 0 < n) by lia.
  (* what follows the first block *)
  assert (Hnext : forall v1 c1, has_read v c n v1 c1 -> c_todo c1 <> 0 ->
    exists v' c', read_blocks k bsize (w32 (i + 1)) (next_block (blocksize v1) c1) v1 = Ran (true, c', v') /\ has_read_all v c v' c').
  { intros v1 c1 R Hne. pose proof R as [Q O (C1 & C2 & C3 & C4) B]. destruct (q_frame _ _ Q) as (Qs & Qb & _).
    apply statics_eq in Qs as (_ & _ & S1 & S2 & S3 & _ & _). rewrite S2. unfold no_block in *.
    rewrite w32_id by lia. destruct (IH v1 (next_block (blocksize v) c1) (i + 1)) as (v2 & c2 & E2 & R2); cbn [next_block c_off c_remaining c_todo c_first c_done c_buf];
      rewrite ?S1, ?S2, ?O, ?C3, ?C4, ?B; try lia.
    - apply (q_inv _ _ Q).
    - apply (q_saved _ _ Q).
    - repeat (split; [cbn; lia|]). by right.
    - rewrite range_len by lia. lia.
    - intros j oj Hj Hjt Ej. rewrite S2 in Hjt. rewrite (slot_eq v v1 j Qb) in Ej. rewrite S3, (q_len _ _ Q).
      specialize (Hre j oj ltac:(lia) ltac:(lia) Ej). rewrite (proj2 (Z.eqb_neq j i)) in Hre by lia. by destruct (j =? i + 1).
    - exists v2, c2. split; [exact E2|]. eapply read_all_next; [exact R|exact R2|lia..]. }
  destruct (Z.eqb_spec e no_block) as [->|Hne]; rewrite ?Z.eqb_refl in Esl.
  - destruct (read_absent_spec v c i I Hs Hi Esl Hin Hcur Hsz Hd Hl) as (v1 & c1 & -> & R). cbn [vbind]. fold n in R.
    pose proof R as [_ _ (_ & _ & C3 & _) _]. destruct (Z.eqb_spec (c_todo c1) 0) as [Hz|Hz]; [|by apply Hnext].
    exists v1, c1. split; [done|]. apply (read_all_end v c n); [done|lia].
  - set (off := e * sector_size) in *.
    assert (Hro : off + bitmap_size v + c_off c + bsize <= flen (file v)).
    { pose proof (Hre i off ltac:(lia) ltac:(lia) Esl) as Hx. by rewrite Z.eqb_refl in Hx. }
    destruct (read_bitmap_spec v i off (c_off c + bsize) I Hs Hi Esl) as (v1 & -> & M); [lia|lia|]. cbn [negb].
    pose proof (quiet_moved _ _ _ M) as Q1. destruct (q_frame _ _ Q1) as (Qs & Qb & _). apply statics_eq in Qs as (_ & _ & S1 & S2 & S3 & _ & _).
    pose proof (slot_bounds v i off I Hi Esl) as Hsl. rewrite S3.
    destruct (file_Seek_spec (off + bitmap_size v + c_off c) v1) as (f & -> & Hcf & Hpf); [lia|]. cbn [snd].
    pose proof (quiet_file v1 f (q_inv _ _ Q1) (q_saved _ _ Q1) Hcf) as Q2. pose proof (quiet_trans _ _ _ Q1 Q2) as Q.
    assert (Eo : curr_offset v1 = curr_offset v) by (pose proof (m_frame _ _ _ M) as Em; unfold frame in Em; congruence).
    assert (A : at_sector (with_file f v1) c i off).
    { split; [apply (q_inv _ _ Q)|]. split; [apply (q_saved _ _ Q)|]. split; [apply (m_curr _ _ _ M)|]. split; [done|].
      split; [change (slot v1 i = Some off); by rewrite (slot_eq v v1)|]. vcbn. rewrite S1, S2, S3, Eo. split; [done|].
      split; [unfold in_block; vcbn; by rewrite S2|]. rewrite (q_len _ _ Q2 : flen f = _), (q_len _ _ Q1). lia. }
    destruct (read_sectors_spec (S (Z.to_nat (c_todo c))) _ c i off A) as (v2 & c2 & -> & R & _); [lia|]. cbn [vbind]. fold n in R.
    assert (R' : has_read v c n v2 c2).
    { destruct R as [Q3 O C B]. vcbn. constructor; [by eapply quiet_trans|by rewrite O, Eo|done|]. rewrite B, Eo.
      by rewrite (range_ext (disk (with_file f v1)) (disk v)) by (intros x Hx; apply (q_disk _ _ Q); lia). }
    pose proof R' as [Q3 O3 (_ & _ & C3 & _) _]. destruct (q_frame _ _ Q3) as (Qs3 & _). apply statics_eq in Qs3 as (_ & _ & T1 & _).
    destruct (Z.eqb_spec (c_todo c2) 0) as [Hz|Hz].
    + exists v2, c2. split; [done|]. apply (read_all_end v c n); [done|lia].
    + rewrite T1, O3, (proj2 (Z.leb_gt _ _)) by lia. by apply Hnext.
Qed.

(** [Read] of [n] bytes inside the disk. *)
Lemma Read_spec v buffer n : inv v -> saved v -> 0 <= curr_offset v -> 0 < n -> curr_offset v + n <= dstsize v -> n <= zlen buffer ->
  reach v (curr_offset v / blocksize v) (curr_offset v mod blocksize v) n n ->
  exists v', Read buffer n v = Ran (true, n, range (disk v) (curr_offset v) n ++ zdrop n buffer, v') /\ quiet v v' /\
    curr_offset v' = curr_offset v + n.
Proof.
  intros I Hs Ho Hn Hsz Hl Hre. destruct (i_block v I) as [Hb _]. destruct (i_size v I) as [Hds Hdb]. destruct (i_bat v I) as (_ & Hnb & _).
  destruct (disk_pos v (curr_offset v) I Ho) as [Hi Hm]. pose proof (Z.div_mod (curr_offset v) (blocksize v)) as Hdm.
  unfold Read. rewrite (proj2 (Z.eqb_neq _ _)), (proj2 (Z.leb_gt _ _)) by lia.
  assert (Hib : curr_offset v / blocksize v < batsize v) by (apply Z.div_lt_upper_bound; lia). unfold no_block in *. rewrite w32_id by lia.
  destruct (read_blocks_spec (S (S (Z.to_nat n))) n v (mkCur (curr_offset v mod blocksize v) (blocksize v - curr_offset v mod blocksize v) n true 0 buffer)
    (curr_offset v / blocksize v)) as (v' & c' & E & [Q O D B]); cbn [c_off c_remaining c_todo c_first c_done c_buf] in *; try done; try lia.
  - repeat (split; [cbn; lia|]). by left.
  - rewrite E. cbn [vbind]. exists v'. rewrite D, B. split; [|done]. unfold zsplice. rewrite zlen_range by lia. done.
Qed.
End Reading.
