(* ===== verification/VhdWrite.v ===== *)
(** Writing to an image changes its disk where it writes and nowhere else. *)
From S2P Require Import Prelude MemFile VhdFormat VhdFile VhdSpec VhdSteps VhdRead.
Import VHDFile.

Lemma znth_zeros n i : znth nul (zeros n) i = nul.
Proof.
  unfold zeros, znth. rewrite nth_lookup. destruct (replicate _ nul !! _) eqn:E; [by apply lookup_replicate in E as [-> _]|done].
Qed.
Lemma zlen_vzeros n : 0 <= n -> zlen (zeros n) = n.
Proof. apply zlen_replicate. Qed.

Section Writing.
Context {F P : Type} `{FileLaws F} `{VHDParentLaws P}.
Notation t := (t (F := F) (P := P)).
Implicit Types (v : t) (c : cursor).

(** ** A part of a sector *)

(** The current block is [i] at [off]; [f] has the bytes of [src] at the disk offsets
    from [lo] to [hi], which lie in one sector of the block, and the bit of the sector
    gets set. *)
Definition marked v (f : F) (d : bool) (o : Z) : t :=
  with_file f (with_dirty (bitmap_offset v) d (with_bitmap (set_bit (bitmap v) o) v)).

Lemma setBitmapBit_spec v i off o : inv v -> currblock v = i -> 0 <= o < blocksize v ->
  setBitmapBit o true v = Some (negb (block_bit v i off o), marked v (file v) (bitmap_dirty v || negb (block_bit v i off o)) o).
Proof.
  intros I Hc Ho. destruct (bms_spec v I) as (_ & _ & Hb). specialize (Hb o Ho). destruct (i_bms v I) as [_ Hl].
  unfold setBitmapBit. rewrite (lookup_znth nul (bitmap v) (bitmap_byte o)) by lia. cbn [mbind option_bind].
  assert (Eb : block_bit v i off o = char_bit (znth nul (bitmap v) (bitmap_byte o)) o) by (unfold block_bit; by rewrite Hc, Z.eqb_refl).
  fold (char_bit (znth nul (bitmap v) (bitmap_byte o)) o). rewrite Eb. fold (set_bit (bitmap v) o).
  unfold marked. destruct (char_bit (znth nul (bitmap v) (bitmap_byte o)) o); cbn [Bool.eqb negb]; rewrite ?orb_false_r, ?orb_true_r; do 2 f_equal; by destruct v.
Qed.

Lemma marked_bit v f d o i off j oj o' : inv v -> currblock v = i -> slot v i = Some off -> 0 <= i -> 0 <= j -> slot v j = Some oj ->
  0 <= o < blocksize v -> 0 <= o' < blocksize v ->
  (forall x, 0 <= x -> ~ (off + bitmap_size v <= x < off + bitmap_size v + blocksize v) -> raw f x = raw (file v) x) ->
  block_bit (marked v f d o) j oj o' = ((j =? i) && (sector o =? sector o')) || block_bit v j oj o'.
Proof.
  intros I Hc E Hi Hj Ej Ho Ho' Hf. destruct (bms_spec v I) as (Hb0 & _ & Hb). pose proof (Hb o Ho). pose proof (Hb o' Ho').
  destruct (i_bms v I) as [_ Hl]. unfold block_bit, marked; vcbn. rewrite Hc. destruct (Z.eqb_spec i j) as [<-|Hij].
  - rewrite Z.eqb_refl, set_bit_spec by lia. done.
  - rewrite (proj2 (Z.eqb_neq j i)) by congruence. cbn [andb orb].
    pose proof (slot_bounds v j oj I Hj Ej). pose proof (slot_bounds v i off I Hi E).
    destruct (i_disjoint v I i j off oj Hi Hj Hij E Ej); rewrite Hf by lia; done.
Qed.

Lemma mark_spec v i off o want lo (src : Z -> char) f d :
  inv v -> currblock v = i -> 0 <= i -> slot v i = Some off -> read_only v = false ->
  0 <= o -> 0 < want -> o + want <= blocksize v -> o mod sector_size + want <= sector_size -> lo = i * blocksize v + o ->
  (parent v = None \/ want = sector_size) -> flen (file v) <= flen f < 2 ^ 63 ->
  (forall x, 0 <= x -> raw f x = if (off + bitmap_size v + o <=? x) && (x <? off + bitmap_size v + o + want)
     then src (x - (off + bitmap_size v + o) + lo) else raw (file v) x) ->
  inv (marked v f d o) /\ forall x, 0 <= x -> disk (marked v f d o) x = if (lo <=? x) && (x <? lo + want) then src x else disk v x.
Proof.
  intros I Hc Hi E Hro Ho Hw Hend Hsec -> Hpar Hfl Hf. pose proof (slot_bounds v i off I Hi E) as Hsl. destruct (i_block v I) as [Hbs _].
  assert (Hf0 : forall x, 0 <= x -> ~ (off + bitmap_size v <= x < off + bitmap_size v + blocksize v) -> raw f x = raw (file v) x)
    by (intros x Hx Hout; rewrite Hf by done; by rewrite not_between by lia).
  assert (Hbit := fun j oj o' Hj Ej Ho' => marked_bit v f d o i off j oj o' I Hc E Hi Hj Ej ltac:(lia) Ho' Hf0).
  assert (Hother : forall j oj o', 0 <= j -> slot v j = Some oj -> j <> i -> 0 <= o' < blocksize v ->
    raw f (oj + bitmap_size v + o') = raw (file v) (oj + bitmap_size v + o')).
  { intros j oj o' Hj Ej Hne Ho'. pose proof (slot_bounds v j oj I Hj Ej).
    destruct (i_disjoint v I j i oj off Hj Hi Hne Ej E); apply Hf0; lia. }
  assert (Hsame : forall o', 0 <= o' < blocksize v -> sector o <> sector o' -> ~ (o <= o' < o + want)).
  { intros o' Ho' Hne Hin. apply Hne. replace o' with (o + (o' - o)) by lia. symmetry. apply same_sector; lia. }
  split.
  - constructor; try (by destruct I); change (slot (marked v f d o)) with (slot v); unfold marked; vcbn.
    + split; [apply (i_bms v I)|]. unfold set_bit. rewrite zlen_zset. apply (i_bms v I).
    + intros j oj Hj Ej. pose proof (i_slots v I j oj Hj Ej). unfold bat_end in *; vcbn. lia.
    + intros j oj o' Hj Ej Ho' Hb. change (block_bit (marked v f d o) j oj o' = false) in Hb. rewrite Hbit in Hb by done.
      apply orb_false_iff in Hb as [Hb1 Hb2]. destruct (Z.eqb_spec j i) as [Eji|Hne].
      * cbn [andb] in Hb1. apply Z.eqb_neq in Hb1. assert (oj = off) as -> by (change (slot v j = Some oj) in Ej; congruence). specialize (Hsame o' Ho' Hb1).
        rewrite Hf, not_between by lia. by apply (i_zero v I j off o').
      * rewrite (Hother j) by done. by apply (i_zero v I j oj o').
    + lia.
    + intros x Hx. rewrite Hf0 by lia. by apply (i_tail v I).
    + destruct (i_curr v I) as [[? _]|?]; [|by right]. destruct (i_bat v I) as (_ & ? & _). exfalso. lia.
    + congruence.
  - intros x Hx. destruct (disk_pos v x I Hx) as [Hj Ho']. pose proof (Z.div_mod x (blocksize v)) as Hdm. unfold disk.
    change (blocksize (marked v f d o)) with (blocksize v). change (slot (marked v f d o)) with (slot v).
    change (bitmap_size (marked v f d o)) with (bitmap_size v). change (file (marked v f d o)) with f. change (parent_byte (marked v f d o)) with (parent_byte v).
    set (j := x / blocksize v) in *. set (o' := x mod blocksize v) in *.
    destruct (slot v j) as [oj|] eqn:Ej.
    + rewrite Hbit by done. destruct (Z.eqb_spec j i) as [Eji|Hne].
      * assert (oj = off) as -> by congruence. rewrite <- Eji. rewrite <- Eji in Hf. cbn [andb]. destruct (Z.eqb_spec (sector o) (sector o')) as [Es|Es]; cbn [orb].
        -- rewrite Hf by lia. destruct (decide (o <= o' < o + want)).
           ++ rewrite !between by lia. f_equal. lia.
           ++ rewrite !not_between by lia. destruct (block_bit v j off o') eqn:Eb; [done|]. destruct Hpar as [Hp|Hp].
              ** unfold parent_byte. rewrite Hp. by apply (i_zero v I j off o').
              ** exfalso. unfold sector, sector_size in *. pose proof (Z.div_mod o 512). pose proof (Z.div_mod o' 512).
                 pose proof (Z.mod_pos_bound o 512). pose proof (Z.mod_pos_bound o' 512). lia.
        -- specialize (Hsame o' Ho' Es). rewrite (not_between (j * blocksize v + o)) by lia.
           destruct (block_bit v j off o'); [|done]. rewrite Hf by lia. by rewrite not_between by lia.
      * cbn [andb orb]. rewrite not_between by nia. destruct (block_bit v j oj o'); [|done]. by apply (Hother j).
    + rewrite not_between; [done|]. intros Hin. assert (j = i) by nia. congruence.
Qed.

(** ** The loops over sectors *)

(** The disk of [v'] has [src] from [lo] to [hi] and is the disk of [v] elsewhere. *)
Definition overwritten v (lo hi : Z) (src : Z -> char) v' : Prop :=
  forall x, 0 <= x -> disk v' x = if (lo <=? x) && (x <? hi) then src x else disk v x.
Lemma overwritten_trans v lo mid hi src v1 v2 : lo <= mid <= hi ->
  overwritten v lo mid src v1 -> overwritten v1 mid hi src v2 -> overwritten v lo hi src v2.
Proof.
  intros Hm A B x Hx. rewrite B, A by done.
  destruct (Z.leb_spec mid x), (Z.ltb_spec x hi), (Z.leb_spec lo x), (Z.ltb_spec x mid); cbn [andb]; done || lia.
Qed.

(** The state inside of the loops: the bitmap is only saved in fast mode. *)
Definition ready v : Prop := inv v /\ read_only v = false /\ (fast_mode v = true -> saved v).
(** What the loops leave alone. *)
Definition kept v v' : Prop := statics v' = statics v /\ parent v' = parent v /\ curr_offset v' = curr_offset v.
Definition placed v v' : Prop :=
  bat v' = bat v /\ nextblock_offset v' = nextblock_offset v /\ currblock v' = currblock v /\ leaves v (file v') /\
  flen (file v) <= flen (file v') <= Z.max (flen (file v)) (nextblock_offset v).
Lemma kept_refl v : kept v v.
Proof. done. Qed.
Lemma kept_trans v1 v2 v3 : kept v1 v2 -> kept v2 v3 -> kept v1 v3.
Proof. intros (A & B & C) (A' & B' & C'). split; [congruence|]. split; congruence. Qed.
Lemma placed_trans v1 v2 v3 : statics v2 = statics v1 -> placed v1 v2 -> placed v2 v3 -> placed v1 v3.
Proof.
  intros Hs (A & B & C & D & L) (A' & B' & C' & D' & L'). split; [congruence|]. split; [congruence|]. split; [congruence|]. split; [|lia].
  intros x Hx Ho. rewrite D' by (done || by apply (outside_eq v1)). by apply D.
Qed.

(** Whole sectors, unless there is no parent. *)
Definition aligned v c : Prop := parent v = None \/ (c_off c mod sector_size = 0 /\ c_todo c mod sector_size = 0).

(** The state at [c_off c] of the current block [i], which is at [off]. *)
Definition at_write v c (i off : Z) : Prop :=
  ready v /\ currblock v = i /\ 0 <= i /\ slot v i = Some off /\ in_block v c /\ aligned v c.

(** One round of a loop, and the next one. *)
Lemma marked_saved v i off o want f (src : Z -> char) : ready v -> currblock v = i -> 0 <= i -> slot v i = Some off ->
  0 <= o < blocksize v -> flen (file v) <= flen f ->
  (forall x, 0 <= x -> raw f x = if (off + bitmap_size v + o <=? x) && (x <? off + bitmap_size v + o + want)
     then src x else raw (file v) x) ->
  fast_mode v = true -> saved (marked v f (bitmap_dirty v || negb (block_bit v i off o)) o).
Proof.
  intros (I & Hro & Hs) Hc Hi E Ho Hl Hf Hfast. specialize (Hs Hfast). unfold saved, marked in *; vcbn.
  destruct (i_bms v I) as [_ Hbl]. destruct (bms_spec v I) as (_ & _ & Hb). specialize (Hb o Ho).
  assert (Eb : block_bit v i off o = char_bit (znth nul (bitmap v) (bitmap_byte o)) o) by (unfold block_bit; by rewrite Hc, Z.eqb_refl).
  destruct Hs as [Hs|[[_ Hs]|Hs]]; [by left|right; left; by rewrite Hs|]. destruct (block_bit v i off o); [|right; left; by rewrite orb_true_r].
  right. right. intros x Hx. rewrite set_bit_id by (done || lia).
  pose proof (slot_bounds v i off I Hi E) as Hsl. destruct (curr_slot v I) as [_ Ec]; [destruct (i_bat v I) as (_ & ? & _); lia|].
  rewrite Hc, E in Ec. injection Ec as ->. rewrite Hf, not_between by lia. by apply Hs.
Qed.

Lemma at_write_next v c i off want v' c' : at_write v c i off -> inv v' -> (fast_mode v = true -> saved v') -> kept v v' -> placed v v' ->
  c_off c' = c_off c + want -> c_remaining c' = c_remaining c - want -> c_todo c' = c_todo c - want ->
  0 < want -> want < c_todo c -> want < c_remaining c -> (c_off c + want) mod sector_size = 0 ->
  (c_off c mod sector_size = 0 -> c_todo c mod sector_size = 0 -> want = sector_size) -> at_write v' c' i off.
Proof.
  intros ((I & Hro & Hs) & Hc & Hi & E & (Ho & Hr & Hr0 & Ht & Hf) & Hal) I' Hs' (K1 & K2 & K3) (P1 & P2 & P3 & P4 & P5) C1 C2 C3 Hw Hwt Hwr Hmod Hsec.
  apply statics_eq in K1 as (S0 & S1 & S2 & S3 & S4 & _). split; [split; [done|]; rewrite S0, S1; done|]. split; [congruence|]. split; [done|].
  split; [by rewrite (slot_eq v v')|]. split.
  - unfold in_block. rewrite S3. repeat (split; [lia|]). right. by rewrite C1.
  - destruct Hal as [?|[Ha Hb]]; [left; congruence|]. right. specialize (Hsec Ha Hb). subst want. unfold sector_size in *. rewrite C1, C3. split; [done|].
    pose proof (Z.div_mod (c_todo c) 512). apply Z.mod_divide; [lia|]. exists (c_todo c / 512 - 1). lia.
Qed.

(** The result of a loop over the sectors of a block. *)
Record wrote v c (i : Z) (src : Z -> char) v' c' : Prop := {
  w_inv : inv v';
  w_saved : fast_mode v = true -> saved v';
  w_disk : overwritten v (i * blocksize v + c_off c) (i * blocksize v + c_off c + Z.min (c_todo c) (c_remaining c)) src v';
  w_kept : kept v v';
  w_placed : placed v v';
  w_len : flen (file v) <= flen (file v');
  w_cursor : c_todo c' = c_todo c - Z.min (c_todo c) (c_remaining c) /\ c_done c' = c_done c + Z.min (c_todo c) (c_remaining c) /\ c_buf c' = c_buf c }.

Lemma wrote_trans v c i src v1 c1 v2 c2 want : wrote v1 c1 i src v2 c2 -> inv v1 -> (fast_mode v = true -> saved v1) ->
  overwritten v (i * blocksize v + c_off c) (i * blocksize v + c_off c + want) src v1 -> kept v v1 -> placed v v1 -> flen (file v) <= flen (file v1) ->
  c_off c1 = c_off c + want -> c_remaining c1 = c_remaining c - want -> c_todo c1 = c_todo c - want -> c_done c1 = c_done c + want -> c_buf c1 = c_buf c ->
  0 < want -> want < c_todo c -> want < c_remaining c -> wrote v c i src v2 c2.
Proof.
  intros [I2 S2 D2 K2 P2 L2 (T2 & N2 & B2)] I1 S1 D1 K1 P1 L1 C1 C2 C3 C4 C5 Hw Hwt Hwr. pose proof K1 as (Ks & _).
  apply statics_eq in Ks as (_ & Sf & _ & Sb & _). constructor; try done.
  - intros Hf. apply S2. congruence.
  - rewrite C1, Sb in D2. replace (i * blocksize v + c_off c + Z.min (c_todo c) (c_remaining c))
      with (i * blocksize v + (c_off c + want) + Z.min (c_todo c1) (c_remaining c1)) by lia.
    eapply overwritten_trans; [|exact D1|]; [lia|]. by rewrite Z.add_assoc in *.
  - by eapply kept_trans.
  - apply (placed_trans v v1); [apply K1|done|done].
  - lia.
  - rewrite T2, N2, B2. split; [lia|]. split; [lia|done].
Qed.

(** One round: [f] is the file after it. *)
Lemma round_spec v c i off want (src : Z -> char) f : at_write v c i off ->
  flen (file v) <= flen f <= Z.max (flen (file v)) (nextblock_offset v) ->
  0 < want <= Z.min (c_todo c) (c_remaining c) -> c_off c mod sector_size + want <= sector_size ->
  (c_off c mod sector_size = 0 -> c_todo c mod sector_size = 0 -> want = sector_size) ->
  (forall x, 0 <= x -> raw f x = if (off + bitmap_size v + c_off c <=? x) && (x <? off + bitmap_size v + c_off c + want)
     then src (x - (off + bitmap_size v + c_off c) + (i * blocksize v + c_off c)) else raw (file v) x) ->
  let v' := marked v f (bitmap_dirty v || negb (block_bit v i off (c_off c))) (c_off c) in
  inv v' /\ (fast_mode v = true -> saved v') /\
  overwritten v (i * blocksize v + c_off c) (i * blocksize v + c_off c + want) src v' /\ kept v v' /\ placed v v'.
Proof.
  intros (Hrd & Hc & Hi & E & (Ho & Hr & Hr0 & Ht & Hf) & Hal) Hl Hw Hsec Hfull Hraw v'. pose proof Hrd as (I & Hro & Hs).
  pose proof (i_len v I). destruct (i_next v I) as [Hnx _].
  destruct (mark_spec v i off (c_off c) want (i * blocksize v + c_off c) src f (bitmap_dirty v || negb (block_bit v i off (c_off c)))) as [I' D'];
    try done; try lia.
  { destruct Hal as [?|[Ha Hb]]; [by left|]. right. by apply Hfull. }
  assert (Lv : leaves v f).
  { pose proof (slot_bounds v i off I Hi E). apply (leaves_within v f i off); [done|done|]. intros y Hy Hyo. by rewrite Hraw, not_between by lia. }
  split; [done|]. split; [|split; [done|split; [done|do 4 (split; [done|]); exact Hl]]].
  intros Hfast. eapply (marked_saved v i off (c_off c) want f (fun x => src (x - (off + bitmap_size v + c_off c) + (i * blocksize v + c_off c))));
    try done; lia.
Qed.

Lemma write_sectors_spec rounds (src : Z -> char) : forall v c i off, at_write v c i off -> fpos (file v) = off + bitmap_size v + c_off c ->
  0 <= c_done c -> c_done c + c_todo c <= zlen (c_buf c) ->
  (forall k, 0 <= k < c_todo c -> znth nul (c_buf c) (c_done c + k) = src (i * blocksize v + c_off c + k)) ->
  (Z.to_nat (c_todo c) < rounds)%nat ->
  exists v' c', write_sectors rounds c v = Ran (true, c', v') /\ wrote v c i src v' c'.
Proof.
  induction rounds as [|n IH]; intros v c i off A Hp Hd Hlen Hsrc Hk; [lia|].
  pose proof A as ((I & Hro & Hs) & Hc & Hi & E & Hin & Hal). pose proof Hin as (Ho & Hr & Hr0 & Ht & Hf).
  destruct (i_block v I) as [Hbs _]. pose proof (slot_bounds v i off I Hi E) as Hsl. destruct (i_next v I) as [Hnx _]. pose proof (i_len v I) as Hln.
  cbn [write_sectors]. rewrite (proj2 (Z.ltb_lt (c_off c) (blocksize v))) by lia.
  destruct (sector_part_spec v c I Hin) as (want & -> & Hw & Hw5 & Hsec & Hend & Hfull). cbn [c_off c_todo c_remaining c_done c_buf].
  rewrite w32_id by lia. rewrite (setBitmapBit_spec v i off) by (done || lia).
  set (d := bitmap_dirty v || negb (block_bit v i off (c_off c))).
  destruct (file_Write_spec (zsub (c_done c) want (c_buf c)) (marked v (file v) d (c_off c))) as (f & -> & Hpf & Hlf & Hrf).
  change (file (marked v (file v) d (c_off c))) with (file v) in *. rewrite Hp in *. rewrite zlen_zsub in * by lia. rewrite Z.eqb_refl. cbn [negb].
  change (with_file f (marked v (file v) d (c_off c))) with (marked v f d (c_off c)).
  destruct (round_spec v c i off want src f A) as (I1 & S1 & D1 & K1 & P1); [lia|lia|done|done| |].
  { intros x Hx. rewrite Hrf by done. destruct (decide (off + bitmap_size v + c_off c <= x < off + bitmap_size v + c_off c + want)); [|by rewrite !not_between].
    rewrite !between by done. rewrite znth_zsub by lia. rewrite Hsrc by lia. f_equal. lia. }
  set (v1 := marked v f d (c_off c)) in *. set (c1 := advance want _).
  assert (Hlast : want = Z.min (c_todo c) (c_remaining c) -> wrote v c i src v1 c1).
  { intros ->. constructor; try done. change (file v1) with f. lia. }
  cbn [c_todo c_remaining c1 advance].
  destruct (Z.eqb_spec (c_todo c - want) 0) as [Hz|Hz]; [|destruct (Z.eqb_spec (c_remaining c - want) 0) as [Hz'|Hz']]; cbn [orb];
    [exists v1, c1; split; [done|apply Hlast; lia]..|].
  assert (A1 : at_write v1 c1 i off) by (apply (at_write_next v c i off want); try done; lia).
  destruct (IH v1 c1 i off A1) as (v2 & c2 & E2 & W2); cbn [c1 advance c_off c_todo c_remaining c_done c_buf]; try lia.
  - change (file v1) with f. change (bitmap_size v1) with (bitmap_size v). lia.
  - intros k Hkk. change (blocksize v1) with (blocksize v). replace (c_done c + want + k) with (c_done c + (want + k)) by lia.
    rewrite Hsrc by lia. f_equal. lia.
  - exists v2, c2. split; [exact E2|]. eapply (wrote_trans v c i src v1 c1 v2 c2 want); try done; try lia. change (file v1) with f. lia.
Qed.

Lemma unused_sectors_spec rounds : forall v c i off, at_write v c i off -> (Z.to_nat (c_todo c) < rounds)%nat ->
  exists v' c', unused_sectors rounds off c v = Ran (true, c', v') /\ wrote v c i (fun _ => nul) v' c'.
Proof.
  induction rounds as [|n IH]; intros v c i off A Hk; [lia|].
  pose proof A as ((I & Hro & Hs) & Hc & Hi & E & Hin & Hal). pose proof Hin as (Ho & Hr & Hr0 & Ht & Hf).
  destruct (i_block v I) as [Hbs _]. pose proof (slot_bounds v i off I Hi E) as Hsl. destruct (i_next v I) as [Hnx _]. pose proof (i_len v I) as Hln.
  cbn [unused_sectors]. rewrite (proj2 (Z.ltb_lt (c_off c) (blocksize v))) by lia.
  destruct (sector_part_spec v c I Hin) as (want & -> & Hw & Hw5 & Hsec & Hend & Hfull). cbn [c_off c_todo c_remaining c_done c_buf].
  rewrite w32_id by lia. rewrite (setBitmapBit_spec v i off) by (done || lia).
  set (d := bitmap_dirty v || negb (block_bit v i off (c_off c))).
  assert (Hstep : exists f, (if negb (block_bit v i off (c_off c)) then (true, marked v (file v) d (c_off c))
      else write_at (off + bitmap_size (marked v (file v) d (c_off c)) + c_off c) (zeros want) (marked v (file v) d (c_off c))) = (true, marked v f d (c_off c)) /\
      flen (file v) <= flen f <= Z.max (flen (file v)) (nextblock_offset v) /\
      forall x, 0 <= x -> raw f x = if (off + bitmap_size v + c_off c <=? x) && (x <? off + bitmap_size v + c_off c + want) then nul else raw (file v) x).
  { change (bitmap_size (marked v (file v) d (c_off c))) with (bitmap_size v). destruct (block_bit v i off (c_off c)) eqn:Eb; cbn [negb].
    - destruct (write_at_spec (off + bitmap_size v + c_off c) (zeros want) (marked v (file v) d (c_off c))) as (f & -> & _ & Hlf & Hrf); [lia|].
      change (file (marked v (file v) d (c_off c))) with (file v) in *. rewrite zlen_vzeros in * by lia. exists f. split; [done|]. split; [lia|].
      intros x Hx. rewrite Hrf by done. by rewrite znth_zeros.
    - exists (file v). split; [done|]. split; [lia|]. intros x Hx.
      destruct (decide (off + bitmap_size v + c_off c <= x < off + bitmap_size v + c_off c + want)) as [Hx'|]; [|by rewrite not_between].
      rewrite between by done. replace x with (off + bitmap_size v + (c_off c + (x - (off + bitmap_size v + c_off c)))) by lia.
      apply (i_zero v I i off); [done|done|lia|]. rewrite <- Eb. apply block_bit_sector, same_sector; lia. }
  destruct Hstep as (f & -> & Hlf & Hrf). cbn [negb].
  destruct (round_spec v c i off want (fun _ => nul) f A) as (I1 & S1 & D1 & K1 & P1); [lia|lia|done|done|done|].
  set (v1 := marked v f d (c_off c)) in *. set (c1 := advance want _).
  assert (Hlast : want = Z.min (c_todo c) (c_remaining c) -> wrote v c i (fun _ => nul) v1 c1).
  { intros ->. constructor; try done. change (file v1) with f. lia. }
  cbn [c_todo c_remaining c1 advance].
  destruct (Z.eqb_spec (c_todo c - want) 0) as [Hz|Hz]; [|destruct (Z.eqb_spec (c_remaining c - want) 0) as [Hz'|Hz']]; cbn [orb];
    [exists v1, c1; split; [done|apply Hlast; lia]..|].
  assert (A1 : at_write v1 c1 i off) by (apply (at_write_next v c i off want); try done; lia).
  destruct (IH v1 c1 i off A1) as (v2 & c2 & E2 & W2); [cbn; lia|].
  exists v2, c2. split; [exact E2|]. eapply (wrote_trans v c i (fun _ => nul) v1 c1 v2 c2 want); try done; try lia. change (file v1) with f. lia.
Qed.
End Writing.

(** * New blocks, bitmaps on disk, header and table: the parts of writing around the data. *)

Section Alloc.
Context {F P : Type} `{FileLaws F} `{VHDParentLaws P}.
Notation t := (t (F := F) (P := P)).
Implicit Types (v : t) (c : cursor).

Lemma save_bitmap_spec v off : ready v -> currblock v <> no_block -> slot v (currblock v) = Some off ->
  exists v', save_bitmap off v = (true, v') /\ inv v' /\ saved v' /\ (forall x, 0 <= x -> disk v' x = disk v x) /\ kept v v' /\ placed v v' /\
    flen (file v) <= flen (file v').
Proof.
  intros (I & Hro & Hs) Hn E. unfold save_bitmap. destruct (fast_mode v) eqn:Ef; [exists v; split; [done|]; split; [done|]; split; [by apply Hs|]; split; [done|]; split; [done|]; split; [do 4 (split; [done|]); lia|lia]|].
  destruct (curr_slot v I Hn) as [Hc Ec]. rewrite E in Ec. injection Ec as Eo. pose proof (slot_bounds v _ off I (proj1 Hc) E) as Hsl.
  destruct (i_bms v I) as [_ Hbl]. destruct (i_next v I) as [Hnx _]. pose proof (i_len v I).
  destruct (file_Seek_spec off v) as (f1 & -> & Hc1 & Hp1); [lia|]. cbn [snd].
  destruct (file_Write_spec (bitmap (with_file f1 v)) (with_file f1 v)) as (f & -> & _ & Hl & Hr). vcbn.
  destruct (raw_contents (file v) f1 Hc1) as [Hr1 Hl1]. rewrite Hp1, Hl1, Hbl in *. rewrite Z.eqb_refl.
  exists (with_file f v). split; [done|].
  assert (Hout : forall x, 0 <= x -> ~ (bitmap_offset v <= x < bitmap_offset v + bitmap_size v) -> raw f x = raw (file v) x)
    by (intros x Hx Ho; rewrite Hr, Hr1, not_between by (done || lia); done).
  destruct (inv_file f v) as [I' D']; [done|by apply spares_bitmap|lia| | |].
  - intros j oj Hj Ej. pose proof (slot_bounds v j oj I Hj Ej). lia.
  - intros x Hx. rewrite Hout by lia. by apply (i_tail v I).
  - split; [done|]. split; [|split; [done|split; [done|split; [|cbn; lia]]]].
    2: { repeat split; [|cbn; lia..]. apply (leaves_within v f (currblock v) off); [lia|done|]. intros x Hx Hxo. apply Hout; lia. }
    right. right. vcbn. intros x Hx.
    rewrite Hr, between by lia. f_equal. lia.
Qed.

(** ** New blocks *)

Lemma switch_bat o b n v : switchBitmap o (with_bat b (with_nextblock n v)) = with_bat b (with_nextblock n (switchBitmap o v)).
Proof.
  unfold switchBitmap, file_Seek, file_Write; vcbn. destruct (_ && _ && _ && _); [|done].
  destruct (MemFile.Seek (file v) (bitmap_offset v)) as [? f]; cbn [snd]; vcbn. destruct (MemFile.Write f (bitmap v)) as [[? ?] ?]. done.
Qed.

(** The block [i] is new at [off], the table is [b] and the next block comes at [nx]. *)
Definition with_new v (f : F) (i off : Z) (b : list Z) (nx : Z) : t :=
  with_currblock i (with_bitmap (zeros (bitmap_size v)) (with_dirty off false (with_file f (with_bat b (with_nextblock nx v))))).

(** Room for one more block, by its place in the table. *)
Definition room v (n : Z) : Prop := nextblock_offset v + n * (blocksize v + bitmap_size v + 512) <= UINT_MAX * sector_size.

Definition new_table v (i : Z) : list Z := zset (bat v) i (big_endian (w32 (nextblock_offset v / sector_size))).
Definition new_next v : Z := next_sector (w64 (nextblock_offset v + (blocksize v + bitmap_size v))).

Lemma next_pos v : inv v -> 0 < nextblock_offset v.
Proof.
  intros I. destruct (i_next v I) as [Hn _]. destruct (i_bat v I) as (Eb & _ & _ & Hb). pose proof (zlen_nonneg (bat v)). unfold bat_end in Hn. lia.
Qed.

Lemma new_slot v f i j nx : inv v -> 0 <= i < batsize v -> 0 <= j -> nextblock_offset v / sector_size < UINT_MAX ->
  slot (with_new v f i (nextblock_offset v) (new_table v i) nx) j = if j =? i then Some (nextblock_offset v) else slot v j.
Proof.
  intros I Hi Hj Hroom. destruct (i_bat v I) as (Eb & Hn & Hall & _). destruct (i_next v I) as [Hnx Hm]. unfold slot, bat_entry, with_new, new_table, zset; vcbn.
  assert (Hq : 0 <= nextblock_offset v / sector_size) by (apply Z.div_pos; [destruct (i_bat v I) as (_ & _ & _ & ?); unfold bat_end in Hnx; pose proof (zlen_nonneg (bat v)); lia|done]).
  unfold UINT_MAX in *. destruct (Z.eqb_spec j i) as [->|Hne].
  - rewrite list_lookup_insert_eq by (unfold zlen in *; lia). cbn. rewrite w32_id, big_endian_involutive by lia.
    rewrite (proj2 (Z.eqb_neq _ _)) by (unfold no_block; lia). f_equal. pose proof (Z.div_mod (nextblock_offset v) sector_size ltac:(done)). lia.
  - by rewrite list_lookup_insert_ne by lia.
Qed.
Lemma new_table_ok v i : inv v -> zlen (new_table v i) = batsize v /\ Forall (fun e => 0 <= e < 2 ^ 32) (new_table v i).
Proof.
  intros I. destruct (i_bat v I) as (Eb & _ & Hall & _). unfold new_table. rewrite zlen_zset. split; [done|].
  unfold zset. apply Forall_insert; [done|]. apply big_endian_range, w32_range.
Qed.

(** The disk of an image that has the block [i] more, without any of its sectors. *)
Lemma disk_added v w i off x : blocksize w = blocksize v -> bitmap_size w = bitmap_size v -> parent w = parent v -> slot v i = None ->
  slot w (x / blocksize v) = (if x / blocksize v =? i then Some off else slot v (x / blocksize v)) ->
  (x / blocksize v = i -> block_bit w i off (x mod blocksize v) = false) ->
  (forall oj, x / blocksize v <> i -> slot v (x / blocksize v) = Some oj ->
    block_bit w (x / blocksize v) oj (x mod blocksize v) = block_bit v (x / blocksize v) oj (x mod blocksize v) /\
    raw (file w) (oj + bitmap_size v + x mod blocksize v) = raw (file v) (oj + bitmap_size v + x mod blocksize v)) ->
  disk w x = disk v x.
Proof.
  intros Eb Em Ep E Hw Hi Hother. unfold disk, parent_byte. rewrite Eb, Em, Ep, Hw. destruct (Z.eqb_spec (x / blocksize v) i) as [Ej|Hne].
  - by rewrite Ej, E, Hi.
  - destruct (slot v (x / blocksize v)) as [oj|]; [|done]. by destruct (Hother oj Hne eq_refl) as [-> ->].
Qed.

(** The invariant for any table that has the new block. *)
Section New.
Context (v : t) (f : F) (i nx : Z) (b : list Z).
Notation off := (nextblock_offset v).
Notation v' := (with_new v f i off b nx).
Context (I : inv v) (Hi : 0 <= i < batsize v) (E : slot v i = None).
Context (Hb : zlen b = batsize v /\ Forall (fun e => 0 <= e < 2 ^ 32) b).
Context (Hslot : forall j, 0 <= j -> slot v' j = if j =? i then Some off else slot v j).
Context (Hnx : off + blocksize v + bitmap_size v <= nx < 2 ^ 62 /\ nx mod sector_size = 0).
Context (f0 : F) (Hsp : spares v f0) (Hfl : flushed v f0) (Ht : forall x, off + 512 <= x -> raw f0 x = nul).
Context (Hlen : Z.max (flen (file v)) (off + bitmap_size v) = flen f).
Context (Hraw : forall x, 0 <= x -> ~ (off <= x < off + bitmap_size v) -> raw f x = raw f0 x).
Context (Hzero : forall x, off <= x < off + bitmap_size v -> raw f x = nul).

Lemma new_old j oj : 0 <= j -> slot v j = Some oj -> oj + bitmap_size v + blocksize v <= off /\ 0 <= oj.
Proof. intros Hj Ej. pose proof (slot_bounds v j oj I Hj Ej). lia. Qed.
Lemma new_data j oj o : 0 <= j -> slot v j = Some oj -> 0 <= o < blocksize v ->
  raw f (oj + bitmap_size v + o) = raw (file v) (oj + bitmap_size v + o).
Proof.
  intros Hj Ej Ho. destruct (new_old j oj Hj Ej). destruct (bms_spec v I) as (Hbm & _). rewrite Hraw by lia. by apply spares_data with j.
Qed.
Lemma new_bit j oj o : 0 <= j -> j <> i -> slot v j = Some oj -> 0 <= o < blocksize v -> block_bit v' j oj o = block_bit v j oj o.
Proof.
  intros Hj Hji Ej Ho. destruct (bms_spec v I) as (Hbm & _ & Hbyte). specialize (Hbyte o Ho). destruct (new_old j oj Hj Ej).
  pose proof (slot_bounds v j oj I Hj Ej) as Hsl. destruct (i_bat v I) as (_ & Hn & _). unfold no_block in *. unfold block_bit, with_new; vcbn.
  rewrite (proj2 (Z.eqb_neq i j)) by congruence. rewrite Hraw by lia. destruct (Z.eqb_spec (currblock v) j) as [Hc|Hc].
  - destruct Hfl as [Hf|Hf]; [unfold no_block in *; lia|].
    destruct (curr_slot v I) as [_ Ec]; [unfold no_block; lia|]. rewrite Hc, Ej in Ec. injection Ec as ->. by rewrite Hf.
  - destruct (Hsp j oj (bitmap_byte o) Hj Ej) as [[? _]|R]; [lia|congruence|by rewrite R].
Qed.
Lemma new_bit_i o : block_bit v' i off o = false.
Proof. unfold block_bit, with_new; vcbn. by rewrite Z.eqb_refl, znth_zeros, char_bit_nul. Qed.

Lemma new_inv : inv v'.
Proof.
  destruct (i_next v I) as [Hnxt _]. destruct (bms_spec v I) as (Hbm & _ & _). destruct (i_block v I) as [Hbs _]. pose proof (i_len v I).
  pose proof (next_pos v I). constructor.
  - apply (i_block v I).
  - split; [apply (i_bms v I)|]. unfold with_new; vcbn. apply zlen_vzeros. lia.
  - apply (i_size v I).
  - destruct (i_bat v I) as (_ & ? & _ & ?). destruct Hb. done.
  - unfold bat_end in *. unfold with_new; vcbn. lia.
  - intros j oj Hj Ej. rewrite Hslot in Ej by done. unfold bat_end in *. unfold with_new; vcbn.
    destruct (Z.eqb_spec j i) as [->|Hji]; [injection Ej as <-; lia|]. pose proof (slot_bounds v j oj I Hj Ej). lia.
  - intros j k oj ok Hj Hk Hjk Ej Ek. rewrite Hslot in Ej, Ek by done. unfold with_new; vcbn.
    destruct (Z.eqb_spec j i) as [->|Hji], (Z.eqb_spec k i) as [->|Hki]; [congruence|..].
    + injection Ej as <-. right. by destruct (new_old k ok Hk Ek).
    + injection Ek as <-. left. by destruct (new_old j oj Hj Ej).
    + by apply (i_disjoint v I j k).
  - intros j oj o Hj Ej Ho Hbit. rewrite Hslot in Ej by done. unfold with_new in Ho; vcbn. unfold with_new at 1 2; vcbn.
    destruct (Z.eqb_spec j i) as [->|Hji].
    + injection Ej as <-. rewrite Hraw by lia. apply Ht. lia.
    + rewrite new_bit in Hbit by done. rewrite (new_data j oj o) by done. by apply (i_zero v I j oj o).
  - unfold with_new; vcbn. lia.
  - unfold with_new; vcbn. intros x Hx. rewrite Hraw by lia. apply Ht. lia.
  - right. split; [done|]. change (currblock v') with i. rewrite Hslot, Z.eqb_refl by lia. done.
  - done.
  - apply (i_footer v I).
  - apply (i_parent v I).
Qed.
Lemma new_saved : saved v'.
Proof. right. right. unfold with_new; vcbn. intros x Hx. rewrite znth_zeros. apply Hzero. lia. Qed.
Lemma new_disk x : 0 <= x -> disk v' x = disk v x.
Proof.
  intros Hx. destruct (disk_pos v x I Hx) as [Hj Ho]. apply (disk_added v v' i off x); [done|done|done|done|by apply Hslot|..].
  - intros _. apply new_bit_i.
  - intros oj Hne Ej. split; [by apply new_bit|by apply (new_data (x / blocksize v) oj)].
Qed.
End New.

Lemma new_block_spec v i : inv v -> saved v -> 0 <= i < batsize v -> slot v i = None -> room v 1 ->
  exists f, (forall chk, alloc_block chk i v = (Some (nextblock_offset v), with_bat (new_table v i) (with_nextblock (new_next v) v))) /\
    let v' := with_new v f i (nextblock_offset v) (new_table v i) (new_next v) in
    write_bitmap_of i (nextblock_offset v) true (with_bat (new_table v i) (with_nextblock (new_next v) v)) = (true, v') /\
    inv v' /\ saved v' /\ (forall x, 0 <= x -> disk v' x = disk v x) /\
    flen (file v) <= flen f /\ nextblock_offset v <= new_next v <= nextblock_offset v + (blocksize v + bitmap_size v + 512) /\
    (forall j, 0 <= j -> slot v' j = if j =? i then Some (nextblock_offset v) else slot v j) /\
    forall x, 0 <= x < nextblock_offset v -> outside v x -> raw f x = raw (file v) x.
Proof.
  intros I Hs Hi E Hroom. unfold room in Hroom. destruct (i_bat v I) as (Eb & Hn & Hall & Hb0). destruct (i_next v I) as [Hnx Hm].
  destruct (i_block v I) as [Hbs _]. destruct (bms_spec v I) as (Hbm & _). pose proof (zlen_nonneg (bat v)). unfold bat_end, no_block in *.
  assert (Hq : nextblock_offset v / sector_size < UINT_MAX) by (apply Z.div_lt_upper_bound; [done|lia]).
  assert (Hne : currblock v <> i).
  { intros Hc. destruct (i_curr v I) as [[Ec _]|[_ Ec]]; [unfold no_block in *; lia|]. by rewrite Hc, E in Ec. }
  unfold UINT_MAX, sector_size in Hroom.
  destruct (next_sector_spec (nextblock_offset v + (blocksize v + bitmap_size v))) as [Hns Hnm]; [lia|].
  assert (Hnn : new_next v = next_sector (nextblock_offset v + (blocksize v + bitmap_size v))) by (unfold new_next; by rewrite w64_id by lia).
  rewrite <- Hnn in *. destruct (switch_spec (nextblock_offset v) v I Hs) as (f0 & Ef & Hsp & Hfl & Hl & Ht & Hlv).
  assert (Halloc : forall chk, alloc_block chk i v = (Some (nextblock_offset v), with_bat (new_table v i) (with_nextblock (new_next v) v)))
    by (intros chk; unfold alloc_block; unfold UINT_MAX in *; by rewrite (proj2 (Z.leb_gt _ _)), andb_false_r by lia).
  pose proof (fun f j Hj => new_slot v f i j (new_next v) I Hi Hj Hq) as Hslot. pose proof (new_table_ok v i I) as Htab.
  set (b' := new_table v i) in *. set (nx := new_next v) in *. clearbody b' nx.
  destruct (file_Seek_spec (nextblock_offset v) (with_bat b' (with_nextblock nx (with_dirty (nextblock_offset v) false (with_file f0 v))))) as (f1 & Es & Hc1 & Hp1); [lia|].
  destruct (file_Write_spec (zeros (bitmap_size v)) (with_bitmap (zeros (bitmap_size v))
    (with_file f1 (with_bat b' (with_nextblock nx (with_dirty (nextblock_offset v) false (with_file f0 v))))))) as (f & Ew & _ & Hlw & Hrw).
  vcbn. destruct (raw_contents f0 f1 Hc1) as [Hr1 Hl1]. rewrite Hp1, Hl1, zlen_vzeros in * by lia.
  assert (Hraw : forall x, 0 <= x -> ~ (nextblock_offset v <= x < nextblock_offset v + bitmap_size v) -> raw f x = raw f0 x)
    by (intros x Hx Ho; rewrite Hrw, Hr1, not_between by (done || lia); done).
  assert (Hzero : forall x, nextblock_offset v <= x < nextblock_offset v + bitmap_size v -> raw f x = nul)
    by (intros x Hx; rewrite Hrw, between by lia; apply znth_zeros).
  exists f. split; [done|]. cbn zeta. split; [|split; [|split; [|split; [|split; [lia|split; [lia|split; [exact (Hslot f)|]]]]]]].
  - unfold write_bitmap_of; vcbn. rewrite (proj2 (Z.eqb_neq _ _)) by done. rewrite switch_bat, Ef.
    rewrite Es. cbn [snd]. vcbn. rewrite Ew. by rewrite Z.eqb_refl.
  - apply (new_inv v f i nx b' I Hi) with f0; try done; try lia. exact (Hslot f).
  - by apply new_saved.
  - by apply (new_disk v f i nx b' I Hi E (Hslot f) f0).
  - intros x Hx Hout. rewrite Hraw by lia. apply Hlv; [lia|done].
Qed.
End Alloc.
