(* ===== verification/VhdTable.v ===== *)
(** Finding or making the place of a block, and writing the table and the footer. *)
From S2P Require Import Prelude MemFile VhdFormat VhdFile VhdSpec VhdSteps VhdRead VhdWrite.
Import VHDFile.

Lemma znth_zresize_nul n (l : bytes) x : 0 <= x < n -> znth nul (zresize nul n l) x = znth nul l x.
Proof.
  intros Hx. unfold zresize. destruct (Z.lt_ge_cases x (zlen l)).
  - rewrite znth_app_l by (rewrite zlen_ztake by lia; lia). by apply znth_ztake.
  - rewrite znth_app_r by (rewrite zlen_ztake by lia; lia). rewrite (znth_out l) by done. apply znth_zeros.
Qed.

Section Table.
Context {F P : Type} `{FileLaws F} `{VHDParentLaws P}.
Notation t := (t (F := F) (P := P)).
Implicit Types (v : t) (c : cursor).

(** ** What all operations that write keep *)

(** New blocks lie behind the others, and the headers stay. *)
Record extends v v' : Prop := {
  e_kept : kept v v';
  e_next : nextblock_offset v <= nextblock_offset v';
  e_slots : forall j oj, 0 <= j -> slot v' j = Some oj -> slot v j = Some oj \/ nextblock_offset v <= oj;
  e_out : forall x, 0 <= x < bat_offset v -> raw (file v') x = raw (file v) x;
  e_len : Z.min (flen (file v)) (nextblock_offset v) <= flen (file v') }.

Lemma outside_low v x : inv v -> x < bat_offset v -> outside v x.
Proof. intros I Hx j oj Hj Ej. pose proof (slot_bounds v j oj I Hj Ej). lia. Qed.
Lemma extends_same v v' : inv v -> kept v v' -> bat v' = bat v -> nextblock_offset v' = nextblock_offset v ->
  (forall x, 0 <= x < bat_offset v -> raw (file v') x = raw (file v) x) -> Z.min (flen (file v)) (nextblock_offset v) <= flen (file v') ->
  extends v v'.
Proof. intros I K Eb En Ho Hl. constructor; [done|lia| |done|done]. intros j oj Hj Ej. left. by rewrite <- (slot_eq v v'). Qed.
Lemma extends_placed v v' : inv v -> kept v v' -> placed v v' -> flen (file v) <= flen (file v') -> extends v v'.
Proof.
  intros I K (Eb & En & _ & L & _) Hl. apply extends_same; try done; [|lia]. intros x Hx. apply L; [lia|]. apply outside_low; [done|lia].
Qed.
Lemma extends_trans v1 v2 v3 : extends v1 v2 -> extends v2 v3 -> extends v1 v3.
Proof.
  intros [K1 N1 S1 O1 L1] [K2 N2 S2 O2 L2]. constructor; [by eapply kept_trans|lia| | |lia].
  - intros j oj Hj Ej. destruct (S2 j oj Hj Ej) as [E|?]; [by apply S1|right; lia].
  - intros x Hx. destruct K1 as (Ks & _). apply statics_eq in Ks as (_ & _ & _ & _ & _ & _ & Eb). rewrite O2 by lia. by apply O1.
Qed.
Lemma moved_extends v i v' : inv v -> moved_to v i v' -> extends v v' /\ bat v' = bat v /\ nextblock_offset v' = nextblock_offset v.
Proof.
  intros I [I' S D E L C Lv]. assert (Ef : kept v v' /\ bat v' = bat v /\ nextblock_offset v' = nextblock_offset v).
  { unfold frame in E. unfold kept. repeat split; congruence. }
  destruct Ef as (K & Eb & En). split; [|done]. apply extends_same; try done; [|lia].
  intros x Hx. apply Lv; [lia|]. apply outside_low; [done|lia].
Qed.

(** ** The place of a block *)

(** No block was added. *)
Definition same_places v v' : Prop := bat v' = bat v /\ nextblock_offset v' = nextblock_offset v /\ leaves v (file v') /\
  flen (file v) <= flen (file v') <= Z.max (flen (file v)) (nextblock_offset v).

(** [v'] has the block [i], at [off], as its current one, and the disk of [v].  [new]:
    whether the block was added. *)
Record placed_at v (i off : Z) (new : bool) v' : Prop := {
  pl_inv : inv v';
  pl_saved : saved v';
  pl_disk : forall x, 0 <= x -> disk v' x = disk v x;
  pl_extends : extends v v';
  pl_slot : slot v' i = Some off;
  pl_curr : currblock v' = i;
  pl_room : forall n, room v (n + 1) -> room v' n;
  pl_old : new = false -> same_places v v' }.

Lemma place_spec v chk i : inv v -> saved v -> 0 <= i < batsize v -> room v 1 ->
  exists off new v0 v', place_block chk i v = Some (Some off, new, v0) /\ write_bitmap_of i off new v0 = (true, v') /\ placed_at v i off new v'.
Proof.
  intros I Hs Hi Hroom. destruct (bat_entry_slot v i I Hi) as (e & Ee & Esl). unfold place_block. rewrite Ee. cbn [mbind option_bind].
  destruct (Z.eqb_spec e no_block) as [->|Hne].
  - destruct (new_block_spec v i I Hs Hi Esl Hroom) as (f & Ha & Hw & I' & S' & D' & Hl & Hnx & Hsl & Hout).
    rewrite Ha. eexists _, true, _, _. split; [done|]. split; [exact Hw|]. constructor; try done.
    + constructor; [done|exact (proj1 Hnx)| | |vcbn; change (file (with_new v f i (nextblock_offset v) (new_table v i) (new_next v))) with f; lia].
      2: { intros x Hx. destruct (i_next v I) as [Hnb _]. destruct (i_bat v I) as (Eb & _). pose proof (zlen_nonneg (bat v)). unfold bat_end in Hnb.
        apply Hout; [lia|]. apply outside_low; [done|lia]. }
      intros j oj Hj Ej. rewrite Hsl in Ej by done. destruct (j =? i); [|by left].
      right. injection Ej as <-. done.
    + by rewrite Hsl, Z.eqb_refl by lia.
    + intros n. unfold room. change (blocksize (with_new _ _ _ _ _ _)) with (blocksize v). change (bitmap_size (with_new _ _ _ _ _ _)) with (bitmap_size v).
      change (nextblock_offset (with_new _ _ _ _ _ _)) with (new_next v). lia.
  - destruct (load_for_write_spec v i (e * sector_size) I Hs (proj1 Hi) Esl) as (v' & Ew & M).
    eexists _, false, _, v'. split; [done|]. split; [exact Ew|]. destruct (moved_extends v i v' I M) as (X & Eb & En).
    pose proof (e_kept _ _ X) as (Ks & _ & _). apply statics_eq in Ks as (_ & _ & _ & Sb & Sm & _). destruct (bms_spec v I) as (Hbm & _). destruct (i_block v I) as [Hbs _].
    constructor; try apply M; try done.
    + by rewrite (slot_eq v v').
    + intros n. unfold room. rewrite En, Sb, Sm. lia.
    + intros _. split; [done|]. split; [done|]. split; [apply M|]. pose proof (m_len _ _ _ M). lia.
Qed.

(** ** The table and the footer *)

(** The file ends with the footer and has the table. *)
Record stored v : Prop := {
  st_bat : forall x, 0 <= x < 4 * batsize v -> raw (file v) (bat_offset v + x) = znth nul (bat_bytes (bat v)) x;
  st_footer : forall x, 0 <= x < 512 -> raw (file v) (nextblock_offset v + x) = znth nul (footer_bytes (footer v)) x;
  st_len : nextblock_offset v + 512 <= flen (file v) /\ (compressed v = false -> flen (file v) = nextblock_offset v + 512) }.

Lemma zlen_bat_bytes b : zlen (bat_bytes b) = 4 * zlen b.
Proof.
  unfold bat_bytes. induction b as [|e b IH]; [done|]. cbn [map concat]. rewrite zlen_app, IH, zlen_cons.
  replace (zlen (le_bytes 4 e)) with 4 by done. lia.
Qed.

Lemma write_footer_spec v : 0 < nextblock_offset v < 2 ^ 62 -> zlen (footer_bytes (footer v)) = 512 ->
  (forall x, nextblock_offset v + 512 <= x -> raw (file v) x = nul) -> exists f, write_footer v = (true, with_file f v) /\
  (forall x, 0 <= x < nextblock_offset v -> raw f x = raw (file v) x) /\
  (forall x, 0 <= x < 512 -> raw f (nextblock_offset v + x) = znth nul (footer_bytes (footer v)) x) /\
  (forall x, nextblock_offset v + 512 <= x -> raw f x = nul) /\
  nextblock_offset v + 512 <= flen f <= Z.max (flen (file v)) (nextblock_offset v + 512) /\ (compressed v = false -> flen f = nextblock_offset v + 512).
Proof.
  intros Hn Hfo Ht. unfold write_footer.
  destruct (write_at_spec (nextblock_offset v) (footer_bytes (footer v)) v) as (f & -> & _ & Hl & Hr); [lia|]. vcbn. rewrite Hfo in *.
  assert (R1 : forall x, 0 <= x < nextblock_offset v -> raw f x = raw (file v) x) by (intros x Hx; by rewrite Hr, not_between by lia).
  assert (R2 : forall x, 0 <= x < 512 -> raw f (nextblock_offset v + x) = znth nul (footer_bytes (footer v)) x)
    by (intros x Hx; rewrite Hr, between by lia; f_equal; lia).
  assert (R3 : forall x, nextblock_offset v + 512 <= x -> raw f x = nul)
    by (intros x Hx; rewrite Hr, not_between by lia; by apply Ht).
  rewrite size_law. fold (flen f). destruct (compressed v) eqn:Ec; cbn [negb andb]; [exists f; split; [done|]; repeat (split; [done|]); split; [lia|done]|].
  destruct (Z.eqb_spec (flen f) (nextblock_offset v + 512)); cbn [negb]; [exists f; split; [done|]; repeat (split; [done|]); split; [lia|done]|].
  destruct (resize_law f (nextblock_offset v + 512)) as (_ & Hc & _); [lia|]. set (f' := snd (Resize f (nextblock_offset v + 512))) in *.
  assert (Hl' : flen f' = nextblock_offset v + 512) by (unfold flen; rewrite Hc; apply zlen_zresize; lia).
  assert (R4 : forall x, 0 <= x -> raw f' x = raw f x).
  { intros x Hx. destruct (Z.lt_ge_cases x (nextblock_offset v + 512)).
    - unfold raw. rewrite Hc. apply znth_zresize_nul; lia.
    - rewrite R3 by done. unfold raw. apply znth_out. fold (flen f'). lia. }
  exists f'. split; [by destruct v|]. split; [intros x Hx; rewrite R4 by lia; by apply R1|]. split; [intros x Hx; rewrite R4 by lia; by apply R2|].
  split; [intros x Hx; rewrite R4 by lia; by apply R3|]. split; [lia|done].
Qed.

(** Changing the file outside of the blocks. *)
Lemma between_blocks v f : inv v -> saved v -> (forall x, bat_end v <= x < nextblock_offset v -> raw f x = raw (file v) x) ->
  (forall x, nextblock_offset v + 512 <= x -> raw f x = nul) -> nextblock_offset v <= flen f < 2 ^ 63 ->
  inv (with_file f v) /\ saved (with_file f v) /\ forall x, 0 <= x -> disk (with_file f v) x = disk v x.
Proof.
  intros I Hs Hr Ht Hl. destruct (inv_file f v I) as [I' D']; [|lia| |done|].
  - intros i off y Hi E Hy. right. pose proof (slot_bounds v i off I Hi E). apply Hr. unfold bat_end. lia.
  - intros i off Hi E. pose proof (slot_bounds v i off I Hi E). lia.
  - split; [done|]. split; [|done]. destruct Hs as [Hs|[Hs|Hs]]; [by left|by right; left|].
    destruct (decide (currblock v = no_block)) as [|Hn]; [by left|]. right. right. vcbn. intros x Hx.
    destruct (curr_slot v I Hn) as [Hc Ec]. pose proof (slot_bounds v _ _ I (proj1 Hc) Ec). rewrite Hr by (unfold bat_end; lia). by apply Hs.
Qed.

(** What [save_table] leaves. *)
Record tabled v v' : Prop := {
  tb_inv : inv v';
  tb_saved : saved v';
  tb_disk : forall x, 0 <= x -> disk v' x = disk v x;
  tb_extends : extends v v';
  tb_same : bat v' = bat v /\ nextblock_offset v' = nextblock_offset v }.

(** The footer and the table are written. *)
Lemma write_both v : 0 < bat_offset v -> bat_end v <= nextblock_offset v < 2 ^ 62 -> batsize v = zlen (bat v) -> zlen (footer_bytes (footer v)) = 512 ->
  (forall x, nextblock_offset v + 512 <= x -> raw (file v) x = nul) -> exists f,
  (let '(ok, v) := write_footer v in if negb ok then (false, v) else write_bat v) = (true, with_file f v) /\ stored (with_file f v) /\
  (forall x, 0 <= x < bat_offset v -> raw f x = raw (file v) x) /\ (forall x, bat_end v <= x < nextblock_offset v -> raw f x = raw (file v) x) /\
  (forall x, nextblock_offset v + 512 <= x -> raw f x = nul) /\ nextblock_offset v + 512 <= flen f <= Z.max (flen (file v)) (nextblock_offset v + 512).
Proof.
  intros Hb0 Hnx Eb Hfo Ht. pose proof (zlen_nonneg (bat v)). unfold bat_end in *.
  destruct (write_footer_spec v) as (f1 & -> & Ho1 & Hf1 & Ht1 & Hl1 & Hc1); [lia|done|done|]. cbn [negb]. unfold write_bat.
  destruct (write_at_spec (bat_offset v) (bat_bytes (bat v)) (with_file f1 v)) as (f & Ew & _ & Hl & Hr); [lia|]. vcbn. rewrite Ew.
  rewrite zlen_bat_bytes in *. exists f. split; [done|].
  assert (R : forall x, 0 <= x -> ~ (bat_offset v <= x < bat_offset v + 4 * zlen (bat v)) -> raw f x = raw f1 x)
    by (intros x Hx Ho; by rewrite Hr, not_between by lia).
  split; [constructor; vcbn|].
  - intros x Hx. rewrite Hr, between by lia. f_equal. lia.
  - intros x Hx. rewrite R by lia. by apply Hf1.
  - split; [lia|]. intros Hc. rewrite Hl, (Hc1 Hc). lia.
  - split; [intros x Hx; by rewrite R, Ho1 by lia|]. split; [intros x Hx; by rewrite R, Ho1 by lia|].
    split; [intros x Hx; rewrite R by lia; by apply Ht1|lia].
Qed.
Lemma write_both_spec v : inv v -> saved v -> exists v',
  (let '(ok, v) := write_footer v in if negb ok then (false, v) else write_bat v) = (true, v') /\ tabled v v' /\ stored v'.
Proof.
  intros I Hs. pose proof (i_len v I). destruct (i_next v I) as [Hnx _]. destruct (i_bat v I) as (Eb & _ & _ & Hb0).
  destruct (write_both v) as (f & E & St & Ho & Hm & Ht & Hl); try done; [apply (i_footer v I)|by apply (i_tail v I)|].
  exists (with_file f v). split; [done|]. destruct (between_blocks v f I Hs) as (I' & S' & D'); [done|done|lia|].
  split; [|done]. constructor; try done. apply extends_same; try done; vcbn. lia.
Qed.

Lemma save_table_spec v d : inv v -> saved v -> exists v', save_table d v = (true, v') /\ tabled v v' /\
  (if d && negb (fast_mode v) then stored v' else v' = v).
Proof.
  intros I Hs. unfold save_table. destruct (d && negb (fast_mode v)); [by apply write_both_spec|].
  exists v. split; [done|]. split; [|done]. constructor; try done. apply extends_same; try done. lia.
Qed.
End Table.

(** * The loops over the blocks of a range, and the calls around them. *)

Section Blocks.
Context {F P : Type} `{FileLaws F} `{VHDParentLaws P}.
Notation t := (t (F := F) (P := P)).
Implicit Types (v : t) (c : cursor).

(** The bytes from [lo] to [lo + n] are written; [new]: whether blocks were added. *)
Record wrote_blocks v (lo n : Z) (src : Z -> char) (new : bool) v' : Prop := {
  wb_inv : inv v';
  wb_saved : saved v';
  wb_disk : overwritten v lo (lo + n) src v';
  wb_extends : extends v v';
  wb_old : new = false -> same_places v v' }.

Lemma old_trans v1 v2 v3 : statics v2 = statics v1 -> same_places v1 v2 -> same_places v2 v3 -> same_places v1 v3.
Proof.
  intros Hs (A & B & C & D) (A' & B' & C' & D'). split; [congruence|]. split; [congruence|]. split; [|lia].
  intros x Hx Ho. rewrite C' by (done || by apply (outside_eq v1)). by apply C.
Qed.
Lemma wrote_blocks_trans v1 lo n m src d1 v2 d2 v3 : 0 <= n -> 0 <= m ->
  wrote_blocks v1 lo n src d1 v2 -> wrote_blocks v2 (lo + n) m src d2 v3 -> wrote_blocks v1 lo (n + m) src (d1 || d2) v3.
Proof.
  intros Hn Hm [I1 S1 D1 X1 O1] [I2 S2 D2 X2 O2]. constructor; [done|done| |by eapply extends_trans|].
  - rewrite Z.add_assoc. eapply overwritten_trans; [|exact D1|exact D2]. lia.
  - intros [Hd1 Hd2]%orb_false_iff. apply (old_trans v1 v2); [apply X1|by apply O1|by apply O2].
Qed.

Lemma placed_seek v i off new v1 f : placed_at v i off new v1 -> contents f = contents (file v1) -> placed_at v i off new (with_file f v1).
Proof.
  intros [I S D X E C R O] Hc. destruct (inv_same_file f v1 I Hc) as [I' D']. destruct (raw_contents _ _ Hc) as [Hr Hl].
  constructor; try done; vcbn.
  - unfold saved in *; vcbn. destruct S as [?|[?|S]]; [tauto|tauto|]. right. right. intros x Hx. rewrite Hr. by apply S.
  - intros x Hx. by rewrite D', D.
  - destruct X as [K N Sl Xo L]. constructor; try done; vcbn; [|lia]. intros x Hx. rewrite Hr. by apply Xo.
  - intros Hn. destruct (O Hn) as (Ob & On & Ol & Ole). split; [done|]. split; [done|]. split; [|vcbn; lia]. intros x Hx Ho. rewrite Hr. by apply Ol.
Qed.

(** A block is finished with its bitmap. *)
Lemma block_step v c i off new v1 src v2 c2 : inv v -> read_only v = false -> 0 <= i < no_block -> placed_at v i off new v1 -> in_block v c ->
  wrote v1 c i src v2 c2 ->
  exists v3, save_bitmap off v2 = (true, v3) /\
    wrote_blocks v (i * blocksize v + c_off c) (Z.min (c_todo c) (c_remaining c)) src new v3 /\ forall n, room v (n + 1) -> room v3 n.
Proof.
  intros I Hro Hi [I1 S1 D1 X1 E1 C1 R1 O1] Hin [I2 S2 D2 K2 P2 L2 _]. pose proof X1 as [K1 _ _ _ _]. pose proof K1 as (Ks1 & _). pose proof K2 as (Ks2 & _).
  apply statics_eq in Ks1 as (T0 & T1 & _ & T3 & T4 & _). apply statics_eq in Ks2 as (U0 & U1 & _ & U3 & U4 & _).
  pose proof P2 as (Pb & Pn & Pc & Pl & _).
  assert (Rd : ready v2) by (split; [done|]; split; [congruence|]; intros Hf; apply S2; congruence).
  destruct (save_bitmap_spec v2 off Rd) as (v3 & E3 & I3 & S3 & D3 & K3 & P3 & L3).
  - rewrite Pc, C1. lia.
  - by rewrite Pc, C1, (slot_eq v1 v2).
  - assert (P13 : placed v1 v3) by (apply (placed_trans v1 v2); [apply K2|done|done]).
    assert (X13 : extends v1 v3) by (apply extends_placed; [done|by eapply kept_trans|done|lia]).
    exists v3. split; [done|]. split.
    + constructor; [done|done| |by eapply extends_trans|].
      * intros x Hx. rewrite D3, D2, D1 by done. by rewrite T3.
      * intros Hn. apply (old_trans v v1); [apply K1|by apply O1|]. destruct P13 as (? & ? & _ & ? & ?). done.
    + intros n Hroom. apply R1 in Hroom. unfold room in *. destruct P13 as (_ & -> & _). destruct K3 as (Ks3 & _).
      apply statics_eq in Ks3 as (_ & _ & _ & W3 & W4 & _). rewrite W3, W4, U3, U4. done.
Qed.

(** What both loops assume at [c_off c] of block [i]; [nb] blocks may be added. *)
Definition at_block v c (i nb : Z) : Prop :=
  inv v /\ saved v /\ read_only v = false /\ 0 <= i /\ in_block v c /\ aligned v c /\ i * blocksize v + c_off c + c_todo c <= dstsize v /\
  c_off c + c_todo c <= nb * blocksize v /\ room v nb.

Lemma room_less v n m : inv v -> m <= n -> room v n -> room v m.
Proof. intros I Hm. destruct (bms_spec v I) as (Hb & _). destruct (i_block v I) as [Hbs _]. unfold room. nia. Qed.
Lemma at_block_bounds v c i nb : at_block v c i nb -> 0 <= i < batsize v /\ 0 < nb /\ room v 1 /\ batsize v < no_block.
Proof.
  intros (I & _ & _ & Hi & (Ho & Hr & Hr0 & Ht & _) & _ & Hsz & Hnb & Hroom). destruct (i_block v I) as [Hbs _]. destruct (i_size v I) as [_ Hds].
  destruct (i_bat v I) as (_ & ? & _). assert (0 < nb) by nia. split; [nia|]. split; [done|]. split; [apply (room_less v nb); [done|lia|done]|done].
Qed.
Lemma at_block_placed v c i nb off new v1 : at_block v c i nb -> placed_at v i off new v1 -> at_write v1 c i off.
Proof.
  intros (I & _ & Hro & Hi & Hin & Hal & _) [I1 S1 D1 X1 E1 C1 R1 O1]. destruct (e_kept _ _ X1) as (Ks & Kp & _).
  apply statics_eq in Ks as (T0 & T1 & _ & T3 & _). split; [split; [done|]; split; [congruence|done]|]. split; [done|]. split; [done|]. split; [done|].
  split; [unfold in_block; by rewrite T3|]. unfold aligned. by rewrite Kp.
Qed.
(** The next block after a finished one. *)
Lemma at_block_next v c i nb src new v3 c3 : at_block v c i nb ->
  wrote_blocks v (i * blocksize v + c_off c) (Z.min (c_todo c) (c_remaining c)) src new v3 -> (forall n, room v (n + 1) -> room v3 n) ->
  c_todo c3 = c_todo c - Z.min (c_todo c) (c_remaining c) -> c_todo c3 <> 0 -> at_block v3 (next_block (blocksize v3) c3) (i + 1) (nb - 1).
Proof.
  intros A [I3 S3 D3 X3 O3] R3 Ht3 Hne. destruct (at_block_bounds v c i nb A) as (Hib & Hnb0 & _). 
  destruct A as (I & _ & Hro & Hi & (Ho & Hr & Hr0 & Ht & _) & Hal & Hsz & Hnb & Hroom). destruct (e_kept _ _ X3) as (Ks & Kp & _).
  apply statics_eq in Ks as (T0 & T1 & T2 & T3 & _). destruct (i_block v I) as [Hbs Hbm].
  unfold at_block, in_block, aligned; cbn [next_block c_off c_remaining c_todo c_first]. rewrite T0, T2, T3, Kp, Ht3.
  split; [done|]. split; [done|]. split; [done|]. split; [lia|]. split; [repeat (split; [lia|]); by right|]. split.
  - destruct Hal as [?|[Ha Hb]]; [by left|]. right. split; [done|]. rewrite Z.min_r, Hr by lia. unfold sector_size in *.
    apply Z.mod_divide in Ha as [a Ha], Hb as [b Hb], Hbm as [d Hbm]; [|lia..]. apply Z.mod_divide; [lia|]. exists (b - (d - a)). lia.
  - split; [lia|]. split; [lia|]. apply R3. by rewrite Z.sub_add.
Qed.

Lemma write_blocks_spec rounds (src : Z -> char) : forall v c i nb dw, at_block v c i nb ->
  0 <= c_done c -> c_done c + c_todo c <= zlen (c_buf c) ->
  (forall k, 0 <= k < c_todo c -> znth nul (c_buf c) (c_done c + k) = src (i * blocksize v + c_off c + k)) ->
  (Z.to_nat (c_todo c) < rounds)%nat ->
  exists d v', write_blocks rounds i c dw v = Ran (Some (dw || d), v') /\ wrote_blocks v (i * blocksize v + c_off c) (c_todo c) src d v' /\
    forall m, room v (nb + m) -> room v' m.
Proof.
  induction rounds as [|k IH]; intros v c i nb dw A Hd Hl Hsrc Hk; [lia|]. destruct (at_block_bounds v c i nb A) as (Hib & Hnb0 & Hr1 & Hbn).
  pose proof A as (I & S & Hro & Hi & Hin & _ & Hsz & _). pose proof Hin as (Ho & Hr & Hr0 & Ht & _).
  cbn [write_blocks]. destruct (place_spec v true i I S Hib Hr1) as (off & new & v0 & v1 & -> & -> & Hpl). cbn [negb].
  pose proof (slot_bounds v1 i off (pl_inv _ _ _ _ _ Hpl) Hi (pl_slot _ _ _ _ _ Hpl)) as Hsl.
  destruct (file_Seek_spec (off + bitmap_size v1 + c_off c) v1) as (f & -> & Hcf & Hpf); [lia|]. cbn [negb].
  pose proof (placed_seek _ _ _ _ _ f Hpl Hcf) as Hpl'. pose proof (at_block_placed v c i nb off new _ A Hpl') as Aw.
  pose proof (e_kept _ _ (pl_extends _ _ _ _ _ Hpl')) as (Ks & _). apply statics_eq in Ks as (_ & _ & _ & T3 & _).
  destruct (write_sectors_spec (Datatypes.S (Z.to_nat (c_todo c))) src _ c i off Aw) as (v2 & c2 & -> & W); [done|done|done|by rewrite T3|lia|]. cbn [vbind negb].
  destruct (block_step v c i off new (with_file f v1) src v2 c2 I Hro) as (v3 & -> & W3 & R3); [lia|done|done|done|]. cbn [negb].
  pose proof (w_cursor _ _ _ _ _ _ W) as (Ct & Cd & Cb).
  destruct (Z.eqb_spec (c_todo c2) 0) as [Hz|Hz].
  - exists new, v3. split; [done|]. replace (c_todo c) with (Z.min (c_todo c) (c_remaining c)) by lia. split; [done|].
    intros m Hm. apply R3, (room_less v (nb + m)); [done|lia|done].
  - pose proof (at_block_next v c i nb src new v3 c2 A W3 R3 Ct Hz) as A3. rewrite w64_id by (unfold no_block in *; lia).
    pose proof (e_kept _ _ (wb_extends _ _ _ _ _ _ W3)) as (Ks3 & _). apply statics_eq in Ks3 as (_ & _ & _ & T3' & _).
    assert (Eo : (i + 1) * blocksize v3 + 0 = i * blocksize v + c_off c + Z.min (c_todo c) (c_remaining c)) by lia.
    destruct (IH v3 (next_block (blocksize v3) c2) (i + 1) (nb - 1) (dw || new) A3) as (d & v4 & E4 & W4 & R4);
      cbn [next_block c_done c_todo c_buf c_off]; rewrite ?Cd, ?Ct, ?Cb; try lia.
    + intros j Hj. rewrite Eo. replace (c_done c + Z.min (c_todo c) (c_remaining c) + j) with (c_done c + (Z.min (c_todo c) (c_remaining c) + j)) by lia.
      rewrite Hsrc by lia. f_equal. lia.
    + exists (new || d), v4. rewrite orb_assoc. split; [exact E4|]. cbn [next_block c_off c_todo] in W4. rewrite Eo, Ct in W4.
      replace (c_todo c) with (Z.min (c_todo c) (c_remaining c) + (c_todo c - Z.min (c_todo c) (c_remaining c))) by lia.
      split; [eapply wrote_blocks_trans; [lia|lia|exact W3|exact W4]|]. intros m Hm. apply R4, R3. by replace (nb - 1 + m + 1) with (nb + m) by lia.
Qed.

Lemma unused_blocks_spec rounds : forall v c i nb dw, at_block v c i nb -> (Z.to_nat (c_todo c) < rounds)%nat ->
  exists d v', unused_blocks rounds i c dw v = Ran (Some (dw || d), v') /\
    wrote_blocks v (i * blocksize v + c_off c) (c_todo c) (fun _ => nul) d v' /\ forall m, room v (nb + m) -> room v' m.
Proof.
  induction rounds as [|k IH]; intros v c i nb dw A Hk; [lia|]. destruct (at_block_bounds v c i nb A) as (Hib & Hnb0 & Hr1 & Hbn).
  pose proof A as (I & S & Hro & Hi & Hin & _ & Hsz & _). pose proof Hin as (Ho & Hr & Hr0 & Ht & _).
  cbn [unused_blocks]. destruct (place_spec v false i I S Hib Hr1) as (off & new & v0 & v1 & -> & -> & Hpl). cbn [negb].
  pose proof (at_block_placed v c i nb off new _ A Hpl) as Aw.
  destruct (unused_sectors_spec (Datatypes.S (Z.to_nat (c_todo c))) _ c i off Aw) as (v2 & c2 & -> & W); [lia|]. cbn [vbind negb].
  destruct (block_step v c i off new v1 (fun _ => nul) v2 c2 I Hro) as (v3 & -> & W3 & R3); [lia|done|done|done|]. cbn [negb].
  pose proof (w_cursor _ _ _ _ _ _ W) as (Ct & Cd & Cb).
  destruct (Z.eqb_spec (c_todo c2) 0) as [Hz|Hz].
  - exists new, v3. split; [done|]. replace (c_todo c) with (Z.min (c_todo c) (c_remaining c)) by lia. split; [done|].
    intros m Hm. apply R3, (room_less v (nb + m)); [done|lia|done].
  - pose proof (at_block_next v c i nb _ new v3 c2 A W3 R3 Ct Hz) as A3. rewrite w64_id by (unfold no_block in *; lia).
    pose proof (e_kept _ _ (wb_extends _ _ _ _ _ _ W3)) as (Ks3 & _). apply statics_eq in Ks3 as (_ & _ & _ & T3' & _).
    assert (Eo : (i + 1) * blocksize v3 + 0 = i * blocksize v + c_off c + Z.min (c_todo c) (c_remaining c)) by lia.
    destruct (IH v3 (next_block (blocksize v3) c2) (i + 1) (nb - 1) (dw || new) A3) as (d & v4 & E4 & W4 & R4); [cbn [next_block c_todo]; lia|].
    exists (new || d), v4. rewrite orb_assoc. split; [exact E4|]. cbn [next_block c_off c_todo] in W4. rewrite Eo, Ct in W4.
    replace (c_todo c) with (Z.min (c_todo c) (c_remaining c) + (c_todo c - Z.min (c_todo c) (c_remaining c))) by lia.
    split; [eapply wrote_blocks_trans; [lia|lia|exact W3|exact W4]|]. intros m Hm. apply R4, R3. by replace (nb - 1 + m + 1) with (nb + m) by lia.
Qed.
End Blocks.
