(* ===== verification/VhdOps.v ===== *)
(** The calls [Write], [setUnused] and [Read] of an image on its disk, and an image as the
    parent of another. *)
From S2P Require Import Prelude MemFile VhdFormat VhdFile VhdSpec VhdSteps VhdRead VhdWrite VhdTable.
Import VHDFile.

Section Ops.
Context {F P : Type} `{FileLaws F} `{VHDParentLaws P}.
Notation t := (t (F := F) (P := P)).
Implicit Types (v : t) (c : cursor).

(** The blocks are in the file up to their ends. *)
Definition full v : Prop := forall i off, 0 <= i -> slot v i = Some off -> off + bitmap_size v + blocksize v <= flen (file v).

(** How many blocks [n] bytes at [o] touch, and room for them. *)
Definition blocks_touched (bs o n : Z) : Z := (o mod bs + n + bs - 1) / bs.
Definition touched v (o n : Z) : Z := blocks_touched (blocksize v) o n.
Definition has_room v (o n : Z) : Prop := room v (touched v o n).

(** What a call that writes [n] bytes at [lo] leaves. *)
Record written v (lo n : Z) (src : Z -> char) v' : Prop := {
  wr_inv : inv v';
  wr_saved : saved v';
  wr_disk : forall x, 0 <= x -> disk v' x = if (lo <=? x) && (x <? lo + n) then src x else disk v x;
  wr_statics : statics v' = statics v /\ parent v' = parent v;
  wr_headers : forall x, 0 <= x < bat_offset v -> raw (file v') x = raw (file v) x;
  wr_room : forall m, room v (touched v lo n + m) -> room v' m;
  wr_full : fast_mode v = false -> full v -> full v';
  wr_stored : fast_mode v = false -> stored v -> stored v' }.

Lemma same_places_stored v v' : inv v -> statics v' = statics v -> same_places v v' -> stored v -> stored v'.
Proof.
  intros I Ks (Eb & En & Lv & Hl) [Sb Sf [Sl1 Sl2]]. assert (Ex : footer v' = footer v /\ compressed v' = compressed v) by (unfold statics in Ks; split; congruence).
  destruct Ex as [Ef Ec]. apply statics_eq in Ks as (_ & _ & _ & _ & _ & Ez & Eo). destruct (i_next v I) as [Hnx _]. destruct (i_bat v I) as (Ezl & _ & _ & Hb0).
  pose proof (zlen_nonneg (bat v)). unfold bat_end in *.
  assert (R : forall x, 0 <= x -> x < bat_offset v + 4 * batsize v \/ nextblock_offset v <= x -> raw (file v') x = raw (file v) x).
  { intros x Hx Hout. apply Lv; [done|]. intros j oj Hj Ej. pose proof (slot_bounds v j oj I Hj Ej). lia. }
  constructor; rewrite ?Eb, ?En, ?Ef, ?Ec, ?Ez, ?Eo.
  - intros x Hx. rewrite R by lia. by apply Sb.
  - intros x Hx. rewrite R by lia. by apply Sf.
  - split; [lia|]. intros Hc. specialize (Sl2 Hc). lia.
Qed.
Lemma extends_full v v' : inv v -> inv v' -> extends v v' -> nextblock_offset v' <= flen (file v') -> full v'.
Proof. intros I I' X Hl i off Hi E. pose proof (slot_bounds v' i off I' Hi E). lia. Qed.

(** The last part of [Write] and [setUnused]. *)
Lemma saved_blocks v lo n src d v1 : inv v -> wrote_blocks v lo n src d v1 -> (forall m, room v (touched v lo n + m) -> room v1 m) ->
  exists v', save_table d v1 = (true, v') /\ written v lo n src v' /\ curr_offset v' = curr_offset v.
Proof.
  intros I [I1 S1 D1 X1 O1] R1. destruct (save_table_spec v1 d I1 S1) as (v' & E & [I2 S2 D2 X2 [_ En2]] & Hst). exists v'. split; [done|].
  pose proof (extends_trans _ _ _ X1 X2) as X. pose proof (e_kept _ _ X) as (Ks & Kp & Ko). pose proof (e_kept _ _ X1) as (Ks1 & _).
  pose proof (statics_eq _ _ Ks1) as (_ & T1 & _ & Tb & Tm & _). split; [|done]. constructor; try done.
  - intros x Hx. by rewrite D2, D1.
  - apply X.
  - intros m Hm. apply R1 in Hm. unfold room in *. pose proof (e_kept _ _ X2) as (Ks2 & _). apply statics_eq in Ks2 as (_ & _ & _ & Tb2 & Tm2 & _).
    by rewrite En2, Tb2, Tm2.
  - intros Hf Hfull. rewrite T1, Hf, andb_true_r in Hst. destruct d.
    + apply (extends_full v v'); try done. destruct (st_len _ Hst). lia.
    + subst v'. destruct (O1 eq_refl) as (Eb & En & _ & Hl). intros i off Hi Es. rewrite (slot_eq v v1) in Es by done.
      specialize (Hfull i off Hi Es). rewrite Tb, Tm. lia.
  - intros Hf Hstv. rewrite T1, Hf, andb_true_r in Hst. destruct d; [done|]. subst v'. apply (same_places_stored v); [done|done|by apply O1|done].
Qed.
Lemma written_offset v lo n src v' o : written v lo n src v' -> written v lo n src (with_offset o v').
Proof.
  intros [I S D [K K'] Hh Rm Fu St]. constructor; try done.
  - by apply (q_inv _ _ (quiet_offset v' o I S)).
  - intros Hf Hs. destruct (St Hf Hs). by constructor.
Qed.

(** Whole sectors are written, or there is no parent. *)
Definition sectors_only v (o n : Z) : Prop := parent v = None \/ (o mod sector_size = 0 /\ n mod sector_size = 0).
Lemma at_block_start v o n fst d buf : inv v -> saved v -> read_only v = false -> 0 <= o -> 0 < n -> o + n <= dstsize v -> sectors_only v o n -> fst = true ->
  has_room v o n -> at_block v (mkCur (o mod blocksize v) (blocksize v - o mod blocksize v) n fst d buf) (o / blocksize v) (touched v o n).
Proof.
  intros I S Hro Ho Hn Hsz Hal -> Hroom. destruct (disk_pos v o I Ho) as [Hi Hm]. destruct (i_block v I) as [Hbs Hbm].
  pose proof (Z.div_mod o (blocksize v)). do 4 (split; [done|]). split; [repeat (split; [cbn; lia|]); by left|]. split.
  - destruct Hal as [?|[Ha Hb]]; [by left|]. right. split; [|done]. cbn. unfold sector_size in *.
    apply Z.mod_divide in Ha as [a Ha], Hbm as [b Hbm]; [|lia..]. apply Z.mod_divide; [lia|]. exists (a - b * (o / blocksize v)). nia.
  - cbn. split; [lia|]. split; [|done]. unfold touched, blocks_touched. pose proof (Z.div_mod (o mod blocksize v + n + blocksize v - 1) (blocksize v)).
    pose proof (Z.mod_pos_bound (o mod blocksize v + n + blocksize v - 1) (blocksize v)). lia.
Qed.

Lemma Write_spec v buffer : inv v -> saved v -> read_only v = false -> 0 <= curr_offset v -> buffer <> [] ->
  curr_offset v + zlen buffer <= dstsize v -> sectors_only v (curr_offset v) (zlen buffer) -> has_room v (curr_offset v) (zlen buffer) ->
  exists v', Write buffer v = Ran (zlen buffer, false, v') /\ curr_offset v' = curr_offset v + zlen buffer /\
    written v (curr_offset v) (zlen buffer) (fun x => znth nul buffer (x - curr_offset v)) v'.
Proof.
  intros I S Hro Ho Hne Hsz Hal Hroom. assert (Hn : 0 < zlen buffer) by (destruct buffer; [done|unfold zlen; cbn; lia]).
  destruct (i_size v I) as [Hds _]. destruct (i_block v I) as [Hbs _]. unfold Write. cbn zeta.
  rewrite Hro, w64_id, (proj2 (Z.ltb_ge _ _)), (proj2 (Z.eqb_neq _ _)) by lia. pose proof (Z.div_mod (curr_offset v) (blocksize v)).
  pose proof (at_block_start v (curr_offset v) (zlen buffer) true 0 buffer I S Hro Ho Hn Hsz Hal eq_refl Hroom) as A.
  destruct (write_blocks_spec (Datatypes.S (Z.to_nat (zlen buffer))) (fun x => znth nul buffer (x - curr_offset v)) v _ _ _ false A) as (d & v1 & -> & W & R);
    cbn [c_done c_todo c_buf c_off]; try lia.
  - intros k Hk. f_equal. lia.
  - cbn [c_off c_todo orb] in *. cbn [vbind]. replace (curr_offset v / blocksize v * blocksize v + curr_offset v mod blocksize v) with (curr_offset v) in W by lia.
    destruct (saved_blocks v _ _ _ d v1 I W R) as (v2 & -> & Wr & Eo). cbn [negb]. rewrite Eo, w64_id by lia.
    eexists. split; [done|]. split; [done|]. by apply written_offset.
Qed.

Lemma setUnused_spec v o e : inv v -> saved v -> read_only v = false -> 0 <= o < e -> 0 <= volume_offset v ->
  volume_offset v + e <= dstsize v -> sectors_only v (volume_offset v + o) (e - o) -> has_room v (volume_offset v + o) (e - o) ->
  exists v', setUnused o e v = Ran (true, v') /\ written v (volume_offset v + o) (e - o) (fun _ => nul) v'.
Proof.
  intros I S Hro Ho Hvo Hsz Hal Hroom. destruct (i_size v I) as [Hds _]. destruct (i_block v I) as [Hbs _].
  set (p := volume_offset v + o) in *.
  assert (Ep : Seek o v = with_offset p v) by (unfold Seek; rewrite (w64_id o), w64_id by lia; by rewrite Z.add_comm).
  pose proof (quiet_offset v p I S) as Q. unfold setUnused. rewrite Ep. vcbn. rewrite Hro, w64_id, (proj2 (Z.ltb_ge _ _)), (proj2 (Z.eqb_neq _ _)) by lia.
  rewrite (w64_id (e - o)) by lia. pose proof (Z.div_mod p (blocksize v)).
  pose proof (at_block_start (with_offset p v) p (e - o) true 0 [] (q_inv _ _ Q) (q_saved _ _ Q) Hro ltac:(lia) ltac:(lia) ltac:(vcbn; lia) Hal eq_refl Hroom) as A.
  destruct (unused_blocks_spec (Datatypes.S (Z.to_nat (e - o))) (with_offset p v) _ _ _ false A) as (d & v1 & E & W & R); [cbn [c_todo]; lia|].
  vcbn. cbn [c_off c_todo orb] in *. rewrite E. cbn [vbind]. replace (p / blocksize v * blocksize v + p mod blocksize v) with p in W by lia.
  destruct (saved_blocks (with_offset p v) _ _ _ d v1 (q_inv _ _ Q) W R) as (v2 & -> & Wr & Eo). exists v2. split; [done|].
  destruct Wr as [I' S' D' K' Hh Rm Fu St]. constructor; try done. intros Hf [a b c]. apply St; [done|]. by constructor.
Qed.

(** ** Reading *)

(** What is read lies in one block, and all blocks are in the file. *)
Lemma full_reach v o n : inv v -> full v -> 0 <= o -> 0 < n -> o / blocksize v = (o + n - 1) / blocksize v ->
  reach v (o / blocksize v) (o mod blocksize v) n n.
Proof.
  intros I Hf Ho Hn Hb j oj Hj Hjt Ej. destruct (disk_pos v o I Ho) as [Hi Hm]. destruct (i_block v I) as [Hbs _].
  pose proof (Z.div_mod o (blocksize v)). pose proof (Z.div_mod (o + n - 1) (blocksize v)). pose proof (Z.mod_pos_bound (o + n - 1) (blocksize v)).
  assert (o mod blocksize v + n <= blocksize v) by nia. assert (j = o / blocksize v) as -> by nia.
  rewrite Z.eqb_refl. specialize (Hf (o / blocksize v) oj Hi Ej). lia.
Qed.
Lemma quiet_full v v' : quiet v v' -> full v -> full v'.
Proof.
  intros Q Hf i off Hi E. destruct (q_frame _ _ Q) as (Ks & Kb & _). apply statics_eq in Ks as (_ & _ & _ & -> & -> & _).
  rewrite (slot_eq v v') in E by done. rewrite (q_len _ _ Q). by apply (Hf i).
Qed.
Lemma quiet_stored v v' : inv v -> quiet v v' -> stored v -> stored v'.
Proof.
  intros I Q. destruct (q_frame _ _ Q) as (Ks & Kb & Kn). pose proof (q_len _ _ Q). apply same_places_stored; [done|done|].
  split; [done|]. split; [done|]. split; [apply (q_leaves _ _ Q)|lia].
Qed.

(** ** Chains *)

(** [VHDFile] as the parent of a [VHDFile]. *)
Context `{IFinish F}.
#[export] Instance vhd_parent : IVHDParent t := {|
  p_Seek v o := Seek o v;
  p_Read v buf n := Read buf n v;
  p_has_block := has_block true;
  p_has_sector := has_sector;
  p_finish := finish |}.

Definition image_good v : Prop := inv v /\ saved v /\ full v /\ volume_offset v = 0.
#[export] Program Instance vhd_parent_laws : VHDParentLaws t := {|
  p_disk := disk;
  p_size := dstsize;
  p_block := blocksize;
  p_good := image_good |}.
Next Obligation.
  intros v o n buf (I & S & Hf & Hv) Ho Hn Hsz Hl Hb. cbn. destruct (i_size v I) as [Hds _].
  assert (Ep : Seek o v = with_offset o v) by (unfold Seek; rewrite Hv, Z.add_0_r, !w64_id by (rewrite ?w64_id by lia; lia); done).
  rewrite Ep. pose proof (quiet_offset v o I S) as Q. destruct (Read_spec (with_offset o v) buf n) as (v' & E & Q' & _); try apply Q; vcbn; try lia.
  - apply (full_reach (with_offset o v)); [apply Q|done|done|done|done].
  - exists v'. split; [exact E|]. pose proof (quiet_trans _ _ _ Q Q') as Q2. destruct (q_frame _ _ Q2) as (Ks & _ & _).
    assert (Hv' : volume_offset v' = 0) by (rewrite <- Hv; unfold statics in Ks; congruence).
    apply statics_eq in Ks as (_ & _ & T2 & T3 & _). split; [|split; [apply Q2|done]].
    split; [apply Q2|]. split; [apply Q2|]. split; [by apply (quiet_full v)|done].
Qed.
End Ops.
