(* ===== verification/VhdImage.v ===== *)
(** The structures of an image survive the way to the file and back; new images, with
    and without a parent. *)
From S2P Require Import Prelude MemFile VhdFormat VhdFile VhdSpec VhdSteps VhdRead VhdWrite VhdTable VhdOps.
Import VHDFile.

(** ** Taking a concatenation apart *)

Lemma zsub_skip (a b : bytes) pos n : zlen a <= pos -> zsub pos n (a ++ b) = zsub (pos - zlen a) n b.
Proof. intros Hp. unfold zsub. by rewrite zdrop_app_ge. Qed.
Lemma zsub_here (a b : bytes) n : zlen a = n -> zsub 0 n (a ++ b) = a.
Proof. intros <-. unfold zsub. rewrite zdrop_0 by done. by rewrite ztake_app_zlen. Qed.
Lemma zsub_whole (a : bytes) n : zlen a = n -> zsub 0 n a = a.
Proof. intros <-. unfold zsub. rewrite zdrop_0 by done. by rewrite ztake_ge. Qed.
Lemma le_val_bytes4 v : 0 <= v < 2 ^ 32 -> le_val (le_bytes 4 v) = v.
Proof. intros Hv. rewrite le_val_le_bytes. by apply Z.mod_small. Qed.
Lemma le_val_bytes8 v : 0 <= v < 2 ^ 64 -> le_val (le_bytes 8 v) = v.
Proof. intros Hv. rewrite le_val_le_bytes. by apply Z.mod_small. Qed.
Lemma zlen_single (x : char) : zlen [x] = 1.
Proof. done. Qed.
Lemma znth_as_sub (l : bytes) i : 0 <= i -> znth nul l i = znth nul (zsub i 1 l) 0.
Proof. intros Hi. rewrite znth_zsub by lia. f_equal. lia. Qed.

(** Lengths of fields, and the parts of a structure at their offsets. *)
Ltac zlens := rewrite ?zlen_le_bytes, ?zlen_single; repeat match goal with E : zlen ?x = _ |- context [zlen ?x] => rewrite E end; cbn; lia.
Ltac parse_fields :=
  repeat first [rewrite zsub_here by zlens | rewrite zsub_whole by zlens | rewrite zsub_skip by zlens; rewrite ?zlen_le_bytes, ?zlen_single
    | match goal with E : zlen ?x = _ |- context [zlen ?x] => rewrite E end | rewrite Z.sub_0_r | progress cbn [Z.sub Z.add Z.opp Z.pos_sub Pos.pred_double Z.of_nat Pos.of_succ_nat Pos.succ Z.succ_double Z.pred_double Z.double Pos.add]].

Record footer_wf (f : VHDFooter) : Prop := {
  fw_len : zlen (cookie f) = 8 /\ zlen (creator_application f) = 4 /\ zlen (uid f) = 16 /\ zlen (reserved f) = 427;
  fw_32 : Forall (fun x => 0 <= x < 2 ^ 32) [features f; format_version f; timestamp f; creator_version f; creator_os f; disk_geometry f;
    disk_type f; checksum f];
  fw_64 : Forall (fun x => 0 <= x < 2 ^ 64) [data_offset f; original_size f; current_size f] }.

Lemma zlen_footer f : footer_wf f -> zlen (footer_bytes f) = 512.
Proof. intros [(A & B & C & D) _ _]. unfold footer_bytes. rewrite !zlen_app, !zlen_le_bytes, A, B, C, D. done. Qed.

Lemma footer_roundtrip f : footer_wf f -> footer_of (footer_bytes f) = f.
Proof.
  intros [(A & B & C & D) H32 H64]. repeat apply Forall_cons in H32 as [? H32]. repeat apply Forall_cons in H64 as [? H64].
  unfold footer_of, footer_bytes, field. rewrite (znth_as_sub _ 84) by done. parse_fields. rewrite !le_val_bytes4, !le_val_bytes8 by done.
  by destruct f.
Qed.

Record locator_wf (l : VHDParentLocator) : Prop := {
  lw_32 : Forall (fun x => 0 <= x < 2 ^ 32) [platform_code l; platform_space l; platform_length l; l_reserved l];
  lw_64 : 0 <= platform_offset l < 2 ^ 64 }.
Lemma zlen_locator l : zlen (locator_bytes l) = 24.
Proof. unfold locator_bytes. by rewrite !zlen_app, !zlen_le_bytes. Qed.
Lemma locator_roundtrip l : locator_wf l -> locator_of (locator_bytes l) = l.
Proof.
  intros [H32 H64]. repeat apply Forall_cons in H32 as [? H32]. unfold locator_of, locator_bytes, field. parse_fields.
  rewrite !le_val_bytes4, !le_val_bytes8 by done. by destruct l.
Qed.

Record dynamic_wf (h : VHDDynamicHeader) : Prop := {
  dw_len : zlen (d_cookie h) = 8 /\ zlen (parent_uid h) = 16 /\ zlen (parent_unicodename h) = 512 /\ zlen (reserved2 h) = 256;
  dw_32 : Forall (fun x => 0 <= x < 2 ^ 32) [header_version h; table_entries h; d_blocksize h; d_checksum h; parent_timestamp h; d_reserved h];
  dw_64 : Forall (fun x => 0 <= x < 2 ^ 64) [dataoffset h; tableoffset h];
  dw_locators : length (parentlocator h) = 8%nat /\ Forall locator_wf (parentlocator h) }.
Lemma zlen_locators ls : zlen (concat (map locator_bytes ls)) = 24 * zlen ls.
Proof. induction ls as [|l ls IH]; [done|]. cbn [map concat]. rewrite zlen_app, zlen_locator, IH, zlen_cons. lia. Qed.
Lemma zlen_dynamic h : dynamic_wf h -> zlen (dynamic_bytes h) = 1024.
Proof.
  intros [(A & B & C & D) _ _ [E _]]. unfold dynamic_bytes. rewrite !zlen_app, !zlen_le_bytes, zlen_locators, A, B, C, D.
  unfold zlen. by rewrite E.
Qed.

(** A locator among the others. *)
Lemma zsub_locators ls i : 0 <= i < zlen ls -> zsub (24 * i) 24 (concat (map locator_bytes ls)) = locator_bytes (znth no_locator ls i).
Proof.
  revert i. induction ls as [|l ls IH]; intros i Hi; [unfold zlen in Hi; cbn in Hi; lia|]. cbn [map concat]. rewrite zlen_cons in Hi.
  destruct (Z.eqb_spec i 0) as [->|Hne].
  - by rewrite zsub_here by apply zlen_locator.
  - rewrite zsub_skip by (rewrite zlen_locator; lia). rewrite zlen_locator. replace (24 * i - 24) with (24 * (i - 1)) by lia.
    rewrite IH by lia. f_equal. unfold znth. by replace (Z.to_nat i) with (S (Z.to_nat (i - 1))) by lia.
Qed.

Lemma dynamic_roundtrip h : dynamic_wf h -> dynamic_of (dynamic_bytes h) = h.
Proof.
  intros [(A & B & C & D) H32 H64 [E Hl]]. repeat apply Forall_cons in H32 as [? H32]. repeat apply Forall_cons in H64 as [? H64].
  assert (EL : zlen (concat (map locator_bytes (parentlocator h))) = 192) by (rewrite zlen_locators; unfold zlen; by rewrite E).
  assert (Els : map (fun i => locator_of (zsub (576 + 24 * Z.of_nat i) 24 (dynamic_bytes h))) (seq 0 8) = parentlocator h).
  { apply (list_eq_znth no_locator); [unfold zlen; rewrite length_map, length_seq; by rewrite E|]. intros i Hi.
    assert (Hi' : 0 <= i < 8) by (unfold zlen in Hi; rewrite length_map, length_seq in Hi; lia).
    unfold znth at 1. rewrite (nth_indep _ no_locator (locator_of (zsub (576 + 24 * Z.of_nat 0%nat) 24 (dynamic_bytes h)))) by (rewrite length_map, length_seq; lia).
    rewrite (map_nth (fun i => locator_of (zsub (576 + 24 * Z.of_nat i) 24 (dynamic_bytes h))) (seq 0 8) 0%nat), seq_nth by lia.
    replace (576 + 24 * Z.of_nat (0 + Z.to_nat i)) with (576 + 24 * i) by lia. unfold dynamic_bytes.
    do 11 (rewrite zsub_skip by zlens; rewrite ?zlen_le_bytes, ?A, ?B, ?C).
    replace (_ - _) with (24 * i) by lia. unfold zsub. rewrite zdrop_app_le by lia. rewrite ztake_app_le by (rewrite zlen_zdrop by lia; lia).
    fold (zsub (24 * i) 24 (concat (map locator_bytes (parentlocator h)))). rewrite zsub_locators by (unfold zlen; rewrite E; lia).
    apply locator_roundtrip. unfold znth. rewrite nth_lookup. destruct (parentlocator h !! Z.to_nat i) as [l|] eqn:El; [|apply lookup_ge_None in El; lia].
    cbn. by eapply Forall_lookup in Hl. }
  unfold dynamic_of. rewrite Els. unfold dynamic_bytes, field. parse_fields. rewrite !le_val_bytes4, !le_val_bytes8 by done. by destruct h.
Qed.

Lemma bat_roundtrip b : Forall (fun e => 0 <= e < 2 ^ 32) b -> bat_of (length b) (bat_bytes b) = b.
Proof.
  induction 1 as [|e b He Hb IH]; [done|]. unfold bat_bytes. cbn [map concat length bat_of].
  pose proof (ztake_app_zlen (le_bytes 4 e) (concat (map (le_bytes 4) b))) as Et. pose proof (zdrop_app_zlen (le_bytes 4 e) (concat (map (le_bytes 4) b))) as Ed.
  rewrite zlen_le_bytes in Et, Ed. change (Z.of_nat 4) with 4 in *. rewrite Et, Ed, le_val_bytes4 by done. by f_equal.
Qed.

(** * The life of an image: it is created, finished and opened again. *)

Section Image.
Context {F P : Type} `{FileLaws F} `{VHDParentLaws P}.
Notation t := (t (F := F) (P := P)).
Implicit Types (v : t).

(** The headers describe the image, and the dynamic header is in the file. *)
Record headed v : Prop := {
  hd_footer : footer_wf (footer v) /\ footer_valid (footer v) = true;
  hd_version : big_endian (format_version (footer v)) = 0x00010000;
  hd_type : big_endian (disk_type (footer v)) = if parent v then 4 else 3;
  hd_size : big_endian64 (current_size (footer v)) = dstsize v;
  hd_offset : big_endian64 (data_offset (footer v)) = dynamic_header_offset v;
  hd_dynamic : dynamic_wf (dynamicheader v) /\
    d_checksum (dynamicheader v) = calculate_checksum (dynamic_bytes (with_d_checksum 0 (dynamicheader v)));
  hd_fields : big_endian (d_blocksize (dynamicheader v)) = blocksize v /\ big_endian (table_entries (dynamicheader v)) = batsize v /\
    big_endian64 (tableoffset (dynamicheader v)) = bat_offset v;
  hd_place : 0 <= dynamic_header_offset v /\ dynamic_header_offset v + 1024 <= bat_offset v;
  hd_file : forall x, 0 <= x < 1024 -> raw (file v) (dynamic_header_offset v + x) = znth nul (dynamic_bytes (dynamicheader v)) x }.

Lemma headed_written v lo n src v' : written v lo n src v' -> headed v -> headed v'.
Proof.
  intros W [A B C D E G I J K]. destruct (wr_statics _ _ _ _ _ W) as [Ks Kp].
  assert (Es : footer v' = footer v /\ dstsize v' = dstsize v /\ blocksize v' = blocksize v /\ dynamicheader v' = dynamicheader v /\ batsize v' = batsize v /\
    bat_offset v' = bat_offset v /\ dynamic_header_offset v' = dynamic_header_offset v) by (unfold statics in Ks; repeat split; congruence).
  destruct Es as (E1 & E2 & E3 & E4 & E5 & E6 & E7). constructor; rewrite ?E1, ?E2, ?E3, ?E4, ?E5, ?E6, ?E7, ?Kp; try done.
  intros x Hx. rewrite (wr_headers _ _ _ _ _ W) by lia. by apply K.
Qed.

(** ** Creating an image *)

Lemma w32_be_range x : 0 <= big_endian (w32 x) < 2 ^ 32.
Proof. apply big_endian_range, w32_range. Qed.
Lemma checksum_range b : 0 <= calculate_checksum b < 2 ^ 32.
Proof. apply w32_range. Qed.
Lemma chs_range d : 0 <= calculate_chs d < 2 ^ 32.
Proof.
  unfold calculate_chs. cbv zeta.
  match goal with |- context [if 65535 * 16 * 63 <=? ?n then ?a else ?b] => destruct (if 65535 * 16 * 63 <=? n then a else b) as [[? ?] ?] end.
  apply w32_be_range.
Qed.

Lemma new_footer_wf now random diff v : zlen random = 16 -> 0 <= dynamic_header_offset v < 2 ^ 64 -> 0 <= dstsize v < 2 ^ 64 ->
  footer_wf (new_footer now random diff v).
Proof.
  intros Hr Hd Hs. pose proof (fun x => big_endian64_range x) as R64. constructor; [done|..].
  - unfold new_footer, with_checksum; cbn [features format_version timestamp creator_version creator_os disk_geometry disk_type checksum].
    repeat apply Forall_cons_2; [by apply big_endian_range|by apply big_endian_range|exact (w32_be_range _)|by apply big_endian_range
      |by apply big_endian_range|exact (chs_range _)|apply big_endian_range; by destruct diff|exact (checksum_range _)|by apply Forall_nil].
  - unfold new_footer, with_checksum; cbn [data_offset original_size current_size].
    repeat apply Forall_cons_2; try (by apply Forall_nil); by apply big_endian64_range.
Qed.
Lemma new_footer_valid now random diff v : footer_valid (new_footer now random diff v) = true.
Proof. unfold footer_valid, new_footer; cbn [checksum with_checksum]. apply Z.eqb_refl. Qed.

Lemma base_dynamic_wf v : 0 <= bat_offset v < 2 ^ 64 -> 0 <= batsize v < 2 ^ 32 -> 0 <= blocksize v < 2 ^ 32 ->
  forall c, 0 <= c < 2 ^ 32 -> dynamic_wf (with_d_checksum c (base_dynamicheader v)).
Proof.
  intros Ho Hn Hb c Hc. constructor.
  - by repeat split.
  - unfold base_dynamicheader, with_d_checksum; cbn [header_version table_entries d_blocksize d_checksum parent_timestamp d_reserved].
    repeat apply Forall_cons_2; try (by apply Forall_nil); try done; by apply big_endian_range.
  - unfold base_dynamicheader, with_d_checksum; cbn [dataoffset tableoffset]. repeat apply Forall_cons_2; try (by apply Forall_nil); [done|].
    by apply big_endian64_range.
  - split; [done|]. cbn [parentlocator base_dynamicheader with_d_checksum]. apply Forall_replicate. constructor; [|done].
    repeat apply Forall_cons_2; try (by apply Forall_nil); done.
Qed.

(** The number of blocks of a new image. *)
Definition new_batsize (dst bs : Z) : Z := dst / bs + (if dst mod bs =? 0 then 0 else 1).
Lemma new_batsize_spec dst bs : 0 < bs -> 0 <= dst -> 0 <= new_batsize dst bs /\ dst <= new_batsize dst bs * bs.
Proof.
  intros Hb Hd. unfold new_batsize. pose proof (Z.div_mod dst bs). pose proof (Z.mod_pos_bound dst bs). pose proof (Z.div_pos dst bs).
  destruct (Z.eqb_spec (dst mod bs) 0); nia.
Qed.
Lemma new_bat_spec bat_off v : 0 < blocksize v -> 0 <= dstsize v -> new_batsize (dstsize v) (blocksize v) < no_block ->
  batsize (new_bat bat_off v) = new_batsize (dstsize v) (blocksize v) /\
  bat (new_bat bat_off v) = replicate (Z.to_nat (new_batsize (dstsize v) (blocksize v))) no_block.
Proof.
  intros Hb Hd Hn. pose proof (Z.div_pos (dstsize v) (blocksize v)). unfold new_bat, new_batsize, no_block in *; cbn [batsize bat].
  destruct (Z.eqb_spec (dstsize v mod blocksize v) 0); cbn [negb]; rewrite ?Z.add_0_r in *; rewrite !w32_id by (rewrite ?w32_id by lia; lia); done.
Qed.

(** An image without blocks, all of whose bytes are in front of [nextblock_offset]. *)
Lemma fresh_inv v : 0 < blocksize v < 2 ^ 32 -> blocksize v mod sector_size = 0 -> bitmap_size v = bitmap_bytes (blocksize v) ->
  zlen (bitmap v) = bitmap_size v -> 0 <= dstsize v < 2 ^ 62 -> batsize v = new_batsize (dstsize v) (blocksize v) -> batsize v < no_block ->
  bat v = replicate (Z.to_nat (batsize v)) no_block -> 0 < bat_offset v ->
  bat_end v <= nextblock_offset v < 2 ^ 62 -> nextblock_offset v mod sector_size = 0 -> flen (file v) <= nextblock_offset v + 512 ->
  currblock v = no_block -> bitmap_dirty v = false -> zlen (footer_bytes (footer v)) = 512 ->
  match parent v with Some p => p_good p /\ dstsize v <= p_size p /\ p_block p = blocksize v | None => True end ->
  inv v /\ saved v /\ full v /\ forall x, disk v x = parent_byte v x.
Proof.
  intros Hb Hbm Hbs Hbl Hd Hn Hnb Hbat Ho Hnx Hnm Hl Hc Hdi Hf Hp. destruct (new_batsize_spec (dstsize v) (blocksize v)) as [Hn0 Hnd]; [lia|lia|].
  assert (Hz : zlen (bat v) = batsize v) by (rewrite Hbat; apply zlen_replicate; lia).
  assert (Hs : forall i, slot v i = None).
  { intros i. unfold slot, bat_entry. rewrite Hbat. destruct (_ !! _) as [e|] eqn:E; [|done]. apply lookup_replicate in E as [-> _]. done. }
  split.
  - constructor; try done; try (by intros i; rewrite Hs); try (by intros i j oi oj _ _ _; rewrite Hs); try lia.
    + split; [done|]. split; [done|]. split; [|done]. rewrite Hbat. by apply Forall_replicate.
    + intros x Hx. unfold raw. rewrite znth_out; [done|]. unfold flen in Hl. lia.
    + by left.
  - split; [by left|]. split; [intros i off _; by rewrite Hs|]. intros x. unfold disk. by rewrite Hs.
Qed.
Lemma inv_open v b : inv v -> inv (with_open b v).
Proof. intros I. destruct I. by constructor. Qed.

(** The dynamic header of an image without parent. *)
Definition own_dynamicheader v : VHDDynamicHeader :=
  with_d_checksum (calculate_checksum (dynamic_bytes (base_dynamicheader v))) (base_dynamicheader v).
Lemma write_dynamicheader_spec v : 0 <= dynamic_header_offset v -> 0 <= bat_offset v < 2 ^ 64 -> 0 <= batsize v < 2 ^ 32 -> 0 <= blocksize v < 2 ^ 32 ->
  exists f, write_dynamicheader None v = Ran (true, with_file f (with_dynamicheader (own_dynamicheader v) (init_bitmap v))) /\
    flen f = Z.max (flen (file v)) (dynamic_header_offset v + 1024) /\
    forall x, 0 <= x -> raw f x = if (dynamic_header_offset v <=? x) && (x <? dynamic_header_offset v + 1024)
      then znth nul (dynamic_bytes (own_dynamicheader v)) (x - dynamic_header_offset v) else raw (file v) x.
Proof.
  intros Hd Hb Hn Hbs. pose proof (zlen_dynamic _ (base_dynamic_wf v Hb Hn Hbs _ (checksum_range (dynamic_bytes (base_dynamicheader v))))) as Hl.
  fold (own_dynamicheader v) in Hl.
  destruct (write_at_spec (dynamic_header_offset v) (dynamic_bytes (own_dynamicheader v)) (with_dynamicheader (own_dynamicheader v) (init_bitmap v)))
    as (f & E & _ & Hfl & Hr); [done|]. rewrite Hl in *. exists f. split; [|done].
  unfold write_dynamicheader; cbn [vbind negb]. change (dynamicheader (init_bitmap _)) with (base_dynamicheader v).
  change (with_dynamicheader _ (init_bitmap (with_dynamicheader _ v))) with (with_dynamicheader (own_dynamicheader v) (init_bitmap v)).
  by f_equal.
Qed.

(** The table and the footer of an image without blocks. *)
Lemma create_table v : inv v -> saved v -> headed v -> (forall i, slot v i = None) ->
  exists f, with_open true (snd (write_footer (snd (write_bat v)))) = with_open true (with_file f v) /\ inv (with_open true (with_file f v)) /\
    saved (with_open true (with_file f v)) /\ full (with_open true (with_file f v)) /\ headed (with_open true (with_file f v)) /\
    stored (with_open true (with_file f v)) /\ forall x, disk (with_open true (with_file f v)) x = parent_byte v x.
Proof.
  intros I S Hh Hs. destruct (i_next v I) as [Hnx _]. destruct (i_bat v I) as (Eb & _ & _ & Hb0). pose proof (i_len v I). pose proof (zlen_nonneg (bat v)).
  unfold bat_end, write_bat in *. destruct (write_at_spec (bat_offset v) (bat_bytes (bat v)) v) as (f1 & -> & _ & Hl1 & Hr1); [lia|]. cbn [snd].
  rewrite zlen_bat_bytes in *.
  destruct (write_footer_spec (with_file f1 v)) as (f & -> & Ho & Hf & Ht & Hl & Hc); [vcbn; lia|exact (i_footer v I)| |].
  { vcbn. intros x Hx. rewrite Hr1, not_between by lia. by apply (i_tail v I). }
  cbn [snd]. vcbn. change (with_file f (with_file f1 v)) with (with_file f v). exists f. split; [done|].
  assert (R : forall x, 0 <= x < nextblock_offset v -> ~ (bat_offset v <= x < bat_offset v + 4 * zlen (bat v)) -> raw f x = raw (file v) x)
    by (intros x Hx Hx'; rewrite Ho, Hr1, not_between by lia; done).
  destruct (between_blocks v f I S) as (I' & S' & D'); [|done|lia|].
  { intros x Hx. unfold bat_end in Hx. apply R; lia. }
  split; [by apply inv_open|]. split; [done|].
  split; [intros i off _ E; change (slot v i = Some off) in E; by rewrite Hs in E|]. split; [|split].
  - destruct Hh as [A B C D E G HF J K]. constructor; try done. intros x Hx. change (raw f (dynamic_header_offset v + x) = znth nul (dynamic_bytes (dynamicheader v)) x).
    rewrite R by lia. by apply K.
  - constructor.
    + change (forall x, 0 <= x < 4 * batsize v -> raw f (bat_offset v + x) = znth nul (bat_bytes (bat v)) x). intros x Hx.
      rewrite Ho, Hr1, between by lia. f_equal. lia.
    + exact Hf.
    + change (nextblock_offset v + 512 <= flen f /\ (compressed v = false -> flen f = nextblock_offset v + 512)). split; [lia|]. exact Hc.
  - intros x. unfold disk. change (slot (with_open true (with_file f v))) with (slot v). by rewrite Hs.
Qed.

Lemma write_bat_sizes v : bat_offset (snd (write_bat v)) = bat_offset v /\ batsize (snd (write_bat v)) = batsize v.
Proof.
  unfold write_bat, write_at, file_Seek, file_Write. destruct (MemFile.Seek (file v) (bat_offset v)) as [[] g]; [|done]. vcbn.
  by destruct (MemFile.Write g (bat_bytes (bat v))) as [[? ?] ?].
Qed.
Lemma write_bat_next n v : snd (write_bat (with_nextblock n v)) = with_nextblock n (snd (write_bat v)).
Proof.
  unfold write_bat, write_at, file_Seek, file_Write; vcbn. destruct (MemFile.Seek (file v) (bat_offset v)) as [[] g]; [|done]. vcbn.
  by destruct (MemFile.Write g (bat_bytes (bat v))) as [[? ?] ?].
Qed.

Lemma create_spec now random open_parent fast comp f dst bs : contents f = [] -> zlen random = 16 -> 0 < bs < 2 ^ 32 -> bs mod sector_size = 0 ->
  0 <= dst < 2 ^ 62 -> new_batsize dst bs < no_block ->
  exists v, VHDFile now random open_parent false fast comp f dst bs = Ran v /\ inv v /\ saved v /\ full v /\ headed v /\ stored v /\
    (is_open v = true /\ read_only v = false /\ fast_mode v = fast /\ compressed v = comp /\ finished v = false) /\
    (dstsize v = dst /\ blocksize v = bs /\ batsize v = new_batsize dst bs /\ curr_offset v = 0 /\ volume_offset v = 0 /\ parent v = None) /\
    nextblock_offset v = next_sector (def_bat_offset + new_batsize dst bs * 4) /\ bitmap_size v = bitmap_bytes bs /\ forall x, disk v x = nul.
Proof.
  intros Hf Hr Hb Hbm Hd Hn. unfold VHDFile. rewrite size_law, Hf. change (zlen [] =? 0) with true. cbn [andb negb].
  rewrite (proj2 (Z.eqb_neq _ _)) by lia. destruct (new_batsize_spec dst bs) as [Hn0 Hnd]; [lia|lia|].
  destruct (new_bat_spec def_bat_offset (blank false fast comp f dst bs)) as [Ez Eb]; [cbn; lia..|]. cbn [blank dstsize blocksize] in Ez, Eb.
  set (v0 := new_bat def_bat_offset (blank false fast comp f dst bs)) in *.
  set (ft := new_footer now random false v0).
  assert (Wf : footer_wf ft) by (apply new_footer_wf; [done|done|cbn; lia]). pose proof (zlen_footer ft Wf) as Hfl.
  change (write_header now random false v0) with (write_at (header_offset v0) (footer_bytes ft) (with_footer ft v0)).
  destruct (write_at_spec (header_offset v0) (footer_bytes ft) (with_footer ft v0)) as (f1 & -> & _ & Hl1 & Hr1); [done|].
  cbn [snd]. set (v1 := with_file f1 (with_footer ft v0)) in *.
  destruct (write_dynamicheader_spec v1) as (f2 & -> & Hl2 & Hr2); [done|done|change (batsize v1) with (batsize v0); rewrite Ez; unfold no_block in *; lia|cbn; lia|].
  cbn [vbind]. set (v2 := with_file f2 _).
  assert (Ebat : with_nextblock (next_sector (bat_offset (snd (write_bat v2)) + batsize (snd (write_bat v2)) * 4)) (snd (write_bat v2)) =
    snd (write_bat (with_nextblock (next_sector (1536 + batsize v0 * 4)) v2))).
  { destruct (write_bat_sizes v2) as [-> ->]. by rewrite write_bat_next. }
  rewrite Ebat, Ez. destruct (next_sector_spec (1536 + new_batsize dst bs * 4)) as [Hnx Hnm]; [unfold no_block in *; lia|].
  set (nx := next_sector (1536 + new_batsize dst bs * 4)) in *. set (v3 := with_nextblock nx v2).
  change (file v1) with f1 in *. change (file (with_footer ft v0)) with f in *. rewrite Hfl in Hl1. change (header_offset v0) with 0 in *.
  assert (Hlf : flen f = 0) by (unfold flen; by rewrite Hf). change (dynamic_header_offset v1) with 512 in *.
  destruct (bitmap_bytes_spec bs Hb) as (Hbb & _). assert (Hnb : new_batsize dst bs < 2 ^ 32 - 1) by exact Hn.
  destruct (fresh_inv v3) as (I3 & S3 & _ & D3); try done.
  { cbn. apply zlen_zresize. lia. }
  { change (batsize v3) with (batsize v0). by rewrite Ez. }
  { change (1536 + 4 * batsize v0 <= nx < 2 ^ 62). rewrite Ez. lia. }
  { change (flen f2 <= nx + 512). lia. }
  destruct (create_table v3 I3 S3) as (f3 & E3 & I4 & S4 & F4 & H4 & St4 & D4).
  { constructor.
    - split; [exact Wf|apply new_footer_valid].
    - by vm_compute.
    - by vm_compute.
    - change (big_endian64 (big_endian64 dst) = dst). apply big_endian64_involutive. lia.
    - by vm_compute.
    - split; [|exact (eq_refl (calculate_checksum (dynamic_bytes (base_dynamicheader v1))))].
      apply base_dynamic_wf; [done|change (batsize v1) with (batsize v0); rewrite Ez; lia|change (0 <= bs < 2 ^ 32); lia|apply checksum_range].
    - change (big_endian (big_endian bs) = bs /\ big_endian (big_endian (batsize v0)) = batsize v0 /\ big_endian64 (big_endian64 1536) = 1536). rewrite Ez.
      by rewrite !big_endian_involutive, big_endian64_involutive by (done || lia).
    - done.
    - change (forall x, 0 <= x < 1024 -> raw f2 (512 + x) = znth nul (dynamic_bytes (own_dynamicheader v1)) x). intros x Hx.
      rewrite Hr2, between by lia. f_equal. lia. }
  { intros i. unfold slot, bat_entry. change (bat v3) with (bat v0). rewrite Eb. destruct (_ !! _) as [e|] eqn:E; [|done].
    by apply lookup_replicate in E as [-> _]. }
  rewrite E3. eexists. split; [done|]. do 5 (split; [done|]). split; [done|]. split; [|split; [done|split; [done|done]]].
  do 2 (split; [done|]). split; [exact Ez|done].
Qed.
End Image.

(** * Differencing images: a new image over a parent has the parent's disk. *)

(** The names fit into the header, the sector for the absolute path and the blocks for
    the relative one. *)
Definition names_fit (n : parent_names) : Prop :=
  zlen (unicodename n) <= 510 /\ zlen (abs_unicodename n) <= 512 /\ zlen (rel_unicodename n) <= 128 * sector_size.

Section Diff.
Context {F P : Type} `{FileLaws F} `{VHDParentLaws P}.
Notation t := (t (F := F) (P := P)).
Implicit Types (v : t).

Definition abs_locator (n : parent_names) : VHDParentLocator :=
  mkLocator (big_endian 0x57326B75) (big_endian (w32 (w32 (name_blocks (zlen (abs_unicodename n))) * sector_size)))
    (big_endian (w32 (zlen (abs_unicodename n)))) 0 (big_endian64 (def_bat_offset_parent - 512)).
Definition rel_locator (n : parent_names) (next : Z) : VHDParentLocator :=
  mkLocator (big_endian 0x57327275) (big_endian (w32 (128 * sector_size))) (big_endian (w32 (zlen (rel_unicodename n)))) 0 (big_endian64 next).
(** The dynamic header of a differencing image. *)
Definition diff_dynamicheader (puid : bytes) (ptimestamp : Z) (n : parent_names) v : VHDDynamicHeader :=
  let h := base_dynamicheader v in
  let un := unicodename n ++ [nul; nul] in
  with_locators [abs_locator n; rel_locator n (nextblock_offset v)]
    (mkDynamic (d_cookie h) (dataoffset h) (tableoffset h) (header_version h) (table_entries h) (d_blocksize h) 0 puid
      (big_endian ptimestamp) 0 (un ++ zeros (512 - zlen un)) (parentlocator h) (reserved2 h)).

Lemma abs_locator_wf n : locator_wf (abs_locator n).
Proof.
  constructor; [|by apply big_endian64_range]. cbn [abs_locator platform_code platform_space platform_length l_reserved].
  repeat apply Forall_cons_2; try (by apply Forall_nil); [by apply big_endian_range|exact (w32_be_range _)|exact (w32_be_range _)|done].
Qed.
Lemma rel_locator_wf n next : 0 <= next < 2 ^ 64 -> locator_wf (rel_locator n next).
Proof.
  intros Hn. constructor; [|by apply big_endian64_range]. cbn [rel_locator platform_code platform_space platform_length l_reserved].
  repeat apply Forall_cons_2; try (by apply Forall_nil); [by apply big_endian_range|exact (w32_be_range _)|exact (w32_be_range _)|done].
Qed.

Lemma diff_dynamic_wf puid ptimestamp n v c : zlen puid = 16 -> 0 <= ptimestamp < 2 ^ 32 -> names_fit n -> 0 <= nextblock_offset v < 2 ^ 64 ->
  0 <= bat_offset v < 2 ^ 64 -> 0 <= batsize v < 2 ^ 32 -> 0 <= blocksize v < 2 ^ 32 -> 0 <= c < 2 ^ 32 ->
  dynamic_wf (with_d_checksum c (diff_dynamicheader puid ptimestamp n v)).
Proof.
  intros Hu Ht (Hn & _) Hx Ho Hs Hb Hc. pose proof (zlen_nonneg (unicodename n)). constructor.
  - cbn [d_cookie parent_uid parent_unicodename reserved2 diff_dynamicheader with_locators with_d_checksum base_dynamicheader].
    split; [done|]. split; [done|]. split; [|done]. assert (Hl : zlen (unicodename n ++ [nul; nul]) = zlen (unicodename n) + 2) by (rewrite zlen_app; done).
    rewrite zlen_app, zlen_vzeros, Hl by lia. lia.
  - unfold diff_dynamicheader, base_dynamicheader, with_locators, with_d_checksum;
      cbn [header_version table_entries d_blocksize d_checksum parent_timestamp d_reserved].
    repeat apply Forall_cons_2; try (by apply Forall_nil); try done; by apply big_endian_range.
  - unfold diff_dynamicheader, base_dynamicheader, with_locators, with_d_checksum; cbn [dataoffset tableoffset].
    repeat apply Forall_cons_2; try (by apply Forall_nil); [done|]. by apply big_endian64_range.
  - cbn [parentlocator diff_dynamicheader with_locators with_d_checksum]. split; [done|]. cbn [app].
    apply Forall_cons_2; [apply abs_locator_wf|]. apply Forall_cons_2; [by apply rel_locator_wf|]. apply Forall_replicate.
    constructor; [|done]. repeat apply Forall_cons_2; try (by apply Forall_nil); done.
Qed.

Lemma name_blocks_small n : 0 <= n <= 512 -> w32 (name_blocks n) <= 1.
Proof.
  intros Hn. unfold name_blocks, sector_size. pose proof (Z.div_mod n 512). pose proof (Z.mod_pos_bound n 512).
  rewrite w32_id; destruct (Z.eqb_spec (n mod 512) 0); cbn [negb]; lia.
Qed.

Lemma write_parent_spec puid ptimestamp n v : names_fit n -> 0 <= nextblock_offset v < 2 ^ 62 ->
  exists f, write_parent puid ptimestamp n v =
      Ran (true, with_nextblock (nextblock_offset v + 128 * sector_size) (with_dynamicheader (diff_dynamicheader puid ptimestamp n v) (with_file f v))) /\
    flen f = Z.max (Z.max (flen (file v)) (1536 + zlen (abs_unicodename n))) (nextblock_offset v + zlen (rel_unicodename n)).
Proof.
  intros (Hn1 & Hn2 & Hn3) Hx. unfold write_parent. pose proof (zlen_nonneg (unicodename n)). pose proof (zlen_nonneg (abs_unicodename n)). pose proof (zlen_nonneg (rel_unicodename n)).
  assert (Hl : zlen (unicodename n ++ [nul; nul]) = zlen (unicodename n) + 2) by (rewrite zlen_app; done).
  rewrite (proj2 (Z.ltb_ge _ _)) by lia. pose proof (name_blocks_small (zlen (abs_unicodename n)) ltac:(lia)). cbv zeta.
  rewrite (proj2 (Z.ltb_ge _ _)) by done. change (def_bat_offset_parent - 512) with 1536.
  match goal with |- context [write_at 1536 ?b ?w] => destruct (write_at_spec 1536 b w) as (f1 & -> & _ & Hl1 & _); [done|] end. cbn [negb].
  assert (Eb : (if (if 0 <? name_blocks (zlen (rel_unicodename n)) then 1 else 0) <? 128 then 128
    else if 0 <? name_blocks (zlen (rel_unicodename n)) then 1 else 0) = 128) by (by destruct (0 <? _)).
  rewrite !Eb. vcbn. match goal with |- context [write_at ?o ?b ?w] => destruct (write_at_spec o b w) as (f2 & -> & _ & Hl2 & _); [lia|] end. cbn [negb].
  vcbn. exists f2. split; [|by rewrite Hl2, Hl1]. rewrite w64_id by (unfold sector_size; lia). done.
Qed.

(** The dynamic header with its checksum. *)
Definition child_dynamicheader (puid : bytes) (ptimestamp : Z) (n : parent_names) v : VHDDynamicHeader :=
  with_d_checksum (calculate_checksum (dynamic_bytes (diff_dynamicheader puid ptimestamp n v))) (diff_dynamicheader puid ptimestamp n v).
Lemma write_diff_header_spec puid ptimestamp n v : zlen puid = 16 -> 0 <= ptimestamp < 2 ^ 32 -> names_fit n -> 0 <= nextblock_offset v < 2 ^ 62 ->
  0 <= dynamic_header_offset v -> 0 <= bat_offset v < 2 ^ 64 -> 0 <= batsize v < 2 ^ 32 -> 0 <= blocksize v < 2 ^ 32 ->
  exists f, write_dynamicheader (Some (puid, ptimestamp, n)) v =
      Ran (true, with_file f (with_dynamicheader (child_dynamicheader puid ptimestamp n v) (init_bitmap (with_nextblock (nextblock_offset v + 128 * sector_size) v)))) /\
    flen f = Z.max (Z.max (Z.max (flen (file v)) (1536 + zlen (abs_unicodename n))) (nextblock_offset v + zlen (rel_unicodename n))) (dynamic_header_offset v + 1024) /\
    forall x, 0 <= x < 1024 -> raw f (dynamic_header_offset v + x) = znth nul (dynamic_bytes (child_dynamicheader puid ptimestamp n v)) x.
Proof.
  intros Hu Ht Hn Hx Hd Hb Hs Hbs. pose proof (diff_dynamic_wf puid ptimestamp n v _ Hu Ht Hn ltac:(lia) Hb Hs Hbs (checksum_range (dynamic_bytes (diff_dynamicheader puid ptimestamp n v)))) as Hw.
  fold (child_dynamicheader puid ptimestamp n v) in Hw. pose proof (zlen_dynamic _ Hw) as Hl.
  destruct (write_parent_spec puid ptimestamp n v Hn Hx) as (f1 & E & Hl1). unfold write_dynamicheader. rewrite E. cbn [vbind negb].
  set (w := with_nextblock _ _). change (dynamicheader (init_bitmap w)) with (diff_dynamicheader puid ptimestamp n v).
  fold (child_dynamicheader puid ptimestamp n v).
  destruct (write_at_spec (dynamic_header_offset v) (dynamic_bytes (child_dynamicheader puid ptimestamp n v))
    (with_dynamicheader (child_dynamicheader puid ptimestamp n v) (init_bitmap w))) as (f & Ew & _ & Hfl & Hr); [done|].
  rewrite Hl in *. exists f. split; [|split].
  - change (Ran (write_at (dynamic_header_offset v) (dynamic_bytes (child_dynamicheader puid ptimestamp n v))
      (with_dynamicheader (child_dynamicheader puid ptimestamp n v) (init_bitmap w))) =
      Ran (true, with_file f (with_dynamicheader (child_dynamicheader puid ptimestamp n v) (init_bitmap w)))). by rewrite Ew.
  - rewrite Hfl. change (file (with_dynamicheader (child_dynamicheader puid ptimestamp n v) (init_bitmap w))) with f1. by rewrite Hl1.
  - intros x Hx'. rewrite Hr, between by lia. f_equal. lia.
Qed.

(** The size of a differencing image. *)
Definition diff_size (dst psize : Z) : Z := if (0 <? dst) && negb (dst =? psize) then dst else psize.

Lemma create_diff_spec now random open_parent fast comp f dst p puid ptimestamp n : contents f = [] -> zlen random = 16 ->
  p_good p -> zlen puid = 16 -> 0 <= ptimestamp < 2 ^ 32 -> names_fit n ->
  0 < p_block p < 2 ^ 32 -> p_block p mod sector_size = 0 -> 0 <= diff_size dst (p_size p) < 2 ^ 62 -> diff_size dst (p_size p) <= p_size p ->
  new_batsize (diff_size dst (p_size p)) (p_block p) < no_block ->
  exists v, VHDFile_diff now random open_parent p (p_size p) (p_block p) puid ptimestamp n false fast comp f dst = Ran v /\
    inv v /\ saved v /\ full v /\ headed v /\ stored v /\
    (is_open v = true /\ read_only v = false /\ fast_mode v = fast /\ compressed v = comp /\ finished v = false) /\
    (dstsize v = diff_size dst (p_size p) /\ blocksize v = p_block p /\ curr_offset v = 0 /\ volume_offset v = 0 /\ parent v = Some p) /\
    parent_uid (dynamicheader v) = puid /\ bitmap_size v = bitmap_bytes (p_block p) /\
    nextblock_offset v = next_sector (def_bat_offset_parent + new_batsize (diff_size dst (p_size p)) (p_block p) * 4) + 128 * sector_size /\
    forall x, disk v x = p_disk p x.
Proof.
  intros Hf Hr Hp Hu Ht Hnm Hb Hbm Hd Hdp Hn. unfold VHDFile_diff. rewrite size_law, Hf. change (zlen [] =? 0) with true. cbn [andb negb].
  rewrite (proj2 (Z.eqb_neq _ _)) by lia. fold (diff_size dst (p_size p)). set (d := diff_size dst (p_size p)) in *. set (bs := p_block p) in *.
  destruct (new_batsize_spec d bs) as [Hn0 Hnd]; [lia|lia|].
  destruct (new_bat_spec def_bat_offset_parent (with_parent (Some p) (blank false fast comp f d bs))) as [Ez Eb]; [cbn; lia..|].
  cbn [blank with_parent dstsize blocksize] in Ez, Eb.
  set (v0 := new_bat def_bat_offset_parent (with_parent (Some p) (blank false fast comp f d bs))) in *.
  change (bat_offset v0) with 2048. rewrite Ez. destruct (next_sector_spec (2048 + new_batsize d bs * 4)) as [Hnx Hnxm]; [unfold no_block in *; lia|].
  set (nx := next_sector (2048 + new_batsize d bs * 4)) in *. set (v1 := with_nextblock nx v0). set (ft := new_footer now random true v1).
  assert (Wf : footer_wf ft) by (apply new_footer_wf; [done|done|cbn; lia]). pose proof (zlen_footer ft Wf) as Hfl.
  change (write_header now random true v1) with (write_at (header_offset v1) (footer_bytes ft) (with_footer ft v1)).
  destruct (write_at_spec (header_offset v1) (footer_bytes ft) (with_footer ft v1)) as (f1 & -> & _ & Hl1 & Hr1); [done|].
  cbn [snd]. set (v2 := with_file f1 (with_footer ft v1)) in *. assert (Hnb : new_batsize d bs < 2 ^ 32 - 1) by exact Hn.
  assert (Ez2 : batsize v2 = new_batsize d bs) by exact Ez.
  assert (Enx : nx = next_sector (2048 + new_batsize d bs * 4)) by done. clearbody nx.
  destruct (write_diff_header_spec puid ptimestamp n v2 Hu Ht Hnm) as (f2 & -> & Hl2 & Hr2);
    [change (0 <= nx < 2 ^ 62); lia|done|done|rewrite Ez2; lia|change (0 <= bs < 2 ^ 32); lia|].
  cbn [vbind]. set (v3 := with_file f2 _).
  change (file v2) with f1 in *. change (file (with_footer ft v1)) with f in *. rewrite Hfl in Hl1. change (header_offset v1) with 0 in *.
  change (nextblock_offset v2) with nx in *. change (dynamic_header_offset v2) with 512 in *.
  assert (Hlf : flen f = 0) by (unfold flen; by rewrite Hf). destruct (bitmap_bytes_spec bs Hb) as (Hbb & _). destruct Hnm as (Hnm1 & Hnm2 & Hnm3).
  pose proof (zlen_nonneg (abs_unicodename n)). unfold sector_size in Hnm3.
  destruct (fresh_inv v3) as (I3 & S3 & _ & D3); try done.
  { cbn. apply zlen_zresize. lia. }
  { change (batsize v3) with (batsize v2). by rewrite Ez2. }
  { change (2048 + 4 * batsize v2 <= nx + 128 * 512 < 2 ^ 62). rewrite Ez2. lia. }
  { change ((nx + 128 * 512) mod 512 = 0). rewrite Z.mod_add by done. exact Hnxm. }
  { change (flen f2 <= nx + 128 * 512 + 512). lia. }
  destruct (create_table v3 I3 S3) as (f3 & E3 & I4 & S4 & F4 & H4 & St4 & D4).
  { constructor.
    - split; [exact Wf|apply new_footer_valid].
    - by vm_compute.
    - by vm_compute.
    - change (big_endian64 (big_endian64 d) = d). apply big_endian64_involutive. lia.
    - by vm_compute.
    - split; [|exact (eq_refl (calculate_checksum (dynamic_bytes (diff_dynamicheader puid ptimestamp n v2))))].
      apply diff_dynamic_wf; [done|done|done|change (0 <= nx < 2 ^ 64); lia|done|rewrite Ez2; lia|change (0 <= bs < 2 ^ 32); lia|apply checksum_range].
    - change (big_endian (big_endian bs) = bs /\ big_endian (big_endian (batsize v2)) = batsize v2 /\ big_endian64 (big_endian64 2048) = 2048). rewrite Ez2.
      by rewrite !big_endian_involutive, big_endian64_involutive by (done || lia).
    - done.
    - exact Hr2. }
  { intros i. unfold slot, bat_entry. change (bat v3) with (bat v0). rewrite Eb. destruct (_ !! _) as [e|] eqn:E; [|done].
    by apply lookup_replicate in E as [-> _]. }
  rewrite E3. eexists. split; [done|]. do 5 (split; [done|]). split; [done|]. split; [done|]. split; [done|]. split; [done|].
  split; [change (nx + 128 * sector_size = next_sector (2048 + new_batsize d bs * 4) + 128 * sector_size); by rewrite Enx|exact D4].
Qed.
End Diff.
