(* ===== verification/VhdReopen.v ===== *)
(** Finishing an image and opening its file again. *)
From S2P Require Import Prelude MemFile VhdFormat VhdFile VhdSpec VhdSteps VhdRead VhdWrite VhdTable VhdOps VhdImage.
Import VHDFile.

(** [Sync] succeeds and leaves the file as it is. *)
Class FinishLaws (F : Type) `{FileLaws F} `{IFinish F} := {
  finish_law : forall f, fst (file_finish f) = true /\ contents (snd (file_finish f)) = contents f }.

Section Reopen.
Context {F P : Type} `{FileLaws F} `{VHDParentLaws P}.
Notation t := (t (F := F) (P := P)).
Implicit Types (v : t).

(** The file [f] holds all of the image. *)
Record closed v (f : F) : Prop := {
  cl_spares : spares v f;
  cl_flushed : flushed v f;
  cl_stored : stored (with_file f v);
  cl_headers : forall x, 0 <= x < bat_offset v -> raw f x = raw (file v) x;
  cl_len : flen f = nextblock_offset v + 512 }.

Lemma closed_same v f f' : closed v f -> contents f' = contents f -> closed v f'.
Proof.
  intros [A B [C1 C2 C3] D E] Hc. destruct (raw_contents f f' Hc) as [Hr Hl]. vcbn. constructor.
  - intros i off y Hi Ei Hy. rewrite Hr. by apply (A i).
  - destruct B as [?|B]; [by left|]. right. intros x Hx. rewrite Hr. by apply B.
  - constructor; vcbn; [intros x Hx; rewrite Hr; by apply C1|intros x Hx; rewrite Hr; by apply C2|by rewrite Hl].
  - intros x Hx. rewrite Hr. by apply D.
  - by rewrite Hl.
Qed.

(** ** Finishing *)

Context `{!IFinish F} `{!FinishLaws F}.

Lemma finish_flush v : inv v -> saved v -> read_only v = false -> compressed v = false -> (fast_mode v = false -> stored v) ->
  exists f, (if fast_mode (switchBitmap 0 v) && negb (read_only (switchBitmap 0 v))
             then let '(ok, v) := write_footer (switchBitmap 0 v) in if negb ok then (false, v) else write_bat v
             else (true, switchBitmap 0 v)) = (true, with_dirty 0 false (with_file f v)) /\ closed v f.
Proof.
  intros I Hs Hro Hco Hst. destruct (switch_spec 0 v I Hs) as (f & E & Hsp & Hfl & Hl & Ht & Hlv). rewrite E.
  assert (Hlow : forall x, 0 <= x < bat_offset v -> raw f x = raw (file v) x) by (intros x Hx; apply Hlv; [lia|]; apply outside_low; [done|lia]).
  destruct (i_next v I) as [Hnx _]. destruct (i_bat v I) as (Eb & _ & _ & Hb0). vcbn. rewrite Hro, andb_true_r. destruct (fast_mode v) eqn:Ef.
  - destruct (write_both (with_dirty 0 false (with_file f v))) as (f' & -> & [S1 S2 S3] & Ho & Hm & Ht' & Hl'); try done; [apply (i_footer v I)|].
    exists f'. split; [done|]. vcbn. unfold bat_end in *; vcbn.
    assert (R : forall j oj y, 0 <= j -> slot v j = Some oj -> 0 <= y < bitmap_size v + blocksize v -> raw f' (oj + y) = raw f (oj + y)).
    { intros j oj y Hj Ej Hy. pose proof (slot_bounds v j oj I Hj Ej). apply Hm. lia. }
    constructor; vcbn.
    + intros i off y Hi Ei Hy. rewrite (R i off y Hi Ei Hy). by apply Hsp.
    + destruct Hfl as [?|Hfl]; [by left|]. destruct (decide (currblock v = no_block)) as [|Hn]; [by left|]. right. intros x Hx.
      destruct (curr_slot v I Hn) as [Hc Ec]. pose proof (slot_bounds v _ _ I (proj1 Hc) Ec). rewrite (R _ _ x (proj1 Hc) Ec) by lia. by apply Hfl.
    + by constructor.
    + intros x Hx. rewrite Ho by done. by apply Hlow.
    + destruct S3 as [_ S3]. by apply S3.
  - exists f. split; [done|]. specialize (Hst eq_refl).
    assert (Sf : stored (with_file f v)) by (apply (same_places_stored v); [done|done| |done]; split; [done|]; split; [done|]; split; [done|vcbn; lia]).
    constructor; try done. destruct Sf as [_ _ [_ Sl]]. by apply Sl.
Qed.

Lemma finish_spec v : inv v -> saved v -> read_only v = false -> compressed v = false -> is_open v = true -> finished v = false ->
  (fast_mode v = false -> stored v) -> match parent v with Some p => fst (p_finish p) = true | None => True end ->
  exists v', finish v = (true, v') /\ closed v (file v').
Proof.
  intros I Hs Hro Hco Hop Hfi Hst Hp. destruct (finish_flush v I Hs Hro Hco Hst) as (f & E & C). unfold finish. rewrite Hfi, Hop. cbn [negb].
  rewrite E. cbn [negb]. vcbn. assert (Hend : forall q, exists v', (if negb (compressed v) && read_only v then (true, with_finished true (with_parent q (with_dirty 0 false (with_file f v))))
      else let '(ok, f0) := file_finish f in if ok : bool then (true, with_finished true (with_file f0 (with_parent q (with_dirty 0 false (with_file f v)))))
        else (false, with_file f0 (with_parent q (with_dirty 0 false (with_file f v))))) = (true, v') /\ closed v (file v')).
  { intros q. rewrite Hro, andb_false_r. destruct (finish_law f) as [Ok Hc]. destruct (file_finish f) as [ok f0]. cbn in Ok, Hc. subst ok.
    eexists. split; [done|]. vcbn. by apply (closed_same v f). }
  destruct (parent v) as [p|].
  - destruct (p_finish p) as [ok q] eqn:Eq. cbn in Hp. subst ok. cbn [negb]. apply (Hend (Some q)).
  - cbn [negb]. destruct (Hend (parent v)) as (v' & E' & C'). exists v'. split; [|done]. rewrite <- E'. 
    assert (Ew : with_parent (parent v) (with_dirty 0 false (with_file f v)) = with_dirty 0 false (with_file f v)) by done. by rewrite Ew.
Qed.

(** ** Opening *)

Lemma read_struct_spec old n v b : 0 <= n -> zsub (fpos (file v)) n (contents (file v)) = b -> zlen b = n -> zlen old <= n ->
  exists f, read_struct old n v = (true, b, with_file f v) /\ contents f = contents (file v).
Proof.
  intros Hn Hb Hl Ho. unfold read_struct. destruct (file_Read_spec n v Hn) as (f & -> & Hc & _). rewrite Hb, Hl, Z.eqb_refl. exists f.
  split; [|done]. unfold zsplice. rewrite ztake_0, zdrop_ge by lia. by rewrite app_nil_r.
Qed.
Lemma zsub_raw (f : F) o n b : 0 <= o -> zlen b = n -> o + n <= flen f -> (forall x, 0 <= x < n -> raw f (o + x) = znth nul b x) ->
  zsub o n (contents f) = b.
Proof.
  intros Ho Hb Hf Hr. pose proof (zlen_nonneg b). unfold flen in Hf. apply (list_eq_znth nul).
  - rewrite zlen_zsub; lia.
  - intros i Hi. rewrite zlen_zsub in Hi by lia. rewrite znth_zsub by lia. by apply Hr.
Qed.

Lemma read_footer_spec v ft : footer_wf ft -> footer_valid ft = true -> 512 <= flen (file v) ->
  (forall x, 0 <= x < 512 -> raw (file v) (flen (file v) - 512 + x) = znth nul (footer_bytes ft) x) -> zlen (footer_bytes (footer v)) <= 512 ->
  exists f, read_footer v = (true, with_footer ft (with_file f v)) /\ contents f = contents (file v).
Proof.
  intros Hw Hv Hl Hr Ho. unfold read_footer. rewrite size_law. fold (flen (file v)).
  destruct (file_Seek_spec (flen (file v) - 512) v) as (f1 & -> & Hc1 & Hp1); [lia|]. cbn [negb].
  destruct (read_struct_spec (footer_bytes (footer (with_file f1 v))) 512 (with_file f1 v) (footer_bytes ft)) as (f2 & -> & Hc2); [done| |by apply zlen_footer|done|].
  - vcbn. rewrite Hp1, Hc1. apply zsub_raw; [lia|by apply zlen_footer|lia|done].
  - vcbn. rewrite footer_roundtrip by done. cbn [negb]. rewrite Hv. exists f2. split; [done|congruence].
Qed.

(** The members that the dynamic header [h] gives, and the parent. *)
Definition with_headers (h : VHDDynamicHeader) (p : option P) v : t :=
  mk (read_only v) (fast_mode v) (compressed v) (file v) p (dstsize v) (big_endian (d_blocksize h)) (footer v) h
    (bat v) (big_endian (table_entries h)) (header_offset v) (dynamic_header_offset v) (big_endian64 (tableoffset h))
    (nextblock_offset v) (bitmap v) (bitmap_size v) (is_open v) (currblock v) (curr_offset v) (bitmap_offset v)
    (bitmap_dirty v) (volume_offset v) (finished v).

Lemma read_dynamicheader_spec open_parent v h (p : option P) : dynamic_wf h -> d_checksum h = calculate_checksum (dynamic_bytes (with_d_checksum 0 h)) ->
  0 <= dynamic_header_offset v -> dynamic_header_offset v + 1024 <= flen (file v) ->
  (forall x, 0 <= x < 1024 -> raw (file v) (dynamic_header_offset v + x) = znth nul (dynamic_bytes h) x) -> zlen (dynamic_bytes (dynamicheader v)) <= 1024 ->
  parent v = None -> big_endian (disk_type (footer v)) = (if p then 4 else 3) ->
  match p with Some q => open_parent h = Some (q, parent_uid h) | None => True end ->
  exists f, read_dynamicheader open_parent v = (true, init_bitmap (with_headers h p (with_file f v))) /\ contents f = contents (file v).
Proof.
  intros Hw Hv Hd Hl Hr Ho Hno Ht Hp. unfold read_dynamicheader.
  destruct (file_Seek_spec (dynamic_header_offset v) v) as (f1 & -> & Hc1 & Hp1); [lia|]. cbn [negb].
  destruct (read_struct_spec (dynamic_bytes (dynamicheader (with_file f1 v))) 1024 (with_file f1 v) (dynamic_bytes h)) as (f2 & -> & Hc2); [done| |by apply zlen_dynamic|done|].
  - vcbn. rewrite Hp1, Hc1. apply zsub_raw; [lia|by apply zlen_dynamic|lia|done].
  - vcbn. cbv zeta. rewrite dynamic_roundtrip by done. cbn [negb]. rewrite <- Hv, Z.eqb_refl. cbn [negb]. vcbn. rewrite Ht. exists f2.
    split; [|congruence]. destruct p as [q|].
    + rewrite Hp. cbn [Z.eqb]. rewrite bool_decide_true by done. done.
    + cbn [Z.eqb]. rewrite Hno. done.
Qed.

Lemma read_bat_spec v b : 0 <= bat_offset v -> batsize v = zlen b -> batsize v < 2 ^ 30 -> bat_offset v + 4 * zlen b <= flen (file v) ->
  Forall (fun e => 0 <= e < 2 ^ 32) b -> (forall x, 0 <= x < 4 * zlen b -> raw (file v) (bat_offset v + x) = znth nul (bat_bytes b) x) ->
  exists f, read_bat v = (true, with_bat b (with_file f v)) /\ contents f = contents (file v).
Proof.
  intros Ho Hn Hs Hl Hb Hr. pose proof (zlen_nonneg b). unfold read_bat.
  destruct (file_Seek_spec (bat_offset v) v) as (f1 & -> & Hc1 & Hp1); [lia|]. cbn [negb]. vcbn. rewrite w32_id by lia.
  destruct (file_Read_spec (batsize v * 4) (with_file f1 v)) as (f2 & -> & Hc2 & _); [lia|]. vcbn. rewrite Hp1, Hc1.
  rewrite (zsub_raw (file v) (bat_offset v) (batsize v * 4) (bat_bytes b)) by
    (try done; rewrite ?zlen_bat_bytes; try lia; intros x Hx; apply Hr; lia).
  rewrite zlen_bat_bytes. rewrite (proj2 (Z.eqb_eq _ _)) by lia. cbn [negb]. exists f2. split; [|congruence]. do 2 f_equal.
  rewrite Hn. unfold zlen. rewrite Nat2Z.id. by apply bat_roundtrip.
Qed.

(** An image [w] over the file [f] with the table and the sizes of [v]. *)
Lemma closed_image v f w : inv v -> closed v f -> contents (file w) = contents f ->
  (bat w, batsize w, bat_offset w, nextblock_offset w, dstsize w, blocksize w, bitmap_size w, footer w) =
  (bat v, batsize v, bat_offset v, nextblock_offset v, dstsize v, blocksize v, bitmap_size v, footer v) ->
  zlen (bitmap w) = bitmap_size w -> currblock w = no_block -> bitmap_dirty w = false -> same_parent (parent v) (parent w) ->
  inv w /\ saved w /\ full w /\ forall x, 0 <= x -> disk w x = disk v x.
Proof.
  intros I [Hsp Hfl _ _ Hl] Hc E Hbl Hcb Hdi Hpar. injection E as E1 E2 E3 E4 E5 E6 E7 E8. destruct (raw_contents f (file w) Hc) as [Hr Hlw].
  destruct (i_next v I) as [Hnx _]. destruct (i_bat v I) as (_ & Hnb & _).
  assert (Hs : forall i, slot w i = slot v i) by (intros i; by apply slot_eq).
  assert (Hd : forall i off o, 0 <= i -> slot v i = Some off -> 0 <= o < blocksize v ->
    raw (file w) (off + bitmap_size v + o) = raw (file v) (off + bitmap_size v + o)) by (intros; rewrite Hr; by apply spares_data with i).
  assert (Hb : forall i off o, 0 <= i -> slot v i = Some off -> 0 <= o < blocksize v -> block_bit w i off o = block_bit v i off o).
  { intros i off o Hi Ei Ho. pose proof (slot_bounds v i off I Hi Ei). destruct (bms_spec v I) as (_ & _ & Hbyte). specialize (Hbyte o Ho).
    unfold block_bit. rewrite Hcb, (proj2 (Z.eqb_neq _ _)) by (unfold no_block in *; lia). rewrite Hr. destruct (Z.eqb_spec (currblock v) i) as [Ec|Ec].
    - destruct Hfl as [Hfl|Hfl]; [unfold no_block in *; lia|]. destruct (curr_slot v I) as [_ Es]; [unfold no_block in *; lia|].
      rewrite Ec, Ei in Es. injection Es as ->. by rewrite Hfl.
    - destruct (Hsp i off (bitmap_byte o) Hi Ei) as [[? _]|R]; [lia|congruence|by rewrite R]. }
  split; [|split; [by left|split]].
  - constructor; rewrite ?E1, ?E2, ?E3, ?E4, ?E5, ?E6, ?E7, ?E8; try apply I; try done.
    + split; [apply (i_bms v I)|congruence].
    + unfold bat_end. rewrite E2, E3. apply (i_next v I).
    + intros i off Hi Ei. rewrite Hs in Ei. pose proof (slot_bounds v i off I Hi Ei). unfold bat_end. rewrite E2, E3. lia.
    + intros i j oi oj Hi Hj Hij Ei Ej. rewrite Hs in Ei, Ej. by apply (i_disjoint v I i j).
    + intros i off o Hi Ei Ho Hbit. rewrite Hs in Ei. rewrite Hb in Hbit by done. rewrite (Hd i) by done. by apply (i_zero v I i off).
    + lia.
    + intros x Hx. unfold raw. apply znth_out. fold (flen (file w)). lia.
    + by left.
    + pose proof (i_parent v I) as Hp. destruct (parent v), (parent w); try done. destruct Hpar as (? & _ & -> & ->). tauto.
  - intros i off Hi Ei. rewrite Hs in Ei. pose proof (slot_bounds v i off I Hi Ei). rewrite E6, E7. lia.
  - intros x Hx. destruct (disk_pos v x I Hx) as [Hj Ho]. unfold disk. rewrite E6, E7, Hs.
    assert (Hpb : parent_byte w x = parent_byte v x).
    { unfold parent_byte. destruct (parent v), (parent w); try done. destruct Hpar as (_ & Hpd & _). by apply Hpd. }
    rewrite Hpb. destruct (slot v (x / blocksize v)) as [off|] eqn:Ej; [|done]. by rewrite Hb, (Hd (x / blocksize v)) by done.
Qed.

Lemma open_spec v f open_parent now random ro fast dst bs p : inv v -> headed v -> closed v f -> batsize v < 2 ^ 30 -> dstsize v < 2 ^ 62 ->
  same_parent (parent v) p -> match p with Some q => open_parent (dynamicheader v) = Some (q, parent_uid (dynamicheader v)) | None => True end ->
  exists w, VHDFile now random open_parent ro fast false f dst bs = Ran w /\ inv w /\ saved w /\ full w /\ headed w /\ stored w /\
    (is_open w = true /\ read_only w = ro /\ fast_mode w = fast /\ compressed w = false /\ finished w = false) /\
    (dstsize w = dstsize v /\ blocksize w = blocksize v /\ batsize w = batsize v /\ curr_offset w = 0 /\ volume_offset w = 0 /\ parent w = p) /\
    forall x, 0 <= x -> disk w x = disk v x.
Proof.
  intros I [[Hfw Hfv] Hver Hty Hsz Hoff [Hdw Hdv] (Hf1 & Hf2 & Hf3) Hpl Hfile] C Hbs Hds Hpar Hop.
  pose proof C as [_ _ [Cb Cf [Cl _]] Ch Clen]. vcbn. destruct (i_next v I) as [Hnx Hnm]. destruct (i_bat v I) as (Eb & Hnb & Hall & Hb0).
  pose proof (zlen_nonneg (bat v)). pose proof (next_pos v I). unfold bat_end in *.
  unfold VHDFile. rewrite size_law. fold (flen f). rewrite (proj2 (Z.eqb_neq _ _)) by lia. cbn [andb]. unfold open_existing.
  set (v0 := blank ro fast false f dst bs).
  destruct (read_footer_spec v0 (footer v)) as (g1 & -> & G1); [done|done|change (file v0) with f; lia| |by vm_compute|].
  { change (file v0) with f. rewrite Clen. intros x Hx. rewrite <- Cf by done. f_equal. lia. }
  cbn [negb]. unfold process_footer. change (footer (with_footer (footer v) (with_file g1 v0))) with (footer v). rewrite Hver.
  assert (Ety : negb (big_endian (disk_type (footer v)) =? 3) && negb (big_endian (disk_type (footer v)) =? 4) = false) by (rewrite Hty; by destruct (parent v)).
  rewrite Ety. cbn [negb Z.eqb Pos.eqb]. rewrite Hsz, Hoff. cbv zeta.
  match goal with |- context [read_dynamicheader _ ?w] => set (v1 := w) end. change (file v0) with f in *.
  destruct (raw_contents f g1 G1) as [R1 L1].
  destruct (read_dynamicheader_spec open_parent v1 (dynamicheader v) p) as (g2 & -> & G2); try done.
  { apply Hpl. }
  { change (file v1) with g1. change (dynamic_header_offset v1) with (dynamic_header_offset v). lia. }
  { change (file v1) with g1. change (dynamic_header_offset v1) with (dynamic_header_offset v). intros x Hx. rewrite R1, Ch by lia. by apply Hfile. }
  { change (footer v1) with (footer v). rewrite Hty. destruct (parent v), p; done. }
  cbn [negb]. set (v2 := init_bitmap _). change (file v1) with g1 in *. destruct (raw_contents g1 g2 G2) as [R2 L2].
  destruct (read_bat_spec v2 (bat v)) as (g3 & -> & G3).
  { change (bat_offset v2) with (big_endian64 (tableoffset (dynamicheader v))). lia. }
  { change (batsize v2) with (big_endian (table_entries (dynamicheader v))). lia. }
  { change (batsize v2) with (big_endian (table_entries (dynamicheader v))). lia. }
  { change (bat_offset v2) with (big_endian64 (tableoffset (dynamicheader v))). change (file v2) with g2. lia. }
  { done. }
  { change (bat_offset v2) with (big_endian64 (tableoffset (dynamicheader v))). change (file v2) with g2. rewrite Hf3. intros x Hx. rewrite R2, R1.
    apply Cb. lia. }
  cbn [negb]. change (file v2) with g2 in *. assert (G : contents g3 = contents f) by congruence. destruct (raw_contents f g3 G) as [R3 L3].
  change (Size (file (with_bat (bat v) (with_file g3 v2)))) with (Size g3). rewrite size_law. fold (flen g3). rewrite L3, Clen.
  replace (nextblock_offset v + 512 - sector_size) with (nextblock_offset v) by (unfold sector_size; lia). rewrite w64_id, Hnm by lia. cbn [Z.eqb negb].
  set (w := with_open true _). pose proof (i_block v I) as [Hblk _]. pose proof (proj1 (i_bms v I)) as Hbm. destruct (bms_spec v I) as (Hbm0 & _).
  assert (Eb1 : blocksize w = blocksize v) by exact Hf1. assert (Eb2 : batsize w = batsize v) by exact Hf2.
  assert (Eb3 : bat_offset w = bat_offset v) by exact Hf3. assert (Eb4 : dstsize w = dstsize v) by done.
  assert (Eb5 : bitmap_size w = bitmap_size v) by (change (bitmap_bytes (big_endian (d_blocksize (dynamicheader v))) = bitmap_size v); by rewrite Hf1).
  destruct (closed_image v f w I C) as (Iw & Sw & Fw & Dw); [exact G|by rewrite Eb1, Eb2, Eb3, Eb4, Eb5| |done|done|exact Hpar|].
  { change (zlen (zresize nul (bitmap_bytes (big_endian (d_blocksize (dynamicheader v)))) []) = bitmap_size w). rewrite Eb5, Hf1, <- Hbm.
    apply zlen_zresize. lia. }
  exists w. split; [done|]. split; [done|]. split; [done|]. split; [done|]. split; [|split; [|split; [done|split; [done|done]]]].
  - constructor; try done; rewrite ?Eb3.
    + change (big_endian (disk_type (footer v)) = if p then 4 else 3). rewrite Hty. destruct (parent v), p; done.
    + exact Hpl.
    + change (dynamic_header_offset w) with (dynamic_header_offset v). change (file w) with g3. change (dynamicheader w) with (dynamicheader v).
      intros x Hx. rewrite R3, Ch by lia. by apply Hfile.
  - constructor; rewrite ?Eb2, ?Eb3; change (file w) with g3; change (nextblock_offset w) with (nextblock_offset v).
    + intros x Hx. rewrite R3. by apply Cb.
    + intros x Hx. rewrite R3. by apply Cf.
    + lia.
Qed.
End Reopen.
