(* ===== verification/VhdDisk.v ===== *)
(** An image behaves like a flat disk under any sequence of calls. *)
From S2P Require Import Prelude MemFile VhdFormat VhdFile VhdSpec VhdSteps VhdRead VhdWrite VhdTable VhdOps VhdImage.
Import VHDFile.

(** The calls of the clients of an image, which position it first. *)
Inductive disk_op :=
  | DRead (o n : Z)
  | DWrite (o : Z) (b : bytes)
  | DUnused (o e : Z).
Inductive disk_result :=
  | RBytes (b : bytes)
  | RCount (n : Z)
  | RDone
  | RFailed.

(** ** The flat disk *)

Definition overwrite (d : Z -> char) (lo n : Z) (src : Z -> char) (x : Z) : char := if (lo <=? x) && (x <? lo + n) then src x else d x.
Definition flat_step (op : disk_op) (d : Z -> char) : disk_result * (Z -> char) :=
  match op with
  | DRead o n => (RBytes (range d o n), d)
  | DWrite o b => (RCount (zlen b), overwrite d o (zlen b) (fun x => znth nul b (x - o)))
  | DUnused o e => (RDone, overwrite d o (e - o) (fun _ => nul))
  end.
Fixpoint flat_run (ops : list disk_op) (d : Z -> char) : list disk_result * (Z -> char) :=
  match ops with
  | [] => ([], d)
  | op :: ops => let '(r, d) := flat_step op d in let '(rs, d) := flat_run ops d in (r :: rs, d)
  end.

(** What the sizes allow: inside of the disk, reading in one block, and writing whole
    sectors unless the image has no parent. *)
Definition whole_sectors (child : bool) (o n : Z) : Prop := child = true -> o mod sector_size = 0 /\ n mod sector_size = 0.
Definition op_ok (dst bs : Z) (child : bool) (op : disk_op) : Prop :=
  match op with
  | DRead o n => 0 <= o /\ 0 < n /\ o + n <= dst /\ o / bs = (o + n - 1) / bs
  | DWrite o b => 0 <= o /\ b <> [] /\ o + zlen b <= dst /\ whole_sectors child o (zlen b)
  | DUnused o e => 0 <= o < e /\ e <= dst /\ whole_sectors child o (e - o)
  end.
(** How many blocks a call may add. *)
Definition op_blocks (bs : Z) (op : disk_op) : Z :=
  match op with
  | DRead _ _ => 0
  | DWrite o b => blocks_touched bs o (zlen b)
  | DUnused o e => blocks_touched bs o (e - o)
  end.
Definition ops_blocks (bs : Z) (ops : list disk_op) : Z := foldr (fun op n => op_blocks bs op + n) 0 ops.

Section Disk.
Context {F P : Type} `{FileLaws F} `{VHDParentLaws P}.
Notation t := (t (F := F) (P := P)).
Implicit Types (v : t).

Definition image_step (op : disk_op) (v : t) : vhd_run (disk_result * t) :=
  match op with
  | DRead o n =>
      let! (ok, read, buf, v) := Read (zeros n) n (Seek o v) in
      Ran (if ok : bool then RBytes (ztake read buf) else RFailed, v)
  | DWrite o b =>
      let! (n, has_error, v) := Write b (Seek o v) in
      Ran (if has_error : bool then RFailed else RCount n, v)
  | DUnused o e =>
      let! (ok, v) := setUnused o e v in Ran (if ok : bool then RDone else RFailed, v)
  end.
Fixpoint image_run (ops : list disk_op) (v : t) : vhd_run (list disk_result * t) :=
  match ops with
  | [] => Ran ([], v)
  | op :: ops => let! (r, v) := image_step op v in let! (rs, v) := image_run ops v in Ran (r :: rs, v)
  end.

(** An image that can be written, on which all is saved with every call. *)
Record live v : Prop := {
  lv_inv : inv v;
  lv_saved : saved v;
  lv_full : full v;
  lv_stored : stored v;
  lv_headed : headed v;
  lv_modes : read_only v = false /\ fast_mode v = false /\ volume_offset v = 0 }.

(** What a call keeps. *)
Definition shape v := (statics v, is_child v).

Lemma shape_eq v v' : shape v' = shape v -> dstsize v' = dstsize v /\ blocksize v' = blocksize v /\ bitmap_size v' = bitmap_size v /\
  is_child v' = is_child v.
Proof.
  intros E. assert (Es : statics v' = statics v) by exact (f_equal fst E). apply statics_eq in Es as (_ & _ & ? & ? & ? & _).
  split; [done|]. split; [done|]. split; [done|]. exact (f_equal snd E).
Qed.

Lemma live_written v lo n src v' : live v -> written v lo n src v' -> live v' /\ shape v' = shape v.
Proof.
  intros [I S Fu St Hd (Hro & Hfa & Hvo)] W. pose proof W as [I' S' D' [Ks Kp] Hh Rm Fu' St'].
  assert (E : shape v' = shape v) by (unfold shape, is_child; by rewrite Ks, Kp). split; [|done].
  constructor; [done|done|by apply Fu'|by apply St'|by apply (headed_written v lo n src v')|]. unfold statics in Ks. split; [congruence|]. split; congruence.
Qed.
Lemma Seek_live v o : live v -> 0 <= o < 2 ^ 64 -> Seek o v = with_offset o v.
Proof. intros L Ho. destruct (lv_modes v L) as (_ & _ & Hv). unfold Seek. by rewrite Hv, Z.add_0_r, !w64_id by (rewrite ?w64_id by lia; lia). Qed.
Lemma live_offset v o : live v -> live (with_offset o v) /\ shape (with_offset o v) = shape v /\ (forall x, disk (with_offset o v) x = disk v x).
Proof.
  intros [I S Fu [S1 S2 S3] [H1' H2' H3' H4' H5' H6' H7' H8' H9'] M]. pose proof (quiet_offset v o I S) as Q. split; [|done].
  constructor; [apply Q|done|done|by constructor|by constructor|done].
Qed.
Lemma live_quiet v v' : live v -> quiet v v' -> live v' /\ shape v' = shape v.
Proof.
  intros L Q. pose proof L as [I S Fu St [A B C D E G HF J K] (Hro & Hfa & Hvo)]. destruct (q_frame _ _ Q) as (Ks & Kb & Kn). pose proof (q_child _ _ Q) as Kc.
  assert (Es : shape v' = shape v) by (unfold shape; by rewrite Ks, Kc). split; [|done].
  assert (Em : read_only v' = read_only v /\ fast_mode v' = fast_mode v /\ volume_offset v' = volume_offset v) by (unfold statics in Ks; repeat split; congruence).
  assert (Eh : footer v' = footer v /\ dstsize v' = dstsize v /\ blocksize v' = blocksize v /\ dynamicheader v' = dynamicheader v /\ batsize v' = batsize v /\
    bat_offset v' = bat_offset v /\ dynamic_header_offset v' = dynamic_header_offset v) by (unfold statics in Ks; repeat split; congruence).
  destruct Eh as (E1 & E2 & E3 & E4 & E5 & E6 & E7). destruct Em as (M1 & M2 & M3).
  constructor; [apply Q|apply Q|by apply (quiet_full v)|by apply (quiet_stored v)| |by rewrite M1, M2, M3].
  constructor; rewrite ?E1, ?E2, ?E3, ?E4, ?E5, ?E6, ?E7; try done.
  - rewrite C. unfold is_child in Kc. destruct (parent v), (parent v'); done.
  - intros x Hx. rewrite (q_leaves _ _ Q) by (lia || (apply outside_low; [done|lia])). by apply K.
Qed.

Lemma room_same v v' n : shape v' = shape v -> nextblock_offset v' = nextblock_offset v -> room v n -> room v' n.
Proof. intros Es En. apply shape_eq in Es as (_ & Eb & Em & _). unfold room. by rewrite En, Eb, Em. Qed.

(** One call. *)
Record stepped v (m : Z) (d : Z -> char) v' : Prop := {
  sp_live : live v';
  sp_shape : shape v' = shape v;
  sp_disk : forall x, 0 <= x -> disk v' x = d x;
  sp_room : room v' m }.

Lemma sectors_of_ok v o n : whole_sectors (is_child v) o n -> sectors_only v o n.
Proof. intros Hw. unfold sectors_only, whole_sectors, is_child in *. destruct (parent v); [right; by apply Hw|by left]. Qed.
Lemma stepped_written v lo n src v' m : live v -> written v lo n src v' -> room v (touched v lo n + m) ->
  stepped v m (overwrite (disk v) lo n src) v'.
Proof. intros L W Hr. destruct (live_written v lo n src v' L W). constructor; [done|done|apply W|by apply W]. Qed.

Lemma image_step_spec v op m : live v -> op_ok (dstsize v) (blocksize v) (is_child v) op -> 0 <= m -> room v (op_blocks (blocksize v) op + m) ->
  exists v', image_step op v = Ran (fst (flat_step op (disk v)), v') /\ stepped v m (snd (flat_step op (disk v))) v'.
Proof.
  intros L Hok Hm Hroom. pose proof L as [I S Fu _ _ (Hro & Hfa & Hvo)]. destruct (i_size v I) as [Hds _]. destruct op as [o n|o b|o e]; cbn [op_ok op_blocks image_step flat_step fst snd] in *.
  - destruct Hok as (Ho & Hn & Hsz & Hb). rewrite Seek_live by (done || lia). destruct (live_offset v o L) as (L1 & E1 & D1).
    destruct (Read_spec (with_offset o v) (zeros n) n (lv_inv _ L1) (lv_saved _ L1)) as (v' & -> & Q & _); vcbn; try lia.
    { rewrite zlen_vzeros; lia. }
    { apply (full_reach (with_offset o v)); try done; apply L1. }
    cbn [vbind]. exists v'. split.
    + rewrite (range_ext (disk (with_offset o v)) (disk v)) by (intros x _; apply D1).
      pose proof (ztake_app_zlen (range (disk v) o n) (zdrop n (zeros n))) as Et. rewrite zlen_range in Et by lia. by rewrite Et.
    + destruct (live_quiet _ _ L1 Q) as [L2 E2]. constructor; [done|congruence|intros x Hx; by rewrite (q_disk _ _ Q), D1|].
      apply (room_same v); [congruence|by destruct (q_frame _ _ Q) as (_ & _ & ->)|done].
  - destruct Hok as (Ho & Hne & Hsz & Hw). pose proof (zlen_nonneg b). rewrite Seek_live by (done || lia). destruct (live_offset v o L) as (L1 & E1 & D1).
    destruct (Write_spec (with_offset o v) b (lv_inv _ L1) (lv_saved _ L1) Hro Ho Hne Hsz) as (v' & -> & _ & W).
    { by apply (sectors_of_ok (with_offset o v)). }
    { apply (room_less (with_offset o v) (touched v o (zlen b) + m)); [apply L1|change (touched (with_offset o v)) with (touched v); vcbn; lia|done]. }
    cbn [vbind]. exists v'. split; [done|]. destruct (stepped_written _ _ _ _ _ m L1 W Hroom) as [A B C D]. constructor; [done|congruence| |done].
    intros x Hx. rewrite C by done. unfold overwrite. by rewrite D1.
  - destruct Hok as ([Ho Hoe] & Hsz & Hw).
    destruct (setUnused_spec v o e I S Hro) as (v' & -> & W); rewrite ?Hvo, ?Z.add_0_l; try lia.
    { by apply sectors_of_ok. }
    { apply (room_less v (touched v o (e - o) + m)); [done|cbn; lia|done]. }
    cbn [vbind]. exists v'. split; [done|]. rewrite Hvo, Z.add_0_l in W. by apply stepped_written.
Qed.

Lemma touched_nonneg bs o n : 0 < bs -> 0 <= n -> 0 <= blocks_touched bs o n.
Proof. intros Hb Hn. unfold blocks_touched. pose proof (Z.mod_pos_bound o bs Hb). apply Z.div_pos; lia. Qed.
Lemma ops_blocks_nonneg dst bs child ops : 0 < bs -> Forall (op_ok dst bs child) ops -> 0 <= ops_blocks bs ops.
Proof.
  intros Hb. induction 1 as [|op ops Hop _ IH]; [done|]. change (0 <= op_blocks bs op + ops_blocks bs ops). enough (0 <= op_blocks bs op) by lia.
  destruct op as [o n|o b|o e]; cbn in *; [done|by apply touched_nonneg, zlen_nonneg|apply touched_nonneg; lia].
Qed.

Lemma flat_step_ext op d d' : (forall x, 0 <= x -> d x = d' x) -> (match op with DRead o n => 0 <= o | _ => True end) ->
  fst (flat_step op d) = fst (flat_step op d') /\ forall x, 0 <= x -> snd (flat_step op d) x = snd (flat_step op d') x.
Proof.
  intros E Hop. destruct op as [o n|o b|o e]; cbn; split; try done.
  - f_equal. apply range_ext. intros x Hx. apply E. lia.
  - intros x Hx. unfold overwrite. by rewrite E.
  - intros x Hx. unfold overwrite. by rewrite E.
Qed.

Lemma image_run_spec ops : forall v d, live v -> Forall (op_ok (dstsize v) (blocksize v) (is_child v)) ops ->
  room v (ops_blocks (blocksize v) ops) -> (forall x, 0 <= x -> disk v x = d x) ->
  exists v', image_run ops v = Ran (fst (flat_run ops d), v') /\ live v' /\ shape v' = shape v /\
    forall x, 0 <= x -> disk v' x = snd (flat_run ops d) x.
Proof.
  induction ops as [|op ops IH]; intros v d L Hok Hroom Hd; [by exists v|]. apply Forall_cons in Hok as [Hop Hok].
  destruct (i_block v (lv_inv v L)) as [Hbs _]. pose proof (ops_blocks_nonneg _ _ _ ops (proj1 Hbs) Hok).
  destruct (image_step_spec v op (ops_blocks (blocksize v) ops) L Hop) as (v1 & E1 & [L1 S1 D1 R1]); [done|done|].
  destruct (flat_step_ext op (disk v) d Hd) as [Ef Es]; [destruct op; cbn in Hop; [tauto|done|done]|].
  pose proof (shape_eq _ _ S1) as (T1 & T2 & _ & T4). cbn [image_run flat_run]. rewrite E1. cbn [vbind]. rewrite Ef.
  destruct (flat_step op d) as [r d1]. cbn [fst snd] in *.
  destruct (IH v1 d1 L1) as (v2 & E2 & L2 & S2 & D2); [by rewrite T1, T2, T4|by rewrite T2|intros x Hx; rewrite D1 by done; by apply Es|].
  rewrite E2. cbn [vbind]. exists v2. destruct (flat_run ops d1) as [rs d2]. split; [done|]. split; [done|]. split; [congruence|done].
Qed.
End Disk.
