(* ===== verification/VhdTheorems.v ===== *)
(** What the VHD images promise, from creation on. *)
From S2P Require Import Prelude MemFile VhdFormat VhdFile VhdSpec VhdSteps VhdRead VhdWrite VhdTable VhdOps VhdImage VhdReopen VhdDisk.
Import VHDFile.

(** A backing file whose [Sync()] succeeds, as a file on a disk: the contents of an
    in-memory file, whose own [Sync()] does nothing and yields [false]. *)
#[export] Instance synced_file : IFinish CMemoryFile.t := {| file_finish f := (true, f) |}.
#[export] Program Instance synced_file_laws : FinishLaws CMemoryFile.t.
Next Obligation. done. Qed.

(** The parent of an image without parent. *)
Inductive no_parent :=.
#[export] Instance no_parent_image : IVHDParent no_parent := {|
  p_Seek p _ := p;
  p_Read := fun (p : no_parent) _ _ => match p with end;
  p_has_block := fun (p : no_parent) => match p with end;
  p_has_sector := fun (p : no_parent) => match p with end;
  p_finish := fun (p : no_parent) => match p with end |}.
#[export] Program Instance no_parent_laws : VHDParentLaws no_parent := {|
  p_disk := fun (p : no_parent) => match p with end;
  p_size := fun (p : no_parent) => match p with end;
  p_block := fun (p : no_parent) => match p with end;
  p_good := fun (p : no_parent) => match p with end |}.
Next Obligation. by intros []. Qed.

(** ** New images *)

(** The bytes that an image of [dst] bytes takes for [n] blocks, and the limit of the
    table. *)
Definition image_fits (dst bs n : Z) : Prop :=
  next_sector (def_bat_offset + new_batsize dst bs * 4) + n * (bs + bitmap_bytes bs + 512) <= UINT_MAX * sector_size.

Section Theorems.
Context {F P : Type} `{FileLaws F} `{VHDParentLaws P} `{!IFinish F} `{!FinishLaws F}.
Notation t := (t (F := F) (P := P)).
Implicit Types (v : t).

Lemma create_live now random open_parent comp f dst bs : contents f = [] -> zlen random = 16 -> 0 < bs < 2 ^ 32 -> bs mod sector_size = 0 ->
  0 <= dst < 2 ^ 62 -> new_batsize dst bs < no_block ->
  exists v, VHDFile now random open_parent false false comp f dst bs = Ran v /\ live v /\
    (is_open v = true /\ finished v = false /\ compressed v = comp /\ batsize v = new_batsize dst bs) /\
    (dstsize v = dst /\ blocksize v = bs /\ parent v = None) /\ (forall n, image_fits dst bs n -> room v n) /\ forall x, disk v x = nul.
Proof.
  intros Hf Hr Hb Hbm Hd Hn.
  destruct (create_spec now random open_parent false comp f dst bs Hf Hr Hb Hbm Hd Hn) as (v & E & I & S & Fu & Hh & St & (A1 & A2 & A3 & A4 & A5) &
    (B1 & B2 & B3 & B4 & B5 & B6) & En & Em & D).
  exists v. split; [done|]. split; [by constructor|]. do 2 (split; [done|]). split; [|done].
  intros n. unfold image_fits, room. by rewrite En, Em, B2.
Qed.

(** C14: a new VHD image, not in fast mode, is a flat disk of zeros: any sequence of
    reads, writes and unused ranges gives what a plain byte array gives.  The calls lie
    inside of the disk, a read in one block of it ([op_ok]), and the blocks they need
    fit under the limit of the table ([image_fits]).  (In fast mode,
    [vhd_backup_roundtrip]; reads across blocks can fail, [vhd_Read_last_block_fails].)
    *)
Theorem vhd_new_image_flat now random open_parent comp f dst bs ops : contents f = [] -> zlen random = 16 -> 0 < bs < 2 ^ 32 ->
  bs mod sector_size = 0 -> 0 <= dst < 2 ^ 62 -> new_batsize dst bs < no_block ->
  Forall (op_ok dst bs false) ops -> image_fits dst bs (ops_blocks bs ops) ->
  exists v v', VHDFile now random open_parent false false comp f dst bs = Ran v /\
    image_run ops v = Ran (fst (flat_run ops (fun _ => nul)), v') /\
    live v' /\ forall x, 0 <= x -> disk v' x = snd (flat_run ops (fun _ => nul)) x.
Proof.
  intros Hf Hr Hb Hbm Hd Hn Hok Hfit.
  destruct (create_live now random open_parent comp f dst bs Hf Hr Hb Hbm Hd Hn) as (v & E & L & _ & (B1 & B2 & B6) & Hroom & D).
  destruct (image_run_spec ops v (fun _ => nul) L) as (v' & E' & L' & _ & D').
  - unfold is_child. by rewrite B1, B2, B6.
  - rewrite B2. by apply Hroom.
  - intros x _. apply D.
  - by exists v, v'.
Qed.

(** The bytes that a differencing image takes for [n] blocks. *)
Definition child_fits (dst bs n : Z) : Prop :=
  next_sector (def_bat_offset_parent + new_batsize dst bs * 4) + 128 * sector_size + n * (bs + bitmap_bytes bs + 512) <= UINT_MAX * sector_size.

(** C15: a new differencing image, not in fast mode and not larger than its parent,
    starts with the disk of its parent, which may be a chain of images, and behaves like
    a flat disk, as long as whole sectors are written, a read lies in one block
    ([op_ok]) and the blocks fit ([child_fits]). *)
Theorem vhd_child_flat now random open_parent comp f dst p puid ptimestamp n ops : contents f = [] -> zlen random = 16 ->
  p_good p -> zlen puid = 16 -> 0 <= ptimestamp < 2 ^ 32 -> names_fit n ->
  0 < p_block p < 2 ^ 32 -> p_block p mod sector_size = 0 -> 0 <= diff_size dst (p_size p) <= p_size p -> p_size p < 2 ^ 62 ->
  new_batsize (diff_size dst (p_size p)) (p_block p) < no_block ->
  Forall (op_ok (diff_size dst (p_size p)) (p_block p) true) ops ->
  child_fits (diff_size dst (p_size p)) (p_block p) (ops_blocks (p_block p) ops) ->
  exists v v', VHDFile_diff now random open_parent p (p_size p) (p_block p) puid ptimestamp n false false comp f dst = Ran v /\
    image_run ops v = Ran (fst (flat_run ops (p_disk p)), v') /\ live v' /\ forall x, 0 <= x -> disk v' x = snd (flat_run ops (p_disk p)) x.
Proof.
  intros Hf Hr Hp Hu Ht Hn Hb Hbm Hd Hps Hnb Hok Hfit.
  destruct (create_diff_spec now random open_parent false comp f dst p puid ptimestamp n Hf Hr Hp Hu Ht Hn Hb Hbm ltac:(lia) (proj2 Hd) Hnb) as
    (v & E & I & S & Fu & Hh & St & (A1 & A2 & A3 & A4 & A5) & (B1 & B2 & B3 & B4 & B5) & _ & Em & En & D).
  assert (L : live v) by (by constructor).
  destruct (image_run_spec ops v (p_disk p) L) as (v' & E' & L' & _ & D').
  - unfold is_child. by rewrite B1, B2, B5.
  - unfold room. rewrite B2, En, Em. exact Hfit.
  - intros x _. apply D.
  - by exists v, v'.
Qed.

(** ** Finishing and opening again *)

(** C17: an image that is not compressed, finished and opened again, has the disk it
    had, in fast mode as well, where bitmaps, table and footer are only written at the
    end. *)
Theorem vhd_finish_open_roundtrip v open_parent now random ro fast dst bs p : inv v -> saved v -> headed v ->
  read_only v = false -> compressed v = false -> is_open v = true -> finished v = false -> (fast_mode v = false -> stored v) ->
  batsize v < 2 ^ 30 -> match parent v with Some p => fst (p_finish p) = true | None => True end ->
  same_parent (parent v) p -> match p with Some q => open_parent (dynamicheader v) = Some (q, parent_uid (dynamicheader v)) | None => True end ->
  exists v' w, finish v = (true, v') /\ VHDFile now random open_parent ro fast false (file v') dst bs = Ran w /\ is_open w = true /\
    inv w /\ saved w /\ full w /\ headed w /\ stored w /\ parent w = p /\
    dstsize w = dstsize v /\ blocksize w = blocksize v /\ forall x, 0 <= x -> disk w x = disk v x.
Proof.
  intros I S Hh Hro Hco Hop Hfi Hst Hbs Hpf Hpar Hopen. destruct (finish_spec v I S Hro Hco Hop Hfi Hst Hpf) as (v' & E & C). exists v'.
  destruct (i_size v I) as [Hds _].
  destruct (open_spec v (file v') open_parent now random ro fast dst bs p I Hh C Hbs ltac:(lia) Hpar Hopen) as
    (w & Ew & Iw & Sw & Fw & Hw & Stw & (A1 & _) & (B1 & B2 & _ & _ & _ & B6) & D).
  by exists w.
Qed.

(** ** Single calls, for images with parents and in fast mode *)

(** What can be read at once: a range in one block of an image whose blocks are all in
    the file, or any range behind whose blocks the file goes on far enough. *)
Definition readable v (o n : Z) : Prop :=
  (full v /\ o / blocksize v = (o + n - 1) / blocksize v) \/ reach v (o / blocksize v) (o mod blocksize v) n n.

(** C31: [Read] yields the bytes of the disk: those of the image where it has the
    sector, otherwise those of the parent, or zeros.  What is read has to be [readable]:
    it lies in one block of an image whose blocks are all in its file, or the file goes
    on far enough behind the bitmap of every block that is read. 
    ([vhd_Read_unwritten_hangs] and [vhd_Read_last_block_fails] say what happens
    otherwise.) *)
Theorem vhd_Read_correct v buffer n : inv v -> saved v -> 0 <= curr_offset v -> 0 < n -> curr_offset v + n <= dstsize v -> n <= zlen buffer ->
  readable v (curr_offset v) n ->
  exists v', Read buffer n v = Ran (true, n, range (disk v) (curr_offset v) n ++ zdrop n buffer, v') /\ curr_offset v' = curr_offset v + n /\
    inv v' /\ saved v' /\ forall x, 0 <= x -> disk v' x = disk v x.
Proof.
  intros I S Ho Hn Hsz Hl Hre. destruct (Read_spec v buffer n I S Ho Hn Hsz Hl) as (v' & E & Q & Eo).
  - destruct Hre as [[Hf Hb]|Hre]; [by apply full_reach|done].
  - exists v'. split; [done|]. split; [done|]. split; [apply Q|]. split; [apply Q|apply Q].
Qed.

(** C30: [Write] stores the buffer at the position and changes no other byte of the disk,
    whether the blocks are in the image or new; whole sectors have to be written when
    there is a parent. *)
Theorem vhd_Write_correct v buffer : inv v -> saved v -> read_only v = false -> 0 <= curr_offset v -> buffer <> [] ->
  curr_offset v + zlen buffer <= dstsize v -> sectors_only v (curr_offset v) (zlen buffer) -> has_room v (curr_offset v) (zlen buffer) ->
  exists v', Write buffer v = Ran (zlen buffer, false, v') /\ curr_offset v' = curr_offset v + zlen buffer /\
    inv v' /\ saved v' /\ (fast_mode v = false -> full v -> full v') /\ (fast_mode v = false -> stored v -> stored v') /\
    forall x, 0 <= x -> disk v' x = overwrite (disk v) (curr_offset v) (zlen buffer) (fun x => znth nul buffer (x - curr_offset v)) x.
Proof.
  intros I S Hro Ho Hne Hsz Hal Hroom. destruct (Write_spec v buffer I S Hro Ho Hne Hsz Hal Hroom) as (v' & E & Eo & []). by exists v'.
Qed.

(** [setUnused] makes the range zero and changes no other byte of the disk. *)
Theorem vhd_setUnused_correct v o e : inv v -> saved v -> read_only v = false -> 0 <= o < e -> 0 <= volume_offset v ->
  volume_offset v + e <= dstsize v -> sectors_only v (volume_offset v + o) (e - o) -> has_room v (volume_offset v + o) (e - o) ->
  exists v', setUnused o e v = Ran (true, v') /\ inv v' /\ saved v' /\
    (fast_mode v = false -> full v -> full v') /\ (fast_mode v = false -> stored v -> stored v') /\
    forall x, 0 <= x -> disk v' x = overwrite (disk v) (volume_offset v + o) (e - o) (fun _ => nul) x.
Proof.
  intros I S Hro Ho Hvo Hsz Hal Hroom. destruct (setUnused_spec v o e I S Hro Ho Hvo Hsz Hal Hroom) as (v' & E & []). by exists v'.
Qed.

(** ** Where the code fails *)

(** [Read] asks that the file goes on behind a block's bitmap for as many bytes as are
    read altogether: a read that starts in the last block of the file and goes on in
    another block fails although all of it is on the disk. *)
Theorem vhd_Read_last_block_fails v buffer n off : inv v -> saved v -> 0 <= curr_offset v < dstsize v -> 0 <= n < 2 ^ 62 ->
  slot v (curr_offset v / blocksize v) = Some off -> currblock v <> curr_offset v / blocksize v ->
  flen (file v) < off + bitmap_size v + (curr_offset v mod blocksize v + n) ->
  exists v', Read buffer n v = Ran (false, 0, buffer, v').
Proof.
  intros I S Ho Hn E Hne Hl. destruct (i_size v I) as [Hds Hdb]. destruct (i_bat v I) as (_ & Hnb & _). destruct (i_block v I) as [Hbs _].
  destruct (disk_pos v (curr_offset v) I (proj1 Ho)) as [Hj Hm]. pose proof (Z.div_mod (curr_offset v) (blocksize v)).
  assert (Hib : 0 <= curr_offset v / blocksize v < batsize v) by nia. unfold Read. rewrite (proj2 (Z.eqb_neq _ _)), (proj2 (Z.leb_gt _ _)) by lia.
  rewrite w32_id by (unfold no_block in *; lia). cbn [read_blocks]. set (i := curr_offset v / blocksize v) in *.
  destruct (bat_entry_slot v i I Hib) as (e & -> & Es). rewrite E in Es. destruct (e =? no_block); [done|]. injection Es as <-.
  unfold read_bitmap. cbn [c_off]. rewrite (proj2 (Z.eqb_neq _ _)) by congruence. destruct (switch_spec off v I S) as (f & -> & _ & _ & Hf & _).
  pose proof (slot_bounds v i off I (proj1 Hib) E) as Hsl. destruct (i_next v I) as [Hnx _]. pose proof (i_len v I) as Hln.
  destruct (file_Seek_spec off (with_dirty off false (with_file f v))) as (f1 & -> & Hc1 & _); [lia|]. cbn [snd]. vcbn. rewrite size_law.
  destruct (raw_contents f f1 Hc1) as [_ Hl1]. fold (flen f1). pose proof (zlen_nonneg (contents (file v))). unfold flen in *.
  destruct (bms_spec v I) as (Hbm & _). rewrite !w64_id, (proj2 (Z.ltb_lt _ _)) by lia. cbn [negb vbind]. by eexists.
Qed.

Lemma sector_part_pos c : 0 <= c_off c -> 0 < c_remaining c -> 0 < c_todo c -> exists want,
  sector_part c = (want, mkCur (c_off c) (c_remaining c) (c_todo c) false (c_done c) (c_buf c)) /\ 0 < want <= c_todo c /\ want <= 512.
Proof.
  intros Ho Hr Ht. unfold sector_part. pose proof (Z.mod_pos_bound (c_off c) sector_size ltac:(done)). unfold sector_size in *.
  eexists. split; [reflexivity|]. repeat case_match; lia.
Qed.
Lemma read_sectors_stuck rounds : forall v c i off, inv v -> currblock v = i -> 0 <= i -> 0 <= c_off c < blocksize v -> 0 < c_remaining c -> 0 < c_todo c ->
  0 <= curr_offset v -> curr_offset v + c_todo c <= dstsize v -> block_bit v i off (c_off c) = true ->
  flen (file v) <= fpos (file v) -> read_sectors rounds off c v = Endless.
Proof.
  induction rounds as [|k IH]; intros v c i off I Hc Hi Hco Hr Ht Ho Hsz Hbit Hend; [done|].
  destruct (i_block v I) as [Hbs _]. destruct (i_size v I) as [Hds _]. cbn [read_sectors]. rewrite (proj2 (Z.ltb_lt _ _)) by lia.
  destruct (sector_part_pos c (proj1 Hco) Hr Ht) as (want & -> & Hw & Hw5). cbn [c_off]. rewrite w64_id, (proj2 (Z.ltb_ge _ _)), (w32_id (c_off c)) by lia.
  rewrite (isBitmapSet_spec v i off) by done. rewrite Hbit. unfold read_part. rewrite w32_id by lia.
  destruct (file_Read_spec want v) as (f & -> & Hcf & Hpf); [lia|].
  assert (Hz : zsub (fpos (file v)) want (contents (file v)) = []) by (unfold zsub, flen in *; rewrite zdrop_ge by done; unfold ztake; apply take_nil).
  rewrite Hz, andb_false_r in *. change (zlen []) with 0 in *. cbn [vbind]. unfold advance, with_buf; cbn [c_off c_remaining c_todo c_first c_done c_buf].
  rewrite !Z.sub_0_r, (proj2 (Z.eqb_neq _ _)), (proj2 (Z.eqb_neq _ _)) by lia. cbn [orb].
  destruct (inv_same_file f v I Hcf) as [I1 _]. destruct (raw_contents _ _ Hcf) as [Hrf Hlf].
  change (curr_offset (with_file f v)) with (curr_offset v). rewrite !Z.add_0_r, w64_id by lia.
  apply (IH (with_offset (curr_offset v) (with_file f v)) _ i off); cbn [c_off c_remaining c_todo]; rewrite ?Z.add_0_r; try done.
  - rewrite <- Hbit. unfold block_bit; vcbn. by rewrite Hrf.
  - vcbn. lia.
Qed.

(** C37: in fast mode the data of a new block may not be in the file yet; reading a
    sector of the current block ([currblock]) whose bit is set and whose data the file
    ends before never ends, because reading nothing is not an error.  (In another block
    the check of the file's size makes the read fail.) *)
Theorem vhd_Read_unwritten_hangs v buffer n off f : inv v -> 0 <= curr_offset v -> 0 < n -> curr_offset v + n <= dstsize v ->
  slot v (curr_offset v / blocksize v) = Some off -> currblock v = curr_offset v / blocksize v ->
  block_bit v (curr_offset v / blocksize v) off (curr_offset v mod blocksize v) = true ->
  flen (file v) <= off + bitmap_size v + curr_offset v mod blocksize v ->
  file_Seek (off + bitmap_size v + curr_offset v mod blocksize v) v = (true, f) ->
  (forall rounds, read_sectors rounds off (mkCur (curr_offset v mod blocksize v) (blocksize v - curr_offset v mod blocksize v) n true 0 buffer) f = Endless) /\
  Read buffer n v = Endless.
Proof.
  intros I Ho Hn Hsz E Hc Hbit Hl Hseek. destruct (i_size v I) as [Hds Hdb]. destruct (i_bat v I) as (_ & Hnb & _). destruct (i_block v I) as [Hbs _].
  destruct (disk_pos v (curr_offset v) I Ho) as [Hj Hm]. pose proof (Z.div_mod (curr_offset v) (blocksize v)).
  assert (Hib : 0 <= curr_offset v / blocksize v < batsize v) by nia. pose proof (slot_bounds v _ off I Hj E) as Hsl.
  destruct (file_Seek_spec (off + bitmap_size v + curr_offset v mod blocksize v) v) as (g & Eg & Hcg & Hpg); [lia|]. rewrite Eg in Hseek. injection Hseek as <-.
  destruct (inv_same_file g v I Hcg) as [I1 _]. destruct (raw_contents _ _ Hcg) as [Hrg Hlg].
  assert (Hs : forall rounds, read_sectors rounds off (mkCur (curr_offset v mod blocksize v) (blocksize v - curr_offset v mod blocksize v) n true 0 buffer) (with_file g v) = Endless).
  { intros rounds. apply (read_sectors_stuck rounds _ _ (curr_offset v / blocksize v)); cbn [c_off c_remaining c_todo]; vcbn; try done; try lia.
    rewrite <- Hbit. unfold block_bit; vcbn. by rewrite Hrg. }
  split; [done|]. unfold Read. rewrite (proj2 (Z.eqb_neq _ _)), (proj2 (Z.leb_gt _ _)) by lia.
  rewrite w32_id by (unfold no_block in *; lia). cbn [read_blocks].
  destruct (bat_entry_slot v _ I Hib) as (e & -> & Es). rewrite E in Es. destruct (e =? no_block); [done|]. injection Es as <-.
  unfold read_bitmap. rewrite Hc, Z.eqb_refl. cbn [negb c_off c_todo]. rewrite Eg. cbn [snd]. by rewrite Hs.
Qed.

Lemma used_loop_same v b rounds : forall k used, has_sector v = Ran (b, v) -> 0 < blocksize v -> 0 <= dstsize v -> 0 <= k ->
  0 <= used <= k * blocksize v -> dstsize v + blocksize v < 2 ^ 64 -> k <= new_batsize (dstsize v) (blocksize v) ->
  (Z.to_nat (dstsize v - k * blocksize v) <= rounds)%nat ->
  used_loop rounds (k * blocksize v) used v =
    Ran (if b then used + (new_batsize (dstsize v) (blocksize v) - k) * blocksize v else used, v).
Proof.
  induction rounds as [|n IH]; intros k used E Hb Hd Hk Hu Hs Hkn Hr; pose proof (Z.div_mod (dstsize v) (blocksize v));
    pose proof (Z.mod_pos_bound (dstsize v) (blocksize v) Hb); unfold new_batsize in *; cbn [used_loop].
  - rewrite (proj2 (Z.ltb_ge _ _)) by lia. do 2 f_equal. destruct b; [|done].
    assert (dstsize v / blocksize v + (if dstsize v mod blocksize v =? 0 then 0 else 1) - k = 0) as -> by (destruct (Z.eqb_spec (dstsize v mod blocksize v) 0); nia). lia.
  - destruct (Z.ltb_spec (k * blocksize v) (dstsize v)) as [Hlt|Hge].
    + rewrite E. cbn [vbind]. replace (w64 (k * blocksize v + blocksize v)) with ((k + 1) * blocksize v) by (rewrite w64_id; lia).
      assert (k + 1 <= dstsize v / blocksize v + (if dstsize v mod blocksize v =? 0 then 0 else 1)) by (destruct (Z.eqb_spec (dstsize v mod blocksize v) 0); nia).
      destruct b; (rewrite IH; [|done|done|done|lia|rewrite ?w64_id by lia; lia|done|done|lia]); rewrite ?w64_id by lia; do 2 f_equal; lia.
    + do 2 f_equal. destruct b; [|done].
      assert (dstsize v / blocksize v + (if dstsize v mod blocksize v =? 0 then 0 else 1) - k = 0) as -> by (destruct (Z.eqb_spec (dstsize v mod blocksize v) 0); nia). lia.
Qed.

(** [usedSize] asks for the same place in every round of its loop, so that it yields
    either nothing or the size of all blocks, whatever the image holds. *)
Theorem vhd_usedSize_all_or_nothing v : inv v -> parent v = None -> 0 <= curr_offset v < dstsize v ->
  usedSize v = Ran (if bool_decide (slot v (curr_offset v / blocksize v) = None) then 0 else new_batsize (dstsize v) (blocksize v) * blocksize v, v).
Proof.
  intros I Hp Ho. destruct (i_size v I) as [Hds Hdb]. destruct (i_block v I) as [Hbs _]. destruct (i_bat v I) as (_ & Hnb & _).
  destruct (disk_pos v (curr_offset v) I (proj1 Ho)) as [Hj Hm]. pose proof (Z.div_mod (curr_offset v) (blocksize v)).
  assert (Hib : 0 <= curr_offset v / blocksize v < batsize v) by nia. destruct (bat_entry_slot v _ I Hib) as (e & Ee & Es).
  assert (Eh : has_sector v = Ran (negb (bool_decide (slot v (curr_offset v / blocksize v) = None)), v)).
  { unfold has_sector. rewrite (proj2 (Z.eqb_neq _ _)), w32_id, Ee by (unfold no_block in *; lia). rewrite Es, Hp. by destruct (e =? no_block). }
  unfold usedSize. destruct (new_batsize_spec (dstsize v) (blocksize v)) as [Hn0 _]; [lia|lia|].
  pose proof (used_loop_same v _ (Z.to_nat (dstsize v)) 0 0 Eh) as El. rewrite Z.mul_0_l in El. rewrite El by lia. cbn [vbind].
  replace (with_offset (curr_offset v) v) with v by (by destruct v). do 2 f_equal. case_bool_decide; cbn [negb]; [done|lia].
Qed.
End Theorems.

(** * The VHD theorems at concrete images in memory. *)

(** The calls keep to the sizes. *)
(** Closed facts about numbers. *)
Ltac closed := vm_compute; repeat split; discriminate.
Ltac ops_fit := repeat apply Forall_cons_2; try (apply Forall_nil; exact I); closed.

(** ** Four blocks of 4 KiB *)

Definition plain_image : Type := t (F := CMemoryFile.t) (P := no_parent).
Definition demo_uid : bytes := replicate 16 "u"%char.
Definition demo_create (fast : bool) : vhd_run plain_image :=
  VHDFile 0 demo_uid (fun _ => None) false fast false CMemoryFile.init 16384 4096.
Definition demo_names : parent_names := mkNames (str "base.vhd") (str "/base.vhd") (str "./base.vhd").

Lemma demo_live : exists v, demo_create false = Ran v /\ live v /\ (is_open v = true /\ finished v = false /\ compressed v = false /\ batsize v = 4) /\
  (dstsize v = 16384 /\ blocksize v = 4096 /\ parent v = None) /\ (forall n, image_fits 16384 4096 n -> room v n) /\ forall x, disk v x = nul.
Proof. apply (create_live (P := no_parent) 0 demo_uid (fun _ => None) false CMemoryFile.init 16384 4096); by vm_compute. Qed.

(** The image after some calls. *)
Definition demo_after (ops : list disk_op) : vhd_run plain_image :=
  let! v := demo_create false in let! (_, v) := image_run ops v in Ran v.
Lemma demo_after_live ops : Forall (op_ok 16384 4096 false) ops -> image_fits 16384 4096 (ops_blocks 4096 ops) ->
  exists v, demo_after ops = Ran v /\ live v /\ dstsize v = 16384 /\ blocksize v = 4096 /\ is_child v = false.
Proof.
  intros Hok Hfit. destruct demo_live as (v & E & L & _ & (B1 & B2 & B3) & Hroom & D).
  destruct (image_run_spec ops v (fun _ => nul) L) as (v' & E' & L' & S' & _).
  - unfold is_child. by rewrite B1, B2, B3.
  - rewrite B2. by apply Hroom.
  - intros x _. apply D.
  - exists v'. unfold demo_after. rewrite E. cbn [vbind]. rewrite E'. split; [done|]. split; [done|].
    apply shape_eq in S' as (-> & -> & _ & ->). unfold is_child. by rewrite B1, B2, B3.
Qed.

Lemma live_good (v : plain_image) : live v -> image_good v.
Proof. intros L. destruct (lv_modes v L) as (_ & _ & Hv). exact (conj (lv_inv v L) (conj (lv_saved v L) (conj (lv_full v L) Hv))). Qed.

Definition demo_ops : list disk_op := [DWrite 4090 (str "ABCDEFGH"); DRead 4090 6; DUnused 4092 4094; DRead 4092 4].

Lemma vhd_new_image_flat_witness : exists v v', demo_create false = Ran v /\
  image_run demo_ops v = Ran ([RCount 8; RBytes (str "ABCDEF"); RDone; RBytes [nul; nul; "E"%char; "F"%char]], v').
Proof.
  destruct (vhd_new_image_flat (P := no_parent) 0 demo_uid (fun _ => None) false CMemoryFile.init 16384 4096 demo_ops) as (v & v' & E & R & _);
    [done|by vm_compute|done|done|done|by vm_compute|ops_fit|by vm_compute|].
  assert (Ef : fst (flat_run demo_ops (fun _ => nul)) = [RCount 8; RBytes (str "ABCDEF"); RDone; RBytes [nul; nul; "E"%char; "F"%char]]) by (vm_compute; reflexivity).
  rewrite Ef in R. by exists v, v'.
Defined.

(** A child over the image that has been written. *)
Definition child_ops : list disk_op := [DRead 0 3; DWrite 8192 (replicate 512 "C"%char); DRead 8190 2; DRead 8192 2].
Lemma vhd_child_flat_witness : exists p v v', demo_after demo_ops = Ran p /\
  VHDFile_diff 0 demo_uid (fun _ => None) p (dstsize p) (blocksize p) demo_uid 0 demo_names false false false CMemoryFile.init 0 = Ran v /\
  image_run child_ops v = Ran (fst (flat_run child_ops (disk p)), v').
Proof.
  destruct (demo_after_live demo_ops) as (p & E & L & Ed & Eb & _); [ops_fit|by vm_compute|].
  pose proof (vhd_child_flat (P := plain_image) 0 demo_uid (fun _ => None) false CMemoryFile.init 0 p demo_uid 0 demo_names child_ops) as T.
  cbn [p_size p_block p_disk p_good vhd_parent_laws] in T. rewrite Ed, Eb in T.
  destruct T as (v & v' & E' & R & _);
    [done|closed|exact (live_good p L)|closed|closed|closed|closed|closed|closed|closed|closed|ops_fit|closed|].
  exists p, v, v'. rewrite Ed, Eb. split; [exact E|]. split; [exact E'|exact R].
Defined.

(** ** Single calls *)

Lemma live_seek (v : plain_image) o : live v -> live (with_offset o v).
Proof. intros L. by destruct (live_offset v o L). Qed.
Lemma demo_room (v : plain_image) o n : blocksize v = 4096 -> room v (blocks_touched 4096 o n) -> has_room v o n.
Proof. intros Eb Hr. unfold has_room, touched. by rewrite Eb. Qed.

Lemma vhd_Read_correct_witness : exists v v', demo_create false = Ran v /\
  Read (zeros 20) 10 v = Ran (true, 10, range (disk v) (curr_offset v) 10 ++ zeros 10, v') /\ curr_offset v = 0.
Proof.
  destruct (create_spec (P := no_parent) 0 demo_uid (fun _ => None) false false CMemoryFile.init 16384 4096) as
    (v & E & I & S & Fu & _ & _ & _ & (Ed & Eb & _ & Eo & _) & _); [done|closed|closed|closed|closed|closed|].
  destruct (vhd_Read_correct v (zeros 20) 10 I S) as (v' & R & _);
    [rewrite Eo; closed|closed|rewrite Eo, Ed; closed|closed|left; split; [exact Fu|by rewrite Eo, Eb]|].
  exists v, v'. split; [exact E|]. split; [exact R|exact Eo].
Defined.

Lemma vhd_Write_correct_witness : exists v v', demo_create true = Ran v /\ Write (str "AB") v = Ran (2, false, v') /\ disk v' 1 = "B"%char.
Proof.
  destruct (create_spec (P := no_parent) 0 demo_uid (fun _ => None) true false CMemoryFile.init 16384 4096) as
    (v & E & I & S & Fu & _ & _ & (_ & Ero & _) & (Ed & Eb & _ & Eo & _ & Ep) & En & Em & _); [done|closed|closed|closed|closed|closed|].
  destruct (vhd_Write_correct v (str "AB") I S Ero) as (v' & W & _ & _ & _ & _ & _ & D);
    [rewrite Eo; closed|discriminate|rewrite Eo, Ed; closed|left; exact Ep|unfold has_room, touched, room; rewrite Eo, Eb, En, Em; closed|].
  exists v, v'. split; [exact E|]. split; [exact W|]. rewrite D by closed. by rewrite Eo.
Defined.

Lemma vhd_setUnused_correct_witness : exists v v', demo_after demo_ops = Ran v /\ setUnused 4090 4096 v = Ran (true, v') /\ disk v' 4090 = nul.
Proof.
  destruct (demo_after_live (demo_ops ++ [])) as (v & E & L & Ed & Eb & Ec); [ops_fit|closed|].
  assert (Hr : match demo_after demo_ops with Ran v => bool_decide (nextblock_offset v + 1 * (4096 + bitmap_size v + 512) <= UINT_MAX * sector_size) | _ => false end = true)
    by (vm_compute; reflexivity).
  change (demo_ops ++ []) with demo_ops in E. rewrite E in Hr. apply bool_decide_eq_true in Hr. destruct (lv_modes v L) as (Ero & _ & Ev).
  destruct (vhd_setUnused_correct v 4090 4096 (lv_inv v L) (lv_saved v L) Ero) as (v' & U & _ & _ & _ & _ & D);
    [closed|rewrite Ev; closed|rewrite Ev, Ed; closed|left; unfold is_child in Ec; by destruct (parent v)
    |rewrite Ev; apply demo_room; [exact Eb|]; unfold room; rewrite Eb; exact Hr|].
  exists v, v'. split; [exact E|]. split; [exact U|]. rewrite D by closed. by rewrite Ev.
Defined.

(** The block in which the second write starts lies last in the file. *)
Definition crossing_ops : list disk_op := [DWrite 8192 (str "B"); DWrite 0 (str "A"); DRead 8192 1].
Lemma vhd_Read_last_block_fails_witness : exists v v', demo_after crossing_ops = Ran v /\ Read [] 6000 (with_offset 0 v) = Ran (false, 0, [], v').
Proof.
  destruct (demo_after_live crossing_ops) as (v & E & L & Ed & Eb & _); [ops_fit|closed|].
  assert (Hf : match demo_after crossing_ops with Ran v => (slot v 0, currblock v, bool_decide (flen (file v) < 7168 + bitmap_size v + 6000)) | _ => (None, 0, false) end
    = (Some 7168, 2, true)) by (vm_compute; reflexivity).
  rewrite E in Hf. injection Hf as Hs Hc Hl. apply bool_decide_eq_true in Hl. pose proof (live_seek v 0 L) as L0.
  destruct (vhd_Read_last_block_fails (with_offset 0 v) [] 6000 7168 (lv_inv _ L0) (lv_saved _ L0)) as (v' & R).
  - change (0 <= 0 < dstsize v). rewrite Ed. closed.
  - closed.
  - change (slot v (0 / blocksize v) = Some 7168). by rewrite Eb.
  - change (currblock v <> 0 / blocksize v). by rewrite Eb, Hc.
  - change (flen (file v) < 7168 + bitmap_size v + (0 mod blocksize v + 6000)). by rewrite Eb.
  - exists v, v'. split; [exact E|exact R].
Defined.

(** In fast mode: the bits of a new block are set, its data is not in the file. *)
Definition unwritten_image : vhd_run plain_image := let! v := demo_create true in let! (_, v) := setUnused 0 10 v in Ran v.
Lemma vhd_Read_unwritten_hangs_witness : exists v, unwritten_image = Ran v /\ Read (zeros 10) 10 v = Endless.
Proof.
  destruct (create_spec (P := no_parent) 0 demo_uid (fun _ => None) true false CMemoryFile.init 16384 4096) as
    (v0 & E & I0 & S0 & _ & _ & _ & (_ & Ero & _) & (Ed & Eb & _ & _ & Ev & Ep) & En & Em & _); [done|closed|closed|closed|closed|closed|].
  destruct (setUnused_spec v0 0 10 I0 S0 Ero) as (v & U & W);
    [closed|rewrite Ev; closed|rewrite Ev, Ed; closed|left; exact Ep|unfold has_room, touched, room; rewrite Ev, Eb, En, Em; closed|].
  assert (Ei : unwritten_image = Ran v) by (unfold unwritten_image, demo_create; rewrite E; cbn [vbind]; by rewrite U).
  assert (Hf : match unwritten_image with
    | Ran v => (slot v 0, currblock v, curr_offset v, block_bit v 0 2048 0, bool_decide (flen (file v) <= 2048 + bitmap_size v + 0), blocksize v, dstsize v)
    | _ => (None, 0, 0, false, false, 0, 0) end = (Some 2048, 0, 0, true, true, 4096, 16384)) by (vm_compute; reflexivity).
  rewrite Ei in Hf. injection Hf as Hs Hc Ho Hb Hl Hbs Hds. apply bool_decide_eq_true in Hl.
  pose proof (wr_inv _ _ _ _ _ W) as I. destruct (file_Seek_spec (2048 + bitmap_size v + 0) v) as (f & Ef & _); [destruct (bms_spec v I) as (Hm & _); lia|].
  exists v. split; [exact Ei|].
  apply (vhd_Read_unwritten_hangs v (zeros 10) 10 2048 (with_file f v) I); rewrite ?Ho, ?Hbs, ?Hds; [closed|closed|closed|exact Hs|exact Hc|exact Hb|exact Hl|exact Ef].
Defined.

Lemma vhd_usedSize_witness : exists v, demo_after demo_ops = Ran v /\ usedSize (with_offset 0 v) = Ran (16384, with_offset 0 v) /\
  usedSize (with_offset 8192 v) = Ran (0, with_offset 8192 v).
Proof.
  destruct (demo_after_live demo_ops) as (v & E & L & Ed & Eb & Ec); [ops_fit|closed|].
  assert (Hf : match demo_after demo_ops with Ran v => (slot v 0, slot v 2) | _ => (None, Some 0) end = (Some 2048, None)) by (vm_compute; reflexivity).
  rewrite E in Hf. injection Hf as H0 H2. assert (Ep : parent v = None) by (unfold is_child in Ec; by destruct (parent v)).
  exists v. split; [exact E|]. split.
  - rewrite (vhd_usedSize_all_or_nothing (with_offset 0 v) (lv_inv _ (live_seek v 0 L)) Ep); [|change (0 <= 0 < dstsize v); rewrite Ed; closed].
    change (slot (with_offset 0 v)) with (slot v). vcbn. rewrite Eb, Ed. change (0 / 4096) with 0. by rewrite H0.
  - rewrite (vhd_usedSize_all_or_nothing (with_offset 8192 v) (lv_inv _ (live_seek v 8192 L)) Ep); [|change (0 <= 8192 < dstsize v); rewrite Ed; closed].
    change (slot (with_offset 8192 v)) with (slot v). vcbn. rewrite Eb, Ed. change (8192 / 4096) with 2. by rewrite H2.
Defined.

(** ** Opening again *)

(** In fast mode the bitmap, the table and the footer are only written by [finish]. *)
Lemma vhd_finish_open_roundtrip_witness : exists v v' w, demo_create true = Ran v /\
  (exists v1, Write (str "AB") v = Ran (2, false, v1) /\ finish v1 = (true, v')) /\
  VHDFile 0 demo_uid (fun _ => None) true false false (file v') 0 0 = Ran w /\ is_open w = true /\ disk w 1 = "B"%char.
Proof.
  destruct (create_spec (P := no_parent) 0 demo_uid (fun _ => None) true false CMemoryFile.init 16384 4096) as
    (v & E & I & S & _ & Hh & _ & (Eop & Ero & Efa & Eco & Efi) & (Ed & Eb & Ez & Eo & Ev & Ep) & En & Em & _); [done|closed|closed|closed|closed|closed|].
  destruct (Write_spec v (str "AB") I S Ero) as (v1 & W & _ & Wr);
    [rewrite Eo; closed|discriminate|rewrite Eo, Ed; closed|left; exact Ep|unfold has_room, touched, room; rewrite Eo, Eb, En, Em; closed|].
  destruct (wr_statics _ _ _ _ _ Wr) as [Ks Kp]. unfold statics in Ks. change (new_batsize 16384 4096) with 4 in Ez.
  assert (Est : read_only v1 = false /\ compressed v1 = false /\ is_open v1 = true /\ finished v1 = false /\ fast_mode v1 = true /\ batsize v1 = 4)
    by (repeat split; congruence).
  destruct Est as (F1 & F2 & F3 & F4 & F5 & F6). rewrite Ep in Kp.
  destruct (vhd_finish_open_roundtrip v1 (fun _ => None) 0 demo_uid true false 0 0 None (wr_inv _ _ _ _ _ Wr) (wr_saved _ _ _ _ _ Wr)) as
    (v' & w & Fi & O & Op & _ & _ & _ & _ & _ & _ & _ & _ & D);
    [exact (headed_written _ _ _ _ _ Wr Hh)|exact F1|exact F2|exact F3|exact F4|rewrite F5; discriminate|rewrite F6; closed|by rewrite Kp|by rewrite Kp|exact Logic.I|].
  exists v, v', w. split; [exact E|]. split; [by exists v1|]. split; [exact O|]. split; [exact Op|]. rewrite D by closed.
  rewrite (wr_disk _ _ _ _ _ Wr) by closed. by rewrite Eo.
Defined.
