(* ===== verification/VhdBackup.v ===== *)
(** A full image backup: an image is created, in fast mode or not, written, finished,
    opened again and read. *)
From S2P Require Import Prelude MemFile VhdFormat VhdFile VhdSpec VhdSteps VhdRead VhdWrite VhdTable VhdOps VhdImage VhdReopen VhdDisk VhdTheorems.
Import VHDFile.

(** The calls of the backup, and those of a reader. *)
Definition is_change (op : disk_op) : Prop := match op with DRead _ _ => False | _ => True end.
Definition is_read (op : disk_op) : Prop := match op with DRead _ _ => True | _ => False end.

Section Backup.
Context {F P : Type} `{FileLaws F} `{VHDParentLaws P} `{!IFinish F} `{!FinishLaws F}.
Notation t := (t (F := F) (P := P)).
Implicit Types (v : t).

(** An image that can be written and finished; in fast mode, bitmap, table and footer
    need not be in its file. *)
Record writable v : Prop := {
  wb_inv : inv v;
  wb_saved : saved v;
  wb_headed : headed v;
  wb_stored : fast_mode v = false -> stored v;
  wb_modes : read_only v = false /\ volume_offset v = 0 }.

Lemma writable_written v lo n src v' : writable v -> written v lo n src v' -> writable v' /\ statics v' = statics v /\ parent v' = parent v.
Proof.
  intros [I S Hh St (Hro & Hvo)] W. pose proof W as [I' S' _ [Ks Kp] _ _ _ St']. split; [|done].
  assert (E : read_only v' = read_only v /\ fast_mode v' = fast_mode v /\ volume_offset v' = volume_offset v) by (unfold statics in Ks; repeat split; congruence).
  destruct E as (E1 & E2 & E3). constructor; [done|done|by apply (headed_written v lo n src v')| |by rewrite E1, E3].
  rewrite E2. intros Hf. apply St'; [done|by apply St].
Qed.
Lemma writable_offset v o : writable v -> writable (with_offset o v).
Proof.
  intros [I S [H1' H2' H3' H4' H5' H6' H7' H8' H9'] St M]. pose proof (quiet_offset v o I S) as Q.
  constructor; [apply Q|done|by constructor| |done]. intros Hf. destruct (St Hf). by constructor.
Qed.

(** One change. *)
Lemma change_spec v op d m : writable v -> is_change op -> op_ok (dstsize v) (blocksize v) (is_child v) op -> 0 <= m ->
  room v (op_blocks (blocksize v) op + m) -> (forall x, 0 <= x -> disk v x = d x) ->
  exists v', image_step op v = Ran (fst (flat_step op d), v') /\ writable v' /\ (statics v' = statics v /\ parent v' = parent v) /\
    (forall x, 0 <= x -> disk v' x = snd (flat_step op d) x) /\ room v' m.
Proof.
  intros Wv Hc Hok Hm Hroom Hd. pose proof Wv as [I S _ _ (Hro & Hvo)]. destruct (i_size v I) as [Hds _].
  destruct op as [o n|o b|o e]; [done|..]; cbn [op_ok op_blocks image_step flat_step fst snd] in *.
  - destruct Hok as (Ho & Hne & Hsz & Hw). pose proof (zlen_nonneg b).
    assert (Es : Seek o v = with_offset o v) by (unfold Seek; by rewrite Hvo, Z.add_0_r, !w64_id by (rewrite ?w64_id by lia; lia)).
    pose proof (writable_offset v o Wv) as W1. rewrite Es.
    destruct (Write_spec (with_offset o v) b (wb_inv _ W1) (wb_saved _ W1) Hro Ho Hne Hsz) as (v' & -> & _ & W).
    { by apply (sectors_of_ok (with_offset o v)). }
    { apply (room_less (with_offset o v) (touched v o (zlen b) + m)); [apply W1|change (touched (with_offset o v)) with (touched v); vcbn; lia|done]. }
    cbn [vbind]. exists v'. split; [done|]. destruct (writable_written _ _ _ _ _ W1 W) as (W' & K). split; [done|]. split; [done|].
    split; [|by apply W]. intros x Hx. rewrite (wr_disk _ _ _ _ _ W) by done. unfold overwrite. by rewrite <- Hd.
  - destruct Hok as ([Ho Hoe] & Hsz & Hw).
    destruct (setUnused_spec v o e I S Hro) as (v' & -> & W); rewrite ?Hvo, ?Z.add_0_l; try lia.
    { by apply sectors_of_ok. }
    { apply (room_less v (touched v o (e - o) + m)); [done|cbn; lia|done]. }
    cbn [vbind]. exists v'. split; [done|]. rewrite Hvo, Z.add_0_l in W. destruct (writable_written _ _ _ _ _ Wv W) as (W' & K).
    split; [done|]. split; [done|]. split; [|by apply W]. intros x Hx. rewrite (wr_disk _ _ _ _ _ W) by done. unfold overwrite. by rewrite <- Hd.
Qed.

Lemma changes_spec ops : forall v d, writable v -> Forall is_change ops -> Forall (op_ok (dstsize v) (blocksize v) (is_child v)) ops ->
  room v (ops_blocks (blocksize v) ops) -> (forall x, 0 <= x -> disk v x = d x) ->
  exists v', image_run ops v = Ran (fst (flat_run ops d), v') /\ writable v' /\ (statics v' = statics v /\ parent v' = parent v) /\
    forall x, 0 <= x -> disk v' x = snd (flat_run ops d) x.
Proof.
  induction ops as [|op ops IH]; intros v d Wv Hc Hok Hroom Hd; [by exists v|]. apply Forall_cons in Hc as [Hc1 Hc], Hok as [Hop Hok].
  destruct (i_block v (wb_inv v Wv)) as [Hbs _]. pose proof (ops_blocks_nonneg _ _ _ ops (proj1 Hbs) Hok).
  destruct (change_spec v op d (ops_blocks (blocksize v) ops) Wv Hc1 Hop) as (v1 & E1 & W1 & [K1 P1] & D1 & R1); [done|done|done|].
  pose proof (statics_eq _ _ K1) as (_ & _ & T1 & T2 & _).
  assert (T4 : is_child v1 = is_child v) by (unfold is_child; by rewrite P1). cbn [image_run flat_run]. rewrite E1. cbn [vbind].
  destruct (flat_step op d) as [r d1]. cbn [fst snd] in *.
  destruct (IH v1 d1 W1 Hc) as (v2 & E2 & W2 & [K2 P2] & D2); [by rewrite T1, T2, T4|by rewrite T2|done|].
  rewrite E2. cbn [vbind]. exists v2. destruct (flat_run ops d1) as [rs d2]. split; [done|]. split; [done|]. split; [|done]. split; congruence.
Qed.

(** Reading, of an image opened for reading or for writing, in fast mode or not. *)
Lemma reads_spec ops : forall v d child, image_good v -> Forall is_read ops -> Forall (op_ok (dstsize v) (blocksize v) child) ops ->
  (forall x, 0 <= x -> disk v x = d x) ->
  exists v', image_run ops v = Ran (fst (flat_run ops d), v') /\ image_good v' /\ forall x, 0 <= x -> disk v' x = d x.
Proof.
  induction ops as [|op ops IH]; intros v d child G Hr Hok Hd; [by exists v|]. apply Forall_cons in Hr as [Hr1 Hr], Hok as [Hop Hok].
  destruct op as [o n| |]; [|done..]. destruct Hop as (Ho & Hn & Hsz & Hb). pose proof G as (I & _). pose proof (i_size v I) as [Hds _].
  assert (G' : p_good (VHDParentLaws := vhd_parent_laws) v) by exact G.
  destruct (p_read (VHDParentLaws := vhd_parent_laws) v o n (zeros n) G' Ho Hn Hsz) as (v1 & E & G1 & D1 & Z1 & B1); [rewrite zlen_vzeros; lia|exact Hb|].
  cbn [p_Seek p_Read vhd_parent p_good vhd_parent_laws p_disk p_size p_block] in *. cbn [image_run flat_run image_step flat_step]. rewrite E. cbn [vbind].
  destruct (IH v1 d child G1 Hr) as (v2 & E2 & G2 & D2); [by rewrite Z1, B1|intros x Hx; rewrite D1 by done; by apply Hd|].
  rewrite E2. cbn [vbind]. exists v2. split; [|done]. destruct (flat_run ops d) as [rs d2]. cbn [fst].
  pose proof (ztake_app_zlen (range (disk v) o n) (zdrop n (zeros n))) as Et. rewrite zlen_range in Et by lia. rewrite Et.
  by rewrite (range_ext (disk v) d) by (intros x Hx; apply Hd; lia).
Qed.

(** C18: a full image backup, as the server makes it, in fast mode or not.  A new image
    that is given any sequence of writes and unused ranges inside of its size, as far as
    its table allows, is finished without an error; its file, opened again in any mode,
    gives every read, of parts of one block each, the bytes of the flat disk that the
    writes leave. *)
Theorem vhd_backup_roundtrip now random open_parent fast f dst bs ops now' random' open_parent' ro fast' dst' bs' reads :
  contents f = [] -> zlen random = 16 -> 0 < bs < 2 ^ 32 -> bs mod sector_size = 0 -> 0 <= dst < 2 ^ 62 -> new_batsize dst bs < 2 ^ 30 ->
  Forall is_change ops -> Forall (op_ok dst bs false) ops -> image_fits dst bs (ops_blocks bs ops) ->
  Forall is_read reads -> Forall (op_ok dst bs false) reads ->
  exists v v1 v2 w w1, VHDFile now random open_parent false fast false f dst bs = Ran v /\
    image_run ops v = Ran (fst (flat_run ops (fun _ => nul)), v1) /\ finish v1 = (true, v2) /\
    VHDFile now' random' open_parent' ro fast' false (file v2) dst' bs' = Ran w /\ is_open w = true /\
    image_run reads w = Ran (fst (flat_run reads (snd (flat_run ops (fun _ => nul)))), w1).
Proof.
  intros Hf Hr Hb Hbm Hd Hn Hc Hok Hfit Hrd Hrok.
  destruct (create_spec now random open_parent fast false f dst bs Hf Hr Hb Hbm Hd ltac:(unfold no_block; lia)) as
    (v & E & I & S & _ & Hh & St & (A1 & A2 & A3 & A4 & A5) & (B1 & B2 & B3 & _ & B5 & B6) & En & Em & D).
  destruct (changes_spec ops v (fun _ => nul)) as (v1 & E1 & W1 & [K1 P1] & D1); [by constructor; auto|exact Hc| | |intros x _; apply D|].
  { unfold is_child. by rewrite B1, B2, B6. }
  { unfold room. rewrite B2, En, Em. exact Hfit. }
  assert (X : is_open v1 = true /\ compressed v1 = false /\ finished v1 = false /\ batsize v1 = new_batsize dst bs /\ dstsize v1 = dst /\ blocksize v1 = bs)
    by (unfold statics in K1; repeat split; congruence).
  destruct X as (X1 & X2 & X3 & X4 & X5 & X6). destruct W1 as [I1 S1 H1' St1 (Hro & _)]. rewrite B6 in P1.
  destruct (finish_spec v1 I1 S1 Hro X2 X1 X3 St1) as (v2 & E2 & C); [by rewrite P1|].
  destruct (open_spec v1 (file v2) open_parent' now' random' ro fast' dst' bs' None I1 H1' C) as
    (w & Ew & Iw & Sw & Fw & _ & _ & (Ow & _) & (Y1 & Y2 & _ & _ & Y5 & _) & Dw); [by rewrite X4|rewrite X5; lia|by rewrite P1|done|].
  destruct (reads_spec reads w (snd (flat_run ops (fun _ => nul))) false) as (w1 & Er & _); [done|done|by rewrite Y1, Y2, X5, X6| |].
  { intros x Hx. rewrite Dw by done. by apply D1. }
  by exists v, v1, v2, w, w1.
Qed.
End Backup.

Definition backup_ops : list disk_op := [DWrite 4090 (str "ABCDEFGH"); DUnused 4092 4094; DWrite 12288 (str "Z")].
Definition backup_reads : list disk_op := [DRead 4090 6; DRead 4096 2; DRead 12287 1; DRead 12288 1].
Lemma vhd_backup_roundtrip_witness : exists (v v1 v2 w w1 : plain_image), demo_create true = Ran v /\
  image_run backup_ops v = Ran ([RCount 8; RDone; RCount 1], v1) /\ finish v1 = (true, v2) /\
  VHDFile 0 demo_uid (fun _ => None) true false false (file v2) 0 0 = Ran w /\ is_open w = true /\
  image_run backup_reads w = Ran ([RBytes [ "A"; "B"; nul; nul; "E"; "F" ]%char; RBytes (str "GH"); RBytes [nul]; RBytes (str "Z")], w1).
Proof.
  destruct (vhd_backup_roundtrip (P := no_parent) 0 demo_uid (fun _ => None) true CMemoryFile.init 16384 4096 backup_ops
    0 demo_uid (fun _ => None) true false 0 0 backup_reads) as (v & v1 & v2 & w & w1 & E & E1 & E2 & Ew & Ow & Er);
    [reflexivity|reflexivity|closed|reflexivity|closed|closed|repeat constructor|ops_fit|closed|repeat constructor|ops_fit|].
  assert (R1 : fst (flat_run backup_ops (fun _ => nul)) = [RCount 8; RDone; RCount 1]) by (vm_compute; reflexivity).
  assert (R2 : fst (flat_run backup_reads (snd (flat_run backup_ops (fun _ => nul)))) =
    [RBytes [ "A"; "B"; nul; nul; "E"; "F" ]%char; RBytes (str "GH"); RBytes [nul]; RBytes (str "Z")]) by (vm_compute; reflexivity).
  rewrite R1 in E1. rewrite R2 in Er. by exists v, v1, v2, w, w1.
Defined.
