(* ===== verification/ZipBase.v ===== *)
(** ZIP archives ([common/miniz.c], [common/miniz.h]): constants, data, memory
    and the effects of the archive functions.

    An [mz_zip_archive] with its [mz_zip_internal_state] is a record; the
    functions run in the monad [zm] over the archive and the environment of the
    user's callbacks.  A computation ends with a value (the C function returned
    a true value), with [MzFalse] (it returned [MZ_FALSE], [m_last_error] set as
    the code sets it) or with [Bad], an access outside an allocation or a loop
    that does not end; the theorems exclude [Bad]. *)
From S2P Require Import Prelude.

(** ** Constants *)

Definition MZ_UINT16_MAX : Z := 0xffff.
Definition MZ_UINT32_MAX : Z := 0xffffffff.
Definition MZ_DEFLATED : Z := 8.
Definition MZ_DEFAULT_LEVEL : Z := 6.
Definition MZ_UBER_COMPRESSION : Z := 10.
Definition MZ_ZIP_MAX_IO_BUF_SIZE : Z := 64 * 1024.
Definition MZ_ZIP_MAX_ARCHIVE_FILENAME_SIZE : Z := 512.
Definition MZ_ZIP_MAX_ARCHIVE_FILE_COMMENT_SIZE : Z := 512.

Definition MZ_ZIP_END_OF_CENTRAL_DIR_HEADER_SIG : Z := 0x06054b50.
Definition MZ_ZIP_CENTRAL_DIR_HEADER_SIG : Z := 0x02014b50.
Definition MZ_ZIP_LOCAL_DIR_HEADER_SIG : Z := 0x04034b50.
Definition MZ_ZIP_LOCAL_DIR_HEADER_SIZE : Z := 30.
Definition MZ_ZIP_CENTRAL_DIR_HEADER_SIZE : Z := 46.
Definition MZ_ZIP_END_OF_CENTRAL_DIR_HEADER_SIZE : Z := 22.
Definition MZ_ZIP64_END_OF_CENTRAL_DIR_HEADER_SIG : Z := 0x06064b50.
Definition MZ_ZIP64_END_OF_CENTRAL_DIR_LOCATOR_SIG : Z := 0x07064b50.
Definition MZ_ZIP64_END_OF_CENTRAL_DIR_HEADER_SIZE : Z := 56.
Definition MZ_ZIP64_END_OF_CENTRAL_DIR_LOCATOR_SIZE : Z := 20.
Definition MZ_ZIP64_EXTENDED_INFORMATION_FIELD_HEADER_ID : Z := 0x0001.
Definition MZ_ZIP_DATA_DESCRIPTOR_ID : Z := 0x08074b50.
Definition MZ_ZIP_DATA_DESCRIPTER_SIZE64 : Z := 24.
Definition MZ_ZIP_DATA_DESCRIPTER_SIZE32 : Z := 16.
Definition MZ_ZIP_CDH_SIG_OFS : Z := 0.
Definition MZ_ZIP_CDH_VERSION_MADE_BY_OFS : Z := 4.
Definition MZ_ZIP_CDH_VERSION_NEEDED_OFS : Z := 6.
Definition MZ_ZIP_CDH_BIT_FLAG_OFS : Z := 8.
Definition MZ_ZIP_CDH_METHOD_OFS : Z := 10.
Definition MZ_ZIP_CDH_FILE_TIME_OFS : Z := 12.
Definition MZ_ZIP_CDH_FILE_DATE_OFS : Z := 14.
Definition MZ_ZIP_CDH_CRC32_OFS : Z := 16.
Definition MZ_ZIP_CDH_COMPRESSED_SIZE_OFS : Z := 20.
Definition MZ_ZIP_CDH_DECOMPRESSED_SIZE_OFS : Z := 24.
Definition MZ_ZIP_CDH_FILENAME_LEN_OFS : Z := 28.
Definition MZ_ZIP_CDH_EXTRA_LEN_OFS : Z := 30.
Definition MZ_ZIP_CDH_COMMENT_LEN_OFS : Z := 32.
Definition MZ_ZIP_CDH_DISK_START_OFS : Z := 34.
Definition MZ_ZIP_CDH_INTERNAL_ATTR_OFS : Z := 36.
Definition MZ_ZIP_CDH_EXTERNAL_ATTR_OFS : Z := 38.
Definition MZ_ZIP_CDH_LOCAL_HEADER_OFS : Z := 42.
Definition MZ_ZIP_LDH_SIG_OFS : Z := 0.
Definition MZ_ZIP_LDH_VERSION_NEEDED_OFS : Z := 4.
Definition MZ_ZIP_LDH_BIT_FLAG_OFS : Z := 6.
Definition MZ_ZIP_LDH_METHOD_OFS : Z := 8.
Definition MZ_ZIP_LDH_FILE_TIME_OFS : Z := 10.
Definition MZ_ZIP_LDH_FILE_DATE_OFS : Z := 12.
Definition MZ_ZIP_LDH_CRC32_OFS : Z := 14.
Definition MZ_ZIP_LDH_COMPRESSED_SIZE_OFS : Z := 18.
Definition MZ_ZIP_LDH_DECOMPRESSED_SIZE_OFS : Z := 22.
Definition MZ_ZIP_LDH_FILENAME_LEN_OFS : Z := 26.
Definition MZ_ZIP_LDH_EXTRA_LEN_OFS : Z := 28.
Definition MZ_ZIP_LDH_BIT_FLAG_HAS_LOCATOR : Z := Z.shiftl 1 3.
Definition MZ_ZIP_ECDH_SIG_OFS : Z := 0.
Definition MZ_ZIP_ECDH_NUM_THIS_DISK_OFS : Z := 4.
Definition MZ_ZIP_ECDH_NUM_DISK_CDIR_OFS : Z := 6.
Definition MZ_ZIP_ECDH_CDIR_NUM_ENTRIES_ON_DISK_OFS : Z := 8.
Definition MZ_ZIP_ECDH_CDIR_TOTAL_ENTRIES_OFS : Z := 10.
Definition MZ_ZIP_ECDH_CDIR_SIZE_OFS : Z := 12.
Definition MZ_ZIP_ECDH_CDIR_OFS_OFS : Z := 16.
Definition MZ_ZIP_ECDH_COMMENT_SIZE_OFS : Z := 20.
Definition MZ_ZIP64_ECDL_SIG_OFS : Z := 0.
Definition MZ_ZIP64_ECDL_NUM_DISK_CDIR_OFS : Z := 4.
Definition MZ_ZIP64_ECDL_REL_OFS_TO_ZIP64_ECDR_OFS : Z := 8.
Definition MZ_ZIP64_ECDL_TOTAL_NUMBER_OF_DISKS_OFS : Z := 16.
Definition MZ_ZIP64_ECDH_SIG_OFS : Z := 0.
Definition MZ_ZIP64_ECDH_SIZE_OF_RECORD_OFS : Z := 4.
Definition MZ_ZIP64_ECDH_VERSION_MADE_BY_OFS : Z := 12.
Definition MZ_ZIP64_ECDH_VERSION_NEEDED_OFS : Z := 14.
Definition MZ_ZIP64_ECDH_NUM_THIS_DISK_OFS : Z := 16.
Definition MZ_ZIP64_ECDH_NUM_DISK_CDIR_OFS : Z := 20.
Definition MZ_ZIP64_ECDH_CDIR_NUM_ENTRIES_ON_DISK_OFS : Z := 24.
Definition MZ_ZIP64_ECDH_CDIR_TOTAL_ENTRIES_OFS : Z := 32.
Definition MZ_ZIP64_ECDH_CDIR_SIZE_OFS : Z := 40.
Definition MZ_ZIP64_ECDH_CDIR_OFS_OFS : Z := 48.
Definition MZ_ZIP_VERSION_MADE_BY_DOS_FILESYSTEM_ID : Z := 0.
Definition MZ_ZIP_DOS_DIR_ATTRIBUTE_BITFLAG : Z := 0x10.
Definition MZ_ZIP_GENERAL_PURPOSE_BIT_FLAG_IS_ENCRYPTED : Z := 1.
Definition MZ_ZIP_GENERAL_PURPOSE_BIT_FLAG_COMPRESSED_PATCH_FLAG : Z := 32.
Definition MZ_ZIP_GENERAL_PURPOSE_BIT_FLAG_USES_STRONG_ENCRYPTION : Z := 64.
Definition MZ_ZIP_GENERAL_PURPOSE_BIT_FLAG_LOCAL_DIR_IS_MASKED : Z := 8192.
Definition MZ_ZIP_GENERAL_PURPOSE_BIT_FLAG_UTF8 : Z := Z.shiftl 1 11.

(** Flags of the archive functions. *)
Definition MZ_ZIP_FLAG_CASE_SENSITIVE : Z := 0x0100.
Definition MZ_ZIP_FLAG_IGNORE_PATH : Z := 0x0200.
Definition MZ_ZIP_FLAG_COMPRESSED_DATA : Z := 0x0400.
Definition MZ_ZIP_FLAG_DO_NOT_SORT_CENTRAL_DIRECTORY : Z := 0x0800.
Definition MZ_ZIP_FLAG_VALIDATE_LOCATE_FILE_FLAG : Z := 0x1000.
Definition MZ_ZIP_FLAG_VALIDATE_HEADERS_ONLY : Z := 0x2000.
Definition MZ_ZIP_FLAG_WRITE_ZIP64 : Z := 0x4000.
Definition MZ_ZIP_FLAG_WRITE_ALLOW_READING : Z := 0x8000.
Definition MZ_ZIP_FLAG_ASCII_FILENAME : Z := 0x10000.
Definition MZ_ZIP_FLAG_WRITE_HEADER_SET_SIZE : Z := 0x20000.

(** ** Enumerations *)

Inductive mz_zip_mode :=
  | MZ_ZIP_MODE_INVALID | MZ_ZIP_MODE_READING | MZ_ZIP_MODE_WRITING
  | MZ_ZIP_MODE_WRITING_HAS_BEEN_FINALIZED.
Inductive mz_zip_type :=
  | MZ_ZIP_TYPE_INVALID | MZ_ZIP_TYPE_USER | MZ_ZIP_TYPE_MEMORY | MZ_ZIP_TYPE_HEAP
  | MZ_ZIP_TYPE_FILE | MZ_ZIP_TYPE_CFILE.
Inductive mz_zip_error :=
  | MZ_ZIP_NO_ERROR | MZ_ZIP_UNDEFINED_ERROR | MZ_ZIP_TOO_MANY_FILES | MZ_ZIP_FILE_TOO_LARGE
  | MZ_ZIP_UNSUPPORTED_METHOD | MZ_ZIP_UNSUPPORTED_ENCRYPTION | MZ_ZIP_UNSUPPORTED_FEATURE
  | MZ_ZIP_FAILED_FINDING_CENTRAL_DIR | MZ_ZIP_NOT_AN_ARCHIVE | MZ_ZIP_INVALID_HEADER_OR_CORRUPTED
  | MZ_ZIP_UNSUPPORTED_MULTIDISK | MZ_ZIP_DECOMPRESSION_FAILED | MZ_ZIP_COMPRESSION_FAILED
  | MZ_ZIP_UNEXPECTED_DECOMPRESSED_SIZE | MZ_ZIP_CRC_CHECK_FAILED | MZ_ZIP_UNSUPPORTED_CDIR_SIZE
  | MZ_ZIP_ALLOC_FAILED | MZ_ZIP_FILE_OPEN_FAILED | MZ_ZIP_FILE_CREATE_FAILED
  | MZ_ZIP_FILE_WRITE_FAILED | MZ_ZIP_FILE_READ_FAILED | MZ_ZIP_FILE_CLOSE_FAILED
  | MZ_ZIP_FILE_SEEK_FAILED | MZ_ZIP_FILE_STAT_FAILED | MZ_ZIP_INVALID_PARAMETER
  | MZ_ZIP_INVALID_FILENAME | MZ_ZIP_BUF_TOO_SMALL | MZ_ZIP_INTERNAL_ERROR | MZ_ZIP_FILE_NOT_FOUND
  | MZ_ZIP_ARCHIVE_TOO_LARGE | MZ_ZIP_VALIDATION_FAILED | MZ_ZIP_WRITE_CALLBACK_FAILED.

#[global] Instance mz_zip_mode_dec : EqDecision mz_zip_mode.
Proof. solve_decision. Defined.

(** The constants as numerals, for arithmetic. *)
Create HintDb zipc.
#[export] Hint Unfold
  MZ_UINT16_MAX MZ_UINT32_MAX MZ_DEFLATED MZ_DEFAULT_LEVEL MZ_UBER_COMPRESSION
  MZ_ZIP_MAX_IO_BUF_SIZE MZ_ZIP_MAX_ARCHIVE_FILENAME_SIZE MZ_ZIP_MAX_ARCHIVE_FILE_COMMENT_SIZE
  MZ_ZIP_END_OF_CENTRAL_DIR_HEADER_SIG MZ_ZIP_CENTRAL_DIR_HEADER_SIG MZ_ZIP_LOCAL_DIR_HEADER_SIG
  MZ_ZIP_LOCAL_DIR_HEADER_SIZE MZ_ZIP_CENTRAL_DIR_HEADER_SIZE
  MZ_ZIP_END_OF_CENTRAL_DIR_HEADER_SIZE MZ_ZIP64_END_OF_CENTRAL_DIR_HEADER_SIG
  MZ_ZIP64_END_OF_CENTRAL_DIR_LOCATOR_SIG MZ_ZIP64_END_OF_CENTRAL_DIR_HEADER_SIZE
  MZ_ZIP64_END_OF_CENTRAL_DIR_LOCATOR_SIZE MZ_ZIP64_EXTENDED_INFORMATION_FIELD_HEADER_ID
  MZ_ZIP_DATA_DESCRIPTOR_ID MZ_ZIP_DATA_DESCRIPTER_SIZE64 MZ_ZIP_DATA_DESCRIPTER_SIZE32
  MZ_ZIP_CDH_SIG_OFS MZ_ZIP_CDH_VERSION_MADE_BY_OFS MZ_ZIP_CDH_VERSION_NEEDED_OFS
  MZ_ZIP_CDH_BIT_FLAG_OFS MZ_ZIP_CDH_METHOD_OFS MZ_ZIP_CDH_FILE_TIME_OFS MZ_ZIP_CDH_FILE_DATE_OFS
  MZ_ZIP_CDH_CRC32_OFS MZ_ZIP_CDH_COMPRESSED_SIZE_OFS MZ_ZIP_CDH_DECOMPRESSED_SIZE_OFS
  MZ_ZIP_CDH_FILENAME_LEN_OFS MZ_ZIP_CDH_EXTRA_LEN_OFS MZ_ZIP_CDH_COMMENT_LEN_OFS
  MZ_ZIP_CDH_DISK_START_OFS MZ_ZIP_CDH_INTERNAL_ATTR_OFS MZ_ZIP_CDH_EXTERNAL_ATTR_OFS
  MZ_ZIP_CDH_LOCAL_HEADER_OFS MZ_ZIP_LDH_SIG_OFS MZ_ZIP_LDH_VERSION_NEEDED_OFS
  MZ_ZIP_LDH_BIT_FLAG_OFS MZ_ZIP_LDH_METHOD_OFS MZ_ZIP_LDH_FILE_TIME_OFS MZ_ZIP_LDH_FILE_DATE_OFS
  MZ_ZIP_LDH_CRC32_OFS MZ_ZIP_LDH_COMPRESSED_SIZE_OFS MZ_ZIP_LDH_DECOMPRESSED_SIZE_OFS
  MZ_ZIP_LDH_FILENAME_LEN_OFS MZ_ZIP_LDH_EXTRA_LEN_OFS MZ_ZIP_LDH_BIT_FLAG_HAS_LOCATOR
  MZ_ZIP_ECDH_SIG_OFS MZ_ZIP_ECDH_NUM_THIS_DISK_OFS MZ_ZIP_ECDH_NUM_DISK_CDIR_OFS
  MZ_ZIP_ECDH_CDIR_NUM_ENTRIES_ON_DISK_OFS MZ_ZIP_ECDH_CDIR_TOTAL_ENTRIES_OFS
  MZ_ZIP_ECDH_CDIR_SIZE_OFS MZ_ZIP_ECDH_CDIR_OFS_OFS MZ_ZIP_ECDH_COMMENT_SIZE_OFS
  MZ_ZIP64_ECDL_SIG_OFS MZ_ZIP64_ECDL_NUM_DISK_CDIR_OFS MZ_ZIP64_ECDL_REL_OFS_TO_ZIP64_ECDR_OFS
  MZ_ZIP64_ECDL_TOTAL_NUMBER_OF_DISKS_OFS MZ_ZIP64_ECDH_SIG_OFS MZ_ZIP64_ECDH_SIZE_OF_RECORD_OFS
  MZ_ZIP64_ECDH_VERSION_MADE_BY_OFS MZ_ZIP64_ECDH_VERSION_NEEDED_OFS
  MZ_ZIP64_ECDH_NUM_THIS_DISK_OFS MZ_ZIP64_ECDH_NUM_DISK_CDIR_OFS
  MZ_ZIP64_ECDH_CDIR_NUM_ENTRIES_ON_DISK_OFS MZ_ZIP64_ECDH_CDIR_TOTAL_ENTRIES_OFS
  MZ_ZIP64_ECDH_CDIR_SIZE_OFS MZ_ZIP64_ECDH_CDIR_OFS_OFS MZ_ZIP_VERSION_MADE_BY_DOS_FILESYSTEM_ID
  MZ_ZIP_DOS_DIR_ATTRIBUTE_BITFLAG MZ_ZIP_GENERAL_PURPOSE_BIT_FLAG_IS_ENCRYPTED
  MZ_ZIP_GENERAL_PURPOSE_BIT_FLAG_COMPRESSED_PATCH_FLAG
  MZ_ZIP_GENERAL_PURPOSE_BIT_FLAG_USES_STRONG_ENCRYPTION
  MZ_ZIP_GENERAL_PURPOSE_BIT_FLAG_LOCAL_DIR_IS_MASKED MZ_ZIP_GENERAL_PURPOSE_BIT_FLAG_UTF8
  MZ_ZIP_FLAG_CASE_SENSITIVE MZ_ZIP_FLAG_IGNORE_PATH MZ_ZIP_FLAG_COMPRESSED_DATA
  MZ_ZIP_FLAG_DO_NOT_SORT_CENTRAL_DIRECTORY MZ_ZIP_FLAG_VALIDATE_LOCATE_FILE_FLAG
  MZ_ZIP_FLAG_VALIDATE_HEADERS_ONLY MZ_ZIP_FLAG_WRITE_ZIP64 MZ_ZIP_FLAG_WRITE_ALLOW_READING
  MZ_ZIP_FLAG_ASCII_FILENAME MZ_ZIP_FLAG_WRITE_HEADER_SET_SIZE : zipc.

(** ** Data *)

(** A growable array: [m_p] is the allocated block ([m_capacity] elements, those
    from [m_size] on are not in use).  The element size is given by the type. *)
Record mz_zip_array (A : Type) := { m_p : list A; m_size : Z }.
Arguments m_p {A}.
Arguments m_size {A}.
Arguments Build_mz_zip_array {A}.
Definition m_capacity {A} (a : mz_zip_array A) : Z := zlen (m_p a).
Definition mz_zip_array_init {A} : mz_zip_array A := {| m_p := []; m_size := 0 |}.

(** The stdio handle [m_pFile] and its start offset belong to the file variants
    and are left out; [m_pMem] is the memory block, [m_mem_capacity] its size. *)
Record mz_zip_internal_state := {
  m_central_dir : mz_zip_array char;
  m_central_dir_offsets : mz_zip_array Z;
  m_sorted_central_dir_offsets : mz_zip_array Z;
  m_init_flags : Z;
  m_zip64 : bool;
  m_zip64_has_extended_info_fields : bool;
  m_pMem : option bytes;
  m_mem_size : Z;
}.
Definition m_mem_capacity (st : mz_zip_internal_state) : Z :=
  match m_pMem st with Some b => zlen b | None => 0 end.

(** A callback pointer: null, the memory or heap function of miniz, or the
    user's function. *)
Inductive io_func := IO_NULL | IO_MEM | IO_USER.

Record mz_zip_archive := {
  m_archive_size : Z;
  m_central_directory_file_ofs : Z;
  m_total_files : Z;
  m_zip_mode : mz_zip_mode;
  m_zip_type : mz_zip_type;
  m_last_error : mz_zip_error;
  m_file_offset_alignment : Z;
  m_pRead : io_func;
  m_pWrite : io_func;
  m_pState : option mz_zip_internal_state;
}.

Definition mz_zip_zero_struct : mz_zip_archive :=
  {| m_archive_size := 0; m_central_directory_file_ofs := 0; m_total_files := 0;
     m_zip_mode := MZ_ZIP_MODE_INVALID; m_zip_type := MZ_ZIP_TYPE_INVALID;
     m_last_error := MZ_ZIP_NO_ERROR; m_file_offset_alignment := 0;
     m_pRead := IO_NULL; m_pWrite := IO_NULL; m_pState := None |}.

(** Assignments to a field. *)
Definition set_m_central_dir (v : mz_zip_array char) (r : mz_zip_internal_state) : mz_zip_internal_state :=
  {| m_central_dir := v; m_central_dir_offsets := m_central_dir_offsets r; m_sorted_central_dir_offsets := m_sorted_central_dir_offsets r; m_init_flags := m_init_flags r; m_zip64 := m_zip64 r; m_zip64_has_extended_info_fields := m_zip64_has_extended_info_fields r; m_pMem := m_pMem r; m_mem_size := m_mem_size r |}.
Definition set_m_central_dir_offsets (v : mz_zip_array Z) (r : mz_zip_internal_state) : mz_zip_internal_state :=
  {| m_central_dir := m_central_dir r; m_central_dir_offsets := v; m_sorted_central_dir_offsets := m_sorted_central_dir_offsets r; m_init_flags := m_init_flags r; m_zip64 := m_zip64 r; m_zip64_has_extended_info_fields := m_zip64_has_extended_info_fields r; m_pMem := m_pMem r; m_mem_size := m_mem_size r |}.
Definition set_m_sorted_central_dir_offsets (v : mz_zip_array Z) (r : mz_zip_internal_state) : mz_zip_internal_state :=
  {| m_central_dir := m_central_dir r; m_central_dir_offsets := m_central_dir_offsets r; m_sorted_central_dir_offsets := v; m_init_flags := m_init_flags r; m_zip64 := m_zip64 r; m_zip64_has_extended_info_fields := m_zip64_has_extended_info_fields r; m_pMem := m_pMem r; m_mem_size := m_mem_size r |}.
Definition set_m_init_flags (v : Z) (r : mz_zip_internal_state) : mz_zip_internal_state :=
  {| m_central_dir := m_central_dir r; m_central_dir_offsets := m_central_dir_offsets r; m_sorted_central_dir_offsets := m_sorted_central_dir_offsets r; m_init_flags := v; m_zip64 := m_zip64 r; m_zip64_has_extended_info_fields := m_zip64_has_extended_info_fields r; m_pMem := m_pMem r; m_mem_size := m_mem_size r |}.
Definition set_m_zip64 (v : bool) (r : mz_zip_internal_state) : mz_zip_internal_state :=
  {| m_central_dir := m_central_dir r; m_central_dir_offsets := m_central_dir_offsets r; m_sorted_central_dir_offsets := m_sorted_central_dir_offsets r; m_init_flags := m_init_flags r; m_zip64 := v; m_zip64_has_extended_info_fields := m_zip64_has_extended_info_fields r; m_pMem := m_pMem r; m_mem_size := m_mem_size r |}.
Definition set_m_zip64_has_extended_info_fields (v : bool) (r : mz_zip_internal_state) : mz_zip_internal_state :=
  {| m_central_dir := m_central_dir r; m_central_dir_offsets := m_central_dir_offsets r; m_sorted_central_dir_offsets := m_sorted_central_dir_offsets r; m_init_flags := m_init_flags r; m_zip64 := m_zip64 r; m_zip64_has_extended_info_fields := v; m_pMem := m_pMem r; m_mem_size := m_mem_size r |}.
Definition set_m_pMem (v : option bytes) (r : mz_zip_internal_state) : mz_zip_internal_state :=
  {| m_central_dir := m_central_dir r; m_central_dir_offsets := m_central_dir_offsets r; m_sorted_central_dir_offsets := m_sorted_central_dir_offsets r; m_init_flags := m_init_flags r; m_zip64 := m_zip64 r; m_zip64_has_extended_info_fields := m_zip64_has_extended_info_fields r; m_pMem := v; m_mem_size := m_mem_size r |}.
Definition set_m_mem_size (v : Z) (r : mz_zip_internal_state) : mz_zip_internal_state :=
  {| m_central_dir := m_central_dir r; m_central_dir_offsets := m_central_dir_offsets r; m_sorted_central_dir_offsets := m_sorted_central_dir_offsets r; m_init_flags := m_init_flags r; m_zip64 := m_zip64 r; m_zip64_has_extended_info_fields := m_zip64_has_extended_info_fields r; m_pMem := m_pMem r; m_mem_size := v |}.
Definition set_m_archive_size (v : Z) (r : mz_zip_archive) : mz_zip_archive :=
  {| m_archive_size := v; m_central_directory_file_ofs := m_central_directory_file_ofs r; m_total_files := m_total_files r; m_zip_mode := m_zip_mode r; m_zip_type := m_zip_type r; m_last_error := m_last_error r; m_file_offset_alignment := m_file_offset_alignment r; m_pRead := m_pRead r; m_pWrite := m_pWrite r; m_pState := m_pState r |}.
Definition set_m_central_directory_file_ofs (v : Z) (r : mz_zip_archive) : mz_zip_archive :=
  {| m_archive_size := m_archive_size r; m_central_directory_file_ofs := v; m_total_files := m_total_files r; m_zip_mode := m_zip_mode r; m_zip_type := m_zip_type r; m_last_error := m_last_error r; m_file_offset_alignment := m_file_offset_alignment r; m_pRead := m_pRead r; m_pWrite := m_pWrite r; m_pState := m_pState r |}.
Definition set_m_total_files (v : Z) (r : mz_zip_archive) : mz_zip_archive :=
  {| m_archive_size := m_archive_size r; m_central_directory_file_ofs := m_central_directory_file_ofs r; m_total_files := v; m_zip_mode := m_zip_mode r; m_zip_type := m_zip_type r; m_last_error := m_last_error r; m_file_offset_alignment := m_file_offset_alignment r; m_pRead := m_pRead r; m_pWrite := m_pWrite r; m_pState := m_pState r |}.
Definition set_m_zip_mode (v : mz_zip_mode) (r : mz_zip_archive) : mz_zip_archive :=
  {| m_archive_size := m_archive_size r; m_central_directory_file_ofs := m_central_directory_file_ofs r; m_total_files := m_total_files r; m_zip_mode := v; m_zip_type := m_zip_type r; m_last_error := m_last_error r; m_file_offset_alignment := m_file_offset_alignment r; m_pRead := m_pRead r; m_pWrite := m_pWrite r; m_pState := m_pState r |}.
Definition set_m_zip_type (v : mz_zip_type) (r : mz_zip_archive) : mz_zip_archive :=
  {| m_archive_size := m_archive_size r; m_central_directory_file_ofs := m_central_directory_file_ofs r; m_total_files := m_total_files r; m_zip_mode := m_zip_mode r; m_zip_type := v; m_last_error := m_last_error r; m_file_offset_alignment := m_file_offset_alignment r; m_pRead := m_pRead r; m_pWrite := m_pWrite r; m_pState := m_pState r |}.
Definition set_m_last_error (v : mz_zip_error) (r : mz_zip_archive) : mz_zip_archive :=
  {| m_archive_size := m_archive_size r; m_central_directory_file_ofs := m_central_directory_file_ofs r; m_total_files := m_total_files r; m_zip_mode := m_zip_mode r; m_zip_type := m_zip_type r; m_last_error := v; m_file_offset_alignment := m_file_offset_alignment r; m_pRead := m_pRead r; m_pWrite := m_pWrite r; m_pState := m_pState r |}.
Definition set_m_file_offset_alignment (v : Z) (r : mz_zip_archive) : mz_zip_archive :=
  {| m_archive_size := m_archive_size r; m_central_directory_file_ofs := m_central_directory_file_ofs r; m_total_files := m_total_files r; m_zip_mode := m_zip_mode r; m_zip_type := m_zip_type r; m_last_error := m_last_error r; m_file_offset_alignment := v; m_pRead := m_pRead r; m_pWrite := m_pWrite r; m_pState := m_pState r |}.
Definition set_m_pRead (v : io_func) (r : mz_zip_archive) : mz_zip_archive :=
  {| m_archive_size := m_archive_size r; m_central_directory_file_ofs := m_central_directory_file_ofs r; m_total_files := m_total_files r; m_zip_mode := m_zip_mode r; m_zip_type := m_zip_type r; m_last_error := m_last_error r; m_file_offset_alignment := m_file_offset_alignment r; m_pRead := v; m_pWrite := m_pWrite r; m_pState := m_pState r |}.
Definition set_m_pWrite (v : io_func) (r : mz_zip_archive) : mz_zip_archive :=
  {| m_archive_size := m_archive_size r; m_central_directory_file_ofs := m_central_directory_file_ofs r; m_total_files := m_total_files r; m_zip_mode := m_zip_mode r; m_zip_type := m_zip_type r; m_last_error := m_last_error r; m_file_offset_alignment := m_file_offset_alignment r; m_pRead := m_pRead r; m_pWrite := v; m_pState := m_pState r |}.
Definition set_m_pState (v : option mz_zip_internal_state) (r : mz_zip_archive) : mz_zip_archive :=
  {| m_archive_size := m_archive_size r; m_central_directory_file_ofs := m_central_directory_file_ofs r; m_total_files := m_total_files r; m_zip_mode := m_zip_mode r; m_zip_type := m_zip_type r; m_last_error := m_last_error r; m_file_offset_alignment := m_file_offset_alignment r; m_pRead := m_pRead r; m_pWrite := m_pWrite r; m_pState := v |}.

(** ** The environment

    What the archive functions use of the outside: the user's read, write,
    keep-alive and allocation callbacks (with their opaque state [E]), the C
    library's clock and calendar, and the unspecified contents of fresh
    memory.  [user_alloc e n] says whether a request for [n] bytes is granted. *)
Record tm := { tm_sec : Z; tm_min : Z; tm_hour : Z; tm_mday : Z; tm_mon : Z; tm_year : Z }.
Class ZipEnv (E : Type) := {
  user_write : E -> Z -> bytes -> Z * E;
  user_read : E -> Z -> Z -> bytes * E;
  user_needs_keepalive : E -> bool * E;
  user_alloc : E -> Z -> bool * E;
  cur_time : E -> Z * E;
  localtime : Z -> tm;
  mktime : tm -> Z;
  junk : char }.

(** ** Effects *)

Inductive outcome (A : Type) := MzTrue (a : A) | MzFalse | Bad.
Arguments MzTrue {A} a.
Arguments MzFalse {A}.
Arguments Bad {A}.

Record zst (E : Type) := Zst { zip : mz_zip_archive; env : E }.
Arguments Zst {E}.
Arguments zip {E}.
Arguments env {E}.

Definition zm (E A : Type) : Type := zst E -> outcome A * zst E.
#[global] Instance zm_ret {E} : MRet (zm E) := fun A a s => (MzTrue a, s).
#[global] Instance zm_bind {E} : MBind (zm E) := fun A B k m s =>
  match m s with
  | (MzTrue a, s') => k a s'
  | (MzFalse, s') => (MzFalse, s')
  | (Bad, s') => (Bad, s')
  end.
#[global] Instance zm_join {E} : MJoin (zm E) := fun A m => m ≫= id.

Section Effects.
Context {E : Type} `{ZipEnv E}.

Definition with_zip (z : mz_zip_archive) (s : zst E) : zst E := Zst z (env s).
Definition get_zip : zm E mz_zip_archive := fun s => (MzTrue (zip s), s).
Definition mod_zip (f : mz_zip_archive -> mz_zip_archive) : zm E unit :=
  fun s => (MzTrue tt, with_zip (f (zip s)) s).
(** Uses of the environment's callbacks. *)
Definition use_env {A} (f : E -> A * E) : zm E A :=
  fun s => let '(a, e) := f (env s) in (MzTrue a, Zst (zip s) e).

(** [return MZ_FALSE], and an access outside an allocation. *)
Definition mz_false {A} : zm E A := fun s => (MzFalse, s).
Definition bad {A} : zm E A := fun s => (Bad, s).
Definition checked {A} (o : option A) : zm E A := match o with Some a => mret a | None => bad end.

(** A call whose [mz_bool] result is inspected by the caller. *)
Definition try {A} (m : zm E A) : zm E bool := fun s =>
  match m s with
  | (MzTrue _, s') => (MzTrue true, s')
  | (MzFalse, s') => (MzTrue false, s')
  | (Bad, s') => (Bad, s')
  end.

(** Dereferencing [m_pState]. *)
Definition get_state : zm E mz_zip_internal_state := z ← get_zip; checked (m_pState z).
Definition mod_state (f : mz_zip_internal_state -> mz_zip_internal_state) : zm E unit :=
  st ← get_state; mod_zip (set_m_pState (Some (f st))).

(** [mz_zip_set_error] as a statement, and in [return mz_zip_set_error(..)]. *)
Definition set_error (e : mz_zip_error) : zm E unit := mod_zip (set_m_last_error e).
Definition mz_zip_set_error {A} (e : mz_zip_error) : zm E A := set_error e;; mz_false.
Definition fail_if (b : bool) (e : mz_zip_error) : zm E unit :=
  if b then mz_zip_set_error e else mret tt.

(** ** Memory *)

(** [while (new_capacity < min_new_capacity) new_capacity *= 2;] on [size_t]. *)
Fixpoint grow_capacity (fuel : nat) (new_capacity min_new_capacity : Z) : option Z :=
  if min_new_capacity <=? new_capacity then Some new_capacity
  else match fuel with
       | O => None
       | S k => grow_capacity k (w64 (new_capacity * 2)) min_new_capacity
       end.

(** [m_pAlloc] and [m_pRealloc] with a request of [n] bytes: granted or not. *)
Definition m_pAlloc (n : Z) : zm E bool := use_env (fun e => user_alloc e n).

Definition mz_zip_array_ensure_capacity {A} (fresh : A) (element_size : Z) (a : mz_zip_array A)
    (min_new_capacity : Z) (growing : bool) : zm E (mz_zip_array A) :=
  if min_new_capacity <=? m_capacity a then mret a
  else
    new_capacity ← (if growing then checked (grow_capacity 65 (Z.max 1 (m_capacity a)) min_new_capacity)
                    else mret min_new_capacity);
    ok ← m_pAlloc (w64 (element_size * new_capacity));
    if (ok : bool) then mret {| m_p := zresize fresh new_capacity (m_p a); m_size := m_size a |}
    else mz_false.

Definition mz_zip_array_reserve {A} (fresh : A) (element_size : Z) (a : mz_zip_array A)
    (new_capacity : Z) (growing : bool) : zm E (mz_zip_array A) :=
  if m_capacity a <? new_capacity
  then mz_zip_array_ensure_capacity fresh element_size a new_capacity growing
  else mret a.

Definition mz_zip_array_resize {A} (fresh : A) (element_size : Z) (a : mz_zip_array A)
    (new_size : Z) (growing : bool) : zm E (mz_zip_array A) :=
  a ← (if m_capacity a <? new_size
       then mz_zip_array_ensure_capacity fresh element_size a new_size growing
       else mret a);
  mret {| m_p := m_p a; m_size := new_size |}.

Definition mz_zip_array_ensure_room {A} (fresh : A) (element_size : Z) (a : mz_zip_array A)
    (n : Z) : zm E (mz_zip_array A) :=
  mz_zip_array_reserve fresh element_size a (w64 (m_size a + n)) true.

(** [memcpy] of [src] to [dst + ofs], inside the allocation [dst]. *)
Definition mem_copy {A} (dst : list A) (ofs : Z) (src : list A) : option (list A) :=
  if (0 <=? ofs) && (ofs + zlen src <=? zlen dst) then Some (zsplice ofs src dst) else None.

Definition mz_zip_array_push_back {A} (fresh : A) (element_size : Z) (a : mz_zip_array A)
    (elements : list A) : zm E (mz_zip_array A) :=
  let orig_size := m_size a in
  a ← mz_zip_array_resize fresh element_size a (w64 (orig_size + zlen elements)) true;
  if 0 <? zlen elements then
    p ← checked (mem_copy (m_p a) orig_size elements);
    mret {| m_p := p; m_size := m_size a |}
  else mret a.

(** An array element. *)
Definition array_element {A} (a : mz_zip_array A) (i : Z) : option A :=
  if (0 <=? i) && (i <? zlen (m_p a)) then m_p a !! Z.to_nat i else None.
Definition array_set {A} (a : mz_zip_array A) (i : Z) (x : A) : option (mz_zip_array A) :=
  if (0 <=? i) && (i <? zlen (m_p a)) then Some {| m_p := zset (m_p a) i x; m_size := m_size a |}
  else None.

(** [MZ_READ_LE16] etc. at an offset of a block of memory. *)
Definition read_le (k : nat) (p : bytes) (o : Z) : option Z :=
  if (0 <=? o) && (o + Z.of_nat k <=? zlen p) then Some (le_val (zsub o (Z.of_nat k) p)) else None.
Definition MZ_READ_LE16 (p : bytes) (o : Z) : zm E Z := checked (read_le 2 p o).
Definition MZ_READ_LE32 (p : bytes) (o : Z) : zm E Z := checked (read_le 4 p o).
Definition MZ_READ_LE64 (p : bytes) (o : Z) : zm E Z :=
  lo ← MZ_READ_LE32 p o; hi ← MZ_READ_LE32 p (o + 4); mret (Z.lor lo (Z.shiftl hi 32)).

(** [n] bytes at [p + o]. *)
Definition read_mem (p : bytes) (o n : Z) : zm E bytes :=
  checked (if (0 <=? o) && (0 <=? n) && (o + n <=? zlen p) then Some (zsub o n p) else None).

(** [mz_write_le16] etc. at an offset of a local buffer. *)
Definition mz_write_le16 (p : bytes) (o v : Z) : zm E bytes := checked (mem_copy p o (le_bytes 2 (w16 v))).
Definition mz_write_le32 (p : bytes) (o v : Z) : zm E bytes := checked (mem_copy p o (le_bytes 4 (w32 v))).
Definition mz_write_le64 (p : bytes) (o v : Z) : zm E bytes :=
  p ← mz_write_le32 p o (w64 v); mz_write_le32 p (o + 4) (Z.shiftr (w64 v) 32).

(** ** Reading and writing the archive *)

Definition mz_zip_mem_read_func (file_ofs n : Z) : zm E bytes :=
  z ← get_zip;
  st ← get_state;
  let s := if m_archive_size z <=? file_ofs then 0 else Z.min (m_archive_size z - file_ofs) n in
  if s =? 0 then mret []
  else
    p ← checked (m_pMem st);
    read_mem p file_ofs s.

(** The [memcpy] of an empty buffer touches no memory. *)
Definition mz_zip_heap_write_func (file_ofs : Z) (pBuf : bytes) : zm E Z :=
  st ← get_state;
  let n := zlen pBuf in
  let new_size := Z.max (w64 (file_ofs + n)) (m_mem_size st) in
  if n =? 0 then mret 0
  else
    p ← (if m_mem_capacity st <? new_size then
           new_capacity ← checked (grow_capacity 65 (Z.max 64 (m_mem_capacity st)) new_size);
           ok ← m_pAlloc new_capacity;
           if (ok : bool) then
             mret (Some (zresize junk new_capacity (default [] (m_pMem st))))
           else set_error MZ_ZIP_ALLOC_FAILED;; mret None
         else mret (Some (default [] (m_pMem st))));
    match p with
    | None => mret 0
    | Some mem =>
        mem ← checked (mem_copy mem file_ofs pBuf);
        mod_state (fun st => set_m_mem_size new_size (set_m_pMem (Some mem) st));;
        mret n
    end.

(** [pZip->m_pRead] and [pZip->m_pWrite]; a read yields the bytes it delivered. *)
Definition pRead (file_ofs n : Z) : zm E bytes :=
  z ← get_zip;
  match m_pRead z with
  | IO_NULL => bad
  | IO_MEM => mz_zip_mem_read_func file_ofs n
  | IO_USER => use_env (fun e => user_read e file_ofs n)
  end.
Definition pWrite (file_ofs : Z) (pBuf : bytes) : zm E Z :=
  z ← get_zip;
  match m_pWrite z with
  | IO_NULL => bad
  | IO_MEM => mz_zip_heap_write_func file_ofs pBuf
  | IO_USER => use_env (fun e => user_write e file_ofs pBuf)
  end.

(** Reads and writes whose count is compared with the request: the code fails
    with [e] when it differs. *)
Definition read_exact (file_ofs n : Z) (e : mz_zip_error) : zm E bytes :=
  b ← pRead file_ofs n; if zlen b =? n then mret b else mz_zip_set_error e.
Definition write_exact (file_ofs : Z) (pBuf : bytes) (e : mz_zip_error) : zm E unit :=
  k ← pWrite file_ofs pBuf; if k =? zlen pBuf then mret tt else mz_zip_set_error e.

(** ** Calendar *)

Definition mz_zip_dos_to_time_t (dos_time dos_date : Z) : Z :=
  mktime {| tm_year := Z.land (Z.shiftr dos_date 9) 127 + 1980 - 1900;
            tm_mon := Z.land (Z.shiftr dos_date 5) 15 - 1;
            tm_mday := Z.land dos_date 31;
            tm_hour := Z.land (Z.shiftr dos_time 11) 31;
            tm_min := Z.land (Z.shiftr dos_time 5) 63;
            tm_sec := Z.land (Z.shiftl dos_time 1) 62 |}.

Definition mz_zip_time_t_to_dos_time (time : Z) : Z * Z :=
  let tm := localtime time in
  (w16 (Z.shiftl (tm_hour tm) 11 + Z.shiftl (tm_min tm) 5 + Z.shiftr (tm_sec tm) 1),
   w16 (Z.shiftl (tm_year tm + 1900 - 1980) 9 + Z.shiftl (tm_mon tm + 1) 5 + tm_mday tm)).

End Effects.

(** * ZIP archives: reasoning about the archive functions.

    [wp F m Q s]: run from [s], the computation [m] never accesses memory
    outside an allocation, ends with a value and a state that satisfy [Q] when
    it returns a true value, and returns [MZ_FALSE] only if [F] holds; [F] is
    [True] for safety and [False] for success. *)

Section Wp.
Context {E : Type} `{ZipEnv E}.

Definition wp {A} (F : Prop) (m : zm E A) (Q : A -> zst E -> Prop) (s : zst E) : Prop :=
  match m s with
  | (MzTrue a, s') => Q a s'
  | (MzFalse, _) => F
  | (Bad, _) => False
  end.

Context (F : Prop).

Lemma wp_mono {A} (m : zm E A) (P Q : A -> zst E -> Prop) s :
  wp F m P s -> (forall a s', P a s' -> Q a s') -> wp F m Q s.
Proof. unfold wp. destruct (m s) as [[a| |] s']; auto. Qed.
Lemma wp_weaken {A} (F' : Prop) (m : zm E A) (P Q : A -> zst E -> Prop) s :
  wp F' m P s -> (F' -> F) -> (forall a s', P a s' -> Q a s') -> wp F m Q s.
Proof. unfold wp. destruct (m s) as [[a| |] s']; auto. Qed.
Lemma wp_bind {A B} (m : zm E A) (k : A -> zm E B) Q s :
  wp F m (fun a s' => wp F (k a) Q s') s -> wp F (m ≫= k) Q s.
Proof. unfold wp, mbind, zm_bind. destruct (m s) as [[a| |] s']; auto. Qed.
Lemma wp_ret {A} (a : A) (Q : A -> zst E -> Prop) s : Q a s -> wp F (mret a) Q s.
Proof. done. Qed.
Lemma wp_get_zip (Q : mz_zip_archive -> zst E -> Prop) s : Q (zip s) s -> wp F get_zip Q s.
Proof. done. Qed.
Lemma wp_mod_zip f (Q : unit -> zst E -> Prop) s : Q tt (with_zip (f (zip s)) s) -> wp F (mod_zip f) Q s.
Proof. done. Qed.
Lemma wp_get_state st (Q : mz_zip_internal_state -> zst E -> Prop) s :
  m_pState (zip s) = Some st -> Q st s -> wp F get_state Q s.
Proof. intros Hs HQ. unfold wp, get_state, mbind, zm_bind, get_zip. cbn. by rewrite Hs. Qed.
Lemma wp_mod_state st f (Q : unit -> zst E -> Prop) s :
  m_pState (zip s) = Some st -> Q tt (with_zip (set_m_pState (Some (f st)) (zip s)) s) -> wp F (mod_state f) Q s.
Proof. intros Hs HQ. unfold mod_state. apply wp_bind. by apply (wp_get_state st). Qed.
Lemma wp_use_env {A} (f : E -> A * E) (Q : A -> zst E -> Prop) s :
  (forall a e, f (env s) = (a, e) -> Q a (Zst (zip s) e)) -> wp F (use_env f) Q s.
Proof. unfold wp, use_env. destruct (f (env s)) as [a e]. auto. Qed.
Lemma wp_checked {A} (o : option A) a (Q : A -> zst E -> Prop) s : o = Some a -> Q a s -> wp F (checked o) Q s.
Proof. by intros ->. Qed.
Lemma wp_false {A} (Q : A -> zst E -> Prop) s : F -> wp F mz_false Q s.
Proof. done. Qed.
Lemma wp_set_error e (Q : unit -> zst E -> Prop) s :
  Q tt (with_zip (set_m_last_error e (zip s)) s) -> wp F (set_error e) Q s.
Proof. done. Qed.
Lemma wp_zip_set_error {A} e (Q : A -> zst E -> Prop) s : F -> wp F (mz_zip_set_error e) Q s.
Proof. done. Qed.
Lemma wp_fail_if b e (Q : unit -> zst E -> Prop) s :
  (b = true -> F) -> (b = false -> Q tt s) -> wp F (fail_if b e) Q s.
Proof. destruct b; intros HF HQ; [by apply wp_zip_set_error, HF|by apply wp_ret, HQ]. Qed.
Lemma wp_try {A} (m : zm E A) (Q : bool -> zst E -> Prop) s :
  wp (forall s', Q false s') m (fun _ s' => Q true s') s -> wp F (try m) Q s.
Proof. unfold wp, try. destruct (m s) as [[a| |] s']; auto. Qed.

(** Reading a field of a block in bounds. *)
Lemma wp_read16 (p : bytes) o (Q : Z -> zst E -> Prop) s :
  0 <= o -> o + 2 <= zlen p -> Q (le_val (zsub o 2 p)) s -> wp F (MZ_READ_LE16 p o) Q s.
Proof.
  intros Ho Hl HQ. apply (wp_checked _ (le_val (zsub o 2 p))); [|done]. unfold read_le. cbn [Z.of_nat].
  by rewrite (proj2 (Z.leb_le 0 o)), (proj2 (Z.leb_le _ (zlen p))) by lia.
Qed.
Lemma wp_read32 (p : bytes) o (Q : Z -> zst E -> Prop) s :
  0 <= o -> o + 4 <= zlen p -> Q (le_val (zsub o 4 p)) s -> wp F (MZ_READ_LE32 p o) Q s.
Proof.
  intros Ho Hl HQ. apply (wp_checked _ (le_val (zsub o 4 p))); [|done]. unfold read_le. cbn [Z.of_nat].
  by rewrite (proj2 (Z.leb_le 0 o)), (proj2 (Z.leb_le _ (zlen p))) by lia.
Qed.

Lemma le_val_app (a b : bytes) : le_val (a ++ b) = le_val a + 256 ^ zlen a * le_val b.
Proof.
  induction a as [|c a IH]; cbn [app le_val]; [change (zlen (@nil ascii)) with 0; lia|].
  rewrite IH, zlen_cons, Z.pow_add_r by (pose proof (zlen_nonneg a); lia). lia.
Qed.
Lemma le_val_64 (p : bytes) o :
  0 <= o -> o + 8 <= zlen p ->
  Z.lor (le_val (zsub o 4 p)) (Z.shiftl (le_val (zsub (o + 4) 4 p)) 32) = le_val (zsub o 8 p).
Proof.
  intros Ho Hl. change 8 with (4 + 4). rewrite zsub_split, le_val_app, zlen_zsub by lia.
  pose proof (le_val_range (zsub o 4 p)) as R. rewrite zlen_zsub in R by lia.
  rewrite Z.lor_comm, lor_shiftl_add by (try done; exact R || lia). change (256 ^ 4) with (2 ^ 32). lia.
Qed.
Lemma wp_read64 (p : bytes) o (Q : Z -> zst E -> Prop) s :
  0 <= o -> o + 8 <= zlen p -> Q (le_val (zsub o 8 p)) s -> wp F (MZ_READ_LE64 p o) Q s.
Proof.
  intros Ho Hl HQ. unfold MZ_READ_LE64. apply wp_bind, wp_read32; [lia|lia|].
  apply wp_bind, wp_read32; [lia|lia|]. apply wp_ret. by rewrite le_val_64.
Qed.
Lemma wp_read_mem (p : bytes) o n (Q : bytes -> zst E -> Prop) s :
  0 <= o -> 0 <= n -> o + n <= zlen p -> Q (zsub o n p) s -> wp F (read_mem p o n) Q s.
Proof.
  intros Ho Hn Hl HQ. apply (wp_checked _ (zsub o n p)); [|done].
  by rewrite (proj2 (Z.leb_le 0 o)), (proj2 (Z.leb_le 0 n)), (proj2 (Z.leb_le _ (zlen p))) by lia.
Qed.

End Wp.
