(* ===== verification/ZipSort.v ===== *)
(** ZIP archives: order and search of file names ([common/miniz.c]).

    The central directory is kept as one block of records with an array of
    record offsets; the sorted index array permutes record numbers so that the
    lower-cased names ascend.  This file has the name comparison, the heap sort
    and the binary search, on the arrays' memory ([None] is an access outside
    an allocation). *)
From S2P Require Import Prelude ZipBase.

(** [MZ_TOLOWER]. *)
Definition MZ_TOLOWER (c : Z) : Z := if (65 <=? c) && (c <=? 90) then c - 65 + 97 else c.

Definition read8 (p : bytes) (o : Z) : option Z := if 0 <=? o then u8 <$> p !! Z.to_nat o else None.

(** [while (pL < pE)] with [k] characters to compare: whether the end was
    reached, and the last characters compared. *)
Fixpoint compare_loop (k : nat) (bl : bytes) (pL : Z) (br : bytes) (pR : Z) (l r : Z) :
    option (bool * Z * Z) :=
  match k with
  | O => Some (true, l, r)
  | S k =>
      a ← read8 bl pL;
      b ← read8 br pR;
      let l := MZ_TOLOWER a in
      let r := MZ_TOLOWER b in
      if l =? r then compare_loop k bl (pL + 1) br (pR + 1) l r else Some (false, l, r)
  end.

Definition mz_zip_reader_filename_less (cd : mz_zip_array char) (ofs : mz_zip_array Z)
    (l_index r_index : Z) : option bool :=
  pL ← array_element ofs l_index;
  pR ← array_element ofs r_index;
  l_len ← read_le 2 (m_p cd) (pL + MZ_ZIP_CDH_FILENAME_LEN_OFS);
  r_len ← read_le 2 (m_p cd) (pR + MZ_ZIP_CDH_FILENAME_LEN_OFS);
  '(at_end, l, r) ← compare_loop (Z.to_nat (Z.min l_len r_len))
      (m_p cd) (pL + MZ_ZIP_CENTRAL_DIR_HEADER_SIZE) (m_p cd) (pR + MZ_ZIP_CENTRAL_DIR_HEADER_SIZE) 0 0;
  Some (if (at_end : bool) then l_len <? r_len else l <? r).

(** [MZ_SWAP_UINT32] of two elements of the index array. *)
Definition MZ_SWAP_UINT32 (p : list Z) (i j : Z) : option (list Z) :=
  a ← p !! Z.to_nat i;
  b ← p !! Z.to_nat j;
  Some (zset (zset p i b) j a).

(** The inner [for (;;)]: sift the element at [root] down below [bound]. *)
Fixpoint sift_down (fuel : nat) (cd : mz_zip_array char) (ofs : mz_zip_array Z) (p : list Z)
    (root bound : Z) : option (list Z) :=
  match fuel with
  | O => None
  | S k =>
      let child := Z.shiftl root 1 + 1 in
      if bound <=? child then Some p
      else
        up ← (if child + 1 <? bound then
                a ← p !! Z.to_nat child;
                b ← p !! Z.to_nat (child + 1);
                mz_zip_reader_filename_less cd ofs a b
              else Some false);
        let child := child + (if (up : bool) then 1 else 0) in
        r ← p !! Z.to_nat root;
        c ← p !! Z.to_nat child;
        lt ← mz_zip_reader_filename_less cd ofs r c;
        if negb lt then Some p
        else p ← MZ_SWAP_UINT32 p root child; sift_down k cd ofs p child bound
  end.

(** The first [for (;;)]: [start] down to 0. *)
Fixpoint heapify (start : nat) (cd : mz_zip_array char) (ofs : mz_zip_array Z) (p : list Z) (size : Z) :
    option (list Z) :=
  p ← sift_down (S (Z.to_nat size)) cd ofs p (Z.of_nat start) size;
  match start with
  | O => Some p
  | S start => heapify start cd ofs p size
  end.

(** [while (end > 0)]: move the greatest element behind the heap. *)
Fixpoint sort_end (end_ : nat) (cd : mz_zip_array char) (ofs : mz_zip_array Z) (p : list Z) :
    option (list Z) :=
  match end_ with
  | O => Some p
  | S k =>
      p ← MZ_SWAP_UINT32 p (Z.of_nat end_) 0;
      p ← sift_down (S end_) cd ofs p 0 (Z.of_nat end_);
      sort_end k cd ofs p
  end.

(** The sort of [size] record numbers in the index array's block. *)
Definition sort_indices (cd : mz_zip_array char) (ofs : mz_zip_array Z) (p : list Z) (size : Z) :
    option (list Z) :=
  if size <=? 1 then Some p
  else
    p ← heapify (Z.to_nat (Z.shiftr (size - 2) 1)) cd ofs p size;
    sort_end (Z.to_nat (size - 1)) cd ofs p.

Definition mz_zip_filename_compare (cd : mz_zip_array char) (ofs : mz_zip_array Z) (l_index : Z)
    (pR : bytes) : option Z :=
  pL ← array_element ofs l_index;
  l_len ← read_le 2 (m_p cd) (pL + MZ_ZIP_CDH_FILENAME_LEN_OFS);
  let r_len := zlen pR in
  '(at_end, l, r) ← compare_loop (Z.to_nat (Z.min l_len r_len))
      (m_p cd) (pL + MZ_ZIP_CENTRAL_DIR_HEADER_SIZE) pR 0 0 0;
  Some (if (at_end : bool) then s32 (w32 (l_len - w32 r_len)) else l - r).

(** [while (l <= h)]: the record number found, if any. *)
Fixpoint search_loop (fuel : nat) (cd : mz_zip_array char) (ofs : mz_zip_array Z)
    (indices : mz_zip_array Z) (pFilename : bytes) (l h : Z) : option (option Z) :=
  match fuel with
  | O => None
  | S k =>
      if l <=? h then
        let m := l + Z.shiftr (h - l) 1 in
        file_index ← array_element indices (w32 m);
        comp ← mz_zip_filename_compare cd ofs file_index pFilename;
        if comp =? 0 then Some (Some file_index)
        else if comp <? 0 then search_loop k cd ofs indices pFilename (m + 1) h
        else search_loop k cd ofs indices pFilename l (m - 1)
      else Some None
  end.

Section Effects.
Context {E : Type} `{ZipEnv E}.

Definition mz_zip_reader_sort_central_dir_offsets_by_filename : zm E unit :=
  z ← get_zip;
  st ← get_state;
  p ← checked (sort_indices (m_central_dir st) (m_central_dir_offsets st)
                 (m_p (m_sorted_central_dir_offsets st)) (m_total_files z));
  mod_state (set_m_sorted_central_dir_offsets
               {| m_p := p; m_size := m_size (m_sorted_central_dir_offsets st) |}).

Definition mz_zip_locate_file_binary_search (pFilename : bytes) : zm E Z :=
  z ← get_zip;
  st ← get_state;
  let size := m_total_files z in
  found ← (if negb (size =? 0) then
             checked (search_loop (S (Z.to_nat size)) (m_central_dir st) (m_central_dir_offsets st)
                        (m_sorted_central_dir_offsets st) pFilename 0 (size - 1))
           else mret None);
  match found with
  | Some i => mret i
  | None => mz_zip_set_error MZ_ZIP_FILE_NOT_FOUND
  end.

End Effects.
(** ** The heap sort *)

(** [p'] has the elements of [p], with those from [bound] on in place. *)
Record shuffled (bound : Z) (p p' : list Z) : Prop := {
  sh_len : zlen p' = zlen p;
  sh_out : forall i, bound <= i -> znth 0 p' i = znth 0 p i;
  sh_in : forall i, 0 <= i < bound -> exists j, 0 <= j < bound /\ znth 0 p' i = znth 0 p j;
  sh_perm : p' ≡ₚ p }.

Lemma shuffled_refl bound p : shuffled bound p p.
Proof. split; eauto. Qed.
Lemma shuffled_trans bound p q r : shuffled bound p q -> shuffled bound q r -> shuffled bound p r.
Proof.
  intros [L1 O1 I1 P1] [L2 O2 I2 P2]. split.
  - by rewrite L2.
  - intros. by rewrite O2, O1.
  - intros i Hi. destruct (I2 i Hi) as (k & Hk & ->). by apply I1.
  - by rewrite P2.
Qed.

Definition swap_at (p : list Z) (i j : Z) : list Z := zset (zset p i (znth 0 p j)) j (znth 0 p i).

Lemma MZ_SWAP_in p i j : 0 <= i < zlen p -> 0 <= j < zlen p -> MZ_SWAP_UINT32 p i j = Some (swap_at p i j).
Proof. intros. unfold MZ_SWAP_UINT32. rewrite !(lookup_znth 0) by done. done. Qed.
Lemma znth_swap_at p i j k :
  0 <= i < zlen p -> 0 <= j < zlen p -> 0 <= k ->
  znth 0 (swap_at p i j) k = if decide (k = j) then znth 0 p i else if decide (k = i) then znth 0 p j else znth 0 p k.
Proof.
  intros. unfold swap_at. repeat case_decide; subst.
  - by rewrite znth_zset_eq by (rewrite ?zlen_zset; lia).
  - rewrite znth_zset_ne, znth_zset_eq by lia. done.
  - by rewrite !znth_zset_ne by lia.
Qed.
Lemma swap_at_perm p i j : 0 <= i < zlen p -> 0 <= j < zlen p -> swap_at p i j ≡ₚ p.
Proof.
  intros Hi Hj. unfold swap_at, zset.
  apply (Permutation_insert_swap p (Z.to_nat i) (Z.to_nat j) (znth 0 p i) (znth 0 p j));
    apply lookup_znth; lia.
Qed.
Lemma shuffled_swap bound p i j :
  bound <= zlen p -> 0 <= i < bound -> 0 <= j < bound -> shuffled bound p (swap_at p i j).
Proof.
  intros Hb Hi Hj. split.
  - unfold swap_at. by rewrite !zlen_zset.
  - intros k Hk. rewrite znth_swap_at by lia. repeat case_decide; lia || done.
  - intros k Hk. rewrite znth_swap_at by lia. repeat case_decide; eauto.
  - apply swap_at_perm; lia.
Qed.

Section HeapSort.
Context (cd : mz_zip_array char) (ofs : mz_zip_array Z) (valid : Z -> Prop) (lt : Z -> Z -> bool).
Hypothesis less_lt : forall a b, valid a -> valid b -> mz_zip_reader_filename_less cd ofs a b = Some (lt a b).
Hypothesis lt_asym : forall a b, lt a b = true -> lt b a = false.
Hypothesis le_trans : forall a b c, lt b a = false -> lt c b = false -> lt c a = false.

(** [p[c]] is not above [p[i]]. *)
Definition below (p : list Z) (c i : Z) : Prop := lt (znth 0 p i) (znth 0 p c) = false.
Definition child_of (c i : Z) : Prop := c = 2 * i + 1 \/ c = 2 * i + 2.
(** The heap condition for the nodes from [lo] on, below [bound]; [except] one. *)
Definition heap_but (except lo bound : Z) (p : list Z) : Prop :=
  forall i c, lo <= i -> i <> except -> child_of c i -> c < bound -> below p c i.
(** The grandchildren below a node that is being sifted. *)
Definition bridged (x lo bound : Z) (p : list Z) : Prop :=
  forall i c, lo <= i -> child_of x i -> child_of c x -> c < bound -> below p c i.
Definition all_valid (bound : Z) (p : list Z) : Prop := forall i, 0 <= i < bound -> valid (znth 0 p i).

Lemma all_valid_shuffled bound p p' : all_valid bound p -> shuffled bound p p' -> all_valid bound p'.
Proof. intros V S i Hi. destruct (sh_in _ _ _ S i Hi) as (j & Hj & ->). by apply V. Qed.

Lemma lt_refl a : lt a a = false.
Proof. destruct (lt a a) eqn:E; [|done]. by rewrite (lt_asym _ _ E) in E. Qed.

(** The child that the code compares with the root: none is above it. *)
Lemma greater_child p root bound :
  0 <= root -> bound <= zlen p -> all_valid bound p -> 2 * root + 1 < bound ->
  exists up, (if 2 * root + 1 + 1 <? bound then
                a ← p !! Z.to_nat (2 * root + 1);
                b ← p !! Z.to_nat (2 * root + 1 + 1);
                mz_zip_reader_filename_less cd ofs a b
              else Some false) = Some up /\
    let m := 2 * root + 1 + (if (up : bool) then 1 else 0) in
    child_of m root /\ m < bound /\ forall c, child_of c root -> c < bound -> below p c m.
Proof.
  intros Hr Hb V Hc. destruct (Z.ltb_spec (2 * root + 1 + 1) bound) as [H|H].
  - rewrite !(lookup_znth 0) by lia. cbn [mbind option_bind].
    rewrite less_lt by (apply V; lia). eexists. split; [done|]. cbn zeta.
    destruct (lt _ _) eqn:El.
    + split; [right; lia|]. split; [lia|]. intros c [->| ->] Hcb; unfold below.
      * by apply lt_asym.
      * replace (2 * root + 2) with (2 * root + 1 + 1) by lia. apply lt_refl.
    + rewrite Z.add_0_r. split; [left; lia|]. split; [lia|]. intros c [->| ->] Hcb; unfold below.
      * apply lt_refl.
      * by replace (2 * root + 2) with (2 * root + 1 + 1) by lia.
  - exists false. split; [done|]. cbn zeta. rewrite Z.add_0_r. split; [left; lia|]. split; [lia|].
    intros c [->| ->] Hcb; [apply lt_refl|lia].
Qed.

Lemma sift_down_spec fuel : forall p root lo bound,
  0 <= lo <= root -> root < bound -> bound <= zlen p -> all_valid bound p -> bound - root < Z.of_nat fuel ->
  heap_but root lo bound p -> bridged root lo bound p ->
  exists p', sift_down fuel cd ofs p root bound = Some p' /\ shuffled bound p p' /\ heap_but (-1) lo bound p'.
Proof.
  induction fuel as [|fuel IH]; intros p root lo bound Hlo Hr Hb V Hf HH HB; [lia|]. cbn [sift_down].
  rewrite Z.shiftl_mul_pow2 by lia. change (2 ^ 1) with 2. rewrite (Z.mul_comm root 2).
  destruct (Z.leb_spec bound (2 * root + 1)) as [Hc|Hc].
  { exists p. split; [done|]. split; [apply shuffled_refl|]. intros i c Hi Hn Hch Hcb.
    destruct (decide (i = root)) as [->|]; [|by apply HH]. destruct Hch; lia. }
  destruct (greater_child p root bound) as (up & -> & Hm & Hmb & Hmax); [lia|lia|done|lia|]. cbn [mbind option_bind].
  set (m := 2 * root + 1 + (if up then 1 else 0)) in *.
  assert (root < m) by (destruct Hm; lia).
  rewrite !(lookup_znth 0) by lia. cbn [mbind option_bind]. rewrite less_lt by (apply V; lia). cbn [mbind option_bind].
  destruct (lt (znth 0 p root) (znth 0 p m)) eqn:El; cbn [negb].
  2:{ exists p. split; [done|]. split; [apply shuffled_refl|]. intros i c Hi Hn Hch Hcb.
      destruct (decide (i = root)) as [->|]; [|by apply HH].
      exact (le_trans _ _ _ (Hmax c Hch Hcb) El). }
  rewrite MZ_SWAP_in by lia. cbn [mbind option_bind].
  pose proof (shuffled_swap bound p root m ltac:(lia) ltac:(lia) ltac:(lia)) as S.
  assert (L : zlen (swap_at p root m) = zlen p) by apply (sh_len _ _ _ S).
  destruct (IH (swap_at p root m) m lo bound) as (p' & -> & S' & H'); [lia|lia|lia| |lia| | |].
  - by apply (all_valid_shuffled bound p).
  - intros i c Hi Hn Hch Hcb. unfold below. rewrite !znth_swap_at by (destruct Hch; lia).
    assert (c <> root \/ child_of root i) as Hcr by (destruct (decide (c = root)) as [->|]; [by right|by left]).
    destruct (decide (i = m)); [done|]. destruct (decide (i = root)) as [->|Hir].
    + destruct (decide (c = m)) as [->|]; [by apply lt_asym|].
      rewrite decide_False by (destruct Hch; lia). by apply Hmax.
    + destruct (decide (c = m)) as [->|]; [destruct Hch, Hm; lia|].
      destruct (decide (c = root)) as [->|]; [|by apply HH]. apply (HB i m); done.
  - intros i c Hi Hmi Hch Hcb. assert (i = root) as -> by (destruct Hmi, Hm; lia).
    unfold below. rewrite !znth_swap_at by (destruct Hch; lia).
    repeat case_decide; try (destruct Hch; lia). apply HH; [lia|lia|done|done].
  - exists p'. split; [done|]. split; [|done]. by apply (shuffled_trans _ _ _ _ S).
Qed.

Lemma heapify_spec start : forall p size,
  size <= zlen p -> Z.of_nat start < size -> all_valid size p -> heap_but (-1) (Z.of_nat start + 1) size p ->
  exists p', heapify start cd ofs p size = Some p' /\ shuffled size p p' /\ heap_but (-1) 0 size p'.
Proof.
  induction start as [|start IH]; intros p size Hs Hl V HH; cbn [heapify].
  - destruct (sift_down_spec (S (Z.to_nat size)) p (Z.of_nat 0) 0 size) as (p' & -> & Sh & H'); [lia..|done|lia| | |].
    + intros i c Hi Hn Hch Hcb. apply HH; try done; lia.
    + intros i c Hi [?|?] Hch Hcb; lia.
    + exists p'. done.
  - destruct (sift_down_spec (S (Z.to_nat size)) p (Z.of_nat (S start)) (Z.of_nat (S start)) size)
      as (p' & -> & Sh & H'); [lia..|done|lia| | |].
    + intros i c Hi Hn Hch Hcb. apply HH; try done; lia.
    + intros i c Hi [?|?] Hch Hcb; lia.
    + cbn [mbind option_bind]. destruct (IH p' size) as (q & -> & S' & Hq).
      * rewrite (sh_len _ _ _ Sh). lia.
      * lia.
      * by apply (all_valid_shuffled size p).
      * by replace (Z.of_nat start + 1) with (Z.of_nat (S start)) by lia.
      * exists q. split; [done|]. split; [|done]. by apply (shuffled_trans _ _ _ _ Sh).
Qed.

(** The first element of a heap is the greatest. *)
Lemma heap_top bound p : heap_but (-1) 0 bound p -> forall i, 0 <= i < bound -> below p i 0.
Proof.
  intros HH i. induction i as [i IH] using (well_founded_induction (Z.lt_wf 0)). intros Hi.
  destruct (decide (i = 0)) as [->|]; [apply lt_refl|].
  set (q := (i - 1) / 2). assert (Hq : i - 1 = 2 * q + (i - 1) mod 2) by (apply Z.div_mod; lia).
  pose proof (Z.mod_pos_bound (i - 1) 2).
  apply (le_trans _ (znth 0 p q)).
  - apply HH; [lia|lia| |lia]. unfold child_of. lia.
  - apply IH; lia.
Qed.

(** The elements from [lo] to [size - 1] ascend, and none below [lo] is above
    them. *)
Definition tail_sorted (lo size : Z) (p : list Z) : Prop :=
  (forall i j, lo <= i < j -> j < size -> below p i j) /\
  (forall i j, 0 <= i < lo -> lo <= j < size -> below p i j).

Lemma sort_end_spec n : forall p size,
  size <= zlen p -> Z.of_nat n < size -> all_valid size p -> heap_but (-1) 0 (Z.of_nat n + 1) p ->
  tail_sorted (Z.of_nat n + 1) size p ->
  exists p', sort_end n cd ofs p = Some p' /\ shuffled size p p' /\ tail_sorted 0 size p'.
Proof.
  induction n as [|n IH]; intros p size Hs Hn V HH [T1 T2]; cbn [sort_end].
  - exists p. split; [done|]. split; [apply shuffled_refl|]. split; [|intros; lia].
    intros i j Hi Hj. destruct (decide (i = 0)) as [->|]; [|apply T1; lia]. apply T2; lia.
  - set (e := Z.of_nat (S n)) in *. rewrite MZ_SWAP_in by lia. cbn [mbind option_bind].
    pose proof (shuffled_swap (e + 1) p e 0 ltac:(lia) ltac:(lia) ltac:(lia)) as Sw.
    assert (L : zlen (swap_at p e 0) = zlen p) by apply (sh_len _ _ _ Sw).
    pose proof (heap_top _ _ HH) as Top.
    destruct (sift_down_spec (S (S n)) (swap_at p e 0) 0 0 e) as (q & -> & Sh & Hq); [lia..| |lia| | |].
    { intros i Hi. rewrite znth_swap_at by lia. repeat case_decide; apply V; lia. }
    { intros i c Hi Hn0 Hch Hcb. unfold below. rewrite !znth_swap_at by (destruct Hch; lia).
      repeat case_decide; try (destruct Hch; lia). apply HH; [lia|lia|done|lia]. }
    { intros i c Hi [?|?] Hch Hcb; lia. }
    cbn [mbind option_bind].
    assert (Hqe : znth 0 q e = znth 0 p 0).
    { rewrite (sh_out _ _ _ Sh) by lia. rewrite znth_swap_at by lia. by rewrite decide_False, decide_True by lia. }
    assert (Hqo : forall j, e < j -> znth 0 q j = znth 0 p j).
    { intros j Hj. rewrite (sh_out _ _ _ Sh) by lia. rewrite znth_swap_at by lia. by rewrite !decide_False by lia. }
    assert (Hqi : forall i, 0 <= i < e -> exists k, 0 <= k < e + 1 /\ znth 0 q i = znth 0 p k).
    { intros i Hi. destruct (sh_in _ _ _ Sh i Hi) as (k & Hk & ->).
      destruct (sh_in _ _ _ Sw k ltac:(lia)) as (k' & Hk' & ->). eauto. }
    destruct (IH q size) as (p' & -> & Sh' & T').
    + rewrite (sh_len _ _ _ Sh). lia.
    + lia.
    + intros i Hi. destruct (decide (i < e)) as [Hie|].
      * destruct (Hqi i ltac:(lia)) as (k & Hk & ->). apply V. lia.
      * destruct (decide (i = e)) as [->|]; [rewrite Hqe|rewrite Hqo by lia]; apply V; lia.
    + intros i c Hi Hn0 Hch Hcb. apply Hq; try done; lia.
    + split.
      * intros i j Hi Hj. unfold below. destruct (decide (i = e)) as [->|].
        -- rewrite Hqe, Hqo by lia. apply T2; lia.
        -- rewrite !Hqo by lia. apply T1; lia.
      * intros i j Hi Hj. unfold below. destruct (Hqi i ltac:(lia)) as (k & Hk & ->).
        destruct (decide (j = e)) as [->|]; [rewrite Hqe; apply Top; lia|]. rewrite Hqo by lia. apply T2; lia.
    + exists p'. split; [done|]. split; [|done].
      apply (shuffled_trans _ _ q); [|done]. apply (shuffled_trans _ _ (swap_at p e 0)).
      * apply shuffled_swap; lia.
      * split.
        -- apply (sh_len _ _ _ Sh).
        -- intros i Hi. apply (sh_out _ _ _ Sh). lia.
        -- intros i Hi. destruct (decide (i < e)).
           ++ destruct (sh_in _ _ _ Sh i ltac:(lia)) as (k & Hk & ->). exists k. split; [lia|done].
           ++ exists i. split; [lia|]. apply (sh_out _ _ _ Sh). lia.
        -- apply (sh_perm _ _ _ Sh).
Qed.

Lemma sort_indices_spec p size :
  0 <= size <= zlen p -> all_valid size p ->
  exists p', sort_indices cd ofs p size = Some p' /\ shuffled size p p' /\ tail_sorted 0 size p'.
Proof.
  intros Hs V. unfold sort_indices. destruct (Z.leb_spec size 1) as [H1|H1].
  { exists p. split; [done|]. split; [apply shuffled_refl|]. split; intros; lia. }
  rewrite Z.shiftr_div_pow2 by lia. change (2 ^ 1) with 2.
  assert (D : size - 2 = 2 * ((size - 2) / 2) + (size - 2) mod 2) by (apply Z.div_mod; lia).
  pose proof (Z.mod_pos_bound (size - 2) 2). set (q := (size - 2) / 2) in *.
  destruct (heapify_spec (Z.to_nat q) p size) as (p1 & -> & S1 & H'); [lia|lia|done| |].
  { intros i c Hi Hn [->| ->] Hcb; lia. }
  cbn [mbind option_bind].
  destruct (sort_end_spec (Z.to_nat (size - 1)) p1 size) as (p2 & -> & S2 & T2).
  - rewrite (sh_len _ _ _ S1). lia.
  - lia.
  - by apply (all_valid_shuffled size p).
  - by replace (Z.of_nat (Z.to_nat (size - 1)) + 1) with size by lia.
  - split; intros; lia.
  - exists p2. split; [done|]. split; [|done]. by apply (shuffled_trans _ _ p1).
Qed.

End HeapSort.
(** ** The order of names *)

Definition lowered (b : bytes) : list Z := map (fun c => MZ_TOLOWER (u8 c)) b.

Fixpoint lex_cmp (a b : list Z) : comparison :=
  match a, b with
  | [], [] => Eq
  | [], _ => Lt
  | _, [] => Gt
  | x :: a, y :: b => match x ?= y with Eq => lex_cmp a b | c => c end
  end.
Definition lex_lt (a b : list Z) : bool := match lex_cmp a b with Lt => true | _ => false end.

Lemma lex_cmp_opp a : forall b, lex_cmp b a = CompOpp (lex_cmp a b).
Proof.
  induction a as [|x a IH]; intros [|y b]; cbn; try done.
  rewrite (Z.compare_antisym x y). destruct (x ?= y); cbn; auto.
Qed.
Lemma lex_cmp_eq a : forall b, lex_cmp a b = Eq -> a = b.
Proof.
  induction a as [|x a IH]; intros [|y b]; cbn; try done.
  destruct (Z.compare_spec x y) as [->| |]; try done. intros H. by rewrite (IH b H).
Qed.
Lemma lex_cmp_refl a : lex_cmp a a = Eq.
Proof. induction a as [|x a IH]; cbn; [done|]. by rewrite Z.compare_refl. Qed.
Lemma lex_lt_trans a : forall b c, lex_cmp a b = Lt -> lex_cmp b c = Lt -> lex_cmp a c = Lt.
Proof.
  induction a as [|x a IH]; intros [|y b] [|z c]; cbn; try done.
  destruct (Z.compare_spec x y) as [->| |]; try done;
    destruct (Z.compare_spec y z) as [->| |]; try done.
  - apply IH.
  - intros. destruct (Z.compare_spec x z); lia || done.
  - intros. destruct (Z.compare_spec x z); lia || done.
Qed.
Lemma lex_lt_asym a b : lex_lt a b = true -> lex_lt b a = false.
Proof. unfold lex_lt. rewrite (lex_cmp_opp a b). by destruct (lex_cmp a b). Qed.
Lemma lex_le_trans a b c : lex_lt b a = false -> lex_lt c b = false -> lex_lt c a = false.
Proof.
  unfold lex_lt. rewrite (lex_cmp_opp a b), (lex_cmp_opp b c), (lex_cmp_opp a c).
  destruct (lex_cmp a b) eqn:E1; [apply lex_cmp_eq in E1 as ->|..]; try done.
  destruct (lex_cmp b c) eqn:E2; [apply lex_cmp_eq in E2 as ->; by rewrite E1|..]; try done.
  by rewrite (lex_lt_trans _ _ _ E1 E2).
Qed.

Lemma zsub_cons {A} (d : A) (l : list A) p n :
  0 <= p < zlen l -> 0 < n -> zsub p n l = znth d l p :: zsub (p + 1) (n - 1) l.
Proof.
  intros Hp Hn. unfold zsub, ztake, zdrop, znth.
  replace (Z.to_nat (p + 1)) with (S (Z.to_nat p)) by lia.
  replace (Z.to_nat n) with (S (Z.to_nat (n - 1))) by lia.
  rewrite (drop_S l (nth (Z.to_nat p) l d)); [done|].
  rewrite nth_lookup. unfold zlen in Hp.
  destruct (lookup_lt_is_Some_2 l (Z.to_nat p)) as [y Hy]; [lia|]. by rewrite Hy.
Qed.

Lemma read8_in b o : 0 <= o < zlen b -> read8 b o = Some (u8 (znth nul b o)).
Proof. intros. unfold read8. rewrite (proj2 (Z.leb_le 0 o)) by lia. by rewrite (lookup_znth nul) by lia. Qed.

(** The comparison loop decides the order of the two names. *)
Lemma compare_loop_spec k : forall bl pL n br pR m l r,
  Z.of_nat k = Z.min n m -> 0 <= pL -> pL + n <= zlen bl -> 0 <= pR -> pR + m <= zlen br -> 0 <= n -> 0 <= m ->
  exists at_end l' r', compare_loop k bl pL br pR l r = Some (at_end, l', r') /\
    lex_cmp (lowered (zsub pL n bl)) (lowered (zsub pR m br)) = (if (at_end : bool) then n ?= m else l' ?= r').
Proof.
  induction k as [|k IH]; intros bl pL n br pR m l r Hk H1 H2 H3 H4 Hn Hm; cbn [compare_loop].
  - exists true, l, r. split; [done|]. destruct (decide (n = 0)) as [->|].
    + rewrite zsub_zero. destruct (decide (m = 0)) as [->|]; [by rewrite zsub_zero|].
      rewrite (zsub_cons nul) by lia. rewrite (proj2 (Z.compare_lt_iff 0 m)) by lia. done.
    + assert (m = 0) as -> by lia. rewrite zsub_zero, (zsub_cons nul) by lia.
      rewrite (proj2 (Z.compare_gt_iff n 0)) by lia. done.
  - rewrite !read8_in by lia. cbn [mbind option_bind]. rewrite (zsub_cons nul bl pL n), (zsub_cons nul br pR m) by lia.
    cbn [lowered map lex_cmp]. set (a := MZ_TOLOWER _). set (b := MZ_TOLOWER _).
    destruct (Z.eqb_spec a b) as [E|E].
    + rewrite E, Z.compare_refl.
      destruct (IH bl (pL + 1) (n - 1) br (pR + 1) (m - 1) b b) as (e & l' & r' & E1 & E2); [lia..|].
      exists e, l', r'. split; [done|]. fold (lowered (zsub (pL + 1) (n - 1) bl)).
      fold (lowered (zsub (pR + 1) (m - 1) br)). rewrite E2. destruct e; [|done].
      by destruct (Z.compare_spec (n - 1) (m - 1)), (Z.compare_spec n m); try lia.
    + exists false, a, b. split; [done|]. by destruct (Z.compare_spec a b).
Qed.

(** A record of the central directory lies inside it with its name. *)
Definition name_len (cd : bytes) (p : Z) : Z := le_val (zsub (p + MZ_ZIP_CDH_FILENAME_LEN_OFS) 2 cd).
Definition name_of (cd : bytes) (p : Z) : bytes := zsub (p + MZ_ZIP_CENTRAL_DIR_HEADER_SIZE) (name_len cd p) cd.
Definition record_in (cd : bytes) (p : Z) : Prop :=
  0 <= p /\ p + MZ_ZIP_CENTRAL_DIR_HEADER_SIZE <= zlen cd /\
  p + MZ_ZIP_CENTRAL_DIR_HEADER_SIZE + name_len cd p <= zlen cd.

Lemma read_le_in k p o : 0 <= o -> o + Z.of_nat k <= zlen p -> read_le k p o = Some (le_val (zsub o (Z.of_nat k) p)).
Proof.
  intros. unfold read_le. rewrite (proj2 (Z.leb_le 0 o)), (proj2 (Z.leb_le _ (zlen p))) by lia. done.
Qed.
Lemma le_val_sub_range (b : bytes) o k :
  0 <= o -> 0 <= k -> o + k <= zlen b -> 0 <= le_val (zsub o k b) < 256 ^ k.
Proof. intros. pose proof (le_val_range (zsub o k b)) as R. by rewrite zlen_zsub in R by lia. Qed.
Lemma name_len_range cd p : record_in cd p -> 0 <= name_len cd p < 65536.
Proof.
  intros (H1 & H2 & _). autounfold with zipc in H2.
  apply (le_val_sub_range cd (p + MZ_ZIP_CDH_FILENAME_LEN_OFS) 2); autounfold with zipc; lia.
Qed.

Lemma array_element_in {A} (d : A) (a : mz_zip_array A) i :
  0 <= i < zlen (m_p a) -> array_element a i = Some (znth d (m_p a) i).
Proof.
  intros. unfold array_element. rewrite (proj2 (Z.leb_le 0 i)), (proj2 (Z.ltb_lt i _)) by lia.
  cbn. by apply lookup_znth.
Qed.

Section Names.
Context (cd : mz_zip_array char) (ofs : mz_zip_array Z).

Definition entry_ok (i : Z) : Prop := 0 <= i < zlen (m_p ofs) /\ record_in (m_p cd) (znth 0 (m_p ofs) i).
Definition entry_name (i : Z) : bytes := name_of (m_p cd) (znth 0 (m_p ofs) i).
Definition entry_lt (a b : Z) : bool := lex_lt (lowered (entry_name a)) (lowered (entry_name b)).

Lemma filename_less_spec a b :
  entry_ok a -> entry_ok b -> mz_zip_reader_filename_less cd ofs a b = Some (entry_lt a b).
Proof.
  intros [Ha Ra] [Hb Rb]. unfold mz_zip_reader_filename_less.
  rewrite !(array_element_in 0) by done. cbn [mbind option_bind].
  pose proof (name_len_range _ _ Ra). pose proof (name_len_range _ _ Rb).
  set (pL := znth 0 (m_p ofs) a) in *. set (pR := znth 0 (m_p ofs) b) in *.
  destruct Ra as (Ra1 & Ra2 & Ra3), Rb as (Rb1 & Rb2 & Rb3). autounfold with zipc in Ra2, Rb2, Ra3, Rb3.
  rewrite !read_le_in by (autounfold with zipc; lia). cbn [mbind option_bind].
  change (Z.of_nat 2) with 2. fold (name_len (m_p cd) pL). fold (name_len (m_p cd) pR).
  destruct (compare_loop_spec (Z.to_nat (Z.min (name_len (m_p cd) pL) (name_len (m_p cd) pR)))
              (m_p cd) (pL + MZ_ZIP_CENTRAL_DIR_HEADER_SIZE) (name_len (m_p cd) pL)
              (m_p cd) (pR + MZ_ZIP_CENTRAL_DIR_HEADER_SIZE) (name_len (m_p cd) pR) 0 0)
    as (e & l & r & -> & E); [autounfold with zipc; lia..|]. cbn [mbind option_bind]. f_equal.
  unfold entry_lt, lex_lt, entry_name, name_of. fold pL pR. rewrite E. destruct e; done.
Qed.

Lemma filename_compare_spec i (name : bytes) :
  entry_ok i -> zlen name < 2 ^ 31 ->
  exists v, mz_zip_filename_compare cd ofs i name = Some v /\
    (v ?= 0) = lex_cmp (lowered (entry_name i)) (lowered name).
Proof.
  intros [Hi Ri] Hn. unfold mz_zip_filename_compare. rewrite (array_element_in 0) by done. cbn [mbind option_bind].
  pose proof (name_len_range _ _ Ri). pose proof (zlen_nonneg name).
  unfold entry_name. set (p := znth 0 (m_p ofs) i) in *.
  destruct Ri as (R1 & R2 & R3). autounfold with zipc in R2, R3.
  rewrite read_le_in by (autounfold with zipc; lia). cbn [mbind option_bind].
  change (Z.of_nat 2) with 2. fold (name_len (m_p cd) p).
  destruct (compare_loop_spec (Z.to_nat (Z.min (name_len (m_p cd) p) (zlen name)))
              (m_p cd) (p + MZ_ZIP_CENTRAL_DIR_HEADER_SIZE) (name_len (m_p cd) p) name 0 (zlen name) 0 0)
    as (e & l & r & -> & E); [autounfold with zipc; lia..|]. cbn [mbind option_bind].
  eexists. split; [done|]. rewrite zsub_all in E. unfold name_of. rewrite E. destruct e.
  - rewrite (w32_id (zlen name)) by lia. rewrite s32_w32 by lia.
    destruct (Z.compare_spec (name_len (m_p cd) p) (zlen name)), (Z.compare_spec (name_len (m_p cd) p - zlen name) 0); lia || done.
  - destruct (Z.compare_spec l r), (Z.compare_spec (l - r) 0); lia || done.
Qed.

(** The order that [sort_indices_spec] needs. *)
Lemma entry_lt_asym a b : entry_lt a b = true -> entry_lt b a = false.
Proof. apply lex_lt_asym. Qed.
Lemma entry_le_trans a b c : entry_lt b a = false -> entry_lt c b = false -> entry_lt c a = false.
Proof. apply lex_le_trans. Qed.

(** ** The binary search *)

Context (indices : mz_zip_array Z) (size : Z).
Hypothesis size_ok : 0 <= size <= zlen (m_p indices) /\ size < 2 ^ 32.
Hypothesis indices_ok : forall i, 0 <= i < size -> entry_ok (znth 0 (m_p indices) i).
Hypothesis indices_sorted : forall i j, 0 <= i < j -> j < size ->
  entry_lt (znth 0 (m_p indices) j) (znth 0 (m_p indices) i) = false.

Definition key (i : Z) : list Z := lowered (entry_name (znth 0 (m_p indices) i)).

Lemma key_le i j c : 0 <= i <= j -> j < size -> lex_cmp (key j) c = Lt -> lex_cmp (key i) c = Lt.
Proof.
  intros Hi Hj Hc. destruct (decide (i = j)) as [->|]; [done|].
  pose proof (indices_sorted i j ltac:(lia) Hj) as S. unfold entry_lt, lex_lt in S. fold (key i) (key j) in S.
  rewrite (lex_cmp_opp (key i) (key j)) in S. destruct (lex_cmp (key i) (key j)) eqn:E; cbn in S; try done.
  - apply lex_cmp_eq in E. by rewrite E.
  - by apply (lex_lt_trans _ (key j)).
Qed.
Lemma key_ge i j c : 0 <= i <= j -> j < size -> lex_cmp (key i) c = Gt -> lex_cmp (key j) c = Gt.
Proof.
  intros Hi Hj Hc. destruct (lex_cmp (key j) c) eqn:E; [| |done].
  - apply lex_cmp_eq in E. destruct (decide (i = j)) as [->|]; [by rewrite E, lex_cmp_refl in Hc|].
    pose proof (indices_sorted i j ltac:(lia) Hj) as S. unfold entry_lt, lex_lt in S. fold (key i) (key j) in S.
    rewrite E, (lex_cmp_opp (key i) c), Hc in S. done.
  - by rewrite (key_le i j c) in Hc.
Qed.

Lemma search_loop_spec fuel : forall name l h,
  zlen name < 2 ^ 31 -> 0 <= l -> h < size -> l <= h + 1 -> h - l + 1 < Z.of_nat fuel ->
  (forall i, 0 <= i < l -> lex_cmp (key i) (lowered name) = Lt) ->
  (forall i, h < i < size -> lex_cmp (key i) (lowered name) = Gt) ->
  exists r, search_loop fuel cd ofs indices name l h = Some r /\
    match r with
    | Some fi => exists m, 0 <= m < size /\ fi = znth 0 (m_p indices) m /\ key m = lowered name
    | None => forall m, 0 <= m < size -> key m <> lowered name
    end.
Proof.
  destruct size_ok as [Hs Hs']. induction fuel as [|fuel IH]; intros name l h Hn Hl Hh Hlh Hf HL HG; [lia|].
  cbn [search_loop]. destruct (Z.leb_spec l h) as [Hle|Hle].
  2:{ exists None. split; [done|]. intros m Hm E. destruct (decide (m < l)).
      - specialize (HL m ltac:(lia)). by rewrite E, lex_cmp_refl in HL.
      - specialize (HG m ltac:(lia)). by rewrite E, lex_cmp_refl in HG. }
  rewrite Z.shiftr_div_pow2 by lia. change (2 ^ 1) with 2.
  assert (D : h - l = 2 * ((h - l) / 2) + (h - l) mod 2) by (apply Z.div_mod; lia).
  pose proof (Z.mod_pos_bound (h - l) 2 ltac:(lia)). set (m := l + (h - l) / 2) in *.
  rewrite w32_id by lia. rewrite (array_element_in 0) by lia. cbn [mbind option_bind].
  destruct (filename_compare_spec (znth 0 (m_p indices) m) name) as (v & -> & E); [apply indices_ok; lia|done|].
  cbn [mbind option_bind]. fold (key m) in E. destruct (Z.eqb_spec v 0) as [->|Hv].
  - exists (Some (znth 0 (m_p indices) m)). split; [done|]. exists m. split; [lia|]. split; [done|].
    by apply lex_cmp_eq.
  - destruct (Z.ltb_spec v 0) as [Hneg|Hpos].
    + rewrite (proj2 (Z.compare_lt_iff v 0)) in E by lia. apply IH; try lia; try done.
      intros i Hi. apply (key_le i m); [lia|lia|done].
    + rewrite (proj2 (Z.compare_gt_iff v 0)) in E by lia. apply IH; try lia; try done.
      intros i Hi. apply (key_ge m i); [lia|lia|done].
Qed.

End Names.
