(* ===== verification/ZipReader.v ===== *)
(** ZIP archives: reading ([common/miniz.c]).

    Opening an archive (finding the end-of-central-directory record, zip64
    included, loading and checking the central directory, sorting the names),
    looking entries up, their attributes, and extracting them to memory.  A C
    string parameter is the list of its characters without the terminator; a
    buffer parameter is its contents, its size the length.  Null archive and
    buffer pointers have no counterpart. *)
From S2P Require Import Prelude ZipBase ZipSort Checksum.

(** [strlen] of a character array: the characters before the first zero. *)
Fixpoint cstr (b : bytes) : bytes :=
  match b with
  | [] => []
  | c :: b => if ceq c nul then [] else c :: cstr b
  end.

Definition has_flag (flags f : Z) : bool := negb (Z.land flags f =? 0).

(** [sizeof(mz_zip_internal_state)] on a 64-bit target. *)
Definition sizeof_internal_state : Z := 152.

(** The local variables of [mz_zip_reader_read_central_dir] that describe the
    central directory. *)
Record cdir_info := {
  cdir_size : Z; cdir_entries_on_this_disk : Z; num_this_disk : Z; cdir_disk_index : Z; cdir_ofs : Z }.

(** [for (i = n - 4; i >= 0; --i)] over the [k] lowest positions: the highest
    position with the signature and room for the record, or -1. *)
Fixpoint scan_sig (k : nat) (pBuf : bytes) (archive_size cur_file_ofs record_sig record_size : Z) : option Z :=
  match k with
  | O => Some (-1)
  | S i =>
      s ← read_le 4 pBuf (Z.of_nat i);
      if (s =? record_sig) && (record_size <=? w64 (archive_size - s64 (cur_file_ofs + Z.of_nat i)))
      then Some (Z.of_nat i)
      else scan_sig i pBuf archive_size cur_file_ofs record_sig record_size
  end.

Section Reader.
Context {E : Type} `{ZipEnv E}.

Definition mz_zip_reader_init_internal (flags : Z) : zm E unit :=
  z ← get_zip;
  fail_if (bool_decide (is_Some (m_pState z)) || negb (bool_decide (m_zip_mode z = MZ_ZIP_MODE_INVALID)))
    MZ_ZIP_INVALID_PARAMETER;;
  mod_zip (fun z => set_m_archive_size 0 (set_m_central_directory_file_ofs 0
             (set_m_total_files 0 (set_m_last_error MZ_ZIP_NO_ERROR z))));;
  ok ← m_pAlloc sizeof_internal_state;
  fail_if (negb ok) MZ_ZIP_ALLOC_FAILED;;
  mod_zip (set_m_pState (Some
    {| m_central_dir := mz_zip_array_init; m_central_dir_offsets := mz_zip_array_init;
       m_sorted_central_dir_offsets := mz_zip_array_init; m_init_flags := flags; m_zip64 := false;
       m_zip64_has_extended_info_fields := false; m_pMem := None; m_mem_size := 0 |}));;
  mod_zip (set_m_zip_mode MZ_ZIP_MODE_READING).

(** The search runs from the end of the file towards its beginning in steps of
    4096 bytes that overlap by 3.  [sizeof] makes the subtraction in [MZ_MAX]
    unsigned.  The loop gives up some 64 KB before the end, so it runs at most 17
    times. *)
Fixpoint locate_loop (fuel : nat) (cur_file_ofs record_sig record_size : Z) : zm E Z :=
  match fuel with
  | O => bad
  | S k =>
      z ← get_zip;
      let n := s32 (Z.min 4096 (w64 (m_archive_size z - cur_file_ofs))) in
      pBuf ← pRead (w64 cur_file_ofs) n;
      if negb (zlen pBuf =? n) then mz_false
      else
        i ← checked (scan_sig (Z.to_nat (n - 3)) pBuf (m_archive_size z) cur_file_ofs record_sig record_size);
        if 0 <=? i then mret (s64 (cur_file_ofs + i))
        else if (cur_file_ofs =? 0) || (MZ_UINT16_MAX + record_size <=? w64 (m_archive_size z - cur_file_ofs))
        then mz_false
        else locate_loop k (s64 (Z.max (w64 (cur_file_ofs - (4096 - 3))) 0)) record_sig record_size
  end.

Definition mz_zip_reader_locate_header_sig (record_sig record_size : Z) : zm E Z :=
  z ← get_zip;
  if m_archive_size z <? record_size then mz_false
  else locate_loop 20 (Z.max (s64 (m_archive_size z) - 4096) 0) record_sig record_size.

(** The zip64 locator in front of the end record, and the zip64 end record it
    points to; sets [m_zip64] when both are there. *)
Definition read_zip64_locator (cur_file_ofs : Z) : zm E (bytes * bytes) :=
  let no_loc := replicate 20 junk in
  let no_hdr := replicate 56 junk in
  z ← get_zip;
  if negb (MZ_ZIP64_END_OF_CENTRAL_DIR_LOCATOR_SIZE + MZ_ZIP64_END_OF_CENTRAL_DIR_HEADER_SIZE <=? cur_file_ofs)
  then mret (no_loc, no_hdr)
  else
    loc ← pRead (cur_file_ofs - MZ_ZIP64_END_OF_CENTRAL_DIR_LOCATOR_SIZE) MZ_ZIP64_END_OF_CENTRAL_DIR_LOCATOR_SIZE;
    if negb (zlen loc =? MZ_ZIP64_END_OF_CENTRAL_DIR_LOCATOR_SIZE) then mret (no_loc, no_hdr)
    else
      sig ← MZ_READ_LE32 loc MZ_ZIP64_ECDL_SIG_OFS;
      if negb (sig =? MZ_ZIP64_END_OF_CENTRAL_DIR_LOCATOR_SIG) then mret (loc, no_hdr)
      else
        ofs ← MZ_READ_LE64 loc MZ_ZIP64_ECDL_REL_OFS_TO_ZIP64_ECDR_OFS;
        fail_if (w64 (m_archive_size z - MZ_ZIP64_END_OF_CENTRAL_DIR_HEADER_SIZE) <? ofs) MZ_ZIP_NOT_AN_ARCHIVE;;
        hdr ← pRead ofs MZ_ZIP64_END_OF_CENTRAL_DIR_HEADER_SIZE;
        if negb (zlen hdr =? MZ_ZIP64_END_OF_CENTRAL_DIR_HEADER_SIZE) then mret (loc, no_hdr)
        else
          sig ← MZ_READ_LE32 hdr MZ_ZIP64_ECDH_SIG_OFS;
          if sig =? MZ_ZIP64_END_OF_CENTRAL_DIR_HEADER_SIG
          then mod_state (set_m_zip64 true);; mret (loc, hdr)
          else mret (loc, hdr).

(** The fields of the end record, replaced by those of the zip64 end record
    when there is one. *)
Definition read_end_record (pBuf pZip64_locator pZip64_end_of_central_dir : bytes) : zm E cdir_info :=
  total ← MZ_READ_LE16 pBuf MZ_ZIP_ECDH_CDIR_TOTAL_ENTRIES_OFS;
  mod_zip (set_m_total_files total);;
  entries ← MZ_READ_LE16 pBuf MZ_ZIP_ECDH_CDIR_NUM_ENTRIES_ON_DISK_OFS;
  this_disk ← MZ_READ_LE16 pBuf MZ_ZIP_ECDH_NUM_THIS_DISK_OFS;
  disk_index ← MZ_READ_LE16 pBuf MZ_ZIP_ECDH_NUM_DISK_CDIR_OFS;
  size ← MZ_READ_LE32 pBuf MZ_ZIP_ECDH_CDIR_SIZE_OFS;
  ofs ← MZ_READ_LE32 pBuf MZ_ZIP_ECDH_CDIR_OFS_OFS;
  st ← get_state;
  if negb (m_zip64 st) then
    mret {| cdir_size := size; cdir_entries_on_this_disk := entries; num_this_disk := this_disk;
            cdir_disk_index := disk_index; cdir_ofs := ofs |}
  else
    total_num_of_disks ← MZ_READ_LE32 pZip64_locator MZ_ZIP64_ECDL_TOTAL_NUMBER_OF_DISKS_OFS;
    total_entries ← MZ_READ_LE64 pZip64_end_of_central_dir MZ_ZIP64_ECDH_CDIR_TOTAL_ENTRIES_OFS;
    entries_on_disk ← MZ_READ_LE64 pZip64_end_of_central_dir MZ_ZIP64_ECDH_CDIR_NUM_ENTRIES_ON_DISK_OFS;
    size_of_record ← MZ_READ_LE64 pZip64_end_of_central_dir MZ_ZIP64_ECDH_SIZE_OF_RECORD_OFS;
    size_of_cdir ← MZ_READ_LE64 pZip64_end_of_central_dir MZ_ZIP64_ECDH_CDIR_SIZE_OFS;
    fail_if (size_of_record <? MZ_ZIP64_END_OF_CENTRAL_DIR_HEADER_SIZE - 12) MZ_ZIP_INVALID_HEADER_OR_CORRUPTED;;
    fail_if (negb (total_num_of_disks =? 1)) MZ_ZIP_UNSUPPORTED_MULTIDISK;;
    fail_if (MZ_UINT32_MAX <? total_entries) MZ_ZIP_TOO_MANY_FILES;;
    mod_zip (set_m_total_files (w32 total_entries));;
    fail_if (MZ_UINT32_MAX <? entries_on_disk) MZ_ZIP_TOO_MANY_FILES;;
    fail_if (MZ_UINT32_MAX <? size_of_cdir) MZ_ZIP_UNSUPPORTED_CDIR_SIZE;;
    this_disk ← MZ_READ_LE32 pZip64_end_of_central_dir MZ_ZIP64_ECDH_NUM_THIS_DISK_OFS;
    disk_index ← MZ_READ_LE32 pZip64_end_of_central_dir MZ_ZIP64_ECDH_NUM_DISK_CDIR_OFS;
    ofs ← MZ_READ_LE64 pZip64_end_of_central_dir MZ_ZIP64_ECDH_CDIR_OFS_OFS;
    mret {| cdir_size := w32 size_of_cdir; cdir_entries_on_this_disk := w32 entries_on_disk;
            num_this_disk := this_disk; cdir_disk_index := disk_index; cdir_ofs := ofs |}.

(** [do .. while (extra_size_remaining)]: look for a zip64 field among the extra
    fields at [pExtra_data + o]; every field takes at least 4 bytes. *)
Fixpoint find_zip64_field (fuel : nat) (pExtra_data : bytes) (o extra_size_remaining : Z) : zm E unit :=
  match fuel with
  | O => bad
  | S k =>
      fail_if (extra_size_remaining <? 2 * 2) MZ_ZIP_INVALID_HEADER_OR_CORRUPTED;;
      field_id ← MZ_READ_LE16 pExtra_data o;
      field_data_size ← MZ_READ_LE16 pExtra_data (o + 2);
      fail_if (extra_size_remaining <? field_data_size + 2 * 2) MZ_ZIP_INVALID_HEADER_OR_CORRUPTED;;
      if field_id =? MZ_ZIP64_EXTENDED_INFORMATION_FIELD_HEADER_ID then
        mod_state (fun st => set_m_zip64_has_extended_info_fields true (set_m_zip64 true st))
      else
        let extra_size_remaining := extra_size_remaining - 2 * 2 - field_data_size in
        if extra_size_remaining =? 0 then mret tt
        else find_zip64_field k pExtra_data (o + 2 * 2 + field_data_size) extra_size_remaining
  end.

(** The zip64 part of the checks of a central directory record at [p]: when the
    extra data would end behind the directory it is read from the file. *)
Definition check_zip64_extra (info : cdir_info) (p n filename_size ext_data_size : Z) : zm E unit :=
  st ← get_state;
  if n <? MZ_ZIP_CENTRAL_DIR_HEADER_SIZE + filename_size + ext_data_size then
    ok ← m_pAlloc ext_data_size;
    fail_if (negb ok) MZ_ZIP_ALLOC_FAILED;;
    buf ← read_exact (w64 (cdir_ofs info + MZ_ZIP_CENTRAL_DIR_HEADER_SIZE + filename_size)) ext_data_size
            MZ_ZIP_FILE_READ_FAILED;
    find_zip64_field (S (Z.to_nat ext_data_size)) buf 0 ext_data_size
  else
    find_zip64_field (S (Z.to_nat ext_data_size)) (m_p (m_central_dir st))
      (p + MZ_ZIP_CENTRAL_DIR_HEADER_SIZE + filename_size) ext_data_size.

(** One round of the loop over the records: the record at [p] with [n] bytes
    left; the result is its size. *)
Definition check_record (info : cdir_info) (sort_central_dir : bool) (i p n : Z) : zm E Z :=
  st ← get_state;
  let cd := m_p (m_central_dir st) in
  fail_if (n <? MZ_ZIP_CENTRAL_DIR_HEADER_SIZE) MZ_ZIP_INVALID_HEADER_OR_CORRUPTED;;
  sig ← MZ_READ_LE32 cd p;
  fail_if (negb (sig =? MZ_ZIP_CENTRAL_DIR_HEADER_SIG)) MZ_ZIP_INVALID_HEADER_OR_CORRUPTED;;
  offsets ← checked (array_set (m_central_dir_offsets st) i (w32 p));
  mod_state (set_m_central_dir_offsets offsets);;
  (if sort_central_dir then
     sorted ← checked (array_set (m_sorted_central_dir_offsets st) i i);
     mod_state (set_m_sorted_central_dir_offsets sorted)
   else mret tt);;
  comp_size ← MZ_READ_LE32 cd (p + MZ_ZIP_CDH_COMPRESSED_SIZE_OFS);
  decomp_size ← MZ_READ_LE32 cd (p + MZ_ZIP_CDH_DECOMPRESSED_SIZE_OFS);
  local_header_ofs ← MZ_READ_LE32 cd (p + MZ_ZIP_CDH_LOCAL_HEADER_OFS);
  filename_size ← MZ_READ_LE16 cd (p + MZ_ZIP_CDH_FILENAME_LEN_OFS);
  ext_data_size ← MZ_READ_LE16 cd (p + MZ_ZIP_CDH_EXTRA_LEN_OFS);
  (if negb (m_zip64_has_extended_info_fields st) && negb (ext_data_size =? 0)
      && (Z.max (Z.max comp_size decomp_size) local_header_ofs =? MZ_UINT32_MAX)
   then check_zip64_extra info p n filename_size ext_data_size
   else mret tt);;
  method ← MZ_READ_LE32 cd (p + MZ_ZIP_CDH_METHOD_OFS);
  fail_if (negb (comp_size =? MZ_UINT32_MAX) && negb (decomp_size =? MZ_UINT32_MAX)
           && (((method =? 0) && negb (decomp_size =? comp_size))
               || (negb (decomp_size =? 0) && (comp_size =? 0))))
    MZ_ZIP_INVALID_HEADER_OR_CORRUPTED;;
  disk_index ← MZ_READ_LE16 cd (p + MZ_ZIP_CDH_DISK_START_OFS);
  fail_if ((disk_index =? MZ_UINT16_MAX)
           || (negb (disk_index =? num_this_disk info) && negb (disk_index =? 1)))
    MZ_ZIP_UNSUPPORTED_MULTIDISK;;
  z ← get_zip;
  fail_if (negb (comp_size =? MZ_UINT32_MAX)
           && (m_archive_size z <? local_header_ofs + MZ_ZIP_LOCAL_DIR_HEADER_SIZE + comp_size))
    MZ_ZIP_INVALID_HEADER_OR_CORRUPTED;;
  bit_flags ← MZ_READ_LE16 cd (p + MZ_ZIP_CDH_BIT_FLAG_OFS);
  fail_if (has_flag bit_flags MZ_ZIP_GENERAL_PURPOSE_BIT_FLAG_LOCAL_DIR_IS_MASKED) MZ_ZIP_UNSUPPORTED_ENCRYPTION;;
  comment_size ← MZ_READ_LE16 cd (p + MZ_ZIP_CDH_COMMENT_LEN_OFS);
  let total_header_size := MZ_ZIP_CENTRAL_DIR_HEADER_SIZE + filename_size + ext_data_size + comment_size in
  fail_if (n <? total_header_size) MZ_ZIP_INVALID_HEADER_OR_CORRUPTED;;
  mret total_header_size.

(** [for (n = cdir_size, i = 0; i < m_total_files; ++i)], [k] rounds left. *)
Fixpoint check_records (k : nat) (info : cdir_info) (sort_central_dir : bool) (i p n : Z) : zm E unit :=
  match k with
  | O => mret tt
  | S k =>
      total_header_size ← check_record info sort_central_dir i p n;
      check_records k info sort_central_dir (i + 1) (p + total_header_size) (n - total_header_size)
  end.

(** [mz_zip_array_resize] of the three arrays of the state. *)
Definition resize_central_dir (n : Z) : zm E unit :=
  st ← get_state; a ← mz_zip_array_resize junk 1 (m_central_dir st) n false; mod_state (set_m_central_dir a).
Definition resize_central_dir_offsets (n : Z) : zm E unit :=
  st ← get_state;
  a ← mz_zip_array_resize (u8 junk) 4 (m_central_dir_offsets st) n false; mod_state (set_m_central_dir_offsets a).
Definition resize_sorted_offsets (n : Z) : zm E unit :=
  st ← get_state;
  a ← mz_zip_array_resize (u8 junk) 4 (m_sorted_central_dir_offsets st) n false;
  mod_state (set_m_sorted_central_dir_offsets a).

(** Loading the directory into memory: the arrays are sized, then filled. *)
Definition load_central_dir (info : cdir_info) (sort_central_dir : bool) : zm E unit :=
  z ← get_zip;
  ok ← try (resize_central_dir (cdir_size info);; resize_central_dir_offsets (m_total_files z));
  fail_if (negb ok) MZ_ZIP_ALLOC_FAILED;;
  (if sort_central_dir then
     ok ← try (resize_sorted_offsets (m_total_files z));
     fail_if (negb ok) MZ_ZIP_ALLOC_FAILED
   else mret tt);;
  b ← read_exact (cdir_ofs info) (cdir_size info) MZ_ZIP_FILE_READ_FAILED;
  st ← get_state;
  p ← checked (mem_copy (m_p (m_central_dir st)) 0 b);
  mod_state (set_m_central_dir {| m_p := p; m_size := m_size (m_central_dir st) |}).

Definition mz_zip_reader_read_central_dir (flags : Z) : zm E unit :=
  let sort_central_dir := negb (has_flag flags MZ_ZIP_FLAG_DO_NOT_SORT_CENTRAL_DIRECTORY) in
  z ← get_zip;
  fail_if (m_archive_size z <? MZ_ZIP_END_OF_CENTRAL_DIR_HEADER_SIZE) MZ_ZIP_NOT_AN_ARCHIVE;;
  cur_file_ofs ← (fun s =>
    match mz_zip_reader_locate_header_sig MZ_ZIP_END_OF_CENTRAL_DIR_HEADER_SIG MZ_ZIP_END_OF_CENTRAL_DIR_HEADER_SIZE s with
    | (MzFalse, s) => mz_zip_set_error MZ_ZIP_FAILED_FINDING_CENTRAL_DIR s
    | r => r
    end);
  pBuf ← read_exact (w64 cur_file_ofs) MZ_ZIP_END_OF_CENTRAL_DIR_HEADER_SIZE MZ_ZIP_FILE_READ_FAILED;
  sig ← MZ_READ_LE32 pBuf MZ_ZIP_ECDH_SIG_OFS;
  fail_if (negb (sig =? MZ_ZIP_END_OF_CENTRAL_DIR_HEADER_SIG)) MZ_ZIP_NOT_AN_ARCHIVE;;
  '(loc, hdr) ← read_zip64_locator cur_file_ofs;
  info ← read_end_record pBuf loc hdr;
  z ← get_zip;
  fail_if (negb (m_total_files z =? cdir_entries_on_this_disk info)) MZ_ZIP_UNSUPPORTED_MULTIDISK;;
  fail_if (negb (Z.lor (num_this_disk info) (cdir_disk_index info) =? 0)
           && (negb (num_this_disk info =? 1) || negb (cdir_disk_index info =? 1)))
    MZ_ZIP_UNSUPPORTED_MULTIDISK;;
  fail_if (cdir_size info <? w32 (m_total_files z * MZ_ZIP_CENTRAL_DIR_HEADER_SIZE)) MZ_ZIP_INVALID_HEADER_OR_CORRUPTED;;
  fail_if (m_archive_size z <? w64 (cdir_ofs info + cdir_size info)) MZ_ZIP_INVALID_HEADER_OR_CORRUPTED;;
  mod_zip (set_m_central_directory_file_ofs (cdir_ofs info));;
  (if negb (m_total_files z =? 0) then
     load_central_dir info sort_central_dir;;
     check_records (Z.to_nat (m_total_files z)) info sort_central_dir 0 0 (cdir_size info)
   else mret tt);;
  if sort_central_dir then mz_zip_reader_sort_central_dir_offsets_by_filename else mret tt.

Definition mz_zip_reader_end_internal (set_last_error : bool) : zm E unit :=
  z ← get_zip;
  if negb (bool_decide (is_Some (m_pState z))) || negb (bool_decide (m_zip_mode z = MZ_ZIP_MODE_READING)) then
    (if set_last_error then set_error MZ_ZIP_INVALID_PARAMETER else mret tt);; mz_false
  else
    mod_zip (fun z => set_m_zip_mode MZ_ZIP_MODE_INVALID (set_m_pState None z)).
Definition mz_zip_reader_end : zm E unit := mz_zip_reader_end_internal true.

(** The end of both [mz_zip_reader_init] functions. *)
Definition finish_init (flags : Z) : zm E unit :=
  ok ← try (mz_zip_reader_read_central_dir flags);
  if (ok : bool) then mret tt
  else try (mz_zip_reader_end_internal false);; mz_false.

Definition mz_zip_reader_init (size flags : Z) : zm E unit :=
  z ← get_zip;
  fail_if (match m_pRead z with IO_NULL => true | _ => false end) MZ_ZIP_INVALID_PARAMETER;;
  mz_zip_reader_init_internal flags;;
  mod_zip (fun z => set_m_zip_type MZ_ZIP_TYPE_USER (set_m_archive_size size z));;
  finish_init flags.

Definition mz_zip_reader_init_mem (pMem : bytes) (flags : Z) : zm E unit :=
  fail_if (zlen pMem <? MZ_ZIP_END_OF_CENTRAL_DIR_HEADER_SIZE) MZ_ZIP_NOT_AN_ARCHIVE;;
  mz_zip_reader_init_internal flags;;
  mod_zip (fun z => set_m_zip_type MZ_ZIP_TYPE_MEMORY (set_m_archive_size (zlen pMem) (set_m_pRead IO_MEM z)));;
  mod_state (fun st => set_m_pMem (Some pMem) (set_m_mem_size (zlen pMem) st));;
  finish_init flags.

End Reader.
(** ** Attributes of an entry *)

Record mz_zip_archive_file_stat := {
  m_file_index : Z; m_central_dir_ofs : Z; m_version_made_by : Z; m_version_needed : Z;
  m_bit_flag : Z; m_method : Z; m_time : Z; m_crc32 : Z; m_comp_size : Z; m_uncomp_size : Z;
  m_internal_attr : Z; m_external_attr : Z; m_local_header_ofs : Z; m_comment_size : Z;
  m_is_directory : bool; m_is_encrypted : bool; m_is_supported : bool;
  m_filename : bytes; m_comment : bytes }.

Definition set_sizes (uncomp comp ofs : Z) (st : mz_zip_archive_file_stat) : mz_zip_archive_file_stat :=
  {| m_file_index := m_file_index st; m_central_dir_ofs := m_central_dir_ofs st;
     m_version_made_by := m_version_made_by st; m_version_needed := m_version_needed st;
     m_bit_flag := m_bit_flag st; m_method := m_method st; m_time := m_time st; m_crc32 := m_crc32 st;
     m_comp_size := comp; m_uncomp_size := uncomp;
     m_internal_attr := m_internal_attr st; m_external_attr := m_external_attr st;
     m_local_header_ofs := ofs; m_comment_size := m_comment_size st;
     m_is_directory := m_is_directory st; m_is_encrypted := m_is_encrypted st;
     m_is_supported := m_is_supported st; m_filename := m_filename st; m_comment := m_comment st |}.

Section Entries.
Context {E : Type} `{ZipEnv E}.

(** The record of an entry: its offset in the central directory, or null. *)
Definition mz_zip_get_cdh (file_index : Z) : zm E (option Z) :=
  z ← get_zip;
  match m_pState z with
  | None => mret None
  | Some st =>
      if m_total_files z <=? file_index then mret None
      else p ← checked (array_element (m_central_dir_offsets st) file_index); mret (Some p)
  end.

(** The bytes of the central directory. *)
Definition central_dir_bytes : zm E bytes := st ← get_state; mret (m_p (m_central_dir st)).

Definition ENCRYPTION_FLAGS : Z :=
  Z.lor MZ_ZIP_GENERAL_PURPOSE_BIT_FLAG_IS_ENCRYPTED MZ_ZIP_GENERAL_PURPOSE_BIT_FLAG_USES_STRONG_ENCRYPTION.

Definition mz_zip_reader_is_file_encrypted (file_index : Z) : zm E bool :=
  p ← mz_zip_get_cdh file_index;
  match p with
  | None => set_error MZ_ZIP_INVALID_PARAMETER;; mret false
  | Some p =>
      cd ← central_dir_bytes;
      bit_flag ← MZ_READ_LE16 cd (p + MZ_ZIP_CDH_BIT_FLAG_OFS);
      mret (has_flag bit_flag ENCRYPTION_FLAGS)
  end.

Definition mz_zip_reader_is_file_supported (file_index : Z) : zm E bool :=
  p ← mz_zip_get_cdh file_index;
  match p with
  | None => set_error MZ_ZIP_INVALID_PARAMETER;; mret false
  | Some p =>
      cd ← central_dir_bytes;
      method ← MZ_READ_LE16 cd (p + MZ_ZIP_CDH_METHOD_OFS);
      bit_flag ← MZ_READ_LE16 cd (p + MZ_ZIP_CDH_BIT_FLAG_OFS);
      if negb (method =? 0) && negb (method =? MZ_DEFLATED) then
        set_error MZ_ZIP_UNSUPPORTED_METHOD;; mret false
      else if has_flag bit_flag ENCRYPTION_FLAGS then
        set_error MZ_ZIP_UNSUPPORTED_ENCRYPTION;; mret false
      else if has_flag bit_flag MZ_ZIP_GENERAL_PURPOSE_BIT_FLAG_COMPRESSED_PATCH_FLAG then
        set_error MZ_ZIP_UNSUPPORTED_FEATURE;; mret false
      else mret true
  end.

Definition mz_zip_reader_is_file_a_directory (file_index : Z) : zm E bool :=
  p ← mz_zip_get_cdh file_index;
  match p with
  | None => set_error MZ_ZIP_INVALID_PARAMETER;; mret false
  | Some p =>
      cd ← central_dir_bytes;
      filename_len ← MZ_READ_LE16 cd (p + MZ_ZIP_CDH_FILENAME_LEN_OFS);
      slash ← (if negb (filename_len =? 0) then
                 c ← checked (read8 cd (p + MZ_ZIP_CENTRAL_DIR_HEADER_SIZE + filename_len - 1));
                 mret (c =? 47)
               else mret false);
      if (slash : bool) then mret true
      else
        external_attr ← MZ_READ_LE32 cd (p + MZ_ZIP_CDH_EXTERNAL_ATTR_OFS);
        mret (has_flag external_attr MZ_ZIP_DOS_DIR_ATTRIBUTE_BITFLAG)
  end.

(** One 64-bit value of the zip64 field at [o], when the 32-bit one is
    saturated; [rem] bytes of the field are left. *)
Definition zip64_value (cd : bytes) (v o rem : Z) : zm E (Z * Z * Z) :=
  if v =? MZ_UINT32_MAX then
    fail_if (rem <? 8) MZ_ZIP_INVALID_HEADER_OR_CORRUPTED;;
    v ← MZ_READ_LE64 cd o; mret (v, o + 8, rem - 8)
  else mret (v, o, rem).

(** [do .. while (extra_size_remaining)] of [mz_zip_file_stat_internal]; the
    boolean is [*pFound_zip64_extra_data]. *)
Fixpoint stat_zip64 (fuel : nat) (cd : bytes) (o extra_size_remaining : Z) (st : mz_zip_archive_file_stat) :
    zm E (mz_zip_archive_file_stat * bool) :=
  match fuel with
  | O => bad
  | S k =>
      fail_if (extra_size_remaining <? 2 * 2) MZ_ZIP_INVALID_HEADER_OR_CORRUPTED;;
      field_id ← MZ_READ_LE16 cd o;
      field_data_size ← MZ_READ_LE16 cd (o + 2);
      fail_if (extra_size_remaining <? field_data_size + 2 * 2) MZ_ZIP_INVALID_HEADER_OR_CORRUPTED;;
      if field_id =? MZ_ZIP64_EXTENDED_INFORMATION_FIELD_HEADER_ID then
        '(uncomp, p, rem) ← zip64_value cd (m_uncomp_size st) (o + 2 * 2) field_data_size;
        '(comp, p, rem) ← zip64_value cd (m_comp_size st) p rem;
        '(ofs, p, rem) ← zip64_value cd (m_local_header_ofs st) p rem;
        mret (set_sizes uncomp comp ofs st, true)
      else
        let extra_size_remaining := extra_size_remaining - 2 * 2 - field_data_size in
        if extra_size_remaining =? 0 then mret (st, false)
        else stat_zip64 k cd (o + 2 * 2 + field_data_size) extra_size_remaining st
  end.

Definition mz_zip_file_stat_internal (file_index : Z) (pCentral_dir_header : option Z) :
    zm E (mz_zip_archive_file_stat * bool) :=
  match pCentral_dir_header with
  | None => mz_zip_set_error MZ_ZIP_INVALID_PARAMETER
  | Some p =>
      s ← get_state;
      cd ← central_dir_bytes;
      central_dir_ofs ← checked (array_element (m_central_dir_offsets s) file_index);
      version_made_by ← MZ_READ_LE16 cd (p + MZ_ZIP_CDH_VERSION_MADE_BY_OFS);
      version_needed ← MZ_READ_LE16 cd (p + MZ_ZIP_CDH_VERSION_NEEDED_OFS);
      bit_flag ← MZ_READ_LE16 cd (p + MZ_ZIP_CDH_BIT_FLAG_OFS);
      method ← MZ_READ_LE16 cd (p + MZ_ZIP_CDH_METHOD_OFS);
      dos_time ← MZ_READ_LE16 cd (p + MZ_ZIP_CDH_FILE_TIME_OFS);
      dos_date ← MZ_READ_LE16 cd (p + MZ_ZIP_CDH_FILE_DATE_OFS);
      crc32 ← MZ_READ_LE32 cd (p + MZ_ZIP_CDH_CRC32_OFS);
      comp_size ← MZ_READ_LE32 cd (p + MZ_ZIP_CDH_COMPRESSED_SIZE_OFS);
      uncomp_size ← MZ_READ_LE32 cd (p + MZ_ZIP_CDH_DECOMPRESSED_SIZE_OFS);
      internal_attr ← MZ_READ_LE16 cd (p + MZ_ZIP_CDH_INTERNAL_ATTR_OFS);
      external_attr ← MZ_READ_LE32 cd (p + MZ_ZIP_CDH_EXTERNAL_ATTR_OFS);
      local_header_ofs ← MZ_READ_LE32 cd (p + MZ_ZIP_CDH_LOCAL_HEADER_OFS);
      filename_len ← MZ_READ_LE16 cd (p + MZ_ZIP_CDH_FILENAME_LEN_OFS);
      filename ← read_mem cd (p + MZ_ZIP_CENTRAL_DIR_HEADER_SIZE)
                   (Z.min filename_len (MZ_ZIP_MAX_ARCHIVE_FILENAME_SIZE - 1));
      comment_len ← MZ_READ_LE16 cd (p + MZ_ZIP_CDH_COMMENT_LEN_OFS);
      extra_len ← MZ_READ_LE16 cd (p + MZ_ZIP_CDH_EXTRA_LEN_OFS);
      let n := Z.min comment_len (MZ_ZIP_MAX_ARCHIVE_FILE_COMMENT_SIZE - 1) in
      comment ← read_mem cd (p + MZ_ZIP_CENTRAL_DIR_HEADER_SIZE + filename_len + extra_len) n;
      is_directory ← mz_zip_reader_is_file_a_directory file_index;
      is_encrypted ← mz_zip_reader_is_file_encrypted file_index;
      is_supported ← mz_zip_reader_is_file_supported file_index;
      let st := {| m_file_index := file_index; m_central_dir_ofs := central_dir_ofs;
                   m_version_made_by := version_made_by; m_version_needed := version_needed;
                   m_bit_flag := bit_flag; m_method := method;
                   m_time := mz_zip_dos_to_time_t dos_time dos_date; m_crc32 := crc32;
                   m_comp_size := comp_size; m_uncomp_size := uncomp_size;
                   m_internal_attr := internal_attr; m_external_attr := external_attr;
                   m_local_header_ofs := local_header_ofs; m_comment_size := n;
                   m_is_directory := is_directory; m_is_encrypted := is_encrypted;
                   m_is_supported := is_supported; m_filename := filename; m_comment := comment |} in
      if (Z.max (Z.max comp_size uncomp_size) local_header_ofs =? MZ_UINT32_MAX) && negb (extra_len =? 0) then
        stat_zip64 (S (Z.to_nat extra_len)) cd (p + MZ_ZIP_CENTRAL_DIR_HEADER_SIZE + filename_len) extra_len st
      else mret (st, false)
  end.

Definition mz_zip_reader_file_stat (file_index : Z) : zm E mz_zip_archive_file_stat :=
  p ← mz_zip_get_cdh file_index;
  '(st, _) ← mz_zip_file_stat_internal file_index p;
  mret st.

(** The buffer [pFilename] has [filename_buf_size] bytes; the result is the
    number of bytes written or needed, and the name copied. *)
Definition mz_zip_reader_get_filename (file_index filename_buf_size : Z) : zm E (Z * bytes) :=
  p ← mz_zip_get_cdh file_index;
  match p with
  | None => set_error MZ_ZIP_INVALID_PARAMETER;; mret (0, [])
  | Some p =>
      cd ← central_dir_bytes;
      n ← MZ_READ_LE16 cd (p + MZ_ZIP_CDH_FILENAME_LEN_OFS);
      if negb (filename_buf_size =? 0) then
        let n := Z.min n (filename_buf_size - 1) in
        name ← read_mem cd (p + MZ_ZIP_CENTRAL_DIR_HEADER_SIZE) n;
        mret (n + 1, name)
      else mret (n + 1, [])
  end.

Definition mz_zip_reader_get_num_files : zm E Z := z ← get_zip; mret (m_total_files z).

(** ** Finding an entry by name *)

Definition mz_zip_string_equal (pA : bytes) (pB : bytes) (o len flags : Z) : zm E bool :=
  b ← read_mem pB o len;
  a ← read_mem pA 0 len;
  if has_flag flags MZ_ZIP_FLAG_CASE_SENSITIVE then mret (bool_decide (a = b))
  else mret (bool_decide (map (fun c => MZ_TOLOWER (u8 c)) a = map (fun c => MZ_TOLOWER (u8 c)) b)).

(** [do .. while (--ofs >= 0)]: the position behind the last separator among the
    first [k] characters at [p]. *)
Fixpoint last_separator (k : nat) (cd : bytes) (p : Z) : option Z :=
  match k with
  | O => Some 0
  | S i =>
      c ← read8 cd (p + Z.of_nat i);
      if (c =? 47) || (c =? 92) || (c =? 58) then Some (Z.of_nat i + 1) else last_separator i cd p
  end.

(** One entry of the scan: whether it matches. *)
Definition entry_matches (pName : bytes) (pComment : option bytes) (flags file_index : Z) : zm E bool :=
  st ← get_state;
  cd ← central_dir_bytes;
  p ← checked (array_element (m_central_dir_offsets st) file_index);
  filename_len ← MZ_READ_LE16 cd (p + MZ_ZIP_CDH_FILENAME_LEN_OFS);
  let pFilename := p + MZ_ZIP_CENTRAL_DIR_HEADER_SIZE in
  let comment_len := zlen (default [] pComment) in
  if filename_len <? zlen pName then mret false
  else
    comment_ok ← (if negb (comment_len =? 0) then
      extra_len ← MZ_READ_LE16 cd (p + MZ_ZIP_CDH_EXTRA_LEN_OFS);
      file_comment_len ← MZ_READ_LE16 cd (p + MZ_ZIP_CDH_COMMENT_LEN_OFS);
      if negb (file_comment_len =? comment_len) then mret false
      else mz_zip_string_equal (default [] pComment) cd (pFilename + filename_len + extra_len) file_comment_len flags
    else mret true);
    if negb comment_ok then mret false
    else
      ofs ← (if has_flag flags MZ_ZIP_FLAG_IGNORE_PATH && negb (filename_len =? 0)
             then checked (last_separator (Z.to_nat filename_len) cd pFilename)
             else mret 0);
      let filename_len := filename_len - ofs in
      if filename_len =? zlen pName then mz_zip_string_equal pName cd (pFilename + ofs) filename_len flags
      else mret false.

Fixpoint scan_entries (k : nat) (pName : bytes) (pComment : option bytes) (flags file_index : Z) : zm E Z :=
  match k with
  | O => mz_zip_set_error MZ_ZIP_FILE_NOT_FOUND
  | S k =>
      m ← entry_matches pName pComment flags file_index;
      if (m : bool) then mret file_index else scan_entries k pName pComment flags (file_index + 1)
  end.

Definition mz_zip_reader_locate_file_v2 (pName : bytes) (pComment : option bytes) (flags : Z) : zm E Z :=
  z ← get_zip;
  match m_pState z with
  | None => mz_zip_set_error MZ_ZIP_INVALID_PARAMETER
  | Some st =>
      if negb (has_flag (m_init_flags st) MZ_ZIP_FLAG_DO_NOT_SORT_CENTRAL_DIRECTORY)
         && bool_decide (m_zip_mode z = MZ_ZIP_MODE_READING)
         && negb (has_flag flags (Z.lor MZ_ZIP_FLAG_IGNORE_PATH MZ_ZIP_FLAG_CASE_SENSITIVE))
         && bool_decide (pComment = None) && negb (m_size (m_sorted_central_dir_offsets st) =? 0)
      then mz_zip_locate_file_binary_search pName
      else
        fail_if (MZ_UINT16_MAX <? zlen pName) MZ_ZIP_INVALID_PARAMETER;;
        fail_if (MZ_UINT16_MAX <? zlen (default [] pComment)) MZ_ZIP_INVALID_PARAMETER;;
        scan_entries (Z.to_nat (m_total_files z)) pName pComment flags 0
  end.

Definition mz_zip_reader_locate_file (pName : bytes) (pComment : option bytes) (flags : Z) : zm E Z := fun s =>
  match mz_zip_reader_locate_file_v2 pName pComment flags s with
  | (MzTrue i, s) => (MzTrue (s32 i), s)
  | (MzFalse, s) => (MzTrue (-1), s)
  | (Bad, s) => (Bad, s)
  end.

End Entries.
(** ** Extraction *)

(** The inflator as its clients use it: a state [T], and a call that is given the
    input available, the output produced so far and the room for more, and the
    flags; it yields a status, the number of input bytes consumed and the new
    output. *)
Definition TINFL_STATUS_DONE : Z := 0.
Definition TINFL_STATUS_FAILED : Z := -1.
Definition TINFL_STATUS_NEEDS_MORE_INPUT : Z := 1.
Definition TINFL_FLAG_HAS_MORE_INPUT : Z := 2.
Definition TINFL_FLAG_USING_NON_WRAPPING_OUTPUT_BUF : Z := 4.
Class Inflator (T : Type) := {
  tinfl_init : T;
  tinfl_decompress : T -> bytes -> bytes -> Z -> Z -> Z * Z * bytes * T }.

(** What extraction relies on: no more input is consumed and no more output
    produced than there is room for, and more input is asked for only when all of
    it was consumed and the caller said that there is more. *)
Class InflatorOk (T : Type) `{Inflator T} := {
  tinfl_bounds t win out room flags status used o t' :
    tinfl_decompress t win out room flags = (status, used, o, t') ->
    0 <= room -> 0 <= used <= zlen win /\ zlen o <= room;
  tinfl_more t win out room flags status used o t' :
    tinfl_decompress t win out room flags = (status, used, o, t') ->
    status = TINFL_STATUS_NEEDS_MORE_INPUT -> used = zlen win /\ has_flag flags TINFL_FLAG_HAS_MORE_INPUT = true }.

Section Extract.
Context {E T : Type} `{ZipEnv E} `{Inflator T}.

(** [do .. while (status == TINFL_STATUS_NEEDS_MORE_INPUT)].  [win] is what is
    left of the input window, [out] the output so far; with the archive in
    memory the window is the whole compressed data, otherwise it is refilled
    with up to [read_buf_size] bytes.  Every round that needs more input has
    consumed or read something, so the compressed size bounds the rounds. *)
Fixpoint inflate_loop (fuel : nat) (in_memory : bool) (uncomp_size read_buf_size : Z) (t : T) (win : bytes)
    (cur_file_ofs comp_remaining : Z) (out : bytes) : zm E (Z * bytes) :=
  match fuel with
  | O => bad
  | S k =>
      fill ← (if (zlen win =? 0) && negb in_memory then
                let n := Z.min read_buf_size comp_remaining in
                b ← pRead cur_file_ofs n;
                if zlen b =? n then mret (Some (b, w64 (cur_file_ofs + n), comp_remaining - n))
                else set_error MZ_ZIP_DECOMPRESSION_FAILED;; mret None
              else mret (Some (win, cur_file_ofs, comp_remaining)));
      match fill with
      | None => mret (TINFL_STATUS_FAILED, out)
      | Some (win, cur_file_ofs, comp_remaining) =>
          let flags := Z.lor TINFL_FLAG_USING_NON_WRAPPING_OUTPUT_BUF
                         (if comp_remaining =? 0 then 0 else TINFL_FLAG_HAS_MORE_INPUT) in
          let '(status, used, o, t) := tinfl_decompress t win out (uncomp_size - zlen out) flags in
          let win := zdrop used win in
          let out := out ++ o in
          if status =? TINFL_STATUS_NEEDS_MORE_INPUT
          then inflate_loop k in_memory uncomp_size read_buf_size t win cur_file_ofs comp_remaining out
          else mret (status, out)
      end
  end.

(** The buffer [pBuf] of [buf_size] bytes after the call; [pUser_read_buf] is
    the size of the user's read buffer, if any. *)
Definition mz_zip_reader_extract_to_mem_no_alloc (file_index : Z) (pBuf : bytes) (flags : Z)
    (pUser_read_buf : option Z) : zm E bytes :=
  z ← get_zip;
  fail_if (negb (bool_decide (is_Some (m_pState z))) || match m_pRead z with IO_NULL => true | _ => false end)
    MZ_ZIP_INVALID_PARAMETER;;
  file_stat ← mz_zip_reader_file_stat file_index;
  let compressed_data := has_flag flags MZ_ZIP_FLAG_COMPRESSED_DATA in
  if m_is_directory file_stat || (m_comp_size file_stat =? 0) then mret pBuf
  else
    fail_if (has_flag (m_bit_flag file_stat)
               (Z.lor ENCRYPTION_FLAGS MZ_ZIP_GENERAL_PURPOSE_BIT_FLAG_COMPRESSED_PATCH_FLAG))
      MZ_ZIP_UNSUPPORTED_ENCRYPTION;;
    fail_if (negb compressed_data && negb (m_method file_stat =? 0) && negb (m_method file_stat =? MZ_DEFLATED))
      MZ_ZIP_UNSUPPORTED_METHOD;;
    let needed_size := if compressed_data then m_comp_size file_stat else m_uncomp_size file_stat in
    fail_if (zlen pBuf <? needed_size) MZ_ZIP_BUF_TOO_SMALL;;
    let cur_file_ofs := m_local_header_ofs file_stat in
    pLocal_header ← read_exact cur_file_ofs MZ_ZIP_LOCAL_DIR_HEADER_SIZE MZ_ZIP_FILE_READ_FAILED;
    sig ← MZ_READ_LE32 pLocal_header 0;
    fail_if (negb (sig =? MZ_ZIP_LOCAL_DIR_HEADER_SIG)) MZ_ZIP_INVALID_HEADER_OR_CORRUPTED;;
    filename_len ← MZ_READ_LE16 pLocal_header MZ_ZIP_LDH_FILENAME_LEN_OFS;
    extra_len ← MZ_READ_LE16 pLocal_header MZ_ZIP_LDH_EXTRA_LEN_OFS;
    let cur_file_ofs := w64 (cur_file_ofs + MZ_ZIP_LOCAL_DIR_HEADER_SIZE + filename_len + extra_len) in
    fail_if (m_archive_size z <? w64 (cur_file_ofs + m_comp_size file_stat)) MZ_ZIP_INVALID_HEADER_OR_CORRUPTED;;
    if compressed_data || (m_method file_stat =? 0) then
      b ← read_exact cur_file_ofs needed_size MZ_ZIP_FILE_READ_FAILED;
      pBuf ← checked (mem_copy pBuf 0 b);
      (if negb compressed_data then
         data ← read_mem pBuf 0 (m_uncomp_size file_stat);
         fail_if (negb (mz_crc32 MZ_CRC32_INIT data =? m_crc32 file_stat)) MZ_ZIP_CRC_CHECK_FAILED
       else mret tt);;
      mret pBuf
    else
      st ← get_state;
      window ← match m_pMem st, pUser_read_buf with
               | Some mem, _ =>
                   win ← read_mem mem cur_file_ofs (m_comp_size file_stat);
                   mret (m_comp_size file_stat, win, 0)
               | None, Some user_read_buf_size =>
                   if user_read_buf_size =? 0 then mz_false
                   else mret (user_read_buf_size, [], m_comp_size file_stat)
               | None, None =>
                   let read_buf_size := Z.min (m_comp_size file_stat) MZ_ZIP_MAX_IO_BUF_SIZE in
                   ok ← m_pAlloc read_buf_size;
                   fail_if (negb ok) MZ_ZIP_ALLOC_FAILED;;
                   mret (read_buf_size, [], m_comp_size file_stat)
               end;
      let '(read_buf_size, win, comp_remaining) := window in
      '(status, out) ← inflate_loop (S (S (Z.to_nat (m_comp_size file_stat))))
                         (bool_decide (is_Some (m_pMem st))) (m_uncomp_size file_stat) read_buf_size
                         tinfl_init win cur_file_ofs comp_remaining [];
      if negb (status =? TINFL_STATUS_DONE) then mz_false
      else
        fail_if (negb (zlen out =? m_uncomp_size file_stat)) MZ_ZIP_UNEXPECTED_DECOMPRESSED_SIZE;;
        fail_if (negb (mz_crc32 MZ_CRC32_INIT out =? m_crc32 file_stat)) MZ_ZIP_CRC_CHECK_FAILED;;
        checked (mem_copy pBuf 0 out).

Definition mz_zip_reader_extract_to_mem (file_index : Z) (pBuf : bytes) (flags : Z) : zm E bytes :=
  mz_zip_reader_extract_to_mem_no_alloc file_index pBuf flags None.

Definition mz_zip_reader_extract_file_to_mem_no_alloc (pFilename : bytes) (pBuf : bytes) (flags : Z)
    (pUser_read_buf : option Z) : zm E bytes :=
  file_index ← mz_zip_reader_locate_file_v2 pFilename None flags;
  mz_zip_reader_extract_to_mem_no_alloc file_index pBuf flags pUser_read_buf.

Definition mz_zip_reader_extract_file_to_mem (pFilename : bytes) (pBuf : bytes) (flags : Z) : zm E bytes :=
  mz_zip_reader_extract_file_to_mem_no_alloc pFilename pBuf flags None.

(** The heap block is the result; null is [MzFalse]. *)
Definition mz_zip_reader_extract_to_heap (file_index flags : Z) : zm E bytes :=
  p ← mz_zip_get_cdh file_index;
  match p with
  | None => mz_zip_set_error MZ_ZIP_INVALID_PARAMETER
  | Some p =>
      cd ← central_dir_bytes;
      comp_size ← MZ_READ_LE32 cd (p + MZ_ZIP_CDH_COMPRESSED_SIZE_OFS);
      uncomp_size ← MZ_READ_LE32 cd (p + MZ_ZIP_CDH_DECOMPRESSED_SIZE_OFS);
      let alloc_size := if has_flag flags MZ_ZIP_FLAG_COMPRESSED_DATA then comp_size else uncomp_size in
      ok ← m_pAlloc alloc_size;
      fail_if (negb ok) MZ_ZIP_ALLOC_FAILED;;
      mz_zip_reader_extract_to_mem file_index (replicate (Z.to_nat alloc_size) junk) flags
  end.

Definition mz_zip_reader_extract_file_to_heap (pFilename : bytes) (flags : Z) : zm E bytes :=
  file_index ← mz_zip_reader_locate_file_v2 pFilename None flags;
  mz_zip_reader_extract_to_heap file_index flags.

End Extract.
