(* ===== verification/ZipSafety.v ===== *)
(** ZIP archives: the reader is safe on any input, and finds what is there.

    Opening an arbitrary block of memory as an archive, and every function that
    looks at an entry afterwards, stays inside its allocations and ends; a
    successfully opened archive satisfies [reader_ok], which the lookups rely
    on. *)
From S2P Require Import Prelude ZipBase ZipSort ZipReader.

(** ** What the functions depend on *)

(** The parts of an archive that reading it does not change once it is open:
    everything but the error code, the zip64 marks and the directory offset. *)
Definition view (z : mz_zip_archive) :=
  (m_archive_size z, m_total_files z, m_zip_mode z, m_pRead z,
   (fun st => (m_central_dir st, m_central_dir_offsets st, m_sorted_central_dir_offsets st,
               m_init_flags st, m_pMem st)) <$> m_pState z).

(** The read callback may be called: a memory archive is as long as it is said
    to be, and only such an archive has a memory block. *)
Definition io_ok (z : mz_zip_archive) : Prop :=
  match m_pRead z with
  | IO_USER => forall st, m_pState z = Some st -> m_pMem st = None
  | IO_MEM => exists st mem, m_pState z = Some st /\ m_pMem st = Some mem /\ zlen mem = m_archive_size z
  | IO_NULL => False
  end.

Lemma view_state z z' st :
  view z' = view z -> m_pState z = Some st ->
  exists st', m_pState z' = Some st' /\ m_central_dir st' = m_central_dir st /\
    m_central_dir_offsets st' = m_central_dir_offsets st /\
    m_sorted_central_dir_offsets st' = m_sorted_central_dir_offsets st /\
    m_init_flags st' = m_init_flags st /\ m_pMem st' = m_pMem st.
Proof.
  unfold view. intros Hv Hs. rewrite Hs in Hv. destruct (m_pState z') as [st'|]; cbn in Hv; [|congruence].
  exists st'. inversion Hv. by split_and!.
Qed.
Lemma view_state_inv z z' st' :
  view z' = view z -> m_pState z' = Some st' -> exists st, m_pState z = Some st /\ m_pMem st' = m_pMem st.
Proof.
  unfold view. intros Hv Hs. rewrite Hs in Hv. destruct (m_pState z) as [st|]; cbn in Hv; [|congruence].
  exists st. inversion Hv. done.
Qed.
Lemma io_ok_view z z' : view z' = view z -> io_ok z -> io_ok z'.
Proof.
  intros Hv. unfold io_ok. assert (m_pRead z' = m_pRead z) as -> by (unfold view in Hv; congruence).
  destruct (m_pRead z); [done| |].
  - intros (st & mem & Hs & Hm & Hl). destruct (view_state z z' st Hv Hs) as (st' & Hs' & _ & _ & _ & _ & Hm').
    exists st', mem. split_and!; [done|by rewrite Hm'|]. unfold view in Hv. congruence.
  - intros Hu st' Hs'. destruct (view_state_inv z z' st' Hv Hs') as (st & Hs & ->). auto.
Qed.

(** ** Tactics *)

Ltac zstep1 :=
  lazymatch goal with
  | |- wp _ (mbind _ _) _ _ => apply wp_bind
  | |- wp _ (mret _) _ _ => apply wp_ret
  | |- wp _ get_zip _ _ => apply wp_get_zip
  | |- wp _ (mod_zip _) _ _ => apply wp_mod_zip
  | |- wp _ (set_error _) _ _ => apply wp_set_error
  | |- wp True (fail_if _ _) _ _ => apply wp_fail_if; [done|let H := fresh "G" in intros H]
  | |- wp True (mz_zip_set_error _) _ _ => by apply wp_zip_set_error
  | |- wp True mz_false _ _ => by apply wp_false
  | |- wp _ (MZ_READ_LE16 _ _) _ _ => apply wp_read16; [autounfold with zipc; lia|autounfold with zipc; lia|]
  | |- wp _ (MZ_READ_LE32 _ _) _ _ => apply wp_read32; [autounfold with zipc; lia|autounfold with zipc; lia|]
  | |- wp _ (MZ_READ_LE64 _ _) _ _ => apply wp_read64; [autounfold with zipc; lia|autounfold with zipc; lia|]
  | |- wp _ get_state _ _ => eapply wp_get_state; [eassumption|]
  | |- wp _ (use_env _) _ _ => apply wp_use_env; intros ? ? ?
  | |- wp _ (m_pAlloc _) _ _ => apply wp_use_env; intros ? ? ?
  end.
Ltac zsteps := repeat (zstep1; cbn beta zeta).

Section Safety.
Context {E : Type} `{ZipEnv E}.

Lemma wp_mem_read (F : Prop) ofs n (Q : bytes -> zst E -> Prop) s st mem :
  m_pState (zip s) = Some st -> m_pMem st = Some mem -> zlen mem = m_archive_size (zip s) ->
  0 <= ofs -> 0 <= n -> Q (zsub ofs n mem) s -> wp F (mz_zip_mem_read_func ofs n) Q s.
Proof.
  intros Hs Hm Hl Ho Hn HQ. unfold mz_zip_mem_read_func. zsteps.
  destruct (Z.leb_spec (m_archive_size (zip s)) ofs) as [Hle|Hlt].
  - rewrite (proj2 (Z.eqb_eq 0 0)) by done. apply wp_ret.
    unfold zsub in HQ. rewrite (zdrop_ge ofs mem) in HQ by lia.
    unfold ztake in HQ. by rewrite take_nil in HQ.
  - set (k := Z.min _ n). destruct (Z.eqb_spec k 0) as [E0|Hk].
    + apply wp_ret. assert (n = 0) as -> by lia. by rewrite zsub_zero in HQ.
    + apply wp_bind, (wp_checked _ _ mem); [done|]. apply wp_read_mem; [lia..|].
      destruct (Z.min_spec (m_archive_size (zip s) - ofs) n) as [[? Hk']|[? Hk']]; subst k.
      * rewrite Hk'. unfold zsub in *. rewrite !ztake_ge in * by (rewrite zlen_zdrop; lia). done.
      * by rewrite Hk'.
Qed.

Lemma wp_pRead (F : Prop) ofs n (Q : bytes -> zst E -> Prop) s :
  io_ok (zip s) -> 0 <= ofs -> 0 <= n -> (forall b e, Q b (Zst (zip s) e)) -> wp F (pRead ofs n) Q s.
Proof.
  intros Hio Ho Hn HQ. unfold pRead. apply wp_bind, wp_get_zip. unfold io_ok in Hio.
  destruct (m_pRead (zip s)); [done| |].
  - destruct Hio as (st & mem & Hs & Hm & Hl). apply (wp_mem_read _ _ _ _ _ st mem); try done.
    destruct s as [z e]. apply HQ.
  - apply wp_use_env. intros. apply HQ.
Qed.
Lemma wp_read_exact ofs n e0 (Q : bytes -> zst E -> Prop) s :
  io_ok (zip s) -> 0 <= ofs -> 0 <= n -> (forall b e, zlen b = n -> Q b (Zst (zip s) e)) ->
  wp True (read_exact ofs n e0) Q s.
Proof.
  intros Hio Ho Hn HQ. unfold read_exact. apply wp_bind, wp_pRead; [done..|]. intros b e.
  destruct (Z.eqb_spec (zlen b) n); [apply wp_ret; auto|by apply wp_zip_set_error].
Qed.

Lemma wp_set_zip64 f (Q : unit -> zst E -> Prop) s st :
  m_pState (zip s) = Some st ->
  (fun st => (m_central_dir st, m_central_dir_offsets st, m_sorted_central_dir_offsets st,
               m_init_flags st, m_pMem st)) (f st) =
  (m_central_dir st, m_central_dir_offsets st, m_sorted_central_dir_offsets st, m_init_flags st, m_pMem st) ->
  (forall s', view (zip s') = view (zip s) -> Q tt s') -> wp True (mod_state f) Q s.
Proof.
  intros Hs Hf HQ. apply (wp_mod_state _ st); [done|]. apply HQ. unfold view. cbn. rewrite Hs. cbn.
  cbn in Hf. by rewrite Hf.
Qed.

(** ** Finding the end of the central directory *)

Lemma scan_sig_safe k buf asz cur sig size :
  Z.of_nat k + 3 <= zlen buf \/ k = O ->
  exists i, scan_sig k buf asz cur sig size = Some i /\ -1 <= i < Z.of_nat k.
Proof.
  induction k as [|k IH]; intros Hk; cbn [scan_sig]; [exists (-1); split; [done|lia]|].
  rewrite read_le_in by lia. cbn [mbind option_bind]. destruct (_ && _).
  - exists (Z.of_nat k). split; [done|lia].
  - destruct IH as (i & -> & Hi); [lia|]. exists i. split; [done|lia].
Qed.

Lemma locate_loop_safe fuel : forall s cur sig size (Q : Z -> zst E -> Prop),
  io_ok (zip s) -> 0 <= m_archive_size (zip s) < 2 ^ 63 - 2 ^ 20 -> 0 <= size <= 100 ->
  - 2 ^ 20 < cur <= m_archive_size (zip s) -> 65535 + size + 4093 <= m_archive_size (zip s) - cur + 4093 * Z.of_nat fuel ->
  m_archive_size (zip s) - cur < 65535 + size + 4093 ->
  (forall r e, - 2 ^ 63 <= r < 2 ^ 63 -> Q r (Zst (zip s) e)) ->
  wp True (locate_loop fuel cur sig size) Q s.
Proof.
  induction fuel as [|fuel IH]; intros s cur sig size Q Hio Ha Hs Hc Hf Hd HQ; [lia|]. cbn [locate_loop].
  zsteps. set (n := s32 _).
  assert (Hn : n = Z.min 4096 (m_archive_size (zip s) - cur)).
  { unfold n. rewrite w64_id by lia. apply s32_id. lia. }
  apply wp_pRead; [done|apply w64_range|lia|]. intros b e. cbn beta.
  destruct (Z.eqb_spec (zlen b) n) as [Hb|Hb]; cbn [negb]; [|by apply wp_false].
  destruct (scan_sig_safe (Z.to_nat (n - 3)) b (m_archive_size (zip s)) cur sig size) as (i & Ei & Hi); [lia|].
  apply wp_bind, (wp_checked _ _ i); [done|]. destruct (Z.leb_spec 0 i) as [Hi0|Hi0].
  { apply wp_ret, HQ. rewrite s64_id by lia. lia. }
  destruct (_ || _) eqn:Eo; [by apply wp_false|]. apply orb_false_iff in Eo as [Ec Ed].
  apply Z.leb_gt in Ed. rewrite w64_id in Ed by lia. unfold MZ_UINT16_MAX in Ed.
  rewrite Z.max_l by (apply w64_range). assert (s64 (w64 (cur - (4096 - 3))) = cur - 4093) as -> by (apply s64_w64; lia).
  apply IH; cbn; try lia; done.
Qed.

Lemma locate_header_sig_safe sig size (Q : Z -> zst E -> Prop) s :
  io_ok (zip s) -> 0 <= m_archive_size (zip s) < 2 ^ 63 - 2 ^ 20 -> 0 <= size <= 100 ->
  (forall r e, - 2 ^ 63 <= r < 2 ^ 63 -> Q r (Zst (zip s) e)) ->
  wp True (mz_zip_reader_locate_header_sig sig size) Q s.
Proof.
  intros Hio Ha Hs HQ. unfold mz_zip_reader_locate_header_sig. zsteps.
  destruct (Z.ltb_spec (m_archive_size (zip s)) size); [by apply wp_false|].
  rewrite s64_id by lia. apply locate_loop_safe; try done; try lia.
Qed.

Lemma le_val_sub (b : bytes) o k : 0 <= o -> 0 <= k -> 0 <= le_val (zsub o k b) < 256 ^ k.
Proof.
  intros Ho Hk. pose proof (le_val_range (zsub o k b)) as [R1 R2]. split; [done|].
  eapply Z.lt_le_trans; [exact R2|]. apply Z.pow_le_mono_r; [lia|].
  unfold zsub. rewrite zlen_ztake by lia. lia.
Qed.

Lemma read_zip64_locator_safe cur (Q : bytes * bytes -> zst E -> Prop) s st :
  io_ok (zip s) -> m_pState (zip s) = Some st ->
  (forall loc hdr s', zlen loc = 20 -> zlen hdr = 56 -> view (zip s') = view (zip s) -> Q (loc, hdr) s') ->
  wp True (read_zip64_locator cur) Q s.
Proof.
  intros Hio Hs HQ. unfold read_zip64_locator. zsteps.
  destruct (Z.leb_spec (MZ_ZIP64_END_OF_CENTRAL_DIR_LOCATOR_SIZE + MZ_ZIP64_END_OF_CENTRAL_DIR_HEADER_SIZE) cur)
    as [Hc|Hc]; cbn [negb]; [|by apply wp_ret, HQ]. autounfold with zipc in Hc.
  zsteps. apply wp_pRead; [done|autounfold with zipc; lia|autounfold with zipc; lia|]. intros loc e. cbn beta.
  destruct (Z.eqb_spec (zlen loc) MZ_ZIP64_END_OF_CENTRAL_DIR_LOCATOR_SIZE) as [Hl|Hl]; cbn [negb]; [|by apply wp_ret, HQ].
  autounfold with zipc in Hl. zsteps. destruct (negb _); [by apply wp_ret, HQ|].
  zsteps. apply wp_pRead; [done|by apply le_val_range|done|]. intros hdr e'. cbn beta.
  destruct (Z.eqb_spec (zlen hdr) MZ_ZIP64_END_OF_CENTRAL_DIR_HEADER_SIZE) as [Hh|Hh]; cbn [negb]; [|by apply wp_ret, HQ].
  autounfold with zipc in Hh. zsteps. destruct (_ =? _); [|by apply wp_ret, HQ].
  zsteps. apply (wp_set_zip64 _ _ _ st); [done|done|]. intros s' Hv. zsteps. apply HQ; done.
Qed.
(** ** Loading the central directory *)

Lemma find_zip64_field_safe fuel : forall b o rem (Q : unit -> zst E -> Prop) s st,
  m_pState (zip s) = Some st -> 0 <= o -> 0 <= rem < Z.of_nat fuel -> o + rem <= zlen b ->
  (forall s', view (zip s') = view (zip s) -> Q tt s') ->
  wp True (find_zip64_field fuel b o rem) Q s.
Proof.
  induction fuel as [|fuel IH]; intros b o rem Q s st Hs Ho Hr Hl HQ; [lia|]. cbn [find_zip64_field].
  zsteps. apply Z.ltb_ge in G. zsteps. apply Z.ltb_ge in G0.
  pose proof (le_val_sub b (o + 2) 2).
  destruct (_ =? _).
  - apply (wp_set_zip64 _ _ _ st); done.
  - cbn zeta. destruct (Z.eqb_spec (rem - 2 * 2 - le_val (zsub (o + 2) 2 b)) 0) as [|Hn]; [by apply wp_ret, HQ|].
    apply (IH _ _ _ _ _ st); try done; lia.
Qed.

Lemma check_zip64_extra_safe info p n nl xl (Q : unit -> zst E -> Prop) s st :
  io_ok (zip s) -> m_pState (zip s) = Some st -> 0 <= p -> 0 <= n -> 0 <= nl -> 0 <= xl ->
  p + n <= zlen (m_p (m_central_dir st)) ->
  (forall s', view (zip s') = view (zip s) -> Q tt s') ->
  wp True (check_zip64_extra info p n nl xl) Q s.
Proof.
  intros Hio Hs Hp Hn Hnl Hxl Hl HQ. unfold check_zip64_extra. zsteps.
  destruct (Z.ltb_spec n (MZ_ZIP_CENTRAL_DIR_HEADER_SIZE + nl + xl)) as [Hb|Hb]; autounfold with zipc in Hb.
  - zsteps. apply wp_read_exact; [done|apply w64_range|lia|]. intros b e' Hbl. cbn beta.
    apply (find_zip64_field_safe _ _ _ _ _ _ st); try done; lia.
  - apply (find_zip64_field_safe _ _ _ _ _ _ st); try done; autounfold with zipc; lia.
Qed.

(** The three lengths behind a record's fixed part. *)
Definition extra_len (cd : bytes) (p : Z) : Z := le_val (zsub (p + MZ_ZIP_CDH_EXTRA_LEN_OFS) 2 cd).
Definition comment_len (cd : bytes) (p : Z) : Z := le_val (zsub (p + MZ_ZIP_CDH_COMMENT_LEN_OFS) 2 cd).
Definition record_size (cd : bytes) (p : Z) : Z :=
  MZ_ZIP_CENTRAL_DIR_HEADER_SIZE + name_len cd p + extra_len cd p + comment_len cd p.
Definition record_full (cd : bytes) (p : Z) : Prop :=
  0 <= p /\ p + MZ_ZIP_CENTRAL_DIR_HEADER_SIZE <= zlen cd /\ p + record_size cd p <= zlen cd.

Lemma lens_range cd p :
  0 <= p -> 0 <= name_len cd p < 65536 /\ 0 <= extra_len cd p < 65536 /\ 0 <= comment_len cd p < 65536.
Proof.
  intros Hp. unfold name_len, extra_len, comment_len. autounfold with zipc.
  split_and!; apply (le_val_sub cd _ 2); lia.
Qed.

(** What a round of the loop over the records does: everything but the two
    arrays is as before, and these have their entry for the record. *)
Definition entered (sort : bool) (i p : Z) (z z' : mz_zip_archive) : Prop :=
  exists st st', m_pState z = Some st /\ m_pState z' = Some st' /\
    m_archive_size z' = m_archive_size z /\ m_total_files z' = m_total_files z /\
    m_zip_mode z' = m_zip_mode z /\ m_pRead z' = m_pRead z /\
    m_central_dir st' = m_central_dir st /\ m_init_flags st' = m_init_flags st /\ m_pMem st' = m_pMem st /\
    m_p (m_central_dir_offsets st') = zset (m_p (m_central_dir_offsets st)) i p /\
    m_p (m_sorted_central_dir_offsets st') =
      (if sort then zset (m_p (m_sorted_central_dir_offsets st)) i i else m_p (m_sorted_central_dir_offsets st)) /\
    m_size (m_sorted_central_dir_offsets st') = m_size (m_sorted_central_dir_offsets st).

Lemma entered_view sort i p z z1 z2 : entered sort i p z z1 -> view z2 = view z1 -> entered sort i p z z2.
Proof.
  intros (st & st1 & Hs & Hs1 & H1 & H2 & H3 & H4 & H5 & H6 & H7 & H8 & H9 & H10) Hv.
  destruct (view_state z1 z2 st1 Hv Hs1) as (st2 & Hs2 & E1 & E2 & E3 & E4 & E5).
  exists st, st2. unfold view in Hv. inversion Hv.
  split_and!; congruence.
Qed.
Lemma entered_io sort i p z z' : entered sort i p z z' -> io_ok z -> io_ok z'.
Proof.
  intros (st & st' & Hs & Hs' & H1 & _ & _ & H4 & _ & _ & H7 & _) Hio. unfold io_ok in *. rewrite H4.
  destruct (m_pRead z); [done| |].
  - destruct Hio as (st0 & mem & Hs0 & Hm & Hl). exists st', mem. split_and!; [done| |congruence]. rewrite H7. congruence.
  - intros st0 Hs0. assert (st0 = st') as -> by congruence. rewrite H7. auto.
Qed.

Lemma entered_both sort i p z z' : entered sort i p z z' -> io_ok z -> entered sort i p z z' /\ io_ok z'.
Proof. intros En Hio. split; [done|]. by apply (entered_io sort i p z). Qed.

Lemma array_set_in {A} (a : mz_zip_array A) i (x : A) :
  0 <= i < zlen (m_p a) -> array_set a i x = Some {| m_p := zset (m_p a) i x; m_size := m_size a |}.
Proof. intros. unfold array_set. by rewrite (proj2 (Z.leb_le 0 i)), (proj2 (Z.ltb_lt i _)) by lia. Qed.

Lemma check_record_safe info sort i p n (Q : Z -> zst E -> Prop) s st :
  io_ok (zip s) -> m_pState (zip s) = Some st -> 0 <= p < 2 ^ 32 -> 0 <= n ->
  p + n <= zlen (m_p (m_central_dir st)) -> 0 <= i < zlen (m_p (m_central_dir_offsets st)) ->
  (sort = true -> i < zlen (m_p (m_sorted_central_dir_offsets st))) ->
  (forall s', entered sort i p (zip s) (zip s') -> record_size (m_p (m_central_dir st)) p <= n ->
     Q (record_size (m_p (m_central_dir st)) p) s') ->
  wp True (check_record info sort i p n) Q s.
Proof.
  intros Hio Hs Hp Hn Hl Hi Hi' HQ. unfold check_record. set (cd := m_p (m_central_dir st)) in *. zsteps.
  apply Z.ltb_ge in G. autounfold with zipc in G. fold cd. zsteps.
  rewrite (w32_id p), array_set_in by done. apply (wp_checked _ _ _ _ _ eq_refl). cbn beta.
  apply wp_bind, (wp_mod_state _ st); [done|]. cbn beta.
  set (s1 := with_zip _ s).
  apply wp_bind, (wp_mono _ _ (fun _ s2 => entered sort i p (zip s) (zip s2) /\ io_ok (zip s2))).
  { destruct sort.
    - rewrite array_set_in by (specialize (Hi' eq_refl); lia).
      apply wp_bind, (wp_checked _ _ _ _ _ eq_refl). eapply wp_mod_state; [reflexivity|].
      apply entered_both; [|done]. exists st. eexists. split; [done|]. split; [done|]. by split_and!.
    - apply wp_ret, entered_both; [|done]. exists st. eexists. split; [done|]. split; [done|]. by split_and!. }
  intros _ s2 [En Hio2]. pose proof En as (st0 & st2 & Hs0 & Hs2 & _ & _ & _ & _ & Hcd & _).
  assert (st0 = st) as -> by congruence. zsteps.
  fold (name_len cd p). fold (extra_len cd p).
  destruct (lens_range cd p ltac:(lia)) as (N1 & N2 & N3).
  apply (wp_mono _ _ (fun _ s3 => entered sort i p (zip s) (zip s3) /\ io_ok (zip s3))).
  { destruct (_ && _).
    - apply (check_zip64_extra_safe _ _ _ _ _ _ _ st2); try done; try lia.
      + rewrite Hcd. fold cd. lia.
      + intros s3 Hv. split; [by apply (entered_view sort i p (zip s) (zip s2))|by apply (io_ok_view (zip s2))].
    - by apply wp_ret. }
  intros _ s3 [En3 Hio3]. zsteps. fold (comment_len cd p) in *. apply Z.ltb_ge in G5. apply HQ; done.
Qed.
(** The arrays after [i] records: offsets of records inside the directory [cd],
    the identity in the index array. *)
Definition listed (sort : bool) (cd : bytes) (i total : Z) (z : mz_zip_archive) : Prop :=
  exists st, m_pState z = Some st /\ m_p (m_central_dir st) = cd /\
    m_total_files z = total /\ zlen (m_p (m_central_dir_offsets st)) = total /\
    (sort = true -> zlen (m_p (m_sorted_central_dir_offsets st)) = total /\
       m_size (m_sorted_central_dir_offsets st) = total /\
       forall j, 0 <= j < i -> znth 0 (m_p (m_sorted_central_dir_offsets st)) j = j) /\
    (forall j, 0 <= j < i -> record_full cd (znth 0 (m_p (m_central_dir_offsets st)) j)).

(** The mode and the flags the archive was opened with. *)
Definition opened (mode : mz_zip_mode) (flags : Z) (z : mz_zip_archive) : Prop :=
  m_zip_mode z = mode /\ exists st, m_pState z = Some st /\ m_init_flags st = flags.

Lemma listed_entered sort cd i total p z z' :
  listed sort cd i total z -> 0 <= i < total -> record_full cd p -> entered sort i p z z' ->
  listed sort cd (i + 1) total z'.
Proof.
  intros (st & Hs & Hcd & Ht & Ho & Hso & Hr) Hi Hp
    (st0 & st' & Hs0 & Hs' & _ & H2 & _ & _ & H5 & _ & _ & H8 & H9 & H10).
  assert (st0 = st) as -> by congruence. exists st'. split; [done|]. split; [by rewrite H5|].
  split; [congruence|]. split; [by rewrite H8, zlen_zset|]. split.
  - intros ->. destruct (Hso eq_refl) as (L & M & J). split; [by rewrite H9, zlen_zset|].
    split; [by rewrite H10|]. intros j Hj. rewrite H9. destruct (decide (j = i)) as [->|].
    + by rewrite znth_zset_eq by lia.
    + rewrite znth_zset_ne by lia. apply J. lia.
  - intros j Hj. rewrite H8. destruct (decide (j = i)) as [->|].
    + by rewrite znth_zset_eq by lia.
    + rewrite znth_zset_ne by lia. apply Hr. lia.
Qed.
Lemma opened_entered sort mode flags i p z z' : opened mode flags z -> entered sort i p z z' -> opened mode flags z'.
Proof.
  intros (Hm & st & Hs & Hf) (st0 & st' & Hs0 & Hs' & _ & _ & H3 & _ & _ & H6 & _).
  split; [congruence|]. exists st'. split; [done|]. congruence.
Qed.

Lemma check_records_safe k : forall info sort cd total mode flags i p n (Q : unit -> zst E -> Prop) s,
  io_ok (zip s) -> listed sort cd i total (zip s) -> opened mode flags (zip s) -> total = i + Z.of_nat k -> 0 <= i ->
  0 <= p -> 0 <= n -> p + n <= zlen cd -> p + n < 2 ^ 32 ->
  (forall s', io_ok (zip s') -> listed sort cd total total (zip s') -> opened mode flags (zip s') -> Q tt s') ->
  wp True (check_records k info sort i p n) Q s.
Proof.
  induction k as [|k IH]; intros info sort cd total mode flags i p n Q s Hio HL HO Ht Hi Hp Hn Hpn H32 HQ;
    cbn [check_records].
  { apply wp_ret, HQ; [done| |done]. by replace i with total in HL by lia. }
  pose proof HL as (st & Hs & Hcd & Htot & Hoff & Hso & Hr).
  apply wp_bind, (check_record_safe _ _ _ _ _ _ _ st); try done; try lia.
  - by rewrite Hcd.
  - intros Hsort. destruct (Hso Hsort) as (-> & _). lia.
  - rewrite Hcd. intros s' En Hrs.
    destruct (lens_range cd p Hp) as (N1 & N2 & N3).
    assert (46 <= record_size cd p) by (unfold record_size; autounfold with zipc; lia).
    apply (IH info sort cd total mode flags); try lia; try done.
    + by apply (entered_io sort i p (zip s)).
    + apply (listed_entered sort cd i total p (zip s)); try done; [lia|].
      split; [done|]. autounfold with zipc. lia.
    + by apply (opened_entered sort mode flags i p (zip s)).
Qed.

(** ** Allocating the arrays *)

Lemma wp_resize_empty {A} (fresh : A) sz n (Q : mz_zip_array A -> zst E -> Prop) s (F : Prop) :
  0 <= n -> F ->
  (forall p e, zlen p = n -> Q {| m_p := p; m_size := n |} (Zst (zip s) e)) ->
  wp F (mz_zip_array_resize fresh sz mz_zip_array_init n false) Q s.
Proof.
  intros Hn HF HQ. unfold mz_zip_array_resize, m_capacity, mz_zip_array_init at 1. cbn [m_p].
  change (zlen (@nil A)) with 0. apply wp_bind. destruct (Z.ltb_spec 0 n) as [Hp|Hp].
  - unfold mz_zip_array_ensure_capacity, m_capacity, mz_zip_array_init. cbn [m_p].
    change (zlen (@nil A)) with 0. rewrite (proj2 (Z.leb_gt n 0)) by lia.
    apply wp_bind, wp_ret. apply wp_bind, wp_use_env. intros ok e _. destruct ok.
    + apply wp_ret, wp_ret. cbn [m_p]. apply HQ. by rewrite zlen_zresize by lia.
    + by apply wp_false.
  - assert (n = 0) as -> by lia. apply wp_ret, wp_ret. destruct s as [z e]. by apply (HQ [] e).
Qed.

(** Before loading: a fresh state whose arrays are empty. *)
Definition fresh_arrays (z : mz_zip_archive) : Prop :=
  exists st, m_pState z = Some st /\ m_central_dir st = mz_zip_array_init /\
    m_central_dir_offsets st = mz_zip_array_init /\ m_sorted_central_dir_offsets st = mz_zip_array_init.

Lemma io_ok_state z z' st st' :
  m_pState z = Some st -> m_pState z' = Some st' -> m_pRead z' = m_pRead z ->
  m_archive_size z' = m_archive_size z -> m_pMem st' = m_pMem st -> io_ok z -> io_ok z'.
Proof.
  intros Hs Hs' Hr Ha Hm Hio. unfold io_ok in *. rewrite Hr. destruct (m_pRead z); [done| |].
  - destruct Hio as (st0 & mem & Hs0 & Hm0 & Hl). exists st', mem. split_and!; congruence.
  - intros st0 Hs0. assert (st0 = st') as -> by congruence. rewrite Hm. auto.
Qed.

Lemma load_central_dir_safe info sort mode flags (Q : unit -> zst E -> Prop) s :
  io_ok (zip s) -> fresh_arrays (zip s) -> opened mode flags (zip s) ->
  0 <= cdir_size info -> 0 <= cdir_ofs info -> 0 <= m_total_files (zip s) ->
  (forall s' cd, io_ok (zip s') -> zlen cd = cdir_size info -> opened mode flags (zip s') ->
     listed sort cd 0 (m_total_files (zip s)) (zip s') -> Q tt s') ->
  wp True (load_central_dir info sort) Q s.
Proof.
  intros Hio (st & Hs & A1 & A2 & A3) (Hmode & st0 & Hs0 & Hflags) Hc Ho Ht HQ. unfold load_central_dir.
  assert (st0 = st) as -> by congruence.
  zsteps. apply wp_try. unfold resize_central_dir, resize_central_dir_offsets, resize_sorted_offsets.
  zsteps. rewrite A1. apply wp_resize_empty; [done|cbn; intros; zsteps; discriminate|]. intros p1 e1 L1. zsteps.
  eapply wp_mod_state; [exact Hs|]. zsteps. eapply wp_get_state; [reflexivity|]. zsteps.
  cbn [set_m_central_dir m_central_dir_offsets]. rewrite A2.
  apply wp_resize_empty; [done|cbn; intros; zsteps; discriminate|]. intros p2 e2 L2. zsteps.
  eapply wp_mod_state; [reflexivity|]. zsteps. clear G.
  set (z2 := set_m_pState _ _). set (s2 := Zst _ _).
  apply (wp_mono _ _ (fun _ s3 => exists st3, m_pState (zip s3) = Some st3 /\ io_ok (zip s3) /\
     m_central_dir st3 = {| m_p := p1; m_size := cdir_size info |} /\
     m_p (m_central_dir_offsets st3) = p2 /\ m_zip_mode (zip s3) = mode /\ m_init_flags st3 = flags /\
     m_total_files (zip s3) = m_total_files (zip s) /\
     (sort = true -> zlen (m_p (m_sorted_central_dir_offsets st3)) = m_total_files (zip s) /\
       m_size (m_sorted_central_dir_offsets st3) = m_total_files (zip s)))).
  { destruct sort.
    - zsteps. apply wp_try. eapply wp_bind, wp_get_state; [reflexivity|]. zsteps.
      cbn [set_m_central_dir set_m_central_dir_offsets m_sorted_central_dir_offsets]. rewrite A3.
      apply wp_resize_empty; [done|cbn; intros; zsteps; discriminate|]. intros p3 e3 L3. zsteps.
      eapply wp_mod_state; [reflexivity|]. zsteps.
      eexists. split; [reflexivity|]. split; [|by split_and!].
      eapply (io_ok_state (zip s) _ st); [exact Hs|reflexivity|done..].
    - apply wp_ret. eexists. split; [reflexivity|]. split; [|by split_and!].
      eapply (io_ok_state (zip s) _ st); [exact Hs|reflexivity|done..]. }
  intros _ s3 (st3 & Hs3 & Hio3 & C3 & O3 & M3 & F3 & T3 & S3). zsteps.
  apply wp_read_exact; [done..|]. intros b e Hb. zsteps. rewrite C3. cbn [m_p].
  apply (wp_checked _ _ (zsplice 0 b p1)).
  { unfold mem_copy. cbn [Z.leb]. rewrite (proj2 (Z.leb_le _ (zlen p1))) by lia. done. }
  zsteps. eapply wp_mod_state; [exact Hs3|].
  eapply (HQ _ (zsplice 0 b p1)).
  - eapply (io_ok_state (zip s3) _ st3); [exact Hs3|reflexivity|done..].
  - rewrite zlen_zsplice by lia. done.
  - split; [done|]. eexists. split; [reflexivity|done].
  - eexists. split; [reflexivity|]. cbn. split; [done|]. split; [done|]. split; [by rewrite O3|]. split.
    + intros Hsort. destruct (S3 Hsort). split_and!; try done. intros; lia.
    + intros; lia.
Qed.
(** ** Opening an archive *)

Lemma read_end_record_safe buf loc hdr (Q : cdir_info -> zst E -> Prop) s st :
  m_pState (zip s) = Some st -> zlen buf = 22 -> zlen loc = 20 -> zlen hdr = 56 ->
  (forall info total e, 0 <= total < 2 ^ 32 -> 0 <= cdir_size info < 2 ^ 32 -> 0 <= cdir_ofs info ->
     Q info (Zst (set_m_total_files total (zip s)) e)) ->
  wp True (read_end_record buf loc hdr) Q s.
Proof.
  intros Hs Hb Hl Hh HQ. unfold read_end_record. zsteps.
  pose proof (le_val_sub buf MZ_ZIP_ECDH_CDIR_TOTAL_ENTRIES_OFS 2 ltac:(done) ltac:(done)) as T.
  pose proof (le_val_sub buf MZ_ZIP_ECDH_CDIR_SIZE_OFS 4 ltac:(done) ltac:(done)) as C.
  pose proof (le_val_sub buf MZ_ZIP_ECDH_CDIR_OFS_OFS 4 ltac:(done) ltac:(done)) as O.
  change (256 ^ 2) with 65536 in T. change (256 ^ 4) with (2 ^ 32) in C, O.
  destruct (m_zip64 st); cbn [negb].
  - zsteps. eapply (HQ _ (w32 _)); [apply w32_range|apply w32_range|]. cbn [cdir_ofs]. apply le_val_range.
  - apply wp_ret, HQ; cbn [cdir_size cdir_ofs]; lia.
Qed.

(** The sorted index array of an open archive: a permutation of the record
    numbers along which the lower-cased names ascend. *)
Definition sorted_ok (st : mz_zip_internal_state) (total : Z) : Prop :=
  let ix := m_p (m_sorted_central_dir_offsets st) in
  zlen ix = total /\ m_size (m_sorted_central_dir_offsets st) = total /\
  (forall j, 0 <= j < total -> 0 <= znth 0 ix j < total) /\
  (forall j, 0 <= j < total -> exists i, 0 <= i < total /\ znth 0 ix i = j) /\
  (forall i j, 0 <= i < j -> j < total ->
     entry_lt (m_central_dir st) (m_central_dir_offsets st) (znth 0 ix j) (znth 0 ix i) = false).

Definition sorts (flags : Z) : bool := negb (has_flag flags MZ_ZIP_FLAG_DO_NOT_SORT_CENTRAL_DIRECTORY).

(** An archive opened for reading. *)
Definition reader_ok (flags : Z) (z : mz_zip_archive) : Prop :=
  exists st, m_pState z = Some st /\ m_zip_mode z = MZ_ZIP_MODE_READING /\ m_init_flags st = flags /\ io_ok z /\
    0 <= m_total_files z < 2 ^ 32 /\ m_total_files z <= zlen (m_p (m_central_dir_offsets st)) /\
    (forall i, 0 <= i < m_total_files z -> record_full (m_p (m_central_dir st)) (znth 0 (m_p (m_central_dir_offsets st)) i)) /\
    (sorts flags = true -> sorted_ok st (m_total_files z)).

Lemma record_full_in cd p : record_full cd p -> record_in cd p.
Proof.
  intros (H1 & H2 & H3). destruct (lens_range cd p H1) as (N1 & N2 & N3).
  split; [done|]. split; [done|]. unfold record_size in H3. autounfold with zipc in *. lia.
Qed.

Lemma sort_safe (Q : unit -> zst E -> Prop) s cd total flags :
  io_ok (zip s) -> listed true cd total total (zip s) -> opened MZ_ZIP_MODE_READING flags (zip s) -> 0 <= total < 2 ^ 32 ->
  (forall s', reader_ok flags (zip s') -> Q tt s') ->
  wp True mz_zip_reader_sort_central_dir_offsets_by_filename Q s.
Proof.
  intros Hio (st & Hs & Hcd & Ht & Ho & Hso & Hr) (Hmode & st0 & Hs0 & Hf) Htot HQ.
  assert (st0 = st) as -> by congruence. destruct (Hso eq_refl) as (L & M & J).
  unfold mz_zip_reader_sort_central_dir_offsets_by_filename. zsteps. rewrite Ht.
  set (ix := m_p (m_sorted_central_dir_offsets st)) in *.
  assert (V : forall i, 0 <= i < total -> entry_ok (m_central_dir st) (m_central_dir_offsets st) i).
  { intros i Hi. split; [lia|]. rewrite Hcd. by apply record_full_in, Hr. }
  destruct (sort_indices_spec (m_central_dir st) (m_central_dir_offsets st)
              (entry_ok (m_central_dir st) (m_central_dir_offsets st))
              (entry_lt (m_central_dir st) (m_central_dir_offsets st))
              (filename_less_spec _ _) (entry_lt_asym _ _) (entry_le_trans _ _) ix total)
    as (ix' & E' & Sh & Ts); [lia| |].
  { intros i Hi. rewrite J by done. by apply V. }
  apply (wp_checked _ _ ix' _ _ E'). zsteps. eapply wp_mod_state; [exact Hs|]. apply HQ.
  eexists. split; [reflexivity|]. cbn. split; [done|]. split; [done|]. split.
  { eapply (io_ok_state (zip s) _ st); [exact Hs|reflexivity|done..]. }
  rewrite Ht, Hcd. split; [lia|]. split; [lia|]. split; [done|]. intros _.
  assert (Hin : forall j, 0 <= j < total -> 0 <= znth 0 ix' j < total).
  { intros j Hj. destruct (sh_in _ _ _ Sh j Hj) as (k & Hk & ->). rewrite J; done. }
  split; [cbn; by rewrite (sh_len _ _ _ Sh)|]. cbn. split; [done|]. split; [done|]. split.
  - intros j Hj. assert (Hx : j ∈ ix').
    { rewrite (sh_perm _ _ _ Sh). apply list_elem_of_lookup. exists (Z.to_nat j).
      rewrite (lookup_znth 0) by lia. by rewrite J. }
    apply list_elem_of_lookup in Hx as [k Hk]. exists (Z.of_nat k). pose proof (lookup_lt_Some _ _ _ Hk).
    pose proof (sh_len _ _ _ Sh) as Hl. unfold zlen in *. split; [lia|].
    unfold znth. rewrite Nat2Z.id, nth_lookup, Hk. done.
  - intros i j Hi Hj. apply (proj1 Ts); lia.
Qed.

Lemma read_central_dir_safe flags (Q : unit -> zst E -> Prop) s :
  io_ok (zip s) -> fresh_arrays (zip s) -> opened MZ_ZIP_MODE_READING flags (zip s) ->
  0 <= m_archive_size (zip s) < 2 ^ 63 - 2 ^ 20 ->
  (forall s', reader_ok flags (zip s') -> Q tt s') ->
  wp True (mz_zip_reader_read_central_dir flags) Q s.
Proof.
  intros Hio Hfr Hop Ha HQ. pose proof Hfr as (st & Hs & A1 & A2 & A3).
  unfold mz_zip_reader_read_central_dir. fold (sorts flags). zsteps.
  apply (wp_mono _ _ (fun r s1 => zip s1 = zip s /\ - 2 ^ 63 <= r < 2 ^ 63)).
  { pose proof (locate_header_sig_safe MZ_ZIP_END_OF_CENTRAL_DIR_HEADER_SIG MZ_ZIP_END_OF_CENTRAL_DIR_HEADER_SIZE
      (fun r s1 => zip s1 = zip s /\ - 2 ^ 63 <= r < 2 ^ 63) s) as L. unfold wp in *.
    destruct (mz_zip_reader_locate_header_sig _ _ s) as [[r| |] s1]; [| done|].
    - apply L; done.
    - apply L; done. }
  intros cur s1 [Hz1 Hcur]. zsteps. rewrite <- Hz1 in *. clear s Hz1.
  apply wp_read_exact; [done|apply w64_range|done|]. intros buf e Hb. autounfold with zipc in Hb. zsteps.
  apply (read_zip64_locator_safe _ _ _ st); [done|done|]. intros loc hdr s2 Hloc Hhdr Hv2. cbn in Hv2. zsteps.
  destruct (view_state (zip s1) (zip s2) st Hv2 Hs) as (st2 & Hs2 & B1 & B2 & B3 & B4 & B5).
  assert (Hio2 : io_ok (zip s2)) by by apply (io_ok_view (zip s1)).
  assert (Hop2 : opened MZ_ZIP_MODE_READING flags (zip s2)).
  { destruct Hop as (Hm & st0 & Hs0 & Hf). assert (st0 = st) as -> by congruence.
    split; [unfold view in Hv2; congruence|]. exists st2. split; [done|]. congruence. }
  assert (Hfr2 : fresh_arrays (zip s2)) by (exists st2; split_and!; congruence).
  apply (read_end_record_safe _ _ _ _ _ st2); [done..|]. intros info total e2 Htot Hcs Hco. zsteps.
  cbn [zip m_total_files set_m_total_files m_archive_size].
  set (s3 := with_zip _ _).
  assert (Hio3 : io_ok (zip s3)) by (eapply (io_ok_state (zip s2) _ st2); [exact Hs2|exact Hs2|done..]).
  apply (wp_mono _ _ (fun _ s4 => io_ok (zip s4) /\ opened MZ_ZIP_MODE_READING flags (zip s4) /\
     exists cd, listed (sorts flags) cd total total (zip s4))).
  { destruct (Z.eqb_spec total 0) as [->|Hne]; cbn [negb].
    - apply wp_ret. split; [done|]. split; [done|]. exists [].
      destruct Hfr2 as (st0 & Hs0 & F1 & F2 & F3). exists st0. split; [done|].
      rewrite F1, F2, F3. cbn. split_and!; try done; intros; try lia. split_and!; done || (intros; lia).
    - zsteps. apply (load_central_dir_safe _ _ MZ_ZIP_MODE_READING flags); [done|done|done|lia|lia| |].
      { cbn. lia. }
      intros s5 cd Hio5 Hcd Hop5 HL5.
      apply (check_records_safe _ _ _ cd total MZ_ZIP_MODE_READING flags); try done; try lia. eauto. }
  intros _ s4 (Hio4 & Hop4 & cd & HL). destruct (sorts flags) eqn:Ef.
  - apply (sort_safe _ _ cd total flags); done.
  - apply wp_ret, HQ. destruct HL as (st4 & Hs4 & Hcd & Ht & Ho & _ & Hr), Hop4 as (Hm4 & st0 & Hs0 & Hf4).
    assert (st0 = st4) as -> by congruence. exists st4. rewrite Ht, Hcd, Ho, Ef. split_and!; done || lia.
Qed.

(** A zeroed archive structure, with what a user sets in it. *)
Definition closed (z : mz_zip_archive) : Prop := m_pState z = None /\ m_zip_mode z = MZ_ZIP_MODE_INVALID.

Lemma init_internal_safe flags (Q : unit -> zst E -> Prop) s (F : Prop) :
  closed (zip s) -> (forall e n e', user_alloc e n = (false, e') -> F) ->
  (forall z e, m_archive_size z = 0 -> m_total_files z = 0 -> opened MZ_ZIP_MODE_READING flags z -> fresh_arrays z ->
     m_pRead z = m_pRead (zip s) -> (exists st, m_pState z = Some st /\ m_zip64 st = false /\
     m_zip64_has_extended_info_fields st = false /\ m_pMem st = None) -> Q tt (Zst z e)) ->
  wp F (mz_zip_reader_init_internal flags) Q s.
Proof.
  intros [Hs Hm] HF HQ. unfold mz_zip_reader_init_internal. apply wp_bind, wp_get_zip, wp_bind.
  rewrite Hs, Hm. apply wp_fail_if; [done|]. intros _. apply wp_bind, wp_mod_zip. cbn beta.
  apply wp_bind, wp_use_env. intros ok e Ha. apply wp_bind. destruct ok.
  - apply wp_fail_if; [done|]. intros _. apply wp_bind, wp_mod_zip. cbn beta. apply wp_mod_zip. apply HQ; try done.
    + split; [done|]. eexists. split; [reflexivity|done].
    + eexists. split; [reflexivity|done].
    + eexists. split; [reflexivity|done].
  - apply wp_fail_if; [intros _; exact (HF _ _ _ Ha)|done].
Qed.

Lemma end_internal_safe b (Q : unit -> zst E -> Prop) s :
  (forall s', Q tt s') -> wp True (mz_zip_reader_end_internal b) Q s.
Proof.
  intros HQ. unfold mz_zip_reader_end_internal. zsteps. destruct (_ || _).
  - destruct b; zsteps; done.
  - zsteps. apply HQ.
Qed.

Lemma finish_init_safe flags (Q : unit -> zst E -> Prop) s :
  io_ok (zip s) -> fresh_arrays (zip s) -> opened MZ_ZIP_MODE_READING flags (zip s) ->
  0 <= m_archive_size (zip s) < 2 ^ 63 - 2 ^ 20 ->
  (forall s', reader_ok flags (zip s') -> Q tt s') ->
  wp True (finish_init flags) Q s.
Proof.
  intros Hio Hfr Hop Ha HQ. unfold finish_init. apply wp_bind, wp_try.
  apply (wp_weaken _ True _ (fun _ s' => reader_ok flags (zip s'))).
  - by apply read_central_dir_safe.
  - intros _ s2. apply wp_bind, wp_try, (wp_weaken _ True _ (fun _ _ => True)); [by apply end_internal_safe|by intros _ ?|by intros _ ? _].
  - intros _ s' R. apply wp_ret, HQ, R.
Qed.

Lemma init_internal_flags flags (Q : unit -> zst E -> Prop) s :
  closed (zip s) ->
  (forall z e, opened MZ_ZIP_MODE_READING flags z -> fresh_arrays z -> m_pRead z = m_pRead (zip s) ->
     (forall st, m_pState z = Some st -> m_pMem st = None) -> Q tt (Zst z e)) ->
  wp True (mz_zip_reader_init_internal flags) Q s.
Proof. intros Hc HQ. apply init_internal_safe; [done|done|]. intros z e _ _ Ho Hf Hr (st & Hs & _ & _ & Hp).
  apply HQ; try done. intros st0 Hs0. congruence. Qed.

Lemma init_safe size flags (Q : unit -> zst E -> Prop) s :
  closed (zip s) -> m_pRead (zip s) <> IO_MEM -> 0 <= size < 2 ^ 63 - 2 ^ 20 ->
  (forall s', reader_ok flags (zip s') -> Q tt s') -> wp True (mz_zip_reader_init size flags) Q s.
Proof.
  intros Hc Hr Hsz HQ. unfold mz_zip_reader_init. zsteps. apply init_internal_flags; [done|].
  intros z e (Hm & st & Hs & Hf) Hfr Hrd Hp. zsteps. apply finish_init_safe; try done.
  - unfold io_ok. cbn. rewrite Hrd. by destruct (m_pRead (zip s)).
  - split; [done|]. by exists st.
Qed.

Lemma init_mem_safe pMem flags (Q : unit -> zst E -> Prop) s :
  closed (zip s) -> zlen pMem < 2 ^ 63 - 2 ^ 20 ->
  (forall s', reader_ok flags (zip s') -> Q tt s') -> wp True (mz_zip_reader_init_mem pMem flags) Q s.
Proof.
  intros Hc Hsz HQ. unfold mz_zip_reader_init_mem. pose proof (zlen_nonneg pMem). zsteps.
  apply init_internal_flags; [done|]. intros z e (Hm & st & Hs & Hf) (st1 & Hs1 & A1 & A2 & A3) Hrd _.
  assert (st1 = st) as -> by congruence. zsteps. eapply wp_mod_state; [exact Hs|].
  apply finish_init_safe; [| | |done|done].
  - exists (set_m_pMem (Some pMem) (set_m_mem_size (zlen pMem) st)), pMem. by split_and!.
  - eexists. split; [reflexivity|done].
  - split; [done|]. eexists. split; [reflexivity|done].
Qed.

(** ** Looking at an entry *)

Context (flags0 : Z).

Lemma get_cdh_safe i (Q : option Z -> zst E -> Prop) s st :
  reader_ok flags0 (zip s) -> 0 <= i -> m_pState (zip s) = Some st ->
  Q (if i <? m_total_files (zip s) then Some (znth 0 (m_p (m_central_dir_offsets st)) i) else None) s ->
  wp True (mz_zip_get_cdh i) Q s.
Proof.
  intros (st0 & Hs0 & _ & _ & _ & Ht & Ho & _) Hi Hs HQ. assert (st0 = st) as -> by congruence.
  unfold mz_zip_get_cdh. zsteps. rewrite Hs. rewrite Z.ltb_antisym in HQ.
  destruct (Z.leb_spec (m_total_files (zip s)) i); cbn [negb] in HQ; [by apply wp_ret|].
  apply wp_bind. eapply wp_checked; [apply (array_element_in 0); lia|]. by apply wp_ret.
Qed.

(** What the functions on entry [i] know of its record. *)
Lemma reader_record (s : zst E) : reader_ok flags0 (zip s) -> exists st, m_pState (zip s) = Some st /\
  forall i, 0 <= i < m_total_files (zip s) ->
  let cd := m_p (m_central_dir st) in let p := znth 0 (m_p (m_central_dir_offsets st)) i in
  i < zlen (m_p (m_central_dir_offsets st)) /\ 0 <= p /\ p + 46 <= zlen cd /\
  p + 46 + name_len cd p + extra_len cd p + comment_len cd p <= zlen cd /\
  0 <= name_len cd p < 65536 /\ 0 <= extra_len cd p < 65536 /\ 0 <= comment_len cd p < 65536.
Proof.
  intros (st & Hs & _ & _ & _ & Ht & Ho & Hr & _). exists st. split; [done|]. intros i Hi cd p.
  destruct (Hr i Hi) as (P1 & P2 & P3). fold p cd in P1, P2, P3. unfold record_size in P3. autounfold with zipc in P2, P3.
  destruct (lens_range cd p P1) as (N1 & N2 & N3). repeat (split; [lia|]). lia.
Qed.

Ltac on_entry Hok Hi :=
  let st := fresh "st" in let Hs := fresh "Hs" in let R := fresh "R" in
  destruct (reader_record _ Hok) as (st & Hs & R); apply wp_bind;
  apply (get_cdh_safe _ _ _ st Hok Hi Hs); cbn beta;
  match goal with |- context [?i <? ?t] => destruct (Z.ltb_spec i t); cbn match; [|zsteps] end.

Lemma wp_central_dir_bytes (F : Prop) (Q : bytes -> zst E -> Prop) s st :
  m_pState (zip s) = Some st -> Q (m_p (m_central_dir st)) s -> wp F central_dir_bytes Q s.
Proof. intros Hs HQ. unfold central_dir_bytes. zsteps. done. Qed.

Definition same_view (s s' : zst E) : Prop := view (zip s') = view (zip s).

Lemma is_encrypted_safe i (Q : bool -> zst E -> Prop) s :
  reader_ok flags0 (zip s) -> 0 <= i -> (forall b s', same_view s s' -> Q b s') ->
  wp True (mz_zip_reader_is_file_encrypted i) Q s.
Proof.
  intros Hok Hi HQ. unfold mz_zip_reader_is_file_encrypted. on_entry Hok Hi; [|by apply HQ].
  destruct (R i ltac:(lia)) as (? & ? & ? & ? & ? & ? & ?).
  apply wp_bind, (wp_central_dir_bytes _ _ _ st Hs). zsteps. by apply HQ.
Qed.
Lemma is_supported_safe i (Q : bool -> zst E -> Prop) s :
  reader_ok flags0 (zip s) -> 0 <= i -> (forall b s', same_view s s' -> Q b s') ->
  wp True (mz_zip_reader_is_file_supported i) Q s.
Proof.
  intros Hok Hi HQ. unfold mz_zip_reader_is_file_supported. on_entry Hok Hi; [|by apply HQ].
  destruct (R i ltac:(lia)) as (? & ? & ? & ? & ? & ? & ?).
  apply wp_bind, (wp_central_dir_bytes _ _ _ st Hs). zsteps. repeat match goal with |- wp _ (if ?b then _ else _) _ _ => destruct b end; zsteps; by apply HQ.
Qed.
Lemma is_a_directory_safe i (Q : bool -> zst E -> Prop) s :
  reader_ok flags0 (zip s) -> 0 <= i -> (forall b s', same_view s s' -> Q b s') ->
  wp True (mz_zip_reader_is_file_a_directory i) Q s.
Proof.
  intros Hok Hi HQ. unfold mz_zip_reader_is_file_a_directory. on_entry Hok Hi; [|by apply HQ].
  destruct (R i ltac:(lia)) as (? & ? & ? & ? & ? & ? & ?).
  apply wp_bind, (wp_central_dir_bytes _ _ _ st Hs). zsteps.
  fold (name_len (m_p (m_central_dir st)) (znth 0 (m_p (m_central_dir_offsets st)) i)).
  apply (wp_mono _ _ (fun _ s' => s' = s)).
  { destruct (Z.eqb_spec (name_len (m_p (m_central_dir st)) (znth 0 (m_p (m_central_dir_offsets st)) i)) 0); cbn [negb]; [done|].
    apply wp_bind. eapply wp_checked; [apply read8_in; autounfold with zipc; lia|]. done. }
  intros slash s' ->. destruct slash; zsteps; by apply HQ.
Qed.

Lemma get_filename_safe i n (Q : Z * bytes -> zst E -> Prop) s :
  reader_ok flags0 (zip s) -> 0 <= i -> 0 <= n -> (forall b s', same_view s s' -> Q b s') ->
  wp True (mz_zip_reader_get_filename i n) Q s.
Proof.
  intros Hok Hi Hn HQ. unfold mz_zip_reader_get_filename. on_entry Hok Hi; [|by apply HQ].
  destruct (R i ltac:(lia)) as (? & ? & ? & ? & ? & ? & ?).
  apply wp_bind, (wp_central_dir_bytes _ _ _ st Hs). zsteps.
  fold (name_len (m_p (m_central_dir st)) (znth 0 (m_p (m_central_dir_offsets st)) i)).
  destruct (Z.eqb_spec n 0); cbn [negb]; [by apply wp_ret, HQ|]. cbn zeta.
  apply wp_bind, wp_read_mem; [autounfold with zipc; lia..|]. by apply wp_ret, HQ.
Qed.

Lemma reader_ok_view (s s' : zst E) : reader_ok flags0 (zip s) -> same_view s s' -> reader_ok flags0 (zip s').
Proof.
  intros (st & Hs & Hm & Hf & Hio & Ht & Ho & Hr & Hso) Hv.
  pose proof (io_ok_view _ _ Hv Hio) as Hio'.
  destruct (view_state _ _ st Hv Hs) as (st' & Hs' & E1 & E2 & E3 & E4 & E5).
  assert (m_total_files (zip s') = m_total_files (zip s)) as Et by (unfold same_view, view in Hv; congruence).
  exists st'. rewrite Et, E1, E2, E4. unfold sorted_ok in *. rewrite E1, E2, E3.
  split_and!; try done; try lia; unfold same_view, view in Hv; congruence.
Qed.
Lemma same_view_refl (s : zst E) : same_view s s.
Proof. done. Qed.
Lemma same_view_trans (s1 s2 s3 : zst E) : same_view s1 s2 -> same_view s2 s3 -> same_view s1 s3.
Proof. unfold same_view. congruence. Qed.

(** The attributes of an entry: sizes and position are 64-bit values. *)
Definition stat_ok (x : mz_zip_archive_file_stat) : Prop :=
  0 <= m_comp_size x < 2 ^ 64 /\ 0 <= m_uncomp_size x < 2 ^ 64 /\ 0 <= m_local_header_ofs x < 2 ^ 64.

Lemma zip64_value_safe cd v o rem (Q : Z * Z * Z -> zst E -> Prop) s :
  0 <= v < 2 ^ 64 -> 0 <= o -> 0 <= rem -> o + rem <= zlen cd ->
  (forall v' o' rem', 0 <= v' < 2 ^ 64 -> 0 <= o' -> 0 <= rem' -> o' + rem' <= zlen cd -> Q (v', o', rem') s) ->
  wp True (zip64_value cd v o rem) Q s.
Proof.
  intros Hv Ho Hr Hl HQ. unfold zip64_value. destruct (_ =? _); [|by apply wp_ret, HQ].
  zsteps. apply Z.ltb_ge in G. zsteps. apply HQ; try lia. pose proof (le_val_sub cd o 8 Ho). lia.
Qed.

Lemma stat_zip64_safe fuel : forall cd o rem x (Q : mz_zip_archive_file_stat * bool -> zst E -> Prop) s,
  stat_ok x -> 0 <= o -> 0 <= rem < Z.of_nat fuel -> o + rem <= zlen cd ->
  (forall x' b, stat_ok x' -> Q (x', b) s) -> wp True (stat_zip64 fuel cd o rem x) Q s.
Proof.
  induction fuel as [|fuel IH]; intros cd o rem x Q s Hx Ho Hr Hl HQ; [lia|]. cbn [stat_zip64].
  zsteps. apply Z.ltb_ge in G. zsteps. apply Z.ltb_ge in G0. pose proof (le_val_sub cd (o + 2) 2).
  pose proof Hx as (X1 & X2 & X3). destruct (_ =? _).
  - apply wp_bind, zip64_value_safe; [lia..|]. intros u o1 r1 ? ? ? ?. cbn beta match.
    apply wp_bind, zip64_value_safe; [lia..|]. intros c o2 r2 ? ? ? ?. cbn beta match.
    apply wp_bind, zip64_value_safe; [lia..|]. intros l o3 r3 ? ? ? ?. cbn beta match.
    apply wp_ret, HQ. unfold stat_ok. cbn. lia.
  - cbn zeta. destruct (Z.eqb_spec (rem - 2 * 2 - le_val (zsub (o + 2) 2 cd)) 0); [by apply wp_ret, HQ|].
    apply IH; try done; lia.
Qed.

Lemma file_stat_safe i (Q : mz_zip_archive_file_stat -> zst E -> Prop) s :
  reader_ok flags0 (zip s) -> 0 <= i -> (forall x s', same_view s s' -> stat_ok x -> Q x s') ->
  wp True (mz_zip_reader_file_stat i) Q s.
Proof.
  intros Hok Hi HQ. unfold mz_zip_reader_file_stat. on_entry Hok Hi; cbn [mz_zip_file_stat_internal]; [|by zsteps].
  destruct (R i ltac:(lia)) as (? & ? & ? & ? & ? & ? & ?).
  set (cd := m_p (m_central_dir st)) in *. set (p := znth 0 (m_p (m_central_dir_offsets st)) i) in *.
  zsteps. apply (wp_central_dir_bytes _ _ _ st Hs). fold cd. zsteps.
  eapply wp_checked; [apply (array_element_in 0); lia|]. zsteps.
  fold (name_len cd p).
  autounfold with zipc. apply wp_read_mem; [lia..|]. zsteps.
  change (le_val (zsub (p + 30) 2 cd)) with (extra_len cd p). change (le_val (zsub (p + 32) 2 cd)) with (comment_len cd p).
  apply wp_read_mem; [lia..|]. zsteps.
  apply is_a_directory_safe; [done..|]. intros dir s1 V1. zsteps.
  apply is_encrypted_safe; [by apply (reader_ok_view s)|done|]. intros enc s2 V2. zsteps.
  pose proof (same_view_trans _ _ _ V1 V2) as V12.
  apply is_supported_safe; [by apply (reader_ok_view s)|done|]. intros sup s3 V3. cbn beta zeta.
  pose proof (same_view_trans _ _ _ V12 V3) as V. cbn [m_comp_size].
  pose proof (le_val_sub cd (p + 20) 4). pose proof (le_val_sub cd (p + 24) 4). pose proof (le_val_sub cd (p + 42) 4).
  set (x := Build_mz_zip_archive_file_stat _ _ _ _ _ _ _ _ _ _ _ _ _ _ _ _ _ _ _).
  assert (Hx : stat_ok x) by (unfold stat_ok; cbn; lia). clearbody x.
  destruct (_ && _).
  - apply stat_zip64_safe; try done; try lia. intros. cbn beta match. zsteps. by apply HQ.
  - apply wp_ret. cbn beta match. zsteps. by apply HQ.
Qed.

(** ** Finding an entry *)

(** What a lookup asks of an entry: its name, without the path if so flagged,
    is the wanted one up to case, if so flagged, and so is its comment, if one
    is wanted. *)
Definition is_sep (c : char) : bool := (u8 c =? 47) || (u8 c =? 92) || (u8 c =? 58).
Fixpoint strip_path (l : bytes) : bytes :=
  match l with
  | [] => []
  | c :: r => if existsb is_sep l then strip_path r else l
  end.
Definition same_text (flags : Z) (a b : bytes) : Prop :=
  if has_flag flags MZ_ZIP_FLAG_CASE_SENSITIVE then a = b else lowered a = lowered b.
Definition comment_of (cd : bytes) (p : Z) : bytes :=
  zsub (p + MZ_ZIP_CENTRAL_DIR_HEADER_SIZE + name_len cd p + extra_len cd p) (comment_len cd p) cd.
Definition record_matches (cd : bytes) (p : Z) (name comment : bytes) (flags : Z) : Prop :=
  (comment = [] \/ same_text flags comment (comment_of cd p)) /\
  same_text flags name (if has_flag flags MZ_ZIP_FLAG_IGNORE_PATH then strip_path (name_of cd p) else name_of cd p).
Definition matches (s : zst E) (name comment : bytes) (flags i : Z) : Prop :=
  exists st, m_pState (zip s) = Some st /\
    record_matches (m_p (m_central_dir st)) (znth 0 (m_p (m_central_dir_offsets st)) i) name comment flags.

Lemma strip_path_none l : existsb is_sep l = false -> strip_path l = l.
Proof. destruct l as [|c l]; [done|]. cbn [strip_path]. by intros ->. Qed.
Lemma strip_path_snoc l c : strip_path (l ++ [c]) = if is_sep c then [] else strip_path l ++ [c].
Proof.
  induction l as [|a l IH]; cbn [app strip_path existsb].
  - by destruct (is_sep c).
  - rewrite existsb_app. cbn [existsb]. rewrite orb_false_r. destruct (is_sep c) eqn:Ec.
    + by rewrite !orb_true_r, IH.
    + rewrite !orb_false_r, IH. by destruct (is_sep a || existsb is_sep l).
Qed.
Lemma zlen_strip_path l : zlen (strip_path l) <= zlen l.
Proof.
  induction l as [|c l IH]; cbn [strip_path]; [done|]. rewrite zlen_cons.
  destruct (existsb _ _); [lia|]. by rewrite zlen_cons.
Qed.

Lemma zsub_snoc {A} (d : A) (l : list A) p n :
  0 <= p -> 0 <= n -> p + n < zlen l -> zsub p (n + 1) l = zsub p n l ++ [znth d l (p + n)].
Proof.
  intros. rewrite zsub_split by lia. f_equal. rewrite (zsub_cons d) by lia.
  by rewrite Z.sub_diag, zsub_zero.
Qed.

Lemma last_separator_spec k : forall cd p, 0 <= p -> p + Z.of_nat k <= zlen cd ->
  exists o, last_separator k cd p = Some o /\ 0 <= o <= Z.of_nat k /\
    zsub (p + o) (Z.of_nat k - o) cd = strip_path (zsub p (Z.of_nat k) cd).
Proof.
  induction k as [|k IH]; intros cd p Hp Hl; cbn [last_separator].
  { exists 0. rewrite !zsub_zero. split; [done|]. split; [lia|done]. }
  rewrite read8_in by lia. cbn [mbind option_bind]. fold (is_sep (znth nul cd (p + Z.of_nat k))).
  replace (Z.of_nat (S k)) with (Z.of_nat k + 1) in * by lia.
  rewrite (zsub_snoc nul), strip_path_snoc by lia. destruct (is_sep _) eqn:Es.
  - exists (Z.of_nat k + 1). split; [done|]. split; [lia|]. by rewrite Z.sub_diag, zsub_zero.
  - destruct (IH cd p) as (o & -> & Ho & E0); [lia..|]. exists o. split; [done|]. split; [lia|].
    rewrite <- E0. replace (Z.of_nat k + 1 - o) with (Z.of_nat k - o + 1) by lia.
    rewrite (zsub_snoc nul) by lia. do 3 f_equal. lia.
Qed.

Lemma string_equal_spec (F : Prop) a b o n flags (Q : bool -> zst E -> Prop) s :
  0 <= o -> 0 <= n -> o + n <= zlen b -> zlen a = n ->
  (forall r, (r = true <-> same_text flags a (zsub o n b)) -> Q r s) ->
  wp F (mz_zip_string_equal a b o n flags) Q s.
Proof.
  intros Ho Hn Hb Ha HQ. unfold mz_zip_string_equal. apply wp_bind, wp_read_mem; [lia..|].
  apply wp_bind, wp_read_mem; [lia..|]. subst n. rewrite zsub_all. unfold same_text in HQ.
  destruct (has_flag _ _); apply wp_ret, HQ; by rewrite bool_decide_eq_true.
Qed.

Lemma same_text_len flags a b : same_text flags a b -> zlen a = zlen b.
Proof.
  unfold same_text, zlen. destruct (has_flag _ _); [by intros ->|]. intros H1.
  apply (f_equal length) in H1. unfold lowered in H1. rewrite !length_map in H1. lia.
Qed.

Lemma entry_matches_spec (F : Prop) name pComment flags i (Q : bool -> zst E -> Prop) s :
  reader_ok flags0 (zip s) -> 0 <= i < m_total_files (zip s) ->
  (forall r, (r = true <-> matches s name (default [] pComment) flags i) -> Q r s) ->
  wp F (entry_matches name pComment flags i) Q s.
Proof.
  intros Hok Hi HQ. destruct (reader_record _ Hok) as (st & Hs & R). destruct (R i Hi) as (? & ? & ? & ? & ? & ? & ?).
  assert (HQ' : forall r, (r = true <-> record_matches (m_p (m_central_dir st))
    (znth 0 (m_p (m_central_dir_offsets st)) i) name (default [] pComment) flags) -> Q r s).
  { intros r Hr. apply HQ. unfold matches. split; intros Hx; [exists st; tauto|].
    destruct Hx as (st0 & Hs0 & Hx). assert (st0 = st) as -> by congruence. tauto. }
  clear HQ R. unfold entry_matches. zsteps. apply (wp_central_dir_bytes _ _ _ st Hs). zsteps.
  eapply wp_checked; [apply (array_element_in 0); lia|]. cbn beta.
  set (cd := m_p (m_central_dir st)) in *. set (p := znth 0 (m_p (m_central_dir_offsets st)) i) in *.
  set (comment := default [] pComment) in *. zsteps. fold (name_len cd p).
  assert (Hnl : zlen (name_of cd p) = name_len cd p) by (apply zlen_zsub; autounfold with zipc; lia).
  assert (Hcl : zlen (comment_of cd p) = comment_len cd p) by (apply zlen_zsub; autounfold with zipc; lia).
  destruct (Z.ltb_spec (name_len cd p) (zlen name)) as [Hlt|Hge].
  { apply wp_ret, HQ'. split; [done|]. intros [_ Hm]. apply same_text_len in Hm.
    destruct (has_flag _ _); [pose proof (zlen_strip_path (name_of cd p))|]; lia. }
  apply wp_bind, (wp_mono _ _ (fun r s' => s' = s /\ (r = true <-> (comment = [] \/ same_text flags comment (comment_of cd p))))).
  { destruct (Z.eqb_spec (zlen comment) 0) as [E0|E0]; cbn [negb].
    - apply wp_ret. split; [done|]. assert (comment = []) by (apply length_zero_iff_nil; unfold zlen in E0; lia). tauto.
    - assert (comment <> []) by (intros ->; done). zsteps.
      fold (extra_len cd p). fold (comment_len cd p). destruct (Z.eqb_spec (comment_len cd p) (zlen comment)) as [E1|E1]; cbn [negb].
      + apply string_equal_spec; [autounfold with zipc; lia..|]. intros r Hr. split; [done|].
        fold (comment_of cd p) in Hr. tauto.
      + apply wp_ret. split; [done|]. split; [done|]. intros [?|Hm]; [done|]. apply same_text_len in Hm. lia. }
  intros cok s' [-> Hc]. destruct cok; cbn [negb].
  2:{ apply wp_ret, HQ'. split; [done|]. intros [Hm _]. by apply Hc in Hm. }
  apply wp_bind, (wp_mono _ _ (fun o s' => s' = s /\ 0 <= o <= name_len cd p /\
     zsub (p + MZ_ZIP_CENTRAL_DIR_HEADER_SIZE + o) (name_len cd p - o) cd =
     (if has_flag flags MZ_ZIP_FLAG_IGNORE_PATH then strip_path (name_of cd p) else name_of cd p))).
  { destruct (has_flag flags MZ_ZIP_FLAG_IGNORE_PATH); cbn [andb].
    - destruct (Z.eqb_spec (name_len cd p) 0) as [E0|E0]; cbn [negb].
      + apply wp_ret. split; [done|]. split; [lia|]. unfold name_of. by rewrite E0, !zsub_zero.
      + destruct (last_separator_spec (Z.to_nat (name_len cd p)) cd (p + MZ_ZIP_CENTRAL_DIR_HEADER_SIZE)) as (o & Eo & Ho & Es);
          [autounfold with zipc; lia..|]. rewrite Z2Nat.id in Ho, Es by lia.
        apply (wp_checked _ _ o); done.
    - apply wp_ret. split; [done|]. split; [lia|]. by rewrite Z.add_0_r, Z.sub_0_r. }
  intros o s' (-> & Ho & Es). cbn zeta. destruct (Z.eqb_spec (name_len cd p - o) (zlen name)) as [En|En].
  - apply string_equal_spec; [autounfold with zipc in *; lia..|]. intros r Hr. rewrite Es in Hr. apply HQ'.
    unfold record_matches. tauto.
  - apply wp_ret, HQ'. split; [done|]. intros [_ Hm]. apply same_text_len in Hm. rewrite <- Es, zlen_zsub in Hm;
      autounfold with zipc; lia.
Qed.

Lemma scan_entries_spec k : forall (F : Prop) name pComment flags i (Q : Z -> zst E -> Prop) s,
  reader_ok flags0 (zip s) -> 0 <= i -> i + Z.of_nat k = m_total_files (zip s) ->
  (forall j, 0 <= j < i -> ~ matches s name (default [] pComment) flags j) ->
  ((forall j, 0 <= j < m_total_files (zip s) -> ~ matches s name (default [] pComment) flags j) -> F) ->
  (forall j, 0 <= j < m_total_files (zip s) -> matches s name (default [] pComment) flags j -> Q j s) ->
  wp F (scan_entries k name pComment flags i) Q s.
Proof.
  induction k as [|k IH]; intros F name pComment flags i Q s Hok Hi Hk Hn HF HQ; cbn [scan_entries].
  - apply wp_zip_set_error, HF. intros j Hj. apply Hn. lia.
  - apply wp_bind, entry_matches_spec; [done|lia|]. intros [] Hr.
    + apply wp_ret, HQ; [lia|]. by apply Hr.
    + apply IH; try done; try lia. intros j Hj. destruct (decide (j = i)) as [->|]; [|apply Hn; lia].
      intros Hm. by apply Hr in Hm.
Qed.

Lemma binary_search_spec (F : Prop) name flags (Q : Z -> zst E -> Prop) s :
  reader_ok flags0 (zip s) -> sorts flags0 = true -> zlen name < 2 ^ 31 ->
  has_flag flags MZ_ZIP_FLAG_IGNORE_PATH = false -> has_flag flags MZ_ZIP_FLAG_CASE_SENSITIVE = false ->
  ((forall j, 0 <= j < m_total_files (zip s) -> ~ matches s name [] flags j) -> F) ->
  (forall j, 0 <= j < m_total_files (zip s) -> matches s name [] flags j -> Q j s) ->
  wp F (mz_zip_locate_file_binary_search name) Q s.
Proof.
  intros Hok Hso Hn Hip Hcs HF HQ. pose proof Hok as (st & Hs & _ & _ & _ & Ht & Ho & Hr & Hsort).
  destruct (Hsort Hso) as (S1 & S2 & S3 & S4 & S5).
  assert (M : forall j, 0 <= j < m_total_files (zip s) -> matches s name [] flags j <->
     lowered (entry_name (m_central_dir st) (m_central_dir_offsets st) j) = lowered name).
  { intros j Hj. unfold matches, record_matches, same_text. rewrite Hip, Hcs. unfold entry_name. split.
    - intros (st0 & Hs0 & _ & E0). assert (st0 = st) as -> by congruence. done.
    - intros E0. exists st. split; [done|]. split; [by left|done]. }
  unfold mz_zip_locate_file_binary_search. zsteps.
  set (ix := m_sorted_central_dir_offsets st) in *.
  destruct (search_loop_spec (m_central_dir st) (m_central_dir_offsets st) ix (m_total_files (zip s)) ltac:(lia))
    with (fuel := S (Z.to_nat (m_total_files (zip s)))) (name := name) (l := 0) (h := m_total_files (zip s) - 1)
    as (r & Er & Hres); try done; try lia.
  { intros i Hi. specialize (S3 i Hi). split; [lia|]. by apply record_full_in, Hr. }
  apply (wp_mono _ _ (fun r' s' => s' = s /\ r' = r)).
  { destruct (Z.eqb_spec (m_total_files (zip s)) 0) as [E0|E0]; cbn [negb].
    - apply wp_ret. split; [done|]. rewrite E0 in Er. change (Some (@None Z) = Some r) in Er. by injection Er.
    - by apply (wp_checked _ _ r). }
  intros r' s' [-> ->]. destruct r as [fi|].
  - destruct Hres as (m & Hm & -> & Ek). apply wp_ret, HQ; [by apply S3|]. apply M; [by apply S3|done].
  - apply wp_zip_set_error, HF. intros j Hj Hm. apply M in Hm; [|done].
    destruct (S4 j Hj) as (i & Hi & Ei). apply (Hres i Hi). unfold key. fold ix in Ei. by rewrite Ei.
Qed.

Lemma has_flag_lor flags a b : has_flag flags (Z.lor a b) = has_flag flags a || has_flag flags b.
Proof.
  unfold has_flag. rewrite Z.land_lor_distr_r.
  destruct (Z.eqb_spec (Z.lor (Z.land flags a) (Z.land flags b)) 0) as [E0|E0].
  - apply Z.lor_eq_0_iff in E0 as [-> ->]. done.
  - destruct (Z.eqb_spec (Z.land flags a) 0) as [Ea|], (Z.eqb_spec (Z.land flags b) 0) as [Eb|]; try done.
    by rewrite Ea, Eb in E0.
Qed.

Lemma matches_len s name comment flags i :
  reader_ok flags0 (zip s) -> 0 <= i < m_total_files (zip s) -> matches s name comment flags i ->
  zlen name <= 65535 /\ zlen comment <= 65535.
Proof.
  intros Hok Hi (st0 & Hs0 & Hc & Hm). destruct (reader_record _ Hok) as (st & Hs & R).
  assert (st0 = st) as -> by congruence. destruct (R i Hi) as (? & ? & ? & ? & ? & ? & ?).
  set (cd := m_p (m_central_dir st)) in *. set (p := znth 0 (m_p (m_central_dir_offsets st)) i) in *.
  assert (Hnl : zlen (name_of cd p) = name_len cd p) by (apply zlen_zsub; autounfold with zipc; lia).
  assert (Hcl : zlen (comment_of cd p) = comment_len cd p) by (apply zlen_zsub; autounfold with zipc; lia).
  apply same_text_len in Hm. split.
  - pose proof (zlen_strip_path (name_of cd p)). destruct (has_flag _ _); lia.
  - destruct Hc as [->|Hc]; [done|]. apply same_text_len in Hc. lia.
Qed.

Lemma locate_file_v2_spec (F : Prop) name pComment flags (Q : Z -> zst E -> Prop) s :
  reader_ok flags0 (zip s) -> zlen name < 2 ^ 31 ->
  ((forall j, 0 <= j < m_total_files (zip s) -> ~ matches s name (default [] pComment) flags j) -> F) ->
  (forall j, 0 <= j < m_total_files (zip s) -> matches s name (default [] pComment) flags j -> Q j s) ->
  wp F (mz_zip_reader_locate_file_v2 name pComment flags) Q s.
Proof.
  intros Hok Hn HF HQ. pose proof Hok as (st & Hs & Hm & Hf & _ & Ht & _).
  unfold mz_zip_reader_locate_file_v2. zsteps. rewrite Hs, Hf. fold (sorts flags0).
  destruct (sorts flags0 && _ && _ && _ && _) eqn:Eb.
  - apply andb_prop in Eb as [Eb _]. apply andb_prop in Eb as [Eb Ec]. apply andb_prop in Eb as [Eb Efl].
    apply andb_prop in Eb as [Eb _]. apply negb_true_iff in Efl. rewrite has_flag_lor in Efl.
    apply orb_false_iff in Efl as [Ei Es]. apply bool_decide_eq_true in Ec as ->.
    by apply (binary_search_spec F name flags).
  - apply wp_bind, wp_fail_if.
    { intros Hl. apply Z.ltb_lt in Hl. apply HF. intros j Hj Hx. apply matches_len in Hx; [|done..].
      unfold MZ_UINT16_MAX in Hl. lia. }
    intros _. apply wp_bind, wp_fail_if.
    { intros Hl. apply Z.ltb_lt in Hl. apply HF. intros j Hj Hx. apply matches_len in Hx; [|done..].
      unfold MZ_UINT16_MAX in Hl. lia. }
    intros _. apply scan_entries_spec; try done; lia.
Qed.

(** ** Extracting an entry *)

Lemma wp_pRead_at (F : Prop) ofs n (Q : bytes -> zst E -> Prop) s :
  io_ok (zip s) -> 0 <= ofs -> 0 <= n ->
  (forall b e, (forall st mem, m_pState (zip s) = Some st -> m_pMem st = Some mem ->
     zlen mem = m_archive_size (zip s) /\ (zlen b = n -> 0 < n -> ofs + n <= zlen mem)) -> Q b (Zst (zip s) e)) ->
  wp F (pRead ofs n) Q s.
Proof.
  intros Hio Ho Hn HQ. unfold pRead. apply wp_bind, wp_get_zip. unfold io_ok in Hio.
  destruct (m_pRead (zip s)); [done| |].
  - destruct Hio as (st & mem & Hs & Hm & Hl). apply (wp_mem_read _ _ _ _ _ st mem); try done.
    destruct s as [z e]. apply HQ. cbn in *. intros st' mem' Hs' Hm'.
    assert (st' = st) as -> by congruence. assert (mem' = mem) as -> by congruence. split; [done|]. intros Hb Hn0.
    unfold zsub in Hb. rewrite zlen_ztake, zlen_zdrop in Hb by lia. lia.
  - apply wp_use_env. intros b e _. apply HQ. intros st mem Hs Hm. specialize (Hio st Hs). congruence.
Qed.

Section Inflating.
Context {T : Type} `{InflatorOk T}.

Lemma inflate_loop_safe fuel : forall mem usz rbs t win cur rem out (Q : Z * bytes -> zst E -> Prop) s,
  io_ok (zip s) -> 0 < rbs -> 0 <= cur -> zlen out <= usz -> 0 <= rem ->
  (if (mem : bool) then rem = 0 /\ (1 <= fuel)%nat else win = [] /\ 0 < rem <= Z.of_nat fuel) ->
  (forall st out' s', same_view s s' -> zlen out' <= usz -> Q (st, out') s') ->
  wp True (inflate_loop fuel mem usz rbs t win cur rem out) Q s.
Proof.
  induction fuel as [|fuel IH]; intros mem usz rbs t win cur rem out Q s Hio Hrbs Hcur Hout Hrem Hf HQ.
  { destruct mem; lia. }
  cbn [inflate_loop]. apply wp_bind.
  apply (wp_mono _ _ (fun fill s' => same_view s s' /\ match fill with None => True | Some (win', cur', rem') =>
     0 <= cur' /\ 0 <= rem' /\ (if mem then rem' = 0 else rem' < rem) end)).
  { destruct mem; cbn [negb].
    - rewrite andb_false_r. apply wp_ret. destruct Hf as [-> _]. split_and!; done || lia.
    - destruct Hf as [-> Hf]. cbn [zlen length Z.of_nat Z.eqb andb]. cbn zeta.
      apply wp_bind, wp_pRead; [done|lia|lia|]. intros b e. destruct (_ =? _).
      + apply wp_ret. split; [done|]. split; [apply w64_range|]. lia.
      + zsteps. done. }
  intros [[[win' cur'] rem']|] s' [Hv Hfill]; [|apply wp_ret, HQ; done]. destruct Hfill as (Hc' & Hr' & Hd).
  destruct (tinfl_decompress _ _ _ _ _) as [[[status used] o] t'] eqn:Et. cbn zeta.
  destruct (tinfl_bounds _ _ _ _ _ _ _ _ _ Et) as [Hu Ho]; [lia|].
  destruct (Z.eqb_spec status TINFL_STATUS_NEEDS_MORE_INPUT) as [Es|Es].
  2:{ apply wp_ret, HQ; [done|]. rewrite zlen_app. lia. }
  destruct (tinfl_more _ _ _ _ _ _ _ _ _ Et Es) as [-> Hm].
  assert (rem' <> 0) by (intros ->; cbn in Hm; done).
  apply IH; try done; try lia.
  - by apply (io_ok_view (zip s)).
  - rewrite zlen_app. lia.
  - destruct mem; [lia|]. rewrite (zdrop_ge _ win') by lia. destruct Hf. split; [done|lia].
  - intros st out' s2 Hv2. apply HQ. by apply (same_view_trans s s').
Qed.

(** The size of a compressed entry is not absurd: the sums with it do not wrap. *)
Definition comp_small (s : zst E) (i : Z) : Prop :=
  forall x s', mz_zip_reader_file_stat i s = (MzTrue x, s') -> m_comp_size x < 2 ^ 63.

Lemma mem_copy_in {A} (dst src : list A) ofs :
  0 <= ofs -> ofs + zlen src <= zlen dst -> mem_copy dst ofs src = Some (zsplice ofs src dst).
Proof. intros. unfold mem_copy. by rewrite (proj2 (Z.leb_le 0 ofs)), (proj2 (Z.leb_le _ (zlen dst))) by lia. Qed.

(** The window of the compressed data. *)
Definition window_ok (i : Z) (st : mz_zip_internal_state) (comp cur : Z) : Prop :=
  forall mem, m_pMem st = Some mem -> 0 <= cur /\ cur + comp <= zlen mem.

Lemma extract_to_mem_safe i pBuf flags user (Q : bytes -> zst E -> Prop) s :
  reader_ok flags0 (zip s) -> 0 <= i -> m_archive_size (zip s) < 2 ^ 63 - 2 ^ 20 -> comp_small s i ->
  (forall n, user = Some n -> 0 <= n) ->
  (forall b s', same_view s s' -> zlen b = zlen pBuf -> Q b s') ->
  wp True (mz_zip_reader_extract_to_mem_no_alloc i pBuf flags user) Q s.
Proof.
  intros Hok Hi Hsz Hcs Hu HQ. unfold mz_zip_reader_extract_to_mem_no_alloc. cbn zeta. zsteps.
  apply (wp_mono _ _ (fun x s1 => same_view s s1 /\ stat_ok x /\ m_comp_size x < 2 ^ 63)).
  { pose proof (file_stat_safe i (fun x s1 => same_view s s1 /\ stat_ok x) s Hok Hi
      (fun _ _ V X => conj V X)) as W.
    unfold wp in *. destruct (mz_zip_reader_file_stat i s) as [[x| |] s1] eqn:Ex; [|done..].
    destruct W. split; [done|]. split; [done|]. by apply (Hcs x s1). }
  intros x s1 (Hv & (Xc & Xu & Xl) & Hc63). pose proof (reader_ok_view _ _ Hok Hv) as Hok1.
  assert (Ea : m_archive_size (zip s1) = m_archive_size (zip s)) by (unfold same_view, view in Hv; congruence).
  destruct (m_is_directory x || (m_comp_size x =? 0)) eqn:Ed; [apply wp_ret, HQ; done|].
  apply orb_false_iff in Ed as [_ Hc0]. apply Z.eqb_neq in Hc0. zsteps. apply Z.ltb_ge in G2.
  set (need := if has_flag flags MZ_ZIP_FLAG_COMPRESSED_DATA then m_comp_size x else m_uncomp_size x) in *.
  assert (Hneed : 0 <= need) by (unfold need; destruct (has_flag flags MZ_ZIP_FLAG_COMPRESSED_DATA); lia).
  pose proof Hok1 as (st1 & Hs1 & _ & _ & Hio1 & _).
  unfold read_exact. apply wp_bind, wp_pRead_at; [done|lia|done|]. intros b e Hat.
  destruct (Z.eqb_spec (zlen b) MZ_ZIP_LOCAL_DIR_HEADER_SIZE) as [Hb|Hb]; [|by apply wp_zip_set_error].
  zsteps. autounfold with zipc in Hb. zsteps. cbn [zip].
  set (cur := w64 (m_local_header_ofs x + MZ_ZIP_LOCAL_DIR_HEADER_SIZE +
     le_val (zsub MZ_ZIP_LDH_FILENAME_LEN_OFS 2 b) + le_val (zsub MZ_ZIP_LDH_EXTRA_LEN_OFS 2 b))) in *. pose proof (w64_range (m_local_header_ofs x + MZ_ZIP_LOCAL_DIR_HEADER_SIZE +
     le_val (zsub MZ_ZIP_LDH_FILENAME_LEN_OFS 2 b) + le_val (zsub MZ_ZIP_LDH_EXTRA_LEN_OFS 2 b))) as Hcur. fold cur in Hcur.
  apply Z.ltb_ge in G4.
  assert (Hwin : window_ok i st1 (m_comp_size x) cur).
  { intros mem Hm. destruct (Hat st1 mem Hs1 Hm) as [Hl Hx]. autounfold with zipc in Hx.
    specialize (Hx Hb ltac:(lia)). pose proof (le_val_sub b MZ_ZIP_LDH_FILENAME_LEN_OFS 2 ltac:(done) ltac:(done)).
    pose proof (le_val_sub b MZ_ZIP_LDH_EXTRA_LEN_OFS 2 ltac:(done) ltac:(done)).
    change (256 ^ 2) with 65536 in *. autounfold with zipc in *.
    assert (Ecur : cur = m_local_header_ofs x + 30 + le_val (zsub 26 2 b) + le_val (zsub 28 2 b)) by (apply w64_id; lia).
    rewrite w64_id in G4 by lia. lia. }
  destruct (_ || (m_method x =? 0)) eqn:Em.
  - zsteps. apply wp_pRead; [done|lia|done|]. intros d e2.
    destruct (Z.eqb_spec (zlen d) need) as [Hd|Hd]; [|by apply wp_zip_set_error]. zsteps.
    eapply wp_checked; [apply mem_copy_in; lia|]. zsteps.
    assert (Hz : zlen (zsplice 0 d pBuf) = zlen pBuf) by (apply zlen_zsplice; lia).
    destruct (has_flag flags MZ_ZIP_FLAG_COMPRESSED_DATA) eqn:Ef; cbn [negb]; zsteps; [by apply HQ|].
    apply wp_read_mem; [lia|lia|unfold need in *; lia|]. zsteps. by apply HQ.
  - apply orb_false_iff in Em as [Ef _]. unfold need in *. rewrite Ef in *. clear need.
    eapply wp_bind, wp_get_state; [exact Hs1|].
    apply wp_bind, (wp_mono _ _ (fun w s2 => let '(rbs, win, rem) := w in same_view s1 s2 /\ 0 < rbs /\ 0 <= rem /\
       if bool_decide (is_Some (m_pMem st1)) then rem = 0 else win = [] /\ rem = m_comp_size x)).
    { destruct (m_pMem st1) as [mem|] eqn:Em1; [|destruct user as [n|]].
      - destruct (Hwin mem Em1). apply wp_bind, wp_read_mem; [lia..|]. apply wp_ret. split_and!; done || lia.
      - destruct (Z.eqb_spec n 0); [by apply wp_false|]. specialize (Hu n eq_refl). apply wp_ret. split_and!; done || lia.
      - zsteps. autounfold with zipc. split_and!; done || lia. }
    intros [[rbs win] rem] s2 (Hv2 & Hrbs & Hrem & Hw). apply wp_bind.
    apply inflate_loop_safe; [by apply (io_ok_view (zip s1))|done|lia|change (zlen (@nil char)) with 0; lia|done| |].
    { destruct (bool_decide (is_Some (m_pMem st1))); [lia|]. destruct Hw as [-> ->]. split; [done|lia]. }
    intros status out s3 Hv3 Hout. cbn beta match. destruct (negb (status =? TINFL_STATUS_DONE)); [apply wp_false; exact I|]. zsteps.
    pose proof (same_view_trans _ _ _ (same_view_trans _ _ _ Hv Hv2) Hv3) as Hv13.
    eapply wp_checked; [apply mem_copy_in; lia|]. apply HQ; [done|]. rewrite zlen_zsplice; lia.
Qed.
End Inflating.
End Safety.

(** ** End records that the scan misses *)

Section Missed.
Context {E : Type} `{ZipEnv E}.

Definition no_sig (buf : bytes) (lo hi : Z) : Prop :=
  forall o, lo <= o < hi -> le_val (zsub o 4 buf) <> MZ_ZIP_END_OF_CENTRAL_DIR_HEADER_SIG.

Lemma scan_sig_none k buf asz cur size :
  Z.of_nat k + 3 <= zlen buf \/ k = O -> no_sig buf 0 (Z.of_nat k) ->
  scan_sig k buf asz cur MZ_ZIP_END_OF_CENTRAL_DIR_HEADER_SIG size = Some (-1).
Proof.
  induction k as [|k IH]; intros Hk Hn; cbn [scan_sig]; [done|].
  rewrite read_le_in by lia. cbn [mbind option_bind]. change (Z.of_nat 4) with 4.
  rewrite (proj2 (Z.eqb_neq _ _)) by (apply Hn; lia). cbn [andb]. apply IH; [lia|]. intros o Ho. apply Hn. lia.
Qed.

(** The scan of a memory archive that has no end signature where it looks. *)
Lemma locate_loop_none fuel : forall (s : zst E) st mem cur r,
  m_pRead (zip s) = IO_MEM -> m_pState (zip s) = Some st -> m_pMem st = Some mem -> zlen mem = m_archive_size (zip s) ->
  zlen mem < 2 ^ 63 - 2 ^ 20 -> 0 <= r < 4093 -> (exists k, -1 <= k /\ cur = r + 4093 * k) ->
  cur + 4096 <= zlen mem -> no_sig mem r (zlen mem - 3) ->
  65535 + 22 + 4093 <= zlen mem - cur + 4093 * Z.of_nat fuel -> zlen mem - cur < 65535 + 22 + 4093 ->
  wp True (locate_loop fuel cur MZ_ZIP_END_OF_CENTRAL_DIR_HEADER_SIG MZ_ZIP_END_OF_CENTRAL_DIR_HEADER_SIZE) (fun _ _ => False) s.
Proof.
  induction fuel as [|fuel IH]; intros s st mem cur r Hr Hs Hm Hl Hsz Hr0 (k & Hk & Ec) Hc Hn Hf Hd; [lia|].
  cbn [locate_loop]. zsteps. rewrite <- Hl. set (n := s32 _).
  assert (En : n = 4096) by (unfold n; rewrite w64_id, Z.min_l by lia; reflexivity).
  clearbody n. subst n. unfold pRead. apply wp_bind, wp_get_zip. rewrite Hr. cbn match.
  apply (wp_mem_read _ _ _ _ _ st mem); [done|done|done|apply w64_range|done|]. cbn beta.
  destruct (decide (k = -1)) as [Ek|Ek].
  { (* the wrapped offset is behind the end of the archive *)
    assert (Ew : w64 cur = cur + 2 ^ 64) by (rewrite <- (w64_id (cur + 2 ^ 64)) by lia; unfold w64; by rewrite Z.add_mod, Z_mod_same_full, Z.add_0_r, Z.mod_mod by lia).
    unfold zsub. rewrite zdrop_ge by lia. rewrite (proj2 (Z.eqb_neq _ _)); [by apply wp_false|].
    unfold ztake. rewrite take_nil. done. }
  rewrite w64_id by lia. rewrite zlen_zsub by lia. cbn [Z.eqb Pos.eqb negb].
  change (4096 - 3) with 4093. rewrite scan_sig_none.
  - apply wp_bind, (wp_checked _ _ (-1)); [done|]. cbn [Z.leb Z.compare]. destruct (_ || _) eqn:Eo; [by apply wp_false|].
    apply orb_false_iff in Eo as [_ Eo]. apply Z.leb_gt in Eo. rewrite w64_id in Eo by lia.
    unfold MZ_UINT16_MAX, MZ_ZIP_END_OF_CENTRAL_DIR_HEADER_SIZE in Eo.
    assert (Enext : s64 (Z.max (w64 (cur - 4093)) 0) = cur - 4093).
    { rewrite Z.max_l by apply w64_range. apply s64_w64. lia. }
    rewrite Enext. apply (IH _ st mem _ r); try done; try lia. { exists (k - 1). lia. }
  - left. rewrite zlen_zsub; lia.
  - intros o Ho. rewrite zsub_zsub by lia. apply Hn. lia.
Qed.

(** An archive in memory whose end record the scan misses is refused. *)
Lemma init_mem_missed (s : zst E) pMem flags :
  closed (zip s) -> 4096 <= zlen pMem < 2 ^ 63 - 2 ^ 20 ->
  no_sig pMem ((zlen pMem - 4096) mod 4093) (zlen pMem - 3) ->
  wp True (mz_zip_reader_init_mem pMem flags) (fun _ _ => False) s.
Proof.
  intros Hc Hsz Hn. unfold mz_zip_reader_init_mem. zsteps.
  apply init_internal_flags; [done|]. intros z e (Hm & st & Hs & Hf) (st1 & Hs1 & A1 & A2 & A3) Hrd _.
  assert (st1 = st) as -> by congruence. zsteps. eapply wp_mod_state; [exact Hs|].
  unfold finish_init. apply wp_bind, wp_try. set (s1 := with_zip _ _).
  apply (wp_weaken _ True _ (fun _ _ => False)); [| |done].
  - unfold mz_zip_reader_read_central_dir. zsteps. change (m_archive_size (zip s1)) with (zlen pMem) in *.
    pose proof (Z.div_mod (zlen pMem - 4096) 4093 ltac:(done)) as D.
    pose proof (Z.mod_pos_bound (zlen pMem - 4096) 4093 ltac:(done)) as B.
    set (q := (zlen pMem - 4096) / 4093) in *. set (r := (zlen pMem - 4096) mod 4093) in *.
    assert (0 <= q) by (apply Z.div_pos; lia).
    assert (L : wp True (mz_zip_reader_locate_header_sig MZ_ZIP_END_OF_CENTRAL_DIR_HEADER_SIG
       MZ_ZIP_END_OF_CENTRAL_DIR_HEADER_SIZE) (fun _ _ => False) s1).
    { unfold mz_zip_reader_locate_header_sig. zsteps. change (m_archive_size (zip s1)) with (zlen pMem).
      rewrite (proj2 (Z.ltb_ge _ _)) by (autounfold with zipc; lia). rewrite s64_id, Z.max_l by lia.
      eapply (locate_loop_none _ s1 _ pMem _ r); [reflexivity|reflexivity|reflexivity|reflexivity|lia..| | | | |]; try lia; try done.
      exists q. lia. }
    unfold wp in *. destruct (mz_zip_reader_locate_header_sig _ _ s1) as [[r0| |] s2]; done.
  - intros _ s'. apply wp_bind, wp_try, (wp_weaken _ True _ (fun _ _ => True));
      [by apply end_internal_safe|by intros _ ?|by intros _ ? _].
Qed.
End Missed.
