(* ===== verification/ZipWriter.v ===== *)
(** ZIP archives: writing ([common/miniz.c]) and the streaming download that
    uses it ([urbackupserver/serverinterface/create_zip.cpp]).

    Starting an archive, adding entries from memory and from a read callback,
    finishing the archive with its central directory.  The conventions for
    pointers are those of ZipReader.v. *)
From S2P Require Import Prelude ZipBase ZipSort ZipReader Checksum.

(** The compressor as its clients use it: [tdefl_compress_buffer] delivers a
    sequence of blocks to the output callback and a status; a refused block
    makes the status [TDEFL_STATUS_PUT_BUF_FAILED]. *)
Definition TDEFL_STATUS_PUT_BUF_FAILED : Z := -1.
Definition TDEFL_STATUS_OKAY : Z := 0.
Definition TDEFL_STATUS_DONE : Z := 1.
Definition TDEFL_NO_FLUSH : Z := 0.
Definition TDEFL_FULL_FLUSH : Z := 3.
Definition TDEFL_FINISH : Z := 4.
Class Deflator (D : Type) := {
  tdefl_init : Z -> D;
  tdefl_compress_buffer : D -> bytes -> Z -> list bytes * Z * D }.

Definition TDEFL_MAX_PROBES_MASK : Z := 0xfff.
Definition TDEFL_WRITE_ZLIB_HEADER : Z := 0x01000.
Definition TDEFL_GREEDY_PARSING_FLAG : Z := 0x04000.
Definition TDEFL_RLE_MATCHES : Z := 0x10000.
Definition TDEFL_FILTER_MATCHES : Z := 0x20000.
Definition TDEFL_FORCE_ALL_STATIC_BLOCKS : Z := 0x40000.
Definition TDEFL_FORCE_ALL_RAW_BLOCKS : Z := 0x80000.
Definition MZ_DEFAULT_STRATEGY : Z := 0.
Definition MZ_FILTERED : Z := 1.
Definition MZ_HUFFMAN_ONLY : Z := 2.
Definition MZ_RLE : Z := 3.
Definition MZ_FIXED : Z := 4.

Definition s_tdefl_num_probes : list Z := [0; 1; 6; 32; 16; 32; 128; 256; 512; 768; 1500].
Definition tdefl_create_comp_flags_from_zip_params (level window_bits strategy : Z) : Z :=
  let comp_flags := Z.lor (znth 0 s_tdefl_num_probes (if 0 <=? level then Z.min 10 level else MZ_DEFAULT_LEVEL))
                          (if level <=? 3 then TDEFL_GREEDY_PARSING_FLAG else 0) in
  let comp_flags := if 0 <? window_bits then Z.lor comp_flags TDEFL_WRITE_ZLIB_HEADER else comp_flags in
  if level =? 0 then Z.lor comp_flags TDEFL_FORCE_ALL_RAW_BLOCKS
  else if strategy =? MZ_FILTERED then Z.lor comp_flags TDEFL_FILTER_MATCHES
  else if strategy =? MZ_HUFFMAN_ONLY then Z.land comp_flags (Z.lxor 0xffffffff TDEFL_MAX_PROBES_MASK)
  else if strategy =? MZ_FIXED then Z.lor comp_flags TDEFL_FORCE_ALL_STATIC_BLOCKS
  else if strategy =? MZ_RLE then Z.lor comp_flags TDEFL_RLE_MATCHES
  else comp_flags.

(** [sizeof(tdefl_compressor)]; only its being granted matters. *)
Definition sizeof_tdefl_compressor : Z := 319352.

Definition MZ_ZIP64_MAX_CENTRAL_EXTRA_FIELD_SIZE : Z := 2 * 2 + 8 * 3.

(** The zip64 extra field with the values that are given. *)
Definition mz_zip_writer_create_zip64_extra_data (pUncomp_size pComp_size pLocal_header_ofs : option Z) : bytes :=
  let field (o : option Z) := match o with Some v => le_bytes 8 v | None => [] end in
  let data := field pUncomp_size ++ field pComp_size ++ field pLocal_header_ofs in
  le_bytes 2 MZ_ZIP64_EXTENDED_INFORMATION_FIELD_HEADER_ID ++ le_bytes 2 (zlen data) ++ data.

(** [(v >= MZ_UINT32_MAX) ? &v : NULL] *)
Definition if_large (test v : Z) : option Z := if MZ_UINT32_MAX <=? test then Some v else None.

Definition mz_zip_writer_validate_archive_name (pArchive_name : bytes) : bool :=
  match pArchive_name with c :: _ => negb (ceq c "/") | [] => true end.

Section Writer.
Context {E : Type} `{ZipEnv E}.

Definition mz_zip_writer_end_internal (set_last_error : bool) : zm E unit :=
  z ← get_zip;
  if negb (bool_decide (is_Some (m_pState z)))
     || (negb (bool_decide (m_zip_mode z = MZ_ZIP_MODE_WRITING))
         && negb (bool_decide (m_zip_mode z = MZ_ZIP_MODE_WRITING_HAS_BEEN_FINALIZED)))
  then (if set_last_error then set_error MZ_ZIP_INVALID_PARAMETER else mret tt);; mz_false
  else mod_zip (fun z => set_m_zip_mode MZ_ZIP_MODE_INVALID (set_m_pState None z)).
Definition mz_zip_writer_end : zm E unit := mz_zip_writer_end_internal true.

Definition is_null (f : io_func) : bool := match f with IO_NULL => true | _ => false end.

Definition mz_zip_writer_init_v2 (existing_size flags : Z) : zm E unit :=
  let zip64 := has_flag flags MZ_ZIP_FLAG_WRITE_ZIP64 in
  z ← get_zip;
  fail_if (bool_decide (is_Some (m_pState z)) || is_null (m_pWrite z)
           || negb (bool_decide (m_zip_mode z = MZ_ZIP_MODE_INVALID))) MZ_ZIP_INVALID_PARAMETER;;
  fail_if (has_flag flags MZ_ZIP_FLAG_WRITE_ALLOW_READING && is_null (m_pRead z)) MZ_ZIP_INVALID_PARAMETER;;
  fail_if (negb (m_file_offset_alignment z =? 0)
           && has_flag (m_file_offset_alignment z) (m_file_offset_alignment z - 1)) MZ_ZIP_INVALID_PARAMETER;;
  mod_zip (fun z => set_m_archive_size existing_size (set_m_central_directory_file_ofs 0 (set_m_total_files 0 z)));;
  ok ← m_pAlloc sizeof_internal_state;
  fail_if (negb ok) MZ_ZIP_ALLOC_FAILED;;
  mod_zip (set_m_pState (Some
    {| m_central_dir := mz_zip_array_init; m_central_dir_offsets := mz_zip_array_init;
       m_sorted_central_dir_offsets := mz_zip_array_init; m_init_flags := 0; m_zip64 := zip64;
       m_zip64_has_extended_info_fields := zip64; m_pMem := None; m_mem_size := 0 |}));;
  mod_zip (fun z => set_m_zip_type MZ_ZIP_TYPE_USER (set_m_zip_mode MZ_ZIP_MODE_WRITING z)).

Definition mz_zip_writer_init (existing_size : Z) : zm E unit := mz_zip_writer_init_v2 existing_size 0.

Definition mz_zip_writer_init_heap_v2 (size_to_reserve_at_beginning initial_allocation_size flags : Z) : zm E unit :=
  mod_zip (set_m_pWrite IO_MEM);;
  (if has_flag flags MZ_ZIP_FLAG_WRITE_ALLOW_READING then mod_zip (set_m_pRead IO_MEM) else mret tt);;
  mz_zip_writer_init_v2 size_to_reserve_at_beginning flags;;
  mod_zip (set_m_zip_type MZ_ZIP_TYPE_HEAP);;
  let initial_allocation_size := Z.max initial_allocation_size size_to_reserve_at_beginning in
  if negb (initial_allocation_size =? 0) then
    ok ← m_pAlloc initial_allocation_size;
    if (ok : bool) then mod_state (set_m_pMem (Some (replicate (Z.to_nat initial_allocation_size) junk)))
    else try (mz_zip_writer_end_internal false);; mz_zip_set_error MZ_ZIP_ALLOC_FAILED
  else mret tt.
Definition mz_zip_writer_init_heap (size_to_reserve_at_beginning initial_allocation_size : Z) : zm E unit :=
  mz_zip_writer_init_heap_v2 size_to_reserve_at_beginning initial_allocation_size 0.

(** ** Headers *)

Definition mz_zip_writer_create_local_dir_header (filename_size extra_size uncomp_size comp_size uncomp_crc32
    method bit_flags dos_time dos_date : Z) : zm E bytes :=
  let p := replicate (Z.to_nat MZ_ZIP_LOCAL_DIR_HEADER_SIZE) nul in
  p ← mz_write_le32 p MZ_ZIP_LDH_SIG_OFS MZ_ZIP_LOCAL_DIR_HEADER_SIG;
  p ← mz_write_le16 p MZ_ZIP_LDH_VERSION_NEEDED_OFS (if method =? 0 then 0 else 20);
  p ← mz_write_le16 p MZ_ZIP_LDH_BIT_FLAG_OFS bit_flags;
  p ← mz_write_le16 p MZ_ZIP_LDH_METHOD_OFS method;
  p ← mz_write_le16 p MZ_ZIP_LDH_FILE_TIME_OFS dos_time;
  p ← mz_write_le16 p MZ_ZIP_LDH_FILE_DATE_OFS dos_date;
  p ← mz_write_le32 p MZ_ZIP_LDH_CRC32_OFS uncomp_crc32;
  p ← mz_write_le32 p MZ_ZIP_LDH_COMPRESSED_SIZE_OFS (Z.min comp_size MZ_UINT32_MAX);
  p ← mz_write_le32 p MZ_ZIP_LDH_DECOMPRESSED_SIZE_OFS (Z.min uncomp_size MZ_UINT32_MAX);
  p ← mz_write_le16 p MZ_ZIP_LDH_FILENAME_LEN_OFS filename_size;
  mz_write_le16 p MZ_ZIP_LDH_EXTRA_LEN_OFS extra_size.

Definition mz_zip_writer_create_central_dir_header (filename_size extra_size comment_size uncomp_size comp_size
    uncomp_crc32 method bit_flags dos_time dos_date local_header_ofs ext_attributes : Z) : zm E bytes :=
  let p := replicate (Z.to_nat MZ_ZIP_CENTRAL_DIR_HEADER_SIZE) nul in
  p ← mz_write_le32 p MZ_ZIP_CDH_SIG_OFS MZ_ZIP_CENTRAL_DIR_HEADER_SIG;
  p ← mz_write_le16 p MZ_ZIP_CDH_VERSION_NEEDED_OFS (if method =? 0 then 0 else 20);
  p ← mz_write_le16 p MZ_ZIP_CDH_BIT_FLAG_OFS bit_flags;
  p ← mz_write_le16 p MZ_ZIP_CDH_METHOD_OFS method;
  p ← mz_write_le16 p MZ_ZIP_CDH_FILE_TIME_OFS dos_time;
  p ← mz_write_le16 p MZ_ZIP_CDH_FILE_DATE_OFS dos_date;
  p ← mz_write_le32 p MZ_ZIP_CDH_CRC32_OFS uncomp_crc32;
  p ← mz_write_le32 p MZ_ZIP_CDH_COMPRESSED_SIZE_OFS (Z.min comp_size MZ_UINT32_MAX);
  p ← mz_write_le32 p MZ_ZIP_CDH_DECOMPRESSED_SIZE_OFS (Z.min uncomp_size MZ_UINT32_MAX);
  p ← mz_write_le16 p MZ_ZIP_CDH_FILENAME_LEN_OFS filename_size;
  p ← mz_write_le16 p MZ_ZIP_CDH_EXTRA_LEN_OFS extra_size;
  p ← mz_write_le16 p MZ_ZIP_CDH_COMMENT_LEN_OFS comment_size;
  p ← mz_write_le32 p MZ_ZIP_CDH_EXTERNAL_ATTR_OFS ext_attributes;
  mz_write_le32 p MZ_ZIP_CDH_LOCAL_HEADER_OFS (Z.min local_header_ofs MZ_UINT32_MAX).

(** [mz_zip_array_push_back] to the central directory and to its offsets. *)
Definition push_central_dir (b : bytes) : zm E unit :=
  st ← get_state; a ← mz_zip_array_push_back junk 1 (m_central_dir st) b; mod_state (set_m_central_dir a).
Definition push_central_dir_offset (o : Z) : zm E unit :=
  st ← get_state;
  a ← mz_zip_array_push_back (u8 junk) 4 (m_central_dir_offsets st) [o];
  mod_state (set_m_central_dir_offsets a).

Definition mz_zip_writer_add_to_central_dir (pFilename pExtra pComment : bytes)
    (uncomp_size comp_size uncomp_crc32 method bit_flags dos_time dos_date local_header_ofs ext_attributes : Z)
    (user_extra_data : bytes) : zm E unit :=
  st ← get_state;
  let orig_central_dir_size := m_size (m_central_dir st) in
  let central_dir_ofs := w32 orig_central_dir_size in
  fail_if (negb (m_zip64 st) && (0xffffffff <? local_header_ofs)) MZ_ZIP_FILE_TOO_LARGE;;
  fail_if (MZ_UINT32_MAX <=? w64 (orig_central_dir_size + MZ_ZIP_CENTRAL_DIR_HEADER_SIZE + zlen pFilename
             + zlen pExtra + zlen user_extra_data + zlen pComment)) MZ_ZIP_UNSUPPORTED_CDIR_SIZE;;
  central_dir_header ← mz_zip_writer_create_central_dir_header (zlen pFilename)
    (w16 (zlen pExtra + zlen user_extra_data)) (zlen pComment) uncomp_size comp_size uncomp_crc32 method bit_flags
    dos_time dos_date local_header_ofs ext_attributes;
  ok ← try (push_central_dir central_dir_header;; push_central_dir pFilename;; push_central_dir pExtra;;
            push_central_dir user_extra_data;; push_central_dir pComment;;
            push_central_dir_offset central_dir_ofs);
  if (ok : bool) then mret tt
  else try (resize_central_dir orig_central_dir_size);; mz_zip_set_error MZ_ZIP_ALLOC_FAILED.

Definition mz_zip_writer_compute_padding_needed_for_file_alignment : zm E Z :=
  z ← get_zip;
  if m_file_offset_alignment z =? 0 then mret 0
  else
    let n := w32 (Z.land (m_archive_size z) (m_file_offset_alignment z - 1)) in
    mret (w32 (Z.land (w64 (m_file_offset_alignment z - n)) (m_file_offset_alignment z - 1))).

(** [while (n)]: blocks of at most 4096 zeros. *)
Fixpoint write_zeros_loop (fuel : nat) (cur_file_ofs n : Z) : zm E unit :=
  if n =? 0 then mret tt
  else match fuel with
       | O => bad
       | S k =>
           let s := Z.min 4096 n in
           write_exact cur_file_ofs (replicate (Z.to_nat s) nul) MZ_ZIP_FILE_WRITE_FAILED;;
           write_zeros_loop k (w64 (cur_file_ofs + s)) (n - s)
       end.
Definition mz_zip_writer_write_zeros (cur_file_ofs n : Z) : zm E unit := write_zeros_loop (Z.to_nat n) cur_file_ofs n.

(** ** Steps shared by the functions that add an entry *)

(** The local header, the name and the zip64 and user extra data at
    [local_dir_header_ofs]; the result is the offset behind them.  [pExtra_data]
    is null ([None]) unless zip64 fields are needed. *)
Definition write_local_header (zip64 : bool) (local_dir_header_ofs : Z) (pArchive_name : bytes)
    (pExtra_data : option bytes) (always_write_extra : bool) (user_extra_data : bytes)
    (comp_size method bit_flags dos_time dos_date : Z) : zm E Z :=
  let extra := default [] pExtra_data in
  let ofs := local_dir_header_ofs in
  fail_if (negb zip64 && ((MZ_UINT32_MAX <? comp_size) || (MZ_UINT32_MAX <? ofs))) MZ_ZIP_ARCHIVE_TOO_LARGE;;
  hdr ← mz_zip_writer_create_local_dir_header (w16 (zlen pArchive_name))
          (w16 ((if zip64 then zlen extra else 0) + zlen user_extra_data)) 0 0 0 method bit_flags dos_time dos_date;
  write_exact ofs hdr MZ_ZIP_FILE_WRITE_FAILED;;
  let ofs := w64 (ofs + MZ_ZIP_LOCAL_DIR_HEADER_SIZE) in
  write_exact ofs pArchive_name MZ_ZIP_FILE_WRITE_FAILED;;
  let ofs := w64 (ofs + zlen pArchive_name) in
  ofs ← (if zip64 && (always_write_extra || bool_decide (is_Some pExtra_data)) then
           write_exact ofs extra MZ_ZIP_FILE_WRITE_FAILED;; mret (w64 (ofs + zlen extra))
         else mret ofs);
  if 0 <? zlen user_extra_data then
    write_exact ofs user_extra_data MZ_ZIP_FILE_WRITE_FAILED;; mret (w64 (ofs + zlen user_extra_data))
  else mret ofs.

(** The data descriptor behind the data: 32-bit sizes without zip64 extra data,
    64-bit sizes with.  A failed write returns without an error code. *)
Definition write_data_descriptor (ofs : Z) (pExtra_data : option bytes) (uncomp_crc32 comp_size uncomp_size : Z) :
    zm E Z :=
  footer ← match pExtra_data with
           | None =>
               fail_if (MZ_UINT32_MAX <? comp_size) MZ_ZIP_ARCHIVE_TOO_LARGE;;
               mret (le_bytes 4 MZ_ZIP_DATA_DESCRIPTOR_ID ++ le_bytes 4 uncomp_crc32
                     ++ le_bytes 4 (w32 comp_size) ++ le_bytes 4 (w32 uncomp_size))
           | Some _ =>
               mret (le_bytes 4 MZ_ZIP_DATA_DESCRIPTOR_ID ++ le_bytes 4 uncomp_crc32
                     ++ le_bytes 8 comp_size ++ le_bytes 8 uncomp_size)
           end;
  k ← pWrite ofs footer;
  if k =? zlen footer then mret (w64 (ofs + zlen footer)) else mz_false.

(** [mz_zip_writer_add_put_buf_callback] for each block: the archive offset and
    the compressed size, or [None] when a block was refused. *)
Fixpoint mz_zip_writer_add_put_buf (blocks : list bytes) (cur_archive_file_ofs comp_size : Z) :
    zm E (option (Z * Z)) :=
  match blocks with
  | [] => mret (Some (cur_archive_file_ofs, comp_size))
  | b :: blocks =>
      k ← pWrite cur_archive_file_ofs b;
      if k =? zlen b
      then mz_zip_writer_add_put_buf blocks (w64 (cur_archive_file_ofs + zlen b)) (w64 (comp_size + zlen b))
      else mret None
  end.

End Writer.
(** ** Adding entries *)

Section Add.
Context {E D : Type} `{ZipEnv E} `{Deflator D}.

(** The checks on the archive's limits that both functions make: switch to
    zip64 where the classic format would not do. *)
Definition use_zip64_if (b : bool) : zm E unit := if b then mod_state (set_m_zip64 true) else mret tt.

Definition check_total_files : zm E unit :=
  z ← get_zip;
  st ← get_state;
  if m_zip64 st then fail_if (m_total_files z =? MZ_UINT32_MAX) MZ_ZIP_TOO_MANY_FILES
  else use_zip64_if (m_total_files z =? MZ_UINT16_MAX).

Definition ensure_central_dir_room (n : Z) : zm E unit :=
  st ← get_state; a ← mz_zip_array_ensure_room junk 1 (m_central_dir st) n; mod_state (set_m_central_dir a).
Definition ensure_central_dir_offsets_room : zm E unit :=
  st ← get_state;
  a ← mz_zip_array_ensure_room (u8 junk) 4 (m_central_dir_offsets st) 1; mod_state (set_m_central_dir_offsets a).

(** The compressed data of [pBuf] at [cur_archive_file_ofs] by one call of the
    compressor: the new offset and the compressed size. *)
Definition deflate_mem (level cur_archive_file_ofs : Z) (pBuf : bytes) : zm E (Z * Z) :=
  let d := tdefl_init (tdefl_create_comp_flags_from_zip_params level (-15) MZ_DEFAULT_STRATEGY) in
  let '(blocks, status, _) := tdefl_compress_buffer d pBuf TDEFL_FINISH in
  r ← mz_zip_writer_add_put_buf blocks cur_archive_file_ofs 0;
  match r with
  | Some r => fail_if (negb (status =? TDEFL_STATUS_DONE)) MZ_ZIP_COMPRESSION_FAILED;; mret r
  | None => mz_zip_set_error MZ_ZIP_COMPRESSION_FAILED
  end.

Definition mz_zip_writer_add_mem_ex_v2 (pArchive_name pBuf pComment : bytes) (level_and_flags uncomp_size uncomp_crc32 : Z)
    (last_modified : option Z) (user_extra_data user_extra_data_central : bytes) : zm E unit :=
  z ← get_zip;
  let buf_size := zlen pBuf in
  let level_and_flags := if s32 level_and_flags <? 0 then MZ_DEFAULT_LEVEL else level_and_flags in
  let compressed_data := has_flag level_and_flags MZ_ZIP_FLAG_COMPRESSED_DATA in
  let bit_flags := if negb (uncomp_size =? 0) || (negb (buf_size =? 0) && negb compressed_data)
                   then MZ_ZIP_LDH_BIT_FLAG_HAS_LOCATOR else 0 in
  let bit_flags := if has_flag level_and_flags MZ_ZIP_FLAG_ASCII_FILENAME then bit_flags
                   else Z.lor bit_flags MZ_ZIP_GENERAL_PURPOSE_BIT_FLAG_UTF8 in
  let level := Z.land level_and_flags 0xf in
  let store_data_uncompressed := (level =? 0) || compressed_data in
  fail_if (negb (bool_decide (is_Some (m_pState z))) || negb (bool_decide (m_zip_mode z = MZ_ZIP_MODE_WRITING))
           || (MZ_UBER_COMPRESSION <? level)) MZ_ZIP_INVALID_PARAMETER;;
  check_total_files;;
  use_zip64_if ((0xffffffff <? buf_size) || (0xffffffff <? uncomp_size));;
  fail_if (negb compressed_data && negb (uncomp_size =? 0)) MZ_ZIP_INVALID_PARAMETER;;
  fail_if (negb (mz_zip_writer_validate_archive_name pArchive_name)) MZ_ZIP_INVALID_FILENAME;;
  time ← match last_modified with Some t => mret t | None => use_env cur_time end;
  let '(dos_time, dos_date) := mz_zip_time_t_to_dos_time time in
  let '(uncomp_crc32, uncomp_size, level, store_data_uncompressed) :=
    if negb compressed_data then
      (mz_crc32 MZ_CRC32_INIT pBuf, buf_size, (if buf_size <=? 3 then 0 else level),
       store_data_uncompressed || (buf_size <=? 3))
    else (uncomp_crc32, uncomp_size, level, store_data_uncompressed) in
  let archive_name_size := zlen pArchive_name in
  fail_if (MZ_UINT16_MAX <? archive_name_size) MZ_ZIP_INVALID_FILENAME;;
  num_alignment_padding_bytes ← mz_zip_writer_compute_padding_needed_for_file_alignment;
  st ← get_state;
  fail_if (MZ_UINT32_MAX <=? w64 (m_size (m_central_dir st) + MZ_ZIP_CENTRAL_DIR_HEADER_SIZE + archive_name_size
             + MZ_ZIP64_MAX_CENTRAL_EXTRA_FIELD_SIZE + zlen pComment)) MZ_ZIP_UNSUPPORTED_CDIR_SIZE;;
  use_zip64_if (negb (m_zip64 st)
    && (0xffffffff <? w64 (m_archive_size z + num_alignment_padding_bytes + MZ_ZIP_LOCAL_DIR_HEADER_SIZE
          + archive_name_size + MZ_ZIP_CENTRAL_DIR_HEADER_SIZE + archive_name_size + zlen pComment
          + zlen user_extra_data + m_size (m_central_dir st) + MZ_ZIP_END_OF_CENTRAL_DIR_HEADER_SIZE
          + zlen user_extra_data_central + MZ_ZIP_DATA_DESCRIPTER_SIZE32)));;
  let is_dir := match last pArchive_name with Some c => ceq c "/" | None => false end in
  let ext_attributes := if is_dir then MZ_ZIP_DOS_DIR_ATTRIBUTE_BITFLAG else 0 in
  fail_if (is_dir && (negb (buf_size =? 0) || negb (uncomp_size =? 0))) MZ_ZIP_INVALID_PARAMETER;;
  st ← get_state;
  let zip64 := m_zip64 st in
  ok ← try (ensure_central_dir_room (MZ_ZIP_CENTRAL_DIR_HEADER_SIZE + archive_name_size + zlen pComment
                                     + (if zip64 then MZ_ZIP64_MAX_CENTRAL_EXTRA_FIELD_SIZE else 0));;
            ensure_central_dir_offsets_room);
  fail_if (negb ok) MZ_ZIP_ALLOC_FAILED;;
  (if negb store_data_uncompressed && negb (buf_size =? 0) then
     ok ← m_pAlloc sizeof_tdefl_compressor; fail_if (negb ok) MZ_ZIP_ALLOC_FAILED
   else mret tt);;
  mz_zip_writer_write_zeros (m_archive_size z) num_alignment_padding_bytes;;
  let local_dir_header_ofs := w64 (m_archive_size z + num_alignment_padding_bytes) in
  let method := if negb store_data_uncompressed || compressed_data then MZ_DEFLATED else 0 in
  let extra_data comp_size := mz_zip_writer_create_zip64_extra_data (if_large uncomp_size uncomp_size)
                                (if_large uncomp_size comp_size) (if_large local_dir_header_ofs local_dir_header_ofs) in
  let pExtra_data comp_size := if zip64 && ((MZ_UINT32_MAX <=? uncomp_size) || (MZ_UINT32_MAX <=? local_dir_header_ofs))
                               then Some (extra_data comp_size) else None in
  ofs ← write_local_header zip64 local_dir_header_ofs pArchive_name (pExtra_data 0) false user_extra_data
          0 method bit_flags dos_time dos_date;
  '(ofs, comp_size) ← (if store_data_uncompressed then
                         write_exact ofs pBuf MZ_ZIP_FILE_WRITE_FAILED;; mret (w64 (ofs + buf_size), buf_size)
                       else if negb (buf_size =? 0) then deflate_mem level ofs pBuf
                       else mret (ofs, 0));
  ofs ← (if negb (uncomp_size =? 0) then write_data_descriptor ofs (pExtra_data 0) uncomp_crc32 comp_size uncomp_size
         else mret ofs);
  mz_zip_writer_add_to_central_dir pArchive_name (default [] (pExtra_data comp_size)) pComment uncomp_size comp_size
    uncomp_crc32 method bit_flags dos_time dos_date local_dir_header_ofs ext_attributes user_extra_data_central;;
  mod_zip (fun z => set_m_archive_size ofs (set_m_total_files (w32 (m_total_files z + 1)) z)).

Definition mz_zip_writer_add_mem_ex (pArchive_name pBuf pComment : bytes)
    (level_and_flags uncomp_size uncomp_crc32 : Z) : zm E unit :=
  mz_zip_writer_add_mem_ex_v2 pArchive_name pBuf pComment level_and_flags uncomp_size uncomp_crc32 None [] [].
Definition mz_zip_writer_add_mem (pArchive_name pBuf : bytes) (level_and_flags : Z) : zm E unit :=
  mz_zip_writer_add_mem_ex pArchive_name pBuf [] level_and_flags 0 0.

(** The data of an entry from a read callback, without compression: [while (1)].
    The callback is a function of its own state [R]; the result is the archive
    offset, the size and the CRC.  Every round reads at least one byte. *)
Context {R : Type} (read_callback : R -> Z -> Z -> bytes * R).

Fixpoint store_from_callback (fuel : nat) (r : R) (max_size file_ofs cur_archive_file_ofs uncomp_crc32 : Z) :
    zm E (Z * Z * Z) :=
  match fuel with
  | O => bad
  | S k =>
      let '(b, r) := read_callback r file_ofs MZ_ZIP_MAX_IO_BUF_SIZE in
      let n := zlen b in
      if n =? 0 then mret (cur_archive_file_ofs, file_ofs, uncomp_crc32)
      else
        fail_if ((MZ_ZIP_MAX_IO_BUF_SIZE <? n) || (max_size <? w64 (file_ofs + n))) MZ_ZIP_FILE_READ_FAILED;;
        write_exact cur_archive_file_ofs b MZ_ZIP_FILE_WRITE_FAILED;;
        store_from_callback k r max_size (w64 (file_ofs + n)) (w64 (cur_archive_file_ofs + n)) (mz_crc32 uncomp_crc32 b)
  end.

(** The same with compression: [for (;;)].  The result also has the compressed
    size.  [m_pNeeds_keepalive] is null for heap archives. *)
Fixpoint deflate_from_callback (fuel : nat) (r : R) (d : D) (max_size file_ofs cur_archive_file_ofs comp_size uncomp_crc32 : Z) :
    zm E (Z * Z * Z * Z) :=
  match fuel with
  | O => bad
  | S k =>
      let '(b, r) := read_callback r file_ofs MZ_ZIP_MAX_IO_BUF_SIZE in
      let n := zlen b in
      fail_if ((MZ_ZIP_MAX_IO_BUF_SIZE <? n) || (max_size <? w64 (file_ofs + n))) MZ_ZIP_FILE_READ_FAILED;;
      let file_ofs := w64 (file_ofs + n) in
      let uncomp_crc32 := mz_crc32 uncomp_crc32 b in
      z ← get_zip;
      keepalive ← match m_pWrite z with IO_USER => use_env user_needs_keepalive | _ => mret false end;
      let flush := if n =? 0 then TDEFL_FINISH else if (keepalive : bool) then TDEFL_FULL_FLUSH else TDEFL_NO_FLUSH in
      let '(blocks, status, d) := tdefl_compress_buffer d b flush in
      out ← mz_zip_writer_add_put_buf blocks cur_archive_file_ofs comp_size;
      match out with
      | None => mz_zip_set_error MZ_ZIP_COMPRESSION_FAILED
      | Some (cur_archive_file_ofs, comp_size) =>
          if status =? TDEFL_STATUS_DONE then mret (cur_archive_file_ofs, file_ofs, comp_size, uncomp_crc32)
          else
            fail_if (negb (status =? TDEFL_STATUS_OKAY)) MZ_ZIP_COMPRESSION_FAILED;;
            deflate_from_callback k r d max_size file_ofs cur_archive_file_ofs comp_size uncomp_crc32
      end
  end.

Definition mz_zip_writer_add_read_buf_callback (fuel : nat) (pArchive_name : bytes) (callback_opaque : R) (max_size : Z)
    (pFile_time : option Z) (pComment : bytes) (level_and_flags : Z)
    (user_extra_data user_extra_data_central : bytes) : zm E unit :=
  z ← get_zip;
  let set_size := has_flag level_and_flags MZ_ZIP_FLAG_WRITE_HEADER_SET_SIZE in
  let gen_flags := if set_size then 0 else MZ_ZIP_LDH_BIT_FLAG_HAS_LOCATOR in
  let gen_flags := if has_flag level_and_flags MZ_ZIP_FLAG_ASCII_FILENAME then gen_flags
                   else Z.lor gen_flags MZ_ZIP_GENERAL_PURPOSE_BIT_FLAG_UTF8 in
  let level_and_flags := if s32 level_and_flags <? 0 then MZ_DEFAULT_LEVEL else level_and_flags in
  let set_size := has_flag level_and_flags MZ_ZIP_FLAG_WRITE_HEADER_SET_SIZE in
  let level := Z.land level_and_flags 0xf in
  fail_if (negb (bool_decide (is_Some (m_pState z))) || negb (bool_decide (m_zip_mode z = MZ_ZIP_MODE_WRITING))
           || (MZ_UBER_COMPRESSION <? level)) MZ_ZIP_INVALID_PARAMETER;;
  use_zip64_if (MZ_UINT32_MAX <? max_size);;
  fail_if (has_flag level_and_flags MZ_ZIP_FLAG_COMPRESSED_DATA) MZ_ZIP_INVALID_PARAMETER;;
  fail_if (negb (mz_zip_writer_validate_archive_name pArchive_name)) MZ_ZIP_INVALID_FILENAME;;
  check_total_files;;
  let archive_name_size := zlen pArchive_name in
  fail_if (MZ_UINT16_MAX <? archive_name_size) MZ_ZIP_INVALID_FILENAME;;
  num_alignment_padding_bytes ← mz_zip_writer_compute_padding_needed_for_file_alignment;
  st ← get_state;
  fail_if (MZ_UINT32_MAX <=? w64 (m_size (m_central_dir st) + MZ_ZIP_CENTRAL_DIR_HEADER_SIZE + archive_name_size
             + MZ_ZIP64_MAX_CENTRAL_EXTRA_FIELD_SIZE + zlen pComment)) MZ_ZIP_UNSUPPORTED_CDIR_SIZE;;
  use_zip64_if (negb (m_zip64 st)
    && (0xffffffff <? w64 (m_archive_size z + num_alignment_padding_bytes + MZ_ZIP_LOCAL_DIR_HEADER_SIZE
          + archive_name_size + MZ_ZIP_CENTRAL_DIR_HEADER_SIZE + archive_name_size + zlen pComment
          + zlen user_extra_data + m_size (m_central_dir st) + MZ_ZIP_END_OF_CENTRAL_DIR_HEADER_SIZE + 1024
          + MZ_ZIP_DATA_DESCRIPTER_SIZE32 + zlen user_extra_data_central)));;
  let '(dos_time, dos_date) := match pFile_time with Some t => mz_zip_time_t_to_dos_time t | None => (0, 0) end in
  let level := if max_size <=? 3 then 0 else level in
  ok ← try (mz_zip_writer_write_zeros (m_archive_size z) num_alignment_padding_bytes);
  fail_if (negb ok) MZ_ZIP_FILE_WRITE_FAILED;;
  let local_dir_header_ofs := w64 (m_archive_size z + num_alignment_padding_bytes) in
  let method := if negb (max_size =? 0) && negb (level =? 0) then MZ_DEFLATED else 0 in
  st ← get_state;
  let zip64 := m_zip64 st in
  let large := zip64 && ((MZ_UINT32_MAX <=? max_size) || (MZ_UINT32_MAX <=? local_dir_header_ofs)) in
  let extra_first := if set_size
    then mz_zip_writer_create_zip64_extra_data (if_large max_size 0) (if_large max_size 0)
           (if_large local_dir_header_ofs local_dir_header_ofs)
    else mz_zip_writer_create_zip64_extra_data None None (if_large local_dir_header_ofs local_dir_header_ofs) in
  let pExtra_data := if large then Some extra_first else None in
  ofs ← write_local_header zip64 local_dir_header_ofs pArchive_name pExtra_data true user_extra_data
          0 method gen_flags dos_time dos_date;
  '(ofs, uncomp_size, comp_size, uncomp_crc32) ←
    (if max_size =? 0 then mret (ofs, 0, 0, MZ_CRC32_INIT)
     else
       ok ← m_pAlloc MZ_ZIP_MAX_IO_BUF_SIZE;
       fail_if (negb ok) MZ_ZIP_ALLOC_FAILED;;
       if level =? 0 then
         '(ofs, size, crc) ← store_from_callback fuel callback_opaque max_size 0 ofs MZ_CRC32_INIT;
         mret (ofs, size, size, crc)
       else
         ok ← m_pAlloc sizeof_tdefl_compressor;
         fail_if (negb ok) MZ_ZIP_ALLOC_FAILED;;
         deflate_from_callback fuel callback_opaque
           (tdefl_init (tdefl_create_comp_flags_from_zip_params level (-15) MZ_DEFAULT_STRATEGY))
           max_size 0 ofs 0 MZ_CRC32_INIT);
  ofs ← (if negb set_size then write_data_descriptor ofs pExtra_data uncomp_crc32 comp_size uncomp_size else mret ofs);
  (if set_size then
     let extra_data := mz_zip_writer_create_zip64_extra_data (if_large max_size uncomp_size) (if_large max_size comp_size)
                         (if_large local_dir_header_ofs local_dir_header_ofs) in
     hdr ← mz_zip_writer_create_local_dir_header (w16 archive_name_size)
             (w16 ((if large then zlen extra_data else 0) + zlen user_extra_data))
             (if MZ_UINT32_MAX <=? max_size then MZ_UINT32_MAX else uncomp_size)
             (if MZ_UINT32_MAX <=? max_size then MZ_UINT32_MAX else comp_size)
             uncomp_crc32 method gen_flags dos_time dos_date;
     write_exact local_dir_header_ofs hdr MZ_ZIP_FILE_WRITE_FAILED;;
     if large then
       let hofs := w64 (local_dir_header_ofs + MZ_ZIP_LOCAL_DIR_HEADER_SIZE) in
       write_exact hofs pArchive_name MZ_ZIP_FILE_WRITE_FAILED;;
       write_exact (w64 (hofs + archive_name_size)) extra_data MZ_ZIP_FILE_WRITE_FAILED
     else mret tt
   else mret tt);;
  let extra_central := if large
    then mz_zip_writer_create_zip64_extra_data (if_large uncomp_size uncomp_size) (if_large uncomp_size comp_size)
           (if_large local_dir_header_ofs local_dir_header_ofs)
    else [] in
  mz_zip_writer_add_to_central_dir pArchive_name extra_central pComment uncomp_size comp_size
    uncomp_crc32 method gen_flags dos_time dos_date local_dir_header_ofs 0 user_extra_data_central;;
  mod_zip (fun z => set_m_archive_size ofs (set_m_total_files (w32 (m_total_files z + 1)) z)).

End Add.
(** ** Finishing the archive *)

Section Finalize.
Context {E : Type} `{ZipEnv E}.

(** The records at the end, in a cleared buffer of 256 bytes. *)
Definition zip64_end_record (total_files central_dir_size central_dir_ofs : Z) : zm E bytes :=
  let hdr := replicate 256 nul in
  hdr ← mz_write_le32 hdr MZ_ZIP64_ECDH_SIG_OFS MZ_ZIP64_END_OF_CENTRAL_DIR_HEADER_SIG;
  hdr ← mz_write_le64 hdr MZ_ZIP64_ECDH_SIZE_OF_RECORD_OFS (MZ_ZIP64_END_OF_CENTRAL_DIR_HEADER_SIZE - 4 - 8);
  hdr ← mz_write_le16 hdr MZ_ZIP64_ECDH_VERSION_MADE_BY_OFS 0x031e;
  hdr ← mz_write_le16 hdr MZ_ZIP64_ECDH_VERSION_NEEDED_OFS 0x002d;
  hdr ← mz_write_le64 hdr MZ_ZIP64_ECDH_CDIR_NUM_ENTRIES_ON_DISK_OFS total_files;
  hdr ← mz_write_le64 hdr MZ_ZIP64_ECDH_CDIR_TOTAL_ENTRIES_OFS total_files;
  hdr ← mz_write_le64 hdr MZ_ZIP64_ECDH_CDIR_SIZE_OFS central_dir_size;
  hdr ← mz_write_le64 hdr MZ_ZIP64_ECDH_CDIR_OFS_OFS central_dir_ofs;
  read_mem hdr 0 MZ_ZIP64_END_OF_CENTRAL_DIR_HEADER_SIZE.

Definition zip64_end_locator (rel_ofs_to_zip64_ecdr : Z) : zm E bytes :=
  let hdr := replicate 256 nul in
  hdr ← mz_write_le32 hdr MZ_ZIP64_ECDL_SIG_OFS MZ_ZIP64_END_OF_CENTRAL_DIR_LOCATOR_SIG;
  hdr ← mz_write_le64 hdr MZ_ZIP64_ECDL_REL_OFS_TO_ZIP64_ECDR_OFS rel_ofs_to_zip64_ecdr;
  hdr ← mz_write_le32 hdr MZ_ZIP64_ECDL_TOTAL_NUMBER_OF_DISKS_OFS 1;
  read_mem hdr 0 MZ_ZIP64_END_OF_CENTRAL_DIR_LOCATOR_SIZE.

Definition end_record (total_files central_dir_size central_dir_ofs : Z) : zm E bytes :=
  let hdr := replicate 256 nul in
  hdr ← mz_write_le32 hdr MZ_ZIP_ECDH_SIG_OFS MZ_ZIP_END_OF_CENTRAL_DIR_HEADER_SIG;
  hdr ← mz_write_le16 hdr MZ_ZIP_ECDH_CDIR_NUM_ENTRIES_ON_DISK_OFS (Z.min MZ_UINT16_MAX total_files);
  hdr ← mz_write_le16 hdr MZ_ZIP_ECDH_CDIR_TOTAL_ENTRIES_OFS (Z.min MZ_UINT16_MAX total_files);
  hdr ← mz_write_le32 hdr MZ_ZIP_ECDH_CDIR_SIZE_OFS (Z.min MZ_UINT32_MAX central_dir_size);
  hdr ← mz_write_le32 hdr MZ_ZIP_ECDH_CDIR_OFS_OFS (Z.min MZ_UINT32_MAX central_dir_ofs);
  read_mem hdr 0 MZ_ZIP_END_OF_CENTRAL_DIR_HEADER_SIZE.

(** [m_pWrite] at the end of the archive, which then grows. *)
Definition append_archive (b : bytes) : zm E unit :=
  z ← get_zip;
  write_exact (m_archive_size z) b MZ_ZIP_FILE_WRITE_FAILED;;
  mod_zip (fun z => set_m_archive_size (w64 (m_archive_size z + zlen b)) z).

Definition mz_zip_writer_finalize_archive : zm E unit :=
  z ← get_zip;
  fail_if (negb (bool_decide (is_Some (m_pState z))) || negb (bool_decide (m_zip_mode z = MZ_ZIP_MODE_WRITING)))
    MZ_ZIP_INVALID_PARAMETER;;
  st ← get_state;
  let size := m_size (m_central_dir st) in
  (if m_zip64 st then
     fail_if ((MZ_UINT32_MAX <? m_total_files z) || (MZ_UINT32_MAX <=? size)) MZ_ZIP_TOO_MANY_FILES
   else
     fail_if ((MZ_UINT16_MAX <? m_total_files z)
              || (MZ_UINT32_MAX <? w64 (m_archive_size z + size + MZ_ZIP_END_OF_CENTRAL_DIR_HEADER_SIZE)))
       MZ_ZIP_TOO_MANY_FILES);;
  let central_dir_ofs := if m_total_files z =? 0 then 0 else m_archive_size z in
  let central_dir_size := if m_total_files z =? 0 then 0 else size in
  (if negb (m_total_files z =? 0) then
     mod_zip (set_m_central_directory_file_ofs central_dir_ofs);;
     cd ← read_mem (m_p (m_central_dir st)) 0 central_dir_size;
     append_archive cd
   else mret tt);;
  (if m_zip64 st then
     z ← get_zip;
     let rel_ofs_to_zip64_ecdr := m_archive_size z in
     hdr ← zip64_end_record (m_total_files z) central_dir_size central_dir_ofs;
     append_archive hdr;;
     hdr ← zip64_end_locator rel_ofs_to_zip64_ecdr;
     append_archive hdr
   else mret tt);;
  hdr ← end_record (m_total_files z) central_dir_size central_dir_ofs;
  append_archive hdr;;
  mod_zip (set_m_zip_mode MZ_ZIP_MODE_WRITING_HAS_BEEN_FINALIZED).

(** The heap block and its size are the result. *)
Definition mz_zip_writer_finalize_heap_archive : zm E (option bytes * Z) :=
  z ← get_zip;
  fail_if (negb (bool_decide (is_Some (m_pState z)))) MZ_ZIP_INVALID_PARAMETER;;
  fail_if (match m_pWrite z with IO_MEM => false | _ => true end) MZ_ZIP_INVALID_PARAMETER;;
  mz_zip_writer_finalize_archive;;
  st ← get_state;
  mod_state (fun st => set_m_pMem None (set_m_mem_size 0 st));;
  mret (m_pMem st, m_mem_size st).

End Finalize.

(** ** Streaming downloads: [create_zip.cpp] *)

(** [MiniZFileInfo]: the offset the next write must have; the connection is the
    bytes sent and whether [WriteRaw] still succeeds. *)
Record MiniZFileInfo := { file_offset : Z; sent : bytes; connected : bool }.

Definition my_mz_write_func (fileInfo : MiniZFileInfo) (file_ofs : Z) (pBuf : bytes) : Z * MiniZFileInfo :=
  if negb (file_offset fileInfo =? file_ofs) then (0, fileInfo)
  else
    let b := connected fileInfo in
    ((if b then zlen pBuf else 0),
     {| file_offset := w64 (file_ofs + zlen pBuf); sent := if b then sent fileInfo ++ pBuf else sent fileInfo;
        connected := b |}).

Definition my_miniz_init {E} `{ZipEnv E} : zm E unit :=
  mod_zip (set_m_pWrite IO_USER);;
  mz_zip_writer_init_v2 0 MZ_ZIP_FLAG_CASE_SENSITIVE.
