(* ===== verification/ZipTheorems.v ===== *)
(** ZIP archives: what the reader guarantees.

    The properties of the reader, on an environment given by its callbacks, and
    the archives on which they are tried.  Three of them show where the code
    does not do what it means to: an end record that is not found, a size check
    that is not made, and a sum of sizes that wraps around. *)
From S2P Require Import Prelude ZipBase ZipSort ZipReader ZipSafety Checksum.

(** ** An environment and archives to run on *)

(** Memory is granted, nothing else works, and the clock stands still. *)
#[local] Instance still : ZipEnv unit := {|
  user_write := fun e _ _ => (0, e); user_read := fun e _ _ => ([], e);
  user_needs_keepalive := fun e => (false, e); user_alloc := fun e _ => (true, e);
  cur_time := fun e => (0, e);
  localtime := fun _ => {| tm_sec := 10; tm_min := 20; tm_hour := 3; tm_mday := 4; tm_mon := 5; tm_year := 120 |};
  mktime := fun _ => 7; junk := "?"%char |}.

(** An inflator for streams that are their own compression. *)
#[local] Instance copying : Inflator unit := {|
  tinfl_init := tt;
  tinfl_decompress := fun t win _ room flags =>
    let o := ztake room win in
    (if has_flag flags TINFL_FLAG_HAS_MORE_INPUT && (zlen o =? zlen win) then 1 else 0, zlen o, o, t) |}.
#[local] Instance copying_ok : InflatorOk unit.
Proof.
  split; cbn; intros t win out room flags status used o t' Et.
  - injection Et as <- <- <- _. intros Hr. rewrite zlen_ztake by done. pose proof (zlen_nonneg win). lia.
  - injection Et as <- <- <- _. destruct (has_flag _ _); cbn [andb]; [|done].
    destruct (Z.eqb_spec (zlen (ztake room win)) (zlen win)); done.
Qed.

Definition zeroed : zst unit := Zst mz_zip_zero_struct tt.

(** One entry, its central directory record, and the end record. *)
Definition local_part (method crc comp uncomp : Z) (name data : bytes) : bytes :=
  le_bytes 4 MZ_ZIP_LOCAL_DIR_HEADER_SIG ++ le_bytes 2 20 ++ le_bytes 2 0 ++ le_bytes 2 method ++ le_bytes 4 33 ++
  le_bytes 4 crc ++ le_bytes 4 comp ++ le_bytes 4 uncomp ++ le_bytes 2 (zlen name) ++ le_bytes 2 0 ++ name ++ data.
Definition central_part (method crc comp uncomp ofs : Z) (name extra : bytes) : bytes :=
  le_bytes 4 MZ_ZIP_CENTRAL_DIR_HEADER_SIG ++ le_bytes 2 20 ++ le_bytes 2 20 ++ le_bytes 2 0 ++ le_bytes 2 method ++
  le_bytes 4 33 ++ le_bytes 4 crc ++ le_bytes 4 comp ++ le_bytes 4 uncomp ++ le_bytes 2 (zlen name) ++
  le_bytes 2 (zlen extra) ++ le_bytes 2 0 ++ le_bytes 2 0 ++ le_bytes 2 0 ++ le_bytes 4 0 ++ le_bytes 4 ofs ++ name ++ extra.
Definition end_part (files size ofs : Z) (comment : bytes) : bytes :=
  le_bytes 4 MZ_ZIP_END_OF_CENTRAL_DIR_HEADER_SIG ++ le_bytes 4 0 ++ le_bytes 2 files ++ le_bytes 2 files ++
  le_bytes 4 size ++ le_bytes 4 ofs ++ le_bytes 2 (zlen comment) ++ comment.

(** Two stored entries. *)
Definition two_entries : bytes :=
  let a := local_part 0 (mz_crc32 MZ_CRC32_INIT (str "hello")) 5 5 (str "Dir/Zeta") (str "hello") in
  let b := local_part 0 (mz_crc32 MZ_CRC32_INIT (str "abc")) 3 3 (str "alpha") (str "abc") in
  let c := central_part 0 (mz_crc32 MZ_CRC32_INIT (str "hello")) 5 5 0 (str "Dir/Zeta") [] ++
           central_part 0 (mz_crc32 MZ_CRC32_INIT (str "abc")) 3 3 (zlen a) (str "alpha") [] in
  a ++ b ++ c ++ end_part 2 (zlen c) (zlen (a ++ b)) [].

Definition run {A} (m : zm unit A) : outcome A := fst (m zeroed).
Definition opened_two : zst unit := snd (mz_zip_reader_init_mem two_entries 0 zeroed).

Example open_two : run (mz_zip_reader_init_mem two_entries 0;;
  i ← mz_zip_reader_locate_file_v2 (str "ALPHA") None 0;
  j ← mz_zip_reader_locate_file_v2 (str "zeta") None MZ_ZIP_FLAG_IGNORE_PATH;
  b ← mz_zip_reader_extract_to_heap (T := unit) j 0; mret (i, j, b)) = MzTrue (1, 0, str "hello").
Proof. vm_compute. reflexivity. Qed.

(** ** Properties *)

(** C23: Opening any block of memory, or any medium behind a read callback, as an
    archive ends without an access outside an allocation.  If it succeeds, the
    archive is open for reading: every entry's record lies in the loaded central
    directory with its name, extra data and comment, and the index array is a
    permutation of the entries along which the names ascend. *)
Theorem mz_zip_reader_init_safe {E} `{ZipEnv E} (s : zst E) (flags : Z) :
  closed (zip s) ->
  (forall pMem, zlen pMem < 2 ^ 63 - 2 ^ 20 ->
     wp True (mz_zip_reader_init_mem pMem flags) (fun _ s' => reader_ok flags (zip s')) s) /\
  (forall size, m_pRead (zip s) <> IO_MEM -> 0 <= size < 2 ^ 63 - 2 ^ 20 ->
     wp True (mz_zip_reader_init size flags) (fun _ s' => reader_ok flags (zip s')) s).
Proof.
  intros Hc. split.
  - intros pMem Hl. by apply init_mem_safe.
  - intros size Hr Hs. by apply init_safe.
Qed.
(** From a statement on all runs to a run that has been computed. *)
Lemma wp_ran {E A} `{ZipEnv E} (F : Prop) (m : zm E A) (Q : A -> zst E -> Prop) s a :
  wp F m Q s -> fst (m s) = MzTrue a -> Q a (snd (m s)).
Proof. unfold wp. destruct (m s) as [o s']. cbn. by intros W ->. Qed.
Lemma opened_two_ok : reader_ok 0 (zip opened_two).
Proof.
  apply (wp_ran True (mz_zip_reader_init_mem two_entries 0) (fun _ s' => reader_ok 0 (zip s')) zeroed tt).
  - apply init_mem_safe; [split; reflexivity|vm_compute; reflexivity|]. intros s' R. exact R.
  - vm_compute. reflexivity.
Qed.
Lemma mz_zip_reader_init_safe_witness :
  wp True (mz_zip_reader_init_mem two_entries 0) (fun _ s' => reader_ok 0 (zip s')) zeroed.
Proof. refine (proj1 (mz_zip_reader_init_safe zeroed 0 _) two_entries _); [split; reflexivity|vm_compute; reflexivity]. Defined.

(** C25: On an open archive the functions that look at an entry, whatever its index,
    stay inside the allocations and end; they leave the archive open and as it was.  So
    do those that extract an entry into a buffer of any size, which keeps its length, if
    the archive has less than 2^63 - 2^20 bytes, the entry's compressed size is less
    than 2^63 ([comp_small]; [mz_zip_comp_size_wraps] shows an opened archive for which
    the code's sums wrap around otherwise), and the inflator keeps to its documentation.
    *)
Theorem mz_zip_reader_entry_safe {E T} `{ZipEnv E} `{InflatorOk T} (flags i : Z) (s : zst E) :
  reader_ok flags (zip s) -> 0 <= i ->
  wp True (mz_zip_reader_is_file_encrypted i) (fun _ => same_view s) s /\
  wp True (mz_zip_reader_is_file_supported i) (fun _ => same_view s) s /\
  wp True (mz_zip_reader_is_file_a_directory i) (fun _ => same_view s) s /\
  wp True (mz_zip_reader_file_stat i) (fun x s' => same_view s s' /\ stat_ok x) s /\
  (forall n, 0 <= n -> wp True (mz_zip_reader_get_filename i n) (fun _ => same_view s) s) /\
  (forall pBuf user, (forall n, user = Some n -> 0 <= n) -> m_archive_size (zip s) < 2 ^ 63 - 2 ^ 20 -> comp_small s i ->
     forall f, wp True (mz_zip_reader_extract_to_mem_no_alloc i pBuf f user)
                 (fun b s' => same_view s s' /\ zlen b = zlen pBuf) s).
Proof.
  intros Hok Hi. split_and!.
  - apply (is_encrypted_safe flags); auto.
  - apply (is_supported_safe flags); auto.
  - apply (is_a_directory_safe flags); auto.
  - apply (file_stat_safe flags); auto.
  - intros n Hn. apply (get_filename_safe flags); auto.
  - intros pBuf user Hu Hs Hc f. apply (extract_to_mem_safe flags); auto.
Qed.
Definition comp_of (o : outcome mz_zip_archive_file_stat) : Z := match o with MzTrue x => m_comp_size x | _ => 0 end.
Lemma mz_zip_reader_entry_safe_witness :
  reader_ok 0 (zip opened_two) /\ fst (mz_zip_reader_extract_to_mem_no_alloc 1 (str "???") 0 None opened_two) = MzTrue (str "abc") /\
  wp True (mz_zip_reader_extract_to_mem_no_alloc 1 (str "???") 0 None)
    (fun b s' => same_view opened_two s' /\ zlen b = 3) opened_two.
Proof.
  split; [exact opened_two_ok|]. split; [vm_compute; reflexivity|].
  refine (proj2 (proj2 (proj2 (proj2 (proj2 (mz_zip_reader_entry_safe 0 1 opened_two opened_two_ok _))))) (str "???") None _ _ _ 0);
    [lia|discriminate|vm_compute; reflexivity|].
  intros x s' Hr. assert (Hc : comp_of (fst (mz_zip_reader_file_stat 1 opened_two)) = 3) by (vm_compute; reflexivity).
  rewrite Hr in Hc. cbn in Hc. lia.
Defined.

(** C24: Looking an entry up by name on an open archive, with any flags and an
    optional comment, yields the index of an entry that matches -- by binary
    search along the sorted names or by scanning, as the flags require -- and
    fails only when no entry does.  [mz_zip_reader_locate_file] yields the same
    index, or -1. *)
Theorem mz_zip_reader_locate_file_correct {E} `{ZipEnv E} (init_flags : Z) (name : bytes) (comment : option bytes)
    (flags : Z) (s : zst E) :
  reader_ok init_flags (zip s) -> zlen name < 2 ^ 31 ->
  let found i := 0 <= i < m_total_files (zip s) /\ matches s name (default [] comment) flags i in
  wp (forall i, ~ found i) (mz_zip_reader_locate_file_v2 name comment flags) (fun i s' => s' = s /\ found i) s /\
  (m_total_files (zip s) <= 2 ^ 31 ->
   wp False (mz_zip_reader_locate_file name comment flags)
     (fun i _ => i = -1 /\ (forall j, ~ found j) \/ found i) s).
Proof.
  intros Hok Hn found.
  assert (W : wp (forall i, ~ found i) (mz_zip_reader_locate_file_v2 name comment flags) (fun i s' => s' = s /\ found i) s).
  { apply (locate_file_v2_spec init_flags); [done|done| |].
    - intros Hno i [Hi Hm]. by apply (Hno i).
    - intros j Hj Hm. done. }
  split; [done|]. intros Ht. unfold wp, mz_zip_reader_locate_file in *.
  destruct (mz_zip_reader_locate_file_v2 name comment flags s) as [[i| |] s']; cbn; [| |done].
  - right. destruct W as [-> Hf]. rewrite s32_id; [done|]. destruct Hf. lia.
  - left. split; [done|]. exact W.
Qed.
Lemma mz_zip_reader_locate_file_correct_witness :
  fst (mz_zip_reader_locate_file_v2 (str "ALPHA") None 0 opened_two) = MzTrue 1 /\
  wp (forall i, ~ (0 <= i < m_total_files (zip opened_two) /\ matches opened_two (str "ALPHA") [] 0 i))
    (mz_zip_reader_locate_file_v2 (str "ALPHA") None 0)
    (fun i s' => s' = opened_two /\ 0 <= i < m_total_files (zip opened_two) /\ matches opened_two (str "ALPHA") [] 0 i) opened_two.
Proof.
  split; [vm_compute; reflexivity|].
  refine (proj1 (mz_zip_reader_locate_file_correct 0 (str "ALPHA") None 0 opened_two opened_two_ok _)). vm_compute. reflexivity.
Defined.

(** ** Where the code does not do what it means to *)

(** C34: The scan for the end record goes back from the last 4096 bytes in steps
    of 4093; the last step is meant to be clamped to offset 0, but the offset is
    computed unsigned, so the clamp does nothing and the wrapped offset makes the
    scan fail.  An archive of 4096 bytes or more whose only end record starts in
    the bytes before the last full step is therefore refused, for example an
    empty archive with a comment of 4075 bytes. *)
Theorem mz_zip_reader_misses_end_record {E} `{ZipEnv E} (s : zst E) (pMem : bytes) (flags : Z) :
  closed (zip s) -> 4096 <= zlen pMem < 2 ^ 63 - 2 ^ 20 ->
  no_sig pMem ((zlen pMem - 4096) mod 4093) (zlen pMem - 3) ->
  fst (mz_zip_reader_init_mem pMem flags s) = MzFalse.
Proof.
  intros Hc Hl Hn. pose proof (init_mem_missed s pMem flags Hc Hl Hn) as W. unfold wp in W.
  destruct (mz_zip_reader_init_mem pMem flags s) as [[[]| |] s']; done.
Qed.
Definition commented (n : Z) : bytes := end_part 0 0 0 (replicate (Z.to_nat n) "x"%char).
Lemma no_sig_from (buf : bytes) lo hi :
  0 <= lo -> hi + 3 <= zlen buf -> Forall (fun c => c <> "P"%char) (zdrop lo buf) -> no_sig buf lo hi.
Proof.
  intros Hlo Hhi Hf o Ho. rewrite (zsub_cons nul) by lia. cbn [le_val].
  assert (Hc : znth nul buf o <> "P"%char).
  { rewrite Forall_forall in Hf. apply Hf. apply list_elem_of_lookup. exists (Z.to_nat (o - lo)).
    rewrite (lookup_znth nul) by (rewrite zlen_zdrop; lia). rewrite znth_zdrop by lia. do 2 f_equal. lia. }
  set (v := le_val _). pose proof (u8_range (znth nul buf o)). intros Hv. apply Hc.
  assert (Hu : u8 (znth nul buf o) = 80) by (unfold MZ_ZIP_END_OF_CENTRAL_DIR_HEADER_SIG in Hv; lia).
  rewrite <- (chr_u8 (znth nul buf o)), Hu. reflexivity.
Qed.
Lemma mz_zip_reader_misses_end_record_witness :
  fst (mz_zip_reader_init_mem (commented 10) 0 zeroed) = MzTrue tt /\
  fst (mz_zip_reader_init_mem (commented 4075) 0 zeroed) = MzFalse.
Proof.
  split; [vm_compute; reflexivity|].
  apply (mz_zip_reader_misses_end_record zeroed (commented 4075) 0); [split; reflexivity|split; vm_compute; done|].
  apply no_sig_from; [done|vm_compute; done|].
  assert (Hb : forallb (fun c => negb (Ascii.eqb c "P")) (zdrop 1 (commented 4075)) = true) by (vm_compute; reflexivity).
  apply Forall_forall. intros c Hc. apply list_elem_of_In in Hc. rewrite forallb_forall in Hb. specialize (Hb c Hc).
  intros ->. done.
Defined.

(** The check that a stored entry's two sizes agree reads the method and the
    time of the record as one 32-bit value, so that it is made only for entries
    whose time is 0: an archive whose stored entry claims 5 bytes compressed and
    9 uncompressed is opened, and the extraction of that entry reads 9 bytes. *)
Definition stored_mismatch : bytes :=
  let a := local_part 0 0 5 9 (str "a") (str "hello") in
  let c := central_part 0 0 5 9 0 (str "a") [] in a ++ c ++ end_part 1 (zlen c) (zlen a) [].
Theorem mz_zip_stored_sizes_unchecked :
  run (mz_zip_reader_init_mem stored_mismatch 0;; st ← mz_zip_reader_file_stat 0;
       mret (m_method st, m_comp_size st, m_uncomp_size st)) = MzTrue (0, 5, 9).
Proof. vm_compute. reflexivity. Qed.

(** The check that a compressed entry lies in the archive adds its 64-bit
    compressed size to its offset modulo 2^64: for a deflated entry whose zip64
    field gives the size 2^64 - 1, in an archive in memory, the inflator is
    handed the whole address range behind the entry. *)
Definition huge_entry : bytes :=
  let a := local_part 8 0 5 5 (str "a") (str "hello") in
  let c := central_part 8 0 MZ_UINT32_MAX 5 0 (str "a") (le_bytes 2 1 ++ le_bytes 2 8 ++ le_bytes 8 (2 ^ 64 - 1)) in
  a ++ c ++ end_part 1 (zlen c) (zlen a) [].
Theorem mz_zip_comp_size_wraps :
  run (mz_zip_reader_init_mem huge_entry 0;; st ← mz_zip_reader_file_stat 0; mret (m_comp_size st)) = MzTrue (2 ^ 64 - 1) /\
  run (mz_zip_reader_init_mem huge_entry 0;; mz_zip_reader_extract_to_mem_no_alloc (T := unit) 0 (str "12345") 0 None) = Bad.
Proof. vm_compute. split; reflexivity. Qed.
